(* ===== verification/_CoqProject ===== *)
-Q . S2P
Prelude.v
TrustErr.v
StoreMonad.v
CryptoSuite.v
Model.v
TrustCrypto.v
Cborx.v
KeyDescriptor.v
KeyCodec.v
KeyCodecProofs.v
Instances.v
ModelSuite.v
Rfc6962.v
Merkle.v
MerkleProofs.v
GlobalStore.v
GlobalLog.v
GlobalLogProofs.v
GlobalLogExamples.v
AnchorSchedule.v
AnchorScheduleProofs.v
AnchorExamples.v
L5Coverage.v
AnchorStore.v
AnchorStoreProofs.v
AnchorStoreOps.v
AnchorStoreExamples.v
ProofLevel.v
Claim.v
Receipt.v
Ots.v
OtsProofs.v
AnchorId.v
RecordSearch.v
RecordSearchProofs.v
RecordIndex.v
RecordIndexOps.v
RecordListing.v
RecordIndexExamples.v
Outbox.v
OutboxOps.v
OutboxRecords.v
OutboxExamples.v
L5Projector.v
L5System.v
L5Examples.v
Verify.v
VerifyProofs.v
Idempotency.v
IdemIndex.v
IdemIndexProofs.v
Wal.v
WalProofs.v
WalDir.v
WalDirProofs.v
WalQueue.v
WalQueueProofs.v
WalExamples.v
KeyStore.v
KeyStoreProofs.v
KeyLifecycle.v
KeyStoreRecovery.v
KeyExamples.v
App.v
AppProofs.v
AppReplay.v
AppExamples.v
BatchCheckpoint.v
BatchCheckpointProofs.v
BatchStore.v
BatchStoreProofs.v
BatchCommitted.v
BatchService.v
BatchServiceProofs.v
BatchQueue.v
BatchReplay.v
BatchReplayProofs.v
BatchExamples.v
