(* ===== verification/Prelude.v ===== *)
(** * TrustDB: a Rocq model of the evidence core

    TrustDB is an evidence database.  A client signs a claim about some
    content; the server checks the claim, appends it to a write-ahead log and
    answers with a signed receipt (level L2); batches of records are committed
    under Merkle roots (L3); batch roots are appended to a global transparency
    log with signed tree heads (L4); tree heads are published to external
    anchors (L5).  An offline verifier checks the evidence of a record from the
    content, the proof files and the trusted keys alone.  This library models
    that path, from the bytes of the log to the verdict of the verifier, and
    proves what it promises.

    ** Conventions

    The model is a shallow embedding.  A Go [uint64] or [int] is a [Z] with the
    wrap-around written out ([u64], [i64] below), a slice of bytes is a list of
    bytes, a struct is a record with the fields of the source (one module per
    struct in [Model.v]), a Go map is a [gmap].  A function that returns a value
    and an error is a [result]; one that may also panic or fail to terminate is
    a [go] ([TrustErr.v]), whose value [Stuck] theorems exclude or exhibit.
    Error messages keep the format string of the source, not the formatted
    arguments.  Time is an [int64] of nanoseconds that the caller passes in.

    What is not in the repository is a parameter, and its documented behaviour
    a named law: hash functions ([HashLib], digests of 32 bytes), signature
    schemes ([SigLib]; that a signer's signatures verify is the hypothesis
    [signs_for] of the theorems that need it; a signer of the model makes fixed
    signatures, and since those of CN_SM_V1 are randomized, what is signed in two
    processes is compared for two signers with the same key), the CBOR modes ([CborMode]: the
    encoding is injective, [CborModeInjective], and the decoder, which checks
    that text is UTF-8, inverts it on such values, [CborModeRoundTrip]; the
    encoder does not check), URLs ([UrlLib]), certificates ([CertLib]), the
    decoder of OTS envelopes, the hash functions of OpenTimestamps, the Unicode
    tables ([UnicodeLib]), the texts of errors ([ErrorText]).  Stored values are
    only required to decode to what was encoded, if at all ([CborModeExact]).
    [Instances.v] and the example files instantiate them with executable
    functions, on which the witnesses evaluate the theorems.
    Security statements do not assume collision resistance: they conclude that
    the property holds or exhibit the two different inputs with one digest.

    ** Files, in dependency order, and the sources under src/internal/

    - [Prelude]: machine integers, bytes, big-endian fields, list lemmas, the
      tactics and the hint database of the development.
    - [TrustErr]: trusterr/trusterr.go, errors and the monads.  [StoreMonad]: the
      state-and-error monad of the store operations, its Hoare rules, and rules
      for operations that keep an invariant whether they succeed or fail.
    - [CryptoSuite]: cryptosuite/registry.go.  [Model]: model/types.go,
      model/idempotency.go, model/batch_commit.go.  [ModelSuite]:
      modelsuite/validate.go.
    - [TrustCrypto]: trustcrypto/provider.go, crypto.go, sm2.go,
      signature_input.go.  [Cborx]: cborx/cborx.go and the text fields of the
      encoded structs.  [Instances]: concrete parameters.
    - [KeyDescriptor], [KeyCodec], [KeyCodecProofs]: keydescriptor/descriptor.go,
      its data, validation and canonical encoding.
    - [Rfc6962]: reference definitions of tree heads, audit paths and
      consistency proofs.  [Merkle], [MerkleProofs]: merkle/merkle.go and
      profile.go.
    - [GlobalStore]: the store interface of globallog/service.go as a class, and
      the global-log tables of proofstore/pebble/store.go, which implement it.
      [GlobalLog], [GlobalLogProofs], [GlobalLogExamples]: globallog/service.go, proved against the interface and instantiated.
    - [AnchorSchedule], [AnchorScheduleProofs], [AnchorExamples]:
      anchorschedule/schedule.go as a state machine.  [L5Coverage]:
      l5coverage/checkpoint.go.  [ProofLevel]: prooflevel/prooflevel.go.
    - [AnchorStore], [AnchorStoreProofs], [AnchorStoreOps],
      [AnchorStoreExamples]: the anchor tables of proofstore/pebble/store.go, with
      the L5 checkpoints.
    - [RecordSearch], [RecordSearchProofs]:
      model/record_index.go and the levels of model/pagination.go.
    - [RecordIndex], [RecordIndexOps], [RecordListing], [RecordIndexExamples]: the
      record index of proofstore/pebble/store.go, its promotions, levels and listings.
    - [Outbox], [OutboxOps], [OutboxRecords], [OutboxExamples]:
      globallog/outbox.go and the outbox tables of proofstore/pebble/store.go,
      composed with the global log, the anchor tables and the record index.
    - [L5Projector], [L5System], [L5Examples]:
      l5projector/service.go, and the system of the outbox worker, the anchor
      tables, the record index and the projector.
    - [Claim]: claim/claim.go.  [Receipt]: receipt/receipt.go.  [Ots],
      [OtsProofs]: anchor/ots_parse.go.  [AnchorId]: the identifiers and OTS
      envelopes of anchor/file_sink.go and anchor/ots_sink.go.
    - [Verify], [VerifyProofs]: verify/verify.go and stage.go.
    - [Idempotency]: idempotency/decision.go.  [IdemIndex], [IdemIndexProofs]:
      app/idempotency.go.
    - [Wal], [WalProofs]: the record codec, scan and repair of wal/wal.go.
      [WalDir], [WalDirProofs]: segments, the directory writer, rotation,
      pruning.  [WalQueue], [WalQueueProofs]: the FIFO of append reservations.
      [WalExamples]: concrete runs.
    - [KeyStore], [KeyStoreProofs]: keystore/registry.go, the signed event file.
      [KeyLifecycle]: the state of a key against its history.
      [KeyStoreRecovery]: requests, faults and restarts.  [KeyExamples]:
      concrete runs.
    - [App], [AppProofs], [AppReplay], [AppExamples]: app/local.go, the engine
      that composes all of the above, also with the registry as its key resolver.
    - [BatchCheckpoint], [BatchCheckpointProofs]: the checkpoint of the log of batch/service.go, against a class of stores.
      [BatchStore], [BatchStoreProofs], [BatchCommitted]: the batch tables of proofstore/pebble/store.go, whose commits
      may fail or stop the process, with the store class of the checkpoint.
      [BatchService], [BatchServiceProofs]: batch/service.go and batch/parse.go,
      against a class of engines.  [BatchQueue]: the producers, the worker and the
      shutdown.  [BatchReplay], [BatchReplayProofs]: the replay of the log at the
      start of the server, in cmd/trustdb/serve_cmd.go, and the histories in which
      its steps come between those of the service.  [BatchExamples]: the engine of [App] satisfies the laws of that
      class, and concrete runs.

    ** What the theorems show

    - Log: the codec round-trips, the strict scan accepts exactly the unbroken
      chains, a torn tail is repaired to the complete records, equal last hashes
      mean equal files; under every interleaving of reservations, failures,
      closes and restarts no acknowledged append is lost, order is FIFO, and
      without failures the log holds exactly the acknowledged appends.
    - Merkle trees: roots and paths are those of RFC 6962, verification decides
      the RFC check up to [2 ^ 62] leaves and does not return above, an accepted
      path means the leaf is in the tree, a root binds its records.
    - Global log: append-only under retries and concurrent writers, idempotent
      replays, conflicts refused; inclusion and consistency proofs exist for
      every size and verify.
    - Anchoring: every reachable schedule is valid, leases exclude other
      workers, a merged head is never lost, windows do not slide, claims make
      progress; the OTS parser accepts exactly its grammar and can panic.  In the
      anchor tables the cached latest result is the greatest stored one, a tree
      size has one root, results are immutable, candidates survive.
    - Records: the token table removes repetitions exactly and always ends; a
      promotion raises exactly the records of the batch below the level, and none
      in a time-only index; a listing is the filter of all records in the order
      of their positions, whichever table it scans.
    - Outbox: an item is published only with a head of the log that contains its
      batch, all its records then being at L4 or above; the pending listing is
      the due items in order; the delays between retries are exact.
    - Levels: a record is at L5 only if the stored anchor of a head that covers it
      provides offline evidence; what the checkpoint covers has been promoted; the
      projector catches up with the stored anchors.
    - Batches: under failing commits, crashes, restarts and replays at any point,
      the log is only pruned below records whose bundle is stored in a committed
      batch; what was announced to the global log stays committed; committed
      bundles, manifests and decisions never change.  These histories assume that
      a new batch has a new id and records of no stored batch, that a manifest is
      recovered as it is stored, and that the loader gives the records of the
      manifest (which the one of the program does for distinct ids).  When the
      service starts, the checkpoint is the greatest contiguous prefix of what was
      committed since or covered by the stored one; stored bundles decode to
      themselves; every accepted record is handed to the commit of one batch, in
      order, also by a shutdown.
    - Idempotency: the bounded index over the durable store with replay after a
      restart behaves as a map from identities to their first acceptance, but for
      two errors: a failing read, and decisions of CN_SM_V1 that are not cached.
    - Keys: descriptors round-trip exactly; an accepted material path stays
      below its directory; registry evidence that opens is the encoding of one
      chain, bound by its last hash; a registry is recovered after any crash;
      a lookup answers what the history of the key says; submissions need a
      live key.  Ways to lose the registry or a replay are proved.
    - Engine and verifier: what [Submit] answered is rebuilt from the log after
      any crash, with the receipt signed anew; what the engine commits the verifier accepts; what the verifier
      accepts satisfies every binding of the evidence.

    ** Fuel

    Recursions that Go bounds by the data carry fuel, and the theorems say that
    the fuel is enough.  Merkle recursion: 63 exceeds the number of levels of
    [2 ^ 62] leaves.  The OTS walk: more than the number of unread bytes.  The
    log scan: more than the length of the file.  The append retry loop of the
    global log has the bound of the source.  The probe sequence of the token
    table: its number of slots.  The projector: more than the number of leaves,
    since every page but the last advances.  The retry delay of a
    materialization: 11, since ten doublings exceed a minute.

    ** Not modelled

    Storage engines other than Pebble (files, TiKV), and of Pebble the opening of
    a database, the listings for the admin pages, the reads of trees and roots and
    the rebuild of the idempotency projection; commits of artifacts without a sync
    (the chunk mode, where a commit that returned is durable, is modelled).
    Network and process I/O (HTTP, gRPC, NATS, object stores, anchoring sinks),
    the ingest and anchor workers, and of the outbox, the projector and the batch
    service their timers and metrics; in the batch service each function is one
    step of an interleaving, and the fallbacks for stores and engines that lack
    the optional interfaces are left out.  Configuration, commands (but for the
    start-up replay), key storage
    and hardware signers, backups, migrations and the client libraries.  Within
    the modelled files: buffer pools and wrappers that fix the default suite, the binding
    file and the namespace locks of the log, cancellation of contexts in batch
    computation (its proof workers run in index order), and key generation. *)

From stdpp Require Export base numbers list gmap strings.
From Stdlib Require Export ZArith Lia.
From Stdlib Require Strings.Byte Sorting.Sorted.

Open Scope Z_scope.

(** ** Machine integers

    Go's [uint64] and [int64]/[int] (the server targets 64-bit platforms) are
    modelled as [Z] with the wrap-around written out. *)

Definition two63 : Z := 9223372036854775808.
Definition two64 : Z := 18446744073709551616.

(** Reduction to [uint64]. *)
Definition u64 (z : Z) : Z := z mod two64.

(** Reduction to [int64] (two's complement). *)
Definition i64 (z : Z) : Z := (z + two63) mod two64 - two63.

Definition in_u64 (z : Z) : Prop := 0 <= z < two64.
Definition in_i64 (z : Z) : Prop := - two63 <= z < two63.

(** ** Bytes *)

Abbreviation byte := Byte.byte.
Abbreviation bytes := (list Byte.byte).
Abbreviation x00 := Byte.x00.

#[global] Instance byte_eq_dec : EqDecision byte := Byte.byte_eq_dec.

Definition Z_of_byte (b : byte) : Z := Z.of_N (Byte.to_N b).

Definition byte_of_Z (z : Z) : byte :=
  default x00 (Byte.of_N (Z.to_N (z mod 256))).

(** [len] is Go's [len] on a slice or string, an [int]. *)
Definition len {A} (l : list A) : Z := Z.of_nat (length l).
Definition slen (s : string) : Z := Z.of_nat (String.length s).

Definition bytes_of_string (s : string) : bytes := String.list_byte_of_string s.

(** [bytes.Equal]: nil and the empty slice are the same. *)
Definition bytes_equal (a b : bytes) : bool := bool_decide (a = b).

(** Big-endian fixed-width encoding ([binary.BigEndian.PutUintN]): the low
    [n] bytes of [z], most significant first. *)
Fixpoint be_put (n : nat) (z : Z) : bytes :=
  match n with
  | O => []
  | S m => be_put m (Z.shiftr z 8) ++ [byte_of_Z z]
  end.

(** Big-endian decoding ([binary.BigEndian.UintN]). *)
Definition be_get (b : bytes) : Z :=
  foldl (fun acc x => Z.lor (Z.shiftl acc 8) (Z_of_byte x)) 0 b.

(** ** Go strings

    A Go string is a byte sequence; [string] of the Standard Library is too.
    [TrimSpace] removes the leading and trailing code points for which
    [unicode.IsSpace] holds, given here by their UTF-8 encodings. *)

Definition code (b : byte) : Z := Z_of_byte b.

Definition is_space1 (a : byte) : bool :=
  ((9 <=? code a) && (code a <=? 13)) || (code a =? 32).

(** U+0085 and U+00A0. *)
Definition is_space2 (a b : byte) : bool :=
  (code a =? 194) && ((code b =? 133) || (code b =? 160)).

(** U+1680, U+2000-U+200A, U+2028, U+2029, U+202F, U+205F, U+3000. *)
Definition is_space3 (a b c : byte) : bool :=
  ((code a =? 225) && (code b =? 154) && (code c =? 128))
  || ((code a =? 226) && (code b =? 128) &&
        (((128 <=? code c) && (code c <=? 138)) ||
         (code c =? 168) || (code c =? 169) || (code c =? 175)))
  || ((code a =? 226) && (code b =? 129) && (code c =? 159))
  || ((code a =? 227) && (code b =? 128) && (code c =? 128)).

Fixpoint trim_left (s : bytes) : bytes :=
  match s with
  | [] => []
  | a :: r =>
      if is_space1 a then trim_left r
      else match r with
           | [] => s
           | b :: r2 =>
               if is_space2 a b then trim_left r2
               else match r2 with
                    | [] => s
                    | c :: r3 => if is_space3 a b c then trim_left r3 else s
                    end
           end
  end.

(** The same on a reversed string. *)
Fixpoint trim_left_rev (s : bytes) : bytes :=
  match s with
  | [] => []
  | a :: r =>
      if is_space1 a then trim_left_rev r
      else match r with
           | [] => s
           | b :: r2 =>
               if is_space2 b a then trim_left_rev r2
               else match r2 with
                    | [] => s
                    | c :: r3 => if is_space3 c b a then trim_left_rev r3 else s
                    end
           end
  end.

Definition TrimSpace (s : string) : string :=
  String.string_of_list_byte
    (rev (trim_left_rev (rev (trim_left (String.list_byte_of_string s))))).

Definition seqb (a b : string) : bool := bool_decide (a = b).

Definition in_range (lo hi : Z) (b : byte) : bool := (lo <=? Z_of_byte b) && (Z_of_byte b <=? hi).

(** A continuation byte. *)
Definition cont : byte → bool := in_range 128 191.

(** [utf8.ValidString]: shortest encodings of code points up to U+10FFFF that
    are not surrogates. *)
Fixpoint utf8_valid (s : bytes) : bool :=
  match s with
  | [] => true
  | a :: r =>
      if in_range 0 127 a then utf8_valid r else
      match r with
      | [] => false
      | b :: r =>
          if in_range 194 223 a then cont b && utf8_valid r else
          match r with
          | [] => false
          | c :: r =>
              if in_range 224 239 a then
                (if Z_of_byte a =? 224 then in_range 160 191 b
                 else if Z_of_byte a =? 237 then in_range 128 159 b else cont b)
                && cont c && utf8_valid r
              else
              match r with
              | [] => false
              | d :: r =>
                  in_range 240 244 a
                  && (if Z_of_byte a =? 240 then in_range 144 191 b
                      else if Z_of_byte a =? 244 then in_range 128 143 b else cont b)
                  && cont c && cont d && utf8_valid r
              end
          end
      end
  end.

Definition ValidString (s : string) : bool := utf8_valid (bytes_of_string s).

(** ** Tactics *)

(** Case analysis on the scrutinee of every [if]/[match] of a hypothesis. *)
Ltac case_hyp H :=
  repeat (case_match; simplify_eq/=; try done).

Ltac dex :=
  repeat match goal with
         | H : ∃ _, _ |- _ => destruct H
         | H : _ ∧ _ |- _ => destruct H
         end.

(** Turns boolean tests of the source into the facts they decide. *)
Ltac bsimpl :=
  repeat match goal with
         | H : _ && _ = true |- _ => apply andb_true_iff in H; destruct H
         | H : _ || _ = false |- _ => apply orb_false_iff in H; destruct H
         | H : negb _ = true |- _ => apply negb_true_iff in H
         | H : negb _ = false |- _ => apply negb_false_iff in H
         | H : bool_decide _ = true |- _ => apply bool_decide_eq_true_1 in H
         | H : bool_decide _ = false |- _ => apply bool_decide_eq_false_1 in H
         | H : seqb _ _ = true |- _ => apply bool_decide_eq_true_1 in H
         | H : seqb _ _ = false |- _ => apply bool_decide_eq_false_1 in H
         | H : bytes_equal _ _ = true |- _ => apply bool_decide_eq_true_1 in H
         | H : bytes_equal _ _ = false |- _ => apply bool_decide_eq_false_1 in H
         | H : (_ =? _) = true |- _ => apply Z.eqb_eq in H
         | H : (_ =? _) = false |- _ => apply Z.eqb_neq in H
         | H : (_ <? _) = true |- _ => apply Z.ltb_lt in H
         | H : (_ <? _) = false |- _ => apply Z.ltb_ge in H
         | H : (_ <=? _) = true |- _ => apply Z.leb_le in H
         | H : (_ <=? _) = false |- _ => apply Z.leb_gt in H
         end.

Create HintDb trustdb.

(** Rewriting of the boolean tests of the source into propositions. *)
Lemma seqb_true_iff a b : seqb a b = true ↔ a = b.
Proof. apply bool_decide_eq_true. Qed.
Lemma seqb_false_iff a b : seqb a b = false ↔ a ≠ b.
Proof. apply bool_decide_eq_false. Qed.
Lemma bytes_equal_true_iff a b : bytes_equal a b = true ↔ a = b.
Proof. apply bool_decide_eq_true. Qed.
Lemma bytes_equal_false_iff a b : bytes_equal a b = false ↔ a ≠ b.
Proof. apply bool_decide_eq_false. Qed.

Create HintDb bprop.
#[export] Hint Rewrite andb_true_iff andb_false_iff orb_true_iff orb_false_iff negb_true_iff
  negb_false_iff Z.eqb_eq Z.eqb_neq Z.ltb_lt Z.ltb_ge Z.leb_le Z.leb_gt seqb_true_iff
  seqb_false_iff bytes_equal_true_iff bytes_equal_false_iff @bool_decide_eq_true
  @bool_decide_eq_false : bprop.

(** ** Lemmas on machine integers *)

Lemma u64_small z : in_u64 z → u64 z = z.
Proof. intros H. apply Z.mod_small. exact H. Qed.

Lemma u64_range z : in_u64 (u64 z).
Proof. apply Z.mod_pos_bound. done. Qed.

Lemma i64_small z : in_i64 z → i64 z = z.
Proof.
  unfold in_i64, i64, two63, two64. intros H. rewrite Z.mod_small; lia.
Qed.

Lemma i64_range z : in_i64 (i64 z).
Proof.
  unfold in_i64, i64. pose proof (Z.mod_pos_bound (z + two63) two64 eq_refl).
  unfold two63, two64 in *. lia.
Qed.

#[export] Hint Resolve u64_range i64_range : trustdb.

(** ** Lemmas on bytes *)

Lemma Z_of_byte_range b : 0 <= Z_of_byte b < 256.
Proof. unfold Z_of_byte. pose proof (Byte.to_N_bounded b). lia. Qed.

Lemma Z_of_byte_inj a b : Z_of_byte a = Z_of_byte b → a = b.
Proof.
  unfold Z_of_byte. intros E%N2Z.inj. apply (f_equal Byte.of_N) in E.
  rewrite !Byte.of_to_N in E. by injection E.
Qed.

Lemma length_bytes_of_string s : length (bytes_of_string s) = String.length s.
Proof.
  unfold bytes_of_string, String.list_byte_of_string. rewrite length_map.
  induction s as [|c s IH]; [done|]. cbn. by rewrite IH.
Qed.

Lemma bytes_of_string_inj a b : bytes_of_string a = bytes_of_string b → a = b.
Proof.
  intros E. apply (f_equal String.string_of_list_byte) in E.
  by rewrite !String.string_of_list_byte_of_string in E.
Qed.

Lemma Z_of_byte_of_Z z : Z_of_byte (byte_of_Z z) = z mod 256.
Proof.
  unfold Z_of_byte, byte_of_Z.
  pose proof (Z.mod_pos_bound z 256 eq_refl) as Hr.
  destruct (Byte.of_N _) as [b|] eqn:E; simpl.
  - apply Byte.to_of_N in E. rewrite E. lia.
  - apply Byte.of_N_None_iff in E. lia.
Qed.

Lemma byte_of_Z_of_byte b : byte_of_Z (Z_of_byte b) = b.
Proof.
  unfold byte_of_Z, Z_of_byte. pose proof (Byte.to_N_bounded b).
  rewrite Z.mod_small by lia. rewrite N2Z.id, Byte.of_to_N. done.
Qed.

Lemma length_be_put n z : length (be_put n z) = n.
Proof. revert z. induction n as [|n IH]; intros z; simpl; [done|].
  rewrite length_app, IH. simpl. lia. Qed.

Lemma be_get_snoc b x : be_get (b ++ [x]) = be_get b * 256 + Z_of_byte x.
Proof.
  unfold be_get. rewrite foldl_app. simpl.
  set (a := foldl _ 0 b). pose proof (Z_of_byte_range x) as Hx.
  pose proof (Z.add_lor_land (Z.shiftl a 8) (Z_of_byte x)) as Hs.
  assert (Z.land (Z.shiftl a 8) (Z_of_byte x) = 0) as Hl.
  2: { rewrite Hl, (Z.shiftl_mul_pow2 a 8) in Hs by lia.
       rewrite (Z.shiftl_mul_pow2 a 8) by lia. lia. }
  apply Z.bits_inj'. intros n Hn. rewrite Z.land_spec, Z.bits_0.
  destruct (decide (n < 8)).
  - rewrite Z.shiftl_spec_low by lia. done.
  - rewrite (Z.bits_above_log2 (Z_of_byte x)); [apply andb_false_r|lia|].
    assert (Z.log2 (Z_of_byte x) <= Z.log2 255) by (apply Z.log2_le_mono; lia).
    change (Z.log2 255) with 7 in *. lia.
Qed.

Lemma be_get_put n z : be_get (be_put n z) = z mod 256 ^ Z.of_nat n.
Proof.
  revert z. induction n as [|n IH]; intros z.
  - simpl. rewrite Z.mod_1_r. done.
  - cbn [be_put]. rewrite be_get_snoc, IH, Z_of_byte_of_Z.
    rewrite Z.shiftr_div_pow2 by lia. change (2 ^ 8) with 256.
    rewrite Nat2Z.inj_succ, Z.pow_succ_r by lia.
    rewrite (Z.rem_mul_r z 256) by lia. lia.
Qed.

Lemma be_put_get b : be_put (length b) (be_get b) = b.
Proof.
  induction b as [|x b IH] using rev_ind; [done|].
  rewrite length_app, Nat.add_comm. cbn [length Nat.add be_put]. rewrite be_get_snoc.
  pose proof (Z_of_byte_range x). rewrite Z.shiftr_div_pow2 by lia. change (2 ^ 8) with 256.
  rewrite Z.div_add_l, Z.div_small, Z.add_0_r, IH by lia. f_equal. f_equal.
  unfold byte_of_Z. rewrite Z.add_comm, Z.mod_add by lia. apply byte_of_Z_of_byte.
Qed.

Lemma be_get_range b : 0 <= be_get b < 256 ^ len b.
Proof.
  unfold len. induction b as [|x b IH] using rev_ind; [done|].
  rewrite be_get_snoc, length_app. simpl.
  replace (Z.of_nat (length b + 1)) with (Z.succ (Z.of_nat (length b))) by lia.
  rewrite Z.pow_succ_r by lia. pose proof (Z_of_byte_range x). lia.
Qed.

Lemma bytes_equal_true a b : bytes_equal a b = true ↔ a = b.
Proof. apply bool_decide_eq_true. Qed.

Lemma bytes_equal_false a b : bytes_equal a b = false ↔ a ≠ b.
Proof. apply bool_decide_eq_false. Qed.

Lemma bytes_equal_refl a : bytes_equal a a = true.
Proof. by apply bytes_equal_true. Qed.

Lemma seqb_true a b : seqb a b = true ↔ a = b.
Proof. apply bool_decide_eq_true. Qed.

Lemma seqb_false a b : seqb a b = false ↔ a ≠ b.
Proof. apply bool_decide_eq_false. Qed.

Lemma seqb_refl a : seqb a a = true.
Proof. by apply seqb_true. Qed.

Lemma mapM_snoc {A B} (f : A → option B) l x :
  mapM f (l ++ [x]) = (ys ← mapM f l; y ← f x; Some (ys ++ [y])).
Proof.
  induction l as [|a l IH]; cbn; [by destruct (f x)|].
  destruct (f a); [|done]. cbn in *. rewrite IH.
  destruct (mapM f l); [|done]. cbn. by destruct (f x).
Qed.

Lemma len_nonneg {A} (l : list A) : 0 <= len l.
Proof. unfold len. lia. Qed.

#[export] Hint Resolve len_nonneg bytes_equal_refl seqb_refl : trustdb.

(** ** Lemmas on lists *)

Lemma sorted_sublist {A} (r : A → A → Prop) (l k : list A) :
  l `sublist_of` k → Sorted.StronglySorted r k → Sorted.StronglySorted r l.
Proof.
  induction 1 as [|x l k Hs IH|x l k Hs IH]; intros Hk; [done| |];
    apply Sorted.StronglySorted_inv in Hk as [Hk Hf].
  - constructor; [by apply IH|]. rewrite Forall_forall in *. intros y Hy. apply Hf. by eapply elem_of_sublist.
  - by apply IH.
Qed.
