(* ===== verification/TrustErr.v ===== *)
(** * Errors and results

    Models [src/internal/trusterr/trusterr.go] and the part of Go's error
    values the sources rely on.  A message is the format string of the source;
    the formatted arguments are not modelled, the codes and the wrapping
    structure ([%w], [Unwrap]) are. *)

From S2P Require Import Prelude.

Inductive Code :=
| CodeInvalidArgument
| CodeFailedPrecondition
| CodeAlreadyExists
| CodeNotFound
| CodeResourceExhausted
| CodeDeadlineExceeded
| CodeDataLoss
| CodeInternal.

#[global] Instance Code_eq_dec : EqDecision Code.
Proof. solve_decision. Defined.

(** [ErrorsNew] is [errors.New] or [fmt.Errorf] without [%w]; [Errorf] is
    [fmt.Errorf] with one [%w]; [Error] is the struct [trusterr.Error];
    [StageError] is the struct [verify.StageError]. *)
Inductive error :=
| ErrorsNew (msg : string)
| Errorf (msg : string) (wrapped : error)
| StageError (stage : string) (err : error)
| Error (code : Code) (message : string) (cause : option error).

Inductive result (A : Type) :=
| Ok (a : A)
| Err (e : error).
Arguments Ok {A} a.
Arguments Err {A} e.

#[global] Instance result_ret : MRet result := λ A, Ok.
#[global] Instance result_bind : MBind result := λ A B f r,
  match r with Ok a => f a | Err e => Err e end.
#[global] Instance result_fmap : FMap result := λ A B f r,
  match r with Ok a => Ok (f a) | Err e => Err e end.

Definition is_ok {A} (r : result A) : bool :=
  match r with Ok _ => true | Err _ => false end.

(** [trusterr.New]. *)
Definition New (code : Code) (message : string) : error := Error code message None.

(** [trusterr.Wrap]; the wrapped error is nil in no call of the sources
    modelled here, but the branch is kept. *)
Definition Wrap (code : Code) (message : string) (err : option error) : error :=
  match err with
  | None => New code message
  | Some e => Error code message (Some e)
  end.

(** [Error.Unwrap] and the [Unwrap] of a [fmt.Errorf] value. *)
Definition Unwrap (e : error) : option error :=
  match e with
  | ErrorsNew _ => None
  | Errorf _ w => Some w
  | StageError _ w => Some w
  | Error _ _ c => c
  end.

(** [CodeOf]: [errors.As] returns the first [trusterr.Error] of the chain. *)
Fixpoint CodeOf (err : error) : Code :=
  match err with
  | Error code _ _ => code
  | Errorf _ w => CodeOf w
  | StageError _ w => CodeOf w
  | ErrorsNew _ => CodeInternal
  end.

Definition ExitCode (err : error) : Z :=
  match CodeOf err with
  | CodeInvalidArgument => 2
  | CodeAlreadyExists => 3
  | CodeFailedPrecondition => 4
  | CodeNotFound => 5
  | CodeResourceExhausted => 7
  | CodeDeadlineExceeded => 8
  | CodeDataLoss => 6
  | _ => 1
  end.

(** Runs [f] and, on an error, wraps it the way
    [if err := f(); err != nil { return trusterr.Wrap(c, m, err) }] does. *)
Definition wrap_err {A} (c : Code) (m : string) (r : result A) : result A :=
  match r with Ok a => Ok a | Err e => Err (Wrap c m (Some e)) end.

(** The same for [fmt.Errorf("...: %w", err)]. *)
Definition errorf {A} (m : string) (r : result A) : result A :=
  match r with Ok a => Ok a | Err e => Err (Errorf m e) end.

(** ** Lemmas *)

Lemma bind_Ok {A B} (r : result A) (f : A → result B) b :
  r ≫= f = Ok b ↔ ∃ a, r = Ok a ∧ f a = Ok b.
Proof. destruct r; unfold mbind, result_bind; naive_solver. Qed.

Lemma wrap_err_Ok {A} c m (r : result A) a : wrap_err c m r = Ok a ↔ r = Ok a.
Proof. destruct r; simpl; naive_solver. Qed.

Lemma errorf_Ok {A} m (r : result A) a : errorf m r = Ok a ↔ r = Ok a.
Proof. destruct r; simpl; naive_solver. Qed.

Lemma if_Err_Ok {A} (b : bool) e (r : result A) a :
  (if b then Err e else r) = Ok a ↔ b = false ∧ r = Ok a.
Proof. destruct b; naive_solver. Qed.

Lemma bind_Err {A B} (r : result A) (f : A → result B) e :
  r ≫= f = Err e ↔ r = Err e ∨ ∃ a, r = Ok a ∧ f a = Err e.
Proof. destruct r; unfold mbind, result_bind; naive_solver. Qed.

Lemma bind_Ok_unit (r : result unit) (f : unit → result unit) :
  r ≫= f = Ok tt ↔ r = Ok tt ∧ f tt = Ok tt.
Proof. destruct r as [[]|]; unfold mbind, result_bind; naive_solver. Qed.

Lemma is_ok_iff {A} (r : result A) : is_ok r = true ↔ ∃ a, r = Ok a.
Proof. destruct r; simpl; naive_solver. Qed.

(** Peels the monadic steps of a successful computation. *)
Ltac ok_inv :=
  repeat match goal with
         | H : (_ ≫= _) = Ok _ |- _ => apply bind_Ok in H; destruct H as [? [? H]]
         | H : wrap_err _ _ _ = Ok _ |- _ => apply wrap_err_Ok in H
         | H : errorf _ _ = Ok _ |- _ => apply errorf_Ok in H
         | H : Ok _ = Ok _ |- _ => injection H as H
         | H : Err _ = Ok _ |- _ => discriminate H
         | H : (if ?b then Err _ else _) = Ok _ |- _ =>
             destruct b eqn:?; [discriminate H|]
         end.

Lemma ExitCode_wrapped c m e f : ExitCode (Errorf f (Error c m e)) = ExitCode (Error c m None).
Proof. reflexivity. Qed.

(** ** Calls that may not return

    [Ret] and [Fail] are the two ways a Go function returns; [Stuck] is a
    panic, or that the fuel given to a loop did not suffice. *)

Inductive go (A : Type) :=
| Ret (a : A)
| Fail (e : error)
| Stuck.
Arguments Ret {A} a.
Arguments Fail {A} e.
Arguments Stuck {A}.

#[global] Instance go_ret : MRet go := λ A, Ret.
#[global] Instance go_bind : MBind go := λ A B f r,
  match r with Ret a => f a | Fail e => Fail e | Stuck => Stuck end.

(** A function that returns a result, and one that may also panic. *)
Definition ret {A} (r : result A) : go A :=
  match r with Ok a => Ret a | Err e => Fail e end.
Definition call {A} (r : option (result A)) : go A :=
  match r with Some r => ret r | None => Stuck end.

(** Wraps the error of a call, as [wrap_err]. *)
Definition gwrap {A} (c : Code) (m : string) (r : go A) : go A :=
  match r with Fail e => Fail (Wrap c m (Some e)) | _ => r end.

(** The same for [fmt.Errorf("...: %w", err)]. *)
Definition gerrorf {A} (m : string) (r : go A) : go A :=
  match r with Fail e => Fail (Errorf m e) | _ => r end.

Lemma bind_Ret {A B} (r : go A) (f : A → go B) b :
  r ≫= f = Ret b ↔ ∃ a, r = Ret a ∧ f a = Ret b.
Proof. destruct r; unfold mbind, go_bind; naive_solver. Qed.

Lemma gwrap_Ret {A} c m (r : go A) a : gwrap c m r = Ret a ↔ r = Ret a.
Proof. destruct r; simpl; naive_solver. Qed.

Lemma gerrorf_Ret {A} m (r : go A) a : gerrorf m r = Ret a ↔ r = Ret a.
Proof. destruct r; simpl; naive_solver. Qed.

Lemma ret_Ret {A} (r : result A) a : ret r = Ret a ↔ r = Ok a.
Proof. destruct r; simpl; naive_solver. Qed.

Lemma call_Ret {A} (r : option (result A)) a : call r = Ret a ↔ r = Some (Ok a).
Proof. destruct r as [[]|]; simpl; naive_solver. Qed.

(** The analogue of [ok_inv]. *)
Ltac go_inv :=
  repeat match goal with
         | H : (_ ≫= _) = Ret _ |- _ => apply bind_Ret in H; destruct H as [? [? H]]
         | H : gwrap _ _ _ = Ret _ |- _ => apply gwrap_Ret in H
         | H : gerrorf _ _ = Ret _ |- _ => apply gerrorf_Ret in H
         | H : ret _ = Ret _ |- _ => apply ret_Ret in H
         | H : call _ = Ret _ |- _ => apply call_Ret in H
         | H : Ret _ = Ret _ |- _ => injection H as H
         | H : Fail _ = Ret _ |- _ => discriminate H
         | H : Stuck = Ret _ |- _ => discriminate H
         | H : (if ?b then Fail _ else _) = Ret _ |- _ =>
             destruct b eqn:?; [discriminate H|]
         end.
