(* ===== verification/StoreMonad.v ===== *)
(** * Stateful operations that may fail

    The methods of a store read and write its tables and return a value or an
    error; what was written before an error stays written.  [io] is the type of
    such methods, [post] the postcondition of a run. *)

From S2P Require Import Prelude TrustErr.

Definition io (S A : Type) : Type := S → S * result A.

#[global] Instance io_ret S : MRet (io S) := λ A a s, (s, Ok a).
#[global] Instance io_bind S : MBind (io S) := λ A B f m s,
  match m s with
  | (s', Ok a) => f a s'
  | (s', Err e) => (s', Err e)
  end.

(** A check or a pure computation, and one that reads the store. *)
Definition lift {S A} (r : result A) : io S A := λ s, (s, r).
Definition reads {S A} (f : S → result A) : io S A := λ s, (s, f s).
Definition modify {S} (f : S → S) : io S unit := λ s, (f s, Ok tt).

(** Wraps the error of a call, as [wrap_err]. *)
Definition io_wrap {S A} (c : Code) (m : string) (k : io S A) : io S A := λ s,
  let '(s', r) := k s in (s', wrap_err c m r).

(** ** Postconditions *)

Definition post {S A} (m : io S A) (s : S) (Q : result A → S → Prop) : Prop :=
  Q (m s).2 (m s).1.

Section rules.
Context {S A : Type}.
Implicit Types (m : io S A) (s : S).

Lemma post_intro m s (Q : result A → S → Prop) :
  post m s Q → ∀ s' r, m s = (s', r) → Q r s'.
Proof. unfold post. intros H s' r E. by rewrite E in H. Qed.

Lemma post_mono m s (P Q : result A → S → Prop) :
  post m s P → (∀ r s', P r s' → Q r s') → post m s Q.
Proof. unfold post. auto. Qed.

Lemma post_ret a s (Q : result A → S → Prop) : Q (Ok a) s → post (mret a) s Q.
Proof. done. Qed.

(** The sequencing rule. *)
Lemma post_bind {B} m (f : A → io S B) s (Q : result B → S → Prop) :
  post m s (λ r s', match r with Ok a => post (f a) s' Q | Err e => Q (Err e) s' end) →
  post (m ≫= f) s Q.
Proof. unfold post, mbind, io_bind. by destruct (m s) as [s' []]. Qed.

Lemma post_lift (r : result A) s (Q : result A → S → Prop) : Q r s → post (lift r) s Q.
Proof. done. Qed.

Lemma post_reads (f : S → result A) s (Q : result A → S → Prop) : Q (f s) s → post (reads f) s Q.
Proof. done. Qed.

Lemma post_modify (f : S → S) s (Q : result unit → S → Prop) :
  Q (Ok tt) (f s) → post (modify f) s Q.
Proof. done. Qed.

Lemma post_wrap c msg m s (Q : result A → S → Prop) :
  post m s (λ r s', Q (wrap_err c msg r) s') → post (io_wrap c msg m) s Q.
Proof. unfold post, io_wrap. by destruct (m s) as [s' r]. Qed.

Lemma post_if (b : bool) m1 m2 s (Q : result A → S → Prop) :
  (b = true → post m1 s Q) → (b = false → post m2 s Q) → post (if b then m1 else m2) s Q.
Proof. destruct b; auto. Qed.

(** A step that only reads: the error leaves the store as it was. *)
Lemma post_lift_bind {B} (r : result A) (f : A → io S B) s (Q : result B → S → Prop) :
  (∀ e, Q (Err e) s) → (∀ a, r = Ok a → post (f a) s Q) → post (lift r ≫= f) s Q.
Proof. intros He Hf. apply post_bind, post_lift. destruct r; auto. Qed.

Lemma post_reads_bind {B} (g : S → result A) (f : A → io S B) s (Q : result B → S → Prop) :
  (∀ e, Q (Err e) s) → (∀ a, g s = Ok a → post (f a) s Q) → post (reads g ≫= f) s Q.
Proof. intros He Hf. apply post_bind, post_reads. destruct (g s); auto. Qed.

Lemma io_bind_Ok {B} m (f : A → io S B) s s' b :
  (m ≫= f) s = (s', Ok b) ↔ ∃ s1 a, m s = (s1, Ok a) ∧ f a s1 = (s', Ok b).
Proof.
  unfold mbind, io_bind. split; [|by intros (s1 & a & -> & ?)].
  destruct (m s) as [s1 [a|e]]; [by exists s1, a|done].
Qed.

Lemma lift_Ok (r : result A) s s' a : lift r s = (s', Ok a) ↔ s' = s ∧ r = Ok a.
Proof. unfold lift. split; [by intros [= -> ->]|by intros [-> ->]]. Qed.

Lemma reads_Ok (f : S → result A) s s' a : reads f s = (s', Ok a) ↔ s' = s ∧ f s = Ok a.
Proof. unfold reads. split; [by intros [= -> ->]|by intros [-> ->]]. Qed.
End rules.

(** Peels the reads and checks at the head of an operation. *)
Ltac io_step :=
  first
    [ apply post_lift_bind; [|intros ? ?]
    | apply post_reads_bind; [|intros ? ?]
    | apply post_if; intros ?
    | apply post_lift
    | apply post_reads
    | apply post_ret ].

(** ** A part of a store *)

Definition zoom {S T A} (get : S → T) (put : T → S → S) (m : io T A) : io S A := λ s,
  let '(t, r) := m (get s) in (put t s, r).

Lemma post_zoom {S T A} get put (m : io T A) (s : S) (Q : result A → S → Prop) :
  post m (get s) (λ r t, Q r (put t s)) → post (zoom get put m) s Q.
Proof. unfold post, zoom. by destruct (m (get s)) as [t r]. Qed.

(** A loop over a list that stops at the first error. *)
Fixpoint for_each {S A} (f : A → io S unit) (l : list A) : io S unit :=
  match l with
  | [] => mret tt
  | a :: rest => _ ← f a; for_each f rest
  end.

(** ** Parts that an operation leaves alone *)

Definition preserves {S T A} (f : S → T) (m : io S A) : Prop := ∀ s, f (m s).1 = f s.

Section preserves.
Context {S T : Type} (f : S → T).

Lemma preserves_ret {A} (a : A) : preserves f (mret a).
Proof. done. Qed.
Lemma preserves_lift {A} (r : result A) : preserves f (lift r).
Proof. done. Qed.
Lemma preserves_reads {A} (g : S → result A) : preserves f (reads g).
Proof. done. Qed.
Lemma preserves_modify (g : S → S) : (∀ s, f (g s) = f s) → preserves f (modify g).
Proof. done. Qed.
Lemma preserves_wrap {A} c msg (m : io S A) : preserves f m → preserves f (io_wrap c msg m).
Proof. intros Hm s. unfold io_wrap. specialize (Hm s). by destruct (m s). Qed.
Lemma preserves_bind {A B} (m : io S A) (k : A → io S B) :
  preserves f m → (∀ a, preserves f (k a)) → preserves f (m ≫= k).
Proof.
  intros Hm Hk s. unfold mbind, io_bind. specialize (Hm s). destruct (m s) as [s' [a|e]]; [|done].
  cbn in *. by rewrite Hk.
Qed.
Lemma preserves_for_each {A} (k : A → io S unit) l :
  (∀ a, preserves f (k a)) → preserves f (for_each k l).
Proof.
  intros Hk. induction l as [|a l IH]; [done|]. apply preserves_bind; auto.
Qed.
Lemma preserves_post {A} (m : io S A) s : preserves f m → post m s (λ _ s', f s' = f s).
Proof. intros Hm. exact (Hm s). Qed.
End preserves.

Create HintDb preserves.
#[export] Hint Resolve preserves_ret preserves_lift preserves_reads preserves_modify preserves_wrap preserves_for_each : preserves.

(** Walks through the body of an operation. *)
Ltac preserving :=
  repeat first
    [ progress auto with preserves
    | apply preserves_bind; [|intros ?]
    | match goal with |- preserves _ (match ?x with _ => _ end) => destruct x end
    | match goal with |- preserves _ (let _ := _ in _) => cbv zeta end ].

(** A predicate that an operation keeps, whether it succeeds or fails. *)
Definition stays {S A} (P : S → Prop) (m : io S A) : Prop := ∀ s, P s → P (m s).1.

Section stays.
Context {S : Type} (P : S → Prop).

Lemma stays_preserves {T A} (f : S → T) (m : io S A) :
  (∀ s s', f s' = f s → P s → P s') → preserves f m → stays P m.
Proof. intros HP Hm s Hs. by apply (HP s). Qed.
Lemma stays_wrap {A} c msg (m : io S A) : stays P m → stays P (io_wrap c msg m).
Proof. intros Hm s Hs. unfold io_wrap. specialize (Hm s Hs). by destruct (m s). Qed.
Lemma stays_bind {A B} (m : io S A) (k : A → io S B) :
  stays P m → (∀ a, stays P (k a)) → stays P (m ≫= k).
Proof.
  intros Hm Hk s Hs. unfold mbind, io_bind. specialize (Hm s Hs). destruct (m s) as [s' [a|e]]; [|done].
  by apply Hk.
Qed.
Lemma stays_for_each {A} (k : A → io S unit) l : (∀ a, stays P (k a)) → stays P (for_each k l).
Proof.
  intros Hk. induction l as [|a l IH]; [by intros s Hs|]. apply stays_bind; auto.
Qed.
End stays.

(** [l] in chunks of [n]. *)
Fixpoint chunks_aux {A} (fuel n : nat) (l : list A) : list (list A) :=
  match fuel, l with
  | O, _ | _, [] => []
  | S fuel, _ => take n l :: chunks_aux fuel n (drop n l)
  end.
Definition chunks {A} (n : nat) (l : list A) : list (list A) := chunks_aux (length l) n l.

Lemma chunks_concat {A} n (l : list A) : (0 < n)%nat → concat (chunks n l) = l.
Proof.
  intros Hn. unfold chunks. assert (∀ f (l : list A), (length l <= f)%nat → concat (chunks_aux f n l) = l) as Hf.
  { induction f as [|f IH]; intros [|x l'] Hl; cbn in *; try done; [lia|].
    destruct n as [|n]; [lia|]. cbn. f_equal. rewrite IH, take_drop; [done|].
    rewrite length_drop. lia. }
  by apply Hf.
Qed.

(** * Operations that keep an invariant

    [steps I R m s]: when [I] holds of [s] it holds after [m], and [R] relates
    the states before and after, whether [m] succeeds or fails.  The rules
    follow the structure of the operation. *)

Definition steps {S A} (I : S → Prop) (R : S → S → Prop) (m : io S A) (s : S) : Prop :=
  I s → post m s (λ _ s', I s' ∧ R s s').

Section rules.
Context {S : Type} {I : S → Prop} {R : S → S → Prop} `{!PreOrder R}.
Implicit Types (s : S).

Lemma steps_assume {A} (m : io S A) s : (I s → steps I R m s) → steps I R m s.
Proof. intros Hm Hs. by apply Hm. Qed.
Lemma steps_lift {A} (r : result A) s : steps I R (lift r) s.
Proof. by intros Hs. Qed.
Lemma steps_reads {A} (f : S → result A) s : steps I R (reads f) s.
Proof. by intros Hs. Qed.
Lemma steps_ret {A} (a : A) s : steps I R (mret a) s.
Proof. by intros Hs. Qed.
Lemma steps_modify f s : (I s → I (f s) ∧ R s (f s)) → steps I R (modify f) s.
Proof. intros Hf Hs. by apply Hf. Qed.
Lemma steps_wrap {A} c msg (m : io S A) s : steps I R m s → steps I R (io_wrap c msg m) s.
Proof. intros Hm Hs. apply post_wrap. exact (Hm Hs). Qed.
Lemma steps_if {A} (b : bool) (m1 m2 : io S A) s :
  (b = true → steps I R m1 s) → (b = false → steps I R m2 s) → steps I R (if b then m1 else m2) s.
Proof. destruct b; auto. Qed.

Lemma steps_bind {A B} (m : io S A) (k : A → io S B) s :
  steps I R m s → (∀ a s', m s = (s', Ok a) → R s s' → steps I R (k a) s') → steps I R (m ≫= k) s.
Proof.
  intros Hm Hk Hs. specialize (Hm Hs). unfold steps, post, mbind, io_bind in *. destruct (m s) as [s' [a|e]]; [|done].
  cbn in Hm. destruct Hm as [Hs' Hr]. destruct (Hk a s' eq_refl Hr Hs') as [? ?]. split; [done|by etrans].
Qed.
Lemma steps_reads_bind {A B} (f : S → result A) (k : A → io S B) s :
  (∀ a, f s = Ok a → steps I R (k a) s) → steps I R (reads f ≫= k) s.
Proof. intros Hk. apply steps_bind; [apply steps_reads|]. intros a s' [-> Ha]%reads_Ok _. auto. Qed.
Lemma steps_lift_bind {A B} (r : result A) (k : A → io S B) s :
  (∀ a, r = Ok a → steps I R (k a) s) → steps I R (lift r ≫= k) s.
Proof. intros Hk. apply steps_bind; [apply steps_lift|]. intros a s' [-> Ha]%lift_Ok _. auto. Qed.
Lemma steps_for_each {A} (k : A → io S unit) l s :
  (∀ a s', a ∈ l → R s s' → steps I R (k a) s') → steps I R (for_each k l) s.
Proof.
  revert s. induction l as [|a l IH]; intros s Hk; [apply steps_ret|]. cbn. apply steps_bind; [apply Hk; [left|done]|].
  intros [] s' _ K. apply IH. intros; apply Hk; [by right|by etrans].
Qed.

(** From a run. *)
Lemma steps_calm {A} (m : io S A) s s' r : steps (λ _, True) R m s → m s = (s', r) → R s s'.
Proof. intros Hm E. exact (proj2 (post_intro _ _ _ (Hm Logic.I) _ _ E)). Qed.
Lemma steps_mono {A} (R' : S → S → Prop) (m : io S A) s : (∀ s s', R s s' → R' s s') → steps I R m s → steps I R' m s.
Proof. intros HR Hm Hs. destruct (Hm Hs). split; auto. Qed.
Lemma steps_run {A} (m : io S A) s s' r : steps I R m s → I s → m s = (s', r) → I s' ∧ R s s'.
Proof. intros Hm Hs E. exact (post_intro _ _ _ (Hm Hs) _ _ E). Qed.
End rules.

(** Walks through the body of an operation. *)
Ltac walk :=
  repeat first
    [ apply steps_lift | apply steps_reads | apply steps_ret
    | apply steps_reads_bind; intros ? ?
    | apply steps_lift_bind; intros ? ?
    | apply steps_if; intros ?
    | apply steps_wrap
    | apply steps_bind; [|intros ? ? ? ?] ].
