(* ===== verification/CryptoSuite.v ===== *)
(** * Cryptographic suites

    Models [src/internal/cryptosuite/registry.go]: the suite records, the
    registry, the known/available/same gates and the namespace transition
    rule, and the signature-input framing of
    [src/internal/trustcrypto/signature_input.go]. *)

From S2P Require Import Prelude TrustErr.

Module Import cryptosuite.

Definition ID := string.
Definition INTLV1 : ID := "INTL_V1".
Definition CNSMV1 : ID := "CN_SM_V1".

Inductive Availability := AvailabilityAvailable | AvailabilityReserved.

#[global] Instance Availability_eq_dec : EqDecision Availability.
Proof. solve_decision. Defined.

Definition DigestSize : Z := 32.
Definition HashSHA256 : string := "sha256".
Definition HashSM3 : string := "sm3".
Definition SignatureEd25519 : string := "ed25519".
Definition SignatureSM2SM3 : string := "sm2-sm3".
Definition MerkleRFC6962SHA256 : string := "rfc6962-sha256".
Definition MerkleRFC6962SM3 : string := "rfc6962-sm3".
Definition CanonicalCBOR : string := "cbor-core-deterministic-rfc8949".
Definition SignatureInputLegacyV1 : string := "domain-nul-payload".
Definition SignatureInputSuiteFramedV2 : string := "domain-nul-suite-nul-payload".
Definition Ed25519SignatureEncoding : string := "raw-64-byte-rfc8032".
Definition Ed25519PublicKeyEncoding : string := "raw-32-byte-rfc8032".
Definition Ed25519PrivateKeyEncoding : string := "trustdb-ed25519-private-key-64-byte".
Definition Ed25519CertificateProfile : string := "x509-ed25519-rfc8410".
Definition SM2SignatureEncoding : string := "asn1-der-sequence-r-s".
Definition SM2PublicKeyEncoding : string := "sec1-uncompressed-65-byte-sm2p256v1".
Definition SM2PrivateKeyEncoding : string := "fixed-32-byte-big-endian-scalar".
Definition SM2CertificateProfile : string := "x509-sm2-gbt35276".
Definition SM2DefaultUserID : string := "1234567812345678".

Record HashSpec := { HashAlgorithm : string; DigestBytes : Z }.

Record SignatureSpec := {
  SigAlgorithm : string;
  MessageHashAlgorithm : string;
  SigEncoding : string;
  PublicKeyEncoding : string;
  PrivateKeyEncoding : string;
  CertificateProfile : string;
  SM2UserID : string }.

Record MerkleSpec := {
  MerkleAlgorithm : string;
  MerkleHash : HashSpec;
  LeafPrefix : byte;
  NodePrefix : byte }.

Record EncodingSpec := {
  CanonicalObjectEncoding : string;
  SignatureInputEncoding : string;
  DomainSeparator : byte }.

Record DomainSet := {
  ClientClaimSigning : string;
  RecordIDDomain : string;
  AcceptedReceiptDomain : string;
  CommittedReceiptDomain : string;
  KeyEventSigning : string;
  KeyEventHashDomain : string;
  GlobalLogLeafDomain : string;
  SignedTreeHeadDomain : string;
  StatusRefreshDomain : string;
  StatusSubscription : string;
  StatusNotificationRoutes : string;
  IdempotencyStorageKey : string }.

Record Suite := {
  SuiteID : ID;
  SuiteAvailability : Availability;
  ContentHash : HashSpec;
  ClaimHash : HashSpec;
  SignatureHash : HashSpec;
  RecordIDHash : HashSpec;
  KeyEventHash : HashSpec;
  KeyFingerprintHash : HashSpec;
  StorageIntegrityHash : HashSpec;
  Signature : SignatureSpec;
  Merkle : MerkleSpec;
  Encoding : EncodingSpec;
  AnchorDigest : HashSpec;
  Domains : DomainSet }.

Definition sha256_spec := {| HashAlgorithm := HashSHA256; DigestBytes := 32 |}.
Definition sm3_spec := {| HashAlgorithm := HashSM3; DigestBytes := 32 |}.

Definition suite_INTLV1 : Suite := {|
  SuiteID := INTLV1;
  SuiteAvailability := AvailabilityAvailable;
  ContentHash := sha256_spec;
  ClaimHash := sha256_spec;
  SignatureHash := sha256_spec;
  RecordIDHash := sha256_spec;
  KeyEventHash := sha256_spec;
  KeyFingerprintHash := sha256_spec;
  StorageIntegrityHash := sha256_spec;
  Signature := {|
    SigAlgorithm := SignatureEd25519;
    MessageHashAlgorithm := "";
    SigEncoding := Ed25519SignatureEncoding;
    PublicKeyEncoding := Ed25519PublicKeyEncoding;
    PrivateKeyEncoding := Ed25519PrivateKeyEncoding;
    CertificateProfile := Ed25519CertificateProfile;
    SM2UserID := "" |};
  Merkle := {|
    MerkleAlgorithm := MerkleRFC6962SHA256;
    MerkleHash := sha256_spec;
    LeafPrefix := Byte.x00;
    NodePrefix := Byte.x01 |};
  Encoding := {|
    CanonicalObjectEncoding := CanonicalCBOR;
    SignatureInputEncoding := SignatureInputLegacyV1;
    DomainSeparator := Byte.x00 |};
  AnchorDigest := sha256_spec;
  Domains := {|
    ClientClaimSigning := "trustdb.client-claim.v1";
    RecordIDDomain := "trustdb.record-id.v1";
    AcceptedReceiptDomain := "trustdb.accepted-receipt.v1";
    CommittedReceiptDomain := "trustdb.committed-receipt.v1";
    KeyEventSigning := "trustdb.key-event.v1";
    KeyEventHashDomain := "trustdb.key-event-hash.v1";
    GlobalLogLeafDomain := "trustdb.global-log-leaf.v1";
    SignedTreeHeadDomain := "trustdb.signed-tree-head.v1";
    StatusRefreshDomain := "trustdb.status-refresh.v1";
    StatusSubscription := "trustdb.status-subscription.v1";
    StatusNotificationRoutes := "trustdb.status-notification-routes.v1";
    IdempotencyStorageKey := "trustdb.idempotency-storage-key.v1" |} |}.

Definition suite_CNSMV1 : Suite := {|
  SuiteID := CNSMV1;
  SuiteAvailability := AvailabilityAvailable;
  ContentHash := sm3_spec;
  ClaimHash := sm3_spec;
  SignatureHash := sm3_spec;
  RecordIDHash := sm3_spec;
  KeyEventHash := sm3_spec;
  KeyFingerprintHash := sm3_spec;
  StorageIntegrityHash := sm3_spec;
  Signature := {|
    SigAlgorithm := SignatureSM2SM3;
    MessageHashAlgorithm := HashSM3;
    SigEncoding := SM2SignatureEncoding;
    PublicKeyEncoding := SM2PublicKeyEncoding;
    PrivateKeyEncoding := SM2PrivateKeyEncoding;
    CertificateProfile := SM2CertificateProfile;
    SM2UserID := SM2DefaultUserID |};
  Merkle := {|
    MerkleAlgorithm := MerkleRFC6962SM3;
    MerkleHash := sm3_spec;
    LeafPrefix := Byte.x00;
    NodePrefix := Byte.x01 |};
  Encoding := {|
    CanonicalObjectEncoding := CanonicalCBOR;
    SignatureInputEncoding := SignatureInputSuiteFramedV2;
    DomainSeparator := Byte.x00 |};
  AnchorDigest := sm3_spec;
  Domains := {|
    ClientClaimSigning := "trustdb.client-claim.v2";
    RecordIDDomain := "trustdb.record-id.v2";
    AcceptedReceiptDomain := "trustdb.accepted-receipt.v2";
    CommittedReceiptDomain := "trustdb.committed-receipt.v2";
    KeyEventSigning := "trustdb.key-event.v2";
    KeyEventHashDomain := "trustdb.key-event-hash.v2";
    GlobalLogLeafDomain := "trustdb.global-log-leaf.v2";
    SignedTreeHeadDomain := "trustdb.signed-tree-head.v2";
    StatusRefreshDomain := "trustdb.status-refresh.v2";
    StatusSubscription := "trustdb.status-subscription.v2";
    StatusNotificationRoutes := "trustdb.status-notification-routes.v2";
    IdempotencyStorageKey := "trustdb.idempotency-storage-key.v2" |} |}.

Definition registry : gmap ID Suite :=
  <[INTLV1 := suite_INTLV1]> (<[CNSMV1 := suite_CNSMV1]> ∅).

Definition ErrUnknownSuite := ErrorsNew "unknown cryptographic suite".
Definition ErrUnavailableSuite := ErrorsNew "cryptographic suite is not available".
Definition ErrMixedSuite := ErrorsNew "mixed cryptographic suites".
Definition ErrNamespaceReuse :=
  ErrorsNew "cryptographic suite change reuses a log or storage namespace".
Definition ErrUnboundNonEmptyData :=
  ErrorsNew "non-empty data has no cryptographic suite binding".

Definition Lookup (id : ID) : option Suite := registry !! id.

Definition RequireKnown (id : ID) : result Suite :=
  match Lookup id with
  | None => Err (Errorf "%w: %q" ErrUnknownSuite)
  | Some suite => Ok suite
  end.

Definition RequireAvailable (id : ID) : result Suite :=
  suite ← RequireKnown id;
  if bool_decide (SuiteAvailability suite ≠ AvailabilityAvailable)
  then Err (Errorf "%w: %s is %s" ErrUnavailableSuite)
  else Ok suite.

(** The [for] loop of [RequireSame] over the variadic [actual]. *)
Fixpoint requireSame_loop (expected : ID) (actual : list ID) : result unit :=
  match actual with
  | [] => Ok tt
  | id :: rest =>
      _ ← errorf "suite at index %d: %w" (RequireKnown id);
      if negb (seqb id expected)
      then Err (Errorf "%w: expected %s, got %s at index %d" ErrMixedSuite)
      else requireSame_loop expected rest
  end.

Definition RequireSame (expected : ID) (actual : list ID) : result unit :=
  _ ← RequireKnown expected;
  requireSame_loop expected actual.

Record NamespaceBinding := {
  NB_Suite : ID;
  NB_LogID : string;
  NB_StorageNamespace : string;
  NB_NonEmpty : bool }.

Definition ValidateNamespaceTransition (current next : NamespaceBinding) : result unit :=
  _ ← errorf "next binding: %w" (RequireKnown (NB_Suite next));
  if seqb (TrimSpace (NB_LogID next)) ""
  then Err (ErrorsNew "next binding log_id is required") else
  if seqb (TrimSpace (NB_StorageNamespace next)) ""
  then Err (ErrorsNew "next binding storage namespace is required") else
  if seqb (NB_Suite current) ""
  then (if NB_NonEmpty current then Err ErrUnboundNonEmptyData else Ok tt) else
  _ ← errorf "current binding: %w" (RequireKnown (NB_Suite current));
  if seqb (NB_Suite current) (NB_Suite next) then Ok tt else
  if seqb (TrimSpace (NB_LogID current)) (TrimSpace (NB_LogID next))
  then Err (Errorf "%w: log_id %q" ErrNamespaceReuse) else
  if seqb (TrimSpace (NB_StorageNamespace current)) (TrimSpace (NB_StorageNamespace next))
  then Err (Errorf "%w: storage namespace %q" ErrNamespaceReuse)
  else Ok tt.

(** ** Lemmas *)

Lemma Lookup_Some id s :
  Lookup id = Some s ↔ (id = INTLV1 ∧ s = suite_INTLV1) ∨ (id = CNSMV1 ∧ s = suite_CNSMV1).
Proof.
  unfold Lookup, registry.
  rewrite lookup_insert_Some, lookup_insert_Some, lookup_empty.
  unfold INTLV1, CNSMV1. naive_solver.
Qed.

Lemma RequireKnown_Ok id s :
  RequireKnown id = Ok s ↔ (id = INTLV1 ∧ s = suite_INTLV1) ∨ (id = CNSMV1 ∧ s = suite_CNSMV1).
Proof.
  rewrite <- Lookup_Some. unfold RequireKnown. destruct (Lookup id); naive_solver.
Qed.

(** Both registered suites are available, so the two gates coincide. *)
Lemma RequireAvailable_Ok id s : RequireAvailable id = Ok s ↔ RequireKnown id = Ok s.
Proof.
  unfold RequireAvailable. rewrite bind_Ok. setoid_rewrite RequireKnown_Ok.
  split; [|intros H; exists s; split; [done|]; destruct H as [[-> ->]|[-> ->]]; done].
  intros [a [H E]]. destruct H as [[-> ->]|[-> ->]]; simplify_eq/=; auto.
Qed.

Lemma RequireKnown_id id s : RequireKnown id = Ok s → SuiteID s = id.
Proof. rewrite RequireKnown_Ok. by intros [[-> ->]|[-> ->]]. Qed.

Lemma RequireSame_Ok expected actual :
  RequireSame expected actual = Ok tt ↔
  is_ok (RequireKnown expected) = true ∧ Forall (λ id, id = expected) actual.
Proof.
  unfold RequireSame. rewrite bind_Ok. split.
  - intros [s [Hk Hl]]. rewrite Hk. split; [done|]. revert Hl.
    induction actual as [|id r IH]; cbn [requireSame_loop]; [constructor|].
    intros H. ok_inv. bsimpl. subst. constructor; [done|]. by apply IH.
  - intros [Hk Hf]. apply is_ok_iff in Hk as [s Hk]. exists s. split; [done|].
    induction Hf as [|id r -> _ IH]; [done|]. cbn [requireSame_loop].
    rewrite Hk. simpl. rewrite seqb_refl. exact IH.
Qed.

(** Every registered suite uses 32-byte digests and distinct leaf and node
    prefixes: the sanity of the registry the Merkle profiles depend on. *)
Lemma suite_parameters id s :
  RequireKnown id = Ok s →
  DigestBytes (MerkleHash (Merkle s)) = 32 ∧ DigestBytes (AnchorDigest s) = 32 ∧
  LeafPrefix (Merkle s) ≠ NodePrefix (Merkle s).
Proof. rewrite RequireKnown_Ok. intros [[-> ->]|[-> ->]]; done. Qed.

End cryptosuite.
