(* ===== verification/Model.v ===== *)
(** * Data model

    The records of [src/internal/model/types.go] and
    [src/internal/model/idempotency.go], one module per Go struct: [X.t] is
    the struct [X], [X.zero] its zero value, [X.set_F] the assignment of one
    field.  Integers are [Z] in the range of their Go type; a Go pointer is an
    [option].  A byte slice is a list of bytes, which identifies nil and the
    empty slice; the one field where the sources tell them apart,
    [STHAnchorAttempt.ProviderState], is an [option]. *)

From S2P Require Import Prelude TrustErr CryptoSuite.

Definition SchemaClientClaim : string := "trustdb.claim.v2".
Definition SchemaSignedClaim : string := "trustdb.signed-claim.v2".
Definition SchemaServerRecord : string := "trustdb.server-record.v2".
Definition SchemaAcceptedReceipt : string := "trustdb.accepted-receipt.v2".
Definition SchemaCommittedReceipt : string := "trustdb.committed-receipt.v2".
Definition SchemaProofBundle : string := "trustdb.proof-bundle.v2".
Definition SchemaSingleProof : string := "trustdb.sproof.v2".
Definition SchemaProofIdentity : string := "trustdb.proof-identity-evidence.v1".
Definition SchemaCertificateStatus : string := "trustdb.certificate-status-evidence.v1".
Definition SchemaRecordIndex : string := "trustdb.record-index.v2".
Definition SchemaRecordStatus : string := "trustdb.record-status.v2".
Definition SchemaStatusRefresh : string := "trustdb.status-refresh.v2".
Definition SchemaBatchRoot : string := "trustdb.batch-root.v2".
Definition SchemaBatchManifest : string := "trustdb.batch-manifest.v2".
Definition SchemaBatchTreeLeaf : string := "trustdb.batch-tree-leaf.v2".
Definition SchemaBatchTreeNode : string := "trustdb.batch-tree-node.v2".
Definition SchemaWALCheckpoint : string := "trustdb.wal-checkpoint.v3".
Definition SchemaKeyEvent : string := "trustdb.key-event.v3".
Definition SchemaGlobalLogLeaf : string := "trustdb.global-log-leaf.v2".
Definition SchemaGlobalLogNode : string := "trustdb.global-log-node.v2".
Definition SchemaGlobalLogState : string := "trustdb.global-log-state.v2".
Definition SchemaSignedTreeHead : string := "trustdb.signed-tree-head.v2".
Definition SchemaGlobalLogProof : string := "trustdb.global-log-proof.v2".
Definition SchemaGlobalLogTile : string := "trustdb.global-log-tile.v2".
Definition SchemaGlobalLogOutbox : string := "trustdb.global-log-outbox.v2".
Definition SchemaSTHAnchorResult : string := "trustdb.sth-anchor-result.v2".
Definition SchemaSTHAnchorSchedule : string := "trustdb.sth-anchor-schedule.v2".
Definition SchemaSTHAnchorLatest : string := "trustdb.sth-anchor-latest.v2".
Definition SchemaSTHAnchorLatestEmpty : string := "trustdb.sth-anchor-latest-empty.v2".
Definition SchemaL5Coverage : string := "trustdb.l5-coverage-checkpoint.v2".
Definition KeyEventRegister : string := "KEY_REGISTERED".
Definition KeyEventRotate : string := "KEY_ROTATED".
Definition KeyEventRevoke : string := "KEY_REVOKED".
Definition KeyEventCompromise : string := "KEY_COMPROMISED".
Definition KeyStatusValid : string := "valid".
Definition KeyStatusRevoked : string := "revoked".
Definition KeyStatusCompromised : string := "compromised".
Definition BatchStatePreparing : string := "preparing".
Definition BatchStatePrepared : string := "prepared".
Definition BatchStateCommitted : string := "committed".
Definition BatchStateFailed : string := "failed".
Definition AnchorEvidenceStageOfflineVerified : string := "offline_verified".
Definition AnchorEvidenceStageRaw : string := "external_observation".
Definition AnchorEvidenceStageLocalOnly : string := "local_only".
Definition RecordStatusAccepted : string := "accepted".
Definition RecordStatusProcessing : string := "processing".
Definition RecordStatusRetryPending : string := "retry_pending".
Definition RecordStatusCommitted : string := "committed".
Definition RecordStatusFailed : string := "failed".
Definition RecordListDirectionAsc : string := "asc".
Definition RecordListDirectionDesc : string := "desc".
Definition SchemaIdempotencyDecision : string := "trustdb.idempotency-decision.v2".
Definition BatchComputePlanOnly : string := "plan_only".
Definition BatchComputeMaterialized : string := "materialized".
Definition DefaultHashAlg : string := cryptosuite.HashSHA256.
Definition DefaultValidationPolicy : string := "trustdb.policy.v2".

Module Content.
Record t := mk {
  HashAlg : string;
  ContentHash : bytes;
  ContentLength : Z;
  MediaType : string;
  StorageURI : string }.
Definition zero : t :=
  mk "" [] 0 "" "".
Definition set_HashAlg (v : string) (x : t) : t :=
  mk v x.(ContentHash) x.(ContentLength) x.(MediaType) x.(StorageURI).
#[global] Instance eq_dec : EqDecision t.
Proof. solve_decision. Defined.
End Content.

Module Metadata.
Record t := mk {
  EventType : string;
  Source : string;
  TraceID : string;
  Parents : list string;
  Custom : gmap string string }.
Definition zero : t :=
  mk "" "" "" [] ∅.
#[global] Instance eq_dec : EqDecision t.
Proof. solve_decision. Defined.
End Metadata.

Module TimeAttestation.
Record t := mk {
  Type_ : string;
  Token : bytes }.
Definition zero : t :=
  mk "" [].
#[global] Instance eq_dec : EqDecision t.
Proof. solve_decision. Defined.
End TimeAttestation.

Module ClientClaim.
Record t := mk {
  SchemaVersion : string;
  CryptoSuite : cryptosuite.ID;
  TenantID : string;
  ClientID : string;
  KeyID : string;
  ProducedAtUnixN : Z;
  Nonce : bytes;
  IdempotencyKey : string;
  Content : Content.t;
  Metadata : Metadata.t;
  TimeAttestation : TimeAttestation.t }.
Definition zero : t :=
  mk "" "" "" "" "" 0 [] "" Content.zero Metadata.zero TimeAttestation.zero.
#[global] Instance eq_dec : EqDecision t.
Proof. solve_decision. Defined.
End ClientClaim.

Module Signature.
Record t := mk {
  Alg : string;
  KeyID : string;
  Signature : bytes }.
Definition zero : t :=
  mk "" "" [].
#[global] Instance eq_dec : EqDecision t.
Proof. solve_decision. Defined.
End Signature.

Module SignedClaim.
Record t := mk {
  SchemaVersion : string;
  CryptoSuite : cryptosuite.ID;
  Claim : ClientClaim.t;
  Signature : Signature.t }.
Definition zero : t :=
  mk "" "" ClientClaim.zero Signature.zero.
#[global] Instance eq_dec : EqDecision t.
Proof. solve_decision. Defined.
End SignedClaim.

Module WALPosition.
Record t := mk {
  SegmentID : Z;
  Offset : Z;
  Sequence : Z }.
Definition zero : t :=
  mk 0 0 0.
#[global] Instance eq_dec : EqDecision t.
Proof. solve_decision. Defined.
End WALPosition.

Module Validation.
Record t := mk {
  PolicyVersion : string;
  HashAlgAllowed : bool;
  SignatureAlgAllowed : bool;
  KeyStatus : string }.
Definition zero : t :=
  mk "" false false "".
#[global] Instance eq_dec : EqDecision t.
Proof. solve_decision. Defined.
End Validation.

Module ServerRecord.
Record t := mk {
  SchemaVersion : string;
  CryptoSuite : cryptosuite.ID;
  RecordID : string;
  TenantID : string;
  ClientID : string;
  KeyID : string;
  ClaimHash : bytes;
  ClientSignatureHash : bytes;
  ReceivedAtUnixN : Z;
  WAL : WALPosition.t;
  Validation : Validation.t }.
Definition zero : t :=
  mk "" "" "" "" "" "" [] [] 0 WALPosition.zero Validation.zero.
#[global] Instance eq_dec : EqDecision t.
Proof. solve_decision. Defined.
End ServerRecord.

Module AcceptedReceipt.
Record t := mk {
  SchemaVersion : string;
  CryptoSuite : cryptosuite.ID;
  RecordID : string;
  Status : string;
  ServerID : string;
  ReceivedAtUnixN : Z;
  WAL : WALPosition.t;
  ServerSig : Signature.t }.
Definition zero : t :=
  mk "" "" "" "" "" 0 WALPosition.zero Signature.zero.
Definition set_ServerSig (v : Signature.t) (x : t) : t :=
  mk x.(SchemaVersion) x.(CryptoSuite) x.(RecordID) x.(Status) x.(ServerID) x.(ReceivedAtUnixN) x.(WAL) v.
#[global] Instance eq_dec : EqDecision t.
Proof. solve_decision. Defined.
End AcceptedReceipt.

Module CommittedReceipt.
Record t := mk {
  SchemaVersion : string;
  CryptoSuite : cryptosuite.ID;
  RecordID : string;
  Status : string;
  BatchID : string;
  LeafIndex : Z;
  LeafHash : bytes;
  BatchRoot : bytes;
  ClosedAtUnixN : Z;
  NodeID : string;
  LogID : string;
  ServerSig : Signature.t }.
Definition zero : t :=
  mk "" "" "" "" "" 0 [] [] 0 "" "" Signature.zero.
Definition set_ServerSig (v : Signature.t) (x : t) : t :=
  mk x.(SchemaVersion) x.(CryptoSuite) x.(RecordID) x.(Status) x.(BatchID) x.(LeafIndex) x.(LeafHash) x.(BatchRoot) x.(ClosedAtUnixN) x.(NodeID) x.(LogID) v.
#[global] Instance eq_dec : EqDecision t.
Proof. solve_decision. Defined.
End CommittedReceipt.

Module BatchProof.
Record t := mk {
  TreeAlg : string;
  LeafIndex : Z;
  TreeSize : Z;
  AuditPath : list bytes }.
Definition zero : t :=
  mk "" 0 0 [].
#[global] Instance eq_dec : EqDecision t.
Proof. solve_decision. Defined.
End BatchProof.

Module ProofBundle.
Record t := mk {
  SchemaVersion : string;
  CryptoSuite : cryptosuite.ID;
  RecordID : string;
  NodeID : string;
  LogID : string;
  SignedClaim : SignedClaim.t;
  ServerRecord : ServerRecord.t;
  AcceptedReceipt : AcceptedReceipt.t;
  CommittedReceipt : CommittedReceipt.t;
  BatchProof : BatchProof.t }.
Definition zero : t :=
  mk "" "" "" "" "" SignedClaim.zero ServerRecord.zero AcceptedReceipt.zero CommittedReceipt.zero BatchProof.zero.
#[global] Instance eq_dec : EqDecision t.
Proof. solve_decision. Defined.
End ProofBundle.

Module RecordIndex.
Record t := mk {
  SchemaVersion : string;
  CryptoSuite : cryptosuite.ID;
  RecordID : string;
  NodeID : string;
  LogID : string;
  TenantID : string;
  ClientID : string;
  KeyID : string;
  ProofLevel : string;
  BatchID : string;
  BatchLeafIndex : Z;
  BatchClosedAtUnixN : Z;
  ReceivedAtUnixN : Z;
  ContentHash : bytes;
  ContentLength : Z;
  MediaType : string;
  StorageURI : string;
  FileName : string;
  EventType : string;
  Source : string }.
Definition zero : t :=
  mk "" "" "" "" "" "" "" "" "" "" 0 0 0 [] 0 "" "" "" "" "".
End RecordIndex.

Module RecordStatus.
Record t := mk {
  SchemaVersion : string;
  CryptoSuite : cryptosuite.ID;
  RecordID : string;
  TenantID : string;
  ClientID : string;
  KeyID : string;
  Status : string;
  ProofLevel : string;
  StatusVersion : Z;
  BatchID : string;
  UpdatedAtUnixN : Z;
  Terminal : bool;
  Retryable : bool;
  FailureCode : string }.
Definition zero : t :=
  mk "" "" "" "" "" "" "" "" 0 "" 0 false false "".
End RecordStatus.

Module StatusRefresh.
Record t := mk {
  SchemaVersion : string;
  CryptoSuite : cryptosuite.ID;
  SubscriptionID : string;
  TenantID : string;
  ClientID : string;
  Version : Z;
  RefreshRequired : bool;
  EmittedAtUnixN : Z;
  ServerSig : Signature.t }.
Definition zero : t :=
  mk "" "" "" "" "" 0 false 0 Signature.zero.
End StatusRefresh.

Module BatchRoot.
Record t := mk {
  SchemaVersion : string;
  CryptoSuite : cryptosuite.ID;
  BatchID : string;
  NodeID : string;
  LogID : string;
  BatchRoot : bytes;
  TreeSize : Z;
  ClosedAtUnixN : Z }.
Definition zero : t :=
  mk "" "" "" "" "" [] 0 0.
Definition set_NodeID (v : string) (x : t) : t :=
  mk x.(SchemaVersion) x.(CryptoSuite) x.(BatchID) v x.(LogID) x.(BatchRoot) x.(TreeSize) x.(ClosedAtUnixN).
Definition set_LogID (v : string) (x : t) : t :=
  mk x.(SchemaVersion) x.(CryptoSuite) x.(BatchID) x.(NodeID) v x.(BatchRoot) x.(TreeSize) x.(ClosedAtUnixN).
#[global] Instance eq_dec : EqDecision t.
Proof. solve_decision. Defined.
End BatchRoot.

Module WALRange.
Record t := mk {
  From : WALPosition.t;
  To : WALPosition.t }.
Definition zero : t :=
  mk WALPosition.zero WALPosition.zero.
#[global] Instance eq_dec : EqDecision t.
Proof. solve_decision. Defined.
End WALRange.

Module WALCheckpoint.
Record t := mk {
  SchemaVersion : string;
  CryptoSuite : cryptosuite.ID;
  NodeID : string;
  WALID : string;
  SegmentID : Z;
  LastSequence : Z;
  LastOffset : Z;
  BatchID : string;
  RecordedAtUnixN : Z }.
Definition zero : t :=
  mk "" "" "" "" 0 0 0 "" 0.
#[global] Instance eq_dec : EqDecision t.
Proof. solve_decision. Defined.
End WALCheckpoint.

Module BatchManifest.
Record t := mk {
  SchemaVersion : string;
  CryptoSuite : cryptosuite.ID;
  BatchID : string;
  NodeID : string;
  LogID : string;
  State : string;
  TreeAlg : string;
  TreeSize : Z;
  BatchRoot : bytes;
  RecordIDs : list string;
  WALRange : WALRange.t;
  ClosedAtUnixN : Z;
  PreparingAtUnixN : Z;
  PreparedAtUnixN : Z;
  CommittedAtUnixN : Z;
  MaterializeAttempts : Z;
  MaterializeNextUnixN : Z;
  MaterializeLastError : string;
  MaterializeFailureCode : string }.
Definition zero : t :=
  mk "" "" "" "" "" "" "" 0 [] [] WALRange.zero 0 0 0 0 0 0 "" "".
#[global] Instance eq_dec : EqDecision t.
Proof. solve_decision. Defined.
End BatchManifest.

Module BatchTreeLeaf.
Record t := mk {
  SchemaVersion : string;
  CryptoSuite : cryptosuite.ID;
  BatchID : string;
  RecordID : string;
  LeafIndex : Z;
  LeafHash : bytes;
  CreatedAtUnixN : Z }.
Definition zero : t :=
  mk "" "" "" "" 0 [] 0.
End BatchTreeLeaf.

Module BatchTreeNode.
Record t := mk {
  SchemaVersion : string;
  CryptoSuite : cryptosuite.ID;
  BatchID : string;
  Level : Z;
  StartIndex : Z;
  Width : Z;
  Hash : bytes;
  CreatedAtUnixN : Z }.
Definition zero : t :=
  mk "" "" "" 0 0 0 [] 0.
End BatchTreeNode.

Module BatchTreeSnapshotNode.
Record t := mk {
  Level : Z;
  StartIndex : Z;
  Width : Z;
  Hash : bytes }.
Definition zero : t :=
  mk 0 0 0 [].
End BatchTreeSnapshotNode.

Module BatchTreeSnapshot.
Record t := mk {
  CryptoSuite : cryptosuite.ID;
  BatchID : string;
  CreatedAtUnixN : Z;
  RecordIDs : list string;
  LeafHashes : list bytes;
  Nodes : list BatchTreeSnapshotNode.t }.
Definition zero : t :=
  mk "" "" 0 [] [] [].
End BatchTreeSnapshot.

Module GlobalLogLeaf.
Record t := mk {
  SchemaVersion : string;
  CryptoSuite : cryptosuite.ID;
  NodeID : string;
  LogID : string;
  BatchID : string;
  BatchRoot : bytes;
  BatchTreeSize : Z;
  BatchClosedAtUnixN : Z;
  LeafIndex : Z;
  LeafHash : bytes;
  AppendedAtUnixN : Z }.
Definition zero : t :=
  mk "" "" "" "" "" [] 0 0 0 [] 0.
Definition set_LeafHash (v : bytes) (x : t) : t :=
  mk x.(SchemaVersion) x.(CryptoSuite) x.(NodeID) x.(LogID) x.(BatchID) x.(BatchRoot) x.(BatchTreeSize) x.(BatchClosedAtUnixN) x.(LeafIndex) v x.(AppendedAtUnixN).
Definition set_AppendedAtUnixN (v : Z) (x : t) : t :=
  mk x.(SchemaVersion) x.(CryptoSuite) x.(NodeID) x.(LogID) x.(BatchID) x.(BatchRoot) x.(BatchTreeSize) x.(BatchClosedAtUnixN) x.(LeafIndex) x.(LeafHash) v.
#[global] Instance eq_dec : EqDecision t.
Proof. solve_decision. Defined.
End GlobalLogLeaf.

Module GlobalLogNode.
Record t := mk {
  SchemaVersion : string;
  CryptoSuite : cryptosuite.ID;
  Level : Z;
  StartIndex : Z;
  Width : Z;
  Hash : bytes;
  CreatedAtUnixN : Z }.
Definition zero : t :=
  mk "" "" 0 0 0 [] 0.
#[global] Instance eq_dec : EqDecision t.
Proof. solve_decision. Defined.
End GlobalLogNode.

Module GlobalLogState.
Record t := mk {
  SchemaVersion : string;
  CryptoSuite : cryptosuite.ID;
  TreeSize : Z;
  RootHash : bytes;
  Frontier : list bytes;
  UpdatedAtUnixN : Z }.
Definition zero : t :=
  mk "" "" 0 [] [] 0.
#[global] Instance eq_dec : EqDecision t.
Proof. solve_decision. Defined.
End GlobalLogState.

Module SignedTreeHead.
Record t := mk {
  SchemaVersion : string;
  CryptoSuite : cryptosuite.ID;
  TreeAlg : string;
  TreeSize : Z;
  RootHash : bytes;
  TimestampUnixN : Z;
  NodeID : string;
  LogID : string;
  Signature : Signature.t }.
Definition zero : t :=
  mk "" "" "" 0 [] 0 "" "" Signature.zero.
Definition set_Signature (v : Signature.t) (x : t) : t :=
  mk x.(SchemaVersion) x.(CryptoSuite) x.(TreeAlg) x.(TreeSize) x.(RootHash) x.(TimestampUnixN) x.(NodeID) x.(LogID) v.
#[global] Instance eq_dec : EqDecision t.
Proof. solve_decision. Defined.
End SignedTreeHead.

Module GlobalLogAppend.
Record t := mk {
  Leaf : GlobalLogLeaf.t;
  Nodes : list GlobalLogNode.t;
  State : GlobalLogState.t;
  STH : SignedTreeHead.t }.
Definition zero : t :=
  mk GlobalLogLeaf.zero [] GlobalLogState.zero SignedTreeHead.zero.
End GlobalLogAppend.

Module GlobalConsistencyProof.
Record t := mk {
  FromTreeSize : Z;
  ToTreeSize : Z;
  AuditPath : list bytes }.
Definition zero : t :=
  mk 0 0 [].
End GlobalConsistencyProof.

Module GlobalLogProof.
Record t := mk {
  SchemaVersion : string;
  CryptoSuite : cryptosuite.ID;
  NodeID : string;
  LogID : string;
  BatchID : string;
  LeafIndex : Z;
  LeafHash : bytes;
  TreeSize : Z;
  InclusionPath : list bytes;
  STH : SignedTreeHead.t;
  Consistency : GlobalConsistencyProof.t }.
Definition zero : t :=
  mk "" "" "" "" "" 0 [] 0 [] SignedTreeHead.zero GlobalConsistencyProof.zero.
End GlobalLogProof.

Module STHAnchorResult.
Record t := mk {
  SchemaVersion : string;
  CryptoSuite : cryptosuite.ID;
  NodeID : string;
  LogID : string;
  TreeSize : Z;
  SinkName : string;
  AnchorID : string;
  RootHash : bytes;
  STH : SignedTreeHead.t;
  Proof : bytes;
  EvidenceStage : string;
  PublishedAtUnixN : Z }.
Definition zero : t :=
  mk "" "" "" "" 0 "" "" [] SignedTreeHead.zero [] "" 0.
Definition set_SchemaVersion (v : string) (x : t) : t :=
  mk v x.(CryptoSuite) x.(NodeID) x.(LogID) x.(TreeSize) x.(SinkName) x.(AnchorID) x.(RootHash) x.(STH) x.(Proof) x.(EvidenceStage) x.(PublishedAtUnixN).
Definition set_CryptoSuite (v : cryptosuite.ID) (x : t) : t :=
  mk x.(SchemaVersion) v x.(NodeID) x.(LogID) x.(TreeSize) x.(SinkName) x.(AnchorID) x.(RootHash) x.(STH) x.(Proof) x.(EvidenceStage) x.(PublishedAtUnixN).
Definition set_TreeSize (v : Z) (x : t) : t :=
  mk x.(SchemaVersion) x.(CryptoSuite) x.(NodeID) x.(LogID) v x.(SinkName) x.(AnchorID) x.(RootHash) x.(STH) x.(Proof) x.(EvidenceStage) x.(PublishedAtUnixN).
Definition set_NodeID (v : string) (x : t) : t :=
  mk x.(SchemaVersion) x.(CryptoSuite) v x.(LogID) x.(TreeSize) x.(SinkName) x.(AnchorID) x.(RootHash) x.(STH) x.(Proof) x.(EvidenceStage) x.(PublishedAtUnixN).
Definition set_LogID (v : string) (x : t) : t :=
  mk x.(SchemaVersion) x.(CryptoSuite) x.(NodeID) v x.(TreeSize) x.(SinkName) x.(AnchorID) x.(RootHash) x.(STH) x.(Proof) x.(EvidenceStage) x.(PublishedAtUnixN).
Definition set_SinkName (v : string) (x : t) : t :=
  mk x.(SchemaVersion) x.(CryptoSuite) x.(NodeID) x.(LogID) x.(TreeSize) v x.(AnchorID) x.(RootHash) x.(STH) x.(Proof) x.(EvidenceStage) x.(PublishedAtUnixN).
Definition set_RootHash (v : bytes) (x : t) : t :=
  mk x.(SchemaVersion) x.(CryptoSuite) x.(NodeID) x.(LogID) x.(TreeSize) x.(SinkName) x.(AnchorID) v x.(STH) x.(Proof) x.(EvidenceStage) x.(PublishedAtUnixN).
Definition set_STH (v : SignedTreeHead.t) (x : t) : t :=
  mk x.(SchemaVersion) x.(CryptoSuite) x.(NodeID) x.(LogID) x.(TreeSize) x.(SinkName) x.(AnchorID) x.(RootHash) v x.(Proof) x.(EvidenceStage) x.(PublishedAtUnixN).
Definition set_PublishedAtUnixN (v : Z) (x : t) : t :=
  mk x.(SchemaVersion) x.(CryptoSuite) x.(NodeID) x.(LogID) x.(TreeSize) x.(SinkName) x.(AnchorID) x.(RootHash) x.(STH) x.(Proof) x.(EvidenceStage) v.
#[global] Instance eq_dec : EqDecision t.
Proof. solve_decision. Defined.
End STHAnchorResult.

Module CertificateStatusEvidence.
Record t := mk {
  SchemaVersion : string;
  CryptoSuite : cryptosuite.ID;
  Type_ : string;
  IssuerFingerprint : bytes;
  Status : bytes }.
Definition zero : t :=
  mk "" "" "" [] [].
End CertificateStatusEvidence.

Module ProofIdentityEvidence.
Record t := mk {
  SchemaVersion : string;
  CryptoSuite : cryptosuite.ID;
  Role : string;
  KeyID : string;
  KeyDescriptor : bytes;
  RegistryV2 : bytes;
  CertificateStatuses : list CertificateStatusEvidence.t }.
Definition zero : t :=
  mk "" "" "" "" [] [] [].
End ProofIdentityEvidence.

Module SingleProof.
Record t := mk {
  SchemaVersion : string;
  FormatVersion : Z;
  CryptoSuite : cryptosuite.ID;
  RecordID : string;
  ProofLevel : string;
  NodeID : string;
  LogID : string;
  ProofBundle : ProofBundle.t;
  GlobalProof : option GlobalLogProof.t;
  AnchorResult : option STHAnchorResult.t;
  IdentityEvidence : list ProofIdentityEvidence.t;
  ExportedAtUnixN : Z }.
Definition zero : t :=
  mk "" 0 "" "" "" "" "" ProofBundle.zero None None [] 0.
End SingleProof.

Module GlobalLogEvidence.
Record t := mk {
  GlobalProof : GlobalLogProof.t;
  AnchorResult : option STHAnchorResult.t }.
Definition zero : t :=
  mk GlobalLogProof.zero None.
End GlobalLogEvidence.

Module GlobalLogTile.
Record t := mk {
  SchemaVersion : string;
  CryptoSuite : cryptosuite.ID;
  Level : Z;
  StartIndex : Z;
  Width : Z;
  Hashes : list bytes;
  Compressed : bool;
  CreatedAtUnixN : Z }.
Definition zero : t :=
  mk "" "" 0 0 0 [] false 0.
End GlobalLogTile.

Module GlobalLogOutboxItem.
Record t := mk {
  SchemaVersion : string;
  CryptoSuite : cryptosuite.ID;
  BatchID : string;
  BatchRoot : BatchRoot.t;
  Status : string;
  STH : SignedTreeHead.t;
  Attempts : Z;
  EnqueuedAtUnixN : Z;
  NextAttemptUnixN : Z;
  LastAttemptUnixN : Z;
  LastErrorMessage : string;
  CompletedAtUnixN : Z }.
Definition zero : t :=
  mk "" "" "" BatchRoot.zero "" SignedTreeHead.zero 0 0 0 0 "" 0.
End GlobalLogOutboxItem.

Module ClientKey.
Record t := mk {
  TenantID : string;
  ClientID : string;
  KeyID : string;
  CryptoSuite : cryptosuite.ID;
  Alg : string;
  PublicKeyEncoding : string;
  PublicKey : bytes;
  SM2UserID : string;
  CertificateChain : list bytes;
  Provider : string;
  KeyDescriptor : bytes;
  ValidFromUnixN : Z;
  ValidUntilUnixN : Z;
  Status : string;
  RevokedAtUnixN : Z;
  CompromisedAtUnixN : Z }.
Definition zero : t :=
  mk "" "" "" "" "" "" [] "" [] "" [] 0 0 "" 0 0.
Definition set_Status (v : string) (x : t) : t :=
  mk x.(TenantID) x.(ClientID) x.(KeyID) x.(CryptoSuite) x.(Alg) x.(PublicKeyEncoding) x.(PublicKey) x.(SM2UserID) x.(CertificateChain) x.(Provider) x.(KeyDescriptor) x.(ValidFromUnixN) x.(ValidUntilUnixN) v x.(RevokedAtUnixN) x.(CompromisedAtUnixN).
Definition set_RevokedAtUnixN (v : Z) (x : t) : t :=
  mk x.(TenantID) x.(ClientID) x.(KeyID) x.(CryptoSuite) x.(Alg) x.(PublicKeyEncoding) x.(PublicKey) x.(SM2UserID) x.(CertificateChain) x.(Provider) x.(KeyDescriptor) x.(ValidFromUnixN) x.(ValidUntilUnixN) x.(Status) v x.(CompromisedAtUnixN).
Definition set_CompromisedAtUnixN (v : Z) (x : t) : t :=
  mk x.(TenantID) x.(ClientID) x.(KeyID) x.(CryptoSuite) x.(Alg) x.(PublicKeyEncoding) x.(PublicKey) x.(SM2UserID) x.(CertificateChain) x.(Provider) x.(KeyDescriptor) x.(ValidFromUnixN) x.(ValidUntilUnixN) x.(Status) x.(RevokedAtUnixN) v.
End ClientKey.

Module STHAnchorResultKey.
Record t := mk {
  NodeID : string;
  LogID : string;
  SinkName : string;
  TreeSize : Z }.
Definition zero : t :=
  mk "" "" "" 0.
#[global] Instance eq_dec : EqDecision t.
Proof. solve_decision. Defined.
End STHAnchorResultKey.

Module STHAnchorLatestReference.
Record t := mk {
  SchemaVersion : string;
  CryptoSuite : cryptosuite.ID;
  Key : STHAnchorResultKey.t;
  RootHash : bytes;
  AnchorID : string }.
Definition zero : t :=
  mk "" "" STHAnchorResultKey.zero [] "".
End STHAnchorLatestReference.

Module STHAnchorScheduleKey.
Record t := mk {
  NodeID : string;
  LogID : string;
  SinkName : string }.
Definition zero : t :=
  mk "" "" "".
#[global] Instance eq_dec : EqDecision t.
Proof. solve_decision. Defined.
End STHAnchorScheduleKey.

Module STHAnchorCandidate.
Record t := mk {
  Key : STHAnchorScheduleKey.t;
  STH : SignedTreeHead.t;
  ObservedAtUnixN : Z;
  DueAtUnixN : Z }.
Definition zero : t :=
  mk STHAnchorScheduleKey.zero SignedTreeHead.zero 0 0.
End STHAnchorCandidate.

Module STHAnchorWindow.
Record t := mk {
  Generation : Z;
  Target : SignedTreeHead.t;
  OpenedAtUnixN : Z;
  DueAtUnixN : Z;
  UpdatedAtUnixN : Z }.
Definition zero : t :=
  mk 0 SignedTreeHead.zero 0 0 0.
Definition set_Target (v : SignedTreeHead.t) (x : t) : t :=
  mk x.(Generation) v x.(OpenedAtUnixN) x.(DueAtUnixN) x.(UpdatedAtUnixN).
Definition set_UpdatedAtUnixN (v : Z) (x : t) : t :=
  mk x.(Generation) x.(Target) x.(OpenedAtUnixN) x.(DueAtUnixN) v.
#[global] Instance eq_dec : EqDecision t.
Proof. solve_decision. Defined.
End STHAnchorWindow.

Module STHAnchorAttempt.
Record t := mk {
  Generation : Z;
  Target : SignedTreeHead.t;
  OpenedAtUnixN : Z;
  DueAtUnixN : Z;
  ProviderState : option bytes;
  Attempts : Z;
  NextAttemptUnixN : Z;
  LastAttemptUnixN : Z;
  LastErrorMessage : string;
  TerminalFailure : bool;
  LeaseOwner : string;
  LeaseToken : string;
  LeaseUntilUnixN : Z }.
Definition zero : t :=
  mk 0 SignedTreeHead.zero 0 0 None 0 0 0 "" false "" "" 0.
Definition set_Generation (v : Z) (x : t) : t :=
  mk v x.(Target) x.(OpenedAtUnixN) x.(DueAtUnixN) x.(ProviderState) x.(Attempts) x.(NextAttemptUnixN) x.(LastAttemptUnixN) x.(LastErrorMessage) x.(TerminalFailure) x.(LeaseOwner) x.(LeaseToken) x.(LeaseUntilUnixN).
Definition set_Target (v : SignedTreeHead.t) (x : t) : t :=
  mk x.(Generation) v x.(OpenedAtUnixN) x.(DueAtUnixN) x.(ProviderState) x.(Attempts) x.(NextAttemptUnixN) x.(LastAttemptUnixN) x.(LastErrorMessage) x.(TerminalFailure) x.(LeaseOwner) x.(LeaseToken) x.(LeaseUntilUnixN).
Definition set_OpenedAtUnixN (v : Z) (x : t) : t :=
  mk x.(Generation) x.(Target) v x.(DueAtUnixN) x.(ProviderState) x.(Attempts) x.(NextAttemptUnixN) x.(LastAttemptUnixN) x.(LastErrorMessage) x.(TerminalFailure) x.(LeaseOwner) x.(LeaseToken) x.(LeaseUntilUnixN).
Definition set_DueAtUnixN (v : Z) (x : t) : t :=
  mk x.(Generation) x.(Target) x.(OpenedAtUnixN) v x.(ProviderState) x.(Attempts) x.(NextAttemptUnixN) x.(LastAttemptUnixN) x.(LastErrorMessage) x.(TerminalFailure) x.(LeaseOwner) x.(LeaseToken) x.(LeaseUntilUnixN).
Definition set_ProviderState (v : option bytes) (x : t) : t :=
  mk x.(Generation) x.(Target) x.(OpenedAtUnixN) x.(DueAtUnixN) v x.(Attempts) x.(NextAttemptUnixN) x.(LastAttemptUnixN) x.(LastErrorMessage) x.(TerminalFailure) x.(LeaseOwner) x.(LeaseToken) x.(LeaseUntilUnixN).
Definition set_Attempts (v : Z) (x : t) : t :=
  mk x.(Generation) x.(Target) x.(OpenedAtUnixN) x.(DueAtUnixN) x.(ProviderState) v x.(NextAttemptUnixN) x.(LastAttemptUnixN) x.(LastErrorMessage) x.(TerminalFailure) x.(LeaseOwner) x.(LeaseToken) x.(LeaseUntilUnixN).
Definition set_NextAttemptUnixN (v : Z) (x : t) : t :=
  mk x.(Generation) x.(Target) x.(OpenedAtUnixN) x.(DueAtUnixN) x.(ProviderState) x.(Attempts) v x.(LastAttemptUnixN) x.(LastErrorMessage) x.(TerminalFailure) x.(LeaseOwner) x.(LeaseToken) x.(LeaseUntilUnixN).
Definition set_LastAttemptUnixN (v : Z) (x : t) : t :=
  mk x.(Generation) x.(Target) x.(OpenedAtUnixN) x.(DueAtUnixN) x.(ProviderState) x.(Attempts) x.(NextAttemptUnixN) v x.(LastErrorMessage) x.(TerminalFailure) x.(LeaseOwner) x.(LeaseToken) x.(LeaseUntilUnixN).
Definition set_LastErrorMessage (v : string) (x : t) : t :=
  mk x.(Generation) x.(Target) x.(OpenedAtUnixN) x.(DueAtUnixN) x.(ProviderState) x.(Attempts) x.(NextAttemptUnixN) x.(LastAttemptUnixN) v x.(TerminalFailure) x.(LeaseOwner) x.(LeaseToken) x.(LeaseUntilUnixN).
Definition set_TerminalFailure (v : bool) (x : t) : t :=
  mk x.(Generation) x.(Target) x.(OpenedAtUnixN) x.(DueAtUnixN) x.(ProviderState) x.(Attempts) x.(NextAttemptUnixN) x.(LastAttemptUnixN) x.(LastErrorMessage) v x.(LeaseOwner) x.(LeaseToken) x.(LeaseUntilUnixN).
Definition set_LeaseOwner (v : string) (x : t) : t :=
  mk x.(Generation) x.(Target) x.(OpenedAtUnixN) x.(DueAtUnixN) x.(ProviderState) x.(Attempts) x.(NextAttemptUnixN) x.(LastAttemptUnixN) x.(LastErrorMessage) x.(TerminalFailure) v x.(LeaseToken) x.(LeaseUntilUnixN).
Definition set_LeaseToken (v : string) (x : t) : t :=
  mk x.(Generation) x.(Target) x.(OpenedAtUnixN) x.(DueAtUnixN) x.(ProviderState) x.(Attempts) x.(NextAttemptUnixN) x.(LastAttemptUnixN) x.(LastErrorMessage) x.(TerminalFailure) x.(LeaseOwner) v x.(LeaseUntilUnixN).
Definition set_LeaseUntilUnixN (v : Z) (x : t) : t :=
  mk x.(Generation) x.(Target) x.(OpenedAtUnixN) x.(DueAtUnixN) x.(ProviderState) x.(Attempts) x.(NextAttemptUnixN) x.(LastAttemptUnixN) x.(LastErrorMessage) x.(TerminalFailure) x.(LeaseOwner) x.(LeaseToken) v.
#[global] Instance eq_dec : EqDecision t.
Proof. solve_decision. Defined.
End STHAnchorAttempt.

Module STHAnchorSchedule.
Record t := mk {
  SchemaVersion : string;
  CryptoSuite : cryptosuite.ID;
  Key : STHAnchorScheduleKey.t;
  Revision : Z;
  NextGeneration : Z;
  Pending : option STHAnchorWindow.t;
  InFlight : option STHAnchorAttempt.t }.
Definition zero : t :=
  mk "" "" STHAnchorScheduleKey.zero 0 0 None None.
Definition set_SchemaVersion (v : string) (x : t) : t :=
  mk v x.(CryptoSuite) x.(Key) x.(Revision) x.(NextGeneration) x.(Pending) x.(InFlight).
Definition set_CryptoSuite (v : cryptosuite.ID) (x : t) : t :=
  mk x.(SchemaVersion) v x.(Key) x.(Revision) x.(NextGeneration) x.(Pending) x.(InFlight).
Definition set_Key (v : STHAnchorScheduleKey.t) (x : t) : t :=
  mk x.(SchemaVersion) x.(CryptoSuite) v x.(Revision) x.(NextGeneration) x.(Pending) x.(InFlight).
Definition set_Revision (v : Z) (x : t) : t :=
  mk x.(SchemaVersion) x.(CryptoSuite) x.(Key) v x.(NextGeneration) x.(Pending) x.(InFlight).
Definition set_NextGeneration (v : Z) (x : t) : t :=
  mk x.(SchemaVersion) x.(CryptoSuite) x.(Key) x.(Revision) v x.(Pending) x.(InFlight).
Definition set_Pending (v : option STHAnchorWindow.t) (x : t) : t :=
  mk x.(SchemaVersion) x.(CryptoSuite) x.(Key) x.(Revision) x.(NextGeneration) v x.(InFlight).
Definition set_InFlight (v : option STHAnchorAttempt.t) (x : t) : t :=
  mk x.(SchemaVersion) x.(CryptoSuite) x.(Key) x.(Revision) x.(NextGeneration) x.(Pending) v.
End STHAnchorSchedule.

Module L5CoverageCheckpoint.
Record t := mk {
  SchemaVersion : string;
  CryptoSuite : cryptosuite.ID;
  Key : STHAnchorScheduleKey.t;
  CoveredTreeSize : Z;
  Revision : Z;
  UpdatedAtUnixN : Z }.
Definition zero : t :=
  mk "" "" STHAnchorScheduleKey.zero 0 0 0.
#[global] Instance eq_dec : EqDecision t.
Proof. solve_decision. Defined.
End L5CoverageCheckpoint.

Module KeyEvent.
Record t := mk {
  SchemaVersion : string;
  CryptoSuite : cryptosuite.ID;
  Sequence : Z;
  Type_ : string;
  TenantID : string;
  ClientID : string;
  KeyID : string;
  PreviousKeyID : string;
  KeyDescriptor : bytes;
  ValidFromUnixN : Z;
  ValidUntilUnixN : Z;
  RotatedAtUnixN : Z;
  RevokedAtUnixN : Z;
  CompromisedAtUnixN : Z;
  Reason : string;
  PrevEventHash : bytes;
  EventHash : bytes;
  RegistrySignature : Signature.t }.
Definition zero : t :=
  mk "" "" 0 "" "" "" "" "" [] 0 0 0 0 0 "" [] [] Signature.zero.
Definition set_Sequence (v : Z) (x : t) : t :=
  mk x.(SchemaVersion) x.(CryptoSuite) v x.(Type_) x.(TenantID) x.(ClientID) x.(KeyID) x.(PreviousKeyID) x.(KeyDescriptor) x.(ValidFromUnixN) x.(ValidUntilUnixN) x.(RotatedAtUnixN) x.(RevokedAtUnixN) x.(CompromisedAtUnixN) x.(Reason) x.(PrevEventHash) x.(EventHash) x.(RegistrySignature).
Definition set_PrevEventHash (v : bytes) (x : t) : t :=
  mk x.(SchemaVersion) x.(CryptoSuite) x.(Sequence) x.(Type_) x.(TenantID) x.(ClientID) x.(KeyID) x.(PreviousKeyID) x.(KeyDescriptor) x.(ValidFromUnixN) x.(ValidUntilUnixN) x.(RotatedAtUnixN) x.(RevokedAtUnixN) x.(CompromisedAtUnixN) x.(Reason) v x.(EventHash) x.(RegistrySignature).
Definition set_EventHash (v : bytes) (x : t) : t :=
  mk x.(SchemaVersion) x.(CryptoSuite) x.(Sequence) x.(Type_) x.(TenantID) x.(ClientID) x.(KeyID) x.(PreviousKeyID) x.(KeyDescriptor) x.(ValidFromUnixN) x.(ValidUntilUnixN) x.(RotatedAtUnixN) x.(RevokedAtUnixN) x.(CompromisedAtUnixN) x.(Reason) x.(PrevEventHash) v x.(RegistrySignature).
Definition set_RegistrySignature (v : Signature.t) (x : t) : t :=
  mk x.(SchemaVersion) x.(CryptoSuite) x.(Sequence) x.(Type_) x.(TenantID) x.(ClientID) x.(KeyID) x.(PreviousKeyID) x.(KeyDescriptor) x.(ValidFromUnixN) x.(ValidUntilUnixN) x.(RotatedAtUnixN) x.(RevokedAtUnixN) x.(CompromisedAtUnixN) x.(Reason) x.(PrevEventHash) x.(EventHash) v.
#[global] Instance eq_dec : EqDecision t.
Proof. solve_decision. Defined.
End KeyEvent.

Module IdempotencyIdentity.
Record t := mk {
  TenantID : string;
  ClientID : string;
  IdempotencyKey : string }.
Definition zero : t :=
  mk "" "" "".
#[global] Instance eq_dec : EqDecision t.
Proof. solve_decision. Defined.
End IdempotencyIdentity.

Module IdempotencyDecision.
Record t := mk {
  SchemaVersion : string;
  CryptoSuite : cryptosuite.ID;
  Identity : IdempotencyIdentity.t;
  ClaimHash : bytes;
  Record : ServerRecord.t;
  Accepted : AcceptedReceipt.t;
  BatchID : string }.
Definition zero : t :=
  mk "" "" IdempotencyIdentity.zero [] ServerRecord.zero AcceptedReceipt.zero "".
#[global] Instance eq_dec : EqDecision t.
Proof. solve_decision. Defined.
End IdempotencyDecision.

(** [AnchorResultProvidesOfflineL5]: the allowlist from an anchor result to L5. *)
Definition AnchorResultProvidesOfflineL5 (result : STHAnchorResult.t) : bool :=
  if seqb result.(STHAnchorResult.SinkName) "file" || seqb result.(STHAnchorResult.SinkName) "noop"
  then false
  else seqb result.(STHAnchorResult.EvidenceStage) AnchorEvidenceStageOfflineVerified.

Definition ValidAnchorEvidenceStage (stage : string) : bool :=
  seqb stage AnchorEvidenceStageOfflineVerified
  || seqb stage AnchorEvidenceStageRaw
  || seqb stage AnchorEvidenceStageLocalOnly.
