(* ===== verification/TrustCrypto.v ===== *)
(** * Cryptographic providers

    Models [src/internal/trustcrypto/provider.go], [crypto.go], the checks of
    [sm2.go] and the signature framing of [signature_input.go].

    The hash and signature primitives are third-party code: they are the
    operations of the classes [HashLib] and [SigLib].  [HashLib] states the one
    documented fact the code relies on, that both digests are 32 bytes long.
    A [context.Context] is taken to be live: cancellation is not modelled. *)

From S2P Require Import Prelude TrustErr CryptoSuite Model.

(** [crypto/sha256] and [github.com/emmansun/gmsm/sm3]. *)
Class HashLib := {
  sha256_Sum256 : bytes → bytes;
  sm3_Sum : bytes → bytes;
  sha256_len x : length (sha256_Sum256 x) = 32%nat;
  sm3_len x : length (sm3_Sum x) = 32%nat }.

(** [crypto/ed25519], [encoding/asn1] and [github.com/emmansun/gmsm/sm2]:
    signature checks and the parsers of SM2 keys and DER signatures. *)
Class SigLib := {
  ed25519_Verify : bytes → bytes → bytes → bool;
  sm2_VerifyASN1WithSM2 : bytes → bytes → bytes → bytes → bool;
  sm2_NewPublicKey_ok : bytes → bool;
  sm2_point_canonical : bytes → bool;
  sm2_DER_ok : bytes → bool }.

Module trustcrypto.

Definition ErrUnsupportedAlgorithm := ErrorsNew "unsupported cryptographic algorithm".
Definition ErrUnsupportedEncoding := ErrorsNew "unsupported cryptographic encoding".
Definition ErrUnsupportedCapability := ErrorsNew "unsupported provider capability".
Definition ErrInvalidKeyHandle := ErrorsNew "invalid non-exportable key handle".
Definition ErrInvalidKeyDescriptor := ErrorsNew "invalid public-key descriptor".

(** [CapabilitySign = 1 << 0], [CapabilityPublicKey = 1 << 1]. *)
Definition CapabilitySign : Z := 1.
Definition CapabilityPublicKey : Z := 2.

Definition Supports (set capability : Z) : bool := Z.land set capability =? capability.

Record KeyHandle := mkKeyHandle {
  H_Provider : string;
  H_KeyID : string;
  H_Algorithm : string }.

Definition KeyHandle_Validate (h : KeyHandle) : result unit :=
  if seqb (TrimSpace (H_Provider h)) "" || seqb (TrimSpace (H_KeyID h)) ""
     || seqb (TrimSpace (H_Algorithm h)) ""
  then Err (Errorf "%w: provider, key_id, and algorithm are required" ErrInvalidKeyHandle)
  else Ok tt.

Record PublicKeyDescriptor := mkPublicKeyDescriptor {
  Suite : cryptosuite.ID;
  KeyID : string;
  Algorithm : string;
  Encoding : string;
  Bytes : bytes }.

(** The [Signer] interface, a record of its operations.  [SignerSign] are the
    signatures that the signer makes: those of the SM2 signer are randomized, so
    that a process that signs the same message twice is modelled by two signers
    with the same handle, and a theorem that compares two signings has both. *)
Record Signer := mkSigner {
  Handle : KeyHandle;
  Capabilities : Z;
  PublicKey : result PublicKeyDescriptor;
  SignerSign : bytes → result Signature.t }.

(** The two implementations of the [HashFactory] interface. *)
Inductive HashFactory := sha256Factory | sm3Factory.

Definition HashFactory_Algorithm (f : HashFactory) : string :=
  match f with
  | sha256Factory => cryptosuite.HashSHA256
  | sm3Factory => cryptosuite.HashSM3
  end.

(** [sha256.Size] and [sm3.Size]. *)
Definition HashFactory_Size (f : HashFactory) : Z := 32.

Definition HashFactory_Sum `{HashLib} (f : HashFactory) (data : bytes) : bytes :=
  match f with
  | sha256Factory => sha256_Sum256 data
  | sm3Factory => sm3_Sum data
  end.

Definition suiteUsesHashAlgorithm (suite : cryptosuite.Suite) (algorithm : string) : bool :=
  existsb (λ spec, seqb (cryptosuite.HashAlgorithm spec) algorithm)
    [cryptosuite.ContentHash suite; cryptosuite.ClaimHash suite;
     cryptosuite.SignatureHash suite; cryptosuite.RecordIDHash suite;
     cryptosuite.KeyEventHash suite; cryptosuite.KeyFingerprintHash suite;
     cryptosuite.StorageIntegrityHash suite;
     cryptosuite.MerkleHash (cryptosuite.Merkle suite);
     cryptosuite.AnchorDigest suite].

Definition HashFactoryForSuite (suiteID : cryptosuite.ID) (algorithm : string)
  : result HashFactory :=
  suite ← cryptosuite.RequireKnown suiteID;
  if negb (suiteUsesHashAlgorithm suite algorithm)
  then Err (Errorf "%w: hash %q for suite %s" ErrUnsupportedAlgorithm) else
  if seqb algorithm cryptosuite.HashSHA256 then Ok sha256Factory else
  if seqb algorithm cryptosuite.HashSM3 then Ok sm3Factory else
  Err (Errorf "%w: hash %q for suite %s" ErrUnsupportedAlgorithm).

(** The two implementations of the [Provider] interface; a nil [Provider] is
    [None] where a function accepts one. *)
Inductive Provider := intlV1Provider | cnSMV1Provider.

Definition Provider_Suite (p : Provider) : cryptosuite.ID :=
  match p with
  | intlV1Provider => cryptosuite.INTLV1
  | cnSMV1Provider => cryptosuite.CNSMV1
  end.

Definition Provider_HashFactory (p : Provider) (algorithm : string) : result HashFactory :=
  HashFactoryForSuite (Provider_Suite p) algorithm.

Inductive Verifier := ed25519Verifier | sm2Verifier.

Definition Provider_Verifier (p : Provider) (algorithm encoding : string) : result Verifier :=
  match p with
  | intlV1Provider =>
      if negb (seqb algorithm cryptosuite.SignatureEd25519)
      then Err (Errorf "%w: signature %q for suite %s" ErrUnsupportedAlgorithm) else
      if negb (seqb encoding cryptosuite.Ed25519PublicKeyEncoding)
      then Err (Errorf "%w: public key %q for %s" ErrUnsupportedEncoding)
      else Ok ed25519Verifier
  | cnSMV1Provider =>
      if negb (seqb algorithm cryptosuite.SignatureSM2SM3)
      then Err (Errorf "%w: signature %q for suite %s" ErrUnsupportedAlgorithm) else
      if negb (seqb encoding cryptosuite.SM2PublicKeyEncoding)
      then Err (Errorf "%w: public key %q for %s" ErrUnsupportedEncoding)
      else Ok sm2Verifier
  end.

Definition providerForKnownSuite (suiteID : cryptosuite.ID) : result Provider :=
  _ ← cryptosuite.RequireKnown suiteID;
  if seqb suiteID cryptosuite.INTLV1 then Ok intlV1Provider else
  if seqb suiteID cryptosuite.CNSMV1 then Ok cnSMV1Provider else
  Err (Errorf "%w: provider for suite %s" ErrUnsupportedAlgorithm).

Definition ProviderForSuite (suiteID : cryptosuite.ID) : result Provider :=
  _ ← cryptosuite.RequireAvailable suiteID;
  providerForKnownSuite suiteID.

Definition DefaultProvider : Provider := intlV1Provider.

Definition HashBytesWithProvider `{HashLib} (p : option Provider) (alg : string) (data : bytes)
  : result bytes :=
  match p with
  | None => Err (ErrorsNew "crypto provider is required")
  | Some p =>
      factory ← Provider_HashFactory p alg;
      Ok (HashFactory_Sum factory data)
  end.

(** [HashReaderWithProvider] on a reader that yields [raw] without error. *)
Definition HashReaderWithProvider `{HashLib} (p : option Provider) (alg : string) (raw : bytes)
  : result (bytes * Z) :=
  match p with
  | None => Err (ErrorsNew "crypto provider is required")
  | Some p =>
      factory ← Provider_HashFactory p alg;
      Ok (HashFactory_Sum factory raw, len raw)
  end.

Definition ed25519_PublicKeySize : Z := 32.
Definition ed25519_SignatureSize : Z := 64.
Definition SM2PublicKeySize : Z := 65.

Definition validateSM2PublicKey `{SigLib} (encoded : bytes) : result unit :=
  if negb (len encoded =? SM2PublicKeySize) || negb (bool_decide (head encoded = Some Byte.x04))
  then Err (Errorf "%w: SM2 public key must be a 65-byte uncompressed point" ErrInvalidKeyDescriptor)
  else if negb (sm2_NewPublicKey_ok encoded)
  then Err (Errorf "%w: invalid SM2 public key: %v" ErrInvalidKeyDescriptor)
  else if negb (sm2_point_canonical encoded)
  then Err (Errorf "%w: non-canonical SM2 public key" ErrInvalidKeyDescriptor)
  else Ok tt.

(** The size bound is the source's; parsing, the order bounds and the
    canonical re-encoding are [asn1] and big-integer code behind
    [sm2_DER_ok]. *)
Definition ValidateSM2SignatureDER `{SigLib} (signature : bytes) : result unit :=
  if (len signature <? 8) || (72 <? len signature)
  then Err (Errorf "%w: SM2 DER signature size %d" ErrUnsupportedEncoding)
  else if negb (sm2_DER_ok signature)
  then Err (Errorf "%w: invalid SM2 DER signature" ErrUnsupportedEncoding)
  else Ok tt.

Definition validateSignatureEncoding `{SigLib} (suite : cryptosuite.Suite) (signature : bytes)
  : result unit :=
  let enc := cryptosuite.SigEncoding (cryptosuite.Signature suite) in
  if seqb enc cryptosuite.Ed25519SignatureEncoding then
    (if negb (len signature =? ed25519_SignatureSize)
     then Err (Errorf "%w: ed25519 signature size %d" ErrUnsupportedEncoding)
     else Ok tt)
  else if seqb enc cryptosuite.SM2SignatureEncoding then ValidateSM2SignatureDER signature
  else Err (Errorf "%w: signature encoding %q" ErrUnsupportedEncoding).

Definition ValidatePublicKey `{SigLib} (provider : option Provider) (d : PublicKeyDescriptor)
  : result unit :=
  match provider with
  | None => Err (Errorf "%w: crypto provider is nil" ErrInvalidKeyDescriptor)
  | Some p =>
      if negb (seqb (Suite d) (Provider_Suite p))
      then Err (Errorf "%w: descriptor suite %s does not match provider suite %s"
                  cryptosuite.ErrMixedSuite)
      else
      v ← Provider_Verifier p (Algorithm d) (Encoding d);
      match v with
      | ed25519Verifier =>
          if negb (len (Bytes d) =? ed25519_PublicKeySize)
          then Err (Errorf "%w: ed25519 public key size %d" ErrInvalidKeyDescriptor)
          else Ok tt
      | sm2Verifier => validateSM2PublicKey (Bytes d)
      end
  end.

Definition ValidatePublicKeyForSuite `{SigLib} (suiteID : cryptosuite.ID) (d : PublicKeyDescriptor)
  : result unit :=
  p ← providerForKnownSuite suiteID;
  ValidatePublicKey (Some p) d.

Definition ValidateSignerHandle (suiteID : cryptosuite.ID) (signer : option Signer) : result unit :=
  match signer with
  | None => Err (Errorf "%w: signer is nil" ErrInvalidKeyHandle)
  | Some s =>
      suite ← cryptosuite.RequireAvailable suiteID;
      if negb (Supports (Capabilities s) CapabilitySign)
      then Err (Errorf "%w: sign" ErrUnsupportedCapability) else
      if negb (Supports (Capabilities s) CapabilityPublicKey)
      then Err (Errorf "%w: public_key" ErrUnsupportedCapability) else
      _ ← KeyHandle_Validate (Handle s);
      if negb (seqb (H_Algorithm (Handle s))
                 (cryptosuite.SigAlgorithm (cryptosuite.Signature suite)))
      then Err (Errorf "%w: signer algorithm %q for suite %s" ErrUnsupportedAlgorithm)
      else Ok tt
  end.

Definition ValidateSignerWithProvider `{SigLib} (provider : option Provider)
    (signer : option Signer) : result unit :=
  match provider with
  | None => Err (Errorf "%w: crypto provider is nil" ErrInvalidKeyDescriptor)
  | Some p =>
      _ ← ValidateSignerHandle (Provider_Suite p) signer;
      match signer with
      | None => Err (Errorf "%w: signer is nil" ErrInvalidKeyHandle)
      | Some s =>
          descriptor ← errorf "read signer public key: %w" (PublicKey s);
          if negb (seqb (KeyID descriptor) "")
             && negb (seqb (KeyID descriptor) (H_KeyID (Handle s)))
          then Err (Errorf "%w: signer key_id %q does not match public key key_id %q"
                      ErrInvalidKeyDescriptor)
          else ValidatePublicKey provider descriptor
      end
  end.

Definition signWithSuite `{SigLib} (suite : cryptosuite.Suite) (signer : option Signer)
    (message : bytes) : result Signature.t :=
  match signer with
  | None => Err (Errorf "%w: signer is nil" ErrInvalidKeyHandle)
  | Some s =>
      if negb (Supports (Capabilities s) CapabilitySign)
      then Err (Errorf "%w: sign" ErrUnsupportedCapability) else
      let handle := Handle s in
      _ ← KeyHandle_Validate handle;
      let alg := cryptosuite.SigAlgorithm (cryptosuite.Signature suite) in
      if negb (seqb (H_Algorithm handle) alg)
      then Err (Errorf "%w: signer algorithm %q for suite %s" ErrUnsupportedAlgorithm) else
      sig ← SignerSign s message;
      if negb (seqb sig.(Signature.Alg) alg)
      then Err (Errorf "%w: provider returned signature algorithm %q" ErrUnsupportedAlgorithm) else
      if negb (seqb sig.(Signature.KeyID) (H_KeyID handle))
      then Err (Errorf "%w: provider returned signature key_id %q for handle %q"
                  ErrInvalidKeyHandle) else
      _ ← validateSignatureEncoding suite sig.(Signature.Signature);
      Ok sig
  end.

Definition Sign `{SigLib} (suiteID : cryptosuite.ID) (signer : option Signer) (message : bytes)
  : result Signature.t :=
  suite ← cryptosuite.RequireAvailable suiteID;
  signWithSuite suite signer message.

Definition Verifier_Verify `{SigLib} (v : Verifier) (d : PublicKeyDescriptor) (message : bytes)
    (sig : Signature.t) : result unit :=
  match v with
  | ed25519Verifier =>
      if negb (seqb sig.(Signature.Alg) cryptosuite.SignatureEd25519)
      then Err (Errorf "%w: signature %q" ErrUnsupportedAlgorithm) else
      if negb (len sig.(Signature.Signature) =? ed25519_SignatureSize)
      then Err (Errorf "%w: ed25519 signature size %d" ErrUnsupportedEncoding) else
      if negb (ed25519_Verify (Bytes d) message sig.(Signature.Signature))
      then Err (ErrorsNew "ed25519 signature verification failed")
      else Ok tt
  | sm2Verifier =>
      if negb (seqb sig.(Signature.Alg) cryptosuite.SignatureSM2SM3)
      then Err (Errorf "%w: signature %q" ErrUnsupportedAlgorithm) else
      _ ← ValidateSM2SignatureDER sig.(Signature.Signature);
      if negb (sm2_NewPublicKey_ok (Bytes d))
      then Err (Errorf "%w: invalid SM2 public key: %v" ErrInvalidKeyDescriptor) else
      if negb (sm2_VerifyASN1WithSM2 (Bytes d) (bytes_of_string cryptosuite.SM2DefaultUserID)
                 message sig.(Signature.Signature))
      then Err (ErrorsNew "SM2-SM3 signature verification failed")
      else Ok tt
  end.

Definition Verify `{SigLib} (provider : option Provider) (d : PublicKeyDescriptor)
    (message : bytes) (sig : Signature.t) : result unit :=
  _ ← ValidatePublicKey provider d;
  match provider with
  | None => Err (Errorf "%w: crypto provider is nil" ErrInvalidKeyDescriptor)
  | Some p =>
      if negb (seqb (KeyID d) "") && negb (seqb (KeyID d) sig.(Signature.KeyID))
      then Err (Errorf "%w: signature key_id %q does not match public key key_id %q"
                  ErrInvalidKeyDescriptor)
      else
      v ← Provider_Verifier p (Algorithm d) (Encoding d);
      Verifier_Verify v d message sig
  end.

Definition VerifySignatureForSuite `{SigLib} (suiteID : cryptosuite.ID) (d : PublicKeyDescriptor)
    (message : bytes) (sig : Signature.t) : result unit :=
  p ← providerForKnownSuite suiteID;
  Verify (Some p) d message sig.

(** ** Signature inputs *)

(** [SignaturePurpose] is a string type; the sources only pass these. *)
Inductive SignaturePurpose :=
| SignaturePurposeClientClaim
| SignaturePurposeAcceptedReceipt
| SignaturePurposeCommittedReceipt
| SignaturePurposeKeyEvent
| SignaturePurposeSignedTreeHead
| SignaturePurposeStatusRefresh
| SignaturePurposeStatusSubscription
| SignaturePurposeStatusNotificationRoutes.

Definition signatureDomain (suite : cryptosuite.Suite) (purpose : SignaturePurpose)
  : result string :=
  let d := cryptosuite.Domains suite in
  let domain :=
    match purpose with
    | SignaturePurposeClientClaim => cryptosuite.ClientClaimSigning d
    | SignaturePurposeAcceptedReceipt => cryptosuite.AcceptedReceiptDomain d
    | SignaturePurposeCommittedReceipt => cryptosuite.CommittedReceiptDomain d
    | SignaturePurposeKeyEvent => cryptosuite.KeyEventSigning d
    | SignaturePurposeSignedTreeHead => cryptosuite.SignedTreeHeadDomain d
    | SignaturePurposeStatusRefresh => cryptosuite.StatusRefreshDomain d
    | SignaturePurposeStatusSubscription => cryptosuite.StatusSubscription d
    | SignaturePurposeStatusNotificationRoutes => cryptosuite.StatusNotificationRoutes d
    end in
  if seqb domain ""
  then Err (Errorf "%w: empty signature domain for %q in suite %s" ErrUnsupportedEncoding)
  else Ok domain.

Definition AppendSignatureInputForSuite (dst : bytes) (suiteID : cryptosuite.ID)
    (purpose : SignaturePurpose) (payload : bytes) : result bytes :=
  suite ← cryptosuite.RequireKnown suiteID;
  domain ← signatureDomain suite purpose;
  let e := cryptosuite.Encoding suite in
  let sep := cryptosuite.DomainSeparator e in
  if seqb (cryptosuite.SignatureInputEncoding e) cryptosuite.SignatureInputLegacyV1
  then Ok (dst ++ bytes_of_string domain ++ [sep] ++ payload) else
  if seqb (cryptosuite.SignatureInputEncoding e) cryptosuite.SignatureInputSuiteFramedV2
  then Ok (dst ++ bytes_of_string domain ++ [sep]
             ++ bytes_of_string (cryptosuite.SuiteID suite) ++ [sep] ++ payload)
  else Err (Errorf "%w: signature input %q for suite %s" ErrUnsupportedEncoding).

Definition SignatureInputForSuite (suiteID : cryptosuite.ID) (purpose : SignaturePurpose)
    (payload : bytes) : result bytes :=
  AppendSignatureInputForSuite [] suiteID purpose payload.

(** ** Lemmas *)

Lemma HashFactory_Sum_len `{HashLib} f x : length (HashFactory_Sum f x) = 32%nat.
Proof. destruct f; simpl; [apply sha256_len | apply sm3_len]. Qed.

(** The fixed byte prefix of every signature input. *)
Definition sig_prefix (suiteID : cryptosuite.ID) (purpose : SignaturePurpose) : bytes :=
  match SignatureInputForSuite suiteID purpose [] with Ok b => b | Err _ => [] end.

Lemma SignatureInput_prefix s p payload b :
  SignatureInputForSuite s p payload = Ok b →
  (s = cryptosuite.INTLV1 ∨ s = cryptosuite.CNSMV1) ∧ b = sig_prefix s p ++ payload.
Proof.
  unfold sig_prefix, SignatureInputForSuite, AppendSignatureInputForSuite.
  intros H. apply bind_Ok in H as [suite [Hk H]]. rewrite Hk.
  apply cryptosuite.RequireKnown_Ok in Hk as [[-> ->]|[-> ->]];
    (split; [tauto|]); destruct p; vm_compute in H |- *; by injection H as <-.
Qed.

#[global] Instance SignaturePurpose_eq_dec : EqDecision SignaturePurpose.
Proof. solve_decision. Defined.

Definition purposes : list SignaturePurpose :=
  [SignaturePurposeClientClaim; SignaturePurposeAcceptedReceipt;
   SignaturePurposeCommittedReceipt; SignaturePurposeKeyEvent;
   SignaturePurposeSignedTreeHead; SignaturePurposeStatusRefresh;
   SignaturePurposeStatusSubscription; SignaturePurposeStatusNotificationRoutes].

Definition contexts : list (cryptosuite.ID * SignaturePurpose) :=
  flat_map (λ s, map (pair s) purposes) [cryptosuite.INTLV1; cryptosuite.CNSMV1].

(** One of the two is a prefix of the other. *)
Definition clash (x y : bytes) : bool :=
  let n := Nat.min (length x) (length y) in bytes_equal (take n x) (take n y).

Lemma clash_app x y a b : x ++ a = y ++ b → clash x y = true.
Proof.
  intros E. apply bytes_equal_true. set (n := Nat.min _ _).
  rewrite <- (take_app_le x a n), <- (take_app_le y b n) by (subst n; lia). by rewrite E.
Qed.

Lemma contexts_free :
  forallb (λ c1, forallb (λ c2,
    negb (clash (sig_prefix c1.1 c1.2) (sig_prefix c2.1 c2.2)) || bool_decide (c1 = c2))
    contexts) contexts = true.
Proof. vm_compute. reflexivity. Qed.

Lemma context_elem s p :
  s = cryptosuite.INTLV1 ∨ s = cryptosuite.CNSMV1 → In (s, p) contexts.
Proof. intros [->| ->]; destruct p; vm_compute; tauto. Qed.

(** No prefix is a prefix of another one. *)
Lemma sig_prefix_free s1 p1 s2 p2 :
  (s1 = cryptosuite.INTLV1 ∨ s1 = cryptosuite.CNSMV1) →
  (s2 = cryptosuite.INTLV1 ∨ s2 = cryptosuite.CNSMV1) →
  ∀ a b, sig_prefix s1 p1 ++ a = sig_prefix s2 p2 ++ b → s1 = s2 ∧ p1 = p2.
Proof.
  intros H1 H2 a b E. pose proof contexts_free as Hf.
  rewrite forallb_forall in Hf. specialize (Hf (s1, p1) (context_elem _ _ H1)).
  rewrite forallb_forall in Hf. specialize (Hf (s2, p2) (context_elem _ _ H2)).
  cbn [fst snd] in Hf. rewrite (clash_app _ _ _ _ E) in Hf. cbn in Hf.
  apply bool_decide_eq_true in Hf. by simplify_eq.
Qed.

(** Signature inputs are domain separated: if two inputs built by
    [SignatureInputForSuite] are the same bytes then they were built for the
    same suite, the same purpose and the same payload. *)
Theorem SignatureInput_injective s1 p1 m1 s2 p2 m2 b :
  SignatureInputForSuite s1 p1 m1 = Ok b →
  SignatureInputForSuite s2 p2 m2 = Ok b →
  s1 = s2 ∧ p1 = p2 ∧ m1 = m2.
Proof.
  intros H1 H2.
  apply SignatureInput_prefix in H1 as [Hs1 ->].
  apply SignatureInput_prefix in H2 as [Hs2 E].
  destruct (sig_prefix_free _ _ _ _ Hs1 Hs2 _ _ E) as [-> ->].
  by simplify_list_eq.
Qed.

Lemma SignatureInput_injective_witness :
  ∃ b, SignatureInputForSuite cryptosuite.CNSMV1 SignaturePurposeKeyEvent [Byte.x61] = Ok b ∧
       cryptosuite.CNSMV1 = cryptosuite.CNSMV1 ∧
       SignaturePurposeKeyEvent = SignaturePurposeKeyEvent ∧ [Byte.x61] = [Byte.x61].
Proof.
  eexists. split; [reflexivity|].
  eapply SignatureInput_injective; reflexivity.
Defined.

(** ** Suites of a provider *)

Lemma known_suite p : is_ok (cryptosuite.RequireKnown (Provider_Suite p)) = true.
Proof. by destruct p. Qed.

Lemma require_same p ids :
  cryptosuite.RequireSame (Provider_Suite p) ids = Ok tt ↔
  Forall (λ id, id = Provider_Suite p) ids.
Proof. rewrite cryptosuite.RequireSame_Ok. pose proof (known_suite p). tauto. Qed.

End trustcrypto.

(** Reads off the equalities of a successful [RequireSame]. *)
Ltac same_inv :=
  repeat match goal with
         | H : cryptosuite.RequireSame (trustcrypto.Provider_Suite _) _ = Ok ?u |- _ =>
             first [is_var u; destruct u | idtac]; apply trustcrypto.require_same in H;
             repeat (apply Forall_cons in H; let E := fresh "Hsuite" in destruct H as [E H]); clear H
         end.
