(* ===== verification/Cborx.v ===== *)
(** * Canonical CBOR

    [src/internal/cborx/cborx.go] wraps a third-party CBOR library in its
    deterministic encoding mode and a strict decoding mode.  The two modes are
    the operations of the class [CborMode], one instance per Go type; the
    wrappers are translated.  [CborModeInjective] and [CborModeRoundTrip] are
    what the library promises of its own encodings; the theorems that need one
    of them name it. *)

From S2P Require Import Prelude TrustErr.
From S2P Require Import CryptoSuite Model.

Class CborMode (A : Type) := {
  encMode_Marshal : A → result bytes;
  decMode_Unmarshal : bytes → result A }.

(** Different values have different encodings. *)
Class CborModeInjective A `{CborMode A} :=
  encMode_injective (a1 a2 : A) b : encMode_Marshal a1 = Ok b → encMode_Marshal a2 = Ok b → a1 = a2.

(** Whether every text string in a value is UTF-8. *)
Class CborText (A : Type) := text_valid : A → bool.

(** The encoder writes any Go string; the decoder accepts only UTF-8 text, and
    then it gives the value back. *)
Class CborModeRoundTrip A `{CborMode A, CborText A} := {
  decMode_encMode (a : A) b :
    encMode_Marshal a = Ok b → text_valid a = true → decMode_Unmarshal b = Ok a;
  decMode_text (a : A) b : decMode_Unmarshal b = Ok a → text_valid a = true }.

(** What decodes from the encoding of a value is that value. *)
Class CborModeExact A `{CborMode A} :=
  decMode_exact (a a' : A) b : encMode_Marshal a = Ok b → decMode_Unmarshal b = Ok a' → a' = a.

(** A decoding mode with other limits on the elements of arrays and the pairs
    of maps. *)
Class CborLimits (A : Type) := limitMode_Unmarshal : Z → Z → bytes → result A.

(** The sizes of the longest array and of the largest map in the encoding. *)
Class CborSize (A : Type) := { array_elements : A → Z; map_pairs : A → Z }.

(** Within its limits such a mode gives UTF-8 values back. *)
Class CborLimitsRoundTrip A `{CborMode A, CborText A, CborLimits A, CborSize A} := {
  encMode_nonempty (a : A) b : encMode_Marshal a = Ok b → b ≠ [];
  limitMode_encMode (a : A) b n m :
    encMode_Marshal a = Ok b → text_valid a = true → array_elements a <= n → map_pairs a <= m →
    limitMode_Unmarshal n m b = Ok a;
  limitMode_text (a : A) b n m : limitMode_Unmarshal n m b = Ok a → text_valid a = true }.

Module cborx.

(** [DefaultMaxBytes = 1 << 20] *)
Definition DefaultMaxBytes : Z := Z.shiftl 1 20.

Section codec.
Context {A : Type} `{CborMode A}.

Definition Marshal (v : A) : result bytes :=
  errorf "cborx: marshal: %w" (encMode_Marshal v).

(** Appends to the buffer; on an error the buffer is truncated back. *)
Definition MarshalBuffer (buf : bytes) (v : A) : bytes * result unit :=
  match encMode_Marshal v with
  | Err e => (buf, Err (Errorf "cborx: marshal: %w" e))
  | Ok b => (buf ++ b, Ok tt)
  end.

Definition UnmarshalLimit (data : bytes) (maxBytes : Z) : result A :=
  if maxBytes <=? 0 then Err (ErrorsNew "cborx: max bytes must be positive") else
  if maxBytes <? len data then Err (ErrorsNew "cborx: payload too large: %d > %d") else
  if len data =? 0 then Err (ErrorsNew "cborx: empty payload") else
  errorf "cborx: unmarshal: %w" (decMode_Unmarshal data).

Definition Unmarshal (data : bytes) : result A := UnmarshalLimit data DefaultMaxBytes.

(** The range that the library documents for its collection limits. *)
Definition limit_ok (n : Z) : bool := (16 <=? n) && (n <=? 2147483647).

Definition UnmarshalLimits `{CborLimits A} (data : bytes) (maxBytes maxArrayElements maxMapPairs : Z)
  : result A :=
  if maxBytes <=? 0 then Err (ErrorsNew "cborx: max bytes must be positive") else
  if maxArrayElements <=? 0 then Err (ErrorsNew "cborx: max array elements must be positive") else
  if maxMapPairs <=? 0 then Err (ErrorsNew "cborx: max map pairs must be positive") else
  if maxBytes <? len data then Err (ErrorsNew "cborx: payload too large: %d > %d") else
  if len data =? 0 then Err (ErrorsNew "cborx: empty payload") else
  if negb (limit_ok maxArrayElements && limit_ok maxMapPairs)
  then Err (ErrorsNew "cborx: decode limits: %w") else
  errorf "cborx: unmarshal: %w" (limitMode_Unmarshal maxArrayElements maxMapPairs data).

(** ** Lemmas *)

Lemma Marshal_Ok v b : Marshal v = Ok b ↔ encMode_Marshal v = Ok b.
Proof. apply errorf_Ok. Qed.

Lemma Marshal_injective `{!CborModeInjective A} v1 v2 b :
  Marshal v1 = Ok b → Marshal v2 = Ok b → v1 = v2.
Proof. rewrite !Marshal_Ok. apply encMode_injective. Qed.

Lemma Unmarshal_Marshal `{CborText A, !CborModeRoundTrip A} v b maxBytes :
  Marshal v = Ok b → text_valid v = true → 0 < len b <= maxBytes → UnmarshalLimit b maxBytes = Ok v.
Proof.
  rewrite Marshal_Ok. intros H1 Ht Hl. unfold UnmarshalLimit.
  repeat case_match; bsimpl; try lia. by rewrite (decMode_encMode _ _ H1 Ht).
Qed.

Lemma Unmarshal_exact `{!CborModeExact A} v v' b maxBytes :
  Marshal v = Ok b → UnmarshalLimit b maxBytes = Ok v' → v' = v.
Proof.
  rewrite Marshal_Ok. unfold UnmarshalLimit. intros H1 H2. repeat (case_match; try done).
  apply errorf_Ok in H2. by apply (decMode_exact v v' b).
Qed.

Lemma Unmarshal_text `{CborText A, !CborModeRoundTrip A} v b maxBytes :
  UnmarshalLimit b maxBytes = Ok v → text_valid v = true.
Proof.
  unfold UnmarshalLimit. intros E. repeat (case_match; try done).
  by apply errorf_Ok, decMode_text in E.
Qed.
End codec.

End cborx.

(** * The text of model values

    The strings of the structs that the log and the key registry read back: a
    value can be decoded again only if all of them are UTF-8. *)

Definition texts_valid (ss : list string) : bool := forallb ValidString ss.

Definition signature_texts (s : Signature.t) : list string := [s.(Signature.Alg); s.(Signature.KeyID)].

Definition content_texts (c : Content.t) : list string :=
  [c.(Content.HashAlg); c.(Content.MediaType); c.(Content.StorageURI)].

Definition metadata_texts (m : Metadata.t) : list string :=
  [m.(Metadata.EventType); m.(Metadata.Source); m.(Metadata.TraceID)] ++ m.(Metadata.Parents)
  ++ concat (map (λ kv, [kv.1; kv.2]) (map_to_list m.(Metadata.Custom))).

Definition claim_texts (c : ClientClaim.t) : list string :=
  [c.(ClientClaim.SchemaVersion); c.(ClientClaim.CryptoSuite); c.(ClientClaim.TenantID);
   c.(ClientClaim.ClientID); c.(ClientClaim.KeyID); c.(ClientClaim.IdempotencyKey);
   c.(ClientClaim.TimeAttestation).(TimeAttestation.Type_)]
  ++ content_texts c.(ClientClaim.Content) ++ metadata_texts c.(ClientClaim.Metadata).

#[global] Instance signed_claim_text : CborText SignedClaim.t := λ s,
  texts_valid ([s.(SignedClaim.SchemaVersion); s.(SignedClaim.CryptoSuite)]
    ++ claim_texts s.(SignedClaim.Claim) ++ signature_texts s.(SignedClaim.Signature)).

#[global] Instance key_event_text : CborText KeyEvent.t := λ e,
  texts_valid ([e.(KeyEvent.SchemaVersion); e.(KeyEvent.CryptoSuite); e.(KeyEvent.Type_);
    e.(KeyEvent.TenantID); e.(KeyEvent.ClientID); e.(KeyEvent.KeyID); e.(KeyEvent.PreviousKeyID);
    e.(KeyEvent.Reason)] ++ signature_texts e.(KeyEvent.RegistrySignature)).

Lemma texts_valid_app a b : texts_valid (a ++ b) = texts_valid a && texts_valid b.
Proof. apply forallb_app. Qed.

Lemma texts_valid_cons a ss : texts_valid (a :: ss) = true ↔ ValidString a = true ∧ texts_valid ss = true.
Proof. apply andb_true_iff. Qed.

Lemma texts_valid_nil : texts_valid [] = true ↔ True.
Proof. done. Qed.
