(* ===== verification/KeyDescriptor.v ===== *)
(** * Key descriptors

    The record [Descriptor] of [src/internal/keydescriptor/descriptor.go] and
    the class [KeyDescriptorLib] of what the other packages use of it: checking,
    encoding and decoding a descriptor and the inventory of its certificates.
    [KeyCodec.v] implements it; the theorems of the callers hold for every
    implementation. *)

From S2P Require Import Prelude TrustErr CryptoSuite Model TrustCrypto.

Module Descriptor.
Record PublicKeyMaterial := mkPublicKeyMaterial { Encoding : string; Bytes : bytes }.
Record SoftwareKeyReference := mkSoftware {
  MaterialPath : string; SoftwareEncoding : string; Protection : string }.
Record PKCS11KeyReference := mkPKCS11 { URI : string }.
Record SDFKeyReference := mkSDF {
  DeviceRef : string; KeyIndex : Z; SDFCredentialRef : string }.
Record RemoteKeyReference := mkRemote {
  Endpoint : string; RemoteHandle : string; RemoteCredentialRef : string }.
Record t := mk {
  SchemaVersion : string;
  Kind : string;
  Provider : string;
  CryptoSuite : cryptosuite.ID;
  KeyID : string;
  Algorithm : string;
  SM2UserID : string;
  PublicKey : PublicKeyMaterial;
  CertificateChain : list bytes;
  Software : option SoftwareKeyReference;
  PKCS11 : option PKCS11KeyReference;
  SDF : option SDFKeyReference;
  Remote : option RemoteKeyReference }.
#[global] Instance material_eq_dec : EqDecision PublicKeyMaterial.
Proof. solve_decision. Defined.
#[global] Instance software_eq_dec : EqDecision SoftwareKeyReference.
Proof. solve_decision. Defined.
#[global] Instance pkcs11_eq_dec : EqDecision PKCS11KeyReference.
Proof. solve_decision. Defined.
#[global] Instance sdf_eq_dec : EqDecision SDFKeyReference.
Proof. solve_decision. Defined.
#[global] Instance remote_eq_dec : EqDecision RemoteKeyReference.
Proof. solve_decision. Defined.
#[global] Instance descriptor_eq_dec : EqDecision t.
Proof. solve_decision. Defined.
Definition zero : t :=
  mk "" "" "" "" "" "" "" (mkPublicKeyMaterial "" []) [] None None None None.
End Descriptor.

Record CertificateMetadata := mkCertificateMetadata {
  Index : Z;
  SerialNumber : string;
  Subject : string;
  Issuer : string;
  NotBeforeUnixN : Z;
  NotAfterUnixN : Z;
  IsCA : bool;
  SignatureAlg : string }.

Definition KindSigner : string := "signer".
Definition KindVerifier : string := "verifier".

(** The functions of the codec as their callers use them.  An [Err] stands for
    an error and for a panic of the codec ([KeyCodec] has the panics), so that a
    theorem of a caller speaks of what is accepted, not of how it is refused. *)
Class KeyDescriptorLib := {
  keydescriptor_Validate : Descriptor.t → result unit;
  keydescriptor_Marshal : Descriptor.t → result bytes;
  keydescriptor_Unmarshal : bytes → result Descriptor.t;
  keydescriptor_CertificateMetadata : Descriptor.t → result (list CertificateMetadata) }.
