(* ===== verification/KeyCodec.v ===== *)
(** * Validation and encoding of key descriptors

    Models [src/internal/keydescriptor/descriptor.go]: the checks of a
    descriptor, its canonical encoding, the certificate inventory and the
    redacted form, and the instance of [KeyDescriptorLib] they give.

    [smx509] is third-party code, the class [CertLib]; [net/url] is the class
    [UrlLib].  Copies ([Clone]) are the value itself.  [elliptic.Marshal]
    panics when the point is not on the curve, which is [Stuck]. *)

From stdpp Require Import sorting.
From S2P Require Import Prelude TrustErr CryptoSuite Model TrustCrypto Cborx KeyDescriptor.

(** ** What is used of other packages *)

Module URL.
Record t := mk {
  Scheme : string;
  Opaque : string;
  User : option string;
  Host : string;
  RawQuery : string;
  Fragment : string }.
End URL.

Class UrlLib := {
  url_Parse : string → result URL.t;
  url_String : URL.t → string }.

Module Certificate.
Inductive SignatureAlgorithm := PureEd25519 | SM2WithSM3 | OtherSignatureAlgorithm (name : string).
(** The dynamic types of [PublicKey] that are distinguished. *)
Inductive PublicKeyValue :=
| Ed25519PublicKey (key : bytes)
| EcdsaPublicKey (X Y : Z)
| OtherPublicKey.
Record t := mk {
  Raw : bytes;
  SignatureAlgorithm_ : SignatureAlgorithm;
  SignatureAlgorithmName : string;
  PublicKey : PublicKeyValue;
  KeyUsage : Z;
  IsCA_ : bool;
  SerialNumber_ : string;
  Subject_ : string;
  Issuer_ : string;
  NotBefore : Z;
  NotAfter : Z }.
End Certificate.

Class CertLib := {
  smx509_ParseCertificate : bytes → result Certificate.t;
  CheckSignatureFrom : Certificate.t → Certificate.t → result unit;
  sm2_IsOnCurve : Z → Z → bool }.

Module keydescriptor.
Import Descriptor.

Definition SchemaV1 : string := "trustdb.key-descriptor.v1".
Definition ProviderSoftware : string := "software".
Definition ProviderPublic : string := "public".
Definition ProviderPKCS11 : string := "pkcs11".
Definition ProviderSDF : string := "sdf".
Definition ProviderRemote : string := "remote".
Definition SoftwareProtectionPlaintextDev : string := "plaintext-dev-v1".
Definition SoftwareProtectionSM4Envelope : string := "sm4-envelope-v1".
Definition maxDescriptorBytes : Z := Z.shiftl 2 20.
Definition maxStringBytes : Z := 4096.

Definition MaxCertificateCountV2 : Z := 16.
Definition MaxCertificateBytesV2 : Z := Z.shiftl 128 10.
Definition MaxCertificateChainBytesV2 : Z := Z.shiftl 1 20.

Definition ErrInvalidDescriptor := ErrorsNew "invalid key descriptor".
Definition ErrNonCanonical := ErrorsNew "non-canonical key descriptor".
Definition ErrUnsupportedProvider := ErrorsNew "unsupported key provider".

Definition invalid (format : string) : error := Errorf format ErrInvalidDescriptor.

(** ** Strings *)

Definition byte_in (cs : list Z) (b : byte) : bool := existsb (λ c, Z_of_byte b =? c) cs.

(** [strings.ContainsAny] for a set of ASCII characters. *)
Definition ContainsAny (s : bytes) (cs : list Z) : bool := existsb (byte_in cs) s.

(** [strings.Split] at a byte: never empty. *)
Fixpoint Split (sep : byte) (s : bytes) : list bytes :=
  match s with
  | [] => [[]]
  | b :: s =>
      if bool_decide (b = sep) then [] :: Split sep s else
      match Split sep s with
      | part :: parts => (b :: part) :: parts
      | [] => [[b]]
      end
  end.

Fixpoint Join (sep : byte) (parts : list bytes) : bytes :=
  match parts with
  | [] => []
  | [part] => part
  | part :: parts => part ++ sep :: Join sep parts
  end.

(** [strings.SplitN(s, "=", 2)] when there is a separator. *)
Fixpoint Cut (sep : byte) (s : bytes) : option (bytes * bytes) :=
  match s with
  | [] => None
  | b :: s =>
      if bool_decide (b = sep) then Some ([], s) else
      '(before, after) ← Cut sep s; Some (b :: before, after)
  end.

Definition slash : byte := Byte.x2f.
Definition dot : bytes := [Byte.x2e].
Definition dotdot : bytes := [Byte.x2e; Byte.x2e].

(** One element of [path.Clean]; the stack holds the last element first. *)
Definition clean_step (rooted : bool) (stack : list bytes) (part : bytes) : list bytes :=
  if bool_decide (part = [] ∨ part = dot) then stack else
  if bool_decide (part = dotdot) then
    match stack with
    | top :: rest => if bool_decide (top = dotdot) then part :: stack else rest
    | [] => if rooted then [] else [part]
    end
  else part :: stack.

Definition is_rooted (s : bytes) : bool :=
  match s with b :: _ => bool_decide (b = slash) | [] => false end.

(** [path.Clean] *)
Definition Clean (s : bytes) : bytes :=
  let rooted := is_rooted s in
  let out := (if rooted then [slash] else [])
    ++ Join slash (rev (foldl (clean_step rooted) [] (Split slash s))) in
  if bool_decide (out = []) then dot else out.

(** Backslash, carriage return, line feed and NUL are refused. *)
Definition validRelativePath (value : string) : bool :=
  let v := bytes_of_string value in
  if bool_decide (v = []) || (maxStringBytes <? len v) || is_rooted v || ContainsAny v [92; 13; 10; 0]
  then false else
  let clean := Clean v in
  bool_decide (clean = v) && negb (bool_decide (clean = dot)) && negb (bool_decide (clean = dotdot))
  && negb (bool_decide (take 3 clean = dotdot ++ [slash])).

(** A control character of a UTF-8 string: U+0000-U+001F, U+007F-U+009F. *)
Fixpoint has_control (s : bytes) : bool :=
  match s with
  | [] => false
  | a :: r =>
      (Z_of_byte a <? 32) || (Z_of_byte a =? 127)
      || (Z_of_byte a =? 194) && match r with b :: _ => Z_of_byte b <? 160 | [] => false end
      || has_control r
  end.

Definition validIdentifier (value : string) (maxBytes : Z) : bool :=
  if seqb value "" || (maxBytes <? slen value) || negb (ValidString value)
     || negb (seqb (TrimSpace value) value)
  then false else negb (has_control (bytes_of_string value)).

Definition validReference (value : string) : bool := validIdentifier value maxStringBytes.

Definition validOptionalReference (value : string) : bool := seqb value "" || validReference value.

(** ** Provider references *)

Definition validateSoftwareReference (ref : SoftwareKeyReference) (suite : cryptosuite.Suite)
  : result unit :=
  if negb (seqb (SoftwareEncoding ref) (cryptosuite.PrivateKeyEncoding (cryptosuite.Signature suite)))
  then Err (invalid "software private key encoding %q does not match suite %s") else
  if negb (validRelativePath (MaterialPath ref))
  then Err (invalid "software material_path must be a clean relative path") else
  if seqb (Protection ref) SoftwareProtectionPlaintextDev
     || seqb (Protection ref) SoftwareProtectionSM4Envelope
  then Ok tt else Err (invalid "software protection %q is unsupported").

(** Lower-case letters, digits, [_] and [-]; a character that is not ASCII has
    no byte among them. *)
Definition validPKCS11AttributeName (name : bytes) : bool :=
  negb (bool_decide (name = [])) &&
  forallb (λ b, in_range 97 122 b || in_range 48 57 b || byte_in [95; 45] b) name.

(** The loop over the attributes: their names in order. *)
Fixpoint pkcs11Attributes (seen : list bytes) (items : list bytes) : result (list bytes) :=
  match items with
  | [] => Ok seen
  | item :: items =>
      match Cut Byte.x3d item with
      | None => Err (invalid "pkcs11 URI contains a non-canonical attribute")
      | Some (name, value) =>
          if bool_decide (value = []) || negb (validPKCS11AttributeName name)
          then Err (invalid "pkcs11 URI contains a non-canonical attribute") else
          if bool_decide (name ∈ seen)
          then Err (invalid "pkcs11 URI contains a duplicate attribute") else
          if bool_decide (name = bytes_of_string "pin-value")
          then Err (invalid "pkcs11 URI must not contain pin-value") else
          pkcs11Attributes (seen ++ [name]) items
      end
  end.

(** The order of [sort.Strings] *)
Definition name_le (a b : bytes) : Prop :=
  String.leb (String.string_of_list_byte a) (String.string_of_list_byte b) = true.
#[global] Instance name_le_dec a b : Decision (name_le a b).
Proof. unfold name_le. apply _. Defined.

Definition validatePKCS11URI `{UrlLib} (raw : string) : result unit :=
  if (slen raw =? 0) || (maxStringBytes <? slen raw) || ContainsAny (bytes_of_string raw) [13; 10; 9]
  then Err (invalid "pkcs11 URI is empty or malformed") else
  match url_Parse raw with
  | Err _ => Err (invalid "pkcs11 URI is malformed")
  | Ok u =>
      if negb (seqb (URL.Scheme u) "pkcs11") || seqb (URL.Opaque u) "" || negb (seqb (URL.RawQuery u) "")
         || negb (seqb (URL.Fragment u) "") || negb (seqb (url_String u) raw)
      then Err (invalid "pkcs11 URI is malformed") else
      let items := Split Byte.x3b (bytes_of_string (URL.Opaque u)) in
      names ← pkcs11Attributes [] items;
      if negb (bool_decide (names = merge_sort name_le names))
      then Err (invalid "pkcs11 URI attributes must be sorted by name") else
      if negb (bool_decide (bytes_of_string "object" ∈ names))
         && negb (bool_decide (bytes_of_string "id" ∈ names))
      then Err (invalid "pkcs11 URI must identify object or id") else
      if bool_decide (bytes_of_string "type" ∈ names)
         && negb (bool_decide (bytes_of_string "type=private" ∈ items))
      then Err (invalid "pkcs11 URI type must be private") else Ok tt
  end.

Definition validateRemoteReference `{UrlLib} (ref : RemoteKeyReference) : result unit :=
  if negb (validReference (Endpoint ref)) || negb (validReference (RemoteHandle ref))
     || negb (validReference (RemoteCredentialRef ref))
  then Err (invalid
    "remote endpoint, handle, and credential_ref are required and must be within size limits") else
  match url_Parse (Endpoint ref) with
  | Err _ => Err (invalid
      "remote endpoint must be an HTTPS origin without credentials, query, or fragment")
  | Ok u =>
      if negb (seqb (URL.Scheme u) "https") || seqb (URL.Host u) ""
         || bool_decide (URL.User u ≠ None) || negb (seqb (URL.RawQuery u) "")
         || negb (seqb (URL.Fragment u) "")
      then Err (invalid
        "remote endpoint must be an HTTPS origin without credentials, query, or fragment")
      else Ok tt
  end.

Definition count {A} (o : option A) : Z := match o with Some _ => 1 | None => 0 end.

Definition validateProviderUnion `{UrlLib} (d : t) (suite : cryptosuite.Suite) : result unit :=
  let references := count d.(Software) + count d.(PKCS11) + count d.(SDF) + count d.(Remote) in
  if seqb d.(Kind) KindVerifier then
    if negb (seqb d.(Provider) ProviderPublic) || negb (references =? 0)
    then Err (invalid "verifier descriptors require provider %q and no signer reference")
    else Ok tt
  else
  if negb (references =? 1)
  then Err (invalid "signer descriptors require exactly one provider reference") else
  if seqb d.(Provider) ProviderSoftware then
    match d.(Software) with
    | None => Err (invalid "software provider requires software reference")
    | Some ref => validateSoftwareReference ref suite
    end
  else if seqb d.(Provider) ProviderPKCS11 then
    match d.(PKCS11) with
    | None => Err (invalid "pkcs11 provider requires pkcs11 reference")
    | Some ref => validatePKCS11URI (URI ref)
    end
  else if seqb d.(Provider) ProviderSDF then
    match d.(SDF) with
    | None => Err (invalid "sdf provider requires sdf reference")
    | Some ref =>
        if negb (validReference (DeviceRef ref)) || (KeyIndex ref =? 0)
           || negb (validOptionalReference (SDFCredentialRef ref))
        then Err (invalid "sdf reference is incomplete or non-canonical") else Ok tt
    end
  else if seqb d.(Provider) ProviderRemote then
    match d.(Remote) with
    | None => Err (invalid "remote provider requires remote reference")
    | Some ref => validateRemoteReference ref
    end
  else Err (Errorf "%w: %q" ErrUnsupportedProvider).

(** ** Certificates *)

Definition KeyUsageDigitalSignature : Z := 1.

Definition validateCertificateAlgorithm (certificate : Certificate.t) (suite : cryptosuite.Suite)
  : result unit :=
  if seqb (cryptosuite.SuiteID suite) cryptosuite.INTLV1 then
    match Certificate.SignatureAlgorithm_ certificate with
    | Certificate.PureEd25519 => Ok tt
    | _ => Err (ErrorsNew "signature algorithm is not Ed25519")
    end
  else if seqb (cryptosuite.SuiteID suite) cryptosuite.CNSMV1 then
    match Certificate.SignatureAlgorithm_ certificate with
    | Certificate.SM2WithSM3 => Ok tt
    | _ => Err (ErrorsNew "signature algorithm is not SM2-SM3")
    end
  else Err (ErrorsNew "certificate suite is unsupported").

(** [elliptic.Marshal] for the SM2 curve: the uncompressed point. *)
Definition elliptic_Marshal `{CertLib} (X Y : Z) : go bytes :=
  if (X =? 0) && (Y =? 0) || sm2_IsOnCurve X Y
  then Ret (Byte.x04 :: be_put 32 X ++ be_put 32 Y) else Stuck.

Definition certificatePublicKeyBytes `{CertLib} (certificate : Certificate.t)
    (suite : cryptosuite.Suite) : go bytes :=
  if seqb (cryptosuite.SuiteID suite) cryptosuite.INTLV1 then
    match Certificate.PublicKey certificate with
    | Certificate.Ed25519PublicKey key => Ret key
    | _ => Fail (ErrorsNew "public key is not Ed25519")
    end
  else if seqb (cryptosuite.SuiteID suite) cryptosuite.CNSMV1 then
    match Certificate.PublicKey certificate with
    | Certificate.EcdsaPublicKey X Y => elliptic_Marshal X Y
    | _ => Fail (ErrorsNew "public key is not SM2")
    end
  else Fail (ErrorsNew "certificate suite is unsupported").

(** The first loop of [validateCertificateChain]; [total] counts the bytes. *)
Fixpoint parseChain `{CertLib} (suite : cryptosuite.Suite) (total : Z) (chain : list bytes)
  : result (list Certificate.t) :=
  match chain with
  | [] => Ok []
  | der :: chain =>
      let total := total + len der in
      if (len der =? 0) || (MaxCertificateBytesV2 <? len der) || (MaxCertificateChainBytesV2 <? total)
      then Err (invalid "certificate chain exceeds size limits") else
      match smx509_ParseCertificate der with
      | Err _ => Err (invalid "certificate %d is invalid DER")
      | Ok certificate =>
          if negb (bytes_equal (Certificate.Raw certificate) der)
          then Err (invalid "certificate %d is invalid DER") else
          match validateCertificateAlgorithm certificate suite with
          | Err _ => Err (invalid "certificate %d: %v")
          | Ok _ => rest ← parseChain suite total chain; Ok (certificate :: rest)
          end
      end
  end.

(** The second loop: each certificate is signed by the next one, a CA. *)
Fixpoint checkIssuers `{CertLib} (certificates : list Certificate.t) : result unit :=
  match certificates with
  | certificate :: (issuer :: _) as rest =>
      if negb (Certificate.IsCA_ issuer) then Err (invalid "certificate %d is not a CA") else
      match CheckSignatureFrom certificate issuer with
      | Err _ => Err (invalid "certificate %d is not signed by certificate %d")
      | Ok _ => checkIssuers rest
      end
  | _ => Ok tt
  end.

Definition validateCertificateChain `{CertLib} (d : t) (suite : cryptosuite.Suite) : go unit :=
  if len d.(CertificateChain) =? 0 then Ret tt else
  if MaxCertificateCountV2 <? len d.(CertificateChain)
  then Fail (invalid "certificate chain has too many certificates") else
  certificates ← ret (parseChain suite 0 d.(CertificateChain));
  match certificates with
  | [] => Stuck
  | leaf :: _ =>
      match certificatePublicKeyBytes leaf suite with
      | Stuck => Stuck
      | Fail _ => Fail (invalid "leaf certificate: %v")
      | Ret leafBytes =>
          if negb (bytes_equal leafBytes (Bytes d.(PublicKey)))
          then Fail (invalid "leaf certificate public key does not match descriptor") else
          if negb (Certificate.KeyUsage leaf =? 0)
             && (Z.land (Certificate.KeyUsage leaf) KeyUsageDigitalSignature =? 0)
          then Fail (invalid "leaf certificate does not permit digital signatures") else
          ret (checkIssuers certificates)
      end
  end.

(** ** Descriptors *)

Section codec.
Context `{SigLib, UrlLib, CertLib}.

Definition publicKeyOf (d : t) : trustcrypto.PublicKeyDescriptor :=
  trustcrypto.mkPublicKeyDescriptor d.(CryptoSuite) d.(KeyID) d.(Algorithm)
    (Encoding d.(PublicKey)) (Bytes d.(PublicKey)).

Definition validateSuite (d : t) : result cryptosuite.Suite :=
  if negb (seqb d.(SchemaVersion) SchemaV1) then Err (invalid "schema_version must be %q") else
  if negb (seqb d.(Kind) KindSigner) && negb (seqb d.(Kind) KindVerifier)
  then Err (invalid "kind %q is unsupported") else
  if negb (validIdentifier d.(KeyID) 256)
  then Err (invalid "key_id is empty, non-canonical, or too long") else
  match cryptosuite.RequireKnown d.(CryptoSuite) with
  | Err _ => Err (Errorf "%w: %v" ErrInvalidDescriptor)
  | Ok suite =>
      let sig := cryptosuite.Signature suite in
      if negb (seqb d.(Algorithm) (cryptosuite.SigAlgorithm sig))
      then Err (invalid "algorithm %q does not match suite %s") else
      if negb (seqb (Encoding d.(PublicKey)) (cryptosuite.PublicKeyEncoding sig))
      then Err (invalid "public key encoding %q does not match suite %s") else
      match trustcrypto.ValidatePublicKeyForSuite d.(CryptoSuite) (publicKeyOf d) with
      | Err _ => Err (Errorf "%w: public key: %v" ErrInvalidDescriptor)
      | Ok _ =>
          if seqb (cryptosuite.SuiteID suite) cryptosuite.CNSMV1 then
            if negb (seqb d.(SM2UserID) (cryptosuite.SM2UserID sig))
            then Err (invalid "sm2_user_id must be the suite-defined value") else Ok suite
          else if negb (seqb d.(SM2UserID) "")
          then Err (invalid "sm2_user_id must be empty for suite %s") else Ok suite
      end
  end.

Definition Validate (d : t) : go unit :=
  suite ← ret (validateSuite d);
  _ ← ret (validateProviderUnion d suite);
  validateCertificateChain d suite.

Definition PublicKeyDescriptor (d : t) : go trustcrypto.PublicKeyDescriptor :=
  _ ← Validate d; Ret (publicKeyOf d).

Fixpoint metadataFrom (i : Z) (chain : list bytes) : result (list CertificateMetadata) :=
  match chain with
  | [] => Ok []
  | der :: chain =>
      match smx509_ParseCertificate der with
      | Err _ => Err (invalid "certificate %d is invalid DER")
      | Ok c =>
          rest ← metadataFrom (i + 1) chain;
          Ok (mkCertificateMetadata i (Certificate.SerialNumber_ c) (Certificate.Subject_ c)
                (Certificate.Issuer_ c) (Certificate.NotBefore c) (Certificate.NotAfter c)
                (Certificate.IsCA_ c) (Certificate.SignatureAlgorithmName c) :: rest)
      end
  end.

Definition CertificateMetadata (d : t) : go (list CertificateMetadata) :=
  _ ← Validate d; ret (metadataFrom 0 d.(CertificateChain)).

Context `{CborMode t, CborLimits t}.

Definition Marshal (d : t) : go bytes :=
  _ ← Validate d;
  data ← ret (errorf "marshal key descriptor: %w" (cborx.Marshal d));
  if maxDescriptorBytes <? len data then Fail (invalid "encoded descriptor is too large")
  else Ret data.

Definition Unmarshal (data : bytes) : go t :=
  if maxDescriptorBytes <? len data then Fail (invalid "encoded descriptor is too large") else
  match cborx.UnmarshalLimits data maxDescriptorBytes MaxCertificateCountV2 16 with
  | Err _ => Fail (Errorf "%w: %v" ErrInvalidDescriptor)
  | Ok d =>
      _ ← Validate d;
      match cborx.Marshal d with
      | Err _ => Fail (Errorf "%w: re-encode: %v" ErrInvalidDescriptor)
      | Ok canonical =>
          if negb (bytes_equal canonical data) then Fail ErrNonCanonical else Ret d
      end
  end.

(** To its callers a panic is a call that gives no value. *)
Definition of_go {A} (r : go A) : result A :=
  match r with
  | Ret a => Ok a
  | Fail e => Err e
  | Stuck => Err (ErrorsNew "panic")
  end.

Definition lib : KeyDescriptorLib := {|
  keydescriptor_Validate d := of_go (Validate d);
  keydescriptor_Marshal d := of_go (Marshal d);
  keydescriptor_Unmarshal data := of_go (Unmarshal data);
  keydescriptor_CertificateMetadata d := of_go (CertificateMetadata d) |}.
End codec.

(** ** Redaction *)

Definition redact (s : string) (r : string) : string := if seqb s "" then s else r.

Definition Redacted (d : t) : t :=
  mk d.(SchemaVersion) d.(Kind) d.(Provider) d.(CryptoSuite) d.(KeyID) d.(Algorithm) d.(SM2UserID)
    d.(PublicKey) d.(CertificateChain)
    ((λ r, mkSoftware (redact (MaterialPath r) "<redacted>") (SoftwareEncoding r) (Protection r))
       <$> d.(Software))
    ((λ r, mkPKCS11 (redact (URI r) "pkcs11:<redacted>")) <$> d.(PKCS11))
    ((λ r, mkSDF (redact (DeviceRef r) "<redacted>") (KeyIndex r)
             (redact (SDFCredentialRef r) "<redacted>")) <$> d.(SDF))
    ((λ r, mkRemote (redact (Endpoint r) "<redacted>") (redact (RemoteHandle r) "<redacted>")
             (redact (RemoteCredentialRef r) "<redacted>")) <$> d.(Remote)).
End keydescriptor.
