(* ===== verification/KeyCodecProofs.v ===== *)
(** * Correctness of key descriptors

    The canonical encoding is exact, the material path of a descriptor stays
    below its directory, and when validation panics. *)

From S2P Require Import Prelude TrustErr CryptoSuite Model TrustCrypto Cborx KeyDescriptor KeyCodec.

Module keycodec_proofs.
Import Descriptor keydescriptor.

(** ** Encoding *)

Definition software_texts (r : SoftwareKeyReference) : list string :=
  [MaterialPath r; SoftwareEncoding r; Protection r].
Definition sdf_texts (r : SDFKeyReference) : list string := [DeviceRef r; SDFCredentialRef r].
Definition remote_texts (r : RemoteKeyReference) : list string :=
  [Endpoint r; RemoteHandle r; RemoteCredentialRef r].

#[global] Instance descriptor_text : CborText t := λ d,
  texts_valid ([d.(SchemaVersion); d.(Kind); d.(Provider); d.(CryptoSuite); d.(KeyID); d.(Algorithm);
    d.(SM2UserID); Encoding d.(PublicKey)]
    ++ from_option software_texts [] d.(Software)
    ++ from_option (λ r, [URI r]) [] d.(PKCS11)
    ++ from_option sdf_texts [] d.(SDF)
    ++ from_option remote_texts [] d.(Remote)).

(** The only array is the certificate chain; the largest map has the 13 fields. *)
#[global] Instance descriptor_size : CborSize t :=
  {| array_elements d := len d.(CertificateChain); map_pairs _ := 13 |}.

(** The two strings that validation does not require to be UTF-8. *)
Definition plain_reference (d : t) : Prop :=
  (∀ r, d.(Software) = Some r → ValidString (MaterialPath r) = true) ∧
  (∀ r, d.(PKCS11) = Some r → ValidString (URI r) = true).

Lemma identifier_text s n : validIdentifier s n = true → ValidString s = true.
Proof. unfold validIdentifier. intros E. case_match; [done|]. by bsimpl. Qed.

Lemma reference_text s : validReference s = true → ValidString s = true.
Proof. apply identifier_text. Qed.

Lemma optional_text s : validOptionalReference s = true → ValidString s = true.
Proof.
  unfold validOptionalReference. intros E%orb_true_iff. destruct E as [E|E]; bsimpl.
  - by subst.
  - by apply reference_text.
Qed.

(** The texts of a known suite. *)
Lemma known_texts id suite :
  cryptosuite.RequireKnown id = Ok suite →
  ValidString id = true ∧ ValidString (cryptosuite.SigAlgorithm (cryptosuite.Signature suite)) = true ∧
  ValidString (cryptosuite.PublicKeyEncoding (cryptosuite.Signature suite)) = true ∧
  ValidString (cryptosuite.PrivateKeyEncoding (cryptosuite.Signature suite)) = true ∧
  ValidString (cryptosuite.SM2UserID (cryptosuite.Signature suite)) = true.
Proof.
  intros [[-> ->]|[-> ->]]%cryptosuite.RequireKnown_Ok; done.
Qed.

Section codec.
Context `{SigLib, UrlLib, CertLib}.

Lemma validateSuite_Ok d suite :
  validateSuite d = Ok suite →
  texts_valid [d.(SchemaVersion); d.(Kind); d.(CryptoSuite); d.(KeyID); d.(Algorithm); d.(SM2UserID);
    Encoding d.(PublicKey)] = true ∧
  ValidString (cryptosuite.PrivateKeyEncoding (cryptosuite.Signature suite)) = true ∧
  (d.(Kind) = KindSigner ∨ d.(Kind) = KindVerifier).
Proof.
  unfold validateSuite. intros E. ok_inv.
  destruct (cryptosuite.RequireKnown _) as [s|] eqn:Es; [|done]. ok_inv.
  destruct (trustcrypto.ValidatePublicKeyForSuite _ _); [|done].
  assert (suite = s ∧ ValidString d.(SM2UserID) = true) as [-> Hu].
  { apply known_texts in Es as (_ & _ & _ & _ & Hu).
    destruct (seqb _ cryptosuite.CNSMV1); ok_inv; bsimpl; (split; [congruence|]);
      match goal with E : d.(SM2UserID) = _ |- _ => by rewrite E end. }
  apply known_texts in Es as (Hid & Ha & He & Hp & _). bsimpl.
  assert (d.(Kind) = KindSigner ∨ d.(Kind) = KindVerifier) as Hk.
  { destruct (decide (d.(Kind) = KindSigner)) as [|Hn]; [by left|]. right.
    apply seqb_false in Hn. rewrite Hn in *. cbn [negb andb] in *. by bsimpl. }
  split; [|done]. rewrite !texts_valid_cons. split_and!; try congruence; try done.
  - match goal with E : d.(SchemaVersion) = _ |- _ => rewrite E end. done.
  - by destruct Hk as [-> | ->].
  - by eapply identifier_text.
Qed.

Lemma software_text ref suite :
  ValidString (cryptosuite.PrivateKeyEncoding (cryptosuite.Signature suite)) = true →
  validateSoftwareReference ref suite = Ok tt →
  ValidString (SoftwareEncoding ref) = true ∧ ValidString (Protection ref) = true.
Proof.
  unfold validateSoftwareReference. intros Hp E. ok_inv. bsimpl. split; [congruence|].
  destruct (seqb (Protection ref) SoftwareProtectionPlaintextDev) eqn:E1; bsimpl; [by rewrite E1|].
  destruct (seqb (Protection ref) SoftwareProtectionSM4Envelope) eqn:E2; bsimpl; [by rewrite E2|done].
Qed.

Lemma count_0 {A} (o : option A) : count o = 0 → o = None.
Proof. by destruct o. Qed.

Lemma count_range {A} (o : option A) : 0 <= count o <= 1.
Proof. destruct o; cbn; lia. Qed.

(** Apart from two of them, the strings of a valid descriptor are UTF-8. *)
Lemma union_text d suite :
  ValidString (cryptosuite.PrivateKeyEncoding (cryptosuite.Signature suite)) = true →
  validateProviderUnion d suite = Ok tt → plain_reference d →
  ValidString d.(Provider) = true ∧
  texts_valid (from_option software_texts [] d.(Software)) = true ∧
  texts_valid (from_option (λ r, [URI r]) [] d.(PKCS11)) = true ∧
  texts_valid (from_option sdf_texts [] d.(SDF)) = true ∧
  texts_valid (from_option remote_texts [] d.(Remote)) = true.
Proof.
  intros Hp E [Hs Hu]. unfold validateProviderUnion in E.
  pose proof (count_range d.(Software)). pose proof (count_range d.(PKCS11)).
  pose proof (count_range d.(SDF)). pose proof (count_range d.(Remote)).
  destruct (seqb d.(Kind) KindVerifier); ok_inv; bsimpl.
  { rewrite (count_0 d.(Software)), (count_0 d.(PKCS11)), (count_0 d.(SDF)), (count_0 d.(Remote)) by lia.
    match goal with E : d.(Provider) = _ |- _ => by rewrite E end. }
  destruct (seqb d.(Provider) ProviderSoftware) eqn:E1; bsimpl; [rewrite E1|].
  { destruct d.(Software) as [r|] eqn:Er; [|done]. cbn [count] in *.
    rewrite (count_0 d.(PKCS11)), (count_0 d.(SDF)), (count_0 d.(Remote)) by lia.
    apply software_text in E as [? ?]; [|done]. split_and!; try done. cbn [from_option].
    unfold software_texts. rewrite !texts_valid_cons. split_and!; try done. by apply Hs. }
  destruct (seqb d.(Provider) ProviderPKCS11) eqn:E2; bsimpl; [rewrite E2|].
  { destruct d.(PKCS11) as [r|] eqn:Er; [|done]. cbn [count] in *.
    rewrite (count_0 d.(Software)), (count_0 d.(SDF)), (count_0 d.(Remote)) by lia.
    split_and!; try done. cbn [from_option]. rewrite texts_valid_cons. split; [by apply Hu|done]. }
  destruct (seqb d.(Provider) ProviderSDF) eqn:E3; bsimpl; [rewrite E3|].
  { destruct d.(SDF) as [r|] eqn:Er; [|done]. cbn [count] in *. ok_inv. bsimpl.
    rewrite (count_0 d.(Software)), (count_0 d.(PKCS11)), (count_0 d.(Remote)) by lia.
    split_and!; try done. cbn [from_option]. unfold sdf_texts. rewrite !texts_valid_cons.
    split_and!; [by apply reference_text|by apply optional_text|done]. }
  destruct (seqb d.(Provider) ProviderRemote) eqn:E4; bsimpl; [rewrite E4|done].
  destruct d.(Remote) as [r|] eqn:Er; [|done]. cbn [count] in *.
  unfold validateRemoteReference in E. ok_inv. bsimpl.
  rewrite (count_0 d.(Software)), (count_0 d.(PKCS11)), (count_0 d.(SDF)) by lia.
  split_and!; try done. cbn [from_option]. unfold remote_texts. rewrite !texts_valid_cons.
  split_and!; try done; by apply reference_text.
Qed.

Lemma valid_text d : Validate d = Ret tt → plain_reference d → text_valid d = true.
Proof.
  unfold Validate. intros E Hd. apply bind_Ret in E as (suite & Es & E).
  apply bind_Ret in E as ([] & Eu & _). apply ret_Ret in Es, Eu.
  apply validateSuite_Ok in Es as (Ht & Hp & _).
  destruct (union_text _ _ Hp Eu Hd) as (Hpr & ? & ? & ? & ?).
  unfold text_valid, descriptor_text. rewrite !texts_valid_app. rewrite !andb_true_iff.
  rewrite !texts_valid_cons in *. dex. by split_and!.
Qed.

(** UTF-8 descriptors have UTF-8 references. *)
Lemma text_plain d : text_valid d = true → plain_reference d.
Proof.
  unfold text_valid, descriptor_text. rewrite !texts_valid_app, !andb_true_iff.
  intros (_ & Hs & Hu & _). split; intros r E; rewrite E in *; cbn [from_option] in *.
  - unfold software_texts in Hs. rewrite !texts_valid_cons in Hs. by dex.
  - rewrite !texts_valid_cons in Hu. by dex.
Qed.

Lemma valid_chain_length d : Validate d = Ret tt → len d.(CertificateChain) <= MaxCertificateCountV2.
Proof.
  unfold Validate. intros (suite & _ & E)%bind_Ret. apply bind_Ret in E as (_ & _ & E).
  unfold validateCertificateChain in E.
  destruct (Z.eqb_spec (len d.(CertificateChain)) 0) as [-> |_]; [done|].
  destruct (Z.ltb_spec MaxCertificateCountV2 (len d.(CertificateChain))); [done|lia].
Qed.

Context `{CborMode t, CborLimits t, !CborLimitsRoundTrip t}.

(** C36: the encoding of descriptors is exact. [Unmarshal] accepts some bytes as a
    descriptor exactly when [Marshal] gives these bytes for it and its software
    material path and PKCS#11 URI are UTF-8: every descriptor has one accepted
    encoding, everything that is accepted is valid, and what is written can be
    read back, unless one of these two strings, which validation does not
    check, is not UTF-8. *)
Theorem descriptor_roundtrip data d :
  Unmarshal data = Ret d ↔ Marshal d = Ret data ∧ plain_reference d.
Proof.
  unfold Unmarshal, Marshal. split.
  - intros E. go_inv. destruct (cborx.UnmarshalLimits _ _ _ _) as [d'|] eqn:Eu; [|done]. go_inv.
    destruct (cborx.Marshal d') as [c|] eqn:Em; [|done]. go_inv. bsimpl. subst d' c. destruct x.
    split; [|apply text_plain].
    + match goal with E : Validate d = _ |- _ => rewrite E end. cbn [mbind go_bind].
      rewrite Em. cbn [errorf ret mbind go_bind]. rewrite (proj2 (Z.ltb_ge _ _)) by lia. done.
    + unfold cborx.UnmarshalLimits in Eu. ok_inv. by eapply limitMode_text.
  - intros [E Hd]. apply bind_Ret in E as ([] & Ev & E). apply bind_Ret in E as (b & Em & E).
    go_inv. ok_inv. subst b. bsimpl. pose proof Em as Ee. apply cborx.Marshal_Ok in Ee.
    pose proof (encMode_nonempty _ _ Ee) as Hne. pose proof (valid_chain_length _ Ev) as Hl.
    rewrite (proj2 (Z.ltb_ge _ _)) by lia. unfold cborx.UnmarshalLimits.
    rewrite (proj2 (Z.ltb_ge _ _)) by lia.
    rewrite (proj2 (Z.eqb_neq (len data) 0)) by (destruct data; [done|unfold len; cbn; lia]).
    erewrite limitMode_encMode; [|done|by apply valid_text|done|done].
    cbn [errorf]. change (maxDescriptorBytes <=? 0) with false.
    change (MaxCertificateCountV2 <=? 0) with false. change (16 <=? 0) with false.
    change (negb (cborx.limit_ok MaxCertificateCountV2 && cborx.limit_ok 16)) with false. cbn iota.
    rewrite Ev. cbn [mbind go_bind]. rewrite Em, bytes_equal_refl. done.
Qed.
End codec.

(** ** Paths *)

Section split.
Context (sep : byte).

Lemma Split_cons s : ∃ p ps, Split sep s = p :: ps.
Proof. induction s as [|b s (p & ps & IH)]; cbn; [eauto|]. rewrite IH. case_bool_decide; eauto. Qed.

Lemma Split_parts s : Forall (λ p, sep ∉ p) (Split sep s).
Proof.
  induction s as [|b s IH]; cbn; [by repeat constructor; apply not_elem_of_nil|].
  destruct (Split_cons s) as (p & ps & E). rewrite E in *.
  case_bool_decide; [constructor; [apply not_elem_of_nil|done]|].
  apply Forall_cons in IH as [Hp IH]. constructor; [|done]. set_solver.
Qed.

Lemma Split_plain s : sep ∉ s → Split sep s = [s].
Proof.
  induction s as [|b s IH]; [done|]. intros [Hb Hs]%not_elem_of_cons. cbn.
  rewrite bool_decide_false, IH by done. done.
Qed.

Lemma Split_app a b : Split sep (a ++ sep :: b) = Split sep a ++ Split sep b.
Proof.
  induction a as [|x a IH]; cbn.
  - by rewrite bool_decide_true.
  - rewrite IH. destruct (Split_cons a) as (p & ps & ->). by case_bool_decide.
Qed.

Lemma Split_Join ps : ps ≠ [] → Forall (λ p, sep ∉ p) ps → Split sep (Join sep ps) = ps.
Proof.
  induction ps as [|p ps IH]; [done|]. intros _ [Hp Hps]%Forall_cons.
  destruct ps as [|q ps]; [by apply Split_plain|].
  change (Join sep (p :: q :: ps)) with (p ++ sep :: Join sep (q :: ps)).
  rewrite Split_app, (Split_plain p) by done. by rewrite IH.
Qed.

Lemma Join_Split s : Join sep (Split sep s) = s.
Proof.
  induction s as [|b s IH]; [done|]. cbn. destruct (Split_cons s) as (p & ps & E). rewrite E in *.
  case_bool_decide as Hb.
  - change (Join sep ([] :: p :: ps)) with (sep :: Join sep (p :: ps)). by rewrite IH, Hb.
  - rewrite <- IH. by destruct ps.
Qed.

Lemma Join_app ps qs : ps ≠ [] → qs ≠ [] → Join sep (ps ++ qs) = Join sep ps ++ sep :: Join sep qs.
Proof.
  intros Hp Hq. induction ps as [|p ps IH]; [done|]. destruct ps as [|p' ps].
  - cbn. by destruct qs.
  - change (Join sep ((p :: p' :: ps) ++ qs)) with (p ++ sep :: Join sep ((p' :: ps) ++ qs)).
    rewrite IH by done. cbn. by rewrite <- app_assoc.
Qed.
End split.

(** A path element that names an entry of a directory. *)
Definition entry (p : bytes) : Prop := p ≠ [] ∧ p ≠ dot ∧ p ≠ dotdot.

Lemma clean_entries rooted ps stack :
  Forall entry ps → foldl (clean_step rooted) stack ps = rev ps ++ stack.
Proof.
  intros H. revert stack. induction H as [|p ps (H1 & H2 & H3) _ IH]; intros stack; [done|].
  cbn [foldl rev]. rewrite IH, <- app_assoc. unfold clean_step.
  rewrite bool_decide_false by naive_solver. by rewrite bool_decide_false by done.
Qed.

(** Only non-empty elements are kept. *)
Lemma clean_nonempty rooted ps stack p :
  Forall (λ p, p ≠ []) stack → p ∈ foldl (clean_step rooted) stack ps → p ≠ [].
Proof.
  revert stack. induction ps as [|q ps IH]; intros stack Hs Hp.
  - rewrite Forall_forall in Hs. by apply Hs.
  - cbn [foldl] in Hp. eapply IH; [|exact Hp]. unfold clean_step. case_bool_decide as E1; [done|].
    assert (q ≠ []) by naive_solver.
    case_bool_decide; [|by constructor].
    destruct stack as [|top rest]; [destruct rooted; by repeat constructor|].
    case_bool_decide; [by constructor|]. by apply Forall_cons in Hs as [_ ?].
Qed.

(** The stack of a relative path: entries above some [..]. *)
Definition stack_ok (stack : list bytes) : Prop :=
  ∃ es n, stack = es ++ replicate n dotdot ∧ Forall entry es ∧ Forall (λ p, slash ∉ p) es.

Lemma clean_stack ps stack :
  Forall (λ p, slash ∉ p) ps → stack_ok stack → stack_ok (foldl (clean_step false) stack ps).
Proof.
  intros H. revert stack. induction H as [|p ps Hp _ IH]; intros stack Hs; [done|]. cbn [foldl].
  apply IH. unfold clean_step. case_bool_decide as E1; [done|].
  destruct Hs as (es & n & -> & He & Hn). case_bool_decide as E2.
  - subst p. destruct es as [|e es]; cbn [app].
    + destruct n as [|n]; cbn [replicate]; [by exists [], 1%nat|].
      rewrite bool_decide_true by done. by exists [], (S (S n)).
    + apply Forall_cons in He as [(? & ? & Hd) He], Hn as [_ Hn].
      rewrite bool_decide_false by done. by exists es, n.
  - exists (p :: es), n. split_and!; [done| |by constructor].
    constructor; [|done]. unfold entry. naive_solver.
Qed.

Lemma rev_dotdots n : rev (replicate n dotdot) = replicate n dotdot.
Proof. rewrite rev_alt. apply reverse_replicate. Qed.

Lemma rev_not_nil {A} (x : A) l : rev (x :: l) ≠ [].
Proof. intros E%(f_equal length). by rewrite length_rev in E. Qed.

(** The elements of an accepted path. *)
Lemma valid_entries v :
  validRelativePath v = true → Forall entry (Split slash (bytes_of_string v)).
Proof.
  unfold validRelativePath. set (s := bytes_of_string v). intros E.
  destruct (bool_decide (s = []) || _ || is_rooted s || _) eqn:E0; [done|]. bsimpl.
  unfold Clean in *. rewrite (proj1 (not_true_iff_false (is_rooted s))) in * by congruence.
  destruct (clean_stack (Split slash s) [] (Split_parts _ _)) as (es & n & Es & He & Hn);
    [by exists [], 0%nat|].
  rewrite Es in *. clear Es. cbn [app] in *. rewrite rev_app_distr, rev_dotdots in *.
  destruct (bool_decide (Join slash (replicate n dotdot ++ rev es) = [])); [done|].
  destruct n as [|n].
  - cbn [replicate app] in *. destruct es as [|e es].
    { cbn in *. congruence. }
    match goal with E : Join _ _ = s |- _ => rewrite <- E end.
    rewrite Split_Join; [by apply Forall_rev|apply rev_not_nil|by apply Forall_rev].
  - exfalso. destruct n as [|n]; [destruct es as [|e es]|]; [done| |].
    + cbn [replicate app] in *. pose proof (rev_not_nil e es) as Hne.
      destruct (rev (e :: es)) as [|q qs]; [done|]. cbn [Join] in *.
      by match goal with H : take _ _ ≠ _ |- _ => apply H end.
    + cbn [replicate app Join] in *. by match goal with H : take _ _ ≠ _ |- _ => apply H end.
Qed.

(** The key material of a software signer stays below the directory of its
    descriptor. Let the directory be absolute and clean; a material path that
    validation accepts, joined to it, gives the directory followed by the path
    itself, and no element of the path is empty, [.] or [..]. *)
Theorem material_path_inside base v :
  validRelativePath v = true → is_rooted base = true → Clean base = base →
  Clean (base ++ slash :: bytes_of_string v) =
    (if bool_decide (base = [slash]) then base else base ++ [slash]) ++ bytes_of_string v ∧
  Forall entry (Split slash (bytes_of_string v)).
Proof.
  intros Hv%valid_entries Hr Hc. split; [|done]. set (s := bytes_of_string v) in *.
  assert (is_rooted (base ++ slash :: s) = true) as Hr' by by destruct base.
  unfold Clean in *. rewrite Hr, Hr' in *. cbn [app] in *. rewrite bool_decide_false in Hc by done.
  rewrite bool_decide_false by done. rewrite Split_app, foldl_app, clean_entries by done.
  rewrite rev_app_distr, rev_involutive. rewrite <- (Join_Split slash s) at 2.
  assert (Split slash s ≠ []) as Hs by (destruct (Split_cons slash s) as (? & ? & ->); done).
  destruct (rev (foldl (clean_step true) [] (Split slash base))) as [|p ps] eqn:Eb.
  - cbn [Join app] in *. by rewrite <- Hc.
  - rewrite Join_app by done. rewrite bool_decide_false.
    + rewrite <- Hc at 1. cbn. by rewrite <- app_assoc.
    + rewrite <- Hc. intros E. injection E as E.
      assert (p ≠ []) as Hp.
      { apply (clean_nonempty true (Split slash base) []); [done|]. apply list_elem_of_In, in_rev. rewrite Eb. by left. }
      by destruct p, ps.
Qed.

(** ** Panics *)

Section panics.
Context `{SigLib, UrlLib, CertLib}.

Lemma parseChain_nonempty suite total chain cs :
  parseChain suite total chain = Ok cs → len chain ≠ 0 → cs ≠ [].
Proof. destruct chain; [done|]. cbn. intros E _. ok_inv. repeat case_match; ok_inv; by subst. Qed.

(** When validation panics. [Validate] fails to return a value or an error
    exactly for the descriptors of the SM2 suite that pass every check up to the
    certificates, and whose certificates all parse, but whose leaf holds an
    ECDSA key that is not a point of the SM2 curve, such as a key of a NIST
    curve: the key is encoded as an SM2 point before it is compared. *)
Theorem validate_panics d :
  Validate d = Stuck ↔
  ∃ suite leaf rest X Y, validateSuite d = Ok suite ∧ validateProviderUnion d suite = Ok tt ∧
    0 < len d.(CertificateChain) <= MaxCertificateCountV2 ∧
    parseChain suite 0 d.(CertificateChain) = Ok (leaf :: rest) ∧
    cryptosuite.SuiteID suite = cryptosuite.CNSMV1 ∧
    Certificate.PublicKey leaf = Certificate.EcdsaPublicKey X Y ∧
    (X, Y) ≠ (0, 0) ∧ sm2_IsOnCurve X Y = false.
Proof.
  unfold Validate. split.
  - destruct (validateSuite d) as [suite|]; [|done]. cbn [ret mbind go_bind].
    destruct (validateProviderUnion d suite) as [[]|] eqn:Eu; [|done]. cbn [ret mbind go_bind].
    unfold validateCertificateChain. pose proof (len_nonneg d.(CertificateChain)).
    destruct (Z.eqb_spec (len d.(CertificateChain)) 0); [done|].
    destruct (Z.ltb_spec MaxCertificateCountV2 (len d.(CertificateChain))); [done|].
    destruct (parseChain _ _ _) as [cs|] eqn:Ec; [|done]. cbn [ret mbind go_bind].
    pose proof (parseChain_nonempty _ _ _ _ Ec ltac:(done)). destruct cs as [|leaf rest]; [done|].
    unfold certificatePublicKeyBytes, elliptic_Marshal. intros E.
    repeat case_match; try done; bsimpl;
      try (by destruct (checkIssuers _); discriminate E).
    eexists suite, leaf, rest, _, _. split_and!; try done; try lia. intros [= -> ->]. done.
  - intros (suite & leaf & rest & X & Y & -> & Hu & Hl & Hc & Hs & Hk & Hz & Hn).
    cbn [ret mbind go_bind]. rewrite Hu. cbn [ret mbind go_bind]. unfold validateCertificateChain.
    rewrite (proj2 (Z.eqb_neq _ _)), (proj2 (Z.ltb_ge _ _)), Hc by lia. cbn [ret mbind go_bind].
    unfold certificatePublicKeyBytes, elliptic_Marshal. rewrite Hs, Hk, Hn.
    assert ((X =? 0) && (Y =? 0) = false) as ->.
    { apply not_true_iff_false. intros E. bsimpl. by subst. }
    done.
Qed.
End panics.
End keycodec_proofs.
