(* ===== verification/Instances.v ===== *)
(** * Concrete instances of the library classes

    Small executable functions that satisfy the laws of [HashLib], [SigLib]
    and [CborMode], used to evaluate the model on concrete inputs. *)

From S2P Require Import Prelude TrustErr CryptoSuite Model TrustCrypto Cborx KeyDescriptor.

(** A 32-byte checksum: a running byte state and the length, repeated. *)
Definition toy_state (seed : Z) (x : bytes) : Z :=
  foldl (λ acc b, (acc * 31 + Z_of_byte b + 7) mod 2 ^ 64) seed x.

Definition toy_digest (seed : Z) (x : bytes) : bytes :=
  be_put 8 (toy_state seed x) ++ be_put 8 (toy_state (seed + 1) (rev x))
  ++ be_put 8 (len x) ++ be_put 8 seed.

Lemma toy_digest_len seed x : length (toy_digest seed x) = 32%nat.
Proof. unfold toy_digest. rewrite !length_app, !length_be_put. done. Qed.

#[export] Instance ToyHash : HashLib := {
  sha256_Sum256 := toy_digest 5;
  sm3_Sum := toy_digest 9;
  sha256_len := toy_digest_len 5;
  sm3_len := toy_digest_len 9 }.

(** A keyed checksum as a signature. *)
Definition toy_sign (key msg : bytes) : bytes :=
  let d := toy_digest 3 (key ++ msg) in d ++ d.

#[export] Instance ToySig : SigLib := {
  ed25519_Verify key msg sig := bytes_equal sig (toy_sign key msg);
  sm2_VerifyASN1WithSM2 key uid msg sig := bytes_equal sig (toy_sign (key ++ uid) msg);
  sm2_NewPublicKey_ok _ := true;
  sm2_point_canonical _ := true;
  sm2_DER_ok _ := true }.

(** A codec for the values of a table: the encoding is the position. *)
Section table.
Context {A : Type} `{EqDecision A} (table : list A).

Definition table_encode (a : A) : result bytes :=
  match list_find (λ x, x = a) table with
  | Some (i, _) => Ok (be_put 8 (Z.of_nat i))
  | None => Err (ErrorsNew "unsupported value")
  end.

Definition table_decode (b : bytes) : result A :=
  match table !! Z.to_nat (be_get b) with
  | Some a => Ok a
  | None => Err (ErrorsNew "unknown value")
  end.

Definition table_codec : CborMode A :=
  {| encMode_Marshal := table_encode; decMode_Unmarshal := table_decode |}.

Lemma table_decode_encode a b :
  Z.of_nat (length table) < two64 → table_encode a = Ok b → table_decode b = Ok a.
Proof.
  intros Hlen Hb. unfold table_encode, table_decode in *.
  destruct (list_find _ _) as [[i x]|] eqn:E; [|discriminate].
  assert (b = be_put 8 (Z.of_nat i)) as -> by congruence.
  apply list_find_Some in E as (E & -> & _). rewrite be_get_put.
  apply lookup_lt_Some in E as Hi. change (256 ^ Z.of_nat 8) with two64.
  rewrite Z.mod_small, Nat2Z.id, E by lia. done.
Qed.

Lemma table_injective : Z.of_nat (length table) < two64 → @CborModeInjective A table_codec.
Proof.
  intros Hlen a1 a2 b H1%table_decode_encode H2%table_decode_encode; [|done..]. congruence.
Qed.

Lemma table_exact : Z.of_nat (length table) < two64 → @CborModeExact A table_codec.
Proof.
  intros Hlen a a' b E%table_decode_encode E'; [|done].
  change (table_decode b = Ok a') in E'. congruence.
Qed.

Lemma table_roundtrip `{CborText A} :
  Z.of_nat (length table) < two64 → forallb text_valid table = true →
  @CborModeRoundTrip A table_codec _.
Proof.
  intros Hlen Ht. split.
  - intros a b E _. by apply table_decode_encode.
  - intros a b E. change (table_decode b = Ok a) in E. unfold table_decode in E.
    destruct (table !! _) as [x|] eqn:Ex; [|done]. simplify_eq.
    rewrite forallb_forall in Ht. apply Ht, list_elem_of_In. by eapply list_elem_of_lookup_2.
Qed.
End table.

#[export] Instance ToyKeyDescriptor : KeyDescriptorLib := {
  keydescriptor_Validate _ := Err (ErrorsNew "no descriptor");
  keydescriptor_Marshal _ := Err (ErrorsNew "no descriptor");
  keydescriptor_Unmarshal _ := Err (ErrorsNew "no descriptor");
  keydescriptor_CertificateMetadata _ := Err (ErrorsNew "no descriptor") }.
