(* ===== verification/ModelSuite.v ===== *)
(** * Suite binding of model objects

    Models [src/internal/modelsuite/validate.go]: [Require] collects the
    suite identifiers an object carries and requires that all of them are the
    expected one.  The Go [switch] on the dynamic type is a match on [Any]. *)

From S2P Require Import Prelude TrustErr CryptoSuite Model TrustCrypto KeyDescriptor.

Module modelsuite.

(** The dynamic types [Require] distinguishes; [AnyOther] is the default. *)
Inductive Any :=
| AnyClientClaim (v : ClientClaim.t)
| AnySignedClaim (v : SignedClaim.t)
| AnyServerRecord (v : ServerRecord.t)
| AnyAcceptedReceipt (v : AcceptedReceipt.t)
| AnyCommittedReceipt (v : CommittedReceipt.t)
| AnyProofBundle (v : ProofBundle.t)
| AnySingleProof (v : SingleProof.t)
| AnyRecordIndex (v : RecordIndex.t)
| AnyRecordStatus (v : RecordStatus.t)
| AnyStatusRefresh (v : StatusRefresh.t)
| AnyBatchRoot (v : BatchRoot.t)
| AnyWALCheckpoint (v : WALCheckpoint.t)
| AnyBatchManifest (v : BatchManifest.t)
| AnyBatchTreeLeaf (v : BatchTreeLeaf.t)
| AnyBatchTreeNode (v : BatchTreeNode.t)
| AnyBatchTreeSnapshot (v : BatchTreeSnapshot.t)
| AnyGlobalLogLeaf (v : GlobalLogLeaf.t)
| AnyGlobalLogNode (v : GlobalLogNode.t)
| AnyGlobalLogState (v : GlobalLogState.t)
| AnySignedTreeHead (v : SignedTreeHead.t)
| AnyGlobalLogProof (v : GlobalLogProof.t)
| AnyGlobalLogTile (v : GlobalLogTile.t)
| AnyGlobalLogOutboxItem (v : GlobalLogOutboxItem.t)
| AnyGlobalLogAppend (v : GlobalLogAppend.t)
| AnySTHAnchorCandidate (v : STHAnchorCandidate.t)
| AnySTHAnchorResult (v : STHAnchorResult.t)
| AnySTHAnchorLatestReference (v : STHAnchorLatestReference.t)
| AnySTHAnchorSchedule (v : STHAnchorSchedule.t)
| AnyL5CoverageCheckpoint (v : L5CoverageCheckpoint.t)
| AnyIdempotencyDecision (v : IdempotencyDecision.t)
| AnyClientKey (v : ClientKey.t)
| AnyKeyEvent (v : KeyEvent.t)
| AnyOther.

(** [if s != "" { actual = append(actual, id) }] *)
Definition when_schema (schema : string) (ids : list cryptosuite.ID) : list cryptosuite.ID :=
  if seqb schema "" then [] else ids.

Section require.
Context `{KeyDescriptorLib}.

(** The descriptor branch shared by client keys and key events. *)
Definition descriptor_suites (msg : string) (id : cryptosuite.ID) (descriptor : bytes)
  : result (list cryptosuite.ID) :=
  if negb (len descriptor =? 0)
  then d ← errorf msg (keydescriptor_Unmarshal descriptor);
       Ok [id; Descriptor.CryptoSuite d]
  else Ok [id].

(** The name used in the error and the list [actual] of each case; [None] is
    the early [return nil] of an empty latest-anchor reference. *)
Definition suites (value : Any) : result (option (string * list cryptosuite.ID)) :=
  match value with
  | AnyClientClaim v => Ok (Some ("client claim", [v.(ClientClaim.CryptoSuite)]))
  | AnySignedClaim v =>
      Ok (Some ("signed claim",
            [v.(SignedClaim.CryptoSuite); v.(SignedClaim.Claim).(ClientClaim.CryptoSuite)]))
  | AnyServerRecord v => Ok (Some ("server record", [v.(ServerRecord.CryptoSuite)]))
  | AnyAcceptedReceipt v => Ok (Some ("accepted receipt", [v.(AcceptedReceipt.CryptoSuite)]))
  | AnyCommittedReceipt v => Ok (Some ("committed receipt", [v.(CommittedReceipt.CryptoSuite)]))
  | AnyProofBundle v =>
      let sc := v.(ProofBundle.SignedClaim) in
      Ok (Some ("proof bundle",
        [v.(ProofBundle.CryptoSuite)]
        ++ when_schema sc.(SignedClaim.SchemaVersion)
             ([sc.(SignedClaim.CryptoSuite)]
              ++ when_schema sc.(SignedClaim.Claim).(ClientClaim.SchemaVersion)
                   [sc.(SignedClaim.Claim).(ClientClaim.CryptoSuite)])
        ++ when_schema v.(ProofBundle.ServerRecord).(ServerRecord.SchemaVersion)
             [v.(ProofBundle.ServerRecord).(ServerRecord.CryptoSuite)]
        ++ when_schema v.(ProofBundle.AcceptedReceipt).(AcceptedReceipt.SchemaVersion)
             [v.(ProofBundle.AcceptedReceipt).(AcceptedReceipt.CryptoSuite)]
        ++ when_schema v.(ProofBundle.CommittedReceipt).(CommittedReceipt.SchemaVersion)
             [v.(ProofBundle.CommittedReceipt).(CommittedReceipt.CryptoSuite)]))
  | AnySingleProof v =>
      Ok (Some ("single proof",
        [v.(SingleProof.CryptoSuite); v.(SingleProof.ProofBundle).(ProofBundle.CryptoSuite)]
        ++ match v.(SingleProof.GlobalProof) with
           | Some g => [g.(GlobalLogProof.CryptoSuite);
                        g.(GlobalLogProof.STH).(SignedTreeHead.CryptoSuite)]
           | None => []
           end
        ++ match v.(SingleProof.AnchorResult) with
           | Some a => [a.(STHAnchorResult.CryptoSuite);
                        a.(STHAnchorResult.STH).(SignedTreeHead.CryptoSuite)]
           | None => []
           end
        ++ flat_map (λ e, e.(ProofIdentityEvidence.CryptoSuite) ::
                       map CertificateStatusEvidence.CryptoSuite
                         e.(ProofIdentityEvidence.CertificateStatuses))
             v.(SingleProof.IdentityEvidence)))
  | AnyRecordIndex v => Ok (Some ("record index", [v.(RecordIndex.CryptoSuite)]))
  | AnyRecordStatus v => Ok (Some ("record status", [v.(RecordStatus.CryptoSuite)]))
  | AnyStatusRefresh v => Ok (Some ("status refresh", [v.(StatusRefresh.CryptoSuite)]))
  | AnyBatchRoot v => Ok (Some ("batch root", [v.(BatchRoot.CryptoSuite)]))
  | AnyWALCheckpoint v => Ok (Some ("WAL checkpoint", [v.(WALCheckpoint.CryptoSuite)]))
  | AnyBatchManifest v => Ok (Some ("batch manifest", [v.(BatchManifest.CryptoSuite)]))
  | AnyBatchTreeLeaf v => Ok (Some ("batch tree leaf", [v.(BatchTreeLeaf.CryptoSuite)]))
  | AnyBatchTreeNode v => Ok (Some ("batch tree node", [v.(BatchTreeNode.CryptoSuite)]))
  | AnyBatchTreeSnapshot v =>
      Ok (Some ("batch tree snapshot", [v.(BatchTreeSnapshot.CryptoSuite)]))
  | AnyGlobalLogLeaf v => Ok (Some ("global log leaf", [v.(GlobalLogLeaf.CryptoSuite)]))
  | AnyGlobalLogNode v => Ok (Some ("global log node", [v.(GlobalLogNode.CryptoSuite)]))
  | AnyGlobalLogState v => Ok (Some ("global log state", [v.(GlobalLogState.CryptoSuite)]))
  | AnySignedTreeHead v => Ok (Some ("signed tree head", [v.(SignedTreeHead.CryptoSuite)]))
  | AnyGlobalLogProof v =>
      Ok (Some ("global log proof",
        [v.(GlobalLogProof.CryptoSuite); v.(GlobalLogProof.STH).(SignedTreeHead.CryptoSuite)]))
  | AnyGlobalLogTile v => Ok (Some ("global log tile", [v.(GlobalLogTile.CryptoSuite)]))
  | AnyGlobalLogOutboxItem v =>
      Ok (Some ("global log outbox",
        [v.(GlobalLogOutboxItem.CryptoSuite)]
        ++ when_schema v.(GlobalLogOutboxItem.BatchRoot).(BatchRoot.SchemaVersion)
             [v.(GlobalLogOutboxItem.BatchRoot).(BatchRoot.CryptoSuite)]
        ++ (if v.(GlobalLogOutboxItem.STH).(SignedTreeHead.TreeSize) =? 0 then []
            else [v.(GlobalLogOutboxItem.STH).(SignedTreeHead.CryptoSuite)])))
  | AnyGlobalLogAppend v =>
      Ok (Some ("global log append",
        [v.(GlobalLogAppend.Leaf).(GlobalLogLeaf.CryptoSuite);
         v.(GlobalLogAppend.State).(GlobalLogState.CryptoSuite);
         v.(GlobalLogAppend.STH).(SignedTreeHead.CryptoSuite)]
        ++ map GlobalLogNode.CryptoSuite v.(GlobalLogAppend.Nodes)))
  | AnySTHAnchorCandidate v =>
      Ok (Some ("STH anchor candidate",
        [v.(STHAnchorCandidate.STH).(SignedTreeHead.CryptoSuite)]))
  | AnySTHAnchorResult v =>
      Ok (Some ("STH anchor result",
        [v.(STHAnchorResult.CryptoSuite); v.(STHAnchorResult.STH).(SignedTreeHead.CryptoSuite)]))
  | AnySTHAnchorLatestReference v =>
      if seqb v.(STHAnchorLatestReference.SchemaVersion) SchemaSTHAnchorLatestEmpty
      then Ok None
      else Ok (Some ("STH anchor latest reference",
             [v.(STHAnchorLatestReference.CryptoSuite)]))
  | AnySTHAnchorSchedule v =>
      Ok (Some ("STH anchor schedule",
        [v.(STHAnchorSchedule.CryptoSuite)]
        ++ match v.(STHAnchorSchedule.Pending) with
           | Some p => [p.(STHAnchorWindow.Target).(SignedTreeHead.CryptoSuite)]
           | None => []
           end
        ++ match v.(STHAnchorSchedule.InFlight) with
           | Some a => [a.(STHAnchorAttempt.Target).(SignedTreeHead.CryptoSuite)]
           | None => []
           end))
  | AnyL5CoverageCheckpoint v =>
      Ok (Some ("L5 coverage checkpoint", [v.(L5CoverageCheckpoint.CryptoSuite)]))
  | AnyIdempotencyDecision v =>
      Ok (Some ("idempotency decision",
        [v.(IdempotencyDecision.CryptoSuite);
         v.(IdempotencyDecision.Record).(ServerRecord.CryptoSuite);
         v.(IdempotencyDecision.Accepted).(AcceptedReceipt.CryptoSuite)]))
  | AnyClientKey v =>
      ids ← descriptor_suites "client key descriptor: %w"
              v.(ClientKey.CryptoSuite) v.(ClientKey.KeyDescriptor);
      Ok (Some ("client key", ids))
  | AnyKeyEvent v =>
      ids ← descriptor_suites "key event descriptor: %w"
              v.(KeyEvent.CryptoSuite) v.(KeyEvent.KeyDescriptor);
      Ok (Some ("key event", ids))
  | AnyOther => Err (ErrorsNew "unsupported suite-bound model type %T")
  end.

Definition Require_ (expected : cryptosuite.ID) (value : Any) : result unit :=
  _ ← cryptosuite.RequireAvailable expected;
  ids ← suites value;
  match ids with
  | None => Ok tt
  | Some (name, actual) => errorf (name ++ ": %w") (cryptosuite.RequireSame expected actual)
  end.

(** ** Lemmas *)

(** [Require] succeeds exactly when the suite is registered and every
    identifier the object carries is the expected one. *)
Lemma Require_Ok expected value :
  Require_ expected value = Ok tt ↔
  is_ok (cryptosuite.RequireKnown expected) = true ∧
  ∃ o, suites value = Ok o ∧
       ∀ name ids, o = Some (name, ids) → Forall (λ id, id = expected) ids.
Proof.
  unfold Require_. rewrite bind_Ok. split.
  - intros (s & Hs & H0). apply cryptosuite.RequireAvailable_Ok in Hs. rewrite Hs.
    split; [done|]. apply bind_Ok in H0 as (o & Ho & H0). exists o. split; [done|].
    intros name ids ->. apply errorf_Ok in H0. by apply cryptosuite.RequireSame_Ok in H0 as [_ ?].
  - intros [Hk (o & Ho & Hf)]. pose proof Hk as Hk'. apply is_ok_iff in Hk as [s Hs].
    exists s. split; [by apply cryptosuite.RequireAvailable_Ok|].
    apply bind_Ok. exists o. split; [done|].
    destruct o as [[name ids]|]; [|done]. apply errorf_Ok, cryptosuite.RequireSame_Ok.
    split; [done|]. by eapply Hf.
Qed.

Lemma Require_head expected value name id ids :
  suites value = Ok (Some (name, id :: ids)) →
  Require_ expected value = Ok tt → id = expected.
Proof.
  intros Hs [_ (o & Ho & Hf)]%Require_Ok. rewrite Hs in Ho. injection Ho as <-.
  specialize (Hf _ _ eq_refl). by inversion Hf.
Qed.
End require.

End modelsuite.
