(* ===== verification/Rfc6962.v ===== *)
(** * Merkle trees of RFC 6962, the reference definitions

    The tree head [mth], the audit path [path], the consistency proof
    [subproof] and their checkers, over an arbitrary node function.  These are
    the specification the code of [internal/merkle] and [internal/globallog]
    is compared with; nothing here is translated from the sources. *)

From S2P Require Import Prelude.

Local Open Scope nat_scope.

(** The largest power of two smaller than [n], for [2 ≤ n]. *)
Definition split (n : nat) : nat := 2 ^ Nat.log2 (n - 1).

Section mth.
Context {A : Type} (node : A → A → A) (empty : A).

(** [MTH(D)]. The fuel is the number of leaves: both halves are shorter. *)
Fixpoint mth_aux (fuel : nat) (l : list A) : A :=
  match l, fuel with
  | [], _ => empty
  | [x], _ => x
  | _, O => empty
  | _, S f =>
      let k := split (length l) in
      node (mth_aux f (take k l)) (mth_aux f (drop k l))
  end.

Definition mth (l : list A) : A := mth_aux (length l) l.

(** The pairs [node] is applied to when [mth l] is computed. *)
Fixpoint mth_pairs_aux (fuel : nat) (l : list A) : list (A * A) :=
  match l, fuel with
  | [], _ | [_], _ | _, O => []
  | _, S f =>
      let k := split (length l) in
      (mth (take k l), mth (drop k l))
        :: mth_pairs_aux f (take k l) ++ mth_pairs_aux f (drop k l)
  end.

Definition mth_pairs (l : list A) : list (A * A) := mth_pairs_aux (length l) l.

(** [PATH(m, D)], from the leaf to the root. *)
Fixpoint path_aux (fuel : nat) (m : nat) (l : list A) : list A :=
  match l, fuel with
  | [], _ | [_], _ | _, O => []
  | _, S f =>
      let k := split (length l) in
      if decide (m < k)
      then path_aux f m (take k l) ++ [mth (drop k l)]
      else path_aux f (m - k) (drop k l) ++ [mth (take k l)]
  end.

Definition path (m : nat) (l : list A) : list A := path_aux (length l) m l.

(** Recomputes the root of a tree of [n] leaves from the leaf of index [m] and
    an audit path; the second component is the unread part of the path.  Only
    siblings that satisfy [chk] are accepted. *)
Fixpoint path_root (chk : A → bool) (fuel m n : nat) (leaf : A) (p : list A)
  : option (A * list A) :=
  if decide (n = 1) then Some (leaf, p) else
  match fuel with
  | O => None
  | S f =>
      let k := split n in
      if decide (m < k) then
        '(l, rest) ← path_root chk f m k leaf p;
        match rest with
        | h :: rest' => if chk h then Some (node l h, rest') else None
        | [] => None
        end
      else
        '(r, rest) ← path_root chk f (m - k) (n - k) leaf p;
        match rest with
        | h :: rest' => if chk h then Some (node h r, rest') else None
        | [] => None
        end
  end.

(** The pairs [path_root] hashes. *)
Fixpoint path_pairs (chk : A → bool) (fuel m n : nat) (leaf : A) (p : list A) : list (A * A) :=
  if decide (n = 1) then [] else
  match fuel with
  | O => []
  | S f =>
      let k := split n in
      if decide (m < k) then
        match path_root chk f m k leaf p with
        | Some (l, h :: _) => if chk h then [(l, h)] else []
        | _ => []
        end
          ++ path_pairs chk f m k leaf p
      else
        match path_root chk f (m - k) (n - k) leaf p with
        | Some (r, h :: _) => if chk h then [(h, r)] else []
        | _ => []
        end
          ++ path_pairs chk f (m - k) (n - k) leaf p
  end.

(** [SUBPROOF(m, D, b)]. *)
Fixpoint subproof_aux (fuel : nat) (m : nat) (l : list A) (b : bool) : list A :=
  if decide (m = length l) then (if b then [] else [mth l]) else
  match fuel with
  | O => []
  | S f =>
      let k := split (length l) in
      if decide (m ≤ k)
      then subproof_aux f m (take k l) b ++ [mth (drop k l)]
      else subproof_aux f (m - k) (drop k l) false ++ [mth (take k l)]
  end.

Definition subproof (m : nat) (l : list A) (b : bool) : list A :=
  subproof_aux (length l) m l b.

(** Recomputes the old and the new root from a consistency proof; the unread
    part of the proof is the third component. *)
Fixpoint consistency_roots (fuel m n : nat) (b : bool) (old : A) (proof : list A)
  : option (A * A * list A) :=
  if decide (m = n) then
    (if b then Some (old, old, proof)
     else match proof with h :: rest => Some (h, h, rest) | [] => None end)
  else
  match fuel with
  | O => None
  | S f =>
      let k := split n in
      if decide (m ≤ k) then
        '(o, w, rest) ← consistency_roots f m k b old proof;
        match rest with h :: rest' => Some (o, node w h, rest') | [] => None end
      else
        '(o, w, rest) ← consistency_roots f (m - k) (n - k) false old proof;
        match rest with h :: rest' => Some (node h o, node h w, rest') | [] => None end
  end.

(** The pairs hashed on the side of the new root. *)
Fixpoint consistency_pairs (fuel m n : nat) (b : bool) (old : A) (proof : list A)
  : list (A * A) :=
  if decide (m = n) then [] else
  match fuel with
  | O => []
  | S f =>
      let k := split n in
      if decide (m ≤ k) then
        match consistency_roots f m k b old proof with
        | Some (_, w, h :: _) => [(w, h)]
        | _ => []
        end ++ consistency_pairs f m k b old proof
      else
        match consistency_roots f (m - k) (n - k) false old proof with
        | Some (_, w, h :: _) => [(h, w)]
        | _ => []
        end ++ consistency_pairs f (m - k) (n - k) false old proof
  end.

(** The check of RFC 6962: both recomputed roots are the expected ones and
    the proof is used up. *)
Definition consistency_ok (eqb : A → A → bool) (m n : nat) (old new : A) (proof : list A) : bool :=
  match consistency_roots n m n true old proof with
  | Some (o, w, []) => eqb o old && eqb w new
  | _ => false
  end.

End mth.

(** ** The split point *)

Lemma split_spec n : 2 ≤ n → 1 ≤ split n < n ∧ n ≤ 2 * split n.
Proof.
  intros Hn. unfold split. pose proof (Nat.log2_spec (n - 1)) as H.
  rewrite Nat.pow_succ_r' in H. specialize (H ltac:(lia)).
  pose proof (Nat.pow_nonzero 2 (Nat.log2 (n - 1)) ltac:(lia)). lia.
Qed.

Lemma split_unique n j : 2 ^ j < n ≤ 2 ^ S j → split n = 2 ^ j.
Proof.
  intros H. unfold split. f_equal. rewrite Nat.pow_succ_r' in H.
  apply Nat.log2_unique' with (c := n - 1 - 2 ^ j); lia.
Qed.

Lemma split_pow j : split (2 ^ S j) = 2 ^ j.
Proof.
  apply split_unique. rewrite Nat.pow_succ_r'.
  pose proof (Nat.pow_nonzero 2 j ltac:(lia)). lia.
Qed.

(** Both halves of a tree of at most [2 ^ S j] leaves have at most [2 ^ j]. *)
Lemma split_half j n : 2 ≤ n ≤ 2 ^ S j → split n ≤ 2 ^ j ∧ n - split n ≤ 2 ^ j.
Proof.
  intros Hn. pose proof (split_spec n ltac:(lia)). rewrite Nat.pow_succ_r' in Hn.
  split; [|lia]. unfold split. apply Nat.pow_le_mono_r; [lia|].
  apply Nat.lt_succ_r, Nat.log2_lt_pow2; [lia|]. rewrite Nat.pow_succ_r'. lia.
Qed.

Ltac split_bounds n := pose proof (split_spec n ltac:(lia)).

Lemma split_ind (P : nat → Prop) :
  P 1 →
  (∀ n, 2 ≤ n → P (split n) → P (n - split n) → P n) →
  ∀ n, 1 ≤ n → P n.
Proof.
  intros H1 HS n. induction (lt_wf n) as [n _ IH]. intros Hn.
  destruct (decide (n = 1)) as [->|]; [done|]. split_bounds n.
  apply HS; [lia|apply IH; lia..].
Qed.

Lemma list_split_ind {A} (P : list A → Prop) :
  (∀ x, P [x]) →
  (∀ l, 2 ≤ length l → P (take (split (length l)) l) → P (drop (split (length l)) l) → P l) →
  ∀ l, l ≠ [] → P l.
Proof.
  intros H1 HS l Hl.
  assert (1 ≤ length l) as Hn by (destruct l; simpl; [done|lia]). clear Hl.
  remember (length l) as n eqn:E. revert l E. induction n as [n IH] using lt_wf_ind.
  intros l ->. destruct (decide (length l = 1)) as [Hone|].
  { destruct l as [|x [|]]; simplify_eq/=; [apply H1]. }
  split_bounds (length l).
  apply HS; [lia| |]; (eapply IH; [| |reflexivity]);
    rewrite ?length_take, ?length_drop; lia.
Qed.

(** ** Unfolding equations *)

Section lemmas.
Context {A : Type} (node : A → A → A) (empty : A).
Local Abbreviation mth := (mth node empty).
Local Abbreviation path := (path node empty).
Local Abbreviation subproof := (subproof node empty).
Local Abbreviation mth_pairs := (mth_pairs node empty).

Lemma length2 (l : list A) : 2 ≤ length l → ∃ x y r, l = x :: y :: r.
Proof. destruct l as [|x [|y r]]; simpl; intros; try lia. by eexists _, _, _. Qed.

(** Fuel is irrelevant once it covers the list: the induction shared by the
    fuelled functions of this file; [t] exposes one recursive step. *)
Local Ltac fuel_irrelevant t :=
  let f := fresh "f" in let IH := fresh "IH" in
  intros f; induction f as [|f IH]; intros g l Hf Hg;
  [ destruct l; [by destruct g|simpl in Hf; lia] | ];
  destruct (decide (2 ≤ length l)) as [H2|];
  [ | destruct l as [|? [|]]; simpl in *; [by destruct g|by destruct g|lia] ];
  destruct g as [|g]; [lia|]; split_bounds (length l);
  destruct (length2 l H2) as (x & y & r & ->); t;
  rewrite !(IH g) by (rewrite ?length_take, ?length_drop; simpl in *; lia); done.

Lemma mth_aux_fuel f g l :
  length l ≤ f → length l ≤ g → mth_aux node empty f l = mth_aux node empty g l.
Proof.
  revert f g l. fuel_irrelevant ltac:(cbn [mth_aux]).
Qed.

Lemma mth_unfold l :
  2 ≤ length l →
  mth l = node (mth (take (split (length l)) l)) (mth (drop (split (length l)) l)).
Proof.
  intros H2. split_bounds (length l). unfold Rfc6962.mth.
  destruct (length l) as [|n] eqn:E; [lia|].
  destruct (length2 l ltac:(lia)) as (x & y & r & ->). cbn [mth_aux].
  rewrite E. f_equal; apply mth_aux_fuel; rewrite ?length_take, ?length_drop; simpl in *; lia.
Qed.

Lemma mth_singleton x : mth [x] = x.
Proof. done. Qed.

Lemma mth_pairs_aux_fuel f g l :
  length l ≤ f → length l ≤ g → mth_pairs_aux node empty f l = mth_pairs_aux node empty g l.
Proof.
  revert f g l. fuel_irrelevant ltac:(cbn [mth_pairs_aux]).
Qed.

Lemma mth_pairs_unfold l :
  2 ≤ length l →
  mth_pairs l =
    (mth (take (split (length l)) l), mth (drop (split (length l)) l))
      :: mth_pairs (take (split (length l)) l) ++ mth_pairs (drop (split (length l)) l).
Proof.
  intros H2. split_bounds (length l). unfold Rfc6962.mth_pairs.
  destruct (length l) as [|n] eqn:E; [lia|].
  destruct (length2 l ltac:(lia)) as (x & y & r & ->). cbn [mth_pairs_aux].
  rewrite E. f_equal.
  f_equal; apply mth_pairs_aux_fuel; rewrite ?length_take, ?length_drop; simpl in *; lia.
Qed.

Lemma path_aux_fuel f g m l :
  length l ≤ f → length l ≤ g → path_aux node empty f m l = path_aux node empty g m l.
Proof.
  intros Hf Hg. revert m. revert f g l Hf Hg.
  fuel_irrelevant ltac:(intros m; cbn [path_aux]; case_decide).
Qed.

Lemma path_unfold m l :
  2 ≤ length l →
  path m l =
    let k := split (length l) in
    if decide (m < k) then path m (take k l) ++ [mth (drop k l)]
    else path (m - k) (drop k l) ++ [mth (take k l)].
Proof.
  intros H2. split_bounds (length l). unfold Rfc6962.path. cbv zeta.
  destruct (length l) as [|n] eqn:E; [lia|].
  destruct (length2 l ltac:(lia)) as (x & y & r & ->). cbn [path_aux].
  rewrite E. case_decide; f_equal; apply path_aux_fuel;
    rewrite ?length_take, ?length_drop; simpl in *; lia.
Qed.

Lemma path_singleton m x : path m [x] = [].
Proof. done. Qed.

Lemma subproof_aux_fuel f g m l b :
  1 ≤ length l → length l ≤ f → length l ≤ g → m ≤ length l → 1 ≤ m →
  subproof_aux node empty f m l b = subproof_aux node empty g m l b.
Proof.
  revert g m l b. induction f as [|f IH]; intros g m l b H1 Hf Hg Hm Hm1; [lia|].
  destruct g as [|g]; [lia|]. cbn [subproof_aux].
  case_decide; [done|]. split_bounds (length l).
  case_decide; f_equal; apply IH; rewrite ?length_take, ?length_drop; lia.
Qed.

Lemma subproof_unfold m l b :
  1 ≤ m < length l →
  subproof m l b =
    let k := split (length l) in
    if decide (m ≤ k) then subproof m (take k l) b ++ [mth (drop k l)]
    else subproof (m - k) (drop k l) false ++ [mth (take k l)].
Proof.
  intros Hm. unfold Rfc6962.subproof. cbv zeta. split_bounds (length l).
  destruct (length l) as [|n] eqn:E; [lia|].
  cbn [subproof_aux]. rewrite E, decide_False by lia.
  case_decide; f_equal; apply subproof_aux_fuel; rewrite ?length_take, ?length_drop; lia.
Qed.

Lemma subproof_full l b : subproof (length l) l b = if b then [] else [mth l].
Proof. unfold Rfc6962.subproof. destruct (length l) eqn:E; simpl; by rewrite E, decide_True. Qed.

(** A complete tree. *)
Lemma mth_pow j (l1 l2 : list A) :
  length l1 = 2 ^ j → 1 ≤ length l2 ≤ 2 ^ j → mth (l1 ++ l2) = node (mth l1) (mth l2).
Proof.
  intros H1 H2. pose proof (Nat.pow_nonzero 2 j ltac:(lia)).
  rewrite mth_unfold by (rewrite length_app; lia).
  rewrite (split_unique _ j) by (rewrite length_app, Nat.pow_succ_r'; lia).
  by rewrite <- H1, take_app_length, drop_app_length.
Qed.

(** ** Length of a path *)

Lemma path_length j m l : length l ≤ 2 ^ j → length (path m l) ≤ j.
Proof.
  revert m l. induction j as [|j IH]; intros m l Hl.
  { simpl in Hl. destruct l as [|x [|]]; simpl in *; lia. }
  destruct (decide (2 ≤ length l)) as [H2|].
  2: { destruct l as [|x [|]]; simpl in *; lia. }
  split_bounds (length l). rewrite path_unfold by done. cbv zeta.
  destruct (split_half j (length l)) as [Hk Hk']; [lia|].
  case_decide; rewrite length_app; simpl;
    (eapply Nat.le_trans; [apply Nat.add_le_mono_r, IH|]);
    rewrite ?length_take, ?length_drop; lia.
Qed.

(** ** Audit paths lead to the tree head *)

Lemma path_root_complete chk fuel m l x rest :
  l !! m = Some x → length l ≤ 2 ^ fuel → Forall (λ h, chk h = true) (path m l) →
  path_root node chk fuel m (length l) x (path m l ++ rest) = Some (mth l, rest).
Proof.
  revert m l rest. induction fuel as [|f IH]; intros m l rest Hx Hf Hchk;
    pose proof (lookup_lt_Some _ _ _ Hx) as Hm; cbn [path_root]; (case_decide as E1;
    [destruct l as [|y [|]]; simplify_eq/=; destruct m; [|lia]; by simplify_eq/=|]).
  { simpl in Hf. lia. }
  split_bounds (length l). destruct (split_half f (length l)) as [Hk1 Hk2]; [lia|].
  rewrite path_unfold in Hchk |- * by lia. cbv zeta in Hchk |- *.
  set (k := split (length l)) in *.
  rewrite (mth_unfold l) by lia. fold k.
  case_decide as Ek; apply Forall_app in Hchk as [Hc1 Hc2]; apply Forall_inv in Hc2;
    rewrite <- app_assoc.
  - pose proof (IH m (take k l) ([mth (drop k l)] ++ rest)) as IH1.
    rewrite length_take_le, lookup_take_lt in IH1 by lia. rewrite IH1 by (done || lia).
    simpl. by rewrite Hc2.
  - pose proof (IH (m - k) (drop k l) ([mth (take k l)] ++ rest)) as IH1.
    rewrite length_drop, lookup_drop in IH1. replace (k + (m - k)) with m in IH1 by lia.
    rewrite IH1 by (done || lia). simpl. by rewrite Hc2.
Qed.

(** ** Consistency proofs recompute both roots *)

Lemma take_take_le (l : list A) m k : m ≤ k → take m (take k l) = take m l.
Proof. intros. rewrite take_take. f_equal. lia. Qed.

(** With [b = false] the old root is not read. *)
Lemma consistency_roots_old f m n o1 o2 p :
  consistency_roots node f m n false o1 p = consistency_roots node f m n false o2 p.
Proof.
  revert m n. induction f as [|f IH]; intros; simpl; repeat case_decide; try done;
    by rewrite IH.
Qed.

(** A prefix that reaches beyond the split point. *)
Lemma mth_take_split m l :
  2 ≤ length l → split (length l) < m ≤ length l →
  mth (take m l) =
    node (mth (take (split (length l)) l))
         (mth (take (m - split (length l)) (drop (split (length l)) l))).
Proof.
  intros H2 Hm. split_bounds (length l). set (k := split (length l)) in *.
  assert (take m l = take k l ++ take (m - k) (drop k l)) as ->.
  { rewrite <- (take_drop k l) at 1. rewrite take_app_ge; rewrite length_take_le; try lia. done. }
  assert (2 ^ Nat.log2 (length l - 1) = k) as Hj by done.
  eapply mth_pow with (j := Nat.log2 (length l - 1));
    rewrite ?length_take, ?length_drop, ?Hj; lia.
Qed.

Lemma consistency_roots_complete fuel m l b rest :
  1 ≤ m ≤ length l → length l ≤ fuel →
  consistency_roots node fuel m (length l) b (mth (take m l)) (subproof m l b ++ rest)
  = Some (mth (take m l), mth l, rest).
Proof.
  revert m l b rest. induction fuel as [|f IH]; intros m l b rest Hm Hf; [lia|].
  cbn [consistency_roots]. case_decide as E.
  { subst m. rewrite subproof_full, take_ge by lia. by destruct b. }
  split_bounds (length l). set (k := split (length l)) in *.
  rewrite subproof_unfold by lia. cbv zeta. fold k.
  case_decide as Ek.
  - pose proof (IH m (take k l) b (mth (drop k l) :: rest)) as IH1.
    rewrite length_take_le, take_take_le in IH1 by lia.
    rewrite <- app_assoc. simpl. rewrite IH1 by lia. simpl.
    by rewrite (mth_unfold l) by lia.
  - pose proof (IH (m - k) (drop k l) false (mth (take k l) :: rest)) as IH1.
    rewrite length_drop in IH1. rewrite <- app_assoc. simpl.
    erewrite consistency_roots_old, IH1 by lia. simpl.
    rewrite (mth_unfold l), (mth_take_split m l) by lia. done.
Qed.

(** ** Soundness, up to a collision of [node] among the pairs hashed *)

(** Two pairs, one hashed by each side, that differ and have the same image. *)
Definition collision (ps qs : list (A * A)) : Prop :=
  ∃ p q, p ∈ ps ∧ q ∈ qs ∧ p ≠ q ∧ node p.1 p.2 = node q.1 q.2.

Lemma collision_mono ps ps' qs qs' :
  ps ⊆ ps' → qs ⊆ qs' → collision ps qs → collision ps' qs'.
Proof. intros Hp Hq (p & q & ? & ? & ?). exists p, q. auto. Qed.

(** Either the two pairs agree or they are a collision. *)
Lemma node_inj_or `{EqDecision A} a b c d ps qs :
  node a b = node c d → (a, b) ∈ ps → (c, d) ∈ qs →
  (a = c ∧ b = d) ∨ collision ps qs.
Proof.
  intros E Hp Hq. destruct (decide ((a, b) = (c, d))) as [?|Hne].
  - left. by simplify_eq.
  - right. exists (a, b), (c, d). auto.
Qed.

(** Two lists of leaves of the same length and the same tree head. *)
Lemma mth_inj `{EqDecision A} (l1 l2 : list A) :
  length l1 = length l2 → l1 ≠ [] → mth l1 = mth l2 →
  l1 = l2 ∨ collision (mth_pairs l1) (mth_pairs l2).
Proof.
  intros Hlen Hne. revert l2 Hlen. revert l1 Hne.
  apply (list_split_ind (λ l1, ∀ l2, length l1 = length l2 → mth l1 = mth l2 → _));
    [intros x l2 Hlen E|intros l1 H2 IHl IHr l2 Hlen E].
  { destruct l2 as [|y [|]]; simplify_eq/=. left. by unfold Rfc6962.mth in E; simpl in E; subst. }
  split_bounds (length l1). set (k := split (length l1)) in *.
  rewrite (mth_unfold l1), (mth_unfold l2) in E by lia. rewrite <- Hlen in E. fold k in E.
  rewrite (mth_pairs_unfold l1), (mth_pairs_unfold l2) by lia. rewrite <- Hlen. fold k.
  destruct (node_inj_or _ _ _ _
    ((mth (take k l1), mth (drop k l1)) :: mth_pairs (take k l1) ++ mth_pairs (drop k l1))
    ((mth (take k l2), mth (drop k l2)) :: mth_pairs (take k l2) ++ mth_pairs (drop k l2))
    E ltac:(set_solver) ltac:(set_solver)) as [[El Er]|]; [|by right].
  destruct (IHl (take k l2)) as [Hl|Hl]; [rewrite !length_take; lia|done| |
    right; revert Hl; apply collision_mono; set_solver].
  destruct (IHr (drop k l2)) as [Hr|Hr]; [rewrite !length_drop; lia|done| |
    right; revert Hr; apply collision_mono; set_solver].
  left. rewrite <- (take_drop k l1), <- (take_drop k l2). congruence.
Qed.

(** A path that leads to the tree head of [l] starts from a leaf of [l]. *)
Lemma path_root_sound `{EqDecision A} chk fuel m l leaf p rest :
  m < length l → length l ≤ 2 ^ fuel →
  path_root node chk fuel m (length l) leaf p = Some (mth l, rest) →
  l !! m = Some leaf
  ∨ collision (path_pairs node chk fuel m (length l) leaf p) (mth_pairs l).
Proof.
  revert m l p rest. induction fuel as [|f IH]; intros m l p rest Hm Hf;
    cbn [path_root path_pairs]; (case_decide as E1;
    [destruct l as [|x [|]]; simplify_eq/=; destruct m; [|lia]; naive_solver|]).
  { simpl in Hf. lia. }
  split_bounds (length l). destruct (split_half f (length l)) as [Hk1 Hk2]; [lia|].
  set (k := split (length l)) in *.
  case_decide as Ek; intros Hc; apply bind_Some in Hc as ([w r] & Hc & Hr);
    (destruct r as [|h r]; [done|]); (destruct (chk h) eqn:Hch; [|done]);
    injection Hr as Hr <-; rewrite Hc, Hch;
    rewrite (mth_unfold l) in Hr by lia; fold k in Hr; rewrite (mth_pairs_unfold l) by lia; fold k.
  - destruct (node_inj_or w h _ _ ([(w, h)] ++ path_pairs node chk f m k leaf p)
      ((mth (take k l), mth (drop k l)) :: mth_pairs (take k l) ++ mth_pairs (drop k l)) Hr)
      as [[-> ->]|]; [set_solver|set_solver| |by right].
    pose proof (IH m (take k l) p (mth (drop k l) :: r)) as IH1.
    rewrite length_take_le, lookup_take_lt in IH1 by lia.
    destruct IH1 as [?|Hcol]; [lia..|done|by left|].
    right. revert Hcol. apply collision_mono; set_solver.
  - destruct (node_inj_or h w _ _ ([(h, w)] ++ path_pairs node chk f (m - k) (length l - k) leaf p)
      ((mth (take k l), mth (drop k l)) :: mth_pairs (take k l) ++ mth_pairs (drop k l)) Hr)
      as [[-> ->]|]; [set_solver|set_solver| |by right].
    pose proof (IH (m - k) (drop k l) p (mth (take k l) :: r)) as IH1.
    rewrite length_drop, lookup_drop in IH1. replace (k + (m - k)) with m in IH1 by lia.
    destruct IH1 as [?|Hcol]; [lia..|done|by left|].
    right. revert Hcol. apply collision_mono; set_solver.
Qed.

(** A consistency check that ends in the tree head of [l] started from the
    tree head of the first [m] leaves of [l]. *)
Lemma consistency_roots_sound `{EqDecision A} fuel m l b old proof o rest :
  1 ≤ m ≤ length l → length l ≤ fuel →
  consistency_roots node fuel m (length l) b old proof = Some (o, mth l, rest) →
  o = mth (take m l)
  ∨ collision (consistency_pairs node fuel m (length l) b old proof) (mth_pairs l).
Proof.
  revert m l b proof o rest. induction fuel as [|f IH]; intros m l b proof o rest Hm Hf; [lia|].
  cbn [consistency_roots consistency_pairs]. case_decide as E.
  { subst m. rewrite take_ge by lia. destruct b; [naive_solver|].
    destruct proof; naive_solver. }
  split_bounds (length l). set (k := split (length l)) in *.
  assert (2 ^ Nat.log2 (length l - 1) = k) as Hj by done.
  case_decide as Ek; intros Hc.
  - apply bind_Some in Hc as ([[o' w] r] & Hc & Hr).
    destruct r as [|h r]; [done|]. injection Hr as <- Hr <-. rewrite Hc.
    rewrite (mth_unfold l) in Hr by lia. fold k in Hr. rewrite (mth_pairs_unfold l) by lia. fold k.
    destruct (node_inj_or w h _ _ ([(w, h)] ++ consistency_pairs node f m k b old proof)
      ((mth (take k l), mth (drop k l)) :: mth_pairs (take k l) ++ mth_pairs (drop k l)) Hr)
      as [[-> ->]|]; [set_solver|set_solver| |by right].
    pose proof (IH m (take k l) b proof o' (mth (drop k l) :: r)) as IH1.
    rewrite length_take_le, take_take_le in IH1 by lia.
    destruct IH1 as [->|Hcol]; [lia..|done|by left|].
    right. revert Hcol. apply collision_mono; set_solver.
  - apply bind_Some in Hc as ([[o' w] r] & Hc & Hr).
    destruct r as [|h r]; [done|]. injection Hr as <- Hr <-. rewrite Hc.
    rewrite (mth_unfold l) in Hr by lia. fold k in Hr. rewrite (mth_pairs_unfold l) by lia. fold k.
    destruct (node_inj_or h w _ _
      ([(h, w)] ++ consistency_pairs node f (m - k) (length l - k) false old proof)
      ((mth (take k l), mth (drop k l)) :: mth_pairs (take k l) ++ mth_pairs (drop k l)) Hr)
      as [[-> ->]|]; [set_solver|set_solver| |by right].
    pose proof (IH (m - k) (drop k l) false proof o' (mth (take k l) :: r)) as IH1.
    rewrite length_drop in IH1.
    destruct IH1 as [->|Hcol]; [lia..|done| |].
    2: { right. revert Hcol. apply collision_mono; set_solver. }
    left. symmetry. apply mth_take_split; lia.
Qed.

(** ** A property of every value hashed *)

Definition both (P : A → Prop) (q : A * A) : Prop := P q.1 ∧ P q.2.

Lemma mth_all (P : A → Prop) l :
  P empty → (∀ a b, P (node a b)) → Forall P l → P (mth l).
Proof.
  intros He Hn Hl. destruct l as [|x [|y r]]; [done|by apply Forall_inv in Hl|].
  rewrite mth_unfold by (simpl; lia). apply Hn.
Qed.

Lemma mth_pairs_all (P : A → Prop) l :
  P empty → (∀ a b, P (node a b)) → Forall P l → Forall (both P) (mth_pairs l).
Proof.
  intros He Hn. destruct (decide (length l = 0)) as [?|Hne]; [by destruct l|].
  assert (l ≠ []) as Hl by (by destruct l). clear Hne. revert l Hl.
  apply (list_split_ind (λ l, Forall P l → _)); [constructor|].
  intros l H2 IH1 IH2 Hl. rewrite mth_pairs_unfold by done.
  pose proof (Forall_take P (split (length l)) l Hl).
  pose proof (Forall_drop P (split (length l)) l Hl).
  constructor; [split; simpl; by apply mth_all|]. apply Forall_app. auto.
Qed.

Lemma path_root_all (P : A → Prop) chk fuel m n leaf p d rest :
  (∀ a b, P (node a b)) → P leaf →
  path_root node chk fuel m n leaf p = Some (d, rest) → P d.
Proof.
  intros Hn Hl. destruct fuel as [|f]; simpl; case_decide; [naive_solver..|].
  case_decide; intros ([w [|h r]] & _ & Hr)%bind_Some; try done; destruct (chk h); naive_solver.
Qed.

Lemma path_pairs_all (P : A → Prop) chk fuel m n leaf p :
  (∀ a b, P (node a b)) → P leaf → (∀ h, chk h = true → P h) →
  Forall (both P) (path_pairs node chk fuel m n leaf p).
Proof.
  intros Hn Hl Hp. revert m n. induction fuel as [|f IH]; intros m n; simpl; case_decide;
    try by constructor.
  case_decide; (apply Forall_app; split; [|apply IH]);
    destruct (path_root _ _ f _ _ _ _) as [[w [|h r]]|] eqn:E;
    [apply Forall_nil_2| |apply Forall_nil_2|apply Forall_nil_2| |apply Forall_nil_2];
    (destruct (chk h) eqn:Hch; [|apply Forall_nil_2]);
    (apply Forall_singleton; split; simpl; (by apply Hp) || (by eapply (path_root_all P))).
Qed.

End lemmas.
