(* ===== verification/Merkle.v ===== *)
(** * Merkle trees

    Models [src/internal/merkle/merkle.go] and [profile.go].

    A [digest] is a list of 32 bytes.  A function that indexes an array, calls
    [panic] or may fail to return gives an [option]: [None] is a panic, or that
    the call has not returned within the fuel, which bounds both the depth of a
    recursion and the iterations of the loop of [largestPowerOfTwoLessThan].
    [int] is 64 bits wide and wraps. *)

From S2P Require Import Prelude TrustErr CryptoSuite Model TrustCrypto Cborx KeyDescriptor.
From S2P Require Import ModelSuite Rfc6962.

Module merkle.

Definition DigestSize : Z := 32.

(** [type digest = [DigestSize]byte] *)
Abbreviation digest := (list Byte.byte).
Definition zero_digest : digest := replicate 32 x00.

Record Profile := mkProfile {
  suite : cryptosuite.ID;
  algorithm : string;
  hashAlg : string;
  hashKind : Z;
  leafPrefix : byte;
  nodePrefix : byte;
  digestBytes : Z }.

Definition hashKindSHA256 : Z := 1.
Definition hashKindSM3 : Z := 2.

Definition ProfileForAlgorithm (suiteID : cryptosuite.ID) (treeAlgorithm : string)
  : result Profile :=
  s ← cryptosuite.RequireKnown suiteID;
  let m := cryptosuite.Merkle s in
  if negb (seqb treeAlgorithm (cryptosuite.MerkleAlgorithm m))
  then Err (ErrorsNew "merkle: tree algorithm %q does not match suite %s profile %q") else
  factory ← trustcrypto.HashFactoryForSuite suiteID
              (cryptosuite.HashAlgorithm (cryptosuite.MerkleHash m));
  if negb (cryptosuite.DigestBytes (cryptosuite.MerkleHash m) =? DigestSize)
     || negb (trustcrypto.HashFactory_Size factory =? DigestSize)
  then Err (ErrorsNew "merkle: suite %s digest size %d is unsupported") else
  if bool_decide (cryptosuite.LeafPrefix m = cryptosuite.NodePrefix m)
  then Err (ErrorsNew "merkle: suite %s has ambiguous domain prefixes") else
  kind ←
    (if seqb (trustcrypto.HashFactory_Algorithm factory) cryptosuite.HashSHA256
     then Ok hashKindSHA256
     else if seqb (trustcrypto.HashFactory_Algorithm factory) cryptosuite.HashSM3
     then Ok hashKindSM3
     else Err (ErrorsNew "merkle: suite %s uses unsupported hash %q"));
  Ok {| suite := suiteID;
        algorithm := treeAlgorithm;
        hashAlg := trustcrypto.HashFactory_Algorithm factory;
        hashKind := kind;
        leafPrefix := cryptosuite.LeafPrefix m;
        nodePrefix := cryptosuite.NodePrefix m;
        digestBytes := cryptosuite.DigestBytes (cryptosuite.MerkleHash m) |}.

Definition ProfileForSuite (suiteID : cryptosuite.ID) : result Profile :=
  s ← cryptosuite.RequireKnown suiteID;
  ProfileForAlgorithm suiteID (cryptosuite.MerkleAlgorithm (cryptosuite.Merkle s)).

(** [mustProfile(cryptosuite.INTLV1)]; [None] is the panic. *)
Definition defaultProfile : option Profile :=
  match ProfileForSuite cryptosuite.INTLV1 with Ok p => Some p | Err _ => None end.

Definition Size (p : Profile) : Z := digestBytes p.

Definition valid (p : Profile) : bool :=
  negb (seqb (suite p) "") && negb (seqb (algorithm p) "") && negb (seqb (hashAlg p) "")
  && negb (hashKind p =? 0) && (digestBytes p =? DigestSize)
  && negb (bool_decide (leafPrefix p = nodePrefix p)).

(** [copy] into a zeroed array of 32 bytes. *)
Definition bytesToHash (inp : bytes) : digest := take 32 (inp ++ zero_digest).
Definition cloneHash (inp : digest) : bytes := take 32 (inp ++ zero_digest).

Fixpoint largestPowerOfTwoLessThan_loop (fuel : nat) (k n : Z) : option Z :=
  match fuel with
  | O => None
  | S f =>
      if i64 (Z.shiftl k 1) <? n
      then largestPowerOfTwoLessThan_loop f (i64 (Z.shiftl k 1)) n
      else Some k
  end.

Definition largestPowerOfTwoLessThan (fuel : nat) (n : Z) : option Z :=
  if n <? 2 then Some 0 else largestPowerOfTwoLessThan_loop fuel 1 n.

Fixpoint merklePathLen (fuel : nat) (n : Z) : option Z :=
  if n <=? 1 then Some 0 else
  match fuel with
  | O => None
  | S f =>
      k ← largestPowerOfTwoLessThan fuel n;
      r ← merklePathLen f k;
      Some (i64 (1 + r))
  end.

Fixpoint rangeLevel_loop (fuel : nat) (width size level : Z) : option Z :=
  match fuel with
  | O => None
  | S f =>
      if width <? size
      then rangeLevel_loop f (i64 (Z.shiftl width 1)) size (u64 (level + 1))
      else Some level
  end.

Definition rangeLevel (fuel : nat) (size : Z) : option Z :=
  if size <=? 1 then Some 0 else rangeLevel_loop fuel 1 size 0.

Record nodeRange := mkRange { start : Z; size : Z }.

#[global] Instance nodeRange_eq_dec : EqDecision nodeRange.
Proof. solve_decision. Defined.
#[global] Instance nodeRange_countable : Countable nodeRange.
Proof.
  refine (inj_countable' (λ r, (start r, size r)) (λ p, mkRange p.1 p.2) _).
  by intros [].
Defined.

Record Tree := mkTree {
  tree_profile : Profile;
  leafHashes : list digest;
  root : digest;
  nodeIndex : gmap nodeRange Z;
  nodeHashes : list digest }.

Record Leaf := mkLeaf { Leaf_Index : Z; Leaf_Hash : bytes }.

(** [node] and [CompactNode] differ only in how the hash is stored. *)
Record Node := mkNode {
  Node_Level : Z; Node_StartIndex : Z; Node_Width : Z; Node_Hash : bytes }.

(** [l[i]] with an [int] index; [None] is the out-of-range panic. *)
Definition index {A} (l : list A) (i : Z) : option A :=
  if i <? 0 then None else l !! Z.to_nat i.

Section ops.
Context `{HashLib}.

Definition hashBytes (p : Profile) (data : bytes) : option digest :=
  if hashKind p =? hashKindSHA256 then Some (sha256_Sum256 data) else
  if hashKind p =? hashKindSM3 then Some (sm3_Sum data) else
  None.

Definition hashNode (p : Profile) (lft rgt : digest) : option digest :=
  hashBytes p (nodePrefix p :: lft ++ rgt).

(** ** Building *)

Definition build_state : Type := gmap nodeRange Z * list digest.

Fixpoint buildRange (fuel : nat) (p : Profile) (leaves : list digest)
    (st : build_state) (start size : Z) : option (digest * build_state) :=
  match fuel with
  | O => None
  | S f =>
      '(out, (nodeIndex, nodeHashes)) ←
        (if size =? 1 then
           out ← index leaves start;
           Some (out, st)
         else
           k ← largestPowerOfTwoLessThan fuel size;
           '(lft, st1) ← buildRange f p leaves st start k;
           '(rgt, st2) ← buildRange f p leaves st1 (i64 (start + k)) (i64 (size - k));
           out ← hashNode p lft rgt;
           Some (out, st2));
      Some (out, (<[mkRange start size := len nodeHashes]> nodeIndex, nodeHashes ++ [out]))
  end.

Definition buildFromLeafHashes (fuel : nat) (p : Profile) (leaves : list digest) : option Tree :=
  '(r, (nodeIndex, nodeHashes)) ← buildRange fuel p leaves (∅, []) 0 (len leaves);
  Some (mkTree p leaves r nodeIndex nodeHashes).

Definition hashLeafArray `{CborMode ServerRecord.t} (p : Profile) (record : ServerRecord.t)
  : option (result digest) :=
  match cborx.MarshalBuffer [leafPrefix p] record with
  | (_, Err e) => Some (Err e)
  | (buf, Ok _) => out ← hashBytes p buf; Some (Ok out)
  end.

(** The loop of [BuildForSuite] that hashes the records. *)
Fixpoint hashRecords `{CborMode ServerRecord.t, KeyDescriptorLib} (suiteID : cryptosuite.ID)
    (p : Profile) (records : list ServerRecord.t) : option (result (list digest)) :=
  match records with
  | [] => Some (Ok [])
  | r :: rest =>
      match modelsuite.Require_ suiteID (modelsuite.AnyServerRecord r) with
      | Err e => Some (Err (Errorf "merkle: record %d crypto_suite: %w" e))
      | Ok _ =>
          leaf ← hashLeafArray p r;
          match leaf with
          | Err e => Some (Err (Errorf "merkle: hash leaf %d: %w" e))
          | Ok h =>
              hs ← hashRecords suiteID p rest;
              Some (hs ← hs; Ok (h :: hs))
          end
      end
  end.

Definition BuildForSuite `{CborMode ServerRecord.t, KeyDescriptorLib} (fuel : nat)
    (suiteID : cryptosuite.ID) (treeAlgorithm : string) (records : list ServerRecord.t)
  : option (result Tree) :=
  match ProfileForAlgorithm suiteID treeAlgorithm with
  | Err e => Some (Err e)
  | Ok p =>
      if len records =? 0
      then Some (Err (ErrorsNew "merkle: cannot build empty tree")) else
      leaves ← hashRecords suiteID p records;
      match leaves with
      | Err e => Some (Err e)
      | Ok leaves => Ok <$> buildFromLeafHashes fuel p leaves
      end
  end.

Definition HashLeafForSuite `{CborMode ServerRecord.t, KeyDescriptorLib}
    (suiteID : cryptosuite.ID) (treeAlgorithm : string) (record : ServerRecord.t)
  : option (result bytes) :=
  match ProfileForAlgorithm suiteID treeAlgorithm with
  | Err e => Some (Err e)
  | Ok p =>
      match modelsuite.Require_ suiteID (modelsuite.AnyServerRecord record) with
      | Err e => Some (Err (Errorf "merkle: record crypto_suite: %w" e))
      | Ok _ =>
          leaf ← hashLeafArray p record;
          Some (leaf ← leaf; Ok (cloneHash leaf))
      end
  end.

(** The copy loop of the functions that take leaf hashes. *)
Fixpoint copyLeaves (p : Profile) (leaves : list bytes) : result (list digest) :=
  match leaves with
  | [] => Ok []
  | l :: rest =>
      if negb (len l =? Size p) then Err (ErrorsNew "merkle: leaf %d has size %d") else
      hs ← copyLeaves p rest;
      Ok (bytesToHash l :: hs)
  end.

Definition RootFromLeavesForSuite (fuel : nat) (suiteID : cryptosuite.ID)
    (treeAlgorithm : string) (leaves : list bytes) : option (result bytes) :=
  match ProfileForAlgorithm suiteID treeAlgorithm with
  | Err e => Some (Err e)
  | Ok p =>
      if len leaves =? 0 then Some (Err (ErrorsNew "merkle: empty leaves")) else
      match copyLeaves p leaves with
      | Err e => Some (Err e)
      | Ok copied =>
          tree ← buildFromLeafHashes fuel p copied;
          Some (Ok (cloneHash (root tree)))
      end
  end.

(** ** Reading a tree *)

Definition Root (t : Tree) : bytes := cloneHash (root t).

Definition out_of_range {A} : result A :=
  Err (ErrorsNew "merkle: leaf index out of range: %d").

(** [LeafHash] and [LeafHashView]: the view is not a copy. *)
Definition LeafHash (t : Tree) (i : Z) : option (result bytes) :=
  if (i <? 0) || (len (leafHashes t) <=? i) then Some out_of_range else
  h ← index (leafHashes t) i;
  Some (Ok (cloneHash h)).

Definition Leaves (t : Tree) : list Leaf :=
  imap (λ i h, mkLeaf (Z.of_nat i) (cloneHash h)) (leafHashes t).

(** [Nodes] and [CompactNodes]; the order of a Go map iteration is arbitrary,
    the order here is the one of [map_to_list]. *)
Definition Nodes (fuel : nat) (t : Tree) : option (list Node) :=
  mapM (λ '(r, i),
    level ← rangeLevel fuel (size r);
    h ← index (nodeHashes t) i;
    Some (mkNode level (u64 (start r)) (u64 (size r)) (cloneHash h)))
    (map_to_list (nodeIndex t)).

(** [t.nodeHashes[t.nodeIndex[r]]]: a missing key reads as index 0. *)
Definition nodeAt (t : Tree) (r : nodeRange) : option digest :=
  index (nodeHashes t) (default 0 (nodeIndex t !! r)).

Fixpoint appendAuditPath (fuel : nat) (t : Tree) (path : list digest) (start size i : Z)
  : option (list digest) :=
  if size =? 1 then Some path else
  match fuel with
  | O => None
  | S f =>
      k ← largestPowerOfTwoLessThan fuel size;
      if i <? k then
        path1 ← appendAuditPath f t path start k i;
        h ← nodeAt t (mkRange (i64 (start + k)) (i64 (size - k)));
        Some (path1 ++ [h])
      else
        path1 ← appendAuditPath f t path (i64 (start + k)) (i64 (size - k)) (i64 (i - k));
        h ← nodeAt t (mkRange start k);
        Some (path1 ++ [h])
  end.

Fixpoint appendAuditPathRanges (fuel : nat) (path : list nodeRange) (start size i : Z)
  : option (list nodeRange) :=
  if size =? 1 then Some path else
  match fuel with
  | O => None
  | S f =>
      k ← largestPowerOfTwoLessThan fuel size;
      if i <? k then
        path1 ← appendAuditPathRanges f path start k i;
        Some (path1 ++ [mkRange (i64 (start + k)) (i64 (size - k))])
      else
        path1 ← appendAuditPathRanges f path (i64 (start + k)) (i64 (size - k)) (i64 (i - k));
        Some (path1 ++ [mkRange start k])
  end.

(** The capacity [merklePathLen(len(t.leafHashes))] is computed first. *)
Definition auditPath (fuel : nat) (t : Tree) (i : Z) : option (list digest) :=
  _ ← merklePathLen fuel (len (leafHashes t));
  appendAuditPath fuel t [] 0 (len (leafHashes t)) i.

Definition Proof_ (fuel : nat) (t : Tree) (i : Z) : option (result (list bytes)) :=
  if (i <? 0) || (len (leafHashes t) <=? i) then Some out_of_range else
  path ← auditPath fuel t i;
  Some (Ok (map cloneHash path)).

Definition Proofs (fuel : nat) (t : Tree) : option (list (list bytes)) :=
  mapM (λ i, path ← auditPath fuel t (Z.of_nat i); Some (map cloneHash path))
    (seq 0 (length (leafHashes t))).

Definition ProofView (fuel : nat) (t : Tree) (i : Z) : option (result (list bytes)) :=
  if (i <? 0) || (len (leafHashes t) <=? i) then Some out_of_range else
  _ ← merklePathLen fuel (len (leafHashes t));
  ranges ← appendAuditPathRanges fuel [] 0 (len (leafHashes t)) i;
  Ok <$> mapM (nodeAt t) ranges.

Definition AuditPathFromLeavesForSuite (fuel : nat) (suiteID : cryptosuite.ID)
    (treeAlgorithm : string) (leaves : list bytes) (i : Z) : option (result (list bytes)) :=
  match ProfileForAlgorithm suiteID treeAlgorithm with
  | Err e => Some (Err e)
  | Ok p =>
      if len leaves =? 0 then Some (Err (ErrorsNew "merkle: empty leaves")) else
      if u64 (len leaves) <=? i
      then Some (Err (ErrorsNew "merkle: leaf index out of range: %d")) else
      match copyLeaves p leaves with
      | Err e => Some (Err e)
      | Ok copied =>
          tree ← buildFromLeafHashes fuel p copied;
          Proof_ fuel tree (i64 i)
      end
  end.

(** ** Verification *)

(** Returns the digest, the new [*pos] and the flag. *)
Fixpoint rebuild (fuel : nat) (p : Profile) (leafHash : bytes) (i treeSize : Z)
    (path : list bytes) (pos : Z) : option (digest * Z * bool) :=
  if treeSize =? 1 then Some (bytesToHash leafHash, pos, true) else
  match fuel with
  | O => None
  | S f =>
      k ← largestPowerOfTwoLessThan fuel treeSize;
      if i <? k then
        '(lft, pos1, ok) ← rebuild f p leafHash i k path pos;
        if negb ok || (len path <=? pos1) then Some (zero_digest, pos1, false) else
        rgt ← index path pos1;
        let pos2 := i64 (pos1 + 1) in
        if negb (len rgt =? Size p) then Some (zero_digest, pos2, false) else
        h ← hashNode p lft (bytesToHash rgt);
        Some (h, pos2, true)
      else
        '(rgt, pos1, ok) ← rebuild f p leafHash (i64 (i - k)) (i64 (treeSize - k)) path pos;
        if negb ok || (len path <=? pos1) then Some (zero_digest, pos1, false) else
        lft ← index path pos1;
        let pos2 := i64 (pos1 + 1) in
        if negb (len lft =? Size p) then Some (zero_digest, pos2, false) else
        h ← hashNode p (bytesToHash lft) rgt;
        Some (h, pos2, true)
  end.

Definition verifyWithProfile (fuel : nat) (p : Profile) (leafHash : bytes) (i treeSize : Z)
    (auditPath : list bytes) (root : bytes) : option bool :=
  if negb (len leafHash =? Size p) || negb (len root =? Size p)
     || (treeSize =? 0) || (treeSize <=? i)
  then Some false else
  '(got, pos, ok) ← rebuild fuel p leafHash (i64 i) (i64 treeSize) auditPath 0;
  if negb ok || negb (pos =? len auditPath) then Some false else
  Some (bytes_equal got root).

Definition Verify (fuel : nat) (leafHash : bytes) (i treeSize : Z) (auditPath : list bytes)
    (root : bytes) : option bool :=
  p ← defaultProfile;
  verifyWithProfile fuel p leafHash i treeSize auditPath root.

Definition VerifyForSuite (fuel : nat) (suiteID : cryptosuite.ID) (treeAlgorithm : string)
    (leafHash : bytes) (i treeSize : Z) (auditPath : list bytes) (root : bytes)
  : option (result bool) :=
  match ProfileForAlgorithm suiteID treeAlgorithm with
  | Err e => Some (Err e)
  | Ok p => Ok <$> verifyWithProfile fuel p leafHash i treeSize auditPath root
  end.

Definition HashNodeForSuite (suiteID : cryptosuite.ID) (treeAlgorithm : string)
    (lft rgt : bytes) : option (result bytes) :=
  match ProfileForAlgorithm suiteID treeAlgorithm with
  | Err e => Some (Err e)
  | Ok p =>
      if negb (len lft =? Size p)
      then Some (Err (ErrorsNew "merkle: left node has size %d")) else
      if negb (len rgt =? Size p)
      then Some (Err (ErrorsNew "merkle: right node has size %d")) else
      node ← hashNode p (bytesToHash lft) (bytesToHash rgt);
      Some (Ok (cloneHash node))
  end.

Definition EmptyRootForSuite (suiteID : cryptosuite.ID) (treeAlgorithm : string)
  : option (result bytes) :=
  match ProfileForAlgorithm suiteID treeAlgorithm with
  | Err e => Some (Err e)
  | Ok p => h ← hashBytes p []; Some (Ok (cloneHash h))
  end.

Definition HashLeafPayloadForSuite (suiteID : cryptosuite.ID) (treeAlgorithm : string)
    (payload : bytes) : option (result bytes) :=
  match ProfileForAlgorithm suiteID treeAlgorithm with
  | Err e => Some (Err e)
  | Ok p => h ← hashBytes p (leafPrefix p :: payload); Some (Ok (cloneHash h))
  end.

End ops.

End merkle.
