(* ===== verification/MerkleProofs.v ===== *)
(** * Correctness of the Merkle trees

    The tree head of [buildFromLeafHashes] is the RFC 6962 tree head, audit
    paths are the RFC 6962 paths, they verify (completeness), a path that
    verifies is for the leaf of the tree or exhibits a hash collision
    (soundness), verification returns for every tree size up to [2 ^ 62] and
    does not return above. *)

From S2P Require Import Prelude TrustErr CryptoSuite Model TrustCrypto Cborx KeyDescriptor.
From S2P Require Import Instances ModelSuite Rfc6962 Merkle.

Module merkle_proofs.
Import merkle.

(** ** Profiles *)

(** The hash a well-formed profile stands for. *)
Definition profile_hash `{HashLib} (p : Profile) (data : bytes) : digest :=
  if hashKind p =? hashKindSHA256 then sha256_Sum256 data else sm3_Sum data.

Definition profile_node `{HashLib} (p : Profile) (a b : digest) : digest :=
  profile_hash p (nodePrefix p :: a ++ b).

(** The tree head and the audit path of RFC 6962 with the profile's hash. *)
Definition MTH `{HashLib} (p : Profile) : list digest → digest :=
  mth (profile_node p) (profile_hash p []).
Definition PATH `{HashLib} (p : Profile) : nat → list digest → list digest :=
  path (profile_node p) (profile_hash p []).

Definition profile_wf (p : Profile) : Prop :=
  (hashKind p = hashKindSHA256 ∨ hashKind p = hashKindSM3) ∧
  digestBytes p = 32 ∧ leafPrefix p ≠ nodePrefix p.

Definition is_digest (h : bytes) : Prop := length h = 32%nat.

Lemma ProfileForAlgorithm_wf s a p : ProfileForAlgorithm s a = Ok p → profile_wf p.
Proof.
  unfold ProfileForAlgorithm. rewrite bind_Ok. intros (su & Hk & Hp).
  apply cryptosuite.RequireKnown_Ok in Hk as [[-> ->]|[-> ->]]; ok_inv; subst p;
    (split; [|split; done]); simpl; repeat case_match; simplify_eq; auto.
Qed.

(** A profile for every registered suite and its own tree algorithm. *)
Lemma ProfileForSuite_total s su :
  cryptosuite.RequireKnown s = Ok su → ∃ p, ProfileForSuite s = Ok p ∧ suite p = s.
Proof.
  intros Hk. apply cryptosuite.RequireKnown_Ok in Hk as [[-> ->]|[-> ->]]; eexists; done.
Qed.

Section proofs.
Context `{HashLib}.

Lemma hashBytes_wf p x : profile_wf p → hashBytes p x = Some (profile_hash p x).
Proof.
  intros [[Hk|Hk] _]; unfold hashBytes, profile_hash; rewrite Hk; done.
Qed.

Lemma profile_hash_digest p x : is_digest (profile_hash p x).
Proof. unfold profile_hash, is_digest. case_match; [apply sha256_len|apply sm3_len]. Qed.

Lemma profile_node_digest p a b : is_digest (profile_node p a b).
Proof. apply profile_hash_digest. Qed.

Lemma bytesToHash_digest h : is_digest h → bytesToHash h = h.
Proof. unfold is_digest, bytesToHash. intros Hh. by rewrite take_app_le, take_ge by lia. Qed.

Lemma cloneHash_digest h : is_digest h → cloneHash h = h.
Proof. apply bytesToHash_digest. Qed.

Lemma len_digest h : len h = 32 ↔ is_digest h.
Proof. unfold len, is_digest. lia. Qed.

Lemma MTH_digest p l : Forall is_digest l → is_digest (MTH p l).
Proof.
  intros Hl. unfold MTH. destruct l as [|x [|y r]].
  - apply profile_hash_digest.
  - by apply Forall_inv in Hl.
  - rewrite mth_unfold by (simpl; lia). apply profile_node_digest.
Qed.

Lemma map_cloneHash l : Forall is_digest l → map cloneHash l = l.
Proof. induction 1 as [|h l Hh _ IH]; simpl; [done|]. by rewrite cloneHash_digest, IH. Qed.

Lemma node_inputs_inj p a b c d :
  is_digest a → is_digest c → nodePrefix p :: a ++ b = nodePrefix p :: c ++ d → a = c ∧ b = d.
Proof. unfold is_digest. intros Ha Hc E. injection E as E. apply app_inj_1; [lia|done]. Qed.

(** ** The split point in machine arithmetic *)

Lemma pow2_nat j : Z.of_nat (2 ^ j) = 2 ^ Z.of_nat j.
Proof. by rewrite Nat2Z.inj_pow. Qed.

Lemma pow_succ_Z i : 2 ^ Z.of_nat (S i) = 2 * 2 ^ Z.of_nat i.
Proof. rewrite Nat2Z.inj_succ, Z.pow_succ_r; lia. Qed.

Lemma lp_loop_spec fuel i j n :
  (i <= j)%nat → (j - i < fuel)%nat → 2 ^ Z.of_nat j < n <= 2 ^ Z.of_nat (S j) → n <= 2 ^ 62 →
  largestPowerOfTwoLessThan_loop fuel (2 ^ Z.of_nat i) n = Some (2 ^ Z.of_nat j).
Proof.
  revert i. induction fuel as [|f IH]; intros i Hij Hf Hn H62; [lia|].
  cbn [largestPowerOfTwoLessThan_loop].
  assert (2 ^ Z.of_nat i <= 2 ^ Z.of_nat j) as Hle by (apply Z.pow_le_mono_r; lia).
  assert (0 < 2 ^ Z.of_nat i) as Hpos by (apply Z.pow_pos_nonneg; lia).
  assert (i64 (Z.shiftl (2 ^ Z.of_nat i) 1) = 2 ^ Z.of_nat (S i)) as ->.
  { rewrite Z.shiftl_mul_pow2, pow_succ_Z by lia. change (2 ^ 1) with 2.
    rewrite i64_small; [lia|]. unfold in_i64, two63. change (2 ^ 62) with 4611686018427387904 in *. lia. }
  destruct (decide (i = j)) as [->|].
  - rewrite (proj2 (Z.ltb_ge _ _)) by lia. done.
  - rewrite (proj2 (Z.ltb_lt _ _)).
    2: { eapply Z.le_lt_trans; [|apply Hn]. apply Z.pow_le_mono_r; lia. }
    apply IH; lia.
Qed.

Lemma lp_spec fuel (n : nat) :
  (2 <= n <= 2 ^ fuel)%nat → Z.of_nat n <= 2 ^ 62 →
  largestPowerOfTwoLessThan fuel (Z.of_nat n) = Some (Z.of_nat (split n)).
Proof.
  intros Hn H62. unfold largestPowerOfTwoLessThan.
  rewrite (proj2 (Z.ltb_ge _ _)) by lia. unfold split. rewrite pow2_nat.
  pose proof (Nat.log2_spec (n - 1) ltac:(lia)) as Hl.
  change 1 with (2 ^ Z.of_nat 0). apply lp_loop_spec; [lia| |rewrite <- !pow2_nat; lia|done].
  enough (Nat.log2 (n - 1) < fuel)%nat by lia. apply Nat.log2_lt_pow2; lia.
Qed.

Lemma lp_small fuel n : n < 2 → largestPowerOfTwoLessThan fuel n = Some 0.
Proof. intros. unfold largestPowerOfTwoLessThan. by rewrite (proj2 (Z.ltb_lt _ _)). Qed.

(** Machine arithmetic on tree sizes does not wrap. *)
Lemma i64_sub_nat (a b : nat) :
  (b <= a)%nat → Z.of_nat a <= 2 ^ 62 → i64 (Z.of_nat a - Z.of_nat b) = Z.of_nat (a - b).
Proof.
  intros. rewrite i64_small; [lia|]. unfold in_i64, two63.
  change (2 ^ 62) with 4611686018427387904 in *. lia.
Qed.

Lemma i64_add_nat (a b : nat) :
  Z.of_nat (a + b) <= 2 ^ 62 → i64 (Z.of_nat a + Z.of_nat b) = Z.of_nat (a + b).
Proof.
  intros. rewrite i64_small; [lia|]. unfold in_i64, two63.
  change (2 ^ 62) with 4611686018427387904 in *. lia.
Qed.

Lemma index_nat {A} (l : list A) (i : nat) : index l (Z.of_nat i) = l !! i.
Proof. unfold index. rewrite (proj2 (Z.ltb_ge _ _)) by lia. by rewrite Nat2Z.id. Qed.

Lemma pow62_fuel (n fuel : nat) :
  Z.of_nat n <= 2 ^ 62 → (62 <= fuel)%nat → (n <= 2 ^ fuel)%nat.
Proof.
  intros Hn Hf. apply Nat2Z.inj_le. rewrite pow2_nat. etrans; [apply Hn|].
  apply Z.pow_le_mono_r; lia.
Qed.

Lemma pow62_levels (n : nat) :
  Z.of_nat n <= 2 ^ 62 → ∃ j, (j <= 62)%nat ∧ (n <= 2 ^ j)%nat.
Proof. intros Hn. eexists. split; [reflexivity|]. by apply pow62_fuel. Qed.

(** ** Ranges of leaves *)

Definition seg {A} (l : list A) (s n : nat) : list A := take n (drop s l).

Lemma seg_length {A} (l : list A) s n : (s + n <= length l)%nat → length (seg l s n) = n.
Proof. intros. unfold seg. rewrite length_take, length_drop. lia. Qed.

Lemma seg_take {A} (l : list A) s n k : (k <= n)%nat → take k (seg l s n) = seg l s k.
Proof. intros. unfold seg. rewrite take_take. f_equal. lia. Qed.

Lemma seg_drop {A} (l : list A) s n k : drop k (seg l s n) = seg l (s + k) (n - k).
Proof. unfold seg. by rewrite skipn_firstn_comm, drop_drop. Qed.

Lemma seg_all {A} (l : list A) : seg l 0 (length l) = l.
Proof. unfold seg. rewrite drop_0. by apply take_ge. Qed.

Lemma seg_one {A} (l : list A) s x : l !! s = Some x → seg l s 1 = [x].
Proof. intros Hx. unfold seg. by rewrite (drop_S l x s Hx). Qed.

Lemma MTH_seg_split p (l : list digest) s n :
  (2 <= n)%nat → (s + n <= length l)%nat →
  MTH p (seg l s n) =
    profile_node p (MTH p (seg l s (split n))) (MTH p (seg l (s + split n) (n - split n))).
Proof.
  intros Hn Hl. split_bounds n. unfold MTH.
  rewrite mth_unfold by (rewrite seg_length; lia). rewrite seg_length by lia.
  by rewrite seg_take, seg_drop by lia.
Qed.

Lemma PATH_seg_split p (l : list digest) m s n :
  (2 <= n)%nat → (s + n <= length l)%nat →
  PATH p m (seg l s n) =
    let k := split n in
    if decide (m < k)%nat then PATH p m (seg l s k) ++ [MTH p (seg l (s + k) (n - k))]
    else PATH p (m - k) (seg l (s + k) (n - k)) ++ [MTH p (seg l s k)].
Proof.
  intros Hn Hl. split_bounds n. unfold PATH, MTH.
  rewrite path_unfold by (rewrite seg_length; lia). rewrite seg_length by lia. cbv zeta.
  by rewrite seg_take, seg_drop by lia.
Qed.

(** The ranges [buildRange] visits below a range. *)
Inductive sub : nat → nat → nat → nat → Prop :=
| sub_refl s n : sub s n s n
| sub_l s n a b : (2 <= n)%nat → sub s (split n) a b → sub s n a b
| sub_r s n a b : (2 <= n)%nat → sub (s + split n) (n - split n) a b → sub s n a b.

Lemma sub_step_l s n a b : (2 <= n)%nat → sub a b s n → sub a b s (split n).
Proof. intros Hn Hs. induction Hs; eauto using sub. Qed.

Lemma sub_step_r s n a b :
  (2 <= n)%nat → sub a b s n → sub a b (s + split n) (n - split n).
Proof. intros Hn Hs. induction Hs; eauto using sub. Qed.

(** ** The node table *)

(** Every entry of the node table is the tree head of its range. *)
Definition table_ok (p : Profile) (leaves : list digest) (st : build_state) : Prop :=
  ∀ (a b : nat) i, st.1 !! mkRange (Z.of_nat a) (Z.of_nat b) = Some i →
    index st.2 i = Some (MTH p (seg leaves a b)).

Lemma index_app {A} (l k : list A) i x : index l i = Some x → index (l ++ k) i = Some x.
Proof.
  unfold index. case_match; [done|]. apply lookup_app_l_Some.
Qed.

Lemma table_ok_insert p leaves idx hs (s n : nat) :
  table_ok p leaves (idx, hs) →
  table_ok p leaves (<[mkRange (Z.of_nat s) (Z.of_nat n) := len hs]> idx,
                     hs ++ [MTH p (seg leaves s n)]).
Proof.
  intros Hok a b i Hi. cbn [fst snd] in *.
  destruct (decide (mkRange (Z.of_nat a) (Z.of_nat b) = mkRange (Z.of_nat s) (Z.of_nat n)))
    as [E|Hne].
  - rewrite E, lookup_insert_eq in Hi. injection Hi as <-. injection E as Ea Eb.
    apply Nat2Z.inj in Ea, Eb. subst a b. unfold len. rewrite index_nat.
    rewrite lookup_app_r, Nat.sub_diag by lia. done.
  - rewrite lookup_insert_ne in Hi by done. apply index_app. by apply Hok.
Qed.

(** What a call on the range [s, n] with state [st] leaves behind. *)
Definition built (p : Profile) (leaves : list digest) (st st' : build_state) (s n : nat) : Prop :=
  table_ok p leaves st' ∧
  (∀ r, is_Some (st.1 !! r) → is_Some (st'.1 !! r)) ∧
  (∀ a b, sub s n a b → is_Some (st'.1 !! mkRange (Z.of_nat a) (Z.of_nat b))).

(** The last two statements of [buildRange]: the entry of the range itself. *)
Lemma built_entry p leaves st idx hs s n :
  table_ok p leaves (idx, hs) → (∀ r, is_Some (st.1 !! r) → is_Some (idx !! r)) →
  (∀ a b, sub s n a b → (a, b) ≠ (s, n) → is_Some (idx !! mkRange (Z.of_nat a) (Z.of_nat b))) →
  built p leaves st
    (<[mkRange (Z.of_nat s) (Z.of_nat n) := len hs]> idx, hs ++ [MTH p (seg leaves s n)]) s n.
Proof.
  intros Hok Hmono Hsub. split; [by apply table_ok_insert|].
  split; cbn [fst]; [intros r Hr|intros a b Hab]; rewrite lookup_insert_is_Some'; [auto|].
  destruct (decide ((a, b) = (s, n))); simplify_eq; auto.
Qed.

Lemma sub_1 s a b : sub s 1 a b → (a, b) = (s, 1%nat).
Proof. inversion 1; subst; [done|lia..]. Qed.

Lemma lp_spec' f fuel (n : nat) :
  (2 <= n <= 2 ^ f)%nat → (f <= fuel)%nat → Z.of_nat n <= 2 ^ 62 →
  largestPowerOfTwoLessThan fuel (Z.of_nat n) = Some (Z.of_nat (split n)).
Proof.
  intros Hn Hf. apply lp_spec. split; [lia|]. etrans; [apply Hn|].
  apply Nat.pow_le_mono_r; lia.
Qed.

Lemma buildRange_leaf f p leaves st (s : nat) x :
  leaves !! s = Some x → table_ok p leaves st →
  ∃ st', buildRange (S f) p leaves st (Z.of_nat s) (Z.of_nat 1)
           = Some (MTH p (seg leaves s 1), st') ∧ built p leaves st st' s 1.
Proof.
  intros Hx Hok. destruct st as [idx hs]. eexists. split.
  - cbn [buildRange]. change (Z.of_nat 1 =? 1) with true. cbv iota.
    rewrite index_nat, Hx. cbn [mbind option_bind]. rewrite (seg_one _ _ _ Hx). reflexivity.
  - change x with (MTH p [x]). rewrite <- (seg_one _ _ _ Hx).
    apply built_entry; [done..|]. intros a b Hab%sub_1; done.
Qed.

Lemma buildRange_spec f p leaves st (s n : nat) :
  profile_wf p → len leaves <= 2 ^ 62 →
  (s + n <= length leaves)%nat → (1 <= n <= 2 ^ f)%nat → table_ok p leaves st →
  ∃ st', buildRange (S f) p leaves st (Z.of_nat s) (Z.of_nat n)
           = Some (MTH p (seg leaves s n), st') ∧ built p leaves st st' s n.
Proof.
  intros Hp H62. unfold len in H62. revert st s n.
  induction f as [|f IH]; intros st s n Hs Hn Hok; (destruct (decide (n = 1%nat)) as [->|Hne];
    [destruct (lookup_lt_is_Some_2 leaves s ltac:(lia)) as [x Hx];
     by eapply buildRange_leaf|]).
  { simpl in Hn. lia. }
  split_bounds n. destruct (split_half f n) as [Hk1 Hk2]; [lia|].
  destruct (IH st s (split n)) as (st1 & E1 & Hok1 & Hm1 & Hs1); [lia..|done|].
  destruct (IH st1 (s + split n)%nat (n - split n)%nat) as (st2 & E2 & Hok2 & Hm2 & Hs2);
    [lia..|done|].
  remember (S f) as g eqn:Eg. cbn [buildRange]. rewrite (proj2 (Z.eqb_neq _ _)) by lia.
  rewrite (lp_spec' g) by lia. cbn [mbind option_bind].
  rewrite E1. cbn [mbind option_bind].
  rewrite i64_add_nat, i64_sub_nat by lia. rewrite E2. cbn [mbind option_bind].
  unfold hashNode. rewrite hashBytes_wf by done. cbn [mbind option_bind].
  fold (profile_node p (MTH p (seg leaves s (split n)))
    (MTH p (seg leaves (s + split n) (n - split n)))).
  rewrite <- MTH_seg_split by lia.
  destruct st2 as [idx2 hs2]. eexists. split; [reflexivity|].
  apply built_entry; [done|auto|].
  intros a b Hab Hne'. inversion Hab; subst; [done|auto..].
Qed.

(** ** Trees *)

Definition tree_ok (p : Profile) (leaves : list digest) (t : Tree) : Prop :=
  leafHashes t = leaves ∧ root t = MTH p leaves ∧
  ∀ a b, sub 0 (length leaves) a b →
    nodeAt t (mkRange (Z.of_nat a) (Z.of_nat b)) = Some (MTH p (seg leaves a b)).

Lemma build_spec fuel p leaves :
  profile_wf p → leaves ≠ [] → len leaves <= 2 ^ 62 → (63 <= fuel)%nat →
  ∃ t, buildFromLeafHashes fuel p leaves = Some t ∧ tree_ok p leaves t.
Proof.
  intros Hp Hne H62 Hf. destruct fuel as [|f]; [lia|].
  assert (1 <= length leaves)%nat by (destruct leaves; simpl; [done|lia]).
  destruct (buildRange_spec f p leaves (∅, []) 0 (length leaves)) as (st & E & Hok & _ & Hsub);
    [done..|split; [done|by apply pow62_fuel; [|lia]]| |].
  { intros a b i Hi. cbn [fst] in Hi. by rewrite lookup_empty in Hi. }
  change (Z.of_nat 0) with 0 in E. unfold buildFromLeafHashes, len. rewrite E.
  destruct st as [idx hs]. cbn [mbind option_bind]. rewrite seg_all.
  eexists. split; [reflexivity|]. split; [done|]. split; [done|].
  intros a b Hab. unfold nodeAt. cbn.
  destruct (Hsub a b Hab) as [i Hi]. cbn in Hi. rewrite Hi. by apply Hok.
Qed.

Lemma sub_bounds s n a b : sub s n a b → (s <= a)%nat ∧ (a + b <= s + n)%nat.
Proof. induction 1; [lia|split_bounds n..]; lia. Qed.

Lemma appendAuditPath_spec f p leaves t acc (s n m : nat) :
  tree_ok p leaves t → len leaves <= 2 ^ 62 →
  sub 0 (length leaves) s n → (m < n <= 2 ^ f)%nat →
  appendAuditPath f t acc (Z.of_nat s) (Z.of_nat n) (Z.of_nat m)
  = Some (acc ++ PATH p m (seg leaves s n)).
Proof.
  intros (Hl & _ & Hat) H62. unfold len in H62. revert s n m.
  induction f as [|f IH]; intros s n m Hs Hn; pose proof (sub_bounds _ _ _ _ Hs) as Hb;
    cbn [appendAuditPath]; (destruct (decide (n = 1%nat)) as [->|Hne];
    [destruct (lookup_lt_is_Some_2 leaves s ltac:(lia)) as [x Hx];
     by rewrite (seg_one _ _ _ Hx), app_nil_r|]).
  { simpl in Hn. lia. }
  rewrite (proj2 (Z.eqb_neq _ _)) by lia. rewrite (lp_spec' (S f)) by lia. cbn [mbind option_bind].
  split_bounds n. destruct (split_half f n) as [Hk1 Hk2]; [lia|].
  pose proof (sub_step_l s n _ _ ltac:(lia) Hs) as Hsl.
  pose proof (sub_step_r s n _ _ ltac:(lia) Hs) as Hsr.
  rewrite PATH_seg_split by lia. cbv zeta.
  destruct (decide (m < split n)%nat) as [Hm|Hm].
  - rewrite (proj2 (Z.ltb_lt _ _)) by lia. rewrite IH by (done || lia). cbn [mbind option_bind].
    rewrite i64_add_nat, i64_sub_nat by lia. rewrite Hat by done. cbn. by rewrite app_assoc.
  - rewrite (proj2 (Z.ltb_ge _ _)) by lia. rewrite i64_add_nat, !i64_sub_nat by lia.
    rewrite IH by (done || lia). cbn [mbind option_bind]. rewrite Hat by done. cbn.
    by rewrite app_assoc.
Qed.

Lemma appendAuditPathRanges_view f t acc rs s n i :
  mapM (nodeAt t) rs = Some acc →
  (r ← appendAuditPathRanges f rs s n i; mapM (nodeAt t) r) = appendAuditPath f t acc s n i.
Proof.
  intros Hrs. revert s n i. induction f as [|f IH]; intros s n i; simpl; case_match; try done.
  destruct (largestPowerOfTwoLessThan _ _) as [k|]; [|done]. cbn [mbind option_bind].
  case_match; rewrite <- IH;
    (destruct (appendAuditPathRanges _ _ _ _ _) as [r|]; [|done]); cbn [mbind option_bind];
    rewrite mapM_snoc;
    (destruct (mapM _ r) as [hs|]; [|done]); cbn; by destruct (nodeAt _ _).
Qed.

Lemma merklePathLen_total f (n : nat) :
  (n <= 2 ^ f)%nat → Z.of_nat n <= 2 ^ 62 →
  ∃ r, merklePathLen f (Z.of_nat n) = Some r.
Proof.
  revert n. induction f as [|f IH]; intros n Hn H62; simpl; case_match; bsimpl; eauto.
  { simpl in Hn. lia. }
  rewrite (lp_spec' (S f)) by lia. cbn [mbind option_bind]. split_bounds n.
  destruct (split_half f n) as [Hk1 Hk2]; [lia|].
  destruct (IH (split n)) as [r ->]; [lia..|]. cbn. eauto.
Qed.

Lemma auditPath_spec fuel p leaves t (m : nat) :
  tree_ok p leaves t → len leaves <= 2 ^ 62 → (m < length leaves)%nat → (62 <= fuel)%nat →
  auditPath fuel t (Z.of_nat m) = Some (PATH p m leaves).
Proof.
  intros Ht H62 Hm Hf. unfold auditPath. pose proof Ht as (-> & _ & _). unfold len in *.
  pose proof (pow62_fuel _ _ H62 Hf) as Hpow.
  destruct (merklePathLen_total fuel (length leaves)) as [r ->]; [done..|]. cbn [mbind option_bind].
  change 0 with (Z.of_nat 0). rewrite (appendAuditPath_spec _ p leaves) by (done || lia || constructor).
  by rewrite seg_all.
Qed.

(** ** Verification against the reference *)

Definition digestb (h : bytes) : bool := len h =? 32.

Lemma digestb_true h : digestb h = true ↔ is_digest h.
Proof. unfold digestb. rewrite Z.eqb_eq. apply len_digest. Qed.

Abbreviation reference_root p := (path_root (profile_node p) digestb).

(** What [rebuild] returns when the reference gives [ref]. *)
Definition rebuild_matches (path : list bytes) (bound : nat) (ref : option (digest * list bytes))
    (d : digest) (pos : Z) (ok : bool) : Prop :=
  ∃ q : nat, pos = Z.of_nat q ∧ (q <= bound)%nat ∧
  match ref with
  | Some (d', rest) => ok = true ∧ d = d' ∧ rest = drop q path ∧ (q <= length path)%nat
  | None => ok = false
  end.

(** One sibling is read after the recursive call. *)
Lemma rebuild_step p path b (d : digest) pos ok (ref : option (digest * list bytes))
    (mk : digest → digest → digest) (hn : digest → bytes → option digest) :
  Size p = 32 → (Z.of_nat b < 2 ^ 62) →
  (∀ d h, is_digest h → hn d h = Some (mk d h)) →
  rebuild_matches path b ref d pos ok →
  ∃ d' pos' ok',
    (if negb ok || (len path <=? pos) then Some (zero_digest, pos, false) else
     h ← index path pos;
     let pos2 := i64 (pos + 1) in
     if negb (len h =? Size p) then Some (zero_digest, pos2, false) else
     r ← hn d h;
     Some (r, pos2, true)) = Some (d', pos', ok') ∧
    rebuild_matches path (S b)
      ('(l, rest) ← ref;
       match rest with
       | h :: rest' => if digestb h then Some (mk l h, rest') else None
       | [] => None
       end) d' pos' ok'.
Proof.
  intros Hsz Hb Hhn (q & -> & Hq & Hm). destruct ref as [[l rest]|]; cbn [mbind option_bind].
  2: { subst ok. eexists _, _, _. split; [reflexivity|]. exists q. auto. }
  destruct Hm as (-> & -> & -> & Hle). cbn [negb orb]. unfold len.
  destruct (decide (length path = q)) as [Heq|Hne].
  { rewrite (proj2 (Z.leb_le _ _)) by lia. eexists _, _, _. split; [reflexivity|].
    exists q. rewrite drop_ge by lia. auto. }
  rewrite (proj2 (Z.leb_gt _ _)) by lia.
  destruct (lookup_lt_is_Some_2 path q ltac:(lia)) as [h Hh].
  rewrite index_nat, Hh, (drop_S _ _ _ Hh). cbn [mbind option_bind]. cbv zeta.
  rewrite i64_add_nat with (b := 1%nat) by (change (2 ^ 62) with 4611686018427387904 in *; lia).
  unfold digestb, len. rewrite Hsz.
  destruct (Z.of_nat (length h) =? 32) eqn:E; cbn [negb].
  - apply Z.eqb_eq in E. rewrite Hhn by (unfold is_digest; lia).
    eexists _, _, _. split; [reflexivity|]. exists (q + 1)%nat.
    replace (q + 1)%nat with (S q) by lia. repeat split; try done; lia.
  - eexists _, _, _. split; [reflexivity|]. exists (q + 1)%nat. repeat split; try done; lia.
Qed.

Lemma rebuild_spec j f p leaf path (m n : nat) :
  profile_wf p → is_digest leaf → (m < n <= 2 ^ j)%nat → (j <= 62)%nat → (j <= f)%nat →
  ∃ d pos ok,
    rebuild f p leaf (Z.of_nat m) (Z.of_nat n) path 0 = Some (d, pos, ok) ∧
    rebuild_matches path j (reference_root p f m n leaf path) d pos ok.
Proof.
  intros Hp Hl. revert f m n. induction j as [|j IH]; intros f m n Hn Hj Hf;
    (destruct (decide (n = 1%nat)) as [->|Hne];
    [destruct f; cbn; eexists _, _, _; (split; [reflexivity|]); exists 0%nat;
     rewrite bytesToHash_digest, drop_0 by done; repeat split; (done || lia)|]).
  { simpl in Hn. lia. }
  assert (Z.of_nat n <= 2 ^ 62) as H62.
  { etrans; [apply inj_le, Hn|]. rewrite pow2_nat. apply Z.pow_le_mono_r; lia. }
  destruct f as [|f]; [lia|]. cbn [rebuild path_root]. rewrite decide_False by done.
  rewrite (proj2 (Z.eqb_neq _ _)) by lia. rewrite (lp_spec' (S j)) by lia. cbn [mbind option_bind].
  split_bounds n. destruct (split_half j n) as [Hk1 Hk2]; [lia|].
  pose proof Hp as (_ & Hsz & _).
  assert (Z.of_nat j < 2 ^ 62) by (change (2 ^ 62) with 4611686018427387904; lia).
  destruct (decide (m < split n)%nat) as [Hm|Hm].
  - rewrite (proj2 (Z.ltb_lt _ _)) by lia.
    destruct (IH f m (split n)) as (d & pos & ok & -> & HM); [lia..|]. cbn [mbind option_bind].
    apply (rebuild_step p path j d pos ok _ (profile_node p)
             (λ l r, hashNode p l (bytesToHash r))); [done..| |done].
    intros d' h Hh. unfold hashNode. by rewrite bytesToHash_digest, hashBytes_wf.
  - rewrite (proj2 (Z.ltb_ge _ _)) by lia. rewrite !i64_sub_nat by lia.
    destruct (IH f (m - split n)%nat (n - split n)%nat) as (d & pos & ok & -> & HM); [lia..|].
    cbn [mbind option_bind].
    apply (rebuild_step p path j d pos ok _ (λ r l, profile_node p l r)
             (λ r l, hashNode p (bytesToHash l) r)); [done..| |done].
    intros d' h Hh. unfold hashNode. by rewrite bytesToHash_digest, hashBytes_wf.
Qed.

Lemma verify_spec fuel p leaf i n path root :
  profile_wf p → (62 <= fuel)%nat → 0 <= i → 0 <= n <= 2 ^ 62 →
  verifyWithProfile fuel p leaf i n path root
  = Some (bool_decide (is_digest leaf ∧ is_digest root ∧ i < n ∧
            reference_root p fuel (Z.to_nat i) (Z.to_nat n) leaf path = Some (root, []))).
Proof.
  intros Hp Hf Hi Hn. pose proof Hp as (_ & Hsz & _).
  assert (2 ^ 62 = 4611686018427387904) as E62 by done.
  unfold verifyWithProfile, Size. rewrite Hsz.
  destruct (_ || _) eqn:E.
  { f_equal. symmetry. apply bool_decide_eq_false. intros (Hl & Hr & Hin & _).
    apply len_digest in Hl, Hr. rewrite Hl, Hr in E. cbn in E. apply orb_true_iff in E.
    rewrite Z.eqb_eq, Z.leb_le in E. lia. }
  bsimpl. repeat match goal with E : len _ = 32 |- _ => apply len_digest in E end.
  rewrite !i64_small by (unfold in_i64, two63; lia).
  assert (i = Z.of_nat (Z.to_nat i)) as Ei by lia. assert (n = Z.of_nat (Z.to_nat n)) as En by lia.
  rewrite Ei, En. rewrite !Nat2Z.id.
  destruct (pow62_levels (Z.to_nat n) ltac:(lia)) as (j & Hj & Hpow).
  destruct (rebuild_spec j fuel p leaf path (Z.to_nat i) (Z.to_nat n))
    as (d & pos & ok & -> & q & -> & _ & HM); [done|done|lia|lia|lia|].
  cbn [mbind option_bind].
  destruct (path_root _ _ _ _ _ _ _) as [[d' rest]|]; [|subst ok; cbn; f_equal; symmetry;
    apply bool_decide_eq_false; naive_solver].
  destruct HM as (-> & -> & -> & Hq). cbn [negb orb]. unfold len.
  destruct (decide (length path = q)) as [<-|Hne].
  - rewrite Z.eqb_refl. cbn [negb]. f_equal. unfold bytes_equal. apply bool_decide_ext.
    rewrite drop_all.
    split; [intros ->; repeat split; (done || lia)|]. naive_solver.
  - rewrite (proj2 (Z.eqb_neq _ _)) by lia. cbn [negb]. f_equal. symmetry.
    apply bool_decide_eq_false. intros (_ & _ & _ & E'). injection E' as _ E'.
    apply (f_equal (@length bytes)) in E'. rewrite length_drop in E'. simpl in E'. lia.
Qed.

(** ** Collisions *)

(** The byte strings hashed for the inner nodes [ps]. *)
Definition node_inputs (p : Profile) (ps : list (digest * digest)) : list bytes :=
  map (λ q, nodePrefix p :: q.1 ++ q.2) ps.

(** The inputs of the node hashes of a tree, and of a verification run. *)
Definition tree_inputs (p : Profile) (leaves : list digest) : list bytes :=
  node_inputs p (mth_pairs (profile_node p) (profile_hash p []) leaves).
Definition verify_inputs (p : Profile) (fuel : nat) (i n : Z) (leaf : bytes) (path : list bytes)
  : list bytes :=
  node_inputs p (path_pairs (profile_node p) digestb fuel (Z.to_nat i) (Z.to_nat n) leaf path).

(** Two different inputs, one of each list, with the same digest. *)
Definition hash_collision (p : Profile) (xs ys : list bytes) : Prop :=
  ∃ x y, x ∈ xs ∧ y ∈ ys ∧ x ≠ y ∧ profile_hash p x = profile_hash p y.

Lemma collision_inputs p ps qs :
  Forall (both is_digest) ps → Forall (both is_digest) qs →
  collision (profile_node p) ps qs → hash_collision p (node_inputs p ps) (node_inputs p qs).
Proof.
  rewrite !Forall_forall. intros Hps Hqs ([a b] & [c d] & Hp & Hq & Hne & E).
  exists (nodePrefix p :: a ++ b), (nodePrefix p :: c ++ d).
  unfold node_inputs. rewrite !list_elem_of_fmap.
  split; [by exists (a, b)|]. split; [by exists (c, d)|]. split; [|exact E].
  intros Eq. apply Hne. apply node_inputs_inj in Eq as [-> ->]; [done| |].
  - apply (Hps _ Hp).
  - apply (Hqs _ Hq).
Qed.

Lemma hash_collision_mono p xs xs' ys ys' :
  xs ⊆ xs' → ys ⊆ ys' → hash_collision p xs ys → hash_collision p xs' ys'.
Proof. intros Hx Hy (x & y & ? & ? & ?). exists x, y. auto. Qed.

Lemma tree_inputs_digests p leaves :
  Forall is_digest leaves →
  Forall (both is_digest) (mth_pairs (profile_node p) (profile_hash p []) leaves).
Proof.
  apply mth_pairs_all; [apply profile_hash_digest|intros; apply profile_node_digest].
Qed.

Lemma MTH_binds p (l1 l2 : list digest) :
  Forall is_digest l1 → Forall is_digest l2 → length l1 = length l2 → l1 ≠ [] →
  MTH p l1 = MTH p l2 → l1 = l2 ∨ hash_collision p (tree_inputs p l1) (tree_inputs p l2).
Proof.
  intros H1 H2 Hlen Hne E. destruct (mth_inj _ _ _ _ Hlen Hne E) as [->|Hc]; [by left|].
  right. apply collision_inputs in Hc; auto using tree_inputs_digests.
Qed.

(** ** The functions on lists of leaf hashes *)

Lemma copyLeaves_Ok p leaves :
  profile_wf p → copyLeaves p leaves =
    if forallb digestb leaves then Ok leaves
    else Err (ErrorsNew "merkle: leaf %d has size %d").
Proof.
  intros (_ & Hsz & _). induction leaves as [|h l IH]; [done|].
  cbn [copyLeaves forallb]. unfold Size. rewrite Hsz. unfold digestb at 1.
  destruct (len h =? 32) eqn:E; [|done]. cbn [negb andb]. rewrite IH.
  destruct (forallb digestb l); [|done]. cbn.
  apply Z.eqb_eq, len_digest in E. by rewrite bytesToHash_digest.
Qed.

Lemma forallb_digests l : Forall is_digest l → forallb digestb l = true.
Proof.
  intros Hl. induction Hl as [|h l Hh _ IH]; [done|].
  cbn. rewrite IH, (proj2 (digestb_true h) Hh). done.
Qed.

Lemma PATH_digests p m l : Forall is_digest l → Forall is_digest (PATH p m l).
Proof.
  intros Hl. destruct l as [|x0 l0]; [constructor|].
  assert (x0 :: l0 ≠ []) as Hne by done. revert m. revert Hl Hne. generalize (x0 :: l0). clear.
  intros l Hl Hne. revert l Hne Hl.
  apply (list_split_ind (λ l, Forall is_digest l → ∀ m, _)); [constructor|].
  intros l H2 IH1 IH2 Hl m. unfold PATH. rewrite path_unfold by done. cbv zeta.
  pose proof (Forall_take _ (split (length l)) l Hl) as Ht.
  pose proof (Forall_drop _ (split (length l)) l Hl) as Hd.
  case_decide; apply Forall_app; (split; [by apply IH1 || by apply IH2|]);
    apply Forall_singleton; by apply MTH_digest.
Qed.

Lemma RootFromLeaves_spec fuel s a p leaves :
  ProfileForAlgorithm s a = Ok p → Forall is_digest leaves → leaves ≠ [] →
  len leaves <= 2 ^ 62 → (63 <= fuel)%nat →
  RootFromLeavesForSuite fuel s a leaves = Some (Ok (MTH p leaves)).
Proof.
  intros Hp Hl Hne H62 Hf. pose proof (ProfileForAlgorithm_wf _ _ _ Hp) as Hwf.
  unfold RootFromLeavesForSuite. rewrite Hp.
  destruct (len leaves =? 0) eqn:E; [bsimpl; by destruct leaves|].
  rewrite copyLeaves_Ok, forallb_digests by done.
  destruct (build_spec fuel p leaves) as (t & -> & _ & Hr & _); [done..|]. cbn. rewrite Hr.
  by rewrite cloneHash_digest by (by apply MTH_digest).
Qed.

Lemma AuditPath_spec fuel s a p leaves (i : nat) :
  ProfileForAlgorithm s a = Ok p → Forall is_digest leaves → (i < length leaves)%nat →
  len leaves <= 2 ^ 62 → (63 <= fuel)%nat →
  AuditPathFromLeavesForSuite fuel s a leaves (Z.of_nat i) = Some (Ok (PATH p i leaves)).
Proof.
  intros Hp Hl Hi H62 Hf. pose proof (ProfileForAlgorithm_wf _ _ _ Hp) as Hwf.
  assert (2 ^ 62 = 4611686018427387904) as E62 by done.
  unfold AuditPathFromLeavesForSuite. rewrite Hp. unfold len in *.
  rewrite (proj2 (Z.eqb_neq _ _)) by lia.
  rewrite u64_small by (unfold in_u64, two64; lia). rewrite (proj2 (Z.leb_gt _ _)) by lia.
  rewrite copyLeaves_Ok, forallb_digests by done.
  destruct (build_spec fuel p leaves) as (t & -> & Ht); [done|by destruct leaves; simpl in *; [lia|]|done..|].
  cbn [mbind option_bind]. unfold Proof_. rewrite i64_small by (unfold in_i64, two63; lia).
  pose proof Ht as (-> & _ & _). unfold len.
  rewrite (proj2 (Z.ltb_ge _ _)), (proj2 (Z.leb_gt _ _)) by lia. cbn [orb].
  rewrite (auditPath_spec _ p leaves) by first [done|lia|unfold len; lia]. cbn.
  by rewrite map_cloneHash by (by apply PATH_digests).
Qed.

(** ** Sizes above [2 ^ 62] *)

(** The values of [k] once the loop cannot stop any more. *)
Definition wrapped (k : Z) : Prop :=
  (∃ i, (i <= 62)%nat ∧ k = 2 ^ Z.of_nat i) ∨ k = - two63 ∨ k = 0.

Lemma wrapped_step k n :
  2 ^ 62 < n < two63 → wrapped k → i64 (Z.shiftl k 1) < n ∧ wrapped (i64 (Z.shiftl k 1)).
Proof.
  intros Hn Hk. assert (2 ^ 62 = 4611686018427387904) as E62 by done.
  rewrite Z.shiftl_mul_pow2 by lia. change (2 ^ 1) with 2.
  destruct Hk as [(i & Hi & ->)|[->| ->]].
  - destruct (decide (i = 62%nat)) as [->|].
    + change (Z.of_nat 62) with 62. rewrite E62.
      change (i64 (4611686018427387904 * 2)) with (- two63). unfold two63 in *.
      split; [lia|]. right. left. reflexivity.
    + assert (2 ^ Z.of_nat (S i) <= 2 ^ 62) by (apply Z.pow_le_mono_r; lia).
      assert (0 < 2 ^ Z.of_nat i) by (apply Z.pow_pos_nonneg; lia).
      rewrite pow_succ_Z in *. rewrite i64_small by (unfold in_i64, two63; lia).
      split; [lia|]. left. exists (S i). split; [lia|]. rewrite pow_succ_Z. lia.
  - change (i64 (- two63 * 2)) with 0. split; [lia|]. right; right; done.
  - change (i64 (0 * 2)) with 0. split; [lia|]. right; right; done.
Qed.

Lemma lp_diverges fuel k n :
  2 ^ 62 < n < two63 → wrapped k → largestPowerOfTwoLessThan_loop fuel k n = None.
Proof.
  intros Hn. revert k. induction fuel as [|f IH]; intros k Hk; [done|].
  destruct (wrapped_step k n Hn Hk) as [Hlt Hw]. cbn [largestPowerOfTwoLessThan_loop].
  rewrite (proj2 (Z.ltb_lt _ _)) by done. by apply IH.
Qed.

(** With a size that is not positive the split point is 0 and the recursion
    does not make the size smaller. *)
Lemma rebuild_diverges_nonpos fuel p leaf i n path pos :
  n <= 0 → in_i64 i → in_i64 n → rebuild fuel p leaf i n path pos = None.
Proof.
  revert i n pos. induction fuel as [|f IH]; intros i n pos Hn Hi Hn'; cbn [rebuild];
    rewrite (proj2 (Z.eqb_neq _ _)) by lia; [done|].
  rewrite lp_small by lia. cbn [mbind option_bind].
  case_match.
  - rewrite IH; [done|lia|done|]. unfold in_i64, two63. lia.
  - rewrite !Z.sub_0_r, (i64_small i), (i64_small n) by done. by rewrite IH.
Qed.

Lemma rebuild_diverges fuel p leaf i n path pos :
  2 ^ 62 < n < two64 → in_i64 i → rebuild fuel p leaf i (i64 n) path pos = None.
Proof.
  intros Hn Hi. assert (2 ^ 62 = 4611686018427387904) as E62 by done.
  destruct (decide (n < two63)) as [Hlt|Hge].
  - rewrite i64_small by (unfold in_i64, two63 in *; lia). destruct fuel as [|f]; cbn [rebuild];
      rewrite (proj2 (Z.eqb_neq _ _)) by lia; [done|].
    unfold largestPowerOfTwoLessThan. rewrite (proj2 (Z.ltb_ge _ _)) by lia.
    rewrite lp_diverges; [done|lia|]. left. exists 0%nat. split; [lia|done].
  - apply rebuild_diverges_nonpos; [|done|apply i64_range].
    unfold i64, two63, two64 in *. rewrite <- (Z_mod_plus_full _ (-1)).
    rewrite Z.mod_small; lia.
Qed.

(** ** Trees over records *)

Section records.
Context `{CborMode ServerRecord.t, KeyDescriptorLib}.

Definition leaf_hash (p : Profile) (b : bytes) : digest := profile_hash p (leafPrefix p :: b).

(** The inputs of the leaf hashes of a batch. *)
Definition leaf_inputs (p : Profile) (records : list ServerRecord.t) : list bytes :=
  omap (λ r, match encMode_Marshal r with Ok b => Some (leafPrefix p :: b) | Err _ => None end)
    records.

Lemma Require_record s r :
  modelsuite.Require_ s (modelsuite.AnyServerRecord r) = Ok tt ↔
  is_ok (cryptosuite.RequireKnown s) = true ∧ r.(ServerRecord.CryptoSuite) = s.
Proof.
  rewrite modelsuite.Require_Ok. cbn. split.
  - intros [Hk (o & Ho & Hf)]. split; [done|]. injection Ho as <-.
    specialize (Hf _ _ eq_refl). by inversion Hf.
  - intros [Hk Hr]. split; [done|]. eexists. split; [reflexivity|].
    intros name ids E. injection E as <- <-. by repeat constructor.
Qed.

Lemma hashLeafArray_wf p r :
  profile_wf p →
  hashLeafArray p r =
    Some (match encMode_Marshal r with
          | Ok b => Ok (leaf_hash p b)
          | Err e => Err (Errorf "cborx: marshal: %w" e)
          end).
Proof.
  intros Hp. unfold hashLeafArray, cborx.MarshalBuffer.
  destruct (encMode_Marshal r); [|done]. by rewrite hashBytes_wf.
Qed.

Lemma hashRecords_total s p rs bs :
  profile_wf p → is_ok (cryptosuite.RequireKnown s) = true →
  Forall2 (λ r b, r.(ServerRecord.CryptoSuite) = s ∧ encMode_Marshal r = Ok b) rs bs →
  hashRecords s p rs = Some (Ok (map (leaf_hash p) bs)).
Proof.
  intros Hp Hk. induction 1 as [|r b rs bs [Hs Hb] _ IH]; [done|]. cbn [hashRecords].
  rewrite (proj2 (Require_record s r)) by done.
  rewrite hashLeafArray_wf, Hb by done. cbn [mbind option_bind]. by rewrite IH.
Qed.

Lemma hashRecords_inv s p rs hs :
  profile_wf p → hashRecords s p rs = Some (Ok hs) →
  ∃ bs, Forall2 (λ r b, encMode_Marshal r = Ok b) rs bs ∧ hs = map (leaf_hash p) bs.
Proof.
  intros Hp. revert hs. induction rs as [|r rs IH]; intros hs Hh; cbn [hashRecords] in Hh.
  { injection Hh as <-. by exists []. }
  destruct (modelsuite.Require_ _ _); [|done]. rewrite hashLeafArray_wf in Hh by done.
  cbn [mbind option_bind] in Hh. destruct (encMode_Marshal r) as [b|] eqn:Eb; [|done].
  destruct (hashRecords s p rs) as [[hs'|]|]; [|done|done]. cbn in Hh. injection Hh as <-.
  destruct (IH hs' eq_refl) as (bs & Hf & ->). exists (b :: bs). split; [by constructor|done].
Qed.

(** Equal leaf hashes come from equal encodings, or collide. *)
Lemma leaf_hash_inj p (bs1 bs2 : list bytes) :
  map (leaf_hash p) bs1 = map (leaf_hash p) bs2 →
  bs1 = bs2 ∨ hash_collision p (map (cons (leafPrefix p)) bs1) (map (cons (leafPrefix p)) bs2).
Proof.
  revert bs2. induction bs1 as [|b1 bs1 IH]; intros [|b2 bs2] E; try done; [by left|].
  cbn in E. injection E as E1 E2. destruct (decide (b1 = b2)) as [->|Hne].
  - destruct (IH bs2 E2) as [->|Hc]; [by left|]. right.
    revert Hc. apply hash_collision_mono; cbn; set_solver.
  - right. exists (leafPrefix p :: b1), (leafPrefix p :: b2).
    split; [cbn; set_solver|]. split; [cbn; set_solver|]. split; [congruence|done].
Qed.

Lemma leaf_inputs_spec p rs bs :
  Forall2 (λ r b, encMode_Marshal r = Ok b) rs bs →
  leaf_inputs p rs = map (cons (leafPrefix p)) bs.
Proof. induction 1 as [|r b rs bs Hb _ IH]; [done|]. cbn. rewrite Hb. cbn. by f_equal. Qed.

Lemma leaf_hashes_digests p bs : Forall is_digest (map (leaf_hash p) bs).
Proof. apply Forall_fmap, Forall_forall. intros. apply profile_hash_digest. Qed.

Lemma BuildForSuite_inv fuel s a p rs t :
  ProfileForAlgorithm s a = Ok p → len rs <= 2 ^ 62 → (63 <= fuel)%nat →
  BuildForSuite fuel s a rs = Some (Ok t) →
  rs ≠ [] ∧ ∃ bs, Forall2 (λ r b, encMode_Marshal r = Ok b) rs bs ∧
                  tree_ok p (map (leaf_hash p) bs) t.
Proof.
  intros Hp H62 Hf. pose proof (ProfileForAlgorithm_wf _ _ _ Hp) as Hwf.
  unfold BuildForSuite. rewrite Hp. destruct (len rs =? 0) eqn:E; [done|].
  assert (rs ≠ []) as Hne by (by intros ->).
  destruct (hashRecords s p rs) as [[hs|]|] eqn:Eh; cbn; intros Hb; try done.
  destruct (hashRecords_inv _ _ _ _ Hwf Eh) as (bs & HF & ->). split; [done|].
  exists bs. split; [done|]. apply Forall2_length in HF as Hlen.
  destruct (build_spec fuel p (map (leaf_hash p) bs)) as (t' & E' & Ht');
    [done| |unfold len in *; rewrite length_map; lia|done|].
  { destruct bs; [|done]. by destruct rs. }
  rewrite E' in Hb. cbn in Hb. by injection Hb as <-.
Qed.
End records.

(** The RFC 6962 path of a leaf verifies against the head. *)
Lemma path_verifies fuel s a p leaves (i : nat) leaf :
  ProfileForAlgorithm s a = Ok p → Forall is_digest leaves → leaves !! i = Some leaf →
  len leaves <= 2 ^ 62 → (63 <= fuel)%nat →
  VerifyForSuite fuel s a leaf (Z.of_nat i) (len leaves) (PATH p i leaves) (MTH p leaves)
  = Some (Ok true).
Proof.
  intros Hp Hl Hi H62 Hf. pose proof (lookup_lt_Some _ _ _ Hi) as Hlt.
  pose proof (ProfileForAlgorithm_wf _ _ _ Hp) as Hwf. unfold VerifyForSuite. rewrite Hp.
  rewrite verify_spec by (done || lia || (split; [apply len_nonneg|done])). cbn. do 2 f_equal.
  apply bool_decide_eq_true. split; [by eapply Forall_lookup_1|].
  split; [by apply MTH_digest|]. split; [unfold len; lia|].
  unfold len. rewrite !Nat2Z.id, <- (app_nil_r (PATH p i leaves)).
  apply path_root_complete; [done|apply pow62_fuel; [done|lia]|].
  eapply Forall_impl; [by apply PATH_digests|]. intros h. apply digestb_true.
Qed.

(** A path that verifies against the head of [leaves] is for the leaf at the
    index, or two different node inputs collide. *)
Lemma verify_binds fuel s a p leaves leaf (i : Z) path :
  ProfileForAlgorithm s a = Ok p → Forall is_digest leaves →
  len leaves <= 2 ^ 62 → (63 <= fuel)%nat → 0 <= i →
  VerifyForSuite fuel s a leaf i (len leaves) path (MTH p leaves) = Some (Ok true) →
  leaves !! Z.to_nat i = Some leaf ∨
  hash_collision p (verify_inputs p fuel i (len leaves) leaf path) (tree_inputs p leaves).
Proof.
  intros Hp Hl H62 Hf Hi Hv. pose proof (ProfileForAlgorithm_wf _ _ _ Hp) as Hwf.
  unfold VerifyForSuite in Hv. rewrite Hp in Hv.
  rewrite verify_spec in Hv by (done || lia || (split; [apply len_nonneg|done])).
  cbn in Hv. injection Hv as Hv%bool_decide_eq_true. destruct Hv as (Hdl & Hdr & Hlt & Href).
  unfold len in *. rewrite Nat2Z.id in *. unfold verify_inputs. rewrite Nat2Z.id.
  destruct (path_root_sound (profile_node p) (profile_hash p []) digestb fuel (Z.to_nat i)
    leaves leaf path []) as [?|Hc]; [lia|apply pow62_fuel; [done|lia]|done|by left|].
  right. apply collision_inputs in Hc; [done| |by apply tree_inputs_digests].
  apply path_pairs_all; [intros; apply profile_node_digest|done|apply digestb_true].
Qed.

(** The paths of a tree, copied or viewed. *)
Lemma tree_paths fuel p leaves t (i : nat) :
  tree_ok p leaves t → Forall is_digest leaves → len leaves <= 2 ^ 62 →
  (i < length leaves)%nat → (63 <= fuel)%nat →
  Proof_ fuel t (Z.of_nat i) = Some (Ok (PATH p i leaves)) ∧
  ProofView fuel t (Z.of_nat i) = Some (Ok (PATH p i leaves)).
Proof.
  intros Hok Hdig H62 Hi Hf. pose proof Hok as (Hleaf & _ & _).
  assert (auditPath fuel t (Z.of_nat i) = Some (PATH p i leaves)) as Hap by (by apply auditPath_spec; [| |lia|lia]).
  unfold Proof_, ProofView. rewrite Hleaf.
  rewrite (proj2 (Z.ltb_ge _ _)), (proj2 (Z.leb_gt _ _)) by (unfold len; lia). cbn [orb].
  rewrite Hap. cbn [mbind option_bind]. rewrite map_cloneHash by (by apply PATH_digests). split; [done|].
  unfold auditPath in Hap. rewrite Hleaf in Hap.
  destruct (merklePathLen _ _); [|done]. cbn [mbind option_bind] in Hap |- *.
  pose proof (appendAuditPathRanges_view fuel t [] [] 0 (len leaves) (Z.of_nat i) eq_refl) as Hview.
  rewrite Hap in Hview. destruct (appendAuditPathRanges _ _ _ _ _); [|done].
  cbn [mbind option_bind] in Hview |- *. rewrite Hview. cbn [mbind option_bind].
  by rewrite ?map_cloneHash by (by apply PATH_digests).
Qed.

(** ** The properties *)

(** C33: [RootFromLeavesForSuite] and [AuditPathFromLeavesForSuite] compute the
    tree head and the audit path of RFC 6962, for every suite, every non-empty
    list of at most [2 ^ 62] leaf hashes and every index; the path has at most
    62 elements. *)
Theorem merkle_rfc6962 fuel s a p leaves :
  ProfileForAlgorithm s a = Ok p → Forall is_digest leaves → leaves ≠ [] →
  len leaves <= 2 ^ 62 → (63 <= fuel)%nat →
  RootFromLeavesForSuite fuel s a leaves = Some (Ok (MTH p leaves)) ∧
  (∀ i, (i < length leaves)%nat →
     AuditPathFromLeavesForSuite fuel s a leaves (Z.of_nat i) = Some (Ok (PATH p i leaves)) ∧
     (length (PATH p i leaves) <= 62)%nat) ∧
  (∀ i, len leaves <= i < two64 → ∃ e,
     AuditPathFromLeavesForSuite fuel s a leaves i = Some (Err e)).
Proof.
  intros Hp Hl Hne H62 Hf. split; [by apply RootFromLeaves_spec|]. split.
  - intros i Hi. split; [by apply AuditPath_spec|].
    destruct (pow62_levels (length leaves) H62) as (j & Hj & Hpow).
    etrans; [by apply path_length|done].
  - intros i Hi. unfold AuditPathFromLeavesForSuite. rewrite Hp.
    destruct (len leaves =? 0); [by eexists|].
    rewrite u64_small by (unfold in_u64; pose proof (len_nonneg leaves); lia).
    rewrite (proj2 (Z.leb_le _ _)) by lia. by eexists.
Qed.

(** C2: soundness: if a leaf hash verifies at index [i] against the root of a
    tree, then it is the leaf hash the tree has at [i], or the verification and
    the construction of the tree hashed two different inner-node inputs to the
    same digest. *)
Theorem verify_sound fuel s a p leaves root leaf (i : Z) path :
  ProfileForAlgorithm s a = Ok p → Forall is_digest leaves →
  len leaves <= 2 ^ 62 → (63 <= fuel)%nat → 0 <= i →
  RootFromLeavesForSuite fuel s a leaves = Some (Ok root) →
  VerifyForSuite fuel s a leaf i (len leaves) path root = Some (Ok true) →
  leaves !! Z.to_nat i = Some leaf ∨
  hash_collision p (verify_inputs p fuel i (len leaves) leaf path) (tree_inputs p leaves).
Proof.
  intros Hp Hl H62 Hf Hi Hroot Hv.
  destruct (decide (leaves = [])) as [->|Hne].
  { pose proof (ProfileForAlgorithm_wf _ _ _ Hp) as Hwf. unfold VerifyForSuite in Hv. rewrite Hp in Hv.
    rewrite verify_spec in Hv by (done || lia || (split; [apply len_nonneg|done])).
    cbn in Hv. injection Hv as Hv%bool_decide_eq_true. unfold len in Hv. simpl in Hv. lia. }
  rewrite (RootFromLeaves_spec _ _ _ p) in Hroot by done. injection Hroot as <-.
  by apply (verify_binds fuel s a).
Qed.

(** For every tree size up to [2 ^ 62] verification returns, and its answer
    is the one of the RFC 6962 verifier: the leaf hash and the root are 32
    bytes, the index is in the tree, and the audit path leads from the leaf to
    the root using up all of its elements, each of 32 bytes. *)
Theorem verify_decides fuel s a p leaf i n path root :
  ProfileForAlgorithm s a = Ok p → (62 <= fuel)%nat → 0 <= i → 0 <= n <= 2 ^ 62 →
  VerifyForSuite fuel s a leaf i n path root
  = Some (Ok (bool_decide (is_digest leaf ∧ is_digest root ∧ i < n ∧
      path_root (profile_node p) digestb fuel (Z.to_nat i) (Z.to_nat n) leaf path
      = Some (root, [])))).
Proof.
  intros Hp Hf Hi Hn. pose proof (ProfileForAlgorithm_wf _ _ _ Hp) as Hwf.
  unfold VerifyForSuite. rewrite Hp. by rewrite verify_spec.
Qed.

(** C39: for a tree size above [2 ^ 62] that passes the length checks,
    verification never returns, whatever the path: [int(treeSize)] is negative
    and the recursion does not shrink it, or the doubling of [k] in
    [largestPowerOfTwoLessThan] overflows to 0 and stays there. *)
Theorem verify_diverges fuel s a p leaf i n path root :
  ProfileForAlgorithm s a = Ok p → is_digest leaf → is_digest root →
  2 ^ 62 < n < two64 → 0 <= i < n →
  VerifyForSuite fuel s a leaf i n path root = None.
Proof.
  intros Hp Hl Hr Hn Hi. pose proof (ProfileForAlgorithm_wf _ _ _ Hp) as (_ & Hsz & _).
  assert (2 ^ 62 = 4611686018427387904) as E62 by done.
  unfold VerifyForSuite. rewrite Hp. unfold verifyWithProfile, Size. rewrite Hsz.
  apply len_digest in Hl, Hr. rewrite Hl, Hr.
  rewrite (proj2 (Z.eqb_neq n 0)), (proj2 (Z.leb_gt n i)) by lia. cbn [Z.eqb Pos.eqb negb orb].
  rewrite rebuild_diverges; [done|done|apply i64_range].
Qed.

(** Building a batch tree from records of the suite succeeds; its root is
    the RFC 6962 head of the leaf hashes [H(0x00 || cbor(record))], and [Proof],
    the copy-free [ProofView] and the entry of [Proofs] are the RFC 6962 path
    for every index, and an error outside the tree. *)
Theorem build_records `{CborMode ServerRecord.t, KeyDescriptorLib} fuel s a p records encs :
  ProfileForAlgorithm s a = Ok p →
  Forall2 (λ r b, r.(ServerRecord.CryptoSuite) = s ∧ encMode_Marshal r = Ok b) records encs →
  records ≠ [] → len records <= 2 ^ 62 → (63 <= fuel)%nat →
  let leaves := map (leaf_hash p) encs in
  ∃ t, BuildForSuite fuel s a records = Some (Ok t) ∧
    Root t = MTH p leaves ∧
    Proofs fuel t = Some (map (λ i, PATH p i leaves) (seq 0 (length records))) ∧
    ∀ i, Proof_ fuel t i = ProofView fuel t i ∧
      Proof_ fuel t i =
        if (i <? 0) || (len records <=? i) then Some out_of_range
        else Some (Ok (PATH p (Z.to_nat i) leaves)).
Proof.
  intros Hp HF Hne H62 Hf leaves. pose proof (ProfileForAlgorithm_wf _ _ _ Hp) as Hwf.
  apply Forall2_length in HF as Hlen.
  assert (length leaves = length records) as Hll by (subst leaves; rewrite length_map; lia).
  assert (is_ok (cryptosuite.RequireKnown s) = true) as Hk.
  { unfold ProfileForAlgorithm in Hp. apply bind_Ok in Hp as (su & Hk & _). by rewrite Hk. }
  assert (leaves ≠ []) as Hnel by (intros E; destruct records; [done|by rewrite E in Hll]).
  destruct (build_spec fuel p leaves) as (t & Ht & Hok);
    [done..|unfold len in *; lia|done|]. exists t.
  pose proof (leaf_hashes_digests p encs) as Hdig. fold leaves in Hdig.
  pose proof Hok as (Hleaf & Hroot & Hat).
  assert (∀ m, (m < length records)%nat → auditPath fuel t (Z.of_nat m) = Some (PATH p m leaves)) as Hap.
  { intros m Hm. apply auditPath_spec; [done|unfold len in *; lia|lia|lia]. }
  split; [|split; [|split]].
  - unfold BuildForSuite. rewrite Hp.
    destruct (len records =? 0) eqn:E; [bsimpl; by destruct records|].
    rewrite (hashRecords_total s p records encs) by done. cbn [mbind option_bind].
    fold leaves. by rewrite Ht.
  - unfold Root. rewrite Hroot, cloneHash_digest; [done|by apply MTH_digest].
  - unfold Proofs. rewrite Hleaf, Hll. apply mapM_Some_2, Forall2_fmap_r, Forall2_same_length_lookup_2.
    + done.
    + intros i x y Hx Hy. simplify_eq. apply lookup_seq in Hx as [-> Hi]. simpl.
      rewrite Hap by lia. cbn. by rewrite map_cloneHash by (by apply PATH_digests).
  - intros i. destruct ((i <? 0) || (len records <=? i)) eqn:E.
    { unfold Proof_, ProofView. rewrite Hleaf. unfold len. rewrite Hll. fold (len records). by rewrite E. }
    bsimpl. unfold len in *. replace i with (Z.of_nat (Z.to_nat i)) by lia. rewrite Nat2Z.id.
    destruct (tree_paths fuel p leaves t (Z.to_nat i)) as [-> ->]; [done..|unfold len; lia|lia|lia|done].
Qed.

(** The root binds the records: two batches of the same length with the
    same root hold the same records, or two different hash inputs of the two
    trees (leaf or node) have the same digest. *)
Theorem root_binds_records `{CborMode ServerRecord.t, !CborModeInjective ServerRecord.t,
    KeyDescriptorLib} fuel s a p rs1 rs2 t1 t2 :
  ProfileForAlgorithm s a = Ok p → len rs1 <= 2 ^ 62 → (63 <= fuel)%nat →
  length rs1 = length rs2 →
  BuildForSuite fuel s a rs1 = Some (Ok t1) → BuildForSuite fuel s a rs2 = Some (Ok t2) →
  Root t1 = Root t2 →
  rs1 = rs2 ∨
  hash_collision p (leaf_inputs p rs1 ++ tree_inputs p (leafHashes t1))
                   (leaf_inputs p rs2 ++ tree_inputs p (leafHashes t2)).
Proof.
  intros Hp H62 Hf Hlen Hb1 Hb2 E.
  assert (len rs2 <= 2 ^ 62) as H62' by (unfold len in *; lia).
  apply (BuildForSuite_inv _ _ _ p) in Hb1 as (Hne & bs1 & HF1 & Hl1 & Hr1 & _); [|done..].
  apply (BuildForSuite_inv _ _ _ p) in Hb2 as (_ & bs2 & HF2 & Hl2 & Hr2 & _); [|done..].
  unfold Root in E. rewrite Hr1, Hr2 in E.
  rewrite !cloneHash_digest in E by (apply MTH_digest, leaf_hashes_digests).
  rewrite Hl1, Hl2, (leaf_inputs_spec p rs1 bs1), (leaf_inputs_spec p rs2 bs2) by done.
  apply Forall2_length in HF1 as Hn1. apply Forall2_length in HF2 as Hn2.
  apply MTH_binds in E as [E|Hc]; [| |apply leaf_hashes_digests..|rewrite !length_map; lia|];
    [|right; revert Hc; apply hash_collision_mono; set_solver|].
  2: { destruct bs1; [by destruct rs1|done]. }
  apply leaf_hash_inj in E as [->|Hc]; [|right; revert Hc; apply hash_collision_mono; set_solver].
  left. clear -HF1 HF2 CborModeInjective0. revert rs2 HF2. induction HF1 as [|r b rs bs Hb _ IH];
    intros rs2 HF2; inversion HF2 as [|r2 b2 rs2' bs' Hb2 HF2']; subst; [done|].
  f_equal; [|by apply IH]. by eapply cborx.Marshal_injective; apply cborx.Marshal_Ok.
Qed.

End proofs.

(** ** Concrete instances *)

Definition ex_alg : string := cryptosuite.MerkleRFC6962SM3.
Definition ex_suite : cryptosuite.ID := cryptosuite.CNSMV1.
Definition ex_profile : Profile :=
  {| suite := ex_suite; algorithm := ex_alg; hashAlg := cryptosuite.HashSM3;
     hashKind := hashKindSM3; leafPrefix := Byte.x00; nodePrefix := Byte.x01;
     digestBytes := 32 |}.
Definition ex_leaf (b : byte) : bytes := replicate 32 b.
Definition ex_leaves : list bytes :=
  [ex_leaf Byte.x01; ex_leaf Byte.x02; ex_leaf Byte.x03; ex_leaf Byte.x04; ex_leaf Byte.x05].
Definition ex_record (id : string) : ServerRecord.t :=
  ServerRecord.mk SchemaServerRecord ex_suite id "t" "c" "k" [] [] 7 WALPosition.zero
    Validation.zero.
Definition ex_records : list ServerRecord.t := [ex_record "r1"; ex_record "r2"; ex_record "r3"].
#[local] Instance ex_codec : CborMode ServerRecord.t := table_codec ex_records.
#[local] Instance ex_injective : CborModeInjective ServerRecord.t.
Proof. apply table_injective. reflexivity. Qed.

Lemma ex_profile_ok : ProfileForAlgorithm ex_suite ex_alg = Ok ex_profile.
Proof. reflexivity. Qed.

Lemma ex_leaves_digests : Forall is_digest ex_leaves.
Proof. repeat constructor. Qed.

Lemma merkle_rfc6962_witness :
  RootFromLeavesForSuite 63 ex_suite ex_alg ex_leaves = Some (Ok (MTH ex_profile ex_leaves)) ∧
  AuditPathFromLeavesForSuite 63 ex_suite ex_alg ex_leaves 3
  = Some (Ok (PATH ex_profile 3 ex_leaves)).
Proof.
  destruct (merkle_rfc6962 63 ex_suite ex_alg ex_profile ex_leaves) as (Hr & Hp & _);
    [exact ex_profile_ok|exact ex_leaves_digests|done|done|lia|].
  split; [exact Hr|]. apply (Hp 3%nat). cbn. lia.
Defined.

Definition ex_root : bytes :=
  match RootFromLeavesForSuite 63 ex_suite ex_alg ex_leaves with Some (Ok r) => r | _ => [] end.
Definition ex_path : list bytes :=
  match AuditPathFromLeavesForSuite 63 ex_suite ex_alg ex_leaves 3 with
  | Some (Ok r) => r | _ => [] end.

Lemma verify_sound_witness :
  VerifyForSuite 63 ex_suite ex_alg (ex_leaf Byte.x04) 3 (len ex_leaves) ex_path ex_root
    = Some (Ok true) ∧
  (ex_leaves !! 3%nat = Some (ex_leaf Byte.x04) ∨
   hash_collision ex_profile
     (verify_inputs ex_profile 63 3 (len ex_leaves) (ex_leaf Byte.x04) ex_path)
     (tree_inputs ex_profile ex_leaves)).
Proof.
  split; [vm_compute; reflexivity|].
  apply (verify_sound 63 ex_suite ex_alg ex_profile ex_leaves ex_root (ex_leaf Byte.x04) 3 ex_path);
    [exact ex_profile_ok|exact ex_leaves_digests|done|lia|lia|vm_compute; reflexivity..].
Defined.

(** A path for another leaf is rejected. *)
Lemma verify_decides_witness :
  VerifyForSuite 63 ex_suite ex_alg (ex_leaf Byte.x05) 3 5 ex_path ex_root = Some (Ok false).
Proof.
  rewrite (verify_decides 63 ex_suite ex_alg ex_profile (ex_leaf Byte.x05) 3 5 ex_path ex_root);
    [vm_compute; reflexivity|exact ex_profile_ok|lia|lia|lia].
Defined.

Lemma verify_diverges_witness :
  VerifyForSuite 1000 ex_suite ex_alg (ex_leaf Byte.x05) 0 (2 ^ 62 + 1) [] (ex_leaf Byte.x05)
  = None.
Proof.
  apply (verify_diverges 1000 ex_suite ex_alg ex_profile);
    [exact ex_profile_ok|reflexivity|reflexivity|unfold two64; lia|lia].
Defined.

Lemma build_records_witness :
  ∃ t, BuildForSuite 63 ex_suite ex_alg ex_records = Some (Ok t) ∧
       Proof_ 63 t 2 = ProofView 63 t 2.
Proof.
  destruct (build_records 63 ex_suite ex_alg ex_profile ex_records
    [be_put 8 0; be_put 8 1; be_put 8 2]) as (t & Ht & _ & _ & Hi);
    [exact ex_profile_ok|repeat constructor|done|done|lia|].
  exists t. split; [exact Ht|]. apply Hi.
Defined.

Definition ex_tree : option (result Tree) := BuildForSuite 63 ex_suite ex_alg ex_records.

Lemma root_binds_records_witness :
  match ex_tree with
  | Some (Ok t) =>
      ex_records = ex_records ∨
      hash_collision ex_profile (leaf_inputs ex_profile ex_records ++ tree_inputs ex_profile (leafHashes t))
        (leaf_inputs ex_profile ex_records ++ tree_inputs ex_profile (leafHashes t))
  | _ => False
  end.
Proof.
  destruct ex_tree as [[t|]|] eqn:E; [|vm_compute in E; discriminate E..].
  apply (root_binds_records 63 ex_suite ex_alg ex_profile ex_records ex_records t t);
    [exact ex_profile_ok|done|lia|reflexivity|exact E|exact E|reflexivity].
Defined.

End merkle_proofs.
