(* ===== verification/GlobalStore.v ===== *)
(** * The store of the global log

    The part of the interface [Store] of [src/internal/globallog/service.go]
    the service uses, as a class of operations over a store type, with the
    laws its clients rely on, and the Pebble implementation of
    [src/internal/proofstore/pebble/store.go].

    The Pebble model keeps decoded values: the CBOR encoding of an object is
    still attempted, and its error returned, where the source encodes.  Disk
    errors, key formats and cancelled contexts are not modelled. *)

From stdpp Require Import sorting.
From S2P Require Import Prelude TrustErr CryptoSuite Model TrustCrypto Cborx KeyDescriptor.
From S2P Require Import ModelSuite.

(** What a store holds, as its readers see it. *)
Record contents := mkContents {
  c_leaves : gmap Z GlobalLogLeaf.t;
  c_batches : gmap string GlobalLogLeaf.t;
  c_nodes : gmap (Z * Z) GlobalLogNode.t;
  c_state : option GlobalLogState.t;
  c_sths : gmap Z SignedTreeHead.t }.

Definition empty_contents : contents := mkContents ∅ ∅ ∅ None ∅.

Definition put_leaf (l : GlobalLogLeaf.t) (c : contents) : contents :=
  mkContents (<[l.(GlobalLogLeaf.LeafIndex) := l]> (c_leaves c))
    (<[l.(GlobalLogLeaf.BatchID) := l]> (c_batches c)) (c_nodes c) (c_state c) (c_sths c).
Definition put_node (n : GlobalLogNode.t) (c : contents) : contents :=
  mkContents (c_leaves c) (c_batches c)
    (<[(n.(GlobalLogNode.Level), n.(GlobalLogNode.StartIndex)) := n]> (c_nodes c))
    (c_state c) (c_sths c).
Definition put_state (st : GlobalLogState.t) (c : contents) : contents :=
  mkContents (c_leaves c) (c_batches c) (c_nodes c) (Some st) (c_sths c).
Definition put_sth (h : SignedTreeHead.t) (c : contents) : contents :=
  mkContents (c_leaves c) (c_batches c) (c_nodes c) (c_state c)
    (<[h.(SignedTreeHead.TreeSize) := h]> (c_sths c)).

(** The writes of one append. *)
Definition put_append (c : contents) (e : GlobalLogAppend.t) : contents :=
  put_sth e.(GlobalLogAppend.STH)
    (put_state e.(GlobalLogAppend.State)
      (foldl (λ c n, put_node n c) (put_leaf e.(GlobalLogAppend.Leaf) c)
         e.(GlobalLogAppend.Nodes))).

(** The interface. [HasBatchAppend] is the type assertion to
    [BatchAppendStore]. *)
Class GlobalStore (S : Type) := mkGlobalStore {
  GetGlobalLeaf : S → Z → result (option GlobalLogLeaf.t);
  GetGlobalLeafByBatchID : S → string → result (option GlobalLogLeaf.t);
  ListGlobalLeavesRange : S → Z → Z → result (list GlobalLogLeaf.t);
  GetGlobalLogNode : S → Z → Z → result (option GlobalLogNode.t);
  GetGlobalLogState : S → result (option GlobalLogState.t);
  GetSignedTreeHead : S → Z → result (option SignedTreeHead.t);
  LatestSignedTreeHead : S → result (option SignedTreeHead.t);
  PutGlobalLogNode : S → GlobalLogNode.t → S * result unit;
  PutGlobalLogState : S → GlobalLogState.t → S * result unit;
  PutGlobalLogTile : S → GlobalLogTile.t → S * result unit;
  CommitGlobalLogAppend : S → GlobalLogAppend.t → S * result unit;
  CommitGlobalLogAppends : S → list GlobalLogAppend.t → S * result unit;
  HasBatchAppend : bool;
  (** [LatestSTHAnchorResult] and its keyed variant; [None] when the store
      does not implement the optional interface. *)
  LatestSTHAnchorResult : option (S → result (option STHAnchorResult.t));
  LatestSTHAnchorResultForKey :
    option (S → STHAnchorScheduleKey.t → result (option STHAnchorResult.t)) }.

(** No field a store would fill in by itself is left empty. *)
Definition stamped (e : GlobalLogAppend.t) : Prop :=
  e.(GlobalLogAppend.Leaf).(GlobalLogLeaf.SchemaVersion) ≠ "" ∧
  e.(GlobalLogAppend.Leaf).(GlobalLogLeaf.AppendedAtUnixN) ≠ 0 ∧
  e.(GlobalLogAppend.State).(GlobalLogState.SchemaVersion) ≠ "" ∧
  e.(GlobalLogAppend.State).(GlobalLogState.UpdatedAtUnixN) ≠ 0 ∧
  e.(GlobalLogAppend.STH).(SignedTreeHead.SchemaVersion) ≠ "" ∧
  e.(GlobalLogAppend.STH).(SignedTreeHead.TimestampUnixN) ≠ 0 ∧
  Forall (λ n, n.(GlobalLogNode.SchemaVersion) ≠ "" ∧ n.(GlobalLogNode.CreatedAtUnixN) ≠ 0)
    e.(GlobalLogAppend.Nodes).

(** The laws: a read that succeeds returns what the store holds, and an
    append either writes everything or fails and writes nothing. *)
Class GlobalStoreLaws S `{GlobalStore S} := {
  view : S → contents;
  get_leaf_law s i r : GetGlobalLeaf s i = Ok r → r = c_leaves (view s) !! i;
  get_batch_law s b r : GetGlobalLeafByBatchID s b = Ok r → r = c_batches (view s) !! b;
  list_range_law s i n r l : ListGlobalLeavesRange s i n = Ok r → l ∈ r →
    ∃ k, c_leaves (view s) !! k = Some l;
  get_node_law s l i r : GetGlobalLogNode s l i = Ok r → r = c_nodes (view s) !! (l, i);
  get_state_law s r : GetGlobalLogState s = Ok r → r = c_state (view s);
  get_sth_law s n r : GetSignedTreeHead s n = Ok r → r = c_sths (view s) !! n;
  latest_sth_law s r : LatestSignedTreeHead s = Ok r →
    match r with
    | Some h => ∃ n, c_sths (view s) !! n = Some h
    | None => c_sths (view s) = ∅
    end;
  commit_batch_law s es s' : Forall stamped es →
    CommitGlobalLogAppends s es = (s', Ok tt) → view s' = foldl put_append (view s) es;
  commit_batch_fail s es s' e : CommitGlobalLogAppends s es = (s', Err e) → view s' = view s;
  commit_one_law s e s' : stamped e →
    CommitGlobalLogAppend s e = (s', Ok tt) → view s' = put_append (view s) e;
  commit_one_fail s e s' er : CommitGlobalLogAppend s e = (s', Err er) → view s' = view s }.

(** Reads of a store whose disk works. *)
Class GlobalStoreReads S `{GlobalStore S} := {
  get_leaf_ok s i : is_ok (GetGlobalLeaf s i) = true;
  get_batch_ok s b : b ≠ "" → is_ok (GetGlobalLeafByBatchID s b) = true;
  get_node_ok s l i : is_ok (GetGlobalLogNode s l i) = true;
  get_sth_ok s n : n ≠ 0 → is_ok (GetSignedTreeHead s n) = true }.

(** ** Pebble *)

Module pebble.

Section store.
Context `{CborMode GlobalLogLeaf.t, CborMode GlobalLogState.t, CborMode SignedTreeHead.t,
  CborMode GlobalLogNode.t, CborMode GlobalLogTile.t, KeyDescriptorLib}.

(** [binding] is the verdict of [proofstoremeta.ValidateBinding] on the
    binding the store was opened with; [now] is what [time.Now] returns. *)
Record Store := mkStore {
  db : contents;
  tiles : gmap (Z * Z * Z) GlobalLogTile.t;
  CryptoSuite : cryptosuite.ID;
  binding : result unit;
  now : Z }.

Definition set_db (c : contents) (s : Store) : Store :=
  mkStore c (tiles s) (CryptoSuite s) (binding s) (now s).

Definition requireSuite (s : Store) (value : modelsuite.Any) : result unit :=
  _ ← wrap_err CodeFailedPrecondition "proofstore namespace binding" (binding s);
  wrap_err CodeInvalidArgument "proofstore crypto_suite" (modelsuite.Require_ (CryptoSuite s) value).

(** [if x == "" { x = d }], [if x == 0 { x = d }] *)
Definition default_string (d x : string) : string := if seqb x "" then d else x.
Definition default_int (d x : Z) : Z := if x =? 0 then d else x.

Definition fill_leaf (t : Z) (l : GlobalLogLeaf.t) : GlobalLogLeaf.t :=
  GlobalLogLeaf.mk (default_string SchemaGlobalLogLeaf l.(GlobalLogLeaf.SchemaVersion))
    l.(GlobalLogLeaf.CryptoSuite) l.(GlobalLogLeaf.NodeID) l.(GlobalLogLeaf.LogID)
    l.(GlobalLogLeaf.BatchID) l.(GlobalLogLeaf.BatchRoot) l.(GlobalLogLeaf.BatchTreeSize)
    l.(GlobalLogLeaf.BatchClosedAtUnixN) l.(GlobalLogLeaf.LeafIndex) l.(GlobalLogLeaf.LeafHash)
    (default_int t l.(GlobalLogLeaf.AppendedAtUnixN)).

Definition fill_state (t : Z) (x : GlobalLogState.t) : GlobalLogState.t :=
  GlobalLogState.mk (default_string SchemaGlobalLogState x.(GlobalLogState.SchemaVersion))
    x.(GlobalLogState.CryptoSuite) x.(GlobalLogState.TreeSize) x.(GlobalLogState.RootHash)
    x.(GlobalLogState.Frontier) (default_int t x.(GlobalLogState.UpdatedAtUnixN)).

Definition fill_sth (t : Z) (h : SignedTreeHead.t) : SignedTreeHead.t :=
  SignedTreeHead.mk (default_string SchemaSignedTreeHead h.(SignedTreeHead.SchemaVersion))
    h.(SignedTreeHead.CryptoSuite) h.(SignedTreeHead.TreeAlg) h.(SignedTreeHead.TreeSize)
    h.(SignedTreeHead.RootHash) (default_int t h.(SignedTreeHead.TimestampUnixN))
    h.(SignedTreeHead.NodeID) h.(SignedTreeHead.LogID) h.(SignedTreeHead.Signature).

Definition fill_node (t : Z) (n : GlobalLogNode.t) : GlobalLogNode.t :=
  GlobalLogNode.mk (default_string SchemaGlobalLogNode n.(GlobalLogNode.SchemaVersion))
    n.(GlobalLogNode.CryptoSuite) n.(GlobalLogNode.Level) n.(GlobalLogNode.StartIndex)
    n.(GlobalLogNode.Width) n.(GlobalLogNode.Hash)
    (default_int t n.(GlobalLogNode.CreatedAtUnixN)).

(** The encoding of each node; only its error matters here. *)
Fixpoint marshal_nodes (ns : list GlobalLogNode.t) : result unit :=
  match ns with
  | [] => Ok tt
  | n :: rest =>
      _ ← wrap_err CodeDataLoss "encode global log append node" (cborx.Marshal n);
      marshal_nodes rest
  end.

(** A write that fails leaves the store as it was. *)
Definition commit (s : Store) (r : result contents) : Store * result unit :=
  match r with
  | Ok c => (set_db c s, Ok tt)
  | Err e => (s, Err e)
  end.

Definition commit_append (s : Store) (entry : GlobalLogAppend.t) : result contents :=
  let leaf := entry.(GlobalLogAppend.Leaf) in
  let sth := entry.(GlobalLogAppend.STH) in
  _ ← requireSuite s (modelsuite.AnyGlobalLogAppend entry);
  if seqb leaf.(GlobalLogLeaf.BatchID) ""
  then Err (New CodeInvalidArgument "global log append leaf batch_id is required") else
  if sth.(SignedTreeHead.TreeSize) =? 0
  then Err (New CodeInvalidArgument "global log append STH tree_size is required") else
  if negb (leaf.(GlobalLogLeaf.LeafIndex) =? u64 (sth.(SignedTreeHead.TreeSize) - 1))
  then Err (New CodeInvalidArgument "global log append STH tree_size must match leaf index") else
  if negb (entry.(GlobalLogAppend.State).(GlobalLogState.TreeSize) =? sth.(SignedTreeHead.TreeSize))
  then Err (New CodeInvalidArgument "global log append state and STH tree_size must match") else
  if existsb (λ n, n.(GlobalLogNode.Width) =? 0) entry.(GlobalLogAppend.Nodes)
  then Err (New CodeInvalidArgument "global log append node width is required") else
  let leaf := fill_leaf (now s) leaf in
  let state := fill_state (now s) entry.(GlobalLogAppend.State) in
  let sth := fill_sth (now s) sth in
  _ ← wrap_err CodeDataLoss "encode global log append leaf" (cborx.Marshal leaf);
  _ ← wrap_err CodeDataLoss "encode global log append state" (cborx.Marshal state);
  _ ← wrap_err CodeDataLoss "encode global log append STH" (cborx.Marshal sth);
  let nodes := map (fill_node (now s)) entry.(GlobalLogAppend.Nodes) in
  _ ← marshal_nodes nodes;
  Ok (put_append (db s) (GlobalLogAppend.mk leaf nodes state sth)).

Definition CommitGlobalLogAppend (s : Store) (entry : GlobalLogAppend.t) : Store * result unit :=
  commit s (commit_append s entry).

Fixpoint requireSuites (s : Store) (entries : list GlobalLogAppend.t) : result unit :=
  match entries with
  | [] => Ok tt
  | e :: rest =>
      _ ← wrap_err CodeInvalidArgument "global log append %d"
            (requireSuite s (modelsuite.AnyGlobalLogAppend e));
      requireSuites s rest
  end.

(** One iteration of the encoding loop of [CommitGlobalLogAppends]. *)
Definition encode_append (s : Store) (entry : GlobalLogAppend.t) : result GlobalLogAppend.t :=
  let leaf := entry.(GlobalLogAppend.Leaf) in
  let sth := entry.(GlobalLogAppend.STH) in
  if seqb leaf.(GlobalLogLeaf.BatchID) "" || (sth.(SignedTreeHead.TreeSize) =? 0)
     || negb (leaf.(GlobalLogLeaf.LeafIndex) =? u64 (sth.(SignedTreeHead.TreeSize) - 1))
     || negb (entry.(GlobalLogAppend.State).(GlobalLogState.TreeSize)
              =? sth.(SignedTreeHead.TreeSize))
  then Err (New CodeInvalidArgument "invalid global log append") else
  let leaf := fill_leaf (now s) leaf in
  let state := fill_state (now s) entry.(GlobalLogAppend.State) in
  let sth := fill_sth (now s) sth in
  _ ← wrap_err CodeDataLoss "encode global log append leaf" (cborx.Marshal leaf);
  _ ← wrap_err CodeDataLoss "encode global log append STH" (cborx.Marshal sth);
  if existsb (λ n, n.(GlobalLogNode.Width) =? 0) entry.(GlobalLogAppend.Nodes)
  then Err (New CodeInvalidArgument "global log append node width is required") else
  let nodes := map (fill_node (now s)) entry.(GlobalLogAppend.Nodes) in
  _ ← marshal_nodes nodes;
  Ok (GlobalLogAppend.mk leaf nodes state sth).

Fixpoint encode_appends (s : Store) (entries : list GlobalLogAppend.t)
  : result (list GlobalLogAppend.t) :=
  match entries with
  | [] => Ok []
  | e :: rest =>
      e' ← encode_append s e;
      rest' ← encode_appends s rest;
      Ok (e' :: rest')
  end.

(** Every leaf, node and tree head is staged; the state staged is the one of
    the last entry, which is also the last one [put_append] writes. *)
Definition commit_appends (s : Store) (entries : list GlobalLogAppend.t) : result contents :=
  _ ← requireSuites s entries;
  if len entries =? 0
  then Err (New CodeInvalidArgument "global log appends require at least one entry") else
  encoded ← encode_appends s entries;
  _ ← match last encoded with
      | Some e => wrap_err CodeDataLoss "encode global log append state"
                    (cborx.Marshal e.(GlobalLogAppend.State))
      | None => Ok []
      end;
  Ok (foldl put_append (db s) encoded).

Definition CommitGlobalLogAppends (s : Store) (entries : list GlobalLogAppend.t)
  : Store * result unit :=
  commit s (commit_appends s entries).

Definition PutGlobalLogNode (s : Store) (node : GlobalLogNode.t) : Store * result unit :=
  commit s (
    _ ← requireSuite s (modelsuite.AnyGlobalLogNode node);
    if node.(GlobalLogNode.Width) =? 0
    then Err (New CodeInvalidArgument "global log node width is required") else
    let node := fill_node (now s) node in
    _ ← wrap_err CodeDataLoss "write global node" (cborx.Marshal node);
    Ok (put_node node (db s))).

Definition PutGlobalLogState (s : Store) (state : GlobalLogState.t) : Store * result unit :=
  commit s (
    _ ← requireSuite s (modelsuite.AnyGlobalLogState state);
    let state := fill_state (now s) state in
    _ ← wrap_err CodeDataLoss "write global state" (cborx.Marshal state);
    Ok (put_state state (db s))).

Definition PutGlobalLeaf (s : Store) (leaf : GlobalLogLeaf.t) : Store * result unit :=
  commit s (
    _ ← requireSuite s (modelsuite.AnyGlobalLogLeaf leaf);
    if seqb leaf.(GlobalLogLeaf.BatchID) ""
    then Err (New CodeInvalidArgument "global log leaf batch_id is required") else
    let leaf := fill_leaf (now s) leaf in
    _ ← wrap_err CodeDataLoss "encode global leaf" (cborx.Marshal leaf);
    Ok (put_leaf leaf (db s))).

Definition PutSignedTreeHead (s : Store) (sth : SignedTreeHead.t) : Store * result unit :=
  commit s (
    _ ← requireSuite s (modelsuite.AnySignedTreeHead sth);
    if sth.(SignedTreeHead.TreeSize) =? 0
    then Err (New CodeInvalidArgument "sth tree_size is required") else
    let sth := fill_sth (now s) sth in
    _ ← wrap_err CodeDataLoss "write signed tree head" (cborx.Marshal sth);
    Ok (put_sth sth (db s))).

(** Reads. *)
Definition GetGlobalLeaf (s : Store) (i : Z) : result (option GlobalLogLeaf.t) :=
  Ok (c_leaves (db s) !! i).

Definition GetGlobalLeafByBatchID (s : Store) (batchID : string)
  : result (option GlobalLogLeaf.t) :=
  if seqb batchID "" then Err (New CodeInvalidArgument "batch_id is required")
  else Ok (c_batches (db s) !! batchID).

Definition GetGlobalLogNode (s : Store) (level startIndex : Z)
  : result (option GlobalLogNode.t) :=
  Ok (c_nodes (db s) !! (level, startIndex)).

Definition GetGlobalLogState (s : Store) : result (option GlobalLogState.t) :=
  Ok (c_state (db s)).

Definition GetSignedTreeHead (s : Store) (treeSize : Z) : result (option SignedTreeHead.t) :=
  if treeSize =? 0 then Err (New CodeInvalidArgument "sth tree_size is required")
  else Ok (c_sths (db s) !! treeSize).

Definition key_le {V} (a b : Z * V) : Prop := a.1 <= b.1.
#[local] Instance key_le_dec {V} (a b : Z * V) : Decision (key_le a b) := Z.le_dec a.1 b.1.

(** The iterator visits the keys of a prefix in increasing order. *)
Definition sorted_leaves (s : Store) : list (Z * GlobalLogLeaf.t) :=
  merge_sort key_le (map_to_list (c_leaves (db s))).

Definition ListGlobalLeavesRange (s : Store) (startIndex limit : Z)
  : result (list GlobalLogLeaf.t) :=
  let limit := if limit <=? 0 then 100 else limit in
  Ok (take (Z.to_nat limit)
        (map snd (filter (λ kv, startIndex <= kv.1) (sorted_leaves s)))).

(** [iter.Last()] over the tree-head prefix. *)
Definition LatestSignedTreeHead (s : Store) : result (option SignedTreeHead.t) :=
  Ok (snd <$> last (merge_sort key_le (map_to_list (c_sths (db s))))).

Definition PutGlobalLogTile (s : Store) (tile : GlobalLogTile.t) : Store * result unit :=
  match (_ ← requireSuite s (modelsuite.AnyGlobalLogTile tile);
         if tile.(GlobalLogTile.Width) =? 0
         then Err (New CodeInvalidArgument "global log tile width is required") else
         let tile := GlobalLogTile.mk
           (default_string SchemaGlobalLogTile tile.(GlobalLogTile.SchemaVersion))
           tile.(GlobalLogTile.CryptoSuite) tile.(GlobalLogTile.Level)
           tile.(GlobalLogTile.StartIndex) tile.(GlobalLogTile.Width) tile.(GlobalLogTile.Hashes)
           tile.(GlobalLogTile.Compressed)
           (default_int (now s) tile.(GlobalLogTile.CreatedAtUnixN)) in
         _ ← cborx.Marshal tile;
         Ok tile) with
  | Ok t =>
      let key := (t.(GlobalLogTile.Level), t.(GlobalLogTile.StartIndex), t.(GlobalLogTile.Width)) in
      (mkStore (db s) (<[key := t]> (tiles s)) (CryptoSuite s) (binding s) (now s), Ok tt)
  | Err e => (s, Err e)
  end.

(** The anchor tables of the store are not part of this model. *)
Context (latestAnchor : option (Store → result (option STHAnchorResult.t)))
  (latestAnchorForKey :
     option (Store → STHAnchorScheduleKey.t → result (option STHAnchorResult.t))).

Definition pebble_store : GlobalStore Store := {|
  GlobalStore.GetGlobalLeaf := GetGlobalLeaf;
  GlobalStore.GetGlobalLeafByBatchID := GetGlobalLeafByBatchID;
  GlobalStore.ListGlobalLeavesRange := ListGlobalLeavesRange;
  GlobalStore.GetGlobalLogNode := GetGlobalLogNode;
  GlobalStore.GetGlobalLogState := GetGlobalLogState;
  GlobalStore.GetSignedTreeHead := GetSignedTreeHead;
  GlobalStore.LatestSignedTreeHead := LatestSignedTreeHead;
  GlobalStore.PutGlobalLogNode := PutGlobalLogNode;
  GlobalStore.PutGlobalLogState := PutGlobalLogState;
  GlobalStore.PutGlobalLogTile := PutGlobalLogTile;
  GlobalStore.CommitGlobalLogAppend := CommitGlobalLogAppend;
  GlobalStore.CommitGlobalLogAppends := CommitGlobalLogAppends;
  GlobalStore.HasBatchAppend := true;
  GlobalStore.LatestSTHAnchorResult := latestAnchor;
  GlobalStore.LatestSTHAnchorResultForKey := latestAnchorForKey |}.

(** ** The implementation satisfies the laws *)

Lemma default_string_set d x : x ≠ "" → default_string d x = x.
Proof. intros Hx. unfold default_string. by rewrite (proj2 (seqb_false x "")). Qed.

Lemma default_int_set d x : x ≠ 0 → default_int d x = x.
Proof. intros Hx. unfold default_int. by rewrite (proj2 (Z.eqb_neq x 0)). Qed.

(** Nothing is filled in on a stamped entry. *)
Lemma fill_stamped t e :
  stamped e →
  GlobalLogAppend.mk (fill_leaf t e.(GlobalLogAppend.Leaf))
    (map (fill_node t) e.(GlobalLogAppend.Nodes)) (fill_state t e.(GlobalLogAppend.State))
    (fill_sth t e.(GlobalLogAppend.STH)) = e.
Proof.
  intros (Hl1 & Hl2 & Hs1 & Hs2 & Hh1 & Hh2 & Hn). destruct e as [l ns st h]. cbn in *.
  destruct l, st, h. unfold fill_leaf, fill_state, fill_sth. cbn in *.
  rewrite !default_string_set, !default_int_set by done. f_equal.
  induction Hn as [|n ns [H1' H2'] _ IH]; [done|]. cbn. rewrite IH. f_equal.
  destruct n. unfold fill_node. cbn in *. by rewrite default_string_set, default_int_set.
Qed.

Lemma commit_Ok s r s' : commit s r = (s', Ok tt) → ∃ c, r = Ok c ∧ db s' = c.
Proof. unfold commit. destruct r; naive_solver. Qed.

Lemma commit_Err s r s' e : commit s r = (s', Err e) → s' = s.
Proof. unfold commit. destruct r; naive_solver. Qed.

Lemma commit_append_Ok s e c :
  stamped e → commit_append s e = Ok c → c = put_append (db s) e.
Proof.
  intros He Hc. unfold commit_append in Hc. ok_inv. by rewrite <- Hc, fill_stamped.
Qed.

Lemma encode_appends_Ok s es es' :
  Forall stamped es → encode_appends s es = Ok es' → es' = es.
Proof.
  intros He. revert es'. induction He as [|e es Hs _ IH]; intros es' Hc; cbn in Hc.
  { by ok_inv. }
  unfold encode_append in Hc. ok_inv. subst. rewrite fill_stamped by done. f_equal. by apply IH.
Qed.

Lemma commit_appends_Ok s es c :
  Forall stamped es → commit_appends s es = Ok c → c = foldl put_append (db s) es.
Proof.
  intros He Hc. unfold commit_appends in Hc. ok_inv.
  match goal with E : encode_appends _ _ = Ok _ |- _ => apply encode_appends_Ok in E as ->; [|done] end.
  done.
Qed.

#[local] Existing Instance pebble_store.

Lemma latest_elem s h :
  snd <$> last (merge_sort key_le (map_to_list (c_sths (db s)))) = Some h →
  ∃ n, c_sths (db s) !! n = Some h.
Proof.
  intros E. apply fmap_Some in E as ([n h'] & E & ->). exists n.
  apply elem_of_map_to_list. rewrite <- (merge_sort_Permutation key_le).
  by apply last_Some_elem_of.
Qed.

Lemma range_leaf s i n r l : ListGlobalLeavesRange s i n = Ok r → l ∈ r → ∃ k, c_leaves (db s) !! k = Some l.
Proof.
  unfold ListGlobalLeavesRange. intros [= <-] Hl.
  apply (subseteq_take _ _) in Hl. apply list_elem_of_fmap in Hl as ([k l'] & -> & Hl).
  apply list_elem_of_filter in Hl as [_ Hl]. unfold sorted_leaves in Hl.
  rewrite (merge_sort_Permutation key_le) in Hl. exists k. by apply elem_of_map_to_list in Hl.
Qed.

#[global] Instance pebble_laws : GlobalStoreLaws Store.
Proof.
  refine {| view := db |}; cbn.
  - unfold GetGlobalLeaf. naive_solver.
  - unfold GetGlobalLeafByBatchID. intros s b r. case_match; naive_solver.
  - apply range_leaf.
  - unfold GetGlobalLogNode. naive_solver.
  - unfold GetGlobalLogState. naive_solver.
  - unfold GetSignedTreeHead. intros s n r. case_match; naive_solver.
  - unfold LatestSignedTreeHead. intros s r E. injection E as <-.
    destruct (snd <$> _) as [h|] eqn:E; [by apply latest_elem|].
    apply fmap_None, last_None in E. apply (f_equal length) in E.
    rewrite (merge_sort_Permutation key_le) in E. apply map_to_list_empty_iff.
    by destruct (map_to_list _).
  - intros s es s' He (c & Hc & <-)%commit_Ok. by apply commit_appends_Ok.
  - intros s es s' e ->%commit_Err. done.
  - intros s e s' He (c & Hc & <-)%commit_Ok. by apply commit_append_Ok.
  - intros s e s' er ->%commit_Err. done.
Defined.

#[global] Instance pebble_reads : GlobalStoreReads Store.
Proof.
  constructor; cbn; try done.
  - intros s b Hb. unfold GetGlobalLeafByBatchID. by rewrite (proj2 (seqb_false b "")).
  - intros s n Hn. unfold GetSignedTreeHead. by rewrite (proj2 (Z.eqb_neq n 0)).
Qed.

End store.
End pebble.
