(* ===== verification/GlobalLog.v ===== *)
(** * The global transparency log

    Models [src/internal/globallog/service.go]: appending batch roots with an
    incremental Merkle frontier, signing tree heads, replays, the retry loop
    around a conflicting commit, inclusion and consistency proofs from stored
    nodes, evidence, and the verifiers.

    [s.clock()] is a function from the number of calls made so far to the time
    returned.  The mutex makes each operation a single step; cancellation of a
    context is not modelled.  [fuel] bounds the recursions whose size argument
    is halved at each step and the page loops. *)

From S2P Require Import Prelude TrustErr CryptoSuite Model TrustCrypto Cborx KeyDescriptor.
From S2P Require Import ModelSuite Rfc6962 Merkle GlobalStore.

Module globallog.

Definition fiscobcos_SinkName : string := "fisco-bcos".

(** [bits.Len64] and [bits.TrailingZeros64]. *)
Definition Len64 (n : Z) : Z := if n =? 0 then 0 else Z.log2 n + 1.
Definition TrailingZeros64 (n : Z) : Z := if n =? 0 then 64 else Z.log2 (Z.land n (- n)).

(** [1 << n] on [uint64]: 0 once the shift count reaches 64. *)
Definition shl1 (n : Z) : Z := if 64 <=? n then 0 else u64 (Z.shiftl 1 n).

Definition isPowerOfTwo (n : Z) : bool := (0 <? n) && (Z.land n (u64 (n - 1)) =? 0).

Definition largestPowerOfTwoLessThan64 (n : Z) : Z :=
  if n <? 2 then 0 else shl1 (Len64 (u64 (n - 1)) - 1).

Record Service := mkService {
  nodeID : string;
  logID : string;
  signer : option trustcrypto.Signer;
  provider : trustcrypto.Provider;
  profile : merkle.Profile;
  anchorKey : option STHAnchorScheduleKey.t }.

(** [Options] without the store and the clock, which are arguments of the
    operations; [hasStore] is [opts.Store != nil]. *)
Record Options := mkOptions {
  hasStore : bool;
  opt_NodeID : string;
  opt_LogID : string;
  opt_Signer : option trustcrypto.Signer;
  opt_CryptoProvider : option trustcrypto.Provider;
  opt_AnchorSinkName : string }.

Definition New `{SigLib} (opts : Options) : result Service :=
  if negb (hasStore opts)
  then Err (TrustErr.New CodeInvalidArgument "global log store is required") else
  let provider := default trustcrypto.DefaultProvider (opt_CryptoProvider opts) in
  _ ← wrap_err CodeInvalidArgument "global log signer is invalid"
        (trustcrypto.ValidateSignerWithProvider (Some provider) (opt_Signer opts));
  profile ← wrap_err CodeInvalidArgument "global log merkle profile is invalid"
        (merkle.ProfileForSuite (trustcrypto.Provider_Suite provider));
  let logID := TrimSpace (opt_LogID opts) in
  let logID := if seqb logID "" then "trustdb-global-log" else logID in
  let nodeID := TrimSpace (opt_NodeID opts) in
  let sinkName := TrimSpace (opt_AnchorSinkName opts) in
  Ok {| nodeID := nodeID; logID := logID; signer := opt_Signer opts; provider := provider;
        profile := profile;
        anchorKey := if seqb sinkName "" then None
                     else Some (STHAnchorScheduleKey.mk nodeID logID sinkName) |}.

Definition NewReaderWithProvider (hasStore : bool) (p : option trustcrypto.Provider)
  : result Service :=
  if negb hasStore
  then Err (TrustErr.New CodeInvalidArgument "global log store is required") else
  match p with
  | None => Err (TrustErr.New CodeInvalidArgument "global log crypto provider is required")
  | Some p =>
      profile ← wrap_err CodeInvalidArgument "global log merkle profile is invalid"
        (merkle.ProfileForSuite (trustcrypto.Provider_Suite p));
      Ok {| nodeID := ""; logID := ""; signer := None; provider := p; profile := profile;
            anchorKey := None |}
  end.

Definition suiteOf (s : Service) : cryptosuite.ID := trustcrypto.Provider_Suite (provider s).

(** ** Leaves, frontiers, tree heads *)

Section ops.
Context `{HashLib, SigLib, CborMode GlobalLogLeaf.t, CborMode SignedTreeHead.t}.

(** The streaming hash object is fed the prefix, the schema, a zero byte and
    the payload; [Sum] hashes their concatenation. *)
Definition HashLeafWithProvider (p : option trustcrypto.Provider) (leaf : GlobalLogLeaf.t)
  : result bytes :=
  match p with
  | None => Err (TrustErr.New CodeInvalidArgument "global log crypto provider is required")
  | Some p =>
      _ ← wrap_err CodeInvalidArgument "global log leaf crypto_suite"
            (cryptosuite.RequireSame (trustcrypto.Provider_Suite p)
               [leaf.(GlobalLogLeaf.CryptoSuite)]);
      let leaf := GlobalLogLeaf.set_AppendedAtUnixN 0 (GlobalLogLeaf.set_LeafHash [] leaf) in
      payload ← cborx.Marshal leaf;
      suite ← cryptosuite.RequireAvailable (trustcrypto.Provider_Suite p);
      let m := cryptosuite.Merkle suite in
      profile ← merkle.ProfileForAlgorithm (cryptosuite.SuiteID suite)
                  (cryptosuite.MerkleAlgorithm m);
      factory ← trustcrypto.Provider_HashFactory p
                  (cryptosuite.HashAlgorithm (cryptosuite.MerkleHash m));
      if negb (seqb (trustcrypto.HashFactory_Algorithm factory) (merkle.hashAlg profile))
         || negb (trustcrypto.HashFactory_Size factory =? merkle.Size profile)
      then Err (TrustErr.New CodeInvalidArgument
                  "global log provider hash does not match the suite merkle profile")
      else Ok (trustcrypto.HashFactory_Sum factory
                 ([cryptosuite.LeafPrefix m] ++ bytes_of_string SchemaGlobalLogLeaf
                  ++ [x00] ++ payload))
  end.

Definition hash_node (s : Service) (l r : bytes) : go bytes :=
  call (merkle.HashNodeForSuite (merkle.suite (profile s)) (merkle.algorithm (profile s)) l r).

(** The loop over the levels of a frontier; [root] is nil until the first
    non-empty entry. *)
Fixpoint rootFromFrontier_loop (p : merkle.Profile) (root : option bytes) (frontier : list bytes)
  : go (option bytes) :=
  match frontier with
  | [] => Ret root
  | h :: rest =>
      if len h =? 0 then rootFromFrontier_loop p root rest else
      if negb (len h =? merkle.Size p)
      then Fail (TrustErr.New CodeInternal "global frontier hash is invalid") else
      match root with
      | None => rootFromFrontier_loop p (Some h) rest
      | Some r =>
          combined ← call (merkle.HashNodeForSuite (merkle.suite p) (merkle.algorithm p) h r);
          rootFromFrontier_loop p (Some combined) rest
      end
  end.

(** A nil slice and an empty one are the same list. *)
Definition rootFromFrontier (p : merkle.Profile) (frontier : list bytes) : go bytes :=
  if merkle.Size p =? 0
  then Fail (TrustErr.New CodeInternal "global merkle profile is invalid") else
  root ← rootFromFrontier_loop p None frontier;
  Ret (default [] root).

Definition cloneFrontier (inp : list bytes) : list bytes := inp.

Fixpoint trim_rev (rev_frontier : list bytes) : list bytes :=
  match rev_frontier with
  | h :: rest => if len h =? 0 then trim_rev rest else rev_frontier
  | [] => []
  end.

Definition trimFrontier (inp : list bytes) : list bytes := rev (trim_rev (rev inp)).

Definition mk_node (s : Service) (level start : Z) (hash : bytes) (now : Z) : GlobalLogNode.t :=
  GlobalLogNode.mk SchemaGlobalLogNode (suiteOf s) level start (shl1 level) hash now.

Record append_loop := mkLoop {
  lp_frontier : list bytes;
  lp_level : Z;
  lp_start : Z;
  lp_current : bytes;
  lp_nodes : list GlobalLogNode.t }.

(** [for int(level) < len(frontier) && len(frontier[level]) > 0]; the level
    grows towards the length of the frontier, which is the fuel. *)
Fixpoint appendState_loop (fuel : nat) (s : Service) (now : Z) (st : append_loop)
  : go append_loop :=
  match lp_frontier st !! Z.to_nat (i64 (lp_level st)) with
  | Some h =>
      if len h =? 0 then Ret st else
      match fuel with
      | O => Stuck
      | S f =>
          let width := shl1 (lp_level st) in
          if lp_start st <? width
          then Fail (TrustErr.New CodeInternal "global frontier start underflow") else
          let parentStart := u64 (lp_start st - width) in
          parent ← hash_node s h (lp_current st);
          let level := u64 (lp_level st + 1) in
          appendState_loop f s now
            {| lp_frontier := <[Z.to_nat (i64 (lp_level st)) := []]> (lp_frontier st);
               lp_level := level;
               lp_start := parentStart;
               lp_current := parent;
               lp_nodes := lp_nodes st ++ [mk_node s level parentStart parent now] |}
      end
  | None => Ret st
  end.

(** [for int(level) >= len(frontier) { frontier = append(frontier, nil) }] *)
Definition padFrontier (frontier : list bytes) (level : nat) : list bytes :=
  frontier ++ replicate (S level - length frontier) [].

Definition appendState (s : Service) (now : Z) (state : GlobalLogState.t) (leaf : GlobalLogLeaf.t)
  : go (GlobalLogState.t * list GlobalLogNode.t) :=
  _ ← gwrap CodeInvalidArgument "global log append crypto_suite"
        (ret (cryptosuite.RequireSame (suiteOf s)
           [state.(GlobalLogState.CryptoSuite); leaf.(GlobalLogLeaf.CryptoSuite)]));
  if negb (len leaf.(GlobalLogLeaf.LeafHash) =? merkle.Size (profile s))
  then Fail (TrustErr.New CodeInvalidArgument "global leaf hash has the wrong digest size") else
  if negb (leaf.(GlobalLogLeaf.LeafIndex) =? state.(GlobalLogState.TreeSize))
  then Fail (TrustErr.New CodeFailedPrecondition
               "global leaf index does not match tree frontier") else
  let frontier := cloneFrontier state.(GlobalLogState.Frontier) in
  let start := leaf.(GlobalLogLeaf.LeafIndex) in
  let current := leaf.(GlobalLogLeaf.LeafHash) in
  st ← appendState_loop (length frontier) s now
         {| lp_frontier := frontier; lp_level := 0; lp_start := start; lp_current := current;
            lp_nodes := [GlobalLogNode.mk SchemaGlobalLogNode (suiteOf s) 0 start 1 current now] |};
  let level := Z.to_nat (i64 (lp_level st)) in
  let frontier := <[level := lp_current st]> (padFrontier (lp_frontier st) level) in
  root ← rootFromFrontier (profile s) frontier;
  Ret (GlobalLogState.mk SchemaGlobalLogState (suiteOf s)
         (u64 (state.(GlobalLogState.TreeSize) + 1)) root (trimFrontier frontier) now,
       lp_nodes st).

(** The common tail of [signSTH] and [signSTHFromState]. *)
Definition signTreeHead (s : Service) (sth : SignedTreeHead.t) : result SignedTreeHead.t :=
  payload ← cborx.Marshal (SignedTreeHead.set_Signature Signature.zero sth);
  input ← trustcrypto.SignatureInputForSuite (suiteOf s)
            trustcrypto.SignaturePurposeSignedTreeHead payload;
  sig ← trustcrypto.Sign (suiteOf s) (signer s) input;
  Ok (SignedTreeHead.set_Signature sig sth).

Definition signSTHFromState (s : Service) (now : Z) (state : GlobalLogState.t)
  : result SignedTreeHead.t :=
  if state.(GlobalLogState.TreeSize) =? 0
  then Err (TrustErr.New CodeInvalidArgument "cannot sign empty global log") else
  if negb (len state.(GlobalLogState.RootHash) =? merkle.Size (profile s))
  then Err (TrustErr.New CodeInternal "global log state root is invalid") else
  signTreeHead s
    (SignedTreeHead.mk SchemaSignedTreeHead (suiteOf s) (merkle.algorithm (profile s))
       state.(GlobalLogState.TreeSize) state.(GlobalLogState.RootHash) now
       (nodeID s) (logID s) Signature.zero).

Definition signSTH (fuel : nat) (s : Service) (now : Z) (leaves : list GlobalLogLeaf.t)
  : go SignedTreeHead.t :=
  root ← call (merkle.RootFromLeavesForSuite fuel (merkle.suite (profile s))
                 (merkle.algorithm (profile s)) (map GlobalLogLeaf.LeafHash leaves));
  ret (signTreeHead s
    (SignedTreeHead.mk SchemaSignedTreeHead (suiteOf s) (merkle.algorithm (profile s))
       (len leaves) root now (nodeID s) (logID s) Signature.zero)).

(** ** Verification *)

Definition VerifySTHWithProvider (sth : SignedTreeHead.t)
    (publicKey : trustcrypto.PublicKeyDescriptor) (p : option trustcrypto.Provider) : result unit :=
  match p with
  | None => Err (TrustErr.New CodeInvalidArgument "global log crypto provider is required")
  | Some p =>
      suite ← cryptosuite.RequireAvailable (trustcrypto.Provider_Suite p);
      if negb (seqb sth.(SignedTreeHead.TreeAlg)
                 (cryptosuite.MerkleAlgorithm (cryptosuite.Merkle suite)))
      then Err (ErrorsNew
        "verify signed tree head: tree algorithm %q does not match suite %s") else
      _ ← errorf "verify signed tree head: %w"
            (cryptosuite.RequireSame (cryptosuite.SuiteID suite)
               [sth.(SignedTreeHead.CryptoSuite); trustcrypto.Suite publicKey]);
      let sig := sth.(SignedTreeHead.Signature) in
      payload ← cborx.Marshal (SignedTreeHead.set_Signature Signature.zero sth);
      input ← trustcrypto.SignatureInputForSuite (trustcrypto.Provider_Suite p)
                trustcrypto.SignaturePurposeSignedTreeHead payload;
      errorf "verify signed tree head: %w" (trustcrypto.Verify (Some p) publicKey input sig)
  end.

Definition VerifyInclusionForSuite (fuel : nat) (suiteID : cryptosuite.ID)
    (proof : GlobalLogProof.t) : go bool :=
  let sth := proof.(GlobalLogProof.STH) in
  if negb (seqb proof.(GlobalLogProof.SchemaVersion) SchemaGlobalLogProof) then Ret false else
  _ ← ret (cryptosuite.RequireSame suiteID
        [proof.(GlobalLogProof.CryptoSuite); sth.(SignedTreeHead.CryptoSuite)]);
  if negb (seqb sth.(SignedTreeHead.SchemaVersion) SchemaSignedTreeHead)
     || negb (proof.(GlobalLogProof.TreeSize) =? sth.(SignedTreeHead.TreeSize))
  then Ret false else
  if (proof.(GlobalLogProof.TreeSize) =? 0)
     || (proof.(GlobalLogProof.TreeSize) <=? proof.(GlobalLogProof.LeafIndex))
  then Ret false else
  call (merkle.VerifyForSuite fuel suiteID sth.(SignedTreeHead.TreeAlg)
          proof.(GlobalLogProof.LeafHash) proof.(GlobalLogProof.LeafIndex)
          proof.(GlobalLogProof.TreeSize) proof.(GlobalLogProof.InclusionPath)
          sth.(SignedTreeHead.RootHash)).

Definition VerifyInclusionWithProvider (fuel : nat) (p : option trustcrypto.Provider)
    (proof : GlobalLogProof.t) : go bool :=
  match p with
  | None => Ret false
  | Some p =>
      match VerifyInclusionForSuite fuel (trustcrypto.Provider_Suite p) proof with
      | Fail _ => Ret false
      | r => r
      end
  end.

(** ** Reading the store *)

Section store.
Context {S : Type} `{GlobalStore S}.

Fixpoint subtreeRoot (fuel : nat) (s : Service) (store : S) (start width : Z) : go bytes :=
  if width =? 0
  then Fail (TrustErr.New CodeInvalidArgument "global subtree width is zero") else
  if width =? 1 then
    leaf ← ret (GetGlobalLeaf store start);
    match leaf with
    | None => Fail (TrustErr.New CodeNotFound "global log leaf not found")
    | Some leaf => Ret leaf.(GlobalLogLeaf.LeafHash)
    end
  else
  stored ← (if isPowerOfTwo width
            then ret (GetGlobalLogNode store (TrailingZeros64 width) start)
            else Ret None);
  match stored with
  | Some node => Ret node.(GlobalLogNode.Hash)
  | None =>
      match fuel with
      | O => Stuck
      | Datatypes.S f =>
          let k := if isPowerOfTwo width then width / 2
                   else largestPowerOfTwoLessThan64 width in
          l ← subtreeRoot f s store start k;
          r ← subtreeRoot f s store (u64 (start + k)) (u64 (width - k));
          hash_node s l r
      end
  end.

Fixpoint auditPath (fuel : nat) (s : Service) (store : S) (leafIndex start width : Z)
  : go (list bytes) :=
  if (width =? 0) || (leafIndex <? start) || (u64 (start + width) <=? leafIndex)
  then Fail (TrustErr.New CodeInvalidArgument "global audit path range is invalid") else
  if width =? 1 then Ret [] else
  match fuel with
  | O => Stuck
  | Datatypes.S f =>
      let k := largestPowerOfTwoLessThan64 width in
      if leafIndex <? u64 (start + k) then
        path ← auditPath f s store leafIndex start k;
        r ← subtreeRoot fuel s store (u64 (start + k)) (u64 (width - k));
        Ret (path ++ [r])
      else
        path ← auditPath f s store leafIndex (u64 (start + k)) (u64 (width - k));
        l ← subtreeRoot fuel s store start k;
        Ret (path ++ [l])
  end.

Fixpoint consistencyProofRange (fuel : nat) (s : Service) (store : S) (start width from : Z)
    (complete : bool) : go (list bytes) :=
  if (from =? 0) || (width <? from)
  then Fail (TrustErr.New CodeInvalidArgument "invalid consistency proof range") else
  if from =? width then
    (if complete then Ret [] else
     root ← subtreeRoot fuel s store start width;
     Ret [root])
  else
  match fuel with
  | O => Stuck
  | Datatypes.S f =>
      let k := largestPowerOfTwoLessThan64 width in
      if from <=? k then
        l ← consistencyProofRange f s store start k from complete;
        r ← subtreeRoot fuel s store (u64 (start + k)) (u64 (width - k));
        Ret (l ++ [r])
      else
        r ← consistencyProofRange f s store (u64 (start + k)) (u64 (width - k))
              (u64 (from - k)) false;
        l ← subtreeRoot fuel s store start k;
        Ret (r ++ [l])
  end.

Definition ConsistencyProof (fuel : nat) (s : Service) (store : S) (from to : Z)
  : go GlobalConsistencyProof.t :=
  if (from =? 0) || (to =? 0) || (to <? from)
  then Fail (TrustErr.New CodeInvalidArgument "consistency proof requires 0 < from <= to") else
  path ← consistencyProofRange fuel s store 0 to from true;
  Ret (GlobalConsistencyProof.mk from to path).

Definition InclusionProof (fuel : nat) (s : Service) (store : S) (batchID : string) (treeSize : Z)
  : go GlobalLogProof.t :=
  leaf ← ret (GetGlobalLeafByBatchID store batchID);
  match leaf with
  | None => Fail (TrustErr.New CodeNotFound "global log leaf not found")
  | Some leaf =>
      treeSize ←
        (if treeSize =? 0 then
           latest ← ret (LatestSignedTreeHead store);
           match latest with
           | None => Fail (TrustErr.New CodeNotFound "signed tree head not found")
           | Some latest => Ret latest.(SignedTreeHead.TreeSize)
           end
         else Ret treeSize);
      if treeSize <=? leaf.(GlobalLogLeaf.LeafIndex)
      then Fail (TrustErr.New CodeFailedPrecondition
                   "batch is not included in requested STH") else
      sth ← ret (GetSignedTreeHead store treeSize);
      match sth with
      | None => Fail (TrustErr.New CodeNotFound "signed tree head not found")
      | Some sth =>
          path ← gwrap CodeInternal "build global inclusion proof"
                   (auditPath fuel s store leaf.(GlobalLogLeaf.LeafIndex) 0 treeSize);
          Ret (GlobalLogProof.mk SchemaGlobalLogProof (suiteOf s)
                 leaf.(GlobalLogLeaf.NodeID) leaf.(GlobalLogLeaf.LogID) batchID
                 leaf.(GlobalLogLeaf.LeafIndex) leaf.(GlobalLogLeaf.LeafHash) treeSize path sth
                 GlobalConsistencyProof.zero)
      end
  end.

(** The result and whether the store offers the lookup at all. *)
Definition latestAnchorResult (s : Service) (store : S)
  : option (result (option STHAnchorResult.t)) :=
  match anchorKey s with
  | Some key =>
      match LatestSTHAnchorResultForKey with
      | None => Some (Err (TrustErr.New CodeFailedPrecondition
                   "global evidence store does not support keyed anchor lookup"))
      | Some lookup => Some (lookup store key)
      end
  | None =>
      match LatestSTHAnchorResult with
      | None => None
      | Some lookup => Some (lookup store)
      end
  end.

(** [a != "" && b != "" && a != b] *)
Definition conflicting (a b : string) : bool :=
  negb (seqb a "") && negb (seqb b "") && negb (seqb a b).

Definition Evidence (fuel : nat) (s : Service) (store : S) (batchID : string)
  : go GlobalLogEvidence.t :=
  leaf ← ret (GetGlobalLeafByBatchID store batchID);
  match leaf with
  | None => Fail (TrustErr.New CodeNotFound "global log leaf not found")
  | Some leaf =>
      found ← match latestAnchorResult s store with
              | None => Ret None
              | Some r => ret r
              end;
      covering ←
        match found with
        | None => Ret None
        | Some result =>
            let stage := result.(STHAnchorResult.EvidenceStage) in
            if negb (ValidAnchorEvidenceStage stage)
            then Fail (TrustErr.New CodeDataLoss
                   "latest STH anchor result has an unknown evidence stage") else
            if negb (AnchorResultProvidesOfflineL5 result)
               && negb (seqb result.(STHAnchorResult.SinkName) fiscobcos_SinkName
                        && seqb stage AnchorEvidenceStageRaw)
            then Ret None else
            if result.(STHAnchorResult.TreeSize) =? 0
            then Fail (TrustErr.New CodeDataLoss
                   "latest STH anchor result has an empty tree size") else
            if leaf.(GlobalLogLeaf.LeafIndex) <? result.(STHAnchorResult.TreeSize)
            then Ret (Some result) else Ret None
        end;
      match covering with
      | Some result =>
          proof ← InclusionProof fuel s store batchID result.(STHAnchorResult.TreeSize);
          let sth := proof.(GlobalLogProof.STH) in
          if negb (bytes_equal result.(STHAnchorResult.RootHash) sth.(SignedTreeHead.RootHash))
          then Fail (TrustErr.New CodeDataLoss
                 "latest STH anchor root does not match signed tree head") else
          if conflicting result.(STHAnchorResult.NodeID) sth.(SignedTreeHead.NodeID)
          then Fail (TrustErr.New CodeDataLoss
                 "latest STH anchor node does not match signed tree head") else
          if conflicting result.(STHAnchorResult.LogID) sth.(SignedTreeHead.LogID)
          then Fail (TrustErr.New CodeDataLoss
                 "latest STH anchor log does not match signed tree head") else
          Ret (GlobalLogEvidence.mk proof (Some result))
      | None =>
          proof ← InclusionProof fuel s store batchID 0;
          Ret (GlobalLogEvidence.mk proof None)
      end
  end.

(** ** Appending *)

(** Stores the nodes of one leaf while the state is rebuilt. *)
Fixpoint putNodes (store : S) (nodes : list GlobalLogNode.t) : S * result unit :=
  match nodes with
  | [] => (store, Ok tt)
  | n :: rest =>
      match PutGlobalLogNode store n with
      | (store, Err e) => (store, Err e)
      | (store, Ok _) => putNodes store rest
      end
  end.

(** The inner loop over one page of leaves. The clock is read once per leaf. *)
Fixpoint rebuildPage (s : Service) (clock : nat → Z) (tick : nat) (store : S)
    (state : GlobalLogState.t) (next : Z) (leaves : list GlobalLogLeaf.t)
  : S * go (GlobalLogState.t * Z * nat) :=
  match leaves with
  | [] => (store, Ret (state, next, tick))
  | leaf :: rest =>
      match appendState s (clock tick) state leaf with
      | Stuck => (store, Stuck)
      | Fail e => (store, Fail e)
      | Ret (state', nodes) =>
          match putNodes store nodes with
          | (store, Err e) => (store, Fail e)
          | (store, Ok _) =>
              rebuildPage s clock (Datatypes.S tick) store state'
                (u64 (leaf.(GlobalLogLeaf.LeafIndex) + 1)) rest
          end
      end
  end.

(** The loop over pages of 1024 leaves; the fuel bounds the number of pages. *)
Fixpoint rebuildPages (fuel : nat) (s : Service) (clock : nat → Z) (tick : nat) (store : S)
    (state : GlobalLogState.t) (next : Z) : S * go (GlobalLogState.t * nat) :=
  match ListGlobalLeavesRange store next 1024 with
  | Err e => (store, Fail e)
  | Ok leaves =>
      if len leaves =? 0 then (store, Ret (state, tick)) else
      match fuel with
      | O => (store, Stuck)
      | Datatypes.S f =>
          match rebuildPage s clock tick store state next leaves with
          | (store, Stuck) => (store, Stuck)
          | (store, Fail e) => (store, Fail e)
          | (store, Ret (state, next, tick)) => rebuildPages f s clock tick store state next
          end
      end
  end.

Definition loadState (fuel : nat) (s : Service) (clock : nat → Z) (tick : nat) (store : S)
  : S * go (GlobalLogState.t * nat) :=
  match GetGlobalLogState store with
  | Err e => (store, Fail e)
  | Ok (Some state) =>
      (store,
       _ ← gwrap CodeDataLoss "global log state crypto_suite"
             (ret (cryptosuite.RequireSame (suiteOf s) [state.(GlobalLogState.CryptoSuite)]));
       Ret (state, tick))
  | Ok None =>
      let state := GlobalLogState.mk SchemaGlobalLogState (suiteOf s) 0 [] [] 0 in
      match rebuildPages fuel s clock tick store state 0 with
      | (store, Ret (state, tick)) =>
          if 0 <? state.(GlobalLogState.TreeSize) then
            match PutGlobalLogState store state with
            | (store, Err e) => (store, Fail e)
            | (store, Ok _) => (store, Ret (state, tick))
            end
          else (store, Ret (state, tick))
      | r => r
      end
  end.

Definition validateGlobalLogReplayRoot (existing incoming : BatchRoot.t) : result unit :=
  if negb (seqb existing.(BatchRoot.BatchID) incoming.(BatchRoot.BatchID))
     || negb (seqb existing.(BatchRoot.CryptoSuite) incoming.(BatchRoot.CryptoSuite))
     || negb (seqb existing.(BatchRoot.NodeID) incoming.(BatchRoot.NodeID))
     || negb (seqb existing.(BatchRoot.LogID) incoming.(BatchRoot.LogID))
     || negb (existing.(BatchRoot.TreeSize) =? incoming.(BatchRoot.TreeSize))
     || negb (existing.(BatchRoot.ClosedAtUnixN) =? incoming.(BatchRoot.ClosedAtUnixN))
     || negb (bytes_equal existing.(BatchRoot.BatchRoot) incoming.(BatchRoot.BatchRoot))
  then Err (TrustErr.New CodeDataLoss
              "global log batch_id replay does not match the original batch root")
  else Ok tt.

Definition validateGlobalLogReplayLeaf (existing : GlobalLogLeaf.t) (incoming : BatchRoot.t)
  : result unit :=
  if negb (seqb existing.(GlobalLogLeaf.BatchID) incoming.(BatchRoot.BatchID))
     || negb (seqb existing.(GlobalLogLeaf.CryptoSuite) incoming.(BatchRoot.CryptoSuite))
     || negb (seqb existing.(GlobalLogLeaf.NodeID) incoming.(BatchRoot.NodeID))
     || negb (seqb existing.(GlobalLogLeaf.LogID) incoming.(BatchRoot.LogID))
     || negb (existing.(GlobalLogLeaf.BatchTreeSize) =? incoming.(BatchRoot.TreeSize))
     || negb (existing.(GlobalLogLeaf.BatchClosedAtUnixN) =? incoming.(BatchRoot.ClosedAtUnixN))
     || negb (bytes_equal existing.(GlobalLogLeaf.BatchRoot) incoming.(BatchRoot.BatchRoot))
  then Err (TrustErr.New CodeDataLoss "global log batch_id conflicts with the durable leaf")
  else Ok tt.

(** [root.NodeID] and [root.LogID] trimmed and defaulted to the service's. *)
Definition normalizeRoot (s : Service) (root : BatchRoot.t) : BatchRoot.t :=
  let n := TrimSpace root.(BatchRoot.NodeID) in
  let l := TrimSpace root.(BatchRoot.LogID) in
  BatchRoot.set_LogID (if seqb l "" then logID s else l)
    (BatchRoot.set_NodeID (if seqb n "" then nodeID s else n) root).

Definition newLeaf (s : Service) (root : BatchRoot.t) (treeSize now : Z) : GlobalLogLeaf.t :=
  GlobalLogLeaf.mk SchemaGlobalLogLeaf (suiteOf s) root.(BatchRoot.NodeID) root.(BatchRoot.LogID)
    root.(BatchRoot.BatchID) root.(BatchRoot.BatchRoot) root.(BatchRoot.TreeSize)
    root.(BatchRoot.ClosedAtUnixN) treeSize [] now.

(** The local variables of the loop over [roots]. *)
Record plan := mkPlan {
  pl_state : GlobalLogState.t;
  pl_tick : nat;
  pl_sths : list SignedTreeHead.t;
  pl_appends : list GlobalLogAppend.t;
  pl_planned : gmap string SignedTreeHead.t;
  pl_plannedRoots : gmap string BatchRoot.t }.

(** [sths[i] = sth; planned[..] = sth; plannedRoots[..] = root] *)
Definition plan_done (root : BatchRoot.t) (sth : SignedTreeHead.t) (pl : plan) : plan :=
  mkPlan (pl_state pl) (pl_tick pl) (pl_sths pl ++ [sth]) (pl_appends pl)
    (<[root.(BatchRoot.BatchID) := sth]> (pl_planned pl))
    (<[root.(BatchRoot.BatchID) := root]> (pl_plannedRoots pl)).

(** The body of the loop over [roots]; the clock is read for the leaf, in
    [appendState] and in [signSTHFromState]. *)
Definition planRoot (s : Service) (clock : nat → Z) (store : S) (pl : plan) (root : BatchRoot.t)
  : go plan :=
  let root := normalizeRoot s root in
  if negb (seqb root.(BatchRoot.NodeID) (nodeID s)) || negb (seqb root.(BatchRoot.LogID) (logID s))
  then Fail (TrustErr.New CodeInvalidArgument
               "global log batch root identity does not match signer stream") else
  match pl_planned pl !! root.(BatchRoot.BatchID) with
  | Some sth =>
      _ ← ret (validateGlobalLogReplayRoot
                 (default BatchRoot.zero (pl_plannedRoots pl !! root.(BatchRoot.BatchID))) root);
      Ret (mkPlan (pl_state pl) (pl_tick pl) (pl_sths pl ++ [sth]) (pl_appends pl)
             (pl_planned pl) (pl_plannedRoots pl))
  | None =>
      existing ← ret (GetGlobalLeafByBatchID store root.(BatchRoot.BatchID));
      match existing with
      | Some existing =>
          _ ← ret (validateGlobalLogReplayLeaf existing root);
          sth ← ret (GetSignedTreeHead store (u64 (existing.(GlobalLogLeaf.LeafIndex) + 1)));
          match sth with
          | None => Fail (TrustErr.New CodeDataLoss
                       "global log leaf exists without matching signed tree head")
          | Some sth =>
              if negb (seqb sth.(SignedTreeHead.NodeID) (nodeID s))
                 || negb (seqb sth.(SignedTreeHead.LogID) (logID s))
              then Fail (TrustErr.New CodeDataLoss
                "global log replay signed tree head identity does not match signer stream")
              else Ret (plan_done root sth pl)
          end
      | None =>
          let t := pl_tick pl in
          let leaf := newLeaf s root (pl_state pl).(GlobalLogState.TreeSize) (clock t) in
          hash ← gwrap CodeInternal "hash global log leaf"
                   (ret (HashLeafWithProvider (Some (provider s)) leaf));
          let leaf := GlobalLogLeaf.set_LeafHash hash leaf in
          '(nextState, nodes) ← appendState s (clock (t + 1)%nat) (pl_state pl) leaf;
          sth ← ret (signSTHFromState s (clock (t + 2)%nat) nextState);
          Ret (plan_done root sth
            (mkPlan nextState (t + 3) (pl_sths pl)
               (pl_appends pl ++ [GlobalLogAppend.mk leaf nodes nextState sth])
               (pl_planned pl) (pl_plannedRoots pl)))
      end
  end.

Fixpoint planRoots (s : Service) (clock : nat → Z) (store : S) (pl : plan)
    (roots : list BatchRoot.t) : go plan :=
  match roots with
  | [] => Ret pl
  | root :: rest =>
      pl ← planRoot s clock store pl root;
      planRoots s clock store pl rest
  end.

(** The commits of a store without [CommitGlobalLogAppends]. *)
Fixpoint commitEach (store : S) (appends : list GlobalLogAppend.t) : S * result unit :=
  match appends with
  | [] => (store, Ok tt)
  | e :: rest =>
      match CommitGlobalLogAppend store e with
      | (store, Err er) => (store, Err er)
      | (store, Ok _) => commitEach store rest
      end
  end.

(** The heads, or the error with whether it may be retried. *)
Inductive append_outcome :=
| Appended (sths : list SignedTreeHead.t)
| Failed (retryable : bool) (e : error)
| NoReturn.

Definition appendBatchRootsOnce (fuel : nat) (s : Service) (clock : nat → Z) (tick : nat) (store : S)
    (roots : list BatchRoot.t) : S * append_outcome :=
  match loadState fuel s clock tick store with
  | (store, Stuck) => (store, NoReturn)
  | (store, Fail e) => (store, Failed false e)
  | (store, Ret (state, tick)) =>
      match planRoots s clock store (mkPlan state tick [] [] ∅ ∅) roots with
      | Stuck => (store, NoReturn)
      | Fail e => (store, Failed false e)
      | Ret pl =>
          if len (pl_appends pl) =? 0 then (store, Appended (pl_sths pl)) else
          match (if HasBatchAppend then CommitGlobalLogAppends store (pl_appends pl)
                 else commitEach store (pl_appends pl)) with
          | (store, Err e) =>
              (store, Failed (bool_decide (CodeOf e = CodeFailedPrecondition)) e)
          | (store, Ok _) => (store, Appended (pl_sths pl))
          end
      end
  end.

Definition appendConflictAttempts : nat := 16.

(** The checks of [AppendBatchRoots] on each root. *)
Fixpoint checkRoots (s : Service) (roots : list BatchRoot.t) : result unit :=
  match roots with
  | [] => Ok tt
  | r :: rest =>
      _ ← wrap_err CodeInvalidArgument "global log batch root %d crypto_suite"
            (cryptosuite.RequireSame (suiteOf s) [r.(BatchRoot.CryptoSuite)]);
      if seqb r.(BatchRoot.BatchID) ""
      then Err (TrustErr.New CodeInvalidArgument "global log batch_id is required") else
      if negb (len r.(BatchRoot.BatchRoot) =? merkle.Size (profile s))
      then Err (TrustErr.New CodeInvalidArgument
                  "global log batch_root has the wrong digest size") else
      checkRoots s rest
  end.

(** The retry loop: [left] attempts remain; between two attempts other
    writers of the store may act, [env] is what they do while this one waits.
    Each attempt reads the clock from [tick n] on. *)
Fixpoint appendRetry (fuel : nat) (s : Service) (clock : nat → Z) (tick : nat → nat)
    (env : nat → S → S) (remaining attempt : nat) (store : S) (roots : list BatchRoot.t)
  : S * append_outcome :=
  match appendBatchRootsOnce fuel s clock (tick attempt) store roots with
  | (store, Failed retryable e) =>
      match remaining with
      | O => (store, Failed retryable e)
      | Datatypes.S r =>
          if negb retryable then (store, Failed retryable e)
          else appendRetry fuel s clock tick env r (Datatypes.S attempt) (env attempt store) roots
      end
  | r => r
  end.

Definition AppendBatchRoots (fuel : nat) (s : Service) (clock : nat → Z) (tick : nat → nat)
    (env : nat → S → S) (store : S) (roots : list BatchRoot.t) : S * append_outcome :=
  match signer s with
  | None => (store, Failed false (TrustErr.New CodeFailedPrecondition
               "global log signer is not configured"))
  | Some _ =>
      if len roots =? 0
      then (store, Failed false (TrustErr.New CodeInvalidArgument
              "global log append requires at least one batch root")) else
      match checkRoots s roots with
      | Err e => (store, Failed false e)
      | Ok _ => appendRetry fuel s clock tick env (appendConflictAttempts - 1) 0 store roots
      end
  end.

(** ** Compaction into tiles *)

Fixpoint compactLoop (fuel : nat) (s : Service) (clock : nat → Z) (tick : nat) (store : S)
    (start limit written : Z) : S * Z * go unit :=
  match ListGlobalLeavesRange store start limit with
  | Err e => (store, written, Fail e)
  | Ok [] => (store, written, Ret tt)
  | Ok ((first :: _) as leaves) =>
      match fuel with
      | O => (store, written, Stuck)
      | Datatypes.S f =>
          let hashes := map GlobalLogLeaf.LeafHash leaves in
          let start' := match last leaves with
                        | Some l => u64 (l.(GlobalLogLeaf.LeafIndex) + 1)
                        | None => start
                        end in
          let tile := GlobalLogTile.mk SchemaGlobalLogTile (suiteOf s) 0
                        first.(GlobalLogLeaf.LeafIndex) (len hashes) hashes true (clock tick) in
          match PutGlobalLogTile store tile with
          | (store, Err e) => (store, written, Fail e)
          | (store, Ok _) =>
              compactLoop f s clock (Datatypes.S tick) store start' limit (i64 (written + 1))
          end
      end
  end.

Definition CompactHistory (fuel : nat) (s : Service) (clock : nat → Z) (store : S) (tileSize : Z)
  : S * Z * go unit :=
  let tileSize := if tileSize =? 0 then 256 else tileSize in
  compactLoop fuel s clock 0 store 0 (i64 tileSize) 0.

End store.
End ops.
End globallog.
