(* ===== verification/GlobalLogProofs.v ===== *)
(** * The Merkle frontier of the global log

    [frontier_ok] relates a frontier to the leaves it summarises: level [i]
    is empty or the head of a complete subtree of [2 ^ i] leaves, the highest
    levels first.  Appending a leaf carries like a binary counter and keeps the
    relation; the root computed from a frontier is the RFC 6962 tree head, and
    every node emitted on the way is the head of its range of leaves. *)

From S2P Require Import Prelude TrustErr CryptoSuite Model TrustCrypto Cborx KeyDescriptor.
From S2P Require Import ModelSuite Rfc6962 Merkle MerkleProofs GlobalStore GlobalLog.
From S2P Require Import Instances.

Module globallog_frontier.
Import merkle merkle_proofs globallog.

(** What [New] establishes. *)
Definition service_wf (s : Service) : Prop := ProfileForSuite (suiteOf s) = Ok (profile s).

Lemma New_wf `{SigLib} opts s : New opts = Ok s → service_wf s.
Proof.
  unfold New. intros Hn. ok_inv. subst s. unfold service_wf, suiteOf. cbn. done.
Qed.

Lemma profile_of s : service_wf s →
  ProfileForAlgorithm (suite (profile s)) (algorithm (profile s)) = Ok (profile s) ∧
  suite (profile s) = suiteOf s ∧ profile_wf (profile s).
Proof.
  unfold service_wf. intros Hs. generalize dependent (profile s). intros p Hs.
  unfold ProfileForSuite in Hs. ok_inv.
  assert (profile_wf p) as Hwf by (by eapply ProfileForAlgorithm_wf).
  pose proof Hs as Hp. unfold ProfileForAlgorithm in Hs. ok_inv.
  assert (suite p = suiteOf s ∧ algorithm p = cryptosuite.MerkleAlgorithm (cryptosuite.Merkle x))
    as [-> ->] by (subst p; done). done.
Qed.

Section frontier.
Context `{HashLib, SigLib, CborMode GlobalLogLeaf.t, CborMode SignedTreeHead.t}.
Context (s : Service) (Hs : service_wf s).
Local Abbreviation p := (profile s).
Local Abbreviation M := (MTH (profile s)).

Lemma hash_node_wf l r :
  is_digest l → is_digest r → hash_node s l r = Ret (profile_node p l r).
Proof using Hs.
  destruct (profile_of s Hs) as (Hp & _ & Hwf). pose proof Hwf as (_ & Hsz & _).
  intros Hl Hr. unfold hash_node, HashNodeForSuite. rewrite Hp. unfold Size.
  rewrite Hsz, (proj2 (len_digest l)), (proj2 (len_digest r)) by done. cbn [Z.eqb Pos.eqb negb].
  unfold hashNode. rewrite !bytesToHash_digest, hashBytes_wf by done. cbn.
  by rewrite cloneHash_digest by apply profile_hash_digest.
Qed.

Lemma HashNodeForSuite_wf l r :
  is_digest l → is_digest r →
  call (HashNodeForSuite (suite p) (algorithm p) l r) = Ret (profile_node p l r).
Proof using Hs. exact (hash_node_wf l r). Qed.

(** A complete left subtree. *)
Lemma node_MTH lvl l1 l2 :
  length l1 = (2 ^ lvl)%nat → (1 <= length l2 <= 2 ^ lvl)%nat →
  profile_node p (M l1) (M l2) = M (l1 ++ l2).
Proof. intros H1' H2'. unfold MTH. by rewrite (mth_pow _ _ lvl). Qed.

(** ** The relation *)

Fixpoint frontier_ok (lvl : nat) (fr : list bytes) (l : list digest) : Prop :=
  match fr with
  | [] => l = []
  | h :: fr' =>
      (h = [] ∧ frontier_ok (S lvl) fr' l) ∨
      (∃ l1 l2, l = l1 ++ l2 ∧ length l2 = (2 ^ lvl)%nat ∧ is_digest h ∧ h = M l2 ∧
                frontier_ok (S lvl) fr' l1)
  end.

Lemma frontier_ok_nil_app lvl fr l n :
  frontier_ok lvl (fr ++ replicate n []) l ↔ frontier_ok lvl fr l.
Proof.
  revert lvl l. induction fr as [|h fr IH]; intros lvl l; cbn.
  - revert lvl. induction n as [|n IHn]; intros lvl; cbn; [done|]. rewrite IHn.
    split; [intros [[_ ?]|(? & ? & _ & _ & Hd & _)]; [done|discriminate Hd]|auto].
  - rewrite IH. split; (intros [?|(l1 & l2 & ? & ? & ? & ? & ?)]; [by left|]);
      right; exists l1, l2; rewrite ?IH in *; auto.
Qed.

(** Trailing empty levels do not matter. *)
Lemma trimFrontier_spec fr : ∃ n, fr = trimFrontier fr ++ replicate n [].
Proof.
  unfold trimFrontier.
  assert (∀ r, ∃ n, r = replicate n [] ++ trim_rev r) as Hr.
  { induction r as [|h r [n IH]]; [by exists 0%nat|]. cbn [trim_rev].
    destruct (len h =? 0) eqn:E; [|by exists 0%nat]. exists (S n). cbn.
    bsimpl. destruct h; [|discriminate]. by f_equal. }
  destruct (Hr (rev fr)) as [n E]. exists n.
  rewrite <- (rev_involutive fr) at 1. rewrite E at 1. rewrite rev_app_distr. f_equal.
  rewrite rev_alt. apply reverse_replicate.
Qed.

Lemma frontier_ok_trim lvl fr l : frontier_ok lvl fr l → frontier_ok lvl (trimFrontier fr) l.
Proof.
  destruct (trimFrontier_spec fr) as [n E]. rewrite E at 1. by rewrite frontier_ok_nil_app.
Qed.

(** ** The root *)

Lemma is_digest_len h : is_digest h → len h =? 0 = false.
Proof. unfold is_digest, len. intros. apply Z.eqb_neq. lia. Qed.

Lemma root_loop_some lvl fr l t :
  frontier_ok lvl fr l → (1 <= length t <= 2 ^ lvl)%nat → Forall is_digest l → Forall is_digest t →
  rootFromFrontier_loop p (Some (M t)) fr = Ret (Some (M (l ++ t))).
Proof using Hs.
  destruct (profile_of s Hs) as (_ & _ & Hwf). pose proof Hwf as (_ & Hsz & _).
  revert lvl l t. induction fr as [|h fr IH]; intros lvl l t Hf Ht Hl Hd; cbn in *.
  { by subst l. }
  assert (2 ^ S lvl = 2 * 2 ^ lvl)%nat as Hp2 by apply Nat.pow_succ_r'.
  destruct Hf as [[-> Hf]|(l1 & l2 & -> & Hl2 & Hh & -> & Hf)].
  - cbn. apply (IH (S lvl)); [done|lia|done..].
  - apply Forall_app in Hl as [Hl1 Hd2].
    rewrite is_digest_len by done. unfold Size. rewrite Hsz, (proj2 (len_digest _)) by done.
    cbn [Z.eqb Pos.eqb negb]. rewrite HashNodeForSuite_wf by (try done; by apply MTH_digest).
    cbn [mbind go_bind]. rewrite (node_MTH lvl) by lia.
    rewrite <- app_assoc. apply (IH (S lvl)); [done|rewrite length_app; lia|done|by apply Forall_app].
Qed.

Lemma rootFromFrontier_spec lvl fr l :
  frontier_ok lvl fr l → Forall is_digest l → l ≠ [] → rootFromFrontier p fr = Ret (M l).
Proof using Hs.
  destruct (profile_of s Hs) as (_ & _ & Hwf). pose proof Hwf as (_ & Hsz & _).
  intros Hf Hl Hne. unfold rootFromFrontier, Size. rewrite Hsz. cbn [Z.eqb].
  assert (rootFromFrontier_loop p None fr = Ret (Some (M l))) as ->; [|done].
  revert lvl Hf. induction fr as [|h fr IH]; intros lvl Hf; cbn in Hf |- *; [done|].
  destruct Hf as [[-> Hf]|(l1 & l2 & -> & Hl2 & Hh & -> & Hf)].
  - cbn. by apply (IH (S lvl)).
  - apply Forall_app in Hl as [Hl1 Hl2']. rewrite is_digest_len by done.
    unfold Size. rewrite Hsz, (proj2 (len_digest _)) by done. cbn [Z.eqb Pos.eqb negb].
    apply (root_loop_some (S lvl)); try done. rewrite Nat.pow_succ_r'.
    pose proof (Nat.pow_nonzero 2 lvl ltac:(lia)). lia.
Qed.

(** ** Appending one leaf *)

(** The emitted node of a chunk: its range and its hash. *)
Definition node_ok (leaves : list digest) (n : GlobalLogNode.t) : Prop :=
  ∃ lvl start : nat,
    n.(GlobalLogNode.Level) = Z.of_nat lvl ∧ n.(GlobalLogNode.StartIndex) = Z.of_nat start ∧
    n.(GlobalLogNode.Width) = 2 ^ Z.of_nat lvl ∧
    (start + 2 ^ lvl <= length leaves)%nat ∧
    n.(GlobalLogNode.Hash) = M (seg leaves start (2 ^ lvl)) ∧
    n.(GlobalLogNode.CryptoSuite) = suiteOf s ∧
    n.(GlobalLogNode.SchemaVersion) ≠ "".

Lemma shl1_nat lvl : (lvl < 64)%nat → shl1 (Z.of_nat lvl) = 2 ^ Z.of_nat lvl.
Proof.
  intros Hl. unfold shl1. rewrite (proj2 (Z.leb_gt _ _)) by lia.
  rewrite Z.shiftl_mul_pow2 by lia. rewrite Z.mul_1_l. apply u64_small.
  unfold in_u64, two64. split; [apply Z.pow_nonneg; lia|].
  change 18446744073709551616 with (2 ^ 64). apply Z.pow_lt_mono_r; lia.
Qed.

Lemma pow_le_62 lvl n : (2 ^ lvl <= n)%nat → Z.of_nat n <= 2 ^ 62 → (lvl <= 62)%nat.
Proof.
  intros Hp Hn. apply Nat2Z.inj_le. change (Z.of_nat 62) with 62.
  apply (Z.pow_le_mono_r_iff 2); [lia|lia|]. rewrite <- pow2_nat. lia.
Qed.

Lemma i64_level lvl : (lvl <= 62)%nat → Z.to_nat (i64 (Z.of_nat lvl)) = lvl.
Proof. intros. rewrite i64_small by (unfold in_i64, two63; lia). lia. Qed.

(** Empty low levels. *)
Lemma frontier_ok_pad k n fr l :
  frontier_ok (k + n) fr l → frontier_ok k (replicate n [] ++ fr) l.
Proof.
  revert k. induction n as [|n IH]; intros k Hf; cbn; [by rewrite Nat.add_0_r in Hf|].
  left. split; [done|]. apply IH. by rewrite Nat.add_succ_comm.
Qed.

(** The new entry above the empty levels, with and without padding. *)
Lemma insert_pad_nil (n : nat) (x : bytes) :
  <[n := x]> (padFrontier (replicate n []) n) = replicate n [] ++ [x].
Proof.
  unfold padFrontier. rewrite length_replicate. replace (S n - n)%nat with 1%nat by lia.
  rewrite insert_app_r_alt; rewrite length_replicate; [|done]. by rewrite Nat.sub_diag.
Qed.

Lemma insert_pad_cons (n : nat) (x h : bytes) fr :
  <[n := x]> (padFrontier (replicate n [] ++ h :: fr) n) = replicate n [] ++ x :: fr.
Proof.
  unfold padFrontier. rewrite length_app, length_replicate. cbn [length].
  replace (S n - (n + S (length fr)))%nat with 0%nat by lia. rewrite app_nil_r.
  rewrite insert_app_r_alt; rewrite length_replicate; [|done]. by rewrite Nat.sub_diag.
Qed.

(** One run of the loop, on a frontier whose levels below [lvl] are empty;
    [l] are the leaves above them, [c] the chunk carried so far. *)
Lemma append_loop_spec now fr lvl l c nodes fuel :
  frontier_ok lvl fr l → length c = (2 ^ lvl)%nat → Forall is_digest (l ++ c) →
  Z.of_nat (length (l ++ c)) <= 2 ^ 62 → (length fr <= fuel)%nat →
  Forall (node_ok (l ++ c)) nodes → Forall (λ n, n.(GlobalLogNode.CreatedAtUnixN) = now) nodes →
  ∃ st, appendState_loop fuel s now
          {| lp_frontier := replicate lvl [] ++ fr; lp_level := Z.of_nat lvl;
             lp_start := len l; lp_current := M c; lp_nodes := nodes |} = Ret st ∧
    let level := Z.to_nat (i64 (lp_level st)) in
    frontier_ok 0 (<[level := lp_current st]> (padFrontier (lp_frontier st) level)) (l ++ c) ∧
    Forall (node_ok (l ++ c)) (lp_nodes st) ∧
    Forall (λ n, n.(GlobalLogNode.CreatedAtUnixN) = now) (lp_nodes st) ∧
    (∀ n, n ∈ nodes → n ∈ lp_nodes st).
Proof using Hs.
  revert lvl l c nodes fuel.
  induction fr as [|h fr IH]; intros lvl l c nodes fuel Hf Hc Hd H62 Hfuel Hn Hnow;
    (assert (lvl <= 62)%nat as Hlvl
       by (apply (pow_le_62 _ (length (l ++ c))); [rewrite length_app; lia|done]));
    pose proof (i64_level lvl Hlvl) as Hi64.
  - cbn in Hf. subst l. destruct fuel; cbn [appendState_loop lp_frontier lp_level];
      rewrite Hi64, app_nil_r, lookup_ge_None_2 by (by rewrite length_replicate);
      (eexists; split; [reflexivity|]);
      cbn [lp_frontier lp_level lp_current lp_nodes]; rewrite Hi64;
      rewrite insert_pad_nil; (split; [|done]); apply frontier_ok_pad; cbn; right;
      exists [], c; cbn in *; repeat split; auto using MTH_digest.
  - apply Forall_app in Hd as [Hdl Hdc].
    cbn in Hf. destruct Hf as [[-> Hf]|(l1 & l2 & -> & Hl2 & Hh & -> & Hf)].
    + destruct fuel; cbn [appendState_loop lp_frontier lp_level];
        rewrite Hi64, lookup_app_r, length_replicate, Nat.sub_diag by (by rewrite length_replicate);
        (eexists; split; [reflexivity|]); cbn [lp_frontier lp_level lp_current lp_nodes]; rewrite Hi64;
        rewrite insert_pad_cons; (split; [|done]); apply frontier_ok_pad; cbn; right;
        exists l, c; repeat split; auto using MTH_digest.
    + destruct fuel as [|f]; [cbn in Hfuel; lia|]. cbn [appendState_loop lp_frontier lp_level].
      rewrite Hi64, lookup_app_r, length_replicate, Nat.sub_diag by (by rewrite length_replicate).
      cbn [lookup list_lookup lp_start lp_current lp_nodes]. rewrite is_digest_len by done.
      apply Forall_app in Hdl as [Hd1 Hd2].
      assert (2 ^ S lvl = 2 * 2 ^ lvl)%nat as Hp2 by apply Nat.pow_succ_r'.
      pose proof (Nat.pow_nonzero 2 lvl ltac:(lia)) as Hnz.
      rewrite !length_app in H62. assert (2 ^ 62 = 4611686018427387904) as E62 by done.
      rewrite shl1_nat, <- pow2_nat by lia.
      assert (len (l1 ++ l2) = len l1 + Z.of_nat (2 ^ lvl)) as -> by (unfold len; rewrite length_app; lia).
      unfold len in *.
      rewrite (proj2 (Z.ltb_ge _ _)) by lia.
      rewrite hash_node_wf by auto using MTH_digest. cbn [mbind go_bind].
      rewrite (node_MTH lvl) by lia.
      rewrite !u64_small by (unfold in_u64, two64; lia).
      rewrite Z.add_simpl_r.
      replace (Z.of_nat lvl + 1) with (Z.of_nat (S lvl)) by lia.
      rewrite insert_app_r_alt, length_replicate, Nat.sub_diag by (by rewrite length_replicate).
      cbn [insert list_insert].
      replace (replicate lvl [] ++ [] :: fr) with (replicate (S lvl) [] ++ fr)
        by (by rewrite replicate_S_end, <- app_assoc).
      rewrite <- !(app_assoc l1) in *.
      destruct (IH (S lvl) l1 (l2 ++ c) (nodes ++ [mk_node s (Z.of_nat (S lvl)) (Z.of_nat (length l1)) (M (l2 ++ c)) now]) f) as (st & Est & Hfr & Hns & Hnows & Hin);
        [done|rewrite length_app; lia| |rewrite !length_app; lia|cbn in Hfuel; lia| | |].
      { rewrite !Forall_app. auto. }
      { apply Forall_app; split; [exact Hn|]. apply Forall_singleton.
        exists (S lvl), (length l1). cbn. rewrite shl1_nat by lia. repeat split; try done.
        - rewrite !length_app. lia.
        - unfold seg. rewrite drop_app_length, take_ge by (rewrite length_app; lia). done. }
      { apply Forall_app; split; [exact Hnow|]. by apply Forall_singleton. }
      exists st. split; [exact Est|]. split; [done|]. split; [done|]. split; [done|].
      intros n Hin'. apply Hin. set_solver.
Qed.

(** ** States *)

Definition state_ok (st : GlobalLogState.t) (hs : list digest) : Prop :=
  st.(GlobalLogState.CryptoSuite) = suiteOf s ∧ st.(GlobalLogState.TreeSize) = len hs ∧
  frontier_ok 0 st.(GlobalLogState.Frontier) hs ∧ (hs ≠ [] → st.(GlobalLogState.RootHash) = M hs).

Lemma suite_known : is_ok (cryptosuite.RequireKnown (suiteOf s)) = true.
Proof using Hs.
  unfold service_wf, ProfileForSuite in Hs. ok_inv.
  by match goal with E : cryptosuite.RequireKnown _ = Ok _ |- _ => rewrite E end.
Qed.

Lemma appendState_total now st hs leaf :
  state_ok st hs → Forall is_digest hs → len hs < 2 ^ 62 →
  leaf.(GlobalLogLeaf.CryptoSuite) = suiteOf s → is_digest leaf.(GlobalLogLeaf.LeafHash) →
  leaf.(GlobalLogLeaf.LeafIndex) = len hs →
  ∃ st' nodes, appendState s now st leaf = Ret (st', nodes) ∧
    state_ok st' (hs ++ [leaf.(GlobalLogLeaf.LeafHash)]) ∧
    st'.(GlobalLogState.SchemaVersion) = SchemaGlobalLogState ∧
    st'.(GlobalLogState.UpdatedAtUnixN) = now ∧
    Forall (node_ok (hs ++ [leaf.(GlobalLogLeaf.LeafHash)])) nodes ∧
    Forall (λ n, n.(GlobalLogNode.CreatedAtUnixN) = now) nodes.
Proof using Hs.
  intros (Hsu & Hsz & Hfr & _) Hd H62 Hlsu Hld Hli.
  destruct (profile_of s Hs) as (_ & _ & (_ & Hpsz & _)).
  set (h := leaf.(GlobalLogLeaf.LeafHash)) in *.
  assert (length (hs ++ [h]) = S (length hs)) as Hlen by (rewrite length_app; cbn; lia).
  assert (2 ^ 62 = 4611686018427387904) as E62 by done.
  assert (Forall is_digest (hs ++ [h])) as Hd' by (apply Forall_app; auto).
  destruct (append_loop_spec now st.(GlobalLogState.Frontier) 0 hs [h]
    [GlobalLogNode.mk SchemaGlobalLogNode (suiteOf s) 0 (len hs) 1 h now]
    (length st.(GlobalLogState.Frontier))) as (ls & Els & Hfr' & Hns & Hnow & _);
    [done|done|done|rewrite Hlen; unfold len in *; lia|done| |by apply Forall_singleton|].
  { apply Forall_singleton. exists 0%nat, (length hs). cbn. repeat split; try done.
    - rewrite Hlen. lia.
    - unfold seg. rewrite drop_app_length. done. }
  unfold appendState.
  rewrite (proj2 (cryptosuite.RequireSame_Ok (suiteOf s) _)).
  2: { split; [apply suite_known|]. by repeat constructor. }
  cbn [ret gwrap mbind go_bind]. unfold Size. rewrite Hpsz. fold h.
  rewrite (proj2 (len_digest h) Hld), Hli, Hsz, !Z.eqb_refl. cbn [negb].
  change (M [h]) with h in Els. change (Z.of_nat 0) with 0 in Els.
  cbn [replicate app] in Els. unfold cloneFrontier. rewrite Els. cbn [mbind go_bind].
  rewrite (rootFromFrontier_spec 0 _ (hs ++ [h])) by (done || by destruct hs).
  cbn [mbind go_bind]. eexists _, _. split; [reflexivity|].
  split; [|done]. split; [done|]. split.
  { cbn. rewrite u64_small by (unfold in_u64, two64, len in *; lia). unfold len. lia. }
  split; [by apply frontier_ok_trim|done].
Qed.

(** An append that succeeds satisfied the guards. *)
Lemma appendState_inv now st leaf r :
  appendState s now st leaf = Ret r →
  leaf.(GlobalLogLeaf.CryptoSuite) = suiteOf s ∧ is_digest leaf.(GlobalLogLeaf.LeafHash) ∧
  leaf.(GlobalLogLeaf.LeafIndex) = st.(GlobalLogState.TreeSize).
Proof using Hs.
  destruct (profile_of s Hs) as (_ & _ & (_ & Hpsz & _)).
  unfold appendState. intros Ha. apply bind_Ret in Ha as (u & Hsame & Ha).
  apply gwrap_Ret, ret_Ret in Hsame. destruct u.
  apply cryptosuite.RequireSame_Ok in Hsame as [_ Hall].
  apply Forall_cons in Hall as [_ Hall]. apply Forall_cons in Hall as [Hl _].
  do 2 (case_match; [done|]). bsimpl. unfold Size in *. rewrite Hpsz in *.
  by rewrite <- len_digest.
Qed.

End frontier.
End globallog_frontier.

(** * Correctness of the global log

    [log_inv] is the invariant of the store: its leaves, batch index, nodes,
    state and tree heads all describe one list of leaves.  Appends keep it and
    only extend the list; inclusion proofs verify against the stored heads and
    consistency proofs against the RFC 6962 checker; replays return the head
    recorded first. *)

Module globallog_proofs.
Import merkle merkle_proofs globallog globallog_frontier.

(** ** Bit arithmetic *)

Lemma lp64_spec (n : nat) :
  (2 <= n)%nat → Z.of_nat n <= 2 ^ 62 →
  largestPowerOfTwoLessThan64 (Z.of_nat n) = Z.of_nat (split n).
Proof.
  intros Hn H62. assert (2 ^ 62 = 4611686018427387904) as E62 by done.
  unfold largestPowerOfTwoLessThan64, Len64. rewrite (proj2 (Z.ltb_ge _ _)) by lia.
  rewrite u64_small by (unfold in_u64, two64; lia). rewrite (proj2 (Z.eqb_neq _ _)) by lia.
  rewrite Z.add_simpl_r. replace (Z.of_nat n - 1) with (Z.of_nat (n - 1)) by lia.
  unfold split. rewrite pow2_nat.
  assert (Z.log2 (Z.of_nat (n - 1)) = Z.of_nat (Nat.log2 (n - 1))) as ->.
  { apply Z.log2_unique; [lia|]. pose proof (Nat.log2_spec (n - 1) ltac:(lia)).
    rewrite <- Nat2Z.inj_succ, <- !pow2_nat. lia. }
  apply shl1_nat. apply Nat.log2_lt_pow2; [lia|].
  apply Nat2Z.inj_lt. rewrite pow2_nat. change (2 ^ Z.of_nat 64) with 18446744073709551616. lia.
Qed.

Lemma isPowerOfTwo_true (n : nat) :
  Z.of_nat n <= 2 ^ 62 → isPowerOfTwo (Z.of_nat n) = true → ∃ j, n = (2 ^ j)%nat.
Proof.
  intros H62 Hp. assert (2 ^ 62 = 4611686018427387904) as E62 by done.
  unfold isPowerOfTwo in Hp. bsimpl.
  match goal with E : Z.land _ _ = 0 |- _ => rename E into El end.
  rewrite u64_small in El by (unfold in_u64, two64; lia).
  exists (Nat.log2 n). pose proof (Nat.log2_spec n ltac:(lia)) as Hs.
  destruct (decide (n = (2 ^ Nat.log2 n)%nat)) as [|Hne]; [done|exfalso].
  set (j := Nat.log2 n) in *. clearbody j.
  assert (∀ a : Z, 2 ^ Z.of_nat j <= a < 2 ^ Z.of_nat (S j) → Z.testbit a (Z.of_nat j) = true) as Hbit.
  { intros a Ha. apply Z.testbit_true; [lia|]. rewrite pow_succ_Z in Ha.
    assert (a / 2 ^ Z.of_nat j = 1) as ->; [|done].
    symmetry. apply Z.div_unique with (r := a - 2 ^ Z.of_nat j); lia. }
  apply (f_equal (λ z, Z.testbit z (Z.of_nat j))) in El.
  rewrite Z.land_spec, Z.bits_0, !Hbit in El; [done| |]; rewrite <- !pow2_nat; lia.
Qed.

Lemma TrailingZeros64_pow j : TrailingZeros64 (2 ^ Z.of_nat j) = Z.of_nat j.
Proof.
  assert (0 < 2 ^ Z.of_nat j) by (apply Z.pow_pos_nonneg; lia).
  unfold TrailingZeros64. rewrite (proj2 (Z.eqb_neq _ _)) by lia.
  replace (- 2 ^ Z.of_nat j) with (Z.lnot (Z.ones (Z.of_nat j))).
  2: { rewrite Z.ones_equiv. unfold Z.lnot. lia. }
  rewrite <- Z.ldiff_land, Z.ldiff_ones_r by lia.
  rewrite Z.shiftr_div_pow2, Z.div_same, Z.shiftl_mul_pow2 by lia.
  rewrite Z.mul_1_l. apply Z.log2_pow2. lia.
Qed.

Lemma u64_nat (z : Z) : 0 <= z <= 2 ^ 62 → u64 z = z.
Proof.
  intros. apply u64_small. unfold in_u64, two64.
  change (2 ^ 62) with 4611686018427387904 in *. lia.
Qed.

(** ** The invariant *)

Section log.
Context `{HashLib, SigLib, CborMode GlobalLogLeaf.t, CborMode SignedTreeHead.t}.
Context {S : Type} `{GlobalStoreLaws S}.
Context (s : Service) (Hs : service_wf s).
Local Abbreviation p := (profile s).
Local Abbreviation M := (MTH (profile s)).
Local Abbreviation hashes := (map GlobalLogLeaf.LeafHash).

(** The leaf at position [i]. *)
Definition leaf_ok (i : nat) (l : GlobalLogLeaf.t) : Prop :=
  l.(GlobalLogLeaf.LeafIndex) = Z.of_nat i ∧ is_digest l.(GlobalLogLeaf.LeafHash) ∧
  l.(GlobalLogLeaf.CryptoSuite) = suiteOf s ∧
  l.(GlobalLogLeaf.NodeID) = nodeID s ∧ l.(GlobalLogLeaf.LogID) = logID s.

(** The head of the first [m] leaves. *)
Definition sth_ok (lvs : list GlobalLogLeaf.t) (m : Z) (h : SignedTreeHead.t) : Prop :=
  1 <= m <= len lvs ∧
  h.(SignedTreeHead.SchemaVersion) = SchemaSignedTreeHead ∧
  h.(SignedTreeHead.CryptoSuite) = suiteOf s ∧
  h.(SignedTreeHead.TreeAlg) = algorithm p ∧
  h.(SignedTreeHead.TreeSize) = m ∧
  h.(SignedTreeHead.RootHash) = M (take (Z.to_nat m) (hashes lvs)) ∧
  h.(SignedTreeHead.NodeID) = nodeID s ∧ h.(SignedTreeHead.LogID) = logID s.

Record log_inv (c : contents) (lvs : list GlobalLogLeaf.t) : Prop := mkInv {
  inv_leaves (i : Z) : c_leaves c !! i = if i <? 0 then None else lvs !! Z.to_nat i;
  inv_leaf i l : lvs !! i = Some l → leaf_ok i l;
  inv_batches b l :
    c_batches c !! b = Some l ↔ l.(GlobalLogLeaf.BatchID) = b ∧ l ∈ lvs;
  inv_nodes k n : c_nodes c !! k = Some n →
    node_ok s (hashes lvs) n ∧ k = (n.(GlobalLogNode.Level), n.(GlobalLogNode.StartIndex));
  inv_state : match c_state c with
              | Some st => state_ok s st (hashes lvs)
              | None => lvs = []
              end;
  inv_sth m h : c_sths c !! m = Some h → sth_ok lvs m h;
  inv_sths (m : Z) : 1 <= m <= len lvs → is_Some (c_sths c !! m) }.

Lemma inv_digests c lvs : log_inv c lvs → Forall is_digest (hashes lvs).
Proof.
  intros Hi. apply Forall_fmap, Forall_lookup. intros i l Hl. cbn.
  by destruct (inv_leaf _ _ Hi i l Hl) as (_ & Hd & _).
Qed.

Lemma log_inv_empty : log_inv empty_contents [].
Proof.
  constructor; cbn; try done.
  - intros i. rewrite lookup_empty. by case_match.
  - intros b l. rewrite lookup_empty. set_solver.
  - intros m. unfold len. cbn. lia.
Qed.

(** Leaves are identified by their batch. *)
Lemma inv_batch_unique c lvs l1 l2 :
  log_inv c lvs → l1 ∈ lvs → l2 ∈ lvs →
  l1.(GlobalLogLeaf.BatchID) = l2.(GlobalLogLeaf.BatchID) → l1 = l2.
Proof.
  intros Hi H1' H2' E. pose proof (proj2 (inv_batches _ _ Hi _ l1) (conj eq_refl H1')) as E1.
  pose proof (proj2 (inv_batches _ _ Hi _ l2) (conj eq_refl H2')) as E2. congruence.
Qed.

(** ** Proofs from stored nodes *)

Section reads.
Context `{!GlobalStoreReads S}.
Context (store : S) (lvs : list GlobalLogLeaf.t) (Hinv : log_inv (view store) lvs).
Context (H62 : len lvs <= 2 ^ 62).
Local Abbreviation hs := (hashes lvs).

Lemma read_leaf (i : nat) l :
  lvs !! i = Some l → GetGlobalLeaf store (Z.of_nat i) = Ok (Some l).
Proof using All.
  intros Hl. destruct (proj1 (is_ok_iff _) (get_leaf_ok store (Z.of_nat i))) as [r Hr].
  rewrite Hr. apply get_leaf_law in Hr as ->.
  rewrite (inv_leaves _ _ Hinv), (proj2 (Z.ltb_ge _ _)) by lia. by rewrite Nat2Z.id, Hl.
Qed.

Lemma read_node level i n :
  GetGlobalLogNode store (Z.of_nat level) (Z.of_nat i) = Ok (Some n) →
  n.(GlobalLogNode.Hash) = M (seg hs i (2 ^ level)).
Proof using All.
  intros Hn. apply get_node_law in Hn. symmetry in Hn.
  apply (inv_nodes _ _ Hinv) in Hn as [(lvl & st & El & Es & _ & _ & -> & _) E].
  injection E as E1 E2. rewrite <- E1 in El. rewrite <- E2 in Es.
  apply Nat2Z.inj in El, Es. by subst.
Qed.

Lemma hashes_digest i n : Forall is_digest (seg hs i n).
Proof using All. apply Forall_take, Forall_drop. by eapply inv_digests. Qed.

Lemma subtreeRoot_spec f (start width : nat) :
  (1 <= width <= 2 ^ f)%nat → (start + width <= length lvs)%nat →
  subtreeRoot f s store (Z.of_nat start) (Z.of_nat width) = Ret (M (seg hs start width)).
Proof using All.
  assert (2 ^ 62 = 4611686018427387904) as E62 by done. unfold len in H62.
  assert (length hs = length lvs) as Hlen by apply length_map.
  revert start width. induction f as [|f IH]; intros start width Hw Hb.
  all: assert (Z.of_nat width =? 0 = false) as E0 by (apply Z.eqb_neq; lia).
  all: destruct (decide (width = 1%nat)) as [->|Hne].
  1, 3: destruct (lookup_lt_is_Some_2 lvs start ltac:(lia)) as [l Hl];
    cbn [subtreeRoot]; rewrite (read_leaf start l Hl);
    unfold seg; rewrite (drop_S hs l.(GlobalLogLeaf.LeafHash) start) by (by rewrite list_lookup_fmap, Hl);
    done.
  { simpl in Hw. lia. }
  cbn [subtreeRoot]. rewrite E0. rewrite (proj2 (Z.eqb_neq _ 1)) by lia.
  split_bounds width. destruct (split_half f width) as [Hk1 Hk2]; [lia|].
  assert (∀ k, k = Z.of_nat (split width) →
    (l ← subtreeRoot f s store (Z.of_nat start) k;
     r ← subtreeRoot f s store (u64 (Z.of_nat start + k)) (u64 (Z.of_nat width - k));
     hash_node s l r) = Ret (M (seg hs start width))) as Hrec.
  { intros k ->. rewrite IH by lia. cbn [mbind go_bind]. rewrite !u64_nat by lia.
    rewrite <- Nat2Z.inj_add, <- Nat2Z.inj_sub by lia. rewrite IH by lia. cbn [mbind go_bind].
    rewrite hash_node_wf by (try done; apply MTH_digest, hashes_digest).
    rewrite (MTH_seg_split p hs start width) by lia. done. }
  destruct (isPowerOfTwo (Z.of_nat width)) eqn:Epow.
  - destruct (isPowerOfTwo_true width ltac:(lia) Epow) as [j Hj].
    assert (TrailingZeros64 (Z.of_nat width) = Z.of_nat j) as ->
      by (rewrite Hj, pow2_nat; apply TrailingZeros64_pow).
    destruct (proj1 (is_ok_iff _) (get_node_ok store (Z.of_nat j) (Z.of_nat start))) as [r Hr].
    rewrite Hr. cbn [ret mbind go_bind]. destruct r as [n|].
    + apply read_node in Hr. by rewrite Hr, <- Hj.
    + apply Hrec. destruct j as [|j]; [simpl in Hj; lia|]. rewrite Hj, split_pow.
      rewrite !pow2_nat, pow_succ_Z, Z.mul_comm, Z.div_mul by lia. done.
  - cbn [mbind go_bind]. apply Hrec. apply lp64_spec; lia.
Qed.

Lemma service_auditPath_spec f (i start width : nat) :
  (1 <= width <= 2 ^ f)%nat → (start + width <= length lvs)%nat →
  (start <= i < start + width)%nat →
  globallog.auditPath f s store (Z.of_nat i) (Z.of_nat start) (Z.of_nat width)
  = Ret (PATH p (i - start) (seg hs start width)).
Proof using All.
  assert (2 ^ 62 = 4611686018427387904) as E62 by done. unfold len in H62.
  assert (length hs = length lvs) as Hlen by apply length_map.
  revert start width. induction f as [|f IH]; intros start width Hw Hb Hi.
  all: cbn [globallog.auditPath]; rewrite (proj2 (Z.eqb_neq _ 0)), (proj2 (Z.ltb_ge _ _)) by lia;
    rewrite u64_nat, (proj2 (Z.leb_gt _ _)) by lia; cbn [orb].
  all: destruct (decide (width = 1%nat)) as [->|Hne].
  1, 3: destruct (lookup_lt_is_Some_2 hs start ltac:(lia)) as [h Hh];
    cbn; by rewrite (seg_one _ _ _ Hh).
  { simpl in Hw. lia. }
  rewrite (proj2 (Z.eqb_neq _ 1)) by lia.
  split_bounds width. destruct (split_half f width) as [Hk1 Hk2]; [lia|].
  rewrite lp64_spec by lia. rewrite !u64_nat by lia.
  rewrite <- Nat2Z.inj_add, <- Nat2Z.inj_sub by lia. rewrite PATH_seg_split by lia. cbv zeta.
  destruct (decide (i < start + split width)%nat) as [Hlt|Hge].
  - rewrite (proj2 (Z.ltb_lt _ _)), IH by lia. cbn [mbind go_bind].
    rewrite subtreeRoot_spec by lia. by rewrite decide_True by lia.
  - rewrite (proj2 (Z.ltb_ge _ _)), IH by lia. cbn [mbind go_bind].
    rewrite subtreeRoot_spec by lia. rewrite decide_False by lia.
    by replace (i - (start + split width))%nat with (i - start - split width)%nat by lia.
Qed.

Lemma consistencyProofRange_spec f (start width from : nat) complete :
  (1 <= width <= 2 ^ f)%nat → (start + width <= length lvs)%nat → (1 <= from <= width)%nat →
  consistencyProofRange f s store (Z.of_nat start) (Z.of_nat width) (Z.of_nat from) complete
  = Ret (subproof (profile_node p) (profile_hash p []) from (seg hs start width) complete).
Proof using All.
  assert (2 ^ 62 = 4611686018427387904) as E62 by done. unfold len in H62.
  assert (length hs = length lvs) as Hlen by apply length_map.
  revert start width from complete. induction f as [|f IH]; intros start width from complete Hw Hb Hf.
  all: assert (length (seg hs start width) = width) as Hseg by (apply seg_length; lia).
  all: cbn [consistencyProofRange]; rewrite (proj2 (Z.eqb_neq _ 0)), (proj2 (Z.ltb_ge _ _)) by lia;
    cbn [orb].
  all: destruct (decide (from = width)) as [->|Hne].
  1, 3: rewrite Z.eqb_refl;
    pose proof (subproof_full (profile_node p) (profile_hash p []) (seg hs start width) complete)
      as Hfull; rewrite Hseg in Hfull; rewrite Hfull;
    destruct complete; [done|]; rewrite subtreeRoot_spec by lia; done.
  { simpl in Hw. lia. }
  rewrite (proj2 (Z.eqb_neq _ _)) by lia.
  split_bounds width. destruct (split_half f width) as [Hk1 Hk2]; [lia|].
  rewrite lp64_spec by lia. rewrite subproof_unfold by lia. cbv zeta. rewrite Hseg.
  rewrite seg_take, seg_drop by lia.
  destruct (decide (from <= split width)%nat) as [Hle|Hgt].
  - rewrite (proj2 (Z.leb_le _ _)), IH by lia. cbn [mbind go_bind].
    rewrite !u64_nat by lia. rewrite <- Nat2Z.inj_add, <- Nat2Z.inj_sub by lia.
    by rewrite subtreeRoot_spec by lia.
  - rewrite (proj2 (Z.leb_gt _ _)) by lia. rewrite !u64_nat by lia.
    rewrite <- Nat2Z.inj_add, <- !Nat2Z.inj_sub by lia. rewrite IH by lia. cbn [mbind go_bind].
    by rewrite subtreeRoot_spec by lia.
Qed.

Lemma read_sth (m : Z) : 1 <= m <= len lvs →
  ∃ h, GetSignedTreeHead store m = Ok (Some h) ∧ c_sths (view store) !! m = Some h ∧ sth_ok lvs m h.
Proof using All.
  intros Hm. destruct (inv_sths _ _ Hinv m Hm) as [h Hh]. exists h.
  destruct (proj1 (is_ok_iff _) (get_sth_ok store m ltac:(lia))) as [r Hr].
  pose proof (get_sth_law _ _ _ Hr) as ->. rewrite Hr, Hh.
  split; [done|]. split; [done|]. by apply (inv_sth _ _ Hinv).
Qed.

Lemma read_batch l :
  l ∈ lvs → l.(GlobalLogLeaf.BatchID) ≠ "" →
  GetGlobalLeafByBatchID store l.(GlobalLogLeaf.BatchID) = Ok (Some l).
Proof using All.
  intros Hl Hb. destruct (proj1 (is_ok_iff _) (get_batch_ok store _ Hb)) as [r Hr].
  rewrite Hr. apply get_batch_law in Hr as ->. f_equal. by apply (inv_batches _ _ Hinv).
Qed.

(** The proof [InclusionProof] builds for the leaf [i] in the tree of size [n]. *)
Lemma InclusionProof_spec fuel (i n : nat) l :
  (62 <= fuel)%nat → lvs !! i = Some l → l.(GlobalLogLeaf.BatchID) ≠ "" →
  (i < n <= length lvs)%nat →
  ∃ proof h, InclusionProof fuel s store l.(GlobalLogLeaf.BatchID) (Z.of_nat n) = Ret proof ∧
    c_sths (view store) !! Z.of_nat n = Some h ∧ sth_ok lvs (Z.of_nat n) h ∧
    proof = GlobalLogProof.mk SchemaGlobalLogProof (suiteOf s) l.(GlobalLogLeaf.NodeID)
      l.(GlobalLogLeaf.LogID) l.(GlobalLogLeaf.BatchID) (Z.of_nat i) l.(GlobalLogLeaf.LeafHash)
      (Z.of_nat n) (PATH p i (take n hs)) h GlobalConsistencyProof.zero.
Proof using All.
  intros Hf Hl Hb Hi. destruct (inv_leaf _ _ Hinv i l Hl) as (Hidx & _).
  destruct (read_sth (Z.of_nat n)) as (h & Hh & Hch & Hok); [unfold len; lia|].
  eexists _, h. split; [|split; [exact Hch|split; [exact Hok|reflexivity]]].
  unfold InclusionProof.
  rewrite read_batch by (try done; by eapply list_elem_of_lookup_2). cbn [ret mbind go_bind].
  rewrite (proj2 (Z.eqb_neq _ 0)) by lia. cbn [mbind go_bind].
  rewrite Hidx, (proj2 (Z.leb_gt _ _)) by lia. rewrite Hh. cbn [ret mbind go_bind].
  change 0 with (Z.of_nat 0). rewrite (service_auditPath_spec fuel i 0 n); [|split; [lia|]|lia|lia].
  - cbn [gwrap mbind go_bind]. rewrite Nat.sub_0_r. unfold seg. by rewrite drop_0.
  - apply pow62_fuel; [unfold len in H62; lia|done].
Qed.

(** The proof of [InclusionProof] for the leaf [i] verifies. *)
Lemma inclusion_spec fuel (i n : nat) l :
  (63 <= fuel)%nat → lvs !! i = Some l → l.(GlobalLogLeaf.BatchID) ≠ "" →
  (i < n <= length lvs)%nat →
  ∃ h, let proof := GlobalLogProof.mk SchemaGlobalLogProof (suiteOf s) l.(GlobalLogLeaf.NodeID)
      l.(GlobalLogLeaf.LogID) l.(GlobalLogLeaf.BatchID) (Z.of_nat i) l.(GlobalLogLeaf.LeafHash)
      (Z.of_nat n) (PATH p i (take n hs)) h GlobalConsistencyProof.zero in
    InclusionProof fuel s store l.(GlobalLogLeaf.BatchID) (Z.of_nat n) = Ret proof ∧
    VerifyInclusionForSuite fuel (suiteOf s) proof = Ret true ∧
    c_sths (view store) !! Z.of_nat n = Some h ∧ sth_ok lvs (Z.of_nat n) h.
Proof using All.
  intros Hf Hl Hb Hi.
  destruct (InclusionProof_spec fuel i n l) as (proof & h & Hp & Hh & Hok & ->); [lia|done..|].
  exists h. split; [exact Hp|]. split; [|done].
  destruct Hok as (_ & Hsch & Hsu & Halg & Hsz & Hroot & _ & _). rewrite Nat2Z.id in Hroot.
  destruct (profile_of s Hs) as (Hprof & Hsuite & Hwf). unfold VerifyInclusionForSuite. cbn.
  rewrite (proj2 (cryptosuite.RequireSame_Ok (suiteOf s) _)).
  2: { split; [by apply suite_known|]. by repeat constructor. }
  cbn [ret mbind go_bind]. rewrite Hsch, Hsz, seqb_refl, Z.eqb_refl. cbn [negb orb].
  rewrite (proj2 (Z.eqb_neq _ 0)), (proj2 (Z.leb_gt _ _)) by lia. cbn [orb].
  unfold VerifyForSuite. rewrite Halg, <- Hsuite, Hprof, Hroot. unfold len in H62.
  rewrite verify_spec by (done || lia). rewrite !Nat2Z.id. cbn [fmap option_fmap option_map call ret].
  f_equal. apply bool_decide_eq_true.
  pose proof (inv_digests _ _ Hinv) as Hd.
  assert (Forall is_digest (take n hs)) as Hdn by (by apply Forall_take).
  assert (take n hs !! i = Some l.(GlobalLogLeaf.LeafHash)) as Hti.
  { rewrite lookup_take_lt by lia. by rewrite list_lookup_fmap, Hl. }
  assert (length (take n hs) = n) as Hln by (rewrite length_take, length_map; lia).
  split; [by eapply Forall_lookup_1|]. split; [by apply MTH_digest|]. split; [lia|].
  rewrite <- (app_nil_r (PATH p i (take n hs))). rewrite <- Hln at 1.
  apply path_root_complete; [done|rewrite Hln; apply pow62_fuel; lia|].
  eapply Forall_impl; [by apply PATH_digests|]. intros x. apply digestb_true.
Qed.

(** An inclusion proof is produced for every batch in the log and every
    tree size that covers it, and it verifies: it carries the stored signed
    tree head of that size, whose root is the RFC 6962 head of the first
    [n] leaf hashes, and the leaf hash of the batch. *)
Theorem inclusion_proof_verifies fuel (i n : nat) l :
  (63 <= fuel)%nat → lvs !! i = Some l → l.(GlobalLogLeaf.BatchID) ≠ "" →
  (i < n <= length lvs)%nat →
  ∃ proof, InclusionProof fuel s store l.(GlobalLogLeaf.BatchID) (Z.of_nat n) = Ret proof ∧
    VerifyInclusionForSuite fuel (suiteOf s) proof = Ret true ∧
    proof.(GlobalLogProof.LeafHash) = l.(GlobalLogLeaf.LeafHash) ∧
    c_sths (view store) !! Z.of_nat n = Some proof.(GlobalLogProof.STH) ∧
    proof.(GlobalLogProof.STH).(SignedTreeHead.RootHash) = M (take n hs).
Proof using All.
  intros Hf Hl Hb Hi. destruct (inclusion_spec fuel i n l Hf Hl Hb Hi) as (h & Hp & Hv & Hh & Hok).
  eexists. do 4 (split; [done|]). destruct Hok as (_ & _ & _ & _ & _ & Hroot & _). by rewrite Nat2Z.id in Hroot.
Qed.

(** C15: a consistency proof is produced for every pair of sizes
    [0 < m ≤ n] of the log and the RFC 6962 consistency check accepts it
    against the roots of the two stored signed tree heads. *)
Theorem consistency_proof_verifies fuel (m n : nat) :
  (62 <= fuel)%nat → (1 <= m <= n)%nat → (n <= length lvs)%nat →
  ∃ proof h1 h2,
    ConsistencyProof fuel s store (Z.of_nat m) (Z.of_nat n) = Ret proof ∧
    c_sths (view store) !! Z.of_nat m = Some h1 ∧ c_sths (view store) !! Z.of_nat n = Some h2 ∧
    consistency_ok (profile_node p) bytes_equal m n h1.(SignedTreeHead.RootHash)
      h2.(SignedTreeHead.RootHash) proof.(GlobalConsistencyProof.AuditPath) = true.
Proof using All.
  intros Hf Hm Hn. assert (len lvs = Z.of_nat (length lvs)) as Hlen by done.
  destruct (read_sth (Z.of_nat m)) as (h1 & _ & Hc1 & (_ & _ & _ & _ & _ & Hr1 & _)); [lia|].
  destruct (read_sth (Z.of_nat n)) as (h2 & _ & Hc2 & (_ & _ & _ & _ & _ & Hr2 & _)); [lia|].
  rewrite Nat2Z.id in Hr1, Hr2.
  eexists _, h1, h2. split; [|split; [exact Hc1|split; [exact Hc2|]]].
  - unfold ConsistencyProof. rewrite !(proj2 (Z.eqb_neq _ 0)), (proj2 (Z.ltb_ge _ _)) by lia.
    cbn [orb]. change 0 with (Z.of_nat 0).
    rewrite (consistencyProofRange_spec fuel 0 n m true); [reflexivity|split; [lia|]|lia|lia].
    apply pow62_fuel; lia.
  - cbn [GlobalConsistencyProof.AuditPath]. rewrite Hr1, Hr2. unfold seg. rewrite drop_0.
    assert (length (take n hs) = n) as Hln by (rewrite length_take, length_map; lia).
    unfold consistency_ok.
    pose proof (consistency_roots_complete (profile_node p) (profile_hash p []) n m (take n hs) true [])
      as Hc. rewrite Hln, take_take_le, app_nil_r in Hc by lia.
    unfold MTH. rewrite Hc by lia. by rewrite !bytes_equal_refl.
Qed.
End reads.

(** ** One append *)

Lemma node_ok_mono hs ext n : node_ok s hs n → node_ok s (hs ++ ext) n.
Proof.
  intros (lvl & st & El & Es & Ew & Hb & Eh & Hr). exists lvl, st. repeat split; try done; try apply Hr.
  - rewrite length_app. lia.
  - rewrite Eh. f_equal. unfold seg. rewrite skipn_app, take_app_le by (rewrite length_drop; lia). done.
Qed.

Lemma sth_ok_mono lvs ext m h : sth_ok lvs m h → sth_ok (lvs ++ ext) m h.
Proof.
  intros (Hm & Hsch & Hsu & Ha & Hsz & Hr & Hid). unfold sth_ok, len in *. rewrite length_app.
  split; [lia|]. do 4 (split; [done|]). split; [|done].
  rewrite Hr, map_app, take_app_le by (rewrite length_map; lia). done.
Qed.

Lemma put_nodes_lookup c ns k n :
  c_nodes (foldl (λ c n, put_node n c) c ns) !! k = Some n →
  (n ∈ ns ∧ k = (n.(GlobalLogNode.Level), n.(GlobalLogNode.StartIndex))) ∨ c_nodes c !! k = Some n.
Proof.
  revert c. induction ns as [|x ns IH]; intros c Hk; cbn in Hk; [by right|].
  apply IH in Hk as [[? ?]|Hk]; [left; set_solver|]. cbn in Hk.
  apply lookup_insert_Some in Hk as [[<- <-]|[_ Hk]]; [left; set_solver|by right].
Qed.

Lemma put_nodes_rest c ns :
  let c' := foldl (λ c n, put_node n c) c ns in
  c_leaves c' = c_leaves c ∧ c_batches c' = c_batches c ∧ c_state c' = c_state c ∧
  c_sths c' = c_sths c.
Proof. revert c. induction ns as [|x ns IH]; intros c; cbn; [done|]. apply (IH (put_node x c)). Qed.

Lemma put_append_sths c e m :
  c_sths (put_append c e) !! m =
    if decide (e.(GlobalLogAppend.STH).(SignedTreeHead.TreeSize) = m)
    then Some e.(GlobalLogAppend.STH) else c_sths c !! m.
Proof.
  unfold put_append. cbn. destruct (put_nodes_rest (put_leaf (GlobalLogAppend.Leaf e) c)
    (GlobalLogAppend.Nodes e)) as (_ & _ & _ & ->). cbn.
  case_decide; [subst; apply lookup_insert_eq|by apply lookup_insert_ne].
Qed.

Lemma put_append_batches c e :
  c_batches (put_append c e) =
    <[e.(GlobalLogAppend.Leaf).(GlobalLogLeaf.BatchID) := e.(GlobalLogAppend.Leaf)]> (c_batches c).
Proof.
  unfold put_append. cbn. by destruct (put_nodes_rest (put_leaf (GlobalLogAppend.Leaf e) c)
    (GlobalLogAppend.Nodes e)) as (_ & -> & _ & _).
Qed.

(** What the planner guarantees of an append to a log with leaves [lvs]. *)
Definition append_ok (c : contents) (lvs : list GlobalLogLeaf.t) (e : GlobalLogAppend.t) : Prop :=
  let lvs' := lvs ++ [e.(GlobalLogAppend.Leaf)] in
  leaf_ok (length lvs) e.(GlobalLogAppend.Leaf) ∧
  c_batches c !! e.(GlobalLogAppend.Leaf).(GlobalLogLeaf.BatchID) = None ∧
  Forall (node_ok s (hashes lvs')) e.(GlobalLogAppend.Nodes) ∧
  state_ok s e.(GlobalLogAppend.State) (hashes lvs') ∧
  sth_ok lvs' (len lvs') e.(GlobalLogAppend.STH).

Lemma put_append_inv c lvs e :
  log_inv c lvs → append_ok c lvs e → log_inv (put_append c e) (lvs ++ [e.(GlobalLogAppend.Leaf)]).
Proof.
  intros Hi (Hl & Hb & Hn & Hst & Hh). destruct e as [l ns st h]. cbn [GlobalLogAppend.Leaf
    GlobalLogAppend.Nodes GlobalLogAppend.State GlobalLogAppend.STH] in *.
  assert (len (lvs ++ [l]) = len lvs + 1) as Hlen by (unfold len; rewrite length_app; cbn; lia).
  destruct (put_nodes_rest (put_leaf l c) ns) as (El & Eb & Es & Eh).
  pose proof Hh as (_ & _ & _ & _ & Hsz & _).
  constructor.
  - intros i. unfold put_append. cbn. rewrite El. cbn. destruct Hl as (-> & _).
    destruct (decide (Z.of_nat (length lvs) = i)) as [<-|Hne].
    + rewrite lookup_insert_eq, (proj2 (Z.ltb_ge _ _)) by lia. rewrite Nat2Z.id.
      by rewrite lookup_app_r, Nat.sub_diag by lia.
    + rewrite lookup_insert_ne, (inv_leaves _ _ Hi) by done. case_match; [done|]. bsimpl.
      destruct (decide (Z.to_nat i < length lvs)%nat).
      * by rewrite lookup_app_l by lia.
      * by rewrite !lookup_ge_None_2 by (rewrite ?length_app; cbn; lia).
  - intros i x Hx. apply lookup_app_Some in Hx as [Hx|[Hge Hx]]; [by apply (inv_leaf _ _ Hi)|].
    destruct (i - length lvs)%nat as [|j] eqn:E; [|by destruct j]. cbn in Hx. injection Hx as <-.
    by replace i with (length lvs) by lia.
  - intros b x. rewrite put_append_batches. cbn. rewrite lookup_insert_Some, elem_of_app, list_elem_of_singleton.
    rewrite (inv_batches _ _ Hi). split; [naive_solver|].
    intros [<- [Hx| ->]]; [|naive_solver]. right. split; [|done].
    intros E. pose proof (proj2 (inv_batches _ _ Hi _ x) (conj eq_refl Hx)). congruence.
  - intros k n Hk. unfold put_append in Hk. cbn in Hk.
    apply put_nodes_lookup in Hk as [[Hin ->]|Hk].
    + split; [|done]. by eapply Forall_forall in Hn.
    + cbn in Hk. apply (inv_nodes _ _ Hi) in Hk as [Hk ->]. split; [|done].
      rewrite map_app. by apply node_ok_mono.
  - done.
  - intros m x. rewrite put_append_sths. cbn. case_decide as E.
    + intros Hx. injection Hx as <-. by rewrite <- E, Hsz.
    + intros Hx%(inv_sth _ _ Hi). by apply sth_ok_mono.
  - intros m Hm. rewrite put_append_sths. cbn. case_decide as E; [done|].
    apply (inv_sths _ _ Hi). rewrite Hsz in E. lia.
Qed.

(** Heads already stored stay. *)
Lemma put_append_keeps c lvs e m h :
  log_inv c lvs → append_ok c lvs e → c_sths c !! m = Some h → c_sths (put_append c e) !! m = Some h.
Proof.
  intros Hi (_ & _ & _ & _ & (_ & _ & _ & _ & Hsz & _)) Hh. rewrite put_append_sths.
  apply (inv_sth _ _ Hi) in Hh as Hok. destruct Hok as [Hm _].
  rewrite decide_False; [done|]. rewrite Hsz. unfold len in *. rewrite length_app. cbn. lia.
Qed.

(** ** Planning the appends *)

(** The leaf that records a batch root. *)
Definition records (root : BatchRoot.t) (l : GlobalLogLeaf.t) : Prop :=
  l.(GlobalLogLeaf.BatchID) = root.(BatchRoot.BatchID) ∧
  l.(GlobalLogLeaf.CryptoSuite) = root.(BatchRoot.CryptoSuite) ∧
  l.(GlobalLogLeaf.NodeID) = root.(BatchRoot.NodeID) ∧
  l.(GlobalLogLeaf.LogID) = root.(BatchRoot.LogID) ∧
  l.(GlobalLogLeaf.BatchRoot) = root.(BatchRoot.BatchRoot) ∧
  l.(GlobalLogLeaf.BatchTreeSize) = root.(BatchRoot.TreeSize) ∧
  l.(GlobalLogLeaf.BatchClosedAtUnixN) = root.(BatchRoot.ClosedAtUnixN).

(** The log with leaves [lvs] answers the root with the head [sth]: the root
    is recorded at some index and [sth] is the head right after it. *)
Definition answered (c : contents) (lvs : list GlobalLogLeaf.t) (root : BatchRoot.t)
    (sth : SignedTreeHead.t) : Prop :=
  ∃ (i : nat) l, lvs !! i = Some l ∧ records root l ∧ c_sths c !! (Z.of_nat i + 1) = Some sth.

Lemma answered_mono c lvs e root sth :
  log_inv c lvs → append_ok c lvs e → answered c lvs root sth →
  answered (put_append c e) (lvs ++ [e.(GlobalLogAppend.Leaf)]) root sth.
Proof.
  intros Hi He (i & l & Hl & Hr & Hh). exists i, l.
  split; [by apply lookup_app_l_Some|]. split; [done|]. by eapply put_append_keeps.
Qed.

Lemma replay_root_ok a b : validateGlobalLogReplayRoot a b = Ok tt →
  ∀ l, records a l → records b l.
Proof.
  unfold validateGlobalLogReplayRoot. case_match; [done|]. intros _ l. bsimpl.
  unfold records. intros. naive_solver congruence.
Qed.

Lemma replay_leaf_ok l b : validateGlobalLogReplayLeaf l b = Ok tt → records b l.
Proof. unfold validateGlobalLogReplayLeaf. case_match; [done|]. intros _. bsimpl. done. Qed.

Lemma signSTHFromState_Ok now st sth :
  signSTHFromState s now st = Ok sth →
  ∃ sig, sth = SignedTreeHead.mk SchemaSignedTreeHead (suiteOf s) (algorithm p)
    st.(GlobalLogState.TreeSize) st.(GlobalLogState.RootHash) now (nodeID s) (logID s) sig.
Proof.
  unfold signSTHFromState, signTreeHead. intros Hsg. ok_inv. eexists. by subst.
Qed.

Lemma HashLeaf_digest pr l h : HashLeafWithProvider pr l = Ok h → is_digest h.
Proof.
  unfold HashLeafWithProvider. destruct pr; [|done]. intros Hh. ok_inv. subst h.
  apply trustcrypto.HashFactory_Sum_len.
Qed.

Lemma state_ok_empty :
  state_ok s (GlobalLogState.mk SchemaGlobalLogState (suiteOf s) 0 [] [] 0) [].
Proof. done. Qed.

(** The append the planner makes for a new batch root. *)
Lemma new_append c all st root now0 now1 now2 hash st' nodes sth :
  log_inv c all → len all < 2 ^ 62 → state_ok s st (hashes all) → is_digest hash →
  c_batches c !! root.(BatchRoot.BatchID) = None →
  root.(BatchRoot.NodeID) = nodeID s → root.(BatchRoot.LogID) = logID s →
  let leaf := GlobalLogLeaf.set_LeafHash hash (newLeaf s root st.(GlobalLogState.TreeSize) now0) in
  appendState s now1 st leaf = Ret (st', nodes) → signSTHFromState s now2 st' = Ok sth →
  now0 ≠ 0 → now1 ≠ 0 → now2 ≠ 0 →
  append_ok c all (GlobalLogAppend.mk leaf nodes st' sth) ∧
  stamped (GlobalLogAppend.mk leaf nodes st' sth).
Proof using Hs.
  intros Hinv Hall Hst Hdig Hnew Hn Hl leaf Eapp Esth H0' H1' H2'.
  assert (len (hashes all) = len all) as Hlh by (unfold len; by rewrite length_map).
  assert (st.(GlobalLogState.TreeSize) = len all) as Hsize by (rewrite <- Hlh; apply Hst).
  destruct (appendState_total s Hs now1 st (hashes all) leaf)
    as (st1 & nodes1 & Eapp' & Hst' & Hsch & Hupd & Hns & Hnow);
    [done|by eapply inv_digests|lia|done|done|by rewrite Hlh|].
  rewrite Eapp' in Eapp. injection Eapp as -> ->.
  apply signSTHFromState_Ok in Esth as [sig ->].
  assert (hashes (all ++ [leaf]) = hashes all ++ [hash]) as Hmap by (by rewrite map_app).
  assert (len (all ++ [leaf]) = len all + 1) as Hlen1 by (unfold len; rewrite length_app; cbn; lia).
  split.
  - unfold append_ok. cbn [GlobalLogAppend.Leaf GlobalLogAppend.Nodes GlobalLogAppend.State
      GlobalLogAppend.STH]. rewrite !Hmap.
    split; [split; [exact Hsize|repeat split; done]|].
    split; [done|split; [done|split; [done|]]].
    destruct Hst' as (_ & Hsz' & _ & Hroot'). unfold sth_ok. cbn. rewrite Hlen1.
    pose proof (len_nonneg all). split; [lia|]. do 3 (split; [done|]).
    split; [rewrite Hsz'; unfold len; rewrite length_app, length_map; cbn; unfold len in *; lia|].
    split; [|done]. rewrite Hroot' by (by destruct (hashes all)). rewrite Hmap, take_ge; [done|].
    rewrite length_app, length_map. unfold len. cbn. lia.
  - unfold stamped. cbn. rewrite Hupd, Hsch. repeat split; try done.
    apply Forall_forall. intros n Hn'. rewrite Forall_forall in Hns, Hnow.
    rewrite (Hnow n Hn'). split; [|done].
    by destruct (Hns n Hn') as (? & ? & _ & _ & _ & _ & _ & _ & Hsn).
Qed.

Section plan.
Context (store : S) (clock : nat → Z) (Hclock : ∀ n, clock n ≠ 0).
Context (lvs : list GlobalLogLeaf.t).
Local Abbreviation c0 := (view store).
Local Abbreviation after es := (foldl put_append c0 es).
Local Abbreviation leaves_of := (map GlobalLogAppend.Leaf).

Record plan_inv (pl : plan) (roots : list BatchRoot.t) : Prop := mkPlanInv {
  pi_prefix k : log_inv (after (take k (pl_appends pl)))
                  (lvs ++ leaves_of (take k (pl_appends pl)));
  pi_state : state_ok s (pl_state pl) (hashes (lvs ++ leaves_of (pl_appends pl)));
  pi_stamped : Forall stamped (pl_appends pl);
  pi_keeps m h : c_sths c0 !! m = Some h → c_sths (after (pl_appends pl)) !! m = Some h;
  pi_count : (length (pl_appends pl) <= length roots)%nat;
  pi_planned b sth : pl_planned pl !! b = Some sth →
    ∃ root, pl_plannedRoots pl !! b = Some root ∧ root.(BatchRoot.BatchID) = b ∧
      answered (after (pl_appends pl)) (lvs ++ leaves_of (pl_appends pl)) root sth;
  pi_new e : e ∈ pl_appends pl →
    is_Some (pl_planned pl !! e.(GlobalLogAppend.Leaf).(GlobalLogLeaf.BatchID));
  pi_sths : Forall2 (λ root, answered (after (pl_appends pl))
    (lvs ++ leaves_of (pl_appends pl)) (normalizeRoot s root)) roots (pl_sths pl) }.

Lemma pi_inv pl roots : plan_inv pl roots →
  log_inv (after (pl_appends pl)) (lvs ++ leaves_of (pl_appends pl)).
Proof.
  intros Hi. pose proof (pi_prefix _ _ Hi (length (pl_appends pl))) as Hp.
  by rewrite take_ge in Hp by done.
Qed.

(** The batches of the log after the planned appends. *)
Lemma after_batches es b l :
  c_batches (after es) !! b = Some l →
  c_batches c0 !! b = Some l ∨ ∃ e, e ∈ es ∧ e.(GlobalLogAppend.Leaf).(GlobalLogLeaf.BatchID) = b.
Proof.
  induction es as [|e es IH] using rev_ind; [by left|]. rewrite foldl_snoc, put_append_batches.
  intros [[<- _]|[_ Hl]]%lookup_insert_Some; [right; exists e; set_solver|].
  apply IH in Hl as [?|(e' & ? & ?)]; [by left|]. right. exists e'. set_solver.
Qed.

(** A root answered without a new append. *)
Lemma plan_answer pl roots root sth planned plannedRoots :
  plan_inv pl roots →
  answered (after (pl_appends pl)) (lvs ++ leaves_of (pl_appends pl)) (normalizeRoot s root) sth →
  (∀ b x, planned !! b = Some x → pl_planned pl !! b = Some x ∧ plannedRoots !! b = pl_plannedRoots pl !! b ∨
     b = (normalizeRoot s root).(BatchRoot.BatchID) ∧ x = sth ∧ plannedRoots !! b = Some (normalizeRoot s root)) →
  (∀ b, is_Some (pl_planned pl !! b) → is_Some (planned !! b)) →
  plan_inv (mkPlan (pl_state pl) (pl_tick pl) (pl_sths pl ++ [sth]) (pl_appends pl) planned plannedRoots)
    (roots ++ [root]).
Proof.
  intros Hi Ha Hpl Hmono. constructor; cbn.
  - apply (pi_prefix _ _ Hi).
  - apply (pi_state _ _ Hi).
  - apply (pi_stamped _ _ Hi).
  - apply (pi_keeps _ _ Hi).
  - rewrite length_app. pose proof (pi_count _ _ Hi). lia.
  - intros b x Hx. destruct (Hpl b x Hx) as [[Hx' ->]|(-> & -> & ->)].
    + by apply (pi_planned _ _ Hi).
    + eexists. split; [done|]. done.
  - intros e He. apply Hmono. by apply (pi_new _ _ Hi).
  - apply Forall2_app; [apply (pi_sths _ _ Hi)|]. by repeat constructor.
Qed.

Lemma planned_insert pl root sth b x :
  (<[root.(BatchRoot.BatchID) := sth]> (pl_planned pl)) !! b = Some x →
  pl_planned pl !! b = Some x ∧
    (<[root.(BatchRoot.BatchID) := root]> (pl_plannedRoots pl)) !! b = pl_plannedRoots pl !! b ∨
  b = root.(BatchRoot.BatchID) ∧ x = sth ∧
    (<[root.(BatchRoot.BatchID) := root]> (pl_plannedRoots pl)) !! b = Some root.
Proof.
  intros [[<- <-]|[Hne Hx]]%lookup_insert_Some.
  - right. by rewrite lookup_insert_eq.
  - left. by rewrite lookup_insert_ne.
Qed.

(** A new append. *)
Lemma plan_append pl roots root e tick :
  plan_inv pl roots →
  append_ok (after (pl_appends pl)) (lvs ++ leaves_of (pl_appends pl)) e → stamped e →
  records (normalizeRoot s root) e.(GlobalLogAppend.Leaf) →
  plan_inv (plan_done (normalizeRoot s root) e.(GlobalLogAppend.STH)
    (mkPlan e.(GlobalLogAppend.State) tick (pl_sths pl) (pl_appends pl ++ [e]) (pl_planned pl)
       (pl_plannedRoots pl))) (roots ++ [root]).
Proof.
  intros Hi He Hst Hrec. pose proof (pi_inv _ _ Hi) as Hinv.
  set (es := pl_appends pl) in *. remember (normalizeRoot s root) as r eqn:Er.
  assert (after (es ++ [e]) = put_append (after es) e) as Ea by apply foldl_snoc.
  assert (lvs ++ leaves_of (es ++ [e]) = (lvs ++ leaves_of es) ++ [e.(GlobalLogAppend.Leaf)]) as El
    by (by rewrite map_app, app_assoc).
  pose proof (put_append_inv _ _ _ Hinv He) as Hinv'.
  assert (answered (put_append (after es) e) ((lvs ++ leaves_of es) ++ [e.(GlobalLogAppend.Leaf)])
            r e.(GlobalLogAppend.STH)) as Hans.
  { exists (length (lvs ++ leaves_of es)), e.(GlobalLogAppend.Leaf).
    split; [by rewrite lookup_app_r, Nat.sub_diag by lia|]. split; [done|].
    destruct He as (_ & _ & _ & _ & (_ & _ & _ & _ & Hsz & _)). rewrite put_append_sths.
    rewrite decide_True; [done|]. rewrite Hsz. unfold len. rewrite length_app. cbn. lia. }
  constructor; cbn; rewrite ?Ea, ?El.
  - intros k. destruct (decide (k <= length es)%nat) as [Hk|Hk].
    + rewrite take_app_le by done. apply (pi_prefix _ _ Hi).
    + rewrite take_ge by (rewrite length_app; cbn; lia). by rewrite Ea, El.
  - destruct He as (_ & _ & _ & He & _). done.
  - apply Forall_app. split; [apply (pi_stamped _ _ Hi)|by apply Forall_singleton].
  - intros m h Hh. eapply put_append_keeps; [done..|]. by apply (pi_keeps _ _ Hi).
  - rewrite !length_app. pose proof (pi_count _ _ Hi). cbn. unfold es in *. lia.
  - intros b x Hx. destruct (planned_insert pl r _ b x Hx) as [[Hx' ->]|(-> & -> & ->)].
    + destruct (pi_planned _ _ Hi b x Hx') as (root' & Hr' & Hb & Ha). exists root'.
      split; [done|]. split; [done|]. by apply answered_mono.
    + by exists r.
  - intros e' He'. rewrite lookup_insert_is_Some'. apply elem_of_app in He' as [He'|He'].
    + right. by apply (pi_new _ _ Hi).
    + left. apply list_elem_of_singleton in He' as ->. by destruct Hrec as (-> & _).
  - apply Forall2_app; [|constructor; [by rewrite <- Er|constructor]].
    eapply Forall2_impl; [apply (pi_sths _ _ Hi)|]. intros x y Hxy. by apply answered_mono.
Qed.

Lemma planRoot_inv pl roots root pl' :
  plan_inv pl roots → root.(BatchRoot.CryptoSuite) = suiteOf s →
  len lvs + len roots < 2 ^ 62 →
  planRoot s clock store pl root = Ret pl' → plan_inv pl' (roots ++ [root]).
Proof using All.
  intros Hi Hsu H62 Hp. unfold planRoot in Hp. pose proof (pi_inv _ _ Hi) as Hinv.
  assert ((normalizeRoot s root).(BatchRoot.CryptoSuite) = suiteOf s) as Hsu' by done.
  pose proof (plan_answer pl roots root) as Hans. pose proof (plan_append pl roots root) as Happ.
  remember (normalizeRoot s root) as r eqn:Er. clear Er Hsu.
  destruct (_ || _) eqn:Eid; [done|]. bsimpl.
  destruct (pl_planned pl !! _) as [sth|] eqn:Epl.
  - (* already planned in this call *)
    go_inv. subst pl'. match goal with E : validateGlobalLogReplayRoot _ _ = Ok ?u |- _ =>
      destruct u; rename E into Ev end.
    destruct (pi_planned _ _ Hi _ _ Epl) as (r0 & Hr0 & Hb & (i & l & Hl & Hrec & Hh)).
    rewrite Hr0 in Ev. apply Hans; [done| |auto|done].
    exists i, l. split; [done|]. split; [by eapply replay_root_ok|done].
  - apply bind_Ret in Hp as (ex & Hex & Hp). apply ret_Ret, get_batch_law in Hex.
    destruct ex as [l|].
    + (* recorded in the store *)
      go_inv. match goal with E : validateGlobalLogReplayLeaf _ _ = Ok ?u |- _ =>
        destruct u; apply replay_leaf_ok in E as Hrec end.
      match goal with E : GetSignedTreeHead _ _ = Ok ?x |- _ =>
        apply get_sth_law in E as Hsth; destruct x as [sth|]; [|done] end.
      case_match; [done|]. injection Hp as <-. unfold plan_done.
      pose proof (pi_prefix _ _ Hi 0) as Hinv0. rewrite take_0 in Hinv0. cbn in Hinv0.
      rewrite app_nil_r in Hinv0. symmetry in Hex, Hsth.
      apply (inv_batches _ _ Hinv0) in Hex as [_ Hin].
      apply list_elem_of_lookup in Hin as [i Hl].
      destruct (inv_leaf _ _ Hinv0 i l Hl) as (Hidx & _).
      apply lookup_lt_Some in Hl as Hlt. unfold len in H62.
      rewrite Hidx, u64_nat in Hsth by lia.
      apply Hans; [done| |by apply planned_insert|intros b; rewrite lookup_insert_is_Some'; auto].
      exists i, l. split; [by apply lookup_app_l_Some|]. split; [done|].
      by apply (pi_keeps _ _ Hi).
    + (* a new leaf *)
      go_inv. match goal with E : HashLeafWithProvider _ _ = Ok ?h |- _ =>
        apply HashLeaf_digest in E as Hdig; clear E; rename h into hash end.
      set (es := pl_appends pl) in *. set (all := lvs ++ leaves_of es) in *.
      assert (len all < 2 ^ 62) as Hall.
      { subst all. pose proof (pi_count _ _ Hi) as Hcount. fold es in Hcount.
        unfold len in *. rewrite length_app, length_map. lia. }
      pose proof (pi_state _ _ Hi) as Hst. fold es all in Hst.
      match goal with E : appendState _ _ _ _ = Ret ?x |- _ =>
        destruct x as [st' nodes]; rename E into Eapp end.
      cbn in Hp. go_inv. subst pl'.
      match goal with E : signSTHFromState _ _ _ = Ok _ |- _ => rename E into Esth end.
      assert (c_batches (after es) !! r.(BatchRoot.BatchID) = None) as Hfresh.
      { destruct (c_batches (after es) !! _) as [lx|] eqn:Ex; [exfalso|done].
        apply after_batches in Ex as [Ex|(e & He & Eb)]; [by rewrite <- Hex in Ex|].
        apply (pi_new _ _ Hi) in He as [y Hy]. rewrite Eb in Hy. congruence. }
      destruct (new_append _ _ _ _ _ _ _ _ _ _ _ Hinv Hall Hst Hdig Hfresh ltac:(done) ltac:(done)
        Eapp Esth) as [Hok Hstamp]; [apply Hclock..|].
      apply (Happ _ _ Hi Hok Hstamp). by repeat split.
Qed.

Lemma planRoots_inv pl done todo pl' :
  plan_inv pl done → Forall (λ r, r.(BatchRoot.CryptoSuite) = suiteOf s) todo →
  len lvs + len done + len todo <= 2 ^ 62 →
  planRoots s clock store pl todo = Ret pl' → plan_inv pl' (done ++ todo).
Proof using All.
  revert pl done. induction todo as [|r todo IH]; intros pl done Hi Hsu H62 Hp; cbn in Hp.
  { injection Hp as <-. by rewrite app_nil_r. }
  apply bind_Ret in Hp as (pl1 & Hp1 & Hp). apply Forall_cons in Hsu as [Hr Hsu].
  assert (len (r :: todo) = len todo + 1) as Hlen by (unfold len; cbn [length]; lia).
  apply planRoot_inv with (roots := done) in Hp1; [|done|done|pose proof (len_nonneg todo); lia].
  replace (done ++ r :: todo) with ((done ++ [r]) ++ todo) by (by rewrite <- app_assoc).
  eapply IH; [exact Hp1|done| |done]. unfold len in *. rewrite length_app. cbn [length]. lia.
Qed.

Lemma plan_init st tick :
  log_inv c0 lvs → state_ok s st (hashes lvs) → plan_inv (mkPlan st tick [] [] ∅ ∅) [].
Proof.
  intros Hi Hst. constructor; cbn; rewrite ?app_nil_r; try done.
  - intros k. rewrite take_nil. cbn. by rewrite app_nil_r.
  - intros e He. by apply not_elem_of_nil in He.
Qed.
End plan.

(** ** The operations *)

Lemma loadState_inv fuel clock tick store lvs store' r :
  log_inv (view store) lvs → loadState fuel s clock tick store = (store', r) →
  store' = store ∧ ∀ st t, r = Ret (st, t) → state_ok s st (hashes lvs).
Proof.
  intros Hi Hl. unfold loadState in Hl. destruct (GetGlobalLogState store) as [[st|]|e] eqn:Est.
  - injection Hl as <- <-. split; [done|]. intros st' t Hr. apply get_state_law in Est.
    pose proof (inv_state _ _ Hi) as Hst. rewrite <- Est in Hst.
    apply bind_Ret in Hr as (u & _ & Hr). by injection Hr as <- <-.
  - apply get_state_law in Est. pose proof (inv_state _ _ Hi) as Hst. rewrite <- Est in Hst. subst lvs.
    assert (∀ r', rebuildPages fuel s clock tick store
      (GlobalLogState.mk SchemaGlobalLogState (suiteOf s) 0 [] [] 0) 0 = r' →
      r'.1 = store ∧ ∀ st t, r'.2 = Ret (st, t) →
        st = GlobalLogState.mk SchemaGlobalLogState (suiteOf s) 0 [] [] 0) as Hp.
    { intros r' <-. destruct fuel; cbn [rebuildPages];
        (destruct (ListGlobalLeavesRange store 0 1024) as [lf|] eqn:E; [|done]);
        (assert (lf = []) as ->; [|cbn; naive_solver]);
        (destruct lf as [|x lf]; [done|]);
        destruct (list_range_law _ _ _ _ x E ltac:(set_solver)) as [k Hk];
        rewrite (inv_leaves _ _ Hi) in Hk; by case_match. }
    destruct (rebuildPages _ _ _ _ _ _ _) as [st1 r1] eqn:Er.
    destruct (Hp _ eq_refl) as [E1 Hr1]. cbn in E1, Hr1. subst st1.
    destruct r1 as [[st t]|e|]; [|injection Hl as <- <-; split; done..].
    rewrite (Hr1 st t eq_refl) in Hl. cbn in Hl. injection Hl as <- <-.
    split; [done|]. intros st' t' Hr. by injection Hr as <- <-.
  - by injection Hl as <- <-.
Qed.

Lemma commitEach_spec store es store' r :
  Forall stamped es → commitEach store es = (store', r) →
  ∃ k, view store' = foldl put_append (view store) (take k es) ∧
       (r = Ok tt → take k es = es).
Proof.
  revert store. induction es as [|e es IH]; intros store Hst Hc; cbn in Hc.
  { injection Hc as <- <-. by exists 0%nat. }
  apply Forall_cons in Hst as [He Hes].
  destruct (CommitGlobalLogAppend store e) as [st1 [[]|er]] eqn:E.
  - apply commit_one_law in E; [|done]. destruct (IH st1 Hes Hc) as (k & Hv & Hk).
    exists (Datatypes.S k). cbn. rewrite Hv, E. split; [done|]. intros Hr. by rewrite Hk.
  - injection Hc as <- <-. apply commit_one_fail in E. exists 0%nat. by rewrite E.
Qed.

(** What a call leaves behind: the log extended by at most [n] leaves, and on
    success an answer for every root. *)
Definition appended_ok (lvs : list GlobalLogLeaf.t) (n : Z) (roots : list BatchRoot.t)
    (store' : S) (o : append_outcome) : Prop :=
  ∃ new, log_inv (view store') (lvs ++ new) ∧ len new <= n ∧
    ∀ sths, o = Appended sths →
      Forall2 (λ root, answered (view store') (lvs ++ new) (normalizeRoot s root)) roots sths.

Lemma appendBatchRootsOnce_inv fuel clock tick store roots lvs store' o :
  (∀ n, clock n ≠ 0) → log_inv (view store) lvs →
  Forall (λ r, r.(BatchRoot.CryptoSuite) = suiteOf s) roots → len lvs + len roots <= 2 ^ 62 →
  appendBatchRootsOnce fuel s clock tick store roots = (store', o) →
  appended_ok lvs (len roots) roots store' o.
Proof using All.
  intros Hck Hi Hsu H62 Ha. unfold appendBatchRootsOnce in Ha.
  assert (∀ o', (∀ sths, o' ≠ Appended sths) → appended_ok lvs (len roots) roots store o') as Hsame.
  { intros o' Ho. exists []. rewrite app_nil_r. split; [done|]. split; [apply len_nonneg|].
    intros sths ->. by destruct (Ho sths). }
  destruct (loadState _ _ _ _ _) as [st0 r] eqn:El.
  destruct (loadState_inv _ _ _ _ _ _ _ Hi El) as [-> Hst].
  destruct r as [[st t]|e|]; [|injection Ha as <- <-; by apply Hsame..].
  specialize (Hst st t eq_refl).
  destruct (planRoots _ _ _ _ _) as [pl|e|] eqn:Epl; [|injection Ha as <- <-; by apply Hsame..].
  apply planRoots_inv with (lvs := lvs) (done := []) in Epl;
    [|done|by apply plan_init|done|change (len (@nil BatchRoot.t)) with 0; lia]. cbn [app] in Epl.
  assert (∀ k, len (map GlobalLogAppend.Leaf (take k (pl_appends pl))) <= len roots) as Hlen.
  { intros k. unfold len. rewrite length_map, length_take. pose proof (pi_count _ _ _ _ Epl). lia. }
  assert (∀ k st1 o1, view st1 = foldl put_append (view store) (take k (pl_appends pl)) →
    (∀ sths, o1 = Appended sths → take k (pl_appends pl) = pl_appends pl ∧ sths = pl_sths pl) →
    appended_ok lvs (len roots) roots st1 o1) as Hpre.
  { intros k st1 o1 Hv Ho. exists (map GlobalLogAppend.Leaf (take k (pl_appends pl))).
    rewrite Hv. split; [apply (pi_prefix _ _ _ _ Epl)|]. split; [apply Hlen|].
    intros sths Eo. destruct (Ho sths Eo) as [-> ->]. apply (pi_sths _ _ _ _ Epl). }
  pose proof (pi_stamped _ _ _ _ Epl) as Hstamp.
  destruct (len (pl_appends pl) =? 0) eqn:E0.
  { injection Ha as <- <-. apply (Hpre 0%nat); [done|]. intros sths E. injection E as <-.
    bsimpl. split; [|done]. by destruct (pl_appends pl). }
  destruct HasBatchAppend.
  - destruct (CommitGlobalLogAppends _ _) as [st1 [[]|e]] eqn:Ec; injection Ha as <- <-.
    + apply commit_batch_law in Ec; [|done]. apply (Hpre (length (pl_appends pl))).
      * by rewrite take_ge.
      * intros sths E. injection E as <-. by rewrite take_ge.
    + apply commit_batch_fail in Ec. by apply (Hpre 0%nat).
  - destruct (commitEach _ _) as [st1 r1] eqn:Ec.
    destruct (commitEach_spec _ _ _ _ Hstamp Ec) as (k & Hv & Hk).
    destruct r1 as [[]|e]; injection Ha as <- <-; apply (Hpre k); try done.
    intros sths E. injection E as <-. split; [by apply Hk|done].
Qed.

Lemma appendRetry_inv fuel clock tick env E remaining attempt store roots lvs store' o :
  (∀ n, clock n ≠ 0) → 0 <= E →
  (∀ n st l, log_inv (view st) l →
     ∃ ext, log_inv (view (env n st)) (l ++ ext) ∧ len ext <= E) →
  log_inv (view store) lvs →
  Forall (λ r, r.(BatchRoot.CryptoSuite) = suiteOf s) roots →
  len lvs + (Z.of_nat remaining + 1) * (len roots + E) <= 2 ^ 62 →
  appendRetry fuel s clock tick env remaining attempt store roots = (store', o) →
  appended_ok lvs ((Z.of_nat remaining + 1) * (len roots + E)) roots store' o.
Proof using All.
  intros Hck HE Henv. revert attempt store lvs.
  induction remaining as [|rem IH]; intros attempt store lvs Hi Hsu H62 Ha; cbn [appendRetry] in Ha;
    pose proof (len_nonneg roots) as Hnn;
    (destruct (appendBatchRootsOnce _ _ _ _ _ _) as [st1 o1] eqn:Eo);
    apply appendBatchRootsOnce_inv with (lvs := lvs) in Eo as (new & Hi1 & Hn & Ho); try done;
    try (unfold Z.of_nat in H62; lia); try nia.
  - exists new. assert (st1 = store' ∧ o1 = o) as [-> ->] by (destruct o1; naive_solver).
    split; [done|]. split; [nia|done].
  - destruct o1 as [sths|retryable e|];
      try (injection Ha as <- <-; exists new; split; [done|]; split; [nia|done]).
    destruct retryable; cbn [negb] in Ha;
      [|injection Ha as <- <-; exists new; split; [done|]; split; [nia|done]].
    destruct (Henv attempt st1 _ Hi1) as (ext & Hi2 & Hext).
    apply IH with (lvs := (lvs ++ new) ++ ext) in Ha as (new2 & Hi3 & Hn2 & Ho2);
      [|done|done|unfold len in *; rewrite !length_app; nia].
    exists (new ++ ext ++ new2). rewrite !app_assoc in *. split; [done|].
    split; [unfold len in *; rewrite !length_app; nia|done].
Qed.

Lemma checkRoots_Ok roots :
  checkRoots s roots = Ok tt →
  Forall (λ r, r.(BatchRoot.CryptoSuite) = suiteOf s ∧ r.(BatchRoot.BatchID) ≠ "" ∧
               is_digest r.(BatchRoot.BatchRoot)) roots.
Proof using Hs.
  destruct (profile_of s Hs) as (_ & _ & (_ & Hsz & _)).
  induction roots as [|r roots IH]; intros Hc; [constructor|]. cbn [checkRoots] in Hc.
  apply bind_Ok in Hc as ([] & Hsame & Hc). apply wrap_err_Ok, cryptosuite.RequireSame_Ok in Hsame as [_ Hall].
  apply Forall_cons in Hall as [Hsu _]. unfold Size in Hc. rewrite Hsz in Hc. ok_inv. bsimpl.
  constructor; [|by apply IH]. rewrite <- len_digest. done.
Qed.

Lemma append_spec fuel clock tick env E store roots lvs store' o :
  (∀ n, clock n ≠ 0) → 0 <= E →
  (∀ n st l, log_inv (view st) l →
     ∃ ext, log_inv (view (env n st)) (l ++ ext) ∧ len ext <= E) →
  log_inv (view store) lvs → len lvs + 16 * (len roots + E) <= 2 ^ 62 →
  AppendBatchRoots fuel s clock tick env store roots = (store', o) →
  appended_ok lvs (16 * (len roots + E)) roots store' o.
Proof using All.
  intros Hck HE Henv Hi H62 Ha. unfold AppendBatchRoots in Ha. pose proof (len_nonneg roots) as Hn.
  assert (∀ e, appended_ok lvs (16 * (len roots + E)) roots store (Failed false e)) as Hsame.
  { intros e. exists []. rewrite app_nil_r. split; [done|]. split; [unfold len in *; cbn; lia|done]. }
  destruct (signer s); [|injection Ha as <- <-; apply Hsame].
  destruct (len roots =? 0); [injection Ha as <- <-; apply Hsame|].
  destruct (checkRoots s roots) as [[]|e] eqn:Ec; [|injection Ha as <- <-; apply Hsame].
  apply checkRoots_Ok in Ec. eapply appendRetry_inv with (remaining := 15%nat);
    [done|done|done|done| |exact H62|exact Ha].
  eapply Forall_impl; [exact Ec|]. by intros r [? _].
Qed.

(** C14: the log is append-only and every answer is a head of the log.  Whatever
    a call of [AppendBatchRoots] returns, and whatever other writers append
    while it waits to retry, the store still satisfies the invariant for an
    extension of the leaves it had.  If the call returns heads, then for each
    root the log holds a leaf that records it, and the head returned is the
    signed head of the tree that ends with this leaf: its root hash is the
    RFC 6962 head of the leaves up to it.  The clock is not zero, other writers
    append at most [E] leaves between two attempts and keep the invariant, and
    the log stays below 2^62 leaves. *)
Theorem append_only fuel clock tick env E store roots lvs store' o :
  (∀ n, clock n ≠ 0) → 0 <= E →
  (∀ n st l, log_inv (view st) l →
     ∃ ext, log_inv (view (env n st)) (l ++ ext) ∧ len ext <= E) →
  log_inv (view store) lvs → len lvs + 16 * (len roots + E) <= 2 ^ 62 →
  AppendBatchRoots fuel s clock tick env store roots = (store', o) →
  ∃ new, log_inv (view store') (lvs ++ new) ∧
    ∀ sths, o = Appended sths →
      Forall2 (λ root sth, ∃ (i : nat) l,
        (lvs ++ new) !! i = Some l ∧ records (normalizeRoot s root) l ∧
        c_sths (view store') !! (Z.of_nat i + 1) = Some sth ∧
        sth.(SignedTreeHead.TreeSize) = Z.of_nat i + 1 ∧
        sth.(SignedTreeHead.RootHash) = M (take (Datatypes.S i) (hashes (lvs ++ new))))
        roots sths.
Proof using All.
  intros Hck HE Henv Hi H62 Ha.
  destruct (append_spec _ _ _ _ _ _ _ _ _ _ Hck HE Henv Hi H62 Ha) as (new & Hi' & _ & Ho).
  exists new. split; [done|]. intros sths Eo.
  eapply Forall2_impl; [by apply Ho|]. intros root sth (i & l & Hl & Hr & Hh). exists i, l.
  do 3 (split; [done|]).
  apply (inv_sth _ _ Hi') in Hh as (_ & _ & _ & _ & Hsz & Hroot & _). split; [done|].
  rewrite Hroot. do 2 f_equal. lia.
Qed.

(** ** Replays *)

Section replay.
Context `{!GlobalStoreReads S}.
Context (store : S) (lvs : list GlobalLogLeaf.t) (Hinv : log_inv (view store) lvs).
Context (H62 : len lvs <= 2 ^ 62) (Hsigner : is_Some (signer s)).
Context (Hstate : is_ok (GetGlobalLogState store) = true).

Lemma read_state : lvs ≠ [] →
  ∃ st, GetGlobalLogState store = Ok (Some st) ∧ state_ok s st (hashes lvs).
Proof using All.
  intros Hne. apply is_ok_iff in Hstate as [r Hr]. pose proof (get_state_law _ _ Hr) as E.
  pose proof (inv_state _ _ Hinv) as Hst. rewrite <- E in Hst. destruct r as [st|]; [|done]. eauto.
Qed.

Lemma loadState_stored fuel clock tick st :
  GetGlobalLogState store = Ok (Some st) → state_ok s st (hashes lvs) →
  loadState fuel s clock tick store = (store, Ret (st, tick)).
Proof using All.
  intros E (Hsu & _). unfold loadState. rewrite E.
  rewrite (proj2 (cryptosuite.RequireSame_Ok (suiteOf s) _)); [done|].
  split; [by apply suite_known|]. by repeat constructor.
Qed.

Lemma checkRoots_one root :
  root.(BatchRoot.CryptoSuite) = suiteOf s → root.(BatchRoot.BatchID) ≠ "" →
  is_digest root.(BatchRoot.BatchRoot) → checkRoots s [root] = Ok tt.
Proof using All.
  intros Hsu Hb Hd. destruct (profile_of s Hs) as (_ & _ & (_ & Hsz & _)). cbn [checkRoots].
  rewrite (proj2 (cryptosuite.RequireSame_Ok (suiteOf s) _)).
  2: { split; [by apply suite_known|]. by repeat constructor. }
  cbn. rewrite (proj2 (seqb_false _ _)) by done. unfold Size. rewrite Hsz.
  by rewrite (proj2 (len_digest _)).
Qed.

Lemma AppendBatchRoots_one fuel clock tick env root :
  root.(BatchRoot.CryptoSuite) = suiteOf s → root.(BatchRoot.BatchID) ≠ "" →
  is_digest root.(BatchRoot.BatchRoot) →
  AppendBatchRoots fuel s clock tick env store [root] =
  appendRetry fuel s clock tick env 15 0 store [root].
Proof using All.
  intros Hsu Hb Hd. unfold AppendBatchRoots. destruct Hsigner as [sg ->].
  by rewrite checkRoots_one.
Qed.

(** The lookups of a batch that the log already holds. *)
Lemma planRoot_known clock pl (i : nat) l root :
  lvs !! i = Some l → l.(GlobalLogLeaf.BatchID) = root.(BatchRoot.BatchID) →
  root.(BatchRoot.BatchID) ≠ "" → pl_planned pl = ∅ →
  (normalizeRoot s root).(BatchRoot.NodeID) = nodeID s →
  (normalizeRoot s root).(BatchRoot.LogID) = logID s →
  ∃ h, c_sths (view store) !! (Z.of_nat i + 1) = Some h ∧
  planRoot s clock store pl root =
    (_ ← ret (validateGlobalLogReplayLeaf l (normalizeRoot s root));
     Ret (plan_done (normalizeRoot s root) h pl)).
Proof using All.
  intros Hl Hlb Hb Hpl Hn Hlog. pose proof (lookup_lt_Some _ _ _ Hl) as Hlt.
  destruct (read_sth store lvs Hinv H62 (Z.of_nat i + 1)) as (h & Hh & Hch & Hok); [unfold len; lia|].
  exists h. split; [done|]. unfold planRoot.
  change (normalizeRoot s root).(BatchRoot.BatchID) with root.(BatchRoot.BatchID).
  rewrite Hn, Hlog, !seqb_refl, Hpl, lookup_empty. cbn [negb orb]. rewrite <- Hlb at 1.
  rewrite (read_batch store lvs Hinv H62) by (try done; try congruence; by eapply list_elem_of_lookup_2).
  cbn [ret mbind go_bind].
  destruct (validateGlobalLogReplayLeaf l (normalizeRoot s root)) as [[]|e]; [|done].
  cbn [ret mbind go_bind]. destruct (inv_leaf _ _ Hinv i l Hl) as (-> & _). unfold len in H62.
  rewrite u64_nat, Hh by (change (2 ^ 62) with 4611686018427387904 in *; lia).
  cbn [ret mbind go_bind].
  destruct Hok as (_ & _ & _ & _ & _ & _ & -> & ->). by rewrite !seqb_refl.
Qed.

(** Appending a batch root again is idempotent: the call returns the head
    recorded for it the first time, whatever has been appended since, and does
    not touch the store. *)
Theorem replay_idempotent fuel clock tick env (i : nat) l root :
  lvs !! i = Some l → records (normalizeRoot s root) l →
  root.(BatchRoot.CryptoSuite) = suiteOf s → root.(BatchRoot.BatchID) ≠ "" →
  is_digest root.(BatchRoot.BatchRoot) →
  ∃ h, c_sths (view store) !! (Z.of_nat i + 1) = Some h ∧
    AppendBatchRoots fuel s clock tick env store [root] = (store, Appended [h]).
Proof using All.
  intros Hl Hrec Hsu Hb Hd. pose proof (inv_leaf _ _ Hinv i l Hl) as (_ & _ & _ & Hln & Hll).
  destruct read_state as (st & Est & Hst); [intros ->; by destruct i|].
  pose proof Hrec as (Eb & Es & En & El & Er & Et & Ec).
  destruct (planRoot_known clock (mkPlan st (tick 0%nat) [] [] ∅ ∅) i l root)
    as (h & Hh & Hp); [done|done|done|done|congruence|congruence|].
  exists h. split; [done|]. rewrite AppendBatchRoots_one by done. cbn [appendRetry].
  unfold appendBatchRootsOnce. rewrite (loadState_stored fuel clock (tick 0%nat) st) by done.
  cbn [planRoots]. rewrite Hp.
  assert (validateGlobalLogReplayLeaf l (normalizeRoot s root) = Ok tt) as ->; [|done].
  unfold validateGlobalLogReplayLeaf. rewrite Eb, Es, En, El, Er, Et, Ec.
  by rewrite !seqb_refl, !Z.eqb_refl, bytes_equal_refl.
Qed.

(** A batch identifier that is in the log cannot be reused for another
    batch root: the call fails with DATA_LOSS, is not retried, and does not
    touch the store. *)
Theorem replay_conflict fuel clock tick env (i : nat) l root :
  lvs !! i = Some l → l.(GlobalLogLeaf.BatchID) = root.(BatchRoot.BatchID) →
  l.(GlobalLogLeaf.BatchRoot) ≠ root.(BatchRoot.BatchRoot) →
  (normalizeRoot s root).(BatchRoot.NodeID) = nodeID s →
  (normalizeRoot s root).(BatchRoot.LogID) = logID s →
  root.(BatchRoot.CryptoSuite) = suiteOf s → root.(BatchRoot.BatchID) ≠ "" →
  is_digest root.(BatchRoot.BatchRoot) →
  ∃ e, CodeOf e = CodeDataLoss ∧
    AppendBatchRoots fuel s clock tick env store [root] = (store, Failed false e).
Proof using All.
  intros Hl Eb Hne En El Hsu Hb Hd.
  destruct read_state as (st & Est & Hst); [intros ->; by destruct i|].
  destruct (planRoot_known clock (mkPlan st (tick 0%nat) [] [] ∅ ∅) i l root)
    as (h & Hh & Hp); [done..|].
  assert (∃ e, validateGlobalLogReplayLeaf l (normalizeRoot s root) = Err e ∧ CodeOf e = CodeDataLoss)
    as (e & Ev & Ecode).
  { unfold validateGlobalLogReplayLeaf. eexists.
    change (normalizeRoot s root).(BatchRoot.BatchRoot) with root.(BatchRoot.BatchRoot).
    rewrite (proj2 (bytes_equal_false l.(GlobalLogLeaf.BatchRoot) _) Hne), orb_true_r. done. }
  exists e. split; [done|]. rewrite AppendBatchRoots_one by done. cbn [appendRetry].
  unfold appendBatchRootsOnce. rewrite (loadState_stored fuel clock (tick 0%nat) st) by done.
  cbn [planRoots]. rewrite Hp, Ev. done.
Qed.

(** ** New batches *)

Lemma loadState_total fuel clock tick :
  is_ok (ListGlobalLeavesRange store 0 1024) = true →
  ∃ st, loadState fuel s clock tick store = (store, Ret (st, tick)) ∧ state_ok s st (hashes lvs).
Proof using All.
  intros Hrange. destruct (proj1 (is_ok_iff _) Hstate) as [[st|] Hr].
  - pose proof (get_state_law _ _ Hr) as E. pose proof (inv_state _ _ Hinv) as Hst.
    rewrite <- E in Hst. exists st. split; [by apply loadState_stored|done].
  - pose proof (get_state_law _ _ Hr) as E. pose proof (inv_state _ _ Hinv) as Hst.
    rewrite <- E in Hst. rewrite Hst in *. eexists. split; [|apply state_ok_empty].
    apply is_ok_iff in Hrange as [lf Hlf].
    assert (lf = []) as ->.
    { destruct lf as [|x lf]; [done|].
      destruct (list_range_law _ _ _ _ x Hlf ltac:(set_solver)) as [k Hk].
      rewrite (inv_leaves _ _ Hinv) in Hk. by case_match. }
    unfold loadState. rewrite Hr. destruct fuel; cbn [rebuildPages]; by rewrite Hlf.
Qed.

Lemma HashLeaf_total leaf :
  (∀ l : GlobalLogLeaf.t, is_ok (encMode_Marshal l) = true) → leaf.(GlobalLogLeaf.CryptoSuite) = suiteOf s →
  ∃ h, HashLeafWithProvider (Some (provider s)) leaf = Ok h.
Proof using Hs.
  intros Hm Hsu. unfold HashLeafWithProvider. fold (suiteOf s). rewrite Hsu.
  rewrite (proj2 (cryptosuite.RequireSame_Ok (suiteOf s) _)).
  2: { split; [by apply suite_known|]. by repeat constructor. }
  cbn [wrap_err mbind result_bind]. unfold cborx.Marshal.
  destruct (proj1 (is_ok_iff _) (Hm (GlobalLogLeaf.set_AppendedAtUnixN 0
    (GlobalLogLeaf.set_LeafHash [] leaf)))) as [b ->]. cbn [errorf mbind result_bind].
  unfold suiteOf. destruct (provider s); eexists; reflexivity.
Qed.

(** Signing the head of a non-empty state succeeds when the signer works. *)
Lemma signSTH_total now st hs :
  (∀ h, is_ok (signTreeHead s h) = true) → Forall is_digest hs → hs ≠ [] → state_ok s st hs →
  ∃ sth, signSTHFromState s now st = Ok sth.
Proof using Hs.
  intros Hsign Hd Hne (_ & Hsz & _ & Hroot). destruct (profile_of s Hs) as (_ & _ & (_ & Hpsz & _)).
  unfold signSTHFromState. rewrite Hsz, Hroot by done. unfold Size. rewrite Hpsz.
  rewrite (proj2 (Z.eqb_neq _ 0)) by (destruct hs; [done|unfold len; cbn; lia]).
  rewrite (proj2 (len_digest _)) by (by apply MTH_digest).
  apply is_ok_iff. apply Hsign.
Qed.

(** A root that is not in the log is planned as one append. *)
Lemma planRoot_fresh clock t st root :
  (∀ n, clock n ≠ 0) →
  (∀ l : GlobalLogLeaf.t, is_ok (encMode_Marshal l) = true) → (∀ h, is_ok (signTreeHead s h) = true) →
  len lvs < 2 ^ 62 → root.(BatchRoot.CryptoSuite) = suiteOf s → root.(BatchRoot.BatchID) ≠ "" →
  (normalizeRoot s root).(BatchRoot.NodeID) = nodeID s →
  (normalizeRoot s root).(BatchRoot.LogID) = logID s →
  c_batches (view store) !! root.(BatchRoot.BatchID) = None →
  state_ok s st (hashes lvs) →
  ∃ e, planRoot s clock store (mkPlan st t [] [] ∅ ∅) root
       = Ret (plan_done (normalizeRoot s root) e.(GlobalLogAppend.STH)
           (mkPlan e.(GlobalLogAppend.State) (t + 3)%nat [] [e] ∅ ∅)) ∧
    append_ok (view store) lvs e ∧ stamped e ∧
    records (normalizeRoot s root) e.(GlobalLogAppend.Leaf) ∧
    e.(GlobalLogAppend.STH).(SignedTreeHead.TreeSize) = len lvs + 1.
Proof using All.
  intros Hck Hm Hsign Hlt Hsu Hb Hn Hl Hnew Hst. pose proof Hst as (_ & Hsz & _).
  assert (len (hashes lvs) = len lvs) as Hlh by (unfold len; by rewrite length_map).
  set (leaf0 := newLeaf s (normalizeRoot s root) st.(GlobalLogState.TreeSize) (clock t)).
  destruct (HashLeaf_total leaf0 Hm eq_refl) as [hash Hhash].
  pose proof (HashLeaf_digest _ _ _ Hhash) as Hdig.
  set (leaf := GlobalLogLeaf.set_LeafHash hash leaf0).
  destruct (appendState_total s Hs (clock (t + 1)%nat) st (hashes lvs) leaf)
    as (st' & nodes & Eapp & Hst' & _); [done|by eapply inv_digests|lia|done|done|exact Hsz|].
  destruct (signSTH_total (clock (t + 2)%nat) st' (hashes lvs ++ [hash])) as [sth Esth];
    [done| |by destruct (hashes lvs)|done|].
  { apply Forall_app. split; [by eapply inv_digests|by apply Forall_singleton]. }
  destruct (new_append (view store) lvs st (normalizeRoot s root) (clock t) _ _ hash
    st' nodes sth Hinv Hlt Hst Hdig Hnew Hn Hl Eapp Esth) as [Hok Hstamp]; [apply Hck..|].
  exists (GlobalLogAppend.mk leaf nodes st' sth). cbn [GlobalLogAppend.STH GlobalLogAppend.State].
  split; [|split; [done|split; [done|split; [by repeat split|]]]].
  - unfold planRoot. cbn [pl_planned pl_state pl_tick pl_sths pl_appends pl_plannedRoots].
    rewrite Hn, Hl, !seqb_refl, lookup_empty. cbn [negb orb].
    destruct (proj1 (is_ok_iff _) (get_batch_ok store _ Hb)) as [r Hr].
    change (normalizeRoot s root).(BatchRoot.BatchID) with root.(BatchRoot.BatchID).
    rewrite Hr. apply get_batch_law in Hr. rewrite Hnew in Hr. subst r. cbn [ret mbind go_bind].
    fold leaf0. rewrite Hhash. cbn [ret gwrap mbind go_bind].
    fold leaf. rewrite Eapp. cbn [mbind go_bind]. by rewrite Esth.
  - destruct Hst' as (_ & Hsz' & _). apply signSTHFromState_Ok in Esth as [sig ->]. cbn.
    rewrite Hsz'. unfold len. rewrite length_app, length_map. cbn. lia.
Qed.

(** A batch root that is not in the log is appended: with a store and a
    signer that work, the call returns one head, the log has one more leaf,
    which records the root, and the head is stored for the new size. *)
Theorem append_fresh fuel clock tick env root :
  (∀ n, clock n ≠ 0) → HasBatchAppend = true →
  is_ok (ListGlobalLeavesRange store 0 1024) = true →
  (∀ l : GlobalLogLeaf.t, is_ok (encMode_Marshal l) = true) → (∀ h, is_ok (signTreeHead s h) = true) →
  (∀ e, stamped e → append_ok (view store) lvs e →
     e.(GlobalLogAppend.Leaf).(GlobalLogLeaf.BatchID) ≠ "" →
     is_ok (CommitGlobalLogAppends store [e]).2 = true) →
  len lvs < 2 ^ 62 →
  root.(BatchRoot.CryptoSuite) = suiteOf s → root.(BatchRoot.BatchID) ≠ "" →
  is_digest root.(BatchRoot.BatchRoot) →
  (normalizeRoot s root).(BatchRoot.NodeID) = nodeID s →
  (normalizeRoot s root).(BatchRoot.LogID) = logID s →
  c_batches (view store) !! root.(BatchRoot.BatchID) = None →
  ∃ store' l h,
    AppendBatchRoots fuel s clock tick env store [root] = (store', Appended [h]) ∧
    log_inv (view store') (lvs ++ [l]) ∧ records (normalizeRoot s root) l ∧
    c_sths (view store') !! (len lvs + 1) = Some h.
Proof using All.
  intros Hck Hbatch Hrange Hm Hsign Hcommit Hlt Hsu Hb Hd Hn Hl Hnew.
  destruct (loadState_total fuel clock (tick 0%nat) Hrange) as (st & Eload & Hst).
  destruct (planRoot_fresh clock (tick 0%nat) st root) as (e & Eplan & Hok & Hstamp & Hrec & Hsz);
    [done..|].
  pose proof (put_append_inv _ _ _ Hinv Hok) as Hinv'.
  destruct (CommitGlobalLogAppends store [e]) as [store' [[]|er]] eqn:Ec.
  2: { destruct Hrec as [Hid _]. specialize (Hcommit e Hstamp Hok ltac:(by rewrite Hid)).
       by rewrite Ec in Hcommit. }
  pose proof (commit_batch_law _ [e] _ ltac:(by apply Forall_singleton) Ec) as Ev. cbn [foldl] in Ev.
  exists store', e.(GlobalLogAppend.Leaf), e.(GlobalLogAppend.STH). rewrite Ev.
  split; [|split; [done|split; [done|]]].
  - rewrite AppendBatchRoots_one by done. cbn [appendRetry].
    unfold appendBatchRootsOnce. rewrite Eload. cbn [planRoots]. rewrite Eplan.
    cbn [mbind go_bind plan_done pl_appends pl_sths]. change (len [e] =? 0) with false. cbv iota.
    by rewrite Hbatch, Ec.
  - rewrite put_append_sths, Hsz. by rewrite decide_True.
Qed.
End replay.

(** ** Signatures *)

(** Every head the service signs verifies under the public key of its
    signer, for a signer whose signatures the provider accepts. *)
Theorem signed_head_verifies now st sth pk :
  trustcrypto.Suite pk = suiteOf s →
  (∀ m sig, trustcrypto.Sign (suiteOf s) (signer s) m = Ok sig →
     trustcrypto.Verify (Some (provider s)) pk m sig = Ok tt) →
  signSTHFromState s now st = Ok sth →
  VerifySTHWithProvider sth pk (Some (provider s)) = Ok tt.
Proof using Hs.
  intros Hpk Hsig Hsign. unfold signSTHFromState in Hsign.
  destruct (_ =? 0); [done|]. destruct (negb _); [done|]. unfold signTreeHead in Hsign.
  apply bind_Ok in Hsign as (payload & Hpay & Hsign).
  apply bind_Ok in Hsign as (input & Hin & Hsign).
  apply bind_Ok in Hsign as (sig & Hsg & Hsth). injection Hsth as <-.
  unfold VerifySTHWithProvider. fold (suiteOf s).
  destruct (profile_of s Hs) as (_ & _ & _).
  pose proof Hs as Hs'. unfold service_wf, ProfileForSuite in Hs'.
  apply bind_Ok in Hs' as (su & Hknown & Hprof).
  rewrite (proj2 (cryptosuite.RequireAvailable_Ok _ _) Hknown). cbn [mbind result_bind].
  assert (algorithm p = cryptosuite.MerkleAlgorithm (cryptosuite.Merkle su)) as Halg.
  { unfold ProfileForAlgorithm in Hprof. ok_inv. by rewrite <- Hprof. }
  cbn [SignedTreeHead.set_Signature SignedTreeHead.TreeAlg SignedTreeHead.CryptoSuite
    SignedTreeHead.Signature]. rewrite Halg, seqb_refl. cbn [negb].
  rewrite (cryptosuite.RequireKnown_id _ _ Hknown).
  rewrite (proj2 (cryptosuite.RequireSame_Ok (suiteOf s) _)).
  2: { split; [by apply suite_known|]. by repeat constructor. }
  cbn [errorf mbind result_bind]. rewrite Halg in Hpay.
  match goal with |- context [cborx.Marshal ?x] =>
    assert (cborx.Marshal x = Ok payload) as -> by exact Hpay end.
  cbn [mbind result_bind]. rewrite Hin. cbn [mbind result_bind]. by rewrite (Hsig _ _ Hsg).
Qed.

End log.
End globallog_proofs.
