(* ===== verification/GlobalLogExamples.v ===== *)
(** * The global log on the Pebble store

    The Pebble store commits every append the planner makes, and concrete runs
    of the log on it: the theorems of [GlobalLogProofs] applied to a log of
    three batches. *)

From S2P Require Import Prelude TrustErr CryptoSuite Model TrustCrypto Cborx KeyDescriptor.
From S2P Require Import Instances ModelSuite Rfc6962 Merkle MerkleProofs GlobalStore GlobalLog.
From S2P Require Import GlobalLogProofs.

Module globallog_examples.
Import merkle merkle_proofs globallog globallog_frontier globallog_proofs.

(** ** Pebble commits well-formed appends *)

Section pebble.
Context `{HashLib, CborMode GlobalLogLeaf.t, CborMode GlobalLogState.t, CborMode SignedTreeHead.t,
  CborMode GlobalLogNode.t, CborMode GlobalLogTile.t, KeyDescriptorLib}.
Context (Hleaf : ∀ x : GlobalLogLeaf.t, is_ok (encMode_Marshal x) = true)
  (Hstate : ∀ x : GlobalLogState.t, is_ok (encMode_Marshal x) = true)
  (Hsth : ∀ x : SignedTreeHead.t, is_ok (encMode_Marshal x) = true)
  (Hnode : ∀ x : GlobalLogNode.t, is_ok (encMode_Marshal x) = true).

Lemma marshal_ok {A} `{CborMode A} (Ha : ∀ x : A, is_ok (encMode_Marshal x) = true) x :
  ∃ b, cborx.Marshal x = Ok b.
Proof.
  destruct (proj1 (is_ok_iff _) (Ha x)) as [b Hb]. exists b. by apply cborx.Marshal_Ok.
Qed.

Lemma marshal_nodes_ok ns : pebble.marshal_nodes ns = Ok tt.
Proof using Hnode.
  induction ns as [|n ns IH]; [done|]. cbn. destruct (marshal_ok Hnode n) as [b ->]. done.
Qed.

Lemma pebble_commits (s : Service) (st : pebble.Store) lvs e :
  service_wf s → pebble.CryptoSuite st = suiteOf s → pebble.binding st = Ok tt →
  len lvs < 2 ^ 62 → append_ok s (pebble.db st) lvs e →
  e.(GlobalLogAppend.Leaf).(GlobalLogLeaf.BatchID) ≠ "" →
  is_ok (pebble.CommitGlobalLogAppends st [e]).2 = true.
Proof using All.
  intros Hs Hsu Hbind H62 ((Hidx & _ & Hlsu & _) & _ & Hns & (Hssu & Hssz & _) & Hh) Hb.
  destruct Hh as (_ & _ & Hhsu & _ & Hhsz & _).
  assert (2 ^ 62 = 4611686018427387904) as E62 by done.
  assert (pebble.requireSuite st (modelsuite.AnyGlobalLogAppend e) = Ok tt) as Hreq.
  { unfold pebble.requireSuite. rewrite Hbind. cbn [wrap_err mbind result_bind].
    apply wrap_err_Ok, modelsuite.Require_Ok. rewrite Hsu. split; [by apply suite_known|].
    eexists. split; [reflexivity|]. intros name ids E. injection E as <- <-.
    constructor; [done|]. constructor; [done|]. constructor; [done|].
    apply Forall_fmap. eapply Forall_impl; [exact Hns|].
    by intros n (? & ? & _ & _ & _ & _ & _ & Hnsu & _). }
  unfold pebble.CommitGlobalLogAppends, pebble.commit_appends. cbn [pebble.requireSuites].
  rewrite Hreq. cbn [wrap_err mbind result_bind].
  change (len [e] =? 0) with false. cbv iota. cbn [pebble.encode_appends].
  unfold pebble.encode_append. rewrite (proj2 (seqb_false _ _)) by done.
  assert (len (lvs ++ [GlobalLogAppend.Leaf e]) = len lvs + 1) as Hlen
    by (unfold len; rewrite length_app; cbn; lia).
  assert (len (map GlobalLogLeaf.LeafHash (lvs ++ [GlobalLogAppend.Leaf e])) = len lvs + 1) as Hlen'
    by (rewrite <- Hlen; unfold len; by rewrite length_map).
  rewrite Hhsz, Hssz, Hidx, Hlen, Hlen'. pose proof (len_nonneg lvs).
  rewrite (proj2 (Z.eqb_neq _ 0)) by lia. rewrite Z.add_simpl_r, u64_nat by lia.
  unfold len at 1. rewrite !Z.eqb_refl. cbn [negb orb].
  destruct (marshal_ok Hleaf (pebble.fill_leaf (pebble.now st) (GlobalLogAppend.Leaf e))) as [b1 ->].
  cbn [wrap_err mbind result_bind].
  destruct (marshal_ok Hsth (pebble.fill_sth (pebble.now st) (GlobalLogAppend.STH e))) as [b2 ->].
  cbn [wrap_err mbind result_bind].
  assert (existsb (λ n, GlobalLogNode.Width n =? 0) (GlobalLogAppend.Nodes e) = false) as ->.
  { apply not_true_iff_false. rewrite existsb_exists. intros (n & Hin & Hw).
    apply list_elem_of_In in Hin. rewrite Forall_forall in Hns.
    destruct (Hns n Hin) as (lvl & ? & _ & _ & Ew & _). rewrite Ew in Hw. apply Z.eqb_eq in Hw.
    assert (0 < 2 ^ Z.of_nat lvl) by (apply Z.pow_pos_nonneg; lia). lia. }
  rewrite marshal_nodes_ok. cbn [mbind result_bind last].
  destruct (marshal_ok Hstate (pebble.fill_state (pebble.now st) (GlobalLogAppend.State e)))
    as [b3 Eb3].
  cbn [GlobalLogAppend.State]. rewrite Eb3. done.
Qed.
End pebble.

(** ** A concrete log *)

(** A codec that accepts every value. *)
Definition ok_codec (A : Type) : CborMode A :=
  {| encMode_Marshal := λ _, Ok [x00]; decMode_Unmarshal := λ _, Err (ErrorsNew "opaque") |}.

#[local] Instance codec_leaf : CborMode GlobalLogLeaf.t := ok_codec _.
#[local] Instance codec_state : CborMode GlobalLogState.t := ok_codec _.
#[local] Instance codec_sth : CborMode SignedTreeHead.t := ok_codec _.
#[local] Instance codec_node : CborMode GlobalLogNode.t := ok_codec _.
#[local] Instance codec_tile : CborMode GlobalLogTile.t := ok_codec _.
#[local] Instance ex_store_ops : GlobalStore pebble.Store := pebble.pebble_store None None.

Definition ex_key : bytes := replicate 32 Byte.x07.
Definition ex_pk : trustcrypto.PublicKeyDescriptor :=
  trustcrypto.mkPublicKeyDescriptor cryptosuite.INTLV1 "key-1" cryptosuite.SignatureEd25519
    cryptosuite.Ed25519PublicKeyEncoding ex_key.
Definition ex_signer : trustcrypto.Signer :=
  trustcrypto.mkSigner
    (trustcrypto.mkKeyHandle "software" "key-1" cryptosuite.SignatureEd25519) 3 (Ok ex_pk)
    (λ m, Ok (Signature.mk cryptosuite.SignatureEd25519 "key-1" (toy_sign ex_key m))).

Definition ex_opts : Options := mkOptions true " node-1 " "" (Some ex_signer) None "".
Definition ex_service : Service :=
  match New ex_opts with
  | Ok s => s
  | Err _ => mkService "" "" None trustcrypto.intlV1Provider
               (mkProfile "" "" "" 0 x00 x00 0) None
  end.

Lemma ex_service_wf : service_wf ex_service.
Proof. reflexivity. Qed.

Definition ex_root (id : string) (b : byte) : BatchRoot.t :=
  BatchRoot.mk SchemaBatchRoot cryptosuite.INTLV1 id "node-1" "" (replicate 32 b) 4 99.
Definition ex_roots : list BatchRoot.t :=
  [ex_root "b1" Byte.x11; ex_root "b2" Byte.x12; ex_root "b1" Byte.x11; ex_root "b3" Byte.x13].
Definition ex_clock (n : nat) : Z := 1000 + Z.of_nat n.
Definition ex_empty : pebble.Store :=
  pebble.mkStore empty_contents ∅ cryptosuite.INTLV1 (Ok tt) 5.

Lemma ex_clock_set n : ex_clock n ≠ 0.
Proof. unfold ex_clock. lia. Qed.

(** The store and the heads after the four roots, of which one is a replay. *)
Definition ex_run := AppendBatchRoots 63 ex_service ex_clock (λ _, 0%nat) (λ _ st, st) ex_empty ex_roots.
Definition ex_store : pebble.Store := ex_run.1.
Definition ex_init : GlobalLogState.t :=
  GlobalLogState.mk SchemaGlobalLogState cryptosuite.INTLV1 0 [] [] 0.
Definition ex_appends : list GlobalLogAppend.t :=
  match planRoots ex_service ex_clock ex_empty (mkPlan ex_init 0 [] [] ∅ ∅) ex_roots with
  | Ret pl => pl_appends pl
  | _ => []
  end.
Definition ex_lvs : list GlobalLogLeaf.t := map GlobalLogAppend.Leaf ex_appends.

(** The invariant after a plan is carried out on an empty log. *)
Lemma planned_inv `{HashLib, SigLib, CborMode GlobalLogLeaf.t, CborMode SignedTreeHead.t}
    {S} `{GlobalStoreLaws S} s clock (store : S) st tick roots pl :
  service_wf s → (∀ n, clock n ≠ 0) → view store = empty_contents → state_ok s st [] →
  Forall (λ r, r.(BatchRoot.CryptoSuite) = suiteOf s) roots → len roots <= 2 ^ 62 →
  planRoots s clock store (mkPlan st tick [] [] ∅ ∅) roots = Ret pl →
  log_inv s (foldl put_append empty_contents (pl_appends pl))
    (map GlobalLogAppend.Leaf (pl_appends pl)).
Proof.
  intros Hs Hck Hv Hst Hsu H62 Hp.
  apply (planRoots_inv s Hs store clock Hck [] _ []) in Hp; [|by apply plan_init; [rewrite Hv; apply log_inv_empty|]|done|done].
  pose proof (pi_prefix _ _ _ _ _ Hp (length (pl_appends pl))) as Hinv.
  by rewrite take_ge, Hv in Hinv by done.
Qed.

Lemma ex_empty_view : view ex_empty = empty_contents.
Proof. reflexivity. Qed.

Lemma ex_store_view : view ex_store = foldl put_append empty_contents ex_appends.
Proof. vm_compute. reflexivity. Qed.

Lemma ex_init_ok : state_ok ex_service ex_init [].
Proof. split; [vm_compute; reflexivity|]. split; [reflexivity|]. by split. Qed.

Lemma ex_roots_suite :
  Forall (λ r, r.(BatchRoot.CryptoSuite) = suiteOf ex_service) ex_roots.
Proof. repeat (constructor; [vm_compute; reflexivity|]). constructor. Qed.

Lemma ex_inv : log_inv ex_service (view ex_store) ex_lvs.
Proof.
  rewrite ex_store_view. unfold ex_lvs, ex_appends.
  destruct (planRoots _ _ _ _ _) as [pl| |] eqn:E; [|vm_compute in E; discriminate E..].
  apply (planned_inv ex_service ex_clock ex_empty ex_init 0 ex_roots pl ex_service_wf
    ex_clock_set ex_empty_view ex_init_ok ex_roots_suite); [vm_compute; discriminate|exact E].
Qed.

Lemma ex_small : len ex_lvs <= 2 ^ 62.
Proof. vm_compute. discriminate. Qed.

Definition ex_leaf_at (i : nat) : GlobalLogLeaf.t := default GlobalLogLeaf.zero (ex_lvs !! i).

Lemma ex_leaf1 : ex_lvs !! 1%nat = Some (ex_leaf_at 1).
Proof. vm_compute. reflexivity. Qed.

Lemma toy_sign_len key m : len (toy_sign key m) = 64.
Proof. unfold len, toy_sign. rewrite length_app, !toy_digest_len. done. Qed.

(** The signer of the example signs every message, and its signatures verify. *)
Lemma ex_sign m :
  trustcrypto.Sign (suiteOf ex_service) (signer ex_service) m =
  Ok (Signature.mk cryptosuite.SignatureEd25519 "key-1" (toy_sign ex_key m)).
Proof.
  assert (trustcrypto.validateSignatureEncoding cryptosuite.suite_INTLV1 (toy_sign ex_key m) = Ok tt)
    as E.
  { unfold trustcrypto.validateSignatureEncoding.
    rewrite toy_sign_len. reflexivity. }
  change (trustcrypto.Sign _ _ m) with
    (_ ← trustcrypto.validateSignatureEncoding cryptosuite.suite_INTLV1 (toy_sign ex_key m);
     Ok (Signature.mk cryptosuite.SignatureEd25519 "key-1" (toy_sign ex_key m))).
  by rewrite E.
Qed.

Lemma ex_sign_total h : is_ok (signTreeHead ex_service h) = true.
Proof.
  unfold signTreeHead. change (suiteOf ex_service) with cryptosuite.INTLV1 at 1.
  destruct (cborx.Marshal _) as [b|] eqn:E; [|by vm_compute in E].
  cbn [mbind result_bind].
  destruct (trustcrypto.SignatureInputForSuite _ _ b) as [i|] eqn:Ei; [|by vm_compute in Ei].
  cbn [mbind result_bind]. by rewrite ex_sign.
Qed.

Lemma ex_verify m sig :
  trustcrypto.Sign (suiteOf ex_service) (signer ex_service) m = Ok sig →
  trustcrypto.Verify (Some (provider ex_service)) ex_pk m sig = Ok tt.
Proof.
  rewrite ex_sign. intros E. injection E as <-.
  change (provider ex_service) with trustcrypto.intlV1Provider.
  change (trustcrypto.Verify _ _ _ _) with
    (if negb (len (toy_sign ex_key m) =? trustcrypto.ed25519_SignatureSize)
     then Err (Errorf "%w: ed25519 signature size %d" trustcrypto.ErrUnsupportedEncoding) else
     if negb (bytes_equal (toy_sign ex_key m) (toy_sign ex_key m))
     then Err (ErrorsNew "ed25519 signature verification failed") else Ok tt).
  by rewrite toy_sign_len, bytes_equal_refl.
Qed.

(** ** The theorems on the concrete log *)

Lemma inclusion_proof_verifies_witness :
  ∃ proof, InclusionProof 63 ex_service ex_store (ex_leaf_at 1).(GlobalLogLeaf.BatchID) 3 = Ret proof ∧
    VerifyInclusionForSuite 63 (suiteOf ex_service) proof = Ret true ∧
    proof.(GlobalLogProof.LeafHash) = (ex_leaf_at 1).(GlobalLogLeaf.LeafHash) ∧
    c_sths (view ex_store) !! 3 = Some proof.(GlobalLogProof.STH) ∧
    proof.(GlobalLogProof.STH).(SignedTreeHead.RootHash)
      = MTH (profile ex_service) (take 3 (map GlobalLogLeaf.LeafHash ex_lvs)).
Proof.
  apply (inclusion_proof_verifies ex_service ex_service_wf ex_store ex_lvs ex_inv ex_small 63 1 3);
    [lia|exact ex_leaf1|vm_compute; discriminate|change (length ex_lvs) with 3%nat; lia].
Defined.

Lemma consistency_proof_verifies_witness :
  ∃ proof h1 h2,
    ConsistencyProof 63 ex_service ex_store 2 3 = Ret proof ∧
    c_sths (view ex_store) !! 2 = Some h1 ∧ c_sths (view ex_store) !! 3 = Some h2 ∧
    consistency_ok (profile_node (profile ex_service)) bytes_equal 2 3 h1.(SignedTreeHead.RootHash)
      h2.(SignedTreeHead.RootHash) proof.(GlobalConsistencyProof.AuditPath) = true.
Proof.
  apply (consistency_proof_verifies ex_service ex_service_wf ex_store ex_lvs ex_inv ex_small 63 2 3);
    [lia|lia|change (length ex_lvs) with 3%nat; lia].
Defined.

(** The run from the empty store, with another writer that does nothing. *)
Lemma append_only_witness :
  ∃ new sths,
    AppendBatchRoots 63 ex_service ex_clock (λ _, 0%nat) (λ _ st, st) ex_empty ex_roots
      = (ex_store, Appended sths) ∧ length sths = 4%nat ∧
    log_inv ex_service (view ex_store) ([] ++ new).
Proof.
  destruct ex_run as [st o] eqn:E.
  destruct (append_only ex_service ex_service_wf 63 ex_clock (λ _, 0%nat) (λ _ st, st) 0
    ex_empty ex_roots [] st o) as (new & Hinv & Ho).
  - exact ex_clock_set.
  - lia.
  - intros n st' l Hl. exists []. rewrite app_nil_r. split; [exact Hl|reflexivity].
  - apply log_inv_empty. exact ex_service_wf.
  - vm_compute. discriminate.
  - exact E.
  - assert (ex_store = st) as Est by (unfold ex_store; by rewrite E).
    destruct o as [sths| |].
    + exists new, sths. rewrite Est. split; [exact E|]. split; [|exact Hinv].
      specialize (Ho sths eq_refl). apply Forall2_length in Ho. symmetry. exact Ho.
    + exfalso. apply (f_equal snd) in E. vm_compute in E. discriminate E.
    + exfalso. apply (f_equal snd) in E. vm_compute in E. discriminate E.
Defined.

Lemma replay_idempotent_witness :
  ∃ h, c_sths (view ex_store) !! 2 = Some h ∧
    AppendBatchRoots 63 ex_service ex_clock (λ _, 9%nat) (λ _ st, st) ex_store [ex_root "b2" Byte.x12]
      = (ex_store, Appended [h]).
Proof.
  apply (replay_idempotent ex_service ex_service_wf ex_store ex_lvs ex_inv ex_small
    ltac:(eexists; reflexivity) eq_refl 63 ex_clock (λ _, 9%nat) (λ _ st, st) 1 (ex_leaf_at 1));
    [exact ex_leaf1|vm_compute; repeat split|vm_compute; reflexivity|discriminate|reflexivity].
Defined.

Lemma replay_conflict_witness :
  ∃ e, CodeOf e = CodeDataLoss ∧
    AppendBatchRoots 63 ex_service ex_clock (λ _, 9%nat) (λ _ st, st) ex_store [ex_root "b2" Byte.x99]
      = (ex_store, Failed false e).
Proof.
  apply (replay_conflict ex_service ex_service_wf ex_store ex_lvs ex_inv ex_small
    ltac:(eexists; reflexivity) eq_refl 63 ex_clock (λ _, 9%nat) (λ _ st, st) 1 (ex_leaf_at 1));
    [exact ex_leaf1|vm_compute; reflexivity|vm_compute; discriminate|vm_compute; reflexivity
    |vm_compute; reflexivity|vm_compute; reflexivity|discriminate|reflexivity].
Defined.

Lemma append_fresh_witness :
  ∃ store' l h,
    AppendBatchRoots 63 ex_service ex_clock (λ _, 9%nat) (λ _ st, st) ex_store [ex_root "b4" Byte.x14]
      = (store', Appended [h]) ∧
    log_inv ex_service (view store') (ex_lvs ++ [l]) ∧
    records (normalizeRoot ex_service (ex_root "b4" Byte.x14)) l ∧
    c_sths (view store') !! (len ex_lvs + 1) = Some h.
Proof.
  apply (append_fresh ex_service ex_service_wf ex_store ex_lvs ex_inv ex_small
    ltac:(eexists; reflexivity) eq_refl 63 ex_clock (λ _, 9%nat) (λ _ st, st) (ex_root "b4" Byte.x14)).
  - exact ex_clock_set.
  - reflexivity.
  - reflexivity.
  - reflexivity.
  - exact ex_sign_total.
  - intros e _ Hok Hb. apply (pebble_commits ltac:(done) ltac:(done) ltac:(done) ltac:(done)
      ex_service ex_store ex_lvs e ex_service_wf); [reflexivity|reflexivity| |exact Hok|exact Hb].
    vm_compute. reflexivity.
  - vm_compute. reflexivity.
  - vm_compute. reflexivity.
  - discriminate.
  - reflexivity.
  - vm_compute. reflexivity.
  - vm_compute. reflexivity.
  - vm_compute. reflexivity.
Defined.

Definition ex_state : GlobalLogState.t := default GlobalLogState.zero (c_state (view ex_store)).
Definition ex_head : result SignedTreeHead.t := signSTHFromState ex_service 77 ex_state.

Lemma signed_head_verifies_witness :
  match ex_head with
  | Ok sth => VerifySTHWithProvider sth ex_pk (Some (provider ex_service)) = Ok tt
  | Err _ => False
  end.
Proof.
  destruct ex_head as [sth|] eqn:E; [|vm_compute in E; discriminate E].
  apply (signed_head_verifies ex_service ex_service_wf 77 ex_state sth ex_pk);
    [reflexivity|exact ex_verify|exact E].
Defined.

End globallog_examples.
