(* ===== verification/AnchorSchedule.v ===== *)
(** * Anchor scheduling

    Models [src/internal/anchorschedule/schedule.go]: the durable state that
    decides which signed tree head is published to an external anchor next.
    A schedule holds at most one [Pending] window, which coalesces the heads
    observed while it is open, and at most one [InFlight] attempt, whose target
    never changes.  The operations are pure functions from the current schedule
    to the next; the stores apply them in a transaction.

    [fiscobcos.ValidateProofContainer] is a parameter of [ValidateResult]; the
    ordering helper [Sort] is not modelled. *)

From Stdlib Require Import Strings.Ascii.
From S2P Require Import Prelude TrustErr CryptoSuite Model Cborx.

Module Sch := STHAnchorSchedule.
Module Att := STHAnchorAttempt.
Module Win := STHAnchorWindow.
Module Sth := SignedTreeHead.
Module Res := STHAnchorResult.
Module Cand := STHAnchorCandidate.
Module SKey := STHAnchorScheduleKey.
Module RKey := STHAnchorResultKey.
Module Ref := STHAnchorLatestReference.

(** The proof-container check of the FISCO BCOS sink
    ([fiscobcos.ValidateProofContainer]). *)
Class FiscoLib := {
  fiscobcos_ValidateProofContainer : SignedTreeHead.t → STHAnchorResult.t → result unit }.

Module anchorschedule.

Definition MaxLastErrorBytes : Z := 4096.
Definition MaxProviderStateBytes : Z := Z.shiftl 16 20.
Definition fiscobcos_SinkName : string := "fisco-bcos".
Definition fiscobcos_MaxProofBytes : Z := Z.shiftl 16 20.

Definition ValidateKey (key : SKey.t) : result unit :=
  if seqb key.(SKey.SinkName) ""
  then Err (New CodeInvalidArgument "anchor schedule sink_name is required")
  else Ok tt.

Definition ScheduleKey (key : RKey.t) : SKey.t :=
  SKey.mk key.(RKey.NodeID) key.(RKey.LogID) key.(RKey.SinkName).

Definition ValidateResultKey (key : RKey.t) : result unit :=
  _ ← ValidateKey (ScheduleKey key);
  if key.(RKey.TreeSize) =? 0
  then Err (New CodeInvalidArgument "anchor result tree_size is required")
  else Ok tt.

Definition validateTarget (key : SKey.t) (sth : Sth.t) : result unit :=
  suite ← wrap_err CodeInvalidArgument "signed tree head crypto_suite"
            (cryptosuite.RequireAvailable sth.(Sth.CryptoSuite));
  if negb (seqb sth.(Sth.SchemaVersion) SchemaSignedTreeHead)
     || negb (seqb sth.(Sth.TreeAlg) (cryptosuite.MerkleAlgorithm (cryptosuite.Merkle suite)))
     || (sth.(Sth.TreeSize) =? 0)
     || negb (len sth.(Sth.RootHash)
              =? cryptosuite.DigestBytes (cryptosuite.MerkleHash (cryptosuite.Merkle suite)))
     || (sth.(Sth.TimestampUnixN) <=? 0)
     || negb (seqb sth.(Sth.Signature).(Signature.Alg)
                   (cryptosuite.SigAlgorithm (cryptosuite.Signature suite)))
     || seqb sth.(Sth.Signature).(Signature.KeyID) ""
     || (len sth.(Sth.Signature).(Signature.Signature) =? 0)
  then Err (New CodeInvalidArgument "valid signed tree head is required") else
  if negb (seqb sth.(Sth.NodeID) key.(SKey.NodeID)) || negb (seqb sth.(Sth.LogID) key.(SKey.LogID))
  then Err (New CodeInvalidArgument
              "signed tree head identity does not match anchor schedule key")
  else Ok tt.

Definition ValidateCandidate (candidate : Cand.t) : result unit :=
  _ ← ValidateKey candidate.(Cand.Key);
  _ ← validateTarget candidate.(Cand.Key) candidate.(Cand.STH);
  if candidate.(Cand.ObservedAtUnixN) <=? 0
  then Err (New CodeInvalidArgument "anchor candidate observed_at is required") else
  if candidate.(Cand.DueAtUnixN) <? candidate.(Cand.ObservedAtUnixN)
  then Err (New CodeInvalidArgument "anchor candidate due_at precedes observed_at")
  else Ok tt.

(** ** Identities and bindings *)

Definition SameKey (l r : SKey.t) : bool :=
  seqb l.(SKey.NodeID) r.(SKey.NodeID) && seqb l.(SKey.LogID) r.(SKey.LogID)
  && seqb l.(SKey.SinkName) r.(SKey.SinkName).

Definition ResultKey (result : Res.t) : RKey.t :=
  RKey.mk result.(Res.NodeID) result.(Res.LogID) result.(Res.SinkName) result.(Res.TreeSize).

Definition SameResultKey (l r : RKey.t) : bool :=
  (l.(RKey.TreeSize) =? r.(RKey.TreeSize)) && SameKey (ScheduleKey l) (ScheduleKey r).

Definition SameTarget (l r : Sth.t) : bool :=
  seqb l.(Sth.SchemaVersion) r.(Sth.SchemaVersion)
  && seqb l.(Sth.CryptoSuite) r.(Sth.CryptoSuite)
  && seqb l.(Sth.TreeAlg) r.(Sth.TreeAlg)
  && (l.(Sth.TreeSize) =? r.(Sth.TreeSize))
  && bytes_equal l.(Sth.RootHash) r.(Sth.RootHash)
  && (l.(Sth.TimestampUnixN) =? r.(Sth.TimestampUnixN))
  && seqb l.(Sth.NodeID) r.(Sth.NodeID)
  && seqb l.(Sth.LogID) r.(Sth.LogID)
  && seqb l.(Sth.Signature).(Signature.Alg) r.(Sth.Signature).(Signature.Alg)
  && seqb l.(Sth.Signature).(Signature.KeyID) r.(Sth.Signature).(Signature.KeyID)
  && bytes_equal l.(Sth.Signature).(Signature.Signature) r.(Sth.Signature).(Signature.Signature).

Definition ResultMatchesTarget (result : Res.t) (target : Sth.t) : bool :=
  (result.(Res.TreeSize) =? target.(Sth.TreeSize))
  && bytes_equal result.(Res.RootHash) target.(Sth.RootHash)
  && SameTarget result.(Res.STH) target.

(** *** The order of result keys *)

Definition base64_alphabet : string :=
  "ABCDEFGHIJKLMNOPQRSTUVWXYZabcdefghijklmnopqrstuvwxyz0123456789-_".

Definition base64_char (i : Z) : ascii :=
  default "A"%char (String.get (Z.to_nat i) base64_alphabet).

(** [base64.RawURLEncoding.EncodeToString]: three bytes make four characters,
    a last group of one or two bytes makes two or three, without padding. *)
Fixpoint base64_encode (src : bytes) : string :=
  match src with
  | [] => ""
  | [a] =>
      let val := Z.shiftl (Z_of_byte a) 16 in
      String (base64_char (Z.land (Z.shiftr val 18) 63))
        (String (base64_char (Z.land (Z.shiftr val 12) 63)) "")
  | [a; b] =>
      let val := Z.lor (Z.shiftl (Z_of_byte a) 16) (Z.shiftl (Z_of_byte b) 8) in
      String (base64_char (Z.land (Z.shiftr val 18) 63))
        (String (base64_char (Z.land (Z.shiftr val 12) 63))
          (String (base64_char (Z.land (Z.shiftr val 6) 63)) ""))
  | a :: b :: c :: rest =>
      let val := Z.lor (Z.lor (Z.shiftl (Z_of_byte a) 16) (Z.shiftl (Z_of_byte b) 8)) (Z_of_byte c) in
      String (base64_char (Z.land (Z.shiftr val 18) 63))
        (String (base64_char (Z.land (Z.shiftr val 12) 63))
          (String (base64_char (Z.land (Z.shiftr val 6) 63))
            (String (base64_char (Z.land val 63)) (base64_encode rest))))
  end.

Definition RawURLEncoding_EncodeToString (s : string) : string := base64_encode (bytes_of_string s).

Definition resultKeyOrderIdentity (key : RKey.t) : string :=
  String.concat "/"
    [RawURLEncoding_EncodeToString key.(RKey.NodeID);
     RawURLEncoding_EncodeToString key.(RKey.LogID);
     RawURLEncoding_EncodeToString key.(RKey.SinkName)].

Definition CompareResultKeys (l r : RKey.t) : Z :=
  if l.(RKey.TreeSize) <? r.(RKey.TreeSize) then -1 else
  if r.(RKey.TreeSize) <? l.(RKey.TreeSize) then 1 else
  let leftIdentity := resultKeyOrderIdentity l in
  let rightIdentity := resultKeyOrderIdentity r in
  if String.ltb leftIdentity rightIdentity then -1 else
  if String.ltb rightIdentity leftIdentity then 1 else 0.

(** ** Validation *)

Section result.
Context `{FiscoLib}.

Definition ValidateResult (key : SKey.t) (result : Res.t) : TrustErr.result unit :=
  _ ← ValidateKey key;
  suite ← wrap_err CodeInvalidArgument "anchor result crypto_suite"
            (cryptosuite.RequireAvailable result.(Res.CryptoSuite));
  if negb (seqb result.(Res.SchemaVersion) SchemaSTHAnchorResult)
     || (result.(Res.TreeSize) =? 0)
     || negb (len result.(Res.RootHash) =? cryptosuite.DigestBytes (cryptosuite.AnchorDigest suite))
     || seqb result.(Res.AnchorID) ""
     || (result.(Res.PublishedAtUnixN) <=? 0)
  then Err (New CodeInvalidArgument "valid STH anchor result is required") else
  if negb (ValidAnchorEvidenceStage result.(Res.EvidenceStage))
  then Err (New CodeInvalidArgument "known anchor evidence stage is required") else
  if negb (seqb result.(Res.NodeID) key.(SKey.NodeID))
     || negb (seqb result.(Res.LogID) key.(SKey.LogID))
     || negb (seqb result.(Res.SinkName) key.(SKey.SinkName))
  then Err (New CodeInvalidArgument "anchor result identity does not match schedule key") else
  _ ← wrap_err CodeInvalidArgument "anchor result signed tree head is invalid"
        (validateTarget key result.(Res.STH));
  _ ← wrap_err CodeInvalidArgument "anchor result crypto_suite"
        (cryptosuite.RequireSame result.(Res.CryptoSuite) [result.(Res.STH).(Sth.CryptoSuite)]);
  if negb (result.(Res.TreeSize) =? result.(Res.STH).(Sth.TreeSize))
     || negb (bytes_equal result.(Res.RootHash) result.(Res.STH).(Sth.RootHash))
  then Err (New CodeInvalidArgument "anchor result does not bind its signed tree head") else
  if seqb result.(Res.SinkName) fiscobcos_SinkName then
    if negb (seqb result.(Res.EvidenceStage) AnchorEvidenceStageRaw)
    then Err (New CodeInvalidArgument
                "FISCO BCOS anchor result must remain raw until dedicated offline verification") else
    if (len result.(Res.Proof) =? 0) || (fiscobcos_MaxProofBytes <? len result.(Res.Proof))
    then Err (New CodeInvalidArgument "FISCO BCOS anchor proof is empty or oversized") else
    wrap_err CodeInvalidArgument "invalid FISCO BCOS anchor proof container"
      (fiscobcos_ValidateProofContainer result.(Res.STH) result)
  else Ok tt.

(** A field of a result that the sink left empty is filled from the target. *)
Definition or_string (x d : string) : string := if seqb x "" then d else x.
Definition or_int (x d : Z) : Z := if x =? 0 then d else x.

Definition BindAttemptResult (key : SKey.t) (attempt : Att.t) (result : Res.t)
    (publishedAtUnixN : Z) : TrustErr.result Res.t :=
  let target := attempt.(Att.Target) in
  let result := Res.mk
    (or_string result.(Res.SchemaVersion) SchemaSTHAnchorResult)
    (or_string result.(Res.CryptoSuite) target.(Sth.CryptoSuite))
    (or_string result.(Res.NodeID) key.(SKey.NodeID))
    (or_string result.(Res.LogID) key.(SKey.LogID))
    (or_int result.(Res.TreeSize) target.(Sth.TreeSize))
    (or_string result.(Res.SinkName) key.(SKey.SinkName))
    result.(Res.AnchorID)
    (if len result.(Res.RootHash) =? 0 then target.(Sth.RootHash) else result.(Res.RootHash))
    (if result.(Res.STH).(Sth.TreeSize) =? 0 then target else result.(Res.STH))
    result.(Res.Proof)
    result.(Res.EvidenceStage)
    (or_int result.(Res.PublishedAtUnixN) publishedAtUnixN) in
  _ ← ValidateResult key result;
  if negb (ResultMatchesTarget result target)
  then Err (New CodeDataLoss "anchor result does not match immutable in-flight target")
  else Ok result.

End result.

Definition has_lease (a : Att.t) : bool :=
  negb (seqb a.(Att.LeaseOwner) "") || negb (seqb a.(Att.LeaseToken) "")
  || negb (a.(Att.LeaseUntilUnixN) =? 0).

(** The checks of [ValidateSchedule] on the pending window. *)
Definition validatePending (key : SKey.t) (w : Win.t) : TrustErr.result unit :=
  if (w.(Win.Generation) =? 0) || (w.(Win.OpenedAtUnixN) <=? 0)
     || (w.(Win.DueAtUnixN) <? w.(Win.OpenedAtUnixN))
     || (w.(Win.UpdatedAtUnixN) <? w.(Win.OpenedAtUnixN))
  then Err (New CodeDataLoss "invalid pending anchor window") else
  wrap_err CodeDataLoss "invalid pending anchor target" (validateTarget key w.(Win.Target)).

(** The checks of [ValidateSchedule] on the in-flight attempt. *)
Definition validateInFlight (key : SKey.t) (a : Att.t) : TrustErr.result unit :=
  if (a.(Att.Generation) =? 0) || (a.(Att.OpenedAtUnixN) <=? 0)
     || (a.(Att.DueAtUnixN) <? a.(Att.OpenedAtUnixN)) || (a.(Att.Attempts) <? 0)
     || (a.(Att.NextAttemptUnixN) <? 0) || (a.(Att.LastAttemptUnixN) <=? 0)
  then Err (New CodeDataLoss "invalid in-flight anchor attempt") else
  if MaxLastErrorBytes <? slen a.(Att.LastErrorMessage)
  then Err (New CodeDataLoss "in-flight anchor error exceeds size limit") else
  if MaxProviderStateBytes <? len (default [] a.(Att.ProviderState))
  then Err (New CodeDataLoss "in-flight anchor provider state exceeds size limit") else
  if bool_decide (a.(Att.ProviderState) = Some [])
  then Err (New CodeDataLoss "in-flight anchor provider state is non-canonical") else
  if (0 <? a.(Att.NextAttemptUnixN)) && (a.(Att.NextAttemptUnixN) <? a.(Att.LastAttemptUnixN))
  then Err (New CodeDataLoss "in-flight anchor retry precedes last attempt") else
  let hasLease := has_lease a in
  if hasLease && (seqb a.(Att.LeaseOwner) "" || seqb a.(Att.LeaseToken) ""
                  || (a.(Att.LeaseUntilUnixN) <=? a.(Att.LastAttemptUnixN)))
  then Err (New CodeDataLoss "in-flight anchor lease is incomplete") else
  if a.(Att.TerminalFailure) && ((a.(Att.Attempts) =? 0) || seqb a.(Att.LastErrorMessage) ""
                                 || negb (a.(Att.NextAttemptUnixN) =? 0) || hasLease)
  then Err (New CodeDataLoss "terminal anchor failure state is invalid") else
  if negb a.(Att.TerminalFailure) && negb hasLease && (0 <? a.(Att.Attempts))
     && (a.(Att.NextAttemptUnixN) =? 0)
  then Err (New CodeDataLoss "retryable anchor attempt has no retry deadline") else
  wrap_err CodeDataLoss "invalid in-flight anchor target" (validateTarget key a.(Att.Target)).

Definition when_some {A} (o : option A) (f : A → TrustErr.result unit) : TrustErr.result unit :=
  match o with Some a => f a | None => Ok tt end.

Definition highestGeneration (schedule : Sch.t) : Z :=
  let h := match schedule.(Sch.Pending) with Some w => w.(Win.Generation) | None => 0 end in
  match schedule.(Sch.InFlight) with
  | Some a => if h <? a.(Att.Generation) then a.(Att.Generation) else h
  | None => h
  end.

Definition ValidateSchedule (schedule : Sch.t) : TrustErr.result unit :=
  if negb (seqb schedule.(Sch.SchemaVersion) SchemaSTHAnchorSchedule)
  then Err (New CodeDataLoss "unexpected anchor schedule schema") else
  _ ← wrap_err CodeDataLoss "invalid anchor schedule crypto_suite"
        (cryptosuite.RequireAvailable schedule.(Sch.CryptoSuite));
  _ ← wrap_err CodeDataLoss "invalid anchor schedule key" (ValidateKey schedule.(Sch.Key));
  if schedule.(Sch.NextGeneration) =? 0
  then Err (New CodeDataLoss "anchor schedule next_generation is zero") else
  if schedule.(Sch.Revision) =? 0
  then Err (New CodeDataLoss "anchor schedule revision is zero") else
  _ ← when_some schedule.(Sch.Pending) (validatePending schedule.(Sch.Key));
  _ ← when_some schedule.(Sch.InFlight) (validateInFlight schedule.(Sch.Key));
  _ ← match schedule.(Sch.Pending), schedule.(Sch.InFlight) with
      | Some w, Some a =>
          if w.(Win.Generation) <=? a.(Att.Generation)
          then Err (New CodeDataLoss
                 "pending anchor generation does not follow in-flight generation") else
          if w.(Win.Target).(Sth.TreeSize) <=? a.(Att.Target).(Sth.TreeSize)
          then Err (New CodeDataLoss "pending anchor target does not advance in-flight target")
          else Ok tt
      | _, _ => Ok tt
      end;
  if schedule.(Sch.NextGeneration) <=? highestGeneration schedule
  then Err (New CodeDataLoss "anchor schedule next_generation does not advance active work")
  else Ok tt.

(** ** Operations *)

Definition scheduleTargets (schedule : Sch.t) : list Sth.t :=
  match schedule.(Sch.InFlight) with Some a => [a.(Att.Target)] | None => [] end
  ++ match schedule.(Sch.Pending) with Some w => [w.(Win.Target)] | None => [] end.

(** [current.Revision++]. *)
Definition bump (schedule : Sch.t) : Sch.t :=
  Sch.set_Revision (u64 (schedule.(Sch.Revision) + 1)) schedule.

(** The loop of [MergeCandidate] over the scheduled targets: [Some r] is an
    early return, with [Ok tt] for [return current, false, nil]. *)
Fixpoint againstTargets (sth : Sth.t) (targets : list Sth.t) : option (TrustErr.result unit) :=
  match targets with
  | [] => None
  | target :: rest =>
      if (sth.(Sth.TreeSize) =? target.(Sth.TreeSize)) && negb (SameTarget sth target)
      then Some (Err (New CodeDataLoss "anchor candidate conflicts with scheduled target")) else
      if sth.(Sth.TreeSize) <=? target.(Sth.TreeSize) then Some (Ok tt)
      else againstTargets sth rest
  end.

(** The end of [MergeCandidate]: the candidate extends the open window or
    opens a new one. *)
Definition mergeWindow (current : Sch.t) (candidate : Cand.t) : Sch.t :=
  bump
    match current.(Sch.Pending) with
    | Some pending =>
        let pending := Win.set_Target candidate.(Cand.STH) pending in
        let pending :=
          if pending.(Win.UpdatedAtUnixN) <? candidate.(Cand.ObservedAtUnixN)
          then Win.set_UpdatedAtUnixN candidate.(Cand.ObservedAtUnixN) pending else pending in
        Sch.set_Pending (Some pending) current
    | None =>
        let generation :=
          if current.(Sch.NextGeneration) =? 0 then 1 else current.(Sch.NextGeneration) in
        Sch.set_NextGeneration (u64 (generation + 1))
          (Sch.set_Pending
             (Some (Win.mk generation candidate.(Cand.STH) candidate.(Cand.ObservedAtUnixN)
                      candidate.(Cand.DueAtUnixN) candidate.(Cand.ObservedAtUnixN))) current)
    end.

Section operations.
Context `{FiscoLib}.

(** [exists = false] is [current = None]. *)
Definition MergeCandidate (current : option Sch.t) (candidate : Cand.t) (latest : option Res.t)
  : TrustErr.result (Sch.t * bool) :=
  _ ← ValidateCandidate candidate;
  let created := match current with Some _ => false | None => true end in
  cur ← match current with
        | None => Ok (Sch.mk SchemaSTHAnchorSchedule candidate.(Cand.STH).(Sth.CryptoSuite)
                        candidate.(Cand.Key) 0 1 None None)
        | Some cur =>
            _ ← ValidateSchedule cur;
            if negb (SameKey cur.(Sch.Key) candidate.(Cand.Key))
            then Err (New CodeDataLoss "anchor schedule key does not match candidate") else
            _ ← wrap_err CodeDataLoss "anchor candidate crypto_suite"
                  (cryptosuite.RequireSame cur.(Sch.CryptoSuite)
                     [candidate.(Cand.STH).(Sth.CryptoSuite)]);
            Ok cur
        end;
  let merge :=
    match againstTargets candidate.(Cand.STH) (scheduleTargets cur) with
    | Some r => _ ← r; Ok (cur, false)
    | None => Ok (mergeWindow cur candidate, true)
    end in
  match latest with
  | None => merge
  | Some latest =>
      _ ← ValidateResult candidate.(Cand.Key) latest;
      if (candidate.(Cand.STH).(Sth.TreeSize) =? latest.(Res.TreeSize))
         && (negb (bytes_equal candidate.(Cand.STH).(Sth.RootHash) latest.(Res.RootHash))
             || negb (seqb candidate.(Cand.Key).(SKey.NodeID) latest.(Res.NodeID))
             || negb (seqb candidate.(Cand.Key).(SKey.LogID) latest.(Res.LogID)))
      then Err (New CodeDataLoss "anchor candidate conflicts with published result") else
      if candidate.(Cand.STH).(Sth.TreeSize) <=? latest.(Res.TreeSize) then
        if created then Ok (Sch.set_Revision 1 cur, true) else Ok (cur, false)
      else merge
  end.

Definition Claim (current : Sch.t) (nowUnixN leaseUntilUnixN : Z) (leaseOwner leaseToken : string)
  : TrustErr.result (Sch.t * Att.t * bool) :=
  _ ← ValidateSchedule current;
  if (nowUnixN <=? 0) || (leaseUntilUnixN <=? nowUnixN) || seqb leaseOwner "" || seqb leaseToken ""
  then Err (New CodeInvalidArgument "valid anchor lease fields are required") else
  match current.(Sch.InFlight) with
  | Some attempt =>
      if attempt.(Att.TerminalFailure) then Ok (current, Att.zero, false) else
      if (nowUnixN <? attempt.(Att.NextAttemptUnixN)) || (nowUnixN <? attempt.(Att.LeaseUntilUnixN))
      then Ok (current, Att.zero, false) else
      let attempt :=
        Att.set_NextAttemptUnixN nowUnixN
          (Att.set_LastAttemptUnixN nowUnixN
             (Att.set_LeaseUntilUnixN leaseUntilUnixN
                (Att.set_LeaseToken leaseToken (Att.set_LeaseOwner leaseOwner attempt)))) in
      Ok (bump (Sch.set_InFlight (Some attempt) current), attempt, true)
  | None =>
      match current.(Sch.Pending) with
      | None => Ok (current, Att.zero, false)
      | Some pending =>
          if nowUnixN <? pending.(Win.DueAtUnixN) then Ok (current, Att.zero, false) else
          let attempt :=
            Att.mk pending.(Win.Generation) pending.(Win.Target) pending.(Win.OpenedAtUnixN)
              pending.(Win.DueAtUnixN) None 0 0 nowUnixN "" false leaseOwner leaseToken
              leaseUntilUnixN in
          Ok (bump (Sch.set_InFlight (Some attempt) (Sch.set_Pending None current)), attempt, true)
      end
  end.

(** The fence that [CompareAndSwapProviderState], [Reschedule], [Fail] and
    [Complete] share: the caller names the generation and the lease token of
    the attempt it owns. *)
Definition owned (current : Sch.t) (generation : Z) (leaseToken : string) : TrustErr.result Att.t :=
  _ ← ValidateSchedule current;
  match current.(Sch.InFlight) with
  | None => Err (New CodeNotFound "in-flight anchor attempt not found")
  | Some a =>
      if (generation =? 0) || negb (a.(Att.Generation) =? generation)
         || seqb leaseToken "" || negb (seqb a.(Att.LeaseToken) leaseToken)
      then Err (New CodeFailedPrecondition
                  "anchor attempt generation or lease token does not match")
      else Ok a
  end.

Definition CompareAndSwapProviderState (current : Sch.t) (generation : Z) (leaseToken : string)
    (nowUnixN : Z) (expectedProviderState nextProviderState : bytes) : TrustErr.result Sch.t :=
  attempt ← owned current generation leaseToken;
  if (nowUnixN <=? 0) || (attempt.(Att.LeaseUntilUnixN) <=? nowUnixN)
  then Err (New CodeFailedPrecondition "anchor attempt lease is not live") else
  if negb (bytes_equal (default [] attempt.(Att.ProviderState)) expectedProviderState)
  then Err (New CodeFailedPrecondition "anchor provider state compare-and-swap conflict") else
  if (len nextProviderState =? 0) || (MaxProviderStateBytes <? len nextProviderState)
  then Err (New CodeInvalidArgument "anchor provider state is empty or oversized") else
  if bytes_equal (default [] attempt.(Att.ProviderState)) nextProviderState
  then Err (New CodeInvalidArgument "anchor provider state update is unchanged") else
  Ok (bump (Sch.set_InFlight (Some (Att.set_ProviderState (Some nextProviderState) attempt)) current)).

(** [attempt.LeaseOwner, LeaseToken, LeaseUntilUnixN = "", "", 0]. *)
Definition clear_lease (a : Att.t) : Att.t :=
  Att.set_LeaseUntilUnixN 0 (Att.set_LeaseToken "" (Att.set_LeaseOwner "" a)).

Definition Reschedule (current : Sch.t) (generation : Z) (leaseToken : string) (attempts : Z)
    (nextAttemptUnixN : Z) (lastError : string) : TrustErr.result Sch.t :=
  attempt ← owned current generation leaseToken;
  if (attempts <=? attempt.(Att.Attempts)) || (nextAttemptUnixN <? attempt.(Att.LastAttemptUnixN))
     || seqb lastError "" || (MaxLastErrorBytes <? slen lastError)
  then Err (New CodeInvalidArgument "invalid anchor retry state") else
  let attempt := clear_lease
    (Att.set_TerminalFailure false
      (Att.set_LastErrorMessage lastError
        (Att.set_NextAttemptUnixN nextAttemptUnixN (Att.set_Attempts attempts attempt)))) in
  Ok (bump (Sch.set_InFlight (Some attempt) current)).

Definition Fail (current : Sch.t) (generation : Z) (leaseToken : string) (attempts : Z)
    (lastError : string) : TrustErr.result Sch.t :=
  attempt ← owned current generation leaseToken;
  if (attempts <=? attempt.(Att.Attempts)) || seqb lastError ""
     || (MaxLastErrorBytes <? slen lastError)
  then Err (New CodeInvalidArgument "invalid terminal anchor failure state") else
  let attempt := clear_lease
    (Att.set_TerminalFailure true
      (Att.set_LastErrorMessage lastError
        (Att.set_NextAttemptUnixN 0 (Att.set_Attempts attempts attempt)))) in
  Ok (bump (Sch.set_InFlight (Some attempt) current)).

Definition reconcileCompleted (current : Sch.t) (result : Res.t) : TrustErr.result Sch.t :=
  '(current, changed) ←
    match current.(Sch.InFlight) with
    | Some a =>
        if a.(Att.Target).(Sth.TreeSize) =? result.(Res.TreeSize) then
          if negb (ResultMatchesTarget result a.(Att.Target))
          then Err (New CodeDataLoss "stored anchor result conflicts with in-flight target")
          else Ok (Sch.set_InFlight None current, true)
        else Ok (current, false)
    | None => Ok (current, false)
    end;
  '(current, changed) ←
    match current.(Sch.Pending) with
    | Some w =>
        if w.(Win.Target).(Sth.TreeSize) <=? result.(Res.TreeSize) then
          if (w.(Win.Target).(Sth.TreeSize) =? result.(Res.TreeSize))
             && negb (bytes_equal w.(Win.Target).(Sth.RootHash) result.(Res.RootHash))
          then Err (New CodeDataLoss "pending anchor target conflicts with completed result")
          else Ok (Sch.set_Pending None current, true)
        else Ok (current, changed)
    | None => Ok (current, changed)
    end;
  Ok (if (changed : bool) then bump current else current).

Definition Complete (current : Sch.t) (generation : Z) (leaseToken : string) (result : Res.t)
  : TrustErr.result Sch.t :=
  attempt ← owned current generation leaseToken;
  _ ← ValidateResult current.(Sch.Key) result;
  if negb (ResultMatchesTarget result attempt.(Att.Target))
  then Err (New CodeFailedPrecondition "anchor result does not match in-flight target") else
  reconcileCompleted current result.

Definition ReconcileCompleted (current : Sch.t) (result : Res.t)
  : TrustErr.result (Sch.t * bool) :=
  _ ← ValidateSchedule current;
  _ ← ValidateResult current.(Sch.Key) result;
  next ← reconcileCompleted current result;
  Ok (next, negb (next.(Sch.Revision) =? current.(Sch.Revision))).

Definition ClearLeaseForRestore (current : Sch.t) : TrustErr.result Sch.t :=
  _ ← ValidateSchedule current;
  match current.(Sch.InFlight) with
  | None => Ok current
  | Some attempt =>
      if seqb attempt.(Att.LeaseOwner) "" && seqb attempt.(Att.LeaseToken) ""
         && (attempt.(Att.LeaseUntilUnixN) =? 0)
      then Ok current
      else Ok (bump (Sch.set_InFlight (Some (clear_lease attempt)) current))
  end.

(** ** Publication targets *)

Record selection := mkSelection {
  sel_seen : gmap Z Sth.t;
  sel_windowStart : Sth.t;
  sel_highest : Sth.t }.

Fixpoint select_loop (coveredTreeSize : Z) (sths : list Sth.t) (sel : selection)
  : TrustErr.result selection :=
  match sths with
  | [] => Ok sel
  | sth :: rest =>
      let n := sth.(Sth.TreeSize) in
      if n =? 0
      then Err (New CodeInvalidArgument "anchor publication STH tree_size is required") else
      seen ← match sel_seen sel !! n with
             | Some existing =>
                 if negb (SameTarget existing sth)
                 then Err (New CodeDataLoss
                        "anchor publication contains conflicting STHs at one tree size")
                 else Ok (sel_seen sel)
             | None => Ok (<[n := sth]> (sel_seen sel))
             end;
      let highest :=
        if ((sel_highest sel).(Sth.TreeSize) =? 0) || ((sel_highest sel).(Sth.TreeSize) <? n)
        then sth else sel_highest sel in
      let windowStart :=
        if (coveredTreeSize <? n)
           && (((sel_windowStart sel).(Sth.TreeSize) =? 0)
               || (n <? (sel_windowStart sel).(Sth.TreeSize)))
        then sth else sel_windowStart sel in
      select_loop coveredTreeSize rest (mkSelection seen windowStart highest)
  end.

(** The window start and the highest head. *)
Definition SelectPublicationTargets (sths : list Sth.t) (coveredTreeSize : Z)
  : TrustErr.result (Sth.t * Sth.t) :=
  if len sths =? 0
  then Err (New CodeInvalidArgument "anchor publication requires at least one STH") else
  sel ← select_loop coveredTreeSize sths (mkSelection ∅ Sth.zero Sth.zero);
  let windowStart :=
    if (sel_windowStart sel).(Sth.TreeSize) =? 0 then sel_highest sel else sel_windowStart sel in
  Ok (windowStart, sel_highest sel).

(** ** References to the latest result *)

Definition ValidateLatestReference (ref : Ref.t) : TrustErr.result unit :=
  if negb (seqb ref.(Ref.SchemaVersion) SchemaSTHAnchorLatest)
  then Err (New CodeDataLoss "unexpected latest anchor reference schema") else
  _ ← wrap_err CodeDataLoss "invalid latest anchor result key" (ValidateResultKey ref.(Ref.Key));
  suite ← wrap_err CodeDataLoss "invalid latest anchor crypto_suite"
            (cryptosuite.RequireAvailable ref.(Ref.CryptoSuite));
  if negb (len ref.(Ref.RootHash) =? cryptosuite.DigestBytes (cryptosuite.AnchorDigest suite))
     || seqb ref.(Ref.AnchorID) ""
  then Err (New CodeDataLoss "invalid latest anchor result binding")
  else Ok tt.

Definition LatestReference (result : Res.t) : Ref.t :=
  Ref.mk SchemaSTHAnchorLatest result.(Res.CryptoSuite) (ResultKey result) result.(Res.RootHash)
    result.(Res.AnchorID).

Definition EmptyLatestReference (stream : option SKey.t) : Ref.t :=
  match stream with
  | None => Ref.mk SchemaSTHAnchorLatestEmpty "" RKey.zero [] ""
  | Some k =>
      Ref.mk SchemaSTHAnchorLatestEmpty ""
        (RKey.mk k.(SKey.NodeID) k.(SKey.LogID) k.(SKey.SinkName) 0) [] ""
  end.

Definition ValidEmptyLatestReference (ref : Ref.t) : bool :=
  seqb ref.(Ref.SchemaVersion) SchemaSTHAnchorLatestEmpty && (ref.(Ref.Key).(RKey.TreeSize) =? 0)
  && (len ref.(Ref.RootHash) =? 0) && seqb ref.(Ref.AnchorID) "".

Definition EmptyLatestReferenceMatches (ref : Ref.t) (stream : option SKey.t) : bool :=
  if negb (ValidEmptyLatestReference ref) then false else
  let actual := ScheduleKey ref.(Ref.Key) in
  match stream with
  | None => bool_decide (actual = SKey.zero)
  | Some k => SameKey actual k
  end.

Definition ReferenceMatchesResult (ref : Ref.t) (result : Res.t) : bool :=
  SameResultKey ref.(Ref.Key) (ResultKey result)
  && bytes_equal ref.(Ref.RootHash) result.(Res.RootHash)
  && seqb ref.(Ref.AnchorID) result.(Res.AnchorID).

(** ** Stored results *)

Definition ValidateCandidateAgainstExactResult (candidate : Cand.t) (result : Res.t)
  : TrustErr.result unit :=
  let resultKey := SKey.mk result.(Res.NodeID) result.(Res.LogID) result.(Res.SinkName) in
  _ ← wrap_err CodeDataLoss "stored exact-tree anchor result is invalid"
        (ValidateResult resultKey result);
  if negb (result.(Res.TreeSize) =? candidate.(Cand.STH).(Sth.TreeSize))
  then Err (New CodeDataLoss "stored anchor result tree size does not match lookup") else
  if negb (seqb result.(Res.NodeID) candidate.(Cand.Key).(SKey.NodeID))
     || negb (seqb result.(Res.LogID) candidate.(Cand.Key).(SKey.LogID))
     || negb (bytes_equal result.(Res.RootHash) candidate.(Cand.STH).(Sth.RootHash))
  then Err (New CodeDataLoss "anchor candidate conflicts with immutable exact-tree result")
  else Ok tt.

Definition SameResultBinding (l r : Res.t) : bool :=
  seqb l.(Res.NodeID) r.(Res.NodeID) && seqb l.(Res.LogID) r.(Res.LogID)
  && (l.(Res.TreeSize) =? r.(Res.TreeSize)) && seqb l.(Res.SinkName) r.(Res.SinkName)
  && seqb l.(Res.AnchorID) r.(Res.AnchorID) && bytes_equal l.(Res.RootHash) r.(Res.RootHash)
  && SameTarget l.(Res.STH) r.(Res.STH).

Definition SameStoredResult `{CborMode Res.t} (l r : Res.t) : bool :=
  if negb (seqb l.(Res.SinkName) "fisco-bcos") && negb (seqb r.(Res.SinkName) "fisco-bcos")
  then SameResultBinding l r else
  match cborx.Marshal l, cborx.Marshal r with
  | Ok leftCBOR, Ok rightCBOR => bytes_equal leftCBOR rightCBOR
  | _, _ => false
  end.

End operations.

End anchorschedule.
