(* ===== verification/AnchorScheduleProofs.v ===== *)
(** * Anchor scheduling: theorems

    The schedule as a state machine driven by the operations of
    [AnchorSchedule.v]: which schedules are reachable, what an operation may
    change, and that no observed tree head is lost. *)

From Stdlib Require Import Strings.Ascii Structures.OrdersEx.
From S2P Require Import Prelude TrustErr CryptoSuite Model Cborx AnchorSchedule.

Module anchorschedule_proofs.
Import anchorschedule.

(** ** The state machine

    The stores run one operation at a time in a transaction: an operation that
    fails leaves the schedule as it was. *)

Inductive op :=
| OpMerge (candidate : Cand.t) (latest : option Res.t)
| OpClaim (now leaseUntil : Z) (owner token : string)
| OpCompareAndSwap (generation : Z) (token : string) (now : Z) (expected next : bytes)
| OpReschedule (generation : Z) (token : string) (attempts nextAttempt : Z) (lastError : string)
| OpFail (generation : Z) (token : string) (attempts : Z) (lastError : string)
| OpComplete (generation : Z) (token : string) (result : Res.t)
| OpReconcile (result : Res.t)
| OpRestore.

Section machine.
Context `{FiscoLib}.

(** What an operation computes on a stored schedule. *)
Definition apply (o : op) (cur : option Sch.t) : TrustErr.result Sch.t :=
  match o, cur with
  | OpMerge c l, _ => p ← MergeCandidate cur c l; Ok p.1
  | _, None => Err (New CodeNotFound "anchor schedule not found")
  | OpClaim now until ow tok, Some s => p ← Claim s now until ow tok; Ok p.1.1
  | OpCompareAndSwap g tok now e n, Some s => CompareAndSwapProviderState s g tok now e n
  | OpReschedule g tok n next err, Some s => Reschedule s g tok n next err
  | OpFail g tok n err, Some s => Fail s g tok n err
  | OpComplete g tok r, Some s => Complete s g tok r
  | OpReconcile r, Some s => p ← ReconcileCompleted s r; Ok p.1
  | OpRestore, Some s => ClearLeaseForRestore s
  end.

(** The durable result an operation relies on. *)
Definition op_result (o : op) : option Res.t :=
  match o with
  | OpMerge _ l => l
  | OpComplete _ _ r | OpReconcile r => Some r
  | _ => None
  end.

(** The schedule and the results that successful operations relied on. *)
Record sys := mkSys { sys_schedule : option Sch.t; sys_results : list Res.t }.

Definition exec (st : sys) (o : op) : sys :=
  match apply o (sys_schedule st) with
  | Ok s => mkSys (Some s) (option_list (op_result o) ++ sys_results st)
  | Err _ => st
  end.

Definition run (ops : list op) : sys := foldl exec (mkSys None []) ops.

(** ** What [ValidateSchedule] checks *)

Record window_ok (key : SKey.t) (w : Win.t) : Prop := {
  wo_gen : w.(Win.Generation) ≠ 0;
  wo_opened : 0 < w.(Win.OpenedAtUnixN);
  wo_due : w.(Win.OpenedAtUnixN) <= w.(Win.DueAtUnixN);
  wo_updated : w.(Win.OpenedAtUnixN) <= w.(Win.UpdatedAtUnixN);
  wo_target : validateTarget key w.(Win.Target) = Ok tt }.

Record attempt_ok (key : SKey.t) (a : Att.t) : Prop := {
  ao_gen : a.(Att.Generation) ≠ 0;
  ao_opened : 0 < a.(Att.OpenedAtUnixN);
  ao_due : a.(Att.OpenedAtUnixN) <= a.(Att.DueAtUnixN);
  ao_attempts : 0 <= a.(Att.Attempts);
  ao_next : 0 <= a.(Att.NextAttemptUnixN);
  ao_last : 0 < a.(Att.LastAttemptUnixN);
  ao_error : slen a.(Att.LastErrorMessage) <= MaxLastErrorBytes;
  ao_state : len (default [] a.(Att.ProviderState)) <= MaxProviderStateBytes;
  ao_canonical : a.(Att.ProviderState) ≠ Some [];
  ao_retry : 0 < a.(Att.NextAttemptUnixN) → a.(Att.LastAttemptUnixN) <= a.(Att.NextAttemptUnixN);
  ao_lease : has_lease a = true →
    a.(Att.LeaseOwner) ≠ "" ∧ a.(Att.LeaseToken) ≠ "" ∧
    a.(Att.LastAttemptUnixN) < a.(Att.LeaseUntilUnixN);
  ao_terminal : a.(Att.TerminalFailure) = true →
    a.(Att.Attempts) ≠ 0 ∧ a.(Att.LastErrorMessage) ≠ "" ∧ a.(Att.NextAttemptUnixN) = 0 ∧
    has_lease a = false;
  ao_retryable : a.(Att.TerminalFailure) = false → has_lease a = false →
    0 < a.(Att.Attempts) → a.(Att.NextAttemptUnixN) ≠ 0;
  ao_target : validateTarget key a.(Att.Target) = Ok tt }.

Record schedule_ok (s : Sch.t) : Prop := {
  so_schema : s.(Sch.SchemaVersion) = SchemaSTHAnchorSchedule;
  so_suite : is_ok (cryptosuite.RequireAvailable s.(Sch.CryptoSuite)) = true;
  so_key : ValidateKey s.(Sch.Key) = Ok tt;
  so_gen : s.(Sch.NextGeneration) ≠ 0;
  so_rev : s.(Sch.Revision) ≠ 0;
  so_pending w : s.(Sch.Pending) = Some w → window_ok s.(Sch.Key) w;
  so_inflight a : s.(Sch.InFlight) = Some a → attempt_ok s.(Sch.Key) a;
  so_order w a : s.(Sch.Pending) = Some w → s.(Sch.InFlight) = Some a →
    a.(Att.Generation) < w.(Win.Generation) ∧
    a.(Att.Target).(Sth.TreeSize) < w.(Win.Target).(Sth.TreeSize);
  so_high : highestGeneration s < s.(Sch.NextGeneration) }.

Lemma validatePending_Ok key w : validatePending key w = Ok tt ↔ window_ok key w.
Proof.
  unfold validatePending. rewrite if_Err_Ok, wrap_err_Ok. autorewrite with bprop.
  split; [by intros [[[[]]]]|by intros []].
Qed.

Lemma validateInFlight_Ok key a : validateInFlight key a = Ok tt ↔ attempt_ok key a.
Proof.
  unfold validateInFlight. cbv zeta. rewrite !if_Err_Ok, wrap_err_Ok. autorewrite with bprop.
  split.
  - intros V. dex. constructor; try done; [lia|intros E..].
    + rewrite E in *. intuition congruence.
    + rewrite E in *. intuition congruence.
    + intros El Ea ?. rewrite E, El in *. intuition (lia || congruence).
  - intros [? ? ? ? ? ? ? ? ? H1 H2 H3 H4 ?]. split_and!; try done.
    + lia.
    + destruct (has_lease a); naive_solver.
    + destruct (Att.TerminalFailure a); [|by left]. destruct H3 as (? & ? & ? & ?); [done|]. auto.
    + destruct (Att.TerminalFailure a); [by auto|]. destruct (has_lease a); [by auto|].
      specialize (H4 eq_refl eq_refl). lia.
Qed.

Lemma when_some_Ok {A} (o : option A) f :
  when_some o f = Ok tt ↔ ∀ a, o = Some a → f a = Ok tt.
Proof. destruct o; naive_solver. Qed.

Lemma ValidateSchedule_Ok s : ValidateSchedule s = Ok tt ↔ schedule_ok s.
Proof.
  unfold ValidateSchedule. rewrite if_Err_Ok, bind_Ok. setoid_rewrite wrap_err_Ok.
  split.
  - intros (Hs & x & Hx & V). rewrite !bind_Ok_unit, !if_Err_Ok, !bind_Ok_unit, wrap_err_Ok, !when_some_Ok in V.
    rewrite if_Err_Ok in V. destruct V as (Hk & Hg & Hr & Hp & Hi & Ho & Hh).
    autorewrite with bprop in *. constructor; try done.
    + by rewrite Hx.
    + intros w Hw. by apply validatePending_Ok, Hp.
    + intros a Ha. by apply validateInFlight_Ok, Hi.
    + intros w a Hw Ha. rewrite Hw, Ha, !if_Err_Ok in Ho. autorewrite with bprop in Ho. tauto.
    + tauto.
  - intros [? Hx Hk Hg Hr Hp Hi Ho Hh]. apply is_ok_iff in Hx as [x Hx].
    split; [by autorewrite with bprop|]. exists x. split; [done|].
    rewrite !bind_Ok_unit, !if_Err_Ok, !bind_Ok_unit, wrap_err_Ok, !when_some_Ok, if_Err_Ok.
    autorewrite with bprop. split_and!; try done.
    + intros w Hw. by apply validatePending_Ok, Hp.
    + intros a Ha. by apply validateInFlight_Ok, Hi.
    + destruct (Sch.Pending s) as [w|], (Sch.InFlight s) as [a|]; try done.
      destruct (Ho w a eq_refl eq_refl). rewrite !if_Err_Ok. by autorewrite with bprop.
Qed.

(** ** The invariant of the reachable schedules

    Beyond [ValidateSchedule]: a retryable attempt that has failed before
    carries a retry deadline even while it is leased, the targets have the
    suite of the schedule, and after [n] operations the counters are at most
    [n] and [n + 1], so that they do not wrap around. *)
Record inv (n : Z) (s : Sch.t) : Prop := {
  iv_ok : schedule_ok s;
  iv_rev : 0 < s.(Sch.Revision) <= n;
  iv_gen : 0 < s.(Sch.NextGeneration) <= n + 1;
  iv_retry a : s.(Sch.InFlight) = Some a → a.(Att.TerminalFailure) = false →
    0 < a.(Att.Attempts) → 0 < a.(Att.NextAttemptUnixN);
  iv_suites : Forall (λ t, t.(Sth.CryptoSuite) = s.(Sch.CryptoSuite)) (scheduleTargets s) }.

Lemma inv_mono n m s : n <= m → inv n s → inv m s.
Proof. intros Hm [H1 H2 H3 H4 H5]. constructor; try done; lia. Qed.

Lemma u64_count n : 0 <= n → n < two64 → u64 n = n.
Proof. intros. apply u64_small. done. Qed.

(** Only the attempt changes, and it keeps its generation and its target. *)
Lemma set_inflight_inv n s a a' :
  inv n s → n + 2 < two64 → s.(Sch.InFlight) = Some a → attempt_ok s.(Sch.Key) a' →
  a'.(Att.Generation) = a.(Att.Generation) → a'.(Att.Target) = a.(Att.Target) →
  (a'.(Att.TerminalFailure) = false → 0 < a'.(Att.Attempts) → 0 < a'.(Att.NextAttemptUnixN)) →
  inv (n + 1) (bump (Sch.set_InFlight (Some a') s)).
Proof.
  intros [[? ? ? ? ? ? ? Ho Hh] Hr Hg _ Hs] Hn Ha Hok Eg Et Hretry.
  unfold bump, highestGeneration, scheduleTargets in *. rewrite Ha in *.
  constructor; cbn in *; rewrite ?u64_count, ?Eg, ?Et by lia; try done; try lia.
  - constructor; cbn; try done; [lia|..].
    + by intros ? [= <-].
    + intros w x Hw [= <-]. rewrite Eg, Et. by apply Ho.
    + unfold highestGeneration. cbn. by rewrite Eg.
  - by intros ? [= <-].
Qed.

(** The window, the attempt or both are dropped. *)
Lemma drop_inv n s p i :
  inv n s → n + 2 < two64 → (p = s.(Sch.Pending) ∨ p = None) → (i = s.(Sch.InFlight) ∨ i = None) →
  inv (n + 1) (bump (Sch.set_Pending p (Sch.set_InFlight i s))).
Proof.
  intros [[? ? ? ? ? Hp Hi Ho Hh] Hr Hg Hre Hs] Hn Ep Ei.
  unfold bump, highestGeneration, scheduleTargets in *.
  constructor; cbn in *; rewrite ?u64_count by lia; try done; try lia.
  - constructor; cbn; try done; [lia|..].
    + intros w ->. destruct Ep; [|done]. by apply Hp.
    + intros a ->. destruct Ei; [|done]. by apply Hi.
    + intros w a -> ->. destruct Ep, Ei; try done. by apply Ho.
    + unfold highestGeneration. cbn.
      destruct Ep as [-> | ->], Ei as [-> | ->], (Sch.Pending s) as [w|], (Sch.InFlight s) as [a|];
        try (destruct (_ <? _) eqn:E in Hh; bsimpl); try (destruct (_ <? _) eqn:E' in |- *; bsimpl);
        lia.
  - intros a ->. destruct Ei; [|done]. by apply Hre.
  - unfold scheduleTargets. cbn. apply Forall_app in Hs as [Hs1 Hs2]. apply Forall_app. split.
    + destruct Ei as [-> | ->]; [done|constructor].
    + destruct Ep as [-> | ->]; [done|constructor].
Qed.

(** *** The pieces of [MergeCandidate] *)

Lemma ValidateCandidate_Ok c :
  ValidateCandidate c = Ok tt →
  ValidateKey c.(Cand.Key) = Ok tt ∧ validateTarget c.(Cand.Key) c.(Cand.STH) = Ok tt ∧
  0 < c.(Cand.ObservedAtUnixN) ∧ c.(Cand.ObservedAtUnixN) <= c.(Cand.DueAtUnixN).
Proof.
  unfold ValidateCandidate. rewrite !bind_Ok_unit, !if_Err_Ok. autorewrite with bprop. tauto.
Qed.

Lemma validateTarget_suite key t :
  validateTarget key t = Ok tt → is_ok (cryptosuite.RequireAvailable t.(Sth.CryptoSuite)) = true.
Proof. unfold validateTarget. intros V. ok_inv. by apply is_ok_iff; eexists. Qed.

(** The candidate is past every scheduled target. *)
Lemma againstTargets_None sth ts :
  againstTargets sth ts = None →
  Forall (λ t, t.(Sth.TreeSize) < sth.(Sth.TreeSize)) ts.
Proof.
  induction ts as [|t ts IH]; cbn [againstTargets]; [constructor|].
  destruct (_ && _); [done|]. destruct (_ <=? _) eqn:E; [done|]. bsimpl.
  intros H0. constructor; [lia|by apply IH].
Qed.

(** The candidate is covered by a scheduled target. *)
Lemma againstTargets_Some sth ts :
  againstTargets sth ts = Some (Ok tt) →
  Exists (λ t, sth.(Sth.TreeSize) <= t.(Sth.TreeSize)) ts.
Proof.
  induction ts as [|t ts IH]; cbn [againstTargets]; [done|].
  destruct (_ && _); [done|]. destruct (_ <=? _) eqn:E; bsimpl.
  - intros _. by constructor.
  - intros H0. right. by apply IH.
Qed.

Lemma highest_ge_inflight s a :
  s.(Sch.InFlight) = Some a → a.(Att.Generation) <= highestGeneration s.
Proof. unfold highestGeneration. intros ->. destruct (_ <? _) eqn:E; bsimpl; lia. Qed.

Lemma mergeWindow_inv n s c :
  inv n s → n + 2 < two64 → s.(Sch.Key) = c.(Cand.Key) →
  s.(Sch.CryptoSuite) = c.(Cand.STH).(Sth.CryptoSuite) → ValidateCandidate c = Ok tt →
  Forall (λ t, t.(Sth.TreeSize) < c.(Cand.STH).(Sth.TreeSize)) (scheduleTargets s) →
  inv (n + 1) (mergeWindow s c).
Proof.
  intros [[? ? ? ? ? Hp Hi Ho Hh] Hr Hg Hre Hs] Hn Ek Es Hc Hlt.
  apply ValidateCandidate_Ok in Hc as (Hk & Ht & Hobs & Hdue).
  pose proof (highest_ge_inflight s) as Hhi.
  unfold mergeWindow, bump, scheduleTargets in *.
  apply Forall_app in Hs as [Hs1 Hs2]. apply Forall_app in Hlt as [Hlt1 Hlt2].
  destruct (Sch.Pending s) as [w|] eqn:Ew.
  - set (w' := if _ <? _ then _ else _).
    assert (Win.Generation w' = Win.Generation w ∧ Win.Target w' = c.(Cand.STH) ∧
      window_ok s.(Sch.Key) w') as (Eg & Et & Hw').
    { destruct (Hp w eq_refl). subst w'.
      destruct (_ <? _) eqn:E; bsimpl; (split_and!; [done|done|]);
        constructor; cbn in *; rewrite ?Ek; try done; lia. }
    constructor; cbn in *; rewrite ?u64_count by lia; try done; try lia.
    + constructor; cbn; try done; [lia|..].
      * by intros ? [= <-].
      * intros ? a [= <-] Ha. rewrite Eg, Et. split; [by apply (Ho w a)|].
        rewrite Ha in Hlt1. by apply Forall_cons in Hlt1 as [? _].
      * unfold highestGeneration in *. cbn. rewrite Ew in Hh. by rewrite Eg.
    + unfold scheduleTargets. cbn. apply Forall_app. split; [done|].
      constructor; [|constructor]. rewrite Et. done.
  - rewrite (proj2 (Z.eqb_neq _ 0)) by lia.
    constructor; cbn in *; rewrite ?u64_count by lia; try done; try lia.
    + constructor; cbn; try done; [lia|lia|..].
      * intros ? [= <-]. constructor; cbn; rewrite ?Ek; try done; lia.
      * intros ? a [= <-] Ha. cbn. split; [specialize (Hhi a Ha); lia|].
        rewrite Ha in Hlt1. by apply Forall_cons in Hlt1 as [? _].
      * unfold highestGeneration in *. cbn. rewrite Ew in Hh.
        destruct (Sch.InFlight s) as [a|] eqn:Ea; [|lia]. specialize (Hhi a eq_refl).
        rewrite Ew in Hhi. destruct (0 <? _); destruct (_ <? Att.Generation _); lia.
    + unfold scheduleTargets. cbn. apply Forall_app. split; [done|].
      constructor; [|constructor]. done.
Qed.

Lemma SameKey_eq k k' : SameKey k k' = true ↔ k = k'.
Proof.
  unfold SameKey. autorewrite with bprop. destruct k, k'; cbn. naive_solver.
Qed.

Lemma RequireSame_one x y : cryptosuite.RequireSame x [y] = Ok tt → x = y.
Proof. rewrite cryptosuite.RequireSame_Ok. intros [_ Hf]. by apply Forall_cons in Hf as [-> _]. Qed.

(** A schedule created for a candidate, before its first window. *)
Lemma created_inv c :
  ValidateCandidate c = Ok tt →
  inv 1 (Sch.mk SchemaSTHAnchorSchedule c.(Cand.STH).(Sth.CryptoSuite) c.(Cand.Key) 1 1 None None).
Proof.
  intros Hc. apply ValidateCandidate_Ok in Hc as (Hk & Ht & _).
  constructor; cbn; try done; try lia. constructor; cbn; try done.
  by eapply validateTarget_suite.
Qed.

Lemma created_merge_inv c :
  ValidateCandidate c = Ok tt →
  inv 1 (mergeWindow (Sch.mk SchemaSTHAnchorSchedule c.(Cand.STH).(Sth.CryptoSuite) c.(Cand.Key)
                        0 1 None None) c).
Proof.
  intros Hc. pose proof (ValidateCandidate_Ok c Hc) as (Hk & Ht & ? & ?).
  unfold mergeWindow, bump. constructor; cbn; try done; try lia.
  - constructor; cbn; try done; [by eapply validateTarget_suite|]. intros ? [= <-]. by constructor.
  - unfold scheduleTargets. cbn. by repeat constructor.
Qed.

(** Every way [MergeCandidate] succeeds. *)
Inductive merged (cur : option Sch.t) (c : Cand.t) (l : option Res.t) : Sch.t → Prop :=
| merged_created : cur = None → l = None →
    merged cur c l (mergeWindow (Sch.mk SchemaSTHAnchorSchedule c.(Cand.STH).(Sth.CryptoSuite)
      c.(Cand.Key) 0 1 None None) c)
| merged_created_above r : cur = None → l = Some r → r.(Res.TreeSize) < c.(Cand.STH).(Sth.TreeSize) →
    merged cur c l (mergeWindow (Sch.mk SchemaSTHAnchorSchedule c.(Cand.STH).(Sth.CryptoSuite)
      c.(Cand.Key) 0 1 None None) c)
| merged_created_covered r : cur = None → l = Some r →
    c.(Cand.STH).(Sth.TreeSize) <= r.(Res.TreeSize) →
    merged cur c l (Sch.mk SchemaSTHAnchorSchedule c.(Cand.STH).(Sth.CryptoSuite)
      c.(Cand.Key) 1 1 None None)
| merged_covered s r : cur = Some s → l = Some r →
    c.(Cand.STH).(Sth.TreeSize) <= r.(Res.TreeSize) → merged cur c l s
| merged_scheduled s : cur = Some s →
    Exists (λ t, c.(Cand.STH).(Sth.TreeSize) <= t.(Sth.TreeSize)) (scheduleTargets s) →
    merged cur c l s
| merged_window s : cur = Some s → s.(Sch.Key) = c.(Cand.Key) →
    s.(Sch.CryptoSuite) = c.(Cand.STH).(Sth.CryptoSuite) →
    Forall (λ t, t.(Sth.TreeSize) < c.(Cand.STH).(Sth.TreeSize)) (scheduleTargets s) →
    merged cur c l (mergeWindow s c).

Lemma MergeCandidate_Ok cur c l s b :
  MergeCandidate cur c l = Ok (s, b) → ValidateCandidate c = Ok tt ∧ merged cur c l s.
Proof.
  unfold MergeCandidate. intros M. apply bind_Ok in M as ([] & Hc & M). split; [done|].
  apply bind_Ok in M as (x & Hx & M).
  assert (∀ s b, match againstTargets (Cand.STH c) (scheduleTargets x) with
    | Some r => _ ← r; Ok (x, false) | None => Ok (mergeWindow x c, true) end = Ok (s, b) →
    (s = x ∧ Exists (λ t, c.(Cand.STH).(Sth.TreeSize) <= t.(Sth.TreeSize)) (scheduleTargets x)) ∨
    (s = mergeWindow x c ∧
     Forall (λ t, t.(Sth.TreeSize) < c.(Cand.STH).(Sth.TreeSize)) (scheduleTargets x))) as Hmerge.
  { intros s' b'. destruct (againstTargets _ _) as [[[]|]|] eqn:E; [|done|]; intros [= <- <-].
    - left. split; [done|]. by apply againstTargets_Some.
    - right. split; [done|]. by apply againstTargets_None. }
  destruct cur as [cur|].
  - apply bind_Ok in Hx as ([] & _ & Hx). apply if_Err_Ok in Hx as [Hk Hx].
    apply bind_Ok in Hx as ([] & Hsu & [= <-]). apply wrap_err_Ok, RequireSame_one in Hsu.
    apply negb_false_iff, SameKey_eq in Hk.
    destruct l as [r|].
    + apply bind_Ok in M as ([] & _ & M). apply if_Err_Ok in M as [_ M].
      destruct (_ <=? _) eqn:E; bsimpl; [injection M as <- <-; by eapply merged_covered|].
      apply Hmerge in M as [[-> ?]|[-> ?]]; [by eapply merged_scheduled|by eapply merged_window].
    + apply Hmerge in M as [[-> ?]|[-> ?]]; [by eapply merged_scheduled|by eapply merged_window].
  - injection Hx as <-. destruct l as [r|].
    + apply bind_Ok in M as ([] & _ & M). apply if_Err_Ok in M as [_ M].
      destruct (_ <=? _) eqn:E; bsimpl; [injection M as <- <-; by eapply merged_created_covered|].
      apply Hmerge in M as [[_ Hex]|[-> ?]]; [by apply Exists_nil in Hex|by eapply merged_created_above].
    + apply Hmerge in M as [[_ Hex]|[-> ?]]; [by apply Exists_nil in Hex|by eapply merged_created].
Qed.

(** *** The other operations *)

(** The attempt that a claim leases again. *)
Definition reclaimed (now until : Z) (ow tok : string) (a : Att.t) : Att.t :=
  Att.set_NextAttemptUnixN now
    (Att.set_LastAttemptUnixN now
      (Att.set_LeaseUntilUnixN until (Att.set_LeaseToken tok (Att.set_LeaseOwner ow a)))).

(** The attempt that a claim makes of the pending window. *)
Definition opened (now until : Z) (ow tok : string) (w : Win.t) : Att.t :=
  Att.mk w.(Win.Generation) w.(Win.Target) w.(Win.OpenedAtUnixN) w.(Win.DueAtUnixN) None 0 0 now
    "" false ow tok until.

Definition is_completion (o : op) : Prop :=
  match o with OpComplete _ _ _ | OpReconcile _ => True | _ => False end.

(** The lease token an operation presents. *)
Definition op_token (o : op) : option string :=
  match o with
  | OpCompareAndSwap _ t _ _ _ | OpReschedule _ t _ _ _ | OpFail _ t _ _ | OpComplete _ t _ => Some t
  | _ => None
  end.

(** Every way an operation on a stored schedule succeeds. *)
Inductive effect (s : Sch.t) : op → Sch.t → Prop :=
| eff_none o : effect s o s
| eff_reclaim now until ow tok a :
    s.(Sch.InFlight) = Some a → a.(Att.TerminalFailure) = false →
    a.(Att.NextAttemptUnixN) <= now → a.(Att.LeaseUntilUnixN) <= now →
    0 < now → now < until → ow ≠ "" → tok ≠ "" →
    effect s (OpClaim now until ow tok)
      (bump (Sch.set_InFlight (Some (reclaimed now until ow tok a)) s))
| eff_open now until ow tok w :
    s.(Sch.InFlight) = None → s.(Sch.Pending) = Some w → w.(Win.DueAtUnixN) <= now →
    0 < now → now < until → ow ≠ "" → tok ≠ "" →
    effect s (OpClaim now until ow tok)
      (bump (Sch.set_InFlight (Some (opened now until ow tok w)) (Sch.set_Pending None s)))
| eff_cas g tok now e next a :
    s.(Sch.InFlight) = Some a → a.(Att.LeaseToken) = tok → tok ≠ "" →
    now < a.(Att.LeaseUntilUnixN) → next ≠ [] → len next <= MaxProviderStateBytes →
    effect s (OpCompareAndSwap g tok now e next)
      (bump (Sch.set_InFlight (Some (Att.set_ProviderState (Some next) a)) s))
| eff_reschedule g tok n next err a :
    s.(Sch.InFlight) = Some a → a.(Att.LeaseToken) = tok → tok ≠ "" →
    a.(Att.Attempts) < n → a.(Att.LastAttemptUnixN) <= next → slen err <= MaxLastErrorBytes →
    effect s (OpReschedule g tok n next err)
      (bump (Sch.set_InFlight (Some (clear_lease (Att.set_TerminalFailure false
        (Att.set_LastErrorMessage err (Att.set_NextAttemptUnixN next (Att.set_Attempts n a)))))) s))
| eff_fail g tok n err a :
    s.(Sch.InFlight) = Some a → a.(Att.LeaseToken) = tok → tok ≠ "" →
    a.(Att.Attempts) < n → err ≠ "" → slen err <= MaxLastErrorBytes →
    effect s (OpFail g tok n err)
      (bump (Sch.set_InFlight (Some (clear_lease (Att.set_TerminalFailure true
        (Att.set_LastErrorMessage err (Att.set_NextAttemptUnixN 0 (Att.set_Attempts n a)))))) s))
| eff_drop o r p i :
    is_completion o → op_result o = Some r →
    (∀ tok, op_token o = Some tok →
      ∃ a, s.(Sch.InFlight) = Some a ∧ a.(Att.LeaseToken) = tok ∧ tok ≠ "" ∧ i = None) →
    (p = s.(Sch.Pending) ∨
     p = None ∧ ∀ w, s.(Sch.Pending) = Some w → w.(Win.Target).(Sth.TreeSize) <= r.(Res.TreeSize)) →
    (i = s.(Sch.InFlight) ∨
     i = None ∧ ∀ a, s.(Sch.InFlight) = Some a → ResultMatchesTarget r a.(Att.Target) = true) →
    effect s o (bump (Sch.set_Pending p (Sch.set_InFlight i s)))
| eff_restore a :
    s.(Sch.InFlight) = Some a → has_lease a = true →
    effect s OpRestore (bump (Sch.set_InFlight (Some (clear_lease a)) s)).

Lemma owned_Ok s g tok a :
  owned s g tok = Ok a →
  schedule_ok s ∧ s.(Sch.InFlight) = Some a ∧ a.(Att.Generation) = g ∧
  a.(Att.LeaseToken) = tok ∧ tok ≠ "".
Proof.
  unfold owned. intros O. apply bind_Ok in O as ([] & V & O). apply ValidateSchedule_Ok in V.
  destruct (Sch.InFlight s) as [x|]; [|done]. apply if_Err_Ok in O as [C [= ->]].
  autorewrite with bprop in C. split_and!; tauto.
Qed.

Lemma ResultMatchesTarget_size r t :
  ResultMatchesTarget r t = true → r.(Res.TreeSize) = t.(Sth.TreeSize).
Proof. unfold ResultMatchesTarget. autorewrite with bprop. tauto. Qed.

Lemma set_same p i s :
  p = s.(Sch.Pending) → i = s.(Sch.InFlight) → Sch.set_Pending p (Sch.set_InFlight i s) = s.
Proof. intros -> ->. by destruct s. Qed.

(** The schedule after [reconcileCompleted]: unchanged, or without the work
    the result covers. *)
Lemma reconcileCompleted_Ok s r s' :
  reconcileCompleted s r = Ok s' →
  (s' = s ∧
   (∀ a, s.(Sch.InFlight) = Some a → a.(Att.Target).(Sth.TreeSize) ≠ r.(Res.TreeSize)) ∧
   (∀ w, s.(Sch.Pending) = Some w → r.(Res.TreeSize) < w.(Win.Target).(Sth.TreeSize))) ∨
  ∃ p i,
    s' = bump (Sch.set_Pending p (Sch.set_InFlight i s)) ∧
    (p = s.(Sch.Pending) ∨
     p = None ∧ ∀ w, s.(Sch.Pending) = Some w → w.(Win.Target).(Sth.TreeSize) <= r.(Res.TreeSize)) ∧
    (i = s.(Sch.InFlight) ∨
     i = None ∧ ∀ a, s.(Sch.InFlight) = Some a → ResultMatchesTarget r a.(Att.Target) = true) ∧
    ((∃ a, s.(Sch.InFlight) = Some a ∧ a.(Att.Target).(Sth.TreeSize) = r.(Res.TreeSize)) → i = None) ∧
    ((∀ w, s.(Sch.Pending) = Some w → r.(Res.TreeSize) < w.(Win.Target).(Sth.TreeSize)) →
     p = s.(Sch.Pending)).
Proof.
  unfold reconcileCompleted. intros R. apply bind_Ok in R as ([x ch] & H1 & R).
  apply bind_Ok in R as ([y ch'] & H2 & R).
  assert (∃ i, x = Sch.set_InFlight i s ∧
    ((i = s.(Sch.InFlight) ∧ ch = false ∧
      ∀ a, s.(Sch.InFlight) = Some a → a.(Att.Target).(Sth.TreeSize) ≠ r.(Res.TreeSize)) ∨
     (i = None ∧ ch = true ∧
      ∀ a, s.(Sch.InFlight) = Some a → ResultMatchesTarget r a.(Att.Target) = true)))
    as (i & -> & Hi).
  { destruct (Sch.InFlight s) as [a|] eqn:Ea.
    - destruct (_ =? _) eqn:E in H1; bsimpl.
      + apply if_Err_Ok in H1 as [M [= <- <-]]. apply negb_false_iff in M.
        exists None. split; [done|]. right. split_and!; [done|done|naive_solver].
      + injection H1 as <- <-. exists (Some a). split; [by destruct s; cbn in *; subst|].
        left. split_and!; [done|done|naive_solver].
    - injection H1 as <- <-. exists None. split; [by destruct s; cbn in *; subst|].
      left. by split_and!. }
  change (Sch.Pending (Sch.set_InFlight i s)) with (Sch.Pending s) in H2.
  assert (∃ p, y = Sch.set_Pending p (Sch.set_InFlight i s) ∧
    ((p = s.(Sch.Pending) ∧ ch' = ch ∧
      ∀ w, s.(Sch.Pending) = Some w → r.(Res.TreeSize) < w.(Win.Target).(Sth.TreeSize)) ∨
     (p = None ∧ ch' = true ∧ (∃ w, s.(Sch.Pending) = Some w) ∧
      ∀ w, s.(Sch.Pending) = Some w → w.(Win.Target).(Sth.TreeSize) <= r.(Res.TreeSize))))
    as (p & -> & Hp).
  { destruct (Sch.Pending s) as [w|] eqn:Ew.
    - destruct (_ <=? _) eqn:E in H2; bsimpl.
      + apply if_Err_Ok in H2 as [_ [= <- <-]]. exists None. split; [done|]. right.
        split_and!; [done|done|by eexists|naive_solver].
      + injection H2 as <- <-. exists (Some w). split; [by destruct s; cbn in *; subst|].
        left. split_and!; [done|done|naive_solver].
    - injection H2 as <- <-. exists None. split; [by destruct s; cbn in *; subst|].
      left. by split_and!. }
  injection R as <-.
  destruct Hi as [(-> & -> & Hi)|(-> & -> & Hi)], Hp as [(-> & -> & Hp)|(-> & -> & [w Hw] & Hp)].
  - left. split_and!; [by apply set_same|done|done].
  - right. exists None, (Sch.InFlight s). split_and!; [done|by right|by left| |].
    + intros (a & Ha & E). by apply Hi in Ha.
    + intros Hlt. specialize (Hlt w Hw). specialize (Hp w Hw). lia.
  - right. exists (Sch.Pending s), None. split_and!; [done|by left|by right|done|done].
  - right. exists None, None. split_and!; [done|by right|by right|done|].
    intros Hlt. specialize (Hlt w Hw). specialize (Hp w Hw). lia.
Qed.

Lemma apply_effect o s s' :
  apply o (Some s) = Ok s' → (∀ c l, o ≠ OpMerge c l) → schedule_ok s ∧ effect s o s'.
Proof.
  intros A Hm.
  destruct o as [c l|now until ow tok|g tok now e next|g tok n next err|g tok n err|g tok r|r|];
    cbn [apply] in A; [by destruct (Hm c l)|..].
  - apply bind_Ok in A as ([[x a] b] & A & [= <-]). unfold Claim in A.
    apply bind_Ok in A as ([] & V & A). apply ValidateSchedule_Ok in V. split; [done|].
    apply if_Err_Ok in A as [C A]. autorewrite with bprop in C. destruct C as [[[? ?] ?] ?].
    destruct (Sch.InFlight s) as [f|] eqn:Ef.
    + destruct (Att.TerminalFailure f) eqn:Et; [injection A as <- _ _; constructor|].
      destruct (_ || _) eqn:E; [injection A as <- _ _; constructor|]. bsimpl.
      injection A as <- _ _. by apply eff_reclaim.
    + destruct (Sch.Pending s) as [w|] eqn:Ew; [|injection A as <- _ _; constructor].
      destruct (_ <? _) eqn:E; [injection A as <- _ _; constructor|]. bsimpl.
      injection A as <- _ _. by apply eff_open.
  - unfold CompareAndSwapProviderState in A. apply bind_Ok in A as (a & O & A).
    apply owned_Ok in O as (? & ? & ? & ? & ?). split; [done|].
    rewrite !if_Err_Ok in A. autorewrite with bprop in A. destruct A as (? & _ & [Hl ?] & _ & [= <-]).
    apply eff_cas; try done; [lia|]. by intros ->.
  - unfold Reschedule in A. apply bind_Ok in A as (a & O & A).
    apply owned_Ok in O as (? & ? & ? & ? & ?). split; [done|].
    apply if_Err_Ok in A as [C [= <-]]. autorewrite with bprop in C. dex. by apply eff_reschedule.
  - unfold Fail in A. apply bind_Ok in A as (a & O & A).
    apply owned_Ok in O as (? & ? & ? & ? & ?). split; [done|].
    apply if_Err_Ok in A as [C [= <-]]. autorewrite with bprop in C. dex. by apply eff_fail.
  - unfold Complete in A. apply bind_Ok in A as (a & O & A).
    apply owned_Ok in O as (? & Ha & ? & ? & ?). split; [done|].
    apply bind_Ok in A as ([] & _ & A). apply if_Err_Ok in A as [M A].
    apply negb_false_iff, ResultMatchesTarget_size in M.
    apply reconcileCompleted_Ok in A as [(-> & _)|(p & i & -> & Hp & Hi & Hin & _)]; [constructor|].
    eapply eff_drop; try done. intros ? [= <-]. exists a. split_and!; try done. apply Hin.
    exists a. split; [done|]. lia.
  - apply bind_Ok in A as ([x b] & A & [= <-]). unfold ReconcileCompleted in A.
    apply bind_Ok in A as ([] & V & A). apply ValidateSchedule_Ok in V. split; [done|].
    apply bind_Ok in A as ([] & _ & A). apply bind_Ok in A as (y & A & [= -> _]).
    apply reconcileCompleted_Ok in A as [(-> & _)|(p & i & -> & Hp & Hi & _)]; [constructor|].
    by eapply eff_drop.
  - unfold ClearLeaseForRestore in A. apply bind_Ok in A as ([] & V & A).
    apply ValidateSchedule_Ok in V. split; [done|].
    destruct (Sch.InFlight s) as [a|] eqn:Ea; [|injection A as <-; constructor].
    destruct (_ && _) eqn:E; injection A as <-; [constructor|]. apply eff_restore; [done|].
    unfold has_lease. revert E. by destruct (seqb _ _), (seqb _ _), (_ =? _).
Qed.

Lemma no_lease_clear a : has_lease (clear_lease a) = false.
Proof. done. Qed.

(** Every operation preserves the invariant. *)
Lemma effect_inv n s o s' : inv n s → n + 2 < two64 → effect s o s' → inv (n + 1) s'.
Proof.
  intros I Hn E. pose proof (iv_ok n s I) as Hok.
  destruct E as [o|now until ow tok a Ha Ht Hne Hle Hn0 Hu Ho Htk
    |now until ow tok w Hi Hw Hd Hn0 Hu Ho Htk|g tok now e next a Ha Htk Htk0 Hl Hx Hlen
    |g tok k next err a Ha Htk Htk0 Hk Hx Herr|g tok k err a Ha Htk Htk0 Hk Hx Herr
    |o r p i _ _ _ Hp Hi|a Ha Hl].
  - apply (inv_mono n); [lia|done].
  - destruct (so_inflight s Hok a Ha). apply (set_inflight_inv n s a); try done.
    constructor; cbn; try done; try lia; intros; try lia; congruence.
  - destruct I as [[? ? ? ? ? Hp _ _ Hh] Hr Hg _ Hs].
    destruct (Hp w Hw) as [? ? ? ? Htarget]. unfold highestGeneration in Hh. rewrite Hi, Hw in Hh.
    unfold bump in *. constructor; cbn in *; rewrite ?u64_count by lia; try done; try lia.
    + constructor; cbn; try done; [lia|..].
      * intros a [= <-]. constructor; cbn; try done; lia.
      * unfold highestGeneration. cbn. destruct (0 <? _); lia.
    + intros a [= <-]. cbn. lia.
    + unfold scheduleTargets in *. cbn. rewrite Hi, Hw in Hs. done.
  - destruct (so_inflight s Hok a Ha). apply (set_inflight_inv n s a); try done.
    + constructor; cbn; try done. by intros [= ->].
    + cbn. by apply (iv_retry n s).
  - destruct (so_inflight s Hok a Ha). apply (set_inflight_inv n s a); try done.
    + constructor; cbn; try done; lia.
    + cbn. lia.
  - destruct (so_inflight s Hok a Ha). apply (set_inflight_inv n s a); try done.
    constructor; cbn; try done; try lia. intros _. split_and!; try done. lia.
  - apply drop_inv; [done|done|naive_solver|naive_solver].
  - destruct (so_inflight s Hok a Ha) as [? ? ? ? ? ? ? ? ? ? ? Hterm ? ?].
    pose proof (iv_retry n s I a Ha) as Hre. apply (set_inflight_inv n s a); try done.
    constructor; cbn; try done.
    + intros Ht. destruct (Hterm Ht) as (? & ? & ? & ?). congruence.
    + intros Ht _ Hat. specialize (Hre Ht Hat). lia.
Qed.

Lemma merged_inv n cur c l s :
  (∀ x, cur = Some x → inv n x) → 0 <= n → n + 2 < two64 → ValidateCandidate c = Ok tt →
  merged cur c l s → inv (n + 1) s.
Proof.
  intros Hi H0 Hn Hc M. destruct M as [E _|r E _ _|r E _ _|x r E _ _|x E _|x E Ek Es Hlt].
  - apply (inv_mono 1); [lia|]. by apply created_merge_inv.
  - apply (inv_mono 1); [lia|]. by apply created_merge_inv.
  - apply (inv_mono 1); [lia|]. by apply created_inv.
  - apply (inv_mono n); [lia|by apply Hi].
  - apply (inv_mono n); [lia|by apply Hi].
  - apply mergeWindow_inv; try done. by apply Hi.
Qed.

Lemma apply_inv n o cur s :
  (∀ x, cur = Some x → inv n x) → 0 <= n → n + 2 < two64 → apply o cur = Ok s → inv (n + 1) s.
Proof.
  intros Hi H0 Hn A. destruct o as [c l| | | | | | |];
    [|destruct cur as [x|]; [|done];
      apply apply_effect in A as [_ A]; [|done]; by eapply effect_inv, A; [apply Hi|]..].
  cbn [apply] in A. apply bind_Ok in A as ([x b] & A & [= <-]).
  apply MergeCandidate_Ok in A as [Hc M]. by eapply merged_inv.
Qed.

Lemma run_inv ops s :
  len ops + 2 < two64 → sys_schedule (run ops) = Some s → inv (len ops) s.
Proof.
  revert s. induction ops as [|o ops IH] using rev_ind; [done|]. intros s.
  unfold run. rewrite foldl_app. fold (run ops). cbn [foldl].
  assert (len (ops ++ [o]) = len ops + 1) as -> by (unfold len; rewrite length_app; cbn; lia).
  intros Hn. unfold exec. destruct (apply o _) as [x|e] eqn:E.
  - cbn. intros [= <-]. eapply apply_inv; [| |lia|exact E]; [|apply len_nonneg].
    intros y Hy. apply IH; [lia|done].
  - intros Hs. apply (inv_mono (len ops)); [lia|]. apply IH; [lia|done].
Qed.

(** C28: every schedule that the operations can produce, in any order and with
    any arguments, passes [ValidateSchedule]: in particular the lease-clearing
    restore never produces a schedule the next operation would reject, and all
    scheduled targets have the schedule's suite.  The bound on the number of
    operations keeps the 64-bit counters from wrapping. *)
Theorem reachable_schedules_valid ops s :
  len ops + 2 < two64 → sys_schedule (run ops) = Some s →
  ValidateSchedule s = Ok tt ∧
  s.(Sch.Revision) <= len ops ∧
  Forall (λ t, t.(Sth.CryptoSuite) = s.(Sch.CryptoSuite)) (scheduleTargets s) ∧
  ∃ s', ClearLeaseForRestore s = Ok s' ∧ ValidateSchedule s' = Ok tt.
Proof.
  intros Hn Hs. pose proof (run_inv ops s Hn Hs) as I.
  pose proof (iv_ok _ _ I) as Hok. apply ValidateSchedule_Ok in Hok as Hv.
  split_and!; [done|apply I|apply I|].
  assert (∃ s', ClearLeaseForRestore s = Ok s') as [s' E].
  { unfold ClearLeaseForRestore. rewrite Hv. cbn [mbind result_bind].
    destruct (Sch.InFlight s); [|by eexists]. destruct (_ && _); by eexists. }
  exists s'. split; [done|]. apply ValidateSchedule_Ok, (iv_ok (len ops + 1)).
  eapply (effect_inv _ s OpRestore); [done|lia|]. by apply (apply_effect OpRestore).
Qed.

(** ** The in-flight attempt *)

Lemma mergeWindow_inflight s c : (mergeWindow s c).(Sch.InFlight) = s.(Sch.InFlight).
Proof. unfold mergeWindow. by destruct (Sch.Pending s). Qed.

Lemma merged_inflight s c l s' : merged (Some s) c l s' → s'.(Sch.InFlight) = s.(Sch.InFlight).
Proof. intros M. inversion M; simplify_eq; try done. apply mergeWindow_inflight. Qed.

Lemma effect_inflight s o s' a :
  effect s o s' → s.(Sch.InFlight) = Some a →
  (∃ a', s'.(Sch.InFlight) = Some a' ∧
     a'.(Att.Generation) = a.(Att.Generation) ∧ a'.(Att.Target) = a.(Att.Target) ∧
     a'.(Att.OpenedAtUnixN) = a.(Att.OpenedAtUnixN) ∧ a'.(Att.DueAtUnixN) = a.(Att.DueAtUnixN) ∧
     a.(Att.Attempts) <= a'.(Att.Attempts)) ∨
  (s'.(Sch.InFlight) = None ∧
   ∃ r, is_completion o ∧ op_result o = Some r ∧ ResultMatchesTarget r a.(Att.Target) = true).
Proof.
  intros E Ha.
  destruct E as [o|? ? ? ? b Hb|? ? ? ? w Hn|? ? ? ? ? b Hb|? ? ? ? ? b Hb ? ? Hat
    |? ? ? ? b Hb ? ? Hat|o r q i Hc Hr _ _ Hi|b Hb]; [|..|];
    try (left; eexists; split_and!; [exact Ha || reflexivity|simplify_eq/=; done || lia..]).
  destruct Hi as [-> |[-> Hi]]; [left; by exists a|right; split; [done|]].
  exists r. split_and!; [done|done|by apply Hi].
Qed.

(** An operation never changes the target, the generation or the window
    times of the attempt in flight, and its attempt counter does not decrease.
    The attempt leaves the schedule only when an operation presents a durable
    result that matches its target byte for byte. *)
Theorem inflight_immutable o s s' a :
  s.(Sch.InFlight) = Some a → apply o (Some s) = Ok s' →
  (∃ a', s'.(Sch.InFlight) = Some a' ∧
     a'.(Att.Generation) = a.(Att.Generation) ∧ a'.(Att.Target) = a.(Att.Target) ∧
     a'.(Att.OpenedAtUnixN) = a.(Att.OpenedAtUnixN) ∧ a'.(Att.DueAtUnixN) = a.(Att.DueAtUnixN) ∧
     a.(Att.Attempts) <= a'.(Att.Attempts)) ∨
  (s'.(Sch.InFlight) = None ∧
   ∃ r, is_completion o ∧ op_result o = Some r ∧ ResultMatchesTarget r a.(Att.Target) = true).
Proof.
  intros Ha A.
  destruct o as [c l| | | | | | |];
    [|apply apply_effect in A as [_ E]; [by eapply effect_inflight|done]..].
  cbn [apply] in A. apply bind_Ok in A as ([x b] & A & [= <-]).
  apply MergeCandidate_Ok in A as [_ M]. left. exists a.
  by rewrite (merged_inflight _ _ _ _ M).
Qed.

(** A generation names at most one target in all later schedules. *)
Definition fixed (g : Z) (t : Sth.t) (s : Sch.t) : Prop :=
  g < s.(Sch.NextGeneration) ∧
  (∀ a, s.(Sch.InFlight) = Some a → a.(Att.Generation) = g → a.(Att.Target) = t) ∧
  (∀ w, s.(Sch.Pending) = Some w → g < w.(Win.Generation)).

Lemma mergeWindow_fixed n g t s c :
  inv n s → n + 2 < two64 → fixed g t s → fixed g t (mergeWindow s c).
Proof.
  intros I Hn (H1 & H2 & H3). pose proof (iv_gen n s I). unfold fixed.
  rewrite mergeWindow_inflight. unfold mergeWindow.
  destruct (Sch.Pending s) as [w|] eqn:Ew; cbn.
  - split_and!; [done|done|]. intros w' [= <-]. specialize (H3 w eq_refl). by destruct (_ <? _).
  - rewrite (proj2 (Z.eqb_neq _ 0)) by lia. rewrite u64_count by lia. split_and!; [lia|done|].
    by intros w' [= <-].
Qed.

Lemma effect_fixed g t s o s' : effect s o s' → fixed g t s → fixed g t s'.
Proof.
  intros E (H1 & H2 & H3). unfold fixed.
  destruct E as [o|? ? ? ? b Hb|? ? ? ? w Hn Hw|? ? ? ? ? b Hb|? ? ? ? ? b Hb
    |? ? ? ? b Hb|? r q i Hc Hr _ Hp Hi|b Hb]; cbn;
    try (by split_and!; [done|intros ? [= <-]; exact (H2 b Hb)|done]); [done|..].
  - split_and!; [done| |done]. intros a [= <-]. cbn. specialize (H3 w Hw). lia.
  - split_and!; [done|..].
    + intros a ->. destruct Hi as [E'|[]]; [|done]. by apply H2.
    + intros w ->. destruct Hp as [E'|[]]; [|done]. by apply H3.
Qed.

Lemma run_app ops1 ops2 : run (ops1 ++ ops2) = foldl exec (run ops1) ops2.
Proof. apply foldl_app. Qed.

Lemma exec_schedule st o s :
  sys_schedule st = Some s →
  ∃ s', sys_schedule (exec st o) = Some s' ∧ (s' = s ∨ apply o (Some s) = Ok s').
Proof.
  intros Hs. unfold exec. rewrite Hs. destruct (apply o (Some s)) as [s'|]; [|by exists s; auto].
  exists s'. auto.
Qed.

(** A generation identifies one anchor target for ever: two attempts in
    flight at any two times of a history with the same generation have the same
    target, so a retry, a lease takeover or a restart publishes the same tree
    head again and never another one. *)
Theorem generation_identifies_target ops1 ops2 s1 s2 a1 a2 :
  len (ops1 ++ ops2) + 2 < two64 →
  sys_schedule (run ops1) = Some s1 → sys_schedule (run (ops1 ++ ops2)) = Some s2 →
  s1.(Sch.InFlight) = Some a1 → s2.(Sch.InFlight) = Some a2 →
  a1.(Att.Generation) = a2.(Att.Generation) → a1.(Att.Target) = a2.(Att.Target).
Proof.
  intros Hn H1 H2 Ha1 Ha2 Eg.
  assert (fixed a1.(Att.Generation) a1.(Att.Target) s2) as (_ & Hf & _);
    [|symmetry; by apply (Hf a2)].
  clear Ha2 Eg a2. revert s2 H2. induction ops2 as [|o ops2 IH] using rev_ind; intros s2.
  - rewrite app_nil_r in *. rewrite H1. intros [= <-].
    pose proof (iv_ok _ _ (run_inv ops1 s1 Hn H1)) as Hok.
    pose proof (highest_ge_inflight s1 a1 Ha1). pose proof (so_high s1 Hok).
    split_and!; [lia| |].
    + intros a Ha _. congruence.
    + intros w Hw. by apply (so_order s1 Hok w a1).
  - rewrite app_assoc in *. unfold len in *. rewrite (length_app (ops1 ++ ops2)) in Hn. cbn in Hn.
    rewrite run_app. cbn [foldl]. intros H2.
    destruct (sys_schedule (run (ops1 ++ ops2))) as [s|] eqn:Es.
    + destruct (exec_schedule _ o s Es) as (s' & E & Hs'). rewrite E in H2. injection H2 as ->.
      specialize (IH ltac:(lia) s eq_refl). destruct Hs' as [-> |A]; [done|].
      assert (inv (len (ops1 ++ ops2)) s) as I by (apply run_inv; [unfold len; lia|done]).
      destruct o as [c l| | | | | | |];
        [|apply apply_effect in A as [_ A]; [|done]; by eapply effect_fixed..].
      cbn [apply] in A. apply bind_Ok in A as ([x b] & A & [= <-]).
      apply MergeCandidate_Ok in A as [_ M]. inversion M; simplify_eq; try done.
      eapply mergeWindow_fixed; [done|unfold len; lia|done].
    + exfalso. clear -H1 Es. revert Es. rewrite run_app.
      assert (∀ ops st s, sys_schedule st = Some s → sys_schedule (foldl exec st ops) ≠ None) as Hx.
      { induction ops as [|o ops IH]; intros st s Hs; cbn; [congruence|].
        destruct (exec_schedule st o s Hs) as (s' & E & _). by eapply IH. }
      by eapply Hx.
Qed.

(** ** Leases *)

(** The operations of processes that do not hold the token [tok], while the
    lease it names has not expired: anything but a completion by a stored
    result, a restore, or a claim after the deadline. *)
Definition foreign (tok : string) (deadline : Z) (o : op) : Prop :=
  match o with
  | OpReconcile _ | OpRestore => False
  | OpClaim now _ _ _ => now < deadline
  | _ => op_token o ≠ Some tok
  end.

Definition holds (tok : string) (deadline : Z) (a : Att.t) (s : Sch.t) : Prop :=
  s.(Sch.InFlight) = Some a ∧ a.(Att.LeaseToken) = tok ∧ a.(Att.LeaseUntilUnixN) = deadline.

Lemma effect_holds tok d a s o s' :
  effect s o s' → foreign tok d o → holds tok d a s → holds tok d a s'.
Proof.
  intros E Hf (Ha & Ht & Hd). unfold holds.
  destruct E as [o|? ? ? ? b Hb ? ? Hl|? ? ? ? w Hn Hw|? ? ? ? ? b Hb Hbt|? ? ? ? ? b Hb Hbt
    |? ? ? ? b Hb Hbt|o r q i Hc Hr Ho Hp Hi|b Hb]; cbn in *; simplify_eq/=; try done; try lia.
  destruct o; try done. cbn in *. destruct (Ho token eq_refl) as (b & Hb & Hbt & _).
  simplify_eq/=.
Qed.

(** A lease excludes other workers: from a schedule whose attempt is leased
    under a token, no sequence of operations by processes that do not present
    this token, with all claims before the deadline, changes the attempt at
    all: it stays in flight with the same lease, target, provider state and
    retry state. *)
Theorem lease_exclusive tok d a s ops st st' :
  sys_schedule st = Some s → holds tok d a s → Forall (foreign tok d) ops →
  foldl exec st ops = st' →
  ∃ s', sys_schedule st' = Some s' ∧ holds tok d a s'.
Proof.
  intros Hs Hh Hf <-. revert st s Hs Hh. induction Hf as [|o ops Ho _ IH]; intros st s Hs Hh; cbn.
  - by exists s.
  - destruct (exec_schedule st o s Hs) as (s' & E & [-> |A]); [by eapply IH|].
    eapply IH; [exact E|].
    destruct o as [c l| | | | | | |];
      [|apply apply_effect in A as [_ A]; [|done]; by eapply effect_holds..].
    cbn [apply] in A. apply bind_Ok in A as ([x b] & A & [= <-]).
    apply MergeCandidate_Ok in A as [_ M]. unfold holds.
    by rewrite (merged_inflight _ _ _ _ M).
Qed.

(** ** Coverage *)

(** Tree size [n] is covered by a scheduled target or a durable result. *)
Definition covered (n : Z) (st : sys) : Prop :=
  (∃ s, sys_schedule st = Some s ∧
     Exists (λ t, n <= t.(Sth.TreeSize)) (scheduleTargets s)) ∨
  Exists (λ r, n <= r.(Res.TreeSize)) (sys_results st).

Lemma mergeWindow_targets s c :
  scheduleTargets (mergeWindow s c) =
  match s.(Sch.InFlight) with Some a => [a.(Att.Target)] | None => [] end ++ [c.(Cand.STH)].
Proof.
  unfold mergeWindow, scheduleTargets. destruct (Sch.Pending s); cbn; [|done].
  by destruct (_ <? _).
Qed.

Lemma mergeWindow_exists n s c :
  Forall (λ t, t.(Sth.TreeSize) < c.(Cand.STH).(Sth.TreeSize)) (scheduleTargets s) →
  Exists (λ t, n <= t.(Sth.TreeSize)) (scheduleTargets s) →
  Exists (λ t, n <= t.(Sth.TreeSize)) (scheduleTargets (mergeWindow s c)).
Proof.
  intros Hlt Hex. rewrite mergeWindow_targets. apply Exists_app. right. constructor.
  apply Exists_exists in Hex as (t & Ht & Hn). rewrite Forall_forall in Hlt.
  specialize (Hlt t Ht). lia.
Qed.

(** The targets that an operation drops are covered by its result. *)
Lemma effect_targets n s o s' :
  effect s o s' → Exists (λ t, n <= t.(Sth.TreeSize)) (scheduleTargets s) →
  Exists (λ t, n <= t.(Sth.TreeSize)) (scheduleTargets s') ∨
  ∃ r, op_result o = Some r ∧ n <= r.(Res.TreeSize).
Proof.
  intros E Hex. unfold scheduleTargets in *.
  destruct E as [o|? ? ? ? b Hb|? ? ? ? w Hn Hw|? ? ? ? ? b Hb|? ? ? ? ? b Hb
    |? ? ? ? b Hb|o r q i Hc Hr _ Hp Hi|b Hb]; cbn;
    try (rewrite Hb in Hex; by left); [by left|..].
  - rewrite Hn, Hw in Hex. by left.
  - apply Exists_app in Hex as [Hex|Hex].
    + destruct Hi as [-> |[-> Hi]]; [left; apply Exists_app; by left|].
      destruct (Sch.InFlight s) as [a|]; [|by apply Exists_nil in Hex].
      apply Exists_cons in Hex as [Hex|Hex]; [|by apply Exists_nil in Hex].
      right. exists r. split; [done|]. by rewrite (ResultMatchesTarget_size _ _ (Hi a eq_refl)).
    + destruct Hp as [-> |[-> Hp]]; [left; apply Exists_app; by right|].
      destruct (Sch.Pending s) as [w|]; [|by apply Exists_nil in Hex].
      apply Exists_cons in Hex as [Hex|Hex]; [|by apply Exists_nil in Hex].
      right. exists r. split; [done|]. specialize (Hp w eq_refl). lia.
Qed.

Lemma exec_covered n st o : covered n st → covered n (exec st o).
Proof.
  intros Hc. unfold exec. destruct (apply o (sys_schedule st)) as [s'|] eqn:A; [|done].
  destruct Hc as [(s & Hs & Hex)|Hr]; [|right; cbn; apply Exists_app; by right].
  rewrite Hs in A.
  assert (Exists (λ t, n <= t.(Sth.TreeSize)) (scheduleTargets s') ∨
    ∃ r, op_result o = Some r ∧ n <= r.(Res.TreeSize)) as [?|(r & -> & ?)].
  { destruct o as [c l| | | | | | |];
      [|apply apply_effect in A as [_ A]; [|done]; by eapply effect_targets..].
    cbn [apply] in A. apply bind_Ok in A as ([x b] & A & [= <-]).
    apply MergeCandidate_Ok in A as [_ M]. left. inversion M; simplify_eq; try done.
    by apply mergeWindow_exists. }
  - left. by exists s'.
  - right. cbn. by constructor.
Qed.

Lemma merged_covered_by cur c l s b :
  MergeCandidate cur c l = Ok (s, b) →
  Exists (λ t, c.(Cand.STH).(Sth.TreeSize) <= t.(Sth.TreeSize)) (scheduleTargets s) ∨
  ∃ r, l = Some r ∧ c.(Cand.STH).(Sth.TreeSize) <= r.(Res.TreeSize).
Proof.
  intros M. apply MergeCandidate_Ok in M as [_ M].
  assert (∀ x, Exists (λ t, c.(Cand.STH).(Sth.TreeSize) <= t.(Sth.TreeSize))
    (scheduleTargets (mergeWindow x c))) as Hw.
  { intros x. rewrite mergeWindow_targets. apply Exists_app. right. constructor. lia. }
  inversion M; simplify_eq; eauto.
Qed.

(** No tree head is lost: once a candidate has been merged, then after any
    further operations (claims, failures, retries, restores, completions, other
    candidates) either the schedule still holds a target that covers its tree
    size, or a durable result covers it. *)
Theorem no_candidate_lost ops1 c l ops2 s b :
  MergeCandidate (sys_schedule (run ops1)) c l = Ok (s, b) →
  covered c.(Cand.STH).(Sth.TreeSize) (run (ops1 ++ OpMerge c l :: ops2)).
Proof.
  intros M. rewrite run_app. cbn [foldl].
  assert (covered c.(Cand.STH).(Sth.TreeSize) (exec (run ops1) (OpMerge c l))) as Hc.
  { unfold exec. cbn [apply]. rewrite M. cbn.
    apply merged_covered_by in M as [Hex|(r & -> & Hr)]; [left; by exists s|].
    right. by constructor. }
  revert Hc. generalize (exec (run ops1) (OpMerge c l)) as st.
  induction ops2 as [|o ops2 IH]; intros st Hc; cbn; [done|]. by apply IH, exec_covered.
Qed.

(** ** The coalescing window *)

Definition window_after (o : op) (w : Win.t) (s' : Sch.t) : Prop :=
  (∃ w', s'.(Sch.Pending) = Some w' ∧ w'.(Win.Generation) = w.(Win.Generation) ∧
     w'.(Win.OpenedAtUnixN) = w.(Win.OpenedAtUnixN) ∧ w'.(Win.DueAtUnixN) = w.(Win.DueAtUnixN) ∧
     w.(Win.UpdatedAtUnixN) <= w'.(Win.UpdatedAtUnixN) ∧
     w.(Win.Target).(Sth.TreeSize) <= w'.(Win.Target).(Sth.TreeSize)) ∨
  (s'.(Sch.Pending) = None ∧ ∃ now until ow tok, o = OpClaim now until ow tok ∧
     w.(Win.DueAtUnixN) <= now ∧ s'.(Sch.InFlight) = Some (opened now until ow tok w)) ∨
  (s'.(Sch.Pending) = None ∧ ∃ r, is_completion o ∧ op_result o = Some r ∧
     w.(Win.Target).(Sth.TreeSize) <= r.(Res.TreeSize)).

Lemma effect_window s o s' w : effect s o s' → s.(Sch.Pending) = Some w → window_after o w s'.
Proof.
  intros E Hw.
  assert (∀ x, x.(Sch.Pending) = Some w → window_after o w x) as Hsame.
  { intros x Hx. left. exists w. by split_and!. }
  destruct E as [o|? ? ? ? b Hb|now until ow tok v Hn Hv|? ? ? ? ? b Hb|? ? ? ? ? b Hb
    |? ? ? ? b Hb|o r q i Hc Hr _ Hp Hi|b Hb]; try (by apply Hsame).
  - simplify_eq. right. left. split; [done|]. exists now, until, ow, tok. by split_and!.
  - destruct Hp as [-> |[-> Hp]]; [by apply Hsame|]. right. right. split; [done|].
    exists r. split_and!; [done|done|by apply Hp].
Qed.

Lemma mergeWindow_window o s c w :
  s.(Sch.Pending) = Some w →
  Forall (λ t, t.(Sth.TreeSize) < c.(Cand.STH).(Sth.TreeSize)) (scheduleTargets s) →
  window_after o w (mergeWindow s c).
Proof.
  intros Hw Hlt. left. unfold mergeWindow. rewrite Hw. eexists. split; [reflexivity|].
  unfold scheduleTargets in Hlt. rewrite Hw in Hlt. apply Forall_app in Hlt as [_ Hlt].
  apply Forall_cons in Hlt as [Hlt _].
  destruct (_ <? _) eqn:E; cbn in *; bsimpl; split_and!; done || lia.
Qed.

(** The window does not slide.  While the pending window stays pending, its
    generation, its opening time and its deadline are those it was opened with
    and its target only grows.  When it leaves the schedule, either a claim at
    or after the deadline has turned it into the in-flight attempt with the
    same generation, target and times, or a completed result covers its
    target. *)
Theorem window_non_sliding o s s' w :
  s.(Sch.Pending) = Some w → apply o (Some s) = Ok s' →
  (∃ w', s'.(Sch.Pending) = Some w' ∧ w'.(Win.Generation) = w.(Win.Generation) ∧
     w'.(Win.OpenedAtUnixN) = w.(Win.OpenedAtUnixN) ∧ w'.(Win.DueAtUnixN) = w.(Win.DueAtUnixN) ∧
     w.(Win.UpdatedAtUnixN) <= w'.(Win.UpdatedAtUnixN) ∧
     w.(Win.Target).(Sth.TreeSize) <= w'.(Win.Target).(Sth.TreeSize)) ∨
  (s'.(Sch.Pending) = None ∧ ∃ now until ow tok, o = OpClaim now until ow tok ∧
     w.(Win.DueAtUnixN) <= now ∧ s'.(Sch.InFlight) = Some (opened now until ow tok w)) ∨
  (s'.(Sch.Pending) = None ∧ ∃ r, is_completion o ∧ op_result o = Some r ∧
     w.(Win.Target).(Sth.TreeSize) <= r.(Res.TreeSize)).
Proof.
  intros Hw A. change (window_after o w s').
  destruct o as [c l| | | | | | |];
    [|apply apply_effect in A as [_ E]; [by eapply effect_window|done]..].
  cbn [apply] in A. apply bind_Ok in A as ([x b] & A & [= <-]).
  apply MergeCandidate_Ok in A as [_ M].
  inversion M; simplify_eq; try (by left; exists w; split_and!). by apply mergeWindow_window.
Qed.

(** ** Progress *)

(** The time from which a claim on the schedule succeeds. *)
Definition claimable_at (s : Sch.t) : option Z :=
  match s.(Sch.InFlight), s.(Sch.Pending) with
  | Some a, _ =>
      if a.(Att.TerminalFailure) then None
      else Some (Z.max a.(Att.NextAttemptUnixN) a.(Att.LeaseUntilUnixN))
  | None, Some w => Some w.(Win.DueAtUnixN)
  | None, None => None
  end.

(** Work is never stuck: at every time at or after [claimable_at], and at no
    earlier time, a worker's claim of a valid schedule succeeds, and it hands
    out the attempt that the new schedule then holds under the worker's lease.
    A schedule cannot be claimed at any time only if it is empty or its attempt
    failed terminally. *)
Theorem claim_progress s now until ow tok :
  ValidateSchedule s = Ok tt → 0 < now → now < until → ow ≠ "" → tok ≠ "" →
  ∃ s' a b, Claim s now until ow tok = Ok (s', a, b) ∧
    (b = true ↔ ∃ t, claimable_at s = Some t ∧ t <= now) ∧
    (b = true → s'.(Sch.InFlight) = Some a ∧ a.(Att.LeaseToken) = tok ∧
       a.(Att.LeaseOwner) = ow ∧ a.(Att.LeaseUntilUnixN) = until) ∧
    (b = false → s' = s).
Proof.
  intros V Hn Hu Ho Ht. unfold Claim. rewrite V. cbn [mbind result_bind].
  replace (_ || _ || _ || _) with false; [|symmetry; by autorewrite with bprop].
  unfold claimable_at. destruct (Sch.InFlight s) as [a|] eqn:Ea.
  - destruct (Att.TerminalFailure a).
    { do 3 eexists. split; [done|]. split_and!; [|done|done]. split; [done|]. by intros (? & ? & _). }
    destruct (_ || _) eqn:E.
    + do 3 eexists. split; [done|]. split_and!; [|done|done]. split; [done|].
      intros (t & [= <-] & Hle). rewrite orb_true_iff in E. destruct E; bsimpl; lia.
    + bsimpl. do 3 eexists. split; [done|]. split_and!; [|done|done].
      split; [|done]. intros _. eexists. split; [done|]. lia.
  - destruct (Sch.Pending s) as [w|].
    2: { do 3 eexists. split; [done|]. split_and!; [|done|done]. split; [done|]. by intros (? & ? & _). }
    destruct (_ <? _) eqn:E; bsimpl.
    + do 3 eexists. split; [done|]. split_and!; [|done|done]. split; [done|].
      intros (t & [= <-] & Hle). lia.
    + do 3 eexists. split; [done|]. split_and!; [|done|done].
      split; [|done]. intros _. by eexists.
Qed.

Lemma SameTarget_eq x y : SameTarget x y = true ↔ x = y.
Proof.
  unfold SameTarget. autorewrite with bprop. split; [|by intros ->].
  destruct x as [? ? ? ? ? ? ? ? []], y as [? ? ? ? ? ? ? ? []]; cbn. intros. dex. by subst.
Qed.

(** The result that [BindAttemptResult] builds from a sink's answer is
    accepted by [Complete]: the worker that holds the lease removes its attempt
    with it, keeps the pending window, and the result names exactly the
    attempt's tree head. *)
Theorem bound_result_completes ops s a raw now r :
  len ops + 2 < two64 → sys_schedule (run ops) = Some s → s.(Sch.InFlight) = Some a → a.(Att.LeaseToken) ≠ "" →
  BindAttemptResult s.(Sch.Key) a raw now = Ok r →
  ∃ s', Complete s a.(Att.Generation) a.(Att.LeaseToken) r = Ok s' ∧
    s'.(Sch.InFlight) = None ∧ s'.(Sch.Pending) = s.(Sch.Pending) ∧
    ValidateSchedule s' = Ok tt ∧
    r.(Res.STH) = a.(Att.Target) ∧ ResultKey r =
      RKey.mk s.(Sch.Key).(SKey.NodeID) s.(Sch.Key).(SKey.LogID) s.(Sch.Key).(SKey.SinkName)
        a.(Att.Target).(Sth.TreeSize).
Proof.
  intros Hn Hs Ha Htk Hb. pose proof (run_inv ops s Hn Hs) as I.
  pose proof (iv_ok _ _ I) as Hok.
  apply ValidateSchedule_Ok in Hok as V. pose proof (so_inflight s Hok a Ha) as Hat.
  unfold BindAttemptResult in Hb. apply bind_Ok in Hb as ([] & Hv & Hb).
  apply if_Err_Ok in Hb as [M [= Er]]. rewrite Er in *. apply negb_false_iff in M.
  assert (owned s a.(Att.Generation) a.(Att.LeaseToken) = Ok a) as Ho.
  { unfold owned. rewrite V, Ha. cbn [mbind result_bind]. rewrite if_Err_Ok. split; [|done].
    autorewrite with bprop. split_and!; try done. apply Hat. }
  pose proof (ResultMatchesTarget_size _ _ M) as Hsz.
  assert (Sch.Key s = SKey.mk r.(Res.NodeID) r.(Res.LogID) r.(Res.SinkName)) as Hkey.
  { unfold ValidateResult in Hv. apply bind_Ok in Hv as ([] & _ & Hv).
    apply bind_Ok in Hv as (? & _ & Hv). rewrite !if_Err_Ok in Hv. autorewrite with bprop in Hv.
    destruct (Sch.Key s); cbn in *. destruct Hv as (_ & _ & [[-> ->] ->] & _). done. }
  assert (Complete s a.(Att.Generation) a.(Att.LeaseToken) r = reconcileCompleted s r) as EC.
  { unfold Complete. rewrite Ho. cbn [mbind result_bind]. rewrite Hv. cbn [mbind result_bind].
    by rewrite M. }
  assert (∀ w, s.(Sch.Pending) = Some w → r.(Res.TreeSize) < w.(Win.Target).(Sth.TreeSize)) as Hpw.
  { intros w Hw. rewrite Hsz. by apply (so_order s Hok w a). }
  assert (∃ s', reconcileCompleted s r = Ok s') as [s' ER].
  { unfold reconcileCompleted. rewrite Ha, <- Hsz, Z.eqb_refl, M. cbn.
    destruct (Sch.Pending s) as [w|] eqn:Ew; [|by eexists].
    specialize (Hpw w eq_refl). rewrite (proj2 (Z.leb_gt _ _)) by done. by eexists. }
  exists s'. rewrite EC. split; [done|].
  apply reconcileCompleted_Ok in ER as R. destruct R as [(_ & Hne & _)|(q & i & -> & _ & _ & Hi & Hq)].
  { by destruct (Hne a Ha). }
  rewrite (Hi ltac:(by exists a)), (Hq Hpw) in *. split_and!; [done|done| | |].
  - apply ValidateSchedule_Ok, (iv_ok (len ops + 1)), drop_inv; [done|done|by left|by right].
  - unfold ResultMatchesTarget in M. apply andb_true_iff in M as [_ M]. by apply SameTarget_eq.
  - unfold ResultKey. rewrite Hkey, Hsz. done.
Qed.

End machine.

(** ** Publication targets *)

Abbreviation sz := Sth.TreeSize.

(** What the loop of [SelectPublicationTargets] knows after the heads [pre]. *)
Record selected (cov : Z) (pre : list Sth.t) (sel : selection) : Prop := {
  sl_seen x : x ∈ pre → sel_seen sel !! sz x = Some x;
  sl_back n x : sel_seen sel !! n = Some x → x ∈ pre ∧ sz x = n;
  sl_highest : pre = [] ∧ sel_highest sel = Sth.zero ∨
    sel_highest sel ∈ pre ∧ ∀ x, x ∈ pre → sz x <= sz (sel_highest sel);
  sl_start : sel_windowStart sel = Sth.zero ∧ (∀ x, x ∈ pre → sz x <= cov) ∨
    sel_windowStart sel ∈ pre ∧ cov < sz (sel_windowStart sel) ∧
    ∀ x, x ∈ pre → cov < sz x → sz (sel_windowStart sel) <= sz x }.

Lemma selected_step cov pre sel sth seen :
  (∀ x, x ∈ pre → 0 < sz x) → 0 < sz sth → 0 <= cov → selected cov pre sel →
  match sel_seen sel !! sz sth with
  | Some existing => existing = sth ∧ seen = sel_seen sel
  | None => seen = <[sz sth := sth]> (sel_seen sel)
  end →
  selected cov (pre ++ [sth])
    (mkSelection seen
       (if (cov <? sz sth) && ((sz (sel_windowStart sel) =? 0) || (sz sth <? sz (sel_windowStart sel)))
        then sth else sel_windowStart sel)
       (if (sz (sel_highest sel) =? 0) || (sz (sel_highest sel) <? sz sth)
        then sth else sel_highest sel)).
Proof.
  intros Hpos Hsth Hcov [Hseen Hback Hhi Hst] Hnew.
  assert (∀ x, x ∈ pre ++ [sth] ↔ x ∈ pre ∨ x = sth) as Hin.
  { intros x. rewrite elem_of_app, list_elem_of_singleton. done. }
  constructor; cbn [sel_seen sel_highest sel_windowStart].
  - intros x Hx. apply Hin in Hx. destruct (sel_seen sel !! sz sth) as [y|] eqn:Ey.
    + destruct Hnew as [-> ->]. destruct Hx as [Hx| ->]; [by apply Hseen|done].
    + subst seen. destruct Hx as [Hx| ->]; [|by rewrite lookup_insert_eq].
      rewrite lookup_insert_ne; [by apply Hseen|]. intros E. by rewrite E, (Hseen x Hx) in Ey.
  - intros n x Hx. rewrite Hin. destruct (sel_seen sel !! sz sth) as [y|] eqn:Ey.
    + destruct Hnew as [-> ->]. apply Hback in Hx. naive_solver.
    + subst seen. apply lookup_insert_Some in Hx as [[<- <-]|[_ Hx]]; [by auto|].
      apply Hback in Hx. naive_solver.
  - right. destruct (_ || _) eqn:E; bsimpl.
    + split; [apply Hin; by right|]. intros x Hx. apply Hin in Hx as [Hx| ->]; [|lia].
      rewrite orb_true_iff in E. destruct Hhi as [[-> _]|[Hh Hmax]]; [by apply not_elem_of_nil in Hx|].
      specialize (Hmax x Hx). specialize (Hpos _ Hh). destruct E; bsimpl; lia.
    + destruct Hhi as [[-> Hz]|[Hh Hmax]]; [rewrite Hz in *; done|].
      split; [apply Hin; by left|]. intros x Hx. apply Hin in Hx as [Hx| ->]; [by apply Hmax|lia].
  - destruct (_ && _) eqn:E; bsimpl.
    + right. split_and!; [apply Hin; by right|lia|]. intros x Hx Hc.
      apply Hin in Hx as [Hx| ->]; [|lia]. rewrite orb_true_iff in *.
      destruct Hst as [[_ Hlow]|(Hw & Hwc & Hmin)]; [specialize (Hlow x Hx); lia|].
      specialize (Hmin x Hx Hc). specialize (Hpos _ Hw).
      match goal with H : _ ∨ _ |- _ => destruct H; bsimpl; lia end.
    + destruct Hst as [[Hz Hlow]|(Hw & Hwc & Hmin)].
      * rewrite Hz in *. cbn in E. left. split; [done|]. intros x Hx.
        apply Hin in Hx as [Hx| ->]; [by apply Hlow|].
        rewrite andb_true_r in E. bsimpl. lia.
      * right. split_and!; [apply Hin; by left|done|]. intros x Hx Hc.
        apply Hin in Hx as [Hx| ->]; [by apply Hmin|].
        rewrite (proj2 (Z.ltb_lt _ _) Hc) in E. cbn in E. bsimpl. lia.
Qed.

(** The loop returns on the heads it accepts. *)
Lemma select_loop_Ok cov pre sths sel :
  0 <= cov → (∀ x, x ∈ pre → 0 < sz x) → (∀ x, x ∈ sths → 0 <= sz x) → selected cov pre sel →
  match select_loop cov sths sel with
  | Ok sel' => selected cov (pre ++ sths) sel' ∧ (∀ x, x ∈ sths → 0 < sz x)
  | Err e => (∃ x, x ∈ sths ∧ sz x = 0) ∨
      ∃ x y, x ∈ pre ++ sths ∧ y ∈ pre ++ sths ∧ sz x = sz y ∧ x ≠ y
  end.
Proof.
  intros Hcov. revert pre sel. induction sths as [|sth sths IH]; intros pre sel Hpos Hge Hsel.
  - cbn. rewrite app_nil_r. split; [done|]. intros x Hx. by apply not_elem_of_nil in Hx.
  - cbn [select_loop]. assert (0 <= sz sth) by (apply Hge; left).
    destruct (sz sth =? 0) eqn:E0; bsimpl; [left; exists sth; split; [left|done]|].
    assert (∀ seen, match sel_seen sel !! sz sth with
      | Some existing => existing = sth ∧ seen = sel_seen sel
      | None => seen = <[sz sth := sth]> (sel_seen sel) end →
      match select_loop cov sths (mkSelection seen
        (if (cov <? sz sth) && ((sz (sel_windowStart sel) =? 0) || (sz sth <? sz (sel_windowStart sel)))
         then sth else sel_windowStart sel)
        (if (sz (sel_highest sel) =? 0) || (sz (sel_highest sel) <? sz sth)
         then sth else sel_highest sel)) with
      | Ok sel' => selected cov (pre ++ sth :: sths) sel' ∧ (∀ x, x ∈ sth :: sths → 0 < sz x)
      | Err e => (∃ x, x ∈ sth :: sths ∧ sz x = 0) ∨
          ∃ x y, x ∈ pre ++ sth :: sths ∧ y ∈ pre ++ sth :: sths ∧ sz x = sz y ∧ x ≠ y
      end) as Hnext.
    { intros seen Hseen.
      assert (selected cov (pre ++ [sth]) _) as Hsel' by (apply selected_step; [done|lia|done|done|exact Hseen]).
      apply IH in Hsel'.
      - destruct (select_loop _ _ _) as [sel'|e].
        + rewrite <- app_assoc in Hsel'. destruct Hsel' as [? Hp]. split; [done|].
          intros x Hx. apply elem_of_cons in Hx as [-> |Hx]; [lia|by apply Hp].
        + rewrite <- app_assoc in Hsel'. destruct Hsel' as [(x & ? & ?)|?]; [|by right].
          left. exists x. split; [by right|done].
      - intros x Hx. apply elem_of_app in Hx as [Hx|Hx]; [by apply Hpos|].
        apply list_elem_of_singleton in Hx as ->. lia.
      - intros x Hx. apply Hge. by right. }
    destruct (sel_seen sel !! sz sth) as [y|] eqn:Ey; [|by apply Hnext].
    destruct (SameTarget y sth) eqn:Es; cbn [negb].
    + apply SameTarget_eq in Es. by apply Hnext.
    + right. apply (sl_back _ _ _ Hsel) in Ey as [Hy Hsz]. exists y, sth.
      split_and!; [apply elem_of_app; by left|apply elem_of_app; right; left|done|].
      intros ->. assert (SameTarget sth sth = true) by by apply SameTarget_eq. congruence.
Qed.

Lemma selected_nil cov : selected cov [] (mkSelection ∅ Sth.zero Sth.zero).
Proof.
  constructor; cbn; [intros x Hx; by apply not_elem_of_nil in Hx|done|by left|].
  left. split; [done|]. intros x Hx. by apply not_elem_of_nil in Hx.
Qed.

(** [SelectPublicationTargets] on a batch of heads, in any order and with
    repetitions, returns the highest head, which covers all of them, and the
    lowest head not yet covered, which opens the window (the highest head when
    everything is covered).  It fails exactly when the batch is empty, a head
    has no tree size, or two heads of one size differ. *)
Theorem select_publication_targets_spec sths cov :
  (∀ x, x ∈ sths → in_u64 (sz x)) → in_u64 cov →
  match SelectPublicationTargets sths cov with
  | Ok (w, h) =>
      h ∈ sths ∧ (∀ x, x ∈ sths → sz x <= sz h) ∧ w ∈ sths ∧
      (if bool_decide (cov < sz h)
       then cov < sz w ∧ ∀ x, x ∈ sths → cov < sz x → sz w <= sz x
       else w = h) ∧
      (∀ x y, x ∈ sths → y ∈ sths → sz x = sz y → x = y)
  | Err _ =>
      sths = [] ∨ (∃ x, x ∈ sths ∧ sz x = 0) ∨
      ∃ x y, x ∈ sths ∧ y ∈ sths ∧ sz x = sz y ∧ x ≠ y
  end.
Proof.
  intros Hu [Hc _]. unfold SelectPublicationTargets.
  destruct sths as [|s0 sths']; [by left|]. change (len (s0 :: sths') =? 0) with false.
  cbv iota. set (sths := s0 :: sths') in *.
  pose proof (select_loop_Ok cov [] sths (mkSelection ∅ Sth.zero Sth.zero) Hc) as Hl.
  destruct (select_loop _ _ _) as [sel|e]; cbn [mbind result_bind].
  - destruct Hl as [[Hseen Hback Hhi Hst] Hpos];
      [intros x Hx; by apply not_elem_of_nil in Hx|intros x Hx; apply Hu, Hx|apply selected_nil|].
    cbn [app] in *. destruct Hhi as [[? _]|[Hh Hmax]]; [done|].
    assert (∀ x y, x ∈ sths → y ∈ sths → sz x = sz y → x = y) as Hinj.
    { intros x y Hx Hy E. apply Hseen in Hx, Hy. rewrite E in Hx. congruence. }
    destruct Hst as [[Hz Hlow]|(Hw & Hwc & Hmin)].
    + rewrite Hz. cbn [Sth.zero sz]. change (0 =? 0) with true. cbv iota.
      rewrite bool_decide_eq_false_2; [by split_and!|]. specialize (Hlow _ Hh). lia.
    + specialize (Hpos _ Hw). rewrite (proj2 (Z.eqb_neq _ 0)) by lia.
      rewrite bool_decide_eq_true_2; [by split_and!|]. specialize (Hmax _ Hw). lia.
  - right. apply Hl; [intros x Hx; by apply not_elem_of_nil in Hx|intros x Hx; apply Hu, Hx
      |apply selected_nil].
Qed.

End anchorschedule_proofs.

(** * The order of anchor result keys

    [CompareResultKeys] orders keys by tree size and then by the base64 text of
    the stream identity, as the key-value stores do.  The text determines the
    identity, so that the order is total on keys. *)

Module anchorkeys.
Import anchorschedule.

(** ** Strings under Go's byte order *)

Lemma string_compare_OT a b : String.compare a b = String_as_OT.compare a b.
Proof.
  revert b. by induction a as [|x a IH]; intros [|y b].
Qed.

Lemma string_ltb_trans a b c :
  String.ltb a b = true → String.ltb b c = true → String.ltb a c = true.
Proof.
  assert (∀ x y, String.ltb x y = true ↔ String_as_OT.lt x y) as Hlt.
  { intros x y. unfold String.ltb, String_as_OT.lt. pose proof (string_compare_OT x y) as E.
    by destruct (String.compare x y), (String_as_OT.compare x y). }
  rewrite !Hlt. apply StrictOrder_Transitive.
Qed.

(** Exactly one of less, equal and greater. *)
Lemma string_trichotomy a b :
  (String.ltb a b = true ∧ String.ltb b a = false ∧ a ≠ b) ∨
  (String.ltb a b = false ∧ String.ltb b a = false ∧ a = b) ∨
  (String.ltb a b = false ∧ String.ltb b a = true ∧ a ≠ b).
Proof.
  pose proof (String.compare_antisym a b) as Hs. pose proof (String.compare_eq_iff a b) as Heq.
  unfold String.ltb. rewrite Hs in *.
  assert (a = b → String.compare b a = Eq) as Heq'.
  { intros ->. revert Hs. by destruct (String.compare b b). }
  destruct (String.compare b a); cbn in *.
  - right. left. split_and!; [done|done|]. by apply Heq.
  - right. right. split_and!; [done|done|]. intros E. by specialize (Heq' E).
  - left. split_and!; [done|done|]. intros E. by specialize (Heq' E).
Qed.

(** ** The base64 text determines the bytes *)

Lemma base64_char_inj i j :
  0 <= i < 64 → 0 <= j < 64 → base64_char i = base64_char j → i = j.
Proof.
  intros Hi Hj.
  assert (∀ i j : nat, (i < 64)%nat → (j < 64)%nat →
    base64_char (Z.of_nat i) = base64_char (Z.of_nat j) → i = j) as Hnat.
  { assert (forallb (λ i, forallb (λ j, implb (Ascii.eqb (base64_char (Z.of_nat i))
      (base64_char (Z.of_nat j))) (Nat.eqb i j)) (seq 0 64)) (seq 0 64) = true) as Hall
      by (vm_compute; reflexivity).
    intros x y Hx Hy E. rewrite forallb_forall in Hall.
    specialize (Hall x ltac:(apply in_seq; lia)). rewrite forallb_forall in Hall.
    specialize (Hall y ltac:(apply in_seq; lia)). rewrite E, Ascii.eqb_refl in Hall.
    by apply Nat.eqb_eq. }
  intros E. specialize (Hnat (Z.to_nat i) (Z.to_nat j)). rewrite !Z2Nat.id in Hnat by lia.
  specialize (Hnat ltac:(lia) ltac:(lia) E). lia.
Qed.

(** No character of the alphabet is the separator. *)
Lemma base64_char_slash i : 0 <= i < 64 → base64_char i ≠ "/"%char.
Proof.
  intros Hi.
  assert (forallb (λ i, negb (Ascii.eqb (base64_char (Z.of_nat i)) "/"%char)) (seq 0 64) = true)
    as Hall by (vm_compute; reflexivity).
  rewrite forallb_forall in Hall. specialize (Hall (Z.to_nat i) ltac:(apply in_seq; lia)).
  rewrite Z2Nat.id in Hall by lia. intros E. by rewrite E in Hall.
Qed.

Lemma land63 z : Z.land z 63 = z mod 64.
Proof. change 63 with (Z.ones 6). rewrite Z.land_ones by lia. done. Qed.

(** The three-byte group as a number. *)
Lemma group_value a b c :
  0 <= a < 256 → 0 <= b < 256 → 0 <= c < 256 →
  Z.lor (Z.lor (Z.shiftl a 16) (Z.shiftl b 8)) c = a * 65536 + b * 256 + c.
Proof.
  intros Ha Hb Hc.
  assert (∀ x y k, 0 <= k → 0 <= y < 2 ^ k → Z.lor (Z.shiftl x k) y = x * 2 ^ k + y) as Hlor.
  { intros x y k Hk Hy. rewrite <- (Z.shiftl_mul_pow2 x k) by done.
    pose proof (Z.add_lor_land (Z.shiftl x k) y) as Hs.
    assert (Z.land (Z.shiftl x k) y = 0) as Hl; [|lia].
    apply Z.bits_inj'. intros n Hn. rewrite Z.land_spec, Z.bits_0.
    destruct (decide (n < k)); [by rewrite Z.shiftl_spec_low|].
    destruct (decide (y = 0)) as [-> |]; [by rewrite Z.bits_0, andb_false_r|].
    rewrite (Z.bits_above_log2 y); [apply andb_false_r|lia|].
    assert (Z.log2 y < k) by (apply Z.log2_lt_pow2; lia). lia. }
  rewrite <- Z.lor_assoc. rewrite (Hlor b c 8) by lia. rewrite (Hlor a _ 16) by lia. lia.
Qed.

Lemma sextet_range z : 0 <= Z.land z 63 < 64.
Proof. rewrite land63. apply Z.mod_pos_bound. lia. Qed.

#[local] Hint Resolve sextet_range : trustdb.

Lemma group_value2 a b :
  0 <= a < 256 → 0 <= b < 256 → Z.lor (Z.shiftl a 16) (Z.shiftl b 8) = a * 65536 + b * 256.
Proof. intros Ha Hb. pose proof (group_value a b 0 Ha Hb ltac:(lia)) as E. rewrite Z.lor_0_r in E. lia. Qed.

(** Equal sextets of two groups give equal groups. *)
Lemma sextets_inj v w :
  0 <= v < 2 ^ 24 → 0 <= w < 2 ^ 24 →
  Z.land (Z.shiftr v 18) 63 = Z.land (Z.shiftr w 18) 63 →
  Z.land (Z.shiftr v 12) 63 = Z.land (Z.shiftr w 12) 63 →
  Z.land (Z.shiftr v 6) 63 = Z.land (Z.shiftr w 6) 63 →
  Z.land v 63 = Z.land w 63 → v = w.
Proof.
  rewrite !land63, !Z.shiftr_div_pow2 by lia. change (2 ^ 24) with 16777216.
  change (2 ^ 18) with 262144. change (2 ^ 12) with 4096. change (2 ^ 6) with 64.
  intros Hv Hw E1 E2 E3 E4.
  assert (∀ z, 0 <= z < 16777216 →
    z = (z / 262144) mod 64 * 262144 + (z / 4096) mod 64 * 4096 + (z / 64) mod 64 * 64 + z mod 64)
    as Hz.
  { intros z Hz. change 262144 with (64 * 64 * 64) at 1. change 4096 with (64 * 64) at 1.
    rewrite <- !Z.div_div by lia. generalize (Z.div_mod z 64 ltac:(lia)).
    generalize (Z.div_mod (z / 64) 64 ltac:(lia)) (Z.div_mod (z / 64 / 64) 64 ltac:(lia)).
    assert (z / 64 / 64 / 64 < 64) by (repeat (apply Z.div_lt_upper_bound; [lia|]); lia).
    assert (0 <= z / 64 / 64 / 64) by (repeat apply Z.div_pos; lia).
    rewrite (Z.mod_small (z / 64 / 64 / 64)) by lia. lia. }
  rewrite (Hz v Hv), (Hz w Hw). lia.
Qed.

Lemma base64_encode_inj x y : base64_encode x = base64_encode y → x = y.
Proof.
  revert y. induction x as [x IH] using (induction_ltof1 _ (@length byte)). unfold ltof in IH.
  intros y E.
  destruct x as [|a [|b [|c x]]], y as [|a' [|b' [|c' y]]]; try done; cbn [base64_encode] in E;
    try discriminate E; injection E as E;
    repeat match goal with H : base64_char _ = base64_char _ |- _ =>
      apply base64_char_inj in H; [|apply sextet_range..] end;
    pose proof (Z_of_byte_range a); pose proof (Z_of_byte_range a').
  - assert (Z.shiftl (Z_of_byte a) 16 = Z.shiftl (Z_of_byte a') 16) as Ev.
    { rewrite !Z.shiftl_mul_pow2 in * by lia. change (2 ^ 16) with 65536 in *.
      apply sextets_inj; try done; try (change (2 ^ 24) with 16777216; lia).
      - change 65536 with (1024 * 2 ^ 6). rewrite !land63, !Z.shiftr_div_pow2, !Z.mul_assoc by lia.
        rewrite !Z.div_mul by done. change 1024 with (16 * 64). rewrite !Z.mul_assoc.
        by rewrite !Z.mod_mul.
      - change 65536 with (1024 * 64). rewrite !land63, !Z.mul_assoc. by rewrite !Z.mod_mul. }
    rewrite !Z.shiftl_mul_pow2 in Ev by lia. f_equal. apply Z_of_byte_inj. lia.
  - pose proof (Z_of_byte_range b). pose proof (Z_of_byte_range b').
    rewrite !group_value2 in * by done.
    assert (Z_of_byte a * 65536 + Z_of_byte b * 256 = Z_of_byte a' * 65536 + Z_of_byte b' * 256) as Ev.
    { apply sextets_inj; try done; try (change (2 ^ 24) with 16777216; lia).
      assert (∀ x y, (x * 65536 + y * 256) mod 64 = 0) as E0.
      { intros x y. replace (x * 65536 + y * 256) with ((x * 1024 + y * 4) * 64) by lia.
        by apply Z.mod_mul. }
      by rewrite !land63, !E0. }
    f_equal; [apply Z_of_byte_inj; lia|]. f_equal. apply Z_of_byte_inj. lia.
  - pose proof (Z_of_byte_range b). pose proof (Z_of_byte_range b').
    pose proof (Z_of_byte_range c). pose proof (Z_of_byte_range c').
    rewrite !group_value in * by done.
    assert (Z_of_byte a * 65536 + Z_of_byte b * 256 + Z_of_byte c
      = Z_of_byte a' * 65536 + Z_of_byte b' * 256 + Z_of_byte c') as Ev.
    { apply sextets_inj; try done; change (2 ^ 24) with 16777216; lia. }
    rewrite (Z_of_byte_inj a a'), (Z_of_byte_inj b b'), (Z_of_byte_inj c c') by lia.
    do 3 f_equal. apply IH; [cbn; lia|done].
Qed.

(** ** The identity text determines the key *)

Fixpoint no_slash (s : string) : Prop :=
  match s with EmptyString => True | String c r => c ≠ "/"%char ∧ no_slash r end.

Lemma base64_encode_no_slash x : no_slash (base64_encode x).
Proof.
  induction x as [x IH] using (induction_ltof1 _ (@length byte)). unfold ltof in IH.
  destruct x as [|a [|b [|c x]]]; cbn [base64_encode no_slash];
    repeat split; try (apply base64_char_slash, sextet_range).
  apply IH. cbn. lia.
Qed.

Lemma split_slash a b x y :
  no_slash a → no_slash b → (a +:+ String "/" x = b +:+ String "/" y)%string → a = b ∧ x = y.
Proof.
  revert b. induction a as [|c a IH]; intros [|d b] Ha Hb E; cbn in *.
  - by injection E.
  - injection E as <- _. by destruct Hb.
  - injection E as -> _. by destruct Ha.
  - injection E as -> E. destruct Ha as [_ Ha], Hb as [_ Hb]. by destruct (IH b Ha Hb E) as [-> ->].
Qed.

Lemma identity_inj l r :
  resultKeyOrderIdentity l = resultKeyOrderIdentity r → ScheduleKey l = ScheduleKey r.
Proof.
  unfold resultKeyOrderIdentity, RawURLEncoding_EncodeToString, ScheduleKey. cbn [String.concat].
  intros E. apply split_slash in E as [E1 E]; [|apply base64_encode_no_slash..].
  apply split_slash in E as [E2 E3]; [|apply base64_encode_no_slash..].
  apply base64_encode_inj, bytes_of_string_inj in E1, E2, E3. by rewrite E1, E2, E3.
Qed.

Lemma SameResultKey_eq l r : SameResultKey l r = true ↔ l = r.
Proof.
  unfold SameResultKey, SameKey, ScheduleKey. autorewrite with bprop.
  destruct l, r; cbn. naive_solver.
Qed.

(** The laws of the order. *)
Lemma compare_laws l m r :
  (CompareResultKeys l r = 0 ↔ l = r) ∧
  (SameResultKey l r = true ↔ CompareResultKeys l r = 0) ∧
  CompareResultKeys r l = - CompareResultKeys l r ∧
  (CompareResultKeys l m = -1 → CompareResultKeys m r = -1 → CompareResultKeys l r = -1) ∧
  (l.(RKey.TreeSize) < r.(RKey.TreeSize) → CompareResultKeys l r = -1).
Proof.
  assert (CompareResultKeys l r = 0 ↔ l = r) as H0.
  { unfold CompareResultKeys. split.
    - destruct (_ <? _) eqn:E1; [done|]. destruct (_ <? _) eqn:E2 in |- *; [done|]. bsimpl.
      destruct (string_trichotomy (resultKeyOrderIdentity l) (resultKeyOrderIdentity r))
        as [(-> & _)|[(-> & -> & E)|(-> & -> & _)]]; try done. intros _.
      apply identity_inj in E. unfold ScheduleKey in E. destruct l, r; cbn in *.
      injection E as -> -> ->. f_equal. lia.
    - intros ->. rewrite Z.ltb_irrefl. unfold String.ltb.
      destruct (string_trichotomy (resultKeyOrderIdentity r) (resultKeyOrderIdentity r))
        as [(_ & _ & E)|[(E1 & _)|(_ & _ & E)]]; [done| |done].
      unfold String.ltb in E1. by rewrite E1. }
  split_and!; [done|by rewrite H0, SameResultKey_eq|..]; unfold CompareResultKeys.
  - destruct (Z.lt_trichotomy (RKey.TreeSize l) (RKey.TreeSize r)) as [E|[E|E]].
    + rewrite (proj2 (Z.ltb_lt _ _) E), (proj2 (Z.ltb_ge _ _)) by lia. done.
    + rewrite E, Z.ltb_irrefl.
      destruct (string_trichotomy (resultKeyOrderIdentity l) (resultKeyOrderIdentity r))
        as [(-> & -> & _)|[(-> & -> & _)|(-> & -> & _)]]; done.
    + rewrite (proj2 (Z.ltb_lt _ _) E), (proj2 (Z.ltb_ge (RKey.TreeSize l) _)) by lia. done.
  - destruct (_ <? _) eqn:E1; bsimpl.
    + intros _. destruct (RKey.TreeSize m <? RKey.TreeSize r) eqn:E2; bsimpl.
      * rewrite (proj2 (Z.ltb_lt (RKey.TreeSize l) (RKey.TreeSize r))) by lia. done.
      * destruct (_ <? _) eqn:E3 in |- *; [done|]. bsimpl.
        rewrite (proj2 (Z.ltb_lt (RKey.TreeSize l) (RKey.TreeSize r))) by lia. done.
    + destruct (RKey.TreeSize m <? RKey.TreeSize l) eqn:E2; [done|]. bsimpl.
      assert (RKey.TreeSize l = RKey.TreeSize m) as Elm by lia. rewrite Elm.
      destruct (String.ltb (resultKeyOrderIdentity l) (resultKeyOrderIdentity m)) eqn:E3.
      2: { destruct (String.ltb (resultKeyOrderIdentity m) (resultKeyOrderIdentity l)); discriminate. }
      destruct (RKey.TreeSize m <? RKey.TreeSize r); [done|].
      destruct (RKey.TreeSize r <? RKey.TreeSize m); [discriminate|].
      destruct (String.ltb (resultKeyOrderIdentity m) (resultKeyOrderIdentity r)) eqn:E6.
      2: { destruct (String.ltb (resultKeyOrderIdentity r) (resultKeyOrderIdentity m)); discriminate. }
      by rewrite (string_ltb_trans _ _ _ E3 E6).
  - intros E. by rewrite (proj2 (Z.ltb_lt _ _) E).
Qed.

Lemma compare_refl k : CompareResultKeys k k = 0.
Proof. destruct (compare_laws k k k) as [E _]. by apply E. Qed.

Lemma compare_values l r :
  CompareResultKeys l r = -1 ∨ CompareResultKeys l r = 0 ∨ CompareResultKeys l r = 1.
Proof. unfold CompareResultKeys. repeat case_match; auto. Qed.

Lemma compare_sym l r : CompareResultKeys r l = - CompareResultKeys l r.
Proof. apply (compare_laws l l r). Qed.

Lemma compare_le_trans l m r :
  CompareResultKeys l m <= 0 → CompareResultKeys m r <= 0 → CompareResultKeys l r <= 0.
Proof.
  destruct (compare_laws l m r) as (_ & _ & _ & Ht & _).
  destruct (compare_laws l l m) as [H1 _], (compare_laws m m r) as [H2 _].
  destruct (compare_values l m) as [E|[E|E]]; [|apply H1 in E as ->; done|lia].
  destruct (compare_values m r) as [E'|[E'|E']]; [|apply H2 in E' as <-; lia|lia].
  rewrite (Ht E E'). lia.
Qed.

Lemma compare_le_antisym l r : CompareResultKeys l r <= 0 → CompareResultKeys r l <= 0 → l = r.
Proof. intros ? ?. destruct (compare_laws l l r) as (E & _ & ? & _). apply E. lia. Qed.

Lemma compare_size l r : CompareResultKeys l r <= 0 → l.(RKey.TreeSize) <= r.(RKey.TreeSize).
Proof.
  intros Hc. destruct (Z.lt_ge_cases r.(RKey.TreeSize) l.(RKey.TreeSize)) as [E|]; [|done].
  destruct (compare_laws r r l) as (_ & _ & Hs & _ & Hlt).
  specialize (Hlt E). lia.
Qed.

(** [CompareResultKeys] is a total order of the result keys: it returns 0
    for equal keys only (two sinks at one tree size are never confused),
    exchanging the keys negates it, and it is transitive; smaller tree sizes
    come first, so that the greatest key names the latest tree. *)
Theorem compare_result_keys_order l m r :
  (CompareResultKeys l r = 0 ↔ l = r) ∧
  (SameResultKey l r = true ↔ CompareResultKeys l r = 0) ∧
  CompareResultKeys r l = - CompareResultKeys l r ∧
  (CompareResultKeys l m = -1 → CompareResultKeys m r = -1 → CompareResultKeys l r = -1) ∧
  (l.(RKey.TreeSize) < r.(RKey.TreeSize) → CompareResultKeys l r = -1).
Proof. apply compare_laws. Qed.

End anchorkeys.
