(* ===== verification/AnchorExamples.v ===== *)
(** * Anchor scheduling: a concrete history

    A schedule that merges two heads, is claimed, retried, checkpointed and
    completed, on which the theorems of [AnchorScheduleProofs.v] are
    evaluated. *)

From S2P Require Import Prelude TrustErr CryptoSuite Model AnchorSchedule AnchorScheduleProofs.

Module anchor_examples.
Import anchorschedule anchorschedule_proofs.

(** No FISCO BCOS evidence occurs in the example. *)
#[local] Instance ex_fisco : FiscoLib := {
  fiscobcos_ValidateProofContainer _ _ := Err (ErrorsNew "no container") }.

Definition ex_key : SKey.t := SKey.mk "node-1" "log-1" "ots".
Definition ex_sth (n : Z) : Sth.t :=
  Sth.mk SchemaSignedTreeHead cryptosuite.INTLV1 cryptosuite.MerkleRFC6962SHA256 n
    (replicate 32 (byte_of_Z n)) (1000 + n) "node-1" "log-1"
    (Signature.mk cryptosuite.SignatureEd25519 "key-1" [Byte.x01]).
Definition ex_cand (n t : Z) : Cand.t := Cand.mk ex_key (ex_sth n) t (t + 60).

(** Heads 4 and 7 share a window; head 9 arrives while 7 is in flight. *)
Definition ex_ops1 : list op :=
  [OpMerge (ex_cand 4 100) None; OpMerge (ex_cand 7 110) None; OpClaim 170 200 "w1" "t1"].
Definition ex_ops2 : list op :=
  [OpMerge (ex_cand 9 180) None;
   OpCompareAndSwap 1 "t1" 181 [] [Byte.x05];
   OpReschedule 1 "t1" 1 300 "timeout"; OpClaim 250 260 "w2" "t2"; OpClaim 310 330 "w2" "t2";
   OpRestore; OpClaim 311 340 "w3" "t3"].

Definition get (st : sys) : Sch.t := default Sch.zero (sys_schedule st).
Definition att (s : Sch.t) : Att.t := default Att.zero s.(Sch.InFlight).
Definition ex_s1 : Sch.t := get (run ex_ops1).
Definition ex_s2 : Sch.t := get (run (ex_ops1 ++ ex_ops2)).

(** The attempt kept the target 7 and the checkpoint over the retry, the lease
    takeover and the restore. *)
Example ex_state :
  (att ex_s2).(Att.Target) = ex_sth 7 ∧ (att ex_s2).(Att.ProviderState) = Some [Byte.x05] ∧
  (att ex_s2).(Att.LeaseOwner) = "w3" ∧
  option_map Win.Target ex_s2.(Sch.Pending) = Some (ex_sth 9) ∧ ex_s2.(Sch.Revision) = 9.
Proof. vm_compute. repeat split. Qed.

Lemma reachable_schedules_valid_witness :
  ValidateSchedule ex_s2 = Ok tt ∧ ex_s2.(Sch.Revision) <= 10 ∧
  Forall (λ t, t.(Sth.CryptoSuite) = ex_s2.(Sch.CryptoSuite)) (scheduleTargets ex_s2) ∧
  ∃ s', ClearLeaseForRestore ex_s2 = Ok s' ∧ ValidateSchedule s' = Ok tt.
Proof.
  apply (reachable_schedules_valid (ex_ops1 ++ ex_ops2)); [done|vm_compute; reflexivity].
Defined.

Lemma inflight_immutable_witness :
  ∃ s', apply OpRestore (Some ex_s2) = Ok s' ∧ (att s').(Att.Target) = ex_sth 7.
Proof.
  destruct (apply OpRestore (Some ex_s2)) as [s'|] eqn:E; [|vm_compute in E; discriminate E].
  exists s'. split; [reflexivity|].
  destruct (inflight_immutable OpRestore ex_s2 s' (att ex_s2) ltac:(vm_compute; reflexivity) E)
    as [(a' & Ha & _ & Ht & _)|(_ & r & [] & _)].
  unfold att at 1. rewrite Ha. cbn. rewrite Ht. vm_compute. reflexivity.
Defined.

Lemma generation_identifies_target_witness : (att ex_s1).(Att.Target) = (att ex_s2).(Att.Target).
Proof.
  apply (generation_identifies_target ex_ops1 ex_ops2 ex_s1 ex_s2);
    [done|vm_compute; reflexivity..].
Defined.

Lemma lease_exclusive_witness :
  ∃ s', sys_schedule (foldl exec (run ex_ops1)
          [OpMerge (ex_cand 9 180) None; OpClaim 199 400 "w2" "t2"; OpFail 1 "t2" 1 "stolen"])
        = Some s' ∧ holds "t1" 200 (att ex_s1) s'.
Proof.
  apply (lease_exclusive "t1" 200 (att ex_s1) ex_s1
    [OpMerge (ex_cand 9 180) None; OpClaim 199 400 "w2" "t2"; OpFail 1 "t2" 1 "stolen"]
    (run ex_ops1)).
  - vm_compute. reflexivity.
  - split; [vm_compute; reflexivity|]. split; vm_compute; reflexivity.
  - repeat (constructor; [cbn; lia || discriminate|]). constructor.
  - reflexivity.
Defined.

Lemma no_candidate_lost_witness :
  covered 7 (run ([OpMerge (ex_cand 4 100) None] ++ OpMerge (ex_cand 7 110) None :: ex_ops2)).
Proof.
  destruct (MergeCandidate (sys_schedule (run [OpMerge (ex_cand 4 100) None])) (ex_cand 7 110) None)
    as [[s b]|] eqn:E; [|vm_compute in E; discriminate E].
  exact (no_candidate_lost [OpMerge (ex_cand 4 100) None] (ex_cand 7 110) None ex_ops2 s b E).
Defined.

Lemma window_non_sliding_witness :
  ∃ s' w', apply (OpMerge (ex_cand 12 400) None) (Some ex_s2) = Ok s' ∧
    s'.(Sch.Pending) = Some w' ∧ w'.(Win.DueAtUnixN) = 240.
Proof.
  destruct (apply (OpMerge (ex_cand 12 400) None) (Some ex_s2)) as [s'|] eqn:E;
    [|vm_compute in E; discriminate E].
  destruct (window_non_sliding (OpMerge (ex_cand 12 400) None) ex_s2 s'
    (default Win.zero ex_s2.(Sch.Pending)) ltac:(vm_compute; reflexivity) E)
    as [(w' & Hw & _ & _ & Hd & _)|[(_ & now & until & ow & tok & Ho & _)|(_ & r & [] & _)]];
    [|discriminate Ho].
  exists s', w'. split; [reflexivity|]. split; [exact Hw|]. rewrite Hd. vm_compute. reflexivity.
Defined.

Lemma claim_progress_witness :
  ∃ s' a b, Claim ex_s2 340 400 "w4" "t4" = Ok (s', a, b) ∧
    (b = true ↔ ∃ t, claimable_at ex_s2 = Some t ∧ t <= 340) ∧
    (b = true → s'.(Sch.InFlight) = Some a ∧ a.(Att.LeaseToken) = "t4" ∧
       a.(Att.LeaseOwner) = "w4" ∧ a.(Att.LeaseUntilUnixN) = 400) ∧
    (b = false → s' = ex_s2).
Proof.
  apply (claim_progress ex_s2 340 400 "w4" "t4"); [vm_compute; reflexivity|lia|lia|done|done].
Defined.

(** The sink reports only its own identifier and proof. *)
Definition ex_raw : Res.t :=
  Res.mk "" "" "" "" 0 "" "ots:7" [] Sth.zero [Byte.x0a] AnchorEvidenceStageLocalOnly 0.
Definition ex_bound : TrustErr.result Res.t := BindAttemptResult ex_key (att ex_s2) ex_raw 350.

Lemma bound_result_completes_witness :
  ∃ r s', ex_bound = Ok r ∧ Complete ex_s2 1 "t3" r = Ok s' ∧ s'.(Sch.InFlight) = None ∧
    s'.(Sch.Pending) = ex_s2.(Sch.Pending) ∧ r.(Res.STH) = ex_sth 7.
Proof.
  destruct ex_bound as [r|] eqn:E; [|vm_compute in E; discriminate E].
  destruct (bound_result_completes (ex_ops1 ++ ex_ops2) ex_s2 (att ex_s2) ex_raw 350 r ltac:(done)
    ltac:(vm_compute; reflexivity) ltac:(vm_compute; reflexivity) ltac:(vm_compute; discriminate) E)
    as (s' & Hc & Hi & Hp & _ & Ht & _).
  exists r, s'. split; [reflexivity|]. split; [exact Hc|]. split; [exact Hi|]. split; [exact Hp|].
  rewrite Ht. vm_compute. reflexivity.
Defined.

Lemma select_publication_targets_spec_witness :
  SelectPublicationTargets [ex_sth 7; ex_sth 4; ex_sth 9; ex_sth 7] 4 = Ok (ex_sth 7, ex_sth 9) ∧
  ∀ x, x ∈ [ex_sth 7; ex_sth 4; ex_sth 9; ex_sth 7] → sz x <= sz (ex_sth 9).
Proof.
  assert (SelectPublicationTargets [ex_sth 7; ex_sth 4; ex_sth 9; ex_sth 7] 4
    = Ok (ex_sth 7, ex_sth 9)) as E by (vm_compute; reflexivity).
  pose proof (select_publication_targets_spec [ex_sth 7; ex_sth 4; ex_sth 9; ex_sth 7] 4) as Hspec.
  rewrite E in Hspec. split; [exact E|]. apply Hspec; [|done].
  intros x Hx. repeat (apply elem_of_cons in Hx as [-> |Hx]; [done|]). by apply not_elem_of_nil in Hx.
Defined.

End anchor_examples.
