(* ===== verification/L5Coverage.v ===== *)
(** * L5 coverage

    Models [src/internal/l5coverage/checkpoint.go]: the monotone checkpoint of
    the largest tree size covered by a verified external anchor. *)

From S2P Require Import Prelude TrustErr CryptoSuite Model AnchorSchedule.

Module l5coverage.

Module Cp := L5CoverageCheckpoint.

Definition ValidateCheckpoint (checkpoint : Cp.t) : result unit :=
  if negb (seqb checkpoint.(Cp.SchemaVersion) SchemaL5Coverage)
  then Err (New CodeDataLoss "unsupported L5 coverage checkpoint schema") else
  _ ← wrap_err CodeDataLoss "invalid L5 coverage crypto_suite"
        (cryptosuite.RequireAvailable checkpoint.(Cp.CryptoSuite));
  _ ← wrap_err CodeDataLoss "invalid L5 coverage checkpoint key"
        (anchorschedule.ValidateKey checkpoint.(Cp.Key));
  if checkpoint.(Cp.CoveredTreeSize) =? 0
  then Err (New CodeDataLoss "L5 coverage checkpoint tree size is required") else
  if checkpoint.(Cp.Revision) =? 0
  then Err (New CodeDataLoss "L5 coverage checkpoint revision is required") else
  if checkpoint.(Cp.UpdatedAtUnixN) <? 0
  then Err (New CodeDataLoss "L5 coverage checkpoint update time is invalid")
  else Ok tt.

(** [found = false] is [current = None]. *)
Definition Advance (current : option Cp.t) (suiteID : cryptosuite.ID) (key : SKey.t)
    (coveredTreeSize updatedAtUnixN : Z) : result (Cp.t * bool) :=
  _ ← cryptosuite.RequireAvailable suiteID;
  _ ← anchorschedule.ValidateKey key;
  if coveredTreeSize =? 0
  then Err (New CodeInvalidArgument "covered_tree_size is required") else
  if updatedAtUnixN <? 0
  then Err (New CodeInvalidArgument "updated_at_unix_nano must be non-negative") else
  let next revision :=
    Cp.mk SchemaL5Coverage suiteID key coveredTreeSize revision updatedAtUnixN in
  match current with
  | Some current =>
      _ ← ValidateCheckpoint current;
      if negb (anchorschedule.SameKey current.(Cp.Key) key)
      then Err (New CodeDataLoss "L5 coverage checkpoint key mismatch") else
      _ ← wrap_err CodeDataLoss "L5 coverage crypto_suite"
            (cryptosuite.RequireSame suiteID [current.(Cp.CryptoSuite)]);
      if coveredTreeSize <=? current.(Cp.CoveredTreeSize) then Ok (current, false) else
      if current.(Cp.Revision) =? two64 - 1
      then Err (New CodeDataLoss "L5 coverage checkpoint revision overflow")
      else Ok (next (u64 (current.(Cp.Revision) + 1)), true)
  | None => Ok (next 1, true)
  end.

(** ** The projection is the running maximum *)

(** The checkpoint after a sequence of observed sizes, each with its time; the
    store keeps the old checkpoint when [Advance] fails or changes nothing. *)
Fixpoint advance_all (current : option Cp.t) (suiteID : cryptosuite.ID) (key : SKey.t)
    (obs : list (Z * Z)) : option Cp.t :=
  match obs with
  | [] => current
  | (n, t) :: rest =>
      match Advance current suiteID key n t with
      | Ok (next, _) => advance_all (Some next) suiteID key rest
      | Err _ => advance_all current suiteID key rest
      end
  end.

Section advance.
Context (suiteID : cryptosuite.ID) (key : SKey.t).
Context (Hsuite : is_ok (cryptosuite.RequireAvailable suiteID) = true).
Context (Hkey : anchorschedule.ValidateKey key = Ok tt).

(** A checkpoint of this stream at revision at most [k]. *)
Record checkpoint_ok (k : Z) (c : Cp.t) : Prop := {
  co_valid : ValidateCheckpoint c = Ok tt;
  co_suite : c.(Cp.CryptoSuite) = suiteID;
  co_key : c.(Cp.Key) = key;
  co_rev : 0 < c.(Cp.Revision) <= k }.

Lemma SameKey_refl k : anchorschedule.SameKey k k = true.
Proof. unfold anchorschedule.SameKey. by rewrite !seqb_refl. Qed.

Lemma RequireSame_self : cryptosuite.RequireSame suiteID [suiteID] = Ok tt.
Proof using Hsuite.
  apply cryptosuite.RequireSame_Ok. split; [|by constructor].
  apply is_ok_iff in Hsuite as [s Hs]. apply cryptosuite.RequireAvailable_Ok in Hs. by rewrite Hs.
Qed.

Lemma next_valid n t r :
  n ≠ 0 → 0 <= t → r ≠ 0 → ValidateCheckpoint (Cp.mk SchemaL5Coverage suiteID key n r t) = Ok tt.
Proof using Hsuite Hkey.
  intros. unfold ValidateCheckpoint. cbn. apply is_ok_iff in Hsuite as [s ->]. cbn.
  rewrite Hkey. cbn. rewrite !if_Err_Ok. by autorewrite with bprop.
Qed.

Lemma Advance_Some k c n t :
  checkpoint_ok k c → k + 1 < two64 → n ≠ 0 → 0 <= t →
  ∃ c' b, Advance (Some c) suiteID key n t = Ok (c', b) ∧ checkpoint_ok (k + 1) c' ∧
    c'.(Cp.CoveredTreeSize) = Z.max n c.(Cp.CoveredTreeSize) ∧ (b = false → c' = c).
Proof using Hsuite Hkey.
  intros [Hv Hs Hk Hr] Hb Hn Ht. unfold Advance.
  apply is_ok_iff in Hsuite as Hsu. destruct Hsu as [s ->]. cbn [mbind result_bind]. rewrite Hkey.
  cbn [mbind result_bind]. rewrite (proj2 (Z.eqb_neq n 0)), (proj2 (Z.ltb_ge t 0)) by lia.
  rewrite Hv. cbn [mbind result_bind]. rewrite Hk, SameKey_refl, Hs, RequireSame_self.
  cbn [negb wrap_err mbind result_bind]. destruct (_ <=? _) eqn:E; bsimpl.
  - exists c, false. split_and!; [done|constructor; done || lia|lia|done].
  - rewrite (proj2 (Z.eqb_neq _ _)) by lia. rewrite u64_small by (unfold in_u64; lia).
    do 2 eexists. split_and!; [done| |cbn; lia|done].
    constructor; cbn; [apply next_valid; lia|done|done|lia].
Qed.

Lemma Advance_None n t :
  n ≠ 0 → 0 <= t →
  ∃ c', Advance None suiteID key n t = Ok (c', true) ∧ checkpoint_ok 1 c' ∧
    c'.(Cp.CoveredTreeSize) = n.
Proof using Hsuite Hkey.
  intros Hn Ht. unfold Advance.
  apply is_ok_iff in Hsuite as Hsu. destruct Hsu as [s ->]. cbn [mbind result_bind]. rewrite Hkey.
  cbn [mbind result_bind]. rewrite (proj2 (Z.eqb_neq n 0)), (proj2 (Z.ltb_ge t 0)) by lia.
  eexists. split_and!; [done| |done].
  constructor; cbn; [apply next_valid; lia|done|done|lia].
Qed.

Lemma advance_all_Some k c obs :
  checkpoint_ok k c → k + len obs < two64 → Forall (λ o, 0 < o.1 ∧ 0 <= o.2) obs →
  ∃ c', advance_all (Some c) suiteID key obs = Some c' ∧ checkpoint_ok (k + len obs) c' ∧
    c'.(Cp.CoveredTreeSize) = foldr Z.max c.(Cp.CoveredTreeSize) (map fst obs).
Proof using Hsuite Hkey.
  revert k c. induction obs as [|[n t] obs IH]; intros k c Hc Hk Hf; cbn [advance_all].
  - exists c. unfold len. cbn. by rewrite Z.add_0_r.
  - apply Forall_cons in Hf as [[Hn Ht] Hf]. unfold len in *. cbn [length] in *.
    destruct (Advance_Some k c n t) as (c1 & b & -> & Hc1 & Hmax & _); [done|lia|cbn in *; lia|done|].
    destruct (IH (k + 1) c1) as (c2 & E2 & Hc2 & Hmax2); [done|lia|done|].
    exists c2. split_and!; [done| |].
    + replace (k + Z.of_nat (S (length obs))) with (k + 1 + Z.of_nat (length obs)) by lia. done.
    + rewrite Hmax2, Hmax. cbn [map foldr fst].
      assert (∀ l a, foldr Z.max (Z.max n a) l = Z.max n (foldr Z.max a l)) as Hfold.
      { induction l as [|x l IHl]; intros a; cbn; [done|]. rewrite IHl. lia. }
      apply Hfold.
Qed.

(** The L5 checkpoint is the running maximum of the observed tree sizes:
    from an empty store, any sequence of observations, in any order and with
    repetitions, leaves a valid checkpoint of the stream whose covered size is
    the greatest size observed, at a revision of at most the number of
    observations. *)
Theorem coverage_is_running_max n t obs :
  0 < n → 0 <= t → Forall (λ o, 0 < o.1 ∧ 0 <= o.2) obs → len obs + 1 < two64 →
  ∃ c, advance_all None suiteID key ((n, t) :: obs) = Some c ∧
    ValidateCheckpoint c = Ok tt ∧ c.(Cp.Key) = key ∧ c.(Cp.CryptoSuite) = suiteID ∧
    c.(Cp.CoveredTreeSize) = foldr Z.max n (map fst obs) ∧ c.(Cp.Revision) <= len obs + 1.
Proof using Hsuite Hkey.
  intros Hn Ht Hf Hl. cbn [advance_all].
  destruct (Advance_None n t) as (c1 & -> & Hc1 & Hcov); [lia|done|].
  destruct (advance_all_Some 1 c1 obs) as (c & -> & [Hv Hs Hk Hr] & Hmax); [done|lia|done|].
  exists c. rewrite Hmax, Hcov. split_and!; try done. lia.
Qed.
End advance.

Lemma coverage_is_running_max_witness :
  ∃ c, advance_all None cryptosuite.INTLV1 (SKey.mk "node-1" "log-1" "ots")
         [(8, 100); (5, 200); (12, 300)] = Some c ∧
    ValidateCheckpoint c = Ok tt ∧ c.(Cp.Key) = SKey.mk "node-1" "log-1" "ots" ∧
    c.(Cp.CryptoSuite) = cryptosuite.INTLV1 ∧
    c.(Cp.CoveredTreeSize) = 12 ∧ c.(Cp.Revision) <= 3.
Proof.
  apply (coverage_is_running_max cryptosuite.INTLV1 (SKey.mk "node-1" "log-1" "ots") eq_refl
    eq_refl 8 100 [(5, 200); (12, 300)]); [lia|lia| |done].
  repeat (constructor; [cbn; lia|]). constructor.
Defined.

End l5coverage.
