(* ===== verification/AnchorStore.v ===== *)
(** * The anchor tables of the Pebble store

    Models the anchoring part of [src/internal/proofstore/pebble/store.go]:
    the results published by the sinks, the cached references to the latest
    result of each stream, the canonical root of each tree size, the schedules
    and the L5 coverage checkpoints.  The store runs the transitions of
    [anchorschedule] in transactions.

    A table maps the parts of a database key to the bytes stored under it;
    reads decode them.  The key formats join base64 text and fixed-width
    decimals, so that different parts give different keys, and the database
    visits results in the order of [CompareResultKeys].  A batch is a list of
    writes, applied at once; [anchorScheduleMu] makes each operation one step.
    Disk errors and cancelled contexts are not modelled, and a nil slice is
    equal to an empty one. *)

From stdpp Require Import sorting.
From S2P Require Import Prelude TrustErr CryptoSuite Model TrustCrypto Cborx KeyDescriptor ModelSuite.
From S2P Require Import StoreMonad GlobalStore AnchorSchedule L5Coverage.

Module Cp := L5CoverageCheckpoint.

#[global] Instance skey_countable : Countable SKey.t.
Proof.
  apply (inj_countable' (λ k : SKey.t, (k.(SKey.NodeID), k.(SKey.LogID), k.(SKey.SinkName)))
    (λ p, SKey.mk p.1.1 p.1.2 p.2)).
  by intros [].
Defined.

#[global] Instance rkey_countable : Countable RKey.t.
Proof.
  apply (inj_countable'
    (λ k : RKey.t, (k.(RKey.NodeID), k.(RKey.LogID), k.(RKey.SinkName), k.(RKey.TreeSize)))
    (λ p, RKey.mk p.1.1.1 p.1.1.2 p.1.2 p.2)).
  by intros [].
Defined.

#[global] Instance sth_eq_dec : EqDecision Sth.t.
Proof. solve_decision. Defined.
#[global] Instance res_eq_dec : EqDecision Res.t.
Proof. solve_decision. Defined.
#[global] Instance win_eq_dec : EqDecision Win.t.
Proof. solve_decision. Defined.
#[global] Instance att_eq_dec : EqDecision Att.t.
Proof. solve_decision. Defined.
#[global] Instance sch_eq_dec : EqDecision Sch.t.
Proof. solve_decision. Defined.

Module anchorstore.
Import anchorschedule.

Definition maxStoredObjectBytes : Z := Z.shiftl 64 20.

Record Store := mkStore {
  base : pebble.Store;
  results : gmap RKey.t bytes;
  latest : gmap (option SKey.t) bytes;
  treeRoots : gmap (string * string * Z) bytes;
  schedules : gmap SKey.t bytes;
  coverage : gmap SKey.t bytes }.

(** One entry of a batch; [SetLatest None] writes [anchorLatestAllKey]. *)
Inductive write :=
| SetResult (key : RKey.t) (data : bytes)
| SetLatest (stream : option SKey.t) (data : bytes)
| SetTreeRoot (nodeID logID : string) (treeSize : Z) (rootHash : bytes)
| SetSchedule (key : SKey.t) (data : bytes)
| SetCoverage (key : SKey.t) (data : bytes).

Definition set (s : Store) (w : write) : Store :=
  match w with
  | SetResult k d =>
      mkStore (base s) (<[k := d]> (results s)) (latest s) (treeRoots s) (schedules s) (coverage s)
  | SetLatest k d =>
      mkStore (base s) (results s) (<[k := d]> (latest s)) (treeRoots s) (schedules s) (coverage s)
  | SetTreeRoot n l z d =>
      mkStore (base s) (results s) (latest s) (<[(n, l, z) := d]> (treeRoots s)) (schedules s)
        (coverage s)
  | SetSchedule k d =>
      mkStore (base s) (results s) (latest s) (treeRoots s) (<[k := d]> (schedules s)) (coverage s)
  | SetCoverage k d =>
      mkStore (base s) (results s) (latest s) (treeRoots s) (schedules s) (<[k := d]> (coverage s))
  end.

(** [expectedUpdate.Proof = ...] *)
Definition with_proof (proof : bytes) (r : Res.t) : Res.t :=
  Res.mk r.(Res.SchemaVersion) r.(Res.CryptoSuite) r.(Res.NodeID) r.(Res.LogID) r.(Res.TreeSize)
    r.(Res.SinkName) r.(Res.AnchorID) r.(Res.RootHash) r.(Res.STH) proof r.(Res.EvidenceStage)
    r.(Res.PublishedAtUnixN).

(** [batch.Commit] *)
Definition Commit (batch : list write) : io Store unit := modify (λ s, foldl set s batch).

Section store.
Context `{KeyDescriptorLib, FiscoLib, CborMode Res.t, CborMode Ref.t, CborMode Sch.t, CborMode Cp.t}.

Definition requireSuite (value : modelsuite.Any) : io Store unit :=
  reads (λ s, pebble.requireSuite (base s) value).

Definition readCBOR {A} `{CborMode A} (val : option bytes) : result (option A) :=
  match val with
  | None => Ok None
  | Some b => v ← cborx.UnmarshalLimit b maxStoredObjectBytes; Ok (Some v)
  end.

(** ** Reads *)

Definition readSTHAnchorSchedule (key : SKey.t) (s : Store) : TrustErr.result (option Sch.t) :=
  found ← wrap_err CodeDataLoss "read sth anchor schedule" (readCBOR (schedules s !! key));
  match found with
  | None => Ok None
  | Some schedule =>
      _ ← wrap_err CodeDataLoss "validate stored sth anchor schedule" (ValidateSchedule schedule);
      if negb (SameKey schedule.(Sch.Key) key)
      then Err (New CodeDataLoss "stored STH anchor schedule key does not match lookup")
      else Ok (Some schedule)
  end.

Definition resultStream (res : Res.t) : SKey.t :=
  SKey.mk res.(Res.NodeID) res.(Res.LogID) res.(Res.SinkName).

Definition validateStoredSTHAnchorResult (res : Res.t) : TrustErr.result unit :=
  wrap_err CodeDataLoss "validate stored sth anchor result" (ValidateResult (resultStream res) res).

Definition readSTHAnchorResult (key : RKey.t) (s : Store) : TrustErr.result (option Res.t) :=
  found ← wrap_err CodeDataLoss "read sth anchor result" (readCBOR (results s !! key));
  match found with
  | None => Ok None
  | Some res =>
      _ ← validateStoredSTHAnchorResult res;
      if negb (SameResultKey (ResultKey res) key)
      then Err (New CodeDataLoss "stored STH anchor result key does not match item")
      else Ok (Some res)
  end.

Definition decodePebbleSTHAnchorResult (storageKey : RKey.t) (value : bytes)
  : TrustErr.result Res.t :=
  res ← wrap_err CodeDataLoss "decode sth anchor result"
          (cborx.UnmarshalLimit value maxStoredObjectBytes);
  _ ← validateStoredSTHAnchorResult res;
  if bool_decide (storageKey = ResultKey res) then Ok res
  else Err (New CodeDataLoss "sth anchor result key does not match item").

(** The results in key order. *)
Definition entry_le (a b : RKey.t * bytes) : Prop := CompareResultKeys a.1 b.1 <= 0.
#[global] Instance entry_le_dec a b : Decision (entry_le a b).
Proof. unfold entry_le. apply _. Defined.
Definition iterate (s : Store) : list (RKey.t * bytes) :=
  merge_sort entry_le (map_to_list (results s)).

Definition GetSTHAnchorResult (treeSize : Z) (s : Store) : TrustErr.result (option Res.t) :=
  if treeSize =? 0 then Err (New CodeInvalidArgument "tree_size is required") else
  match filter (λ e : RKey.t * bytes, e.1.(RKey.TreeSize) = treeSize) (iterate s) with
  | [] => Ok None
  | (key, value) :: _ => res ← decodePebbleSTHAnchorResult key value; Ok (Some res)
  end.

Definition GetSTHAnchorResultForKey (key : RKey.t) (s : Store) : TrustErr.result (option Res.t) :=
  _ ← ValidateResultKey key; readSTHAnchorResult key s.

Definition GetSTHAnchorSchedule (key : SKey.t) (s : Store) : TrustErr.result (option Sch.t) :=
  _ ← ValidateKey key; readSTHAnchorSchedule key s.

(** *** Pages of results

    [desc] is the test of [opts.Direction] and [after] is [AfterResultKey]
    when [HasAfter] is set. *)

Definition normaliseRecordLimit (limit : Z) : Z :=
  if limit <=? 0 then 100 else if 1000 <? limit then 1000 else limit.

Fixpoint decodePage (entries : list (RKey.t * bytes)) : TrustErr.result (list Res.t) :=
  match entries with
  | [] => Ok []
  | (key, value) :: rest =>
      res ← decodePebbleSTHAnchorResult key value;
      page ← decodePage rest;
      Ok (res :: page)
  end.

Definition ListSTHAnchorResultsPage (limit : Z) (desc : bool) (after : option RKey.t) (s : Store)
  : TrustErr.result (list Res.t) :=
  let limit := normaliseRecordLimit limit in
  _ ← match after with Some k => ValidateResultKey k | None => Ok tt end;
  let entries :=
    match desc, after with
    | true, Some k => rev (filter (λ e, CompareResultKeys e.1 k < 0) (iterate s))
    | true, None => rev (iterate s)
    | false, Some k => filter (λ e, CompareResultKeys k e.1 < 0) (iterate s)
    | false, None => iterate s
    end in
  decodePage (take (Z.to_nat limit) entries).

Definition ListSTHAnchorResultsAfter (after : RKey.t) (limit : Z) (s : Store)
  : TrustErr.result (list Res.t) :=
  ListSTHAnchorResultsPage limit false
    (if after.(RKey.TreeSize) =? 0 then None else Some after) s.

(** *** The latest result, through the cached reference *)

Fixpoint findLatest (stream : option SKey.t) (entries : list (RKey.t * bytes))
  : TrustErr.result (option Res.t) :=
  match entries with
  | [] => Ok None
  | (key, value) :: rest =>
      res ← decodePebbleSTHAnchorResult key value;
      match stream with
      | Some k => if SameKey (resultStream res) k then Ok (Some res) else findLatest stream rest
      | None => Ok (Some res)
      end
  end.

Definition rebuildLatestSTHAnchorResultLocked (stream : option SKey.t) : io Store (option Res.t) :=
  found ← reads (λ s, findLatest stream (rev (iterate s)));
  match found with
  | Some res =>
      data ← lift (wrap_err CodeDataLoss "encode rebuilt latest sth anchor reference"
                     (cborx.Marshal (LatestReference res)));
      _ ← modify (λ s, set s (SetLatest stream data));
      mret (Some res)
  | None =>
      data ← lift (wrap_err CodeDataLoss "encode empty latest sth anchor reference"
                     (cborx.Marshal (EmptyLatestReference stream)));
      _ ← modify (λ s, set s (SetLatest stream data));
      mret None
  end.

(** What the cached reference answers; [None] when it has to be rebuilt. *)
Definition cachedLatest (stream : option SKey.t) (s : Store) : option (option Res.t) :=
  match readCBOR (latest s !! stream) with
  | Ok (Some ref) =>
      if EmptyLatestReferenceMatches ref stream then Some None else
      if is_ok (ValidateLatestReference ref) then
        match readSTHAnchorResult ref.(Ref.Key) s with
        | Ok (Some res) =>
            if ReferenceMatchesResult ref res
               && match stream with
                  | None => true
                  | Some k => SameKey k (ScheduleKey ref.(Ref.Key))
                  end
            then Some (Some res) else None
        | _ => None
        end
      else None
  | _ => None
  end.

Definition latestSTHAnchorResultLocked (stream : option SKey.t) : io Store (option Res.t) :=
  cached ← reads (λ s, Ok (cachedLatest stream s));
  match cached with
  | Some answer => mret answer
  | None => rebuildLatestSTHAnchorResultLocked stream
  end.

Definition LatestSTHAnchorResult : io Store (option Res.t) := latestSTHAnchorResultLocked None.

Definition LatestSTHAnchorResultForKey (key : SKey.t) : io Store (option Res.t) :=
  _ ← lift (ValidateKey key); latestSTHAnchorResultLocked (Some key).

(** ** Canonical roots *)

(** Whether the root of the tree size is missing. *)
Definition inspectSTHAnchorTreeRootLocked (nodeID logID : string) (treeSize : Z) (rootHash : bytes)
    (s : Store) : TrustErr.result bool :=
  match treeRoots s !! (nodeID, logID, treeSize) with
  | None => Ok true
  | Some value =>
      if negb (bytes_equal value rootHash)
      then Err (New CodeDataLoss "anchor tree size has conflicting root hash")
      else Ok false
  end.

Definition validateOrStageSTHAnchorTreeRootLocked (nodeID logID : string) (treeSize : Z)
    (rootHash : bytes) (s : Store) : TrustErr.result (list write) :=
  missing ← inspectSTHAnchorTreeRootLocked nodeID logID treeSize rootHash s;
  Ok (if (missing : bool) then [SetTreeRoot nodeID logID treeSize rootHash] else []).

(** ** Results *)

(** One iteration of the loop over the two references. *)
Definition stageLatest (res : Res.t) (stream : option SKey.t) : io Store (list write) :=
  found ← latestSTHAnchorResultLocked stream;
  let stale :=
    match found with
    | Some latest => CompareResultKeys (ResultKey res) (ResultKey latest) <=? 0
    | None => false
    end in
  if (stale : bool) then mret [] else
  data ← lift (wrap_err CodeDataLoss "encode latest sth anchor reference"
                 (cborx.Marshal (LatestReference res)));
  mret [SetLatest stream data].

Definition stageSTHAnchorResultLocked (res : Res.t) (writeResult : bool) : io Store (list write) :=
  roots ← reads (validateOrStageSTHAnchorTreeRootLocked res.(Res.NodeID) res.(Res.LogID)
                   res.(Res.TreeSize) res.(Res.RootHash));
  results ← (if writeResult then
               data ← lift (wrap_err CodeDataLoss "encode sth anchor result" (cborx.Marshal res));
               mret [SetResult (ResultKey res) data]
             else mret []);
  all ← stageLatest res None;
  mine ← stageLatest res (Some (resultStream res));
  mret (roots ++ results ++ all ++ mine).

Definition PutSTHAnchorResult (res : Res.t) : io Store unit :=
  _ ← requireSuite (modelsuite.AnySTHAnchorResult res);
  _ ← lift (ValidateResult (resultStream res) res);
  found ← reads (readSTHAnchorResult (ResultKey res));
  res ← lift match found with
             | Some existing =>
                 _ ← validateStoredSTHAnchorResult existing;
                 if negb (SameStoredResult existing res)
                 then Err (New CodeDataLoss "stored STH anchor result conflicts with replacement")
                 else Ok existing
             | None => Ok res
             end;
  batch ← stageSTHAnchorResultLocked res (match found with Some _ => false | None => true end);
  Commit batch.

Definition UpdateSTHAnchorResult (expected res : Res.t) : io Store unit :=
  _ ← io_wrap CodeInvalidArgument "expected anchor result"
        (requireSuite (modelsuite.AnySTHAnchorResult expected));
  _ ← requireSuite (modelsuite.AnySTHAnchorResult res);
  _ ← lift (ValidateResult (resultStream res) res);
  _ ← lift (ValidateResult (resultStream expected) expected);
  if negb (SameResultBinding expected res)
  then lift (Err (New CodeDataLoss "sth anchor result update changes immutable binding")) else
  if seqb res.(Res.SinkName) "fisco-bcos" && negb (SameStoredResult expected res)
  then lift (Err (New CodeDataLoss "FISCO BCOS anchor result is byte-immutable")) else
  if negb (bool_decide (with_proof res.(Res.Proof) expected = res))
  then lift (Err (New CodeDataLoss "sth anchor result update changes immutable metadata")) else
  found ← reads (readSTHAnchorResult (ResultKey res));
  match found with
  | None => lift (Err (New CodeNotFound "sth anchor result not found"))
  | Some existing =>
      if negb (bool_decide (existing = expected))
      then lift (Err (New CodeFailedPrecondition "sth anchor result changed concurrently")) else
      batch ← stageSTHAnchorResultLocked res true;
      Commit batch
  end.

(** ** Schedules *)

Definition commitSTHAnchorSchedule (schedule : Sch.t) : io Store unit :=
  data ← lift (wrap_err CodeDataLoss "encode sth anchor schedule" (cborx.Marshal schedule));
  Commit [SetSchedule schedule.(Sch.Key) data].

(** The next schedule, whether it changed, and whether the root is missing. *)
Definition mergeSTHAnchorCandidateLocked (candidate : Cand.t) : io Store (Sch.t * bool * bool) :=
  let key := candidate.(Cand.Key) in
  let sth := candidate.(Cand.STH) in
  current ← reads (readSTHAnchorSchedule key);
  treeRootMissing ← reads (inspectSTHAnchorTreeRootLocked key.(SKey.NodeID) key.(SKey.LogID)
                             sth.(Sth.TreeSize) sth.(Sth.RootHash));
  latest ← latestSTHAnchorResultLocked (Some key);
  exact ← reads (readSTHAnchorResult
                   (RKey.mk key.(SKey.NodeID) key.(SKey.LogID) key.(SKey.SinkName)
                      sth.(Sth.TreeSize)));
  latest ← lift match exact with
                | None => Ok latest
                | Some exact =>
                    _ ← ValidateCandidateAgainstExactResult candidate exact;
                    Ok (match latest with
                        | None => Some exact
                        | Some l =>
                            if l.(Res.TreeSize) <? exact.(Res.TreeSize) then Some exact else latest
                        end)
                end;
  '(next, changed) ← lift (MergeCandidate current candidate latest);
  mret (next, changed, treeRootMissing).

(** Under the lock: merges the candidate and commits what changed.  The
    publication of batches repeats these steps. *)
Definition commitCandidateLocked (candidate : Cand.t) : io Store Sch.t :=
  '(next, changed, treeRootMissing) ← mergeSTHAnchorCandidateLocked candidate;
  if negb changed && negb treeRootMissing then mret next else
  schedule ← (if (changed : bool) then
                data ← lift (wrap_err CodeDataLoss "encode sth anchor schedule" (cborx.Marshal next));
                mret [SetSchedule next.(Sch.Key) data]
              else mret []);
  let root :=
    if (treeRootMissing : bool) then
      [SetTreeRoot candidate.(Cand.Key).(SKey.NodeID) candidate.(Cand.Key).(SKey.LogID)
         candidate.(Cand.STH).(Sth.TreeSize) candidate.(Cand.STH).(Sth.RootHash)]
    else [] in
  _ ← Commit (schedule ++ root);
  mret next.

Definition UpsertSTHAnchorCandidate (candidate : Cand.t) : io Store Sch.t :=
  _ ← requireSuite (modelsuite.AnySTHAnchorCandidate candidate);
  _ ← lift (ValidateCandidate candidate);
  commitCandidateLocked candidate.

Definition reconcileStoredSTHAnchorResultsLocked (schedule : Sch.t) : io Store (Sch.t * bool) :=
  let key := schedule.(Sch.Key) in
  '(schedule, changed) ←
    match schedule.(Sch.InFlight) with
    | None => mret (schedule, false)
    | Some attempt =>
        found ← reads (readSTHAnchorResult
                         (RKey.mk key.(SKey.NodeID) key.(SKey.LogID) key.(SKey.SinkName)
                            attempt.(Att.Target).(Sth.TreeSize)));
        match found with
        | None => mret (schedule, false)
        | Some res =>
            lift (wrap_err CodeDataLoss "reconcile completed STH anchor in-flight target"
                    (ReconcileCompleted schedule res))
        end
    end;
  match schedule.(Sch.Pending) with
  | None => mret (schedule, changed)
  | Some _ =>
      found ← latestSTHAnchorResultLocked (Some schedule.(Sch.Key));
      match found with
      | None => mret (schedule, changed)
      | Some latest =>
          '(next, reconciled) ←
            lift (wrap_err CodeDataLoss "reconcile completed STH anchor pending target"
                    (ReconcileCompleted schedule latest));
          mret (next, changed || reconciled)
      end
  end.

Definition ClaimSTHAnchorAttempt (key : SKey.t) (nowUnixN leaseUntilUnixN : Z)
    (leaseOwner leaseToken : string) : io Store (option Att.t) :=
  _ ← lift (ValidateKey key);
  found ← reads (readSTHAnchorSchedule key);
  match found with
  | None => mret None
  | Some current =>
      '(current, reconciled) ← reconcileStoredSTHAnchorResultsLocked current;
      '(next, attempt, claimed) ← lift (Claim current nowUnixN leaseUntilUnixN leaseOwner leaseToken);
      if negb claimed then
        if (reconciled : bool) then _ ← commitSTHAnchorSchedule current; mret None
        else mret None
      else
        _ ← commitSTHAnchorSchedule next;
        mret (Some attempt)
  end.

(** The stored schedule, which the operations of the owner of an attempt need. *)
Definition mustReadSchedule (key : SKey.t) : io Store Sch.t :=
  _ ← lift (ValidateKey key);
  found ← reads (readSTHAnchorSchedule key);
  match found with
  | None => lift (Err (New CodeNotFound "sth anchor schedule not found"))
  | Some current => mret current
  end.

Definition CompareAndSwapSTHAnchorProviderState (key : SKey.t) (generation : Z) (leaseToken : string)
    (nowUnixN : Z) (expectedProviderState nextProviderState : bytes) : io Store unit :=
  current ← mustReadSchedule key;
  next ← lift (CompareAndSwapProviderState current generation leaseToken nowUnixN
                 expectedProviderState nextProviderState);
  commitSTHAnchorSchedule next.

Definition RescheduleSTHAnchorAttempt (key : SKey.t) (generation : Z) (leaseToken : string)
    (attempts nextAttemptUnixN : Z) (lastErrorMessage : string) : io Store unit :=
  current ← mustReadSchedule key;
  next ← lift (Reschedule current generation leaseToken attempts nextAttemptUnixN lastErrorMessage);
  commitSTHAnchorSchedule next.

Definition FailSTHAnchorAttempt (key : SKey.t) (generation : Z) (leaseToken : string)
    (attempts : Z) (lastErrorMessage : string) : io Store unit :=
  current ← mustReadSchedule key;
  next ← lift (Fail current generation leaseToken attempts lastErrorMessage);
  commitSTHAnchorSchedule next.

Definition CompleteSTHAnchorAttempt (key : SKey.t) (generation : Z) (leaseToken : string)
    (res : Res.t) : io Store unit :=
  _ ← requireSuite (modelsuite.AnySTHAnchorResult res);
  _ ← lift (ValidateResult key res);
  current ← reads (readSTHAnchorSchedule key);
  found ← reads (readSTHAnchorResult (ResultKey res));
  match found with
  | Some existing =>
      _ ← lift (validateStoredSTHAnchorResult existing);
      if negb (SameStoredResult existing res)
      then lift (Err (New CodeDataLoss
                        "stored STH anchor result conflicts with completed attempt")) else
      match current with
      | None => mret tt
      | Some current =>
          let other :=
            match current.(Sch.InFlight) with
            | Some a => negb (a.(Att.Target).(Sth.TreeSize) =? existing.(Res.TreeSize))
            | None => false
            end in
          if (other : bool) then mret tt else
          '(next, changed) ← lift (ReconcileCompleted current existing);
          if negb changed then mret tt else commitSTHAnchorSchedule next
      end
  | None =>
      match current with
      | None => lift (Err (New CodeNotFound "sth anchor schedule not found"))
      | Some current =>
          next ← lift (Complete current generation leaseToken res);
          scheduleBytes ← lift (wrap_err CodeDataLoss "encode sth anchor schedule"
                                  (cborx.Marshal next));
          batch ← stageSTHAnchorResultLocked res true;
          Commit (batch ++ [SetSchedule next.(Sch.Key) scheduleBytes])
      end
  end.

Fixpoint stageTargetRoots (key : SKey.t) (targets : list Sth.t) (s : Store)
  : TrustErr.result (list write) :=
  match targets with
  | [] => Ok []
  | target :: rest =>
      ws ← validateOrStageSTHAnchorTreeRootLocked key.(SKey.NodeID) key.(SKey.LogID)
             target.(Sth.TreeSize) target.(Sth.RootHash) s;
      ws' ← stageTargetRoots key rest s;
      Ok (ws ++ ws')
  end.

Definition pebbleSTHAnchorScheduleTargets (schedule : Sch.t) : list Sth.t :=
  match schedule.(Sch.InFlight) with Some a => [a.(Att.Target)] | None => [] end
  ++ match schedule.(Sch.Pending) with Some w => [w.(Win.Target)] | None => [] end.

Definition restoreSTHAnchorSchedule (schedule : Sch.t) (replace : bool) : io Store unit :=
  _ ← requireSuite (modelsuite.AnySTHAnchorSchedule schedule);
  _ ← lift (ValidateSchedule schedule);
  let leased := match schedule.(Sch.InFlight) with Some a => has_lease a | None => false end in
  if (leased : bool)
  then lift (Err (New CodeFailedPrecondition
                    "restored STH anchor schedule must not retain a process lease")) else
  '(schedule, _) ← io_wrap CodeDataLoss "reconcile restored STH anchor schedule"
                     (reconcileStoredSTHAnchorResultsLocked schedule);
  existing ← reads (readSTHAnchorSchedule schedule.(Sch.Key));
  if bool_decide (existing = Some schedule) then mret tt else
  if match existing with Some _ => negb replace | None => false end
  then lift (Err (New CodeDataLoss
                    "stored STH anchor schedule conflicts with restore snapshot")) else
  data ← lift (wrap_err CodeDataLoss "encode restored sth anchor schedule" (cborx.Marshal schedule));
  roots ← reads (stageTargetRoots schedule.(Sch.Key) (pebbleSTHAnchorScheduleTargets schedule));
  Commit (roots ++ [SetSchedule schedule.(Sch.Key) data]).

Definition PutSTHAnchorSchedule (schedule : Sch.t) : io Store unit :=
  restoreSTHAnchorSchedule schedule false.
Definition ReplaceSTHAnchorSchedule (schedule : Sch.t) : io Store unit :=
  restoreSTHAnchorSchedule schedule true.

(** ** L5 coverage *)

Definition GetL5CoverageCheckpoint (key : SKey.t) (s : Store) : TrustErr.result (option Cp.t) :=
  _ ← ValidateKey key;
  found ← wrap_err CodeDataLoss "read L5 coverage checkpoint" (readCBOR (coverage s !! key));
  match found with
  | None => Ok None
  | Some checkpoint =>
      _ ← l5coverage.ValidateCheckpoint checkpoint;
      if negb (SameKey checkpoint.(Cp.Key) key)
      then Err (New CodeDataLoss "stored L5 coverage checkpoint key does not match lookup")
      else Ok (Some checkpoint)
  end.

Definition AdvanceL5CoverageCheckpoint (key : SKey.t) (coveredTreeSize updatedAtUnixN : Z)
  : io Store Cp.t :=
  current ← reads (λ s, wrap_err CodeDataLoss "read L5 coverage checkpoint"
                          (readCBOR (coverage s !! key)));
  '(next, changed) ← reads (λ s, l5coverage.Advance current (pebble.CryptoSuite (base s)) key
                                  coveredTreeSize updatedAtUnixN);
  if negb changed then mret next else
  data ← lift (wrap_err CodeDataLoss "write L5 coverage checkpoint" (cborx.Marshal next));
  _ ← modify (λ s, set s (SetCoverage key data));
  mret next.

End store.
End anchorstore.
