(* ===== verification/AnchorStoreProofs.v ===== *)
(** * What the anchor tables promise

    Every operation of [AnchorStore] is a sequence of [change]s of the tables;
    the invariant and the theorems are proved for the changes. *)

From stdpp Require Import sorting relations.
From S2P Require Import Prelude TrustErr CryptoSuite Model TrustCrypto Cborx KeyDescriptor ModelSuite.
From S2P Require Import StoreMonad GlobalStore AnchorSchedule AnchorScheduleProofs L5Coverage AnchorStore.

Module anchorstore_proofs.
Import anchorschedule anchorschedule_proofs anchorkeys anchorstore.

Section proofs.
Context `{KeyDescriptorLib, FiscoLib, CborMode Res.t, CborMode Ref.t, CborMode Sch.t, CborMode Cp.t}.
Context `{!CborModeExact Res.t, !CborModeExact Ref.t, !CborModeExact Sch.t}.

Definition encodes {A} `{CborMode A} (b : bytes) (a : A) : Prop := cborx.Marshal a = Ok b.

(** What a read of encoded bytes returns is what was encoded. *)
Lemma readCBOR_exact {A} `{CborMode A, !CborModeExact A} (v : option bytes) (a : option A) :
  readCBOR v = Ok a →
  match a with
  | Some a => ∃ b, v = Some b ∧ ∀ a', encodes b a' → a = a'
  | None => v = None
  end.
Proof.
  unfold readCBOR. destruct v as [b|]; [|by intros [= <-]]. intros E. ok_inv. subst.
  exists b. split; [done|]. intros a' Ha'. by eapply cborx.Unmarshal_exact.
Qed.

(** ** Streams and their greatest keys *)

Definition in_stream (stream : option SKey.t) (k : RKey.t) : Prop :=
  match stream with None => True | Some x => ScheduleKey k = x end.

Definition has_result (s : Store) (k : RKey.t) : Prop := is_Some (results s !! k).

Definition greatest (stream : option SKey.t) (k : RKey.t) (s : Store) : Prop :=
  has_result s k ∧ in_stream stream k ∧
  ∀ k', has_result s k' → in_stream stream k' → CompareResultKeys k' k <= 0.

Definition no_result (stream : option SKey.t) (s : Store) : Prop :=
  ∀ k, has_result s k → ¬ in_stream stream k.

(** What a stored reference says is true. *)
Definition ref_ok (stream : option SKey.t) (b : bytes) (s : Store) : Prop :=
  ∃ ref, encodes b ref ∧
    (ref.(Ref.SchemaVersion) = SchemaSTHAnchorLatest ∧ greatest stream ref.(Ref.Key) s ∨
     ref.(Ref.SchemaVersion) = SchemaSTHAnchorLatestEmpty ∧ no_result stream s).

Definition root_of (s : Store) (nodeID logID : string) (n : Z) : option bytes :=
  treeRoots s !! (nodeID, logID, n).

Definition result_ok (s : Store) (r : Res.t) : Prop :=
  ValidateResult (resultStream r) r = Ok tt ∧
  root_of s r.(Res.NodeID) r.(Res.LogID) r.(Res.TreeSize) = Some r.(Res.RootHash).

Definition targets_ok (s : Store) (key : SKey.t) (ts : list Sth.t) : Prop :=
  Forall (λ t, root_of s key.(SKey.NodeID) key.(SKey.LogID) t.(Sth.TreeSize) = Some t.(Sth.RootHash)) ts.

Record inv (s : Store) : Prop := {
  i_result k b : results s !! k = Some b → ∃ r, encodes b r ∧ ResultKey r = k ∧ result_ok s r;
  i_latest stream b : latest s !! stream = Some b → ref_ok stream b s;
  i_schedule key b : schedules s !! key = Some b →
    ∃ sch, encodes b sch ∧ sch.(Sch.Key) = key ∧ targets_ok s key (scheduleTargets sch) }.

Definition published (s : Store) (r : Res.t) : Prop :=
  ∃ b, results s !! ResultKey r = Some b ∧ encodes b r.

(** ** Reads under the invariant *)

Lemma read_result s k o :
  inv s → readSTHAnchorResult k s = Ok o →
  match o with
  | Some r => ResultKey r = k ∧ result_ok s r ∧
      ∃ b, results s !! k = Some b ∧ encodes b r ∧ ∀ r', encodes b r' → r' = r
  | None => results s !! k = None
  end.
Proof.
  intros I. unfold readSTHAnchorResult. intros E. apply bind_Ok in E as (x & Hx & E). ok_inv.
  apply readCBOR_exact in Hx. destruct x as [r|]; ok_inv; subst; [|done].
  destruct Hx as (b & Hb & Ha). destruct (i_result s I k b Hb) as (r' & Hr & Hk & Ho).
  assert (r' = r) as -> by (symmetry; by apply Ha). split_and!; [done..|]. exists b.
  split_and!; [done..|]. intros r' Hr'. symmetry. by apply Ha.
Qed.

Lemma decode_result s k b r :
  inv s → results s !! k = Some b → decodePebbleSTHAnchorResult k b = Ok r →
  ResultKey r = k ∧ result_ok s r ∧ encodes b r.
Proof.
  intros I Hb. unfold decodePebbleSTHAnchorResult. intros E.
  apply bind_Ok in E as (x & Hx & E). ok_inv. case_bool_decide; ok_inv; subst.
  destruct (i_result s I _ b Hb) as (r' & Hr & Hk & Ho).
  by rewrite (cborx.Unmarshal_exact _ _ _ _ Hr Hx) in *.
Qed.

Lemma read_schedule s key o :
  inv s → readSTHAnchorSchedule key s = Ok o →
  match o with
  | Some sch =>
      sch.(Sch.Key) = key ∧ ValidateSchedule sch = Ok tt ∧ targets_ok s key (scheduleTargets sch) ∧
      ∃ b, schedules s !! key = Some b ∧ ∀ sch', encodes b sch' → sch' = sch
  | None => schedules s !! key = None
  end.
Proof.
  intros I. unfold readSTHAnchorSchedule. intros E. apply bind_Ok in E as (x & Hx & E). ok_inv.
  apply readCBOR_exact in Hx. destruct x as [sch|]; ok_inv; subst; [|done].
  destruct Hx as (b & Hb & Ha). destruct (i_schedule s I key b Hb) as (sch' & Hs & Hk & Ht).
  assert (sch' = sch) as -> by (symmetry; by apply Ha). destruct x. split_and!; try done. exists b. split; [done|].
  intros sch'' H''. symmetry. by apply Ha.
Qed.

(** *** The scan for the latest result *)

Lemma resultStream_key r : resultStream r = ScheduleKey (ResultKey r).
Proof. done. Qed.

Lemma iterate_spec s :
  (∀ k b, (k, b) ∈ iterate s ↔ results s !! k = Some b) ∧ StronglySorted entry_le (iterate s).
Proof.
  assert (Transitive entry_le) by (intros a b c; apply compare_le_trans).
  assert (Total entry_le).
  { intros a b. unfold entry_le. pose proof (compare_sym a.1 b.1). lia. }
  split; [|apply (StronglySorted_merge_sort entry_le)].
  intros k b. unfold iterate. rewrite merge_sort_Permutation. apply elem_of_map_to_list.
Qed.

Lemma findLatest_spec stream l o :
  StronglySorted (λ a b, entry_le b a) l → findLatest stream l = Ok o →
  match o with
  | Some r => ∃ b, (ResultKey r, b) ∈ l ∧ in_stream stream (ResultKey r) ∧
      ∀ k b', (k, b') ∈ l → in_stream stream k → CompareResultKeys k (ResultKey r) <= 0
  | None => ∀ k b, (k, b) ∈ l → ¬ in_stream stream k
  end.
Proof.
  induction 1 as [|[k b] l Hl IH Hk]; intros E; cbn [findLatest] in E.
  { injection E as <-. intros k b []%elem_of_nil. }
  apply bind_Ok in E as (r & Hr & E).
  assert (k = ResultKey r) as ->.
  { unfold decodePebbleSTHAnchorResult in Hr. ok_inv. case_bool_decide; ok_inv. congruence. }
  assert (in_stream stream (ResultKey r) →
    ∃ b0, (ResultKey r, b0) ∈ (ResultKey r, b) :: l ∧ in_stream stream (ResultKey r) ∧
      ∀ k b', (k, b') ∈ (ResultKey r, b) :: l → in_stream stream k →
        CompareResultKeys k (ResultKey r) <= 0) as Hhit.
  { intros Hs. exists b. split_and!; [apply list_elem_of_here|done|].
    intros k b' [[= -> ->]|Hin]%elem_of_cons _; [by rewrite compare_refl|].
    rewrite Forall_forall in Hk. by apply (Hk _ Hin). }
  destruct stream as [x|]; [|injection E as <-; by apply Hhit].
  rewrite resultStream_key in E. destruct (SameKey _ _) eqn:Hs.
  { injection E as <-. apply Hhit. by apply SameKey_eq. }
  assert (¬ in_stream (Some x) (ResultKey r)) as Hn.
  { intros Hin. apply SameKey_eq in Hin. congruence. }
  specialize (IH E). destruct o as [r'|].
  - destruct IH as (b0 & Hin & Hst & Hmax). exists b0. split_and!; [by apply list_elem_of_further|done|].
    intros k b' [[= -> ->]|Hin']%elem_of_cons Hst'; [done|by eapply Hmax].
  - intros k b' [[= -> ->]|Hin']%elem_of_cons; [done|by eapply IH].
Qed.

Lemma elem_of_rev {A} (x : A) l : x ∈ rev l ↔ x ∈ l.
Proof. by rewrite !list_elem_of_In, <- in_rev. Qed.

Lemma StronglySorted_rev {A} (R : relation A) l :
  StronglySorted R l → StronglySorted (λ a b, R b a) (rev l).
Proof.
  induction 1 as [|a l Hl IH Ha]; cbn; [constructor|].
  apply StronglySorted_app. split_and!; [|done|by repeat constructor].
  intros x y Hx ->%list_elem_of_singleton. rewrite Forall_forall in Ha. apply Ha.
  by rewrite elem_of_rev in Hx.
Qed.

Lemma findLatest_store s stream o :
  findLatest stream (rev (iterate s)) = Ok o →
  match o with
  | Some r => greatest stream (ResultKey r) s
  | None => no_result stream s
  end.
Proof.
  destruct (iterate_spec s) as [Hi Hs]. intros E.
  apply findLatest_spec in E; [|by apply StronglySorted_rev].
  assert (∀ k b, (k, b) ∈ rev (iterate s) ↔ results s !! k = Some b) as Hr.
  { intros k b. by rewrite elem_of_rev. }
  destruct o as [r|].
  - destruct E as (b & Hb & Hst & Hmax). apply Hr in Hb. split_and!; [by eexists|done|].
    intros k [b' Hb'] Hk. by apply (Hmax k b'), Hk; apply Hr.
  - intros k [b Hb]. apply (E k b). by apply Hr.
Qed.

(** ** Changes

    [lossy] marks the changes that may forget a scheduled target: only
    [ReplaceSTHAnchorSchedule] makes them. *)

(** The old result of an updated key differs from the new one in the proof
    only, and not at all for the byte-immutable sink. *)
Definition updates (s : Store) (r : Res.t) (data : bytes) : Prop :=
  ∀ b old, results s !! ResultKey r = Some b → encodes b old →
    with_proof r.(Res.Proof) old = r ∧ (r.(Res.SinkName) = fiscobcos_SinkName → data = b).

Definition covers (s : Store) (key : SKey.t) (n : Z) : Prop :=
  ∃ k, has_result s k ∧ ScheduleKey k = key ∧ n <= k.(RKey.TreeSize).

Definition reaches (n : Z) (ts : list Sth.t) : Prop := Exists (λ t, n <= t.(Sth.TreeSize)) ts.

Inductive change (lossy : bool) (s s' : Store) : Prop :=
| ch_latest stream data :
    s' = set s (SetLatest stream data) → ref_ok stream data s → change lossy s s'
| ch_root nodeID logID n root :
    s' = set s (SetTreeRoot nodeID logID n root) → root_of s nodeID logID n = None →
    change lossy s s'
| ch_result r data :
    results s' = <[ResultKey r := data]> (results s) →
    treeRoots s' = treeRoots s → schedules s' = schedules s →
    (∀ stream b, latest s' !! stream = Some b → ref_ok stream b s') →
    encodes data r → result_ok s r → updates s r data → change lossy s s'
| ch_schedule sch data :
    s' = set s (SetSchedule sch.(Sch.Key) data) → encodes data sch →
    targets_ok s sch.(Sch.Key) (scheduleTargets sch) →
    (lossy = false → ∀ b old n, schedules s !! sch.(Sch.Key) = Some b → encodes b old →
       reaches n (scheduleTargets old) →
       reaches n (scheduleTargets sch) ∨ covers s sch.(Sch.Key) n) →
    change lossy s s'
| ch_coverage key data : s' = set s (SetCoverage key data) → change lossy s s'.

Notation steps lossy := (rtc (change lossy)).

Lemma change_inv lossy s s' : inv s → change lossy s s' → inv s'.
Proof.
  intros I C. destruct C as [stream data -> Hr|nodeID logID n root -> Hn
    |r data Er Et Es Hl Hd Hr _|sch data -> Hd Ht _|key data ->].
  - constructor; cbn; [exact (i_result s I)| |exact (i_schedule s I)].
    intros st b. rewrite lookup_insert_Some. intros [[<- <-]|[_ Hb]]; [done|by apply (i_latest s I)].
  - assert (∀ a b c x, root_of s a b c = Some x →
      root_of (set s (SetTreeRoot nodeID logID n root)) a b c = Some x) as Hmono.
    { intros a b c x Hx. unfold root_of in *. cbn. rewrite lookup_insert_ne; [done|].
      intros [= <- <- <-]. congruence. }
    constructor; cbn; [|exact (i_latest s I)|].
    + intros k b Hb. destruct (i_result s I k b Hb) as (r & ? & ? & ? & ?). exists r.
      split_and!; [done..|]. split; [done|by apply Hmono].
    + intros key b Hb. destruct (i_schedule s I key b Hb) as (sch & ? & ? & Ht). exists sch.
      split_and!; [done..|]. eapply Forall_impl; [exact Ht|]. intros t. apply Hmono.
  - unfold result_ok, root_of in *.
    constructor; [|exact Hl|rewrite Es; unfold targets_ok, root_of; rewrite Et; exact (i_schedule s I)].
    intros k b. rewrite Er, lookup_insert_Some. unfold result_ok, root_of. rewrite Et.
    intros [[<- <-]|[_ Hb]]; [by exists r|by apply (i_result s I)].
  - constructor; cbn; [exact (i_result s I)|exact (i_latest s I)|].
    intros key b. rewrite lookup_insert_Some. intros [[<- <-]|[_ Hb]]; [by exists sch|].
    by apply (i_schedule s I).
  - constructor; cbn; apply I.
Qed.

Lemma steps_inv lossy s s' : inv s → steps lossy s s' → inv s'.
Proof. intros I C. induction C; [done|]. eauto using change_inv. Qed.

(** ** The latest result *)

(** Only references were written. *)
Definition same_tables (s s' : Store) : Prop :=
  results s' = results s ∧ treeRoots s' = treeRoots s ∧ schedules s' = schedules s ∧ base s' = base s.

Definition latest_spec (stream : option SKey.t) (s : Store) (r : TrustErr.result (option Res.t))
    (s' : Store) : Prop :=
  (∀ lossy, steps lossy s s') ∧ same_tables s s' ∧
  match r with
  | Ok (Some x) => greatest stream (ResultKey x) s ∧ result_ok s x ∧ published s x
  | Ok None => no_result stream s
  | Err _ => True
  end.

Lemma cachedLatest_spec s stream o :
  inv s → cachedLatest stream s = Some o →
  match o with
  | Some x => greatest stream (ResultKey x) s ∧ result_ok s x ∧ published s x
  | None => no_result stream s
  end.
Proof.
  intros I. unfold cachedLatest. destruct (readCBOR _) as [[ref|]|] eqn:E; [|done..].
  apply readCBOR_exact in E as (b & Hb & Ha).
  destruct (i_latest s I stream b Hb) as (ref' & Hr & Hok). rewrite (Ha ref' Hr). clear Ha.
  destruct (EmptyLatestReferenceMatches ref' stream) eqn:He.
  { intros [= <-]. destruct Hok as [[Hs _]|[_ Hn]]; [|done].
    unfold EmptyLatestReferenceMatches, ValidEmptyLatestReference in He. by rewrite Hs in He. }
  destruct (is_ok (ValidateLatestReference ref')) eqn:Hv; [|done].
  destruct (readSTHAnchorResult _ s) as [[x|]|] eqn:Ex; [|done..]. apply read_result in Ex; [|done].
  destruct Ex as (Ek & Hx & b' & Hb' & Hx' & _). destruct (_ && _); [|done]. intros [= <-].
  split_and!; [|done|exists b'; by rewrite Ek]. rewrite Ek.
  destruct Hok as [[_ Hg]|[Hs _]]; [done|]. apply is_ok_iff in Hv as [u Hv].
  unfold ValidateLatestReference in Hv. by rewrite Hs in Hv.
Qed.

Lemma findLatest_elem stream l x : findLatest stream l = Ok (Some x) → ∃ b,
  (ResultKey x, b) ∈ l ∧ decodePebbleSTHAnchorResult (ResultKey x) b = Ok x.
Proof.
  induction l as [|[k b] l IH]; cbn [findLatest]; [done|]. intros E.
  apply bind_Ok in E as (r & Hr & E).
  assert (r = x ∨ findLatest stream l = Ok (Some x)) as [<-|E'].
  { destruct stream as [y|]; [destruct (SameKey _ _)|]; naive_solver. }
  - assert (k = ResultKey r) as ->.
    { unfold decodePebbleSTHAnchorResult in Hr. ok_inv. case_bool_decide; ok_inv. congruence. }
    exists b. split; [apply list_elem_of_here|done].
  - destruct (IH E') as (b' & ? & ?). exists b'. split; [by apply list_elem_of_further|done].
Qed.

Lemma latest_locked s stream : inv s → post (latestSTHAnchorResultLocked stream) s (latest_spec stream s).
Proof.
  intros I. assert (∀ e, latest_spec stream s (Err e) s) as Herr.
  { intros e. split_and!; [intros; constructor|done|done]. }
  unfold latestSTHAnchorResultLocked. apply post_reads_bind; [done|]. intros o [= <-].
  destruct (cachedLatest stream s) as [o|] eqn:Ec.
  { apply post_ret. split_and!; [intros; constructor|done|]. by apply cachedLatest_spec in Ec. }
  unfold rebuildLatestSTHAnchorResultLocked. apply post_reads_bind; [done|]. intros o Eo.
  assert (∀ data, (match o with Some x => encodes data (LatestReference x)
      | None => encodes data (EmptyLatestReference stream) end) →
    latest_spec stream s (Ok o) (set s (SetLatest stream data))) as Hset.
  { intros data Hd. pose proof (findLatest_store s stream o Eo) as Hg. split_and!.
    - intros lossy. apply rtc_once, (ch_latest _ _ _ stream data); [done|].
      destruct o as [x|]; [exists (LatestReference x)|exists (EmptyLatestReference stream)]; (split; [done|]).
      + by left.
      + right. by destruct stream.
    - done.
    - destruct o as [x|]; [|done]. split; [done|].
      apply findLatest_elem in Eo as (b & Hin & Hx). rewrite elem_of_rev in Hin.
      apply iterate_spec in Hin. apply (decode_result s _ b x) in Hx as (_ & ? & ?); [|done..].
      split; [done|by exists b]. }
  destruct o as [x|]; apply post_lift_bind; try done; intros data Hd%wrap_err_Ok;
    apply post_bind, post_modify, post_ret; by apply Hset.
Qed.

(** ** Staging a result *)

Definition staged (r : Res.t) (stream : option SKey.t) (ws : list write) (s : Store) : Prop :=
  (ws = [] ∧ ∃ k, greatest stream k s ∧ CompareResultKeys (ResultKey r) k <= 0) ∨
  (∃ data, ws = [SetLatest stream data] ∧ encodes data (LatestReference r) ∧
     ∀ k, has_result s k → in_stream stream k → CompareResultKeys k (ResultKey r) <= 0).

(** Writes of references only, on the way to a value. *)
Definition quiet {A} (s : Store) (Q : A → Store → Prop) (r : TrustErr.result A) (s' : Store) : Prop :=
  (∀ lossy, steps lossy s s') ∧ same_tables s s' ∧ ∀ a, r = Ok a → Q a s'.

Lemma quiet_refl {A} s (Q : A → Store → Prop) r : (∀ a, r = Ok a → Q a s) → quiet s Q r s.
Proof. intros HQ. split_and!; [intros; constructor|done|done]. Qed.

Lemma quiet_trans {A} s s1 (Q : A → Store → Prop) r s2 :
  (∀ lossy, steps lossy s s1) → same_tables s s1 → quiet s1 Q r s2 → quiet s Q r s2.
Proof.
  intros Hs1 (?&?&?&?) (Hs2 & (?&?&?&?) & HQ). split_and!; [|split_and!; congruence|done].
  intros lossy. etrans; [apply Hs1|apply Hs2].
Qed.

Lemma quiet_inv {A} s (Q : A → Store → Prop) r s' : inv s → quiet s Q r s' → inv s'.
Proof. intros I (Hs & _). by apply (steps_inv false s). Qed.

Lemma latest_quiet s stream :
  inv s → post (latestSTHAnchorResultLocked stream) s
    (quiet s (λ o _, match o with
       | Some x => greatest stream (ResultKey x) s ∧ result_ok s x ∧ published s x
       | None => no_result stream s
       end)).
Proof.
  intros I. eapply post_mono; [by apply latest_locked|]. intros r s' (? & ? & Hr).
  split_and!; [done..|]. by intros o ->.
Qed.

Lemma greatest_tables stream k s s' : results s' = results s → greatest stream k s → greatest stream k s'.
Proof. unfold greatest, has_result. by intros ->. Qed.

Lemma stage_latest s r stream :
  inv s → post (stageLatest r stream) s (quiet s (λ ws s', staged r stream ws s')).
Proof.
  intros I. unfold stageLatest. apply post_bind. eapply post_mono; [by apply latest_quiet|].
  intros [o|e] s' (Hs & Ht & Ho); [|by split_and!]. specialize (Ho o eq_refl).
  assert (inv s') as I' by by apply (steps_inv false s).
  eapply post_mono; [|intros ? ?; apply (quiet_trans s s'); done]. pose proof Ht as (Hr & _).
  assert (∀ k, has_result s' k → has_result s k) as Hh by (intros k; unfold has_result; by rewrite Hr).
  destruct o as [x|]; cbn [negb].
  - destruct Ho as [Hg _]. destruct (Z.leb_spec (CompareResultKeys (ResultKey r) (ResultKey x)) 0).
    { apply post_ret, quiet_refl. intros ws [= <-]. left. split; [done|]. exists (ResultKey x).
      split; [by apply (greatest_tables _ _ s)|lia]. }
    apply post_lift_bind; [intros; by apply quiet_refl|]. intros data Hd%wrap_err_Ok.
    apply post_ret, quiet_refl. intros ws [= <-]. right. exists data. split_and!; [done..|].
    intros k Hk Hst. apply (compare_le_trans _ (ResultKey x)); [apply Hg; [by apply Hh|done]|].
    pose proof (compare_sym (ResultKey x) (ResultKey r)). lia.
  - apply post_lift_bind; [intros; by apply quiet_refl|]. intros data Hd%wrap_err_Ok.
    apply post_ret, quiet_refl. intros ws [= <-]. right. exists data. split_and!; [done..|].
    intros k Hk Hst. by destruct (Ho k (Hh k Hk)).
Qed.

(** A reference stays right when a result is stored, if the result is not in
    its stream or not greater than the greatest one. *)
Lemma ref_kept s s' r data stream b :
  results s' = <[ResultKey r := data]> (results s) → ref_ok stream b s →
  (in_stream stream (ResultKey r) → ∃ k, greatest stream k s ∧ CompareResultKeys (ResultKey r) k <= 0) →
  ref_ok stream b s'.
Proof.
  intros Er (ref & Hb & Hok) Hst. exists ref. split; [done|].
  assert (∀ k, has_result s' k ↔ k = ResultKey r ∨ has_result s k) as Hh.
  { intros k. unfold has_result. rewrite Er. destruct (decide (k = ResultKey r)) as [-> |Hne].
    - rewrite lookup_insert_eq. split; [by left|by eexists].
    - rewrite lookup_insert_ne by done. naive_solver. }
  destruct Hok as [[Hs Hg]|[Hs Hn]]; [left|right]; (split; [done|]).
  - destruct Hg as (H1' & H2' & H3'). split_and!; [apply Hh; by right|done|].
    intros k' [-> |Hk]%Hh Hin; [|by apply H3'].
    destruct (Hst Hin) as (k & (Hk1 & Hk2 & _) & Hle). apply (compare_le_trans _ k); [done|by apply H3'].
  - intros k [-> |Hk]%Hh Hin; [|by apply (Hn k)].
    destruct (Hst Hin) as (k & (Hk1 & Hk2 & _) & _). by apply (Hn k).
Qed.

Lemma ref_new s s' r data stream b :
  results s' = <[ResultKey r := data]> (results s) → encodes b (LatestReference r) →
  in_stream stream (ResultKey r) →
  (∀ k, has_result s k → in_stream stream k → CompareResultKeys k (ResultKey r) <= 0) →
  ref_ok stream b s'.
Proof.
  intros Er Hb Hin Hle. exists (LatestReference r). split; [done|]. left. split; [done|].
  unfold greatest, has_result. cbn. rewrite Er, lookup_insert_eq. split_and!; [by eexists|done|].
  intros k Hk Hst. destruct (decide (k = ResultKey r)) as [-> |Hne]; [by rewrite compare_refl|].
  rewrite lookup_insert_ne in Hk by done. by apply Hle.
Qed.

Definition apply_latest (ws : list write) (m : gmap (option SKey.t) bytes) : gmap (option SKey.t) bytes :=
  latest (foldl set (mkStore (pebble.mkStore empty_contents ∅ "" (Ok tt) 0) ∅ m ∅ ∅ ∅) ws).

(** The writes of the references touch only their table. *)
Lemma staged_tables r all mine s :
  (∃ d, all = [SetLatest None d]) ∨ all = [] →
  (∃ d, mine = [SetLatest (Some (resultStream r)) d]) ∨ mine = [] →
  foldl set s (all ++ mine) =
  mkStore (base s) (results s) (apply_latest (all ++ mine) (latest s)) (treeRoots s) (schedules s)
    (coverage s).
Proof. destruct s. by intros [[d ->]| ->] [[d' ->]| ->]. Qed.

Lemma staged_latest s s' r data all mine stream b :
  inv s → results s' = <[ResultKey r := data]> (results s) →
  staged r None all s → staged r (Some (resultStream r)) mine s →
  apply_latest (all ++ mine) (latest s) !! stream = Some b → ref_ok stream b s'.
Proof.
  intros I Er Ha Hm Hb.
  assert (in_stream (Some (resultStream r)) (ResultKey r)) as Hin by done.
  assert (∀ b, latest s !! stream = Some b →
    (stream = None → ∃ k, greatest stream k s ∧ CompareResultKeys (ResultKey r) k <= 0) →
    (stream = Some (resultStream r) → ∃ k, greatest stream k s ∧ CompareResultKeys (ResultKey r) k <= 0) →
    ref_ok stream b s') as Hold.
  { intros x Hx H1' H2'. apply (ref_kept s s' r data); [done|by apply (i_latest s I)|].
    destruct stream as [y|]; [intros <-; by apply H2'|intros _; by apply H1']. }
  destruct Ha as [[-> Ha]|(d1 & -> & Hd1 & Ha)], Hm as [[-> Hm]|(d2 & -> & Hd2 & Hm)];
    cbn in Hb; rewrite ?lookup_insert_Some in Hb.
  - apply Hold; [done|by intros ->|by intros ->].
  - destruct Hb as [[<- <-]|[Hne Hb]]; [by eapply ref_new|]. apply Hold; [done|by intros ->|done].
  - destruct Hb as [[<- <-]|[Hne Hb]]; [by eapply ref_new|]. apply Hold; [done|done|by intros ->].
  - destruct Hb as [[<- <-]|[Hne [[<- <-]|[Hne' Hb]]]]; [by eapply ref_new..|]. by apply Hold.
Qed.

Lemma stage_root s nodeID logID n root ws :
  validateOrStageSTHAnchorTreeRootLocked nodeID logID n root s = Ok ws →
  (ws = [] ∧ root_of s nodeID logID n = Some root) ∨
  (ws = [SetTreeRoot nodeID logID n root] ∧ root_of s nodeID logID n = None).
Proof.
  unfold validateOrStageSTHAnchorTreeRootLocked, inspectSTHAnchorTreeRootLocked. intros E.
  apply bind_Ok in E as (m & Hm & [= <-]). unfold root_of.
  destruct (treeRoots s !! _) as [v|]; ok_inv; subst; bsimpl; [left|right]; split; congruence.
Qed.

(** Root writes, one after the other, leave the other tables alone. *)
Definition only_roots (ws : list write) : Prop :=
  Forall (λ w, match w with SetTreeRoot _ _ _ _ => True | _ => False end) ws.

Lemma roots_tables ws s :
  only_roots ws →
  results (foldl set s ws) = results s ∧ latest (foldl set s ws) = latest s ∧
  schedules (foldl set s ws) = schedules s.
Proof.
  intros Hw. revert s. induction Hw as [|w ws Hw _ IH]; intros s; [done|]. cbn.
  destruct (IH (set s w)) as (-> & -> & ->). by destruct w.
Qed.

Lemma staged_shape r stream ws s :
  staged r stream ws s → (∃ d, ws = [SetLatest stream d]) ∨ ws = [].
Proof. intros [[-> _]|(d & -> & _)]; eauto. Qed.

Lemma staged_same r stream ws s s' : results s' = results s → staged r stream ws s → staged r stream ws s'.
Proof. unfold staged, greatest, has_result. by intros ->. Qed.

(** The batch of a stored result. *)
Lemma result_steps s r roots data all mine lossy :
  inv s → ValidateResult (resultStream r) r = Ok tt →
  validateOrStageSTHAnchorTreeRootLocked r.(Res.NodeID) r.(Res.LogID) r.(Res.TreeSize)
    r.(Res.RootHash) s = Ok roots →
  encodes data r → updates s r data →
  staged r None all s → staged r (Some (resultStream r)) mine s →
  steps lossy s (foldl set s (roots ++ [SetResult (ResultKey r) data] ++ all ++ mine)).
Proof.
  intros I Hv Hroots Hd Hu Ha Hm. rewrite foldl_app.
  assert (steps lossy s (foldl set s roots) ∧ result_ok (foldl set s roots) r ∧ only_roots roots)
    as (Hs1 & Hok & Hw).
  { apply stage_root in Hroots as [[-> Hr]|[-> Hr]].
    - split_and!; [constructor|done|constructor].
    - split_and!; [by eapply rtc_once, ch_root| |by repeat constructor].
      split; [done|]. unfold root_of. cbn. by rewrite lookup_insert_eq. }
  destruct (roots_tables roots s Hw) as (Er & El & Es). set (s1 := foldl set s roots) in *.
  assert (inv s1) as I1 by by apply (steps_inv lossy s).
  apply (staged_same _ _ _ s s1) in Ha; [|done]. apply (staged_same _ _ _ s s1) in Hm; [|done].
  etrans; [exact Hs1|]. apply rtc_once. cbn [foldl app].
  rewrite (staged_tables r) by (by eapply staged_shape). apply (ch_result _ _ _ r data); try done.
  - intros stream b Hb. by eapply (staged_latest s1).
  - intros b old. rewrite Er. apply Hu.
Qed.

(** The batch of a result that is already stored. *)
Lemma refs_steps s r all mine lossy :
  inv s → has_result s (ResultKey r) →
  staged r None all s → staged r (Some (resultStream r)) mine s →
  steps lossy s (foldl set s (all ++ mine)).
Proof.
  intros I Hr Ha Hm. rewrite foldl_app.
  assert (∀ s stream ws, has_result s (ResultKey r) → in_stream stream (ResultKey r) →
    staged r stream ws s → steps lossy s (foldl set s ws) ∧ results (foldl set s ws) = results s) as Hone.
  { intros x stream ws Hx Hin [[-> _]|(d & -> & Hd & Hle)]; [split; [constructor|done]|].
    split; [|done]. apply rtc_once, (ch_latest _ _ _ stream d); [done|].
    exists (LatestReference r). split; [done|]. left. done. }
  destruct (Hone s None all) as [H1' E1]; [done..|]. etrans; [exact H1'|].
  apply (Hone _ (Some (resultStream r))); [|done|].
  - unfold has_result. by rewrite E1.
  - by eapply staged_same.
Qed.

(** The writes staged at [s'] for the result [r] can be committed. *)
Definition commits (s s' : Store) (r : Res.t) (ws : list write) : Prop :=
  (∀ lossy, steps lossy s' (foldl set s' ws)) ∧ schedules (foldl set s' ws) = schedules s ∧
  has_result (foldl set s' ws) (ResultKey r).

Lemma root_stored s r :
  result_ok s r → validateOrStageSTHAnchorTreeRootLocked r.(Res.NodeID) r.(Res.LogID)
    r.(Res.TreeSize) r.(Res.RootHash) s = Ok [].
Proof.
  intros [_ Hr]. unfold validateOrStageSTHAnchorTreeRootLocked, inspectSTHAnchorTreeRootLocked.
  unfold root_of in Hr. rewrite Hr. by rewrite bytes_equal_refl.
Qed.

Lemma updates_same s s' r data : results s' = results s → updates s r data → updates s' r data.
Proof. unfold updates. by intros ->. Qed.

(** What was staged after the reads of the references commits. *)
Lemma staged_commits s r (wr : bool) roots rs all mine :
  inv s → ValidateResult (resultStream r) r = Ok tt →
  validateOrStageSTHAnchorTreeRootLocked r.(Res.NodeID) r.(Res.LogID) r.(Res.TreeSize)
    r.(Res.RootHash) s = Ok roots →
  (if wr then ∃ data, rs = [SetResult (ResultKey r) data] ∧ encodes data r ∧ updates s r data
   else rs = [] ∧ has_result s (ResultKey r) ∧ result_ok s r) →
  staged r None all s → staged r (Some (resultStream r)) mine s →
  commits s s r (roots ++ rs ++ all ++ mine).
Proof.
  intros I Hv Hroots Hw Ha Hm.
  assert (only_roots roots) as Hor.
  { pose proof Hroots as Hx. apply stage_root in Hx as [[-> _]|[-> _]]; by repeat constructor. }
  destruct wr.
  - destruct Hw as (data & -> & Hd & Hu). split; [intros; by apply result_steps|].
    rewrite foldl_app. cbn [foldl app]. rewrite (staged_tables r) by (by eapply staged_shape). cbn.
    destruct (roots_tables roots s Hor) as (Er & _ & Es). split; [done|].
    unfold has_result. cbn. by rewrite lookup_insert_eq; eexists.
  - destruct Hw as (-> & Hh & Hok). rewrite (root_stored s r Hok) in Hroots.
    injection Hroots as <-. cbn [app]. split; [intros; by apply (refs_steps s r)|].
    by rewrite (staged_tables r) by (by eapply staged_shape).
Qed.

Lemma stage_root_same s s' nodeID logID n root :
  treeRoots s' = treeRoots s →
  validateOrStageSTHAnchorTreeRootLocked nodeID logID n root s' =
  validateOrStageSTHAnchorTreeRootLocked nodeID logID n root s.
Proof. unfold validateOrStageSTHAnchorTreeRootLocked, inspectSTHAnchorTreeRootLocked. by intros ->. Qed.

Lemma stage_result s r (wr : bool) :
  inv s → ValidateResult (resultStream r) r = Ok tt →
  (if wr then ∀ data, encodes data r → updates s r data
   else has_result s (ResultKey r) ∧ result_ok s r) →
  post (stageSTHAnchorResultLocked r wr) s (quiet s (λ ws s', commits s s' r ws)).
Proof.
  intros I Hv Hw. unfold stageSTHAnchorResultLocked.
  apply post_reads_bind; [intros; by apply quiet_refl|]. intros roots Hroots.
  assert (∀ rs, (if wr then ∃ data, rs = [SetResult (ResultKey r) data] ∧ encodes data r else rs = []) →
    post (all ← stageLatest r None; mine ← stageLatest r (Some (resultStream r));
          mret (roots ++ rs ++ all ++ mine)) s (quiet s (λ ws s', commits s s' r ws))) as Hrest.
  { intros rs Hrs. apply post_bind. eapply post_mono; [by apply stage_latest|].
    intros [all|e] s1 Q1; [|by destruct Q1 as (? & ? & _); split_and!].
    pose proof (quiet_inv _ _ _ _ I Q1) as I1. destruct Q1 as (Hs1 & Ht1 & Ha).
    specialize (Ha all eq_refl). apply post_bind. eapply post_mono; [by apply stage_latest|].
    intros [mine|e] s2 Q2;
      [|apply (quiet_trans s s1); [done..|]; destruct Q2 as (? & ? & _); by split_and!].
    pose proof (quiet_inv _ _ _ _ I1 Q2) as I2. destruct Q2 as (Hs2 & Ht2 & Hm).
    specialize (Hm mine eq_refl).
    apply post_ret, (quiet_trans s s1); [done..|]. split_and!; [done..|]. intros ws [= <-].
    destruct Ht1 as (Er1 & Et1 & Es1 & _), Ht2 as (Er2 & Et2 & Es2 & _).
    apply (staged_same _ _ _ s1 s2) in Ha; [|done].
    assert (results s2 = results s) as Er by congruence.
    assert (commits s2 s2 r (roots ++ rs ++ all ++ mine)) as (C1 & C2 & C3).
    { apply (staged_commits s2 r wr); try done.
      - by rewrite (stage_root_same s) by congruence.
      - destruct wr; [destruct Hrs as (data & -> & Hd); exists data|].
        + split_and!; [done..|]. apply (updates_same s); [done|by apply Hw].
        + destruct Hw as [? [? ?]]. unfold has_result, result_ok, root_of in *.
          by rewrite Er, Et2, Et1. }
    split_and!; [done| |done]. rewrite C2. congruence. }
  destruct wr.
  - apply post_bind, post_lift_bind; [intros; by apply quiet_refl|]. intros data Hd%wrap_err_Ok.
    apply post_ret, Hrest. by exists data.
  - apply post_bind, post_ret, Hrest. done.
Qed.

End proofs.
End anchorstore_proofs.
