(* ===== verification/AnchorStoreOps.v ===== *)
(** * The operations on the anchor tables

    Every operation of [AnchorStore] moves the tables along [change]s; runs of
    operations keep the latest results, the canonical roots, the published
    results and the scheduled candidates. *)

From stdpp Require Import relations.
From S2P Require Import Prelude TrustErr CryptoSuite Model TrustCrypto Cborx KeyDescriptor ModelSuite.
From S2P Require Import StoreMonad GlobalStore AnchorSchedule AnchorScheduleProofs L5Coverage AnchorStore AnchorStoreProofs.

Module anchorstore_ops.
Import anchorschedule anchorschedule_proofs anchorkeys anchorstore anchorstore_proofs.

Section proofs.
Context `{KeyDescriptorLib, FiscoLib, CborMode Res.t, CborMode Ref.t, CborMode Sch.t, CborMode Cp.t}.
Context `{!CborModeExact Res.t, !CborModeExact Ref.t, !CborModeExact Sch.t}.

Notation steps lossy := (rtc (change lossy)).

(** ** Transitions of a schedule *)

Lemma effect_subset s o s' :
  effect s o s' → s'.(Sch.Key) = s.(Sch.Key) ∧ scheduleTargets s' ⊆ scheduleTargets s.
Proof.
  unfold scheduleTargets. intros E.
  destruct E as [o|? ? ? ? a Ha|? ? ? ? w Hi Hw|? ? ? ? ? a Ha|? ? ? ? ? a Ha|? ? ? ? a Ha
    |o r p i _ _ _ Hp Hi|a Ha]; (split; [done|]); cbn; rewrite ?Ha, ?Hi, ?Hw; cbn; try done.
  destruct Hp as [-> |[-> _]], Hi as [-> |[-> _]]; set_solver.
Qed.

(** Nothing of the schedule is lost, but what the results cover. *)
Definition keeps (s : Store) (cur next : Sch.t) : Prop :=
  next.(Sch.Key) = cur.(Sch.Key) ∧ scheduleTargets next ⊆ scheduleTargets cur ∧
  ∀ n, reaches n (scheduleTargets cur) →
    reaches n (scheduleTargets next) ∨ covers s cur.(Sch.Key) n.

Lemma keeps_refl s cur : keeps s cur cur.
Proof. split_and!; [done..|]. by left. Qed.

Lemma keeps_trans s a b c : keeps s a b → keeps s b c → keeps s a c.
Proof.
  intros (K1 & T1 & R1) (K2 & T2 & R2). split_and!; [congruence|set_solver|].
  intros n [Hn|Hn]%R1; [|by right]. rewrite <- K1. by apply R2.
Qed.

Lemma keeps_same s s' a b : results s' = results s → keeps s a b → keeps s' a b.
Proof. unfold keeps, covers, has_result. by intros ->. Qed.

Lemma covers_result s r n :
  has_result s (ResultKey r) → n <= r.(Res.TreeSize) → covers s (resultStream r) n.
Proof. intros Hr Hn. by exists (ResultKey r). Qed.

Lemma keeps_op s o cur next :
  apply o (Some cur) = Ok next → (∀ c l, o ≠ OpMerge c l) →
  (∀ r, op_result o = Some r → has_result s (ResultKey r) ∧ resultStream r = cur.(Sch.Key)) →
  keeps s cur next.
Proof.
  intros A Hm Hr. apply apply_effect in A as [_ E]; [|done].
  destruct (effect_subset _ _ _ E) as [Hk Ht]. split_and!; [done..|].
  intros n Hn. destruct (effect_targets n _ _ _ E Hn) as [?|(r & Eo & Hle)]; [by left|right].
  destruct (Hr r Eo) as [Hs <-]. by apply covers_result.
Qed.

Lemma ValidateResult_stream key r : ValidateResult key r = Ok tt → resultStream r = key.
Proof.
  unfold ValidateResult, resultStream. intros V. ok_inv. bsimpl. destruct key; cbn in *. congruence.
Qed.

Lemma keeps_reconcile s cur r next b :
  ReconcileCompleted cur r = Ok (next, b) → has_result s (ResultKey r) → keeps s cur next.
Proof.
  intros R Hr. apply (keeps_op s (OpReconcile r)); [by cbn; rewrite R|done|].
  intros r' [= <-]. split; [done|]. unfold ReconcileCompleted in R. ok_inv.
  apply ValidateResult_stream. by match goal with x : () |- _ => destruct x end.
Qed.

(** The in-flight target is below the pending one. *)
Definition ordered (sch : Sch.t) : Prop :=
  ∀ a w, sch.(Sch.InFlight) = Some a → sch.(Sch.Pending) = Some w →
    a.(Att.Target).(Sth.TreeSize) < w.(Win.Target).(Sth.TreeSize).

Lemma ordered_reconcile cur r next b :
  ReconcileCompleted cur r = Ok (next, b) → ordered cur → ordered next.
Proof.
  unfold ReconcileCompleted. intros R Ho. ok_inv. subst.
  match goal with R : reconcileCompleted _ _ = Ok _ |- _ => apply reconcileCompleted_Ok in R end.
  destruct_or!; [by dex; subst|]. dex. subst. unfold ordered in *. cbn. destruct_or?; dex; subst; naive_solver.
Qed.

(** ** Operations on schedules *)

Lemma reconcile_stored s sch :
  inv s → post (reconcileStoredSTHAnchorResultsLocked sch) s
    (quiet s (λ p s', keeps s' sch p.1 ∧ (ordered sch → ordered p.1))).
Proof.
  intros I. unfold reconcileStoredSTHAnchorResultsLocked. apply post_bind.
  eapply (post_mono _ _ (λ r s', s' = s ∧
    ∀ p, r = Ok p → keeps s sch p.1 ∧ (ordered sch → ordered p.1))).
  { destruct (Sch.InFlight sch) as [a|]; [|apply post_ret; split; [done|]; intros ? [= <-]; split; [apply keeps_refl|done]].
    apply post_reads_bind; [done|]. intros found Hf. destruct found as [r|].
    2: { apply post_ret. split; [done|]. intros ? [= <-]. split; [apply keeps_refl|done]. }
    apply read_result in Hf as (Ek & _ & b & Hb & _); [|done].
    apply post_lift. split; [done|]. intros [next c] R%wrap_err_Ok. split.
    - eapply keeps_reconcile; [done|]. rewrite Ek. by eexists.
    - by eapply ordered_reconcile. }
  intros [[sch1 c]|e] s' [-> Hp]; [|by apply quiet_refl]. destruct (Hp _ eq_refl) as [K1 O1]. clear Hp.
  cbn [fst] in *. destruct (Sch.Pending sch1) as [w|]; [|apply post_ret, quiet_refl; intros p [= <-]; done].
  apply post_bind. eapply post_mono; [by apply latest_quiet|].
  intros [o|e] s1 (Hs1 & Ht1 & Ho); [|by split_and!]. specialize (Ho o eq_refl).
  pose proof Ht1 as (Er & _).
  assert (keeps s1 sch sch1) as K1' by by apply (keeps_same s).
  destruct o as [x|].
  - destruct Ho as [[Hx _] _]. apply post_lift_bind; [intros e; by split_and!|].
    intros [next c'] R%wrap_err_Ok. apply post_ret. split_and!; [done..|]. intros p [= <-]. cbn. split.
    + eapply keeps_trans; [done|]. eapply keeps_reconcile; [done|]. unfold has_result in *. by rewrite Er.
    + intros. eapply ordered_reconcile; [done|]. by apply O1.
  - apply post_ret. split_and!; [done..|]. by intros p [= <-].
Qed.

(** The schedule on disk under a key. *)
Definition on_disk (s : Store) (key : SKey.t) (sch : Sch.t) : Prop :=
  ∃ b, schedules s !! key = Some b ∧ ∀ sch', encodes b sch' → sch' = sch.

Lemma on_disk_same s s' key sch : schedules s' = schedules s → on_disk s key sch → on_disk s' key sch.
Proof. unfold on_disk. by intros ->. Qed.

Lemma targets_same s s' key ts : treeRoots s' = treeRoots s → targets_ok s key ts → targets_ok s' key ts.
Proof. unfold targets_ok, root_of. by intros ->. Qed.

Lemma targets_subset s key ts ts' : ts' ⊆ ts → targets_ok s key ts → targets_ok s key ts'.
Proof. unfold targets_ok. rewrite !Forall_forall. intros Hs Ht t Hin. by apply Ht, Hs. Qed.

(** The change that writes the next schedule. *)
Lemma schedule_change s cur next data :
  on_disk s cur.(Sch.Key) cur → targets_ok s cur.(Sch.Key) (scheduleTargets cur) →
  keeps s cur next → encodes data next →
  steps false s (set s (SetSchedule next.(Sch.Key) data)).
Proof.
  intros (b & Hb & Hd) Ht (Hk & Hs & Hr) He. apply rtc_once, (ch_schedule _ _ _ next data); [done..| |].
  - rewrite Hk. by apply (targets_subset _ _ (scheduleTargets cur)).
  - intros _ b' old n. rewrite Hk, Hb. intros [= <-] ->%Hd. apply Hr.
Qed.

Lemma commit_schedule s cur next :
  on_disk s cur.(Sch.Key) cur → targets_ok s cur.(Sch.Key) (scheduleTargets cur) →
  keeps s cur next → post (commitSTHAnchorSchedule next) s (λ _ s', steps false s s').
Proof.
  intros Hd Ht Hk. unfold commitSTHAnchorSchedule. apply post_lift_bind; [constructor|].
  intros data He%wrap_err_Ok. apply post_modify. cbn. by eapply schedule_change.
Qed.

Lemma must_read s key :
  inv s → post (mustReadSchedule key) s (λ r s', s' = s ∧ ∀ cur, r = Ok cur →
    cur.(Sch.Key) = key ∧ on_disk s key cur ∧ targets_ok s key (scheduleTargets cur)).
Proof.
  intros I. unfold mustReadSchedule. apply post_lift_bind; [done|]. intros _ _.
  apply post_reads_bind; [done|]. intros [cur|] Hf; [|by apply post_lift].
  apply read_schedule in Hf as (Hk & _ & Ht & Hd); [|done]. apply post_ret. split; [done|].
  by intros ? [= <-].
Qed.

(** The operations of the owner of an attempt share this shape. *)
Lemma owner_op s key (f : Sch.t → TrustErr.result Sch.t) o :
  inv s → (∀ cur, apply o (Some cur) = f cur) → op_result o = None → (∀ c l, o ≠ OpMerge c l) →
  post (current ← mustReadSchedule key; next ← lift (f current); commitSTHAnchorSchedule next) s
    (λ _ s', steps false s s').
Proof.
  intros I Hf Hr Hm. apply post_bind. eapply post_mono; [by apply must_read|].
  intros [cur|e] s' [-> Hp]; [|constructor]. destruct (Hp cur eq_refl) as (<- & Hd & Ht).
  apply post_lift_bind; [constructor|]. intros next Hn. apply (commit_schedule s cur); [done..|].
  apply (keeps_op s o); [by rewrite Hf|done|]. intros r. by rewrite Hr.
Qed.

Lemma claim_op s key now until ow tok :
  inv s → post (ClaimSTHAnchorAttempt key now until ow tok) s (λ _ s', steps false s s').
Proof.
  intros I. unfold ClaimSTHAnchorAttempt. apply post_lift_bind; [constructor|]. intros _ _.
  apply post_reads_bind; [constructor|]. intros [cur|] Hf; [|constructor].
  apply read_schedule in Hf as (<- & _ & Ht & Hd); [|done].
  apply post_bind. eapply post_mono; [by apply reconcile_stored|].
  intros [[cur' rec]|e] s1 (Hs1 & (Er & Et & Es & _) & Hp); [|apply Hs1].
  destruct (Hp _ eq_refl) as [Hk _]. cbn [fst] in Hk.
  apply (on_disk_same s s1) in Hd; [|done]. apply (targets_same s s1) in Ht; [|done].
  apply post_lift_bind; [intros; apply Hs1|]. intros [[next att] claimed] Hc.
  assert (∀ x, keeps s1 cur x → ∀ A (v : A), post (_ ← commitSTHAnchorSchedule x; mret v) s1
    (λ _ s', steps false s s')) as Hcommit.
  { intros x Hx A v. apply post_bind. eapply post_mono; [by apply (commit_schedule s1 cur)|].
    intros [u|e] s2 H2'; [apply post_ret|]; (etrans; [apply Hs1|done]). }
  destruct claimed; cbn [negb].
  - apply Hcommit. eapply keeps_trans; [done|].
    apply (keeps_op s1 (OpClaim now until ow tok)); [by cbn; rewrite Hc|done|done].
  - destruct rec; [by apply Hcommit|]. apply post_ret, Hs1.
Qed.

Lemma complete_op s key g tok r :
  inv s → post (CompleteSTHAnchorAttempt key g tok r) s (λ _ s', steps false s s').
Proof.
  intros I. unfold CompleteSTHAnchorAttempt. apply post_reads_bind; [constructor|]. intros _ _.
  apply post_lift_bind; [constructor|]. intros [] Hv. pose proof (ValidateResult_stream _ _ Hv) as Ek.
  apply post_reads_bind; [constructor|]. intros cur Hcur. apply read_schedule in Hcur; [|done].
  apply post_reads_bind; [constructor|]. intros found Hf. apply read_result in Hf; [|done].
  destruct found as [x|].
  - destruct Hf as (Exk & _ & b & Hb & _). apply post_lift_bind; [constructor|]. intros _ _.
    apply post_if; intros _; [constructor|]. destruct cur as [cur|]; [|constructor].
    destruct Hcur as (<- & _ & Ht & Hd). apply post_if; intros _; [constructor|].
    apply post_lift_bind; [constructor|]. intros [next ch] R. apply post_if; intros _; [constructor|].
    apply (commit_schedule s cur); [done..|]. eapply keeps_reconcile; [done|]. rewrite Exk. by eexists.
  - destruct cur as [cur|]; [|constructor]. destruct Hcur as (Ek' & _ & Ht & Hd). rewrite <- Ek' in *.
    apply post_lift_bind; [constructor|]. intros next Hn. apply post_lift_bind; [constructor|].
    intros data Hdata%wrap_err_Ok. apply post_bind. eapply post_mono.
    { apply (stage_result s r true); [done|by rewrite Ek|]. intros d _ b' old Hb'. congruence. }
    intros [ws|e] s1 (Hs1 & (Er & Et & Es & _) & Hw); [|apply Hs1].
    destruct (Hw ws eq_refl) as (C1 & C2 & C3). apply post_modify. rewrite foldl_app. cbn [foldl].
    etrans; [apply Hs1|]. etrans; [apply C1|]. set (s2 := foldl set s1 ws) in *.
    assert (inv s2) as I2.
    { apply (steps_inv false s1); [|apply C1]. by apply (steps_inv false s); [|apply Hs1]. }
    apply (on_disk_same s s2) in Hd; [|done].
    assert (targets_ok s2 cur.(Sch.Key) (scheduleTargets cur)) as Ht2.
    { destruct Hd as (b & Hb & Hx). destruct (i_schedule s2 I2 _ b Hb) as (sch & Hsch & _ & Hok).
      by rewrite (Hx sch Hsch) in Hok. }
    apply (schedule_change s2 cur next data); [done..| |done].
    apply (keeps_op s2 (OpComplete g tok r)); [done..|]. intros ? [= <-]. by split.
Qed.

Lemma put_op s r : inv s → post (PutSTHAnchorResult r) s (λ _ s', ∀ lossy, steps lossy s s').
Proof.
  intros I. assert (∀ lossy, steps lossy s s) as Hrefl by (intros; constructor).
  unfold PutSTHAnchorResult. apply post_reads_bind; [done|]. intros _ _.
  apply post_lift_bind; [done|]. intros [] Hv. apply post_reads_bind; [done|]. intros found Hf.
  apply read_result in Hf; [|done]. apply post_lift_bind; [done|]. intros r' Hr'.
  assert (post (stageSTHAnchorResultLocked r' (match found with Some _ => false | None => true end)) s
    (quiet s (λ ws s', commits s s' r' ws))) as Hst.
  { destruct found as [x|].
    - ok_inv. subst r'. destruct Hf as (Ek & Hok & b & Hb & _).
      apply (stage_result s x false); [done|by apply Hok|]. rewrite Ek. split; [by eexists|done].
    - injection Hr' as <-. apply (stage_result s r true); [done..|]. intros d _ b old Hb. congruence. }
  apply post_bind. eapply post_mono; [exact Hst|]. intros [ws|e] s1 (Hs1 & _ & Hw); [|done].
  destruct (Hw ws eq_refl) as (C1 & _). apply post_modify. intros lossy. etrans; [apply Hs1|apply C1].
Qed.

Lemma same_stored_bytes l r b b' :
  SameStoredResult l r = true → r.(Res.SinkName) = fiscobcos_SinkName →
  encodes b l → encodes b' r → b' = b.
Proof.
  unfold SameStoredResult, encodes. intros E Hs Hb Hb'. rewrite Hs, Hb, Hb' in E.
  rewrite andb_false_r in E. by bsimpl.
Qed.

Lemma update_op s expected r :
  inv s → post (UpdateSTHAnchorResult expected r) s (λ _ s', ∀ lossy, steps lossy s s').
Proof.
  intros I. assert (∀ lossy, steps lossy s s) as Hrefl by (intros; constructor).
  unfold UpdateSTHAnchorResult. apply post_bind, post_wrap, post_reads.
  destruct (wrap_err _ _ _); [|done]. apply post_reads_bind; [done|]. intros _ _.
  apply post_lift_bind; [done|]. intros [] Hv. apply post_lift_bind; [done|]. intros _ _.
  apply post_if; intros _; [done|]. apply post_if; intros Hfisco; [done|].
  apply post_if; intros Hproof; [done|]. apply post_reads_bind; [done|]. intros [x|] Hf; [|done].
  apply read_result in Hf as (Ek & Hok & b & Hb & He & Hu); [|done]. apply post_if; intros Heq; [done|].
  apply negb_false_iff, bool_decide_eq_true in Hproof, Heq. subst x.
  apply post_bind. eapply post_mono.
  { apply (stage_result s r true); [done..|]. intros d Hd b' old Hb' Hold.
    rewrite Hb in Hb'. injection Hb' as <-. rewrite (Hu old Hold). split; [done|].
    intros Hs. apply (same_stored_bytes expected r); [|done..].
    destruct (SameStoredResult expected r); [done|]. by rewrite Hs in Hfisco. }
  intros [ws|e] s1 (Hs1 & _ & Hw); [|done].
  destruct (Hw ws eq_refl) as (C1 & _). apply post_modify. intros lossy. etrans; [apply Hs1|apply C1].
Qed.

(** ** Candidates *)

Lemma merged_key cur c l next :
  merged cur c l next → (∀ x, cur = Some x → x.(Sch.Key) = c.(Cand.Key)) →
  next.(Sch.Key) = c.(Cand.Key) ∧
  scheduleTargets next ⊆ c.(Cand.STH) :: match cur with Some x => scheduleTargets x | None => [] end.
Proof.
  intros M Hk.
  assert (∀ x, (mergeWindow x c).(Sch.Key) = x.(Sch.Key)) as Hw.
  { intros x. unfold mergeWindow. by destruct (Sch.Pending x). }
  assert (∀ x, scheduleTargets (mergeWindow x c) ⊆ c.(Cand.STH) :: scheduleTargets x) as Ht.
  { intros x. rewrite mergeWindow_targets. unfold scheduleTargets. set_solver. }
  inversion M; simplify_eq; rewrite ?Hw; (split; [by auto|]); cbn; try set_solver.
Qed.

(** A schedule with a target of at least this size, or a published result. *)
Definition covered (s : Store) (key : SKey.t) (n : Z) : Prop :=
  (∃ b sch, schedules s !! key = Some b ∧ encodes b sch ∧ reaches n (scheduleTargets sch)) ∨
  covers s key n.

Definition merge_spec (c : Cand.t) (p : Sch.t * bool * bool) (s : Store) : Prop :=
  let '(next, changed, missing) := p in
  next.(Sch.Key) = c.(Cand.Key) ∧
  (missing = false → root_of s c.(Cand.Key).(SKey.NodeID) c.(Cand.Key).(SKey.LogID)
     c.(Cand.STH).(Sth.TreeSize) = Some c.(Cand.STH).(Sth.RootHash)) ∧
  (missing = true → root_of s c.(Cand.Key).(SKey.NodeID) c.(Cand.Key).(SKey.LogID)
     c.(Cand.STH).(Sth.TreeSize) = None) ∧
  (∀ t, t ∈ scheduleTargets next → t = c.(Cand.STH) ∨
     root_of s c.(Cand.Key).(SKey.NodeID) c.(Cand.Key).(SKey.LogID) t.(Sth.TreeSize)
       = Some t.(Sth.RootHash)) ∧
  (∀ b old n, schedules s !! c.(Cand.Key) = Some b → encodes b old →
     reaches n (scheduleTargets old) → reaches n (scheduleTargets next)) ∧
  (reaches c.(Cand.STH).(Sth.TreeSize) (scheduleTargets next) ∨
   covers s c.(Cand.Key) c.(Cand.STH).(Sth.TreeSize)) ∧
  (changed = false → ∃ b, schedules s !! c.(Cand.Key) = Some b ∧ encodes b next).

Lemma inspect_root s nodeID logID n root missing :
  inspectSTHAnchorTreeRootLocked nodeID logID n root s = Ok missing →
  root_of s nodeID logID n = if missing then None else Some root.
Proof.
  unfold inspectSTHAnchorTreeRootLocked, root_of. destruct (treeRoots s !! _) as [v|]; intros E; ok_inv; subst; [|done].
  bsimpl. congruence.
Qed.

Lemma MergeCandidate_unchanged cur c l next :
  MergeCandidate cur c l = Ok (next, false) → cur = Some next.
Proof.
  unfold MergeCandidate. intros M. apply bind_Ok in M as ([] & _ & M).
  apply bind_Ok in M as (x & Hx & M).
  assert (∀ y, match againstTargets (Cand.STH c) (scheduleTargets x) with
      | Some r => _ ← r; Ok (x, false) | None => Ok (mergeWindow x c, true) end = Ok (y, false) → y = x ∧
      againstTargets (Cand.STH c) (scheduleTargets x) ≠ None) as Hm.
  { intros y. destruct (againstTargets _ _); intros E; ok_inv; simplify_eq; done. }
  destruct cur as [cur|].
  - ok_inv. simplify_eq. f_equal. symmetry. destruct l as [l|]; [|by apply Hm]. ok_inv.
    destruct (_ <=? _); [by injection M|by apply Hm].
  - injection Hx as <-. destruct l as [l|]; [|by destruct (Hm next M)]. ok_inv.
    destruct (_ <=? _); [done|by destruct (Hm next M)].
Qed.

Lemma merge_locked s c :
  inv s → post (mergeSTHAnchorCandidateLocked c) s (quiet s (λ p s', merge_spec c p s')).
Proof.
  intros I. unfold mergeSTHAnchorCandidateLocked.
  apply post_reads_bind; [intros; by apply quiet_refl|]. intros cur Hcur.
  apply read_schedule in Hcur; [|done].
  apply post_reads_bind; [intros; by apply quiet_refl|]. intros missing Hmiss%inspect_root.
  apply post_bind. eapply post_mono; [by apply latest_quiet|].
  intros [l|e] s1 (Hs1 & Ht1 & Hl); [|by split_and!]. specialize (Hl l eq_refl).
  assert (inv s1) as I1 by by apply (steps_inv false s). pose proof Ht1 as (Er & Et & Es & _).
  eapply post_mono; [|intros ? ?; by apply (quiet_trans s s1)].
  apply post_reads_bind; [intros; by apply quiet_refl|]. intros exact Hex. apply read_result in Hex; [|done].
  apply post_lift_bind; [intros; by apply quiet_refl|]. intros l' Hl'.
  apply post_lift_bind; [intros; by apply quiet_refl|]. intros [next ch] Hm.
  apply post_ret, quiet_refl. intros p [= <-].
  assert (∀ r, l' = Some r → has_result s1 (ResultKey r) ∧ resultStream r = c.(Cand.Key)) as Hcov.
  { intros r ->. destruct exact as [x|].
    - apply bind_Ok in Hl' as (_ & _ & Hl'). destruct Hex as (Ekx & _ & b & Hb & _).
      assert (r = x ∨ l = Some r) as [-> | ->] by (destruct l as [y|]; [case_match|]; naive_solver).
      + rewrite resultStream_key, Ekx. split; [by eexists|by destruct (Cand.Key c)].
      + destruct Hl as [(Hr & Hst & _) _]. unfold has_result. by rewrite Er.
    - injection Hl' as ->. destruct Hl as [(Hr & Hst & _) _]. unfold has_result. by rewrite Er. }
  pose proof (merged_covered_by _ _ _ _ _ Hm) as Hby.
  pose proof (MergeCandidate_Ok _ _ _ _ _ Hm) as [_ M].
  assert (∀ x, cur = Some x → x.(Sch.Key) = c.(Cand.Key)) as Hk by (intros x ->; apply Hcur).
  destruct (merged_key _ _ _ _ M Hk) as [Hkey Hsub].
  unfold merge_spec, root_of in *. rewrite Et, Es. split_and!; [done|intros ->; done|intros ->; done|..].
  - intros t [-> |Hin]%Hsub%elem_of_cons; [by left|right]. destruct cur as [x|]; [|by apply elem_of_nil in Hin].
    destruct Hcur as (_ & _ & Hok & _). unfold targets_ok, root_of in Hok.
    rewrite Forall_forall in Hok. by apply Hok.
  - intros b old n Hb Hold Hr. destruct cur as [x|]; [|congruence].
    destruct Hcur as (_ & _ & _ & b' & Hb' & Hu). rewrite Hb in Hb'. injection Hb' as <-.
    rewrite (Hu old Hold) in Hr. inversion M; simplify_eq; [done..|]. by apply mergeWindow_exists.
  - destruct Hby as [?|(r & Hr & Hle)]; [by left|right]. destruct (Hcov r Hr) as [? <-].
    by apply covers_result.
  - intros ->. apply MergeCandidate_unchanged in Hm as ->. destruct Hcur as (_ & _ & _ & b & Hb & Hu).
    exists b. split; [done|]. destruct (i_schedule s I _ b Hb) as (sch & Hsch & _). by rewrite <- (Hu sch Hsch).
Qed.

(** The root of a candidate, when it is missing. *)
Definition root_write (c : Cand.t) (missing : bool) : list write :=
  if missing then
    [SetTreeRoot c.(Cand.Key).(SKey.NodeID) c.(Cand.Key).(SKey.LogID)
       c.(Cand.STH).(Sth.TreeSize) c.(Cand.STH).(Sth.RootHash)]
  else [].

Lemma merge_root s c next ch missing :
  merge_spec c (next, ch, missing) s →
  let s2 := foldl set s (root_write c missing) in
  steps false s s2 ∧ schedules s2 = schedules s ∧ results s2 = results s ∧
  targets_ok s2 next.(Sch.Key) (scheduleTargets next).
Proof.
  intros (Hk & Hr0 & Hr1 & Hts & _). destruct missing; cbn; split_and!; try done.
  - eapply rtc_once, ch_root; [done|by apply Hr1].
  - apply Forall_forall. intros t Ht. rewrite Hk. unfold root_of. cbn.
    destruct (decide (t.(Sth.TreeSize) = c.(Cand.STH).(Sth.TreeSize))) as [En|Hne].
    + rewrite En, lookup_insert_eq. destruct (Hts t Ht) as [-> |Hx]; [done|].
      rewrite En, Hr1 in Hx by done. done.
    + rewrite lookup_insert_ne by congruence. by destruct (Hts t Ht) as [-> |].
  - apply Forall_forall. intros t Ht. rewrite Hk. destruct (Hts t Ht) as [-> |Hx]; [by apply Hr0|done].
Qed.

Lemma candidate_op s c :
  inv s → post (commitCandidateLocked c) s (λ r s', steps false s s' ∧
    ∀ next, r = Ok next → covered s' c.(Cand.Key) c.(Cand.STH).(Sth.TreeSize)).
Proof.
  intros I. unfold commitCandidateLocked. apply post_bind. eapply post_mono; [by apply merge_locked|].
  intros [[[next ch] missing]|e] s1 (Hs1 & _ & Hp); [|by split].
  pose proof (Hp _ eq_refl) as Hspec. clear Hp.
  pose proof (merge_root _ _ _ _ _ Hspec) as (Hs2 & Es2 & Er2 & Ht2).
  destruct Hspec as (Hk & _ & _ & _ & Hold & Hcov & Hun).
  assert (∀ b s2, schedules s2 = schedules s1 → results s2 = results s1 →
    schedules s1 !! c.(Cand.Key) = Some b → encodes b next →
    covered s2 c.(Cand.Key) c.(Cand.STH).(Sth.TreeSize)) as Hkeep.
  { intros b s2 E1 E2 Hb Hen. unfold covered, covers, has_result. rewrite E1, E2.
    destruct Hcov as [?|?]; [left; by exists b, next|by right]. }
  apply post_if; intros Hchk.
  { apply post_ret. split; [apply Hs1|]. intros ? [= <-]. bsimpl. destruct Hun as (b & Hb & Hen); [done|].
    by apply (Hkeep b). }
  destruct ch.
  - apply post_bind, post_lift_bind; [intros e; split; [apply Hs1|done]|]. intros data Hd%wrap_err_Ok.
    apply post_ret, post_bind, post_modify, post_ret. fold (root_write c missing).
    assert (foldl set s1 ([SetSchedule next.(Sch.Key) data] ++ root_write c missing)
      = set (foldl set s1 (root_write c missing)) (SetSchedule next.(Sch.Key) data)) as ->
      by by destruct missing.
    split.
    + etrans; [apply Hs1|]. etrans; [exact Hs2|].
      apply rtc_once, (ch_schedule _ _ _ next data); [done..|]. rewrite Hk, Es2. intros _ b old n Hb Ho Hn.
      left. by eapply Hold.
    + intros ? _. unfold covered, covers, has_result. cbn. rewrite Hk, lookup_insert_eq, Er2.
      destruct Hcov as [?|?]; [left; by exists data, next|by right].
  - apply post_bind, post_ret, post_bind, post_modify, post_ret. cbn [app].
    destruct Hun as (b & Hb & Hen); [done|].
    split; [etrans; [apply Hs1|exact Hs2]|]. intros ? _. by apply (Hkeep b).
Qed.

Lemma upsert_op s c :
  inv s → post (UpsertSTHAnchorCandidate c) s (λ r s', steps false s s' ∧
    ∀ next, r = Ok next → covered s' c.(Cand.Key) c.(Cand.STH).(Sth.TreeSize)).
Proof.
  intros I. unfold UpsertSTHAnchorCandidate. apply post_reads_bind; [by split|]. intros _ _.
  apply post_lift_bind; [by split|]. intros _ _. by apply candidate_op.
Qed.

(** ** Restored schedules *)

(** The roots of the targets are staged against the same store; their sizes
    differ. *)
Lemma stage_targets lossy s key ts ws :
  inv s → stageTargetRoots key ts s = Ok ws → NoDup (map Sth.TreeSize ts) →
  steps lossy s (foldl set s ws) ∧ targets_ok (foldl set s ws) key ts ∧
  schedules (foldl set s ws) = schedules s ∧ results (foldl set s ws) = results s ∧
  ∀ n, n ∉ map Sth.TreeSize ts →
    root_of (foldl set s ws) key.(SKey.NodeID) key.(SKey.LogID) n =
    root_of s key.(SKey.NodeID) key.(SKey.LogID) n.
Proof.
  intros I. revert ws. induction ts as [|t ts IH] using rev_ind; intros ws E Hnd.
  { injection E as <-. split_and!; [constructor|constructor|done..]. }
  assert (∃ ws1 ws2, ws = ws1 ++ ws2 ∧ stageTargetRoots key ts s = Ok ws1 ∧
    validateOrStageSTHAnchorTreeRootLocked key.(SKey.NodeID) key.(SKey.LogID) t.(Sth.TreeSize)
      t.(Sth.RootHash) s = Ok ws2) as (ws1 & ws2 & -> & E1 & E2).
  { clear -E. revert ws E. induction ts as [|x ts IH]; intros ws E; cbn in E.
    - ok_inv. subst. exists [], x. split_and!; [|done..]. by rewrite app_nil_r.
    - apply bind_Ok in E as (a & Ha & E). apply bind_Ok in E as (b & Hb & [= <-]).
      destruct (IH b Hb) as (w1 & w2 & -> & Hw1 & Hw2). exists (a ++ w1), w2.
      split_and!; [by rewrite app_assoc|cbn; by rewrite Ha, Hw1|done]. }
  rewrite map_app in Hnd. apply NoDup_app in Hnd as (Hnd & Hnotin & _).
  destruct (IH ws1 E1 Hnd) as (S1 & T1 & Es & Er & Hroot). rewrite foldl_app.
  set (s1 := foldl set s ws1) in *.
  assert (t.(Sth.TreeSize) ∉ map Sth.TreeSize ts) as Hni.
  { intros Hin. apply (Hnotin _ Hin). cbn. apply list_elem_of_here. }
  apply stage_root in E2. rewrite <- (Hroot _ Hni) in E2. destruct E2 as [[-> Hr]|[-> Hr]]; cbn [foldl].
  - split_and!; [done| |done..|].
    + apply Forall_app. split; [done|]. by repeat constructor.
    + intros n Hn. apply Hroot. rewrite map_app in Hn. set_solver.
  - split_and!; [|apply Forall_app; split|done..|].
    + etrans; [exact S1|]. by eapply rtc_once, ch_root.
    + eapply Forall_impl; [exact T1|]. intros x Hx. cbn in *. unfold root_of in *. cbn.
      rewrite lookup_insert_ne; [done|]. intros [= En]. rewrite <- En in Hx. congruence.
    + repeat constructor. unfold root_of. cbn. by rewrite lookup_insert_eq.
    + intros n Hn. rewrite <- Hroot by (rewrite map_app in Hn; set_solver). unfold root_of. cbn.
      rewrite lookup_insert_ne; [done|]. intros [= <-]. rewrite map_app in Hn. set_solver.
Qed.

Lemma ordered_nodup sch : ordered sch → NoDup (map Sth.TreeSize (scheduleTargets sch)).
Proof.
  unfold ordered, scheduleTargets. intros Ho.
  destruct (Sch.InFlight sch) as [a|], (Sch.Pending sch) as [w|]; cbn; repeat constructor; try set_solver.
  rewrite list_elem_of_singleton. specialize (Ho a w eq_refl eq_refl). lia.
Qed.

Lemma restore_op s sch replace :
  inv s → post (restoreSTHAnchorSchedule sch replace) s (λ _ s', steps replace s s').
Proof.
  intros I. unfold restoreSTHAnchorSchedule. apply post_reads_bind; [constructor|]. intros _ _.
  apply post_lift_bind; [constructor|]. intros [] Hv%ValidateSchedule_Ok.
  apply post_if; intros _; [constructor|]. apply post_bind, post_wrap.
  eapply post_mono; [by apply reconcile_stored|]. intros [[sch' ch]|e] s1 Q; [|apply Q].
  pose proof (quiet_inv _ _ _ _ I Q) as I1. destruct Q as (Hs1 & _ & Hp). destruct (Hp _ eq_refl) as [_ Ho].
  cbn [fst wrap_err] in *.
  assert (ordered sch') as Ho'.
  { apply Ho. intros a w Ha Hw. by apply (so_order sch Hv w a). }
  apply post_reads_bind; [intros; apply Hs1|]. intros existing He. apply read_schedule in He; [|done].
  apply post_if; intros _; [apply post_ret, Hs1|]. apply post_if; intros Hrep; [apply post_lift, Hs1|].
  apply post_lift_bind; [intros; apply Hs1|]. intros data Hd%wrap_err_Ok.
  apply post_reads_bind; [intros; apply Hs1|]. intros roots Hr. apply post_modify.
  destruct (stage_targets replace s1 _ _ roots I1 Hr) as (S2 & T2 & Es & Er & _); [by apply ordered_nodup|].
  rewrite foldl_app. cbn [foldl]. etrans; [apply Hs1|]. etrans; [exact S2|].
  apply rtc_once, (ch_schedule _ _ _ sch' data); [done..|]. intros -> b old n Hb.
  destruct existing; [done|]. rewrite Es in Hb. congruence.
Qed.

(** ** Runs *)

Inductive op :=
| Put (r : Res.t)
| Update (expected r : Res.t)
| Upsert (c : Cand.t)
| Claim (key : SKey.t) (now leaseUntil : Z) (owner token : string)
| CompareAndSwap (key : SKey.t) (generation : Z) (token : string) (now : Z) (expected next : bytes)
| Reschedule (key : SKey.t) (generation : Z) (token : string) (attempts nextAttempt : Z) (err : string)
| Fail (key : SKey.t) (generation : Z) (token : string) (attempts : Z) (err : string)
| Complete (key : SKey.t) (generation : Z) (token : string) (r : Res.t)
| PutSchedule (sch : Sch.t)
| ReplaceSchedule (sch : Sch.t)
| Latest
| LatestForKey (key : SKey.t)
| Advance (key : SKey.t) (n now : Z).

(** The store after an operation, whether it succeeded or not. *)
Definition exec (o : op) (s : Store) : Store :=
  match o with
  | Put r => (PutSTHAnchorResult r s).1
  | Update e r => (UpdateSTHAnchorResult e r s).1
  | Upsert c => (UpsertSTHAnchorCandidate c s).1
  | Claim k now until ow tok => (ClaimSTHAnchorAttempt k now until ow tok s).1
  | CompareAndSwap k g tok now e n => (CompareAndSwapSTHAnchorProviderState k g tok now e n s).1
  | Reschedule k g tok n next err => (RescheduleSTHAnchorAttempt k g tok n next err s).1
  | Fail k g tok n err => (FailSTHAnchorAttempt k g tok n err s).1
  | Complete k g tok r => (CompleteSTHAnchorAttempt k g tok r s).1
  | PutSchedule sch => (PutSTHAnchorSchedule sch s).1
  | ReplaceSchedule sch => (ReplaceSTHAnchorSchedule sch s).1
  | Latest => (LatestSTHAnchorResult s).1
  | LatestForKey k => (LatestSTHAnchorResultForKey k s).1
  | Advance k n now => (AdvanceL5CoverageCheckpoint k n now s).1
  end.

Definition is_replace (o : op) : bool := match o with ReplaceSchedule _ => true | _ => false end.

Definition run (ops : list op) (s : Store) : Store := foldl (λ s o, exec o s) s ops.

Definition empty (b : pebble.Store) : Store := mkStore b ∅ ∅ ∅ ∅ ∅.

Lemma advance_op s key n now :
  post (AdvanceL5CoverageCheckpoint key n now) s (λ _ s', ∀ lossy, steps lossy s s').
Proof.
  unfold AdvanceL5CoverageCheckpoint. apply post_reads_bind; [constructor|]. intros cur _.
  apply post_reads_bind; [constructor|]. intros [next ch] _. apply post_if; intros _; [constructor|].
  apply post_lift_bind; [constructor|]. intros data _. apply post_bind, post_modify, post_ret.
  intros lossy. by eapply rtc_once, ch_coverage.
Qed.

Lemma exec_steps o s : inv s → steps (is_replace o) s (exec o s).
Proof.
  intros I. destruct o; cbn [exec is_replace].
  - apply (put_op s r I).
  - apply (update_op s expected r I).
  - apply (upsert_op s c I).
  - apply (claim_op s key now leaseUntil owner token I).
  - apply (owner_op s key (λ cur, anchorschedule.CompareAndSwapProviderState cur generation token now expected next)
      (OpCompareAndSwap generation token now expected next)); done.
  - apply (owner_op s key (λ cur, anchorschedule.Reschedule cur generation token attempts nextAttempt err)
      (OpReschedule generation token attempts nextAttempt err)); done.
  - apply (owner_op s key (λ cur, anchorschedule.Fail cur generation token attempts err)
      (OpFail generation token attempts err)); done.
  - apply (complete_op s key generation token r I).
  - apply (restore_op s sch false I).
  - apply (restore_op s sch true I).
  - apply (latest_locked s None I).
  - refine (post_lift_bind _ _ _ (λ _ s', steps false s s') _ _); [constructor|]. intros _ _.
    eapply post_mono; [by apply latest_locked|]. intros ? ? Hl. apply Hl.
  - apply (advance_op s key n now).
Qed.

Lemma empty_inv b : inv (empty b).
Proof. constructor; cbn; intros; by simplify_map_eq. Qed.

Lemma store_run_inv ops s : inv s → inv (run ops s).
Proof.
  revert s. induction ops as [|o ops IH]; intros s I; [done|]. cbn. apply IH.
  by apply (steps_inv (is_replace o) s), exec_steps.
Qed.

Lemma store_run_app ops1 ops2 s : run (ops1 ++ ops2) s = run ops2 (run ops1 s).
Proof. apply foldl_app. Qed.

(** ** What the store promises *)

Definition latest_of (stream : option SKey.t) : io Store (option Res.t) :=
  match stream with None => LatestSTHAnchorResult | Some key => LatestSTHAnchorResultForKey key end.

(** C17: the latest anchor result is the greatest one. After any operations on an
    empty store, a lookup of the latest result (of the whole store, or of one
    node, log and sink) that succeeds returns a stored result whose key no
    stored key of the stream exceeds, or nothing when the stream has no result;
    the lookup changes no result. The cached reference never shows. *)
Theorem latest_is_greatest b ops stream s' o :
  let s := run ops (empty b) in
  latest_of stream s = (s', Ok o) →
  match o with
  | Some r => published s r ∧ in_stream stream (ResultKey r) ∧
      ∀ k, has_result s k → in_stream stream k → CompareResultKeys k (ResultKey r) <= 0
  | None => ∀ k, has_result s k → ¬ in_stream stream k
  end ∧ results s' = results s.
Proof.
  intros s E. assert (inv s) as I by apply store_run_inv, empty_inv.
  assert (latestSTHAnchorResultLocked stream s = (s', Ok o)) as El.
  { destruct stream as [k|]; [|done]. cbn in E. unfold LatestSTHAnchorResultForKey in E.
    apply io_bind_Ok in E as (s1 & [] & [-> _]%lift_Ok & E). done. }
  apply (post_intro _ _ _ (latest_locked s stream I)) in El as (_ & (Er & _) & Hl).
  split; [|done]. destruct o as [r|]; [|done]. destruct Hl as ((_ & ? & ?) & _ & ?). done.
Qed.

(** The root hash that a stored result or a scheduled target gives a tree size
    of a log. *)
Definition gives_root (s : Store) (nodeID logID : string) (n : Z) (root : bytes) : Prop :=
  (∃ k r, GetSTHAnchorResultForKey k s = Ok (Some r) ∧ r.(Res.NodeID) = nodeID ∧
     r.(Res.LogID) = logID ∧ r.(Res.TreeSize) = n ∧ r.(Res.RootHash) = root) ∨
  (∃ key sch t, GetSTHAnchorSchedule key s = Ok (Some sch) ∧ t ∈ scheduleTargets sch ∧
     key.(SKey.NodeID) = nodeID ∧ key.(SKey.LogID) = logID ∧ t.(Sth.TreeSize) = n ∧
     t.(Sth.RootHash) = root).

(** C18: one root per tree. After any operations, all the results and all the
    scheduled targets that the store returns for one size of one log, whatever
    their sinks, have the same root hash. *)
Theorem one_root b ops nodeID logID n root1 root2 :
  let s := run ops (empty b) in
  gives_root s nodeID logID n root1 → gives_root s nodeID logID n root2 → root1 = root2.
Proof.
  intros s. assert (inv s) as I by apply store_run_inv, empty_inv.
  assert (∀ root, gives_root s nodeID logID n root → root_of s nodeID logID n = Some root) as Hg.
  { intros root [(k & r & E & <- & <- & <- & <-)|(key & sch & t & E & Hin & <- & <- & <- & <-)];
      apply bind_Ok in E as (_ & _ & E).
    - apply read_result in E as (_ & [_ ?] & _); done.
    - apply read_schedule in E as (_ & _ & Ht & _); [|done]. unfold targets_ok in Ht.
      rewrite Forall_forall in Ht. by apply Ht. }
  intros ?%Hg ?%Hg. congruence.
Qed.

(** The result at a key descends from [r]: at most the proof bytes differ, and
    for the byte-immutable sink nothing does. *)
Definition descends (s : Store) (r : Res.t) : Prop :=
  ∃ b r', results s !! ResultKey r = Some b ∧ encodes b r' ∧ with_proof r'.(Res.Proof) r = r' ∧
    (r.(Res.SinkName) = fiscobcos_SinkName → r' = r).

Lemma with_proof_trans p q r : with_proof p (with_proof q r) = with_proof p r.
Proof. done. Qed.

Lemma change_descends lossy s s' r : change lossy s s' → descends s r → descends s' r.
Proof.
  intros C (b & r' & Hb & He & Hp & Hf).
  destruct C as [stream data -> _|nodeID logID n root -> _|x data Er _ _ _ Hd _ Hu|sch data -> _ _ _|key data ->];
    try (by exists b, r').
  destruct (decide (ResultKey x = ResultKey r)) as [Ek|Hne].
  - rewrite <- Ek in Hb. destruct (Hu b r' Hb He) as [Hw Hfix].
    destruct (decide (r.(Res.SinkName) = fiscobcos_SinkName)) as [Hs|Hs].
    + exists b, r'. split_and!; [|done..]. rewrite Er, Ek, lookup_insert_eq. f_equal. apply Hfix.
      unfold ResultKey in Ek. congruence.
    + exists data, x. split_and!; [by rewrite Er, Ek, lookup_insert_eq|done| |done].
      by rewrite <- Hp, with_proof_trans in Hw.
  - exists b, r'. split_and!; [|done..]. by rewrite Er, lookup_insert_ne.
Qed.

Lemma run_change (P : Store → Prop) (lossy : bool) ops s :
  inv s → (∀ s s', change lossy s s' → P s → P s') →
  Forall (λ o, is_replace o = true → lossy = true) ops → P s → P (run ops s).
Proof.
  intros I HP Ho. revert s I. induction Ho as [|o ops Ho _ IH]; intros s I Hs; [done|]. cbn.
  pose proof (exec_steps o s I) as Hx.
  assert (steps lossy s (exec o s)) as Hy.
  { destruct (is_replace o) eqn:Eo; [by rewrite Ho|]. destruct lossy; [|done].
    clear -Hx. induction Hx as [|x y z C _ Hyz]; [constructor|]. eapply rtc_l; [|exact Hyz].
    destruct C; [by eapply ch_latest|by eapply ch_root|by eapply ch_result|by eapply ch_schedule|by eapply ch_coverage]. }
  apply IH; [by apply (steps_inv lossy s)|]. clear -Hy HP Hs. induction Hy; eauto.
Qed.

(** C19: published results are immutable. A result that the store returned stays
    stored under its key, whatever operations follow; only the bytes of its
    proof may be replaced, and those of a FISCO BCOS result may not. *)
Theorem results_immutable b ops1 ops2 k r :
  GetSTHAnchorResultForKey k (run ops1 (empty b)) = Ok (Some r) →
  descends (run (ops1 ++ ops2) (empty b)) r.
Proof.
  intros E. rewrite store_run_app.
  assert (inv (run ops1 (empty b))) as I by apply store_run_inv, empty_inv.
  apply bind_Ok in E as (_ & _ & E). apply read_result in E as (<- & _ & bts & Hb & He & _); [|done].
  apply (run_change (λ s, descends s r) true);
    [done|intros x y; apply change_descends|by apply Forall_forall|].
  exists bts, r. split_and!; [done..|by destruct r|done].
Qed.

Lemma change_covered s s' key n : change false s s' → covered s key n → covered s' key n.
Proof.
  intros C. assert (covers s key n → results s' = results s → covers s' key n) as Hsame.
  { unfold covers, has_result. by intros ? ->. }
  destruct C as [stream data -> _|nodeID logID m root -> _|x data Er _ Es _ _ _ _|sch data -> Hd _ Hk|k data ->];
    intros [(b & old & Hb & He & Hr)|Hc]; try (by left; exists b, old); try (by right; apply Hsame).
  - left. exists b, old. by rewrite Es.
  - right. destruct Hc as (k & [d Hk] & ? & ?). exists k. split_and!; [|done..]. unfold has_result.
    rewrite Er. destruct (decide (ResultKey x = k)) as [<-|Hne].
    + rewrite lookup_insert_eq. by eexists.
    + rewrite lookup_insert_ne by done. by eexists.
  - destruct (decide (sch.(Sch.Key) = key)) as [<-|Hne].
    + destruct (Hk eq_refl b old n Hb He Hr) as [?|?]; [left|by right].
      exists data, sch. cbn. by rewrite lookup_insert_eq.
    + left. exists b, old. cbn. by rewrite lookup_insert_ne.
Qed.

(** C16: no accepted head is forgotten. Once the store accepted a candidate, then
    after any further operations except the forced replacement of a schedule
    either the stored schedule of its stream has a target of at least its size,
    or a stored result of its stream has. *)
Theorem candidates_survive b ops1 c ops2 s next :
  UpsertSTHAnchorCandidate c (run ops1 (empty b)) = (s, Ok next) →
  Forall (λ o, is_replace o = false) ops2 →
  covered (run ops2 s) c.(Cand.Key) c.(Cand.STH).(Sth.TreeSize).
Proof.
  intros E Ho. assert (inv (run ops1 (empty b))) as I by apply store_run_inv, empty_inv.
  apply (post_intro _ _ _ (upsert_op _ c I)) in E as [Hs Hc].
  apply (run_change (λ s, covered s _ _) false).
  - by apply (steps_inv false (run ops1 (empty b))).
  - intros x y. apply change_covered.
  - eapply Forall_impl; [exact Ho|]. cbn. by intros o ->.
  - by apply (Hc next).
Qed.

End proofs.
End anchorstore_ops.

(** * Frames of the anchor store, and its checkpoints

    What the lookups and the candidates leave alone; only
    [AdvanceL5CoverageCheckpoint] writes the checkpoints; what an advance leaves. *)

Module anchorcoverage.
Import anchorstore.
Import anchorstore_proofs (encodes, readCBOR_exact).

Section coverage.
Context `{KeyDescriptorLib, FiscoLib, CborMode Res.t, CborMode Ref.t, CborMode Sch.t, CborMode Cp.t}.
Context `{!CborModeExact Cp.t}.

(** ** Operations that leave a part of the store alone *)

(** A step whose value has a property. *)
Definition yields {A} (V : A → Prop) (m : io Store A) : Prop := ∀ s a, (m s).2 = Ok a → V a.

Lemma preserves_yields {X A B} (f : Store → X) (V : A → Prop) (m : io Store A) (k : A → io Store B) :
  preserves f m → yields V m → (∀ a, V a → preserves f (k a)) → preserves f (m ≫= k).
Proof.
  intros Hm Hv Hk s. unfold mbind, io_bind. specialize (Hm s). specialize (Hv s). destruct (m s) as [s' [a|e]]; [|done].
  cbn in *. rewrite Hk; [done|by apply Hv].
Qed.

Lemma yields_bind {A B} (U : A → Prop) (V : B → Prop) (m : io Store A) (k : A → io Store B) :
  yields U m → (∀ a, U a → yields V (k a)) → yields V (m ≫= k).
Proof.
  intros Hm Hk s b. unfold mbind, io_bind. specialize (Hm s). destruct (m s) as [s' [a|e]]; [|done].
  apply Hk. by apply Hm.
Qed.
Lemma yields_any {A B} (V : B → Prop) (m : io Store A) (k : A → io Store B) :
  (∀ a, yields V (k a)) → yields V (m ≫= k).
Proof. intros Hk. apply (yields_bind (λ _, True)); [done|auto]. Qed.
Lemma yields_ret {A} (V : A → Prop) a : V a → yields V (mret a).
Proof. intros Ha s b [= <-]. done. Qed.

Section frame.
Context {X : Type} (f : Store → X) (quiet : write → Prop).
Context (f_set : ∀ s w, quiet w → f (set s w) = f s).
Context (quiet_latest : ∀ stream data, quiet (SetLatest stream data)).

Lemma commit_frame ws : Forall quiet ws → preserves f (Commit ws).
Proof using f_set.
  intros Hw s. unfold Commit, modify. cbn. revert s. induction Hw as [|w ws Hw _ IH]; intros s; [done|].
  cbn. by rewrite IH, f_set.
Qed.

Lemma latest_frame stream : preserves f (latestSTHAnchorResultLocked stream).
Proof using f_set quiet_latest.
  unfold latestSTHAnchorResultLocked, rebuildLatestSTHAnchorResultLocked. preserving; auto.
Qed.

Lemma candidate_frame c :
  (∀ key data, quiet (SetSchedule key data)) → (∀ a b n r, quiet (SetTreeRoot a b n r)) →
  preserves f (commitCandidateLocked c).
Proof using f_set quiet_latest.
  intros Hs Hr. pose proof latest_frame as Hl. unfold commitCandidateLocked, mergeSTHAnchorCandidateLocked.
  apply preserves_bind; [preserving|]. intros [[next changed] missing]. destruct (_ && _); [preserving|].
  apply (preserves_yields f (Forall quiet)); [preserving| |].
  - destruct changed; [|apply yields_ret; constructor]. apply yields_any. intros data. apply yields_ret. by repeat constructor.
  - intros ws Hw. apply preserves_bind; [|preserving]. apply commit_frame. destruct missing; [|by rewrite app_nil_r].
    rewrite Forall_app. by repeat constructor.
Qed.

End frame.

Lemma latest_results stream : preserves results (latestSTHAnchorResultLocked stream).
Proof. by apply (latest_frame _ (λ w, match w with SetResult _ _ => False | _ => True end)); [intros s []|]. Qed.

Lemma candidate_results c : preserves results (commitCandidateLocked c).
Proof. by apply (candidate_frame _ (λ w, match w with SetResult _ _ => False | _ => True end)); [intros s []|..]. Qed.

(** ** Only the advance writes the checkpoints *)

Definition no_coverage (w : write) : Prop := match w with SetCoverage _ _ => False | _ => True end.

Lemma set_coverage s w : no_coverage w → coverage (set s w) = coverage s.
Proof. by destruct w. Qed.

Lemma commit_coverage ws : Forall no_coverage ws → preserves coverage (Commit ws).
Proof. apply commit_frame, set_coverage. Qed.

Lemma latest_coverage stream : preserves coverage (latestSTHAnchorResultLocked stream).
Proof. by apply (latest_frame _ no_coverage); [apply set_coverage|]. Qed.

Lemma candidate_coverage c : preserves coverage (commitCandidateLocked c).
Proof. by apply (candidate_frame _ no_coverage); [apply set_coverage|..]. Qed.
#[local] Hint Resolve latest_coverage candidate_coverage : preserves.

Lemma inspected_roots nodeID logID n root s ws :
  validateOrStageSTHAnchorTreeRootLocked nodeID logID n root s = Ok ws → Forall no_coverage ws.
Proof. intros (missing & _ & [= <-])%bind_Ok. destruct missing; repeat constructor. Qed.

Lemma stageLatest_yields res stream : yields (Forall no_coverage) (stageLatest res stream).
Proof.
  unfold stageLatest. apply yields_any. intros found.
  destruct (match found with Some _ => _ | None => _ end); [apply yields_ret; constructor|].
  apply yields_any. intros data. apply yields_ret. repeat constructor.
Qed.

Lemma stage_yields res w : yields (Forall no_coverage) (stageSTHAnchorResultLocked res w).
Proof.
  unfold stageSTHAnchorResultLocked.
  apply (yields_bind (Forall no_coverage)); [intros s ws; apply inspected_roots|]. intros roots Hr.
  apply (yields_bind (Forall no_coverage)).
  { destruct w; [|apply yields_ret; constructor]. apply yields_any. intros data. apply yields_ret. repeat constructor. }
  intros results Hs. apply (yields_bind (Forall no_coverage)); [apply stageLatest_yields|]. intros all Ha.
  apply (yields_bind (Forall no_coverage)); [apply stageLatest_yields|]. intros mine Hm. apply yields_ret.
  by rewrite !Forall_app.
Qed.

Lemma stage_coverage res w : preserves coverage (stageSTHAnchorResultLocked res w).
Proof. unfold stageSTHAnchorResultLocked, stageLatest. preserving. Qed.
#[local] Hint Resolve stage_coverage : preserves.

Lemma reconcile_coverage sch : preserves coverage (reconcileStoredSTHAnchorResultsLocked sch).
Proof. unfold reconcileStoredSTHAnchorResultsLocked. preserving. Qed.
Lemma suite_coverage v : preserves coverage (requireSuite v).
Proof. done. Qed.
Lemma schedule_coverage sch : preserves coverage (commitSTHAnchorSchedule sch).
Proof. unfold commitSTHAnchorSchedule. preserving. apply commit_coverage. repeat constructor. Qed.
Lemma must_read_coverage key : preserves coverage (mustReadSchedule key).
Proof. unfold mustReadSchedule. preserving. Qed.
#[local] Hint Resolve reconcile_coverage suite_coverage schedule_coverage must_read_coverage : preserves.

Lemma committed_stage res w ws' :
  Forall no_coverage ws' → preserves coverage (batch ← stageSTHAnchorResultLocked res w; Commit (batch ++ ws')).
Proof.
  intros Hw'. apply (preserves_yields coverage (Forall no_coverage)); [preserving|apply stage_yields|].
  intros ws Hw. apply commit_coverage. by rewrite Forall_app.
Qed.

Lemma committed_result res w : preserves coverage (batch ← stageSTHAnchorResultLocked res w; Commit batch).
Proof.
  apply (preserves_yields coverage (Forall no_coverage)); [preserving|apply stage_yields|]. intros ws. apply commit_coverage.
Qed.

Lemma target_roots key targets s ws : stageTargetRoots key targets s = Ok ws → Forall no_coverage ws.
Proof.
  revert ws. induction targets as [|t targets IH]; intros ws E; cbn in E; [by injection E as <-|].
  apply bind_Ok in E as (w & E1%inspected_roots & (w' & E2%IH & [= <-])%bind_Ok). by rewrite Forall_app.
Qed.

Lemma restore_coverage sch replace : preserves coverage (restoreSTHAnchorSchedule sch replace).
Proof.
  unfold restoreSTHAnchorSchedule. do 2 (apply preserves_bind; [preserving|intros _]). cbv zeta.
  destruct (match _ with Some _ => _ | None => _ end); [preserving|].
  apply preserves_bind; [preserving|]. intros [sch' ?]. apply preserves_bind; [preserving|]. intros existing.
  case_bool_decide; [preserving|]. destruct (match existing with Some _ => _ | None => _ end); [preserving|].
  apply preserves_bind; [preserving|]. intros data.
  apply (preserves_yields coverage (Forall no_coverage)); [preserving|intros s ws; apply target_roots|].
  intros ws Hw. apply commit_coverage. rewrite Forall_app. by repeat constructor.
Qed.
#[local] Hint Resolve restore_coverage committed_result : preserves.

Definition is_advance (o : anchorstore_ops.op) : bool :=
  match o with anchorstore_ops.Advance _ _ _ => true | _ => false end.

Lemma exec_coverage o s : is_advance o = false → coverage (anchorstore_ops.exec o s) = coverage s.
Proof.
  intros Ho. destruct o; cbn [anchorstore_ops.exec]; try done;
    match goal with |- coverage (?m s).1 = _ => assert (preserves coverage m) as Hp; [|exact (Hp s)] end.
  - unfold PutSTHAnchorResult. preserving.
  - unfold UpdateSTHAnchorResult. preserving.
  - unfold UpsertSTHAnchorCandidate. preserving.
  - unfold ClaimSTHAnchorAttempt. preserving.
  - unfold CompareAndSwapSTHAnchorProviderState. preserving.
  - unfold RescheduleSTHAnchorAttempt. preserving.
  - unfold FailSTHAnchorAttempt. preserving.
  - unfold CompleteSTHAnchorAttempt. do 4 (apply preserves_bind; [preserving|intros ?]).
    match goal with |- preserves _ (match ?x with Some _ => _ | None => _ end) => destruct x end; [preserving|].
    match goal with |- preserves _ (match ?x with Some _ => _ | None => _ end) => destruct x end; [|preserving].
    do 2 (apply preserves_bind; [preserving|intros ?]). apply committed_stage. repeat constructor.
  - unfold PutSTHAnchorSchedule. preserving.
  - unfold ReplaceSTHAnchorSchedule. preserving.
  - apply latest_coverage.
  - unfold LatestSTHAnchorResultForKey. preserving.
Qed.

(** ** The checkpoint of a stream *)

Definition covered_to (a : Store) (key : SKey.t) (n : Z) : Prop :=
  ∃ b cp, coverage a !! key = Some b ∧ encodes b cp ∧ cp.(Cp.CoveredTreeSize) = n.

(** The size that a page starts from. *)
Definition starts_at (a : Store) (key : SKey.t) (n : Z) : Prop :=
  coverage a !! key = None ∧ n = 0 ∨ covered_to a key n.

(** Every checkpoint is the encoding of one. *)
Definition well_formed (a : Store) : Prop := ∀ key b, coverage a !! key = Some b → ∃ n, covered_to a key n.

Lemma read_start a key found :
  well_formed a → readCBOR (coverage a !! key) = Ok found →
  let n := match found with Some c => c.(Cp.CoveredTreeSize) | None => 0 end in
  starts_at a key n ∧ ∀ n', starts_at a key n' → n' = n.
Proof.
  intros W E%readCBOR_exact. destruct found as [c|]; cbn.
  - destruct E as (b & Hb & Ha). split.
    + right. destruct (W key b Hb) as (n & b' & cp & Hb' & He & _). assert (b' = b) as -> by congruence.
      exists b, cp. split_and!; [done..|]. by rewrite (Ha cp He).
    + intros n' [[? _]|(b' & cp & Hb' & He & <-)]; [congruence|]. assert (b' = b) as -> by congruence.
      by rewrite (Ha cp He).
  - split; [by left|]. intros n' [[_ ->]|(b' & cp & Hb' & _)]; congruence.
Qed.

Lemma get_start a key found :
  well_formed a → GetL5CoverageCheckpoint key a = Ok found →
  let n := match found with Some c => c.(Cp.CoveredTreeSize) | None => 0 end in
  starts_at a key n ∧ ∀ n', starts_at a key n' → n' = n.
Proof.
  intros W E. unfold GetL5CoverageCheckpoint in E. apply bind_Ok in E as (_ & _ & E).
  apply bind_Ok in E as (o & Eo%wrap_err_Ok & E). apply (read_start a key o W) in Eo.
  destruct o as [c|]; [|by injection E as <-]. apply bind_Ok in E as (_ & _ & E).
  destruct (negb _); [done|]. by injection E as <-.
Qed.

(** An advance beyond the checkpoint leaves the new size, or nothing changed. *)
Lemma advance_spec a key n now :
  well_formed a → (∀ k, starts_at a key k → k < n) →
  post (AdvanceL5CoverageCheckpoint key n now) a (λ r a',
    a' = a ∧ (∃ e, r = Err e) ∨ (∃ c, r = Ok c) ∧ (∃ data, a' = set a (SetCoverage key data)) ∧ covered_to a' key n).
Proof.
  intros W Hn. unfold AdvanceL5CoverageCheckpoint. io_step; [by left; eauto|].
  match goal with E : wrap_err _ _ _ = Ok ?x |- _ => rename x into cur; apply wrap_err_Ok, (read_start a key cur W) in E as [Hs _] end.
  io_step; [by left; eauto|]. match goal with E : _ = Ok ?x |- _ => rename E into Ea; destruct x as [next changed] end.
  assert (changed = true ∧ next.(Cp.CoveredTreeSize) = n) as [-> En].
  { unfold l5coverage.Advance in Ea. apply bind_Ok in Ea as (_ & _ & (_ & _ & Ea)%bind_Ok).
    destruct (n =? 0); [done|]. destruct (now <? 0); [done|]. destruct cur as [c|]; [|by injection Ea as <- <-].
    apply bind_Ok in Ea as (_ & _ & Ea). destruct (negb _); [done|]. apply bind_Ok in Ea as (_ & _ & Ea).
    specialize (Hn _ Hs). destruct (n <=? c.(Cp.CoveredTreeSize)) eqn:El; bsimpl; [lia|].
    destruct (_ =? _); [done|]. by injection Ea as <- <-. }
  cbn [negb]. io_step; [by left; eauto|]. apply post_bind, post_modify, post_ret. right. split; [by eexists|]. split; [by eexists|].
  match goal with E : wrap_err _ _ (cborx.Marshal next) = Ok ?d |- _ => apply wrap_err_Ok in E; exists d, next end.
  split_and!; [cbn; by rewrite lookup_insert_eq|done|done].
Qed.

End coverage.
End anchorcoverage.
