(* ===== verification/AnchorStoreExamples.v ===== *)
(** * The anchor tables: a concrete history

    Two heads are scheduled, the later one is claimed and published, a third
    head follows and the proof of the published result is enriched. *)

From S2P Require Import Prelude TrustErr CryptoSuite Model TrustCrypto Cborx KeyDescriptor Instances ModelSuite.
From S2P Require Import StoreMonad GlobalStore AnchorSchedule AnchorScheduleProofs AnchorExamples L5Coverage AnchorStore AnchorStoreProofs AnchorStoreOps.

Module anchorstore_examples.
Import anchorschedule anchorstore anchorstore_proofs anchorstore_ops.
Import anchor_examples (ex_fisco, ex_key, ex_sth, ex_cand).

#[local] Existing Instance ex_fisco.

#[local] Instance ref_eq_dec : EqDecision Ref.t.
Proof. solve_decision. Defined.
#[local] Instance cp_eq_dec : EqDecision Cp.t.
Proof. solve_decision. Defined.

Definition ex_result (n : Z) (proof : bytes) : Res.t :=
  Res.mk SchemaSTHAnchorResult cryptosuite.INTLV1 "node-1" "log-1" n "ots" "anchor-1"
    (replicate 32 (byte_of_Z n)) (ex_sth n) proof AnchorEvidenceStageRaw 500.

Definition r7 : Res.t := ex_result 7 [Byte.x01].
Definition r7' : Res.t := ex_result 7 [Byte.x01; Byte.x02].

(** The schedules of the history, as the pure transitions give them. *)
Definition pure_ops : list anchorschedule_proofs.op :=
  [anchorschedule_proofs.OpMerge (ex_cand 4 100) None;
   anchorschedule_proofs.OpMerge (ex_cand 7 110) None;
   anchorschedule_proofs.OpClaim 170 200 "w1" "t1";
   anchorschedule_proofs.OpComplete 1 "t1" r7;
   anchorschedule_proofs.OpMerge (ex_cand 9 300) (Some r7)].
Definition sch_at (n : nat) : Sch.t :=
  default Sch.zero (anchorschedule_proofs.sys_schedule (anchorschedule_proofs.run (take n pure_ops))).

#[local] Instance res_codec : CborMode Res.t := table_codec [r7; r7'].
#[local] Instance ref_codec : CborMode Ref.t :=
  table_codec [EmptyLatestReference None; EmptyLatestReference (Some ex_key); LatestReference r7].
#[local] Instance sch_codec : CborMode Sch.t := table_codec (map sch_at (seq 1 5)).
#[local] Instance cp_codec : CborMode Cp.t := table_codec [].
#[local] Instance res_exact : CborModeExact Res.t.
Proof. by apply table_exact. Qed.
#[local] Instance ref_exact : CborModeExact Ref.t.
Proof. by apply table_exact. Qed.
#[local] Instance sch_exact : CborModeExact Sch.t.
Proof. by apply table_exact. Qed.

Definition ex_base : pebble.Store := pebble.mkStore empty_contents ∅ cryptosuite.INTLV1 (Ok tt) 1000.

Definition ex_ops1 : list op := [Upsert (ex_cand 4 100)].
Definition ex_ops2 : list op :=
  [Claim ex_key 170 200 "w1" "t1"; Complete ex_key 1 "t1" r7].
Definition ex_ops3 : list op := [Upsert (ex_cand 9 300); Update r7 r7'; Latest].

Definition ex_s1 : Store := run ex_ops1 (empty ex_base).
Definition ex_s2 : Store := (UpsertSTHAnchorCandidate (ex_cand 7 110) ex_s1).1.
Definition ex_all : list op := ex_ops1 ++ [Upsert (ex_cand 7 110)] ++ ex_ops2 ++ ex_ops3.

(** The head 9 is pending, the enriched result is stored and is the latest. *)
Example ex_history :
  let s := run ex_all (empty ex_base) in
  (λ o : option Sch.t, option_map (map Sth.TreeSize ∘ scheduleTargets) o) <$> GetSTHAnchorSchedule ex_key s
    = Ok (Some [9]) ∧
  GetSTHAnchorResultForKey (ResultKey r7) s = Ok (Some r7') ∧
  (LatestSTHAnchorResultForKey ex_key s).2 = Ok (Some r7').
Proof. vm_compute. repeat split. Qed.

Lemma latest_is_greatest_witness :
  let s := run ex_all (empty ex_base) in
  ∃ s', latest_of (Some ex_key) s = (s', Ok (Some r7')) ∧ published s r7' ∧ results s' = results s.
Proof.
  intros s. destruct (latest_of (Some ex_key) s) as [s' r] eqn:E.
  assert (r = Ok (Some r7')) as ->.
  { change r with (s', r).2. rewrite <- E. vm_compute. reflexivity. }
  exists s'. destruct (latest_is_greatest ex_base ex_all (Some ex_key) s' (Some r7') E) as [[? _] ?].
  split; [reflexivity|]. split; assumption.
Defined.

Lemma one_root_witness :
  gives_root (run ex_all (empty ex_base)) "node-1" "log-1" 7 (replicate 32 (byte_of_Z 7)) ∧
  ∀ root, gives_root (run ex_all (empty ex_base)) "node-1" "log-1" 7 root →
    replicate 32 (byte_of_Z 7) = root.
Proof.
  assert (gives_root (run ex_all (empty ex_base)) "node-1" "log-1" 7 (replicate 32 (byte_of_Z 7))) as Hg.
  { left. exists (ResultKey r7), r7'. repeat split. }
  split; [exact Hg|]. intros root Hroot.
  exact (one_root ex_base ex_all "node-1" "log-1" 7 _ root Hg Hroot).
Defined.

Lemma results_immutable_witness : descends (run ex_all (empty ex_base)) r7.
Proof.
  apply (results_immutable ex_base (ex_ops1 ++ [Upsert (ex_cand 7 110)] ++ ex_ops2) ex_ops3
    (ResultKey r7) r7).
  vm_compute. reflexivity.
Defined.

Lemma candidates_survive_witness : covered (run (ex_ops2 ++ ex_ops3) ex_s2) ex_key 7.
Proof.
  destruct (UpsertSTHAnchorCandidate (ex_cand 7 110) ex_s1) as [s r] eqn:E.
  assert (∃ next, r = Ok next) as [next ->].
  { change r with (s, r).2. rewrite <- E. vm_compute. by eexists. }
  assert (ex_s2 = s) as -> by (unfold ex_s2; rewrite E; reflexivity).
  apply (candidates_survive ex_base ex_ops1 (ex_cand 7 110) (ex_ops2 ++ ex_ops3) s next E).
  repeat constructor.
Defined.

End anchorstore_examples.
