(* ===== verification/ProofLevel.v ===== *)
(** * Proof levels

    Models [src/internal/prooflevel/prooflevel.go]: the ladder L1-L5 from the
    evidence that has been verified to the level it supports.  [Parse] and the
    labels of [ladder] are presentation and are not modelled. *)

From S2P Require Import Prelude.

Module prooflevel.

Definition Level := string.
Definition Unknown : Level := "".
Definition L1 : Level := "L1".
Definition L2 : Level := "L2".
Definition L3 : Level := "L3".
Definition L4 : Level := "L4".
Definition L5 : Level := "L5".

Record Evidence := mkEvidence {
  ContentHash : bool;
  ClientSignature : bool;
  AcceptedReceipt : bool;
  CommittedReceipt : bool;
  BatchProof : bool;
  GlobalLogProof : bool;
  STHAnchorResult : bool }.

Definition Evaluate (e : Evidence) : Level :=
  if negb (ContentHash e && ClientSignature e) then Unknown else
  if negb (AcceptedReceipt e) then L1 else
  if negb (CommittedReceipt e && BatchProof e) then L2 else
  if negb (GlobalLogProof e) then L3 else
  if negb (STHAnchorResult e) then L4 else
  L5.

Definition Rank (level : Level) : Z :=
  if seqb level L1 then 1 else
  if seqb level L2 then 2 else
  if seqb level L3 then 3 else
  if seqb level L4 then 4 else
  if seqb level L5 then 5 else 0.

Definition AtLeast (level target : Level) : bool :=
  (Rank target <=? Rank level) && (0 <? Rank target).

Definition EvidenceFor (level : Level) : Evidence :=
  mkEvidence (AtLeast level L1) (AtLeast level L1) (AtLeast level L2) (AtLeast level L3)
    (AtLeast level L3) (AtLeast level L4) (AtLeast level L5).

(** [e] holds at least the evidence of [f]. *)
Definition includes (e f : Evidence) : bool :=
  implb (ContentHash f) (ContentHash e) && implb (ClientSignature f) (ClientSignature e)
  && implb (AcceptedReceipt f) (AcceptedReceipt e)
  && implb (CommittedReceipt f) (CommittedReceipt e) && implb (BatchProof f) (BatchProof e)
  && implb (GlobalLogProof f) (GlobalLogProof e) && implb (STHAnchorResult f) (STHAnchorResult e).

Lemma Rank_cases l :
  l = L1 ∨ l = L2 ∨ l = L3 ∨ l = L4 ∨ l = L5 ∨ Rank l = 0.
Proof.
  unfold Rank. destruct (seqb l L1) eqn:E1; [bsimpl; by left|].
  destruct (seqb l L2) eqn:E2; [bsimpl; by right; left|].
  destruct (seqb l L3) eqn:E3; [bsimpl; by do 2 right; left|].
  destruct (seqb l L4) eqn:E4; [bsimpl; by do 3 right; left|].
  destruct (seqb l L5) eqn:E5; [bsimpl; by do 4 right; left|]. by do 5 right.
Qed.

(** The ladder never invents trust: for every level of the ladder, the
    evidence [e] evaluates to at least this level exactly when [e] includes all
    the evidence that the level and the levels below it require.  So evaluation
    is the greatest level whose requirements hold, it is monotone in the
    evidence, and no level is reached with a requirement of a lower one
    missing. *)
Theorem evaluate_galois e l :
  AtLeast (Evaluate e) l = (0 <? Rank l) && includes e (EvidenceFor l).
Proof.
  destruct (Rank_cases l) as [-> |[-> |[-> |[-> |[-> |Hr]]]]];
    [by destruct e as [[] [] [] [] [] [] []]..|].
  unfold AtLeast. rewrite Hr. cbn. apply andb_false_r.
Qed.

End prooflevel.
