(* ===== verification/Claim.v ===== *)
(** * Client claims

    Models [src/internal/claim/claim.go]: building, canonical encoding, signing
    and verification of a client claim, and the derivation of the record id.

    The buffer pool only recycles memory and is not modelled: a signing input
    is the bytes the buffer holds.  The iteration order of a Go map decides
    only which of several invalid entries is reported. *)

From Stdlib Require Import Strings.Ascii.
From S2P Require Import Prelude TrustErr CryptoSuite Model TrustCrypto Cborx.

Module claim.

Definition MaxMetadataParents : Z := 1000.
Definition MaxMetadataCustomEntries : Z := 1000.
Definition MaxMetadataStringBytes : Z := 4096.
Definition MaxMetadataKeyBytes : Z := 1024.

Record Verified := mkVerified {
  V_Claim : ClientClaim.t;
  V_ClaimCBOR : bytes;
  V_Signature : Signature.t;
  V_RecordID : string }.

(** ** Metadata *)

Definition validateMetadataString (value : string) (maxBytes : Z) : result unit :=
  if negb (ValidString value) then Err (ErrorsNew "metadata %s is not valid UTF-8") else
  if maxBytes <? slen value then Err (ErrorsNew "metadata %s exceeds %d bytes") else Ok tt.

Fixpoint validateParents (parents : list string) : result unit :=
  match parents with
  | [] => Ok tt
  | parent :: rest =>
      _ ← validateMetadataString parent MaxMetadataStringBytes;
      validateParents rest
  end.

Fixpoint validateCustom (custom : list (string * string)) : result unit :=
  match custom with
  | [] => Ok tt
  | (key, value) :: rest =>
      _ ← validateMetadataString key MaxMetadataKeyBytes;
      _ ← validateMetadataString value MaxMetadataStringBytes;
      validateCustom rest
  end.

Definition validateMetadata (metadata : Metadata.t) : result unit :=
  if MaxMetadataParents <? len metadata.(Metadata.Parents)
  then Err (ErrorsNew "metadata parents exceed %d items") else
  if MaxMetadataCustomEntries <? Z.of_nat (size metadata.(Metadata.Custom))
  then Err (ErrorsNew "metadata custom entries exceed %d items") else
  _ ← validateMetadataString metadata.(Metadata.EventType) MaxMetadataStringBytes;
  _ ← validateMetadataString metadata.(Metadata.Source) MaxMetadataStringBytes;
  _ ← validateParents metadata.(Metadata.Parents);
  validateCustom (map_to_list metadata.(Metadata.Custom)).

(** ** Building and encoding *)

Definition NewFileClaimForSuite (suiteID : cryptosuite.ID) (tenantID clientID keyID : string)
    (producedAtUnixN : Z) (nonce : bytes) (idempotencyKey : string) (content : Content.t)
    (metadata : Metadata.t) : result ClientClaim.t :=
  suite ← cryptosuite.RequireAvailable suiteID;
  if seqb tenantID "" || seqb clientID "" || seqb keyID ""
  then Err (ErrorsNew "tenant_id, client_id, and key_id are required") else
  if seqb idempotencyKey "" then Err (ErrorsNew "idempotency_key is required") else
  if len nonce <? 16 then Err (ErrorsNew "nonce must be at least 16 bytes") else
  let hash := cryptosuite.ContentHash suite in
  let content :=
    if seqb content.(Content.HashAlg) ""
    then Content.set_HashAlg (cryptosuite.HashAlgorithm hash) content else content in
  if negb (seqb content.(Content.HashAlg) (cryptosuite.HashAlgorithm hash))
  then Err (ErrorsNew "content hash algorithm %q does not match suite %s") else
  if negb (len content.(Content.ContentHash) =? cryptosuite.DigestBytes hash)
  then Err (ErrorsNew "content_hash length %d does not match suite %s") else
  if content.(Content.ContentLength) <? 0
  then Err (ErrorsNew "content_length cannot be negative") else
  _ ← validateMetadata metadata;
  if seqb metadata.(Metadata.EventType) ""
  then Err (ErrorsNew "metadata.event_type is required") else
  Ok (ClientClaim.mk SchemaClientClaim (cryptosuite.SuiteID suite) tenantID clientID keyID
        producedAtUnixN nonce idempotencyKey content metadata (TimeAttestation.mk "none" [])).

Section claim.
Context `{CborMode ClientClaim.t}.

Definition Canonical (claim : ClientClaim.t) : result bytes :=
  if negb (seqb claim.(ClientClaim.SchemaVersion) SchemaClientClaim)
  then Err (ErrorsNew "unexpected claim schema: %s") else
  suite ← errorf "claim crypto_suite: %w"
            (cryptosuite.RequireAvailable claim.(ClientClaim.CryptoSuite));
  let hash := cryptosuite.ContentHash suite in
  let content := claim.(ClientClaim.Content) in
  if negb (seqb content.(Content.HashAlg) (cryptosuite.HashAlgorithm hash))
     || negb (len content.(Content.ContentHash) =? cryptosuite.DigestBytes hash)
  then Err (ErrorsNew "claim content digest does not match suite %s") else
  _ ← validateMetadata claim.(ClientClaim.Metadata);
  cborx.Marshal claim.

(** ** Record ids *)

(** The bits of a byte, the most significant first. *)
Definition byte_bits (b : byte) : list bool :=
  map (Z.testbit (Z_of_byte b)) [7; 6; 5; 4; 3; 2; 1; 0].

Definition bit (b : bool) (w : Z) : Z := if b then w else 0.

(** Groups of five bits, the last one filled up with zeros. *)
Fixpoint quintets (bits : list bool) : list Z :=
  match bits with
  | [] => []
  | [a] => [bit a 16]
  | [a; b] => [bit a 16 + bit b 8]
  | [a; b; c] => [bit a 16 + bit b 8 + bit c 4]
  | [a; b; c; d] => [bit a 16 + bit b 8 + bit c 4 + bit d 2]
  | a :: b :: c :: d :: e :: rest =>
      (bit a 16 + bit b 8 + bit c 4 + bit d 2 + bit e 1) :: quintets rest
  end.

(** The alphabet of [base32.StdEncoding], in lower case. *)
Definition base32_alphabet : string := "abcdefghijklmnopqrstuvwxyz234567".

Definition base32_char (i : Z) : ascii :=
  default "a"%char (String.get (Z.to_nat i) base32_alphabet).

(** [strings.ToLower] of the unpadded encoding. *)
Definition base32_lower (sum : bytes) : string :=
  String.string_of_list_ascii (map base32_char (quintets (flat_map byte_bits sum))).

(** The anonymous struct that [RecordIDWithProvider] encodes. *)
Record framing := mkFraming {
  F_SchemaVersion : string;
  F_CryptoSuite : cryptosuite.ID;
  F_ClaimCBOR : bytes;
  F_Signature : Signature.t }.

Context `{HashLib} `{CborMode framing}.

Definition RecordIDWithProvider (provider : option trustcrypto.Provider) (claimCBOR : bytes)
    (sig : Signature.t) : result string :=
  match provider with
  | None => Err (ErrorsNew "crypto provider is required")
  | Some p =>
      suite ← cryptosuite.RequireAvailable (trustcrypto.Provider_Suite p);
      factory ← trustcrypto.Provider_HashFactory p
                  (cryptosuite.HashAlgorithm (cryptosuite.RecordIDHash suite));
      payload ← cborx.Marshal
                  (mkFraming "trustdb.record-id-input.v2" (cryptosuite.SuiteID suite) claimCBOR sig);
      let sum := trustcrypto.HashFactory_Sum factory
                   (bytes_of_string (cryptosuite.RecordIDDomain (cryptosuite.Domains suite))
                    ++ [x00] ++ payload) in
      Ok ("tr2" ++ base32_lower sum)%string
  end.

(** ** Signing and verification *)

Context `{SigLib}.

Definition pooledClaimSigningInput (suiteID : cryptosuite.ID) (claim : ClientClaim.t) : result bytes :=
  prefix ← trustcrypto.SignatureInputForSuite suiteID trustcrypto.SignaturePurposeClientClaim [];
  match cborx.MarshalBuffer prefix claim with
  | (_, Err e) => Err e
  | (buf, Ok _) => Ok buf
  end.

Definition pooledSigningInput (suiteID : cryptosuite.ID) (claimCBOR : bytes) : result bytes :=
  prefix ← trustcrypto.SignatureInputForSuite suiteID trustcrypto.SignaturePurposeClientClaim [];
  Ok (prefix ++ claimCBOR).

Definition SignWithProvider (provider : option trustcrypto.Provider) (claim : ClientClaim.t)
    (signer : option trustcrypto.Signer) : result SignedClaim.t :=
  match provider with
  | None => Err (ErrorsNew "crypto provider is required")
  | Some p =>
      if negb (seqb claim.(ClientClaim.SchemaVersion) SchemaClientClaim)
      then Err (ErrorsNew "unexpected claim schema: %s") else
      _ ← errorf "claim crypto_suite: %w"
            (cryptosuite.RequireSame (trustcrypto.Provider_Suite p)
               [claim.(ClientClaim.CryptoSuite)]);
      if match signer with
         | None => true
         | Some s =>
             negb (seqb (trustcrypto.H_KeyID (trustcrypto.Handle s)) claim.(ClientClaim.KeyID))
         end
      then Err (ErrorsNew "signer key_id does not match claim key_id") else
      input ← pooledClaimSigningInput (trustcrypto.Provider_Suite p) claim;
      sig ← trustcrypto.Sign (trustcrypto.Provider_Suite p) signer input;
      Ok (SignedClaim.mk SchemaSignedClaim (trustcrypto.Provider_Suite p) claim sig)
  end.

Definition VerifyWithProvider (signed : SignedClaim.t) (publicKey : trustcrypto.PublicKeyDescriptor)
    (provider : option trustcrypto.Provider) : result Verified :=
  match provider with
  | None => Err (ErrorsNew "crypto provider is required")
  | Some p =>
      if negb (seqb signed.(SignedClaim.SchemaVersion) SchemaSignedClaim)
      then Err (ErrorsNew "unexpected signed claim schema: %s") else
      let claim := signed.(SignedClaim.Claim) in
      let sig := signed.(SignedClaim.Signature) in
      _ ← errorf "signed claim crypto_suite: %w"
            (cryptosuite.RequireSame (trustcrypto.Provider_Suite p)
               [signed.(SignedClaim.CryptoSuite); claim.(ClientClaim.CryptoSuite);
                trustcrypto.Suite publicKey]);
      claimCBOR ← Canonical claim;
      if negb (seqb sig.(Signature.KeyID) claim.(ClientClaim.KeyID))
      then Err (ErrorsNew "signature key_id does not match claim key_id") else
      input ← pooledSigningInput (trustcrypto.Provider_Suite p) claimCBOR;
      _ ← trustcrypto.Verify provider publicKey input sig;
      recordID ← RecordIDWithProvider provider claimCBOR sig;
      Ok (mkVerified claim claimCBOR sig recordID)
  end.

End claim.

End claim.
