(* ===== verification/Receipt.v ===== *)
(** * Server receipts

    Models [src/internal/receipt/receipt.go]: the signatures of accepted and
    committed receipts.  Both are made over the receipt without its signature,
    framed with the domain of its kind. *)

From S2P Require Import Prelude TrustErr CryptoSuite Model TrustCrypto Cborx.

Module receipt.

Section input.
Context {A : Type} `{CborMode A}.

Definition encodeDomainInput (suiteID : cryptosuite.ID) (purpose : trustcrypto.SignaturePurpose)
    (value : A) : result bytes :=
  prefix ← trustcrypto.SignatureInputForSuite suiteID purpose [];
  match cborx.MarshalBuffer prefix value with
  | (_, Err e) => Err e
  | (buf, Ok _) => Ok buf
  end.
End input.

(** The receipt without its signature. *)
Definition unsigned (r : AcceptedReceipt.t) : AcceptedReceipt.t := AcceptedReceipt.set_ServerSig Signature.zero r.

Section receipt.
Context `{SigLib, CborMode AcceptedReceipt.t, CborMode CommittedReceipt.t}.

Definition SignAcceptedWithProvider (provider : option trustcrypto.Provider) (r : AcceptedReceipt.t)
    (signer : option trustcrypto.Signer) : result AcceptedReceipt.t :=
  match provider with
  | None => Err (ErrorsNew "sign accepted receipt: crypto provider is required")
  | Some p =>
      if negb (seqb r.(AcceptedReceipt.SchemaVersion) SchemaAcceptedReceipt)
      then Err (ErrorsNew "sign accepted receipt: unexpected schema %q") else
      _ ← errorf "sign accepted receipt: %w"
            (cryptosuite.RequireSame (trustcrypto.Provider_Suite p)
               [r.(AcceptedReceipt.CryptoSuite)]);
      input ← encodeDomainInput (trustcrypto.Provider_Suite p)
                trustcrypto.SignaturePurposeAcceptedReceipt
                (AcceptedReceipt.set_ServerSig Signature.zero r);
      sig ← trustcrypto.Sign (trustcrypto.Provider_Suite p) signer input;
      Ok (AcceptedReceipt.set_ServerSig sig r)
  end.

Definition VerifyAcceptedWithProvider (r : AcceptedReceipt.t)
    (publicKey : trustcrypto.PublicKeyDescriptor) (provider : option trustcrypto.Provider)
  : result unit :=
  match provider with
  | None => Err (ErrorsNew "verify accepted receipt: crypto provider is required")
  | Some p =>
      if negb (seqb r.(AcceptedReceipt.SchemaVersion) SchemaAcceptedReceipt)
      then Err (ErrorsNew "verify accepted receipt: unexpected schema %q") else
      _ ← errorf "verify accepted receipt: %w"
            (cryptosuite.RequireSame (trustcrypto.Provider_Suite p)
               [r.(AcceptedReceipt.CryptoSuite); trustcrypto.Suite publicKey]);
      input ← encodeDomainInput (trustcrypto.Provider_Suite p)
                trustcrypto.SignaturePurposeAcceptedReceipt
                (AcceptedReceipt.set_ServerSig Signature.zero r);
      errorf "verify accepted receipt: %w"
        (trustcrypto.Verify provider publicKey input r.(AcceptedReceipt.ServerSig))
  end.

Definition SignCommittedWithProvider (provider : option trustcrypto.Provider)
    (r : CommittedReceipt.t) (signer : option trustcrypto.Signer) : result CommittedReceipt.t :=
  match provider with
  | None => Err (ErrorsNew "sign committed receipt: crypto provider is required")
  | Some p =>
      if negb (seqb r.(CommittedReceipt.SchemaVersion) SchemaCommittedReceipt)
      then Err (ErrorsNew "sign committed receipt: unexpected schema %q") else
      _ ← errorf "sign committed receipt: %w"
            (cryptosuite.RequireSame (trustcrypto.Provider_Suite p)
               [r.(CommittedReceipt.CryptoSuite)]);
      input ← encodeDomainInput (trustcrypto.Provider_Suite p)
                trustcrypto.SignaturePurposeCommittedReceipt
                (CommittedReceipt.set_ServerSig Signature.zero r);
      sig ← trustcrypto.Sign (trustcrypto.Provider_Suite p) signer input;
      Ok (CommittedReceipt.set_ServerSig sig r)
  end.

Definition VerifyCommittedWithProvider (r : CommittedReceipt.t)
    (publicKey : trustcrypto.PublicKeyDescriptor) (provider : option trustcrypto.Provider)
  : result unit :=
  match provider with
  | None => Err (ErrorsNew "verify committed receipt: crypto provider is required")
  | Some p =>
      if negb (seqb r.(CommittedReceipt.SchemaVersion) SchemaCommittedReceipt)
      then Err (ErrorsNew "verify committed receipt: unexpected schema %q") else
      _ ← errorf "verify committed receipt: %w"
            (cryptosuite.RequireSame (trustcrypto.Provider_Suite p)
               [r.(CommittedReceipt.CryptoSuite); trustcrypto.Suite publicKey]);
      input ← encodeDomainInput (trustcrypto.Provider_Suite p)
                trustcrypto.SignaturePurposeCommittedReceipt
                (CommittedReceipt.set_ServerSig Signature.zero r);
      errorf "verify committed receipt: %w"
        (trustcrypto.Verify provider publicKey input r.(CommittedReceipt.ServerSig))
  end.

(** ** What is signed verifies *)

(** The signer's signatures are accepted under the key. *)
Definition signs_for (p : trustcrypto.Provider) (signer : option trustcrypto.Signer)
    (pk : trustcrypto.PublicKeyDescriptor) : Prop :=
  trustcrypto.Suite pk = trustcrypto.Provider_Suite p ∧
  ∀ m sig, trustcrypto.Sign (trustcrypto.Provider_Suite p) signer m = Ok sig →
    trustcrypto.Verify (Some p) pk m sig = Ok tt.

Lemma VerifyAccepted_Ok r pk p :
  VerifyAcceptedWithProvider r pk (Some p) = Ok tt ↔
  r.(AcceptedReceipt.SchemaVersion) = SchemaAcceptedReceipt ∧
  r.(AcceptedReceipt.CryptoSuite) = trustcrypto.Provider_Suite p ∧
  trustcrypto.Suite pk = trustcrypto.Provider_Suite p ∧
  ∃ input, encodeDomainInput (trustcrypto.Provider_Suite p)
      trustcrypto.SignaturePurposeAcceptedReceipt
      (AcceptedReceipt.set_ServerSig Signature.zero r) = Ok input ∧
    trustcrypto.Verify (Some p) pk input r.(AcceptedReceipt.ServerSig) = Ok tt.
Proof.
  unfold VerifyAcceptedWithProvider. split.
  - intros E. ok_inv. bsimpl. same_inv. split_and!; try done. by eexists.
  - intros (E1 & E2 & E3 & input & E4 & E5). rewrite E1, E2, E3. cbn [negb].
    assert (cryptosuite.RequireSame (trustcrypto.Provider_Suite p)
      [trustcrypto.Provider_Suite p; trustcrypto.Provider_Suite p] = Ok tt) as ->
      by by apply trustcrypto.require_same; repeat constructor.
    cbn [errorf mbind result_bind]. rewrite seqb_refl. cbn [negb]. rewrite E4. cbn [mbind result_bind].
    by rewrite E5.
Qed.

Lemma VerifyCommitted_Ok r pk p :
  VerifyCommittedWithProvider r pk (Some p) = Ok tt ↔
  r.(CommittedReceipt.SchemaVersion) = SchemaCommittedReceipt ∧
  r.(CommittedReceipt.CryptoSuite) = trustcrypto.Provider_Suite p ∧
  trustcrypto.Suite pk = trustcrypto.Provider_Suite p ∧
  ∃ input, encodeDomainInput (trustcrypto.Provider_Suite p)
      trustcrypto.SignaturePurposeCommittedReceipt
      (CommittedReceipt.set_ServerSig Signature.zero r) = Ok input ∧
    trustcrypto.Verify (Some p) pk input r.(CommittedReceipt.ServerSig) = Ok tt.
Proof.
  unfold VerifyCommittedWithProvider. split.
  - intros E. ok_inv. bsimpl. same_inv. split_and!; try done. by eexists.
  - intros (E1 & E2 & E3 & input & E4 & E5). rewrite E1, E2, E3. cbn [negb].
    assert (cryptosuite.RequireSame (trustcrypto.Provider_Suite p)
      [trustcrypto.Provider_Suite p; trustcrypto.Provider_Suite p] = Ok tt) as ->
      by by apply trustcrypto.require_same; repeat constructor.
    cbn [errorf mbind result_bind]. rewrite seqb_refl. cbn [negb]. rewrite E4. cbn [mbind result_bind].
    by rewrite E5.
Qed.

(** A signed receipt differs from the unsigned one in the signature only, and
    it verifies. *)
Lemma signed_accepted_verifies p signer pk r r' :
  signs_for p signer pk → SignAcceptedWithProvider (Some p) r signer = Ok r' →
  VerifyAcceptedWithProvider r' pk (Some p) = Ok tt ∧
  ∃ sig, r' = AcceptedReceipt.set_ServerSig sig r.
Proof.
  intros [Hk Hv] E. unfold SignAcceptedWithProvider in E. ok_inv. bsimpl. same_inv. subst r'. split; [|by eexists].
  apply VerifyAccepted_Ok. split_and!; try done. eexists. split; [done|]. by apply Hv.
Qed.

(** Signing changes the signature only. *)
Lemma signed_accepted_same p signer r r' :
  SignAcceptedWithProvider (Some p) r signer = Ok r' → unsigned r' = unsigned r.
Proof. intros E. unfold SignAcceptedWithProvider in E. ok_inv. by subst r'. Qed.

Lemma signed_committed_verifies p signer pk r r' :
  signs_for p signer pk → SignCommittedWithProvider (Some p) r signer = Ok r' →
  VerifyCommittedWithProvider r' pk (Some p) = Ok tt ∧
  ∃ sig, r' = CommittedReceipt.set_ServerSig sig r.
Proof.
  intros [Hk Hv] E. unfold SignCommittedWithProvider in E. ok_inv. bsimpl. same_inv. subst r'. split; [|by eexists].
  apply VerifyCommitted_Ok. split_and!; try done. eexists. split; [done|]. by apply Hv.
Qed.
End receipt.

End receipt.
