(* ===== verification/Ots.v ===== *)
(** * OpenTimestamps proofs

    Models [src/internal/anchor/ots_parse.go]: the parser that walks the binary
    tree of an OTS timestamp and collects its attestations, each with the
    digest that the operations on the path produce.

    SHA-1, RIPEMD-160 and Keccak-256 are library functions, the operations of
    the class [OtsHashLib].  The reader is the unread part of the input. *)

From Stdlib Require Import Strings.Ascii.
From S2P Require Import Prelude TrustErr CryptoSuite Model TrustCrypto.

Class OtsHashLib := {
  sha1_Sum : bytes → bytes;
  ripemd160_Sum : bytes → bytes;
  keccak256_Sum : bytes → bytes }.

Module ots.

(** The kinds of attestation, as the constants of [OtsAttestationKind]. *)
Inductive OtsAttestationKind :=
| OtsAttestPending | OtsAttestBitcoin | OtsAttestLitecoin | OtsAttestEthereum | OtsAttestUnknown.

Definition otsMagicPending : string := "83dfe30d2ef90c8e".
Definition otsMagicBitcoin : string := "0588960d73d71901".
Definition otsMagicLitecoin : string := "06869a0d73d71b45".
Definition otsMagicEthereum : string := "30fe8087b5c7ead7".

Record OtsAttestation := mkAtt {
  Kind : OtsAttestationKind;
  BlockHeight : Z;
  PendingURI : bytes;
  MerkleRoot : bytes;
  UnknownTag : bytes }.

Definition otsMaxVarbytesLen : Z := Z.shiftl 1 20.
Definition otsMaxAttestPayloadLen : Z := Z.shiftl 1 16.
Definition otsMaxRecursionDepth : Z := 1024.
Definition otsMaxAttestationsPerProof : Z := 1024.

(** The parser: the unread bytes and the attestations found so far. *)
Record otsParser := mkParser { rd : bytes; out : list OtsAttestation }.

Definition io_EOF := ErrorsNew "EOF".
Definition io_ErrUnexpectedEOF := ErrorsNew "unexpected EOF".

Definition ReadByte (r : bytes) : result (byte * bytes) :=
  match r with [] => Err io_EOF | b :: r => Ok (b, r) end.

(** [io.ReadFull] of [n] bytes. *)
Definition ReadFull (n : Z) (r : bytes) : result (bytes * bytes) :=
  if n <=? len r then Ok (take (Z.to_nat n) r, drop (Z.to_nat n) r) else
  if len r =? 0 then Err io_EOF else Err io_ErrUnexpectedEOF.

(** [hex.EncodeToString] *)
Definition hex_digit (n : Z) : ascii := default "0"%char (String.get (Z.to_nat n) "0123456789abcdef").

Fixpoint hex_encode (b : bytes) : string :=
  match b with
  | [] => ""
  | x :: b =>
      String (hex_digit (Z.shiftr (Z_of_byte x) 4))
        (String (hex_digit (Z.land (Z_of_byte x) 15)) (hex_encode b))
  end.

(** ** Variable-length integers *)

(** The loop of [readVaruint], with [n] iterations left. *)
Fixpoint readVaruint_loop (n : nat) (shift v : Z) (r : bytes) : result (Z * bytes) :=
  match n with
  | O => Err (ErrorsNew "ots: varuint overflow (>64 bits)")
  | S n =>
      '(b, r) ← ReadByte r;
      let v := Z.lor v (u64 (Z.shiftl (Z.land (Z_of_byte b) 127) shift)) in
      if Z.land (Z_of_byte b) 128 =? 0 then Ok (v, r) else readVaruint_loop n (shift + 7) v r
  end.

(** [shift < 64] holds for ten values of [shift]. *)
Definition readVaruint (r : bytes) : result (Z * bytes) := readVaruint_loop 10 0 0 r.

Definition readVarbytes (r : bytes) : result (bytes * bytes) :=
  '(n, r) ← readVaruint r;
  if otsMaxVarbytesLen <? n then Err (ErrorsNew "ots: varbytes length %d > %d") else
  ReadFull n r.

(** The loop of [parseAttestationVaruint]; [i] bytes have been read. *)
Fixpoint parseAttestationVaruint_loop (payload : bytes) (i shift v : Z) : result (Z * Z) :=
  match payload with
  | [] => Err (ErrorsNew "ots: payload varuint truncated")
  | b :: rest =>
      let v := Z.lor v (u64 (Z.shiftl (Z.land (Z_of_byte b) 127) shift)) in
      if Z.land (Z_of_byte b) 128 =? 0 then Ok (v, i + 1) else
      if 64 <=? shift + 7 then Err (ErrorsNew "ots: payload varuint overflow (>64 bits)") else
      parseAttestationVaruint_loop rest (i + 1) (shift + 7) v
  end.

Definition parseAttestationVaruint (payload : bytes) : result (Z * Z) :=
  parseAttestationVaruint_loop payload 0 0 0.

(** [Stuck] is the panic of a slice expression that is out of bounds. *)
Definition slice (b : bytes) (low high : Z) : go bytes :=
  if (0 <=? low) && (low <=? high) && (high <=? len b)
  then Ret (take (Z.to_nat (high - low)) (drop (Z.to_nat low) b)) else Stuck.

Definition parseAttestationVarbytes (payload : bytes) : go (bytes * Z) :=
  '(n, off) ← ret (parseAttestationVaruint payload);
  if len payload - off <? i64 n then Fail (ErrorsNew "ots: payload varbytes %d > remaining %d") else
  uri ← slice payload off (i64 (off + i64 n));
  Ret (uri, i64 (off + i64 n)).

(** ** The tree *)

Section ots.
Context `{HashLib, OtsHashLib}.

Definition applyOp (tag : Z) (msg : bytes) (p : otsParser) : result (bytes * otsParser) :=
  if tag =? 8 then Ok (sha256_Sum256 msg, p) else
  if tag =? 2 then Ok (sha1_Sum msg, p) else
  if tag =? 3 then Ok (ripemd160_Sum msg, p) else
  if tag =? 103 then Ok (keccak256_Sum msg, p) else
  if tag =? 240 then
    '(data, r) ← errorf "ots: append payload: %w" (readVarbytes (rd p));
    Ok (msg ++ data, mkParser r (out p)) else
  if tag =? 241 then
    '(data, r) ← errorf "ots: prepend payload: %w" (readVarbytes (rd p));
    Ok (data ++ msg, mkParser r (out p)) else
  Err (ErrorsNew "ots: unsupported op tag 0x%02x").

(** The attestation with the given magic and payload at the digest [msg]. *)
Definition decodeAttestation (magic payload msg : bytes) : go OtsAttestation :=
  let tag := hex_encode magic in
  if seqb tag otsMagicBitcoin then
    '(h, _) ← ret (errorf "ots: bitcoin block height: %w" (parseAttestationVaruint payload));
    Ret (mkAtt OtsAttestBitcoin h [] msg []) else
  if seqb tag otsMagicLitecoin then
    '(h, _) ← ret (errorf "ots: litecoin block height: %w" (parseAttestationVaruint payload));
    Ret (mkAtt OtsAttestLitecoin h [] msg []) else
  if seqb tag otsMagicEthereum then
    '(h, _) ← ret (errorf "ots: ethereum block height: %w" (parseAttestationVaruint payload));
    Ret (mkAtt OtsAttestEthereum h [] msg []) else
  if seqb tag otsMagicPending then
    match parseAttestationVarbytes payload with
    | Ret (uri, _) => Ret (mkAtt OtsAttestPending 0 uri msg [])
    | Fail e => Fail (Errorf "ots: pending uri: %w" e)
    | Stuck => Stuck
    end
  else Ret (mkAtt OtsAttestUnknown 0 [] msg magic).

Definition parseAttestation (msg : bytes) (p : otsParser) : go otsParser :=
  if otsMaxAttestationsPerProof <=? len (out p)
  then Fail (ErrorsNew "ots: attestation count exceeds limit %d") else
  '(magic, r) ← ret (errorf "ots: attestation magic: %w" (ReadFull 8 (rd p)));
  '(payloadLen, r) ← ret (errorf "ots: attestation length: %w" (readVaruint r));
  if otsMaxAttestPayloadLen <? payloadLen
  then Fail (ErrorsNew "ots: attestation payload %d > %d") else
  '(payload, r) ← ret (errorf "ots: attestation payload: %w" (ReadFull payloadLen r));
  att ← decodeAttestation magic payload msg;
  Ret (mkParser r (out p ++ [att])).

(** The tag of the next item, and whether a sibling follows it. *)
Definition readTag (r : bytes) : result (Z * bool * bytes) :=
  '(tag, r) ← errorf "ots: read item tag: %w" (ReadByte r);
  if Z_of_byte tag =? 255 then
    '(tag, r) ← errorf "ots: read sibling tag after 0xff: %w" (ReadByte r);
    Ok (Z_of_byte tag, true, r)
  else Ok (Z_of_byte tag, false, r).

(** [parseItem]; [walk] is the recursive call. *)
Definition parseItem (walk : bytes → Z → otsParser → option (go otsParser)) (tag : Z)
    (currentMsg : bytes) (depth : Z) (p : otsParser) : option (go otsParser) :=
  if tag =? 0 then Some (parseAttestation currentMsg p) else
  match applyOp tag currentMsg p with
  | Err e => Some (Fail e)
  | Ok (next, p) => walk next (depth + 1) p
  end.

(** A further iteration of the loop of [walk] is a call with the same message
    and depth.  [None] is that the fuel did not suffice; it does when there is
    more of it than unread bytes. *)
Fixpoint walk (fuel : nat) (currentMsg : bytes) (depth : Z) (p : otsParser) : option (go otsParser) :=
  match fuel with
  | O => None
  | S fuel =>
      if otsMaxRecursionDepth <? depth
      then Some (Fail (ErrorsNew "ots: tree depth %d exceeds limit %d")) else
      match readTag (rd p) with
      | Err e => Some (Fail e)
      | Ok (tag, more, r) =>
          match parseItem (walk fuel) tag currentMsg depth (mkParser r (out p)) with
          | Some (Ret p) => if more then walk fuel currentMsg depth p else Some (Ret p)
          | o => o
          end
      end
  end.

Definition ParseOtsTimestamp (initialDigest raw : bytes) : go (list OtsAttestation) :=
  if len initialDigest =? 0 then Fail (ErrorsNew "ots: empty initial digest") else
  if len raw =? 0 then Fail (ErrorsNew "ots: empty timestamp body") else
  match walk (S (length raw)) initialDigest 0 (mkParser raw []) with
  | None => Stuck
  | Some o =>
      p ← o;
      if negb (len (rd p) =? 0) then Fail (ErrorsNew "ots: %d trailing bytes after timestamp")
      else Ret (out p)
  end.

End ots.

(** ** Queries *)

Definition is_bitcoin (a : OtsAttestation) : bool :=
  match Kind a with OtsAttestBitcoin => true | _ => false end.

Definition BitcoinAttestations (p : list OtsAttestation) : list OtsAttestation :=
  List.filter is_bitcoin p.

Definition HasBitcoin (p : list OtsAttestation) : bool := 0 <? len (BitcoinAttestations p).

Definition HasPending (p : list OtsAttestation) : bool :=
  existsb (λ a, match Kind a with OtsAttestPending => true | _ => false end) p.

End ots.
