(* ===== verification/OtsProofs.v ===== *)
(** * OpenTimestamps proofs: theorems

    A grammar of timestamps and what they attest, independent of the parser;
    the parser accepts exactly the timestamps of the grammar within its limits
    and returns their attestations.  It terminates on every input, and there is
    an input on which it panics. *)

From S2P Require Import Prelude TrustErr CryptoSuite Model TrustCrypto Cborx KeyDescriptor Instances.
From S2P Require Import Ots.

Module ots_proofs.
Import ots.

(** ** Variable-length integers *)

(** Seven bits per byte, the least significant first; all bytes but the last
    have the top bit set. *)
Inductive varuint : Z → bytes → Prop :=
| vu_last b : Z_of_byte b < 128 → varuint (Z_of_byte b) [b]
| vu_more b n r : 128 <= Z_of_byte b → varuint n r →
    varuint (Z_of_byte b - 128 + 128 * n) (b :: r).

Lemma lor_disjoint v w s : 0 <= s → 0 <= v < 2 ^ s → Z.lor v (w * 2 ^ s) = v + w * 2 ^ s.
Proof.
  intros Hs Hv. rewrite Z.lor_comm, <- Z.shiftl_mul_pow2 by done.
  pose proof (Z.add_lor_land (Z.shiftl w s) v) as Ha.
  assert (Z.land (Z.shiftl w s) v = 0) as Hl; [|lia].
  apply Z.bits_inj'. intros n Hn. rewrite Z.land_spec, Z.bits_0.
  destruct (decide (n < s)); [by rewrite Z.shiftl_spec_low|].
  destruct (decide (v = 0)) as [-> |]; [by rewrite Z.bits_0, andb_false_r|].
  rewrite (Z.bits_above_log2 v); [apply andb_false_r|lia|].
  assert (Z.log2 v < s) by (apply Z.log2_lt_pow2; lia). lia.
Qed.

(** One step of the decoding loops. *)
Lemma lor_step v x s :
  0 <= s <= 63 → 0 <= v < 2 ^ s → 0 <= x → Z.lor v (u64 (Z.shiftl x s)) = u64 (v + x * 2 ^ s).
Proof.
  intros Hs Hv Hx. rewrite Z.shiftl_mul_pow2 by lia. unfold u64, two64.
  change 18446744073709551616 with (2 ^ 64). replace (2 ^ 64) with (2 ^ (64 - s) * 2 ^ s)
    by (rewrite <- Z.pow_add_r by lia; f_equal; lia).
  assert (0 < 2 ^ s) by (apply Z.pow_pos_nonneg; lia).
  assert (0 < 2 ^ (64 - s)) by (apply Z.pow_pos_nonneg; lia).
  rewrite Z.mul_mod_distr_r by lia. rewrite lor_disjoint by lia.
  rewrite (Z.mul_comm (2 ^ (64 - s))), Z.rem_mul_r by lia.
  rewrite Z.mod_add, Z.div_add, (Z.mod_small v), (Z.div_small v) by lia. rewrite Z.add_0_l. ring.
Qed.

Lemma byte_low b : Z.land (Z_of_byte b) 127 = Z_of_byte b mod 128.
Proof. change 127 with (Z.ones 7). by rewrite Z.land_ones. Qed.

Lemma byte_top b :
  (Z.land (Z_of_byte b) 128 =? 0) = (Z_of_byte b <? 128) ∧
  Z_of_byte b mod 128 = if Z_of_byte b <? 128 then Z_of_byte b else Z_of_byte b - 128.
Proof.
  by destruct b.
Qed.

Lemma varuint_nonneg n e : varuint n e → 0 <= n.
Proof. induction 1 as [b Hb|b n r Hb _ IH]; [apply Z_of_byte_range|]. pose proof (Z_of_byte_range b). lia. Qed.

(** What the decoding loop of the reader accepts. *)
Lemma varuint_loop k : ∀ shift v r v' r',
  0 <= shift → shift + 7 * Z.of_nat k = 70 → 0 <= v < 2 ^ shift → in_u64 v →
  readVaruint_loop k shift v r = Ok (v', r') ↔
  ∃ n e, r = e ++ r' ∧ varuint n e ∧ (length e <= k)%nat ∧ v' = u64 (v + n * 2 ^ shift).
Proof.
  induction k as [|k IH]; intros shift v r v' r' Hs Hk Hv Hu; cbn [readVaruint_loop].
  { split; [done|]. intros (n & e & _ & Hn & Hl & _). destruct Hn; cbn in Hl; lia. }
  destruct r as [|b r]; cbn [ReadByte mbind result_bind].
  { split; [done|]. intros (n & e & E & Hn & _). destruct Hn; by destruct r'. }
  destruct (byte_top b) as [-> Hm]. pose proof (Z_of_byte_range b) as Hb.
  rewrite byte_low, lor_step by (lia || (apply Z.mod_pos_bound; lia)). destruct (Z_of_byte b <? 128) eqn:Eb; bsimpl; rewrite Hm.
  - split.
    + intros [= <- <-]. exists (Z_of_byte b), [b]. split_and!; [done|by constructor|cbn; lia|done].
    + intros (n & e & E & Hn & Hl & ->). destruct Hn as [b' Hb'|b' n r0 Hb' Hn]; injection E as -> E; [|lia].
      by rewrite E.
  - assert (0 < 2 ^ shift) by (apply Z.pow_pos_nonneg; lia).
    assert (2 ^ (shift + 7) = 128 * 2 ^ shift) as Hp by (rewrite Z.pow_add_r by lia; lia).
    rewrite IH; [|lia|lia| |apply u64_range].
    2: { split; [apply u64_range|]. eapply Z.le_lt_trans; [apply Z.mod_le; [nia|done]|]. nia. }
    assert (∀ n, u64 (u64 (v + (Z_of_byte b - 128) * 2 ^ shift) + n * 2 ^ (shift + 7)) =
      u64 (v + (Z_of_byte b - 128 + 128 * n) * 2 ^ shift)) as Hmod.
    { intros n. unfold u64. rewrite Zplus_mod_idemp_l, Hp. f_equal. ring. }
    split.
    + intros (n & e & -> & Hn & Hl & ->). exists (Z_of_byte b - 128 + 128 * n), (b :: e).
      split_and!; [done|by constructor|cbn; lia|apply Hmod].
    + intros (n & e & E & Hn & Hl & ->). destruct Hn as [b' Hb'|b' n r0 Hb' Hn]; injection E as -> E; [lia|].
      exists n, r0. split_and!; [done|done|cbn in Hl; lia|symmetry; apply Hmod].
Qed.

Lemma readVaruint_Ok r v r' :
  readVaruint r = Ok (v, r') ↔
  ∃ n e, r = e ++ r' ∧ varuint n e ∧ (length e <= 10)%nat ∧ v = u64 n.
Proof.
  unfold readVaruint. rewrite varuint_loop by done.
  by setoid_rewrite Z.mul_1_r.
Qed.

Lemma ots_ReadFull_Ok n r a r' :
  0 <= n → ReadFull n r = Ok (a, r') ↔ r = a ++ r' ∧ len a = n.
Proof.
  intros Hn. unfold ReadFull, len. destruct (n <=? Z.of_nat (length r)) eqn:E; bsimpl.
  - split.
    + intros [= <- <-]. rewrite take_drop, length_take. split; [done|lia].
    + intros [-> Ha]. replace (Z.to_nat n) with (length a) by lia.
      by rewrite take_app_length, drop_app_length.
  - split; [by destruct (_ =? 0)|]. intros [-> Ha]. rewrite length_app in E. lia.
Qed.

(** [data] with its length in front of it. *)
Definition sized (max : Z) (data b : bytes) : Prop :=
  ∃ n e, varuint n e ∧ (length e <= 10)%nat ∧ u64 n = len data ∧ len data <= max ∧ b = e ++ data.

Lemma readVarbytes_Ok r data r' :
  readVarbytes r = Ok (data, r') ↔ ∃ b, r = b ++ r' ∧ sized otsMaxVarbytesLen data b.
Proof.
  unfold readVarbytes. rewrite bind_Ok. split.
  - intros ([v r1] & E & E'). apply readVaruint_Ok in E as (n & e & -> & Hn & Hl & ->).
    ok_inv. bsimpl. pose proof (u64_range n) as [Hu _]. apply ots_ReadFull_Ok in E' as [-> Hd]; [|done].
    exists (e ++ data). rewrite app_assoc. split; [done|]. exists n, e. split_and!; try done. lia.
  - intros (b & -> & n & e & Hn & Hl & Hu & Hm & ->). exists (u64 n, data ++ r'). split.
    + apply readVaruint_Ok. exists n, e. by rewrite <- app_assoc.
    + rewrite (proj2 (Z.ltb_ge _ _)) by lia. pose proof (u64_range n) as [? _]. by apply ots_ReadFull_Ok.
Qed.

(** ** The grammar of timestamps *)

Inductive op :=
| OpSha256 | OpSha1 | OpRipemd160 | OpKeccak256
| OpAppend (data : bytes) | OpPrepend (data : bytes).

(** An item is an attestation or an operation with the items below it; the
    items of a node follow each other. *)
Inductive item :=
| IAtt (magic payload : bytes)
| IOp (o : op) (t : tree)
with tree :=
| TLast (i : item)
| TMore (i : item) (t : tree).

Inductive enc_op : op → bytes → Prop :=
| enc_sha256 : enc_op OpSha256 [Byte.x08]
| enc_sha1 : enc_op OpSha1 [Byte.x02]
| enc_ripemd160 : enc_op OpRipemd160 [Byte.x03]
| enc_keccak256 : enc_op OpKeccak256 [Byte.x67]
| enc_append data b : sized otsMaxVarbytesLen data b → enc_op (OpAppend data) (Byte.xf0 :: b)
| enc_prepend data b : sized otsMaxVarbytesLen data b → enc_op (OpPrepend data) (Byte.xf1 :: b).

Inductive enc_item : item → bytes → Prop :=
| enc_att magic payload b :
    length magic = 8%nat → sized otsMaxAttestPayloadLen payload b →
    enc_item (IAtt magic payload) (x00 :: magic ++ b)
| enc_iop o t b b' : enc_op o b → enc_tree t b' → enc_item (IOp o t) (b ++ b')
with enc_tree : tree → bytes → Prop :=
| enc_last i b : enc_item i b → enc_tree (TLast i) b
| enc_more i t b b' : enc_item i b → enc_tree t b' → enc_tree (TMore i t) (Byte.xff :: b ++ b').

Scheme enc_item_mut := Induction for enc_item Sort Prop
  with enc_tree_mut := Induction for enc_tree Sort Prop.

Fixpoint depth_item (i : item) : Z :=
  match i with IAtt _ _ => 0 | IOp _ t => 1 + depth_tree t end
with depth_tree (t : tree) : Z :=
  match t with TLast i => depth_item i | TMore i t => Z.max (depth_item i) (depth_tree t) end.

Section proofs.
Context `{HashLib, OtsHashLib}.

Definition apply_op (o : op) (msg : bytes) : bytes :=
  match o with
  | OpSha256 => sha256_Sum256 msg
  | OpSha1 => sha1_Sum msg
  | OpRipemd160 => ripemd160_Sum msg
  | OpKeccak256 => keccak256_Sum msg
  | OpAppend data => msg ++ data
  | OpPrepend data => data ++ msg
  end.

(** The attestations of a tree at the digest [msg], in the order of a
    depth-first walk. *)
Fixpoint atts_item (i : item) (msg : bytes) : option (list OtsAttestation) :=
  match i with
  | IAtt magic payload =>
      match decodeAttestation magic payload msg with Ret a => Some [a] | _ => None end
  | IOp o t => atts_tree t (apply_op o msg)
  end
with atts_tree (t : tree) (msg : bytes) : option (list OtsAttestation) :=
  match t with
  | TLast i => atts_item i msg
  | TMore i t => a ← atts_item i msg; b ← atts_tree t msg; Some (a ++ b)
  end.

Lemma parseAttestation_Ret msg p p' :
  parseAttestation msg p = Ret p' ↔
  ∃ magic payload b a, rd p = magic ++ b ++ rd p' ∧ length magic = 8%nat ∧
    sized otsMaxAttestPayloadLen payload b ∧ decodeAttestation magic payload msg = Ret a ∧
    out p' = out p ++ [a] ∧ len (out p) < otsMaxAttestationsPerProof.
Proof.
  unfold parseAttestation. split.
  - intros E. go_inv. bsimpl. destruct x as [magic r1]. go_inv. ok_inv. destruct x as [n r2].
    go_inv. bsimpl. ok_inv. destruct x as [payload r3]. go_inv. ok_inv. subst p'. cbn [rd out].
    apply ots_ReadFull_Ok in H1 as [-> Hm]; [|done].
    apply readVaruint_Ok in H2 as (m & e & -> & Hv & Hl & ->).
    pose proof (u64_range m) as [Hu _]. apply ots_ReadFull_Ok in H3 as [-> Hp]; [|done].
    exists magic, payload, (e ++ payload), x. rewrite <- !app_assoc.
    split_and!; try done; [unfold len in Hm; lia|]. exists m, e. split_and!; try done. lia.
  - intros (magic & payload & b & a & E & Hm & (n & e & Hv & Hl & Hu & Hx & ->) & Hd & Ho & Hc).
    rewrite (proj2 (Z.leb_gt _ _)) by lia. rewrite E.
    assert (ReadFull 8 (magic ++ (e ++ payload) ++ rd p') = Ok (magic, (e ++ payload) ++ rd p')) as ->
      by (apply ots_ReadFull_Ok; [done|split; [done|unfold len; lia]]).
    cbn [errorf ret mbind go_bind].
    assert (readVaruint ((e ++ payload) ++ rd p') = Ok (u64 n, payload ++ rd p')) as ->
      by (apply readVaruint_Ok; exists n, e; by rewrite <- app_assoc).
    cbn [errorf ret mbind go_bind]. rewrite (proj2 (Z.ltb_ge _ _)) by lia.
    assert (ReadFull (u64 n) (payload ++ rd p') = Ok (payload, rd p')) as ->
      by (pose proof (u64_range n) as [? _]; by apply ots_ReadFull_Ok).
    cbn [errorf ret mbind go_bind]. rewrite Hd. cbn [mbind go_bind].
    destruct p' as [r' o']. cbn in *. by rewrite Ho.
Qed.

Lemma applyOp_Ok tag msg p next p' r :
  Z_of_byte tag ≠ 0 → rd p = r →
  applyOp (Z_of_byte tag) msg p = Ok (next, p') ↔
  ∃ o b, enc_op o (tag :: b) ∧ r = b ++ rd p' ∧ next = apply_op o msg ∧ out p' = out p.
Proof.
  intros Hz <-. unfold applyOp. split.
  - intros E.
    destruct (Z_of_byte tag =? 8) eqn:E8.
    { injection E as <- <-. exists OpSha256, []. destruct tag; try done. split_and!; try done. constructor. }
    destruct (Z_of_byte tag =? 2) eqn:E2.
    { injection E as <- <-. exists OpSha1, []. destruct tag; try done. split_and!; try done. constructor. }
    destruct (Z_of_byte tag =? 3) eqn:E3.
    { injection E as <- <-. exists OpRipemd160, []. destruct tag; try done. split_and!; try done. constructor. }
    destruct (Z_of_byte tag =? 103) eqn:E103.
    { injection E as <- <-. exists OpKeccak256, []. destruct tag; try done. split_and!; try done. constructor. }
    destruct (Z_of_byte tag =? 240) eqn:E240.
    { ok_inv. destruct x as [data r]. injection E as <- <-. apply readVarbytes_Ok in H1 as (b & Eb & Hb).
      exists (OpAppend data), b. destruct tag; try done. split_and!; try done. by constructor. }
    destruct (Z_of_byte tag =? 241) eqn:E241; [|done].
    ok_inv. destruct x as [data r]. injection E as <- <-. apply readVarbytes_Ok in H1 as (b & Eb & Hb).
    exists (OpPrepend data), b. destruct tag; try done. split_and!; try done. by constructor.
  - intros (o & b & Ho & Er & -> & Hout).
    assert (p' = mkParser (rd p') (out p)) as -> by (destruct p'; cbn in *; by rewrite Hout).
    cbn [rd] in Er. inversion Ho; subst; cbn [app] in Er;
      match goal with |- context [Z_of_byte ?t] =>
        let v := eval vm_compute in (Z_of_byte t) in change (Z_of_byte t) with v end;
      cbn [Z.eqb Pos.eqb apply_op].
    1-4: by destruct p; cbn in *; rewrite Er.
    all: assert (readVarbytes (rd p) = Ok (data, rd p')) as -> by (apply readVarbytes_Ok; by eexists); done.
Qed.

Lemma readTag_Ok r tag more r' :
  readTag r = Ok (tag, more, r') ↔
  ∃ b, tag = Z_of_byte b ∧ if more then r = Byte.xff :: b :: r' else r = b :: r' ∧ tag ≠ 255.
Proof.
  unfold readTag. split.
  - intros E. destruct r as [|b r]; [done|]. cbn [ReadByte errorf mbind result_bind] in E.
    destruct (Z_of_byte b =? 255) eqn:Eb; bsimpl.
    + destruct r as [|b' r]; [done|]. injection E as <- <- <-. exists b'. split; [done|].
      by destruct b.
    + injection E as <- <- <-. by exists b.
  - intros (b & -> & Hm). destruct more.
    + by rewrite Hm.
    + destruct Hm as [-> Hn]. cbn [ReadByte errorf mbind result_bind].
      by rewrite (proj2 (Z.eqb_neq _ _) Hn).
Qed.

(** ** The parser accepts only timestamps *)

Definition parsed (P : bytes → Prop) (atts : list OtsAttestation) (p p' : otsParser) : Prop :=
  ∃ b, P b ∧ rd p = b ++ rd p' ∧ out p' = out p ++ atts ∧
    (len (out p) <= otsMaxAttestationsPerProof → len (out p') <= otsMaxAttestationsPerProof).

Lemma item_sound fuel t msg d p p' :
  (∀ msg d p p', walk fuel msg d p = Some (Ret p') →
     ∃ t atts, parsed (enc_tree t) atts p p' ∧ atts_tree t msg = Some atts ∧
       d + depth_tree t <= otsMaxRecursionDepth) →
  d <= otsMaxRecursionDepth →
  parseItem (walk fuel) (Z_of_byte t) msg d p = Some (Ret p') →
  ∃ i atts, parsed (λ b, enc_item i (t :: b)) atts p p' ∧ atts_item i msg = Some atts ∧
    d + depth_item i <= otsMaxRecursionDepth.
Proof.
  intros IH Hd. unfold parseItem. destruct (Z_of_byte t =? 0) eqn:Et; bsimpl.
  - intros [= E]. apply parseAttestation_Ret in E as (magic & payload & b & a & Er & Hm & Hs & Ha & Ho & Hc).
    exists (IAtt magic payload), [a]. split_and!; [|cbn; by rewrite Ha|cbn; lia].
    exists (magic ++ b). split_and!.
    + assert (t = x00) as -> by by destruct t. by constructor.
    + by rewrite Er, <- app_assoc.
    + done.
    + intros _. rewrite Ho. unfold len in *. rewrite length_app. cbn. lia.
  - destruct (applyOp _ _ _) as [[next p1]|] eqn:Ea; [|done].
    apply (applyOp_Ok _ _ _ _ _ _ Et eq_refl) in Ea as (o & b & Ho & Er & -> & Hout).
    intros E. apply IH in E as (tr & atts & (b' & Hb & Er' & Ho' & Hc) & Ha & Hdep).
    exists (IOp o tr), atts. split_and!; [|done|cbn; lia]. exists (b ++ b'). split_and!.
    + change (t :: b ++ b') with ((t :: b) ++ b'). by constructor.
    + by rewrite Er, Er', app_assoc.
    + by rewrite Ho', Hout.
    + by rewrite <- Hout.
Qed.

Lemma walk_sound fuel : ∀ msg d p p',
  walk fuel msg d p = Some (Ret p') →
  ∃ t atts, parsed (enc_tree t) atts p p' ∧ atts_tree t msg = Some atts ∧
    d + depth_tree t <= otsMaxRecursionDepth.
Proof.
  induction fuel as [|fuel IH]; intros msg d p p' E; [done|]. cbn [walk] in E.
  destruct (otsMaxRecursionDepth <? d) eqn:Ed; [done|]. bsimpl.
  destruct (readTag (rd p)) as [[[tag more] r]|] eqn:Er; [|done].
  apply readTag_Ok in Er as (b & -> & Hm).
  destruct (parseItem _ _ _ _ _) as [[p1|?|]|] eqn:Ei; [|done..].
  apply (item_sound fuel _ _ _ _ _ IH Ed) in Ei as (i & atts & (b1 & Hb1 & Er1 & Ho1 & Hc1) & Ha1 & Hd1).
  cbn [rd out] in *. destruct more.
  - apply IH in E as (t & atts2 & (b2 & Hb2 & Er2 & Ho2 & Hc2) & Ha2 & Hd2).
    exists (TMore i t), (atts ++ atts2). split_and!; [|cbn; by rewrite Ha1, Ha2|cbn; lia].
    exists (Byte.xff :: (b :: b1) ++ b2). split_and!.
    + by constructor.
    + by rewrite Hm, Er1, Er2, <- app_comm_cons, app_assoc.
    + by rewrite Ho2, Ho1, app_assoc.
    + auto.
  - injection E as <-. destruct Hm as [Hm _]. exists (TLast i), atts. split_and!; [|done|done].
    exists (b :: b1). split_and!; [by constructor|by rewrite Hm, Er1|done|done].
Qed.

(** ** The parser accepts all of them *)

Definition item_parses (i : item) (b : bytes) : Prop :=
  ∃ t e, b = t :: e ∧ Z_of_byte t ≠ 255 ∧ ∀ fuel msg d o rest atts,
    (length (e ++ rest) < fuel)%nat → d + depth_item i <= otsMaxRecursionDepth →
    atts_item i msg = Some atts → len (o ++ atts) <= otsMaxAttestationsPerProof →
    parseItem (walk fuel) (Z_of_byte t) msg d (mkParser (e ++ rest) o) =
      Some (Ret (mkParser rest (o ++ atts))).

Definition tree_parses (t : tree) (b : bytes) : Prop :=
  ∀ fuel msg d o rest atts,
    (length (b ++ rest) < fuel)%nat → d + depth_tree t <= otsMaxRecursionDepth →
    atts_tree t msg = Some atts → len (o ++ atts) <= otsMaxAttestationsPerProof →
    walk fuel msg d (mkParser (b ++ rest) o) = Some (Ret (mkParser rest (o ++ atts))).

Lemma depth_nonneg t : 0 <= depth_tree t.
Proof.
  revert t. fix IH 1. intros [i|i t]; cbn [depth_tree].
  - destruct i as [|o t]; cbn [depth_item]; [done|]. specialize (IH t). lia.
  - specialize (IH t). lia.
Qed.

Lemma depth_item_nonneg i : 0 <= depth_item i.
Proof. apply (depth_nonneg (TLast i)). Qed.

Lemma att_parses magic payload b :
  length magic = 8%nat → sized otsMaxAttestPayloadLen payload b →
  item_parses (IAtt magic payload) (x00 :: magic ++ b).
Proof.
  intros Hm Hs. exists x00, (magic ++ b). split_and!; [done|done|]. intros fuel msg d o rest atts _ _ Ha Hc.
  cbn in Ha. destruct (decodeAttestation magic payload msg) as [a| |] eqn:Ed; [|done..].
  injection Ha as <-. unfold parseItem. change (Z_of_byte x00 =? 0) with true. cbn iota.
  f_equal. apply parseAttestation_Ret. exists magic, payload, b, a. cbn [rd out].
  rewrite <- app_assoc. split_and!; try done. unfold len in *. rewrite length_app in Hc. cbn in Hc. lia.
Qed.

Lemma op_parses o t b b' : enc_op o b → tree_parses t b' → item_parses (IOp o t) (b ++ b').
Proof.
  intros Ho IH. assert (∃ tag e, b = tag :: e ∧ Z_of_byte tag ≠ 255 ∧ Z_of_byte tag ≠ 0)
    as (tag & e & -> & Ht & Hz) by (inversion Ho; by do 2 eexists).
  exists tag, (e ++ b'). split_and!; [done|done|]. intros fuel msg d out0 rest atts Hf Hd Ha Hc.
  unfold parseItem. rewrite (proj2 (Z.eqb_neq _ _) Hz).
  assert (applyOp (Z_of_byte tag) msg (mkParser ((e ++ b') ++ rest) out0) =
    Ok (apply_op o msg, mkParser (b' ++ rest) out0)) as ->.
  { apply (applyOp_Ok _ _ _ _ _ _ Hz eq_refl). exists o, e. cbn [rd out]. by rewrite <- app_assoc. }
  cbn in Hd, Ha. apply IH; [|lia|done|done]. rewrite !length_app in *. lia.
Qed.

Lemma tree_complete t b : enc_tree t b → tree_parses t b.
Proof.
  revert t b. apply (enc_tree_mut (λ i b _, item_parses i b) (λ t b _, tree_parses t b)).
  - intros. by apply att_parses.
  - intros. by apply op_parses.
  - intros i b _ (t & e & -> & Ht & Hi). intros [|fuel] msg d o rest atts Hf Hd Ha Hc; [lia|].
    cbn [walk]. pose proof (depth_item_nonneg i). cbn in Hd. rewrite (proj2 (Z.ltb_ge _ _)) by lia.
    assert (readTag ((t :: e) ++ rest) = Ok (Z_of_byte t, false, e ++ rest)) as Er
      by (apply readTag_Ok; by exists t).
    cbn [rd out]. rewrite Er. rewrite (Hi fuel msg d o rest atts); [done|cbn in Hf; lia|lia|done|done].
  - intros i t b b' _ (tg & e & -> & Ht & Hi) _ IH. intros [|fuel] msg d o rest atts Hf Hd Ha Hc; [lia|].
    cbn [walk]. pose proof (depth_item_nonneg i). pose proof (depth_nonneg t). cbn in Hd.
    rewrite (proj2 (Z.ltb_ge _ _)) by lia.
    cbn in Ha. destruct (atts_item i msg) as [a1|] eqn:E1; [|done].
    destruct (atts_tree t msg) as [a2|] eqn:E2; [|done]. injection Ha as <-.
    cbn [rd out app] in *.
    assert (readTag (Byte.xff :: tg :: (e ++ b') ++ rest) = Ok (Z_of_byte tg, true, e ++ b' ++ rest)) as ->
      by (apply readTag_Ok; exists tg; by rewrite <- app_assoc).
    assert (len (o ++ a1) <= len (o ++ a1 ++ a2))
      by (unfold len; rewrite !length_app; lia).
    cbn in Hf. rewrite !length_app in Hf.
    rewrite (Hi fuel msg d o (b' ++ rest) a1); [|rewrite !length_app; lia|lia|done|lia].
    rewrite app_assoc. apply IH; [rewrite length_app; lia|lia|done|by rewrite <- app_assoc].
Qed.

(** ** Termination *)

Lemma item_total fuel t msg d p :
  (∀ msg d p, (length (rd p) < fuel)%nat → ∃ o, walk fuel msg d p = Some o ∧
     ∀ p', o = Ret p' → (length (rd p') < length (rd p))%nat) →
  (length (rd p) < fuel)%nat →
  ∃ o, parseItem (walk fuel) (Z_of_byte t) msg d p = Some o ∧
    ∀ p', o = Ret p' → (length (rd p') <= length (rd p))%nat.
Proof.
  intros IH Hf. unfold parseItem. destruct (Z_of_byte t =? 0) eqn:Et; bsimpl.
  - eexists. split; [done|]. intros p' E. apply parseAttestation_Ret in E as (magic & _ & b & _ & -> & _).
    rewrite !length_app. lia.
  - destruct (applyOp _ _ _) as [[next p1]|e] eqn:Ea; [|by exists (Fail e)].
    apply (applyOp_Ok _ _ _ _ _ _ Et eq_refl) in Ea as (o & b & _ & Er & _).
    rewrite Er, length_app in *. destruct (IH next (d + 1) p1) as (r & E & Hr); [lia|].
    exists r. split; [done|]. intros p' E'. specialize (Hr p' E'). lia.
Qed.

Lemma walk_total fuel : ∀ msg d p,
  (length (rd p) < fuel)%nat →
  ∃ o, walk fuel msg d p = Some o ∧ ∀ p', o = Ret p' → (length (rd p') < length (rd p))%nat.
Proof.
  induction fuel as [|fuel IH]; intros msg d p Hf; [lia|]. cbn [walk].
  destruct (otsMaxRecursionDepth <? d); [by eexists|].
  destruct (readTag (rd p)) as [[[tag more] r]|] eqn:Er; [|by eexists].
  apply readTag_Ok in Er as (b & -> & Hm).
  assert (length r < length (rd p))%nat as Hl.
  { destruct more; [rewrite Hm|destruct Hm as [-> _]]; cbn; lia. }
  destruct (item_total fuel b msg d (mkParser r (out p)) IH) as (o & -> & Ho); [cbn; lia|].
  destruct o as [p1|e|]; [|by exists (Fail e)|by exists Stuck].
  specialize (Ho p1 eq_refl). cbn in Ho. destruct more.
  - destruct (IH msg d p1) as (o & -> & Ho'); [lia|]. exists o. split; [done|].
    intros p' E. specialize (Ho' p' E). lia.
  - eexists. split; [done|]. intros p' [= <-]. lia.
Qed.

(** C40: the OTS parser terminates on every input, and it accepts exactly the
    timestamps of the format within its limits: it returns attestations for a
    digest if and only if the whole input is the encoding of a tree of
    operations and attestations, at most 1024 operations deep, all of whose
    attestations can be decoded, at most 1024 of them; they are then returned in
    the order of a depth-first walk, each with the digest that its path of
    operations computes. *)
Theorem ots_parse_exact digest raw atts :
  (∃ o, walk (S (length raw)) digest 0 (mkParser raw []) = Some o) ∧
  (ParseOtsTimestamp digest raw = Ret atts ↔
   digest ≠ [] ∧ ∃ t, enc_tree t raw ∧ depth_tree t <= otsMaxRecursionDepth ∧
     atts_tree t digest = Some atts ∧ len atts <= otsMaxAttestationsPerProof).
Proof.
  destruct (walk_total (S (length raw)) digest 0 (mkParser raw [])) as (o & Ho & _); [cbn; lia|].
  split; [by eexists|]. unfold ParseOtsTimestamp. split.
  - intros E. rewrite Ho in E. go_inv. bsimpl. subst atts. subst o.
    apply walk_sound in Ho as (t & atts & (b & Hb & Er & Ho & Hc) & Ha & Hd). cbn [rd out app] in *.
    assert (rd x = []) as Ex by (destruct (rd x); [done|unfold len in *; cbn in *; lia]).
    rewrite Ex, app_nil_r in Er. subst b. split; [by intros ->|]. exists t.
    rewrite Ho. split_and!; [done|lia|done|]. rewrite <- Ho. apply Hc. done.
  - intros (Hne & t & He & Hd & Ha & Hc).
    pose proof (tree_complete t raw He (S (length (raw ++ []))) digest 0 [] [] atts) as W.
    rewrite app_nil_r in W. cbn [app] in W. rewrite W; [|lia|lia|done|done].
    assert (len digest =? 0 = false) as ->
      by (apply Z.eqb_neq; destruct digest; [done|unfold len; cbn; lia]).
    assert (len raw =? 0 = false) as ->.
    { apply Z.eqb_neq. destruct raw; [|unfold len; cbn; lia]. exfalso. clear -He.
      inversion He as [i b Hi|]; subst. inversion Hi as [|? ? b b' Ho]; subst.
      inversion Ho; subst; done. }
    done.
Qed.

(** There is a timestamp of 20 bytes on which the parser panics, whatever
    the digest: the length of the URI of its pending attestation is [2 ^ 63],
    which the conversion to [int] makes negative, so that the bounds check
    passes and the slice expression fails. *)
Theorem ots_parse_panics digest :
  digest ≠ [] →
  let raw := [x00; Byte.x83; Byte.xdf; Byte.xe3; Byte.x0d; Byte.x2e; Byte.xf9; Byte.x0c; Byte.x8e;
              Byte.x0a; Byte.x80; Byte.x80; Byte.x80; Byte.x80; Byte.x80; Byte.x80; Byte.x80;
              Byte.x80; Byte.x80; Byte.x01] in
  walk (S (length raw)) digest 0 (mkParser raw []) = Some Stuck ∧
  ParseOtsTimestamp digest raw = Stuck.
Proof.
  intros Hne. cbn zeta. split; [vm_compute; reflexivity|].
  destruct digest as [|x digest]; [done|]. unfold ParseOtsTimestamp.
  assert (len (x :: digest) =? 0 = false) as -> by (apply Z.eqb_neq; unfold len; cbn; lia).
  vm_compute. reflexivity.
Qed.

End proofs.

#[export] Instance ToyOtsHash : OtsHashLib := {
  sha1_Sum x := take 20 (toy_digest 11 x);
  ripemd160_Sum x := take 20 (toy_digest 12 x);
  keccak256_Sum := toy_digest 13 }.

Lemma ots_parse_panics_witness :
  ParseOtsTimestamp [Byte.x61]
    [x00; Byte.x83; Byte.xdf; Byte.xe3; Byte.x0d; Byte.x2e; Byte.xf9; Byte.x0c; Byte.x8e;
     Byte.x0a; Byte.x80; Byte.x80; Byte.x80; Byte.x80; Byte.x80; Byte.x80; Byte.x80;
     Byte.x80; Byte.x80; Byte.x01] = Stuck.
Proof. apply (ots_parse_panics [Byte.x61]). discriminate. Defined.

(** Two branches: a pending attestation with the URI "a", and, after an append
    and a hash, a Bitcoin attestation for block 300. *)
Example ex_ots :
  ParseOtsTimestamp [Byte.x61]
    ([Byte.xff; x00; Byte.x83; Byte.xdf; Byte.xe3; Byte.x0d; Byte.x2e; Byte.xf9; Byte.x0c; Byte.x8e;
      Byte.x02; Byte.x01; Byte.x61]
     ++ [Byte.xf0; Byte.x01; Byte.x62; Byte.x08; x00; Byte.x05; Byte.x88; Byte.x96; Byte.x0d;
         Byte.x73; Byte.xd7; Byte.x19; Byte.x01; Byte.x02; Byte.xac; Byte.x02])
  = Ret [mkAtt OtsAttestPending 0 [Byte.x61] [Byte.x61] [];
         mkAtt OtsAttestBitcoin 300 [] (sha256_Sum256 [Byte.x61; Byte.x62]) []].
Proof. vm_compute. reflexivity. Qed.

End ots_proofs.
