(* ===== verification/AnchorId.v ===== *)
(** * Anchor identifiers and OTS envelopes

    Models [deterministicAnchorID] and [appendLengthFramed] of
    [src/internal/anchor/file_sink.go], and the OTS envelope of
    [src/internal/anchor/ots_sink.go].  Decoding the envelope from JSON is the
    operation of the class [OtsJson]. *)

From S2P Require Import Prelude TrustErr CryptoSuite Model TrustCrypto Ots.

Module anchorid.

Definition FileSinkName : string := "file".
Definition NoopSinkName : string := "noop".
Definition OtsSinkName : string := "ots".
Definition SchemaOtsAnchorProof : string := "trustdb.anchor-ots-proof.v1".

Record OtsCalendarTimestamp := mkCalendar {
  URL : string;
  Accepted : bool;
  RawTimestamp : bytes;
  StatusCode : Z;
  CalendarError : string;
  ElapsedMillis : Z;
  Upgraded : bool }.

Record OtsAnchorProof := mkOtsProof {
  O_SchemaVersion : string;
  O_TreeSize : Z;
  O_HashAlg : string;
  O_Digest : bytes;
  O_Calendars : list OtsCalendarTimestamp;
  O_SubmittedAtN : Z }.

Fixpoint AllUpgraded_loop (calendars : list OtsCalendarTimestamp) : bool :=
  match calendars with
  | [] => true
  | c :: rest => if Accepted c && negb (Upgraded c) then false else AllUpgraded_loop rest
  end.

Definition AllUpgraded (p : option OtsAnchorProof) : bool :=
  match p with None => true | Some p => AllUpgraded_loop (O_Calendars p) end.

(** The length is converted to [uint32]. *)
Definition appendLengthFramed (dst value : bytes) : bytes :=
  dst ++ be_put 4 (len value mod 2 ^ 32) ++ value.

Definition anchorIDInput (sinkName : string) (sth : SignedTreeHead.t) : bytes :=
  let input := appendLengthFramed [] (bytes_of_string "trustdb.anchor-id.v2") in
  let input := appendLengthFramed input (bytes_of_string sinkName) in
  let input := appendLengthFramed input (bytes_of_string sth.(SignedTreeHead.CryptoSuite)) in
  let input := appendLengthFramed input (bytes_of_string sth.(SignedTreeHead.NodeID)) in
  let input := appendLengthFramed input (bytes_of_string sth.(SignedTreeHead.LogID)) in
  let input := appendLengthFramed input (be_put 8 sth.(SignedTreeHead.TreeSize)) in
  appendLengthFramed input sth.(SignedTreeHead.RootHash).

Section id.
Context `{HashLib}.

(** [trustcrypto.HashBytesForSuite] *)
Definition HashBytesForSuite (suiteID : cryptosuite.ID) (algorithm : string) (data : bytes)
  : result bytes :=
  factory ← trustcrypto.HashFactoryForSuite suiteID algorithm;
  Ok (trustcrypto.HashFactory_Sum factory data).

Definition deterministicAnchorID (sinkName prefix : string) (sth : SignedTreeHead.t) : result string :=
  suite ← errorf "anchor crypto_suite: %w"
            (cryptosuite.RequireAvailable sth.(SignedTreeHead.CryptoSuite));
  if sth.(SignedTreeHead.TreeSize) =? 0 then Err (ErrorsNew "tree_size is empty") else
  let digest := cryptosuite.AnchorDigest suite in
  if negb (len sth.(SignedTreeHead.RootHash) =? cryptosuite.DigestBytes digest)
  then Err (ErrorsNew "root_hash must be %d bytes for %s, got %d") else
  sum ← errorf "hash anchor id: %w"
          (HashBytesForSuite sth.(SignedTreeHead.CryptoSuite) (cryptosuite.HashAlgorithm digest)
             (anchorIDInput sinkName sth));
  Ok (prefix ++ String.substring 0 32 (ots.hex_encode sum))%string.

(** The error is dropped: the id is then empty. *)
Definition DeterministicOtsAnchorID (sth : SignedTreeHead.t) : string :=
  if negb (seqb sth.(SignedTreeHead.CryptoSuite) cryptosuite.INTLV1) then "" else
  match deterministicAnchorID OtsSinkName "ots2-" sth with Ok id => id | Err _ => "" end.

End id.

End anchorid.

(** [encoding/json] into an [OtsAnchorProof]. *)
Class OtsJson := { json_Unmarshal : bytes → result anchorid.OtsAnchorProof }.
