(* ===== verification/RecordSearch.v ===== *)
(** * Searching the record index

    Models [src/internal/model/record_index.go] and the proof levels of
    [src/internal/model/pagination.go]: the filter of record listings, the
    position of a cursor, and the search tokens under which a record is indexed,
    with the table that removes repeated tokens.

    The Unicode tables behind [strings.ToLower], [strings.EqualFold],
    [unicode.IsLetter] and [unicode.IsDigit] are a parameter. *)

From S2P Require Import Prelude TrustErr CryptoSuite Model Ots.

Module Idx := RecordIndex.

Class UnicodeLib := {
  strings_ToLower : string → string;
  strings_EqualFold : string → string → bool;
  IsLetterOrDigit : Z → bool }.

Module recordsearch.

(** ** Proof levels *)

Definition upper (c : Ascii.ascii) : Ascii.ascii :=
  let n := Ascii.N_of_ascii c in
  if (97 <=? n)%N && (n <=? 122)%N then Ascii.ascii_of_N (n - 32) else c.

(** [strings.ToUpper] on ASCII; no other letter has an upper case in ASCII that
    the level names use. *)
Fixpoint ToUpper (s : string) : string :=
  match s with
  | EmptyString => EmptyString
  | String c s => String (upper c) (ToUpper s)
  end.

Definition NormalizedProofLevel (raw : string) : string :=
  let level := ToUpper (TrimSpace raw) in
  if seqb level "L1" || seqb level "L2" || seqb level "L3" || seqb level "L4" || seqb level "L5"
  then level else "".

Definition ProofLevelRank (raw : string) : Z :=
  let level := NormalizedProofLevel raw in
  if seqb level "L1" then 1 else
  if seqb level "L2" then 2 else
  if seqb level "L3" then 3 else
  if seqb level "L4" then 4 else
  if seqb level "L5" then 5 else 0.

Definition RecordIndexProofLevel (idx : Idx.t) : string :=
  let level := NormalizedProofLevel idx.(Idx.ProofLevel) in
  if negb (seqb level "") then level else
  if negb (seqb idx.(Idx.BatchID) "") then "L3" else "L2".

(** ** Listings *)

Record RecordListOptions := mkOptions {
  Limit : Z;
  Direction : string;
  opt_BatchID : string;
  opt_TenantID : string;
  opt_ClientID : string;
  opt_ProofLevel : string;
  Query : string;
  opt_ContentHash : bytes;
  ReceivedFromUnixN : Z;
  ReceivedToUnixN : Z;
  AfterReceivedAtUnixN : Z;
  AfterRecordID : string }.

Definition RecordListDirectionAsc : string := "asc".

Definition CompareRecordPosition (leftTime : Z) (leftID : string) (rightTime : Z) (rightID : string) : Z :=
  if leftTime <? rightTime then -1 else
  if rightTime <? leftTime then 1 else
  if String.ltb leftID rightID then -1 else
  if String.ltb rightID leftID then 1 else 0.

(** [strings.Contains]. *)
Fixpoint Contains (s substr : string) : bool :=
  String.prefix substr s || match s with EmptyString => false | String _ s => Contains s substr end.

Section unicode.
Context `{UnicodeLib}.

Definition RecordIndexMatchesQuery (idx : Idx.t) (query : string) : bool :=
  let query := strings_ToLower (TrimSpace query) in
  if seqb query "" then true else
  existsb (λ value, Contains (strings_ToLower value) query)
    [idx.(Idx.RecordID); idx.(Idx.BatchID); idx.(Idx.TenantID); idx.(Idx.ClientID); idx.(Idx.KeyID);
     idx.(Idx.StorageURI); idx.(Idx.FileName); idx.(Idx.MediaType); idx.(Idx.EventType);
     idx.(Idx.Source); ots.hex_encode idx.(Idx.ContentHash)].

Definition RecordIndexMatchesListOptions (idx : Idx.t) (opts : RecordListOptions) : bool :=
  let asked x := negb (seqb x "") in
  if asked (opt_BatchID opts) && negb (seqb idx.(Idx.BatchID) (opt_BatchID opts)) then false else
  if asked (opt_TenantID opts) && negb (seqb idx.(Idx.TenantID) (opt_TenantID opts)) then false else
  if asked (opt_ClientID opts) && negb (seqb idx.(Idx.ClientID) (opt_ClientID opts)) then false else
  if asked (opt_ProofLevel opts) && negb (seqb (RecordIndexProofLevel idx) (opt_ProofLevel opts)) then false else
  if (0 <? len (opt_ContentHash opts)) && negb (bytes_equal idx.(Idx.ContentHash) (opt_ContentHash opts)) then false else
  if (0 <? ReceivedFromUnixN opts) && (idx.(Idx.ReceivedAtUnixN) <? ReceivedFromUnixN opts) then false else
  if (0 <? ReceivedToUnixN opts) && (ReceivedToUnixN opts <? idx.(Idx.ReceivedAtUnixN)) then false else
  RecordIndexMatchesQuery idx (Query opts).

Definition ascending (opts : RecordListOptions) : bool :=
  strings_EqualFold (Direction opts) RecordListDirectionAsc.

Definition RecordIndexAfterCursor (idx : Idx.t) (opts : RecordListOptions) : bool :=
  if (AfterReceivedAtUnixN opts =? 0) && seqb (AfterRecordID opts) "" then true else
  let cmp := CompareRecordPosition idx.(Idx.ReceivedAtUnixN) idx.(Idx.RecordID)
               (AfterReceivedAtUnixN opts) (AfterRecordID opts) in
  if ascending opts then 0 <? cmp else cmp <? 0.

End unicode.

(** ** Runes *)

Record rune := mkRune { code_point : Z; text : bytes }.

Definition RuneError : Z := 65533.
Definition low6 (b : byte) : Z := Z.land (Z_of_byte b) 63.

(** [range value]: an invalid byte is a [RuneError] of width one. *)
Fixpoint runes (s : bytes) : list rune :=
  match s with
  | [] => []
  | a :: r =>
      if in_range 0 127 a then mkRune (Z_of_byte a) [a] :: runes r else
      match r with
      | [] => [mkRune RuneError [a]]
      | b :: r2 =>
          if in_range 194 223 a then
            if cont b then mkRune (Z.land (Z_of_byte a) 31 * 64 + low6 b) [a; b] :: runes r2
            else mkRune RuneError [a] :: runes r
          else
          match r2 with
          | [] => mkRune RuneError [a] :: runes r
          | c :: r3 =>
              if in_range 224 239 a then
                if (if Z_of_byte a =? 224 then in_range 160 191 b
                    else if Z_of_byte a =? 237 then in_range 128 159 b else cont b) && cont c
                then mkRune (Z.land (Z_of_byte a) 15 * 4096 + low6 b * 64 + low6 c) [a; b; c] :: runes r3
                else mkRune RuneError [a] :: runes r
              else
              match r3 with
              | [] => mkRune RuneError [a] :: runes r
              | d :: r4 =>
                  if in_range 240 244 a
                     && (if Z_of_byte a =? 240 then in_range 144 191 b
                         else if Z_of_byte a =? 244 then in_range 128 143 b else cont b)
                     && cont c && cont d
                  then mkRune (Z.land (Z_of_byte a) 7 * 262144 + low6 b * 4096 + low6 c * 64 + low6 d)
                         [a; b; c; d] :: runes r4
                  else mkRune RuneError [a] :: runes r
              end
          end
      end
  end.

(** [string(runes)]: a [RuneError] is written as U+FFFD. *)
Definition encode (r : rune) : bytes :=
  if code_point r =? RuneError then [Byte.xef; Byte.xbf; Byte.xbd] else text r.
Definition string_of_runes (rs : list rune) : bytes := concat (map encode rs).

(** ** Tokens *)

Definition maxRecordStorageIndexTokens : nat := 64.

Definition isASCII (value : bytes) : bool := forallb (in_range 0 127) value.

Definition recordStorageTokenHash (value : bytes) : Z :=
  foldl (λ hash b, u64 (Z.lxor hash (Z_of_byte b) * 1099511628211)) 14695981039346656037 value.

Section tokens.
Context `{UnicodeLib}.

(** The runs of letters and digits; [cur] is the run that is open. *)
Fixpoint words (cur : option bytes) (rs : list rune) : list bytes :=
  match rs with
  | [] => match cur with Some t => [t] | None => [] end
  | r :: rs =>
      if IsLetterOrDigit (code_point r) then words (Some (default [] cur ++ text r)) rs
      else match cur with Some t => t :: words None rs | None => words None rs end
  end.

Definition recordSearchTokens (value : string) : list bytes :=
  words None (runes (bytes_of_string (strings_ToLower (TrimSpace value)))).

Definition recordSearchProbe (token : bytes) : bytes :=
  let rs := runes token in
  if (length rs <=? 3)%nat then token else string_of_runes (take 3 rs).

Definition RecordStorageQueryToken (query : string) : bytes :=
  match filter (λ token, (2 <= length (runes token))%nat) (recordSearchTokens query) with
  | token :: _ => recordSearchProbe token
  | [] => []
  end.

End tokens.

(** *** The table of tokens *)

Record table := mkTable { out : list bytes; tokenSlots : list nat }.

Definition slots : nat := 2 * maxRecordStorageIndexTokens.
Definition empty_table : table := mkTable [] (replicate slots 0%nat).

(** The probe sequence from [slot]; [None] when it does not end. *)
Fixpoint add_loop (fuel : nat) (token : bytes) (slot : nat) (t : table) : option table :=
  match fuel with
  | O => None
  | S fuel =>
      match tokenSlots t !! slot with
      | None => None
      | Some O => Some (mkTable (out t ++ [token])
                          (<[slot := Z.to_nat (Z.of_nat (length (out t ++ [token])) mod 256)]> (tokenSlots t)))
      | Some (S e) =>
          match out t !! e with
          | None => None
          | Some known =>
              if bytes_equal known token then Some t
              else add_loop fuel token ((slot + 1) mod slots) t
          end
      end
  end.

Definition add (token : bytes) (t : table) : option table :=
  if len token =? 0 then Some t else
  add_loop slots token (Z.to_nat (recordStorageTokenHash token mod Z.of_nat slots)) t.

(** The windows of one token, in the order they are added: [len] units of the
    token, [sub i w] the text of [w] of them from [i]. *)
Definition windows (n : nat) (sub : nat → nat → bytes) : list bytes :=
  flat_map (λ w, map (λ i, sub i w) (seq 0 (n + 1 - w))) [2; 3]%nat.

(** The windows of a token; [true] with each that ends the loops when the table
    is full. *)
Definition grams (token : bytes) : list (bytes * bool) :=
  let units n whole sub :=
    if (n <? 2)%nat then [] else
    (if (n <=? 4)%nat then [(whole, false)] else [])
    ++ map (λ g, (g, true)) (windows n sub) in
  if isASCII token then units (length token) token (λ i w, take w (drop i token))
  else let rs := runes token in
       units (length rs) token (λ i w, string_of_runes (take w (drop i rs))).

(** [None] when a probe sequence does not end. *)
Fixpoint add_all (gs : list (bytes * bool)) (t : table) : option table :=
  match gs with
  | [] => Some t
  | (g, checked) :: gs =>
      match add g t with
      | None => None
      | Some t =>
          if checked && (maxRecordStorageIndexTokens <=? length (out t))%nat then Some t
          else add_all gs t
      end
  end.

Section storage.
Context `{UnicodeLib}.

Definition rawTokens (idx : Idx.t) : list bytes :=
  recordSearchTokens idx.(Idx.FileName) ++ recordSearchTokens idx.(Idx.StorageURI).

(** The table never fills up ([RecordSearchProofs]), so that the default is not
    taken. *)
Definition RecordIndexStorageTokens (idx : Idx.t) : list bytes :=
  match add_all (flat_map grams (rawTokens idx)) empty_table with
  | Some t => out t
  | None => []
  end.

End storage.
End recordsearch.
