(* ===== verification/RecordSearchProofs.v ===== *)
(** * The search tokens of a record

    The open-addressed table behind [RecordIndexStorageTokens] removes repeated
    tokens exactly and its probe sequences end: the tokens of a record are the
    windows of its words in order, without repetitions, cut off at the bound. *)

From S2P Require Import Prelude TrustErr CryptoSuite Model Ots RecordSearch.

Module recordsearch_proofs.
Import recordsearch.

(** ** Proof levels *)

Lemma NormalizedProofLevel_cases l :
  NormalizedProofLevel l = "" ∨ NormalizedProofLevel l ∈ ["L1"; "L2"; "L3"; "L4"; "L5"].
Proof.
  unfold NormalizedProofLevel. destruct (_ || _) eqn:E; [right|by left].
  rewrite !orb_true_iff, !seqb_true in E. rewrite !elem_of_cons. tauto.
Qed.

Lemma NormalizedProofLevel_idem l : NormalizedProofLevel (NormalizedProofLevel l) = NormalizedProofLevel l.
Proof.
  destruct (NormalizedProofLevel_cases l) as [-> |Hl]; [done|]. revert Hl.
  generalize (NormalizedProofLevel l). intros x. rewrite !elem_of_cons, elem_of_nil.
  intros [-> |[-> |[-> |[-> |[-> |[]]]]]]; done.
Qed.

Lemma ProofLevelRank_norm l : ProofLevelRank (NormalizedProofLevel l) = ProofLevelRank l.
Proof. unfold ProofLevelRank. by rewrite NormalizedProofLevel_idem. Qed.

Lemma RecordIndexProofLevel_norm idx :
  NormalizedProofLevel (RecordIndexProofLevel idx) = RecordIndexProofLevel idx ∧ RecordIndexProofLevel idx ≠ "".
Proof.
  unfold RecordIndexProofLevel. destruct (seqb (NormalizedProofLevel _) "") eqn:E; cbn [negb].
  - by destruct (negb _).
  - split; [apply NormalizedProofLevel_idem|by apply seqb_false].
Qed.

(** ** The table *)

Definition home (token : bytes) : nat := Z.to_nat (recordStorageTokenHash token mod Z.of_nat slots).
Definition pos (h d : nat) : nat := ((h + d) mod slots)%nat.

Lemma slots_pos : slots ≠ 0%nat.
Proof. done. Qed.

Lemma pos_lt h d : (pos h d < slots)%nat.
Proof. apply Nat.mod_upper_bound, slots_pos. Qed.

Lemma pos_succ h d : ((pos h d + 1) mod slots)%nat = pos h (S d).
Proof.
  unfold pos. rewrite Nat.Div0.add_mod_idemp_l. f_equal. lia.
Qed.

Lemma home_pos token : home token = pos (home token) 0.
Proof.
  unfold pos. rewrite Nat.add_0_r, Nat.mod_small; [done|]. unfold home.
  pose proof (Z.mod_pos_bound (recordStorageTokenHash token) (Z.of_nat slots) ltac:(done)). lia.
Qed.

(** Every slot is reached from every other. *)
Lemma pos_reaches h p : (p < slots)%nat → ∃ d, (d < slots)%nat ∧ pos h d = p.
Proof.
  intros Hp. exists ((p + (slots - h mod slots)) mod slots)%nat.
  split; [apply Nat.mod_upper_bound, slots_pos|].
  unfold pos. rewrite Nat.Div0.add_mod_idemp_r. pose proof (Nat.mod_upper_bound h slots slots_pos) as Hh.
  rewrite <- (Nat.Div0.add_mod_idemp_l h). 
  replace (h mod slots + (p + (slots - h mod slots)))%nat with (p + 1 * slots)%nat by lia.
  rewrite Nat.Div0.mod_add, Nat.mod_small; done.
Qed.

Record table_ok (t : table) : Prop := {
  t_slots : length (tokenSlots t) = slots;
  t_nodup : NoDup (out t);
  t_entry p e : tokenSlots t !! p = Some (S e) → (e < length (out t))%nat;
  t_inj p p' e : tokenSlots t !! p = Some (S e) → tokenSlots t !! p' = Some (S e) → p = p';
  t_found i token : out t !! i = Some token →
    ∃ d, tokenSlots t !! pos (home token) d = Some (S i) ∧
      ∀ d', (d' < d)%nat → ∃ e, tokenSlots t !! pos (home token) d' = Some (S e) }.

Lemma empty_table_ok : table_ok empty_table.
Proof.
  constructor; cbn [out tokenSlots empty_table].
  - apply length_replicate.
  - constructor.
  - intros p e [? _]%lookup_replicate_1. done.
  - intros p p' e [? _]%lookup_replicate_1. done.
  - done.
Qed.

(** Fewer tokens than slots leave a free slot. *)
Lemma free_slot t : table_ok t → (length (out t) < slots)%nat → ∃ p, (p < slots)%nat ∧ tokenSlots t !! p = Some 0%nat.
Proof.
  intros T Hn. destruct (decide (0%nat ∈ tokenSlots t)) as [[p Hp]%list_elem_of_lookup|Hno].
  { exists p. split; [|done]. apply lookup_lt_Some in Hp. by rewrite (t_slots _ T) in Hp. }
  exfalso. assert (NoDup (tokenSlots t)) as Hd.
  { apply NoDup_alt. intros i j x Hi Hj. destruct x as [|e]; [|by apply (t_inj _ T i j e)].
    destruct Hno. by eapply list_elem_of_lookup_2. }
  assert (tokenSlots t ⊆ seq 1 (length (out t))) as Hsub.
  { intros x [p Hp]%list_elem_of_lookup. destruct x as [|e]; [destruct Hno; by eapply list_elem_of_lookup_2|].
    apply (t_entry _ T) in Hp. apply elem_of_seq. lia. }
  pose proof (NoDup_submseteq _ _ Hd Hsub) as Hs. apply submseteq_length in Hs.
  rewrite (t_slots _ T), length_seq in Hs. lia.
Qed.

(** The probe sequence of a token: every slot before [d] holds another token. *)
Definition passed (t : table) (token : bytes) (d : nat) : Prop :=
  ∀ d', (d' < d)%nat → ∃ e x, tokenSlots t !! pos (home token) d' = Some (S e) ∧ out t !! e = Some x ∧ x ≠ token.

Lemma insert_ok t token d :
  table_ok t → token ∉ out t → (length (out t) < 255)%nat → passed t token d →
  tokenSlots t !! pos (home token) d = Some 0%nat →
  table_ok (mkTable (out t ++ [token])
    (<[pos (home token) d := Z.to_nat (Z.of_nat (length (out t ++ [token])) mod 256)]> (tokenSlots t))).
Proof.
  intros T Hno Hlen Hp H0. rewrite length_app. cbn [length].
  replace (Z.to_nat (Z.of_nat (length (out t) + 1) mod 256)) with (S (length (out t))).
  2: { rewrite Z.mod_small by lia. lia. }
  set (q := pos (home token) d) in *.
  assert (∀ p e, <[q := S (length (out t))]> (tokenSlots t) !! p = Some (S e) →
    p = q ∧ e = length (out t) ∨ tokenSlots t !! p = Some (S e) ∧ p ≠ q) as Hinv.
  { intros p e Hpe. apply list_lookup_insert_Some in Hpe as [(-> & [= <-] & _)|[? ?]]; [by left|by right]. }
  assert (∀ p e, tokenSlots t !! p = Some (S e) → <[q := S (length (out t))]> (tokenSlots t) !! p = Some (S e)) as Hkeep.
  { intros p e Hpe. rewrite list_lookup_insert_ne; [done|]. intros ->. congruence. }
  constructor; cbn [out tokenSlots].
  - by rewrite length_insert, (t_slots _ T).
  - apply NoDup_app. split_and!; [apply T| |apply NoDup_singleton]. set_solver.
  - intros p e [[_ ->]|[Hpe _]]%Hinv; rewrite length_app; cbn; [lia|]. apply (t_entry _ T) in Hpe. lia.
  - intros p p' e [[-> ->]|[Hpe _]]%Hinv [[-> E]|[Hpe' _]]%Hinv; [done| | |by apply (t_inj _ T p p' e)].
    + apply (t_entry _ T) in Hpe'. lia.
    + apply (t_entry _ T) in Hpe. lia.
  - intros i x Hi. apply lookup_app_Some in Hi as [Hi|[Hle Hi]].
    + destruct (t_found _ T i x Hi) as (dx & Hdx & Hb). exists dx. split; [by apply Hkeep|].
      intros d' Hd'. destruct (Hb d' Hd') as [e He]. exists e. by apply Hkeep.
    + apply list_lookup_singleton_Some in Hi as [Hz <-]. exists d. split.
      * fold q. rewrite list_lookup_insert_eq; [do 2 f_equal; lia|]. rewrite (t_slots _ T). apply pos_lt.
      * intros d' Hd'. destruct (Hp d' Hd') as (e & y & He & _). exists e. by apply Hkeep.
Qed.

Lemma add_loop_spec fuel token t d :
  table_ok t → (length (out t) < slots)%nat → passed t token d → (d + fuel = slots)%nat →
  ∃ t', add_loop fuel token (pos (home token) d) t = Some t' ∧ table_ok t' ∧
    out t' = if decide (token ∈ out t) then out t else out t ++ [token].
Proof.
  intros T Hn. revert d. induction fuel as [|fuel IH]; intros d Hp Hd.
  { exfalso. destruct (free_slot t T Hn) as (p & Hlt & H0). destruct (pos_reaches (home token) p Hlt) as (d0 & Hd0 & <-).
    destruct (Hp d0) as (e & x & He & _); [lia|]. congruence. }
  cbn [add_loop]. destruct (tokenSlots t !! pos (home token) d) as [[|e]|] eqn:Es.
  - eexists. split; [done|].
    assert (token ∉ out t) as Hno.
    { intros [i Hi]%list_elem_of_lookup. destruct (t_found _ T i token Hi) as (dx & Hdx & Hb).
      destruct (decide (dx < d)%nat) as [Hlt|Hge].
      - destruct (Hp dx Hlt) as (e & x & He & Hx & Hne). rewrite Hdx in He. injection He as <-. congruence.
      - destruct (decide (dx = d)) as [-> |Hne]; [congruence|]. destruct (Hb d) as [e He]; [lia|]. congruence. }
    rewrite decide_False by done. split; [|done]. apply insert_ok; try done. unfold slots, maxRecordStorageIndexTokens in Hn. lia.
  - destruct (out t !! e) as [known|] eqn:Ek.
    2: { apply (t_entry _ T) in Es. apply lookup_ge_None in Ek. lia. }
    destruct (bytes_equal known token) eqn:Eb; bsimpl.
    + subst known. exists t. rewrite decide_True by (by eapply list_elem_of_lookup_2). done.
    + rewrite pos_succ. apply IH; [|lia]. intros d' Hd'. destruct (decide (d' = d)) as [-> |Hne]; [by exists e, known|].
      apply Hp. lia.
  - apply lookup_ge_None in Es. rewrite (t_slots _ T) in Es. pose proof (pos_lt (home token) d). lia.
Qed.

Lemma add_spec token t :
  table_ok t → (length (out t) < slots)%nat →
  ∃ t', add token t = Some t' ∧ table_ok t' ∧
    out t' = if decide (token = [] ∨ token ∈ out t) then out t else out t ++ [token].
Proof.
  intros T Hn. unfold add. destruct (len token =? 0) eqn:E; bsimpl.
  { unfold len in E. assert (token = []) as -> by (by destruct token). exists t.
    rewrite decide_True by (by left). done. }
  destruct (add_loop_spec slots token t 0 T Hn) as (t' & Et & T' & Eo); [intros d' ?; lia|done|].
  exists t'. rewrite <- home_pos in Et. split; [exact Et|]. split; [done|]. rewrite Eo.
  destruct (decide (token ∈ out t)); [by rewrite decide_True by (by right)|]. rewrite decide_False; [done|].
  intros [-> |?]; done.
Qed.

(** ** Tokens without repetitions *)

(** The same loops over a set instead of the table. *)
Fixpoint distinct (gs : list (bytes * bool)) (acc : list bytes) : list bytes :=
  match gs with
  | [] => acc
  | (g, checked) :: gs =>
      let acc := if decide (g = [] ∨ g ∈ acc) then acc else acc ++ [g] in
      if checked && (maxRecordStorageIndexTokens <=? length acc)%nat then acc else distinct gs acc
  end.

(** A token added without a check is followed by one with a check. *)
Fixpoint paired (gs : list (bytes * bool)) : Prop :=
  match gs with
  | [] => True
  | (_, true) :: gs => paired gs
  | (_, false) :: gs => match gs with (_, true) :: _ => paired gs | _ => False end
  end.

Lemma paired_app a b : paired a → paired b → paired (a ++ b).
Proof.
  intros Ha Hb. induction a as [|[g []] a IH]; cbn in *; [done|by apply IH|].
  destruct a as [|[g' []] a]; [done| |done]. cbn in *. by apply IH.
Qed.

Lemma paired_checked l : paired (map (λ g, (g, true)) l).
Proof. induction l; done. Qed.

Lemma grams_paired token : paired (grams token).
Proof.
  unfold grams. assert (∀ n whole sub, paired (if (n <? 2)%nat then [] else
    (if (n <=? 4)%nat then [(whole, false)] else []) ++ map (λ g, (g, true)) (windows n sub))) as Hu.
  { intros n whole sub. destruct (n <? 2)%nat eqn:E; [done|]. apply Nat.ltb_ge in E.
    pose proof (paired_checked (windows n sub)) as Hw. destruct (n <=? 4)%nat; [|exact Hw].
    destruct (windows n sub) as [|x l] eqn:Ew; [|exact Hw]. exfalso. revert Ew. unfold windows. cbn [flat_map].
    replace (n + 1 - 2)%nat with (S (n - 2)) by lia. done. }
  destruct (isASCII token); apply Hu.
Qed.

Definition room (gs : list (bytes * bool)) (n : nat) : Prop :=
  (n < maxRecordStorageIndexTokens)%nat ∨ (n <= maxRecordStorageIndexTokens)%nat ∧ ∃ g gs', gs = (g, true) :: gs'.

Lemma add_all_spec gs t :
  table_ok t → paired gs → room gs (length (out t)) →
  ∃ t', add_all gs t = Some t' ∧ out t' = distinct gs (out t) ∧ table_ok t' ∧
    (length (out t') <= maxRecordStorageIndexTokens + 1)%nat.
Proof.
  revert t. induction gs as [|[g c] gs IH]; intros t T Hp Hr.
  { exists t. split_and!; [done..|]. destruct Hr as [?|[? _]]; lia. }
  assert (length (out t) <= maxRecordStorageIndexTokens)%nat as Hle by (destruct Hr as [?|[? _]]; lia).
  assert (length (out t) < slots)%nat as Hlt by (unfold slots; unfold maxRecordStorageIndexTokens in *; lia).
  cbn [add_all distinct]. destruct (add_spec g t T Hlt) as (t1 & -> & T1 & E1). rewrite <- E1.
  assert (length (out t1) <= S (length (out t)))%nat as Hgrow.
  { rewrite E1. case_decide; [lia|]. rewrite length_app. cbn. lia. }
  destruct (c && _) eqn:Ec.
  { exists t1. split_and!; [done..|]. lia. }
  apply IH; [done|by destruct c, gs as [|[? []] ?]|]. destruct c.
  - left. rewrite andb_true_l in Ec. apply Nat.leb_gt in Ec. exact Ec.
  - destruct Hr as [Hr|[_ (? & ? & [=])]]. right. split; [lia|]. destruct gs as [|[g' []] gs]; [done| |done]. by exists g', gs.
Qed.

(** The table removes repetitions exactly.  The search tokens of a record are
    the windows of the words of its file name and storage URI in order, each
    kept at its first occurrence, up to the bound of the table; every probe
    sequence ends, no token occurs twice, and there are at most 65. *)
Theorem storage_tokens_exact `{UnicodeLib} idx :
  (∃ t, add_all (flat_map grams (rawTokens idx)) empty_table = Some t) ∧
  RecordIndexStorageTokens idx = distinct (flat_map grams (rawTokens idx)) [] ∧
  NoDup (RecordIndexStorageTokens idx) ∧ (length (RecordIndexStorageTokens idx) <= 65)%nat.
Proof.
  assert (paired (flat_map grams (rawTokens idx))) as Hp.
  { induction (rawTokens idx) as [|x l IH]; [done|]. apply paired_app; [apply grams_paired|done]. }
  destruct (add_all_spec _ empty_table empty_table_ok Hp) as (t & Et & Eo & T & Hl); [left; cbn [out empty_table length]; unfold maxRecordStorageIndexTokens; lia|].
  unfold RecordIndexStorageTokens. rewrite Et. split_and!; [by exists t|done|apply T|exact Hl].
Qed.

End recordsearch_proofs.

(** * Searching the record index: concrete queries

    The Unicode tables restricted to ASCII, for the closed examples of this and
    of later files. *)

Module recordsearch_examples.
Import recordsearch.

Definition lower (c : Ascii.ascii) : Ascii.ascii :=
  let n := Ascii.N_of_ascii c in
  if (65 <=? n)%N && (n <=? 90)%N then Ascii.ascii_of_N (n + 32) else c.
Fixpoint lower_string (s : string) : string :=
  match s with EmptyString => EmptyString | String c s => String (lower c) (lower_string s) end.
Definition between (lo hi r : Z) : bool := (lo <=? r) && (r <=? hi).

Definition ascii_tables : UnicodeLib := {|
  strings_ToLower := lower_string;
  strings_EqualFold a b := seqb (lower_string a) (lower_string b);
  IsLetterOrDigit r := between 48 57 r || between 65 90 r || between 97 122 r |}.
#[local] Existing Instance ascii_tables.

Definition ex_named (id file : string) : Idx.t :=
  Idx.mk SchemaRecordIndex cryptosuite.INTLV1 id "node-1" "log-1" "tenant" "client" "key" "L3" "b1"
    0 1000 10 [Byte.x01] 1 "" "" file "" "".

(** The windows of one token, repeated ones once. *)
Example ex_tokens :
  RecordIndexStorageTokens (ex_named "r1" "Abab.txt")
  = map bytes_of_string ["abab"; "ab"; "ba"; "aba"; "bab"; "txt"; "tx"; "xt"].
Proof. vm_compute. reflexivity. Qed.

Example ex_query_token : map RecordStorageQueryToken ["a Contract"; "x"; ""]
  = [bytes_of_string "con"; []; []].
Proof. vm_compute. reflexivity. Qed.

End recordsearch_examples.
