(* ===== verification/RecordIndex.v ===== *)
(** * The record index of the Pebble store

    Models the record index of [src/internal/proofstore/pebble/store.go] and its
    promotions to a higher proof level: the entry of a record under its id and
    the references to it under its time, batch, level, tenant, client, content
    hash and storage tokens; and the listing of records through them.

    As in [AnchorStore] a table maps the parts of a key to the stored bytes and
    a batch is a list of writes. *)

From stdpp Require Import sorting.
From S2P Require Import Prelude TrustErr CryptoSuite Model TrustCrypto Cborx KeyDescriptor ModelSuite.
From S2P Require Import StoreMonad GlobalStore AnchorSchedule AnchorStore RecordSearch.

Module recordindex.
Import recordsearch.

(** ** Keys *)

Inductive mode := Full | NoStorageTokens | TimeOnly.
#[global] Instance mode_eq_dec : EqDecision mode.
Proof. solve_decision. Defined.

Inductive table := ByBatch | ByLevel | ByTenant | ByClient | ByHash | ByToken.
#[global] Instance table_eq_dec : EqDecision table.
Proof. solve_decision. Defined.
#[global] Instance table_countable : Countable table.
Proof.
  apply (inj_countable'
    (λ t, match t with ByBatch => 0 | ByLevel => 1 | ByTenant => 2 | ByClient => 3 | ByHash => 4
            | ByToken => 5 end)
    (λ n, match n with 0 => ByBatch | 1 => ByLevel | 2 => ByTenant | 3 => ByClient | 4 => ByHash
            | _ => ByToken end)).
  by intros [].
Defined.

Inductive key :=
| ByID (recordID : string)
| ByTime (receivedAtUnixN : Z) (recordID : string)
| By (t : table) (value : bytes) (receivedAtUnixN : Z) (recordID : string).
#[global] Instance key_eq_dec : EqDecision key.
Proof. solve_decision. Defined.
#[global] Instance key_countable : Countable key.
Proof.
  apply (inj_countable'
    (λ k, match k with
          | ByID id => inl (inl id)
          | ByTime t id => inl (inr (t, id))
          | By b v t id => inr (b, map Z_of_byte v, t, id)
          end)
    (λ x, match x with
          | inl (inl id) => ByID id
          | inl (inr (t, id)) => ByTime t id
          | inr (b, v, t, id) => By b (map byte_of_Z v) t id
          end)).
  intros [| |b v t id]; [done..|]. f_equal. rewrite map_map. rewrite <- (map_id v) at 2.
  apply map_ext. intros x. apply byte_of_Z_of_byte.
Defined.

Definition isRecordByIDKey (k : key) : bool := match k with ByID _ => true | _ => false end.

Section visit.
Context `{UnicodeLib}.

Definition when {A} (b : bool) (l : list A) : list A := if b then l else [].

(** The keys of a record, in the order of the visits. *)
Definition visitRecordIndexKeys (idx : Idx.t) (m : mode) : list key :=
  let id := idx.(Idx.RecordID) in
  let t := idx.(Idx.ReceivedAtUnixN) in
  let named b v := when (negb (seqb v "")) [By b (bytes_of_string v) t id] in
  if seqb id "" then [] else
  [ByID id; ByTime t id]
  ++ (if bool_decide (m = TimeOnly) then [] else
        named ByBatch idx.(Idx.BatchID) ++ named ByLevel idx.(Idx.ProofLevel)
        ++ named ByTenant idx.(Idx.TenantID) ++ named ByClient idx.(Idx.ClientID)
        ++ when (0 <? len idx.(Idx.ContentHash)) [By ByHash idx.(Idx.ContentHash) t id]
        ++ (if bool_decide (m = Full)
            then map (λ token, By ByToken token t id) (RecordIndexStorageTokens idx)
            else [])).

End visit.

(** ** The store *)

Record Store := mkStore {
  anchors : anchorstore.Store;
  recordIndexMode : mode;
  entries : gmap key bytes }.

Definition put_anchors (a : anchorstore.Store) (s : Store) : Store :=
  mkStore a (recordIndexMode s) (entries s).
Definition base (s : Store) : pebble.Store := anchorstore.base (anchors s).

Inductive write :=
| Set_ (k : key) (value : bytes)
| Delete (k : key).

Definition apply (m : gmap key bytes) (w : write) : gmap key bytes :=
  match w with
  | Set_ k v => <[k := v]> m
  | Delete k => delete k m
  end.

Definition Commit (batch : list write) : io Store unit :=
  modify (λ s, mkStore (anchors s) (recordIndexMode s) (foldl apply (entries s) batch)).

Definition recordIndexRefPrefix : bytes :=
  bytes_of_string "trustdb.record-index-ref.v1" ++ [Byte.x00].

(** [stageRecordIndexRef] stores this reference. *)
Definition reference (recordID : string) : bytes := recordIndexRefPrefix ++ bytes_of_string recordID.

Definition decodeRecordIndexRef (value : bytes) : option string :=
  if bool_decide (take (length recordIndexRefPrefix) value = recordIndexRefPrefix) then
    match drop (length recordIndexRefPrefix) value with
    | [] => None
    | rest => Some (String.string_of_list_byte rest)
    end
  else None.

Definition batchArtifactChunkSize : Z := 1024.

Section store.
Context `{KeyDescriptorLib, CborMode Idx.t, UnicodeLib}.

Definition requireSuite (value : modelsuite.Any) : io Store unit :=
  reads (λ s, pebble.requireSuite (base s) value).

Definition with_level (level : string) (i : Idx.t) : Idx.t :=
  Idx.mk i.(Idx.SchemaVersion) i.(Idx.CryptoSuite) i.(Idx.RecordID) i.(Idx.NodeID) i.(Idx.LogID)
    i.(Idx.TenantID) i.(Idx.ClientID) i.(Idx.KeyID) level i.(Idx.BatchID) i.(Idx.BatchLeafIndex)
    i.(Idx.BatchClosedAtUnixN) i.(Idx.ReceivedAtUnixN) i.(Idx.ContentHash) i.(Idx.ContentLength)
    i.(Idx.MediaType) i.(Idx.StorageURI) i.(Idx.FileName) i.(Idx.EventType) i.(Idx.Source).

Definition with_schema (schema : string) (i : Idx.t) : Idx.t :=
  Idx.mk schema i.(Idx.CryptoSuite) i.(Idx.RecordID) i.(Idx.NodeID) i.(Idx.LogID)
    i.(Idx.TenantID) i.(Idx.ClientID) i.(Idx.KeyID) i.(Idx.ProofLevel) i.(Idx.BatchID)
    i.(Idx.BatchLeafIndex) i.(Idx.BatchClosedAtUnixN) i.(Idx.ReceivedAtUnixN) i.(Idx.ContentHash)
    i.(Idx.ContentLength) i.(Idx.MediaType) i.(Idx.StorageURI) i.(Idx.FileName) i.(Idx.EventType)
    i.(Idx.Source).

(** The index that is stored, and its bytes. *)
Definition encodeRecordIndexArtifact (idx : Idx.t) : result (Idx.t * bytes) :=
  if seqb idx.(Idx.RecordID) ""
  then Err (New CodeInvalidArgument "record index record_id is required") else
  let idx := with_level (RecordIndexProofLevel idx) idx in
  let idx := if seqb idx.(Idx.SchemaVersion) "" then with_schema SchemaRecordIndex idx else idx in
  value ← wrap_err CodeDataLoss "encode record index" (cborx.Marshal idx);
  Ok (idx, value).

Definition stageEncodedRecordIndexSet (m : mode) (encoded : Idx.t * bytes) : list write :=
  map (λ k, Set_ k (if isRecordByIDKey k then encoded.2 else reference encoded.1.(Idx.RecordID)))
    (visitRecordIndexKeys encoded.1 m).

Definition stageEncodedRecordIndexReplace (m : mode) (encoded : Idx.t * bytes) (old : option Idx.t)
  : list write :=
  match old with Some old => map Delete (visitRecordIndexKeys old Full) | None => [] end
  ++ stageEncodedRecordIndexSet m encoded.

Definition stageEncodedRecordIndexReplaceSame (m : mode) (encoded : Idx.t * bytes) : list write :=
  map Delete (visitRecordIndexKeys encoded.1 Full) ++ stageEncodedRecordIndexSet m encoded.

Definition stageEncodedRecordIndexSetForMode (m : mode) (encoded : Idx.t * bytes) : list write :=
  if bool_decide (m = Full) then stageEncodedRecordIndexSet m encoded
  else stageEncodedRecordIndexReplaceSame m encoded.

Definition readIndex (recordID : string) (s : Store) : result (option Idx.t) :=
  anchorstore.readCBOR (entries s !! ByID recordID).

Definition GetRecordIndex (recordID : string) (s : Store) : result (option Idx.t) :=
  if seqb recordID "" then Err (New CodeInvalidArgument "record_id is required") else
  wrap_err CodeDataLoss "read record index" (readIndex recordID s).

Definition PutRecordIndex (idx : Idx.t) : io Store unit :=
  _ ← requireSuite (modelsuite.AnyRecordIndex idx);
  if seqb idx.(Idx.RecordID) ""
  then lift (Err (New CodeInvalidArgument "record index record_id is required")) else
  old ← reads (λ s, wrap_err CodeDataLoss "read existing record index"
                      (readIndex idx.(Idx.RecordID) s));
  encoded ← lift (encodeRecordIndexArtifact idx);
  m ← reads (λ s, Ok (recordIndexMode s));
  Commit (stageEncodedRecordIndexReplace m encoded old).

(** ** Batches of indexes

    One chunk of [putBatchIndexesAndRoot]; the root, which the last chunk also
    writes, belongs to another table. *)

Fixpoint encodeAll (indexes : list Idx.t) : result (list (Idx.t * bytes)) :=
  match indexes with
  | [] => Ok []
  | idx :: rest =>
      encoded ← encodeRecordIndexArtifact idx;
      rest ← encodeAll rest;
      Ok (encoded :: rest)
  end.

Definition putIndexChunk (replace : bool) (indexes : list Idx.t) : io Store unit :=
  encoded ← lift (encodeAll indexes);
  m ← reads (λ s, Ok (recordIndexMode s));
  Commit (concat (map (if replace then stageEncodedRecordIndexSetForMode m
                       else stageEncodedRecordIndexSet m) encoded)).

(** ** Scans *)

Definition readRecordIndexScanValue (value : bytes) (s : Store) : result Idx.t :=
  match decodeRecordIndexRef value with
  | Some recordID =>
      found ← readIndex recordID s;
      match found with
      | None => Err (New CodeDataLoss "record index reference target not found")
      | Some idx => Ok idx
      end
  | None => cborx.UnmarshalLimit value anchorstore.maxStoredObjectBytes
  end.

(** Keys below one prefix are ordered by time, as a decimal padded with zeros, and
    then by id; the padded decimals of times that are not negative are in the
    order of the times. *)
Definition key_time (k : key) : Z := match k with ByID _ => 0 | ByTime t _ | By _ _ t _ => t end.
Definition key_id (k : key) : string := match k with ByID i | ByTime _ i | By _ _ _ i => i end.
Definition scan_le (a b : key * bytes) : Prop :=
  key_time a.1 < key_time b.1 ∨
  key_time a.1 = key_time b.1 ∧ String.leb (key_id a.1) (key_id b.1) = true.
#[global] Instance scan_le_dec a b : Decision (scan_le a b).
Proof. unfold scan_le. apply _. Defined.

Definition has_prefix (t : table) (value : bytes) (k : key) : bool :=
  match k with By t' v _ _ => bool_decide (t' = t) && bytes_equal v value | _ => false end.

(** The entries that satisfy a test, in key order. *)
Definition scan (p : key → bool) (s : Store) : list (key * bytes) :=
  merge_sort scan_le (filter (λ e : key * bytes, p e.1 = true) (map_to_list (entries s))).

(** The values below a prefix, in key order. *)
Definition scanPrefix (t : table) (value : bytes) (s : Store) : list bytes :=
  map snd (scan (has_prefix t value) s).

(** ** Listings *)

Definition is_time_key (k : key) : bool := match k with ByTime _ _ => true | _ => false end.

(** The prefix a listing scans. *)
Definition recordListPrefix (m : mode) (opts : RecordListOptions) : key → bool :=
  let useSecondary := negb (bool_decide (m = TimeOnly)) in
  let named t v := has_prefix t (bytes_of_string v) in
  if useSecondary && (0 <? len (opt_ContentHash opts)) then has_prefix ByHash (opt_ContentHash opts) else
  if bool_decide (m = Full) && negb (len (RecordStorageQueryToken (Query opts)) =? 0)
  then has_prefix ByToken (RecordStorageQueryToken (Query opts)) else
  if useSecondary && negb (seqb (opt_BatchID opts) "") then named ByBatch (opt_BatchID opts) else
  if useSecondary && negb (seqb (opt_ProofLevel opts) "") then named ByLevel (opt_ProofLevel opts) else
  if useSecondary && negb (seqb (opt_TenantID opts) "") then named ByTenant (opt_TenantID opts) else
  if useSecondary && negb (seqb (opt_ClientID opts) "") then named ByClient (opt_ClientID opts) else
  is_time_key.

Definition recordRangeExhausted (idx : Idx.t) (opts : RecordListOptions) (desc : bool) : bool :=
  if desc then (0 <? ReceivedFromUnixN opts) && (idx.(Idx.ReceivedAtUnixN) <? ReceivedFromUnixN opts)
  else (0 <? ReceivedToUnixN opts) && (ReceivedToUnixN opts <? idx.(Idx.ReceivedAtUnixN)).

(** Whether the iterator still visits a key when it starts at the cursor, at
    the bound of the time range, or at the end of the prefix. *)
Definition seek (opts : RecordListOptions) (desc : bool) (k : key) : bool :=
  let hasCursor := negb (AfterReceivedAtUnixN opts =? 0) || negb (seqb (AfterRecordID opts) "") in
  let cmp := CompareRecordPosition (key_time k) (key_id k) (AfterReceivedAtUnixN opts) (AfterRecordID opts) in
  if desc then
    if hasCursor then cmp <? 0 else
    if 0 <? ReceivedToUnixN opts then key_time k <=? ReceivedToUnixN opts else true
  else
    if hasCursor then 0 <=? cmp else
    if 0 <? ReceivedFromUnixN opts then ReceivedFromUnixN opts <=? key_time k else true.

Fixpoint list_loop (opts : RecordListOptions) (desc : bool) (room : nat) (values : list bytes) (s : Store)
  : result (list Idx.t) :=
  match values, room with
  | [], _ | _, O => Ok []
  | value :: rest, S more =>
      idx ← wrap_err CodeDataLoss "decode record index" (readRecordIndexScanValue value s);
      if recordRangeExhausted idx opts desc then Ok [] else
      if RecordIndexMatchesListOptions idx opts && RecordIndexAfterCursor idx opts then
        listed ← list_loop opts desc more rest s;
        Ok (idx :: listed)
      else list_loop opts desc room rest s
  end.

Definition ListRecordIndexes (opts : RecordListOptions) (s : Store) : result (list Idx.t) :=
  let limit := anchorstore.normaliseRecordLimit (Limit opts) in
  let desc := negb (ascending opts) in
  let below := filter (λ e : key * bytes, seek opts desc e.1 = true) (scan (recordListPrefix (recordIndexMode s) opts) s) in
  list_loop opts desc (Z.to_nat limit) (map snd (if desc then rev below else below)) s.

(** ** Promotions *)

Record recordIndexPromotion := mkPromotion {
  old : Idx.t;
  next : Idx.t;
  replaceAll : bool }.

Fixpoint collect (proofLevel : string) (values : list bytes) (s : Store)
  : result (list recordIndexPromotion) :=
  match values with
  | [] => Ok []
  | value :: rest =>
      idx ← readRecordIndexScanValue value s;
      updates ← collect proofLevel rest s;
      Ok (if ProofLevelRank proofLevel <=? ProofLevelRank (RecordIndexProofLevel idx) then updates
          else mkPromotion idx (with_level proofLevel idx)
                 (match decodeRecordIndexRef value with Some _ => false | None => true end) :: updates)
  end.

Definition collectRecordIndexPromotions (batchID proofLevel : string) (s : Store)
  : result (list recordIndexPromotion) :=
  wrap_err CodeDataLoss "scan batch record indexes"
    (collect proofLevel (scanPrefix ByBatch (bytes_of_string batchID) s) s).

Definition stageRecordIndexPromotion (m : mode) (promotion : recordIndexPromotion)
  : result (list write) :=
  encoded ← encodeRecordIndexArtifact (next promotion);
  Ok (if replaceAll promotion || negb (bool_decide (m = Full))
      then stageEncodedRecordIndexReplace m encoded (Some (old promotion))
      else
        let o := old promotion in
        [Set_ (ByID encoded.1.(Idx.RecordID)) encoded.2]
        ++ when (negb (seqb o.(Idx.ProofLevel) ""))
             [Delete (By ByLevel (bytes_of_string o.(Idx.ProofLevel)) o.(Idx.ReceivedAtUnixN)
                        o.(Idx.RecordID))]
        ++ map (λ k, Set_ k (reference encoded.1.(Idx.RecordID)))
             (filter (λ k, isRecordByIDKey k = false) (visitRecordIndexKeys encoded.1 Full))).

Fixpoint stagePromotions (m : mode) (updates : list recordIndexPromotion) : result (list write) :=
  match updates with
  | [] => Ok []
  | u :: rest =>
      ws ← stageRecordIndexPromotion m u;
      ws' ← stagePromotions m rest;
      Ok (ws ++ ws')
  end.

Definition commit_chunk (chunk : list recordIndexPromotion) : io Store unit :=
  m ← reads (λ s, Ok (recordIndexMode s));
  batch ← lift (stagePromotions m chunk);
  Commit batch.

Definition commitRecordIndexPromotions (updates : list recordIndexPromotion) : io Store unit :=
  for_each commit_chunk (chunks (Z.to_nat batchArtifactChunkSize) updates).

Definition promoteBatchRecords (batchID proofLevel : string) : io Store unit :=
  if seqb batchID "" then mret tt else
  updates ← reads (collectRecordIndexPromotions batchID proofLevel);
  commitRecordIndexPromotions updates.

Definition PromoteBatchProofLevel (batchID proofLevel : string) : io Store unit :=
  let proofLevel := NormalizedProofLevel proofLevel in
  if seqb batchID "" || seqb proofLevel ""
  then lift (Err (New CodeInvalidArgument "batch_id and valid proof level are required")) else
  promoteBatchRecords batchID proofLevel.

End store.
End recordindex.
