(* ===== verification/RecordIndexOps.v ===== *)
(** * What promotions do to the record index

    The reference of a record under its batch exists exactly when the record is
    stored; a promotion of a batch therefore raises the level of the records of
    the batch and of no others, unless the store keeps the time index only. *)

From stdpp Require Import sorting.
From S2P Require Import Prelude TrustErr CryptoSuite Model TrustCrypto Cborx KeyDescriptor ModelSuite.
From S2P Require Import StoreMonad GlobalStore AnchorSchedule AnchorStore AnchorStoreProofs RecordSearch RecordSearchProofs RecordIndex.

Module recordindex_proofs.
Import recordsearch recordsearch_proofs recordindex.
Import anchorstore_proofs (encodes, readCBOR_exact).

Section proofs.
Context `{KeyDescriptorLib, CborMode Idx.t, UnicodeLib, !CborModeExact Idx.t}.

(** ** Batches of writes *)

Definition write_key (w : write) : key := match w with Set_ k _ | Delete k => k end.

Lemma apply_other ws m k :
  Forall (λ w, write_key w ≠ k) ws → foldl apply m ws !! k = m !! k.
Proof.
  intros Hw. revert m. induction Hw as [|w ws Hw _ IH]; intros m; [done|]. cbn. rewrite IH.
  destruct w; cbn in *; [by rewrite lookup_insert_ne|by rewrite lookup_delete_ne].
Qed.

Lemma foldl_sets (f : key → bytes) ks m k :
  foldl apply m (map (λ k, Set_ k (f k)) ks) !! k = if decide (k ∈ ks) then Some (f k) else m !! k.
Proof.
  revert m. induction ks as [|x ks IH]; intros m; cbn.
  { by rewrite decide_False by (by intros ?%elem_of_nil). }
  rewrite IH. destruct (decide (k ∈ ks)) as [Hk|Hk].
  { by rewrite decide_True by set_solver. }
  destruct (decide (k = x)) as [-> |Hne].
  - rewrite lookup_insert_eq, decide_True; [done|set_solver].
  - rewrite lookup_insert_ne, decide_False; [done|set_solver|done].
Qed.

Lemma foldl_deletes ks m k :
  foldl apply m (map Delete ks) !! k = if decide (k ∈ ks) then None else m !! k.
Proof.
  revert m. induction ks as [|x ks IH]; intros m; cbn.
  { by rewrite decide_False by (by intros ?%elem_of_nil). }
  rewrite IH. destruct (decide (k ∈ ks)) as [Hk|Hk].
  { by rewrite decide_True by set_solver. }
  destruct (decide (k = x)) as [-> |Hne].
  - rewrite lookup_delete_eq, decide_True; [done|set_solver].
  - rewrite lookup_delete_ne, decide_False; [done|set_solver|done].
Qed.

Lemma elem_of_when {A} (b : bool) (l : list A) x : x ∈ when b l ↔ b = true ∧ x ∈ l.
Proof. destruct b; cbn; [naive_solver|]. rewrite elem_of_nil. naive_solver. Qed.

(** The keys of a record carry its id. *)
Lemma visit_id idx m k : k ∈ visitRecordIndexKeys idx m → key_id k = idx.(Idx.RecordID).
Proof.
  unfold visitRecordIndexKeys. destruct (seqb _ _); [by intros ?%elem_of_nil|].
  rewrite elem_of_app, !elem_of_cons, elem_of_nil. intros [[-> |[-> |[]]]|Hk]; [done..|].
  case_bool_decide; [by apply elem_of_nil in Hk|].
  rewrite !elem_of_app, !elem_of_when, !list_elem_of_singleton in Hk.
  destruct Hk as [[_ ->]|[[_ ->]|[[_ ->]|[[_ ->]|[[_ ->]|Hk]]]]]; [done..|].
  case_bool_decide; [|by apply elem_of_nil in Hk]. by apply list_elem_of_fmap in Hk as (? & -> & _).
Qed.

Lemma visit_time idx m k :
  k ∈ visitRecordIndexKeys idx m → isRecordByIDKey k = false → key_time k = idx.(Idx.ReceivedAtUnixN).
Proof.
  unfold visitRecordIndexKeys. destruct (seqb _ _); [by intros ?%elem_of_nil|].
  rewrite elem_of_app, !elem_of_cons, elem_of_nil. intros [[-> |[-> |[]]]|Hk]; [done..|]. intros _.
  case_bool_decide; [by apply elem_of_nil in Hk|].
  rewrite !elem_of_app, !elem_of_when, !list_elem_of_singleton in Hk.
  destruct Hk as [[_ ->]|[[_ ->]|[[_ ->]|[[_ ->]|[[_ ->]|Hk]]]]]; [done..|].
  case_bool_decide; [|by apply elem_of_nil in Hk]. by apply list_elem_of_fmap in Hk as (? & -> & _).
Qed.

Lemma visit_secondary idx m t v time id :
  By t v time id ∈ visitRecordIndexKeys idx m → m ≠ TimeOnly.
Proof.
  unfold visitRecordIndexKeys. destruct (seqb _ _); [by intros ?%elem_of_nil|].
  rewrite elem_of_app, !elem_of_cons, elem_of_nil. intros [[?|[?|[]]]|Hk] ->; [done..|].
  rewrite bool_decide_true in Hk by done. by apply elem_of_nil in Hk.
Qed.

Lemma visit_by_id idx m : idx.(Idx.RecordID) ≠ "" → ByID idx.(Idx.RecordID) ∈ visitRecordIndexKeys idx m.
Proof.
  intros Hid. unfold visitRecordIndexKeys. rewrite (proj2 (seqb_false _ _) Hid). apply list_elem_of_here.
Qed.

Lemma visit_by_batch idx m v t id :
  By ByBatch v t id ∈ visitRecordIndexKeys idx m ↔
  idx.(Idx.RecordID) ≠ "" ∧ m ≠ TimeOnly ∧ idx.(Idx.BatchID) ≠ "" ∧
  v = bytes_of_string idx.(Idx.BatchID) ∧ t = idx.(Idx.ReceivedAtUnixN) ∧ id = idx.(Idx.RecordID).
Proof.
  unfold visitRecordIndexKeys. destruct (seqb idx.(Idx.RecordID) "") eqn:Eid; bsimpl.
  { rewrite elem_of_nil. naive_solver. }
  rewrite !elem_of_app, !elem_of_cons, elem_of_nil.
  case_bool_decide as Em; [rewrite elem_of_nil; naive_solver|].
  rewrite !elem_of_app, !elem_of_when, !list_elem_of_singleton, negb_true_iff.
  assert (∀ x : bool, By ByBatch v t id ∈ (if x then map (λ token, By ByToken token
    idx.(Idx.ReceivedAtUnixN) idx.(Idx.RecordID)) (RecordIndexStorageTokens idx) else []) ↔ False) as ->.
  { intros []; [|by rewrite elem_of_nil]. split; [|done]. by intros (? & ? & _)%list_elem_of_fmap. }
  rewrite seqb_false. naive_solver.
Qed.

(** ** The invariant

    A record never changes its batch or its reception time: both are functions
    of its id. *)

Context (placed : string → string * Z).

Definition fits (idx : Idx.t) : Prop :=
  placed idx.(Idx.RecordID) = (idx.(Idx.BatchID), idx.(Idx.ReceivedAtUnixN)).

Definition batch_key (id : string) : key :=
  By ByBatch (bytes_of_string (placed id).1) (placed id).2 id.

Definition well_placed (m : mode) (k : key) : Prop :=
  key_time k = (placed (key_id k)).2 ∧
  match k with
  | By t v _ id => m ≠ TimeOnly ∧ (t = ByBatch → (placed id).1 ≠ "" ∧ v = bytes_of_string (placed id).1)
  | _ => True
  end.

Record coherent (m : mode) (es : gmap key bytes) : Prop := {
  co_id id b : es !! ByID id = Some b →
    ∃ idx, encodes b idx ∧ idx.(Idx.RecordID) = id ∧ id ≠ "" ∧ fits idx ∧ idx.(Idx.SchemaVersion) ≠ "" ∧
      idx.(Idx.ProofLevel) = RecordIndexProofLevel idx ∧
      ∀ k, k ∈ visitRecordIndexKeys idx m → isRecordByIDKey k = false → es !! k = Some (reference id);
  co_key k val : es !! k = Some val → isRecordByIDKey k = false →
    val = reference (key_id k) ∧ is_Some (es !! ByID (key_id k)) ∧ well_placed m k }.

(** The references below the batches. *)
Lemma co_ref m es : coherent m es → ∀ v t id val, es !! By ByBatch v t id = Some val →
  m ≠ TimeOnly ∧ val = reference id ∧ is_Some (es !! ByID id) ∧ (placed id).1 ≠ "" ∧
  By ByBatch v t id = batch_key id.
Proof.
  intros C v t id val Hv. destruct (co_key _ _ C _ _ Hv eq_refl) as (-> & Hs & Ht & Hm & Hb).
  destruct (Hb eq_refl) as [Hne ->]. cbn in Ht. rewrite Ht. done.
Qed.

Lemma co_batch m es : coherent m es → ∀ id, is_Some (es !! ByID id) → (placed id).1 ≠ "" → m ≠ TimeOnly →
  es !! batch_key id = Some (reference id).
Proof.
  intros C id [b Hb] Hne Hm. destruct (co_id _ _ C _ _ Hb) as (idx & _ & Hi & Hid & Hf & _ & _ & Hk).
  unfold fits in Hf. rewrite Hi in Hf. apply Hk; [|done]. unfold batch_key. apply visit_by_batch. rewrite Hf in *. by subst id.
Qed.

(** The writes that store one record. *)
Record record_write (m : mode) (es : gmap key bytes) (ws : list write) (idx : Idx.t) (value : bytes)
  : Prop := {
  rw_other : Forall (λ w, key_id (write_key w) = idx.(Idx.RecordID)) ws;
  rw_id : foldl apply es ws !! ByID idx.(Idx.RecordID) = Some value;
  rw_key k val : foldl apply es ws !! k = Some val → isRecordByIDKey k = false → key_id k = idx.(Idx.RecordID) →
    es !! k = Some val ∨ val = reference idx.(Idx.RecordID) ∧ k ∈ visitRecordIndexKeys idx m;
  rw_visit k : k ∈ visitRecordIndexKeys idx m → isRecordByIDKey k = false →
    foldl apply es ws !! k = Some (reference idx.(Idx.RecordID)) }.

Definition storable (idx : Idx.t) (value : bytes) : Prop :=
  encodes value idx ∧ idx.(Idx.RecordID) ≠ "" ∧ idx.(Idx.SchemaVersion) ≠ "" ∧
  idx.(Idx.ProofLevel) = RecordIndexProofLevel idx.

Lemma write_other m es ws idx value k :
  record_write m es ws idx value → key_id k ≠ idx.(Idx.RecordID) → foldl apply es ws !! k = es !! k.
Proof.
  intros R Hk. apply apply_other. eapply Forall_impl; [exact (rw_other _ _ _ _ _ R)|].
  intros w Hw <-. by apply Hk.
Qed.

Lemma visit_placed idx m k :
  k ∈ visitRecordIndexKeys idx m → isRecordByIDKey k = false → fits idx → well_placed m k.
Proof.
  intros Hin Hk Hf. pose proof (visit_id _ _ _ Hin) as Ei. pose proof (visit_time _ _ _ Hin Hk) as Et.
  unfold well_placed. rewrite Ei, Hf. split; [exact Et|]. destruct k as [| |t v time id]; [done..|]. cbn in Ei. subst id.
  split; [by eapply visit_secondary|]. intros ->. apply visit_by_batch in Hin as (_ & _ & Hb & Hv & _). by rewrite Hf.
Qed.

Lemma coherent_write m es ws idx value :
  coherent m es → record_write m es ws idx value → storable idx value → fits idx →
  coherent m (foldl apply es ws).
Proof.
  intros C R (He & Hid & Hs & Hlv) Hf. pose proof (λ k, write_other _ _ _ _ _ k R) as Ho. constructor.
  - intros id b Hb. destruct (decide (id = idx.(Idx.RecordID))) as [-> |Hne].
    + rewrite (rw_id _ _ _ _ _ R) in Hb. injection Hb as <-. exists idx. split_and!; [done..|].
      intros k Hk Hn. by apply (rw_visit _ _ _ _ _ R).
    + rewrite Ho in Hb by done. destruct (co_id _ _ C _ _ Hb) as (i & ? & Ei & ? & ? & ? & ? & Hk). exists i.
      split_and!; [done..|]. intros k Hin Hn. rewrite Ho; [by apply Hk|]. apply visit_id in Hin. congruence.
  - intros k val Hv Hn. destruct (decide (key_id k = idx.(Idx.RecordID))) as [Ek|Hne].
    + rewrite Ek, (rw_id _ _ _ _ _ R). destruct (rw_key _ _ _ _ _ R _ _ Hv Hn Ek) as [Hv'|[-> Hin]].
      * destruct (co_key _ _ C _ _ Hv' Hn) as (-> & _ & ?). rewrite Ek. split_and!; done || by eexists.
      * split_and!; [done|by eexists|by eapply visit_placed].
    + rewrite Ho in Hv by done. rewrite Ho by done. by apply (co_key _ _ C).
Qed.

(** ** The staging functions store one record *)

Lemma set_lookup es m idx value k :
  foldl apply es (stageEncodedRecordIndexSet m (idx, value)) !! k =
  if decide (k ∈ visitRecordIndexKeys idx m)
  then Some (if isRecordByIDKey k then value else reference idx.(Idx.RecordID)) else es !! k.
Proof. apply (foldl_sets (λ k, if isRecordByIDKey k then value else reference idx.(Idx.RecordID))). Qed.

Lemma deletes_set es m idx value ks :
  idx.(Idx.RecordID) ≠ "" → (∀ k, k ∈ ks → key_id k = idx.(Idx.RecordID)) →
  record_write m es (map Delete ks ++ stageEncodedRecordIndexSet m (idx, value)) idx value.
Proof.
  intros Hid Hks. constructor.
  - apply Forall_app. split; apply Forall_forall; intros w Hw; apply list_elem_of_fmap in Hw as (k & -> & Hk).
    + by apply Hks.
    + by eapply visit_id.
  - rewrite foldl_app, set_lookup, decide_True by (by apply visit_by_id). done.
  - intros k val. rewrite foldl_app, set_lookup. destruct (decide _) as [Hin|_].
    + intros Hv Hn _. rewrite Hn in Hv. injection Hv as <-. by right.
    + rewrite foldl_deletes. destruct (decide _); [done|]. by left.
  - intros k Hin Hn. by rewrite foldl_app, set_lookup, decide_True, Hn.
Qed.

Lemma encode_storable idx idx' value :
  encodeRecordIndexArtifact idx = Ok (idx', value) →
  storable idx' value ∧ idx'.(Idx.RecordID) = idx.(Idx.RecordID) ∧ idx'.(Idx.BatchID) = idx.(Idx.BatchID) ∧
  idx'.(Idx.ReceivedAtUnixN) = idx.(Idx.ReceivedAtUnixN) ∧
  (idx.(Idx.SchemaVersion) ≠ "" → idx' = with_level (RecordIndexProofLevel idx) idx).
Proof.
  unfold encodeRecordIndexArtifact. intros E. ok_inv. subst. bsimpl. unfold storable.
  destruct (RecordIndexProofLevel_norm idx) as [Hn Hne].
  assert (∀ i, i.(Idx.ProofLevel) = RecordIndexProofLevel idx → RecordIndexProofLevel idx = RecordIndexProofLevel i) as Hl.
  { intros i Ei. unfold RecordIndexProofLevel at 2. by rewrite Ei, Hn, (proj2 (seqb_false _ _) Hne). }
  cbn [Idx.SchemaVersion with_level] in *. destruct (seqb idx.(Idx.SchemaVersion) "") eqn:Es; bsimpl;
    cbn; split_and!; try done; by apply Hl.
Qed.

Lemma fits_encode idx idx' value :
  encodeRecordIndexArtifact idx = Ok (idx', value) → fits idx → fits idx'.
Proof. intros (_ & E1 & E2 & E3 & _)%encode_storable. unfold fits. by rewrite E1, E2, E3. Qed.

Lemma write_set m es idx value :
  idx.(Idx.RecordID) ≠ "" → record_write m es (stageEncodedRecordIndexSet m (idx, value)) idx value.
Proof. intros Hid. apply (deletes_set es m idx value []); [done|by intros k ?%elem_of_nil]. Qed.

Lemma write_for_mode m es idx value :
  idx.(Idx.RecordID) ≠ "" → record_write m es (stageEncodedRecordIndexSetForMode m (idx, value)) idx value.
Proof.
  intros Hid. unfold stageEncodedRecordIndexSetForMode. case_bool_decide; [by apply write_set|].
  apply deletes_set; [done|]. intros k. apply visit_id.
Qed.

Lemma write_replace m es idx value old :
  idx.(Idx.RecordID) ≠ "" → (∀ o, old = Some o → o.(Idx.RecordID) = idx.(Idx.RecordID)) →
  record_write m es (stageEncodedRecordIndexReplace m (idx, value) old) idx value.
Proof.
  intros Hid Ho. unfold stageEncodedRecordIndexReplace. destruct old as [o|]; [|by apply write_set].
  apply deletes_set; [done|]. intros k Hk%visit_id. by rewrite Hk, (Ho o).
Qed.

(** Deletions only remove. *)
Lemma deleted_before es id ws k v :
  Forall (λ w, ∃ v t, w = Delete (By ByLevel v t id)) ws → foldl apply es ws !! k = Some v → es !! k = Some v.
Proof.
  intros Hw. revert es. induction Hw as [|w ws (x & t & ->) _ IH]; intros es; [done|]. cbn. intros Hk%IH.
  by apply lookup_delete_Some in Hk as [_ ?].
Qed.

(** The promotion of a full index. *)
Lemma write_promotion m es u ws :
  stageRecordIndexPromotion m u = Ok ws → (old u).(Idx.RecordID) = (next u).(Idx.RecordID) →
  ∃ idx value, encodeRecordIndexArtifact (next u) = Ok (idx, value) ∧ record_write m es ws idx value.
Proof.
  unfold stageRecordIndexPromotion. intros E Eid. apply bind_Ok in E as ([idx value] & Ee & [= <-]).
  exists idx, value. split; [done|]. apply encode_storable in Ee as ((_ & Hid & _) & Er & _).
  destruct (replaceAll u || _) eqn:Em.
  { apply write_replace; [done|]. intros o [= <-]. congruence. }
  apply orb_false_iff in Em as [_ Em]. apply negb_false_iff, bool_decide_eq_true in Em as ->.
  cbn [fst snd]. set (del := when _ _). set (ks := filter _ _).
  assert (∀ k, foldl apply es ([Set_ (ByID idx.(Idx.RecordID)) value] ++ del ++
      map (λ k, Set_ k (reference idx.(Idx.RecordID))) ks) !! k =
    if decide (k ∈ ks) then Some (reference idx.(Idx.RecordID)) else
    foldl apply (<[ByID idx.(Idx.RecordID) := value]> es) del !! k) as Hl.
  { intros k. rewrite foldl_app, foldl_app. apply (foldl_sets (λ _, reference idx.(Idx.RecordID))). }
  assert (Forall (λ w, ∃ v t, w = Delete (By ByLevel v t idx.(Idx.RecordID))) del) as Hdel.
  { unfold del. destruct (negb _); constructor; [|constructor]. do 2 eexists. cbn. by rewrite Eid, Er. }
  assert (∀ k, (∀ v t, k ≠ By ByLevel v t idx.(Idx.RecordID)) → ∀ es', foldl apply es' del !! k = es' !! k) as Hd.
  { intros k Hk es'. apply apply_other. eapply Forall_impl; [exact Hdel|]. intros w (v & t & ->). cbn. by intros <-; apply (Hk v t). }
  constructor.
  - constructor; [done|]. apply Forall_app. split.
    + eapply Forall_impl; [exact Hdel|]. by intros w (v & t & ->).
    + apply Forall_forall. intros w (k & -> & Hk)%list_elem_of_fmap. cbn.
      apply list_elem_of_filter in Hk as [_ Hk]. by eapply visit_id.
  - rewrite Hl, decide_False, Hd by (done || by intros [? _]%list_elem_of_filter). by rewrite lookup_insert_eq.
  - intros k val Hv Hn _. rewrite Hl in Hv. destruct (decide _) as [Hin|_].
    + injection Hv as <-. right. split; [done|]. by apply list_elem_of_filter in Hin as [_ ?].
    + left. apply (deleted_before _ _ _ _ _ Hdel) in Hv. by rewrite lookup_insert_ne in Hv by (by intros <-).
  - intros k Hin Hn. rewrite Hl, decide_True; [done|]. by apply list_elem_of_filter.
Qed.

(** ** Batches that store several records *)

Definition stores (m : mode) (ws : list write) (p : Idx.t * bytes) : Prop :=
  ∀ es, record_write m es ws p.1 p.2.

Lemma coherent_batch m es wss ps :
  coherent m es → Forall2 (stores m) wss ps → Forall (λ p, storable p.1 p.2 ∧ fits p.1) ps →
  coherent m (foldl apply es (concat wss)).
Proof.
  intros C HF. revert es C. induction HF as [|ws p wss ps Hw _ IH]; intros es C Hps; [done|].
  apply Forall_cons in Hps as [[Hs Hf] Hps]. cbn. rewrite foldl_app. apply IH; [|done].
  by eapply coherent_write.
Qed.

Lemma batch_other m es wss ps id :
  Forall2 (stores m) wss ps → id ∉ map (Idx.RecordID ∘ fst) ps →
  foldl apply es (concat wss) !! ByID id = es !! ByID id.
Proof.
  intros HF. revert es. induction HF as [|ws p wss ps Hw _ IH]; intros es Hid; [done|].
  cbn in *. rewrite foldl_app, IH by set_solver. eapply write_other; [apply Hw|]. set_solver.
Qed.

Lemma batch_stored m es wss ps p :
  Forall2 (stores m) wss ps → NoDup (map (Idx.RecordID ∘ fst) ps) → p ∈ ps →
  foldl apply es (concat wss) !! ByID p.1.(Idx.RecordID) = Some p.2.
Proof.
  intros HF. revert es. induction HF as [|ws q wss ps Hw HF IH]; intros es Hd Hp; [by apply elem_of_nil in Hp|].
  cbn in *. apply NoDup_cons in Hd as [Hn Hd]. rewrite foldl_app.
  apply elem_of_cons in Hp as [-> |Hp]; [|by apply IH].
  rewrite (batch_other _ _ _ _ _ HF) by done. exact (rw_id _ _ _ _ _ (Hw es)).
Qed.

End proofs.
End recordindex_proofs.

(** * Promotions of the record index

    The runs of the operations of [RecordIndex], on the invariant of
    the first part: what a promotion reads, what it writes, and what is
    stored after it. *)

Module recordindex_ops.
Import recordsearch recordsearch_proofs recordindex recordindex_proofs.
Import anchorstore_proofs (encodes, readCBOR_exact).

Section ops.
Context `{KeyDescriptorLib, CborMode Idx.t, UnicodeLib, !CborModeExact Idx.t}.

(** ** References and scans *)

Lemma decode_reference id : id ≠ "" → decodeRecordIndexRef (reference id) = Some id.
Proof.
  intros Hid. unfold decodeRecordIndexRef, reference.
  rewrite take_app_length, bool_decide_true, drop_app_length by done.
  destruct (bytes_of_string id) as [|x l] eqn:E.
  - destruct Hid. by apply bytes_of_string_inj.
  - rewrite <- E. f_equal. apply String.string_of_list_byte_of_string.
Qed.

Lemma has_prefix_true t v k :
  has_prefix t v k = true ↔ ∃ time id, k = By t v time id.
Proof.
  destruct k; cbn; try (split; [done|by intros (? & ? & ?)]).
  rewrite andb_true_iff, bool_decide_eq_true, bytes_equal_true_iff. naive_solver.
Qed.

Context (placed : string → string * Z).
Let coh := coherent placed.

(** The references below a batch are those of the records of the batch. *)
Lemma scan_batch m s b :
  coh m (entries s) → m ≠ TimeOnly → b ≠ "" →
  ∃ ids, scanPrefix ByBatch (bytes_of_string b) s = map reference ids ∧ NoDup ids ∧
    ∀ id, id ∈ ids ↔ is_Some (entries s !! ByID id) ∧ (placed id).1 = b.
Proof.
  intros C Hm Hb. unfold scanPrefix, scan.
  set (l := filter _ (map_to_list _)). set (ms := merge_sort scan_le l).
  assert (ms ≡ₚ l) as Hp by apply merge_sort_Permutation.
  assert (∀ k v, (k, v) ∈ ms ↔ ∃ id, k = batch_key placed id ∧ v = reference id ∧
            is_Some (entries s !! ByID id) ∧ (placed id).1 = b) as Hin.
  { intros k v. rewrite Hp. unfold l. rewrite list_elem_of_filter, elem_of_map_to_list. cbn [fst].
    rewrite has_prefix_true. split.
    - intros [(t & id & ->) Hk]. destruct (co_ref _ _ _ C _ _ _ _ Hk) as (_ & -> & Hs & _ & Ek).
      exists id. split_and!; try done. unfold batch_key in Ek. injection Ek as Ek _.
      symmetry. by apply bytes_of_string_inj.
    - intros (id & -> & -> & Hs & Hb'). split; [unfold batch_key; rewrite Hb'; eauto|].
      apply (co_batch _ _ _ C); [done| |done]. by rewrite Hb'. }
  exists (map (key_id ∘ fst) ms). split_and!.
  - rewrite map_map. apply map_ext_in. intros [k v] Hk%list_elem_of_In.
    apply Hin in Hk as (id & -> & -> & _). done.
  - assert (NoDup ms) as Hd by (rewrite Hp; apply NoDup_filter, NoDup_map_to_list).
    apply NoDup_fmap_2_strong; [|done]. intros [k v] [k' v'] Hk Hk' E.
    apply Hin in Hk as (id & -> & -> & _), Hk' as (id' & -> & -> & _). cbn in E. by subst.
  - intros id. rewrite list_elem_of_fmap. split.
    + intros ([k v] & -> & (id' & -> & -> & ?)%Hin). done.
    + intros Hid. exists (batch_key placed id, reference id). split; [done|]. apply Hin. eauto.
Qed.

(** ** Collecting the promotions *)

Lemma read_stored s id idx : readIndex id s = Ok (Some idx) →
  ∃ b, entries s !! ByID id = Some b ∧ ∀ a, encodes b a → idx = a.
Proof. unfold readIndex. intros E%readCBOR_exact. done. Qed.

Lemma read_coherent m s id idx :
  coh m (entries s) → readIndex id s = Ok (Some idx) →
  ∃ b, entries s !! ByID id = Some b ∧ storable idx b ∧ idx.(Idx.RecordID) = id ∧ fits placed idx.
Proof.
  intros C (b & Hb & Ha)%read_stored. exists b. destruct (co_id _ _ _ C id b Hb) as (i & He & Hi & Hn & Hf & Hs & Hl & _).
  rewrite (Ha i He). unfold storable. rewrite Hi. done.
Qed.

Definition promotes (s : Store) (l id : string) (u : recordIndexPromotion) : Prop :=
  readIndex id s = Ok (Some (old u)) ∧ next u = with_level l (old u) ∧ replaceAll u = false ∧
  ProofLevelRank (RecordIndexProofLevel (old u)) < ProofLevelRank l.

Lemma collect_spec m s l ids us :
  coh m (entries s) → (∀ id, id ∈ ids → is_Some (entries s !! ByID id)) →
  collect l (map reference ids) s = Ok us →
  (∀ u, u ∈ us → ∃ id, id ∈ ids ∧ promotes s l id u) ∧
  (∀ id, id ∈ ids → ∃ idx, readIndex id s = Ok (Some idx) ∧
     (ProofLevelRank (RecordIndexProofLevel idx) < ProofLevelRank l → ∃ u, u ∈ us ∧ old u = idx)) ∧
  sublist (map (Idx.RecordID ∘ old) us) ids.
Proof.
  intros C. revert us. induction ids as [|id ids IH]; intros us Hs E; cbn [map collect] in E.
  { injection E as <-. split_and!; [by intros u ?%elem_of_nil|by intros u ?%elem_of_nil|constructor]. }
  destruct (Hs id) as [b Hb]; [set_solver|].
  destruct (co_id _ _ _ C id b Hb) as (_ & _ & _ & Hid & _).
  apply bind_Ok in E as (idx & E1 & (us' & E2 & [= <-])%bind_Ok).
  unfold readRecordIndexScanValue in E1. rewrite decode_reference in E1 by done.
  apply bind_Ok in E1 as ([idx'|] & E1 & [= ->]).
  destruct (read_coherent _ _ _ _ C E1) as (b' & _ & _ & Ei & _).
  destruct (IH us') as (I1 & I2 & I3); [intros; apply Hs; set_solver|done|].
  rewrite decode_reference by done.
  destruct (_ <=? _) eqn:Er; bsimpl; cbn [map].
  - split_and!.
    + intros u (id' & ? & ?)%I1. exists id'. split; [set_solver|done].
    + intros id' [-> |Hid']%elem_of_cons; [|by apply I2]. exists idx. split; [done|]. lia.
    + by constructor.
  - split_and!.
    + intros u [-> |(id' & ? & ?)%I1]%elem_of_cons; [|exists id'; split; [set_solver|done]].
      exists id. split; [set_solver|]. split_and!; try done; cbn; lia.
    + intros id' [-> |Hid']%elem_of_cons.
      * exists idx. split; [done|]. intros _. eexists. split; [apply list_elem_of_here|done].
      * destruct (I2 id' Hid') as (i & ? & Hu). exists i. split; [done|]. intros (u & ? & ?)%Hu.
        exists u. split; [set_solver|done].
    + cbn. rewrite Ei. by constructor.
Qed.

(** ** Committing them

    What one promotion writes, and what a run of the commit loop does: it
    stages a prefix of the promotions, all of them when it succeeds. *)

Definition written (m : mode) (u : recordIndexPromotion) (ws : list write) (p : Idx.t * bytes) : Prop :=
  encodeRecordIndexArtifact (next u) = Ok p ∧ stores m ws p.

Lemma stagePromotions_spec m us ws :
  (∀ u, u ∈ us → (old u).(Idx.RecordID) = (next u).(Idx.RecordID)) →
  stagePromotions m us = Ok ws →
  ∃ wss ps, ws = concat wss ∧ Forall3 (written m) us wss ps.
Proof.
  revert ws. induction us as [|u us IH]; intros ws Hu E; cbn in E.
  { injection E as <-. exists [], []. split; [done|constructor]. }
  apply bind_Ok in E as (w & E1 & (w' & E2 & [= <-])%bind_Ok).
  destruct (IH w') as (wss & ps & -> & HF); [intros; apply Hu; set_solver|done|].
  assert ((old u).(Idx.RecordID) = (next u).(Idx.RecordID)) as Eid by (apply Hu; set_solver).
  assert (∃ p, encodeRecordIndexArtifact (next u) = Ok p) as [p Ep].
  { apply bind_Ok in E1 as (p & Ep & _). by exists p. }
  exists (w :: wss), (p :: ps). split; [done|]. constructor; [|done]. split; [done|]. intros es.
  destruct (write_promotion m es u w E1 Eid) as (idx & value & Ei & Hw). rewrite Ep in Ei.
  by injection Ei as ->.
Qed.

Definition after (s : Store) (wss : list (list write)) : Store :=
  mkStore (anchors s) (recordIndexMode s) (foldl apply (entries s) (concat wss)).

Lemma after_app s wss wss' : after (after s wss) wss' = after s (wss ++ wss').
Proof. unfold after. cbn. by rewrite concat_app, foldl_app. Qed.

Definition committed (us : list recordIndexPromotion) (s : Store) (r : result unit) (s' : Store) : Prop :=
  ∃ done rest wss ps,
    us = done ++ rest ∧ Forall3 (written (recordIndexMode s)) done wss ps ∧ s' = after s wss ∧
    (r = Ok tt → rest = []).

Lemma promotions_spec us s :
  (∀ u, u ∈ us → (old u).(Idx.RecordID) = (next u).(Idx.RecordID)) →
  post (commitRecordIndexPromotions us) s (committed us s).
Proof.
  assert (∀ cs s, (∀ u, u ∈ concat cs → (old u).(Idx.RecordID) = (next u).(Idx.RecordID)) →
    post (for_each commit_chunk cs) s (committed (concat cs) s)) as Hc.
  { clear us s. intros cs. induction cs as [|c cs IH]; intros s Hu; cbn [for_each concat].
    { apply post_ret. exists [], [], [], []. split_and!; [done|constructor|by destruct s|done]. }
    assert (∀ e, committed (c ++ concat cs) s (Err e) s) as He.
    { intros e. exists [], (c ++ concat cs), [], []. split_and!; [done|constructor|by destruct s|done]. }
    apply post_bind. unfold commit_chunk at 1. io_step; [done|].
    match goal with H : Ok _ = Ok _ |- _ => injection H as <- end. io_step; [done|].
    apply post_modify. edestruct stagePromotions_spec as (wss & ps & -> & HF);
      [|eassumption|]; [intros; apply Hu; set_solver|].
    eapply post_mono; [apply IH; intros; apply Hu; set_solver|].
    intros r s' (d & rest & wss' & ps' & E1 & HF' & -> & Hr). exists (c ++ d), rest, (wss ++ wss'), (ps ++ ps').
    split_and!; [by rewrite E1, app_assoc|by apply Forall3_app|by rewrite <- after_app|done]. }
  intros Hu. rewrite <- (chunks_concat (Z.to_nat batchArtifactChunkSize) us) in Hu by (vm_compute; lia).
  rewrite <- (chunks_concat (Z.to_nat batchArtifactChunkSize) us) at 2 by (vm_compute; lia). by apply Hc.
Qed.

(** ** Whole promotions *)

(** What is stored for a promoted record. *)
Lemma written_level m u ws p l :
  written m u ws p → next u = with_level l (old u) → NormalizedProofLevel l = l → l ≠ "" →
  (old u).(Idx.SchemaVersion) ≠ "" → p.1 = with_level l (old u) ∧ storable p.1 p.2.
Proof.
  intros [E _] En Hl Hne Hs. destruct p as [i v]. apply encode_storable in E as (Hst & _ & _ & _ & Hi).
  split; [|done]. cbn. rewrite Hi by (by rewrite En). rewrite En. unfold RecordIndexProofLevel. cbn.
  rewrite Hl. by rewrite (proj2 (seqb_false _ _) Hne).
Qed.

Lemma Forall3_fst m us wss ps :
  Forall3 (written m) us wss ps →
  Forall2 (stores m) wss ps ∧ Forall2 (λ u p, ∃ ws, written m u ws p) us ps.
Proof.
  induction 1 as [|u ws p us wss ps Hw _ [IH1 IH2]]; [by split|].
  split; constructor; try done; [apply Hw|by exists ws].
Qed.

Lemma written_ids m us ps :
  Forall2 (λ u p, ∃ ws, written m u ws p) us ps →
  (∀ u, u ∈ us → (old u).(Idx.RecordID) = (next u).(Idx.RecordID)) →
  map (Idx.RecordID ∘ fst) ps = map (Idx.RecordID ∘ old) us.
Proof.
  induction 1 as [|u [i v] us ps [ws [Hw _]] _ IH]; intros Hu; [done|]. cbn. f_equal.
  - apply encode_storable in Hw as (_ & -> & _). symmetry. apply Hu. set_solver.
  - apply IH. intros. apply Hu. set_solver.
Qed.

Definition promoted (b l : string) (idx : Idx.t) : Idx.t :=
  if seqb idx.(Idx.BatchID) b && (ProofLevelRank (RecordIndexProofLevel idx) <? ProofLevelRank l)
  then with_level (NormalizedProofLevel l) idx else idx.

Definition kept (s s' : Store) : Prop :=
  anchors s' = anchors s ∧ recordIndexMode s' = recordIndexMode s.

Definition stored (s : Store) (id : string) (idx : Idx.t) : Prop :=
  ∃ v, entries s !! ByID id = Some v ∧ encodes v idx.

(** Every record of [us] is read from the store and belongs to the batch. *)
Definition collected (s : Store) (b l : string) (us : list recordIndexPromotion) : Prop :=
  (∀ u, u ∈ us → ∃ id, promotes s l id u ∧ (placed id).1 = b) ∧
  (∀ id idx, stored s id idx → (placed id).1 = b →
     ProofLevelRank (RecordIndexProofLevel idx) < ProofLevelRank l → ∃ u, u ∈ us ∧ old u = idx) ∧
  NoDup (map (Idx.RecordID ∘ old) us).

Lemma collect_batch s b l us :
  coh (recordIndexMode s) (entries s) → recordIndexMode s ≠ TimeOnly → b ≠ "" →
  collectRecordIndexPromotions b l s = Ok us → collected s b l us.
Proof.
  intros C Hm Hb E. apply wrap_err_Ok in E. destruct (scan_batch _ s b C Hm Hb) as (ids & Es & Hd & Hin).
  rewrite Es in E. destruct (collect_spec _ s l ids us C) as (L1 & L2 & L3); [by intros id [? _]%Hin|done|].
  split_and!.
  - intros u (id & [_ Hid]%Hin & Hp)%L1. by exists id.
  - intros id idx (v & Hv & He) Hp Hl. destruct (L2 id) as (i & Ei & Hu); [apply Hin; by rewrite Hv|].
    apply read_stored in Ei as (v' & Hv' & Ha). assert (v' = v) as -> by congruence.
    rewrite (Ha idx He) in *. by apply Hu.
  - by eapply sublist_NoDup.
Qed.

Lemma promotes_ids s l (us : list recordIndexPromotion) :
  (∀ u, u ∈ us → ∃ id, promotes s l id u) →
  ∀ u, u ∈ us → (old u).(Idx.RecordID) = (next u).(Idx.RecordID).
Proof. intros Hu u (id & _ & -> & _)%Hu. done. Qed.

Definition promotion_run (b l : string) (s : Store) (r : result unit) (s' : Store) : Prop :=
  s' = s ∧ (∃ e, r = Err e) ∨
  ∃ us sub ps wss, collected s b l us ∧ sub `prefix_of` us ∧ s' = after s wss ∧
    Forall2 (stores (recordIndexMode s)) wss ps ∧
    Forall2 (λ u p, p.1 = with_level l (old u) ∧ storable p.1 p.2 ∧ fits placed (old u)) sub ps ∧
    (r = Ok tt → sub = us).

Lemma promote_run s b l :
  coh (recordIndexMode s) (entries s) → recordIndexMode s ≠ TimeOnly → b ≠ "" →
  NormalizedProofLevel l = l → l ≠ "" → post (promoteBatchRecords b l) s (promotion_run b l s).
Proof.
  intros C Hm Hb Hl Hne. unfold promoteBatchRecords.
  rewrite (proj2 (seqb_false _ _) Hb). io_step; [by left; eauto|].
  match goal with E : _ = Ok ?x |- _ => rename x into us; apply (collect_batch _ _ _ _ C Hm Hb) in E as Hc end.
  destruct Hc as (Hu & Hall & Hd).
  assert (∀ u, u ∈ us → ∃ id, promotes s l id u) as Hp by (intros u (id & ? & _)%Hu; eauto).
  eapply post_mono; [apply promotions_spec, (promotes_ids s l), Hp|].
  intros r' s'' (sub & rest & wss & ps & -> & HF & -> & Hr). right. exists (sub ++ rest), sub, ps, wss.
  apply Forall3_fst in HF as [HF1 HF2]. split_and!; [done|by eexists|done|done| |].
  - apply Forall2_same_length_lookup_2; [by eapply Forall2_length|]. intros i u p Hi Hpi.
    destruct (Forall2_lookup_lr _ _ _ _ _ _ HF2 Hi Hpi) as [ws Hw].
    destruct (Hp u) as (id & Hr' & En & _); [apply elem_of_app; left; by eapply list_elem_of_lookup_2|].
    destruct (read_coherent _ _ _ _ C Hr') as (v & _ & Hst & _ & Hf).
    assert ((old u).(Idx.SchemaVersion) ≠ "") as Hs by apply Hst.
    by destruct (written_level _ _ _ _ l Hw En Hl Hne Hs).
  - intros ->. by rewrite Hr, app_nil_r.
Qed.

Lemma promotion_coherent s b l r s' :
  coh (recordIndexMode s) (entries s) → promotion_run b l s r s' → coh (recordIndexMode s') (entries s').
Proof.
  intros C [[-> _]|(us & sub & ps & wss & _ & _ & -> & HF & Hps & _)]; [done|].
  apply coherent_batch with ps; [done..|]. apply Forall_forall. intros p Hp.
  apply list_elem_of_lookup in Hp as [i Hi]. destruct (Forall2_lookup_r _ _ _ _ _ Hps Hi) as (u & _ & E & Hs & Hf).
  split; [done|]. by rewrite E.
Qed.

Lemma promotion_effect s b l s' id idx :
  coh (recordIndexMode s) (entries s) → NormalizedProofLevel l = l → promotion_run b l s (Ok tt) s' →
  stored s id idx → fits placed idx → idx.(Idx.RecordID) = id → stored s' id (promoted b l idx).
Proof.
  intros C Hl [[_ [e ?]]|(us & sub & ps & wss & (Hu & Hall & Hd) & _ & -> & HF & Hps & Hr)] Hi Hf Eid; [done|].
  rewrite (Hr eq_refl) in Hps. pose proof Hi as (v & Hv & He).
  assert (map (Idx.RecordID ∘ fst) ps = map (Idx.RecordID ∘ old) us) as Eids.
  { clear -Hps. induction Hps as [|u p us ps (Ep & _) _ IH]; [done|]. cbn. by rewrite Ep, IH. }
  unfold promoted, after. rewrite Hl. cbn [entries].
  assert ((placed id).1 = idx.(Idx.BatchID)) as Eb by (by rewrite <- Eid, Hf).
  destruct (_ && _) eqn:E.
  - apply andb_true_iff in E as [Ebt Er%Z.ltb_lt]. apply seqb_true in Ebt.
    destruct (Hall id idx Hi) as (u & Hin & <-); [congruence|done|].
    apply list_elem_of_lookup in Hin as [i Hi']. destruct (Forall2_lookup_l _ _ _ _ _ Hps Hi') as (p & Hp & Ep & (Hs & _) & _).
    exists p.2. split; [|by rewrite <- Ep]. replace id with p.1.(Idx.RecordID) by (rewrite Ep; done).
    eapply (batch_stored placed); [exact HF|by rewrite Eids|by eapply list_elem_of_lookup_2].
  - exists v. split; [|done]. change (foldl apply (entries s) (concat wss) !! ByID id = Some v). erewrite (batch_other placed); [done|exact HF|].
    rewrite Eids. intros (u & Ei & (id' & (Hr' & _ & _ & Hk) & Hb)%Hu)%list_elem_of_fmap. cbn in Ei.
    destruct (read_coherent _ _ _ _ C Hr') as (_ & _ & _ & Ei' & _).
    assert (id' = id) as -> by congruence. apply read_stored in Hr' as (v' & Hv' & Ha).
    assert (v' = v) as -> by congruence. rewrite (Ha idx He) in Hk.
    apply andb_false_iff in E as [E%seqb_false|E%Z.ltb_ge]; [congruence|lia].
Qed.

(** A store of the time index only has no references of a batch. *)
Lemma promotion_time_only s b l :
  coh TimeOnly (entries s) → b ≠ "" → promoteBatchRecords b l s = (s, Ok tt).
Proof.
  intros C Hb. unfold promoteBatchRecords. rewrite (proj2 (seqb_false _ _) Hb).
  assert (scanPrefix ByBatch (bytes_of_string b) s = []) as E.
  { unfold scanPrefix, scan. set (l0 := filter _ _). pose proof (merge_sort_Permutation scan_le l0) as Hp.
    destruct (merge_sort _ _) as [|[k v] l'] eqn:El; [done|]. exfalso.
    assert ((k, v) ∈ l0) as Hin by (rewrite <- Hp; apply list_elem_of_here).
    apply list_elem_of_filter in Hin as [Hpre Hk%elem_of_map_to_list]. cbn [fst] in Hpre.
    apply has_prefix_true in Hpre as (t & id & ->).
    by destruct (co_ref _ _ _ C _ _ _ _ Hk). }
  unfold mbind, io_bind, reads, collectRecordIndexPromotions. by rewrite E.
Qed.

(** ** Histories of the index *)

Inductive op :=
| Put (idx : Idx.t)
| PutChunk (replace : bool) (indexes : list Idx.t)
| Promote (batchID proofLevel : string).

Definition exec (o : op) : io Store unit :=
  match o with
  | Put idx => PutRecordIndex idx
  | PutChunk replace indexes => putIndexChunk replace indexes
  | Promote b l => PromoteBatchProofLevel b l
  end.

Definition op_fits (o : op) : Prop :=
  match o with
  | Put idx => fits placed idx
  | PutChunk _ indexes => Forall (fits placed) indexes
  | Promote _ _ => True
  end.

Definition run (ops : list op) (s : Store) : Store := foldl (λ s o, (exec o s).1) s ops.

Definition empty (m : mode) (a : anchorstore.Store) : Store := mkStore a m ∅.

Lemma coherent_empty m : coh m ∅.
Proof. by split; intros *; rewrite lookup_empty. Qed.

(** A commit of staged records keeps the invariant. *)
Lemma commit_coherent s wss ps :
  coh (recordIndexMode s) (entries s) → Forall2 (stores (recordIndexMode s)) wss ps →
  Forall (λ p, storable p.1 p.2 ∧ fits placed p.1) ps →
  post (Commit (concat wss)) s (λ _ s', kept s s' ∧ coh (recordIndexMode s') (entries s')).
Proof. intros C HF Hp. apply post_modify. split; [done|]. by eapply coherent_batch. Qed.

Lemma encodeAll_spec indexes encs :
  encodeAll indexes = Ok encs → Forall2 (λ i e, encodeRecordIndexArtifact i = Ok e) indexes encs.
Proof.
  revert encs. induction indexes as [|i indexes IH]; intros encs E; cbn in E.
  { injection E as <-. constructor. }
  apply bind_Ok in E as (e & Ee & (es & E & [= <-])%bind_Ok). constructor; auto.
Qed.

Lemma encode_fits i e :
  encodeRecordIndexArtifact i = Ok e → fits placed i → storable e.1 e.2 ∧ fits placed e.1.
Proof.
  destruct e as [idx v]. intros E Hf. split; [by apply encode_storable in E as (? & _)|by eapply fits_encode].
Qed.

Lemma put_coherent s idx :
  coh (recordIndexMode s) (entries s) → fits placed idx →
  post (PutRecordIndex idx) s (λ _ s', kept s s' ∧ coh (recordIndexMode s') (entries s')).
Proof.
  intros C Hf. unfold PutRecordIndex, requireSuite. assert (kept s s) as Hk by done.
  io_step; [done|]. io_step; [by apply post_lift|]. io_step; [done|].
  match goal with E : wrap_err _ _ _ = Ok ?x |- _ => rename x into old; apply wrap_err_Ok in E as Eold end.
  io_step; [done|]. match goal with E : encodeRecordIndexArtifact _ = Ok ?x |- _ => rename x into e, E into Ee end.
  io_step; [done|]. match goal with E : Ok _ = Ok _ |- _ => injection E as <- end.
  pose proof (encode_fits _ _ Ee Hf) as Hs. destruct e as [i v].
  rewrite <- (app_nil_r (stageEncodedRecordIndexReplace _ _ _)).
  apply (commit_coherent s [_] [(i, v)]); [done| |by constructor]. constructor; [|constructor]. intros es.
  apply write_replace; [apply Hs|]. intros o ->. apply encode_storable in Ee as (_ & Er & _).
  apply (read_coherent _ _ _ _ C) in Eold as (_ & _ & _ & Eo & _). cbn. congruence.
Qed.

Lemma chunk_coherent s replace indexes :
  coh (recordIndexMode s) (entries s) → Forall (fits placed) indexes →
  post (putIndexChunk replace indexes) s (λ _ s', kept s s' ∧ coh (recordIndexMode s') (entries s')).
Proof.
  intros C Hf. unfold putIndexChunk. assert (kept s s) as Hk by done. io_step; [done|].
  match goal with E : encodeAll _ = Ok ?x |- _ => rename x into es; apply encodeAll_spec in E as He end.
  io_step; [done|]. match goal with E : Ok _ = Ok _ |- _ => injection E as <- end.
  assert (Forall (λ p : Idx.t * bytes, storable p.1 p.2 ∧ fits placed p.1) es) as Hs.
  { clear -He Hf CborModeExact0. induction He as [|i e l k Hi _ IH]; [constructor|]. apply Forall_cons in Hf as [? ?].
    constructor; [by eapply encode_fits|auto]. }
  eapply commit_coherent; [done| |exact Hs]. apply Forall2_fmap_l, Forall_Forall2_diag.
  eapply Forall_impl; [exact Hs|]. intros [i v] [(_ & Hid & _) _] es'.
  destruct replace; [by apply write_for_mode|by apply write_set].
Qed.

Lemma promote_coherent s b l :
  coh (recordIndexMode s) (entries s) →
  post (PromoteBatchProofLevel b l) s (λ _ s', kept s s' ∧ coh (recordIndexMode s') (entries s')).
Proof.
  intros C. unfold PromoteBatchProofLevel. assert (kept s s) as Hk by done. io_step; [by apply post_lift|].
  match goal with E : _ || _ = false |- _ => apply orb_false_iff in E as [Hb%seqb_false Hl%seqb_false] end.
  destruct (decide (recordIndexMode s = TimeOnly)) as [Em|Em].
  { rewrite Em in C. unfold post. rewrite (promotion_time_only _ _ _ C Hb). cbn. by rewrite Em. }
  eapply post_mono; [apply promote_run; [done..|apply NormalizedProofLevel_idem|done]|].
  intros r s' Hr. split; [|by eapply promotion_coherent].
  by destruct Hr as [[-> _]|(? & ? & ? & ? & _ & _ & -> & _)].
Qed.

Lemma run_coherent ops s :
  Forall op_fits ops → coh (recordIndexMode s) (entries s) →
  kept s (run ops s) ∧ coh (recordIndexMode (run ops s)) (entries (run ops s)).
Proof.
  intros Ho. revert s. induction Ho as [|o ops Ho _ IH]; intros s C; [done|].
  assert (kept s (exec o s).1 ∧ coh (recordIndexMode (exec o s).1) (entries (exec o s).1)) as [[Ka Km] C'].
  { destruct o; cbn in *; [by apply put_coherent|by apply chunk_coherent|by apply promote_coherent]. }
  change (run (o :: ops) s) with (run ops (exec o s).1).
  destruct (IH _ C') as [[? ?] ?]. split; [|done]. split; congruence.
Qed.

(** C26: promoting a batch raises exactly the records of that batch that are
    below the level, and changes what is stored for no other record.  [placed]
    gives the batch and reception time of each record id, which all writers of
    the history agree on; every history of puts, chunks of a batch and other
    promotions may come before, in a store with a batch index. *)
Theorem promote_exact ops m a b l s' id idx :
  Forall op_fits ops → m ≠ TimeOnly →
  let s := run ops (empty m a) in
  PromoteBatchProofLevel b l s = (s', Ok tt) → readIndex id s = Ok (Some idx) →
  ∃ v, entries s' !! ByID id = Some v ∧ cborx.Marshal (promoted b l idx) = Ok v.
Proof.
  intros Ho Hm s E Hi. destruct (run_coherent ops (empty m a) Ho (coherent_empty m)) as [[_ Em] C].
  fold s in Em, C. change (recordIndexMode s = m) in Em. unfold PromoteBatchProofLevel in E.
  destruct (_ || _) eqn:Eb; [by apply lift_Ok in E as [_ ?]|]. apply orb_false_iff in Eb as [Hb%seqb_false Hl%seqb_false].
  assert (promotion_run b (NormalizedProofLevel l) s (Ok tt) s') as Hr.
  { eapply (post_intro _ _ _ (promote_run s b _ C ltac:(congruence) Hb (NormalizedProofLevel_idem l) Hl)), E. }
  destruct (read_coherent _ _ _ _ C Hi) as (v0 & Hv0 & (He0 & _) & Eid & Hf).
  destruct (promotion_effect _ _ _ _ _ _ C (NormalizedProofLevel_idem l) Hr
    (ex_intro _ v0 (conj Hv0 He0)) Hf Eid) as (v & Hv & He).
  exists v. split; [done|]. unfold encodes, promoted in He. rewrite ProofLevelRank_norm, NormalizedProofLevel_idem in He.
  exact He.
Qed.

(** A store that keeps the time index only has no batch index, so that a
    promotion succeeds there and promotes nothing: no record of it ever reaches
    level L4 or L5, whatever is published or anchored. *)
Theorem promote_time_only ops a b l :
  Forall op_fits ops → b ≠ "" → NormalizedProofLevel l ≠ "" →
  let s := run ops (empty TimeOnly a) in
  PromoteBatchProofLevel b l s = (s, Ok tt).
Proof.
  intros Ho Hb Hl s. destruct (run_coherent ops (empty TimeOnly a) Ho (coherent_empty TimeOnly)) as [[_ Em] C].
  fold s in Em, C. change (recordIndexMode s = TimeOnly) in Em. rewrite Em in C. unfold PromoteBatchProofLevel.
  rewrite (proj2 (seqb_false _ _) Hb), (proj2 (seqb_false _ _) Hl). by apply promotion_time_only.
Qed.

End ops.
End recordindex_ops.

(** * Properties of all stored records

    A property that holds of every record of the index survives the operations
    whose own records have it; a promotion that succeeds gives the level to all
    records of its batch. *)

Module recordlevels.
Import recordsearch recordsearch_proofs recordindex recordindex_proofs recordindex_ops.
Import anchorstore_proofs (encodes).

Definition rank (idx : Idx.t) : Z := ProofLevelRank (RecordIndexProofLevel idx).

Section levels.
Context `{KeyDescriptorLib, CborMode Idx.t, UnicodeLib, !CborModeExact Idx.t}.

Definition each (P : Idx.t → Prop) (es : gmap key bytes) : Prop :=
  ∀ id b, es !! ByID id = Some b → ∃ idx, encodes b idx ∧ idx.(Idx.RecordID) = id ∧ P idx.

Lemma each_mono (P Q : Idx.t → Prop) es : (∀ idx, P idx → Q idx) → each P es → each Q es.
Proof. intros HQ HP id b Hb. destruct (HP id b Hb) as (idx & ? & ? & ?). exists idx. auto. Qed.

Lemma each_empty P : each P ∅.
Proof. intros id b. by rewrite lookup_empty. Qed.

(** What is read has the property. *)
Lemma each_read P s id idx : each P (entries s) → readIndex id s = Ok (Some idx) → P idx ∧ idx.(Idx.RecordID) = id.
Proof.
  intros HP (b & Hb & Ha)%read_stored. destruct (HP id b Hb) as (i & He & Hi & Hp). by rewrite (Ha i He).
Qed.

Lemma each_write P m es ws idx value :
  each P es → record_write m es ws idx value → encodes value idx → P idx → each P (foldl apply es ws).
Proof.
  intros HP R He Hi id b Hb. destruct (decide (id = idx.(Idx.RecordID))) as [-> |Hne].
  - rewrite (rw_id _ _ _ _ _ R) in Hb. injection Hb as <-. by exists idx.
  - erewrite write_other in Hb; [|exact R|done]. by apply HP.
Qed.

Lemma each_batch P m es wss ps :
  each P es → Forall2 (stores m) wss ps → Forall (λ p, encodes p.2 p.1 ∧ P p.1) ps →
  each P (foldl apply es (concat wss)).
Proof.
  intros HP HF. revert es HP. induction HF as [|ws p wss ps Hw _ IH]; intros es HP Hps; [done|].
  apply Forall_cons in Hps as [[He Hi] Hps]. cbn. rewrite foldl_app. apply IH; [|done]. by eapply each_write.
Qed.

Context (placed : string → string * Z).
Let coh := coherent placed.

(** Promotions, whether they succeed or stop on the way. *)
Lemma each_promote P s b l :
  coh (recordIndexMode s) (entries s) → NormalizedProofLevel l = l → l ≠ "" → each P (entries s) →
  (∀ idx, P idx → idx.(Idx.BatchID) = b → rank idx < ProofLevelRank l → P (with_level l idx)) →
  post (promoteBatchRecords b l) s (λ _ s', each P (entries s')).
Proof.
  intros C Hl Hne HP Hup. destruct (decide (b = "")) as [-> |Hb]; [done|].
  destruct (decide (recordIndexMode s = TimeOnly)) as [Em|Em].
  { rewrite Em in C. unfold post. by rewrite (promotion_time_only placed s b l C Hb). }
  eapply post_mono; [by apply (promote_run placed)|].
  intros r s' [[-> _]|(us & sub & ps & wss & (Hu & _) & [rest ->] & -> & HF & Hps & _)]; [done|].
  apply each_batch with (recordIndexMode s) ps; [done..|]. apply Forall_forall. intros p (n & Hp)%list_elem_of_lookup.
  destruct (Forall2_lookup_r _ _ _ _ _ Hps Hp) as (u & Hn & Ep & (He & _) & Hf). split; [done|]. rewrite Ep.
  destruct (Hu u) as (id & (Hr & _ & _ & Hk) & Hpl); [apply elem_of_app; left; by eapply list_elem_of_lookup_2|].
  destruct (each_read P s id (old u) HP Hr) as [Hi Hid]. apply Hup; [done| |done].
  unfold fits in Hf. rewrite Hid in Hf. by rewrite Hf in Hpl.
Qed.

Lemma promoted_full b l s s' :
  coh (recordIndexMode s) (entries s) → recordIndexMode s ≠ TimeOnly → b ≠ "" → NormalizedProofLevel l = l → l ≠ "" →
  promoteBatchRecords b l s = (s', Ok tt) →
  each (λ idx, idx.(Idx.BatchID) = b → ProofLevelRank l <= rank idx) (entries s').
Proof.
  intros C Hm Hb Hl Hne E.
  pose proof (post_intro _ _ _ (promote_run placed s b l C Hm Hb Hl Hne) _ _ E) as Hr.
  assert (each (λ idx, is_Some (entries s !! ByID idx.(Idx.RecordID))) (entries s')) as Hs.
  { eapply (post_intro _ _ _ (each_promote _ s b l C Hl Hne _ _)), E. Unshelve.
    - intros id v Hv. destruct (co_id _ _ _ C id v Hv) as (i & He & Hi & _). exists i. rewrite Hi. by rewrite Hv.
    - by intros. }
  intros id v Hv. destruct (Hs id v Hv) as (i0 & _ & Ei0 & [v0 Hv0]). rewrite Ei0 in Hv0.
  destruct (co_id _ _ _ C id v0 Hv0) as (i & He & Hi & _ & Hf & _).
  destruct (promotion_effect placed s b l s' id i C Hl Hr (ex_intro _ v0 (conj Hv0 He)) Hf Hi) as (v' & Hv' & He').
  assert (v' = v) as -> by congruence. exists (promoted b l i). split_and!; [done|unfold promoted; by destruct (_ && _)|].
  unfold promoted. destruct (seqb i.(Idx.BatchID) b) eqn:Eb; cbn [andb].
  - fold (rank i). destruct (rank i <? ProofLevelRank l) eqn:Er; bsimpl; [|lia]. rewrite Hl. intros _.
    unfold rank, RecordIndexProofLevel. cbn. rewrite Hl, (proj2 (seqb_false _ _) Hne). cbn [negb]. lia.
  - apply seqb_false in Eb. done.
Qed.

(** The records that an operation writes have the property. *)
Definition writes_ok (P : Idx.t → Prop) (o : op) : Prop :=
  match o with
  | Put idx => ∀ e, encodeRecordIndexArtifact idx = Ok e → P e.1
  | PutChunk _ indexes => Forall (λ idx, ∀ e, encodeRecordIndexArtifact idx = Ok e → P e.1) indexes
  | Promote b l => ∀ idx, P idx → idx.(Idx.BatchID) = b → rank idx < ProofLevelRank l →
      P (with_level (NormalizedProofLevel l) idx)
  end.

Lemma each_exec P o s :
  coh (recordIndexMode s) (entries s) → each P (entries s) → writes_ok P o → each P (entries (recordindex_ops.exec o s).1).
Proof.
  intros C HP Hw. destruct o as [idx|replace indexes|b l]; cbn [recordindex_ops.exec writes_ok] in *.
  - unfold PutRecordIndex, requireSuite. match goal with |- each P (entries (?m s).1) => assert (post m s (λ _ s', each P (entries s'))) as Hp; [|exact Hp] end.
    io_step; [done|]. io_step; [by apply post_lift|]. io_step; [done|].
    match goal with E : wrap_err _ _ _ = Ok ?x |- _ => rename x into old; apply wrap_err_Ok in E as Eold end.
    io_step; [done|]. match goal with E : encodeRecordIndexArtifact _ = Ok ?x |- _ => rename x into e, E into Ee end.
    io_step; [done|]. match goal with E : Ok _ = Ok _ |- _ => injection E as <- end. apply post_modify. cbn.
    specialize (Hw e Ee). destruct e as [i v]. apply encode_storable in Ee as ((He & Hid & _) & Er & _).
    eapply each_write; [exact HP| |exact He|exact Hw]. apply write_replace; [done|]. intros o ->.
    apply (read_coherent placed _ _ _ _ C) in Eold as (_ & _ & _ & Eo & _). congruence.
  - unfold putIndexChunk. match goal with |- each P (entries (?m s).1) => assert (post m s (λ _ s', each P (entries s'))) as Hp; [|exact Hp] end.
    io_step; [done|]. match goal with E : encodeAll _ = Ok ?x |- _ => rename x into es; apply encodeAll_spec in E as He end.
    io_step; [done|]. match goal with E : Ok _ = Ok _ |- _ => injection E as <- end. apply post_modify. cbn.
    assert (Forall (λ p : Idx.t * bytes, (encodes p.2 p.1 ∧ P p.1) ∧ p.1.(Idx.RecordID) ≠ "") es) as Hs.
    { clear -He Hw CborModeExact0. induction He as [|i [j v] k l Hi _ IH]; [constructor|]. apply Forall_cons in Hw as [Hw Hws].
      constructor; [|by apply IH]. specialize (Hw _ Hi). by apply encode_storable in Hi as ((? & ? & _) & _). }
    apply each_batch with (recordIndexMode s) es; [done| |eapply Forall_impl; [exact Hs|]; by intros ? []].
    apply Forall2_fmap_l, Forall_Forall2_diag. eapply Forall_impl; [exact Hs|]. intros [i v] [_ Hid] es'.
    destruct replace; [by apply write_for_mode|by apply write_set].
  - unfold PromoteBatchProofLevel. destruct (_ || _) eqn:Eb; [done|].
    apply orb_false_iff in Eb as [_ Hl%seqb_false]. apply each_promote; [done|apply NormalizedProofLevel_idem|done|done|].
    intros idx Hi Hb Hr. rewrite ProofLevelRank_norm in Hr. by apply Hw.
Qed.

End levels.
End recordlevels.
