(* ===== verification/RecordListing.v ===== *)
(** * Listings of the record index

    [ListRecordIndexes] scans one of several tables, from a position that
    depends on the cursor and the time range, and stops early; this file relates
    it to the plain definition: filter all records in the order of their
    positions and keep the first of them. *)

From stdpp Require Import sorting.
From S2P Require Import Prelude TrustErr CryptoSuite Model TrustCrypto Cborx KeyDescriptor ModelSuite.
From S2P Require Import StoreMonad GlobalStore AnchorSchedule AnchorStore AnchorStoreProofs RecordSearch RecordSearchProofs RecordIndex RecordIndexOps.

Module recordlisting.
Import recordsearch recordsearch_proofs recordindex recordindex_proofs recordindex_ops.
Import anchorstore_proofs (encodes).

(** ** The order of strings *)

Definition string_lt (a b : string) : Prop := String.compare a b = Lt.

Lemma ascii_compare_lt_trans a b c : Ascii.compare a b = Lt → Ascii.compare b c = Lt → Ascii.compare a c = Lt.
Proof. unfold Ascii.compare. rewrite !N.compare_lt_iff. lia. Qed.

Lemma ascii_compare_refl a : Ascii.compare a a = Eq.
Proof. apply N.compare_refl. Qed.

#[local] Instance string_lt_trans : Transitive string_lt.
Proof.
  unfold string_lt. intros a. induction a as [|x a IH]; intros [|y b] [|z c]; cbn; try done.
  destruct (Ascii.compare x y) eqn:E1; [apply Ascii.compare_eq_iff in E1 as ->| |done];
    destruct (Ascii.compare y z) eqn:E2; try done.
  - apply IH.
  - intros _ _. apply Ascii.compare_eq_iff in E2 as ->. by rewrite E1.
  - by rewrite (ascii_compare_lt_trans _ _ _ E1 E2).
Qed.

Lemma string_compare_refl a : String.compare a a = Eq.
Proof. induction a; cbn; [done|]. by rewrite ascii_compare_refl. Qed.

Lemma string_ltb_lt a b : String.ltb a b = true ↔ string_lt a b.
Proof. unfold String.ltb, string_lt. by destruct (String.compare a b). Qed.

Lemma string_leb_lt a b : String.leb a b = true ↔ string_lt a b ∨ a = b.
Proof.
  unfold String.leb, string_lt. destruct (String.compare a b) eqn:E; split; try done; try (by left).
  - intros _. right. by apply String.compare_eq_iff.
  - intros [?| ->]; [done|]. by rewrite string_compare_refl in E.
Qed.

Lemma string_lt_irrefl a : ¬ string_lt a a.
Proof. unfold string_lt. by rewrite string_compare_refl. Qed.

Lemma string_lt_total a b : string_lt a b ∨ a = b ∨ string_lt b a.
Proof.
  destruct (String.leb_total a b) as [[?| ->]%string_leb_lt|[?| ->]%string_leb_lt]; tauto.
Qed.

(** ** Positions *)

Definition position : Type := Z * string.
Definition before (a b : position) : Prop := a.1 < b.1 ∨ a.1 = b.1 ∧ string_lt a.2 b.2.

#[local] Instance before_trans : Transitive before.
Proof.
  intros a b c [?|[? ?]] [?|[? ?]]; [left; lia..|right]. split; [lia|]. by etrans.
Qed.

Lemma before_irrefl a : ¬ before a a.
Proof. intros [?|[_ ?]]; [lia|by eapply string_lt_irrefl]. Qed.

Lemma compare_before a b :
  CompareRecordPosition a.1 a.2 b.1 b.2 < 0 ↔ before a b.
Proof.
  unfold CompareRecordPosition, before. rewrite <- string_ltb_lt.
  destruct (Z.ltb_spec a.1 b.1); [split; lia|]. destruct (Z.ltb_spec b.1 a.1); [split; lia|].
  destruct (String.ltb a.2 b.2); [split; [right; split; [lia|done]|lia]|].
  destruct (String.ltb b.2 a.2); split; intros; try lia; naive_solver lia.
Qed.

Definition idx_pos (i : Idx.t) : position := (i.(Idx.ReceivedAtUnixN), i.(Idx.RecordID)).
Definition key_pos (k : key) : position := (key_time k, key_id k).
Definition earlier (a b : Idx.t) : Prop := before (idx_pos a) (idx_pos b).

Lemma scan_le_before a b :
  scan_le a b ↔ before (key_pos a.1) (key_pos b.1) ∨ key_pos a.1 = key_pos b.1.
Proof.
  unfold scan_le, before, key_pos. cbn. rewrite string_leb_lt. split.
  - intros [?|[? [?| ->]]]; [auto|auto|]. right. congruence.
  - intros [[?|[? ?]]|[= -> ->]]; auto.
Qed.

#[local] Instance scan_le_trans : Transitive scan_le.
Proof.
  intros a b c. rewrite !scan_le_before. intros [?| ->] [?|E]; auto; left; [by etrans|by rewrite <- E].
Qed.
#[local] Instance scan_le_total : Total scan_le.
Proof.
  intros a b. rewrite !scan_le_before. unfold before, key_pos. cbn.
  destruct (Z.lt_trichotomy (key_time a.1) (key_time b.1)) as [?|[?|?]]; [auto| |auto].
  destruct (string_lt_total (key_id a.1) (key_id b.1)) as [?|[?|?]]; auto. left. right. congruence.
Qed.

(** ** The loop *)

Section listing.
Context `{KeyDescriptorLib, CborMode Idx.t, UnicodeLib, !CborModeExact Idx.t}.

Definition good (opts : RecordListOptions) (i : Idx.t) : bool :=
  RecordIndexMatchesListOptions i opts && RecordIndexAfterCursor i opts.

(** An entry of a table and the record that it refers to. *)
Definition refers (s : Store) (e : key * bytes) (i : Idx.t) : Prop :=
  e.2 = reference i.(Idx.RecordID) ∧ stored s i.(Idx.RecordID) i ∧ i.(Idx.RecordID) ≠ "" ∧
  key_pos e.1 = idx_pos i.

Lemma refers_read s e i j :
  refers s e i → wrap_err CodeDataLoss "decode record index" (readRecordIndexScanValue e.2 s) = Ok j → j = i.
Proof.
  intros (-> & (v & Hv & He) & Hid & _) E%wrap_err_Ok. unfold readRecordIndexScanValue in E.
  rewrite decode_reference in E by done. apply bind_Ok in E as ([k|] & E & [= ->]).
  apply read_stored in E as (b & Hb & Ha). apply Ha. congruence.
Qed.

Definition in_direction (desc : bool) (a b : Idx.t) : Prop :=
  if desc then b.(Idx.ReceivedAtUnixN) <= a.(Idx.ReceivedAtUnixN)
  else a.(Idx.ReceivedAtUnixN) <= b.(Idx.ReceivedAtUnixN).

(** A record outside the time range does not match. *)
Lemma range_good opts i :
  (0 <? ReceivedFromUnixN opts) && (i.(Idx.ReceivedAtUnixN) <? ReceivedFromUnixN opts) = true ∨
  (0 <? ReceivedToUnixN opts) && (ReceivedToUnixN opts <? i.(Idx.ReceivedAtUnixN)) = true →
  good opts i = false.
Proof.
  intros E. apply andb_false_iff. left. unfold RecordIndexMatchesListOptions.
  destruct E as [-> | ->]; by repeat (destruct (_ && _); [done|]).
Qed.

Lemma exhausted_good opts desc i : recordRangeExhausted i opts desc = true → good opts i = false.
Proof. intros E. apply range_good. destruct desc; auto. Qed.

Lemma exhausted_later opts desc i j :
  in_direction desc i j → recordRangeExhausted i opts desc = true → recordRangeExhausted j opts desc = true.
Proof. unfold in_direction, recordRangeExhausted. destruct desc; rewrite !andb_true_iff, !Z.ltb_lt; lia. Qed.

Lemma filter_none opts (R : list Idx.t) :
  Forall (λ i, good opts i = false) R → filter (λ i, good opts i = true) R = [].
Proof. induction 1 as [|i R Hi _ IH]; [done|]. rewrite filter_cons_False; [done|]. by rewrite Hi. Qed.

Lemma loop_spec s opts desc room es R l :
  Forall2 (refers s) es R → StronglySorted (in_direction desc) R →
  list_loop opts desc room (map snd es) s = Ok l →
  l = take room (filter (λ i, good opts i = true) R).
Proof.
  intros HF. revert room l. induction HF as [|e i es R He _ IH]; intros room l Hs E.
  { destruct room; by injection E as <-. }
  apply StronglySorted_cons in Hs as [Hf Hs]. destruct room as [|room]; [by injection E as <-|].
  cbn [map list_loop] in E. apply bind_Ok in E as (j & Ej & E). apply (refers_read _ _ _ _ He) in Ej as ->.
  destruct (recordRangeExhausted i opts desc) eqn:Ex.
  { injection E as <-. rewrite filter_none; [done|]. constructor; [by eapply exhausted_good|].
    eapply Forall_impl; [exact Hf|]. intros k Hk. by eapply exhausted_good, exhausted_later. }
  fold (good opts i) in E. destruct (good opts i) eqn:Eg.
  - apply bind_Ok in E as (l' & E & [= <-]). rewrite filter_cons_True by done. cbn. f_equal. by apply IH.
  - rewrite filter_cons_False by (by rewrite Eg). by apply IH.
Qed.

(** ** The start of the iterator *)

Lemma seek_good opts k i :
  seek opts (negb (ascending opts)) k = false → key_pos k = idx_pos i → good opts i = false.
Proof.
  intros Hs [= Et Ei]. unfold seek in Hs. rewrite Et, Ei in Hs.
  destruct (negb (AfterReceivedAtUnixN opts =? 0) || negb (seqb (AfterRecordID opts) "")) eqn:Ec.
  - unfold good, RecordIndexAfterCursor. rewrite <- negb_andb in Ec. apply negb_true_iff in Ec. rewrite Ec.
    apply andb_false_iff. right. destruct (ascending opts); cbn [negb] in Hs; bsimpl; lia.
  - apply range_good. destruct (ascending opts); cbn [negb] in Hs; [left|right]; (destruct (0 <? _); [|done]);
      by apply Z.leb_gt, Z.ltb_lt in Hs.
Qed.

Lemma filter_seek s opts es R :
  Forall2 (refers s) es R →
  ∃ R', Forall2 (refers s) (filter (λ e : key * bytes, seek opts (negb (ascending opts)) e.1 = true) es) R' ∧
    R' `sublist_of` R ∧ filter (λ i, good opts i = true) R' = filter (λ i, good opts i = true) R.
Proof.
  induction 1 as [|e i es R He _ (R' & HF & Hsub & Eq)]; [by exists []|].
  destruct (seek opts (negb (ascending opts)) e.1) eqn:Es.
  - exists (i :: R'). rewrite filter_cons_True by done. split_and!; [by constructor|by constructor|].
    rewrite !filter_cons. by rewrite Eq.
  - exists R'. rewrite filter_cons_False by (by rewrite Es). split_and!; [done|by constructor|].
    rewrite filter_cons_False; [done|]. destruct He as (_ & _ & _ & Hp). by rewrite (seek_good _ _ _ Es Hp).
Qed.

(** ** The records of a table *)

Context (placed : string → string * Z).
Let coh := coherent placed.

(** A test of keys that selects one table. *)
Definition selects (p : key → bool) : Prop :=
  (∀ k, p k = true → isRecordByIDKey k = false) ∧
  ∀ k k', p k = true → p k' = true → key_pos k = key_pos k' → k = k'.

Lemma selects_time : selects is_time_key.
Proof. split; [by intros []|]. by intros [] []; try done; intros _ _ [= -> ->]. Qed.

Lemma selects_prefix t v : selects (has_prefix t v).
Proof.
  split; [by intros []|]. intros k k' (? & ? & ->)%has_prefix_true (? & ? & ->)%has_prefix_true.
  by intros [= -> ->].
Qed.

(** What is known of a stored record. *)
Record known (m : mode) (s : Store) (i : Idx.t) : Prop := {
  kn_stored : stored s i.(Idx.RecordID) i;
  kn_id : i.(Idx.RecordID) ≠ "";
  kn_fits : fits placed i;
  kn_level : i.(Idx.ProofLevel) = RecordIndexProofLevel i;
  kn_keys k : k ∈ visitRecordIndexKeys i m → isRecordByIDKey k = false →
    entries s !! k = Some (reference i.(Idx.RecordID)) }.

(** One record for each id that is stored. *)
Definition all_records (s : Store) (R : list Idx.t) : Prop :=
  NoDup (map Idx.RecordID R) ∧
  ∀ id, id ∈ map Idx.RecordID R ↔ is_Some (entries s !! ByID id).

Lemma records_exist m s : coh m (entries s) → ∃ R, all_records s R ∧ Forall (known m s) R.
Proof.
  intros C. set (ids := omap (λ e : key * bytes, match e.1 with ByID id => Some id | _ => None end)
                          (map_to_list (entries s))).
  assert (∀ id, id ∈ ids ↔ is_Some (entries s !! ByID id)) as Hin.
  { intros id. unfold ids. rewrite list_elem_of_omap. split.
    - intros ([k v] & Hk%elem_of_map_to_list & E). destruct k; cbn in E; simplify_eq. by exists v.
    - intros [v Hv]. exists (ByID id, v). by rewrite elem_of_map_to_list. }
  assert (NoDup ids) as Hd.
  { unfold ids. pose proof (NoDup_fst_map_to_list (entries s)) as Hn. clear ids Hin C.
    induction (map_to_list (entries s)) as [|[k v] l IH]; [constructor|]. cbn in *. apply NoDup_cons in Hn as [Hn Hl].
    destruct k; cbn; try by apply IH. apply NoDup_cons. split; [|by apply IH].
    intros ([k' v'] & Hk' & E)%list_elem_of_omap. destruct k'; cbn in E; simplify_eq.
    apply Hn, list_elem_of_fmap. by exists (ByID recordID, v'). }
  assert (Forall (λ id, ∃ i, i.(Idx.RecordID) = id ∧ known m s i) ids) as Hall.
  { apply Forall_forall. intros id [b Hb]%Hin. destruct (co_id _ _ _ C id b Hb) as (i & He & Ei & Hid & Hf & _ & Hl & Hk).
    exists i. split; [done|]. subst id. split; try done. by exists b. }
  apply Forall_exists_Forall2_l in Hall as [R HR]. exists R.
  assert (map Idx.RecordID R = ids) as E by (clear -HR; induction HR as [|? ? ? ? [] _ IH]; cbn; congruence).
  unfold all_records. rewrite E. split; [done|]. clear -HR. induction HR as [|? ? ? ? [] _ IH]; by constructor.
Qed.

Lemma records_unique (R : list Idx.t) i j :
  NoDup (map Idx.RecordID R) → i ∈ R → j ∈ R → i.(Idx.RecordID) = j.(Idx.RecordID) → i = j.
Proof.
  intros Hd (a & Ha)%list_elem_of_lookup (b & Hb)%list_elem_of_lookup E.
  assert (a = b) as ->; [|congruence].
  eapply NoDup_lookup; [exact Hd| |]; rewrite list_lookup_fmap; [by rewrite Ha|]. rewrite Hb. cbn. by rewrite E.
Qed.

Lemma sorted_earlier s es R :
  Forall2 (refers s) es R → StronglySorted scan_le es → NoDup (map (key_pos ∘ fst) es) → StronglySorted earlier R.
Proof.
  intros HF. induction HF as [|e i es R He HF IH]; intros Hs Hd; [constructor|].
  apply StronglySorted_cons in Hs as [Hf Hs]. cbn in Hd. apply NoDup_cons in Hd as [Hn Hd].
  constructor; [by apply IH|]. apply Forall_forall. intros j (n & Hj)%list_elem_of_lookup.
  destruct (Forall2_lookup_r _ _ _ _ _ HF Hj) as (e' & He' & (_ & _ & _ & Hp)). apply list_elem_of_lookup_2 in He'.
  destruct He as (_ & _ & _ & Hp0). unfold earlier. rewrite <- Hp, <- Hp0.
  rewrite Forall_forall in Hf. destruct (proj1 (scan_le_before _ _) (Hf _ He')) as [?|E]; [done|].
  destruct Hn. rewrite E. apply list_elem_of_fmap. by exists e'.
Qed.

Lemma table_records m s R p :
  coh m (entries s) → all_records s R → Forall (known m s) R → selects p →
  ∃ Rp, Forall2 (refers s) (scan p s) Rp ∧ StronglySorted earlier Rp ∧ Rp ⊆ R ∧
    ∀ i k, i ∈ R → k ∈ visitRecordIndexKeys i m → p k = true → i ∈ Rp.
Proof.
  intros C [Hd Hids] Hk [Hp Hinj]. unfold scan. set (l := filter _ (map_to_list _)).
  set (es := merge_sort scan_le l). assert (es ≡ₚ l) as Hperm by apply merge_sort_Permutation.
  assert (∀ k v, (k, v) ∈ es ↔ p k = true ∧ entries s !! k = Some v) as Hin.
  { intros k v. rewrite Hperm. unfold l. by rewrite list_elem_of_filter, elem_of_map_to_list. }
  assert (Forall (λ e, ∃ i, i ∈ R ∧ refers s e i) es) as Hall.
  { apply Forall_forall. intros [k v] [Hpk Hv]%Hin. destruct (co_key _ _ _ C k v Hv (Hp k Hpk)) as (-> & Hs & Ht & _).
    apply Hids, list_elem_of_fmap in Hs as (i & Ei & Hi). exists i. split; [done|].
    rewrite Forall_forall in Hk. destruct (Hk i Hi) as [? ? Hf _ _]. unfold refers, key_pos, idx_pos. cbn.
    split_and!; [by rewrite Ei|done|done|]. rewrite Ht, Ei, Hf. done. }
  apply Forall_exists_Forall2_l in Hall as [Rp HRp]. exists Rp.
  assert (Forall2 (refers s) es Rp) as HF by (eapply Forall2_impl; [exact HRp|]; by intros ? ? []).
  split_and!; [done| | |].
  - apply (sorted_earlier s es); [done|apply StronglySorted_merge_sort; apply _|].
    change (key_pos ∘ fst) with (λ e : key * bytes, key_pos e.1). rewrite <- (map_map fst key_pos). apply NoDup_fmap_2_strong.
    + intros k k' ([? v] & -> & [? _]%Hin)%list_elem_of_fmap ([? v'] & -> & [? _]%Hin)%list_elem_of_fmap. by apply Hinj.
    + change (NoDup (es.*1)). rewrite Hperm. unfold l. eapply sublist_NoDup; [apply (NoDup_fst_map_to_list (entries s))|].
      apply (fmap_sublist fst), sublist_filter.
  - intros i (n & Hi)%list_elem_of_lookup. by destruct (Forall2_lookup_r _ _ _ _ _ HRp Hi) as (e & _ & ? & _).
  - intros i k Hi Hvis Hpk. rewrite Forall_forall in Hk. pose proof (kn_keys _ _ _ (Hk i Hi) k Hvis (Hp k Hpk)) as He.
    assert ((k, reference i.(Idx.RecordID)) ∈ es) as (n & Hn)%list_elem_of_lookup by (by apply Hin).
    destruct (Forall2_lookup_l _ _ _ _ _ HRp Hn) as (j & Hj & Hjr & (_ & _ & _ & [= _ Ej])).
    rewrite (visit_id _ _ _ Hvis) in Ej. rewrite (records_unique R i j) by done. by eapply list_elem_of_lookup_2.
Qed.

(** ** The table that a listing scans holds the records that match *)

Lemma selects_listing m opts : selects (recordListPrefix m opts).
Proof.
  unfold recordListPrefix.
  repeat (destruct (_ && _); [apply selects_prefix|]). apply selects_time.
Qed.

Lemma visit_fields i m :
  i.(Idx.RecordID) ≠ "" →
  let at_ t v := By t v i.(Idx.ReceivedAtUnixN) i.(Idx.RecordID) ∈ visitRecordIndexKeys i m in
  ByTime i.(Idx.ReceivedAtUnixN) i.(Idx.RecordID) ∈ visitRecordIndexKeys i m ∧
  (m ≠ TimeOnly →
    (i.(Idx.BatchID) ≠ "" → at_ ByBatch (bytes_of_string i.(Idx.BatchID))) ∧
    (i.(Idx.ProofLevel) ≠ "" → at_ ByLevel (bytes_of_string i.(Idx.ProofLevel))) ∧
    (i.(Idx.TenantID) ≠ "" → at_ ByTenant (bytes_of_string i.(Idx.TenantID))) ∧
    (i.(Idx.ClientID) ≠ "" → at_ ByClient (bytes_of_string i.(Idx.ClientID))) ∧
    (0 < len i.(Idx.ContentHash) → at_ ByHash i.(Idx.ContentHash))).
Proof.
  intros Hid at_. subst at_. unfold visitRecordIndexKeys. rewrite (proj2 (seqb_false _ _) Hid). split; [set_solver|].
  intros Hm. cbn beta zeta. rewrite (bool_decide_false _ Hm), !elem_of_app, !elem_of_when, !negb_true_iff, !seqb_false, !list_elem_of_singleton, Z.ltb_lt.
  tauto.
Qed.

Lemma good_asked opts i :
  good opts i = true →
  let asked (o x : string) := negb (seqb o "") = true → x = o ∧ o ≠ "" in
  asked (opt_BatchID opts) i.(Idx.BatchID) ∧ asked (opt_TenantID opts) i.(Idx.TenantID) ∧
  asked (opt_ClientID opts) i.(Idx.ClientID) ∧ asked (opt_ProofLevel opts) (RecordIndexProofLevel i) ∧
  ((0 <? len (opt_ContentHash opts)) = true → i.(Idx.ContentHash) = opt_ContentHash opts).
Proof.
  unfold good, RecordIndexMatchesListOptions. intros [E _]%andb_true_iff. cbn zeta in E.
  assert (∀ o x, negb (seqb o "") && negb (seqb x o) = false → negb (seqb o "") = true → x = o ∧ o ≠ "") as Ha.
  { intros o x Hx Ho. rewrite Ho in Hx. cbn in Hx. split; [by apply negb_false_iff, seqb_true in Hx|].
    by apply negb_true_iff, seqb_false in Ho. }
  do 5 (destruct (_ && _) eqn:? in E; [done|]).
  split_and!; try by apply Ha. intros Eh. rewrite Eh in *. cbn in *. by apply bytes_equal_true_iff, negb_false_iff.
Qed.

Lemma good_table m s opts i :
  known m s i → (m = Full → RecordStorageQueryToken (Query opts) = []) → good opts i = true →
  ∃ k, k ∈ visitRecordIndexKeys i m ∧ recordListPrefix m opts k = true.
Proof.
  intros [_ Hid _ Hlv _] Hq (Hb & Ht & Hc & Hl & Hh)%good_asked. destruct (visit_fields i m Hid) as [V0 V].
  assert (bool_decide (m = Full) && negb (len (RecordStorageQueryToken (Query opts)) =? 0) = false) as Eq.
  { case_bool_decide; [|done]. by rewrite Hq. }
  unfold recordListPrefix. rewrite Eq. destruct (decide (m = TimeOnly)) as [-> |Hm].
  { rewrite (bool_decide_true (TimeOnly = TimeOnly)) by done. cbn [negb andb]. eauto. }
  destruct (V Hm) as (Vb & Vl & Vt & Vc & Vh). rewrite (bool_decide_false (m = TimeOnly)) by done. cbn [negb andb].
  assert (∀ t v o, By t (bytes_of_string v) i.(Idx.ReceivedAtUnixN) i.(Idx.RecordID) ∈ visitRecordIndexKeys i m → v = o →
    ∃ k, k ∈ visitRecordIndexKeys i m ∧ has_prefix t (bytes_of_string o) k = true) as Hgo.
  { intros t v o Hv <-. eexists. split; [exact Hv|]. apply has_prefix_true. eauto. }
  destruct (0 <? len (opt_ContentHash opts)) eqn:Eh.
  { rewrite <- (Hh eq_refl) in *. eexists. split; [apply Vh; by apply Z.ltb_lt|]. apply has_prefix_true. eauto. }
  destruct (negb (seqb (opt_BatchID opts) "")). { destruct (Hb eq_refl). apply Hgo with i.(Idx.BatchID); [|done]. apply Vb. congruence. }
  destruct (negb (seqb (opt_ProofLevel opts) "")). { destruct (Hl eq_refl). apply Hgo with i.(Idx.ProofLevel); [|congruence]. apply Vl. congruence. }
  destruct (negb (seqb (opt_TenantID opts) "")). { destruct (Ht eq_refl). apply Hgo with i.(Idx.TenantID); [|done]. apply Vt. congruence. }
  destruct (negb (seqb (opt_ClientID opts) "")). { destruct (Hc eq_refl). apply Hgo with i.(Idx.ClientID); [|done]. apply Vc. congruence. }
  eauto.
Qed.

(** ** Whole listings *)

Lemma sorted_rev {A} (r : A → A → Prop) (l : list A) : StronglySorted r l → StronglySorted (flip r) (rev l).
Proof.
  induction 1 as [|x l _ IH Hf]; [constructor|]. cbn. apply StronglySorted_app. split_and!; [|done|by repeat constructor].
  intros y z Hy ->%list_elem_of_singleton. rewrite Forall_forall in Hf. apply Hf.
  by apply list_elem_of_In, in_rev, list_elem_of_In.
Qed.

Lemma Forall2_rev {A B} (r : A → B → Prop) l k : Forall2 r l k → Forall2 r (rev l) (rev k).
Proof. induction 1; cbn; [constructor|]. apply Forall2_app; [done|]. by repeat constructor. Qed.

Lemma filter_rev {A} (P : A → Prop) `{∀ x, Decision (P x)} (l : list A) : filter P (rev l) = rev (filter P l).
Proof.
  induction l as [|x l IH]; [done|]. cbn [rev]. rewrite filter_app, IH, !filter_cons. cbn.
  destruct (decide (P x)); cbn; [done|by rewrite app_nil_r].
Qed.

Lemma earlier_direction desc (R : list Idx.t) :
  StronglySorted earlier R → StronglySorted (in_direction desc) (if desc then rev R else R).
Proof.
  assert (∀ r r' (l : list Idx.t), (∀ x y, r x y → r' x y) → StronglySorted r l → StronglySorted r' l) as Hi.
  { intros r r' l Hr. induction 1 as [|x l _ IH Hf]; [constructor|]. constructor; [done|]. eapply Forall_impl; [exact Hf|apply Hr]. }
  intros Hs. destruct desc; [apply sorted_rev in Hs|]; (eapply Hi; [|exact Hs]);
    unfold flip, earlier, in_direction; intros x y [?|[? _]]; cbn in *; lia.
Qed.

Lemma sorted_NoDup (R : list Idx.t) : StronglySorted earlier R → NoDup R.
Proof.
  induction 1 as [|i R _ IH Hf]; [constructor|]. constructor; [|done]. intros Hi. rewrite Forall_forall in Hf.
  by apply (before_irrefl (idx_pos i)), Hf.
Qed.

(** Two tables that hold the same matching records list them in the same order. *)
Lemma same_listing (P : Idx.t → Prop) `{∀ i, Decision (P i)} R R' :
  StronglySorted earlier R → StronglySorted earlier R' → (∀ i, P i → i ∈ R ↔ i ∈ R') → filter P R = filter P R'.
Proof.
  intros HR HR' Hin.
  assert (∀ R, StronglySorted earlier R → StronglySorted earlier (filter P R)) as Hf.
  { intros Q. apply sorted_sublist, sublist_filter. }
  eapply StronglySorted_unique_strong; [|by apply Hf..|].
  - intros i j _ _ Hij Hji. destruct (before_irrefl (idx_pos i)). by etrans.
  - apply NoDup_Permutation; [by apply sorted_NoDup, Hf..|]. intros i. rewrite !list_elem_of_filter. naive_solver.
Qed.

Lemma list_coherent s opts l :
  coh (recordIndexMode s) (entries s) →
  (recordIndexMode s = Full → RecordStorageQueryToken (Query opts) = []) →
  ListRecordIndexes opts s = Ok l →
  ∃ R, all_records s R ∧ Forall (λ i, stored s i.(Idx.RecordID) i) R ∧ StronglySorted earlier R ∧
    l = take (Z.to_nat (anchorstore.normaliseRecordLimit (Limit opts)))
          (filter (λ i, good opts i = true) (if ascending opts then R else rev R)).
Proof.
  intros C Hq E. destruct (records_exist _ _ C) as (R0 & HA & HK).
  destruct (table_records _ s R0 is_time_key C HA HK selects_time) as (R & _ & HS & Hsub & Hall).
  destruct (table_records _ s R0 _ C HA HK (selects_listing (recordIndexMode s) opts)) as (Rp & HFp & HSp & Hsubp & Hallp).
  assert (∀ i, i ∈ R ↔ i ∈ R0) as Hin.
  { intros i. split; [apply Hsub|]. intros Hi. rewrite Forall_forall in HK. destruct (visit_fields i (recordIndexMode s)) as [V _].
    { apply (kn_id _ _ _ (HK i Hi)). } by eapply Hall. }
  assert (R ≡ₚ R0) as Hperm.
  { apply NoDup_Permutation; [by apply sorted_NoDup| |done]. destruct HA as [Hd _]. by eapply NoDup_fmap_1. }
  exists R. split_and!.
  - destruct HA as [Hd Hids]. apply (Permutation_map Idx.RecordID) in Hperm.
    split; [by rewrite Hperm|]. intros id. by rewrite Hperm.
  - rewrite Hperm. eapply Forall_impl; [exact HK|]. apply kn_stored.
  - done.
  - assert (filter (λ i, good opts i = true) Rp = filter (λ i, good opts i = true) R) as Eg.
    { apply same_listing; [done..|]. intros i Hg. split; [intros ?; apply Hin; by apply Hsubp|]. intros Hi%Hin.
      rewrite Forall_forall in HK. destruct (good_table _ s opts i (HK i Hi) Hq Hg) as (k & Hk & Hp). by eapply Hallp. }
    destruct (filter_seek s opts _ Rp HFp) as (Rs & HFs & Hss & Es). unfold ListRecordIndexes in E. cbn zeta in E.
    assert (Forall2 (refers s) (rev (filter (λ e : key * bytes, seek opts (negb (ascending opts)) e.1 = true)
      (scan (recordListPrefix (recordIndexMode s) opts) s))) (rev Rs)) as HFr by by apply Forall2_rev.
    pose proof (earlier_direction (negb (ascending opts)) Rs (sorted_sublist _ _ _ Hss HSp)) as Hd.
    destruct (ascending opts); cbn [negb] in *; (eapply loop_spec in E; [|eassumption..]);
      rewrite E, ?filter_rev, Es, Eg; done.
Qed.

(** Every stored record can be decoded. *)
Definition readable (s : Store) : Prop :=
  ∀ id, is_Some (entries s !! ByID id) → ∃ i, readIndex id s = Ok (Some i).

Lemma loop_total s opts desc room values :
  Forall (λ v, ∃ i, readRecordIndexScanValue v s = Ok i) values →
  ∃ l, list_loop opts desc room values s = Ok l.
Proof.
  intros HF. revert room. induction HF as [|v values [i Ei] _ IH]; intros [|room]; cbn [list_loop]; [eauto..|].
  rewrite Ei. cbn. destruct (recordRangeExhausted i opts desc); [eauto|].
  destruct (_ && _); [|apply IH]. destruct (IH room) as [l ->]. cbn. eauto.
Qed.

Lemma list_total s opts :
  coh (recordIndexMode s) (entries s) → readable s → ∃ l, ListRecordIndexes opts s = Ok l.
Proof.
  intros C Hr. apply loop_total, Forall_forall. intros v ([k v'] & -> & Hin)%list_elem_of_fmap.
  assert ((k, v') ∈ scan (recordListPrefix (recordIndexMode s) opts) s) as Hs.
  { destruct (negb (ascending opts)); [apply list_elem_of_In, in_rev, list_elem_of_In in Hin|];
      by apply list_elem_of_filter in Hin as [_ ?]. }
  unfold scan in Hs. rewrite merge_sort_Permutation in Hs.
  apply list_elem_of_filter in Hs as [Hp Hk%elem_of_map_to_list].
  destruct (co_key _ _ _ C k v' Hk) as (-> & Hs & _); [by apply (selects_listing (recordIndexMode s) opts)|].
  cbn [snd]. unfold readRecordIndexScanValue. rewrite decode_reference.
  - destruct (Hr _ Hs) as [i ->]. cbn. eauto.
  - destruct Hs as [b Hb]. by destruct (co_id _ _ _ C _ _ Hb) as (_ & _ & _ & ? & _).
Qed.

(** C27: a listing is exact.  Whichever table it scans, wherever the cursor and
    the time range let the scan start and stop, the answer is the first records,
    at most the limit, of all stored records in the order of their positions
    that satisfy the filter and come after the cursor.  Times are not negative,
    as the order of the keys is that of padded decimals; all writes of a record
    id agree on its batch and time ([placed]), and every stored record can be
    read; a query with a search token in a full index scans the table of tokens
    and is not covered. *)
Theorem list_exact ops m a opts :
  Forall (op_fits placed) ops → (∀ id, 0 <= (placed id).2) →
  (m = Full → RecordStorageQueryToken (Query opts) = []) →
  let s := run ops (empty m a) in
  readable s →
  ∃ R, all_records s R ∧ Forall (λ i, readIndex i.(Idx.RecordID) s = Ok (Some i)) R ∧ StronglySorted earlier R ∧
    ListRecordIndexes opts s =
      Ok (take (Z.to_nat (anchorstore.normaliseRecordLimit (Limit opts)))
            (filter (λ i, RecordIndexMatchesListOptions i opts && RecordIndexAfterCursor i opts = true)
               (if ascending opts then R else rev R))).
Proof.
  intros Ho _ Hq s Hr. destruct (run_coherent placed ops (empty m a) Ho (coherent_empty placed m)) as [[_ Em] C].
  fold s in Em, C. cbn in Em. destruct (list_total s opts C Hr) as [l E].
  destruct (list_coherent s opts l C) as (R & HA & HR & HS & ->); [by rewrite Em|done|].
  exists R. split_and!; try done. eapply Forall_impl; [exact HR|]. intros i (v & Hv & He).
  destruct (Hr i.(Idx.RecordID)) as [j Hj]; [by rewrite Hv|]. rewrite Hj. do 2 f_equal.
  apply read_stored in Hj as (b & Hb & Ha). apply Ha. congruence.
Qed.

End listing.
End recordlisting.
