(* ===== verification/RecordIndexExamples.v ===== *)
(** * The record index: a concrete history

    Two records of one batch and one of another; the first batch is promoted,
    in a full index and in one that keeps the times only. *)

From stdpp Require Import sorting.
From S2P Require Import Prelude TrustErr CryptoSuite Model TrustCrypto Cborx KeyDescriptor Instances ModelSuite.
From S2P Require Import StoreMonad GlobalStore AnchorStore AnchorStoreOps AnchorStoreExamples RecordSearch RecordSearchProofs RecordIndex RecordIndexOps.
From S2P Require Import RecordListing.

Module recordindex_examples.
Import recordindex recordindex_proofs recordindex_ops.

#[local] Instance idx_eq_dec : EqDecision Idx.t.
Proof. solve_decision. Defined.

Definition ex_idx (id level batch : string) (t : Z) : Idx.t :=
  Idx.mk SchemaRecordIndex cryptosuite.INTLV1 id "node-1" "log-1" "tenant" "client" "key" level batch
    0 1000 t [Byte.x01] 1 "" "" "" "" "".

#[local] Instance idx_codec : CborMode Idx.t :=
  table_codec (concat (map (λ l, [ex_idx "r1" l "b1" 10; ex_idx "r2" l "b1" 20; ex_idx "r3" l "b2" 30])
    ["L3"; "L4"; "L5"])).
#[local] Instance idx_exact : CborModeExact Idx.t.
Proof. by apply table_exact. Qed.
#[local] Existing Instance recordsearch_examples.ascii_tables.

Definition ex_placed (id : string) : string * Z :=
  if seqb id "r1" then ("b1", 10) else if seqb id "r2" then ("b1", 20) else ("b2", 30).

Definition ex_ops : list op :=
  [PutChunk false [ex_idx "r1" "" "b1" 10; ex_idx "r2" "" "b1" 20];
   Put (ex_idx "r3" "" "b2" 30);
   Put (ex_idx "r2" "L5" "b1" 20)].

Definition ex_store (m : mode) : Store :=
  run ex_ops (empty m (anchorstore_ops.empty anchorstore_examples.ex_base)).

Lemma ex_fits : Forall (op_fits ex_placed) ex_ops.
Proof. repeat constructor. Qed.

(** The record at L5 keeps its level, the record of the other batch too. *)
Example ex_promotion :
  let s := (PromoteBatchProofLevel "b1" "l4" (ex_store Full)).1 in
  map (λ id, readIndex id s) ["r1"; "r2"; "r3"]
  = [Ok (Some (ex_idx "r1" "L4" "b1" 10)); Ok (Some (ex_idx "r2" "L5" "b1" 20));
     Ok (Some (ex_idx "r3" "L3" "b2" 30))].
Proof. vm_compute. reflexivity. Qed.

Definition ex_after : Store := (PromoteBatchProofLevel "b1" "L4" (ex_store Full)).1.

Lemma ex_after_ok : (PromoteBatchProofLevel "b1" "L4" (ex_store Full)).2 = Ok tt.
Proof. vm_compute. reflexivity. Qed.
Lemma ex_after_eq : PromoteBatchProofLevel "b1" "L4" (ex_store Full) = (ex_after, Ok tt).
Proof. unfold ex_after. rewrite <- ex_after_ok. apply surjective_pairing. Qed.
Lemma ex_r1 : readIndex "r1" (ex_store Full) = Ok (Some (ex_idx "r1" "L3" "b1" 10)).
Proof. vm_compute. reflexivity. Qed.
Lemma ex_r1_promoted : promoted "b1" "L4" (ex_idx "r1" "L3" "b1" 10) = ex_idx "r1" "L4" "b1" 10.
Proof. vm_compute. reflexivity. Qed.

Lemma promote_exact_witness :
  ∃ v, entries ex_after !! ByID "r1" = Some v ∧ cborx.Marshal (ex_idx "r1" "L4" "b1" 10) = Ok v.
Proof.
  rewrite <- ex_r1_promoted.
  exact (promote_exact ex_placed ex_ops Full _ "b1" "L4" ex_after "r1" _ ex_fits ltac:(discriminate)
    ex_after_eq ex_r1).
Defined.

Lemma ex_r1_time_only : readIndex "r1" (ex_store TimeOnly) = Ok (Some (ex_idx "r1" "L3" "b1" 10)).
Proof. vm_compute. reflexivity. Qed.

Lemma promote_time_only_witness :
  PromoteBatchProofLevel "b1" "L4" (ex_store TimeOnly) = (ex_store TimeOnly, Ok tt) ∧
  readIndex "r1" (ex_store TimeOnly) = Ok (Some (ex_idx "r1" "L3" "b1" 10)).
Proof.
  split; [|exact ex_r1_time_only].
  apply (promote_time_only ex_placed ex_ops (anchorstore_ops.empty anchorstore_examples.ex_base) "b1" "L4");
    [exact ex_fits|discriminate|vm_compute; discriminate].
Defined.

End recordindex_examples.

(** * Listings of the record index: concrete queries

    The store of [RecordIndexExamples], listed by batch and by a search in the
    three modes of the index. *)

Module recordlisting_examples.
Import recordsearch recordindex recordindex_proofs recordindex_ops recordindex_examples recordlisting.

#[local] Existing Instance idx_eq_dec.
#[local] Existing Instance idx_codec.
#[local] Existing Instance idx_exact.
#[local] Existing Instance recordsearch_examples.ascii_tables.

Definition ex_opts (direction batch query : string) (limit from : Z) : RecordListOptions :=
  mkOptions limit direction batch "" "" "" query [] from 0 0 "".

Definition listed (m : mode) (opts : RecordListOptions) : result (list string) :=
  l ← ListRecordIndexes opts (ex_store m); Ok (map Idx.RecordID l).

Example ex_list :
  map (listed Full) [ex_opts "" "b1" "" 0 0; ex_opts "ASC" "" "" 2 0; ex_opts "asc" "" "" 0 15]
  = [Ok ["r2"; "r1"]; Ok ["r1"; "r2"]; Ok ["r2"; "r3"]].
Proof. vm_compute. reflexivity. Qed.

(** A search for a tenant finds its records unless the index is full: only
    file names and storage addresses have tokens there. *)
Example ex_query_modes :
  map (λ m, listed m (ex_opts "asc" "" "tenant" 0 0)) [Full; NoStorageTokens; TimeOnly]
  = [Ok []; Ok ["r1"; "r2"; "r3"]; Ok ["r1"; "r2"; "r3"]].
Proof. vm_compute. reflexivity. Qed.

Definition all_readable (s : Store) : bool :=
  forallb (λ e : key * bytes, match e.1 with
    | ByID id => match readIndex id s with Ok (Some _) => true | _ => false end
    | _ => true
    end) (map_to_list (entries s)).

Lemma all_readable_spec s : all_readable s = true → readable s.
Proof.
  unfold all_readable. rewrite forallb_forall. intros Ha id [v Hv%elem_of_map_to_list%list_elem_of_In].
  specialize (Ha _ Hv). cbn in Ha. destruct (readIndex id s) as [[i|]|]; try done. eauto.
Qed.

Lemma ex_readable : readable (ex_store Full).
Proof. apply all_readable_spec. vm_compute. reflexivity. Qed.
Lemma ex_times id : 0 <= (ex_placed id).2.
Proof. unfold ex_placed. repeat (destruct (seqb _ _); [done|]). done. Qed.

Lemma ex_no_token : RecordStorageQueryToken (Query (ex_opts "" "b1" "" 1 0)) = [].
Proof. vm_compute. reflexivity. Qed.

Lemma list_exact_witness :
  ∃ R, all_records (ex_store Full) R ∧ StronglySorted earlier R ∧
    ListRecordIndexes (ex_opts "" "b1" "" 1 0) (ex_store Full) =
      Ok (take 1 (filter (λ i, RecordIndexMatchesListOptions i (ex_opts "" "b1" "" 1 0)
                               && RecordIndexAfterCursor i (ex_opts "" "b1" "" 1 0) = true) (rev R))).
Proof.
  destruct (list_exact ex_placed ex_ops Full (anchorstore_ops.empty anchorstore_examples.ex_base)
    (ex_opts "" "b1" "" 1 0) ex_fits ex_times (λ _, ex_no_token) ex_readable) as (R & HA & _ & HS & E).
  exists R. split; [exact HA|]. split; [exact HS|exact E].
Defined.

End recordlisting_examples.
