(* ===== verification/Outbox.v ===== *)
(** * The global-log outbox

    Models [src/internal/globallog/outbox.go], the worker that appends the
    roots of committed batches to the global log, and the outbox tables of
    [src/internal/proofstore/pebble/store.go] it runs on: the items by batch,
    and the same bytes under their status and under their stream.  A publication
    also schedules an anchor candidate and raises the records of the batches to
    L4, so that the store contains those of [AnchorStore] and [RecordIndex].

    Cancelled contexts, metrics, logging and the callbacks are not modelled; the
    loop of [run] calls [tick] and does nothing else to the store.  The key of a
    status entry orders by a time, taken to be non-negative, and by the batch. *)

From stdpp Require Import sorting.
From S2P Require Import Prelude TrustErr CryptoSuite Model TrustCrypto Cborx KeyDescriptor ModelSuite.
From S2P Require Import StoreMonad Merkle GlobalStore GlobalLog AnchorSchedule L5Coverage AnchorStore RecordSearch RecordIndex.

Module Item := GlobalLogOutboxItem.
Module Root := BatchRoot.

(** [error.Error()], whose text the worker stores with a failed item. *)
Class ErrorText := error_text : error → string.

Module outbox.

Definition AnchorStatePending : string := "pending".
Definition AnchorStatePublished : string := "published".

(** ** The tables *)

Definition status_key : Type := string * Z * string.
Definition stream_key : Type := string * string * string * Z * string.

Record Store := mkStore {
  index : recordindex.Store;
  items : gmap string bytes;
  byStatus : gmap status_key bytes;
  byStream : gmap stream_key bytes }.

Definition put_index (i : recordindex.Store) (s : Store) : Store :=
  mkStore i (items s) (byStatus s) (byStream s).
Definition anchors (s : Store) : anchorstore.Store := recordindex.anchors (index s).
Definition put_anchors (a : anchorstore.Store) (s : Store) : Store :=
  put_index (recordindex.put_anchors a (index s)) s.
Definition base (s : Store) : pebble.Store := anchorstore.base (anchors s).
Definition put_base (b : pebble.Store) (s : Store) : Store :=
  let a := anchors s in
  put_anchors (anchorstore.mkStore b (anchorstore.results a) (anchorstore.latest a)
    (anchorstore.treeRoots a) (anchorstore.schedules a) (anchorstore.coverage a)) s.

Inductive write :=
| SetItem (batchID : string) (value : bytes)
| SetStatus (k : status_key) (value : bytes)
| DeleteStatus (k : status_key)
| SetStream (k : stream_key) (value : bytes)
| DeleteStream (k : stream_key).

Definition apply (s : Store) (w : write) : Store :=
  match w with
  | SetItem b v => mkStore (index s) (<[b := v]> (items s)) (byStatus s) (byStream s)
  | SetStatus k v => mkStore (index s) (items s) (<[k := v]> (byStatus s)) (byStream s)
  | DeleteStatus k => mkStore (index s) (items s) (delete k (byStatus s)) (byStream s)
  | SetStream k v => mkStore (index s) (items s) (byStatus s) (<[k := v]> (byStream s))
  | DeleteStream k => mkStore (index s) (items s) (byStatus s) (delete k (byStream s))
  end.

Definition Commit (batch : list write) : io Store unit := modify (λ s, foldl apply s batch).

Definition globalStatusSortUnixN (item : Item.t) : Z :=
  if seqb item.(Item.Status) AnchorStatePending then
    (if 0 <? item.(Item.NextAttemptUnixN) then item.(Item.NextAttemptUnixN)
     else item.(Item.EnqueuedAtUnixN))
  else if seqb item.(Item.Status) AnchorStatePublished then
    (if 0 <? item.(Item.CompletedAtUnixN) then item.(Item.CompletedAtUnixN)
     else item.(Item.LastAttemptUnixN))
  else item.(Item.EnqueuedAtUnixN).

Definition globalStatusKey (item : Item.t) : status_key :=
  (item.(Item.Status), globalStatusSortUnixN item, item.(Item.BatchID)).

Definition globalStreamStatusKey (item : Item.t) : stream_key :=
  (item.(Item.Status), item.(Item.BatchRoot).(Root.NodeID), item.(Item.BatchRoot).(Root.LogID),
   globalStatusSortUnixN item, item.(Item.BatchID)).

Section store.
Context `{KeyDescriptorLib, FiscoLib, CborMode Item.t, CborMode Res.t, CborMode Ref.t, CborMode Sch.t}.
Context `{CborMode Idx.t, UnicodeLib}.

Definition requireSuite (value : modelsuite.Any) : io Store unit :=
  reads (λ s, pebble.requireSuite (base s) value).

Definition fill_item (batchID : string) (now : Z) (item : Item.t) : Item.t :=
  Item.mk (pebble.default_string SchemaGlobalLogOutbox item.(Item.SchemaVersion)) item.(Item.CryptoSuite)
    batchID item.(Item.BatchRoot) (pebble.default_string AnchorStatePending item.(Item.Status))
    item.(Item.STH) item.(Item.Attempts) (pebble.default_int now item.(Item.EnqueuedAtUnixN))
    item.(Item.NextAttemptUnixN) item.(Item.LastAttemptUnixN) item.(Item.LastErrorMessage)
    item.(Item.CompletedAtUnixN).

Definition set_item (item : Item.t) (data : bytes) : list write :=
  [SetStatus (globalStatusKey item) data; SetStream (globalStreamStatusKey item) data].

Definition unset_item (item : Item.t) : list write :=
  [DeleteStatus (globalStatusKey item); DeleteStream (globalStreamStatusKey item)].

Definition EnqueueGlobalLog (item : Item.t) : io Store unit :=
  _ ← requireSuite (modelsuite.AnyGlobalLogOutboxItem item);
  let batchID := pebble.default_string item.(Item.BatchRoot).(Root.BatchID) item.(Item.BatchID) in
  if seqb batchID ""
  then lift (Err (New CodeInvalidArgument "global log outbox batch_id is required")) else
  now ← reads (λ s, Ok (pebble.now (base s)));
  let item := fill_item batchID now item in
  _ ← reads (λ s, match items s !! batchID with
                  | Some _ => Err (New CodeAlreadyExists "global log outbox item already exists")
                  | None => Ok tt
                  end);
  data ← lift (wrap_err CodeDataLoss "encode global log outbox item" (cborx.Marshal item));
  Commit (SetItem batchID data :: set_item item data).

Definition GetGlobalLogOutboxItem (batchID : string) (s : Store) : result (option Item.t) :=
  if seqb batchID "" then Err (New CodeInvalidArgument "batch_id is required") else
  wrap_err CodeDataLoss "read global log outbox item" (anchorstore.readCBOR (items s !! batchID)).

(** ** Listing *)

(** The visits of a scan: at the limit and at the first item that is not due
    the scan stops. *)
Fixpoint visit_pending (nowUnixN : Z) (room : nat) (values : list bytes) : result (list Item.t) :=
  match values, room with
  | [], _ | _, O => Ok []
  | value :: rest, S room =>
      item ← cborx.UnmarshalLimit value anchorstore.maxStoredObjectBytes;
      if nowUnixN <? item.(Item.NextAttemptUnixN) then Ok [] else
      listed ← visit_pending nowUnixN room rest;
      Ok (item :: listed)
  end.

Definition entry_le {K} (time : K → Z) (id : K → string) (a b : K * bytes) : Prop :=
  time a.1 < time b.1 ∨ time a.1 = time b.1 ∧ String.leb (id a.1) (id b.1) = true.
#[global] Instance entry_le_dec {K} time id (a b : K * bytes) : Decision (entry_le time id a b).
Proof. unfold entry_le. apply _. Defined.

Definition stream_time (k : stream_key) : Z := k.1.2.
Definition stream_id (k : stream_key) : string := k.2.
Definition in_stream (status nodeID logID : string) (k : stream_key) : bool :=
  seqb k.1.1.1.1 status && seqb k.1.1.1.2 nodeID && seqb k.1.1.2 logID.
Definition status_time (k : status_key) : Z := k.1.2.
Definition status_id (k : status_key) : string := k.2.

(** The entries below a prefix, in key order. *)
Definition scan_stream (status nodeID logID : string) (s : Store) : list (stream_key * bytes) :=
  merge_sort (entry_le stream_time stream_id)
    (filter (λ e : stream_key * bytes, in_stream status nodeID logID e.1 = true)
       (map_to_list (byStream s))).
Definition scan_status (status : string) (s : Store) : list (status_key * bytes) :=
  merge_sort (entry_le status_time status_id)
    (filter (λ e : status_key * bytes, e.1.1.1 = status) (map_to_list (byStatus s))).

Definition listPendingGlobalLogPrefix (values : list bytes) (nowUnixN limit : Z) : result (list Item.t) :=
  let limit := if limit <=? 0 then 100 else limit in
  wrap_err CodeDataLoss "list pending global log outbox"
    (visit_pending nowUnixN (Z.to_nat limit) values).

Definition ListPendingGlobalLog (nowUnixN limit : Z) (s : Store) : result (list Item.t) :=
  listPendingGlobalLogPrefix (map snd (scan_status AnchorStatePending s)) nowUnixN limit.

Definition ListPendingGlobalLogForStream (nodeID logID : string) (nowUnixN limit : Z) (s : Store)
  : result (list Item.t) :=
  listPendingGlobalLogPrefix (map snd (scan_stream AnchorStatePending nodeID logID s)) nowUnixN limit.

(** ** Publication *)

(** The slices of batch ids and heads, as one list of pairs: a repeated batch
    keeps its first position and takes the later head. *)
Fixpoint coalesce_one (batchID : string) (sth : Sth.t) (acc : list (string * Sth.t))
  : list (string * Sth.t) :=
  match acc with
  | [] => [(batchID, sth)]
  | (b, h) :: rest =>
      if seqb b batchID then (b, sth) :: rest else (b, h) :: coalesce_one batchID sth rest
  end.

Definition coalescePebbleGlobalLogPublicationInputs (batchIDs : list string) (sths : list Sth.t)
  : list (string * Sth.t) :=
  foldl (λ acc p, coalesce_one p.1 p.2 acc) [] (zip batchIDs sths).

Fixpoint validatePebbleGlobalLogPublicationItems (pairs : list (string * Sth.t)) (s : Store)
  : result unit :=
  match pairs with
  | [] => Ok tt
  | (batchID, sth) :: rest =>
      found ← GetGlobalLogOutboxItem batchID s;
      match found with
      | None => Err (New CodeNotFound "global log outbox item not found")
      | Some item =>
          if negb (seqb item.(Item.BatchID) batchID)
          then Err (New CodeDataLoss "global log outbox key does not match item") else
          if seqb item.(Item.Status) AnchorStatePending
          then validatePebbleGlobalLogPublicationItems rest s else
          if seqb item.(Item.Status) AnchorStatePublished then
            if negb (anchorschedule.SameTarget item.(Item.STH) sth)
            then Err (New CodeDataLoss "published global log outbox STH does not match retry")
            else validatePebbleGlobalLogPublicationItems rest s
          else Err (New CodeDataLoss "global log outbox item has invalid status")
      end
  end.

Definition preparePebbleGlobalLogPublication (pairs : list (string * Sth.t)) (candidate : option Cand.t)
  : io Store unit :=
  _ ← reads (validatePebbleGlobalLogPublicationItems pairs);
  match candidate with
  | None => mret tt
  | Some c => _ ← zoom anchors put_anchors (anchorstore.commitCandidateLocked c); mret tt
  end.

Definition published_item (item : Item.t) (sth : Sth.t) (now : Z) : Item.t :=
  Item.mk item.(Item.SchemaVersion) item.(Item.CryptoSuite) item.(Item.BatchID) item.(Item.BatchRoot)
    AnchorStatePublished sth item.(Item.Attempts) item.(Item.EnqueuedAtUnixN) 0 now "" now.

Fixpoint stage_published (now : Z) (pairs : list (string * Sth.t)) (s : Store) : result (list write) :=
  match pairs with
  | [] => Ok []
  | (batchID, sth) :: rest =>
      found ← GetGlobalLogOutboxItem batchID s;
      match found with
      | None => Err (New CodeNotFound "global log outbox item not found")
      | Some item =>
          if seqb item.(Item.Status) AnchorStatePublished then stage_published now rest s else
          let next := published_item item sth now in
          data ← wrap_err CodeDataLoss "encode global log outbox item" (cborx.Marshal next);
          staged ← stage_published now rest s;
          Ok (SetItem next.(Item.BatchID) data :: unset_item item ++ set_item next data ++ staged)
      end
  end.

Definition publishPebbleGlobalLogOutboxBatch (pairs : list (string * Sth.t)) : io Store unit :=
  _ ← reads (validatePebbleGlobalLogPublicationItems pairs);
  batch ← reads (λ s, stage_published (pebble.now (base s)) pairs s);
  Commit batch.

Fixpoint requireSTHs (sths : list Sth.t) : io Store unit :=
  match sths with
  | [] => mret tt
  | sth :: rest =>
      _ ← io_wrap CodeInvalidArgument "published STH %d" (requireSuite (modelsuite.AnySignedTreeHead sth));
      requireSTHs rest
  end.

(** The checks on a candidate before anything is written. *)
Definition check_candidate (pairs : list (string * Sth.t)) (candidate : option Cand.t) : result unit :=
  match candidate with
  | None => Ok tt
  | Some c =>
      _ ← anchorschedule.ValidateCandidate c;
      '(_, highest) ← anchorschedule.SelectPublicationTargets (map snd pairs) 0;
      if negb (anchorschedule.SameTarget c.(Cand.STH) highest)
      then Err (New CodeInvalidArgument "anchor candidate must be the highest published STH")
      else Ok tt
  end.

Definition markGlobalLogPublishedBatch (batchIDs : list string) (sths : list Sth.t)
    (candidate : option Cand.t) : io Store unit :=
  if (len batchIDs =? 0) || negb (len batchIDs =? len sths)
  then lift (Err (New CodeInvalidArgument "global log published batch inputs are inconsistent")) else
  _ ← requireSTHs sths;
  _ ← match candidate with
      | Some c => requireSuite (modelsuite.AnySTHAnchorCandidate c)
      | None => mret tt
      end;
  let pairs := coalescePebbleGlobalLogPublicationInputs batchIDs sths in
  _ ← lift (check_candidate pairs candidate);
  _ ← preparePebbleGlobalLogPublication pairs candidate;
  _ ← for_each (λ p : string * Sth.t,
        io_wrap CodeDataLoss "promote global log batch records to L4"
          (zoom index put_index (recordindex.promoteBatchRecords p.1 "L4"))) pairs;
  publishPebbleGlobalLogOutboxBatch pairs.

Definition MarkGlobalLogPublished (batchID : string) (sth : Sth.t) : io Store unit :=
  markGlobalLogPublishedBatch [batchID] [sth] None.
Definition MarkGlobalLogPublishedBatch (batchIDs : list string) (sths : list Sth.t) : io Store unit :=
  markGlobalLogPublishedBatch batchIDs sths None.
Definition MarkGlobalLogPublishedBatchWithAnchorCandidate (batchIDs : list string) (sths : list Sth.t)
    (candidate : Cand.t) : io Store unit :=
  markGlobalLogPublishedBatch batchIDs sths (Some candidate).

(** ** Rescheduling *)

Definition replaceGlobalLogOutbox (old next : Item.t) : io Store unit :=
  data ← lift (wrap_err CodeDataLoss "encode global log outbox item" (cborx.Marshal next));
  Commit (SetItem next.(Item.BatchID) data
          :: (if negb (seqb old.(Item.BatchID) "") && negb (seqb old.(Item.Status) "")
              then unset_item old else [])
          ++ set_item next data).

Definition retry_item (item : Item.t) (attempts nextAttemptUnixN now : Z) (message : string) : Item.t :=
  Item.mk item.(Item.SchemaVersion) item.(Item.CryptoSuite) item.(Item.BatchID) item.(Item.BatchRoot)
    AnchorStatePending item.(Item.STH) attempts item.(Item.EnqueuedAtUnixN) nextAttemptUnixN now message
    item.(Item.CompletedAtUnixN).

Definition RescheduleGlobalLog (batchID : string) (attempts nextAttemptUnixN : Z) (message : string)
  : io Store unit :=
  found ← reads (GetGlobalLogOutboxItem batchID);
  match found with
  | None => lift (Err (New CodeNotFound "global log outbox item not found"))
  | Some item =>
      now ← reads (λ s, Ok (pebble.now (base s)));
      replaceGlobalLogOutbox item (retry_item item attempts nextAttemptUnixN now message)
  end.

End store.

(** ** The worker *)

Definition millisecond : Z := 1000000.
Definition second : Z := 1000 * millisecond.
Definition minute : Z := 60 * second.

Definition defaultOutboxPollInterval : Z := 500 * millisecond.
Definition defaultOutboxBatchSize : Z := 128.
Definition defaultOutboxInitialBackoff : Z := 100 * millisecond.
Definition defaultOutboxMaxBackoff : Z := minute.
Definition defaultAnchorMaxDelay : Z := 5 * minute.

(** [OutboxConfig] without the store, the global log, the callbacks and the
    clock; durations in nanoseconds. *)
Record OutboxConfig := mkConfig {
  AnchorKey : option SKey.t;
  AnchorMaxDelay : Z;
  PollInterval : Z;
  BatchSize : Z;
  InitialBackoff : Z;
  MaxBackoff : Z }.

Definition applyDefaults (c : OutboxConfig) : OutboxConfig :=
  let initial := if InitialBackoff c <=? 0 then defaultOutboxInitialBackoff else InitialBackoff c in
  {| AnchorKey := AnchorKey c;
     AnchorMaxDelay :=
       match AnchorKey c with
       | Some _ => if AnchorMaxDelay c <=? 0 then defaultAnchorMaxDelay else AnchorMaxDelay c
       | None => AnchorMaxDelay c
       end;
     PollInterval := if PollInterval c <=? 0 then defaultOutboxPollInterval else PollInterval c;
     BatchSize := if BatchSize c <=? 0 then defaultOutboxBatchSize else BatchSize c;
     InitialBackoff := initial;
     MaxBackoff := if MaxBackoff c <? initial then defaultOutboxMaxBackoff else MaxBackoff c |}.

(** [for i := 1; i < attempts && delay < max; i++]; [delay] doubles in [int64]. *)
Fixpoint backoff_loop (rounds : nat) (max delay : Z) : Z :=
  match rounds with
  | O => if max <? delay then max else delay
  | S rounds =>
      if delay <? max then
        if Z.quot max 2 <? delay then max else backoff_loop rounds max (i64 (delay * 2))
      else if max <? delay then max else delay
  end.

Definition outboxBackoff (initial max attempts : Z) : Z :=
  if attempts <=? 1 then initial else backoff_loop (Z.to_nat (attempts - 1)) max initial.

(** How a tick ends. *)
Inductive outcome :=
| Idle
| Refused (message : string)
| Hung
| Rescheduled (cause : error)
| Published (batchIDs : list string) (anchorReady : bool).

Section worker.
Context `{HashLib, SigLib, KeyDescriptorLib, FiscoLib, UnicodeLib, ErrorText}.
Context `{CborMode GlobalLogLeaf.t, CborMode GlobalLogState.t, CborMode SignedTreeHead.t,
  CborMode GlobalLogNode.t, CborMode GlobalLogTile.t}.
Context `{CborMode Item.t, CborMode Res.t, CborMode Ref.t, CborMode Sch.t, CborMode Idx.t}.

(** What the append is given besides the roots: the fuel, the clock of the
    service, and what other writers of the log do between two attempts. *)
Record append_env := mkEnv {
  fuel : nat;
  clock : nat → Z;
  ticks : nat → nat;
  others : nat → pebble.Store → pebble.Store }.

Definition AppendBatchRoots (env : append_env) (svc : globallog.Service) (roots : list Root.t) (s : Store)
  : Store * globallog.append_outcome :=
  let '(b, o) := @globallog.AppendBatchRoots _ _ _ _ pebble.Store (pebble.pebble_store None None)
                   (fuel env) svc (clock env) (ticks env) (others env) (base s) roots in
  (put_base b s, o).

Fixpoint rescheduleAll (cfg : OutboxConfig) (Clock : nat → Z) (n : nat) (its : list Item.t)
    (cause : error) (s : Store) : Store :=
  match its with
  | [] => s
  | item :: rest =>
      let nextAttempts := i64 (item.(Item.Attempts) + 1) in
      let backoff := outboxBackoff (InitialBackoff cfg) (MaxBackoff cfg) nextAttempts in
      let nextAttempt := i64 (Clock n + backoff) in
      rescheduleAll cfg Clock (S n) rest cause
        (RescheduleGlobalLog item.(Item.BatchID) nextAttempts nextAttempt (error_text cause) s).1
  end.

(** The tree size that the schedule and the latest result already cover. *)
Definition coveredTreeSize (schedule : option Sch.t) (latest : option Res.t) : Z :=
  let n := match schedule with
           | Some sch =>
               let n := match sch.(Sch.InFlight) with
                        | Some a => a.(Att.Target).(Sth.TreeSize) | None => 0 end in
               match sch.(Sch.Pending) with
               | Some w => if n <? w.(Win.Target).(Sth.TreeSize) then w.(Win.Target).(Sth.TreeSize) else n
               | None => n
               end
           | None => 0
           end in
  match latest with
  | Some r => if n <? r.(Res.TreeSize) then r.(Res.TreeSize) else n
  | None => n
  end.

(** [time.Unix(0, n).UTC().UnixNano()] is [n]; adding a delay wraps. *)
Definition mk_candidate (cfg : OutboxConfig) (key : SKey.t) (windowStart target : Sth.t) : Cand.t :=
  Cand.mk key target windowStart.(Sth.TimestampUnixN)
    (i64 (windowStart.(Sth.TimestampUnixN) + AnchorMaxDelay cfg)).

Definition publish_with_anchor (cfg : OutboxConfig) (key : SKey.t) (batchIDs : list string)
    (sths : list Sth.t) : io Store unit :=
  schedule ← reads (λ s, anchorstore.GetSTHAnchorSchedule key (anchors s));
  latest ← zoom anchors put_anchors (anchorstore.LatestSTHAnchorResultForKey key);
  '(windowStart, target) ←
    lift (anchorschedule.SelectPublicationTargets sths (coveredTreeSize schedule latest));
  MarkGlobalLogPublishedBatchWithAnchorCandidate batchIDs sths (mk_candidate cfg key windowStart target).

Definition processBatch (cfg : OutboxConfig) (svc : globallog.Service) (env : append_env)
    (Clock : nat → Z) (its : list Item.t) (s : Store) : Store * outcome :=
  if len its =? 0 then (s, Idle) else
  let roots := map Item.BatchRoot its in
  let batchIDs := map Item.BatchID its in
  match AppendBatchRoots env svc roots s with
  | (s, globallog.NoReturn) => (s, Hung)
  | (s, globallog.Failed _ e) => (rescheduleAll cfg Clock 1 its e s, Rescheduled e)
  | (s, globallog.Appended sths) =>
      if negb (len sths =? len its)
      then (s, Refused "global log outbox: append returned inconsistent STH count") else
      if existsb (λ h : Sth.t, negb (seqb h.(Sth.NodeID) (globallog.nodeID svc))
                       || negb (seqb h.(Sth.LogID) (globallog.logID svc))) sths
      then (s, Refused "global log outbox: append returned a foreign stream STH") else
      match AnchorKey cfg with
      | Some key =>
          match publish_with_anchor cfg key batchIDs sths s with
          | (s, Ok _) => (s, Published batchIDs true)
          | (s, Err e) => (s, Refused (error_text e))
          end
      | None =>
          match MarkGlobalLogPublishedBatch batchIDs sths s with
          | (s, Ok _) => (s, Published batchIDs false)
          | (s, Err e) => (s, Refused (error_text e))
          end
      end
  end.

Definition tick (cfg : OutboxConfig) (svc : globallog.Service) (env : append_env) (Clock : nat → Z)
    (s : Store) : Store * outcome :=
  let nodeID := globallog.nodeID svc in
  let logID := globallog.logID svc in
  let foreign :=
    match AnchorKey cfg with
    | Some key => negb (seqb key.(SKey.NodeID) nodeID) || negb (seqb key.(SKey.LogID) logID)
    | None => false
    end in
  if (foreign : bool)
  then (s, Refused "global log outbox: anchor schedule identity does not match signer") else
  match ListPendingGlobalLogForStream nodeID logID (Clock 0%nat) (BatchSize cfg) s with
  | Err e => (s, Refused (error_text e))
  | Ok its =>
      if existsb (λ i : Item.t, negb (seqb i.(Item.BatchRoot).(Root.NodeID) nodeID)
                       || negb (seqb i.(Item.BatchRoot).(Root.LogID) logID)) its
      then (s, Refused "global log outbox: scoped listing returned a foreign stream item") else
      processBatch cfg svc env Clock its s
  end.

End worker.
End outbox.
