(* ===== verification/OutboxOps.v ===== *)
(** * The outbox tables are one map of items

    [rep s m] says that the tables of the store [s] hold the items [m]: each
    item under its batch, and its bytes under the status and the stream it has
    now and under no other.  Every operation of the store is an update of the
    map. *)

From stdpp Require Import sorting.
From S2P Require Import Prelude TrustErr CryptoSuite Model TrustCrypto Cborx KeyDescriptor ModelSuite.
From S2P Require Import StoreMonad GlobalStore AnchorSchedule AnchorStore AnchorStoreProofs RecordSearch RecordIndex Outbox.
From S2P Require Import Rfc6962 Merkle GlobalLog GlobalLogProofs.
From S2P Require Import AnchorScheduleProofs L5Coverage AnchorStoreOps.
From S2P Require Import RecordIndexOps.

Module outbox_proofs.
Import outbox.
Import anchorstore_proofs (encodes, readCBOR_exact).

Section proofs.
Context `{KeyDescriptorLib, FiscoLib, CborMode Item.t, CborMode Res.t, CborMode Ref.t, CborMode Sch.t}.
Context `{CborMode Idx.t, UnicodeLib, !CborModeExact Item.t}.

Record rep (s : Store) (m : gmap string Item.t) : Prop := {
  r_items b it : m !! b = Some it → ∃ v, items s !! b = Some v ∧ encodes v it;
  r_none b : m !! b = None → items s !! b = None;
  r_wf b it : m !! b = Some it → it.(Item.BatchID) = b ∧ b ≠ "" ∧ it.(Item.Status) ≠ "";
  r_stream k v : byStream s !! k = Some v ↔
    ∃ it, m !! it.(Item.BatchID) = Some it ∧ items s !! it.(Item.BatchID) = Some v ∧
          k = globalStreamStatusKey it;
  r_status k v : byStatus s !! k = Some v ↔
    ∃ it, m !! it.(Item.BatchID) = Some it ∧ items s !! it.(Item.BatchID) = Some v ∧
          k = globalStatusKey it }.

Lemma rep_empty i : rep (mkStore i ∅ ∅ ∅) ∅.
Proof.
  constructor; cbn; try (intros *; rewrite !lookup_empty; naive_solver).
  all: intros k v; rewrite lookup_empty; split; [done|intros (? & ? & _)]; by rewrite lookup_empty in *.
Qed.

(** An index of the items under a key that names the batch stays one when an
    item replaces another. *)
Lemma index_write {K} `{Countable K} (key : Item.t → K) (id : K → string) (m : gmap string Item.t)
    (its : gmap string bytes) (idx : gmap K bytes) it v :
  (∀ i, id (key i) = i.(Item.BatchID)) →
  (∀ k v, idx !! k = Some v ↔ ∃ i, m !! i.(Item.BatchID) = Some i ∧ its !! i.(Item.BatchID) = Some v ∧ k = key i) →
  (∀ b i, m !! b = Some i → i.(Item.BatchID) = b) →
  let idx' := <[key it := v]> (match m !! it.(Item.BatchID) with Some old => delete (key old) idx | None => idx end) in
  ∀ k w, idx' !! k = Some w ↔
    ∃ i, <[it.(Item.BatchID) := it]> m !! i.(Item.BatchID) = Some i ∧
         <[it.(Item.BatchID) := v]> its !! i.(Item.BatchID) = Some w ∧ k = key i.
Proof.
  intros Hid Hidx Hwf idx' k w.
  assert (∀ k w, (match m !! it.(Item.BatchID) with Some old => delete (key old) idx | None => idx end) !! k = Some w ↔
    idx !! k = Some w ∧ id k ≠ it.(Item.BatchID)) as Hdel.
  { intros k' w'. split.
    - intros Hk. assert (idx !! k' = Some w') as Hk'.
      { destruct (m !! _); [|done]. by apply lookup_delete_Some in Hk as [_ ?]. }
      split; [done|]. intros E. apply Hidx in Hk' as (i & Hi & _ & ->). rewrite Hid in E. rewrite E in Hi.
      rewrite Hi in Hk. by rewrite lookup_delete_eq in Hk.
    - intros [Hk Hne]. destruct (m !! _) as [old|] eqn:Eo; [|done]. rewrite lookup_delete_ne; [done|].
      intros <-. apply Hne. rewrite Hid. by apply Hwf. }
  unfold idx'. rewrite lookup_insert_Some. setoid_rewrite Hdel. rewrite Hidx. split.
  - intros [[<- <-]|[Hne [(i & Hi & Hv & ->) Hb]]].
    + exists it. by rewrite !lookup_insert_eq.
    + exists i. rewrite Hid in Hb. by rewrite !lookup_insert_ne.
  - intros (i & Hi & Hv & ->). destruct (decide (i.(Item.BatchID) = it.(Item.BatchID))) as [E|Hb].
    + rewrite E in Hi, Hv. rewrite lookup_insert_eq in Hi. rewrite lookup_insert_eq in Hv. left. split; congruence.
    + rewrite lookup_insert_ne in Hi by done. rewrite lookup_insert_ne in Hv by done. right.
      assert (id (key i) ≠ it.(Item.BatchID)) as Hn by (by rewrite Hid).
      split; [|split; [by exists i|done]]. intros E. apply Hn. by rewrite <- E, Hid.
Qed.

(** The writes of an item in place of the one its batch has. *)
Definition replace_writes (m : gmap string Item.t) (it : Item.t) (v : bytes) : list write :=
  SetItem it.(Item.BatchID) v
  :: match m !! it.(Item.BatchID) with Some old => unset_item old | None => [] end ++ set_item it v.

Lemma replace_fields s m it v :
  foldl apply s (replace_writes m it v) =
  mkStore (index s) (<[it.(Item.BatchID) := v]> (items s))
    (<[globalStatusKey it := v]>
       (match m !! it.(Item.BatchID) with Some old => delete (globalStatusKey old) (byStatus s) | None => byStatus s end))
    (<[globalStreamStatusKey it := v]>
       (match m !! it.(Item.BatchID) with Some old => delete (globalStreamStatusKey old) (byStream s) | None => byStream s end)).
Proof. unfold replace_writes. by destruct (m !! _). Qed.

Lemma rep_replace s m it v :
  rep s m → encodes v it → it.(Item.BatchID) ≠ "" → it.(Item.Status) ≠ "" →
  rep (foldl apply s (replace_writes m it v)) (<[it.(Item.BatchID) := it]> m).
Proof.
  intros R He Hb Hs. assert (∀ b i, m !! b = Some i → i.(Item.BatchID) = b) as Hwf.
  { intros b i Hi. by apply (r_wf _ _ R) in Hi as (? & _). }
  rewrite replace_fields. constructor; cbn.
  - intros b i. rewrite lookup_insert_Some. intros [[<- <-]|[Hne Hi]].
    + exists v. by rewrite lookup_insert_eq.
    + rewrite lookup_insert_ne by done. by apply (r_items _ _ R).
  - intros b [Hi Hne]%lookup_insert_None. rewrite lookup_insert_ne by done. by apply (r_none _ _ R).
  - intros b i. rewrite lookup_insert_Some. intros [[<- <-]|[Hne Hi]]; [done|by apply (r_wf _ _ R)].
  - apply (index_write globalStreamStatusKey stream_id); [done|apply R|done].
  - apply (index_write globalStatusKey status_id); [done|apply R|done].
Qed.

(** ** Reads *)

Lemma get_item s m b it :
  rep s m → GetGlobalLogOutboxItem b s = Ok (Some it) → m !! b = Some it.
Proof.
  intros R E. unfold GetGlobalLogOutboxItem in E. destruct (seqb b ""); [done|].
  apply wrap_err_Ok, readCBOR_exact in E as (v & Hv & Ha). destruct (m !! b) as [i|] eqn:Ei.
  - destruct (r_items _ _ R b i Ei) as (v' & Hv' & He). f_equal. symmetry. apply Ha. congruence.
  - apply (r_none _ _ R) in Ei. congruence.
Qed.

Lemma get_no_item s m b : rep s m → GetGlobalLogOutboxItem b s = Ok None → m !! b = None.
Proof.
  intros R E. unfold GetGlobalLogOutboxItem in E. destruct (seqb b ""); [done|].
  apply wrap_err_Ok, readCBOR_exact in E. destruct (m !! b) as [i|] eqn:Ei; [|done].
  destruct (r_items _ _ R b i Ei) as (v' & Hv' & He). congruence.
Qed.

(** ** Updates *)

Definition enqueued (s : Store) (item : Item.t) : Item.t :=
  fill_item (pebble.default_string item.(Item.BatchRoot).(Root.BatchID) item.(Item.BatchID))
    (pebble.now (base s)) item.

Lemma enqueue_spec s m item :
  rep s m → post (EnqueueGlobalLog item) s (λ r s',
    match r with
    | Ok _ => m !! (enqueued s item).(Item.BatchID) = None ∧ index s' = index s ∧
        rep s' (<[(enqueued s item).(Item.BatchID) := enqueued s item]> m)
    | Err _ => s' = s
    end).
Proof.
  intros R. unfold EnqueueGlobalLog, requireSuite. io_step; [done|]. cbv zeta. io_step; [by apply post_lift|].
  io_step; [done|]. match goal with E : Ok _ = Ok _ |- _ => injection E as <- end.
  io_step; [done|]. io_step; [done|].
  match goal with E : wrap_err _ _ _ = Ok ?x |- _ => rename x into v; apply wrap_err_Ok in E as He end.
  fold (enqueued s item) in He |- *.
  assert (m !! (enqueued s item).(Item.BatchID) = None) as Hm.
  { destruct (m !! _) as [i|] eqn:Ei; [|done]. destruct (r_items _ _ R _ _ Ei) as (w & Hw & _).
    cbn in Hw. by rewrite Hw in *. }
  apply post_modify. split; [done|]. split; [done|].
  replace (SetItem _ v :: _) with (replace_writes m (enqueued s item) v) by (unfold replace_writes; by rewrite Hm).
  bsimpl. apply rep_replace; [done..|]. cbn. unfold pebble.default_string.
  destruct (seqb item.(Item.Status) "") eqn:Es; [done|by apply seqb_false].
Qed.

Lemma reschedule_spec s m b attempts next msg :
  rep s m → post (RescheduleGlobalLog b attempts next msg) s (λ r s',
    match r with
    | Ok _ => ∃ it, m !! b = Some it ∧ index s' = index s ∧
        rep s' (<[b := retry_item it attempts next (pebble.now (base s)) msg]> m)
    | Err _ => s' = s
    end).
Proof.
  intros R. unfold RescheduleGlobalLog. io_step; [done|].
  match goal with E : _ = Ok ?x |- _ => rename x into found, E into Eg end.
  destruct found as [it|]; [|by apply post_lift]. apply (get_item _ _ _ _ R) in Eg.
  io_step; [done|]. match goal with E : Ok _ = Ok _ |- _ => injection E as <- end.
  unfold replaceGlobalLogOutbox. io_step; [done|].
  match goal with E : wrap_err _ _ _ = Ok ?x |- _ => rename x into v; apply wrap_err_Ok in E as He end.
  set (next' := retry_item _ _ _ _ _) in *. destruct (r_wf _ _ R _ _ Eg) as (Hb & Hne & Hs).
  apply post_modify. exists it. split; [done|].
  rewrite Hb, (proj2 (seqb_false _ _) Hne), (proj2 (seqb_false _ _) Hs). cbn [negb andb].
  assert (next'.(Item.BatchID) = b) as Eb by done.
  replace (SetItem _ v :: _) with (replace_writes m next' v) by (unfold replace_writes; by rewrite Eb, Eg).
  split; [by rewrite replace_fields|]. pose proof (rep_replace s m next' v R He) as Hr.
  rewrite Eb in Hr. by apply Hr.
Qed.

(** The publication on the map. *)
Definition publish_one (now : Z) (p : string * Sth.t) (m : gmap string Item.t) : gmap string Item.t :=
  match m !! p.1 with
  | Some it => if seqb it.(Item.Status) AnchorStatePublished then m
               else <[p.1 := published_item it p.2 now]> m
  | None => m
  end.
Definition publish (now : Z) (pairs : list (string * Sth.t)) (m : gmap string Item.t) : gmap string Item.t :=
  foldl (λ m p, publish_one now p m) m pairs.

Lemma publish_one_ne now p m b : b ≠ p.1 → publish_one now p m !! b = m !! b.
Proof. intros Hb. unfold publish_one. destruct (m !! p.1); [|done]. case_match; [done|]. by rewrite lookup_insert_ne. Qed.

Lemma publish_lookup now pairs m b it :
  publish now pairs m !! b = Some it →
  m !! b = Some it ∨ ∃ it0 sth, m !! b = Some it0 ∧ (b, sth) ∈ pairs ∧ it = published_item it0 sth now.
Proof.
  revert m. induction pairs as [|[b0 h] pairs IH]; intros m E; [by left|]. cbn in E.
  assert (∀ x, publish_one now (b0, h) m !! b = Some x →
    m !! b = Some x ∨ ∃ it0, b = b0 ∧ m !! b = Some it0 ∧ it0.(Item.Status) ≠ AnchorStatePublished ∧
      x = published_item it0 h now) as Hone.
  { intros x. destruct (decide (b = b0)) as [-> |Hne]; [|rewrite publish_one_ne by done; by left].
    unfold publish_one. cbn. destruct (m !! b0) as [i|] eqn:Ei; [|by rewrite Ei].
    destruct (seqb _ _) eqn:Es; [left; congruence|]. rewrite lookup_insert_eq. intros [= <-].
    right. exists i. apply seqb_false in Es. done. }
  apply IH in E as [[?|(it0 & -> & ? & ? & ->)]%Hone|(it0 & sth & Ei & Hp & ->)].
  - by left.
  - right. exists it0, h. split_and!; [done|apply list_elem_of_here|done].
  - right. apply Hone in Ei as [?|(it1 & -> & ? & ? & ->)].
    + exists it0, sth. split_and!; [done|by right|done].
    + exists it1, sth. split_and!; [done|by right|done].
Qed.

Lemma publish_done now pairs m b :
  b ∈ map fst pairs → is_Some (m !! b) →
  ∃ it, publish now pairs m !! b = Some it ∧ it.(Item.Status) = AnchorStatePublished.
Proof.
  assert (∀ pairs m, (∃ it, m !! b = Some it ∧ it.(Item.Status) = AnchorStatePublished) →
    ∃ it, publish now pairs m !! b = Some it ∧ it.(Item.Status) = AnchorStatePublished) as Hstay.
  { clear pairs m. intros pairs. induction pairs as [|[b0 h] pairs IH]; intros m (it & Hi & Hs); [by exists it|].
    cbn. apply IH. exists it. split; [|done]. destruct (decide (b = b0)) as [-> |Hne].
    - unfold publish_one. cbn. by rewrite Hi, Hs, seqb_refl.
    - by rewrite publish_one_ne. }
  revert m. induction pairs as [|[b0 h] pairs IH]; intros m Hb [it Hi]; [by apply elem_of_nil in Hb|].
  cbn in *. apply elem_of_cons in Hb as [-> |Hb].
  - apply Hstay. unfold publish_one. cbn. rewrite Hi. destruct (seqb _ _) eqn:Es.
    + apply seqb_true in Es. by exists it.
    + rewrite lookup_insert_eq. by eexists.
  - apply IH; [done|]. destruct (decide (b = b0)) as [-> |Hne].
    + unfold publish_one. cbn. rewrite Hi. destruct (seqb _ _); [by eexists|]. rewrite lookup_insert_eq. by eexists.
    + rewrite publish_one_ne by done. by eexists.
Qed.

Lemma stage_rep now pairs s m s' m' ws :
  rep s m → rep s' m' → (∀ p, p ∈ pairs → m' !! p.1 = m !! p.1) → NoDup (map fst pairs) →
  stage_published now pairs s = Ok ws →
  rep (foldl apply s' ws) (publish now pairs m') ∧ index (foldl apply s' ws) = index s' ∧
  ∀ p, p ∈ pairs → is_Some (m !! p.1).
Proof.
  intros R. revert s' m' ws. induction pairs as [|[b sth] pairs IH]; intros s' m' ws R' Hm Hd E; cbn in E.
  { injection E as <-. split_and!; [done|done|]. by intros p ?%elem_of_nil. }
  cbn in Hd. apply NoDup_cons in Hd as [Hb Hd].
  apply bind_Ok in E as ([it|] & Eg & E); [|done]. apply (get_item _ _ _ _ R) in Eg.
  assert (m' !! b = Some it) as Eg' by (rewrite <- Eg; apply (Hm (b, sth)), list_elem_of_here).
  assert (∀ m'' : gmap string Item.t, (∀ b', b' ≠ b → m'' !! b' = m' !! b') → ∀ p, p ∈ pairs → m'' !! p.1 = m !! p.1) as Hrest.
  { intros m'' H'' p Hp. rewrite H''; [apply Hm; by right|]. intros E'. apply Hb. rewrite <- E'.
    by apply list_elem_of_fmap_2. }
  assert (∀ s2 m2 ws2, rep s2 m2 → index s2 = index s' → (∀ b', b' ≠ b → m2 !! b' = m' !! b') →
    stage_published now pairs s = Ok ws2 →
    rep (foldl apply s2 ws2) (publish now pairs m2) ∧ index (foldl apply s2 ws2) = index s' ∧
    ∀ p, p ∈ (b, sth) :: pairs → is_Some (m !! p.1)) as Hgo.
  { intros s2 m2 ws2 R2 E2 Hm2 Es. destruct (IH s2 m2 ws2 R2 (Hrest m2 Hm2) Hd Es) as (? & -> & Hs).
    split_and!; [done..|]. intros p [-> |Hp]%elem_of_cons; [by eexists|by apply Hs]. }
  unfold publish. cbn [foldl]. fold (publish now pairs (publish_one now (b, sth) m')).
  unfold publish_one at 1. cbn [fst snd]. rewrite Eg'. destruct (seqb _ _) eqn:Ep; [by apply Hgo|].
  apply bind_Ok in E as (v & He%wrap_err_Ok & (ws2 & Es & [= <-])%bind_Ok).
  destruct (r_wf _ _ R' _ _ Eg') as (Eb & Hne & Hs). set (next := published_item it sth now) in *.
  assert (next.(Item.BatchID) = b) as En by done.
  replace (SetItem _ v :: _) with (replace_writes m' next v ++ ws2).
  2: { unfold replace_writes. rewrite En, Eg'. cbn. by rewrite Eb. }
  rewrite foldl_app. apply Hgo; [| | |done].
  - rewrite <- En. by apply rep_replace; rewrite ?En.
  - by rewrite replace_fields.
  - intros b' Hb'. by rewrite lookup_insert_ne.
Qed.

Lemma publish_spec s m pairs :
  rep s m → NoDup (map fst pairs) → post (publishPebbleGlobalLogOutboxBatch pairs) s (λ r s',
    match r with
    | Ok _ => rep s' (publish (pebble.now (base s)) pairs m) ∧ index s' = index s ∧
        ∀ p, p ∈ pairs → is_Some (m !! p.1)
    | Err _ => s' = s
    end).
Proof.
  intros R Hd. unfold publishPebbleGlobalLogOutboxBatch. io_step; [done|]. io_step; [done|].
  apply post_modify. by eapply stage_rep.
Qed.

(** ** Listing *)

Definition pending_in (m : gmap string Item.t) (nodeID logID : string) (it : Item.t) : Prop :=
  m !! it.(Item.BatchID) = Some it ∧ it.(Item.Status) = AnchorStatePending ∧
  it.(Item.BatchRoot).(Root.NodeID) = nodeID ∧ it.(Item.BatchRoot).(Root.LogID) = logID.

Lemma sorted_map {A} (R : relation A) (f : A → Z) l :
  (∀ a b, R a b → f a <= f b) → Sorted R l → StronglySorted Z.le (map f l).
Proof.
  intros Hf Hl. apply Sorted_StronglySorted; [intros ? ? ?; lia|].
  induction Hl as [|a l _ IH Hd]; constructor; [done|]. destruct Hd; constructor. by apply Hf.
Qed.

Lemma sorted_lookup (l : list Z) : StronglySorted Z.le l →
  ∀ i j x y, (i < j)%nat → l !! i = Some x → l !! j = Some y → x <= y.
Proof.
  induction 1 as [|a l _ IH Ha]; intros i j x y Hij Hx Hy; [done|].
  destruct j as [|j]; [lia|]. destruct i as [|i]; cbn in *.
  - injection Hx as <-. rewrite Forall_forall in Ha. apply Ha. by eapply list_elem_of_lookup_2.
  - apply (IH i j); [lia|done..].
Qed.

Lemma entry_total {K} (time : K → Z) (id : K → string) a b :
  entry_le time id a b ∨ entry_le time id b a.
Proof.
  unfold entry_le. destruct (Z.lt_trichotomy (time a.1) (time b.1)) as [?|[E|?]]; [tauto| |tauto].
  destruct (String.leb_total (id a.1) (id b.1)); [left|right]; right; split; congruence.
Qed.

(** The items of a stream, in the order of its scan. *)
Lemma scan_items s m nodeID logID :
  rep s m → ∃ l,
    Forall2 (λ e it, e.1 = globalStreamStatusKey it ∧ encodes e.2 it)
      (scan_stream AnchorStatePending nodeID logID s) l ∧
    NoDup l ∧ StronglySorted Z.le (map globalStatusSortUnixN l) ∧
    ∀ it, it ∈ l ↔ pending_in m nodeID logID it.
Proof.
  intros R. unfold scan_stream. set (l0 := filter _ _).
  set (es := merge_sort (entry_le stream_time stream_id) l0).
  assert (es ≡ₚ l0) as Hp by apply merge_sort_Permutation.
  assert (∀ k v, (k, v) ∈ es ↔ ∃ it, pending_in m nodeID logID it ∧ items s !! it.(Item.BatchID) = Some v ∧
            k = globalStreamStatusKey it) as Hin.
  { intros k v. rewrite Hp. unfold l0. rewrite list_elem_of_filter, elem_of_map_to_list, (r_stream _ _ R).
    unfold in_stream, pending_in. cbn [fst]. rewrite !andb_true_iff, !seqb_true. split.
    - intros [[[E1 E2] E3] (it & Hm & Hi & ->)]. exists it. done.
    - intros (it & (Hm & E1 & E2 & E3) & Hi & ->). split; [done|]. by exists it. }
  assert (∀ e, e ∈ es → ∃ it, e.1 = globalStreamStatusKey it ∧ encodes e.2 it ∧ pending_in m nodeID logID it) as Hex.
  { intros [k v] (it & Hpi & Hv & ->)%Hin. exists it. split_and!; [done| |done].
    destruct (r_items _ _ R _ _ (proj1 Hpi)) as (v' & Hv' & He). by simplify_eq/=. }
  apply Forall_forall, Forall_exists_Forall2_l in Hex as [l Hl]. exists l.
  assert (map fst es = map globalStreamStatusKey l) as Ek.
  { clear -Hl. induction Hl as [|e it es l (Ee & _) _ IH]; [done|]. cbn. by rewrite Ee, IH. }
  split_and!.
  - eapply Forall2_impl; [exact Hl|]. by intros e it (? & ? & _).
  - apply (NoDup_fmap_1 globalStreamStatusKey). change (NoDup (map globalStreamStatusKey l)). rewrite <- Ek.
    apply NoDup_fmap_2_strong.
    + intros [k v] [k' v'] Hk Hk' E. cbn in E. subst k'. f_equal.
      assert (∀ w, (k, w) ∈ es → byStream s !! k = Some w) as Hb.
      { intros w. rewrite Hp. unfold l0. by intros [_ ?%elem_of_map_to_list]%list_elem_of_filter. }
      apply Hb in Hk, Hk'. congruence.
    + rewrite Hp. apply NoDup_filter, NoDup_map_to_list.
  - replace (map globalStatusSortUnixN l) with (map (stream_time ∘ fst) es).
    + apply (sorted_map (entry_le stream_time stream_id)).
      * unfold entry_le. intros a b. cbn. lia.
      * apply Sorted_merge_sort. intros a b. apply entry_total.
    + transitivity (map stream_time (map fst es)); [by rewrite map_map|]. rewrite Ek, map_map. by apply map_ext.
  - intros it. split.
    + intros [i Hi]%list_elem_of_lookup. by destruct (Forall2_lookup_r _ _ _ _ _ Hl Hi) as (e & _ & _ & _ & ?).
    + intros Hpi. destruct (r_items _ _ R _ _ (proj1 Hpi)) as (v & Hv & He).
      assert ((globalStreamStatusKey it, v) ∈ es) as [i Hi]%list_elem_of_lookup by (apply Hin; by exists it).
      destruct (Forall2_lookup_l _ _ _ _ _ Hl Hi) as (it' & Hi' & E & _ & Hpi').
      assert (it' = it) as ->; [|by eapply list_elem_of_lookup_2].
      destruct Hpi as [Hm _], Hpi' as [Hm' _]. unfold globalStreamStatusKey in E. cbn in E. congruence.
Qed.

Lemma visit_spec now room vs its :
  visit_pending now room vs = Ok its →
  Forall2 (λ v it, cborx.UnmarshalLimit v anchorstore.maxStoredObjectBytes = Ok it) (take (length its) vs) its ∧
  Forall (λ it, it.(Item.NextAttemptUnixN) <= now) its ∧ (length its <= room)%nat ∧
  (length its = room ∨ length its = length vs ∨
   ∃ v it, vs !! length its = Some v ∧
     cborx.UnmarshalLimit v anchorstore.maxStoredObjectBytes = Ok it ∧ now < it.(Item.NextAttemptUnixN)).
Proof.
  revert vs its. induction room as [|room IH]; intros [|v vs] its E; cbn in E;
    try (injection E as <-; cbn; split_and!; [constructor|constructor|lia|tauto]).
  apply bind_Ok in E as (it & Ed & E). destruct (now <? _) eqn:En.
  { injection E as <-. cbn. split_and!; [constructor|constructor|lia|]. right. right. exists v, it.
    apply Z.ltb_lt in En. done. }
  apply bind_Ok in E as (rest & (H1' & H2' & H3' & H4')%IH & [= <-]). apply Z.ltb_ge in En. cbn.
  split_and!; [by constructor|by constructor|lia|]. destruct H4' as [?|[?|?]]; [left; lia|right; left; lia|].
  by right; right.
Qed.

(** The order of the items: the listed ones come before those left out. *)
Lemma pending_spec s m nodeID logID now limit its :
  rep s m → 0 <= now → ListPendingGlobalLogForStream nodeID logID now limit s = Ok its →
  let limit := if limit <=? 0 then 100 else limit in
  NoDup its ∧ len its <= limit ∧
  (∀ it, it ∈ its → pending_in m nodeID logID it ∧ it.(Item.NextAttemptUnixN) <= now) ∧
  (∀ it, pending_in m nodeID logID it → it.(Item.NextAttemptUnixN) <= now → it.(Item.EnqueuedAtUnixN) <= now →
     it ∈ its ∨ len its = limit ∧
       ∀ it', it' ∈ its → globalStatusSortUnixN it' <= globalStatusSortUnixN it).
Proof.
  intros R Hnow E. cbv zeta. set (lim := if limit <=? 0 then 100 else limit).
  assert (0 < lim) as Hlim by (unfold lim; destruct (limit <=? 0) eqn:El; lia).
  unfold ListPendingGlobalLogForStream, listPendingGlobalLogPrefix in E. apply wrap_err_Ok in E. fold lim in E.
  destruct (scan_items s m nodeID logID R) as (l & Hl & Hd & Hsort & Hin). set (es := scan_stream _ _ _ _) in *.
  destruct (visit_spec _ _ _ _ E) as (Hdec & Hdue & Hlen & Hstop).
  assert (∀ i e it it', es !! i = Some e → l !! i = Some it →
    cborx.UnmarshalLimit e.2 anchorstore.maxStoredObjectBytes = Ok it' → it' = it) as Hexact.
  { intros i e it it' He Hi Hu. destruct (Forall2_lookup_lr _ _ _ _ _ _ Hl He Hi) as [_ Hm].
    by eapply cborx.Unmarshal_exact. }
  assert (its = take (length its) l) as Eits.
  { apply list_eq_same_length with (length its); [|done|].
    - rewrite length_take. apply Forall2_length in Hdec, Hl. rewrite length_take, length_map in Hdec. lia.
    - intros i it it' Hi Hit Hit'. apply lookup_take_Some in Hit' as [Hit' Hi'].
      destruct (Forall2_lookup_r _ _ _ _ _ Hdec Hit) as (v & Hv & Hu). apply lookup_take_Some in Hv as [Hv _].
      apply list_lookup_fmap_Some in Hv as (e & -> & He). by eapply Hexact. }
  assert (∀ i j x y, (i <= j)%nat → l !! i = Some x → l !! j = Some y → globalStatusSortUnixN x <= globalStatusSortUnixN y) as Hle.
  { intros i j x y Hij Hx Hy. destruct (decide (i = j)) as [-> |Hne]; [simplify_eq; lia|].
    apply (sorted_lookup _ Hsort i j); [lia|by rewrite list_lookup_fmap, Hx|by rewrite list_lookup_fmap, Hy]. }
  split_and!.
  - rewrite Eits. by apply (sublist_NoDup _ l), sublist_take.
  - unfold len. lia.
  - intros it Hit. split; [|by rewrite Forall_forall in Hdue; apply Hdue].
    apply Hin. rewrite Eits in Hit. by apply (subseteq_take _ _) in Hit.
  - intros it Hpi Hn He. apply Hin, list_elem_of_lookup in Hpi as Hj. destruct Hj as [j Hj].
    destruct (decide (j < length its)%nat) as [Hlt|Hge].
    { left. rewrite Eits. apply list_elem_of_lookup. exists j. by rewrite lookup_take_lt. }
    right. destruct Hstop as [Hr|[Hr|(v & x & Hv & Hu & Hx)]].
    + split; [unfold len; lia|]. intros it' Hit'. rewrite Eits in Hit'.
      apply list_elem_of_lookup in Hit' as [i [Hi Hlt]%lookup_take_Some]. by apply (Hle i j); [lia|..].
    + apply lookup_lt_Some in Hj. apply Forall2_length in Hl. rewrite length_map in Hr. lia.
    + apply list_lookup_fmap_Some in Hv as (e & -> & Hev). destruct (Forall2_lookup_l _ _ _ _ _ Hl Hev) as (x' & Hx' & _).
      rewrite (Hexact _ _ _ _ Hev Hx' Hu) in Hx.
      assert (x' ∈ l) as (_ & Est & _)%Hin by (by eapply list_elem_of_lookup_2).
      pose proof (Hle (length its) j x' it ltac:(lia) Hx' Hj) as Hs. exfalso. revert Hs. unfold globalStatusSortUnixN.
      apply Hin in Hpi as (_ & -> & _). rewrite Est, !seqb_refl.
      repeat case_match; bsimpl; lia.
Qed.

End proofs.
End outbox_proofs.

(** * Publication: the outbox, the log, the anchors and the records together

    A history mixes enqueued items, ticks of the worker, operations on the
    anchor tables and operations on the record index.  Whatever the order, an
    item marked published names a head of the log that covers its batch root,
    and the anchor schedule does not forget that head. *)

Module outbox_ops.
Import outbox outbox_proofs.

(** ** Frames *)

Section frames.
Context `{KeyDescriptorLib, FiscoLib, CborMode Item.t, CborMode Res.t, CborMode Ref.t, CborMode Sch.t}.
Context `{CborMode Cp.t, CborMode Idx.t, UnicodeLib}.

Lemma anchor_commit_base ws : preserves anchorstore.base (anchorstore.Commit ws).
Proof.
  intros s. unfold anchorstore.Commit, modify. cbn. revert s.
  induction ws as [|w ws IH]; intros s; [done|]. cbn. rewrite IH. by destruct w.
Qed.
#[local] Hint Resolve anchor_commit_base : preserves.

Lemma latest_base stream : preserves anchorstore.base (anchorstore.latestSTHAnchorResultLocked stream).
Proof. unfold anchorstore.latestSTHAnchorResultLocked, anchorstore.rebuildLatestSTHAnchorResultLocked. preserving. Qed.
#[local] Hint Resolve latest_base : preserves.

Lemma candidate_base c : preserves anchorstore.base (anchorstore.commitCandidateLocked c).
Proof. unfold anchorstore.commitCandidateLocked, anchorstore.mergeSTHAnchorCandidateLocked. preserving. Qed.

#[local] Hint Resolve candidate_base : preserves.

Lemma stage_base res w : preserves anchorstore.base (anchorstore.stageSTHAnchorResultLocked res w).
Proof. unfold anchorstore.stageSTHAnchorResultLocked, anchorstore.stageLatest. preserving. Qed.
#[local] Hint Resolve stage_base : preserves.

Lemma reconcile_base sch : preserves anchorstore.base (anchorstore.reconcileStoredSTHAnchorResultsLocked sch).
Proof. unfold anchorstore.reconcileStoredSTHAnchorResultsLocked. preserving. Qed.
#[local] Hint Resolve reconcile_base : preserves.

Lemma anchor_suite_base v : preserves anchorstore.base (anchorstore.requireSuite v).
Proof. done. Qed.
Lemma schedule_base sch : preserves anchorstore.base (anchorstore.commitSTHAnchorSchedule sch).
Proof. unfold anchorstore.commitSTHAnchorSchedule. preserving. Qed.
Lemma must_read_base key : preserves anchorstore.base (anchorstore.mustReadSchedule key).
Proof. unfold anchorstore.mustReadSchedule. preserving. Qed.
#[local] Hint Resolve anchor_suite_base schedule_base must_read_base : preserves.

Lemma exec_base o s : anchorstore.base (anchorstore_ops.exec o s) = anchorstore.base s.
Proof.
  destruct o; cbn [anchorstore_ops.exec];
    match goal with |- anchorstore.base (?m s).1 = _ => assert (preserves anchorstore.base m) as Hp; [|exact (Hp s)] end.
  - unfold anchorstore.PutSTHAnchorResult. preserving.
  - unfold anchorstore.UpdateSTHAnchorResult. preserving.
  - unfold anchorstore.UpsertSTHAnchorCandidate. preserving.
  - unfold anchorstore.ClaimSTHAnchorAttempt. preserving.
  - unfold anchorstore.CompareAndSwapSTHAnchorProviderState. preserving.
  - unfold anchorstore.RescheduleSTHAnchorAttempt. preserving.
  - unfold anchorstore.FailSTHAnchorAttempt. preserving.
  - unfold anchorstore.CompleteSTHAnchorAttempt. preserving.
  - unfold anchorstore.PutSTHAnchorSchedule, anchorstore.restoreSTHAnchorSchedule. preserving.
  - unfold anchorstore.ReplaceSTHAnchorSchedule, anchorstore.restoreSTHAnchorSchedule. preserving.
  - apply latest_base.
  - unfold anchorstore.LatestSTHAnchorResultForKey. preserving.
  - unfold anchorstore.AdvanceL5CoverageCheckpoint. preserving.
Qed.

(** The promotions of records leave the anchors alone. *)
Lemma index_commit_anchors ws : preserves recordindex.anchors (recordindex.Commit ws).
Proof. done. Qed.
#[local] Hint Resolve index_commit_anchors : preserves.

Lemma promote_anchors b l : preserves recordindex.anchors (recordindex.promoteBatchRecords b l).
Proof.
  unfold recordindex.promoteBatchRecords, recordindex.commitRecordIndexPromotions. preserving.
  apply preserves_for_each. intros chunk. unfold recordindex.commit_chunk. preserving.
Qed.
#[local] Hint Resolve promote_anchors : preserves.

Lemma index_exec_anchors o : preserves recordindex.anchors (recordindex_ops.exec o).
Proof.
  destruct o; cbn [recordindex_ops.exec].
  - unfold recordindex.PutRecordIndex, recordindex.requireSuite. preserving.
  - unfold recordindex.putIndexChunk. preserving.
  - unfold recordindex.PromoteBatchProofLevel. preserving.
Qed.

Lemma requireSTHs_same sths s : post (requireSTHs sths) s (λ _ s', s' = s).
Proof.
  induction sths as [|h sths IH]; cbn [requireSTHs]; [done|]. apply post_bind, post_wrap.
  unfold requireSuite. apply post_reads. destruct (pebble.requireSuite _ _); [exact IH|done].
Qed.

End frames.

(** ** Coalesced publications *)

Lemma coalesce_one_spec b sth acc :
  NoDup (map fst acc) →
  NoDup (map fst (coalesce_one b sth acc)) ∧
  (∀ p, p ∈ coalesce_one b sth acc → p ∈ acc ∨ p = (b, sth)) ∧
  ∀ b', b' ∈ map fst (coalesce_one b sth acc) ↔ b' = b ∨ b' ∈ map fst acc.
Proof.
  induction acc as [|[b0 h] acc IH]; intros Hd; cbn.
  { split_and!; [repeat constructor; set_solver|set_solver|set_solver]. }
  apply NoDup_cons in Hd as [Hb Hd]. destruct (IH Hd) as (I1 & I2 & I3). destruct (seqb b0 b) eqn:E.
  - apply seqb_true in E as ->. cbn. split_and!; [by constructor|set_solver|set_solver].
  - apply seqb_false in E. cbn. split_and!.
    + constructor; [|done]. rewrite I3. set_solver.
    + intros p [-> |[?| ->]%I2]%elem_of_cons; set_solver.
    + intros b'. rewrite !elem_of_cons, I3. tauto.
Qed.

Lemma coalesce_spec batchIDs sths :
  let pairs := coalescePebbleGlobalLogPublicationInputs batchIDs sths in
  NoDup (map fst pairs) ∧ (∀ p, p ∈ pairs → p ∈ zip batchIDs sths) ∧
  ∀ b, b ∈ map fst (zip batchIDs sths) → b ∈ map fst pairs.
Proof.
  unfold coalescePebbleGlobalLogPublicationInputs. generalize (zip batchIDs sths). intros l.
  assert (∀ acc, NoDup (map fst acc) →
    let pairs := foldl (λ acc p, coalesce_one p.1 p.2 acc) acc l in
    NoDup (map fst pairs) ∧ (∀ p, p ∈ pairs → p ∈ acc ∨ p ∈ l) ∧
    ∀ b, b ∈ map fst acc ∨ b ∈ map fst l → b ∈ map fst pairs) as Hl.
  { induction l as [|[b h] l IH]; intros acc Hd; cbn; [set_solver|].
    destruct (coalesce_one_spec b h acc Hd) as (C1 & C2 & C3). destruct (IH _ C1) as (I1 & I2 & I3).
    split_and!; [done| |].
    - intros p [[?| ->]%C2|?]%I2; set_solver.
    - intros b' Hb'. apply I3. rewrite C3. rewrite elem_of_cons in Hb'. tauto. }
  destruct (Hl []) as (L1 & L2 & L3); [constructor|]. cbv zeta. split_and!; [done| |].
  - intros p [?%elem_of_nil|?]%L2; done.
  - intros b Hb. apply L3. by right.
Qed.

(** ** The system *)

Section system.
Context `{HashLib, SigLib, KeyDescriptorLib, FiscoLib, UnicodeLib, ErrorText}.
Context `{CborMode GlobalLogLeaf.t, CborMode GlobalLogState.t, CborMode SignedTreeHead.t,
  CborMode GlobalLogNode.t, CborMode GlobalLogTile.t}.
Context `{CborMode Item.t, CborMode Res.t, CborMode Ref.t, CborMode Sch.t, CborMode Cp.t, CborMode Idx.t}.
Context `{!CborModeExact Item.t, !CborModeExact Res.t, !CborModeExact Ref.t, !CborModeExact Sch.t, !CborModeExact Idx.t}.
Context (svc : globallog.Service) (Hwf : globallog_frontier.service_wf svc) (cfg : OutboxConfig).

#[local] Existing Instance pebble.pebble_store.

(** The log records the root and [sth] is a head of it that covers the record. *)
Definition attested (lvs : list GlobalLogLeaf.t) (root : Root.t) (sth : Sth.t) : Prop :=
  ∃ (i : nat) l, lvs !! i = Some l ∧ globallog_proofs.records (globallog.normalizeRoot svc root) l ∧
    globallog_proofs.sth_ok svc lvs (Z.of_nat i + 1) sth.

Lemma attested_mono lvs ext root sth : attested lvs root sth → attested (lvs ++ ext) root sth.
Proof.
  intros (i & l & Hl & Hr & Hh). exists i, l. split; [by apply lookup_app_l_Some|]. split; [done|].
  by apply globallog_proofs.sth_ok_mono.
Qed.

Definition item_ok (a : anchorstore.Store) (lvs : list GlobalLogLeaf.t) (it : Item.t) : Prop :=
  it.(Item.Status) = AnchorStatePublished →
  attested lvs it.(Item.BatchRoot) it.(Item.STH) ∧
  ∀ key, AnchorKey cfg = Some key → anchorstore_ops.covered a key it.(Item.STH).(Sth.TreeSize).

Record good (s : Store) (m : gmap string Item.t) (lvs : list GlobalLogLeaf.t) : Prop := {
  g_rep : rep s m;
  g_log : globallog_proofs.log_inv svc (pebble.db (base s)) lvs;
  g_anchor : anchorstore_proofs.inv (anchors s);
  g_pub b it : m !! b = Some it → item_ok (anchors s) lvs it }.

Lemma rep_index s m i : rep s m → rep (put_index i s) m.
Proof. intros R. constructor; cbn; apply R. Qed.

Lemma covered_le a key n n' :
  n <= n' → anchorstore_ops.covered a key n' → anchorstore_ops.covered a key n.
Proof.
  intros Hn [(b & sch & ? & ? & Hr)|(k & ? & ? & ?)].
  - left. exists b, sch. split_and!; [done..|]. eapply Exists_impl; [exact Hr|]. cbn. lia.
  - right. exists k. split_and!; [done..|]. lia.
Qed.

Lemma covered_steps a a' key n :
  rtc (anchorstore_proofs.change false) a a' → anchorstore_ops.covered a key n → anchorstore_ops.covered a' key n.
Proof. intros Hs. induction Hs; [done|]. intros Hc. by eapply IHHs, anchorstore_ops.change_covered. Qed.

(** Steps of the anchor tables that forget nothing. *)
Lemma good_anchors s m lvs a :
  good s m lvs → rtc (anchorstore_proofs.change false) (anchors s) a → anchorstore.base a = base s →
  good (put_anchors a s) m lvs.
Proof.
  intros [R L A P] Hs Hb. constructor.
  - by apply rep_index.
  - unfold base, anchors, put_anchors. cbn. by rewrite Hb.
  - by apply (anchorstore_proofs.steps_inv false (anchors s)).
  - intros b it Hi Hst. destruct (P b it Hi Hst) as [? Hc]. split; [done|]. intros key Hk.
    eapply covered_steps; [exact Hs|by apply Hc].
Qed.

(** Operations on the record index. *)
Lemma good_index s m lvs i :
  good s m lvs → recordindex.anchors i = anchors s → good (put_index i s) m lvs.
Proof.
  intros [R L A P] Hi. assert (anchors (put_index i s) = anchors s) as Ea by done.
  constructor; [by apply rep_index|by unfold base; rewrite Ea|by rewrite Ea|].
  intros b it Hb. rewrite Ea. by apply P with b.
Qed.

(** The log, as [AppendBatchRoots] extends it. *)
Lemma good_append E env s m lvs roots s' o :
  (∀ n, clock env n ≠ 0) → 0 <= E →
  (∀ n st l, globallog_proofs.log_inv svc (pebble.db st) l →
     ∃ ext, globallog_proofs.log_inv svc (pebble.db (others env n st)) (l ++ ext) ∧ len ext <= E) →
  good s m lvs → len lvs + 16 * (len roots + E) <= 2 ^ 62 →
  AppendBatchRoots env svc roots s = (s', o) →
  ∃ new, good s' m (lvs ++ new) ∧ len new <= 16 * (len roots + E) ∧
    ∀ sths, o = globallog.Appended sths → Forall2 (attested (lvs ++ new)) roots sths.
Proof.
  intros Hck HE Hoth G H62 Ha. unfold AppendBatchRoots in Ha.
  destruct (globallog.AppendBatchRoots _ _ _ _ _ _ _) as [b o'] eqn:Eb. injection Ha as <- <-.
  eapply (@globallog_proofs.append_spec _ _ _ _ _ _ (pebble.pebble_laws None None)) in Eb as (new & Hi & Hn & Ho);
    [|done|done|done|exact Hoth|apply G|done].
  exists new. destruct G as [R L A P]. split; [|split; [done|]].
  - constructor; [by apply rep_index|exact Hi| |].
    + destruct A as [A1 A2 A3]. constructor; [exact A1|exact A2|exact A3].
    + intros b' it Hb Hst. destruct (P b' it Hb Hst) as [? Hc]. split; [by apply attested_mono|]. exact Hc.
  - intros sths ->. eapply Forall2_impl; [by apply Ho|]. intros root sth (i & l & Hl & Hr & Hh).
    exists i, l. split_and!; [done..|]. by apply (globallog_proofs.inv_sth _ _ _ Hi).
Qed.

(** ** Marking batches published *)

Definition promotions (pairs : list (string * Sth.t)) : io Store unit :=
  for_each (λ p : string * Sth.t,
    io_wrap CodeDataLoss "promote global log batch records to L4"
      (zoom index put_index (recordindex.promoteBatchRecords p.1 "L4"))) pairs.

Lemma promotions_good pairs s m lvs :
  good s m lvs → post (promotions pairs) s (λ _ s', good s' m lvs ∧ anchors s' = anchors s).
Proof.
  unfold promotions. revert s. induction pairs as [|p pairs IH]; intros s G; [done|]. cbn [for_each].
  apply post_bind, post_wrap, post_zoom. unfold post.
  pose proof (promote_anchors p.1 "L4" (index s)) as Ha.
  destruct (recordindex.promoteBatchRecords _ _ _) as [i r]. cbn in *.
  assert (good (put_index i s) m lvs) as G' by by apply good_index.
  destruct r as [[]|e]; cbn; [|by split].
  destruct (IH _ G') as [G2 E2]. split; [done|]. rewrite E2. exact Ha.
Qed.

Lemma sth_size lvs root sth :
  attested lvs root sth → 1 <= sth.(Sth.TreeSize) <= len lvs.
Proof. intros (i & l & _ & _ & (? & _ & _ & _ & -> & _)). done. Qed.

(** The candidate of a publication is at least as high as its heads. *)
Lemma candidate_highest pairs c (lvs : list GlobalLogLeaf.t) :
  len lvs <= 2 ^ 62 → (∀ p, p ∈ pairs → 1 <= p.2.(Sth.TreeSize) <= len lvs) →
  check_candidate pairs (Some c) = Ok tt →
  ∀ p, p ∈ pairs → p.2.(Sth.TreeSize) <= c.(Cand.STH).(Sth.TreeSize).
Proof.
  intros H62 Hsz E p Hp. unfold check_candidate in E. apply bind_Ok in E as (_ & _ & E).
  apply bind_Ok in E as ([w h] & Es & E). destruct (anchorschedule.SameTarget _ _) eqn:Et; [|done].
  apply anchorschedule_proofs.SameTarget_eq in Et as ->.
  assert (2 ^ 62 = 4611686018427387904) as E62 by done.
  pose proof (anchorschedule_proofs.select_publication_targets_spec (map snd pairs) 0) as Hspec.
  rewrite Es in Hspec. destruct Hspec as (_ & Hmax & _).
  - intros x (q & -> & Hq)%list_elem_of_fmap. specialize (Hsz q Hq). unfold in_u64, two64. lia.
  - unfold in_u64, two64. lia.
  - apply Hmax. by apply list_elem_of_fmap_2.
Qed.

Definition marks (batchIDs : list string) (m m' : gmap string Item.t) : Prop :=
  ∀ b, b ∈ batchIDs → ∃ it, m' !! b = Some it ∧ it.(Item.Status) = AnchorStatePublished.

Lemma prepare_good s m lvs pairs cand :
  good s m lvs → post (preparePebbleGlobalLogPublication pairs cand) s (λ r s', good s' m lvs ∧
    (r = Ok tt → ∀ c, cand = Some c →
       anchorstore_ops.covered (anchors s') c.(Cand.Key) c.(Cand.STH).(Sth.TreeSize))).
Proof.
  intros G. unfold preparePebbleGlobalLogPublication. io_step; [by split|]. destruct cand as [c|]; [|by apply post_ret].
  apply post_bind, post_zoom. pose proof (candidate_base c (anchors s)) as Hb.
  pose proof (anchorstore_ops.candidate_op (anchors s) c (g_anchor _ _ _ G)) as Hc. unfold post in *.
  destruct (anchorstore.commitCandidateLocked c (anchors s)) as [an r]. cbn in *. destruct Hc as [Hs Hc].
  assert (good (put_anchors an s) m lvs) as G' by by apply good_anchors.
  destruct r as [next|e]; cbn; [|by split]. split; [done|]. intros _ c' [= <-]. by eapply Hc.
Qed.

Lemma mark_good s m lvs batchIDs sths cand :
  good s m lvs → len lvs <= 2 ^ 62 →
  (∀ p, p ∈ zip batchIDs sths → ∃ it, m !! p.1 = Some it ∧ attested lvs it.(Item.BatchRoot) p.2) →
  (∀ key, AnchorKey cfg = Some key → ∃ c, cand = Some c ∧ c.(Cand.Key) = key) →
  post (markGlobalLogPublishedBatch batchIDs sths cand) s (λ r s',
    ∃ m', good s' m' lvs ∧ (r = Ok tt → marks batchIDs m m')).
Proof.
  intros G H62 Hz Hk. assert (∀ e : error, ∃ m', good s m' lvs ∧ (Err e = Ok tt → marks batchIDs m m')) as Herr
    by (intros; exists m; done).
  unfold markGlobalLogPublishedBatch. io_step; [by apply post_lift|].
  match goal with E : _ || _ = false |- _ => apply orb_false_iff in E as [_ Elen] end.
  apply negb_false_iff, Z.eqb_eq in Elen.
  apply post_bind. eapply post_mono; [apply requireSTHs_same|]. intros [[]|e] s1 ->; [|done].
  apply post_bind. eapply (post_mono _ _ (λ _ s1, s1 = s)); [by destruct cand|]. intros [[]|e] s1 ->; [|done].
  destruct (coalesce_spec batchIDs sths) as (Hd & Hsub & Hall). set (pairs := coalescePebbleGlobalLogPublicationInputs _ _) in *.
  io_step; [done|]. match goal with E : check_candidate _ _ = Ok ?x |- _ => destruct x; rename E into Ec end.
  apply post_bind. eapply post_mono; [by apply prepare_good|]. intros [[]|e] s1 [G1 Hc]; [|by exists m].
  specialize (Hc eq_refl). apply post_bind. eapply post_mono; [apply (promotions_good pairs _ _ _ G1)|].
  intros [[]|e] s2 [G2 Ea]; [|by exists m].
  eapply post_mono; [apply (publish_spec s2 m pairs (g_rep _ _ _ G2) Hd)|].
  intros [[]|e] s3 Hs3; [|subst s3; by exists m]. destruct Hs3 as (R3 & E3 & _).
  exists (publish (pebble.now (base s2)) pairs m).
  assert (anchors s3 = anchors s2) as Ea3 by (unfold anchors; by rewrite E3). split.
  - constructor; [done|unfold base; rewrite Ea3; apply G2|rewrite Ea3; apply G2|].
    intros b it [Hi|(it0 & sth & Hi & Hp & ->)]%publish_lookup.
    { rewrite Ea3. by eapply (g_pub _ _ _ G2). }
    intros _. cbn. destruct (Hz _ (Hsub _ Hp)) as (it' & Hi' & Hat). cbn in Hi', Hat.
    assert (it' = it0) as -> by congruence. split; [done|]. intros key Hkey.
    destruct (Hk key Hkey) as (c & -> & <-). rewrite Ea3, Ea.
    eapply covered_le; [|by apply Hc]. apply (candidate_highest pairs c lvs H62) with (p := (b, sth)); [|done..].
    intros q Hq. destruct (Hz q (Hsub q Hq)) as (? & _ & ?). by eapply sth_size.
  - intros _ b Hb. apply publish_done.
    + apply Hall. change (map fst (zip batchIDs sths)) with (zip batchIDs sths).*1. rewrite fst_zip; [done|].
      unfold len in Elen. lia.
    + assert (b ∈ map fst (zip batchIDs sths)) as Hb'.
      { change (map fst (zip batchIDs sths)) with (zip batchIDs sths).*1. rewrite fst_zip; [done|]. unfold len in Elen. lia. }
      apply list_elem_of_fmap in Hb' as (q & -> & Hq). destruct (Hz q Hq) as (it & -> & _). by eexists.
Qed.

(** ** Ticks *)

Lemma rescheduleAll_good Clock n its cause s m lvs :
  good s m lvs → ∃ m', good (rescheduleAll cfg Clock n its cause s) m' lvs.
Proof.
  revert n s m. induction its as [|it its IH]; intros n s m G; [by exists m|]. cbn [rescheduleAll].
  set (next := outboxBackoff _ _ _). generalize (i64 (Clock n + next)). intros t.
  pose proof (reschedule_spec s m it.(Item.BatchID) (i64 (it.(Item.Attempts) + 1)) t (error_text cause)
    (g_rep _ _ _ G)) as Hp. unfold post in Hp. destruct (RescheduleGlobalLog _ _ _ _ _) as [s1 [u|e]]; cbn in *.
  - destruct Hp as (it0 & _ & Ei & R). eapply IH. assert (anchors s1 = anchors s) as Ea by (unfold anchors; by rewrite Ei).
    constructor; [exact R|unfold base; rewrite Ea; apply G|rewrite Ea; apply G|].
    intros b x. rewrite lookup_insert_Some, Ea. intros [[<- <-]|[_ Hx]]; [done|by eapply (g_pub _ _ _ G)].
  - subst s1. by eapply IH.
Qed.

Definition page : Z := if BatchSize cfg <=? 0 then 100 else BatchSize cfg.

Lemma publish_with_anchor_good s m lvs key batchIDs sths :
  good s m lvs → len lvs <= 2 ^ 62 → AnchorKey cfg = Some key →
  (∀ p, p ∈ zip batchIDs sths → ∃ it, m !! p.1 = Some it ∧ attested lvs it.(Item.BatchRoot) p.2) →
  post (publish_with_anchor cfg key batchIDs sths) s (λ r s',
    ∃ m', good s' m' lvs ∧ (r = Ok tt → marks batchIDs m m')).
Proof.
  intros G H62 Hk Hz. unfold publish_with_anchor. io_step; [by exists m|].
  apply post_bind, post_zoom. unfold anchorstore.LatestSTHAnchorResultForKey.
  apply post_lift_bind; [intros e; exists m; split; [|done]; apply good_anchors; [done|constructor|done]|]. intros _ _.
  pose proof (latest_base (Some key) (anchors s)) as Hb.
  pose proof (anchorstore_proofs.latest_locked (anchors s) (Some key) (g_anchor _ _ _ G)) as Hl. unfold post in *.
  destruct (anchorstore.latestSTHAnchorResultLocked _ _) as [an r]. cbn in *. destruct Hl as (Hs & _).
  assert (good (put_anchors an s) m lvs) as G' by (apply good_anchors; [done|apply Hs|done]).
  destruct r as [latest|e]; [|by exists m].
  apply post_lift_bind; [by exists m|]. intros [w t] _.
  apply mark_good; [done..|]. intros key' Hk'. eexists. split; [done|]. cbn. congruence.
Qed.

Definition env_ok (E : Z) (env : append_env) : Prop :=
  (∀ n, clock env n ≠ 0) ∧
  ∀ n st l, globallog_proofs.log_inv svc (pebble.db st) l →
    ∃ ext, globallog_proofs.log_inv svc (pebble.db (others env n st)) (l ++ ext) ∧ len ext <= E.

(** What a tick leaves behind. *)
Definition ticked (E : Z) (m : gmap string Item.t) (lvs : list GlobalLogLeaf.t) (s' : Store) (o : outcome) : Prop :=
  ∃ m' new, good s' m' (lvs ++ new) ∧ len new <= 16 * (page + E) ∧
    ∀ ids ready, o = Published ids ready → marks ids m m'.

Lemma ticked_same E s m lvs o :
  0 <= E → good s m lvs → (∀ ids ready, o ≠ Published ids ready) → ticked E m lvs s o.
Proof.
  intros HE G Ho. exists m, []. rewrite app_nil_r. split; [done|].
  split; [|intros ids ready ->; by destruct (Ho ids ready)].
  unfold page, len. cbn. destruct (BatchSize cfg <=? 0) eqn:Eb; bsimpl; lia.
Qed.

Lemma processBatch_good E env Clock its s m lvs s' o :
  0 <= E → env_ok E env → good s m lvs → len lvs + 16 * (page + E) <= 2 ^ 62 → len its <= page →
  (∀ it, it ∈ its → m !! it.(Item.BatchID) = Some it) →
  processBatch cfg svc env Clock its s = (s', o) → ticked E m lvs s' o.
Proof.
  intros HE [Hck Hoth] G H62 Hlen Hits Et. unfold processBatch in Et.
  destruct (len its =? 0); [injection Et as <- <-; by apply ticked_same|].
  destruct (AppendBatchRoots _ _ _ _) as [s1 o1] eqn:Ea.
  assert (len (map Item.BatchRoot its) = len its) as Elen by (unfold len; by rewrite length_map).
  eapply (good_append E) in Ea as (new & G1 & Hn & Ho); [|done|done|done|exact G|rewrite Elen; lia].
  rewrite Elen in Hn. assert (len new <= 16 * (page + E)) as Hn' by lia.
  assert (len (lvs ++ new) <= 2 ^ 62) as H62' by (unfold len in *; rewrite length_app; lia).
  destruct o1 as [sths|retry e|].
  - destruct (negb _); [injection Et as <- <-; exists m, new; by split_and!|].
    destruct (existsb _ sths); [injection Et as <- <-; exists m, new; by split_and!|].
    assert (∀ p, p ∈ zip (map Item.BatchID its) sths →
      ∃ it, m !! p.1 = Some it ∧ attested (lvs ++ new) it.(Item.BatchRoot) p.2) as Hz.
    { intros [b h] Hp. specialize (Ho sths eq_refl). apply list_elem_of_lookup in Hp as [i Hp].
      apply lookup_zip_with_Some in Hp as (b' & h' & [= -> ->] & Hb & Hh).
      apply list_lookup_fmap_Some in Hb as (it & -> & Hi). exists it. cbn. split.
      - apply Hits. by eapply list_elem_of_lookup_2.
      - eapply Forall2_lookup_lr; [exact Ho| |exact Hh]. by rewrite list_lookup_fmap, Hi. }
    assert (∀ (mk : io Store unit) ready,
      post mk s1 (λ r s', ∃ m', good s' m' (lvs ++ new) ∧ (r = Ok tt → marks (map Item.BatchID its) m m')) →
      match mk s1 with
      | (s, Ok _) => (s, Published (map Item.BatchID its) ready)
      | (s, Err e) => (s, Refused (error_text e))
      end = (s', o) → ticked E m lvs s' o) as Hmk.
    { intros mk ready Hp. unfold post in Hp. destruct (mk s1) as [s2 [[]|e]]; cbn in Hp;
        destruct Hp as (m' & G2 & Hm); intros [= <- <-]; exists m', new; split_and!; try done.
      intros ids r [= <- <-]. by apply Hm. }
    destruct (AnchorKey cfg) as [key|] eqn:Ekey; eapply Hmk, Et.
    + by apply publish_with_anchor_good.
    + apply mark_good; [done..|]. congruence.
  - injection Et as <- <-. destruct (rescheduleAll_good Clock 1 its e s1 m _ G1) as [m' G2].
    exists m', new. by split_and!.
  - injection Et as <- <-. exists m, new. by split_and!.
Qed.

Lemma tick_good E env Clock s m lvs s' o :
  0 <= E → env_ok E env → 0 <= Clock 0%nat → good s m lvs → len lvs + 16 * (page + E) <= 2 ^ 62 →
  tick cfg svc env Clock s = (s', o) → ticked E m lvs s' o.
Proof.
  intros HE He Hclk G H62 Et. unfold tick in Et. cbv zeta in Et.
  destruct (match AnchorKey cfg with Some _ => _ | None => _ end).
  { injection Et as <- <-. by apply ticked_same. }
  destruct (ListPendingGlobalLogForStream _ _ _ _ _) as [its|e] eqn:El;
    [|injection Et as <- <-; by apply ticked_same].
  destruct (existsb _ its); [injection Et as <- <-; by apply ticked_same|].
  destruct (pending_spec _ _ _ _ _ _ _ (g_rep _ _ _ G) Hclk El) as (_ & Hlen & Hits & _).
  eapply processBatch_good; [done..| |exact Et]. intros it Hit. apply (Hits it Hit).
Qed.

(** ** Histories *)

Inductive op :=
| Enqueue (item : Item.t)
| Tick (env : append_env) (Clock : nat → Z)
| OnAnchors (o : anchorstore_ops.op)
| OnIndex (o : recordindex_ops.op).

Definition exec (o : op) (s : Store) : Store :=
  match o with
  | Enqueue item => (EnqueueGlobalLog item s).1
  | Tick env Clock => (tick cfg svc env Clock s).1
  | OnAnchors o => put_anchors (anchorstore_ops.exec o (anchors s)) s
  | OnIndex o => put_index (recordindex_ops.exec o (index s)).1 s
  end.

Definition run (ops : list op) (s : Store) : Store := foldl (λ s o, exec o s) s ops.

Definition empty (mo : recordindex.mode) (b : pebble.Store) : Store :=
  mkStore (recordindex.mkStore (anchorstore_ops.empty b) mo ∅) ∅ ∅ ∅.

(** Batches are enqueued before they are published; schedules are not forcibly
    replaced; clocks run; between two attempts of an append other writers add
    at most [E] leaves. *)
Definition op_ok (E : Z) (o : op) : Prop :=
  match o with
  | Enqueue item => item.(Item.Status) ≠ AnchorStatePublished
  | Tick env Clock => env_ok E env ∧ 0 <= Clock 0%nat
  | OnAnchors o => anchorstore_ops.is_replace o = false
  | OnIndex _ => True
  end.

Definition is_tick (o : op) : Z := match o with Tick _ _ => 1 | _ => 0 end.
Fixpoint ticks_of (ops : list op) : Z :=
  match ops with [] => 0 | o :: ops => is_tick o + ticks_of ops end.

Lemma ticks_nonneg ops : 0 <= ticks_of ops.
Proof. induction ops as [|o ops IH]; cbn; [done|]. destruct o; cbn; lia. Qed.

Lemma exec_good E o s m lvs :
  0 <= E → op_ok E o → good s m lvs → len lvs + is_tick o * (16 * (page + E)) <= 2 ^ 62 →
  ∃ m' new, good (exec o s) m' (lvs ++ new) ∧ len new <= is_tick o * (16 * (page + E)).
Proof.
  intros HE Ho G H62. destruct o as [item|env Clock|o|o]; cbn [exec op_ok is_tick] in *.
  - pose proof (enqueue_spec s m item (g_rep _ _ _ G)) as Hp. unfold post in Hp.
    destruct (EnqueueGlobalLog _ _) as [s1 [u|e]]; cbn in *; [|exists m, []; rewrite app_nil_r; by subst].
    destruct Hp as (_ & Ei & R). assert (anchors s1 = anchors s) as Ea by (unfold anchors; by rewrite Ei).
    eexists _, []. rewrite app_nil_r. split; [|done].
    constructor; [exact R|unfold base; rewrite Ea; apply G|rewrite Ea; apply G|].
    intros b x. rewrite lookup_insert_Some, Ea. intros [[_ <-]|[_ Hx]]; [|by eapply (g_pub _ _ _ G)].
    intros Hst. cbn in Hst. unfold pebble.default_string in Hst. by destruct (seqb _ _).
  - destruct (tick _ _ _ _ _) as [s' o'] eqn:Et.
    eapply (tick_good E) in Et as (m' & new & G' & Hn & _); [|done|apply Ho|apply Ho|done|lia].
    exists m', new. split; [done|lia].
  - exists m, []. rewrite app_nil_r. split; [|done]. apply good_anchors; [done| |apply exec_base].
    pose proof (anchorstore_ops.exec_steps o _ (g_anchor _ _ _ G)) as Hs. by rewrite Ho in Hs.
  - exists m, []. rewrite app_nil_r. split; [|done]. apply good_index; [done|]. apply index_exec_anchors.
Qed.

Lemma run_good E ops s m lvs :
  0 <= E → Forall (op_ok E) ops → good s m lvs → len lvs + ticks_of ops * (16 * (page + E)) <= 2 ^ 62 →
  ∃ m' new, good (run ops s) m' (lvs ++ new) ∧ len new <= ticks_of ops * (16 * (page + E)).
Proof.
  intros HE Ho. revert s m lvs. induction Ho as [|o ops Ho _ IH]; intros s m lvs G H62; cbn in *.
  { exists m, []. rewrite app_nil_r. split; [done|]. done. }
  pose proof (ticks_nonneg ops). assert (0 < page) by (unfold page; destruct (BatchSize cfg <=? 0) eqn:Eb; bsimpl; lia).
  destruct (exec_good E o s m lvs HE Ho G) as (m1 & new & G1 & Hn); [nia|].
  destruct (IH _ _ _ G1) as (m2 & new2 & G2 & Hn2); [unfold len in *; rewrite length_app; nia|].
  exists m2, (new ++ new2). rewrite app_assoc. split; [done|]. unfold len in *. rewrite length_app. lia.
Qed.

Lemma good_empty mo b : pebble.db b = empty_contents → good (empty mo b) ∅ [].
Proof.
  intros Hb. constructor; [apply rep_empty| |apply anchorstore_ops.empty_inv|by intros ? ?; rewrite lookup_empty].
  unfold base, anchors. cbn. rewrite Hb. by apply globallog_proofs.log_inv_empty.
Qed.

(** C20: published means in the log, and on its way to the anchor.  In any
    history of batches that are enqueued as not yet published, ticks of the
    worker, and operations on the anchor tables and the record index other than
    the forced replacement of a schedule, an item that the store returns as
    published has its batch root recorded by a leaf of the log, and its head is
    the head of the tree that ends with this leaf; with an anchor key
    configured, the schedule of the key has a target at least as large, or a
    result for one is stored.  The two excluded operations break it: a restored
    backup enqueues items that are published already, and the metastore command
    may replace a schedule ([ReplaceSTHAnchorSchedule]).  [E] bounds what other
    writers append to the log while an append waits to retry; the log stays
    below 2^62 leaves. *)
Theorem published_attested E ops mo b0 :
  0 <= E → Forall (op_ok E) ops → pebble.db b0 = empty_contents →
  ticks_of ops * (16 * (page + E)) <= 2 ^ 62 →
  let s := run ops (empty mo b0) in
  ∃ lvs, globallog_proofs.log_inv svc (pebble.db (base s)) lvs ∧
    ∀ b it, GetGlobalLogOutboxItem b s = Ok (Some it) → it.(Item.Status) = AnchorStatePublished →
      attested lvs it.(Item.BatchRoot) it.(Item.STH) ∧
      ∀ key, AnchorKey cfg = Some key → anchorstore_ops.covered (anchors s) key it.(Item.STH).(Sth.TreeSize).
Proof.
  intros HE Ho Hb H62 s. destruct (run_good E ops _ _ _ HE Ho (good_empty mo b0 Hb)) as (m & lvs & G & _); [done|].
  exists lvs. split; [apply G|]. intros b it Hg. apply (g_pub _ _ _ G b). by eapply get_item; [apply G|].
Qed.

(** C25: the pending list is exact and oldest first.  After any history of
    batches enqueued as not yet published, ticks of the worker and operations on
    the anchor tables (but the forced replacement of a schedule) and the record
    index, with times that are not negative and a log below 2^62 leaves, the items
    listed for a stream at a time are pending items of the stream that are due,
    none twice and no more than the limit; a due item enqueued by that time is
    left out only when the limit is reached, and then no listed item has a later
    attempt time.  The scan stops at the first item that is not due, and misses
    none. *)
Theorem pending_exact E ops mo b0 nodeID logID now limit its :
  0 <= E → Forall (op_ok E) ops → pebble.db b0 = empty_contents →
  ticks_of ops * (16 * (page + E)) <= 2 ^ 62 → 0 <= now →
  let s := run ops (empty mo b0) in
  ListPendingGlobalLogForStream nodeID logID now limit s = Ok its →
  let room := if limit <=? 0 then 100 else limit in
  ∃ m, rep s m ∧ NoDup its ∧ len its <= room ∧
    (∀ it, it ∈ its → pending_in m nodeID logID it ∧ it.(Item.NextAttemptUnixN) <= now) ∧
    ∀ it, pending_in m nodeID logID it → it.(Item.NextAttemptUnixN) <= now → it.(Item.EnqueuedAtUnixN) <= now →
      it ∈ its ∨ len its = room ∧ ∀ it', it' ∈ its → globalStatusSortUnixN it' <= globalStatusSortUnixN it.
Proof.
  intros HE Ho Hb H62 Hnow s El. destruct (run_good E ops _ _ _ HE Ho (good_empty mo b0 Hb)) as (m & lvs & G & _); [done|].
  exists m. split; [apply G|]. by apply (pending_spec s m nodeID logID now limit its (g_rep _ _ _ G) Hnow).
Qed.

End system.
End outbox_ops.
