(* ===== verification/OutboxRecords.v ===== *)
(** * Publication raises the records of a batch

    When the worker reports batches as published, their items are marked and
    every record of them that the index holds is at level L4 or above; and the
    delays between two attempts of a batch. *)

From S2P Require Import Prelude TrustErr CryptoSuite Model TrustCrypto Cborx KeyDescriptor ModelSuite.
From S2P Require Import StoreMonad Merkle GlobalStore GlobalLog GlobalLogProofs AnchorSchedule L5Coverage AnchorStore AnchorStoreProofs AnchorStoreOps.
From S2P Require Import RecordSearch RecordIndex RecordIndexOps Outbox OutboxOps.

Module outbox_records.
Import outbox outbox_proofs outbox_ops recordindex_proofs recordindex_ops.
Import recordlevels (rank).

Section records.
Context `{HashLib, SigLib, KeyDescriptorLib, FiscoLib, UnicodeLib, ErrorText}.
Context `{CborMode GlobalLogLeaf.t, CborMode GlobalLogState.t, CborMode SignedTreeHead.t,
  CborMode GlobalLogNode.t, CborMode GlobalLogTile.t}.
Context `{CborMode Item.t, CborMode Res.t, CborMode Ref.t, CborMode Sch.t, CborMode Cp.t, CborMode Idx.t}.
Context `{!CborModeExact Idx.t}.
Context (placed : string → string * Z).

(** The records of the index, apart from the anchors it contains. *)
Definition records_of (s : Store) : recordindex.mode * gmap recordindex.key bytes :=
  (recordindex.recordIndexMode (index s), recordindex.entries (index s)).

Definition holds (s : Store) (id : string) (idx : Idx.t) : Prop :=
  stored (index s) id idx ∧ fits placed idx ∧ idx.(Idx.RecordID) = id.

Definition coherent_records (s : Store) : Prop :=
  coherent placed (recordindex.recordIndexMode (index s)) (recordindex.entries (index s)).

(** No record is lost or lowered, and those of the batches reach L4. *)
Definition raised (ids : list string) (s s' : Store) : Prop :=
  ∀ id idx, holds s id idx → ∃ idx', holds s' id idx' ∧ idx'.(Idx.BatchID) = idx.(Idx.BatchID) ∧
    rank idx <= rank idx' ∧ (idx.(Idx.BatchID) ∈ ids → 4 <= rank idx').

Lemma records_eq s s' : records_of s' = records_of s → coherent_records s → coherent_records s'.
Proof. unfold coherent_records. by intros [= -> ->]. Qed.

Lemma raised_eq ids s s1 s' : records_of s1 = records_of s → raised ids s1 s' → raised ids s s'.
Proof. unfold raised, holds, stored. intros [= _ E] Hr id idx. rewrite <- E. apply Hr. Qed.

Lemma raised_eq_r ids s s1 s' : records_of s' = records_of s1 → raised ids s s1 → raised ids s s'.
Proof. unfold raised, holds, stored. intros [= _ E] Hr id idx. rewrite E. apply Hr. Qed.

Lemma promoted_rank b idx :
  rank idx <= rank (promoted b "L4" idx) ∧
  (idx.(Idx.BatchID) = b → 4 <= rank (promoted b "L4" idx)).
Proof.
  unfold promoted. change (recordsearch.ProofLevelRank "L4") with 4.
  fold (rank idx). destruct (seqb idx.(Idx.BatchID) b) eqn:Eb, (rank idx <? 4) eqn:Er; cbn [andb]; bsimpl.
  - change (rank (recordindex.with_level _ idx)) with 4. lia.
  - lia.
  - split; [lia|]. done.
  - lia.
Qed.

Lemma promotions_raise pairs s s' :
  coherent_records s → recordindex.recordIndexMode (index s) ≠ recordindex.TimeOnly →
  (∀ p, p ∈ pairs → p.1 ≠ "") → promotions pairs s = (s', Ok tt) →
  raised (map fst pairs) s s'.
Proof.
  unfold promotions. revert s. induction pairs as [|[b h] pairs IH]; intros s C Hm Hne E; cbn [for_each] in E.
  { injection E as <-. intros id idx Hh. exists idx. split_and!; [done..|lia|]. by intros ?%elem_of_nil. }
  apply io_bind_Ok in E as (s1 & [] & Ep & E). unfold io_wrap, zoom in Ep. cbn [fst] in Ep.
  destruct (recordindex.promoteBatchRecords b "L4" (index s)) as [i [[]|e]] eqn:Epr; [|done].
  injection Ep as <-.
  assert (b ≠ "") as Hb by (apply (Hne (b, h)), list_elem_of_here).
  pose proof (post_intro _ _ _ (promote_run placed (index s) b "L4" C Hm Hb eq_refl ltac:(done)) _ _ Epr) as Hrun.
  assert (coherent_records (put_index i s)) as C1 by (by eapply promotion_coherent).
  assert (recordindex.recordIndexMode i = recordindex.recordIndexMode (index s)) as Em.
  { by destruct Hrun as [[_ [e ?]]|(? & ? & ? & ? & _ & _ & -> & _)]. }
  apply IH in E as Hr; [|done|by cbn; rewrite Em|intros; apply Hne; by right].
  intros id idx (Hst & Hf & Hid).
  assert (holds (put_index i s) id (promoted b "L4" idx)) as Hh.
  { split; [exact (promotion_effect placed (index s) b "L4" i id idx C eq_refl Hrun Hst Hf Hid)|].
    unfold promoted. by destruct (_ && _). }
  destruct (Hr id _ Hh) as (idx' & Hh' & Eb & Hle & Hin). exists idx'.
  destruct (promoted_rank b idx) as [Hup Hb4].
  assert ((promoted b "L4" idx).(Idx.BatchID) = idx.(Idx.BatchID)) as Epb by (unfold promoted; by destruct (_ && _)).
  rewrite Epb in *. split_and!; [done..|lia|]. cbn [map fst].
  intros [Ei|Ei]%elem_of_cons; [specialize (Hb4 Ei); lia|by apply Hin].
Qed.

(** ** The store operations around the promotions *)

Lemma zoom_records {A} (k : io anchorstore.Store A) : preserves records_of (zoom anchors put_anchors k).
Proof. intros s. unfold zoom. by destruct (k (anchors s)). Qed.

Lemma apply_records ws : preserves records_of (Commit ws).
Proof.
  intros s. unfold Commit, modify. cbn. revert s. induction ws as [|w ws IH]; intros s; [done|]. cbn.
  rewrite IH. by destruct w.
Qed.
#[local] Hint Resolve zoom_records apply_records : preserves.

Lemma prepare_records pairs cand : preserves records_of (preparePebbleGlobalLogPublication pairs cand).
Proof. unfold preparePebbleGlobalLogPublication. preserving. Qed.

Lemma publish_records pairs : preserves records_of (publishPebbleGlobalLogOutboxBatch pairs).
Proof. unfold publishPebbleGlobalLogOutboxBatch. preserving. Qed.

Lemma preserves_run {A} (k : io Store A) s s' r : preserves records_of k → k s = (s', r) → records_of s' = records_of s.
Proof. intros Hk E. specialize (Hk s). by rewrite E in Hk. Qed.

(** A batch that was checked has a name. *)
Lemma prepare_named pairs cand s s' :
  preparePebbleGlobalLogPublication pairs cand s = (s', Ok tt) → ∀ p, p ∈ pairs → p.1 ≠ "".
Proof.
  unfold preparePebbleGlobalLogPublication. intros E. apply io_bind_Ok in E as (s1 & [] & [_ E]%reads_Ok & _).
  clear s'. induction pairs as [|[b h] pairs IH]; intros p Hp; [by apply elem_of_nil in Hp|]. cbn in E.
  apply bind_Ok in E as (found & Eg & E). unfold GetGlobalLogOutboxItem in Eg.
  destruct (seqb b "") eqn:Eb; [done|]. apply seqb_false in Eb.
  apply elem_of_cons in Hp as [-> |Hp]; [done|]. apply IH; [|done]. repeat (case_match; try done).
Qed.

Lemma mark_raises batchIDs sths cand s s' :
  coherent_records s → recordindex.recordIndexMode (index s) ≠ recordindex.TimeOnly →
  markGlobalLogPublishedBatch batchIDs sths cand s = (s', Ok tt) → raised batchIDs s s'.
Proof.
  intros C Hm E. unfold markGlobalLogPublishedBatch in E. destruct (_ || _) eqn:Eg; [by apply lift_Ok in E as [_ ?]|].
  apply orb_false_iff in Eg as [_ Elen]. apply negb_false_iff, Z.eqb_eq in Elen.
  apply io_bind_Ok in E as (s0 & [] & E0 & E).
  apply (post_intro _ _ _ (requireSTHs_same sths s)) in E0 as ->.
  apply io_bind_Ok in E as (s1 & [] & Ec & E).
  assert (s1 = s) as -> by (destruct cand; [by apply reads_Ok in Ec as [-> _]|by injection Ec]).
  destruct (coalesce_spec batchIDs sths) as (_ & _ & Hall). set (pairs := coalescePebbleGlobalLogPublicationInputs _ _) in *.
  apply io_bind_Ok in E as (s1 & [] & [-> _]%lift_Ok & E).
  apply io_bind_Ok in E as (s1 & [] & E1 & (s2 & [] & E2 & E3)%io_bind_Ok).
  pose proof (preserves_run _ _ _ _ (prepare_records pairs cand) E1) as R1.
  pose proof (preserves_run _ _ _ _ (publish_records pairs) E3) as R3.
  apply raised_eq with s1; [done|]. apply raised_eq_r with s2; [done|].
  assert (raised (map fst pairs) s1 s2) as Hr.
  { apply promotions_raise; [by eapply records_eq|by injection R1 as -> _|by eapply prepare_named|exact E2]. }
  intros id idx (idx' & ? & ? & ? & Hin)%Hr. exists idx'. split_and!; [done..|]. intros Hb. apply Hin, Hall.
  change (map fst (zip batchIDs sths)) with (zip batchIDs sths).*1. rewrite fst_zip; [done|]. unfold len in Elen. lia.
Qed.

(** ** What promotions to L4 keep, a whole tick keeps *)

Lemma requireSTHs_records sths : preserves records_of (requireSTHs sths).
Proof. intros s. by rewrite (requireSTHs_same sths s). Qed.

Lemma reschedule_records b n t msg : preserves records_of (RescheduleGlobalLog b n t msg).
Proof. unfold RescheduleGlobalLog, replaceGlobalLogOutbox. preserving. Qed.

(** A part of the store that the append and the retries leave alone. *)
Record quiet_view {X} (v : Store → X) : Prop := {
  qv_base b s : v (put_base b s) = v s;
  qv_retry b n t msg : preserves v (RescheduleGlobalLog b n t msg) }.

Lemma records_quiet : quiet_view records_of.
Proof. split; [done|apply reschedule_records]. Qed.

(** A tick leaves such a part alone, or marks the batches of its items. *)
Lemma tick_cases {X} (v : Store → X) cfg svc env Clock s s' o :
  quiet_view v → tick cfg svc env Clock s = (s', o) →
  (v s' = v s ∧ ∀ ids ready, o ≠ Published ids ready) ∨
  ∃ s1 ids sths r, v s1 = v s ∧
    match AnchorKey cfg with
    | Some key => publish_with_anchor cfg key ids sths
    | None => markGlobalLogPublishedBatch ids sths None
    end s1 = (s', r) ∧
    (∀ ids' ready, o = Published ids' ready → r = Ok tt ∧ ids' = ids).
Proof.
  intros [Qb Qr] E. unfold tick in E. cbv zeta in E.
  assert (∀ n its cause s, v (rescheduleAll cfg Clock n its cause s) = v s) as Qa.
  { intros n its cause. revert n. induction its as [|it its IH]; intros n x; [done|]. cbn [rescheduleAll]. rewrite IH. apply Qr. }
  assert (∀ msg, (s, Refused msg) = (s', o) → v s' = v s ∧ ∀ ids ready, o ≠ Published ids ready) as Href
    by (by intros msg [= <- <-]).
  destruct (match AnchorKey cfg with Some _ => _ | None => _ end); [left; by eapply Href|].
  destruct (ListPendingGlobalLogForStream _ _ _ _ _) as [its|e]; [|left; by eapply Href].
  destruct (existsb _ its); [left; by eapply Href|]. unfold processBatch in E.
  destruct (len its =? 0); [left; by injection E as <- <-|].
  assert (v (AppendBatchRoots env svc (map Item.BatchRoot its) s).1 = v s) as R1.
  { unfold AppendBatchRoots. destruct (globallog.AppendBatchRoots _ _ _ _ _ _ _). apply Qb. }
  destruct (AppendBatchRoots _ _ _ _) as [s1 o1]. cbn in R1.
  destruct o1 as [sths|retry e|]; [|left; injection E as <- <-; by rewrite Qa|left; by injection E as <- <-].
  destruct (negb _); [left; by injection E as <- <-|]. destruct (existsb _ sths); [left; by injection E as <- <-|].
  right. exists s1, (map Item.BatchID its), sths.
  destruct (AnchorKey cfg) as [key|].
  - destruct (publish_with_anchor _ _ _ _ _) as [s2 r] eqn:Em. exists r. destruct r as [[]|e]; injection E as <- <-;
      split_and!; try done; by intros ? ? [= <- <-].
  - unfold MarkGlobalLogPublishedBatch in E. destruct (markGlobalLogPublishedBatch _ _ _ _) as [s2 r] eqn:Em. exists r.
    destruct r as [[]|e]; injection E as <- <-; split_and!; try done; by intros ? ? [= <- <-].
Qed.

Section kept.
Context (T : Store → Prop).
Context (T_eq : ∀ s s', records_of s' = records_of s → T s → T s').
Context (T_promote : ∀ b, stays T (zoom index put_index (recordindex.promoteBatchRecords b "L4"))).

Lemma records_stays {A} (k : io Store A) : preserves records_of k → stays T k.
Proof using T_eq. apply stays_preserves. intros s s'. apply T_eq. Qed.

Lemma mark_stays batchIDs sths cand : stays T (markGlobalLogPublishedBatch batchIDs sths cand).
Proof using T_eq T_promote.
  unfold markGlobalLogPublishedBatch. destruct (_ || _); [by intros s Hs|].
  apply stays_bind; [apply records_stays, requireSTHs_records|intros _].
  apply stays_bind; [by destruct cand; intros s Hs|intros _]. apply stays_bind; [by intros s Hs|intros _].
  apply stays_bind; [apply records_stays, prepare_records|intros _].
  apply stays_bind; [|intros _; apply records_stays, publish_records].
  apply stays_for_each. intros p. apply stays_wrap, T_promote.
Qed.

Lemma tick_stays cfg svc env Clock s : T s → T (tick cfg svc env Clock s).1.
Proof using T_eq T_promote.
  intros Hs. destruct (tick _ _ _ _ _) as [s' o] eqn:E. cbn.
  apply (tick_cases records_of _ _ _ _ _ _ _ records_quiet) in E as [[E _]|(s1 & ids & sths & r & E1 & E & _)]; [by apply (T_eq s)|].
  assert (stays T (match AnchorKey cfg with
    | Some key => publish_with_anchor cfg key ids sths | None => markGlobalLogPublishedBatch ids sths None end)) as Hm.
  { destruct (AnchorKey cfg) as [key|]; [|apply mark_stays]. unfold publish_with_anchor.
    apply stays_bind; [by intros x Hx|intros sch]. apply stays_bind; [apply records_stays, zoom_records|intros latest].
    apply stays_bind; [by intros x Hx|]. intros [w t]. apply mark_stays. }
  specialize (Hm s1 (T_eq s s1 E1 Hs)). by rewrite E in Hm.
Qed.

End kept.

(** ** Whole ticks *)

Context (mo : recordindex.mode).

Definition tidy (s : Store) : Prop := coherent_records s ∧ recordindex.recordIndexMode (index s) = mo.

Lemma tidy_eq s s' : records_of s' = records_of s → tidy s → tidy s'.
Proof. intros E [C M]. split; [by eapply records_eq|]. unfold records_of in E. congruence. Qed.

Lemma tidy_records {A} (k : io Store A) : preserves records_of k → stays tidy k.
Proof. apply stays_preserves. intros s s'. apply tidy_eq. Qed.

Lemma index_tidy {A} (k : io recordindex.Store A) :
  (∀ i, coherent placed (recordindex.recordIndexMode i) (recordindex.entries i) →
     coherent placed (recordindex.recordIndexMode (k i).1) (recordindex.entries (k i).1) ∧
     recordindex.recordIndexMode (k i).1 = recordindex.recordIndexMode i) →
  stays tidy (zoom index put_index k).
Proof.
  intros Hk s [C M]. unfold zoom. destruct (Hk _ C) as [C' M']. destruct (k (index s)) as [i r]. cbn in *.
  split; [done|]. cbn. congruence.
Qed.

Lemma promotion_tidy b : stays tidy (zoom index put_index (recordindex.promoteBatchRecords b "L4")).
Proof.
  apply index_tidy. intros i C. destruct (decide (b = "")) as [-> |Hb]; [done|].
  pose proof (promote_coherent placed i b "L4" C) as Hp. unfold recordindex.PromoteBatchProofLevel in Hp.
  rewrite (proj2 (seqb_false _ _) Hb) in Hp. destruct Hp as [[_ ?] ?]. done.
Qed.

Lemma anchor_mark_raises cfg key batchIDs sths s s' :
  tidy s → mo ≠ recordindex.TimeOnly → publish_with_anchor cfg key batchIDs sths s = (s', Ok tt) →
  raised batchIDs s s'.
Proof.
  intros T Hm E. unfold publish_with_anchor in E. apply io_bind_Ok in E as (s1 & sch & [-> _]%reads_Ok & E).
  apply io_bind_Ok in E as (s2 & latest & E2 & E). apply io_bind_Ok in E as (s3 & [w t] & [-> _]%lift_Ok & E).
  pose proof (preserves_run _ _ _ _ (zoom_records _) E2) as R2. destruct (tidy_eq _ _ R2 T) as [C M].
  apply raised_eq with s2; [done|]. eapply mark_raises; [exact C|congruence|exact E].
Qed.

Lemma tick_tidy cfg svc env Clock s : tidy s → tidy (tick cfg svc env Clock s).1.
Proof. apply tick_stays; [intros ? ?; apply tidy_eq|apply promotion_tidy]. Qed.

Lemma tick_raises cfg svc env Clock s s' ids ready :
  tidy s → mo ≠ recordindex.TimeOnly → tick cfg svc env Clock s = (s', Published ids ready) → raised ids s s'.
Proof.
  intros T Hm [[_ Hn]|(s1 & ids' & sths & r & E1 & E & Hp)]%(tick_cases records_of _ _ _ _ _ _ _ records_quiet); [by destruct (Hn ids ready)|].
  destruct (Hp _ _ eq_refl) as [-> ->]. apply raised_eq with s1; [done|]. pose proof (tidy_eq _ _ E1 T) as T1.
  destruct (AnchorKey cfg) as [key|]; [by eapply anchor_mark_raises|]. destruct T1 as [C1 M1].
  eapply mark_raises; [exact C1|congruence|exact E].
Qed.

Lemma enqueue_records item : preserves records_of (EnqueueGlobalLog item).
Proof. unfold EnqueueGlobalLog, requireSuite. preserving. Qed.

Definition index_fits (o : outbox_ops.op) : Prop :=
  match o with OnIndex o => recordindex_ops.op_fits placed o | _ => True end.

Lemma index_exec_tidy o : recordindex_ops.op_fits placed o → stays tidy (zoom index put_index (recordindex_ops.exec o)).
Proof.
  intros Hf. apply index_tidy. intros i C.
  assert (kept i (recordindex_ops.exec o i).1 ∧ coherent placed (recordindex.recordIndexMode (recordindex_ops.exec o i).1)
    (recordindex.entries (recordindex_ops.exec o i).1)) as [[_ ?] ?]; [|done].
  destruct o; cbn in *; [by apply put_coherent|by apply chunk_coherent|by apply promote_coherent].
Qed.

Lemma run_tidy cfg svc ops s : Forall index_fits ops → tidy s → tidy (outbox_ops.run svc cfg ops s).
Proof.
  intros Hf. revert s. induction Hf as [|o ops Ho _ IH]; intros s T; [done|]. cbn. apply IH.
  destruct o as [item|env Clock|o|o]; cbn [outbox_ops.exec].
  - by apply (tidy_records _ (enqueue_records item)).
  - by apply tick_tidy.
  - by apply (tidy_eq s).
  - pose proof (index_exec_tidy o Ho s T) as Ht. unfold zoom in Ht. by destruct (recordindex_ops.exec o (index s)).
Qed.

End records.

Section claims.
Context `{HashLib, SigLib, KeyDescriptorLib, FiscoLib, UnicodeLib, ErrorText}.
Context `{CborMode GlobalLogLeaf.t, CborMode GlobalLogState.t, CborMode SignedTreeHead.t,
  CborMode GlobalLogNode.t, CborMode GlobalLogTile.t}.
Context `{CborMode Item.t, CborMode Res.t, CborMode Ref.t, CborMode Sch.t, CborMode Cp.t, CborMode Idx.t}.
Context `{!CborModeExact Item.t, !CborModeExact Res.t, !CborModeExact Ref.t, !CborModeExact Sch.t, !CborModeExact Idx.t}.

(** C21: a reported publication is complete.  When a tick after any history
    reports batches as published, in a store with a batch index, then each of
    them is marked published in the outbox, and every record the index held of
    them is at level L4 or above; no record of any batch was lost or lowered.
    [placed] gives the batch and reception time of each record id, which all
    writers agree on.  The history has the restrictions of the outbox (items are
    enqueued as not yet published, no forced replacement of schedules, a log
    below 2^62 leaves); the mark is read back when the item can be read. *)
Theorem publication_complete svc cfg placed E ops mo b0 env Clock s' ids ready :
  globallog_frontier.service_wf svc → 0 <= E → Forall (outbox_ops.op_ok svc E) (Tick env Clock :: ops) →
  Forall (index_fits placed) ops → pebble.db b0 = empty_contents →
  ticks_of (Tick env Clock :: ops) * (16 * (page cfg + E)) <= 2 ^ 62 → mo ≠ recordindex.TimeOnly →
  let s := outbox_ops.run svc cfg ops (outbox_ops.empty mo b0) in
  tick cfg svc env Clock s = (s', Published ids ready) →
  (∀ b it, b ∈ ids → GetGlobalLogOutboxItem b s' = Ok (Some it) → it.(Item.Status) = AnchorStatePublished) ∧
  raised placed ids s s'.
Proof.
  intros Hwf HE [Ht Ho]%Forall_cons Hf Hb H62 Hm s Et. cbn [ticks_of is_tick] in H62.
  assert (0 < page cfg) as Hp by (unfold page; destruct (BatchSize cfg <=? 0) eqn:Eb; bsimpl; lia).
  split.
  - destruct (run_good svc Hwf cfg E ops _ _ _ HE Ho (good_empty svc Hwf cfg mo b0 Hb)) as (m & lvs & G & Hl);
      [change (len (@nil GlobalLogLeaf.t)) with 0; nia|].
    cbn [app] in *. pose proof (ticks_nonneg ops). destruct Ht as [He Hclk].
    eapply (tick_good svc Hwf cfg E) in Et as (m' & new & G' & _ & Hmarks); [|done|done|done|exact G|nia].
    intros b it Hin Hg. destruct (Hmarks ids ready eq_refl b Hin) as (it' & Hi' & Hs').
    apply (get_item _ _ _ _ (g_rep _ _ _ _ _ G')) in Hg. congruence.
  - eapply (tick_raises placed mo); [|done|exact Et]. apply run_tidy; [done|]. split; [|done]. apply coherent_empty.
Qed.

End claims.

(** ** Delays *)

Lemma backoff_loop_spec rounds max delay :
  0 < delay <= max → max < 2 ^ 63 → backoff_loop rounds max delay = Z.min max (delay * 2 ^ Z.of_nat rounds).
Proof.
  intros Hd Hm. revert delay Hd. induction rounds as [|rounds IH]; intros delay Hd; cbn [backoff_loop].
  { rewrite (proj2 (Z.ltb_ge _ _)) by lia. change (2 ^ Z.of_nat 0) with 1. lia. }
  rewrite Nat2Z.inj_succ, Z.pow_succ_r by lia. assert (1 <= 2 ^ Z.of_nat rounds) as Hp by (apply Z.pow_le_mono_r with (b := 0); lia).
  rewrite Z.quot_div_nonneg by lia. pose proof (Z.div_mod max 2 ltac:(lia)). pose proof (Z.mod_pos_bound max 2 ltac:(lia)).
  destruct (delay <? max) eqn:E1; bsimpl.
  - destruct (max / 2 <? delay) eqn:E2; bsimpl; [nia|]. rewrite i64_small by (unfold in_i64, two63; lia). rewrite IH by lia.
    f_equal. ring.
  - rewrite (proj2 (Z.ltb_ge _ _)) by lia. nia.
Qed.

(** The delay before the [n]-th attempt is the initial delay doubled [n - 1]
    times and capped at the maximum, without overflow, for every [n]. *)
Theorem backoff_exact initial max n :
  0 < initial <= max → max < 2 ^ 63 → 1 <= n →
  outboxBackoff initial max n = Z.min max (initial * 2 ^ (n - 1)).
Proof.
  intros Hi Hm Hn. unfold outboxBackoff. destruct (n <=? 1) eqn:E; bsimpl.
  - replace n with 1 by lia. cbn. lia.
  - rewrite backoff_loop_spec by lia. do 3 f_equal. lia.
Qed.

(** A maximum below the initial delay is replaced by one minute even when the
    initial delay is longer: the first retry then waits longer than the
    maximum. *)
Example backoff_inverted :
  let c := applyDefaults (mkConfig None 0 0 0 (5 * minute) (2 * minute)) in
  (outboxBackoff (InitialBackoff c) (MaxBackoff c) 1, outboxBackoff (InitialBackoff c) (MaxBackoff c) 2)
  = (5 * minute, minute).
Proof. reflexivity. Qed.

Lemma backoff_exact_witness :
  outboxBackoff defaultOutboxInitialBackoff defaultOutboxMaxBackoff 11 = minute ∧
  outboxBackoff defaultOutboxInitialBackoff defaultOutboxMaxBackoff 4 = 800 * millisecond.
Proof.
  split.
  - rewrite (backoff_exact defaultOutboxInitialBackoff defaultOutboxMaxBackoff 11); [reflexivity|split; vm_compute; congruence|reflexivity|lia].
  - rewrite (backoff_exact defaultOutboxInitialBackoff defaultOutboxMaxBackoff 4); [reflexivity|split; vm_compute; congruence|reflexivity|lia].
Defined.

End outbox_records.
