(* ===== verification/OutboxExamples.v ===== *)
(** * The outbox: a concrete history

    The indexes of two records are stored, the roots of their batches are
    enqueued, and a tick of the worker appends them to an empty log, schedules
    the anchor of the later head and publishes both. *)

From S2P Require Import Prelude TrustErr CryptoSuite Model TrustCrypto Cborx KeyDescriptor Instances ModelSuite.
From S2P Require Import StoreMonad Merkle GlobalStore GlobalLog GlobalLogProofs GlobalLogExamples.
From S2P Require Import AnchorSchedule AnchorScheduleProofs AnchorExamples L5Coverage AnchorStore AnchorStoreProofs AnchorStoreOps AnchorStoreExamples.
From S2P Require Import RecordSearch RecordSearchProofs RecordIndex RecordIndexOps RecordIndexExamples Outbox OutboxOps OutboxRecords.

Module outbox_examples.
Import outbox outbox_proofs outbox_ops outbox_records.
Import globallog_examples (ex_service, ex_service_wf, ex_clock, ex_clock_set, ok_codec, ex_empty).
Import recordindex_examples (ex_idx).
Import recordlevels (rank).

#[local] Existing Instance anchor_examples.ex_fisco.
#[local] Existing Instance recordindex_examples.idx_eq_dec.
#[local] Existing Instance recordsearch_examples.ascii_tables.
#[local] Instance error_name : ErrorText := λ _, "failed".

#[local] Instance codec_leaf : CborMode GlobalLogLeaf.t := ok_codec _.
#[local] Instance codec_state : CborMode GlobalLogState.t := ok_codec _.
#[local] Instance codec_sth : CborMode SignedTreeHead.t := ok_codec _.
#[local] Instance codec_node : CborMode GlobalLogNode.t := ok_codec _.
#[local] Instance codec_tile : CborMode GlobalLogTile.t := ok_codec _.
#[local] Instance codec_cp : CborMode Cp.t := ok_codec _.

#[local] Instance item_eq_dec : EqDecision Item.t.
Proof. solve_decision. Defined.
#[local] Instance ref_eq_dec : EqDecision Ref.t.
Proof. solve_decision. Defined.

Definition ex_anchor : SKey.t := SKey.mk "node-1" "trustdb-global-log" "ots".
Definition ex_cfg : OutboxConfig := applyDefaults (mkConfig (Some ex_anchor) 0 0 0 0 0).
Definition ex_env : append_env := mkEnv 63 ex_clock (λ _, 0%nat) (λ _ st, st).
Definition ex_now (n : nat) : Z := 2000.

Definition ex_root (id : string) (b : byte) : Root.t :=
  Root.mk SchemaBatchRoot cryptosuite.INTLV1 id "node-1" "trustdb-global-log" (replicate 32 b) 1 99.
Definition ex_item (id : string) (b : byte) : Item.t :=
  Item.mk "" cryptosuite.INTLV1 "" (ex_root id b) "" Sth.zero 0 0 0 0 "" 0.
Definition ex_queued (id : string) (b : byte) : Item.t := fill_item id 5 (ex_item id b).

(** The heads that the log answers with. *)
Definition ex_sths : list Sth.t :=
  match @globallog.AppendBatchRoots _ _ _ _ pebble.Store (pebble.pebble_store None None) 63 ex_service ex_clock
          (λ _, 0%nat) (λ _ st, st) ex_empty [ex_root "b1" Byte.x11; ex_root "b2" Byte.x12] with
  | (_, globallog.Appended sths) => sths
  | _ => []
  end.
Definition ex_sth (i : nat) : Sth.t := default Sth.zero (ex_sths !! i).
Definition ex_cand : Cand.t := mk_candidate ex_cfg ex_anchor (ex_sth 0) (ex_sth 1).
Definition ex_schedule : Sch.t :=
  match anchorschedule.MergeCandidate None ex_cand None with Ok (sch, _) => sch | Err _ => Sch.zero end.

#[local] Instance item_codec : CborMode Item.t :=
  table_codec [ex_queued "b1" Byte.x11; ex_queued "b2" Byte.x12;
               published_item (ex_queued "b1" Byte.x11) (ex_sth 0) 5;
               published_item (ex_queued "b2" Byte.x12) (ex_sth 1) 5].
#[local] Instance sch_codec : CborMode Sch.t := table_codec [ex_schedule].
#[local] Instance ref_codec : CborMode Ref.t := table_codec [anchorschedule.EmptyLatestReference (Some ex_anchor)].
#[local] Instance res_codec : CborMode Res.t := table_codec [].
#[local] Instance idx_codec : CborMode Idx.t :=
  table_codec [ex_idx "r1" "L3" "b1" 10; ex_idx "r1" "L4" "b1" 10; ex_idx "r2" "L3" "b2" 20; ex_idx "r2" "L4" "b2" 20].

#[local] Instance item_exact : CborModeExact Item.t.
Proof. by apply table_exact. Qed.
#[local] Instance sch_exact : CborModeExact Sch.t.
Proof. by apply table_exact. Qed.
#[local] Instance ref_exact : CborModeExact Ref.t.
Proof. by apply table_exact. Qed.
#[local] Instance res_exact : CborModeExact Res.t.
Proof. by apply table_exact. Qed.
#[local] Instance idx_exact : CborModeExact Idx.t.
Proof. by apply table_exact. Qed.

Definition ex_ops : list op :=
  [OnIndex (recordindex_ops.PutChunk false [ex_idx "r1" "" "b1" 10; ex_idx "r2" "" "b2" 20]);
   Enqueue (ex_item "b1" Byte.x11);
   OnAnchors (anchorstore_ops.LatestForKey ex_anchor);
   Enqueue (ex_item "b2" Byte.x12)].
Definition ex_tick : op := Tick ex_env ex_now.
Definition ex_s : Store := outbox_ops.run ex_service ex_cfg ex_ops (outbox_ops.empty recordindex.Full ex_empty).
Definition ex_s' : Store := (tick ex_cfg ex_service ex_env ex_now ex_s).1.

Lemma ex_outcome : (tick ex_cfg ex_service ex_env ex_now ex_s).2 = Published ["b1"; "b2"] true.
Proof. vm_compute. reflexivity. Qed.

Lemma ex_tick_eq : tick ex_cfg ex_service ex_env ex_now ex_s = (ex_s', Published ["b1"; "b2"] true).
Proof. unfold ex_s'. rewrite <- ex_outcome. apply surjective_pairing. Qed.

Lemma ex_env_ok : env_ok ex_service 0 ex_env.
Proof.
  split; [apply ex_clock_set|]. intros n st l Hi. exists []. rewrite app_nil_r. split; [exact Hi|done].
Qed.

Lemma ex_ops_ok : Forall (op_ok ex_service 0) (ex_tick :: ex_ops).
Proof.
  constructor; [split; [exact ex_env_ok|done]|]. repeat (constructor; [done || (vm_compute; discriminate)|]). constructor.
Qed.

Definition ex_placed (id : string) : string * Z := if seqb id "r1" then ("b1", 10) else ("b2", 20).
Lemma ex_index_fits : Forall (index_fits ex_placed) ex_ops.
Proof. repeat constructor. Qed.

Lemma ex_published_run : ex_s' = outbox_ops.run ex_service ex_cfg (ex_ops ++ [ex_tick]) (outbox_ops.empty recordindex.Full ex_empty).
Proof. unfold outbox_ops.run. rewrite foldl_app. reflexivity. Qed.

Lemma ex_item_1 : GetGlobalLogOutboxItem "b1" ex_s' = Ok (Some (published_item (ex_queued "b1" Byte.x11) (ex_sth 0) 5)).
Proof. vm_compute. reflexivity. Qed.

Lemma ex_ops_tick_ok : Forall (op_ok ex_service 0) (ex_ops ++ [ex_tick]).
Proof. destruct (proj1 (Forall_cons _ _ _) ex_ops_ok) as [? ?]. apply Forall_app. split; [done|by constructor]. Qed.

Lemma published_attested_witness :
  ∃ lvs, attested ex_service lvs (ex_root "b1" Byte.x11) (ex_sth 0) ∧
    anchorstore_ops.covered (anchors ex_s') ex_anchor (ex_sth 0).(Sth.TreeSize).
Proof.
  destruct (published_attested ex_service ex_service_wf ex_cfg 0 (ex_ops ++ [ex_tick]) recordindex.Full ex_empty
    ltac:(lia) ex_ops_tick_ok eq_refl ltac:(vm_compute; discriminate)) as (lvs & _ & Hp).
  exists lvs. rewrite <- ex_published_run in Hp. destruct (Hp _ _ ex_item_1 eq_refl) as [Ha Hc].
  split; [exact Ha|]. exact (Hc ex_anchor eq_refl).
Defined.

Lemma ex_listed :
  ListPendingGlobalLogForStream "node-1" "trustdb-global-log" 2000 1 ex_s = Ok [ex_queued "b1" Byte.x11].
Proof. vm_compute. reflexivity. Qed.

Lemma ex_ops_only_ok : Forall (op_ok ex_service 0) ex_ops.
Proof. by destruct (proj1 (Forall_cons _ _ _) ex_ops_ok). Qed.

Lemma pending_exact_witness :
  ∃ m, rep ex_s m ∧ pending_in m "node-1" "trustdb-global-log" (ex_queued "b1" Byte.x11).
Proof.
  destruct (pending_exact ex_service ex_service_wf ex_cfg 0 ex_ops recordindex.Full ex_empty "node-1"
    "trustdb-global-log" 2000 1 _ ltac:(lia) ex_ops_only_ok eq_refl ltac:(vm_compute; discriminate) ltac:(lia) ex_listed)
    as (m & R & _ & _ & Hin & _).
  exists m. split; [exact R|]. apply Hin. apply list_elem_of_here.
Defined.

Lemma ex_r1_stored : holds ex_placed ex_s "r1" (ex_idx "r1" "L3" "b1" 10).
Proof.
  split; [|done]. eexists. split; [|vm_compute; reflexivity]. vm_compute. reflexivity.
Qed.

Lemma publication_complete_witness :
  ∃ idx, holds ex_placed ex_s' "r1" idx ∧ 4 <= rank idx.
Proof.
  destruct (publication_complete ex_service ex_cfg ex_placed 0 ex_ops recordindex.Full ex_empty ex_env ex_now ex_s'
    ["b1"; "b2"] true ex_service_wf ltac:(lia) ex_ops_ok ex_index_fits eq_refl ltac:(vm_compute; discriminate)
    ltac:(discriminate) ex_tick_eq) as [_ Hr].
  destruct (Hr _ _ ex_r1_stored) as (idx & Hh & _ & _ & H4). exists idx. split; [exact Hh|]. apply H4.
  apply list_elem_of_here.
Defined.

End outbox_examples.
