(* ===== verification/L5Projector.v ===== *)
(** * The projection of anchors to record levels

    Models [src/internal/l5projector/service.go]: a page of the global log that
    the latest anchor covers is promoted to level L5, batch by batch, and then
    the checkpoint advances.

    The store is that of [RecordIndex], with its anchor tables and its log.  The
    goroutine that calls [projectAvailable], its timer and its trigger are not
    modelled. *)

From S2P Require Import Prelude TrustErr CryptoSuite Model Cborx KeyDescriptor ModelSuite.
From S2P Require Import StoreMonad GlobalStore AnchorSchedule L5Coverage AnchorStore RecordSearch RecordIndex.
From S2P Require Import TrustCrypto.
From S2P Require Import Merkle GlobalLog GlobalLogProofs.
From S2P Require Import AnchorScheduleProofs AnchorStoreProofs AnchorStoreOps.
From S2P Require Import RecordSearchProofs RecordIndexOps.
From S2P Require Import Outbox OutboxOps OutboxRecords.

Module l5projector.
Import recordindex.

Definition defaultPageSize : Z := 128.

Record Config := mkConfig { Key : SKey.t; PageSize : Z }.

Definition New (cfg : Config) : result Config :=
  _ ← anchorschedule.ValidateKey (Key cfg);
  let cfg := if PageSize cfg <=? 0 then mkConfig (Key cfg) defaultPageSize else cfg in
  if 1000 <? PageSize cfg
  then Err (TrustErr.New CodeInvalidArgument "L5 coverage page size must not exceed 1000")
  else Ok cfg.

Section service.
Context `{KeyDescriptorLib, FiscoLib, UnicodeLib}.
Context `{CborMode Res.t, CborMode Ref.t, CborMode Cp.t, CborMode Idx.t}.

(** Promotes the leaves of a page, the first of which must have index [want];
    returns the ids of the batches. *)
Fixpoint promotePage (key : SKey.t) (want : Z) (leaves : list GlobalLogLeaf.t) : io Store (list string) :=
  match leaves with
  | [] => mret []
  | leaf :: rest =>
      if negb (leaf.(GlobalLogLeaf.LeafIndex) =? want)
      then lift (Err (TrustErr.New CodeDataLoss "L5 coverage leaf index %d does not match expected %d")) else
      if negb (seqb leaf.(GlobalLogLeaf.NodeID) key.(SKey.NodeID))
         || negb (seqb leaf.(GlobalLogLeaf.LogID) key.(SKey.LogID))
      then lift (Err (TrustErr.New CodeDataLoss "L5 coverage leaf belongs to another Global Log")) else
      if seqb leaf.(GlobalLogLeaf.BatchID) ""
      then lift (Err (TrustErr.New CodeDataLoss "L5 coverage leaf has an empty batch_id")) else
      _ ← PromoteBatchProofLevel leaf.(GlobalLogLeaf.BatchID) "L5";
      batchIDs ← promotePage key (u64 (want + 1)) rest;
      mret (leaf.(GlobalLogLeaf.BatchID) :: batchIDs)
  end.

(** Whether a page was promoted: the batches that the callback is given.  The
    subtraction does not wrap, as [start] is below the tree size. *)
Definition ProjectPage (cfg : Config) (now : Z) : io Store (option (list string)) :=
  found ← zoom anchors put_anchors (anchorstore.LatestSTHAnchorResultForKey (Key cfg));
  match found with
  | None => mret None
  | Some result =>
      _ ← lift (wrap_err CodeDataLoss "latest L5 anchor result is invalid"
                  (anchorschedule.ValidateResult (Key cfg) result));
      if negb (AnchorResultProvidesOfflineL5 result) then mret None else
      checkpoint ← reads (λ s, anchorstore.GetL5CoverageCheckpoint (Key cfg) (anchors s));
      let start := match checkpoint with Some c => c.(Cp.CoveredTreeSize) | None => 0 end in
      if result.(Res.TreeSize) <? start
      then lift (Err (TrustErr.New CodeDataLoss "L5 coverage checkpoint exceeds latest anchor tree size")) else
      if start =? result.(Res.TreeSize) then mret None else
      let remaining := result.(Res.TreeSize) - start in
      let count := if remaining <? PageSize cfg then remaining else PageSize cfg in
      leaves ← reads (λ s, pebble.ListGlobalLeavesRange (base s) start count);
      if negb (len leaves =? count)
      then lift (Err (TrustErr.New CodeDataLoss "L5 coverage page contains a missing Global Log leaf")) else
      batchIDs ← promotePage (Key cfg) start leaves;
      _ ← zoom anchors put_anchors (anchorstore.AdvanceL5CoverageCheckpoint (Key cfg) (u64 (start + count)) now);
      mret (Some batchIDs)
  end.

(** The loop, with the clock of its pages; [None] when it does not end. *)
Fixpoint projectAvailable (fuel : nat) (cfg : Config) (Clock : nat → Z) (s : Store) : option (Store * result unit) :=
  match fuel with
  | O => None
  | S fuel =>
      match ProjectPage cfg (Clock 0%nat) s with
      | (s, Err e) => Some (s, Err e)
      | (s, Ok None) => Some (s, Ok tt)
      | (s, Ok (Some _)) => projectAvailable fuel cfg (λ n, Clock (S n)) s
      end
  end.

End service.
End l5projector.

(** * What the projection to L5 guarantees

    A history mixes the operations of [OutboxOps] with pages of the projector.
    Records are at L5 only when an anchor covers their batch; below the
    checkpoint all of them are; and the loop of the projector ends. *)

Module l5projector_proofs.
Import recordindex l5projector recordlevels anchorcoverage.
Import anchorstore_proofs (encodes, change, readCBOR_exact).
Import anchorstore_ops (descends).

Lemma post_run {S A} (m : io S A) s s' r (Q : result A → S → Prop) : m s = (s', r) → Q r s' → post m s Q.
Proof. unfold post. by intros ->. Qed.

(** ** One page *)

Section page.
Context `{KeyDescriptorLib, FiscoLib, UnicodeLib}.
Context `{CborMode Res.t, CborMode Ref.t, CborMode Sch.t, CborMode Cp.t, CborMode Idx.t}.
Context `{!CborModeExact Res.t, !CborModeExact Ref.t, !CborModeExact Cp.t, !CborModeExact Idx.t}.
Context (placed : string → string * Z).

Definition kept_index (s s' : Store) : Prop :=
  anchors s' = anchors s ∧ recordIndexMode s' = recordIndexMode s ∧
  recordindex_proofs.coherent placed (recordIndexMode s') (entries s').

Lemma promote_one s b :
  recordindex_proofs.coherent placed (recordIndexMode s) (entries s) → b ≠ "" →
  post (PromoteBatchProofLevel b "L5") s (λ r s',
    kept_index s s' ∧
    (∀ P, each P (entries s) →
       (∀ idx, P idx → idx.(Idx.BatchID) = b → rank idx < 5 → P (with_level "L5" idx)) → each P (entries s')) ∧
    (r = Ok tt → recordIndexMode s ≠ TimeOnly → each (λ idx, idx.(Idx.BatchID) = b → 5 <= rank idx) (entries s'))).
Proof.
  intros C Hb.
  assert (PromoteBatchProofLevel b "L5" = promoteBatchRecords b "L5") as E.
  { unfold PromoteBatchProofLevel. by rewrite (proj2 (seqb_false _ _) Hb). }
  pose proof (recordindex_ops.promote_coherent placed s b "L5" C) as Hc. rewrite E in *.
  destruct Hc as [[Ha Hm] Hc]. split; [done|]. split.
  - intros P HP Hup. by apply (each_promote placed P s b "L5" C eq_refl ltac:(done) HP).
  - intros Hr Hm'. apply (promoted_full placed b "L5" s); [done..|]. destruct (promoteBatchRecords b "L5" s). cbn in *. congruence.
Qed.

Definition at_L5 (b : string) (idx : Idx.t) : Prop := idx.(Idx.BatchID) = b → 5 <= rank idx.

(** A property of all records that the promotions of [leaves] keep, if the first
    of them has index [want] and the others follow. *)
Definition promotable (P : Idx.t → Prop) (want : Z) (leaves : list GlobalLogLeaf.t) : Prop :=
  ∀ idx (j : nat) leaf, leaves !! j = Some leaf → leaf.(GlobalLogLeaf.LeafIndex) = u64 (want + Z.of_nat j) →
    P idx → idx.(Idx.BatchID) = leaf.(GlobalLogLeaf.BatchID) → rank idx < 5 → P (with_level "L5" idx).

Lemma at_L5_promotable b want leaves : promotable (at_L5 b) want leaves.
Proof. intros idx j leaf _ _ Hp _ Hr Hb. cbn in Hb. specialize (Hp Hb). lia. Qed.

Lemma u64_next want (j : nat) : u64 (u64 (want + 1) + Z.of_nat j) = u64 (want + Z.of_nat (S j)).
Proof. unfold u64. rewrite Zplus_mod_idemp_l. f_equal. lia. Qed.

(** A page of promotions: what held of all records and is kept by the promotions
    of these leaves still holds, and after success the leaves were consecutive
    and their records are at L5. *)
Lemma promotePage_spec key want leaves s :
  recordindex_proofs.coherent placed (recordIndexMode s) (entries s) → 0 <= want < two64 →
  post (promotePage key want leaves) s (λ r s',
    kept_index s s' ∧ (∀ P, each P (entries s) → promotable P want leaves → each P (entries s')) ∧
    ∀ ids, r = Ok ids →
      (∀ j leaf, leaves !! j = Some leaf → leaf.(GlobalLogLeaf.LeafIndex) = u64 (want + Z.of_nat j)) ∧
      (recordIndexMode s ≠ TimeOnly → ∀ leaf, leaf ∈ leaves → each (at_L5 leaf.(GlobalLogLeaf.BatchID)) (entries s'))).
Proof.
  revert want s. induction leaves as [|leaf leaves IH]; intros want s C Hw; cbn [promotePage].
  { apply post_ret. split; [done|]. split; [done|]. intros ids _. split; [done|]. intros _ l ?%elem_of_nil. done. }
  assert (∀ e s', kept_index s s' → (∀ P, each P (entries s) → promotable P want (leaf :: leaves) → each P (entries s')) →
    kept_index s s' ∧ (∀ P, each P (entries s) → promotable P want (leaf :: leaves) → each P (entries s')) ∧
    ∀ ids : list string, Err e = Ok ids → (∀ j l, (leaf :: leaves) !! j = Some l → l.(GlobalLogLeaf.LeafIndex) = u64 (want + Z.of_nat j)) ∧
      (recordIndexMode s ≠ TimeOnly → ∀ l, l ∈ leaf :: leaves → each (at_L5 l.(GlobalLogLeaf.BatchID)) (entries s'))) as Herr
    by done.
  apply post_if; intros Ei; [by apply post_lift; apply Herr|]. apply post_if; intros _; [by apply post_lift; apply Herr|].
  apply post_if; intros Eb; [by apply post_lift; apply Herr|]. apply negb_false_iff, Z.eqb_eq in Ei. apply seqb_false in Eb.
  apply post_bind. eapply post_mono; [by apply promote_one|]. intros r s1 ((Ka & Km & Kc) & K1 & K2).
  assert (∀ P, each P (entries s) → promotable P want (leaf :: leaves) → each P (entries s1)) as K1'.
  { intros P HP Hup. apply K1; [done|]. intros idx Hi Hb Hr. apply (Hup idx 0%nat leaf); [done| |done..].
    by rewrite Ei, Z.add_0_r, u64_small. }
  destruct r as [[]|e]; [|by apply Herr]. specialize (K2 eq_refl).
  apply post_bind. eapply post_mono; [apply (IH (u64 (want + 1)) s1 Kc), u64_range|].
  intros r s2 ((La & Lm & Lc) & L1 & L2).
  assert (kept_index s s2) as K by (split_and!; congruence || done).
  assert (∀ P, each P (entries s) → promotable P want (leaf :: leaves) → each P (entries s2)) as L1'.
  { intros P HP Hup. apply L1; [by apply K1'|]. intros idx j l Hl Hj. apply (Hup idx (S j) l); [done|].
    by rewrite Hj, u64_next. }
  destruct r as [ids|e]; [|by apply Herr]. apply post_ret. split; [done|]. split; [done|]. intros ids' _.
  destruct (L2 ids eq_refl) as [L3 L4]. split.
  - intros [|j] l Hj; cbn in Hj.
    + injection Hj as <-. rewrite Ei, Z.add_0_r, u64_small; [done|exact Hw].
    + by rewrite (L3 j l Hj), u64_next.
  - intros Hm l [-> |Hl]%elem_of_cons.
    + apply L1; [by apply K2|apply at_L5_promotable].
    + apply L4; [congruence|done].
Qed.

(** *** The page against the log and the anchors *)

(** The leaves of the log, at their indexes. *)
Definition holds_leaves (s : Store) (lvs : list GlobalLogLeaf.t) : Prop :=
  ∀ k l, c_leaves (pebble.db (base s)) !! k = Some l →
    0 <= k ∧ lvs !! Z.to_nat k = Some l ∧ l.(GlobalLogLeaf.LeafIndex) = k.

Lemma listed_leaf s lvs start n leaves l :
  holds_leaves s lvs → pebble.ListGlobalLeavesRange (base s) start n = Ok leaves → l ∈ leaves →
  0 <= l.(GlobalLogLeaf.LeafIndex) ∧ lvs !! Z.to_nat l.(GlobalLogLeaf.LeafIndex) = Some l.
Proof.
  intros HL E Hl. destruct (pebble.range_leaf (base s) start n leaves l E Hl) as (k & Hk).
  destruct (HL k l Hk) as (? & ? & ->). done.
Qed.

(** A stored anchor result that gives offline L5 to the first [n] leaves. *)
Definition anchored (a : anchorstore.Store) (n : Z) : Prop :=
  ∃ res, descends a res ∧ AnchorResultProvidesOfflineL5 res = true ∧ n <= res.(Res.TreeSize).

(** Checkpoints stay inside the log, and the records below them are at L5. *)
Definition covered_ok (full : Prop) (a : anchorstore.Store) (es : gmap key bytes) (lvs : list GlobalLogLeaf.t) : Prop :=
  ∀ key b, anchorstore.coverage a !! key = Some b →
    ∃ n, covered_to a key n ∧ 0 <= n <= len lvs ∧
      (full → ∀ i l, Z.of_nat i < n → lvs !! i = Some l → each (at_L5 l.(GlobalLogLeaf.BatchID)) es).

Lemma covered_well_formed full a es lvs : covered_ok full a es lvs → well_formed a.
Proof. intros Hc key b Hb. destruct (Hc key b Hb) as (n & ? & _). by exists n. Qed.

Lemma covered_same full a a' es es' lvs :
  covered_ok full a es lvs → anchorstore.coverage a' = anchorstore.coverage a →
  (∀ b, each (at_L5 b) es → each (at_L5 b) es') → covered_ok full a' es' lvs.
Proof.
  intros Hc E He key b Hb. rewrite E in Hb. destruct (Hc key b Hb) as (n & Hn & Hr & Hf). exists n.
  split_and!; [unfold covered_to in *; by rewrite E|lia..|]. intros F i l Hi Hl. apply He. by eapply Hf.
Qed.

Lemma covered_advance full a a' es es' lvs key n :
  covered_ok full a es lvs → (∃ data, a' = anchorstore.set a (anchorstore.SetCoverage key data)) → covered_to a' key n →
  0 <= n <= len lvs → (∀ b, each (at_L5 b) es → each (at_L5 b) es') →
  (full → ∀ i l, Z.of_nat i < n → lvs !! i = Some l → each (at_L5 l.(GlobalLogLeaf.BatchID)) es') →
  covered_ok full a' es' lvs.
Proof.
  intros Hc [data Ed] Hto Hn He Hf k b Hb. destruct (decide (k = key)) as [-> |Hne]; [by exists n|].
  assert (anchorstore.coverage a' !! k = anchorstore.coverage a !! k) as Ek by (subst a'; cbn; by rewrite lookup_insert_ne).
  rewrite Ek in Hb. destruct (Hc k b Hb) as (n' & Hn' & Hr & Hf'). exists n'. unfold covered_to in *. rewrite Ek.
  split_and!; [done|lia..|]. intros F i l Hi Hl. apply He. by eapply Hf'.
Qed.

(** Whether the index is complete below the checkpoints, which needs the index
    of the batches. *)
Context (full : Prop).

Lemma descends_published a res : anchorstore_proofs.published a res → descends a res.
Proof. intros (b & Hb & He). exists b, res. split_and!; [done..|by destruct res|done]. Qed.

(** The lookup at the start of a page touches nothing but the cache. *)
Lemma latest_lookup a key a' r :
  anchorstore_proofs.inv a → anchorstore.LatestSTHAnchorResultForKey key a = (a', r) →
  rtc (change false) a a' ∧ anchorstore.base a' = anchorstore.base a ∧
  anchorstore.coverage a' = anchorstore.coverage a ∧ anchorstore.results a' = anchorstore.results a ∧
  ∀ res, r = Ok (Some res) → descends a res.
Proof.
  intros A E. assert (anchorstore.coverage a' = anchorstore.coverage a) as Ec.
  { pose proof (preserves_bind anchorstore.coverage (lift (anchorschedule.ValidateKey key))
      (λ _, anchorstore.latestSTHAnchorResultLocked (Some key)) ltac:(done) ltac:(intros; apply latest_coverage) a) as Hp.
    change (anchorstore.coverage (anchorstore.LatestSTHAnchorResultForKey key a).1 = anchorstore.coverage a) in Hp. by rewrite E in Hp. }
  unfold anchorstore.LatestSTHAnchorResultForKey, mbind, io_bind, lift in E.
  destruct (anchorschedule.ValidateKey key); [|injection E as <- <-; split_and!; [constructor|done..]].
  apply (post_intro _ _ _ (anchorstore_proofs.latest_locked a (Some key) A)) in E as (Hs & (Er & _ & _ & Eb) & Hl).
  split_and!; [done..|]. intros res ->. apply descends_published. apply Hl.
Qed.

(** The state of a page: what the promotions keep, and the checkpoints. *)
Definition page_ok (s : Store) (lvs : list GlobalLogLeaf.t) (s' : Store) : Prop :=
  (rtc (change false) (anchors s) (anchors s') ∧ anchorstore.base (anchors s') = anchorstore.base (anchors s) ∧
   recordIndexMode s' = recordIndexMode s ∧ recordindex_proofs.coherent placed (recordIndexMode s') (entries s')) ∧
  (∀ P, each P (entries s) →
     (∀ idx (i : nat) l, lvs !! i = Some l → anchored (anchors s) (Z.of_nat i + 1) → P idx →
        idx.(Idx.BatchID) = l.(GlobalLogLeaf.BatchID) → rank idx < 5 → P (with_level "L5" idx)) →
     each P (entries s')) ∧
  covered_ok full (anchors s') (entries s') lvs.

(** A page moves the checkpoint forward, or finds it at the latest result. *)
Definition page_result (cfg : Config) (s : Store) (lvs : list GlobalLogLeaf.t) (r : result (option (list string)))
    (s' : Store) : Prop :=
  match r with
  | Ok (Some _) => ∃ n n', starts_at (anchors s) (Key cfg) n ∧ (∀ k, starts_at (anchors s) (Key cfg) k → k = n) ∧
      covered_to (anchors s') (Key cfg) n' ∧ n < n' <= len lvs
  | Ok None => ∃ found, anchorstore.LatestSTHAnchorResultForKey (Key cfg) (anchors s) = (anchors s', Ok found) ∧
      entries s' = entries s ∧ ∀ res, found = Some res → AnchorResultProvidesOfflineL5 res = true →
        starts_at (anchors s') (Key cfg) res.(Res.TreeSize) ∧
        ∀ k, starts_at (anchors s') (Key cfg) k → k = res.(Res.TreeSize)
  | Err _ => True
  end.

Lemma page_indexes (lvs leaves : list GlobalLogLeaf.t) start :
  0 <= start <= len lvs → len lvs <= 2 ^ 62 →
  (∀ l, l ∈ leaves → 0 <= l.(GlobalLogLeaf.LeafIndex) ∧ lvs !! Z.to_nat l.(GlobalLogLeaf.LeafIndex) = Some l) →
  (∀ (j : nat) leaf, leaves !! j = Some leaf → leaf.(GlobalLogLeaf.LeafIndex) = u64 (start + Z.of_nat j)) →
  start + len leaves <= len lvs ∧
  ∀ (j : nat) leaf, leaves !! j = Some leaf → leaf.(GlobalLogLeaf.LeafIndex) = start + Z.of_nat j.
Proof.
  intros Hs H62 Hin Hidx.
  assert (∀ n, (n <= length leaves)%nat → start + Z.of_nat n <= len lvs) as Hb.
  { induction n as [|n IH]; intros Hn; [lia|]. destruct (lookup_lt_is_Some_2 leaves n) as [l Hl]; [lia|].
    specialize (IH ltac:(lia)). pose proof (Hidx n l Hl) as El. destruct (Hin l) as [H0l Hl']; [by eapply list_elem_of_lookup_2|].
    rewrite u64_small in El by (unfold in_u64, two64; lia). apply lookup_lt_Some in Hl'. unfold len in *. lia. }
  split; [unfold len; by apply Hb|]. intros j l Hl. rewrite (Hidx j l Hl). apply u64_small.
  apply lookup_lt_Some in Hl. specialize (Hb (S j) ltac:(lia)). unfold in_u64, two64. lia.
Qed.

(** The part of the page after the guards. *)
Lemma project_leaves cfg now s lvs res start count leaves :
  recordindex_proofs.coherent placed (recordIndexMode s) (entries s) → holds_leaves s lvs → len lvs <= 2 ^ 62 →
  (full → recordIndexMode s ≠ TimeOnly) → covered_ok full (anchors s) (entries s) lvs →
  descends (anchors s) res → AnchorResultProvidesOfflineL5 res = true →
  starts_at (anchors s) (Key cfg) start → (∀ k, starts_at (anchors s) (Key cfg) k → k = start) →
  0 < count <= res.(Res.TreeSize) - start →
  pebble.ListGlobalLeavesRange (base s) start count = Ok leaves → len leaves = count →
  post (batchIDs ← promotePage (Key cfg) start leaves;
        _ ← zoom anchors put_anchors (anchorstore.AdvanceL5CoverageCheckpoint (Key cfg) (u64 (start + count)) now);
        mret (Some batchIDs)) s (λ r s', page_ok s lvs s' ∧ page_result cfg s lvs r s' ∧ r ≠ Ok None).
Proof.
  intros C HL H62 Hfull Hc Hres Hl5 Hst Hu Hcount El Elen.
  assert (0 <= start <= len lvs) as Hrange.
  { destruct Hst as [[_ ->]|(b & cp & Hb & He & <-)]; [unfold len; lia|].
    destruct (Hc _ _ Hb) as (n & Hn & Hr & _). rewrite <- (Hu n); [lia|by right]. }
  assert (∀ l, l ∈ leaves → 0 <= l.(GlobalLogLeaf.LeafIndex) ∧ lvs !! Z.to_nat l.(GlobalLogLeaf.LeafIndex) = Some l) as Hin
    by (intros l; by eapply listed_leaf).
  apply post_bind. eapply post_mono; [apply promotePage_spec; [done|unfold two64; lia]|].
  intros r s1 ((Ea & Em & C1) & K1 & K2).
  assert (∀ P, each P (entries s) →
     (∀ idx (i : nat) l, lvs !! i = Some l → anchored (anchors s) (Z.of_nat i + 1) → P idx →
        idx.(Idx.BatchID) = l.(GlobalLogLeaf.BatchID) → rank idx < 5 → P (with_level "L5" idx)) →
     each P (entries s1)) as K3.
  { intros P HP Hup. apply K1; [done|]. intros idx j leaf Hj Ej. destruct (Hin leaf) as [Hpos Hl]; [by eapply list_elem_of_lookup_2|].
    eapply Hup; [exact Hl|]. exists res. split_and!; [done..|]. apply lookup_lt_Some in Hj.
    pose proof (Z.mod_le (start + Z.of_nat j) two64 ltac:(lia) ltac:(unfold two64; lia)) as Hmod.
    rewrite Ej in *. unfold u64 in *. unfold len in *. lia. }
  assert (∀ e, page_ok s lvs s1 ∧ page_result cfg s lvs (Err e) s1 ∧ (Err e : result (option (list string))) ≠ Ok None) as Hfail.
  { intros e. split; [|done].
    split_and!; [rewrite Ea; constructor|by rewrite Ea|done|done|done|].
    eapply covered_same; [exact Hc|by rewrite Ea|]. intros b Hb. apply K1; [done|apply at_L5_promotable]. }
  destruct r as [ids|e]; [|by apply Hfail]. destruct (K2 ids eq_refl) as [K4 K5].
  destruct (page_indexes lvs leaves start Hrange H62 Hin K4) as [Hend Hidx].
  rewrite u64_small by (unfold in_u64, two64; lia).
  apply post_bind, post_zoom. rewrite Ea.
  eapply post_mono; [apply advance_spec; [by eapply covered_well_formed|intros k Hk; rewrite (Hu k Hk); lia]|].
  intros r a' [[-> [e ->]]|([c ->] & [data Ed] & Hto)].
  { destruct (Hfail e) as [Hp _]. split; [|done]. destruct Hp as (HA & HB & HC). rewrite Ea in *. done. }
  apply post_ret. split; [|split; [|done]].
  - split_and!; [|by subst a'|done|done|done|].
    + apply rtc_once. by eapply anchorstore_proofs.ch_coverage.
    + apply (covered_advance _ (anchors s) _ (entries s) _ lvs (Key cfg) (start + count)); [done|by eexists|done|lia| |].
      * intros b Hb. apply K1; [done|apply at_L5_promotable].
      * intros Hm i l Hi Hl. destruct (decide (Z.of_nat i < start)) as [Hlt|Hge].
        { apply K1; [|apply at_L5_promotable]. destruct Hst as [[_ ->]|(b & cp & Hb & He & <-)]; [lia|].
          destruct (Hc _ _ Hb) as (n & Hn & _ & Hf). rewrite <- (Hu n) in Hlt by (by right). by eapply Hf. }
        destruct (lookup_lt_is_Some_2 leaves (i - Z.to_nat start)) as [leaf Hleaf]; [unfold len in *; lia|].
        destruct (Hin leaf) as [_ Hl']; [by eapply list_elem_of_lookup_2|].
        rewrite (Hidx _ _ Hleaf) in Hl'. replace (Z.to_nat _) with i in Hl' by lia.
        assert (leaf = l) as <- by congruence. apply K5; [by apply Hfull|]. by eapply list_elem_of_lookup_2.
  - exists start, (start + count). split_and!; [done..|lia|lia].
Qed.

Lemma page_ok_same s lvs a :
  recordindex_proofs.coherent placed (recordIndexMode s) (entries s) →
  covered_ok full (anchors s) (entries s) lvs →
  rtc (change false) (anchors s) a → anchorstore.base a = anchorstore.base (anchors s) →
  anchorstore.coverage a = anchorstore.coverage (anchors s) → page_ok s lvs (put_anchors a s).
Proof.
  intros C Hc Hs Hb Hv. split_and!; [done..|]. eapply covered_same; [exact Hc|done|done].
Qed.

Lemma page_ok_trans s lvs a s' :
  page_ok s lvs (put_anchors a s) → (∀ n, anchored a n → anchored (anchors s) n) →
  page_ok (put_anchors a s) lvs s' → page_ok s lvs s'.
Proof.
  intros ((S1 & B1 & _ & _) & _ & _) Hd ((S2 & B2 & M2 & C2) & E2 & O2). split_and!; try done.
  - by etrans.
  - by rewrite B2.
  - intros P HP Hup. apply E2; [done|]. intros idx i l Hl Ha. by eapply Hup; [|apply Hd].
Qed.

Definition page_pre (s : Store) (lvs : list GlobalLogLeaf.t) : Prop :=
  recordindex_proofs.coherent placed (recordIndexMode s) (entries s) ∧ anchorstore_proofs.inv (anchors s) ∧
  holds_leaves s lvs ∧ len lvs <= 2 ^ 62 ∧
  (full → recordIndexMode s ≠ TimeOnly) ∧ covered_ok full (anchors s) (entries s) lvs.

Lemma page_pre_next s lvs s' : page_pre s lvs → page_ok s lvs s' → page_pre s' lvs.
Proof.
  intros (C & A & HL & H62 & Hfull & Hc) ((S' & B' & M' & C') & _ & O'). split_and!; [done| | |done|by rewrite M'|done].
  - by apply (anchorstore_proofs.steps_inv false (anchors s)).
  - intros k l. unfold base. rewrite B'. apply HL.
Qed.

Lemma project_spec cfg now s lvs :
  page_pre s lvs → 0 < PageSize cfg →
  post (ProjectPage cfg now) s (λ r s', page_ok s lvs s' ∧ page_result cfg s lvs r s').
Proof.
  intros (C & A & HL & H62 & Hfull & Hc) Hps. unfold ProjectPage. apply post_bind, post_zoom.
  destruct (anchorstore.LatestSTHAnchorResultForKey (Key cfg) (anchors s)) as [a r] eqn:El.
  destruct (latest_lookup _ _ _ _ A El) as (Hs & Hb & Hv & Hr & Hres). 
  assert (page_ok s lvs (put_anchors a s)) as Hok by by apply page_ok_same.
  eapply post_run; [exact El|].
  destruct r as [[res|]|e]; [| |by split].
  2: { split; [done|]. exists None. by split_and!. }
  set (s1 := put_anchors a s) in *.
  io_step; [by split|]. io_step.
  { apply post_ret. split; [done|]. exists (Some res). split_and!; [done..|]. intros ? [= <-] Hl5.
    match goal with E : negb _ = true |- _ => apply negb_true_iff in E; congruence end. }
  match goal with E : negb (AnchorResultProvidesOfflineL5 res) = false |- _ => apply negb_false_iff in E as Hl5 end.
  assert (covered_ok full (anchors s1) (entries s1) lvs) as Hc1 by apply Hok.
  io_step; [by split|]. match goal with E : anchorstore.GetL5CoverageCheckpoint _ _ = Ok ?x |- _ =>
    rename x into cp; apply get_start in E as [Hst Hu]; [|by eapply covered_well_formed] end.
  cbv zeta. set (start := match cp with Some c => _ | None => 0 end) in *.
  io_step; [by apply post_lift; split|]. io_step.
  { apply post_ret. split; [done|]. exists (Some res). split_and!; [done..|]. intros ? [= <-] _.
    match goal with E : (start =? _) = true |- _ => apply Z.eqb_eq in E; by rewrite <- E in * end. }
  io_step; [by split|]. match goal with E : pebble.ListGlobalLeavesRange _ _ _ = Ok ?x |- _ => rename x into leaves, E into Elv end.
  io_step; [by apply post_lift; split|]. bsimpl.
  set (count := if _ <? _ then _ else _) in *.
  assert (descends a res) as Hda.
  { destruct (Hres res eq_refl) as (b & r' & Hb' & ?). exists b, r'. by rewrite Hr. }
  assert (0 < count <= res.(Res.TreeSize) - start) as Hcount.
  { unfold count. destruct (_ <? PageSize cfg) eqn:Ec; bsimpl; lia. }
  assert (holds_leaves s1 lvs) as HL1 by (intros k l; unfold base, s1; cbn; rewrite Hb; apply HL).
  eapply post_mono; [by apply (project_leaves cfg now s1 lvs res start count leaves)|].
  intros r s' (Hp & Hres' & Hnone). split.
  - eapply page_ok_trans; [exact Hok| |exact Hp]. intros n (x & (b & r' & Hb' & Hx) & ? & ?). exists x. split_and!; [|done..].
    exists b, r'. by rewrite <- Hr.
  - destruct r as [[ids|]|e]; [|done|done]. destruct Hres' as (n & n' & Hn & Hun & Hto).
    exists n, n'. unfold starts_at, covered_to in *. cbn [anchors s1 put_anchors] in Hn, Hun. by rewrite Hv in Hn, Hun.
Qed.

(** ** The loop *)

(** The last lookup found no result that gives L5, or one whose leaves all have
    their records at L5. *)
Definition caught_up (cfg : Config) (lvs : list GlobalLogLeaf.t) (s' : Store) : Prop :=
  ∃ a found, anchorstore.LatestSTHAnchorResultForKey (Key cfg) a = (anchors s', Ok found) ∧
    anchorstore.results a = anchorstore.results (anchors s') ∧
    ∀ res, found = Some res → AnchorResultProvidesOfflineL5 res = true → res.(Res.TreeSize) <= len lvs ∧
      (full → ∀ i l, Z.of_nat i < res.(Res.TreeSize) → lvs !! i = Some l →
         each (at_L5 l.(GlobalLogLeaf.BatchID)) (entries s')).

Lemma page_caught_up cfg s lvs s' :
  page_pre s lvs → page_ok s lvs s' → page_result cfg s lvs (Ok None) s' → caught_up cfg lvs s'.
Proof.
  intros (_ & A & _) (_ & _ & O) (found & El & Ee & Hf). exists (anchors s), found.
  destruct (latest_lookup _ _ _ _ A El) as (_ & _ & _ & Hr & _). split_and!; [done..|]. intros res Er Hl5.
  destruct (Hf res Er Hl5) as [[[_ E0]|(b & cp & Hb & He & Ec)] Hu].
  { rewrite E0. split; [unfold len; lia|]. intros _ i l Hi. lia. }
  destruct (O _ _ Hb) as (n & Hn & Hrange & Hrec). rewrite <- (Hu n) by (by right). split; [lia|]. done.
Qed.

Lemma project_ends cfg lvs fuel Clock s n :
  page_pre s lvs → 0 < PageSize cfg → starts_at (anchors s) (Key cfg) n → n <= len lvs < Z.of_nat fuel + n →
  ∃ s' r, projectAvailable fuel cfg Clock s = Some (s', r) ∧ page_pre s' lvs ∧
    recordIndexMode s' = recordIndexMode s ∧ (r = Ok tt → caught_up cfg lvs s').
Proof.
  intros Hpre Hps. revert Clock s n Hpre. induction fuel as [|fuel IH]; intros Clock s n Hpre Hn Hf; [lia|].
  cbn [projectAvailable]. pose proof (project_spec cfg (Clock 0%nat) s lvs Hpre Hps) as Hp. unfold post in Hp.
  destruct (ProjectPage cfg (Clock 0%nat) s) as [s1 r]. cbn in Hp. destruct Hp as [Hok Hr].
  pose proof (page_pre_next _ _ _ Hpre Hok) as Hpre1. assert (recordIndexMode s1 = recordIndexMode s) as M1 by apply Hok.
  destruct r as [[ids|]|e].
  - destruct Hr as (k & n' & Hk & Hu & Hto & Hlt). rewrite (Hu n Hn) in Hf.
    destruct (IH (λ n, Clock (S n)) s1 n' Hpre1) as (s' & r & E & ? & M & ?); [by right|lia|].
    exists s', r. split_and!; [done..|congruence|done].
  - exists s1, (Ok tt). split_and!; [done..|]. intros _. by apply (page_caught_up cfg s).
  - exists s1, (Err e). by split_and!.
Qed.

End page.
End l5projector_proofs.
