(* ===== verification/L5System.v ===== *)
(** * The whole path of a record from L3 to L5

    Histories of the store: batches are enqueued and published to the log
    ([OutboxOps]), heads are anchored, records are indexed, and the projector
    ([L5Projector]) raises the records below the latest anchor. *)

From S2P Require Import Prelude TrustErr CryptoSuite Model TrustCrypto Cborx KeyDescriptor ModelSuite.
From S2P Require Import StoreMonad Merkle GlobalStore GlobalLog GlobalLogProofs.
From S2P Require Import AnchorSchedule AnchorScheduleProofs L5Coverage AnchorStore AnchorStoreProofs AnchorStoreOps.
From S2P Require Import RecordSearch RecordSearchProofs RecordIndex RecordIndexOps.
From S2P Require Import Outbox OutboxOps OutboxRecords L5Projector.

Module l5system.
Import outbox outbox_ops outbox_records recordlevels anchorcoverage l5projector_proofs.
Import anchorstore_ops (descends).

Section system.
Context `{HashLib, SigLib, KeyDescriptorLib, FiscoLib, UnicodeLib, ErrorText}.
Context `{CborMode GlobalLogLeaf.t, CborMode GlobalLogState.t, CborMode SignedTreeHead.t,
  CborMode GlobalLogNode.t, CborMode GlobalLogTile.t}.
Context `{CborMode Item.t, CborMode Res.t, CborMode Ref.t, CborMode Sch.t, CborMode Cp.t, CborMode Idx.t}.
Context `{!CborModeExact Item.t, !CborModeExact Res.t, !CborModeExact Ref.t, !CborModeExact Sch.t, !CborModeExact Cp.t, !CborModeExact Idx.t}.
Context (svc : globallog.Service) (Hwf : globallog_frontier.service_wf svc) (ocfg : OutboxConfig).
Context (placed : string → string * Z) (mo : recordindex.mode).

Notation entries s := (recordindex.entries (index s)).

(** ** Ticks leave the checkpoints and the results alone *)

Definition anchor_view (s : Store) := (anchorstore.coverage (anchors s), anchorstore.results (anchors s)).

Lemma zoom_anchor_view {A} (k : io anchorstore.Store A) :
  preserves anchorstore.coverage k → preserves anchorstore.results k → preserves anchor_view (zoom anchors put_anchors k).
Proof. intros Hc Hr s. unfold zoom. specialize (Hc (anchors s)). specialize (Hr (anchors s)). destruct (k _). unfold anchor_view. cbn in *. congruence. Qed.

Lemma commit_anchor_view ws : preserves anchor_view (Commit ws).
Proof.
  intros s. unfold Commit, modify. cbn. revert s. induction ws as [|w ws IH]; intros s; [done|]. cbn. rewrite IH. by destruct w.
Qed.

Lemma promote_anchor_view b l : preserves anchor_view (zoom index put_index (recordindex.promoteBatchRecords b l)).
Proof.
  intros s. unfold zoom. pose proof (promote_anchors b l (index s)) as Hp. destruct (recordindex.promoteBatchRecords b l _) as [i r].
  unfold anchor_view, anchors. cbn in *. by rewrite Hp.
Qed.
#[local] Hint Resolve commit_anchor_view promote_anchor_view zoom_anchor_view candidate_coverage candidate_results : preserves.

Lemma mark_anchor_view batchIDs sths cand : preserves anchor_view (markGlobalLogPublishedBatch batchIDs sths cand).
Proof.
  unfold markGlobalLogPublishedBatch, preparePebbleGlobalLogPublication, publishPebbleGlobalLogOutboxBatch.
  destruct (_ || _); [preserving|]. apply preserves_bind; [intros s; by rewrite (requireSTHs_same sths s)|intros _].
  apply preserves_bind; [by destruct cand|intros _]. apply preserves_bind; [preserving|intros _].
  apply preserves_bind; [destruct cand; preserving|intros _]. apply preserves_bind; [|intros _; preserving].
  apply preserves_for_each. intros p. preserving.
Qed.

Lemma tick_anchor_view env Clock s : anchor_view (tick ocfg svc env Clock s).1 = anchor_view s.
Proof.
  destruct (tick _ _ _ _ _) as [s' o] eqn:E. cbn. apply (tick_cases anchor_view) in E as [[E _]|(s1 & ids & sths & r & E1 & E & _)].
  - done.
  - rewrite <- E1. pose proof (mark_anchor_view ids sths) as Hm.
    assert (preserves anchor_view (match AnchorKey ocfg with
      | Some key => publish_with_anchor ocfg key ids sths | None => markGlobalLogPublishedBatch ids sths None end)) as Hp.
    { destruct (AnchorKey ocfg) as [key|]; [|done]. unfold publish_with_anchor, anchorstore.LatestSTHAnchorResultForKey, MarkGlobalLogPublishedBatchWithAnchorCandidate.
      apply preserves_bind; [preserving|intros sch]. apply preserves_bind.
      - apply zoom_anchor_view; (apply preserves_bind; [preserving|intros _]); [apply latest_coverage|apply latest_results].
      - intros latest. apply preserves_bind; [preserving|]. intros [w t]. apply Hm. }
    specialize (Hp s1). by rewrite E in Hp.
  - split; [done|]. intros b n t msg. unfold RescheduleGlobalLog, replaceGlobalLogOutbox. preserving.
Qed.

(** ** Histories *)

Inductive op :=
| Publish (o : outbox_ops.op)
| Project (cfg : l5projector.Config) (now : Z).

Definition exec (o : op) (s : Store) : Store :=
  match o with
  | Publish o => outbox_ops.exec svc ocfg o s
  | Project cfg now => put_index (l5projector.ProjectPage cfg now (index s)).1 s
  end.

Definition run (ops : list op) (s : Store) : Store := foldl (λ s o, exec o s) s ops.

Definition advances (o : outbox_ops.op) : bool :=
  match o with OnAnchors o => is_advance o | _ => false end.

(** As [outbox_ops.op_ok]; records keep their batch and time, and only the
    projector advances checkpoints. *)
Definition op_ok (E : Z) (o : op) : Prop :=
  match o with
  | Publish o => outbox_ops.op_ok svc E o ∧ index_fits placed o ∧ advances o = false
  | Project cfg _ => 0 < l5projector.PageSize cfg
  end.

Definition is_tick (o : op) : Z := match o with Publish o => outbox_ops.is_tick o | Project _ _ => 0 end.
Fixpoint ticks_of (ops : list op) : Z := match ops with [] => 0 | o :: ops => is_tick o + ticks_of ops end.

(** The batches whose records an operation puts into the index. *)
Definition puts (o : op) : list string :=
  match o with
  | Publish (OnIndex (recordindex_ops.Put idx)) => [idx.(Idx.BatchID)]
  | Publish (OnIndex (recordindex_ops.PutChunk _ indexes)) => map Idx.BatchID indexes
  | _ => []
  end.

(** Records are indexed before their batch enters the log. *)
Fixpoint indexed_first (ops : list op) (s : Store) : Prop :=
  match ops with
  | [] => True
  | o :: ops => (∀ b, b ∈ puts o → c_batches (pebble.db (base s)) !! b = None) ∧ indexed_first ops (exec o s)
  end.

Record sys (full : Prop) (s : Store) (m : gmap string Item.t) (lvs : list GlobalLogLeaf.t) : Prop := {
  sy_good : good svc ocfg s m lvs;
  sy_tidy : tidy placed mo s;
  sy_cov : covered_ok full (anchors s) (entries s) lvs }.

Lemma rank_le l : recordsearch.ProofLevelRank l <= 5.
Proof. unfold recordsearch.ProofLevelRank. cbv zeta. repeat (destruct (seqb _ _); [lia|]). lia. Qed.

Lemma rank_nonneg l : 0 <= recordsearch.ProofLevelRank l.
Proof. unfold recordsearch.ProofLevelRank. cbv zeta. repeat (destruct (seqb _ _); [lia|]). lia. Qed.

Lemma covered_grow full a a' es es' lvs new :
  covered_ok full a es lvs → anchorstore.coverage a' = anchorstore.coverage a →
  (full → ∀ l, l ∈ lvs → each (at_L5 l.(GlobalLogLeaf.BatchID)) es → each (at_L5 l.(GlobalLogLeaf.BatchID)) es') →
  covered_ok full a' es' (lvs ++ new).
Proof.
  intros Hc E He key b Hb. rewrite E in Hb. destruct (Hc key b Hb) as (n & Hn & Hr & Hf). exists n.
  split_and!; [unfold covered_to in *; by rewrite E|lia|unfold len in *; rewrite length_app; lia|].
  intros F i l Hi Hl. rewrite lookup_app_l in Hl by (unfold len in *; lia).
  apply He; [done|by eapply list_elem_of_lookup_2|by eapply Hf].
Qed.

(** What a publication step does to the records. *)
Lemma publish_each P o s :
  tidy placed mo s → each P (entries s) →
  (∀ idx, P idx → rank idx < 4 → P (recordindex.with_level "L4" idx)) →
  match o with OnIndex o => writes_ok P o | _ => True end →
  each P (entries (outbox_ops.exec svc ocfg o s)).
Proof.
  intros T HP Hl4 Hw. destruct o as [item|env Clock|o|o]; cbn [outbox_ops.exec].
  - assert (records_of (EnqueueGlobalLog item s).1 = records_of s) as E by apply enqueue_records.
    injection E as _ ->. done.
  - apply (tick_stays (λ s, tidy placed mo s ∧ each P (entries s))); [| |done].
    + intros x y E [Tx Px]. split; [by eapply tidy_eq|]. by injection E as _ ->.
    + intros b x [Tx Px]. split; [by apply promotion_tidy|].
      pose proof (each_promote placed P (index x) b "L4" ltac:(apply Tx) eq_refl ltac:(done) Px) as Hp.
      unfold zoom. destruct (recordindex.promoteBatchRecords b "L4" (index x)) eqn:E. unfold post in Hp. rewrite E in Hp.
      apply Hp. intros idx Hi _. by apply Hl4.
  - done.
  - apply (each_exec placed); [apply T|done|done].
Qed.

Lemma log_leaves s m lvs : good svc ocfg s m lvs → holds_leaves (index s) lvs.
Proof.
  intros G k l Hk. pose proof (g_log _ _ _ _ _ G) as L. change (c_leaves (pebble.db (base s)) !! k = Some l) in Hk.
  rewrite (globallog_proofs.inv_leaves _ _ _ L) in Hk. destruct (k <? 0) eqn:Ek; [done|]. bsimpl.
  split_and!; [done..|]. destruct (globallog_proofs.inv_leaf _ _ _ L _ _ Hk) as [-> _]. lia.
Qed.

Lemma project_sys full cfg now s m lvs :
  sys full s m lvs → (full → mo ≠ recordindex.TimeOnly) → len lvs <= 2 ^ 62 → 0 < l5projector.PageSize cfg →
  let s' := exec (Project cfg now) s in
  sys full s' m lvs ∧ page_ok placed full (index s) lvs (index s').
Proof.
  intros [G [C M] Hc] Hm H62 Hps s'.
  assert (page_pre placed full (index s) lvs) as Hpre.
  { split_and!; [exact C|apply G|by eapply log_leaves|done|by rewrite M|done]. }
  pose proof (project_spec placed full cfg now (index s) lvs Hpre Hps) as [Hok _].
  unfold s', exec. destruct (l5projector.ProjectPage cfg now (index s)) as [i r]. cbn [fst] in *.
  split; [|done]. destruct Hok as ((Hs & Hb & Hm' & Hc') & _ & Ho). constructor.
  - assert (put_index i s = put_index i (put_anchors (recordindex.anchors i) s)) as -> by done.
    apply good_index; [|done]. by apply good_anchors.
  - split; [exact Hc'|]. cbn. congruence.
  - exact Ho.
Qed.

Lemma publish_coverage o s :
  advances o = false → anchorstore.coverage (anchors (outbox_ops.exec svc ocfg o s)) = anchorstore.coverage (anchors s).
Proof.
  intros Ho. destruct o as [item|env Clock|o|o]; cbn [outbox_ops.exec].
  - assert (preserves anchor_view (EnqueueGlobalLog item)) as Hp by (unfold EnqueueGlobalLog, requireSuite; preserving).
    specialize (Hp s). unfold anchor_view in Hp. congruence.
  - pose proof (tick_anchor_view env Clock s) as Hp. unfold anchor_view in Hp. congruence.
  - by apply exec_coverage.
  - unfold anchors. cbn. by rewrite (index_exec_anchors o (index s)).
Qed.

Lemma publish_descends o s m lvs r :
  good svc ocfg s m lvs → descends (anchors s) r → descends (anchors (outbox_ops.exec svc ocfg o s)) r.
Proof.
  intros G Hd. assert (∀ s', anchorstore.results (anchors s') = anchorstore.results (anchors s) → descends (anchors s') r) as Hsame
    by (intros s' E; unfold descends; by rewrite E).
  destruct o as [item|env Clock|o|o]; cbn [outbox_ops.exec].
  - assert (preserves anchor_view (EnqueueGlobalLog item)) as Hp by (unfold EnqueueGlobalLog, requireSuite; preserving).
    specialize (Hp s). apply Hsame. unfold anchor_view in Hp. congruence.
  - pose proof (tick_anchor_view env Clock s) as Hp. apply Hsame. unfold anchor_view in Hp. congruence.
  - assert (rtc (anchorstore_proofs.change true) (anchors s) (anchorstore_ops.exec o (anchors s))) as Hs.
    { pose proof (anchorstore_ops.exec_steps o _ (g_anchor _ _ _ _ _ G)) as Hx. destruct (anchorstore_ops.is_replace o); [done|].
      clear -Hx. induction Hx as [|x y z C _ Hyz]; [constructor|]. eapply rtc_l; [|exact Hyz].
      destruct C; [by eapply anchorstore_proofs.ch_latest|by eapply anchorstore_proofs.ch_root|by eapply anchorstore_proofs.ch_result
        |by eapply anchorstore_proofs.ch_schedule|by eapply anchorstore_proofs.ch_coverage]. }
    change (descends (anchorstore_ops.exec o (anchors s)) r). clear -Hs Hd. induction Hs as [|x y z C _ IH]; [done|].
    by eapply IH, anchorstore_ops.change_descends.
  - apply Hsame. unfold anchors. cbn. by rewrite (index_exec_anchors o (index s)).
Qed.

Lemma publish_sys full E o s m lvs :
  0 <= E → op_ok E (Publish o) → (full → ∀ b, b ∈ puts (Publish o) → c_batches (pebble.db (base s)) !! b = None) →
  sys full s m lvs → len lvs + outbox_ops.is_tick o * (16 * (page ocfg + E)) <= 2 ^ 62 →
  ∃ m' new, sys full (outbox_ops.exec svc ocfg o s) m' (lvs ++ new) ∧ len new <= outbox_ops.is_tick o * (16 * (page ocfg + E)).
Proof.
  intros HE (Ho & Hf & Ha) Hput [G T Hc] H62.
  destruct (exec_good svc Hwf ocfg E o s m lvs HE Ho G H62) as (m' & new & G' & Hn). exists m', new. split; [|done].
  constructor; [done|by apply (run_tidy placed mo ocfg svc [o] s); [constructor|]|].
  eapply covered_grow; [exact Hc|by apply publish_coverage|]. intros F l Hl HP. apply publish_each; [done..| |].
  - intros idx Hi Hr Hb. cbn in Hb. specialize (Hi Hb). lia.
  - assert (∀ b, b ∈ puts (Publish o) → b ≠ l.(GlobalLogLeaf.BatchID)) as Hne.
    { intros b Hb ->. apply (Hput F) in Hb. pose proof (globallog_proofs.inv_batches _ _ _ (g_log _ _ _ _ _ G)) as Hi.
      assert (c_batches (pebble.db (base s)) !! l.(GlobalLogLeaf.BatchID) = Some l) as E0 by (by apply Hi). congruence. }
    destruct o as [| | |[idx|rep indexes|b lv]]; try done; cbn [writes_ok puts] in *.
    + intros [i v] Ee Hb. apply recordindex_proofs.encode_storable in Ee as (_ & _ & Eb & _). cbn in *.
      destruct (Hne idx.(Idx.BatchID)); [set_solver|congruence].
    + apply Forall_forall. intros idx Hi [i v] Ee Hb. apply recordindex_proofs.encode_storable in Ee as (_ & _ & Eb & _). cbn in *.
      destruct (Hne idx.(Idx.BatchID)); [by apply list_elem_of_fmap_2|congruence].
    + intros idx Hi Hb Hr Hb'. cbn in Hb'. specialize (Hi Hb'). pose proof (rank_le lv). lia.
Qed.

Lemma exec_sys full E o s m lvs :
  0 <= E → (full → mo ≠ recordindex.TimeOnly) → op_ok E o →
  (full → ∀ b, b ∈ puts o → c_batches (pebble.db (base s)) !! b = None) →
  sys full s m lvs → len lvs + is_tick o * (16 * (page ocfg + E)) <= 2 ^ 62 →
  ∃ m' new, sys full (exec o s) m' (lvs ++ new) ∧ len new <= is_tick o * (16 * (page ocfg + E)).
Proof.
  intros HE Hm Ho Hput S H62. destruct o as [o|cfg now]; [by eapply publish_sys|].
  exists m, []. rewrite app_nil_r. split; [|done]. cbn in H62. apply (project_sys full cfg now s m lvs); [done|done|lia|exact Ho].
Qed.

Lemma page_pos : 0 < page ocfg.
Proof. unfold page. destruct (BatchSize ocfg <=? 0) eqn:Eb; bsimpl; lia. Qed.

Lemma sys_ticks_nonneg ops : 0 <= ticks_of ops.
Proof. induction ops as [|[[]|] ops IH]; cbn; lia. Qed.

(** An invariant of the steps, with the log, is an invariant of the runs. *)
Lemma run_sys full E (I : Store → list GlobalLogLeaf.t → Prop) ops s m lvs :
  0 <= E → (full → mo ≠ recordindex.TimeOnly) → Forall (op_ok E) ops → (full → indexed_first ops s) →
  (∀ o s m lvs m' new, o ∈ ops → op_ok E o → sys full s m lvs → len lvs <= 2 ^ 62 → sys full (exec o s) m' (lvs ++ new) →
     I s lvs → I (exec o s) (lvs ++ new)) →
  sys full s m lvs → I s lvs → len lvs + ticks_of ops * (16 * (page ocfg + E)) <= 2 ^ 62 →
  ∃ m' new, sys full (run ops s) m' (lvs ++ new) ∧ I (run ops s) (lvs ++ new) ∧
    len (lvs ++ new) <= len lvs + ticks_of ops * (16 * (page ocfg + E)).
Proof.
  intros HE Hm Ho. revert s m lvs. induction Ho as [|o ops Ho _ IH]; intros s m lvs Hf HI S Hi H62; cbn in *.
  { exists m, []. rewrite app_nil_r. split_and!; [done..|lia]. }
  pose proof (sys_ticks_nonneg ops). pose proof page_pos.
  assert (0 <= is_tick o) by (destruct o as [[]|]; cbn; lia).
  destruct (exec_sys full E o s m lvs HE Hm Ho ltac:(intros F; by apply Hf) S) as (m1 & new & S1 & Hn); [nia|].
  destruct (IH (exec o s) m1 (lvs ++ new)) as (m2 & new2 & S2 & I2 & Hn2).
  - intros F. by apply Hf.
  - intros o' s' m' lvs' m2 new2 Hin. apply HI. by right.
  - done.
  - eapply HI; [by left|done|exact S|nia|exact S1|done].
  - unfold len in *. rewrite length_app. nia.
  - exists m2, (new ++ new2). rewrite app_assoc. split_and!; [done..|]. unfold len in *. rewrite !length_app in *. nia.
Qed.

Lemma sys_empty full b : pebble.db b = empty_contents → sys full (empty mo b) ∅ [].
Proof.
  intros Hb. constructor; [by apply good_empty|split; [apply recordindex_ops.coherent_empty|done]|].
  intros key v. cbn. by rewrite lookup_empty.
Qed.

(** ** L5 needs an anchor *)

(** The index is not told of level L5 by anyone else. *)
Definition below_L5 (o : op) : Prop :=
  match o with
  | Publish (OnIndex (recordindex_ops.Put idx)) => rank idx < 5
  | Publish (OnIndex (recordindex_ops.PutChunk _ indexes)) => Forall (λ idx, rank idx < 5) indexes
  | Publish (OnIndex (recordindex_ops.Promote _ l)) => recordsearch.ProofLevelRank l < 5
  | _ => True
  end.

(** The batch is a leaf of the log that a stored anchor result covers. *)
Definition anchored_batch (a : anchorstore.Store) (lvs : list GlobalLogLeaf.t) (b : string) : Prop :=
  ∃ (i : nat) l, lvs !! i = Some l ∧ l.(GlobalLogLeaf.BatchID) = b ∧ anchored a (Z.of_nat i + 1).

Definition earned (s : Store) (lvs : list GlobalLogLeaf.t) (idx : Idx.t) : Prop :=
  rank idx < 5 ∨ anchored_batch (anchors s) lvs idx.(Idx.BatchID).

Lemma anchored_batch_mono a a' lvs new b :
  (∀ r, descends a r → descends a' r) → anchored_batch a lvs b → anchored_batch a' (lvs ++ new) b.
Proof.
  intros Hd (i & l & Hl & Hb & (r & Hr & ? & ?)). exists i, l. split_and!; [by apply lookup_app_l_Some|done|].
  exists r. split_and!; [by apply Hd|done..].
Qed.

Lemma rank_with_level l idx : recordsearch.NormalizedProofLevel l = l → l ≠ "" →
  rank (recordindex.with_level l idx) = recordsearch.ProofLevelRank l.
Proof.
  intros Hl Hne. unfold rank, recordsearch.RecordIndexProofLevel. cbn. by rewrite Hl, (proj2 (seqb_false _ _) Hne).
Qed.

Lemma rank_encode idx e : recordindex.encodeRecordIndexArtifact idx = Ok e → rank e.1 = rank idx.
Proof.
  destruct e as [i v]. intros E. pose proof (recordindex_proofs.encode_storable _ _ _ E) as ((_ & _ & _ & Hl) & _).
  unfold recordindex.encodeRecordIndexArtifact in E. destruct (seqb _ ""); [done|]. apply bind_Ok in E as (v' & _ & [= <- _]).
  cbn [fst]. unfold rank in *. rewrite <- Hl. by destruct (seqb _ "").
Qed.

Lemma earned_step full E o s m lvs m' new :
  op_ok E o → below_L5 o → sys full s m lvs → (full → mo ≠ recordindex.TimeOnly) → len lvs <= 2 ^ 62 →
  sys full (exec o s) m' (lvs ++ new) →
  each (earned s lvs) (entries s) → each (earned (exec o s) (lvs ++ new)) (entries (exec o s)).
Proof.
  intros Ho Hbelow S Hm H62 S' HP. destruct o as [o|cfg now].
  - apply each_mono with (earned s lvs).
    { intros idx [?|Ha]; [by left|right]. eapply anchored_batch_mono, Ha. intros r. eapply publish_descends, S. }
    apply publish_each; [apply S|done| |].
    + intros idx _ _. left. by rewrite rank_with_level.
    + destruct o as [| | |[idx|rep indexes|b l]]; try done; cbn [writes_ok below_L5] in *.
      * intros e Ee. left. by rewrite (rank_encode _ _ Ee).
      * eapply Forall_impl; [exact Hbelow|]. intros idx Hr e Ee. left. by rewrite (rank_encode _ _ Ee).
      * intros idx _ _ Hr. left. destruct (decide (recordsearch.NormalizedProofLevel l = "")) as [En|En].
        { rewrite <- (recordsearch_proofs.ProofLevelRank_norm l), En in Hr. change (recordsearch.ProofLevelRank "") with 0 in Hr.
          pose proof (rank_nonneg (recordsearch.RecordIndexProofLevel idx)). unfold rank in Hr. lia. }
        rewrite rank_with_level, recordsearch_proofs.ProofLevelRank_norm; [done|apply recordsearch_proofs.NormalizedProofLevel_idem|done].
  - destruct (project_sys full cfg now s m lvs S Hm H62 Ho) as [_ ((Hs & _) & Hep & _)].
    assert (∀ r, descends (anchors s) r → descends (anchors (exec (Project cfg now) s)) r) as Hd.
    { intros r Hd. cbn [exec] in *. unfold anchors in *. cbn [index put_index] in *. revert Hd. clear -Hs.
      induction Hs as [|x y z C _ IH]; [done|]. intros Hd. by eapply IH, anchorstore_ops.change_descends. }
    apply each_mono with (λ idx, rank idx < 5 ∨ anchored_batch (anchors s) lvs idx.(Idx.BatchID)).
    { intros idx [?|Ha]; [by left|right]. by eapply anchored_batch_mono. }
    apply Hep; [done|]. intros idx i l Hl Ha _ Hb _. right. exists i, l. done.
Qed.

(** C22: a record is at level L5 only when an anchor covers its batch.  In any
    history of publications, anchor operations, index operations and pages of
    the projector, in which the index is not told of level L5 from outside, a
    record that the store returns at level L5 belongs to a batch with a leaf in
    the log, and a result that gives offline L5, for a tree that contains the
    leaf, is stored (at most the bytes of its proof were replaced since).
    [placed] gives the batch and reception time of each record id, which all
    writes of the index agree on: a record does not move to another batch.
    Items are not enqueued as published already, schedules are not forcibly
    replaced, only the projector advances coverage checkpoints, clocks are not
    negative, and the log stays below 2^62 leaves. *)
Theorem l5_needs_anchor E ops b0 :
  0 <= E → Forall (op_ok E) ops → Forall below_L5 ops → pebble.db b0 = empty_contents →
  ticks_of ops * (16 * (page ocfg + E)) <= 2 ^ 62 →
  let s := run ops (empty mo b0) in
  ∃ lvs, globallog_proofs.log_inv svc (pebble.db (base s)) lvs ∧
    ∀ id idx, recordindex.readIndex id (index s) = Ok (Some idx) → recordsearch.RecordIndexProofLevel idx = "L5" →
      ∃ (i : nat) l r, lvs !! i = Some l ∧ l.(GlobalLogLeaf.BatchID) = idx.(Idx.BatchID) ∧
        descends (anchors s) r ∧ AnchorResultProvidesOfflineL5 r = true ∧ Z.of_nat i < r.(Res.TreeSize).
Proof.
  intros HE Ho Hbelow Hb H62 s.
  destruct (run_sys False E (λ s lvs, each (earned s lvs) (entries s)) ops (empty mo b0) ∅ []) as (m & lvs & S & I & _); try done.
  - intros o x mx lx m' new Hin Hok Sx Hlen Sx' Ix. rewrite Forall_forall in Hbelow. by eapply (earned_step False E); [done|apply Hbelow|..].
  - by apply sys_empty.
  - exists lvs. split; [apply S|]. intros id idx Hr Hl. destruct (each_read _ _ _ _ I Hr) as [[Hlt|(i & l & Hi & Hbat & r & ? & ? & ?)] _].
    { unfold rank in Hlt. rewrite Hl in Hlt. by vm_compute in Hlt. }
    exists i, l, r. split_and!; [done..|lia].
Qed.

(** ** Below the checkpoint *)

(** C23: below the checkpoint every record is at L5.  In any history in which the
    records of a batch are indexed before the batch enters the log, in a store
    with a batch index, the checkpoint of a stream never exceeds the log, and
    every record of a batch whose leaf is below it is at level L5; also after a
    page that failed on the way.  Only the projector advances coverage
    checkpoints, all writes of a record id agree on its batch and time
    ([placed]), items are not enqueued as published already, schedules are not
    forcibly replaced, and the log stays below 2^62 leaves. *)
Theorem coverage_complete E ops b0 key cp :
  0 <= E → Forall (op_ok E) ops → mo ≠ recordindex.TimeOnly → pebble.db b0 = empty_contents →
  ticks_of ops * (16 * (page ocfg + E)) <= 2 ^ 62 → indexed_first ops (empty mo b0) →
  let s := run ops (empty mo b0) in
  anchorstore.GetL5CoverageCheckpoint key (anchors s) = Ok (Some cp) →
  ∃ lvs, globallog_proofs.log_inv svc (pebble.db (base s)) lvs ∧ cp.(Cp.CoveredTreeSize) <= len lvs ∧
    ∀ (i : nat) l id idx, Z.of_nat i < cp.(Cp.CoveredTreeSize) → lvs !! i = Some l →
      recordindex.readIndex id (index s) = Ok (Some idx) → idx.(Idx.BatchID) = l.(GlobalLogLeaf.BatchID) → rank idx = 5.
Proof.
  intros HE Ho Hm Hb H62 Hf s Hcp.
  destruct (run_sys True E (λ _ _, True) ops (empty mo b0) ∅ []) as (m & lvs & S & _); try done; [by apply sys_empty|].
  fold s in S. cbn [app] in S. exists lvs. split; [apply S|]. pose proof (sy_cov _ _ _ _ S) as Hc.
  destruct (get_start _ _ _ (covered_well_formed _ _ _ _ Hc) Hcp) as [[[E0 E0']|(b & c & Hb' & He & Ec)] Hu].
  { rewrite E0'. split; [unfold len; lia|]. intros; lia. }
  destruct (Hc key b Hb') as (n & Hn & Hr & Hrec). rewrite <- (Hu n) by (by right).
  split; [lia|].
  intros i l id idx Hi Hl Hread Hbat. destruct (each_read _ _ _ _ (Hrec I i l Hi Hl) Hread) as [Hat _].
  specialize (Hat Hbat). unfold rank in *. pose proof (rank_le (recordsearch.RecordIndexProofLevel idx)). lia.
Qed.

(** C24: the projector ends and catches up.  After any such history a call of
    [projectAvailable] returns, after at most one page for each leaf of the log;
    when no page failed, the last lookup of the latest anchor result found none
    that gives L5, or one whose tree is inside the log, and every record of its
    leaves is at level L5.  As above, records are indexed before their batch
    enters the log, in a store with a batch index, all writes of a record id
    agree on its batch and time ([placed]), only the projector advances coverage
    checkpoints, and the log stays below 2^62 leaves. *)
Theorem projection_catches_up E ops b0 cfg0 cfg Clock :
  0 <= E → Forall (op_ok E) ops → mo ≠ recordindex.TimeOnly → pebble.db b0 = empty_contents →
  ticks_of ops * (16 * (page ocfg + E)) <= 2 ^ 62 → indexed_first ops (empty mo b0) →
  l5projector.New cfg0 = Ok cfg →
  let s := run ops (empty mo b0) in
  ∃ lvs, globallog_proofs.log_inv svc (pebble.db (base s)) lvs ∧
    ∀ fuel, len lvs < Z.of_nat fuel → ∃ i r,
      l5projector.projectAvailable fuel cfg Clock (index s) = Some (i, r) ∧
      (r = Ok tt → ∃ a found,
         anchorstore.LatestSTHAnchorResultForKey (l5projector.Key cfg) a = (recordindex.anchors i, Ok found) ∧
         anchorstore.results a = anchorstore.results (recordindex.anchors i) ∧
         ∀ res, found = Some res → AnchorResultProvidesOfflineL5 res = true → res.(Res.TreeSize) <= len lvs ∧
           ∀ (k : nat) l id idx, Z.of_nat k < res.(Res.TreeSize) → lvs !! k = Some l →
             recordindex.readIndex id i = Ok (Some idx) → idx.(Idx.BatchID) = l.(GlobalLogLeaf.BatchID) → 5 <= rank idx).
Proof.
  intros HE Ho Hm Hb H62 Hf Hnew s.
  destruct (run_sys True E (λ _ _, True) ops (empty mo b0) ∅ []) as (m & lvs & S & _ & Hlen); try done; [by apply sys_empty|].
  fold s in S. cbn [app] in *. exists lvs. split; [apply S|]. intros fuel Hfuel.
  assert (0 < l5projector.PageSize cfg) as Hps.
  { unfold l5projector.New in Hnew. apply bind_Ok in Hnew as (_ & _ & Hnew). cbv zeta in Hnew.
    destruct (1000 <? _); [done|]. injection Hnew as <-. destruct (l5projector.PageSize cfg0 <=? 0) eqn:Ep; [done|bsimpl; lia]. }
  assert (page_pre placed True (index s) lvs) as Hpre.
  { split_and!; [apply S|apply S|by eapply log_leaves; apply S|etrans; [exact Hlen|exact H62]| |apply S].
    intros _. pose proof (sy_tidy _ _ _ _ S) as [_ ->]. done. }
  assert (∃ n, starts_at (anchors s) (l5projector.Key cfg) n ∧ 0 <= n <= len lvs) as (n & Hn & Hrange).
  { destruct (anchorstore.coverage (anchors s) !! l5projector.Key cfg) as [b|] eqn:Ec.
    - destruct (sy_cov _ _ _ _ S _ _ Ec) as (n & ? & ? & _). exists n. split; [by right|done].
    - exists 0. split; [by left|]. unfold len. lia. }
  destruct (project_ends placed True cfg lvs fuel Clock (index s) n Hpre Hps Hn) as (i & r & E1 & _ & _ & Hcu); [lia|].
  exists i, r. split; [done|]. intros Hr. destruct (Hcu Hr) as (a & found & El & Er & Hf'). exists a, found. split_and!; [done..|].
  intros res Eres Hl5. destruct (Hf' res Eres Hl5) as [Hle Hrec]. split; [done|]. intros k l id idx Hk Hl Hread Hbat.
  destruct (each_read _ _ _ _ (Hrec I k l Hk Hl) Hread) as [Hat _]. by apply Hat.
Qed.

End system.
End l5system.
