(* ===== verification/L5Examples.v ===== *)
(** * The path of a record to L5: a concrete history

    The history of [OutboxExamples], then an anchor result for the tree of both
    leaves, and pages of one leaf of the projector. *)

From S2P Require Import Prelude TrustErr CryptoSuite Model TrustCrypto Cborx KeyDescriptor Instances ModelSuite.
From S2P Require Import StoreMonad Merkle GlobalStore GlobalLog GlobalLogProofs GlobalLogExamples.
From S2P Require Import AnchorSchedule AnchorScheduleProofs AnchorExamples L5Coverage AnchorStore AnchorStoreProofs AnchorStoreOps AnchorStoreExamples.
From S2P Require Import RecordSearch RecordSearchProofs RecordIndex RecordIndexOps RecordIndexExamples.
From S2P Require Import Outbox OutboxOps OutboxRecords OutboxExamples L5Projector L5System.

Module l5examples.
Import outbox outbox_proofs l5system.
Import globallog_examples (ex_service, ex_service_wf, ex_empty, ok_codec).
Import recordindex_examples (ex_idx).
Import outbox_examples (ex_anchor, ex_cfg, ex_queued, ex_sth, ex_schedule, ex_ops, ex_tick, ex_placed, ex_ops_tick_ok).
Import recordlevels (rank).

#[local] Existing Instance anchor_examples.ex_fisco.
#[local] Existing Instance recordindex_examples.idx_eq_dec.
#[local] Existing Instance recordsearch_examples.ascii_tables.
#[local] Existing Instance outbox_examples.error_name.
#[local] Existing Instance outbox_examples.codec_leaf.
#[local] Existing Instance outbox_examples.codec_state.
#[local] Existing Instance outbox_examples.codec_sth.
#[local] Existing Instance outbox_examples.codec_node.
#[local] Existing Instance outbox_examples.codec_tile.
#[local] Existing Instance outbox_examples.item_codec.
#[local] Existing Instance outbox_examples.item_exact.
#[local] Existing Instance outbox_examples.sch_codec.
#[local] Existing Instance outbox_examples.sch_exact.
#[local] Existing Instance outbox_examples.ref_eq_dec.
#[local] Existing Instance anchorstore_examples.cp_eq_dec.

Definition ex_result : Res.t :=
  Res.mk SchemaSTHAnchorResult cryptosuite.INTLV1 "node-1" "trustdb-global-log" 2 "ots" "anchor-1"
    (ex_sth 1).(Sth.RootHash) (ex_sth 1) [Byte.x01] AnchorEvidenceStageOfflineVerified 3000.

Definition ex_cp (n rev t : Z) : Cp.t := Cp.mk SchemaL5Coverage cryptosuite.INTLV1 ex_anchor n rev t.

#[local] Instance res_codec : CborMode Res.t := table_codec [ex_result].
#[local] Instance ref_codec : CborMode Ref.t :=
  table_codec [anchorschedule.EmptyLatestReference None; anchorschedule.EmptyLatestReference (Some ex_anchor);
    anchorschedule.LatestReference ex_result].
#[local] Instance cp_codec : CborMode Cp.t := table_codec [ex_cp 1 1 4000; ex_cp 2 2 5000].
#[local] Instance idx_codec : CborMode Idx.t :=
  table_codec (l ← ["L3"; "L4"; "L5"]; [ex_idx "r1" l "b1" 10; ex_idx "r2" l "b2" 20]).

#[local] Instance res_exact : CborModeExact Res.t.
Proof. by apply table_exact. Qed.
#[local] Instance ref_exact : CborModeExact Ref.t.
Proof. by apply table_exact. Qed.
#[local] Instance cp_exact : CborModeExact Cp.t.
Proof. by apply table_exact. Qed.
#[local] Instance idx_exact : CborModeExact Idx.t.
Proof. by apply table_exact. Qed.

Definition ex_projector : l5projector.Config := l5projector.mkConfig ex_anchor 1.

Definition ex_history : list op :=
  map Publish (ex_ops ++ [ex_tick; outbox_ops.OnAnchors (anchorstore_ops.Put ex_result)]) ++ [Project ex_projector 4000].

Definition ex_start : Store := outbox_ops.empty recordindex.Full ex_empty.
Definition ex_state : Store := l5system.run ex_service ex_cfg ex_history ex_start.

(** One page was projected: the record of the first batch is at L5. *)
Lemma ex_first : recordindex.readIndex "r1" (index ex_state) = Ok (Some (ex_idx "r1" "L5" "b1" 10)).
Proof. vm_compute. reflexivity. Qed.

Lemma ex_second : recordindex.readIndex "r2" (index ex_state) = Ok (Some (ex_idx "r2" "L4" "b2" 20)).
Proof. vm_compute. reflexivity. Qed.

Lemma ex_checkpoint : anchorstore.GetL5CoverageCheckpoint ex_anchor (anchors ex_state) = Ok (Some (ex_cp 1 1 4000)).
Proof. vm_compute. reflexivity. Qed.

Lemma ex_publish_ok : Forall (op_ok ex_service ex_placed 0)
  (map Publish (ex_ops ++ [ex_tick; outbox_ops.OnAnchors (anchorstore_ops.Put ex_result)])).
Proof.
  change (ex_ops ++ [?a; ?b]) with (ex_ops ++ [a] ++ [b]). rewrite app_assoc, map_app. apply Forall_app. split.
  - apply Forall_fmap. eapply Forall_impl; [apply Forall_and; split; [exact ex_ops_tick_ok|]|].
    + instantiate (1 := λ o, outbox_records.index_fits ex_placed o ∧ advances o = false). repeat constructor.
    + intros o [Ho [Hf Ha]]. split_and!; [exact Ho|exact Hf|exact Ha].
  - repeat constructor.
Qed.

Lemma ex_history_ok : Forall (op_ok ex_service ex_placed 0) ex_history.
Proof. apply Forall_app. split; [exact ex_publish_ok|]. repeat constructor. Qed.

Lemma ex_below : Forall below_L5 ex_history.
Proof. repeat constructor. Qed.

Lemma ex_indexed_first : indexed_first ex_service ex_cfg ex_history ex_start.
Proof.
  cbn [ex_history ex_ops map app indexed_first puts]. split; [|repeat split; intros b Hb; by apply not_elem_of_nil in Hb].
  intros b _. apply lookup_empty.
Qed.

Lemma ex_bound : ticks_of ex_history * (16 * (outbox_ops.page ex_cfg + 0)) <= 2 ^ 62.
Proof. vm_compute. discriminate. Qed.

Lemma l5_needs_anchor_witness :
  ∃ lvs i l r, globallog_proofs.log_inv ex_service (pebble.db (base ex_state)) lvs ∧
    lvs !! i = Some l ∧ l.(GlobalLogLeaf.BatchID) = "b1" ∧ AnchorResultProvidesOfflineL5 r = true ∧
    Z.of_nat i < r.(Res.TreeSize).
Proof.
  destruct (l5_needs_anchor ex_service ex_service_wf ex_cfg ex_placed recordindex.Full 0 ex_history ex_empty
    ltac:(lia) ex_history_ok ex_below eq_refl ex_bound) as (lvs & HI & Hl).
  destruct (Hl _ _ ex_first ltac:(vm_compute; reflexivity)) as (i & l & r & ? & ? & ? & ? & ?).
  exists lvs, i, l, r. split_and!; assumption.
Defined.

Lemma coverage_complete_witness :
  ∃ lvs, globallog_proofs.log_inv ex_service (pebble.db (base ex_state)) lvs ∧ 1 <= len lvs ∧
    ∀ l, lvs !! 0%nat = Some l → l.(GlobalLogLeaf.BatchID) = "b1" → rank (ex_idx "r1" "L5" "b1" 10) = 5.
Proof.
  destruct (coverage_complete ex_service ex_service_wf ex_cfg ex_placed recordindex.Full 0 ex_history ex_empty ex_anchor
    (ex_cp 1 1 4000) ltac:(lia) ex_history_ok ltac:(discriminate) eq_refl ex_bound ex_indexed_first ex_checkpoint)
    as (lvs & HI & Hn & Hr).
  exists lvs. split_and!; [exact HI|exact Hn|]. intros l Hl Hb. symmetry in Hb.
  exact (Hr 0%nat l "r1" _ ltac:(reflexivity) Hl ex_first Hb).
Defined.

(** The remaining page is projected and the loop ends. *)
Lemma projection_catches_up_witness :
  ∃ lvs, globallog_proofs.log_inv ex_service (pebble.db (base ex_state)) lvs ∧
    ∀ fuel, len lvs < Z.of_nat fuel → ∃ i r,
      l5projector.projectAvailable fuel ex_projector (λ _, 5000) (index ex_state) = Some (i, r).
Proof.
  destruct (projection_catches_up ex_service ex_service_wf ex_cfg ex_placed recordindex.Full 0 ex_history ex_empty
    ex_projector ex_projector (λ _, 5000) ltac:(lia) ex_history_ok ltac:(discriminate) eq_refl ex_bound ex_indexed_first
    ltac:(vm_compute; reflexivity)) as (lvs & HI & Hf).
  exists lvs. split; [exact HI|]. intros fuel Hfuel. destruct (Hf fuel Hfuel) as (i & r & E & _). exists i, r. exact E.
Defined.

Lemma ex_caught_up :
  match l5projector.projectAvailable 3 ex_projector (λ _, 5000) (index ex_state) with
  | Some (i, r) => r = Ok tt ∧ recordindex.readIndex "r2" i = Ok (Some (ex_idx "r2" "L5" "b2" 20))
  | None => False
  end.
Proof. vm_compute. split; reflexivity. Qed.

End l5examples.
