(* ===== verification/Verify.v ===== *)
(** * Offline verification of evidence

    Models [src/internal/verify/verify.go] and [stage.go]: the verification of a
    proof bundle against the original content up to level L5, with the stage
    that rejects an input.

    The reader of the content is the list of bytes it yields.  An option is the
    function on the record [options] that the source defines; a pointer to a
    copied value is an [option].  A failing stage wraps its error in
    [StageError]. *)

From S2P Require Import Prelude TrustErr CryptoSuite Model TrustCrypto Cborx KeyDescriptor ModelSuite.
From S2P Require Import Merkle GlobalStore GlobalLog ProofLevel Claim Receipt Ots AnchorId.

Module verify.

Definition Stage := string.
Definition StageProofBundle : Stage := "proof_bundle".
Definition StageContent : Stage := "content".
Definition StageClientClaim : Stage := "client_claim".
Definition StageBundleBindings : Stage := "bundle_bindings".
Definition StageAcceptedReceipt : Stage := "accepted_receipt".
Definition StageCommittedReceipt : Stage := "committed_receipt".
Definition StageBatchMerkle : Stage := "batch_merkle".
Definition StageGlobalLog : Stage := "global_log".
Definition StageAnchor : Stage := "anchor".

(** [errors.As] finds the first [StageError] of the chain. *)
Fixpoint as_stage (err : error) : option Stage :=
  match err with
  | StageError stage _ => Some stage
  | Errorf _ w => as_stage w
  | Error _ _ (Some w) => as_stage w
  | _ => None
  end.

Definition FailedStage (err : error) : Stage * bool :=
  match as_stage err with
  | Some stage => if seqb stage "" then ("", false) else (stage, true)
  | None => ("", false)
  end.

(** [if err := f(); err != nil { return failStage(stage, err) }] *)
Definition failStage {A} (stage : Stage) (r : go A) : go A :=
  match r with Fail e => Fail (StageError stage e) | _ => r end.

Record TrustedKeys := mkKeys {
  ClientPublicKey : trustcrypto.PublicKeyDescriptor;
  ServerPublicKey : trustcrypto.PublicKeyDescriptor;
  AcceptedReceiptPublicKey : trustcrypto.PublicKeyDescriptor;
  CommittedReceiptPublicKey : trustcrypto.PublicKeyDescriptor;
  SignedTreeHeadPublicKey : trustcrypto.PublicKeyDescriptor;
  CryptoProvider : option trustcrypto.Provider }.

Record Result := mkResult {
  Valid : bool;
  R_RecordID : string;
  R_ProofLevel : string;
  R_AnchorSink : string;
  R_AnchorID : string }.

Record namespaceBinding := mkNamespace { ns_nodeID : string; ns_logID : string }.

Definition AnchorVerifier : Type := SignedTreeHead.t → STHAnchorResult.t → result unit.

Record options := mkOptions {
  o_global : option GlobalLogProof.t;
  o_anchor : option STHAnchorResult.t;
  o_anchorVerifier : option AnchorVerifier;
  o_namespace : option namespaceBinding }.

Definition no_options : options := mkOptions None None None None.

Definition Option : Type := options → options.

Definition WithGlobalProof (p : GlobalLogProof.t) : Option :=
  λ o, mkOptions (Some p) (o_anchor o) (o_anchorVerifier o) (o_namespace o).
Definition WithAnchor (a : STHAnchorResult.t) : Option :=
  λ o, mkOptions (o_global o) (Some a) (o_anchorVerifier o) (o_namespace o).
Definition WithAnchorVerifier (verifier : option AnchorVerifier) : Option :=
  λ o, mkOptions (o_global o) (o_anchor o) verifier (o_namespace o).
Definition WithExactNamespaceBinding (nodeID logID : string) : Option :=
  λ o, mkOptions (o_global o) (o_anchor o) (o_anchorVerifier o) (Some (mkNamespace nodeID logID)).

Definition apply_options (opts : list Option) : options :=
  foldl (λ o apply, apply o) no_options opts.

Definition exactGlobalNamespace (proof : GlobalLogProof.t) (binding : namespaceBinding)
  : result unit :=
  let sth := proof.(GlobalLogProof.STH) in
  if seqb (ns_nodeID binding) "" || negb (seqb proof.(GlobalLogProof.NodeID) (ns_nodeID binding))
     || negb (seqb sth.(SignedTreeHead.NodeID) (ns_nodeID binding))
  then Err (ErrorsNew
    "verify: global proof node_id does not exactly match the evidence namespace") else
  if seqb (ns_logID binding) "" || negb (seqb proof.(GlobalLogProof.LogID) (ns_logID binding))
     || negb (seqb sth.(SignedTreeHead.LogID) (ns_logID binding))
  then Err (ErrorsNew
    "verify: global proof log_id does not exactly match the evidence namespace") else
  Ok tt.

Definition exactAnchorNamespace (ar : STHAnchorResult.t) (binding : namespaceBinding)
  : result unit :=
  let sth := ar.(STHAnchorResult.STH) in
  if seqb (ns_nodeID binding) "" || negb (seqb ar.(STHAnchorResult.NodeID) (ns_nodeID binding))
     || negb (seqb sth.(SignedTreeHead.NodeID) (ns_nodeID binding))
  then Err (ErrorsNew
    "verify: anchor result node_id does not exactly match the evidence namespace") else
  if seqb (ns_logID binding) "" || negb (seqb ar.(STHAnchorResult.LogID) (ns_logID binding))
     || negb (seqb sth.(SignedTreeHead.LogID) (ns_logID binding))
  then Err (ErrorsNew
    "verify: anchor result log_id does not exactly match the evidence namespace") else
  Ok tt.

Definition publicKeyOrFallback (specific fallback : trustcrypto.PublicKeyDescriptor)
  : trustcrypto.PublicKeyDescriptor :=
  if len (trustcrypto.Bytes specific) =? 0 then fallback else specific.

(** [a != "" && b != "" && a != b] *)
Definition mismatch (a b : string) : bool :=
  negb (seqb a "") && negb (seqb b "") && negb (seqb a b).

Definition sameSignedTreeHead (left right : SignedTreeHead.t) : bool :=
  seqb left.(SignedTreeHead.SchemaVersion) right.(SignedTreeHead.SchemaVersion)
  && seqb left.(SignedTreeHead.CryptoSuite) right.(SignedTreeHead.CryptoSuite)
  && seqb left.(SignedTreeHead.TreeAlg) right.(SignedTreeHead.TreeAlg)
  && (left.(SignedTreeHead.TreeSize) =? right.(SignedTreeHead.TreeSize))
  && bytes_equal left.(SignedTreeHead.RootHash) right.(SignedTreeHead.RootHash)
  && (left.(SignedTreeHead.TimestampUnixN) =? right.(SignedTreeHead.TimestampUnixN))
  && seqb left.(SignedTreeHead.NodeID) right.(SignedTreeHead.NodeID)
  && seqb left.(SignedTreeHead.LogID) right.(SignedTreeHead.LogID)
  && seqb left.(SignedTreeHead.Signature).(Signature.Alg)
       right.(SignedTreeHead.Signature).(Signature.Alg)
  && seqb left.(SignedTreeHead.Signature).(Signature.KeyID)
       right.(SignedTreeHead.Signature).(Signature.KeyID)
  && bytes_equal left.(SignedTreeHead.Signature).(Signature.Signature)
       right.(SignedTreeHead.Signature).(Signature.Signature).

Section verify.
Context `{HashLib, SigLib, KeyDescriptorLib}.
Context `{CborMode ClientClaim.t, CborMode claim.framing, CborMode AcceptedReceipt.t}.
Context `{CborMode CommittedReceipt.t, CborMode ServerRecord.t, CborMode GlobalLogLeaf.t}.
Context `{CborMode SignedTreeHead.t}.

Definition validateBundleBindings (bundle : ProofBundle.t) (verified : claim.Verified)
    (provider : trustcrypto.Provider) : result unit :=
  let sc := bundle.(ProofBundle.SignedClaim) in
  let cl := sc.(SignedClaim.Claim) in
  let rec := bundle.(ProofBundle.ServerRecord) in
  let acc := bundle.(ProofBundle.AcceptedReceipt) in
  let com := bundle.(ProofBundle.CommittedReceipt) in
  let bp := bundle.(ProofBundle.BatchProof) in
  suite ← cryptosuite.RequireAvailable (trustcrypto.Provider_Suite provider);
  _ ← errorf "verify: proof bundle crypto_suite: %w"
        (modelsuite.Require_ (cryptosuite.SuiteID suite) (modelsuite.AnyProofBundle bundle));
  if negb (seqb rec.(ServerRecord.TenantID) cl.(ClientClaim.TenantID))
  then Err (ErrorsNew "verify: server record tenant_id mismatch") else
  if negb (seqb rec.(ServerRecord.ClientID) cl.(ClientClaim.ClientID))
  then Err (ErrorsNew "verify: server record client_id mismatch") else
  if negb (seqb rec.(ServerRecord.KeyID) cl.(ClientClaim.KeyID))
  then Err (ErrorsNew "verify: server record key_id mismatch") else
  claimHash ← trustcrypto.HashBytesWithProvider (Some provider)
                (cryptosuite.HashAlgorithm (cryptosuite.ClaimHash suite))
                (claim.V_ClaimCBOR verified);
  if negb (bytes_equal rec.(ServerRecord.ClaimHash) claimHash)
  then Err (ErrorsNew "verify: server record claim_hash mismatch") else
  sigHash ← trustcrypto.HashBytesWithProvider (Some provider)
              (cryptosuite.HashAlgorithm (cryptosuite.SignatureHash suite))
              sc.(SignedClaim.Signature).(Signature.Signature);
  if negb (bytes_equal rec.(ServerRecord.ClientSignatureHash) sigHash)
  then Err (ErrorsNew "verify: server record client_signature_hash mismatch") else
  if negb (seqb acc.(AcceptedReceipt.RecordID) (claim.V_RecordID verified))
  then Err (ErrorsNew "verify: accepted receipt record_id mismatch") else
  if negb (acc.(AcceptedReceipt.ReceivedAtUnixN) =? rec.(ServerRecord.ReceivedAtUnixN))
  then Err (ErrorsNew "verify: accepted receipt received_at mismatch") else
  if negb (bool_decide (acc.(AcceptedReceipt.WAL) = rec.(ServerRecord.WAL)))
  then Err (ErrorsNew "verify: accepted receipt WAL mismatch") else
  if mismatch bundle.(ProofBundle.NodeID) acc.(AcceptedReceipt.ServerID)
  then Err (ErrorsNew "verify: bundle node_id mismatch") else
  if negb (seqb com.(CommittedReceipt.RecordID) (claim.V_RecordID verified))
  then Err (ErrorsNew "verify: committed receipt record_id mismatch") else
  if negb (com.(CommittedReceipt.LeafIndex) =? bp.(BatchProof.LeafIndex))
  then Err (ErrorsNew "verify: committed receipt leaf_index mismatch") else
  if mismatch com.(CommittedReceipt.NodeID) bundle.(ProofBundle.NodeID)
  then Err (ErrorsNew "verify: committed receipt node_id mismatch") else
  if mismatch com.(CommittedReceipt.LogID) bundle.(ProofBundle.LogID)
  then Err (ErrorsNew "verify: committed receipt log_id mismatch") else
  if negb (seqb bp.(BatchProof.TreeAlg) (cryptosuite.MerkleAlgorithm (cryptosuite.Merkle suite)))
  then Err (ErrorsNew "verify: unsupported batch proof tree_alg: %s") else
  if (bp.(BatchProof.TreeSize) =? 0) || (bp.(BatchProof.TreeSize) <=? bp.(BatchProof.LeafIndex))
  then Err (ErrorsNew "verify: invalid batch proof leaf index") else
  Ok tt.

(** The leaf that [globalLogConsistencyWithProvider] rebuilds. *)
Definition expectedLeaf (suiteID : cryptosuite.ID) (bundle : ProofBundle.t)
    (proof : GlobalLogProof.t) : GlobalLogLeaf.t :=
  let com := bundle.(ProofBundle.CommittedReceipt) in
  GlobalLogLeaf.mk SchemaGlobalLogLeaf suiteID proof.(GlobalLogProof.NodeID)
    proof.(GlobalLogProof.LogID) com.(CommittedReceipt.BatchID) com.(CommittedReceipt.BatchRoot)
    bundle.(ProofBundle.BatchProof).(BatchProof.TreeSize) com.(CommittedReceipt.ClosedAtUnixN)
    proof.(GlobalLogProof.LeafIndex) [] 0.

Definition globalLogConsistencyWithProvider (fuel : nat) (bundle : ProofBundle.t)
    (proof : GlobalLogProof.t) (provider : option trustcrypto.Provider) : go unit :=
  match provider with
  | None => Fail (ErrorsNew "verify: crypto provider is required")
  | Some p =>
      let sth := proof.(GlobalLogProof.STH) in
      let com := bundle.(ProofBundle.CommittedReceipt) in
      if negb (seqb proof.(GlobalLogProof.SchemaVersion) SchemaGlobalLogProof)
      then Fail (ErrorsNew "verify: unexpected global log proof schema: %s") else
      if negb (seqb sth.(SignedTreeHead.SchemaVersion) SchemaSignedTreeHead)
      then Fail (ErrorsNew "verify: unexpected STH schema: %s") else
      suite ← ret (cryptosuite.RequireAvailable (trustcrypto.Provider_Suite p));
      _ ← ret (errorf "verify: proof bundle crypto_suite: %w"
            (modelsuite.Require_ (cryptosuite.SuiteID suite) (modelsuite.AnyProofBundle bundle)));
      _ ← ret (errorf "verify: global proof crypto_suite: %w"
            (modelsuite.Require_ (cryptosuite.SuiteID suite) (modelsuite.AnyGlobalLogProof proof)));
      let m := cryptosuite.Merkle suite in
      if negb (seqb sth.(SignedTreeHead.TreeAlg) (cryptosuite.MerkleAlgorithm m))
      then Fail (ErrorsNew "verify: unsupported STH tree_alg: %s") else
      if negb (proof.(GlobalLogProof.TreeSize) =? sth.(SignedTreeHead.TreeSize))
      then Fail (ErrorsNew "verify: global proof tree_size mismatch: proof=%d sth=%d") else
      if negb (len sth.(SignedTreeHead.RootHash) =? cryptosuite.DigestBytes (cryptosuite.MerkleHash m))
      then Fail (ErrorsNew "verify: STH root_hash has length %d, want %d") else
      if negb (seqb proof.(GlobalLogProof.BatchID) com.(CommittedReceipt.BatchID))
      then Fail (ErrorsNew "verify: global proof batch_id mismatch: proof=%s bundle=%s") else
      if mismatch proof.(GlobalLogProof.NodeID) bundle.(ProofBundle.NodeID)
      then Fail (ErrorsNew "verify: global proof node_id mismatch: proof=%s bundle=%s") else
      if mismatch proof.(GlobalLogProof.LogID) bundle.(ProofBundle.LogID)
      then Fail (ErrorsNew "verify: global proof log_id mismatch: proof=%s bundle=%s") else
      if mismatch sth.(SignedTreeHead.NodeID) proof.(GlobalLogProof.NodeID)
      then Fail (ErrorsNew "verify: global proof STH node_id mismatch: proof=%s sth=%s") else
      if mismatch sth.(SignedTreeHead.LogID) proof.(GlobalLogProof.LogID)
      then Fail (ErrorsNew "verify: global proof STH log_id mismatch: proof=%s sth=%s") else
      ok ← globallog.VerifyInclusionWithProvider fuel provider proof;
      if negb ok then Fail (ErrorsNew "verify: global log inclusion proof failed") else
      hash ← ret (globallog.HashLeafWithProvider provider
                    (expectedLeaf (cryptosuite.SuiteID suite) bundle proof));
      if negb (bytes_equal hash proof.(GlobalLogProof.LeafHash))
      then Fail (ErrorsNew "verify: global log leaf hash mismatch") else
      Ret tt
  end.

Definition VerifyGlobalLogProof (fuel : nat) (bundle : ProofBundle.t) (proof : GlobalLogProof.t)
    (publicKey : trustcrypto.PublicKeyDescriptor) (provider : option trustcrypto.Provider)
  : go unit :=
  _ ← globalLogConsistencyWithProvider fuel bundle proof provider;
  _ ← ret (globallog.VerifySTHWithProvider proof.(GlobalLogProof.STH) publicKey provider);
  Ret tt.

Definition GlobalLogConsistency (fuel : nat) (bundle : ProofBundle.t) (proof : GlobalLogProof.t)
  : go unit :=
  globalLogConsistencyWithProvider fuel bundle proof (Some trustcrypto.DefaultProvider).

Definition GlobalLogConsistencyForSuite (fuel : nat) (bundle : ProofBundle.t)
    (proof : GlobalLogProof.t) : go unit :=
  _ ← ret (errorf "verify: global log crypto_suite mismatch: %w"
        (cryptosuite.RequireSame bundle.(ProofBundle.CryptoSuite)
           [proof.(GlobalLogProof.CryptoSuite);
            proof.(GlobalLogProof.STH).(SignedTreeHead.CryptoSuite)]));
  provider ← ret (trustcrypto.ProviderForSuite bundle.(ProofBundle.CryptoSuite));
  globalLogConsistencyWithProvider fuel bundle proof (Some provider).

(** ** Anchors *)

Definition AnchorBindingConsistency (proof : GlobalLogProof.t) (ar : STHAnchorResult.t)
  : result unit :=
  let sth := proof.(GlobalLogProof.STH) in
  if negb (seqb ar.(STHAnchorResult.SchemaVersion) SchemaSTHAnchorResult)
  then Err (ErrorsNew "verify: unexpected anchor result schema: %s") else
  suite ← errorf "verify: anchor result crypto_suite: %w"
            (cryptosuite.RequireAvailable ar.(STHAnchorResult.CryptoSuite));
  _ ← errorf "verify: global proof crypto_suite: %w"
        (modelsuite.Require_ (cryptosuite.SuiteID suite) (modelsuite.AnyGlobalLogProof proof));
  _ ← errorf "verify: anchor result crypto_suite: %w"
        (modelsuite.Require_ (cryptosuite.SuiteID suite) (modelsuite.AnySTHAnchorResult ar));
  if negb (seqb ar.(STHAnchorResult.EvidenceStage) AnchorEvidenceStageOfflineVerified)
  then Err (ErrorsNew "verify: anchor evidence stage is not offline_verified: %s") else
  if negb (ar.(STHAnchorResult.TreeSize) =? sth.(SignedTreeHead.TreeSize))
  then Err (ErrorsNew "verify: anchor tree_size mismatch: anchor=%d sth=%d") else
  if seqb ar.(STHAnchorResult.NodeID) "" || seqb sth.(SignedTreeHead.NodeID) ""
     || negb (seqb ar.(STHAnchorResult.NodeID) sth.(SignedTreeHead.NodeID))
  then Err (ErrorsNew "verify: anchor node_id mismatch: anchor=%s sth=%s") else
  if seqb ar.(STHAnchorResult.LogID) "" || seqb sth.(SignedTreeHead.LogID) ""
     || negb (seqb ar.(STHAnchorResult.LogID) sth.(SignedTreeHead.LogID))
  then Err (ErrorsNew "verify: anchor log_id mismatch: anchor=%s sth=%s") else
  if negb (bytes_equal ar.(STHAnchorResult.RootHash) sth.(SignedTreeHead.RootHash))
  then Err (ErrorsNew "verify: anchor root_hash does not match STH root") else
  if seqb ar.(STHAnchorResult.SinkName) ""
  then Err (ErrorsNew "verify: anchor result is missing sink_name") else
  if seqb ar.(STHAnchorResult.AnchorID) ""
  then Err (ErrorsNew "verify: anchor result is missing anchor_id") else
  if negb (sameSignedTreeHead ar.(STHAnchorResult.STH) sth)
  then Err (ErrorsNew "verify: anchor signed tree head does not exactly match global proof STH")
  else Ok tt.

Context `{OtsHashLib, OtsJson}.

(** The loop over the calendars; returns [accepted]. *)
Fixpoint checkCalendars (digest : bytes) (calendars : list anchorid.OtsCalendarTimestamp)
    (accepted : Z) : go Z :=
  match calendars with
  | [] => Ret accepted
  | calendar :: rest =>
      if negb (anchorid.Accepted calendar) then checkCalendars digest rest accepted else
      if len (anchorid.RawTimestamp calendar) =? 0
      then Fail (ErrorsNew "verify: ots accepted calendar has empty timestamp") else
      _ ← gerrorf "verify: parse ots timestamp: %w"
            (ots.ParseOtsTimestamp digest (anchorid.RawTimestamp calendar));
      checkCalendars digest rest (accepted + 1)
  end.

Definition validateOtsAnchorProof (sth : SignedTreeHead.t) (ar : STHAnchorResult.t) : go unit :=
  if len ar.(STHAnchorResult.Proof) =? 0
  then Fail (ErrorsNew "verify: ots anchor proof is empty") else
  proof ← ret (errorf "verify: decode ots anchor proof: %w"
                 (json_Unmarshal ar.(STHAnchorResult.Proof)));
  if negb (seqb (anchorid.O_SchemaVersion proof) anchorid.SchemaOtsAnchorProof)
  then Fail (ErrorsNew "verify: unexpected ots anchor proof schema: %s") else
  if negb (anchorid.O_TreeSize proof =? sth.(SignedTreeHead.TreeSize))
  then Fail (ErrorsNew "verify: ots anchor proof tree_size mismatch") else
  if negb (seqb (anchorid.O_HashAlg proof) DefaultHashAlg)
  then Fail (ErrorsNew "verify: unsupported ots anchor proof hash_alg: %s") else
  if negb (bytes_equal (anchorid.O_Digest proof) sth.(SignedTreeHead.RootHash))
  then Fail (ErrorsNew "verify: ots anchor proof digest mismatch") else
  accepted ← checkCalendars (anchorid.O_Digest proof) (anchorid.O_Calendars proof) 0;
  if accepted =? 0 then Fail (ErrorsNew "verify: ots anchor proof has no accepted calendars")
  else Ret tt.

(** The flag [supported] and the error; [Stuck] if the check panics. *)
Definition verifyBuiltInAnchor (proof : GlobalLogProof.t) (ar : STHAnchorResult.t)
  : bool * go unit :=
  let sink := ar.(STHAnchorResult.SinkName) in
  let sth := proof.(GlobalLogProof.STH) in
  if seqb sink anchorid.FileSinkName then
    (true, Fail (ErrorsNew
       "verify: file sink is local-only and cannot provide offline-verifiable anchor evidence"))
  else if seqb sink anchorid.NoopSinkName then
    (true, Fail (ErrorsNew
       "verify: noop sink is local-only and cannot provide offline-verifiable anchor evidence"))
  else if seqb sink anchorid.OtsSinkName then
    (true,
     if negb (seqb ar.(STHAnchorResult.AnchorID) (anchorid.DeterministicOtsAnchorID sth))
     then Fail (ErrorsNew "verify: ots sink anchor_id mismatch: got %s want %s")
     else validateOtsAnchorProof sth ar)
  else (false, Ret tt).

Definition AnchorConsistencyWithVerifier (proof : GlobalLogProof.t) (ar : STHAnchorResult.t)
    (verifier : option AnchorVerifier) : go unit :=
  _ ← ret (AnchorBindingConsistency proof ar);
  let '(supported, err) := verifyBuiltInAnchor proof ar in
  if supported then err else
  match verifier with
  | None => Fail (ErrorsNew "verify: unsupported anchor sink: %s")
  | Some VerifyAnchor =>
      _ ← ret (VerifyAnchor proof.(GlobalLogProof.STH) ar);
      Ret tt
  end.

Definition AnchorConsistency (proof : GlobalLogProof.t) (ar : STHAnchorResult.t) : go unit :=
  AnchorConsistencyWithVerifier proof ar None.

Definition AnchorContainerConsistency (proof : GlobalLogProof.t) (ar : STHAnchorResult.t)
  : go unit :=
  _ ← ret (AnchorBindingConsistency proof ar);
  snd (verifyBuiltInAnchor proof ar).

(** ** Proof bundles *)

(** The checks of [ProofBundle] up to the batch proof; returns the verified
    claim. *)
Definition bundleEvidence (fuel : nat) (raw : bytes) (bundle : ProofBundle.t) (keys : TrustedKeys)
    (provider : trustcrypto.Provider) : go claim.Verified :=
  let content := bundle.(ProofBundle.SignedClaim).(SignedClaim.Claim).(ClientClaim.Content) in
  let rec := bundle.(ProofBundle.ServerRecord) in
  let com := bundle.(ProofBundle.CommittedReceipt) in
  let bp := bundle.(ProofBundle.BatchProof) in
  _ ← failStage StageProofBundle
        (if negb (seqb bundle.(ProofBundle.SchemaVersion) SchemaProofBundle)
         then Fail (ErrorsNew "verify: unexpected proof bundle schema: %s") else Ret tt);
  suite ← failStage StageProofBundle
            (ret (cryptosuite.RequireAvailable (trustcrypto.Provider_Suite provider)));
  _ ← ret (errorf "verify: proof bundle crypto_suite: %w"
        (modelsuite.Require_ (cryptosuite.SuiteID suite) (modelsuite.AnyProofBundle bundle)));
  '(sum, n) ← failStage StageContent
      (ret (trustcrypto.HashReaderWithProvider (Some provider) content.(Content.HashAlg) raw));
  _ ← failStage StageContent
        (if negb (n =? content.(Content.ContentLength))
         then Fail (ErrorsNew "verify: content length mismatch: got %d want %d") else
         if negb (bytes_equal sum content.(Content.ContentHash))
         then Fail (ErrorsNew "verify: content hash mismatch") else Ret tt);
  verified ← failStage StageClientClaim
      (ret (claim.VerifyWithProvider bundle.(ProofBundle.SignedClaim) (ClientPublicKey keys)
              (Some provider)));
  _ ← failStage StageBundleBindings
        (if negb (seqb (claim.V_RecordID verified) bundle.(ProofBundle.RecordID))
            || negb (seqb (claim.V_RecordID verified) rec.(ServerRecord.RecordID))
         then Fail (ErrorsNew "verify: record id mismatch") else
         ret (validateBundleBindings bundle verified provider));
  _ ← failStage StageAcceptedReceipt
        (ret (receipt.VerifyAcceptedWithProvider bundle.(ProofBundle.AcceptedReceipt)
                (publicKeyOrFallback (AcceptedReceiptPublicKey keys) (ServerPublicKey keys))
                (Some provider)));
  _ ← failStage StageCommittedReceipt
        (ret (receipt.VerifyCommittedWithProvider com
                (publicKeyOrFallback (CommittedReceiptPublicKey keys) (ServerPublicKey keys))
                (Some provider)));
  _ ← failStage StageBatchMerkle
        (leaf ← call (merkle.HashLeafForSuite (cryptosuite.SuiteID suite)
                        (cryptosuite.MerkleAlgorithm (cryptosuite.Merkle suite)) rec);
         if negb (bytes_equal leaf com.(CommittedReceipt.LeafHash))
         then Fail (ErrorsNew "verify: leaf hash mismatch") else
         ok ← call (merkle.VerifyForSuite fuel (cryptosuite.SuiteID suite) bp.(BatchProof.TreeAlg)
                      leaf bp.(BatchProof.LeafIndex) bp.(BatchProof.TreeSize)
                      bp.(BatchProof.AuditPath) com.(CommittedReceipt.BatchRoot));
         if negb ok then Fail (ErrorsNew "verify: merkle proof failed") else Ret tt);
  Ret verified.

(** The global-log part: the flag is [evidence.GlobalLogProof]. *)
Definition globalEvidence (fuel : nat) (bundle : ProofBundle.t) (keys : TrustedKeys)
    (provider : trustcrypto.Provider) (o : options) : go bool :=
  match o_global o with
  | None => Ret false
  | Some global =>
      _ ← failStage StageGlobalLog
            (match o_namespace o with
             | Some ns => ret (exactGlobalNamespace global ns)
             | None => Ret tt
             end);
      _ ← failStage StageGlobalLog
            (VerifyGlobalLogProof fuel bundle global
               (publicKeyOrFallback (SignedTreeHeadPublicKey keys) (ServerPublicKey keys))
               (Some provider));
      Ret true
  end.

(** The anchor part: the anchor that was verified. *)
Definition anchorEvidence (o : options) : go (option STHAnchorResult.t) :=
  match o_anchor o with
  | None => Ret None
  | Some ar =>
      failStage StageAnchor
        (match o_global o with
         | None => Fail (ErrorsNew "verify: L5 anchor requires a global log proof")
         | Some global =>
             _ ← match o_namespace o with
                 | Some ns => ret (exactAnchorNamespace ar ns)
                 | None => Ret tt
                 end;
             _ ← AnchorConsistencyWithVerifier global ar (o_anchorVerifier o);
             Ret (Some ar)
         end)
  end.

Definition set_GlobalLogProof (b : bool) (e : prooflevel.Evidence) : prooflevel.Evidence :=
  prooflevel.mkEvidence (prooflevel.ContentHash e) (prooflevel.ClientSignature e)
    (prooflevel.AcceptedReceipt e) (prooflevel.CommittedReceipt e) (prooflevel.BatchProof e)
    b (prooflevel.STHAnchorResult e).

Definition set_STHAnchorResult (b : bool) (e : prooflevel.Evidence) : prooflevel.Evidence :=
  prooflevel.mkEvidence (prooflevel.ContentHash e) (prooflevel.ClientSignature e)
    (prooflevel.AcceptedReceipt e) (prooflevel.CommittedReceipt e) (prooflevel.BatchProof e)
    (prooflevel.GlobalLogProof e) b.

Definition ProofBundle (fuel : nat) (raw : bytes) (bundle : ProofBundle.t) (keys : TrustedKeys)
    (opts : list Option) : go Result :=
  let provider := default trustcrypto.DefaultProvider (CryptoProvider keys) in
  let o := apply_options opts in
  verified ← bundleEvidence fuel raw bundle keys provider;
  let evidence := prooflevel.EvidenceFor prooflevel.L3 in
  let result := mkResult true (claim.V_RecordID verified) (prooflevel.Evaluate evidence) "" "" in
  global ← globalEvidence fuel bundle keys provider o;
  let evidence := if global : bool then set_GlobalLogProof true evidence else evidence in
  let result :=
    if global : bool
    then mkResult (Valid result) (R_RecordID result) (prooflevel.Evaluate evidence) "" ""
    else result in
  anchor ← anchorEvidence o;
  match anchor with
  | None => Ret result
  | Some ar =>
      let evidence := set_STHAnchorResult true evidence in
      Ret (mkResult (Valid result) (R_RecordID result) (prooflevel.Evaluate evidence)
             ar.(STHAnchorResult.SinkName) ar.(STHAnchorResult.AnchorID))
  end.

End verify.

End verify.
