(* ===== verification/VerifyProofs.v ===== *)
(** * Soundness of offline verification

    What [ProofBundle] has established when it accepts: the bindings between
    content, claim, record, receipts, batch tree, global log and anchor. *)

From S2P Require Import Prelude TrustErr CryptoSuite Model TrustCrypto Cborx KeyDescriptor ModelSuite.
From S2P Require Import Rfc6962 Merkle MerkleProofs GlobalStore GlobalLog ProofLevel Claim Receipt.
From S2P Require Import Ots AnchorId Verify.

Module verify_proofs.
Import verify merkle_proofs.

Lemma failStage_Ret {A} stage (r : go A) a : failStage stage r = Ret a ↔ r = Ret a.
Proof. destruct r; simpl; naive_solver. Qed.

Ltac stage_inv :=
  repeat (go_inv; match goal with
                  | H : failStage _ _ = Ret _ |- _ => apply failStage_Ret in H
                  | H : errorf _ _ = Ok _ |- _ => apply errorf_Ok in H
                  | H : (let '(_, _) := ?x in _) = Ret _ |- _ => destruct x
                  | x : unit |- _ => destruct x
                  | H : tt = tt |- _ => clear H
                  end); go_inv.

Ltac stage_simpl := cbn [failStage ret mbind go_bind result_bind errorf gerrorf call negb orb].

Section verify.
Context `{HashLib, SigLib, KeyDescriptorLib}.
Context `{CborMode ClientClaim.t, CborMode claim.framing, CborMode AcceptedReceipt.t}.
Context `{CborMode CommittedReceipt.t, CborMode ServerRecord.t, CborMode GlobalLogLeaf.t}.
Context `{CborMode SignedTreeHead.t}.

Definition claim_of (b : ProofBundle.t) : ClientClaim.t :=
  b.(ProofBundle.SignedClaim).(SignedClaim.Claim).

(** What the checks of [ProofBundle] establish before the optional parts. *)
Record verified_bundle (fuel : nat) (raw : bytes) (bundle : ProofBundle.t) (keys : TrustedKeys)
    (p : trustcrypto.Provider) (suite : cryptosuite.Suite) (v : claim.Verified) : Prop := {
  vb_suite : cryptosuite.RequireKnown (trustcrypto.Provider_Suite p) = Ok suite;
  vb_schema : bundle.(ProofBundle.SchemaVersion) = SchemaProofBundle;
  vb_suites : modelsuite.Require_ (trustcrypto.Provider_Suite p)
    (modelsuite.AnyProofBundle bundle) = Ok tt;
  vb_content :
    let content := (claim_of bundle).(ClientClaim.Content) in
    trustcrypto.HashReaderWithProvider (Some p) content.(Content.HashAlg) raw
    = Ok (content.(Content.ContentHash), content.(Content.ContentLength));
  vb_claim : claim.VerifyWithProvider bundle.(ProofBundle.SignedClaim) (ClientPublicKey keys)
    (Some p) = Ok v;
  vb_id : claim.V_RecordID v = bundle.(ProofBundle.RecordID);
  vb_record : claim.V_RecordID v = bundle.(ProofBundle.ServerRecord).(ServerRecord.RecordID);
  vb_bindings : validateBundleBindings bundle v p = Ok tt;
  vb_accepted : receipt.VerifyAcceptedWithProvider bundle.(ProofBundle.AcceptedReceipt)
    (publicKeyOrFallback (AcceptedReceiptPublicKey keys) (ServerPublicKey keys)) (Some p) = Ok tt;
  vb_committed : receipt.VerifyCommittedWithProvider bundle.(ProofBundle.CommittedReceipt)
    (publicKeyOrFallback (CommittedReceiptPublicKey keys) (ServerPublicKey keys)) (Some p) = Ok tt;
  vb_leaf : merkle.HashLeafForSuite (trustcrypto.Provider_Suite p)
    (cryptosuite.MerkleAlgorithm (cryptosuite.Merkle suite)) bundle.(ProofBundle.ServerRecord)
    = Some (Ok bundle.(ProofBundle.CommittedReceipt).(CommittedReceipt.LeafHash));
  vb_proof :
    let bp := bundle.(ProofBundle.BatchProof) in
    let com := bundle.(ProofBundle.CommittedReceipt) in
    merkle.VerifyForSuite fuel (trustcrypto.Provider_Suite p) bp.(BatchProof.TreeAlg)
      com.(CommittedReceipt.LeafHash) bp.(BatchProof.LeafIndex) bp.(BatchProof.TreeSize)
      bp.(BatchProof.AuditPath) com.(CommittedReceipt.BatchRoot) = Some (Ok true) }.

Lemma bundleEvidence_Ret fuel raw bundle keys p v :
  bundleEvidence fuel raw bundle keys p = Ret v ↔
  ∃ suite, verified_bundle fuel raw bundle keys p suite v.
Proof.
  unfold bundleEvidence. split.
  - intros E. stage_inv. bsimpl. subst.
    match goal with H : cryptosuite.RequireAvailable _ = Ok ?s |- _ =>
      apply cryptosuite.RequireAvailable_Ok in H; pose proof (cryptosuite.RequireKnown_id _ _ H) as Eid;
      exists s; rewrite Eid in * end.
    by split.
  - intros [suite [F1 F2 F3 F4 F5 F6 F7 F8 F9 F10 F11 F12]].
    rewrite F2, seqb_refl. stage_simpl.
    rewrite (proj2 (cryptosuite.RequireAvailable_Ok _ _) F1). stage_simpl.
    rewrite (cryptosuite.RequireKnown_id _ _ F1), F3. stage_simpl. unfold claim_of in F4. cbn zeta in F4. rewrite F4.
    stage_simpl. rewrite Z.eqb_refl, bytes_equal_refl. stage_simpl. rewrite F5. stage_simpl.
    rewrite <- F6, <- F7, seqb_refl. stage_simpl. rewrite F8. stage_simpl. rewrite F9. stage_simpl.
    rewrite F10. stage_simpl. rewrite F11. stage_simpl. rewrite bytes_equal_refl. stage_simpl.
    cbn zeta in F12. rewrite F12. done.
Qed.

(** The same for a global-log proof. *)
Record verified_log (fuel : nat) (bundle : ProofBundle.t) (proof : GlobalLogProof.t)
    (pk : trustcrypto.PublicKeyDescriptor) (p : trustcrypto.Provider) (suite : cryptosuite.Suite)
  : Prop := {
  vl_suite : cryptosuite.RequireKnown (trustcrypto.Provider_Suite p) = Ok suite;
  vl_schema : proof.(GlobalLogProof.SchemaVersion) = SchemaGlobalLogProof;
  vl_sth_schema : proof.(GlobalLogProof.STH).(SignedTreeHead.SchemaVersion) = SchemaSignedTreeHead;
  vl_bundle_suites : modelsuite.Require_ (trustcrypto.Provider_Suite p)
    (modelsuite.AnyProofBundle bundle) = Ok tt;
  vl_suites : modelsuite.Require_ (trustcrypto.Provider_Suite p)
    (modelsuite.AnyGlobalLogProof proof) = Ok tt;
  vl_alg : proof.(GlobalLogProof.STH).(SignedTreeHead.TreeAlg)
    = cryptosuite.MerkleAlgorithm (cryptosuite.Merkle suite);
  vl_size : proof.(GlobalLogProof.TreeSize) = proof.(GlobalLogProof.STH).(SignedTreeHead.TreeSize);
  vl_root : len proof.(GlobalLogProof.STH).(SignedTreeHead.RootHash)
    = cryptosuite.DigestBytes (cryptosuite.MerkleHash (cryptosuite.Merkle suite));
  vl_batch : proof.(GlobalLogProof.BatchID)
    = bundle.(ProofBundle.CommittedReceipt).(CommittedReceipt.BatchID);
  vl_node : mismatch proof.(GlobalLogProof.NodeID) bundle.(ProofBundle.NodeID) = false;
  vl_log : mismatch proof.(GlobalLogProof.LogID) bundle.(ProofBundle.LogID) = false;
  vl_sth_node : mismatch proof.(GlobalLogProof.STH).(SignedTreeHead.NodeID)
    proof.(GlobalLogProof.NodeID) = false;
  vl_sth_log : mismatch proof.(GlobalLogProof.STH).(SignedTreeHead.LogID)
    proof.(GlobalLogProof.LogID) = false;
  vl_inclusion : globallog.VerifyInclusionForSuite fuel (trustcrypto.Provider_Suite p) proof = Ret true;
  vl_leaf : globallog.HashLeafWithProvider (Some p)
    (expectedLeaf (trustcrypto.Provider_Suite p) bundle proof) = Ok proof.(GlobalLogProof.LeafHash);
  vl_sth : globallog.VerifySTHWithProvider proof.(GlobalLogProof.STH) pk (Some p) = Ok tt }.

Lemma VerifyGlobalLogProof_Ret fuel bundle proof pk p :
  VerifyGlobalLogProof fuel bundle proof pk (Some p) = Ret tt ↔
  ∃ suite, verified_log fuel bundle proof pk p suite.
Proof.
  unfold VerifyGlobalLogProof, globalLogConsistencyWithProvider, globallog.VerifyInclusionWithProvider.
  split.
  - intros E. stage_inv. bsimpl. subst.
    match goal with H : cryptosuite.RequireAvailable _ = Ok ?s |- _ =>
      apply cryptosuite.RequireAvailable_Ok in H; pose proof (cryptosuite.RequireKnown_id _ _ H) as Eid;
      exists s; rewrite Eid in * end.
    destruct (globallog.VerifyInclusionForSuite _ _ _) eqn:Ei; [|done|done]. simplify_eq. by split.
  - intros [suite [F1 F2 F3 F4 F5 F6 F7 F8 F9 F10 F11 F12 F13 F14 F15 F16]].
    rewrite F2, F3, !seqb_refl. stage_simpl.
    rewrite (proj2 (cryptosuite.RequireAvailable_Ok _ _) F1). stage_simpl.
    rewrite (cryptosuite.RequireKnown_id _ _ F1), F4. stage_simpl. rewrite F5. stage_simpl.
    rewrite F6, F7, F8, F9, !seqb_refl, !Z.eqb_refl. stage_simpl. rewrite F10, F11, F12, F13, F14.
    stage_simpl. rewrite F15. stage_simpl. rewrite bytes_equal_refl. stage_simpl. by rewrite F16.
Qed.

(** ** What the digests bind *)

Lemma suite_profile id su :
  cryptosuite.RequireKnown id = Ok su →
  ∃ prof, merkle.ProfileForAlgorithm id (cryptosuite.MerkleAlgorithm (cryptosuite.Merkle su)) = Ok prof ∧
    profile_wf prof ∧ merkle.leafPrefix prof = cryptosuite.LeafPrefix (cryptosuite.Merkle su).
Proof.
  intros Hk. assert (∃ prof, merkle.ProfileForAlgorithm id
    (cryptosuite.MerkleAlgorithm (cryptosuite.Merkle su)) = Ok prof ∧
    merkle.leafPrefix prof = cryptosuite.LeafPrefix (cryptosuite.Merkle su)) as (prof & Hp & Hl).
  { apply cryptosuite.RequireKnown_Ok in Hk as [[-> ->]|[-> ->]]; eexists; done. }
  exists prof. split; [done|]. split; [by eapply ProfileForAlgorithm_wf|done].
Qed.

Lemma HashLeafForSuite_inv s a prof rec h :
  merkle.ProfileForAlgorithm s a = Ok prof → merkle.HashLeafForSuite s a rec = Some (Ok h) →
  ∃ b, encMode_Marshal rec = Ok b ∧ h = leaf_hash prof b.
Proof.
  intros Hp. unfold merkle.HashLeafForSuite. rewrite Hp.
  destruct (modelsuite.Require_ _ _); [|done]. rewrite hashLeafArray_wf by (by eapply ProfileForAlgorithm_wf).
  cbn [mbind option_bind]. destruct (encMode_Marshal rec) as [b|]; cbn; [|done].
  intros [= <-]. exists b. split; [done|]. by rewrite cloneHash_digest by apply profile_hash_digest.
Qed.

(** The record of an accepted leaf is the record of the batch at its index, or
    two different inputs of the hash collide: one of the verification, one of
    the batch. *)
Lemma record_binds `{!CborModeInjective ServerRecord.t} fuel s a prof rec leaf (i : Z) path records t :
  merkle.ProfileForAlgorithm s a = Ok prof → (63 <= fuel)%nat → 0 <= i → len records <= 2 ^ 62 →
  merkle.HashLeafForSuite s a rec = Some (Ok leaf) →
  merkle.BuildForSuite fuel s a records = Some (Ok t) →
  merkle.VerifyForSuite fuel s a leaf i (len records) path (merkle.Root t) = Some (Ok true) →
  records !! Z.to_nat i = Some rec ∨
  hash_collision prof
    (verify_inputs prof fuel i (len records) leaf path ++ leaf_inputs prof [rec])
    (tree_inputs prof (merkle.leafHashes t) ++ leaf_inputs prof records).
Proof.
  intros Hp Hf Hi H62 Hl Hb Hv. destruct (HashLeafForSuite_inv _ _ _ _ _ Hp Hl) as (b & Eb & ->).
  destruct (BuildForSuite_inv _ _ _ _ _ _ Hp H62 Hf Hb) as (Hne & bs & HF & Hlh & Hroot & _).
  pose proof (leaf_hashes_digests prof bs) as Hd. apply Forall2_length in HF as Hlen.
  unfold merkle.Root in Hv. rewrite Hroot, cloneHash_digest in Hv by (by apply MTH_digest).
  assert (len (map (leaf_hash prof) bs) = len records) as El by (unfold len; rewrite length_map; lia).
  rewrite <- El in Hv, H62 |- *. rewrite Hlh.
  destruct (verify_binds _ _ _ _ _ _ _ _ Hp Hd H62 Hf Hi Hv) as [Hlk|Hc].
  2: { right. revert Hc. apply hash_collision_mono; set_solver. }
  rewrite (leaf_inputs_spec prof records bs), (leaf_inputs_spec prof [rec] [b]) by (done || by repeat constructor).
  rewrite list_lookup_fmap in Hlk. destruct (bs !! Z.to_nat i) as [b'|] eqn:Eb'; [|done].
  injection Hlk as Eh. destruct (decide (b' = b)) as [->|Hneb].
  - left. destruct (Forall2_lookup_r _ _ _ _ _ HF Eb') as (r & Hr & Er). rewrite Hr. f_equal.
    by eapply cborx.Marshal_injective; apply cborx.Marshal_Ok.
  - right. exists (merkle.leafPrefix prof :: b), (merkle.leafPrefix prof :: b').
    split; [set_solver|]. split; [|split; [congruence|done]].
    apply elem_of_app. right. apply list_elem_of_fmap. exists b'. split; [done|].
    by eapply list_elem_of_lookup_2.
Qed.

(** The input of the leaf hash of the global log. *)
Definition log_leaf_input (prof : merkle.Profile) (l : GlobalLogLeaf.t) : list bytes :=
  match encMode_Marshal (GlobalLogLeaf.set_AppendedAtUnixN 0 (GlobalLogLeaf.set_LeafHash [] l)) with
  | Ok payload => [merkle.leafPrefix prof :: bytes_of_string SchemaGlobalLogLeaf ++ [x00] ++ payload]
  | Err _ => []
  end.

Lemma HashLeafWithProvider_inv p su prof l h :
  cryptosuite.RequireKnown (trustcrypto.Provider_Suite p) = Ok su →
  merkle.ProfileForAlgorithm (trustcrypto.Provider_Suite p)
    (cryptosuite.MerkleAlgorithm (cryptosuite.Merkle su)) = Ok prof →
  globallog.HashLeafWithProvider (Some p) l = Ok h →
  ∃ payload, encMode_Marshal (GlobalLogLeaf.set_AppendedAtUnixN 0 (GlobalLogLeaf.set_LeafHash [] l))
      = Ok payload ∧
    h = profile_hash prof
          (merkle.leafPrefix prof :: bytes_of_string SchemaGlobalLogLeaf ++ [x00] ++ payload).
Proof.
  intros Hk Hp Hh. unfold globallog.HashLeafWithProvider in Hh. ok_inv.
  match goal with H : cborx.Marshal _ = Ok ?b |- _ => exists b; apply cborx.Marshal_Ok in H end.
  split; [done|].
  match goal with H : cryptosuite.RequireAvailable _ = Ok ?s |- _ =>
    apply cryptosuite.RequireAvailable_Ok in H; rewrite Hk in H; injection H as <- end.
  rewrite (cryptosuite.RequireKnown_id _ _ Hk) in *. simplify_eq.
  apply cryptosuite.RequireKnown_Ok in Hk as [[Es ->]|[Es ->]]; rewrite Es in *;
    unfold merkle.ProfileForAlgorithm in *; destruct p; try discriminate Es; vm_compute in Hp; simplify_eq;
    match goal with H : trustcrypto.Provider_HashFactory _ _ = Ok _ |- _ => vm_compute in H end; simplify_eq; done.
Qed.

Lemma set_strip l :
  GlobalLogLeaf.set_AppendedAtUnixN 0 (GlobalLogLeaf.set_LeafHash [] l)
  = GlobalLogLeaf.mk l.(GlobalLogLeaf.SchemaVersion) l.(GlobalLogLeaf.CryptoSuite)
      l.(GlobalLogLeaf.NodeID) l.(GlobalLogLeaf.LogID) l.(GlobalLogLeaf.BatchID)
      l.(GlobalLogLeaf.BatchRoot) l.(GlobalLogLeaf.BatchTreeSize)
      l.(GlobalLogLeaf.BatchClosedAtUnixN) l.(GlobalLogLeaf.LeafIndex) [] 0.
Proof. done. Qed.

(** The leaf of an accepted global-log proof is the leaf of the log at its
    index, up to its own hash and the time of its append. *)
Lemma log_leaf_binds `{!CborModeInjective GlobalLogLeaf.t} fuel p su prof want h (i : Z) path lvs :
  cryptosuite.RequireKnown (trustcrypto.Provider_Suite p) = Ok su →
  merkle.ProfileForAlgorithm (trustcrypto.Provider_Suite p)
    (cryptosuite.MerkleAlgorithm (cryptosuite.Merkle su)) = Ok prof →
  (63 <= fuel)%nat → 0 <= i → len lvs <= 2 ^ 62 →
  want.(GlobalLogLeaf.LeafHash) = [] → want.(GlobalLogLeaf.AppendedAtUnixN) = 0 →
  globallog.HashLeafWithProvider (Some p) want = Ok h →
  Forall (λ l, globallog.HashLeafWithProvider (Some p) l = Ok l.(GlobalLogLeaf.LeafHash)) lvs →
  let hashes := map GlobalLogLeaf.LeafHash lvs in
  merkle.VerifyForSuite fuel (trustcrypto.Provider_Suite p)
    (cryptosuite.MerkleAlgorithm (cryptosuite.Merkle su)) h i (len lvs) path (MTH prof hashes)
  = Some (Ok true) →
  (∃ l, lvs !! Z.to_nat i = Some l ∧
        GlobalLogLeaf.set_AppendedAtUnixN 0 (GlobalLogLeaf.set_LeafHash [] l) = want) ∨
  hash_collision prof
    (verify_inputs prof fuel i (len lvs) h path ++ log_leaf_input prof want)
    (tree_inputs prof hashes ++ flat_map (log_leaf_input prof) lvs).
Proof.
  intros Hk Hp Hf Hi H62 Hw1 Hw2 Hh HF hashes Hv.
  destruct (HashLeafWithProvider_inv _ _ _ _ _ Hk Hp Hh) as (pay & Epay & ->).
  assert (Forall is_digest hashes) as Hd.
  { apply Forall_fmap. eapply Forall_impl; [exact HF|]. cbn. intros l Hl.
    destruct (HashLeafWithProvider_inv _ _ _ _ _ Hk Hp Hl) as (? & _ & ->). apply profile_hash_digest. }
  assert (len hashes = len lvs) as El by (unfold len, hashes; by rewrite length_map).
  rewrite <- El in Hv, H62 |- *.
  destruct (verify_binds _ _ _ _ _ _ _ _ Hp Hd H62 Hf Hi Hv) as [Hlk|Hc].
  2: { right. revert Hc. apply hash_collision_mono; set_solver. }
  unfold hashes in Hlk. rewrite list_lookup_fmap in Hlk.
  destruct (lvs !! Z.to_nat i) as [l|] eqn:El'; [|done]. injection Hlk as Eh.
  pose proof (Forall_lookup_1 _ _ _ _ HF El') as Hl. cbn in Hl.
  destruct (HashLeafWithProvider_inv _ _ _ _ _ Hk Hp Hl) as (pay' & Epay' & Eh').
  destruct (decide (pay' = pay)) as [->|Hne].
  - left. exists l. split; [done|]. apply cborx.Marshal_Ok in Epay, Epay'.
    rewrite (cborx.Marshal_injective _ _ _ Epay' Epay). rewrite set_strip. by destruct want; cbn in *; subst.
  - right. eexists _, _. split; [apply elem_of_app; right; unfold log_leaf_input; rewrite Epay; apply list_elem_of_here|].
    split; [apply elem_of_app; right; apply list_elem_of_In, in_flat_map; exists l; split;
      [by apply list_elem_of_In; eapply list_elem_of_lookup_2|unfold log_leaf_input; rewrite Epay'; by left]|].
    split; [|etrans; [symmetry; exact Eh|exact Eh']]. intros E. by simplify_list_eq.
Qed.

Lemma sameSignedTreeHead_true a b : sameSignedTreeHead a b = true → a = b.
Proof.
  unfold sameSignedTreeHead. intros E. bsimpl.
  destruct a as [? ? ? ? ? ? ? ? []], b as [? ? ? ? ? ? ? ? []]; cbn in *. by subst.
Qed.

Lemma AnchorBinding_inv proof ar :
  AnchorBindingConsistency proof ar = Ok tt →
  ar.(STHAnchorResult.STH) = proof.(GlobalLogProof.STH) ∧
  ar.(STHAnchorResult.EvidenceStage) = AnchorEvidenceStageOfflineVerified.
Proof.
  unfold AnchorBindingConsistency. intros E. ok_inv. bsimpl.
  split; [by apply sameSignedTreeHead_true|done].
Qed.

Lemma VerifyInclusionForSuite_inv fuel s proof :
  globallog.VerifyInclusionForSuite fuel s proof = Ret true →
  merkle.VerifyForSuite fuel s proof.(GlobalLogProof.STH).(SignedTreeHead.TreeAlg)
    proof.(GlobalLogProof.LeafHash) proof.(GlobalLogProof.LeafIndex) proof.(GlobalLogProof.TreeSize)
    proof.(GlobalLogProof.InclusionPath) proof.(GlobalLogProof.STH).(SignedTreeHead.RootHash)
  = Some (Ok true).
Proof.
  unfold globallog.VerifyInclusionForSuite. intros E. destruct (negb _); [done|].
  apply bind_Ret in E as (u & _ & E). destruct (_ || _); [done|]. destruct (_ || _); [done|].
  by apply call_Ret in E.
Qed.

(** ** Soundness *)

Context `{OtsHashLib, OtsJson}.

(** The level granted for the options that were given. *)
Definition level_of (o : options) : prooflevel.Level :=
  match o_anchor o, o_global o with
  | Some _, _ => prooflevel.L5
  | None, Some _ => prooflevel.L4
  | None, None => prooflevel.L3
  end.

Definition provider_of (keys : TrustedKeys) : trustcrypto.Provider :=
  default trustcrypto.DefaultProvider (CryptoProvider keys).

Lemma verified_log_suite fuel bundle proof pk p s1 s2 :
  cryptosuite.RequireKnown (trustcrypto.Provider_Suite p) = Ok s1 →
  verified_log fuel bundle proof pk p s2 → s1 = s2.
Proof. intros E1 Hl. rewrite (vl_suite _ _ _ _ _ _ Hl) in E1. by injection E1. Qed.

Lemma globalEvidence_inv fuel bundle keys p o g :
  globalEvidence fuel bundle keys p o = Ret g →
  match o_global o with
  | Some proof => g = true ∧ ∃ suite, verified_log fuel bundle proof
      (publicKeyOrFallback (SignedTreeHeadPublicKey keys) (ServerPublicKey keys)) p suite
  | None => g = false
  end.
Proof.
  unfold globalEvidence. destruct (o_global o) as [proof|]; [|by intros [= <-]].
  intros E. apply bind_Ret in E as (u & _ & E). apply bind_Ret in E as (u' & E1 & E).
  injection E as <-. split; [done|]. apply failStage_Ret in E1. destruct u'.
  by apply VerifyGlobalLogProof_Ret in E1.
Qed.

Lemma anchorEvidence_inv o a :
  anchorEvidence o = Ret a →
  a = o_anchor o ∧
  ∀ ar, o_anchor o = Some ar → ∃ proof, o_global o = Some proof ∧
    AnchorConsistencyWithVerifier proof ar (o_anchorVerifier o) = Ret tt.
Proof.
  unfold anchorEvidence. destruct (o_anchor o) as [ar|]; [|by intros [= <-]].
  rewrite failStage_Ret. destruct (o_global o) as [proof|]; [|done].
  intros E. apply bind_Ret in E as (u & _ & E). apply bind_Ret in E as ([] & E1 & E).
  injection E as <-. split; [done|]. intros ? [= <-]. by exists proof.
Qed.

Lemma ProofBundle_inv fuel raw bundle keys opts res :
  ProofBundle fuel raw bundle keys opts = Ret res →
  let p := provider_of keys in
  let o := apply_options opts in
  ∃ suite v, verified_bundle fuel raw bundle keys p suite v ∧
    (Valid res, R_RecordID res, R_ProofLevel res) = (true, claim.V_RecordID v, level_of o) ∧
    (∀ proof, o_global o = Some proof → verified_log fuel bundle proof
       (publicKeyOrFallback (SignedTreeHeadPublicKey keys) (ServerPublicKey keys)) p suite) ∧
    (∀ ar, o_anchor o = Some ar → ∃ proof, o_global o = Some proof ∧
       AnchorConsistencyWithVerifier proof ar (o_anchorVerifier o) = Ret tt).
Proof.
  intros E p o. unfold ProofBundle in E. fold (provider_of keys) in E. fold p o in E.
  apply bind_Ret in E as (v & Hv & E). apply bind_Ret in E as (g & Hg & E).
  apply bind_Ret in E as (a & Ha & E).
  apply bundleEvidence_Ret in Hv as [suite Hv]. exists suite, v.
  apply globalEvidence_inv in Hg. apply anchorEvidence_inv in Ha as [-> Ha].
  assert (∀ proof, o_global o = Some proof → verified_log fuel bundle proof
       (publicKeyOrFallback (SignedTreeHeadPublicKey keys) (ServerPublicKey keys)) p suite) as Hl.
  { intros proof Ep. rewrite Ep in Hg. destruct Hg as [_ [suite' Hl]].
    by rewrite (verified_log_suite _ _ _ _ _ _ _ (vb_suite _ _ _ _ _ _ _ Hv) Hl). }
  split; [done|]. split; [|done]. unfold level_of.
  destruct (o_anchor o) as [ar|].
  - destruct (Ha ar eq_refl) as (proof & Ep & _). rewrite Ep in Hg. destruct Hg as [-> _].
    by injection E as <-.
  - destruct (o_global o); [destruct Hg as [-> _]|subst g]; by injection E as <-.
Qed.

(** C4: an accepted bundle is sound.  If [ProofBundle] accepts content, bundle
    and options then the content has the length and digest of the claim, the
    claim, both receipts and (if a global proof was given) the tree head verify
    under the trusted keys, and the reported level is L3, L4 or L5 according to
    the evidence given.  Moreover: for every batch whose tree has the root and
    the size in the bundle, the server record is the record of the batch at the
    leaf index; for every log whose head has the root and the size of the tree
    head, the log has at the leaf index a leaf with this batch id, root, size
    and closing time; or else two different inputs of the suite's hash, one
    computed by the verification and one by the batch or the log, have the same
    digest.  An accepted anchor carries exactly the verified tree head. *)
Theorem accepted_bundle_sound `{!CborModeInjective ServerRecord.t, !CborModeInjective GlobalLogLeaf.t}
    fuel raw bundle keys opts res :
  (63 <= fuel)%nat →
  ProofBundle fuel raw bundle keys opts = Ret res →
  let p := provider_of keys in
  let s := trustcrypto.Provider_Suite p in
  let o := apply_options opts in
  let rec := bundle.(ProofBundle.ServerRecord) in
  let com := bundle.(ProofBundle.CommittedReceipt) in
  let bp := bundle.(ProofBundle.BatchProof) in
  ∃ suite prof v, verified_bundle fuel raw bundle keys p suite v ∧
    merkle.ProfileForAlgorithm s (cryptosuite.MerkleAlgorithm (cryptosuite.Merkle suite)) = Ok prof ∧
    (Valid res, R_RecordID res, R_ProofLevel res)
    = (true, rec.(ServerRecord.RecordID), level_of o) ∧
    (∀ records t, 0 <= bp.(BatchProof.LeafIndex) → len records = bp.(BatchProof.TreeSize) →
       len records <= 2 ^ 62 →
       merkle.BuildForSuite fuel s (cryptosuite.MerkleAlgorithm (cryptosuite.Merkle suite)) records
       = Some (Ok t) → merkle.Root t = com.(CommittedReceipt.BatchRoot) →
       records !! Z.to_nat bp.(BatchProof.LeafIndex) = Some rec ∨
       hash_collision prof
         (verify_inputs prof fuel bp.(BatchProof.LeafIndex) (len records)
            com.(CommittedReceipt.LeafHash) bp.(BatchProof.AuditPath) ++ leaf_inputs prof [rec])
         (tree_inputs prof (merkle.leafHashes t) ++ leaf_inputs prof records)) ∧
    (∀ proof lvs, o_global o = Some proof →
       let sth := proof.(GlobalLogProof.STH) in
       let hashes := map GlobalLogLeaf.LeafHash lvs in
       globallog.VerifySTHWithProvider sth
         (publicKeyOrFallback (SignedTreeHeadPublicKey keys) (ServerPublicKey keys)) (Some p) = Ok tt ∧
       (0 <= proof.(GlobalLogProof.LeafIndex) → len lvs = sth.(SignedTreeHead.TreeSize) →
        len lvs <= 2 ^ 62 → sth.(SignedTreeHead.RootHash) = MTH prof hashes →
        Forall (λ l, globallog.HashLeafWithProvider (Some p) l = Ok l.(GlobalLogLeaf.LeafHash)) lvs →
        (∃ l, lvs !! Z.to_nat proof.(GlobalLogProof.LeafIndex) = Some l ∧
           l.(GlobalLogLeaf.BatchID) = com.(CommittedReceipt.BatchID) ∧
           l.(GlobalLogLeaf.BatchRoot) = com.(CommittedReceipt.BatchRoot) ∧
           l.(GlobalLogLeaf.BatchTreeSize) = bp.(BatchProof.TreeSize) ∧
           l.(GlobalLogLeaf.BatchClosedAtUnixN) = com.(CommittedReceipt.ClosedAtUnixN)) ∨
        hash_collision prof
          (verify_inputs prof fuel proof.(GlobalLogProof.LeafIndex) (len lvs)
             proof.(GlobalLogProof.LeafHash) proof.(GlobalLogProof.InclusionPath)
           ++ log_leaf_input prof (expectedLeaf s bundle proof))
          (tree_inputs prof hashes ++ flat_map (log_leaf_input prof) lvs))) ∧
    (∀ ar, o_anchor o = Some ar → ∃ proof, o_global o = Some proof ∧
       ar.(STHAnchorResult.STH) = proof.(GlobalLogProof.STH) ∧
       ar.(STHAnchorResult.EvidenceStage) = AnchorEvidenceStageOfflineVerified).
Proof.
  intros Hf E p s o rec com bp.
  destruct (ProofBundle_inv _ _ _ _ _ _ E) as (suite & v & Hv & Hres & Hlog & Hanchor).
  fold p o in Hv, Hres, Hlog, Hanchor.
  pose proof (vb_suite _ _ _ _ _ _ _ Hv) as Hk.
  destruct (suite_profile _ _ Hk) as (prof & Hp & Hwf & _). exists suite, prof, v.
  split; [done|]. split; [done|]. split; [by rewrite Hres, (vb_record _ _ _ _ _ _ _ Hv)|].
  split_and!.
  - intros records t Hi Hlen H62 Hb Hroot.
    pose proof (vb_proof _ _ _ _ _ _ _ Hv) as Hpr. cbn zeta in Hpr.
    assert (bp.(BatchProof.TreeAlg) = cryptosuite.MerkleAlgorithm (cryptosuite.Merkle suite)) as Ealg.
    { pose proof (vb_bindings _ _ _ _ _ _ _ Hv) as Hbi. unfold validateBundleBindings in Hbi. ok_inv.
      bsimpl. match goal with H : cryptosuite.RequireAvailable _ = Ok ?x |- _ =>
        apply cryptosuite.RequireAvailable_Ok in H; rewrite Hk in H; injection H as <- end. done. }
    fold bp com s in Hpr. rewrite Ealg, <- Hlen, <- Hroot in Hpr.
    by apply (record_binds fuel s _ prof rec _ _ _ records t Hp Hf Hi H62 (vb_leaf _ _ _ _ _ _ _ Hv) Hb).
  - intros proof lvs Ep sth hashes. specialize (Hlog _ Ep). split; [apply Hlog|].
    intros Hi Hlen H62 Hroot HF.
    pose proof (VerifyInclusionForSuite_inv _ _ _ (vl_inclusion _ _ _ _ _ _ Hlog)) as Hin.
    rewrite (vl_alg _ _ _ _ _ _ Hlog), (vl_size _ _ _ _ _ _ Hlog) in Hin. fold sth in Hin.
    rewrite <- Hlen, Hroot in Hin.
    destruct (log_leaf_binds fuel p suite prof (expectedLeaf s bundle proof) _ _ _ lvs Hk Hp Hf Hi H62
      eq_refl eq_refl (vl_leaf _ _ _ _ _ _ Hlog) HF Hin) as [(l & Hl & El)|Hc]; [left|by right].
    exists l. rewrite set_strip in El. unfold expectedLeaf in El. injection El. intros. by split_and!.
  - intros ar Ea. destruct (Hanchor _ Ea) as (proof & Ep & Hac). exists proof. split; [done|].
    unfold AnchorConsistencyWithVerifier in Hac. apply bind_Ret in Hac as ([] & Hb & _).
    apply ret_Ret in Hb. by apply AnchorBinding_inv.
Qed.
End verify.
End verify_proofs.
