(* ===== verification/Idempotency.v ===== *)
(** * Durable idempotency decisions

    Models [src/internal/idempotency/decision.go]: the decision that is stored
    for an idempotency key, its validation and its storage key.  Cloning a
    value is the identity: values are immutable here. *)

From Stdlib Require Import Strings.Ascii.
From S2P Require Import Prelude TrustErr CryptoSuite Model TrustCrypto Cborx Claim Ots.

Module idempotency.

Module Id := IdempotencyIdentity.
Module Dec := IdempotencyDecision.
Module Rec := ServerRecord.
Module Acc := AcceptedReceipt.

Definition validateWALPosition (position : WALPosition.t) : result unit :=
  if (position.(WALPosition.SegmentID) =? 0) || (position.(WALPosition.Offset) <? 0)
     || (position.(WALPosition.Sequence) =? 0)
  then Err (ErrorsNew "idempotency: server record has an invalid WAL position") else Ok tt.

(** Signature metadata of the suite: the algorithm, a signature, and for
    [INTL_V1] its size. *)
Definition bad_signature (suite : cryptosuite.Suite) (sig : Signature.t) : bool :=
  negb (seqb sig.(Signature.Alg) (cryptosuite.SigAlgorithm (cryptosuite.Signature suite)))
  || (len sig.(Signature.Signature) =? 0)
  || (seqb (cryptosuite.SuiteID suite) cryptosuite.INTLV1
      && negb (len sig.(Signature.Signature) =? trustcrypto.ed25519_SignatureSize)).

Definition validateResponseBindings (suite : cryptosuite.Suite) (identity : Id.t)
    (claimHash : bytes) (record : Rec.t) (accepted : Acc.t) : result unit :=
  if negb (seqb record.(Rec.SchemaVersion) SchemaServerRecord)
  then Err (ErrorsNew "idempotency: unexpected server record schema %q") else
  if seqb record.(Rec.RecordID) ""
  then Err (ErrorsNew "idempotency: record_id is required") else
  if negb (seqb record.(Rec.TenantID) identity.(Id.TenantID))
     || negb (seqb record.(Rec.ClientID) identity.(Id.ClientID))
  then Err (ErrorsNew "idempotency: server record identity does not match decision identity") else
  if seqb record.(Rec.KeyID) ""
  then Err (ErrorsNew "idempotency: server record key_id is required") else
  if record.(Rec.ReceivedAtUnixN) <=? 0
  then Err (ErrorsNew "idempotency: server record received_at_unix_n must be positive") else
  if negb (bytes_equal record.(Rec.ClaimHash) claimHash)
  then Err (ErrorsNew "idempotency: server record claim_hash does not match decision") else
  if negb (len record.(Rec.ClientSignatureHash)
           =? cryptosuite.DigestBytes (cryptosuite.SignatureHash suite))
  then Err (ErrorsNew "idempotency: client signature hash length is %d, want %d") else
  _ ← validateWALPosition record.(Rec.WAL);
  if negb (seqb accepted.(Acc.SchemaVersion) SchemaAcceptedReceipt)
  then Err (ErrorsNew "idempotency: unexpected accepted receipt schema %q") else
  if negb (seqb accepted.(Acc.RecordID) record.(Rec.RecordID))
  then Err (ErrorsNew "idempotency: accepted receipt record_id does not match server record") else
  if negb (seqb accepted.(Acc.Status) "accepted")
  then Err (ErrorsNew "idempotency: unexpected accepted receipt status %q") else
  if seqb accepted.(Acc.ServerID) ""
  then Err (ErrorsNew "idempotency: accepted receipt server_id is required") else
  if negb (accepted.(Acc.ReceivedAtUnixN) =? record.(Rec.ReceivedAtUnixN))
  then Err (ErrorsNew "idempotency: accepted receipt timestamp does not match server record") else
  if negb (bool_decide (accepted.(Acc.WAL) = record.(Rec.WAL)))
  then Err (ErrorsNew "idempotency: accepted receipt WAL position does not match server record") else
  if bad_signature suite accepted.(Acc.ServerSig)
     || seqb accepted.(Acc.ServerSig).(Signature.KeyID) ""
  then Err (ErrorsNew "idempotency: accepted receipt server signature is required") else
  Ok tt.

Definition ValidateDecisionForSuite (suiteID : cryptosuite.ID) (identity : Id.t) (decision : Dec.t)
  : result unit :=
  suite ← cryptosuite.RequireKnown suiteID;
  if seqb identity.(Id.TenantID) "" || seqb identity.(Id.ClientID) ""
     || seqb identity.(Id.IdempotencyKey) ""
  then Err (ErrorsNew "idempotency: tenant_id, client_id, and idempotency_key are required") else
  if negb (seqb decision.(Dec.SchemaVersion) SchemaIdempotencyDecision)
  then Err (ErrorsNew "idempotency: unexpected decision schema %q") else
  _ ← errorf "idempotency: crypto_suite: %w"
        (cryptosuite.RequireSame (cryptosuite.SuiteID suite)
           [decision.(Dec.CryptoSuite); decision.(Dec.Record).(Rec.CryptoSuite);
            decision.(Dec.Accepted).(Acc.CryptoSuite)]);
  if negb (bool_decide (decision.(Dec.Identity) = identity))
  then Err (ErrorsNew "idempotency: decision identity does not match lookup identity") else
  if seqb decision.(Dec.BatchID) "" then Err (ErrorsNew "idempotency: batch_id is required") else
  if negb (len decision.(Dec.ClaimHash) =? cryptosuite.DigestBytes (cryptosuite.ClaimHash suite))
  then Err (ErrorsNew "idempotency: claim_hash length is %d, want %d") else
  validateResponseBindings suite identity decision.(Dec.ClaimHash) decision.(Dec.Record)
    decision.(Dec.Accepted).

Definition ValidateDecision (identity : Id.t) (decision : Dec.t) : result unit :=
  ValidateDecisionForSuite cryptosuite.INTLV1 identity decision.

(** [reflect.DeepEqual]; a nil and an empty slice are not distinguished. *)
Definition Equivalent (a b : Dec.t) : bool := bool_decide (a = b).

Section decision.
Context `{HashLib, CborMode ClientClaim.t, CborMode claim.framing}.

Definition validateAcceptedResponseWithProvider (provider : option trustcrypto.Provider)
    (signed : SignedClaim.t) (record : Rec.t) (accepted : Acc.t) (requireIdempotency : bool)
  : result (cryptosuite.Suite * Id.t * bytes) :=
  match provider with
  | None => Err (ErrorsNew "idempotency: crypto provider is required")
  | Some p =>
      suite ← cryptosuite.RequireAvailable (trustcrypto.Provider_Suite p);
      let cl := signed.(SignedClaim.Claim) in
      let sig := signed.(SignedClaim.Signature) in
      if negb (seqb signed.(SignedClaim.SchemaVersion) SchemaSignedClaim)
      then Err (ErrorsNew "idempotency: unexpected signed claim schema %q") else
      if negb (seqb sig.(Signature.KeyID) cl.(ClientClaim.KeyID))
      then Err (ErrorsNew "idempotency: signature key_id does not match claim key_id") else
      if bad_signature suite sig
      then Err (ErrorsNew "idempotency: valid client signature metadata is required") else
      if requireIdempotency && seqb cl.(ClientClaim.IdempotencyKey) ""
      then Err (ErrorsNew "idempotency: idempotency_key is required") else
      claimCBOR ← errorf "idempotency: canonicalize claim: %w" (claim.Canonical cl);
      claimHash ← errorf "idempotency: hash claim: %w"
                    (trustcrypto.HashBytesWithProvider provider
                       (cryptosuite.HashAlgorithm (cryptosuite.ClaimHash suite)) claimCBOR);
      if negb (bytes_equal record.(Rec.ClaimHash) claimHash)
      then Err (ErrorsNew "idempotency: server record claim hash does not match signed claim") else
      recordID ← errorf "idempotency: derive record id: %w"
                   (claim.RecordIDWithProvider provider claimCBOR sig);
      if negb (seqb record.(Rec.RecordID) recordID)
      then Err (ErrorsNew "idempotency: server record id does not match signed claim") else
      signatureHash ← errorf "idempotency: hash client signature: %w"
                        (trustcrypto.HashBytesWithProvider provider
                           (cryptosuite.HashAlgorithm (cryptosuite.SignatureHash suite))
                           sig.(Signature.Signature));
      if negb (bytes_equal record.(Rec.ClientSignatureHash) signatureHash)
      then Err (ErrorsNew "idempotency: server record signature hash does not match signed claim")
      else
      if negb (seqb record.(Rec.KeyID) cl.(ClientClaim.KeyID))
      then Err (ErrorsNew "idempotency: server record key_id does not match signed claim") else
      let identity := Id.mk cl.(ClientClaim.TenantID) cl.(ClientClaim.ClientID)
                        cl.(ClientClaim.IdempotencyKey) in
      _ ← validateResponseBindings suite identity claimHash record accepted;
      Ok (suite, identity, claimHash)
  end.

Definition ValidateAcceptedResponseWithProvider (provider : option trustcrypto.Provider)
    (signed : SignedClaim.t) (record : Rec.t) (accepted : Acc.t) : result unit :=
  _ ← validateAcceptedResponseWithProvider provider signed record accepted false;
  Ok tt.

Definition BuildDecisionWithProvider (provider : option trustcrypto.Provider) (batchID : string)
    (signed : SignedClaim.t) (record : Rec.t) (accepted : Acc.t) : result Dec.t :=
  '(suite, identity, claimHash) ←
    validateAcceptedResponseWithProvider provider signed record accepted true;
  let decision := Dec.mk SchemaIdempotencyDecision (cryptosuite.SuiteID suite) identity claimHash
                    record accepted batchID in
  _ ← ValidateDecisionForSuite (cryptosuite.SuiteID suite) identity decision;
  Ok decision.

Definition BuildDecision : string → SignedClaim.t → Rec.t → Acc.t → result Dec.t :=
  BuildDecisionWithProvider (Some trustcrypto.DefaultProvider).

(** ** Storage keys *)

Definition writeStorageKeyComponent (dst : bytes) (value : string) : bytes :=
  dst ++ be_put 8 (slen value) ++ bytes_of_string value.

Definition storageKeyInput (suite : cryptosuite.Suite) (identity : Id.t) : bytes :=
  let h := bytes_of_string (cryptosuite.IdempotencyStorageKey (cryptosuite.Domains suite)) ++ [x00] in
  let h := if seqb (cryptosuite.SuiteID suite) cryptosuite.CNSMV1
           then h ++ bytes_of_string (cryptosuite.SuiteID suite) ++ [x00] else h in
  let h := writeStorageKeyComponent h identity.(Id.TenantID) in
  let h := writeStorageKeyComponent h identity.(Id.ClientID) in
  writeStorageKeyComponent h identity.(Id.IdempotencyKey).

Definition StorageKeyForSuite (suiteID : cryptosuite.ID) (identity : Id.t) : result string :=
  suite ← cryptosuite.RequireKnown suiteID;
  factory ← trustcrypto.HashFactoryForSuite suiteID
              (cryptosuite.HashAlgorithm (cryptosuite.StorageIntegrityHash suite));
  Ok (ots.hex_encode (trustcrypto.HashFactory_Sum factory (storageKeyInput suite identity))).

(** [None] is the panic. *)
Definition StorageKey (identity : Id.t) : option string :=
  match StorageKeyForSuite cryptosuite.INTLV1 identity with Ok key => Some key | Err _ => None end.


(** ** Storage keys identify identities *)

Lemma nibble_bounds (x : byte) :
  0 <= Z.shiftr (Z_of_byte x) 4 < 16 ∧ 0 <= Z.land (Z_of_byte x) 15 < 16 ∧
  Z_of_byte x = Z.shiftr (Z_of_byte x) 4 * 16 + Z.land (Z_of_byte x) 15.
Proof.
  pose proof (Z_of_byte_range x). change 15 with (Z.ones 4).
  rewrite Z.shiftr_div_pow2, Z.land_ones by lia. change (2 ^ 4) with 16.
  pose proof (Z.div_mod (Z_of_byte x) 16 ltac:(lia)). pose proof (Z.mod_pos_bound (Z_of_byte x) 16 ltac:(lia)).
  lia.
Qed.

Lemma hex_digit_inj a b :
  0 <= a < 16 → 0 <= b < 16 → ots.hex_digit a = ots.hex_digit b → a = b.
Proof.
  intros Ha Hb. unfold ots.hex_digit.
  assert (∀ n, (n < 16)%nat → n ∈ seq 0 16) as Hin by (intros; apply elem_of_seq; lia).
  assert (forallb (λ x, forallb (λ y, negb (bool_decide
    (default "0"%char (String.get x "0123456789abcdef") = default "0"%char (String.get y "0123456789abcdef")))
    || Nat.eqb x y) (seq 0 16)) (seq 0 16) = true) as Hall by by vm_compute.
  rewrite forallb_forall in Hall. specialize (Hall (Z.to_nat a)).
  rewrite forallb_forall in Hall. specialize (Hall ltac:(apply list_elem_of_In, Hin; lia) (Z.to_nat b)).
  specialize (Hall ltac:(apply list_elem_of_In, Hin; lia)). intros E. rewrite bool_decide_true in Hall by done.
  cbn in Hall. apply Nat.eqb_eq in Hall. lia.
Qed.

Lemma hex_encode_inj a b : ots.hex_encode a = ots.hex_encode b → a = b.
Proof.
  revert b. induction a as [|x a IH]; intros [|y b] E; cbn in E; try done.
  injection E as E1 E2 E. destruct (nibble_bounds x) as (X1 & X2 & X3), (nibble_bounds y) as (Y1 & Y2 & Y3).
  apply hex_digit_inj in E1, E2; [|done..]. f_equal; [|by apply IH].
  apply Z_of_byte_inj. lia.
Qed.

(** A length-framed component ends where it says. *)
Lemma framed_inj (x y : string) (a b : bytes) :
  slen x < two64 → slen y < two64 →
  be_put 8 (slen x) ++ bytes_of_string x ++ a = be_put 8 (slen y) ++ bytes_of_string y ++ b →
  x = y ∧ a = b.
Proof.
  intros Hx Hy E. apply app_inj_1 in E as [E1 E2]; [|by rewrite !length_be_put].
  assert (slen x = slen y) as El.
  { apply (f_equal be_get) in E1. rewrite !be_get_put in E1. change (256 ^ Z.of_nat 8) with two64 in E1.
    rewrite !Z.mod_small in E1 by (unfold slen in *; lia). done. }
  apply app_inj_1 in E2 as [E2 ->]; [|rewrite !length_bytes_of_string; unfold slen in El; lia].
  split; [|done]. by apply bytes_of_string_inj.
Qed.

Definition go_string (x : string) : Prop := slen x < two63.

(** A storage key identifies its identity.  Two identities with the same
    storage key under a suite are equal, or their two framed inputs are
    different byte strings with the same digest: no choice of tenant, client and
    key, embedded separators included, makes two identities share an input. *)
Theorem storage_key_binds suiteID id1 id2 key :
  go_string id1.(Id.TenantID) → go_string id1.(Id.ClientID) → go_string id1.(Id.IdempotencyKey) →
  go_string id2.(Id.TenantID) → go_string id2.(Id.ClientID) → go_string id2.(Id.IdempotencyKey) →
  StorageKeyForSuite suiteID id1 = Ok key → StorageKeyForSuite suiteID id2 = Ok key →
  id1 = id2 ∨
  ∃ suite factory, cryptosuite.RequireKnown suiteID = Ok suite ∧
    storageKeyInput suite id1 ≠ storageKeyInput suite id2 ∧
    trustcrypto.HashFactory_Sum factory (storageKeyInput suite id1)
    = trustcrypto.HashFactory_Sum factory (storageKeyInput suite id2).
Proof.
  unfold go_string. assert (two63 < two64) as H63 by done. intros T1 C1 K1 T2 C2 K2 E1 E2.
  unfold StorageKeyForSuite in E1, E2.
  apply bind_Ok in E1 as (suite & Hk & E1). rewrite Hk in E2. cbn [mbind result_bind] in E2.
  apply bind_Ok in E1 as (factory & Hf & E1). rewrite Hf in E2. cbn [mbind result_bind] in E2.
  rewrite <- E2 in E1. injection E1 as E1%hex_encode_inj.
  destruct (decide (storageKeyInput suite id1 = storageKeyInput suite id2)) as [E|Hne].
  2: { right. by exists suite, factory. }
  left. unfold storageKeyInput, writeStorageKeyComponent in E. rewrite <- !app_assoc in E.
  apply app_inv_head in E. destruct id1 as [t1 c1 k1], id2 as [t2 c2 k2].
  cbn [Id.TenantID Id.ClientID Id.IdempotencyKey] in *.
  rewrite <- (app_nil_r (bytes_of_string k1)), <- (app_nil_r (bytes_of_string k2)) in E.
  apply framed_inj in E as [-> E]; [|lia..]. apply framed_inj in E as [-> E]; [|lia..].
  by apply framed_inj in E as [-> _]; [|lia..].
Qed.
End decision.

End idempotency.
