(* ===== verification/IdemIndex.v ===== *)
(** * The idempotency index

    Models [src/internal/app/idempotency.go]: the process-local index of
    accepted claims with its fixed-size FIFO of durable entries, and the durable
    stores behind it.

    The per-key lock makes the operations on one key atomic and the entries
    lock those on the map; an operation here is one atomic step.  The [build]
    callback of the source changes the state of the caller: it is a function on
    a state [W].  Cloning an entry is the identity. *)

From S2P Require Import Prelude TrustErr CryptoSuite Model TrustCrypto Idempotency.

Module app_idempotency.
Import idempotency.

(** [GetIdempotencyDecision] and [GetBundle] at the time of the call. *)
Definition DurableIdempotencyReader : Type := Id.t → result (option Dec.t).
Definition DurableRecordReader : Type := string → result ProofBundle.t.

Record idempotencyEntry := mkEntry {
  record : Rec.t;
  accepted : Acc.t;
  claimHash : bytes;
  durable : bool;
  durableEpoch : Z }.

Record durableIdempotencySlot := mkSlot { slot_key : string; slot_epoch : Z }.

Record IdempotencyIndex := mkIndex {
  entries : gmap string idempotencyEntry;
  durableSlots : list durableIdempotencySlot;
  durableNext : nat;
  nextDurableEpoch : Z }.

Definition defaultDurableIdempotencyCapacity : nat := 4096.

Definition NewIdempotencyIndex : IdempotencyIndex :=
  mkIndex ∅ (replicate defaultDurableIdempotencyCapacity (mkSlot "" 0)) 0 0.

Definition Lookup (i : IdempotencyIndex) (key : string) : option idempotencyEntry :=
  entries i !! key.

Definition set_entries (m : gmap string idempotencyEntry) (i : IdempotencyIndex) : IdempotencyIndex :=
  mkIndex m (durableSlots i) (durableNext i) (nextDurableEpoch i).

Definition put (i : IdempotencyIndex) (key : string) (entry : idempotencyEntry) : IdempotencyIndex :=
  set_entries (<[key := mkEntry (record entry) (accepted entry) (claimHash entry) false 0]> (entries i)) i.

(** The entries without the one that the slot still owns. *)
Definition evict (evicted : durableIdempotencySlot) (m : gmap string idempotencyEntry)
  : gmap string idempotencyEntry :=
  if slot_epoch evicted =? 0 then m else
  match m !! slot_key evicted with
  | Some existing =>
      if durable existing && (durableEpoch existing =? slot_epoch evicted)
      then delete (slot_key evicted) m else m
  | None => m
  end.

(** The next epoch, which is never zero. *)
Definition next_epoch (epoch : Z) : Z :=
  let e := u64 (epoch + 1) in if e =? 0 then u64 (e + 1) else e.

(** An index out of the slots panics; [durableNext] is always in range. *)
Definition putDurableLocked (i : IdempotencyIndex) (key : string) (entry : idempotencyEntry)
  : IdempotencyIndex :=
  match durableSlots i !! durableNext i with
  | None => i
  | Some evicted =>
      let epoch := next_epoch (nextDurableEpoch i) in
      mkIndex
        (<[key := mkEntry (record entry) (accepted entry) (claimHash entry) true epoch]>
           (evict evicted (entries i)))
        (<[durableNext i := mkSlot key epoch]> (durableSlots i))
        ((durableNext i + 1) mod length (durableSlots i)) epoch
  end.

Definition putDurable := putDurableLocked.

(** The results [record], [accepted], [loaded] and [conflict]. *)
Definition remembered : Type := Rec.t * Acc.t * bool * bool.

Section remember.
Context {W : Type}.

(** The callback: it may append to the log, whatever it returns. *)
Definition Build : Type := W → W * go (Rec.t * Acc.t).

(** The last part of both functions: [build] runs and its result is stored. *)
Definition buildAndPut (i : IdempotencyIndex) (key : string) (hash : bytes) (build : Build) (w : W)
  : IdempotencyIndex * W * go remembered :=
  match build w with
  | (w, Ret (rec, acc)) => (put i key (mkEntry rec acc hash false 0), w, Ret (rec, acc, false, false))
  | (w, Fail e) => (i, w, Fail e)
  | (w, Stuck) => (i, w, Stuck)
  end.

(** Without a key [build] runs and nothing is stored. *)
Definition buildOnly (i : IdempotencyIndex) (build : Build) (w : W)
  : IdempotencyIndex * W * go remembered :=
  match build w with
  | (w, Ret (rec, acc)) => (i, w, Ret (rec, acc, false, false))
  | (w, Fail e) => (i, w, Fail e)
  | (w, Stuck) => (i, w, Stuck)
  end.

Definition conflicted : remembered := (Rec.zero, Acc.zero, false, true).

(** The answer of an existing entry. *)
Definition answer (existing : idempotencyEntry) (hash : bytes) : remembered :=
  if negb (bytes_equal (claimHash existing) hash) then conflicted
  else (record existing, accepted existing, true, false).

Definition RememberDurable (i : IdempotencyIndex) (key : string) (identity : Id.t) (hash : bytes)
    (reader : option DurableIdempotencyReader) (build : Build) (w : W)
  : IdempotencyIndex * W * go remembered :=
  if seqb key "" then buildOnly i build w else
  match Lookup i key with
  | Some existing => (i, w, Ret (answer existing hash))
  | None =>
      match reader with
      | None => buildAndPut i key hash build w
      | Some GetIdempotencyDecision =>
          match GetIdempotencyDecision identity with
          | Err readErr => (i, w, Fail (Errorf "app: read durable idempotency decision: %w" readErr))
          | Ok None => buildAndPut i key hash build w
          | Ok (Some decision) =>
              match ValidateDecision identity decision with
              | Err e => (i, w, Fail (Wrap CodeDataLoss "validate durable idempotency decision" (Some e)))
              | Ok _ =>
                  let entry := mkEntry decision.(Dec.Record) decision.(Dec.Accepted)
                                 decision.(Dec.ClaimHash) false 0 in
                  (putDurable i key entry, w,
                   Ret (if negb (bytes_equal decision.(Dec.ClaimHash) hash) then conflicted
                        else (decision.(Dec.Record), decision.(Dec.Accepted), true, false)))
              end
          end
      end
  end.

Definition Remember (i : IdempotencyIndex) (key : string) (hash : bytes) (build : Build) (w : W)
  : IdempotencyIndex * W * go remembered :=
  RememberDurable i key Id.zero hash None build w.

Definition RememberDurableRecord (i : IdempotencyIndex) (key recordID : string) (hash : bytes)
    (reader : option DurableRecordReader) (build : Build) (w : W)
  : IdempotencyIndex * W * go remembered :=
  if seqb key "" || seqb recordID "" then buildOnly i build w else
  match Lookup i key with
  | Some existing => (i, w, Ret (answer existing hash))
  | None =>
      match reader with
      | None => buildAndPut i key hash build w
      | Some GetBundle =>
          match GetBundle recordID with
          | Ok bundle =>
              let rec := bundle.(ProofBundle.ServerRecord) in
              let acc := bundle.(ProofBundle.AcceptedReceipt) in
              if negb (seqb bundle.(ProofBundle.RecordID) recordID)
                 || negb (seqb rec.(Rec.RecordID) recordID)
                 || negb (seqb acc.(Acc.RecordID) recordID)
                 || negb (bytes_equal rec.(Rec.ClaimHash) hash)
              then (i, w, Fail (New CodeDataLoss "durable record does not match deterministic record id"))
              else (putDurable i key (mkEntry rec acc hash false 0), w, Ret (rec, acc, true, false))
          | Err readErr =>
              if negb (bool_decide (CodeOf readErr = CodeNotFound))
              then (i, w, Fail (Errorf "app: read durable record: %w" readErr))
              else buildAndPut i key hash build w
          end
      end
  end.

End remember.

Definition ForgetCommitted (i : IdempotencyIndex) (key recordID : string) : IdempotencyIndex :=
  if seqb key "" || seqb recordID "" then i else
  match entries i !! key with
  | Some existing =>
      if seqb (record existing).(Rec.RecordID) recordID && negb (durable existing)
      then putDurableLocked i key existing else i
  | None => i
  end.

Definition Restore (i : IdempotencyIndex) (key : string) (rec : Rec.t) (acc : Acc.t) (hash : bytes)
  : IdempotencyIndex * bool :=
  if seqb key "" then (i, true) else
  match entries i !! key with
  | Some existing =>
      let consistent :=
        bytes_equal (claimHash existing) hash
        && seqb (record existing).(Rec.RecordID) rec.(Rec.RecordID)
        && bool_decide ((record existing).(Rec.WAL) = rec.(Rec.WAL))
        && seqb (accepted existing).(Acc.RecordID) acc.(Acc.RecordID)
        && bool_decide ((accepted existing).(Acc.WAL) = acc.(Acc.WAL)) in
      (if consistent && durable existing then put i key existing else i, consistent)
  | None => (set_entries (<[key := mkEntry rec acc hash false 0]> (entries i)) i, true)
  end.

Definition Remembered (i : IdempotencyIndex) (key : string) (rec : Rec.t) (acc : Acc.t)
    (hash : bytes) : IdempotencyIndex := fst (Restore i key rec acc hash).

Definition Size (i : IdempotencyIndex) : Z := Z.of_nat (size (entries i)).

Definition NUL : string := String (Ascii.ascii_of_nat 0) "".
Definition SOH : string := String (Ascii.ascii_of_nat 1) "".

Definition IdempotencyKey (tenantID clientID idempotencyKey : string) : string :=
  if seqb idempotencyKey "" then ""
  else (tenantID ++ NUL ++ clientID ++ NUL ++ idempotencyKey)%string.

Definition RecordIDKey (recordID : string) : string :=
  if seqb recordID "" then "" else (SOH ++ recordID)%string.

End app_idempotency.
