(* ===== verification/IdemIndexProofs.v ===== *)
(** * The idempotency index answers from the log of acceptances

    The index is a bounded cache in front of the durable decisions, and a
    restart rebuilds it from the log.  The theorems state that none of this is
    visible: over every sequence of submissions, publications, evictions and
    restarts an identity is accepted at most once, and a later submission is
    answered with what was accepted, up to the signature of the receipt, which a
    restart makes anew. *)

From S2P Require Import Prelude TrustErr CryptoSuite Model TrustCrypto Cborx Claim Idempotency.
From S2P Require Import IdemIndex Receipt.

Module idemindex_proofs.
Import idempotency app_idempotency.

(** What identifies a submission: its idempotency triple, or the record id of a
    claim without an idempotency key. *)
Inductive akey := ByIdentity (id : Id.t) | ByRecord (rid : string).

#[global] Instance akey_eq_dec : EqDecision akey.
Proof. solve_decision. Defined.

Definition raw (k : akey) : string :=
  match k with
  | ByIdentity id => IdempotencyKey id.(Id.TenantID) id.(Id.ClientID) id.(Id.IdempotencyKey)
  | ByRecord rid => RecordIDKey rid
  end.

Fixpoint nul_free (s : string) : bool :=
  match s with
  | EmptyString => true
  | String c s => negb (bool_decide (c = Ascii.ascii_of_nat 0)) && nul_free s
  end.

Definition starts_soh (s : string) : bool :=
  match s with String c _ => bool_decide (c = Ascii.ascii_of_nat 1) | EmptyString => false end.

(** Tenant and client ids are joined with NUL bytes in the key of the index. *)
Definition wf_key (k : akey) : Prop :=
  match k with
  | ByIdentity id =>
      id.(Id.IdempotencyKey) ≠ "" ∧ nul_free id.(Id.TenantID) = true ∧
      nul_free id.(Id.ClientID) = true ∧ starts_soh id.(Id.TenantID) = false
  | ByRecord rid => rid ≠ ""
  end.

(** An accepted response: the record, the receipt and the hash of the claim. *)
Definition response : Type := Rec.t * Acc.t * bytes.

(** The same response up to the signature of the receipt: a restart signs the
    receipts anew, and the signatures of [CN_SM_V1] are randomized. *)
Definition same (r r' : response) : Prop :=
  r.1.1 = r'.1.1 ∧ receipt.unsigned r.1.2 = receipt.unsigned r'.1.2 ∧ r.2 = r'.2.

(** The index, the log of acceptances and the two durable stores. *)
Record sys := mkSys {
  idx : IdempotencyIndex;
  log : list (akey * response);
  decs : Id.t → option Dec.t;
  buns : string → option ProofBundle.t }.

Definition set_idx (i : IdempotencyIndex) (σ : sys) : sys := mkSys i (log σ) (decs σ) (buns σ).

Definition empty_sys : sys := mkSys NewIdempotencyIndex [] (λ _, None) (λ _, None).

(** The key was accepted with this response, up to the signature. *)
Definition logged (σ : sys) (k : akey) (r : response) : Prop := ∃ r0, (k, r0) ∈ log σ ∧ same r0 r.

Definition published (σ : sys) (k : akey) : Prop :=
  match k with
  | ByIdentity id => is_Some (decs σ id)
  | ByRecord rid => is_Some (buns σ rid)
  end.

(** The readers of the durable stores; [rerr] is a storage failure. *)
Definition dec_reader (rerr : option error) (σ : sys) : DurableIdempotencyReader :=
  λ id, match rerr with Some e => Err e | None => Ok (decs σ id) end.

Definition bun_reader (rerr : option error) (σ : sys) : DurableRecordReader :=
  λ rid, match rerr with
         | Some e => Err e
         | None => match buns σ rid with
                   | Some b => Ok b
                   | None => Err (New CodeNotFound "bundle not found")
                   end
         end.

Section index.
Context {W : Type}.

Definition remember (σ : sys) (k : akey) (hash : bytes) (rerr : option error) (build : @Build W) (w : W)
  : IdempotencyIndex * W * go remembered :=
  match k with
  | ByIdentity id => RememberDurable (idx σ) (raw k) id hash (Some (dec_reader rerr σ)) build w
  | ByRecord rid => RememberDurableRecord (idx σ) (raw k) rid hash (Some (bun_reader rerr σ)) build w
  end.

Definition restored (l : list (akey * response)) : IdempotencyIndex :=
  foldl (λ i x, Remembered i (raw x.1) x.2.1.1 x.2.1.2 x.2.2) NewIdempotencyIndex l.

(** The log after a submission: extended when [build] was run. *)
Definition log_after (σ : sys) (k : akey) (hash : bytes) (out : go remembered)
  : list (akey * response) :=
  match out with
  | Ret (rec, acc, false, false) => log σ ++ [(k, (rec, acc, hash))]
  | _ => log σ
  end.

(** A decision is published as [PublishCommittedBatch] does, valid for the suite
    of the store.  A restart replays the accepted submissions that are not
    published, in any order, perhaps with some that are. *)
Inductive step (σ : sys) : sys → Prop :=
| step_submit k hash rerr build w i w' out :
    wf_key k → (rerr = None ∨ ∃ e, rerr = Some e ∧ CodeOf e ≠ CodeNotFound) →
    remember σ k hash rerr build w = (i, w', out) →
    step σ (mkSys i (log_after σ k hash out) (decs σ) (buns σ))
| step_publish_decision id d :
    logged σ (ByIdentity id) (d.(Dec.Record), d.(Dec.Accepted), d.(Dec.ClaimHash)) →
    (∃ suiteID, ValidateDecisionForSuite suiteID id d = Ok tt) →
    step σ (mkSys (idx σ) (log σ) (λ x, if decide (x = id) then Some d else decs σ x) (buns σ))
| step_publish_bundle rid b :
    let rec := b.(ProofBundle.ServerRecord) in
    let acc := b.(ProofBundle.AcceptedReceipt) in
    logged σ (ByRecord rid) (rec, acc, rec.(Rec.ClaimHash)) →
    b.(ProofBundle.RecordID) = rid → rec.(Rec.RecordID) = rid → acc.(Acc.RecordID) = rid →
    step σ (mkSys (idx σ) (log σ) (decs σ) (λ x, if decide (x = rid) then Some b else buns σ x))
| step_forget k rid :
    wf_key k → published σ k → step σ (set_idx (ForgetCommitted (idx σ) (raw k) rid) σ)
| step_restart l :
    (∀ x, x ∈ l → logged σ x.1 x.2) → (∀ x, x ∈ log σ → published σ x.1 ∨ x.1 ∈ l.*1) →
    step σ (set_idx (restored l) σ).

Inductive reachable : sys → Prop :=
| reach_empty : reachable empty_sys
| reach_step σ σ' : reachable σ → step σ σ' → reachable σ'.

(** ** Keys *)

Lemma join_inj a b c a' b' c' :
  nul_free a = true → nul_free a' = true → nul_free b = true → nul_free b' = true →
  (a ++ NUL ++ b ++ NUL ++ c = a' ++ NUL ++ b' ++ NUL ++ c')%string → a = a' ∧ b = b' ∧ c = c'.
Proof.
  assert (∀ x x' y y', nul_free x = true → nul_free x' = true →
    (x ++ NUL ++ y = x' ++ NUL ++ y')%string → x = x' ∧ y = y') as Hone.
  { induction x as [|c0 x IH]; intros [|c1 x'] y y' F F' E; cbn in E.
    - injection E as E. split; [done|exact E].
    - injection E as <- _. discriminate F'.
    - injection E as -> _. discriminate F.
    - injection E as -> E. cbn in F, F'. bsimpl.
      by destruct (IH x' y y') as [-> ->]. }
  intros. destruct (Hone a a' (b ++ NUL ++ c)%string (b' ++ NUL ++ c')%string) as [-> E2]; try done.
  by destruct (Hone b b' c c') as [-> ->].
Qed.

Lemma raw_inj k k' : wf_key k → wf_key k' → raw k = raw k' → k = k'.
Proof.
  destruct k as [[a b c]|r], k' as [[a' b' c']|r']; cbn; unfold IdempotencyKey, RecordIDKey.
  - intros (H1 & H2 & H3 & _) (H1' & H2' & H3' & _).
    rewrite (proj2 (seqb_false _ _) H1), (proj2 (seqb_false _ _) H1').
    intros E. by destruct (join_inj _ _ _ _ _ _ H2 H2' H3 H3' E) as (-> & -> & ->).
  - intros (H1 & _ & _ & H4) H'. rewrite (proj2 (seqb_false _ _) H1), (proj2 (seqb_false _ _) H').
    destruct a; cbn; [discriminate|]. intros [= -> _]. discriminate H4.
  - intros H' (H1 & _ & _ & H4). rewrite (proj2 (seqb_false _ _) H1), (proj2 (seqb_false _ _) H').
    destruct a'; cbn; [discriminate|]. intros [= <- _]. discriminate H4.
  - intros H1 H2. rewrite (proj2 (seqb_false _ _) H1), (proj2 (seqb_false _ _) H2).
    intros E. f_equal. by injection E.
Qed.

Lemma raw_nonempty k : wf_key k → seqb (raw k) "" = false.
Proof.
  intros Hk. apply seqb_false. destruct k as [[a b c]|r]; cbn in *; unfold IdempotencyKey, RecordIDKey.
  - destruct Hk as (H1 & _). rewrite (proj2 (seqb_false _ _) H1). by destruct a.
  - rewrite (proj2 (seqb_false _ _) Hk). done.
Qed.

(** ** The invariant *)

Definition resp (e : idempotencyEntry) : response := (record e, accepted e, claimHash e).

Record inv (σ : sys) : Prop := {
  inv_nodup : NoDup (log σ).*1;
  inv_wf x : x ∈ log σ → wf_key x.1;
  inv_entry s e : entries (idx σ) !! s = Some e → ∃ k, s = raw k ∧ logged σ k (resp e);
  inv_durable k e : wf_key k → entries (idx σ) !! raw k = Some e → durable e = true → published σ k;
  inv_found k r : (k, r) ∈ log σ → is_Some (entries (idx σ) !! raw k) ∨ published σ k;
  inv_dec id d : decs σ id = Some d → (∃ suiteID, ValidateDecisionForSuite suiteID id d = Ok tt) ∧
    logged σ (ByIdentity id) (d.(Dec.Record), d.(Dec.Accepted), d.(Dec.ClaimHash));
  inv_bun rid b : buns σ rid = Some b →
    logged σ (ByRecord rid) (b.(ProofBundle.ServerRecord), b.(ProofBundle.AcceptedReceipt),
       b.(ProofBundle.ServerRecord).(Rec.ClaimHash)) ∧
    b.(ProofBundle.RecordID) = rid ∧ b.(ProofBundle.ServerRecord).(Rec.RecordID) = rid ∧
    b.(ProofBundle.AcceptedReceipt).(Acc.RecordID) = rid }.

Lemma logged_wf σ k r : inv σ → logged σ k r → wf_key k.
Proof. intros Hi (r0 & Hl & _). exact (inv_wf _ Hi _ Hl). Qed.

Lemma logged_mono σ σ' k r : (∀ x, x ∈ log σ → x ∈ log σ') → logged σ k r → logged σ' k r.
Proof. intros Hl (r0 & ? & ?). exists r0. auto. Qed.

Lemma log_logged σ k r : (k, r) ∈ log σ → logged σ k r.
Proof. intros Hl. by exists r. Qed.

(** An index that holds responses of the log, marks as durable only what is
    published, and misses only what is published. *)
Record sound (σ : sys) (m : gmap string idempotencyEntry) : Prop := {
  so_entry s e : m !! s = Some e → ∃ k, s = raw k ∧ logged σ k (resp e);
  so_durable k e : wf_key k → m !! raw k = Some e → durable e = true → published σ k;
  so_found k r : (k, r) ∈ log σ → is_Some (m !! raw k) ∨ published σ k }.

Lemma inv_sound σ : inv σ → sound σ (entries (idx σ)).
Proof. intros []. by split. Qed.

Lemma sound_inv σ i : inv σ → sound σ (entries i) → inv (set_idx i σ).
Proof. intros [] []. by split. Qed.

Lemma evict_sound σ slot m : inv σ → sound σ m → sound σ (evict slot m).
Proof.
  intros Hi Hm. unfold evict. destruct (_ =? 0); [done|].
  destruct (m !! slot_key slot) as [e|] eqn:E; [|done]. destruct (_ && _) eqn:Ed; [|done].
  apply andb_true_iff in Ed as [Ed _]. destruct (so_entry _ _ Hm _ _ E) as (k & Ek & Hk).
  assert (wf_key k) as Hw by apply (logged_wf _ _ _ Hi Hk). rewrite Ek in E |- *.
  split.
  - intros s e' [_ Hs]%lookup_delete_Some. by apply (so_entry _ _ Hm).
  - intros k' e' Hw' [_ Hs]%lookup_delete_Some. by apply (so_durable _ _ Hm).
  - intros k' r' Hl. destruct (decide (raw k' = raw k)) as [Er|Hne].
    + apply raw_inj in Er as ->; [|by apply (inv_wf _ Hi _ Hl)|done].
      right. by apply (so_durable _ _ Hm _ _ Hw E).
    + rewrite lookup_delete_ne by done. by apply (so_found _ _ Hm _ r').
Qed.

Lemma insert_sound σ m k e :
  inv σ → sound σ m → logged σ k (resp e) → (durable e = true → published σ k) →
  sound σ (<[raw k := e]> m).
Proof.
  intros Hi Hm Hk Hd. assert (wf_key k) as Hw by apply (logged_wf _ _ _ Hi Hk). split.
  - intros s e' [[<- <-]|[_ Hs]]%lookup_insert_Some; [by exists k|by apply (so_entry _ _ Hm)].
  - intros k' e' Hw' [[Er <-]|[_ Hs]]%lookup_insert_Some; [|by apply (so_durable _ _ Hm)].
    apply raw_inj in Er as <-; auto.
  - intros k' r' Hl. destruct (decide (raw k' = raw k)) as [->|Hne].
    + left. rewrite lookup_insert_eq. done.
    + rewrite lookup_insert_ne by done. by apply (so_found _ _ Hm _ r').
Qed.

Lemma putDurable_sound σ i k e :
  inv σ → sound σ (entries i) → logged σ k (resp e) → published σ k →
  sound σ (entries (putDurableLocked i (raw k) e)).
Proof.
  intros Hi Hm Hk Hp. unfold putDurableLocked. destruct (_ !! _) as [slot|]; [|done].
  apply insert_sound; auto. by apply evict_sound.
Qed.

Lemma forget_sound σ k rid :
  inv σ → wf_key k → published σ k → sound σ (entries (ForgetCommitted (idx σ) (raw k) rid)).
Proof.
  intros Hi Hw Hp. pose proof (inv_sound _ Hi) as Hm. unfold ForgetCommitted.
  destruct (_ || _); [done|]. destruct (_ !! _) as [e|] eqn:E; [|done].
  destruct (_ && _); [|done]. destruct (so_entry _ _ Hm _ _ E) as (k' & Ek & Hl).
  apply raw_inj in Ek as <-; [|done|by eapply logged_wf]. by apply putDurable_sound.
Qed.

Lemma restored_sound σ l :
  inv σ → (∀ x, x ∈ l → logged σ x.1 x.2) → (∀ x, x ∈ log σ → published σ x.1 ∨ x.1 ∈ l.*1) →
  sound σ (entries (restored l)).
Proof.
  intros Hi Hl Hall.
  assert (∀ l' i, (∀ x, x ∈ l' → logged σ x.1 x.2) →
    (∀ s e, entries i !! s = Some e → (∃ k, s = raw k ∧ logged σ k (resp e)) ∧ durable e = false) →
    let i' := foldl (λ i x, Remembered i (raw x.1) x.2.1.1 x.2.1.2 x.2.2) i l' in
    (∀ s e, entries i' !! s = Some e → (∃ k, s = raw k ∧ logged σ k (resp e)) ∧ durable e = false) ∧
    (∀ s, is_Some (entries i !! s) → is_Some (entries i' !! s)) ∧
    (∀ x, x ∈ l' → is_Some (entries i' !! raw x.1))) as Hfold.
  { induction l' as [|[k [[r a] h]] l' IH]; intros i Hin Hi0; cbn [foldl].
    { split_and!; [done|done|]. by intros x ?%not_elem_of_nil. }
    assert (wf_key k) as Hw by apply (logged_wf _ _ _ Hi (Hin _ (list_elem_of_here (k, (r, a, h)) _))).
    destruct (IH (Remembered i (raw k) r a h)) as (I1 & I2 & I3).
    { intros x Hx. apply Hin. by apply list_elem_of_further. }
    { unfold Remembered, Restore. rewrite raw_nonempty by done.
      destruct (entries i !! raw k) as [e|] eqn:E; cbn [fst].
      - destruct (Hi0 _ _ E) as [_ Hd]. rewrite Hd, andb_false_r. done.
      - intros s e. cbn [set_entries entries].
        intros [[<- <-]|[_ Hs]]%lookup_insert_Some; [|by apply Hi0]. split; [|done].
        exists k. split; [done|]. apply (Hin (k, (r, a, h))), list_elem_of_here. }
    assert (is_Some (entries (Remembered i (raw k) r a h) !! raw k) ∧
      ∀ s, is_Some (entries i !! s) → is_Some (entries (Remembered i (raw k) r a h) !! s)) as [R1 R2].
    { unfold Remembered, Restore. rewrite raw_nonempty by done.
      destruct (entries i !! raw k) as [e|] eqn:E; cbn [fst].
      - destruct (Hi0 _ _ E) as [_ Hd]. rewrite Hd, andb_false_r. rewrite E. done.
      - cbn [set_entries entries]. rewrite lookup_insert_eq. split; [done|]. intros s Hs.
        destruct (decide (s = raw k)) as [->|]; [by rewrite lookup_insert_eq|by rewrite lookup_insert_ne]. }
    split_and!; [done|naive_solver|]. intros x [->|Hx]%elem_of_cons; [naive_solver|by apply I3]. }
  destruct (Hfold l NewIdempotencyIndex Hl) as (F1 & _ & F3); [intros s e; cbn [NewIdempotencyIndex entries]; by intros ?%lookup_empty_Some|].
  split.
  - intros s e Hs. by apply F1.
  - intros k e _ Hs Hd. apply F1 in Hs as [_ Hd']. congruence.
  - intros k r Hkr. destruct (Hall _ Hkr) as [?|(x & Ek & Hx)%list_elem_of_fmap]; [by right|left].
    cbn in Ek. subst k. by apply F3.
Qed.

(** ** Submissions *)

(** What a submission may answer: [hit] and [conflict] leave the state of the
    caller alone, [build] runs only for a key that is not in the log.  A durable
    decision of another suite than [INTL_V1] is not answered. *)
Inductive answers (σ : sys) (k : akey) (hash : bytes) (rerr : option error) (build : @Build W) (w : W)
  : W → go remembered → Prop :=
| ans_hit rec acc :
    logged σ k (rec, acc, hash) → answers σ k hash rerr build w w (Ret (rec, acc, true, false))
| ans_conflict rec acc h :
    (k, (rec, acc, h)) ∈ log σ → h ≠ hash → answers σ k hash rerr build w w (Ret conflicted)
| ans_mismatch rid rec acc h e :
    k = ByRecord rid → (k, (rec, acc, h)) ∈ log σ → h ≠ hash → CodeOf e = CodeDataLoss →
    answers σ k hash rerr build w w (Fail e)
| ans_unreadable id d suiteID e :
    k = ByIdentity id → k ∈ (log σ).*1 → decs σ id = Some d → ValidateDecisionForSuite suiteID id d = Ok tt →
    suiteID ≠ cryptosuite.INTLV1 → CodeOf e = CodeDataLoss → answers σ k hash rerr build w w (Fail e)
| ans_unavailable e m :
    rerr = Some e → answers σ k hash rerr build w w (Fail (Errorf m e))
| ans_build w' rec acc :
    k ∉ (log σ).*1 → build w = (w', Ret (rec, acc)) →
    answers σ k hash rerr build w w' (Ret (rec, acc, false, false))
| ans_build_error w' e :
    k ∉ (log σ).*1 → build w = (w', Fail e) → answers σ k hash rerr build w w' (Fail e)
| ans_build_stuck w' :
    k ∉ (log σ).*1 → build w = (w', Stuck) → answers σ k hash rerr build w w' Stuck.

Lemma not_in_log σ k :
  inv σ → entries (idx σ) !! raw k = None → ¬ published σ k → k ∉ (log σ).*1.
Proof.
  intros Hi Hn Hp ([k' r] & -> & Hl)%list_elem_of_fmap.
  destruct (inv_found _ Hi _ _ Hl) as [[? Hs]|?]; cbn in *; [congruence|done].
Qed.

(** The invariant after [build] has run and its result was put. *)
Lemma extend_inv σ k r a hash :
  inv σ → wf_key k → k ∉ (log σ).*1 →
  inv (mkSys (put (idx σ) (raw k) (mkEntry r a hash false 0)) (log σ ++ [(k, (r, a, hash))])
         (decs σ) (buns σ)).
Proof.
  intros Hi Hw Hk. split; cbn [idx log decs buns].
  - rewrite fmap_app, NoDup_app. split; [apply (inv_nodup _ Hi)|]. split; [|apply NoDup_singleton].
    intros x Hx ->%list_elem_of_singleton. done.
  - intros x [Hx| ->%list_elem_of_singleton]%elem_of_app; [by apply (inv_wf _ Hi)|done].
  - intros s e. unfold put. cbn [set_entries entries].
    intros [[<- <-]|[_ Hs]]%lookup_insert_Some.
    + exists k. split; [done|]. apply log_logged, elem_of_app. right. by apply list_elem_of_singleton.
    + destruct (inv_entry _ Hi _ _ Hs) as (k' & ? & ?). exists k'. split; [done|].
      eapply logged_mono; [|done]. intros x ?. apply elem_of_app. by left.
  - intros k' e Hw'. unfold put. cbn [set_entries entries].
    intros [[_ <-]|[_ Hs]]%lookup_insert_Some; [done|]. by apply (inv_durable _ Hi).
  - intros k' r'. unfold put. cbn [set_entries entries].
    intros [Hl|[= -> ->]%list_elem_of_singleton]%elem_of_app; [|left; by rewrite lookup_insert_eq].
    destruct (inv_found _ Hi _ _ Hl) as [Hs|]; [left|by right].
    destruct (decide (raw k' = raw k)) as [->|]; [by rewrite lookup_insert_eq|by rewrite lookup_insert_ne].
  - intros id d Hd. destruct (inv_dec _ Hi _ _ Hd). split; [done|].
    eapply logged_mono; [|done]. intros x ?. apply elem_of_app. by left.
  - intros rid b Hb. destruct (inv_bun _ Hi _ _ Hb) as [? ?]. split; [|done].
    eapply logged_mono; [|done]. intros x ?. apply elem_of_app. by left.
Qed.

(** A submission that is answered as stated keeps the invariant. *)
Definition good (σ : sys) (k : akey) (hash : bytes) (rerr : option error) (build : @Build W) (w : W)
    (x : IdempotencyIndex * W * go remembered) : Prop :=
  answers σ k hash rerr build w x.1.2 x.2 ∧
  inv (mkSys x.1.1 (log_after σ k hash x.2) (decs σ) (buns σ)).

Lemma buildAndPut_good σ k hash rerr build w :
  inv σ → wf_key k → k ∉ (log σ).*1 →
  good σ k hash rerr build w (buildAndPut (idx σ) (raw k) hash build w).
Proof.
  intros Hi Hw Hk. unfold good, buildAndPut. destruct (build w) as [w' [[rec acc]|e|]] eqn:E; cbn.
  - split; [by apply ans_build|]. by apply extend_inv.
  - split; [by apply ans_build_error|]. by destruct σ.
  - split; [by apply ans_build_stuck|]. by destruct σ.
Qed.

Lemma conflict_answers σ k hash rerr build w (r : response) :
  logged σ k r → r.2 ≠ hash → answers σ k hash rerr build w w (Ret conflicted).
Proof. intros ([[rec acc] h] & Hl & _ & _ & Eh) Hne. cbn in Eh. subst h. by eapply ans_conflict. Qed.

Lemma cached_good σ k hash rerr build w e :
  inv σ → wf_key k → entries (idx σ) !! raw k = Some e →
  good σ k hash rerr build w (idx σ, w, Ret (answer e hash)).
Proof.
  intros Hi Hw E. destruct (inv_entry _ Hi _ _ E) as (k' & Ek & Hl).
  apply raw_inj in Ek as <-; [|done|by eapply logged_wf].
  unfold good, answer. cbn [fst snd]. destruct (bytes_equal (claimHash e) hash) eqn:Eh; cbn [negb].
  - apply bytes_equal_true in Eh as <-. split; [by apply ans_hit|]. by destruct σ.
  - split; [|by destruct σ]. by apply conflict_answers with (resp e); [|apply bytes_equal_false_iff].
Qed.

(** A durable response is answered and cached. *)
Lemma durable_good σ k hash rerr build w e out :
  inv σ → logged σ k (resp e) → published σ k →
  answers σ k hash rerr build w w out → log_after σ k hash out = log σ →
  good σ k hash rerr build w (putDurable (idx σ) (raw k) e, w, out).
Proof.
  intros Hi Hl Hp Ha Hlog. split; [done|]. cbn [fst snd]. rewrite Hlog.
  apply (sound_inv σ); [done|]. apply putDurable_sound; auto. by apply inv_sound.
Qed.

Lemma keyed_good σ id hash rerr build w :
  inv σ → wf_key (ByIdentity id) →
  good σ (ByIdentity id) hash rerr build w (remember σ (ByIdentity id) hash rerr build w).
Proof.
  intros Hi Hw. unfold remember, RememberDurable. rewrite raw_nonempty by done. unfold Lookup.
  destruct (entries (idx σ) !! raw _) as [e|] eqn:E; [by apply cached_good|].
  unfold dec_reader. destruct rerr as [e|]; [split; [by apply ans_unavailable|by destruct σ]|].
  destruct (decs σ id) as [d|] eqn:Ed.
  2: { apply buildAndPut_good; [done..|]. apply not_in_log; [done..|]. cbn. rewrite Ed. by intros [? ?]. }
  destruct (inv_dec _ Hi _ _ Ed) as [[suiteID Hv] Hl]. destruct (ValidateDecision id d) as [[]|e] eqn:Ev.
  2: { split; [|by destruct σ]. destruct Hl as (r0 & Hl & _). eapply ans_unreadable; [done| |exact Ed|exact Hv| |done].
       - by apply (list_elem_of_fmap_2 fst) in Hl.
       - intros ->. unfold ValidateDecision in Ev. congruence. }
  apply durable_good; [done|done|cbn; by rewrite Ed|..];
    destruct (bytes_equal (Dec.ClaimHash d) hash) eqn:Eh; cbn [negb]; try done.
  - apply bytes_equal_true in Eh as <-. by apply ans_hit.
  - eapply conflict_answers; [exact Hl|]. by apply bytes_equal_false_iff.
Qed.

Lemma record_good σ rid hash rerr build w :
  inv σ → wf_key (ByRecord rid) → (rerr = None ∨ ∃ e, rerr = Some e ∧ CodeOf e ≠ CodeNotFound) →
  good σ (ByRecord rid) hash rerr build w (remember σ (ByRecord rid) hash rerr build w).
Proof.
  intros Hi Hw Hr. unfold remember, RememberDurableRecord. rewrite raw_nonempty by done.
  rewrite (proj2 (seqb_false _ _) Hw). cbn [orb]. unfold Lookup.
  destruct (entries (idx σ) !! raw _) as [e|] eqn:E; [by apply cached_good|].
  unfold bun_reader. destruct rerr as [e|].
  { destruct Hr as [|(? & [= <-] & Hc)]; [done|]. rewrite bool_decide_false by done. cbn [negb].
    split; [by apply ans_unavailable|by destruct σ]. }
  destruct (buns σ rid) as [b|] eqn:Eb.
  2: { apply buildAndPut_good; [done..|]. apply not_in_log; [done..|]. cbn. rewrite Eb. by intros [? ?]. }
  destruct (inv_bun _ Hi _ _ Eb) as (Hl & -> & -> & ->). rewrite !seqb_refl. cbn [negb orb].
  destruct (bytes_equal _ hash) eqn:Eh; cbn [negb].
  - apply bytes_equal_true in Eh as <-.
    apply durable_good; [done|done|cbn; by rewrite Eb|by apply ans_hit|done].
  - split; [|by destruct σ]. destruct Hl as ([[r0 a0] h0] & Hl & _ & _ & E0). cbn in E0. subst h0.
    eapply ans_mismatch; [done|exact Hl|by apply bytes_equal_false_iff|done].
Qed.

Lemma remember_good σ k hash rerr build w :
  inv σ → wf_key k → (rerr = None ∨ ∃ e, rerr = Some e ∧ CodeOf e ≠ CodeNotFound) →
  good σ k hash rerr build w (remember σ k hash rerr build w).
Proof. intros. destruct k; [by apply keyed_good|by apply record_good]. Qed.

(** ** Runs *)

Lemma publish_inv σ ds bs :
  inv σ →
  (∀ id, is_Some (decs σ id) → is_Some (ds id)) → (∀ rid, is_Some (buns σ rid) → is_Some (bs rid)) →
  (∀ id d, ds id = Some d → (∃ suiteID, ValidateDecisionForSuite suiteID id d = Ok tt) ∧
    logged σ (ByIdentity id) (d.(Dec.Record), d.(Dec.Accepted), d.(Dec.ClaimHash))) →
  (∀ rid b, bs rid = Some b →
    logged σ (ByRecord rid) (b.(ProofBundle.ServerRecord), b.(ProofBundle.AcceptedReceipt),
       b.(ProofBundle.ServerRecord).(Rec.ClaimHash)) ∧
    b.(ProofBundle.RecordID) = rid ∧ b.(ProofBundle.ServerRecord).(Rec.RecordID) = rid ∧
    b.(ProofBundle.AcceptedReceipt).(Acc.RecordID) = rid) →
  inv (mkSys (idx σ) (log σ) ds bs).
Proof.
  intros [I1 I2 I3 I4 I5 I6 I7] Hd Hb Hds Hbs.
  assert (∀ k, published σ k → published (mkSys (idx σ) (log σ) ds bs) k) as Hp by (intros []; cbn; auto).
  split; cbn [idx log decs buns]; eauto.
  intros k r Hl. destruct (I5 _ _ Hl); auto.
Qed.

Lemma step_inv σ σ' : inv σ → step σ σ' → inv σ'.
Proof.
  intros Hi Hs. destruct Hs as [k hash rerr build w i w' out Hw Hr E|id d Hl Hv|rid b rec acc Hl E1 E2 E3|k rid Hw Hp|l H1 H2].
  - destruct (remember_good σ k hash rerr build w Hi Hw Hr) as [_ Hg]. by rewrite E in Hg.
  - apply publish_inv; [done| |done| |apply (inv_bun _ Hi)].
    + intros x Hx. by case_decide.
    + intros x d'. case_decide; [intros [= <-]; by subst|apply (inv_dec _ Hi)].
  - apply publish_inv; [done|done| |apply (inv_dec _ Hi)|].
    + intros x Hx. by case_decide.
    + intros x b'. case_decide as Hx; [intros [= <-]; rewrite Hx; by split_and!|apply (inv_bun _ Hi)].
  - apply sound_inv; [done|]. by apply forget_sound.
  - apply sound_inv; [done|]. by apply restored_sound.
Qed.

Lemma reachable_inv σ : reachable σ → inv σ.
Proof.
  induction 1 as [|σ σ' _ IH Hs]; [|by eapply step_inv].
  split; cbn; try done; try (by intros ?? ?%not_elem_of_nil || by intros ? ?%not_elem_of_nil).
  constructor.
Qed.

(** C13: exactly-once acceptance.  In every state reached by submissions,
    publications of decisions (of either suite) and bundles, evictions from the
    bounded cache and restarts that replay the log and sign the receipts anew,
    every identity has been accepted at most once, and the build callback runs
    only for an identity that was never accepted.  A submission of an identity
    that was accepted is answered with the accepted record and receipt, up to the
    signature of the receipt, when the claim is the same, and with a conflict when
    it is another one (for a claim without a key, whose identity is the hash of
    the claim, a data-loss error may report it); the log is not touched.  There
    are two exceptions, both errors: a failing read of the durable store, and a
    decision of [CN_SM_V1] that is only in the durable store, which the index
    refuses with a data-loss error.  The tenant and client ids contain no NUL
    byte and the tenant id does not start with the byte 1, because the index
    joins them with these bytes; a read error of a record is not "not found". *)
Theorem index_exactly_once σ k hash rerr build w i w' out :
  reachable σ → wf_key k → (rerr = None ∨ ∃ e, rerr = Some e ∧ CodeOf e ≠ CodeNotFound) →
  remember σ k hash rerr build w = (i, w', out) →
  NoDup (log_after σ k hash out).*1 ∧ answers σ k hash rerr build w w' out.
Proof.
  intros Hr Hw He E. apply reachable_inv in Hr.
  destruct (remember_good σ k hash rerr build w Hr Hw He) as [Ha Hi]. rewrite E in Ha, Hi.
  split; [apply (inv_nodup _ Hi)|done].
Qed.
End index.

(** A durable decision of the suite [CN_SM_V1] cannot be read back.  The
    index validates a decision that it reads from the durable store with
    [ValidateDecision], which requires [INTL_V1]; so a retry of a committed
    submission that is no longer cached fails with a data-loss error, although
    the decision is the one that [BuildDecisionWithProvider] made and
    [ValidateDecisionForSuite] accepts for its suite. *)
Theorem cn_sm_retry_fails `{HashLib, CborMode ClientClaim.t, CborMode claim.framing} {W}
    (build : @Build W) batchID signed rec acc d i key identity hash reader w :
  BuildDecisionWithProvider (Some trustcrypto.cnSMV1Provider) batchID signed rec acc = Ok d →
  key ≠ "" → Lookup i key = None → reader identity = Ok (Some d) →
  ValidateDecisionForSuite cryptosuite.CNSMV1 d.(Dec.Identity) d = Ok tt ∧
  ∃ e, RememberDurable i key identity hash (Some reader) build w = (i, w, Fail e) ∧
       CodeOf e = CodeDataLoss.
Proof.
  intros Hb Hk Hl Hr. unfold BuildDecisionWithProvider in Hb.
  apply bind_Ok in Hb as ([[suite id] ch] & Hv & Hb). ok_inv.
  assert (cryptosuite.SuiteID suite = cryptosuite.CNSMV1) as Es.
  { unfold validateAcceptedResponseWithProvider in Hv. ok_inv. simplify_eq.
    match goal with H : cryptosuite.RequireAvailable _ = Ok _ |- _ =>
      apply cryptosuite.RequireAvailable_Ok, cryptosuite.RequireKnown_id in H end. done. }
  rewrite Es in *. split; [subst d; cbn [Dec.Identity]; by destruct x|].
  unfold RememberDurable. rewrite (proj2 (seqb_false _ _) Hk), Hl, Hr.
  destruct (ValidateDecision identity d) as [[]|e] eqn:E; [|by eexists].
  exfalso. unfold ValidateDecision, ValidateDecisionForSuite in E. ok_inv.
  match goal with H : cryptosuite.RequireSame _ _ = Ok _ |- _ => rename H into Hs end.
  match goal with H : cryptosuite.RequireKnown _ = Ok _ |- _ =>
    apply cryptosuite.RequireKnown_id in H; rewrite H in Hs end.
  subst d. cbn [Dec.CryptoSuite] in Hs. 
  match type of Hs with _ = Ok ?u => destruct u end.
  apply cryptosuite.RequireSame_Ok in Hs as [_ Hs]. inversion Hs. discriminate.
Qed.

End idemindex_proofs.
