(* ===== verification/Wal.v ===== *)
(** * Write-ahead log: record format, scanning and repair

    Models the codec and the scanner of [src/internal/wal/wal.go].  A segment
    file is the list of its bytes.  CRC-32C is computed as [hash/crc32] does.
    The storage-integrity hash is that of the suite ([HashLib]). *)

From S2P Require Import Prelude TrustErr CryptoSuite Model TrustCrypto.

#[global] Instance error_eq_dec : EqDecision error.
Proof.
  unfold EqDecision, Decision. fix IH 1. intros [m|m w|m w|c m o] [m'|m' w'|m' w'|c' m' o'];
    try (right; discriminate).
  - destruct (decide (m = m')) as [-> |]; [by left|right; congruence].
  - destruct (decide (m = m')) as [-> |]; [|right; congruence].
    destruct (IH w w') as [-> |]; [by left|right; congruence].
  - destruct (decide (m = m')) as [-> |]; [|right; congruence].
    destruct (IH w w') as [-> |]; [by left|right; congruence].
  - destruct (decide (c = c')) as [-> |]; [|right; congruence].
    destruct (decide (m = m')) as [-> |]; [|right; congruence].
    destruct o as [e|], o' as [e'|]; [|right; congruence..|by left].
    destruct (IH e e') as [-> |]; [by left|right; congruence].
Defined.

Module wal.

Module Pos := WALPosition.

Definition magic : Z := 0x54445731.
Definition version : Z := 2.
Definition typeAccepted : Z := 1.
Definition headerSize : Z := 4 + 2 + 2 + 8 + 8 + 8 + 32 + 2 + 4.
Definition crcSize : Z := 4.
Definition recordHashSize : Z := 32.
Definition maxPayloadBytes : Z := Z.shiftl 64 20.

Definition errRepairableFirstHeader := ErrorsNew "wal: repairable first record header".
Definition errTornRecord := ErrorsNew "wal: torn record".
Definition errCorruptRecord := ErrorsNew "wal: corrupt record".
Definition errBadRecordMagic := ErrorsNew "wal: bad record magic".
Definition errUnsupportedRecord := ErrorsNew "wal: unsupported record encoding".
Definition io_EOF := ErrorsNew "EOF".
Definition io_ErrUnexpectedEOF := ErrorsNew "unexpected EOF".

(** [errors.Is] with a sentinel: the error or one it wraps. *)
Fixpoint errors_Is (err target : error) : bool :=
  bool_decide (err = target)
  || match err with
     | ErrorsNew _ => false
     | Errorf _ w => errors_Is w target
     | StageError _ w => errors_Is w target
     | Error _ _ (Some c) => errors_Is c target
     | Error _ _ None => false
     end.

Definition zero_hash : bytes := replicate 32 x00.

Module Record_.
Record t := mk {
  CryptoSuite : cryptosuite.ID;
  Position : WALPosition.t;
  UnixNano : Z;
  Payload : bytes;
  PrevHash : bytes;
  RecordHash : bytes }.
End Record_.
Module Rec := Record_.

(** ** CRC-32C ([hash/crc32] with the Castagnoli table) *)

Definition castagnoli : Z := 0x82f63b78.

(** One table entry: eight conditional shifts. *)
Fixpoint crc_shift (n : nat) (crc : Z) : Z :=
  match n with
  | O => crc
  | S m =>
      crc_shift m (if Z.land crc 1 =? 1 then Z.lxor (Z.shiftr crc 1) castagnoli
                   else Z.shiftr crc 1)
  end.

Definition crc_update (crc : Z) (p : bytes) : Z :=
  foldl (λ crc v, Z.lxor (crc_shift 8 (Z.land (Z.lxor crc (Z_of_byte v)) 255)) (Z.shiftr crc 8)) crc p.

(** [crc32.Checksum], and [crc.Write] of the parts followed by [Sum32]. *)
Definition crc32_parts (parts : list bytes) : Z :=
  Z.lxor (foldl crc_update (Z.ones 32) parts) (Z.ones 32).
Definition crc32_Checksum (data : bytes) : Z := crc32_parts [data].

(** ** Suites *)

Definition suiteCode (suiteID : cryptosuite.ID) : option Z :=
  if seqb suiteID cryptosuite.INTLV1 then Some 1 else
  if seqb suiteID cryptosuite.CNSMV1 then Some 2 else None.

Definition suiteFromCode (code : Z) : result cryptosuite.ID :=
  if code =? 1 then Ok cryptosuite.INTLV1 else
  if code =? 2 then Ok cryptosuite.CNSMV1 else
  Err (ErrorsNew "unknown suite code %d").

Section codec.
Context `{HashLib}.

Definition walHash (suiteID : cryptosuite.ID) (data : bytes) : result bytes :=
  suite ← cryptosuite.RequireAvailable suiteID;
  factory ← trustcrypto.HashFactoryForSuite suiteID
              (cryptosuite.HashAlgorithm (cryptosuite.StorageIntegrityHash suite));
  if negb (trustcrypto.HashFactory_Size factory =? recordHashSize)
  then Err (ErrorsNew "storage hash size %d, want %d")
  else Ok (trustcrypto.HashFactory_Sum factory data).

(** ** The record frame *)

Definition encodeHeader (code segmentID sequence unixNano : Z) (prevHash payload : bytes) : bytes :=
  be_put 4 magic ++ be_put 2 version ++ be_put 2 typeAccepted ++ be_put 8 segmentID
  ++ be_put 8 sequence ++ be_put 8 (u64 unixNano) ++ prevHash ++ be_put 2 code
  ++ be_put 4 (len payload).

(** The frame and its hash; [None] is the panic on an unregistered suite. *)
Definition encodeRecordIntoForSuite (suiteID : cryptosuite.ID) (segmentID sequence unixNano : Z)
    (prevHash payload : bytes) : option (bytes * bytes) :=
  code ← suiteCode suiteID;
  let body := encodeHeader code segmentID sequence unixNano prevHash payload ++ payload in
  let body := body ++ be_put 4 (crc32_Checksum body) in
  match walHash suiteID body with
  | Ok sum => Some (body ++ sum, sum)
  | Err _ => None
  end.

(** [io.ReadFull] of [n] bytes. *)
Definition ReadFull (n : nat) (r : bytes) : result (bytes * bytes) :=
  match r with
  | [] => Err io_EOF
  | _ => if Nat.ltb (length r) n then Err io_ErrUnexpectedEOF else Ok (take n r, drop n r)
  end.

Definition slice (b : bytes) (i j : nat) : bytes := take (j - i) (drop i b).

(** The record, its size and the rest of the reader. *)
Definition readOneWithFrame (r : bytes) (offset : Z) (expectedPrev : bytes)
  : result (Rec.t * Z * bytes) :=
  '(header, r) ←
    match ReadFull 70 r with
    | Err e => if errors_Is e io_ErrUnexpectedEOF
               then Err (Errorf "%w: truncated header at offset %d" errTornRecord) else Err e
    | Ok x => Ok x
    end;
  if negb (be_get (slice header 0 4) =? magic)
  then Err (Errorf "%w at offset %d" errBadRecordMagic) else
  if negb (be_get (slice header 4 6) =? version)
  then Err (Errorf "%w: version at offset %d" errUnsupportedRecord) else
  if negb (be_get (slice header 6 8) =? typeAccepted)
  then Err (Errorf "%w: record type at offset %d" errUnsupportedRecord) else
  let prev := slice header 32 64 in
  if negb (bytes_equal prev expectedPrev)
  then Err (Errorf "%w: hash chain mismatch at offset %d" errCorruptRecord) else
  suiteID ← match suiteFromCode (be_get (slice header 64 66)) with
            | Err _ => Err (Errorf "%w: crypto_suite at offset %d: %v" errUnsupportedRecord)
            | Ok x => Ok x
            end;
  let payloadLen := be_get (slice header 66 70) in
  if payloadLen =? 0
  then Err (Errorf "%w: empty payload at offset %d" errCorruptRecord) else
  if maxPayloadBytes <? payloadLen
  then Err (Errorf "%w: payload too large at offset %d: %d > %d" errCorruptRecord) else
  '(payload, r) ←
    match ReadFull (Z.to_nat payloadLen) r with
    | Err e => if errors_Is e io_EOF || errors_Is e io_ErrUnexpectedEOF
               then Err (Errorf "%w: truncated payload at offset %d: %v" errTornRecord) else Err e
    | Ok x => Ok x
    end;
  '(trailer, r) ←
    match ReadFull 36 r with
    | Err e => if errors_Is e io_EOF || errors_Is e io_ErrUnexpectedEOF
               then Err (Errorf "%w: truncated trailer at offset %d: %v" errTornRecord) else Err e
    | Ok x => Ok x
    end;
  let wantCRC := be_get (slice trailer 0 4) in
  let gotCRC := crc32_parts [header; payload] in
  if negb (gotCRC =? wantCRC)
  then Err (Errorf "%w: crc mismatch at offset %d" errCorruptRecord) else
  gotHash ← match walHash suiteID (header ++ payload ++ slice trailer 0 4) with
            | Err _ => Err (Errorf "%w: storage hash at offset %d: %v" errUnsupportedRecord)
            | Ok x => Ok x
            end;
  let storedHash := slice trailer 4 36 in
  if negb (bytes_equal gotHash storedHash)
  then Err (Errorf "%w: record hash mismatch at offset %d" errCorruptRecord) else
  let sequence := be_get (slice header 16 24) in
  let segmentID := be_get (slice header 8 16) in
  let unixNano := i64 (be_get (slice header 24 32)) in
  Ok (Rec.mk suiteID (Pos.mk segmentID offset sequence) unixNano payload prev storedHash,
      headerSize + len payload + crcSize + recordHashSize, r).

(** ** Scanning a segment *)

Record scanState := mkScan {
  records : Z;
  recordsList : list Rec.t;
  validBytes : Z;
  firstSequence : Z;
  lastSequence : Z;
  st_segmentID : Z;
  firstPrev : bytes;
  lastHash : bytes;
  st_cryptoSuite : cryptosuite.ID }.

Definition scan_zero : scanState := mkScan 0 [] 0 0 0 0 zero_hash zero_hash "".

(** The checks of the loop body on a decoded record: [None] accepts it,
    [Some r] is an early return of the scan. *)
Definition scan_check (tolerateTail : bool) (state : scanState) (rec : Rec.t)
  : option (result scanState) :=
  let pos := rec.(Rec.Position) in
  if (pos.(Pos.SegmentID) =? 0) || (pos.(Pos.Sequence) =? 0)
  then Some (if tolerateTail then Ok state
             else Err (ErrorsNew "wal: zero segment_id or sequence at offset %d")) else
  if records state =? 0 then None else
  if negb (seqb rec.(Rec.CryptoSuite) (st_cryptoSuite state))
  then Some (Err (ErrorsNew "wal: mixed crypto_suite at offset %d")) else
  if negb (pos.(Pos.SegmentID) =? st_segmentID state)
  then Some (if tolerateTail then Ok state
             else Err (ErrorsNew "wal: segment_id changed from %d to %d at offset %d")) else
  if (lastSequence state =? two64 - 1)
     || negb (pos.(Pos.Sequence) =? u64 (lastSequence state + 1))
  then Some (if tolerateTail then Ok state
             else Err (ErrorsNew "wal: sequence discontinuity at offset %d: got %d after %d"))
  else None.

(** The state after an accepted record of [n] bytes at [offset]. *)
Definition scan_accept (state : scanState) (rec : Rec.t) (offset n : Z) : scanState :=
  let pos := rec.(Rec.Position) in
  let first := records state =? 0 in
  mkScan (records state + 1) (recordsList state ++ [rec]) (offset + n)
    (if first then pos.(Pos.Sequence) else firstSequence state)
    pos.(Pos.Sequence)
    (if first then pos.(Pos.SegmentID) else st_segmentID state)
    (if first then rec.(Rec.PrevHash) else firstPrev state)
    rec.(Rec.RecordHash)
    (if first then rec.(Rec.CryptoSuite) else st_cryptoSuite state).

(** The loop of [scanFileVisit]; [None] is that the fuel did not suffice.  The
    [visit] callback of [scanFileFrom] collects the records and never fails. *)
Fixpoint scan_loop (fuel : nat) (tolerateTail : bool) (r : bytes) (state : scanState)
    (prev : bytes) (offset : Z) : option (result scanState) :=
  match fuel with
  | O => None
  | S fuel =>
      match readOneWithFrame r offset prev with
      | Err err =>
          if errors_Is err io_EOF then Some (Ok state) else
          if tolerateTail && (errors_Is err errTornRecord || errors_Is err errCorruptRecord
                              || ((0 <? records state) && errors_Is err errBadRecordMagic))
          then Some (Ok state) else Some (Err err)
      | Ok (rec, n, r) =>
          match scan_check tolerateTail state rec with
          | Some out => Some out
          | None =>
              scan_loop fuel tolerateTail r (scan_accept state rec offset n)
                rec.(Rec.RecordHash) (offset + n)
          end
      end
  end.

(** Every record takes at least one byte: one step per byte and one for the
    end suffice ([scan_total]). *)
Definition scanFileFrom (file : bytes) (tolerateTail : bool) (startPrev : bytes)
  : option (result scanState) :=
  scan_loop (S (length file)) tolerateTail file scan_zero startPrev 0.

(** [validateSingleFileStart]. *)
Definition validateSingleFileStart (state : scanState) : result unit :=
  if (0 <? records state) && negb (firstSequence state =? 1)
  then Err (ErrorsNew "wal: first record starts at sequence %d, want 1") else Ok tt.

(** ** First headers and repair *)

Record firstRecordHeader := mkFirst { fh_segmentID : Z; fh_sequence : Z; fh_prevHash : bytes }.

Definition peekFirstHeaderIfPresent (file : bytes) : result (option firstRecordHeader) :=
  match ReadFull 70 file with
  | Err e =>
      if errors_Is e io_EOF then Ok None else
      if errors_Is e io_ErrUnexpectedEOF
      then Err (Errorf "%w: truncated header: %v" errRepairableFirstHeader)
      else Err (Errorf "wal: read first header: %w" e)
  | Ok (header, _) =>
      if negb (be_get (slice header 0 4) =? magic)
      then Err (Errorf "%w at segment start" errBadRecordMagic)
      else Ok (Some (mkFirst (be_get (slice header 8 16)) (be_get (slice header 16 24))
                       (slice header 32 64)))
  end.

(** [repairFileWithOps] when the file operations succeed: the file after the
    truncation, and the scan it is based on. *)
Definition repairFileWithOps (file : bytes) (startPrev : bytes)
  : option (result (bytes * scanState)) :=
  r ← scanFileFrom file true startPrev;
  Some (match r with
        | Err e => Err e
        | Ok state =>
            if len file <? validBytes state
            then Err (ErrorsNew "wal: repair file grew during scan")
            else Ok (take (Z.to_nat (validBytes state)) file, state)
        end).

(** [repairWithOps] (single-file mode). *)
Definition repairWithOps (file : bytes) : option (result (bytes * scanState)) :=
  match peekFirstHeaderIfPresent file with
  | Err e =>
      if negb (errors_Is e errRepairableFirstHeader) then Some (Err e)
      else repairFileWithOps file zero_hash
  | Ok (Some header) =>
      if (fh_segmentID header =? 0) || negb (fh_sequence header =? 1)
      then Some (Err (ErrorsNew "wal: first record has segment_id %d sequence %d, want nonzero segment and sequence 1"))
      else repairFileWithOps file zero_hash
  | Ok None => repairFileWithOps file zero_hash
  end.

End codec.

End wal.
