(* ===== verification/WalProofs.v ===== *)
(** * Write-ahead log: the record format

    Round trips of the record codec in both directions, torn frames, and the
    scan of a chain of records: recovery after a torn write, and the evidence
    that the hash chain gives against tampering. *)

From S2P Require Import Prelude TrustErr CryptoSuite Model TrustCrypto Wal.

Module wal_proofs.
Import wal.

(** ** Slices *)

Lemma slice_mid a b c i j :
  length a = i → (length a + length b)%nat = j → slice (a ++ b ++ c) i j = b.
Proof.
  intros <- <-. unfold slice. rewrite drop_app_length. rewrite Nat.add_comm, Nat.add_sub.
  apply take_app_length.
Qed.

Lemma slice_join b i j k : (i <= j <= k)%nat → slice b i j ++ slice b j k = slice b i k.
Proof.
  intros Hij. unfold slice. replace (k - i)%nat with ((j - i) + (k - j))%nat by lia.
  rewrite <- take_take_drop, drop_drop. do 2 f_equal. f_equal. lia.
Qed.

Lemma slice_all b k : (length b <= k)%nat → slice b 0 k = b.
Proof. intros. unfold slice. rewrite drop_0, Nat.sub_0_r. by apply take_ge. Qed.

Lemma length_slice b i j : (j <= length b)%nat → length (slice b i j) = (j - i)%nat.
Proof. intros. unfold slice. rewrite length_take, length_drop. lia. Qed.

(** ** The checksum *)

Lemma lxor_bound n a b : 0 <= n → 0 <= a < 2 ^ n → 0 <= b < 2 ^ n → 0 <= Z.lxor a b < 2 ^ n.
Proof.
  intros Hn Ha Hb. split; [apply Z.lxor_nonneg; lia|].
  destruct (decide (Z.lxor a b = 0)) as [-> |Hne]; [lia|].
  assert (0 <= Z.lxor a b) by (apply Z.lxor_nonneg; lia).
  apply Z.log2_lt_pow2; [lia|]. pose proof (Z.log2_lxor a b ltac:(lia) ltac:(lia)).
  assert (∀ x, 0 <= x < 2 ^ n → x = 0 ∨ Z.log2 x < n) as Hlog.
  { intros x Hx. destruct (decide (x = 0)); [by left|]. right. apply Z.log2_lt_pow2; lia. }
  assert (0 < n) by (destruct (decide (n = 0)) as [-> |]; [exfalso; apply Hne|lia];
    assert (a = 0) as -> by lia; assert (b = 0) as -> by lia; done).
  destruct (Hlog a Ha) as [-> |], (Hlog b Hb) as [-> |]; cbn in *; lia.
Qed.

Lemma shiftr_bound n k a : 0 <= k → 0 <= a < 2 ^ n → 0 <= Z.shiftr a k < 2 ^ n.
Proof.
  intros Hk Ha. rewrite Z.shiftr_div_pow2 by done. split; [apply Z.div_pos; lia|].
  assert (0 < 2 ^ k) by lia. apply Z.div_lt_upper_bound; nia.
Qed.

Lemma crc_shift_bound m x : 0 <= x < 2 ^ 32 → 0 <= crc_shift m x < 2 ^ 32.
Proof.
  revert x. induction m as [|m IH]; intros x Hx; cbn [crc_shift]; [done|]. apply IH.
  destruct (_ =? _); [apply lxor_bound; [lia| |done]|]; by apply shiftr_bound.
Qed.

Lemma crc_update_bound x p : 0 <= x < 2 ^ 32 → 0 <= crc_update x p < 2 ^ 32.
Proof.
  unfold crc_update. revert x. induction p as [|v p IH]; intros x Hx; cbn [foldl]; [done|].
  apply IH. apply lxor_bound; [lia|apply crc_shift_bound|by apply shiftr_bound].
  change 255 with (Z.ones 8). rewrite Z.land_ones by lia.
  pose proof (Z.mod_pos_bound (Z.lxor x (Z_of_byte v)) (2 ^ 8) ltac:(lia)).
  change (2 ^ 8) with 256 in *. change (2 ^ 32) with 4294967296. lia.
Qed.

Lemma crc_parts_app a b : crc32_parts [a; b] = crc32_Checksum (a ++ b).
Proof. unfold crc32_Checksum, crc32_parts, crc_update. cbn. by rewrite foldl_app. Qed.

Lemma crc_bound p : 0 <= crc32_Checksum p < 2 ^ 32.
Proof.
  unfold crc32_Checksum, crc32_parts. cbn [foldl].
  apply lxor_bound; [lia|by apply crc_update_bound|done].
Qed.

Section proofs.
Context `{HashLib}.

(** ** Suites *)

(** The storage hash of a registered suite. *)
Definition suite_hash (s : cryptosuite.ID) (data : bytes) : bytes :=
  if seqb s cryptosuite.INTLV1 then sha256_Sum256 data else sm3_Sum data.

Lemma suite_hash_len s data : length (suite_hash s data) = 32%nat.
Proof. unfold suite_hash. destruct (seqb _ _); [apply sha256_len|apply sm3_len]. Qed.

Lemma suiteCode_Some s c :
  suiteCode s = Some c →
  (c = 1 ∨ c = 2) ∧ suiteFromCode c = Ok s ∧ ∀ data, walHash s data = Ok (suite_hash s data).
Proof.
  unfold suiteCode. destruct (seqb s cryptosuite.INTLV1) eqn:E1.
  - bsimpl. subst s. intros [= <-]. split_and!; [by left|done|done].
  - destruct (seqb s cryptosuite.CNSMV1) eqn:E2; [|done]. bsimpl. subst s. intros [= <-].
    split_and!; [by right|done|done].
Qed.

Lemma suiteFromCode_Ok c s : suiteFromCode c = Ok s → suiteCode s = Some c.
Proof.
  unfold suiteFromCode. destruct (c =? 1) eqn:E1; [bsimpl; subst; by intros [= <-]|].
  destruct (c =? 2) eqn:E2; [bsimpl; subst; by intros [= <-]|done].
Qed.

(** ** Frames *)

Definition body_of (code : Z) (rec : Rec.t) : bytes :=
  encodeHeader code rec.(Rec.Position).(Pos.SegmentID) rec.(Rec.Position).(Pos.Sequence)
    rec.(Rec.UnixNano) rec.(Rec.PrevHash) rec.(Rec.Payload) ++ rec.(Rec.Payload).

(** [b] is the frame of a record with fields in the range of their types. *)
Record framed (rec : Rec.t) (b : bytes) : Prop := {
  fr_encode : encodeRecordIntoForSuite rec.(Rec.CryptoSuite)
    rec.(Rec.Position).(Pos.SegmentID) rec.(Rec.Position).(Pos.Sequence) rec.(Rec.UnixNano)
    rec.(Rec.PrevHash) rec.(Rec.Payload) = Some (b, rec.(Rec.RecordHash));
  fr_seg : in_u64 rec.(Rec.Position).(Pos.SegmentID);
  fr_seq : in_u64 rec.(Rec.Position).(Pos.Sequence);
  fr_time : in_i64 rec.(Rec.UnixNano);
  fr_prev : length rec.(Rec.PrevHash) = 32%nat;
  fr_payload : 0 < len rec.(Rec.Payload) <= maxPayloadBytes }.

Lemma encode_Some s seg seq t prev payload b h :
  encodeRecordIntoForSuite s seg seq t prev payload = Some (b, h) ↔
  ∃ c, suiteCode s = Some c ∧
    let body := encodeHeader c seg seq t prev payload ++ payload in
    let body := body ++ be_put 4 (crc32_Checksum body) in
    h = suite_hash s body ∧ b = body ++ h.
Proof.
  unfold encodeRecordIntoForSuite. split.
  - intros E. destruct (suiteCode s) as [c|] eqn:Ec; [|done]. exists c. split; [done|].
    apply suiteCode_Some in Ec as (_ & _ & Hh). cbn in E. rewrite Hh in E. by injection E as <- <-.
  - intros (c & Ec & E). rewrite Ec. apply suiteCode_Some in Ec as (_ & _ & Hh). cbn.
    rewrite Hh. destruct E as [-> ->]. done.
Qed.

Lemma length_header c seg seq t prev payload :
  length prev = 32%nat → length (encodeHeader c seg seq t prev payload) = 70%nat.
Proof. intros Hp. unfold encodeHeader. rewrite !length_app, !length_be_put, Hp. done. Qed.

Lemma framed_parts rec b :
  framed rec b → ∃ c,
    suiteCode rec.(Rec.CryptoSuite) = Some c ∧
    b = encodeHeader c rec.(Rec.Position).(Pos.SegmentID) rec.(Rec.Position).(Pos.Sequence)
          rec.(Rec.UnixNano) rec.(Rec.PrevHash) rec.(Rec.Payload)
        ++ rec.(Rec.Payload) ++ (be_put 4 (crc32_Checksum (body_of c rec)) ++ rec.(Rec.RecordHash)) ∧
    rec.(Rec.RecordHash) =
      suite_hash rec.(Rec.CryptoSuite) (body_of c rec ++ be_put 4 (crc32_Checksum (body_of c rec))).
Proof.
  intros [E _ _ _ _ _]. apply encode_Some in E as (c & Ec & Eh & Eb). exists c.
  split_and!; [done| |done]. rewrite Eb. unfold body_of. by rewrite <- !app_assoc.
Qed.

Lemma framed_len rec b :
  framed rec b → len b = headerSize + len rec.(Rec.Payload) + crcSize + recordHashSize.
Proof.
  intros F. apply framed_parts in F as Hp. destruct Hp as (c & _ & -> & Eh). unfold len.
  rewrite !length_app, length_header, length_be_put, Eh, suite_hash_len by apply F.
  unfold headerSize, crcSize, recordHashSize. lia.
Qed.

Lemma framed_hash_len rec b : framed rec b → length rec.(Rec.RecordHash) = 32%nat.
Proof. intros F. apply framed_parts in F as (c & _ & _ & ->). apply suite_hash_len. Qed.

(** The fields at their offsets in the header. *)
Lemma header_fields c seg seq t prev payload :
  length prev = 32%nat →
  let h := encodeHeader c seg seq t prev payload in
  slice h 0 4 = be_put 4 magic ∧ slice h 4 6 = be_put 2 version ∧
  slice h 6 8 = be_put 2 typeAccepted ∧ slice h 8 16 = be_put 8 seg ∧
  slice h 16 24 = be_put 8 seq ∧ slice h 24 32 = be_put 8 (u64 t) ∧ slice h 32 64 = prev ∧
  slice h 64 66 = be_put 2 c ∧ slice h 66 70 = be_put 4 (len payload).
Proof.
  intros Hp. cbn zeta. unfold encodeHeader. split_and!.
  - apply (slice_mid []); [done|by rewrite length_be_put].
  - apply slice_mid; by rewrite !length_be_put.
  - rewrite (app_assoc (be_put 4 _)). apply slice_mid; by rewrite !length_app, !length_be_put.
  - rewrite 2!app_assoc. apply slice_mid; by rewrite !length_app, !length_be_put.
  - rewrite 3!app_assoc. apply slice_mid; by rewrite !length_app, !length_be_put.
  - rewrite 4!app_assoc. apply slice_mid; by rewrite !length_app, !length_be_put.
  - rewrite 5!app_assoc. apply slice_mid; rewrite !length_app, !length_be_put, ?Hp; done.
  - rewrite 6!app_assoc. apply slice_mid; rewrite !length_app, !length_be_put, ?Hp; done.
  - rewrite 7!app_assoc. rewrite <- (app_nil_r (be_put 4 (len payload))).
    apply slice_mid; rewrite !length_app, !length_be_put, ?Hp; done.
Qed.

Lemma be_get_put_small n z : 0 <= z < 256 ^ Z.of_nat n → be_get (be_put n z) = z.
Proof. intros. rewrite be_get_put. by apply Z.mod_small. Qed.

Lemma be_get_put8 z : in_u64 z → be_get (be_put 8 z) = z.
Proof.
  intros Hz. apply be_get_put_small. change (256 ^ Z.of_nat 8) with two64. exact Hz.
Qed.

Lemma i64_u64 t : in_i64 t → i64 (u64 t) = t.
Proof.
  unfold in_i64, i64, u64, two63, two64. intros. 
  rewrite Z.add_mod_idemp_l by lia. rewrite Z.mod_small; lia.
Qed.

Lemma u64_i64 t : in_u64 t → u64 (i64 t) = t.
Proof.
  unfold in_u64, i64, u64, two63, two64. intros.
  rewrite Zminus_mod_idemp_l. replace (t + 9223372036854775808 - 9223372036854775808) with t by lia.
  by apply Z.mod_small.
Qed.

Lemma ReadFull_app n a r : length a = n → (0 < n)%nat → ReadFull n (a ++ r) = Ok (a, r).
Proof.
  intros Hl Hn. unfold ReadFull. destruct (a ++ r) as [|x y] eqn:E.
  { destruct a; [cbn in *; lia|discriminate]. }
  rewrite <- E. destruct (Nat.ltb _ _) eqn:El.
  { apply Nat.ltb_lt in El. rewrite length_app in El. lia. }
  by rewrite <- Hl, take_app_length, drop_app_length.
Qed.

(** Reading a frame gives the record back, and leaves the rest. *)
Lemma readOne_framed rec b rest :
  framed rec b →
  readOneWithFrame (b ++ rest) rec.(Rec.Position).(Pos.Offset) rec.(Rec.PrevHash)
  = Ok (rec, len b, rest).
Proof.
  intros F. pose proof (framed_len rec b F) as Hlen. pose proof (framed_hash_len rec b F) as Hhl.
  destruct (framed_parts rec b F) as (c & Ec & Eb & Eh).
  destruct F as [_ Hseg Hseq Htime Hprev Hpay]. pose proof Ec as Ec'.
  apply suiteCode_Some in Ec' as (Hc & Hfc & Hh).
  set (hd := encodeHeader c _ _ _ _ _) in *.
  destruct (header_fields c rec.(Rec.Position).(Pos.SegmentID) rec.(Rec.Position).(Pos.Sequence)
    rec.(Rec.UnixNano) rec.(Rec.PrevHash) rec.(Rec.Payload) Hprev)
    as (F1 & F2 & F3 & F4 & F5 & F6 & F7 & F8 & F9). fold hd in F1, F2, F3, F4, F5, F6, F7, F8, F9.
  rewrite Hlen. unfold readOneWithFrame. rewrite Eb, <- app_assoc, ReadFull_app; [|by apply length_header|lia].
  cbn [mbind result_bind]. rewrite F1, F2, F3, F7, F8, F9.
  assert (be_get (be_put 2 c) = c) as -> by (destruct Hc as [-> | ->]; reflexivity).
  assert (be_get (be_put 4 (len rec.(Rec.Payload))) = len rec.(Rec.Payload)) as ->.
  { apply be_get_put_small. change maxPayloadBytes with 67108864 in Hpay.
    change (256 ^ Z.of_nat 4) with 4294967296. lia. }
  rewrite !be_get_put_small by done.
  rewrite !Z.eqb_refl, bytes_equal_refl. cbn [negb]. rewrite Hfc. cbn [mbind result_bind].
  rewrite (proj2 (Z.eqb_neq _ 0)), (proj2 (Z.ltb_ge _ _)) by lia.
  rewrite <- app_assoc, ReadFull_app by (unfold len in *; lia). cbn [mbind result_bind].
  rewrite ReadFull_app by (rewrite ?length_app, ?length_be_put, ?Hhl; lia).
  cbn [mbind result_bind].
  assert (∀ x, slice (be_put 4 x ++ rec.(Rec.RecordHash)) 0 4 = be_put 4 x) as St.
  { intros x. rewrite <- (app_nil_l (_ ++ _)). apply slice_mid; [done|by rewrite length_be_put]. }
  assert (∀ x, slice (be_put 4 x ++ rec.(Rec.RecordHash)) 4 36 = rec.(Rec.RecordHash)) as Sh.
  { intros x. etrans; [|apply (slice_mid (be_put 4 x) rec.(Rec.RecordHash) [] 4 36);
      rewrite ?length_be_put, ?Hhl; done]. by rewrite app_nil_r. }
  rewrite St, Sh, crc_parts_app. pose proof (crc_bound (body_of c rec)) as Hcrc.
  rewrite be_get_put_small by (exact Hcrc). unfold body_of. fold hd. rewrite Z.eqb_refl. cbn [negb].
  rewrite app_assoc, Hh. cbn [mbind result_bind].
  fold hd in Eh. unfold body_of in Eh. fold hd in Eh. rewrite <- Eh, bytes_equal_refl. cbn [negb].
  rewrite F4, F5, F6, (be_get_put8 _ Hseg), (be_get_put8 _ Hseq), (be_get_put8 _ (u64_range _)).
  rewrite i64_u64 by done. by destruct rec as [? [] ? ? ? ?].
Qed.

Lemma ReadFull_Ok n r a b : ReadFull n r = Ok (a, b) → r = a ++ b ∧ length a = n.
Proof.
  unfold ReadFull. destruct r as [|x r]; [done|]. destruct (Nat.ltb _ _) eqn:E; [done|].
  apply Nat.ltb_ge in E. intros [= <- <-]. split; [by rewrite take_drop|].
  rewrite length_take. lia.
Qed.

(** The header is determined by its fields. *)
Lemma header_unparse h c payload :
  length h = 70%nat → be_get (slice h 0 4) = magic → be_get (slice h 4 6) = version →
  be_get (slice h 6 8) = typeAccepted → be_get (slice h 64 66) = c →
  be_get (slice h 66 70) = len payload →
  h = encodeHeader c (be_get (slice h 8 16)) (be_get (slice h 16 24))
        (i64 (be_get (slice h 24 32))) (slice h 32 64) payload.
Proof.
  intros Hl H1 H2 H3 H8 H9. unfold encodeHeader.
  assert (∀ i j, (i <= j <= 70)%nat → be_put (j - i) (be_get (slice h i j)) = slice h i j) as Hput.
  { intros i j Hij. rewrite <- (length_slice h i j) by lia. apply be_put_get. }
  assert (in_u64 (be_get (slice h 24 32))) as Hr.
  { pose proof (be_get_range (slice h 24 32)) as Hb. unfold len in Hb.
    rewrite length_slice in Hb by lia. exact Hb. }
  rewrite u64_i64 by done. rewrite <- H1, <- H2, <- H3, <- H8, <- H9.
  pose proof (Hput 0 4 ltac:(lia))%nat as P1. pose proof (Hput 4 6 ltac:(lia))%nat as P2.
  pose proof (Hput 6 8 ltac:(lia))%nat as P3. pose proof (Hput 8 16 ltac:(lia))%nat as P4.
  pose proof (Hput 16 24 ltac:(lia))%nat as P5. pose proof (Hput 24 32 ltac:(lia))%nat as P6.
  pose proof (Hput 64 66 ltac:(lia))%nat as P7. pose proof (Hput 66 70 ltac:(lia))%nat as P8.
  cbn [Nat.sub] in P1, P2, P3, P4, P5, P6, P7, P8.
  rewrite P1, P2, P3, P4, P5, P6, P7, P8, !slice_join, slice_all by lia. done.
Qed.

Lemma match_err_Ok {A} (r : result A) f x :
  match r with Err e => Err (f e) | Ok a => Ok a end = Ok x → r = Ok x.
Proof. by destruct r. Qed.

Lemma read_torn_Ok {A} (r : result A) (b : error → bool) f x :
  match r with Err e => if b e then Err (f e) else Err e | Ok a => Ok a end = Ok x → r = Ok x.
Proof. destruct r as [|e]; [done|]. by destruct (b e). Qed.

Lemma be_get_len_range b n : length b = n → 0 <= be_get b < 256 ^ Z.of_nat n.
Proof. intros <-. apply be_get_range. Qed.

(** The reader accepts nothing but frames: a record it returns is framed by
    exactly the bytes it consumed. *)
Lemma readOne_sound r offset prev rec n rest :
  readOneWithFrame r offset prev = Ok (rec, n, rest) →
  ∃ b, r = b ++ rest ∧ framed rec b ∧ n = len b ∧ rec.(Rec.PrevHash) = prev ∧
    rec.(Rec.Position).(Pos.Offset) = offset.
Proof.
  unfold readOneWithFrame. intros R. apply bind_Ok in R as ([h r1] & Hh & R).
  apply read_torn_Ok, ReadFull_Ok in Hh as [-> Hl].
  rewrite !if_Err_Ok in R. destruct R as (H1 & H2 & H3 & H7 & R).
  apply bind_Ok in R as (s & Hs & R). apply match_err_Ok, suiteFromCode_Ok in Hs.
  rewrite !if_Err_Ok in R. destruct R as (H9 & H10 & R).
  apply bind_Ok in R as ([payload r2] & Hp & R). apply read_torn_Ok, ReadFull_Ok in Hp as [-> Hpl].
  apply bind_Ok in R as ([tr r3] & Ht & R). apply read_torn_Ok, ReadFull_Ok in Ht as [-> Htl].
  rewrite if_Err_Ok in R. destruct R as [Hc R]. apply bind_Ok in R as (g & Hg & R).
  apply match_err_Ok in Hg. apply suiteCode_Some in Hs as Hsc. destruct Hsc as (_ & _ & Hwh).
  rewrite Hwh in Hg. injection Hg as <-. rewrite if_Err_Ok in R. destruct R as [Hhash [= <- <- <-]].
  autorewrite with bprop in *. rewrite crc_parts_app in Hc.
  assert (be_get (slice h 66 70) = len payload) as Hlen.
  { unfold len. rewrite Hpl. pose proof (be_get_range (slice h 66 70)). lia. }
  pose proof (header_unparse h _ payload Hl H1 H2 H3 eq_refl Hlen) as Eh.
  assert (slice tr 0 4 = be_put 4 (crc32_Checksum (h ++ payload))) as Et.
  { rewrite Hc. pose proof (be_put_get (slice tr 0 4)) as P. rewrite length_slice in P by lia.
    symmetry. exact P. }
  exists (h ++ payload ++ tr). split_and!; [by rewrite <- !app_assoc| | |done|done].
  - constructor; cbn [Rec.CryptoSuite Rec.Position Rec.UnixNano Rec.Payload Rec.PrevHash
      Rec.RecordHash Pos.SegmentID Pos.Sequence].
    + apply encode_Some. exists (be_get (slice h 64 66)). split; [done|]. cbn zeta.
      rewrite <- Eh, <- Et, <- app_assoc. split; [by rewrite Hhash|].
      rewrite <- !app_assoc, slice_join, slice_all by lia. done.
    + apply (be_get_len_range _ 8), length_slice. lia.
    + apply (be_get_len_range _ 8), length_slice. lia.
    + apply i64_range.
    + rewrite length_slice; lia.
    + rewrite <- Hlen. pose proof (be_get_range (slice h 66 70)). lia.
  - unfold len. rewrite !length_app, Hl, Htl. unfold headerSize, crcSize, recordHashSize. lia.
Qed.

(** A proper prefix of a frame is torn. *)
Lemma readOne_torn rec b k offset :
  framed rec b → (0 < k < length b)%nat →
  ∃ m, readOneWithFrame (take k b) offset rec.(Rec.PrevHash) = Err (Errorf m errTornRecord).
Proof.
  intros F Hk. pose proof (framed_hash_len rec b F) as Hhl.
  destruct (framed_parts rec b F) as (c & Ec & Eb & Eh).
  destruct F as [_ _ _ _ Hprev Hpay]. apply suiteCode_Some in Ec as (Hc & Hfc & Hh).
  set (hd := encodeHeader c _ _ _ _ _) in *.
  destruct (header_fields c rec.(Rec.Position).(Pos.SegmentID) rec.(Rec.Position).(Pos.Sequence)
    rec.(Rec.UnixNano) rec.(Rec.PrevHash) rec.(Rec.Payload) Hprev)
    as (F1 & F2 & F3 & _ & _ & _ & F7 & F8 & F9). fold hd in F1, F2, F3, F7, F8, F9.
  assert (length hd = 70%nat) as Hhd by by apply length_header.
  assert (∀ n x, (0 < length x < n)%nat → ReadFull n x = Err io_ErrUnexpectedEOF) as Hshort.
  { intros n x Hx. unfold ReadFull. destruct x as [|y x]; [cbn in *; lia|].
    assert (Nat.ltb (length (y :: x)) n = true) as -> by (apply Nat.ltb_lt; lia). done. }
  set (tr := be_put 4 _ ++ rec.(Rec.RecordHash)) in *.
  assert (length tr = 36%nat) as Htr by (unfold tr; rewrite length_app, length_be_put, Hhl; done).
  assert (length b = 70 + length rec.(Rec.Payload) + 36)%nat as Hlb
    by (rewrite Eb, !length_app; lia).
  unfold readOneWithFrame. destruct (decide (k < 70)%nat) as [Hk70|Hk70].
  { rewrite Hshort by (rewrite length_take; lia). cbn. by eexists. }
  assert (take k b = hd ++ take (k - 70) (rec.(Rec.Payload) ++ tr)) as ->.
  { rewrite Eb, take_app, Hhd. f_equal. apply take_ge. lia. }
  rewrite ReadFull_app by lia. cbn [mbind result_bind]. rewrite F1, F2, F3, F7, F8, F9.
  assert (be_get (be_put 2 c) = c) as -> by (destruct Hc as [-> | ->]; reflexivity).
  assert (be_get (be_put 4 (len rec.(Rec.Payload))) = len rec.(Rec.Payload)) as ->.
  { apply be_get_put_small. change maxPayloadBytes with 67108864 in Hpay.
    change (256 ^ Z.of_nat 4) with 4294967296. lia. }
  rewrite !be_get_put_small by done.
  rewrite !Z.eqb_refl, bytes_equal_refl. cbn [negb]. rewrite Hfc. cbn [mbind result_bind].
  rewrite (proj2 (Z.eqb_neq _ 0)), (proj2 (Z.ltb_ge _ _)) by lia.
  unfold len. rewrite Nat2Z.id.
  destruct (decide (k - 70 < length rec.(Rec.Payload))%nat) as [Hkp|Hkp].
  { destruct (decide (k = 70)%nat) as [-> |].
    - rewrite Nat.sub_diag, take_0. cbn. by eexists.
    - rewrite Hshort by (rewrite length_take, length_app; lia). cbn. by eexists. }
  assert (take (k - 70) (rec.(Rec.Payload) ++ tr)
    = rec.(Rec.Payload) ++ take (k - 70 - length rec.(Rec.Payload)) tr) as ->.
  { rewrite take_app. f_equal. apply take_ge. lia. }
  rewrite ReadFull_app by (unfold len in *; lia). cbn [mbind result_bind].
  destruct (decide (k - 70 = length rec.(Rec.Payload))%nat) as [Hke|].
  { rewrite Hke, Nat.sub_diag, take_0. cbn. by eexists. }
  rewrite Hshort by (rewrite length_take; lia). cbn. by eexists.
Qed.

(** The record codec round-trips in both directions: the reader returns a
    record exactly when the bytes it consumes are the frame that the writer
    produces for this record, chained to the expected previous hash; so a
    written record is read back unchanged, and no other bytes are accepted. *)
Theorem record_roundtrip r offset prev rec n rest :
  readOneWithFrame r offset prev = Ok (rec, n, rest) ↔
  ∃ b, r = b ++ rest ∧ framed rec b ∧ n = len b ∧ rec.(Rec.PrevHash) = prev ∧
    rec.(Rec.Position).(Pos.Offset) = offset.
Proof.
  split; [apply readOne_sound|]. intros (b & -> & F & -> & <- & <-). by apply readOne_framed.
Qed.

(** ** Chains of records *)

(** [data] is the frames of [recs], one after another from [off] in segment
    [seg], with consecutive sequence numbers from [seq] and each record naming
    the hash of the one before it. *)
Inductive chained (s : cryptosuite.ID) (seg : Z) : Z → bytes → Z → list Rec.t → bytes → Prop :=
| chained_nil seq prev off : chained s seg seq prev off [] []
| chained_cons seq prev off rec recs b data :
    framed rec b → rec.(Rec.CryptoSuite) = s → rec.(Rec.Position) = Pos.mk seg off seq →
    rec.(Rec.PrevHash) = prev → 0 < seq →
    chained s seg (seq + 1) rec.(Rec.RecordHash) (off + len b) recs data →
    chained s seg seq prev off (rec :: recs) (b ++ data).

(** The bytes of a record's frame. *)
Definition size_of (rec : Rec.t) : Z :=
  headerSize + len rec.(Rec.Payload) + crcSize + recordHashSize.

(** The scan state after accepting [recs] from [off]. *)
Fixpoint accept_all (st : scanState) (recs : list Rec.t) (off : Z) : scanState :=
  match recs with
  | [] => st
  | rec :: rest => accept_all (scan_accept st rec off (size_of rec)) rest (off + size_of rec)
  end.

Definition last_hash (prev : bytes) (recs : list Rec.t) : bytes :=
  match last recs with Some r => r.(Rec.RecordHash) | None => prev end.

(** The next record of segment [seg] and sequence [seq] continues [st]. *)
Definition compat (s : cryptosuite.ID) (seg seq : Z) (st : scanState) : Prop :=
  records st = 0 ∨
  0 < records st ∧ st_cryptoSuite st = s ∧ st_segmentID st = seg ∧ lastSequence st + 1 = seq.

Lemma compat_accept s seg seq st rec off n :
  compat s seg seq st → rec.(Rec.CryptoSuite) = s → rec.(Rec.Position) = Pos.mk seg off seq →
  compat s seg (seq + 1) (scan_accept st rec off n).
Proof.
  intros Hc Hs Hp. right. unfold scan_accept. rewrite Hp. cbn.
  destruct (records st =? 0) eqn:E; bsimpl.
  - split_and!; [lia|done|done|done].
  - destruct Hc as [?|(? & ? & ? & ?)]; [done|]. split_and!; [lia|done|done|lia].
Qed.

Lemma scan_check_compat tol s seg seq st rec off b :
  compat s seg seq st → framed rec b → rec.(Rec.CryptoSuite) = s →
  rec.(Rec.Position) = Pos.mk seg off seq → seg ≠ 0 → 0 < seq → scan_check tol st rec = None.
Proof.
  intros Hc F Hs Hp Hseg Hseq. unfold scan_check. rewrite Hs, Hp.
  cbn [Pos.SegmentID Pos.Sequence]. rewrite !(proj2 (Z.eqb_neq _ 0)) by lia. cbn [orb].
  destruct (records st =? 0) eqn:E; [done|]. bsimpl.
  destruct Hc as [?|(? & -> & -> & Hlast)]; [done|]. rewrite seqb_refl, Z.eqb_refl. cbn [negb].
  pose proof (fr_seq rec b F) as Hr. rewrite Hp in Hr. cbn [Pos.Sequence] in Hr.
  assert (lastSequence st =? two64 - 1 = false) as -> by (apply Z.eqb_neq; unfold in_u64 in *; lia).
  rewrite Hlast, (u64_small seq Hr), Z.eqb_refl. done.
Qed.

Lemma scan_chained s seg seq prev off recs data :
  chained s seg seq prev off recs data → seg ≠ 0 →
  ∀ fuel tol rest st, compat s seg seq st →
  scan_loop (length recs + fuel) tol (data ++ rest) st prev off =
  scan_loop fuel tol rest (accept_all st recs off) (last_hash prev recs) (off + len data).
Proof.
  intros Hch Hseg.
  induction Hch as [seq prev off|seq prev off rec recs b data F Hs Hp Hprev Hseq Hch IH];
    intros fuel tol rest st Hc.
  - cbn. by rewrite Z.add_0_r.
  - cbn [length Nat.add scan_loop accept_all]. rewrite <- app_assoc.
    pose proof (readOne_framed rec b (data ++ rest) F) as R. rewrite Hp, Hprev in R.
    cbn [Pos.Offset] in R. rewrite R. rewrite (scan_check_compat tol s seg seq st rec off b) by done.
    pose proof (framed_len rec b F) as Hlen. fold (size_of rec) in Hlen. rewrite Hlen in *.
    rewrite IH by (by eapply compat_accept).
    assert (last_hash (Rec.RecordHash rec) recs = last_hash prev (rec :: recs)) as ->.
    { unfold last_hash. rewrite last_cons. by destruct (last recs). }
    f_equal. unfold len in *. rewrite length_app. lia.
Qed.

Lemma accept_all_list recs st off : recordsList (accept_all st recs off) = recordsList st ++ recs.
Proof.
  revert st off. induction recs as [|r recs IH]; intros st off; cbn [accept_all].
  - by rewrite app_nil_r.
  - rewrite IH. cbn. by rewrite <- app_assoc.
Qed.

Lemma accept_all_records recs st off : records (accept_all st recs off) = records st + len recs.
Proof.
  revert st off. induction recs as [|r recs IH]; intros st off; cbn [accept_all].
  - unfold len. cbn. lia.
  - rewrite IH. unfold len. cbn. lia.
Qed.

Lemma accept_all_bytes s seg seq prev off recs data st :
  chained s seg seq prev off recs data → validBytes st = off →
  validBytes (accept_all st recs off) = off + len data.
Proof.
  intros Hch. revert st.
  induction Hch as [|seq prev off rec recs b data F _ _ _ _ _ IH]; intros st Hv; cbn [accept_all].
  - unfold len. cbn. lia.
  - pose proof (framed_len rec b F) as Hlen. fold (size_of rec) in Hlen. rewrite Hlen in *.
    rewrite IH by done. unfold len in *. rewrite length_app. lia.
Qed.

(** *** The scan reads a chain completely *)

Lemma scan_loop_nil fuel tol st prev off : scan_loop (S fuel) tol [] st prev off = Some (Ok st).
Proof. reflexivity. Qed.

Lemma chained_fuel s seg seq prev off recs data :
  chained s seg seq prev off recs data → (length recs <= length data)%nat.
Proof.
  induction 1 as [|seq prev off rec recs b data F _ _ _ _ _ IH]; cbn; [lia|].
  rewrite length_app. pose proof (framed_len rec b F) as Hl. pose proof (fr_payload rec b F).
  unfold len, headerSize, crcSize, recordHashSize in *. lia.
Qed.

Lemma scan_whole tol s seg seq prev recs data :
  chained s seg seq prev 0 recs data → seg ≠ 0 →
  scanFileFrom data tol prev = Some (Ok (accept_all scan_zero recs 0)).
Proof.
  intros Hch Hseg. unfold scanFileFrom. pose proof (chained_fuel _ _ _ _ _ _ _ Hch) as Hf.
  rewrite <- (app_nil_r data) at 2.
  replace (S (length data)) with (length recs + S (length data - length recs))%nat by lia.
  rewrite (scan_chained s seg seq) by (done || by left). apply scan_loop_nil.
Qed.

(** *** Torn tails *)

(** A chain cut at any byte is a shorter chain and a part of one frame. *)
Lemma chained_cut s seg seq prev off recs data k :
  chained s seg seq prev off recs data → (k <= length data)%nat →
  ∃ recs1 recs2 data1 torn,
    recs = recs1 ++ recs2 ∧ chained s seg seq prev off recs1 data1 ∧
    take k data = data1 ++ torn ∧
    (torn = [] ∨ ∃ rec b j rest, recs2 = rec :: rest ∧ framed rec b ∧ torn = take j b ∧
       (0 < j < length b)%nat ∧ rec.(Rec.PrevHash) = last_hash prev recs1).
Proof.
  intros Hch. revert k.
  induction Hch as [seq prev off|seq prev off rec recs b data F Hs Hp Hprev Hseq Hch IH]; intros k Hk.
  - exists [], [], [], []. split_and!; [done|constructor|by rewrite take_nil|by left].
  - destruct (decide (k < length b)%nat) as [Hlt|Hge].
    + exists [], (rec :: recs), [], (take k b). split_and!; [done|constructor| |].
      * rewrite take_app. replace (k - length b)%nat with 0%nat by lia.
        by rewrite take_0, app_nil_r.
      * destruct (decide (k = 0)%nat) as [-> |]; [by left|]. right.
        exists rec, b, k, recs. split_and!; [done|done|done|lia|lia|done].
    + destruct (IH (k - length b)%nat) as (r1 & r2 & d1 & torn & -> & Hch1 & Ht & Hcase).
      { rewrite length_app in Hk. lia. }
      exists (rec :: r1), r2, (b ++ d1), torn. split_and!; [done|by constructor| |].
      * rewrite take_app, Ht, (take_ge b) by lia. by rewrite app_assoc.
      * destruct Hcase as [-> |(rec' & b' & j & rest & -> & F' & -> & Hj & Hpr)]; [by left|].
        right. exists rec', b', j, rest. split_and!; try done; [lia|lia|].
        rewrite Hpr. unfold last_hash. rewrite last_cons. by destruct (last r1).
Qed.

Lemma scan_torn s seg seq prev recs data rec b j :
  chained s seg seq prev 0 recs data → seg ≠ 0 → framed rec b → (0 < j < length b)%nat →
  rec.(Rec.PrevHash) = last_hash prev recs →
  scanFileFrom (data ++ take j b) true prev = Some (Ok (accept_all scan_zero recs 0)) ∧
  ∃ e, scanFileFrom (data ++ take j b) false prev = Some (Err e).
Proof.
  intros Hch Hseg F Hj Hpr. unfold scanFileFrom. pose proof (chained_fuel _ _ _ _ _ _ _ Hch) as Hf.
  rewrite length_app. replace (S (length data + length (take j b))) with
    (length recs + S (length data + length (take j b) - length recs))%nat by lia.
  rewrite !(scan_chained s seg seq) by (done || by left).
  destruct (readOne_torn rec b j (0 + len data) F Hj) as [m R]. rewrite Hpr in R.
  cbn [scan_loop]. rewrite R. split; [reflexivity|]. by eexists.
Qed.

(** Recovery from a torn write.  However a segment that holds the chain
    [recs] is cut short (at any byte, as a crash in the middle of an append may
    leave it), repair returns: it truncates the file to exactly the complete
    records, reports them unchanged and in order, and drops only the record
    whose frame was cut; the repaired file then passes the strict scan. *)
Theorem torn_tail_repaired s seg seq prev recs data k :
  chained s seg seq prev 0 recs data → seg ≠ 0 → (k <= length data)%nat →
  ∃ recs1 recs2 data1 st,
    recs = recs1 ++ recs2 ∧ chained s seg seq prev 0 recs1 data1 ∧
    repairFileWithOps (take k data) prev = Some (Ok (data1, st)) ∧
    recordsList st = recs1 ∧ validBytes st = len data1 ∧
    scanFileFrom data1 false prev = Some (Ok st) ∧
    (length data1 <= k)%nat ∧
    match recs2 with [] => True | rec :: _ => Z.of_nat k < len data1 + size_of rec end.
Proof.
  intros Hch Hseg Hk.
  destruct (chained_cut _ _ _ _ _ _ _ k Hch Hk) as (r1 & r2 & d1 & torn & -> & Hch1 & Ht & Hcase).
  exists r1, r2, d1, (accept_all scan_zero r1 0).
  pose proof (accept_all_bytes _ _ _ _ _ _ _ scan_zero Hch1 eq_refl) as Hvb.
  assert (length (take k data) = k) as Hkl by (rewrite length_take; lia).
  rewrite Ht, length_app in Hkl.
  assert (scanFileFrom (take k data) true prev = Some (Ok (accept_all scan_zero r1 0))) as Hscan.
  { rewrite Ht. destruct Hcase as [-> |(rec & b & j & rest & -> & F & -> & Hj & Hpr)].
    - rewrite app_nil_r. by eapply scan_whole.
    - by eapply scan_torn. }
  split_and!; [done|done| | |by rewrite Hvb|by eapply scan_whole|lia|].
  - unfold repairFileWithOps. rewrite Hscan. cbn [mbind option_bind].
    rewrite Hvb. unfold len. rewrite Ht, length_app.
    rewrite (proj2 (Z.ltb_ge _ _)) by lia.
    replace (Z.to_nat (0 + Z.of_nat (length d1))) with (length d1) by lia.
    by rewrite take_app_length.
  - by rewrite accept_all_list.
  - destruct r2 as [|rec r2]; [done|].
    destruct Hcase as [-> |(rec' & b & j & rest & [= -> ->] & F & -> & Hj & _)].
    + cbn in Hkl. unfold len, size_of, headerSize, crcSize, recordHashSize.
      pose proof (len_nonneg rec.(Rec.Payload)). unfold len in *. lia.
    + pose proof (framed_len rec' b F) as Hl. fold (size_of rec') in Hl.
      rewrite length_take in Hkl. unfold len in *. lia.
Qed.

(** *** The scan accepts nothing else *)

Definition state_ok (st : scanState) : Prop := 0 <= records st ∧ in_u64 (lastSequence st).

Lemma state_ok_accept st rec b off n :
  state_ok st → framed rec b → state_ok (scan_accept st rec off n).
Proof. intros [H0 _] F. split; cbn; [lia|]. apply (fr_seq rec b F). Qed.

Lemma scan_check_None tol st rec b :
  state_ok st → framed rec b → scan_check tol st rec = None →
  rec.(Rec.Position).(Pos.SegmentID) ≠ 0 ∧ 0 < rec.(Rec.Position).(Pos.Sequence) ∧
  compat rec.(Rec.CryptoSuite) rec.(Rec.Position).(Pos.SegmentID)
    rec.(Rec.Position).(Pos.Sequence) st.
Proof.
  intros [H0 Hl] F. unfold scan_check. pose proof (fr_seq rec b F) as [Hq _].
  destruct (_ || _) eqn:E1; [done|]. bsimpl.
  destruct (records st =? 0) eqn:E2; bsimpl; [intros _; split_and!; [done|lia|by left]|].
  destruct (negb _) eqn:E3; [done|]. destruct (negb _) eqn:E4 in |- *; [done|].
  destruct (_ || _) eqn:E5 in |- *; [done|]. bsimpl. intros _. split_and!; [done|lia|].
  right. split_and!; [lia|done|done|].
  unfold in_u64 in Hl. rewrite u64_small in * by (unfold in_u64; lia). lia.
Qed.

Lemma ReadFull_Err n r e :
  ReadFull n r = Err e → e = io_EOF ∧ r = [] ∨ e = io_ErrUnexpectedEOF.
Proof. unfold ReadFull. destruct r; [intros [= <-]; by left|]. case_match; [|done]. intros [= <-]. by right. Qed.

(** The reader reports the end of the file only there. *)
Lemma readOne_EOF r off prev e :
  readOneWithFrame r off prev = Err e → errors_Is e io_EOF = true → r = [].
Proof.
  unfold readOneWithFrame. intros R Ee.
  apply bind_Err in R as [R|([h r1] & _ & R)].
  { destruct (ReadFull 70 r) as [|e'] eqn:E; [done|].
    apply ReadFull_Err in E as [[-> ->]| ->]; [done|]. cbn in R. by injection R as <-. }
  assert (∀ m x, e = Errorf m x → x ∈ [errTornRecord; errCorruptRecord; errBadRecordMagic;
    errUnsupportedRecord] → False) as Hsent.
  { intros m x -> Hx. repeat (apply elem_of_cons in Hx as [-> |Hx]; [done|]).
    by apply not_elem_of_nil in Hx. }
  exfalso. do 4 (case_match; [injection R as <-; eapply Hsent; [done|set_solver]|]).
  apply bind_Err in R as [R|(s & _ & R)].
  { case_match; [done|]. injection R as <-. eapply Hsent; [done|set_solver]. }
  do 2 (case_match; [injection R as <-; eapply Hsent; [done|set_solver]|]).
  apply bind_Err in R as [R|([p r2] & _ & R)].
  { destruct (ReadFull _ r1) as [|e'] eqn:E; [done|].
    apply ReadFull_Err in E as [[-> ->]| ->]; cbn in R; injection R as <-;
      (eapply Hsent; [done|set_solver]). }
  apply bind_Err in R as [R|([t r3] & _ & R)].
  { destruct (ReadFull 36 r2) as [|e'] eqn:E; [done|].
    apply ReadFull_Err in E as [[-> ->]| ->]; cbn in R; injection R as <-;
      (eapply Hsent; [done|set_solver]). }
  case_match; [injection R as <-; eapply Hsent; [done|set_solver]|].
  apply bind_Err in R as [R|(g & _ & R)].
  { case_match; [done|]. injection R as <-. eapply Hsent; [done|set_solver]. }
  case_match; [injection R as <-; eapply Hsent; [done|set_solver]|done].
Qed.

(** A scan that succeeds has read a chain; the strict scan has read all of the
    file. *)
Lemma scan_sound tol fuel r st prev off st' :
  state_ok st → scan_loop fuel tol r st prev off = Some (Ok st') →
  ∃ recs data rest, r = data ++ rest ∧ st' = accept_all st recs off ∧
    (tol = false → rest = []) ∧
    (recs = [] ∧ data = [] ∨
     ∃ s seg seq, compat s seg seq st ∧ seg ≠ 0 ∧ chained s seg seq prev off recs data).
Proof.
  revert r st prev off. induction fuel as [|fuel IH]; intros r st prev off Hst; [done|].
  cbn [scan_loop]. destruct (readOneWithFrame r off prev) as [[[rec n] r']|e] eqn:R.
  - apply readOne_sound in R as (b & -> & F & -> & Hprev & Hoff).
    destruct (scan_check tol st rec) as [out|] eqn:Ec.
    + intros [= ->]. exists [], [], (b ++ r').
      assert (tol = true ∧ st' = st) as [-> ->].
      { revert Ec. unfold scan_check. repeat case_match; intros [= ->]; naive_solver. }
      split_and!; [done|done|done|by left].
    + destruct (scan_check_None tol st rec b Hst F Ec) as (Hseg & Hseq & Hc).
      intros Hs. apply IH in Hs; [|by eapply state_ok_accept].
      destruct Hs as (recs & data & rest & -> & -> & Hrest & Hch).
      exists (rec :: recs), (b ++ data), rest.
      pose proof (framed_len rec b F) as Hlen. fold (size_of rec) in Hlen.
      assert (rec.(Rec.Position) = Pos.mk rec.(Rec.Position).(Pos.SegmentID) off
        rec.(Rec.Position).(Pos.Sequence)) as Hpos.
      { rewrite <- Hoff. by destruct (Rec.Position rec). }
      split_and!; [by rewrite app_assoc|cbn [accept_all]; by rewrite Hlen|done|].
      right. eexists _, _, _. split_and!; [exact Hc|exact Hseg|].
      constructor; try done.
      destruct Hch as [[-> ->]|(s & seg & seq & Hc' & _ & Hch)]; [constructor|].
      assert (compat (Rec.CryptoSuite rec) (Pos.SegmentID (Rec.Position rec))
        (Pos.Sequence (Rec.Position rec) + 1) (scan_accept st rec off (len b))) as Hc2.
      { eapply compat_accept; [exact Hc|done|exact Hpos]. }
      destruct Hst as [Hst0 _].
      destruct Hc' as [H0|(_ & <- & <- & <-)]; [cbn in H0; lia|].
      destruct Hc2 as [H0|(_ & Es & Eg & Eq)]; [cbn in H0; lia|]. by rewrite Es, Eg, Eq in Hch.
  - destruct (errors_Is e io_EOF) eqn:Ee.
    + intros [= <-]. exists [], [], r. split_and!; [done|done| |by left]. intros _.
      by eapply readOne_EOF.
    + destruct (tol && _) eqn:Et; [|done]. intros [= <-]. exists [], [], r.
      split_and!; [done|done| |by left]. intros ->. done.
Qed.

(** One step per byte and one for the end are enough fuel. *)
Lemma scan_total fuel tol r st prev off :
  (length r < fuel)%nat → ∃ out, scan_loop fuel tol r st prev off = Some out.
Proof.
  revert r st prev off. induction fuel as [|fuel IH]; intros r st prev off Hf; [lia|].
  cbn [scan_loop]. destruct (readOneWithFrame r off prev) as [[[rec n] r']|e] eqn:R.
  - destruct (scan_check tol st rec); [by eexists|]. apply IH.
    apply readOne_sound in R as (b & -> & F & _). rewrite length_app in Hf.
    pose proof (framed_len rec b F). pose proof (fr_payload rec b F).
    unfold len, headerSize, crcSize, recordHashSize in *. lia.
  - destruct (errors_Is e io_EOF); [by eexists|]. destruct (tol && _); by eexists.
Qed.

Lemma strict_scan_spec file prev :
  match scanFileFrom file false prev with
  | None => False
  | Some (Err _) =>
      file ≠ [] ∧ ¬ ∃ s seg seq recs, seg ≠ 0 ∧ chained s seg seq prev 0 recs file
  | Some (Ok st) =>
      st = accept_all scan_zero (recordsList st) 0 ∧ records st = len (recordsList st) ∧
      validBytes st = len file ∧
      ∃ s seg seq, seg ≠ 0 ∧ chained s seg seq prev 0 (recordsList st) file
  end.
Proof.
  destruct (scan_total (S (length file)) false file scan_zero prev 0) as [out E]; [lia|].
  unfold scanFileFrom. rewrite E. destruct out as [st|e].
  - apply scan_sound in E as (recs & data & rest & -> & -> & Hr & Hch); [|by split].
    rewrite (Hr eq_refl), app_nil_r in *. rewrite accept_all_list, accept_all_records. cbn.
    assert (∃ s seg seq, seg ≠ 0 ∧ chained s seg seq prev 0 recs data) as (s & seg & seq & Hs & Hc).
    { destruct Hch as [[-> ->]|(s & seg & seq & _ & Hseg & Hch)]; [|by exists s, seg, seq].
      exists "", 1, 1. split; [done|constructor]. }
    split_and!; [done|done|by eapply accept_all_bytes in Hc|by exists s, seg, seq].
  - split.
    + intros ->. done.
    + intros (s & seg & seq & recs & Hseg & Hch). eapply (scan_whole false) in Hch; [|done].
      unfold scanFileFrom in Hch. rewrite E in Hch. done.
Qed.

(** C38: the strict scan returns on every file, and it succeeds exactly on the
    files that are one unbroken chain from the given previous hash: complete
    frames, one segment, one suite, consecutive sequence numbers, every record
    linked to the hash of the one before; it then reports these records and
    accounts for every byte. *)
Theorem strict_scan_exact file prev :
  match scanFileFrom file false prev with
  | None => False
  | Some (Err _) =>
      file ≠ [] ∧ ¬ ∃ s seg seq recs, seg ≠ 0 ∧ chained s seg seq prev 0 recs file
  | Some (Ok st) =>
      st = accept_all scan_zero (recordsList st) 0 ∧ records st = len (recordsList st) ∧
      validBytes st = len file ∧
      ∃ s seg seq, seg ≠ 0 ∧ chained s seg seq prev 0 (recordsList st) file
  end.
Proof. apply strict_scan_spec. Qed.

(** ** Tamper evidence *)

(** A part of the file, followed by its digest. *)
Definition digested (s : cryptosuite.ID) (file x : bytes) : Prop :=
  ∃ a c, file = a ++ x ++ suite_hash s x ++ c.

(** A collision of the storage hash among the parts of two files that are
    followed by their digests. *)
Definition file_collision (s : cryptosuite.ID) (file file' : bytes) : Prop :=
  ∃ x y, digested s file x ∧ digested s file' y ∧ x ≠ y ∧ suite_hash s x = suite_hash s y.

Lemma digested_app s file rest x : digested s file x → digested s (file ++ rest) x.
Proof. intros (a & c & ->). exists a, (c ++ rest). by rewrite <- !app_assoc. Qed.

Lemma framed_input rec b :
  framed rec b → ∃ input, b = input ++ rec.(Rec.RecordHash) ∧
    rec.(Rec.RecordHash) = suite_hash rec.(Rec.CryptoSuite) input.
Proof.
  intros F. apply framed_parts in F as (c & _ & Eb & Eh). exists (body_of c rec ++ be_put 4 (crc32_Checksum (body_of c rec))).
  split; [|done]. rewrite Eb. unfold body_of. by rewrite <- !app_assoc.
Qed.

Lemma slice_app_l a b i j : (j <= length a)%nat → slice (a ++ b) i j = slice a i j.
Proof.
  intros Hj. unfold slice. destruct (decide (i <= length a)%nat).
  - rewrite drop_app_le by lia. rewrite take_app_le; [done|]. rewrite length_drop. lia.
  - replace (j - i)%nat with 0%nat by lia. by rewrite !take_0.
Qed.

Lemma framed_prev rec b : framed rec b → slice b 32 64 = rec.(Rec.PrevHash).
Proof.
  intros F. pose proof (fr_prev rec b F) as Hp. destruct (framed_parts rec b F) as (c & _ & -> & _).
  rewrite slice_app_l by (rewrite length_header; done || lia).
  by destruct (header_fields c rec.(Rec.Position).(Pos.SegmentID) rec.(Rec.Position).(Pos.Sequence)
    rec.(Rec.UnixNano) rec.(Rec.PrevHash) rec.(Rec.Payload) Hp) as (_ & _ & _ & _ & _ & _ & E & _).
Qed.

Lemma chained_cons_inv s seg seq prev off rec recs data :
  chained s seg seq prev off (rec :: recs) data →
  ∃ b d, data = b ++ d ∧ framed rec b ∧ rec.(Rec.CryptoSuite) = s ∧
    rec.(Rec.Position) = Pos.mk seg off seq ∧ rec.(Rec.PrevHash) = prev ∧ 0 < seq ∧
    chained s seg (seq + 1) rec.(Rec.RecordHash) (off + len b) recs d.
Proof. inversion 1; subst. by do 2 eexists. Qed.

Lemma chained_nil_inv s seg seq prev off data :
  chained s seg seq prev off [] data → data = [].
Proof. by inversion 1. Qed.

Lemma chained_snoc s seg seq prev off recs rec data :
  chained s seg seq prev off (recs ++ [rec]) data →
  ∃ d b, data = d ++ b ∧ chained s seg seq prev off recs d ∧ framed rec b ∧
    rec.(Rec.CryptoSuite) = s ∧ rec.(Rec.PrevHash) = last_hash prev recs.
Proof.
  revert seq prev off data. induction recs as [|r recs IH]; intros seq prev off data Hch.
  - apply chained_cons_inv in Hch as (b & d & -> & F & Hs & Hp & Hpr & _ & Hnil).
    apply chained_nil_inv in Hnil as ->. exists [], b. rewrite app_nil_r.
    split_and!; [done|constructor|done..].
  - apply chained_cons_inv in Hch as (b & d & -> & F & Hs & Hp & Hpr & Hq & Hch'). apply IH in Hch' as (d' & b' & -> & Hd & F' & Hs' & Hpr').
    exists (b ++ d'), b'. split_and!; [by rewrite app_assoc|by constructor|done|done|].
    rewrite Hpr'. unfold last_hash. rewrite last_cons. by destruct (last recs).
Qed.

Lemma chain_binds s seg seq prev recs data seg' seq' prev' recs' data' :
  chained s seg seq prev 0 recs data → chained s seg' seq' prev' 0 recs' data' →
  length recs = length recs' → last_hash prev recs = last_hash prev' recs' →
  data = data' ∧ prev = prev' ∨ file_collision s data data'.
Proof.
  revert data recs' data'. induction recs as [|r recs IH] using rev_ind;
    intros data recs' data' Hch Hch' Hlen Hlast.
  - destruct recs'; [|done]. apply chained_nil_inv in Hch as ->.
    apply chained_nil_inv in Hch' as ->. by left.
  - destruct recs' as [|r' recs' _] using rev_ind; [rewrite length_app in Hlen; cbn in Hlen; lia|].
    rewrite !length_app in Hlen. cbn in Hlen.
    apply chained_snoc in Hch as (d & b & -> & Hch & F & Hs & Hp).
    apply chained_snoc in Hch' as (d' & b' & -> & Hch' & F' & Hs' & Hp').
    unfold last_hash in Hlast. rewrite !last_snoc in Hlast.
    destruct (framed_input r b F) as (x & Eb & Ex). destruct (framed_input r' b' F') as (x' & Eb' & Ex').
    destruct (decide (x = x')) as [-> |Hne].
    + assert (b = b') as -> by congruence.
      assert (last_hash prev recs = last_hash prev' recs') as Hl.
      { rewrite <- Hp, <- Hp', <- (framed_prev r b' F), <- (framed_prev r' b' F'). done. }
      destruct (IH d recs' d' Hch Hch') as [[-> ->]|(y & y' & Hy & Hy' & Hc)]; [lia|done|by left|].
      right. exists y, y'. split_and!; [by apply digested_app..|apply Hc|apply Hc].
    + right. exists x, x'. rewrite Hs in Ex. rewrite Hs' in Ex'. split_and!; [| |done|congruence].
      * exists d, []. by rewrite Eb, Ex, app_nil_r.
      * exists d', []. by rewrite Eb', Ex', app_nil_r.
Qed.

Lemma accept_all_last recs st off :
  lastHash (accept_all st recs off) = last_hash (lastHash st) recs.
Proof.
  revert st off. induction recs as [|r recs IH]; intros st off; cbn [accept_all]; [done|].
  rewrite IH. unfold last_hash. rewrite last_cons. by destruct (last recs).
Qed.

Lemma accept_all_suite s seg seq prev off recs data :
  chained s seg seq prev off recs data → ∀ st, recs ≠ [] →
  (records st = 0 ∨ 0 < records st ∧ st_cryptoSuite st = s) →
  st_cryptoSuite (accept_all st recs off) = s.
Proof.
  induction 1 as [|seq prev off r recs b data F Hs Hp Hpr Hq Hch IH]; intros st Hne Hst; [done|].
  cbn [accept_all]. pose proof (framed_len r b F) as Hl. fold (size_of r) in Hl. rewrite Hl in *.
  assert (0 < records (scan_accept st r off (size_of r)) ∧
    st_cryptoSuite (scan_accept st r off (size_of r)) = s) as Hacc.
  { cbn. destruct Hst as [-> |[H0 Hs']]; [by cbn|].
    rewrite (proj2 (Z.eqb_neq _ 0)) by lia. split; [lia|done]. }
  destruct recs as [|r2 recs]; [apply Hacc|]. apply IH; [done|by right].
Qed.

(** The hash chain makes the log tamper evident: two files that pass the
    strict scan with the same number of records, the same suite and the same
    last record hash are equal byte for byte, and so is the hash they start
    from, unless two different parts of the files, each followed by its digest,
    are a collision of the storage hash. *)
Theorem wal_tamper_evident file file' prev prev' st st' :
  scanFileFrom file false prev = Some (Ok st) → scanFileFrom file' false prev' = Some (Ok st') →
  0 < records st → records st' = records st → st_cryptoSuite st' = st_cryptoSuite st →
  lastHash st' = lastHash st →
  file = file' ∧ prev = prev' ∨ file_collision (st_cryptoSuite st) file file'.
Proof.
  intros E E' H0 Hr Hs Hl.
  pose proof (strict_scan_spec file prev) as X. pose proof (strict_scan_spec file' prev') as X'.
  rewrite E in X. rewrite E' in X'. destruct X as (Est & Hn & _ & s & seg & seq & Hseg & Hch).
  destruct X' as (Est' & Hn' & _ & s' & seg' & seq' & Hseg' & Hch').
  set (l := recordsList st) in *. set (l' := recordsList st') in *.
  assert (l ≠ [] ∧ l' ≠ []) as [Hne Hne'].
  { split; intros E0; rewrite E0 in *; unfold len in *; cbn in *; lia. }
  assert (st_cryptoSuite st = s) as Es
    by (rewrite Est; apply (accept_all_suite _ _ _ _ _ _ _ Hch); [done|by left]).
  assert (s' = s) as ->.
  { rewrite <- Es, <- Hs, Est'. symmetry. apply (accept_all_suite _ _ _ _ _ _ _ Hch'); [done|by left]. }
  rewrite Es. rewrite Est, Est' in Hl.
  rewrite !accept_all_last in Hl.
  eapply chain_binds; [exact Hch|exact Hch'|unfold len in *; lia|].
  unfold last_hash in *. destruct (last l) eqn:El, (last l') eqn:El'; try done;
    apply last_None in El || apply last_None in El'; done.
Qed.

End proofs.
End wal_proofs.
