(* ===== verification/WalDir.v ===== *)
(** * Write-ahead log: segments and the writer

    Models the directory mode of [src/internal/wal/wal.go]: the chain of
    segment files, [OpenDirWriter], the append path with rotation and I/O
    failures, [ReadAllDirFrom], [RepairDir] and [PruneSegmentsBefore].

    A directory is the list of its segment files in ascending order of their
    ids, as [listSegments] returns them.  The outcome of the file operations of
    an append is an argument ([IO]).  Fsync timing, the namespace binding file
    and the namespace locks are not modelled. *)

From S2P Require Import Prelude TrustErr CryptoSuite Model TrustCrypto Wal.

Module waldir.
Import wal.

Definition Dir : Type := list (Z * bytes).

(** ** The chain across segments *)

Record segmentChainState := mkChain {
  trustBoundary : bool;
  haveSegment : bool;
  lastSegment : Z;
  havePrev : bool;
  expectPrev : bytes;
  prevSegment : Z;
  ch_lastSequence : Z }.

Definition chain_init (trust : bool) : segmentChainState :=
  mkChain trust false 0 false zero_hash 0 0.

Definition startPrev (chain : segmentChainState) (file : bytes) : result bytes :=
  if havePrev chain || negb (trustBoundary chain) then Ok (expectPrev chain) else
  header ← peekFirstHeaderIfPresent file;
  match header with
  | None => Ok zero_hash
  | Some h => Ok (fh_prevHash h)
  end.

Definition repairStartPrev (chain : segmentChainState) (file : bytes) : result bytes :=
  match startPrev chain file with
  | Err err =>
      if trustBoundary chain && negb (havePrev chain) && errors_Is err errRepairableFirstHeader
      then Ok zero_hash else Err err
  | Ok prev => Ok prev
  end.

Definition validateNextSegment (chain : segmentChainState) (segmentID : Z) : result unit :=
  if haveSegment chain && negb (segmentID =? u64 (lastSegment chain + 1))
  then Err (ErrorsNew "wal: segment id gap between %d and %d") else Ok tt.

Definition validateFirstPosition (chain : segmentChainState) (segmentID recordSegmentID sequence : Z)
    (prevHash : bytes) : result unit :=
  if negb (recordSegmentID =? segmentID)
  then Err (ErrorsNew "wal: segment %d file reports segment_id %d") else
  if sequence =? 0 then Err (ErrorsNew "wal: segment %d starts with zero sequence") else
  if havePrev chain then
    if (ch_lastSequence chain =? two64 - 1) || negb (sequence =? u64 (ch_lastSequence chain + 1))
    then Err (ErrorsNew "wal: sequence discontinuity between segments %d and %d: got %d after %d")
    else Ok tt
  else if (negb (trustBoundary chain) || bytes_equal prevHash zero_hash) && negb (sequence =? 1)
  then Err (ErrorsNew "wal: first segment %d starts at sequence %d, want 1")
  else Ok tt.

Definition accept (chain : segmentChainState) (segmentID : Z) (state : scanState)
  : result segmentChainState :=
  _ ← validateNextSegment chain segmentID;
  let chain1 :=
    mkChain (trustBoundary chain) true segmentID (havePrev chain) (expectPrev chain)
      (prevSegment chain) (ch_lastSequence chain) in
  if records state =? 0 then Ok chain1 else
  _ ← validateFirstPosition chain1 segmentID (st_segmentID state) (firstSequence state)
        (firstPrev state);
  if havePrev chain && negb (bytes_equal (firstPrev state) (expectPrev chain))
  then Err (ErrorsNew "wal: hash chain break between segments %d and %d") else
  Ok (mkChain (trustBoundary chain) true segmentID true (lastHash state) segmentID
        (lastSequence state)).

(** ** Options and the writer *)

Record Options := mkOptions {
  CryptoSuite : cryptosuite.ID;
  MaxSegmentBytes : Z;
  InitialSegmentID : Z }.

(** The fields of [Writer] that the append path uses, in directory mode, and
    the directory itself; the active file is the last one. *)
Record Writer := mkWriter {
  w_dir : Dir;
  maxBytes : Z;
  segmentID : Z;
  sequence : Z;
  offset : Z;
  prevHash : bytes;
  fileOpen : bool;
  stickyErr : option error;
  closed : bool;
  suiteID : cryptosuite.ID }.

Section wal.
Context `{HashLib}.

Definition scan (file : bytes) (tolerateTail : bool) (prev : bytes) : go scanState :=
  call (scanFileFrom file tolerateTail prev).

(** The replay loop of [openDirWriterWithOps]: the state of the last segment
    that holds a record. *)
Fixpoint replay (suite : cryptosuite.ID) (segments : Dir) (chain : segmentChainState)
    (last : scanState) : go scanState :=
  match segments with
  | [] => Ret last
  | (seg, file) :: rest =>
      _ ← ret (validateNextSegment chain seg);
      prev ← ret (errorf "wal: seed segment %d: %w" (startPrev chain file));
      state ← gerrorf "wal: scan segment %d: %w" (scan file false prev);
      chain ← ret (accept chain seg state);
      if (0 <? records state) && negb (seqb (st_cryptoSuite state) suite)
      then Fail (ErrorsNew "wal: segment %d crypto_suite %s does not match configured %s") else
      replay suite rest chain (if 0 <? records state then state else last)
  end.

Definition first_above_one (segments : Dir) : bool :=
  match segments with (seg, _) :: _ => 1 <? seg | [] => false end.

Definition openDirWriterWithOps (dir : Dir) (opts : Options) : go Writer :=
  match dir with
  | [] =>
      let activeSeg := if InitialSegmentID opts =? 0 then 1 else InitialSegmentID opts in
      Ret (mkWriter [(activeSeg, [])] (MaxSegmentBytes opts) activeSeg 0 0 zero_hash true None false
             (CryptoSuite opts))
  | _ =>
      last ← replay (CryptoSuite opts) dir (chain_init (first_above_one dir)) scan_zero;
      match list.last dir with
      | None => Stuck
      | Some (activeSeg, file) =>
          Ret (mkWriter dir (MaxSegmentBytes opts) activeSeg (lastSequence last) (len file)
                 (lastHash last) true None false (CryptoSuite opts))
      end
  end.

(** ** Appending *)

Definition recordBytes (payloadLen : Z) : Z :=
  headerSize + payloadLen + crcSize + recordHashSize.

Definition errWriterClosed := ErrorsNew "wal: writer is closed".
Definition ErrAppendReservationInvalidated :=
  ErrorsNew "wal: append reservation invalidated; retry request".

Definition validatePayloadLength (length : Z) : result unit :=
  if length =? 0 then Err (ErrorsNew "wal: empty payload") else
  if maxPayloadBytes <? length then Err (ErrorsNew "wal: payload too large: %d > %d") else Ok tt.

Definition readyToAppendLocked (w : Writer) : result unit :=
  if closed w then Err errWriterClosed else
  match stickyErr w with
  | Some e => Err e
  | None =>
      if negb (fileOpen w) then Err errWriterClosed else
      if sequence w =? two64 - 1 then Err (ErrorsNew "wal: sequence exhausted") else Ok tt
  end.

Record appendState := mkAppend { as_segmentID : Z; as_sequence : Z; as_offset : Z }.

Definition positionAfter (w : Writer) (state : appendState) (payloadLen : Z)
  : result (Pos.t * appendState) :=
  if as_sequence state =? two64 - 1 then Err (ErrorsNew "wal: sequence exhausted") else
  let n := recordBytes payloadLen in
  let rotate := (0 <? maxBytes w) && (0 <? as_offset state) && (maxBytes w - n <? as_offset state) in
  if rotate && (as_segmentID state =? two64 - 1)
  then Err (ErrorsNew "wal: segment id exhausted") else
  let position :=
    Pos.mk (if rotate then u64 (as_segmentID state + 1) else as_segmentID state)
      (if rotate then 0 else as_offset state) (u64 (as_sequence state + 1)) in
  Ok (position,
      mkAppend position.(Pos.SegmentID) position.(Pos.Sequence) (position.(Pos.Offset) + n)).

Definition nextPositionLocked (w : Writer) (payloadLen : Z) : result Pos.t :=
  p ← positionAfter w (mkAppend (segmentID w) (sequence w) (offset w)) payloadLen;
  Ok p.1.

(** The outcome of the file operations of one append: which step of the
    rotation fails, how many bytes a failing write leaves in the file, and
    whether the sync after the append fails. *)
Inductive rotate_fault := RotateOk | FailSyncBefore | FailClose | FailOpen | FailPublish.
Inductive write_fault := WriteOk | FailWrite (n : nat) | FailSync.
Record IO := mkIO { io_rotate : rotate_fault; io_write : write_fault }.

Definition set_files (dir : Dir) (w : Writer) : Writer :=
  mkWriter dir (maxBytes w) (segmentID w) (sequence w) (offset w) (prevHash w) (fileOpen w)
    (stickyErr w) (closed w) (suiteID w).

Definition set_open (b : bool) (w : Writer) : Writer :=
  mkWriter (w_dir w) (maxBytes w) (segmentID w) (sequence w) (offset w) (prevHash w) b
    (stickyErr w) (closed w) (suiteID w).

(** [poisonLocked]: the first error sticks. *)
Definition poisonLocked (err : error) (w : Writer) : Writer * error :=
  match stickyErr w with
  | None => (mkWriter (w_dir w) (maxBytes w) (segmentID w) (sequence w) (offset w) (prevHash w)
               (fileOpen w) (Some err) (closed w) (suiteID w), err)
  | Some e => (w, e)
  end.

Definition poisoned {A} (err : error) (w : Writer) : Writer * go A :=
  let '(w, e) := poisonLocked err w in (w, Fail e).

(** Appends to the active file. *)
Fixpoint append_file (dir : Dir) (b : bytes) : Dir :=
  match dir with
  | [] => []
  | [(seg, file)] => [(seg, file ++ b)]
  | x :: rest => x :: append_file rest b
  end.

Definition rotateLocked (w : Writer) (io : rotate_fault) : Writer * go unit :=
  if segmentID w =? two64 - 1 then (w, Fail (ErrorsNew "wal: segment id exhausted")) else
  match io with
  | FailSyncBefore => poisoned (ErrorsNew "wal: sync before rotate: %w") w
  | FailClose => poisoned (ErrorsNew "wal: close before rotate: %w") (set_open false w)
  | FailOpen => poisoned (ErrorsNew "wal: open rotated segment %d: %w") (set_open false w)
  | FailPublish =>
      poisoned (ErrorsNew "wal: publish rotated segment %d: %w")
        (set_open false (set_files (w_dir w ++ [(u64 (segmentID w + 1), [])]) w))
  | RotateOk =>
      let nextSeg := u64 (segmentID w + 1) in
      (mkWriter (w_dir w ++ [(nextSeg, [])]) (maxBytes w) nextSeg (sequence w) 0 (prevHash w) true
         (stickyErr w) (closed w) (suiteID w), Ret tt)
  end.

(** The write of the encoded record at the position [pos], and the sync. *)
Definition writeRecord (w : Writer) (io : write_fault) (at_ : Z) (payload : bytes)
  : Writer * go (Pos.t * bytes) :=
  let nextSeq := u64 (sequence w + 1) in
  let pos := Pos.mk (segmentID w) (offset w) nextSeq in
  match encodeRecordIntoForSuite (suiteID w) (segmentID w) nextSeq at_ (prevHash w) payload with
  | None => (w, Stuck)
  | Some (encoded, recordHash) =>
      match io with
      | FailWrite n =>
          poisoned (ErrorsNew "wal: write: %w") (set_files (append_file (w_dir w) (take n encoded)) w)
      | FailSync =>
          poisoned (ErrorsNew "wal: sync: %w") (set_files (append_file (w_dir w) encoded) w)
      | WriteOk =>
          (mkWriter (append_file (w_dir w) encoded) (maxBytes w) (segmentID w) pos.(Pos.Sequence)
             (offset w + len encoded) recordHash (fileOpen w) (stickyErr w) (closed w) (suiteID w),
           Ret (pos, recordHash))
      end
  end.

(** [ctxErr] is the value of [ctx.Err()]. *)
Definition ctx_Err (ctxErr : option error) : result unit :=
  match ctxErr with Some e => Err e | None => Ok tt end.

Definition commitAtExpected (w : Writer) (io : IO) (ctxErr : option error) (payload : bytes) (at_ : Z)
    (expected : Pos.t) : Writer * go (Pos.t * bytes) :=
  match (_ ← validatePayloadLength (len payload);
         _ ← ctx_Err ctxErr;
         _ ← readyToAppendLocked w;
         nextPositionLocked w (len payload)) with
  | Err e => (w, Fail e)
  | Ok pos =>
      if bool_decide (pos ≠ expected) then (w, Fail ErrAppendReservationInvalidated) else
      if (0 <? maxBytes w) && (0 <? offset w)
         && (maxBytes w - recordBytes (len payload) <? offset w) then
        match rotateLocked w (io_rotate io) with
        | (w, Ret _) => writeRecord w (io_write io) at_ payload
        | (w, Fail e) => (w, Fail e)
        | (w, Stuck) => (w, Stuck)
        end
      else writeRecord w (io_write io) at_ payload
  end.

(** ** Reading, repairing and pruning a directory *)

Fixpoint readSegments (suite : cryptosuite.ID) (minSegmentID : Z) (segments : Dir)
    (chain : segmentChainState) (out : list Rec.t) : go (list Rec.t) :=
  match segments with
  | [] => Ret out
  | (seg, file) :: rest =>
      if seg <? minSegmentID then
        readSegments suite minSegmentID rest
          (mkChain true (haveSegment chain) (lastSegment chain) (havePrev chain) (expectPrev chain)
             (prevSegment chain) (ch_lastSequence chain)) out
      else
        _ ← ret (validateNextSegment chain seg);
        prev ← ret (errorf "wal: seed segment %d: %w" (startPrev chain file));
        state ← gerrorf "wal: scan segment %d: %w" (scan file false prev);
        chain ← ret (accept chain seg state);
        if (0 <? records state) && negb (seqb (st_cryptoSuite state) suite)
        then Fail (ErrorsNew "wal: segment %d crypto_suite %s does not match configured %s") else
        readSegments suite minSegmentID rest chain
          (if records state =? 0 then out else out ++ recordsList state)
  end.

Definition ReadAllDirFrom (suite : cryptosuite.ID) (dir : Dir) (minSegmentID : Z) : go (list Rec.t) :=
  readSegments suite minSegmentID dir (chain_init (first_above_one dir)) [].

Definition ReadAllDir (suite : cryptosuite.ID) (dir : Dir) : go (list Rec.t) :=
  ReadAllDirFrom suite dir 0.

(** The segments that [PruneSegmentsBefore] keeps when the removals succeed. *)
Fixpoint prune_loop (segmentID : Z) (segments : Dir) : Dir :=
  match segments with
  | [] => []
  | (seg, file) :: rest =>
      if segmentID <=? seg then segments else prune_loop segmentID rest
  end.

Definition pruneSegmentsBeforeWithOps (dir : Dir) (segmentID : Z) : Dir :=
  if segmentID <=? 1 then dir else prune_loop segmentID dir.

(** The strict verification of the segments before the tail. *)
Fixpoint repair_prefix (segments : Dir) (chain : segmentChainState) : go segmentChainState :=
  match segments with
  | [] => Ret chain
  | (id, file) :: rest =>
      _ ← gwrap CodeFailedPrecondition "wal: non-tail segment is corrupt" (ret (validateNextSegment chain id));
      prev ← gwrap CodeFailedPrecondition "wal: non-tail segment is corrupt" (ret (startPrev chain file));
      state ← gwrap CodeFailedPrecondition "wal: non-tail segment is corrupt" (scan file false prev);
      chain ← gwrap CodeFailedPrecondition "wal: non-tail segment is corrupt" (ret (accept chain id state));
      repair_prefix rest chain
  end.

(** [repairDirWithOps] when the file operations succeed: the directory after
    the truncation of its tail. *)
Definition repairDirWithOps (dir : Dir) : go Dir :=
  match list.last dir with
  | None => Ret []
  | Some (tailID, tail) =>
      let prefix := removelast dir in
      chain ← repair_prefix prefix (chain_init (first_above_one dir));
      _ ← gwrap CodeFailedPrecondition "wal: non-tail segment is corrupt" (ret (validateNextSegment chain tailID));
      _ ← match peekFirstHeaderIfPresent tail with
          | Ok (Some h) =>
              gwrap CodeFailedPrecondition "wal: tail segment has invalid position metadata"
                (ret (validateFirstPosition chain tailID (fh_segmentID h) (fh_sequence h) (fh_prevHash h)))
          | _ => Ret tt
          end;
      prev ← ret (errorf "wal: seed tail segment %d: %w" (repairStartPrev chain tail));
      '(tail, _) ← call (repairFileWithOps tail prev);
      tailState ← gerrorf "wal: verify tail after repair: %w" (scan tail false prev);
      _ ← ret (errorf "wal: verify tail chain after repair: %w" (accept chain tailID tailState));
      Ret (prefix ++ [(tailID, tail)])
  end.

End wal.

End waldir.
