(* ===== verification/WalDirProofs.v ===== *)
(** * Write-ahead log: theorems on directories

    The writer's directory is a chain of segments; appends with I/O failures,
    rotation, repair, reopening and pruning keep every acknowledged record. *)

From S2P Require Import Prelude TrustErr CryptoSuite Model TrustCrypto Wal WalProofs WalDir.

Module waldir_proofs.
Import wal wal_proofs waldir.

Section proofs.
Context `{HashLib}.

(** ** Chains of segments *)

(** The files of [dir], with consecutive ids from [seg], hold the records
    [recs], numbered from [seq] and linked to the hash [prev]. *)
Inductive segs (s : cryptosuite.ID) : Z → Z → bytes → Dir → list Rec.t → Prop :=
| segs_nil seg seq prev : segs s seg seq prev [] []
| segs_cons seg seq prev recs data dir recs' :
    chained s seg seq prev 0 recs data → 0 < seg → in_u64 seg →
    segs s (seg + 1) (seq + len recs) (last_hash prev recs) dir recs' →
    segs s seg seq prev ((seg, data) :: dir) (recs ++ recs').

Lemma len_app {A} (a b : list A) : len (a ++ b) = len a + len b.
Proof. unfold len. rewrite length_app. lia. Qed.

Lemma len_cons {A} (a : A) b : len (a :: b) = 1 + len b.
Proof. unfold len. cbn. lia. Qed.

Lemma last_hash_app prev a b : last_hash prev (a ++ b) = last_hash (last_hash prev a) b.
Proof.
  unfold last_hash. rewrite last_app. destruct (last b); [done|]. done.
Qed.

Lemma segs_inv s seg seq prev id data dir recs :
  segs s seg seq prev ((id, data) :: dir) recs →
  ∃ r1 r2, recs = r1 ++ r2 ∧ id = seg ∧ chained s seg seq prev 0 r1 data ∧ 0 < seg ∧ in_u64 seg ∧
    segs s (seg + 1) (seq + len r1) (last_hash prev r1) dir r2.
Proof. inversion 1; subst. by do 2 eexists. Qed.

Lemma segs_nil_inv s seg seq prev recs : segs s seg seq prev [] recs → recs = [].
Proof. by inversion 1. Qed.

Lemma segs_app s seg seq prev d1 d2 recs :
  segs s seg seq prev (d1 ++ d2) recs ↔
  ∃ r1 r2, recs = r1 ++ r2 ∧ segs s seg seq prev d1 r1 ∧
    segs s (seg + len d1) (seq + len r1) (last_hash prev r1) d2 r2.
Proof.
  revert seg seq prev recs. induction d1 as [|[id data] d1 IH]; intros seg seq prev recs.
  - cbn [app]. change (len (@nil (Z * bytes))) with 0. rewrite Z.add_0_r. split.
    + intros Hs. exists [], recs. change (len (@nil Rec.t)) with 0. rewrite Z.add_0_r.
      split_and!; [done|constructor|done].
    + intros (r1 & r2 & -> & H1 & H2). apply segs_nil_inv in H1 as ->.
      change (len (@nil Rec.t)) with 0 in H2. by rewrite Z.add_0_r in H2.
  - cbn [app]. split.
    + intros Hs. apply segs_inv in Hs as (r1 & r2 & -> & -> & Hc & H0 & Hu & Hs).
      apply IH in Hs as (r3 & r4 & -> & H3 & H4). exists (r1 ++ r3), r4.
      rewrite len_app, len_cons, last_hash_app. split_and!; [by rewrite app_assoc|by constructor|].
      by rewrite <- !Z.add_assoc in *.
    + intros (r1 & r2 & -> & H1 & H2). apply segs_inv in H1 as (r3 & r4 & -> & -> & Hc & H0 & Hu & Hs).
      rewrite <- app_assoc. constructor; [done|done|done|]. apply IH. exists r4, r2.
      rewrite len_app, len_cons, last_hash_app in H2.
      split_and!; [done|done|]. by rewrite <- !Z.add_assoc in *.
Qed.

Lemma segs_single s seg seq prev data recs :
  segs s seg seq prev [(seg, data)] recs ↔ chained s seg seq prev 0 recs data ∧ 0 < seg ∧ in_u64 seg.
Proof.
  split.
  - intros Hs. apply segs_inv in Hs as (r1 & r2 & -> & _ & Hc & H0 & Hu & Hn).
    apply segs_nil_inv in Hn as ->. by rewrite app_nil_r.
  - intros (Hc & H0 & Hu). rewrite <- (app_nil_r recs). constructor; try done. constructor.
Qed.

(** The last segment of a chain. *)
Lemma segs_snoc s seg seq prev pre id data recs :
  segs s seg seq prev (pre ++ [(id, data)]) recs ↔
  ∃ r1 r2, recs = r1 ++ r2 ∧ id = seg + len pre ∧ segs s seg seq prev pre r1 ∧
    chained s id (seq + len r1) (last_hash prev r1) 0 r2 data ∧ 0 < id ∧ in_u64 id.
Proof.
  rewrite segs_app. split.
  - intros (r1 & r2 & -> & H1 & H2). apply segs_inv in H2 as Hi.
    destruct Hi as (_ & _ & _ & -> & _). apply segs_single in H2 as (? & ? & ?).
    exists r1, r2. by split_and!.
  - intros (r1 & r2 & -> & -> & H1 & Hc & H0 & Hu). exists r1, r2. split_and!; [done|done|].
    by apply segs_single.
Qed.

(** *** Extending a chain *)

Lemma chained_app_one s seg seq prev off recs data rec b :
  chained s seg seq prev off recs data → framed rec b → rec.(Rec.CryptoSuite) = s →
  rec.(Rec.Position) = Pos.mk seg (off + len data) (seq + len recs) →
  rec.(Rec.PrevHash) = last_hash prev recs → 0 < seq →
  chained s seg seq prev off (recs ++ [rec]) (data ++ b).
Proof.
  intros Hch F Hs Hp Hpr. revert Hp Hpr.
  induction Hch as [seq prev off|seq prev off r recs b' data F' Hs' Hp' Hpr' Hq Hch IH];
    intros Hp Hpr H0.
  - change (len (@nil Rec.t)) with 0 in Hp. change (len (@nil byte)) with 0 in Hp.
    rewrite !Z.add_0_r in Hp. cbn. rewrite <- (app_nil_r b).
    constructor; try done. constructor.
  - rewrite <- app_assoc. cbn [app]. constructor; try done. apply IH.
    + rewrite Hp, len_app, len_cons. f_equal; lia.
    + rewrite Hpr. unfold last_hash. rewrite last_cons. by destruct (last recs).
    + lia.
Qed.

Lemma segs_append s f q p pre id data recs rec b :
  segs s f q p (pre ++ [(id, data)]) recs → framed rec b → rec.(Rec.CryptoSuite) = s →
  rec.(Rec.Position) = Pos.mk id (len data) (q + len recs) →
  rec.(Rec.PrevHash) = last_hash p recs → 0 < q →
  segs s f q p (pre ++ [(id, data ++ b)]) (recs ++ [rec]).
Proof.
  rewrite !segs_snoc. intros (r1 & r2 & -> & -> & H1 & Hc & H0 & Hu) F Hs Hp Hpr Hq.
  exists r1, (r2 ++ [rec]). rewrite app_assoc. split_and!; try done; [|apply Hu..].
  apply chained_app_one; try done.
  - rewrite Hp, len_app. f_equal. lia.
  - by rewrite Hpr, last_hash_app.
  - pose proof (len_nonneg r1). lia.
Qed.

Lemma segs_empty s f q p dir recs :
  segs s f q p dir recs → 0 < f + len dir → in_u64 (f + len dir) →
  segs s f q p (dir ++ [(f + len dir, [])]) recs.
Proof.
  intros Hs H0 Hu. apply segs_snoc. exists recs, []. rewrite app_nil_r.
  split_and!; try done; [constructor|apply Hu..].
Qed.

Lemma append_file_snoc pre id data b :
  append_file (pre ++ [(id, data)]) b = pre ++ [(id, data ++ b)].
Proof.
  induction pre as [|x pre IH]; [done|]. cbn. rewrite IH.
  destruct (pre ++ [(id, data)]) as [|y l] eqn:E; [by destruct pre|]. by destruct x.
Qed.

(** ** What a scan reports of a chain *)

Lemma accept_all_first recs st off :
  0 < records st →
  firstSequence (accept_all st recs off) = firstSequence st ∧
  st_segmentID (accept_all st recs off) = st_segmentID st ∧
  firstPrev (accept_all st recs off) = firstPrev st.
Proof.
  revert st off. induction recs as [|r recs IH]; intros st off H0; cbn [accept_all]; [done|].
  destruct (IH (scan_accept st r off (size_of r)) (off + size_of r)) as (-> & -> & ->).
  { cbn. lia. }
  cbn. by rewrite (proj2 (Z.eqb_neq (records st) 0)) by lia.
Qed.

Lemma accept_all_lastSeq s seg seq prev off recs data :
  chained s seg seq prev off recs data → ∀ st, recs ≠ [] →
  lastSequence (accept_all st recs off) = seq + len recs - 1.
Proof.
  induction 1 as [|seq prev off r recs b data F Hs Hp Hpr Hq Hch IH]; intros st Hne; [done|].
  cbn [accept_all]. pose proof (framed_len r b F) as Hl. fold (size_of r) in Hl. rewrite Hl in *.
  rewrite len_cons. destruct recs as [|r2 recs].
  - change (len (@nil Rec.t)) with 0. cbn. rewrite Hp. cbn. lia.
  - rewrite IH by done. rewrite len_cons. lia.
Qed.

Lemma scan_summary s seg seq prev recs data :
  chained s seg seq prev 0 recs data → recs ≠ [] →
  let st := accept_all scan_zero recs 0 in
  records st = len recs ∧ firstSequence st = seq ∧ st_segmentID st = seg ∧ firstPrev st = prev ∧
  lastHash st = last_hash prev recs ∧ lastSequence st = seq + len recs - 1 ∧
  st_cryptoSuite st = s ∧ recordsList st = recs.
Proof.
  intros Hch Hne. cbn zeta.
  rewrite accept_all_records, (accept_all_lastSeq _ _ _ _ _ _ _ Hch), accept_all_last,
    accept_all_list, (accept_all_suite _ _ _ _ _ _ _ Hch) by (done || by left).
  destruct recs as [|r recs]; [done|].
  apply chained_cons_inv in Hch as (b & d & _ & _ & _ & Hp & Hpr & _).
  cbn [accept_all]. destruct (accept_all_first recs (scan_accept scan_zero r 0 (size_of r))
    (0 + size_of r)) as (-> & -> & ->); [cbn; lia|].
  cbn. rewrite Hp, Hpr. cbn. split_and!; try done. unfold last_hash. rewrite last_cons.
  by destruct (last recs).
Qed.

Lemma chained_seq_max s seg seq prev off recs data :
  chained s seg seq prev off recs data → recs ≠ [] → seq + len recs - 1 < two64.
Proof.
  induction 1 as [|seq prev off r recs b data F Hs Hp Hpr Hq Hch IH]; [done|]. intros _.
  rewrite len_cons. destruct recs as [|r2 recs].
  - pose proof (fr_seq r b F) as Hr. rewrite Hp in Hr. unfold in_u64 in Hr.
    change (len (@nil Rec.t)) with 0. cbn [Pos.Sequence] in Hr. lia.
  - specialize (IH ltac:(done)). rewrite len_cons in *. lia.
Qed.

Lemma chained_seq_range s seg seq prev recs data :
  chained s seg seq prev 0 recs data → recs ≠ [] → 0 < seq ∧ seq + len recs - 1 < two64.
Proof.
  intros Hch Hne. split; [|by eapply chained_seq_max].
  destruct recs as [|r recs]; [done|].
  by apply chained_cons_inv in Hch as (? & ? & _ & _ & _ & _ & _ & ? & _).
Qed.

(** The first header of a chain. *)
Lemma peek_framed rec b rest :
  framed rec b →
  peekFirstHeaderIfPresent (b ++ rest) =
  Ok (Some (mkFirst rec.(Rec.Position).(Pos.SegmentID) rec.(Rec.Position).(Pos.Sequence)
              rec.(Rec.PrevHash))).
Proof.
  intros F. pose proof (fr_seg rec b F) as Hg. pose proof (fr_seq rec b F) as Hq.
  pose proof (fr_prev rec b F) as Hp. destruct (framed_parts rec b F) as (c & _ & -> & _).
  unfold peekFirstHeaderIfPresent. rewrite <- app_assoc, ReadFull_app; [|by apply length_header|lia].
  destruct (header_fields c rec.(Rec.Position).(Pos.SegmentID) rec.(Rec.Position).(Pos.Sequence)
    rec.(Rec.UnixNano) rec.(Rec.PrevHash) rec.(Rec.Payload) Hp)
    as (-> & _ & _ & -> & -> & _ & -> & _).
  rewrite (be_get_put_small 4 magic) by done. rewrite Z.eqb_refl. cbn [negb].
  by rewrite !be_get_put8.
Qed.

(** ** One segment of a chain *)

(** The chain state expects the sequence [seq] and the link [prev] next, in the
    segment [seg]. *)
Definition links (c : segmentChainState) (seq : Z) (prev : bytes) : Prop :=
  havePrev c = true ∧ expectPrev c = prev ∧ ch_lastSequence c + 1 = seq ∧ 0 <= ch_lastSequence c ∨
  havePrev c = false ∧ expectPrev c = zero_hash ∧ (prev = zero_hash → seq = 1) ∧
  (trustBoundary c = false → prev = zero_hash).

Definition expects (c : segmentChainState) (seg seq : Z) (prev : bytes) : Prop :=
  (haveSegment c = true → lastSegment c + 1 = seg) ∧ links c seq prev.

Lemma next_ok c seg seq prev :
  expects c seg seq prev → in_u64 seg → validateNextSegment c seg = Ok tt.
Proof.
  intros [Hs _] Hu. unfold validateNextSegment. destruct (haveSegment c); [|done].
  rewrite Hs, u64_small, Z.eqb_refl by done. done.
Qed.

Lemma first_ok c seg seq prev :
  links c seq prev → 0 < seq < two64 → validateFirstPosition c seg seg seq prev = Ok tt.
Proof.
  intros Hp Hq. unfold validateFirstPosition. rewrite Z.eqb_refl, (proj2 (Z.eqb_neq seq 0)) by lia.
  cbn [negb]. destruct Hp as [(-> & _ & Hl & H0)|(-> & _ & Hz & Ht)].
  - assert (ch_lastSequence c =? two64 - 1 = false) as -> by (apply Z.eqb_neq; lia).
    rewrite Hl, u64_small, Z.eqb_refl by (unfold in_u64; lia). done.
  - destruct (bytes_equal prev zero_hash) eqn:E; bsimpl.
    + rewrite (Hz E), orb_true_r. done.
    + destruct (trustBoundary c) eqn:Et; [done|]. by rewrite (Ht eq_refl) in E.
Qed.

(** The previous hash that a scan of the segment starts from. *)
Lemma start_ok c s seg seq prev recs data :
  expects c seg seq prev → chained s seg seq prev 0 recs data → seg ≠ 0 →
  ∃ p, startPrev c data = Ok p ∧
    (recs ≠ [] → p = prev) ∧ scan data false p = Ret (accept_all scan_zero recs 0).
Proof.
  intros [_ Hp] Hch Hseg. unfold startPrev, scan.
  assert (∀ p, (recs ≠ [] → p = prev) → call (scanFileFrom data false p) = Ret (accept_all scan_zero recs 0))
    as Hscan.
  { intros p Hpp. destruct recs as [|r recs].
    - apply chained_nil_inv in Hch as ->. reflexivity.
    - rewrite (Hpp ltac:(done)). by rewrite (scan_whole _ _ _ _ _ _ _ Hch Hseg). }
  destruct Hp as [(-> & -> & _)|(-> & -> & Hz & Ht)]; cbn [orb].
  - exists prev. split_and!; [done|done|by apply Hscan].
  - destruct (trustBoundary c) eqn:Et; cbn [negb].
    + destruct recs as [|r recs].
      * apply chained_nil_inv in Hch as Hd. subst data. exists zero_hash. split_and!; [done|done|by apply Hscan].
      * exists prev. split_and!; [|done|by apply Hscan].
        apply chained_cons_inv in Hch as (b & d & -> & F & _ & Hpos & Hpr & _).
        rewrite (peek_framed r b d F). cbn. by rewrite Hpr.
    + rewrite (Ht eq_refl). exists zero_hash. rewrite (Ht eq_refl) in Hscan.
      split_and!; [done|done|by apply Hscan].
Qed.

Lemma accept_ok c s seg seq prev recs data :
  expects c seg seq prev → chained s seg seq prev 0 recs data → in_u64 seg → 0 < seq →
  ∃ c', accept c seg (accept_all scan_zero recs 0) = Ok c' ∧
    expects c' (seg + 1) (seq + len recs) (last_hash prev recs) ∧
    trustBoundary c' = trustBoundary c.
Proof.
  intros He Hch Hu Hq. pose proof He as [_ Hp]. unfold accept.
  rewrite (next_ok c seg seq prev He Hu). cbn [mbind result_bind].
  destruct recs as [|r recs].
  - eexists. split; [done|]. split; [|done]. split; [done|]. cbn. change (len (@nil Rec.t)) with 0.
    by rewrite Z.add_0_r.
  - destruct (scan_summary _ _ _ _ _ _ Hch ltac:(done)) as (E1 & E2 & E3 & E4 & E5 & E6 & _).
    set (st := accept_all scan_zero (r :: recs) 0) in *.
    rewrite E1, (proj2 (Z.eqb_neq (len (r :: recs)) 0)) by (rewrite len_cons; pose proof (len_nonneg recs); lia).
    set (c1 := mkChain (trustBoundary c) true seg (havePrev c) (expectPrev c) (prevSegment c)
      (ch_lastSequence c)).
    destruct (chained_seq_range _ _ _ _ _ _ Hch ltac:(done)) as [_ Hr]. rewrite len_cons in Hr.
    pose proof (len_nonneg recs) as Hlr.
    assert (validateFirstPosition c1 seg (st_segmentID st) (firstSequence st) (firstPrev st) = Ok tt) as ->.
    { rewrite E2, E3, E4. apply (first_ok c1 seg seq prev); [exact Hp|lia]. }
    cbn [mbind result_bind]. rewrite E4, E5, E6.
    assert (havePrev c && negb (bytes_equal prev (expectPrev c)) = false) as ->.
    { destruct Hp as [(-> & -> & _)|(-> & _)]; [by rewrite bytes_equal_refl|done]. }
    eexists. split; [done|]. split; [|done]. split; [done|]. left. cbn.
    split_and!; [done|done|lia|rewrite len_cons; lia].
Qed.

(** ** Walking a chain of segments *)

Lemma suite_check s seg seq prev recs data {A} (e x : go A) :
  chained s seg seq prev 0 recs data →
  (if (0 <? records (accept_all scan_zero recs 0))
      && negb (seqb (st_cryptoSuite (accept_all scan_zero recs 0)) s) then e else x) = x.
Proof.
  intros Hch. destruct recs as [|r recs]; [done|].
  destruct (scan_summary _ _ _ _ _ _ Hch ltac:(done)) as (_ & _ & _ & _ & _ & _ & -> & _).
  by rewrite seqb_refl, andb_false_r.
Qed.

Lemma records_list recs out :
  (if records (accept_all scan_zero recs 0) =? 0 then out
   else out ++ recordsList (accept_all scan_zero recs 0)) = out ++ recs.
Proof.
  rewrite accept_all_records, accept_all_list. cbn. destruct recs as [|r recs].
  - by rewrite app_nil_r.
  - rewrite (proj2 (Z.eqb_neq _ 0)); [done|]. rewrite len_cons. pose proof (len_nonneg recs). lia.
Qed.

(** Rewrites one step of a walk. *)
Ltac walk_step He Hch :=
  rewrite (next_ok _ _ _ _ He) by done; cbn [ret mbind go_bind errorf gerrorf gwrap];
  let p := fresh "p" in let Ep := fresh "Ep" in let Es := fresh "Es" in
  destruct (start_ok _ _ _ _ _ _ _ He Hch ltac:(lia)) as (p & Ep & _ & Es);
  rewrite Ep; cbn [ret mbind go_bind errorf gerrorf gwrap]; rewrite Es;
  cbn [ret mbind go_bind errorf gerrorf gwrap].

Lemma read_segs s k seg seq prev dir recs c out :
  segs s seg seq prev dir recs → expects c seg seq prev → 0 < seq → k <= seg →
  readSegments s k dir c out = Ret (out ++ recs).
Proof.
  intros Hs. revert c out.
  induction Hs as [seg seq prev|seg seq prev recs data dir recs' Hch H0 Hu Hs IH];
    intros c out He Hq Hk; cbn [readSegments]; [by rewrite app_nil_r|].
  rewrite (proj2 (Z.ltb_ge seg k)) by lia. walk_step He Hch.
  destruct (accept_ok _ _ _ _ _ _ _ He Hch Hu Hq) as (c' & -> & He' & _).
  cbn [ret mbind go_bind]. rewrite (suite_check _ _ _ _ _ _ _ _ Hch), records_list, app_assoc.
  pose proof (len_nonneg recs). apply IH; [done|lia|lia].
Qed.

Lemma replay_segs s seg seq prev dir recs c l :
  segs s seg seq prev dir recs → expects c seg seq prev → 0 < seq →
  ∃ l', replay s dir c l = Ret l' ∧ (recs = [] → l' = l) ∧
    (recs ≠ [] → lastSequence l' = seq + len recs - 1 ∧ lastHash l' = last_hash prev recs).
Proof.
  intros Hs. revert c l.
  induction Hs as [seg seq prev|seg seq prev recs data dir recs' Hch H0 Hu Hs IH];
    intros c l He Hq; cbn [replay]; [by exists l|].
  walk_step He Hch.
  destruct (accept_ok _ _ _ _ _ _ _ He Hch Hu Hq) as (c' & -> & He' & _).
  cbn [ret mbind go_bind]. rewrite (suite_check _ _ _ _ _ _ _ _ Hch).
  pose proof (len_nonneg recs) as Hl.
  destruct (IH c' (if 0 <? records (accept_all scan_zero recs 0) then accept_all scan_zero recs 0
    else l) He' ltac:(lia)) as (l' & -> & H1 & H2).
  exists l'. split; [done|]. rewrite accept_all_records in *. cbn [records scan_zero] in *.
  rewrite len_app, last_hash_app. destruct recs as [|r recs].
  - change (len (@nil Rec.t)) with 0 in *. rewrite Z.add_0_r in *. done.
  - split; [done|]. intros _. destruct recs' as [|r' recs'].
    + rewrite (H1 eq_refl), (proj2 (Z.ltb_lt 0 _)) by (rewrite len_cons in *; pose proof (len_nonneg recs); lia).
      destruct (scan_summary _ _ _ _ _ _ Hch ltac:(done)) as (_ & _ & _ & _ & -> & -> & _).
      change (len (@nil Rec.t)) with 0. split; [lia|done].
    + destruct (H2 ltac:(done)) as [-> ->]. split; [lia|done].
Qed.

Lemma repair_prefix_segs s seg seq prev dir recs c :
  segs s seg seq prev dir recs → expects c seg seq prev → 0 < seq →
  ∃ c', repair_prefix dir c = Ret c' ∧
    expects c' (seg + len dir) (seq + len recs) (last_hash prev recs) ∧
    trustBoundary c' = trustBoundary c.
Proof.
  intros Hs. revert c.
  induction Hs as [seg seq prev|seg seq prev recs data dir recs' Hch H0 Hu Hs IH];
    intros c He Hq; cbn [repair_prefix].
  - exists c. change (len (@nil (Z * bytes))) with 0. change (len (@nil Rec.t)) with 0.
    by rewrite !Z.add_0_r.
  - walk_step He Hch.
    destruct (accept_ok _ _ _ _ _ _ _ He Hch Hu Hq) as (c1 & -> & He1 & Ht).
    cbn [ret gwrap mbind go_bind]. pose proof (len_nonneg recs).
    destruct (IH c1 He1 ltac:(lia)) as (c' & -> & He' & Ht'). exists c'. split; [done|].
    rewrite len_cons, len_app, last_hash_app. split; [|congruence].
    by rewrite !Z.add_assoc.
Qed.

(** *** Directories *)

(** What is known of the records before the first retained segment: nothing is
    missing before the first record, and a segment 1 starts the chain. *)
Definition base_ok (f q : Z) (p : bytes) : Prop :=
  (p = zero_hash → q = 1) ∧ (f = 1 → p = zero_hash) ∧ 0 < f ∧ 0 < q ∧ length p = 32%nat.

Lemma init_expects f q p :
  base_ok f q p → expects (chain_init (1 <? f)) f q p.
Proof.
  intros (H1 & H2 & H3 & H4 & _). split; [done|]. right. cbn. split_and!; [done|done|done|].
  intros E. bsimpl. apply H2. lia.
Qed.

Lemma first_above s f q p dir recs :
  segs s f q p dir recs → dir ≠ [] → first_above_one dir = (1 <? f).
Proof. intros Hs Hne. inversion Hs; [by subst|]. done. Qed.

Lemma ReadAllDir_segs s f q p dir recs :
  segs s f q p dir recs → base_ok f q p → dir ≠ [] → ReadAllDir s dir = Ret recs.
Proof.
  intros Hs Hb Hne. unfold ReadAllDir, ReadAllDirFrom. rewrite (first_above _ _ _ _ _ _ Hs Hne).
  pose proof Hb as (_ & _ & Hf & Hq & _).
  by rewrite (read_segs _ 0 _ _ _ _ _ _ [] Hs (init_expects _ _ _ Hb) Hq) by lia.
Qed.

(** ** The writer *)

(** The writer's state describes its directory. *)
Record winv (f q : Z) (p : bytes) (w : Writer) (recs : list Rec.t) : Prop := {
  wi_base : base_ok f q p;
  wi_segs : segs (suiteID w) f q p (w_dir w) recs;
  wi_last : ∃ pre file, w_dir w = pre ++ [(segmentID w, file)] ∧ offset w = len file;
  wi_seq : sequence w = q + len recs - 1;
  wi_seq_max : sequence w < two64;
  wi_prev : prevHash w = last_hash p recs;
  wi_open : fileOpen w = true;
  wi_ok : stickyErr w = None;
  wi_closed : closed w = false;
  wi_suite : is_Some (suiteCode (suiteID w)) }.

Lemma open_fresh opts :
  in_u64 (InitialSegmentID opts) → is_Some (suiteCode (CryptoSuite opts)) →
  ∃ f w, openDirWriterWithOps [] opts = Ret w ∧ suiteID w = CryptoSuite opts ∧
    winv f 1 zero_hash w [].
Proof.
  intros [Hi Hi'] Hs. cbn.
  set (f := if InitialSegmentID opts =? 0 then 1 else InitialSegmentID opts).
  assert (0 < f < two64) as Hf.
  { subst f. destruct (_ =? _) eqn:E; bsimpl; [done|]. lia. }
  exists f. eexists. split; [done|]. split; [done|]. constructor; cbn; try done.
  - split_and!; try done; lia.
  - apply segs_single. split_and!; [constructor|lia|split; lia].
  - by exists [], [].
Qed.

Lemma last_seq_range s f q p dir recs :
  segs s f q p dir recs → 0 < q < two64 + 1 → q + len recs - 1 < two64.
Proof.
  induction 1 as [seg seq prev|seg seq prev recs data dir recs' Hch H0 Hu Hs IH]; intros Hq.
  - change (len (@nil Rec.t)) with 0. lia.
  - rewrite len_app. destruct recs as [|r recs].
    + change (len (@nil Rec.t)) with 0 in *. rewrite Z.add_0_r in IH. lia.
    + pose proof (chained_seq_max _ _ _ _ _ _ _ Hch ltac:(done)).
      pose proof (len_nonneg recs). rewrite len_cons in *. lia.
Qed.

Lemma open_dir s f q p dir recs opts :
  segs s f q p dir recs → base_ok f q p → dir ≠ [] → q <= two64 → CryptoSuite opts = s →
  is_Some (suiteCode s) → (recs = [] → q = 1 ∧ p = zero_hash) →
  ∃ w, openDirWriterWithOps dir opts = Ret w ∧ winv f q p w recs ∧ w_dir w = dir ∧ suiteID w = s.
Proof.
  intros Hs Hb Hne Hq2 <- Hsuite Hempty.
  destruct (replay_segs _ _ _ _ _ _ _ scan_zero Hs (init_expects _ _ _ Hb)) as (l & Hr & H1 & H2);
    [apply Hb|].
  destruct (exists_last Hne) as (pre & [id file] & E). subst dir.
  assert (openDirWriterWithOps (pre ++ [(id, file)]) opts =
    Ret (mkWriter (pre ++ [(id, file)]) (MaxSegmentBytes opts) id (lastSequence l) (len file)
           (lastHash l) true None false (CryptoSuite opts))) as ->.
  { unfold openDirWriterWithOps. rewrite (first_above _ _ _ _ _ _ Hs Hne), Hr.
    cbn [mbind go_bind]. rewrite last_snoc. by destruct pre. }
  eexists. split; [done|].
  assert (lastSequence l = q + len recs - 1 ∧ lastHash l = last_hash p recs) as [-> ->].
  { destruct recs as [|r recs]; [|by apply H2]. rewrite (H1 eq_refl).
    destruct (Hempty eq_refl) as [-> ->]. done. }
  split; [|done]. constructor; cbn; try done.
  - by exists pre, file.
  - eapply last_seq_range; [done|]. destruct Hb as (_ & _ & _ & ? & _). lia.
Qed.

(** ** Crash images *)

(** What an append may leave on disk: a chain, or a chain whose last file ends
    with a part of the frame of the next record. *)
Inductive image (s : cryptosuite.ID) (f q : Z) (p : bytes) : Dir → list Rec.t → Prop :=
| image_clean dir recs : segs s f q p dir recs → dir ≠ [] → image s f q p dir recs
| image_torn pre id data recs rec b j :
    segs s f q p (pre ++ [(id, data)]) recs → framed rec b → (0 < j < length b)%nat →
    rec.(Rec.Position) = Pos.mk id (len data) (q + len recs) →
    rec.(Rec.PrevHash) = last_hash p recs →
    image s f q p (pre ++ [(id, data ++ take j b)]) recs.

Lemma peek_torn rec b j :
  framed rec b → (0 < j < length b)%nat →
  peekFirstHeaderIfPresent (take j b) =
    Ok (Some (mkFirst rec.(Rec.Position).(Pos.SegmentID) rec.(Rec.Position).(Pos.Sequence)
                rec.(Rec.PrevHash))) ∨
  ∃ m, peekFirstHeaderIfPresent (take j b) = Err (Errorf m errRepairableFirstHeader).
Proof.
  intros F Hj. pose proof (peek_framed rec b [] F) as P. rewrite app_nil_r in P.
  assert (length (take j b) = j) as Hl by (rewrite length_take; lia).
  destruct (decide (j < 70)%nat) as [Hs|Hs].
  - right. unfold peekFirstHeaderIfPresent, ReadFull. destruct (take j b) as [|x y] eqn:E.
    { cbn in Hl. lia. }
    assert (Nat.ltb (length (x :: y)) 70 = true) as -> by (apply Nat.ltb_lt; lia). by eexists.
  - left. rewrite <- P. unfold peekFirstHeaderIfPresent, ReadFull.
    destruct (take j b) as [|x y] eqn:E; [cbn in Hl; lia|]. rewrite <- E in *.
    destruct b as [|x' b]; [by rewrite take_nil in E|].
    rewrite !(proj2 (Nat.ltb_ge _ _)) by lia. rewrite take_take.
    by replace (70 `min` j)%nat with 70%nat by lia.
Qed.

(** [torn] is empty or a part of the frame of the record after [recs]. *)
Definition partial (id seq : Z) (prev : bytes) (recs : list Rec.t) (data torn : bytes) : Prop :=
  torn = [] ∨ ∃ rec b j, framed rec b ∧ torn = take j b ∧ (0 < j < length b)%nat ∧
    rec.(Rec.Position) = Pos.mk id (len data) (seq + len recs) ∧
    rec.(Rec.PrevHash) = last_hash prev recs.

Lemma scan_partial s id seq prev recs data torn :
  chained s id seq prev 0 recs data → id ≠ 0 → partial id seq prev recs data torn →
  scanFileFrom (data ++ torn) true prev = Some (Ok (accept_all scan_zero recs 0)).
Proof.
  intros Hch Hid [-> |(rec & b & j & F & -> & Hj & _ & Hpr)].
  - rewrite app_nil_r. by eapply scan_whole.
  - by eapply scan_torn.
Qed.

Lemma repair_partial s id seq prev recs data torn :
  chained s id seq prev 0 recs data → id ≠ 0 → partial id seq prev recs data torn →
  repairFileWithOps (data ++ torn) prev = Some (Ok (data, accept_all scan_zero recs 0)).
Proof.
  intros Hch Hid Ht. unfold repairFileWithOps. rewrite (scan_partial _ _ _ _ _ _ _ Hch Hid Ht).
  cbn [mbind option_bind]. rewrite (accept_all_bytes _ _ _ _ _ _ _ scan_zero Hch eq_refl).
  unfold len. rewrite length_app, (proj2 (Z.ltb_ge _ _)) by lia.
  replace (Z.to_nat (0 + Z.of_nat (length data))) with (length data) by lia.
  by rewrite take_app_length.
Qed.

(** A file that ends inside its first header is repaired to the empty file,
    whatever hash the scan starts from. *)
Lemma repair_short file p :
  (length file < 70)%nat → repairFileWithOps file p = Some (Ok ([], scan_zero)).
Proof.
  intros Hl. assert (scanFileFrom file true p = Some (Ok scan_zero)) as E.
  { unfold scanFileFrom. cbn [scan_loop].
    assert (readOneWithFrame file 0 p = Err io_EOF ∨
      readOneWithFrame file 0 p = Err (Errorf "%w: truncated header at offset %d" errTornRecord))
      as [-> | ->]; [|reflexivity..].
    unfold readOneWithFrame, ReadFull. destruct file as [|x file]; [by left|]. right.
    assert (Nat.ltb (length (x :: file)) 70 = true) as -> by (apply Nat.ltb_lt; lia). done. }
  unfold repairFileWithOps. rewrite E. cbn [mbind option_bind].
  change (validBytes scan_zero) with 0.
  rewrite (proj2 (Z.ltb_ge (len file) 0)) by apply len_nonneg. done.
Qed.

(** The tail of a crash image: its first header, if it is complete, is the
    expected one, and the repair truncates it to its complete records. *)
Lemma repair_tail c s id seq prev recs data torn :
  expects c id seq prev → chained s id seq prev 0 recs data → id ≠ 0 → 0 < seq →
  seq + len recs <= two64 → partial id seq prev recs data torn →
  match peekFirstHeaderIfPresent (data ++ torn) with
  | Ok (Some h) =>
      validateFirstPosition c id (fh_segmentID h) (fh_sequence h) (fh_prevHash h) = Ok tt
  | _ => True
  end ∧
  ∃ p, repairStartPrev c (data ++ torn) = Ok p ∧
    repairFileWithOps (data ++ torn) p = Some (Ok (data, accept_all scan_zero recs 0)) ∧
    scan data false p = Ret (accept_all scan_zero recs 0).
Proof.
  intros [_ He] Hch Hid Hq Hmax Ht.
  assert (peekFirstHeaderIfPresent (data ++ torn) = Ok (Some (mkFirst id seq prev)) ∧ seq < two64 ∨
    (length (data ++ torn) < 70)%nat ∧ recs = [] ∧ data = [] ∧
    (peekFirstHeaderIfPresent (data ++ torn) = Ok None ∨
     ∃ m, peekFirstHeaderIfPresent (data ++ torn) = Err (Errorf m errRepairableFirstHeader))) as Hpeek.
  { destruct recs as [|r recs].
    - apply chained_nil_inv in Hch as ->. change (len (@nil Rec.t)) with 0 in *. cbn [app].
      destruct Ht as [-> |(rec & b & j & F & -> & Hj & Hpos & Hpr)].
      + right. split_and!; [cbn; lia|done|done|by left].
      + pose proof (peek_torn rec b j F Hj) as P. rewrite Hpos, Hpr in P. cbn in P.
        change (len (@nil Rec.t)) with 0 in P. rewrite Z.add_0_r in P.
        pose proof (fr_seq rec b F) as [_ Hr]. rewrite Hpos in Hr. cbn in Hr.
        change (len (@nil Rec.t)) with 0 in Hr.
        destruct (decide (j < 70)%nat).
        * right. split_and!; [rewrite length_take; lia|done|done|]. right.
          destruct P as [P|P]; [|done]. exfalso. revert P. unfold peekFirstHeaderIfPresent, ReadFull.
          destruct (take j b) as [|x y] eqn:E; [done|].
          assert (Nat.ltb (length (x :: y)) 70 = true) as -> by (apply Nat.ltb_lt; rewrite <- E, length_take; lia).
          done.
        * left. split; [|lia]. destruct P as [P|[m P]]; [done|]. exfalso. revert P.
          unfold peekFirstHeaderIfPresent, ReadFull. destruct (take j b) as [|x y] eqn:E; [done|].
          assert (Nat.ltb (length (x :: y)) 70 = false) as -> by (apply Nat.ltb_ge; rewrite <- E, length_take; lia).
          destruct (negb _); done.
    - left. pose proof (chained_seq_max _ _ _ _ _ _ _ Hch ltac:(done)) as Hm.
      apply chained_cons_inv in Hch as (b & d & -> & F & _ & Hpos & Hpr & _).
      rewrite <- app_assoc, (peek_framed r b _ F), Hpos, Hpr. split; [done|].
      rewrite len_cons in Hm. pose proof (len_nonneg recs). lia. }
  split.
  { destruct Hpeek as [[-> Hr]|(_ & _ & _ & [-> |[m ->]])]; [|done|done]. by apply first_ok. }
  assert (repairFileWithOps (data ++ torn) prev = Some (Ok (data, accept_all scan_zero recs 0)) ∧
    scan data false prev = Ret (accept_all scan_zero recs 0)) as [Hrep Hscan].
  { split; [by eapply repair_partial|]. unfold scan. by rewrite (scan_whole _ _ _ _ _ _ _ Hch Hid). }
  unfold repairStartPrev, startPrev.
  destruct He as [(-> & -> & _)|(-> & -> & Hz & Htb)]; cbn [orb andb negb]; [by exists prev|].
  destruct (trustBoundary c) eqn:Et; cbn [negb andb]; [|rewrite (Htb eq_refl) in *; by exists zero_hash].
  destruct Hpeek as [[-> _]|(Hs & -> & -> & Hp)]; [by exists prev|].
  exists zero_hash. rewrite repair_short by done. split; [|done].
  destruct Hp as [-> |[m ->]]; reflexivity.
Qed.

(** Repairing a crash image restores the chain of the complete records. *)
Lemma repair_image s f q p dir recs :
  image s f q p dir recs → base_ok f q p → q + len recs <= two64 →
  ∃ dir', repairDirWithOps dir = Ret dir' ∧ segs s f q p dir' recs ∧ dir' ≠ [].
Proof.
  intros Hi Hb Hmax.
  assert (∃ pre id data torn r1 r2, dir = pre ++ [(id, data ++ torn)] ∧ recs = r1 ++ r2 ∧
    id = f + len pre ∧ segs s f q p pre r1 ∧
    chained s id (q + len r1) (last_hash p r1) 0 r2 data ∧ 0 < id ∧ in_u64 id ∧
    partial id (q + len r1) (last_hash p r1) r2 data torn)
    as (pre & id & data & torn & r1 & r2 & -> & -> & Eid & Hpre & Hch & H0 & Hu & Ht).
  { destruct Hi as [dir recs Hs Hne|pre id data recs rec b j Hs F Hj Hpos Hpr].
    - destruct (exists_last Hne) as (pre & [id data] & ->). apply segs_snoc in Hs as (r1 & r2 & ? & ? & ? & ? & ? & ?).
      exists pre, id, data, [], r1, r2. rewrite app_nil_r. split_and!; try done; by left.
    - apply segs_snoc in Hs as (r1 & r2 & -> & -> & ? & ? & ? & ?).
      exists pre, (f + len pre), data, (take j b), r1, r2. split_and!; try done. right.
      exists rec, b, j. rewrite len_app in Hpos. rewrite last_hash_app in Hpr.
      split_and!; try done; [lia|lia|]. by rewrite <- Z.add_assoc. }
  assert (segs s f q p (pre ++ [(id, data)]) (r1 ++ r2)) as Hsegs by (apply segs_snoc; by exists r1, r2).
  assert (first_above_one (pre ++ [(id, data ++ torn)]) = (1 <? f)) as Hfirst.
  { pose proof (first_above _ _ _ _ _ _ Hsegs ltac:(by destruct pre)) as E.
    by destruct pre as [|[]]. }
  exists (pre ++ [(id, data)]). split; [|split; [done|by destruct pre]].
  unfold repairDirWithOps. rewrite last_snoc, removelast_last, Hfirst.
  destruct (repair_prefix_segs _ _ _ _ _ _ _ Hpre (init_expects _ _ _ Hb)) as (c & -> & He & _);
    [apply Hb|]. rewrite <- Eid in He. cbn [mbind go_bind].
  rewrite (next_ok _ _ _ _ He Hu). cbn [ret gwrap mbind go_bind].
  pose proof (len_nonneg r1). rewrite len_app in Hmax.
  destruct (repair_tail c s id _ _ r2 data torn He Hch ltac:(lia)) as (Hpk & p' & Ep & Er & Es);
    [destruct Hb as (_ & _ & _ & ? & _); lia|lia|done|].
  assert (match peekFirstHeaderIfPresent (data ++ torn) with
    | Ok (Some h) => gwrap CodeFailedPrecondition "wal: tail segment has invalid position metadata"
        (ret (validateFirstPosition c id (fh_segmentID h) (fh_sequence h) (fh_prevHash h)))
    | _ => Ret tt end = Ret tt) as ->.
  { destruct (peekFirstHeaderIfPresent _) as [[h|]|]; [by rewrite Hpk|done..]. }
  cbn [mbind go_bind]. rewrite Ep. cbn [errorf ret mbind go_bind]. rewrite Er.
  cbn [call ret mbind go_bind]. rewrite Es. cbn [gerrorf mbind go_bind].
  destruct (accept_ok c s id _ _ r2 data He Hch Hu) as (c' & -> & _);
    [destruct Hb as (_ & _ & _ & ? & _); lia|]. done.
Qed.

(** ** Appending *)

Lemma segs_hash_len s f q p dir recs :
  segs s f q p dir recs → ∀ r, r ∈ recs → length r.(Rec.RecordHash) = 32%nat.
Proof.
  induction 1 as [seg seq prev|seg seq prev recs data dir recs' Hch _ _ _ IH]; intros r Hr.
  - by apply not_elem_of_nil in Hr.
  - apply elem_of_app in Hr as [Hr|Hr]; [|by apply IH]. clear IH.
    induction Hch as [|seq prev off r' recs b data F Hs Hp Hpr Hq Hch IH];
      [by apply not_elem_of_nil in Hr|].
    apply elem_of_cons in Hr as [-> |Hr]; [by eapply framed_hash_len|by apply IH].
Qed.

Lemma prev_len f q p w recs : winv f q p w recs → length (prevHash w) = 32%nat.
Proof.
  intros I. rewrite (wi_prev _ _ _ _ _ I). pose proof (wi_base _ _ _ _ _ I) as (_ & _ & _ & _ & Hp).
  unfold last_hash. destruct (last recs) as [r|] eqn:E; [|done].
  eapply segs_hash_len; [apply I|]. by apply last_Some_elem_of.
Qed.

(** The record that the writer writes next. *)
Lemma next_record f q p w recs payload at_ :
  winv f q p w recs → sequence w ≠ two64 - 1 → 0 < len payload <= maxPayloadBytes → in_i64 at_ →
  ∃ rec b, encodeRecordIntoForSuite (suiteID w) (segmentID w) (u64 (sequence w + 1)) at_
             (prevHash w) payload = Some (b, rec.(Rec.RecordHash)) ∧
    framed rec b ∧ rec.(Rec.CryptoSuite) = suiteID w ∧
    rec.(Rec.Position) = Pos.mk (segmentID w) (offset w) (u64 (sequence w + 1)) ∧
    u64 (sequence w + 1) = q + len recs ∧
    rec.(Rec.PrevHash) = last_hash p recs ∧ rec.(Rec.Payload) = payload ∧ rec.(Rec.UnixNano) = at_.
Proof.
  intros I Hseq Hpay Hat. pose proof (prev_len _ _ _ _ _ I) as Hpl.
  destruct I as [Hb Hs (pre & file & Ed & Eo) Eseq Hmax Eprev _ _ _ [c Hc]].
  pose proof Hb as (_ & _ & _ & Hq & _). pose proof (len_nonneg recs).
  assert (u64 (sequence w + 1) = q + len recs) as Eu.
  { rewrite u64_small; [lia|]. unfold in_u64. lia. }
  rewrite Ed in Hs. apply segs_snoc in Hs as (r1 & r2 & _ & _ & _ & _ & _ & Hu).
  destruct (encodeRecordIntoForSuite (suiteID w) (segmentID w) (u64 (sequence w + 1)) at_
    (prevHash w) payload) as [[b h]|] eqn:E.
  - exists (Rec.mk (suiteID w) (Pos.mk (segmentID w) (offset w) (u64 (sequence w + 1))) at_ payload
      (prevHash w) h), b. split_and!; try done.
    constructor; cbn; try done. apply u64_range.
  - exfalso. revert E. unfold encodeRecordIntoForSuite. rewrite Hc. cbn.
    apply suiteCode_Some in Hc as (_ & _ & Hh). rewrite Hh. done.
Qed.

(** What a commit may do: acknowledge the next record, fail without effect, or
    fail and poison the writer, leaving a crash image of the records, possibly
    with the unacknowledged one. *)
Definition committed (f q : Z) (p : bytes) (w : Writer) (recs : list Rec.t) (payload : bytes)
    (at_ : Z) (out : Writer * go (Pos.t * bytes)) : Prop :=
  match out with
  | (w', Ret (pos, h)) => ∃ rec, winv f q p w' (recs ++ [rec]) ∧ rec.(Rec.Position) = pos ∧
      rec.(Rec.RecordHash) = h ∧ rec.(Rec.Payload) = payload ∧ rec.(Rec.UnixNano) = at_ ∧
      suiteID w' = suiteID w
  | (w', Fail _) => w' = w ∨
      is_Some (stickyErr w') ∧ closed w' = false ∧ suiteID w' = suiteID w ∧
      ∃ more, image (suiteID w) f q p (w_dir w') (recs ++ more) ∧ q + len (recs ++ more) <= two64
  | (_, Stuck) => False
  end.

Lemma write_spec f q p w0 w recs payload at_ io :
  winv f q p w recs → sequence w ≠ two64 - 1 → 0 < len payload <= maxPayloadBytes → in_i64 at_ →
  suiteID w = suiteID w0 → committed f q p w0 recs payload at_ (writeRecord w io at_ payload).
Proof.
  intros I Hseq Hpay Hat Hsu.
  destruct (next_record f q p w recs payload at_ I Hseq Hpay Hat)
    as (rec & b & E & F & Hs & Hpos & Eu & Hpr & Hpl & Hun).
  pose proof I as [Hb Hsegs (pre & file & Ed & Eo) Eseq Hmax Eprev Hop Hst Hcl Hsuite].
  pose proof (framed_len rec b F) as Hlen. pose proof (fr_seq rec b F) as [_ Hrange].
  rewrite Hpos, Eu in Hrange. cbn in Hrange.
  assert (segs (suiteID w) f q p (append_file (w_dir w) b) (recs ++ [rec])) as Hfull.
  { rewrite Ed, append_file_snoc. rewrite Ed in Hsegs.
    eapply segs_append; try done; [|by destruct Hb as (_ & _ & _ & ? & _)].
    by rewrite Hpos, Eo, Eu. }
  unfold writeRecord. rewrite E. destruct io as [|n|].
  - cbn. exists rec. split_and!; try done. constructor; cbn; try done.
    + exists pre, (file ++ b). rewrite Ed, append_file_snoc, Eo, len_app. done.
    + rewrite Eu, len_app, len_cons. change (len (@nil Rec.t)) with 0. lia.
    + by rewrite Eu.
    + unfold last_hash. by rewrite last_snoc.
  - unfold poisoned, poisonLocked, set_files. cbn [stickyErr]. rewrite Hst. cbn. right.
    split_and!; [by eexists|done|done|].
    destruct (decide (n = 0)%nat) as [-> |Hn0].
    + exists []. rewrite take_0, app_nil_r, Ed, append_file_snoc, app_nil_r, <- Ed.
      split; [|lia]. rewrite <- Hsu. apply image_clean; [done|]. rewrite Ed. by destruct pre.
    + destruct (decide (n < length b)%nat).
      * exists []. rewrite app_nil_r. split; [|lia]. rewrite Ed, append_file_snoc, <- Hsu.
        rewrite Ed in Hsegs. eapply image_torn; try done; [lia|]. by rewrite Hpos, Eo, Eu.
      * exists [rec]. rewrite take_ge by lia. split; [rewrite <- Hsu; apply image_clean; [done|]|].
        -- rewrite Ed, append_file_snoc. by destruct pre.
        -- rewrite len_app, len_cons. change (len (@nil Rec.t)) with 0. lia.
  - unfold poisoned, poisonLocked, set_files. cbn [stickyErr]. rewrite Hst. cbn. right.
    split_and!; [by eexists|done|done|]. exists [rec].
    split; [rewrite <- Hsu; apply image_clean; [done|]|].
    + rewrite Ed, append_file_snoc. by destruct pre.
    + rewrite len_app, len_cons. change (len (@nil Rec.t)) with 0. lia.
Qed.

Lemma segment_id f q p w recs : winv f q p w recs → segmentID w + 1 = f + len (w_dir w).
Proof.
  intros [_ Hs (pre & file & Ed & _) _ _ _ _ _ _ _]. rewrite Ed in *.
  apply segs_snoc in Hs as (_ & _ & _ & -> & _). rewrite len_app. cbn. unfold len. cbn. lia.
Qed.

Lemma rotate_spec f q p w recs io :
  winv f q p w recs →
  match rotateLocked w io with
  | (w', Ret _) => winv f q p w' recs ∧ sequence w' = sequence w ∧ suiteID w' = suiteID w
  | (w', Fail _) => w' = w ∨
      is_Some (stickyErr w') ∧ closed w' = false ∧ suiteID w' = suiteID w ∧
      image (suiteID w) f q p (w_dir w') recs
  | (_, Stuck) => False
  end.
Proof.
  intros I. pose proof (segment_id f q p w recs I) as Hid.
  pose proof I as [Hb Hs (pre & file & Ed & Eo) Eseq Hmax Eprev Hop Hst Hcl Hsuite].
  assert (w_dir w ≠ []) as Hne by (rewrite Ed; by destruct pre).
  unfold rotateLocked. destruct (_ =? _) eqn:E; [by left|]. bsimpl.
  assert (in_u64 (segmentID w)) as [Hu0 Hu1].
  { rewrite Ed in Hs. by apply segs_snoc in Hs as (_ & _ & _ & _ & _ & _ & _ & ?). }
  assert (u64 (segmentID w + 1) = f + len (w_dir w)) as Eu.
  { rewrite u64_small; [lia|]. split; lia. }
  assert (segs (suiteID w) f q p (w_dir w ++ [(u64 (segmentID w + 1), [])]) recs) as Hs'.
  { rewrite Eu. apply segs_empty; [done|lia|]. split; lia. }
  destruct io; unfold poisoned, poisonLocked, set_open, set_files; cbn [stickyErr]; rewrite ?Hst; cbn.
  - split_and!; try done. constructor; cbn; try done. by exists (w_dir w), [].
  - right. split_and!; [by eexists|done|done|by apply image_clean].
  - right. split_and!; [by eexists|done|done|by apply image_clean].
  - right. split_and!; [by eexists|done|done|by apply image_clean].
  - right. split_and!; [by eexists|done|done|]. apply image_clean; [done|]. by destruct (w_dir w).
Qed.

Definition append_base (w : Writer) : appendState :=
  mkAppend (segmentID w) (sequence w) (offset w).

(** The position and the next base of a successful write. *)
Lemma write_after f q p w recs io at_ payload w' pos h :
  winv f q p w recs → sequence w ≠ two64 - 1 → 0 < len payload <= maxPayloadBytes → in_i64 at_ →
  writeRecord w io at_ payload = (w', Ret (pos, h)) →
  pos = Pos.mk (segmentID w) (offset w) (u64 (sequence w + 1)) ∧ maxBytes w' = maxBytes w ∧
  append_base w' =
    mkAppend (segmentID w) (u64 (sequence w + 1)) (offset w + recordBytes (len payload)).
Proof.
  intros I Hseq Hpay Hat.
  destruct (next_record f q p w recs payload at_ I Hseq Hpay Hat)
    as (rec & b & E & F & _ & _ & _ & _ & <- & _).
  apply framed_len in F. unfold writeRecord. rewrite E. destruct io as [|n|].
  - injection 1 as <- <- <-. split_and!; [done|done|]. unfold append_base, recordBytes. cbn. by rewrite F.
  - unfold poisoned. by destruct (poisonLocked _ _).
  - unfold poisoned. by destruct (poisonLocked _ _).
Qed.

Lemma commit_guards w ctxErr (payload : bytes) pos :
  (_ ← validatePayloadLength (len payload); _ ← ctx_Err ctxErr; _ ← readyToAppendLocked w;
   nextPositionLocked w (len payload)) = Ok pos →
  0 < len payload <= maxPayloadBytes ∧ sequence w ≠ two64 - 1 ∧
  nextPositionLocked w (len payload) = Ok pos.
Proof.
  unfold validatePayloadLength, readyToAppendLocked. intros E.
  destruct (len payload =? 0) eqn:E0; [done|]. destruct (maxPayloadBytes <? len payload) eqn:E1; [done|].
  destruct ctxErr; [done|]. cbn [ctx_Err mbind result_bind] in E.
  destruct (closed w); [done|]. destruct (stickyErr w); [done|].
  destruct (fileOpen w); [|done]. cbn [negb] in E.
  destruct (sequence w =? two64 - 1) eqn:E2; [done|]. cbn [mbind result_bind] in E. bsimpl.
  pose proof (len_nonneg payload). split_and!; [lia|lia|done|done].
Qed.

Lemma commit_spec f q p w recs io ctxErr payload at_ expected :
  winv f q p w recs → in_i64 at_ →
  committed f q p w recs payload at_ (commitAtExpected w io ctxErr payload at_ expected).
Proof.
  intros I Hat. unfold commitAtExpected.
  destruct (_ ← validatePayloadLength _; _) as [pos|e] eqn:E; [|by left].
  apply commit_guards in E as (Hpay & Hseq & _).
  destruct (bool_decide _); [by left|].
  destruct (_ && _ && _); [|by apply write_spec].
  pose proof (rotate_spec f q p w recs (io_rotate io) I) as R.
  destruct (rotateLocked w (io_rotate io)) as [w1 [[]|e|]]; [|destruct R as [-> |R]|done].
  - destruct R as (I1 & Es & Eu). apply write_spec; try done. by rewrite Es.
  - by left.
  - right. destruct R as (? & ? & ? & Hi). split_and!; try done. exists [].
    rewrite app_nil_r. split; [done|]. pose proof (wi_seq_max _ _ _ _ _ I).
    pose proof (wi_seq _ _ _ _ _ I). lia.
Qed.

(** A record is written where it was announced, and the next one goes where
    [positionAfter] said. *)
Lemma commit_after f q p w recs io ctxErr payload at_ expected w' pos h :
  winv f q p w recs → in_i64 at_ →
  commitAtExpected w io ctxErr payload at_ expected = (w', Ret (pos, h)) →
  pos = expected ∧ maxBytes w' = maxBytes w ∧
  positionAfter w (append_base w) (len payload) = Ok (pos, append_base w').
Proof.
  intros I Hat. unfold commitAtExpected.
  destruct (_ ← validatePayloadLength _; _) as [pos'|e] eqn:E; [|done].
  apply commit_guards in E as (Hpay & Hseq & Hnext).
  destruct (bool_decide _) eqn:Ed; [done|]. apply bool_decide_eq_false, dec_stable in Ed as <-.
  unfold nextPositionLocked in Hnext. revert Hnext. change (append_base w) with
    (mkAppend (segmentID w) (sequence w) (offset w)).
  unfold positionAfter. cbn [as_sequence as_segmentID as_offset].
  rewrite (proj2 (Z.eqb_neq (sequence w) _) Hseq).
  destruct ((0 <? maxBytes w) && (0 <? offset w) && _); cbn [andb].
  - pose proof (rotate_spec f q p w recs (io_rotate io) I) as R. revert R.
    unfold rotateLocked. destruct (segmentID w =? two64 - 1); [done|].
    destruct (io_rotate io); unfold poisoned; try (by destruct (poisonLocked _ _)).
    intros (I1 & Es & _). cbn [mbind result_bind]. intros [= <-] Hw.
    destruct (write_after _ _ _ _ _ _ _ _ _ _ _ I1 Hseq Hpay Hat Hw) as (-> & -> & ->). done.
  - cbn [mbind result_bind]. intros [= <-] Hw.
    by destruct (write_after _ _ _ _ _ _ _ _ _ _ _ I Hseq Hpay Hat Hw) as (-> & -> & ->).
Qed.

(** ** Pruning *)

Lemma chained_segment s seg seq prev off recs data :
  chained s seg seq prev off recs data →
  Forall (λ r, r.(Rec.Position).(Pos.SegmentID) = seg) recs.
Proof.
  induction 1 as [|seq prev off r recs b data F Hs Hp Hpr Hq Hch IH]; constructor; [|done].
  by rewrite Hp.
Qed.

(** The records of a chain are in its segments. *)
Lemma segs_segment s seg seq prev dir recs :
  segs s seg seq prev dir recs →
  Forall (λ r, seg <= r.(Rec.Position).(Pos.SegmentID) < seg + len dir) recs.
Proof.
  induction 1 as [seg seq prev|seg seq prev recs data dir recs' Hch H0 Hu Hs IH]; [constructor|].
  rewrite len_cons. pose proof (len_nonneg dir). apply Forall_app. split.
  - eapply Forall_impl; [by eapply chained_segment|]. cbn. intros r ->. lia.
  - eapply Forall_impl; [exact IH|]. cbn. intros r ?. lia.
Qed.

(** Pruning drops the files before the first one with an id from [k]. *)
Lemma prune_split s k seg seq prev dir recs :
  segs s seg seq prev dir recs →
  ∃ d1 d2, dir = d1 ++ d2 ∧ prune_loop k dir = d2 ∧ Forall (λ x, x.1 < k) d1 ∧
    (d2 ≠ [] → k <= seg + len d1) ∧ (d1 ≠ [] → seg + len d1 <= k).
Proof.
  induction 1 as [seg seq prev|seg seq prev recs data dir recs' Hch H0 Hu Hs IH].
  - by exists [], [].
  - cbn [prune_loop]. destruct (k <=? seg) eqn:E; bsimpl.
    + exists [], ((seg, data) :: dir). split_and!; try done. change (len (@nil (Z * bytes))) with 0. lia.
    + destruct IH as (d1 & d2 & -> & -> & Hd & H1 & H2). exists ((seg, data) :: d1), d2.
      rewrite len_cons. split_and!; [done|done|by constructor|intros Hne; specialize (H1 Hne); lia|].
      intros _. destruct d1 as [|x d1]; [change (len (@nil (Z * bytes))) with 0; lia|].
      specialize (H2 ltac:(done)). lia.
Qed.

Definition set_trust (c : segmentChainState) : segmentChainState :=
  mkChain true (haveSegment c) (lastSegment c) (havePrev c) (expectPrev c) (prevSegment c)
    (ch_lastSequence c).

Lemma read_skip s k d1 d2 c out :
  Forall (λ x : Z * bytes, x.1 < k) d1 →
  readSegments s k (d1 ++ d2) c out =
  readSegments s k d2 (match d1 with [] => c | _ => set_trust c end) out.
Proof.
  intros Hd. revert c. induction Hd as [|[seg file] d1 Hx Hd IH]; intros c; [done|].
  cbn [app readSegments]. cbn in Hx. rewrite (proj2 (Z.ltb_lt seg k) Hx). rewrite IH. by destruct d1.
Qed.

(** Pruning a directory keeps a chain that starts after the records it
    drops; no record hash is zero, or the reader takes the first retained
    record for the first of the log. *)
Lemma prune_segs s f q p dir recs k :
  segs s f q p dir recs → base_ok f q p → Forall (λ r, r.(Rec.RecordHash) ≠ zero_hash) recs →
  let dir' := pruneSegmentsBeforeWithOps dir k in
  dir' ≠ [] →
  ∃ f' old new, recs = old ++ new ∧
    Forall (λ r, r.(Rec.Position).(Pos.SegmentID) < k) old ∧
    Forall (λ r, k <= r.(Rec.Position).(Pos.SegmentID)) new ∧
    segs s f' (q + len old) (last_hash p old) dir' new ∧ base_ok f' (q + len old) (last_hash p old) ∧
    ReadAllDirFrom s dir k = Ret new.
Proof.
  intros Hs Hb Hz. cbn zeta. pose proof Hb as (B1 & B2 & B3 & B4 & B5).
  assert (pruneSegmentsBeforeWithOps dir k = prune_loop k dir) as ->.
  { unfold pruneSegmentsBeforeWithOps. destruct (k <=? 1) eqn:E; [|done]. bsimpl.
    destruct dir as [|[seg file] dir]; [done|]. apply segs_inv in Hs as (_ & _ & _ & -> & _).
    cbn. by rewrite (proj2 (Z.leb_le k f)) by lia. }
  destruct (prune_split s k f q p dir recs Hs) as (d1 & d2 & -> & -> & Hd & H1 & H2). intros Hne.
  specialize (H1 Hne). apply segs_app in Hs as (old & new & -> & Hs1 & Hs2).
  pose proof (len_nonneg d1). pose proof (len_nonneg old).
  assert (base_ok (f + len d1) (q + len old) (last_hash p old)) as Hb'.
  { apply Forall_app in Hz as [Hz _]. unfold last_hash. destruct (last old) as [r|] eqn:El.
    - apply last_Some_elem_of in El as Hin. rewrite Forall_forall in Hz. specialize (Hz r Hin).
      split_and!; [done| |lia|lia|].
      + intros E. destruct d1 as [|x d1]; [|rewrite len_cons in E; pose proof (len_nonneg d1); lia].
        apply segs_nil_inv in Hs1 as ->. done.
      + apply (segs_hash_len _ _ _ _ _ _ Hs1 r Hin).
    - apply last_None in El as ->. change (len (@nil Rec.t)) with 0. rewrite Z.add_0_r.
      split_and!; try done; [|lia]. intros E. apply B2. lia. }
  exists (f + len d1), old, new. split_and!; try done.
  - eapply Forall_impl; [by eapply segs_segment|]. cbn. intros r Hr.
    destruct d1 as [|x d1]; [change (len (@nil (Z * bytes))) with 0 in Hr; lia|].
    specialize (H2 ltac:(done)). lia.
  - eapply Forall_impl; [by eapply segs_segment|]. cbn. intros r Hr. lia.
  - unfold ReadAllDirFrom. rewrite read_skip by done.
    assert (match d1 with [] => chain_init (first_above_one (d1 ++ d2))
      | _ => set_trust (chain_init (first_above_one (d1 ++ d2))) end = chain_init (1 <? f + len d1)) as ->.
    { destruct d1 as [|x d1].
      - cbn [app]. by rewrite (first_above _ _ _ _ _ _ Hs2 Hne).
      - rewrite (proj2 (Z.ltb_lt 1 _)); [done|]. rewrite len_cons. pose proof (len_nonneg d1). lia. }
    rewrite (read_segs _ k _ _ _ _ _ _ [] Hs2 (init_expects _ _ _ Hb')); [done|lia|lia].
Qed.

End proofs.
End waldir_proofs.
