(* ===== verification/WalQueue.v ===== *)
(** * Write-ahead log: append reservations

    Models the FIFO of append reservations of [src/internal/wal/wal.go]
    ([appendReserved], [reserveAppend], [completeReservation],
    [cancelReservation], [drainReservationsLocked], [Close]) and the life of a
    log directory: concurrent appends, cancellations, close, and a restart that
    repairs the directory and opens it again.

    The locks make each of these operations atomic, so a run is a sequence of
    operations.  What a goroutine cannot control, the state of the contexts and
    the outcome of the file operations when a reservation is committed, is an
    argument of the operation ([Env]). *)

From S2P Require Import Prelude TrustErr CryptoSuite Model TrustCrypto Wal WalDir.

Module walqueue.
Import wal waldir.

(** A reservation; [r_id] stands for the identity of the pointer. *)
Record appendReservation := mkReservation {
  r_id : nat;
  r_position : Pos.t;
  r_after : appendState;
  r_payload : bytes;
  r_at : Z;
  r_ready : bool }.

(** What arrives on the result channel of a reservation. *)
Definition appendReservationResult : Type := result (Pos.t * bytes).

(** The writer with its queue; [finished] lists the results delivered so far,
    and [nextID] is the identity of the next reservation. *)
Record State := mkState {
  writer : Writer;
  reservations : list appendReservation;
  finished : list (appendReservation * appendReservationResult);
  nextID : nat }.

Record Env := mkEnv {
  env_ctx : nat → option error;
  env_io : nat → IO }.

Definition set_queue (queue : list appendReservation)
    (done : list (appendReservation * appendReservationResult)) (st : State) : State :=
  mkState (writer st) queue done (nextID st).

Section queue.
Context `{HashLib}.

Definition last_after (st : State) : appendState :=
  match list.last (reservations st) with
  | Some r => r_after r
  | None => mkAppend (segmentID (writer st)) (sequence (writer st)) (offset (writer st))
  end.

Definition reserveAppend (st : State) (payload : bytes) (at_ : Z) : result (appendReservation * State) :=
  _ ← readyToAppendLocked (writer st);
  '(position, after) ← positionAfter (writer st) (last_after st) (len payload);
  let reservation := mkReservation (nextID st) position after payload at_ false in
  Ok (reservation,
      mkState (writer st) (reservations st ++ [reservation]) (finished st) (S (nextID st))).

(** The first part of [appendReserved], up to the call of [prepare]. *)
Definition appendReserved (st : State) (ctxErr : option error) (payload : bytes) (at_ : Z)
  : result (appendReservation * State) :=
  _ ← validatePayloadLength (len payload);
  _ ← ctx_Err ctxErr;
  reserveAppend st payload at_.

Definition invalidate (err : error) (queue : list appendReservation)
  : list (appendReservation * appendReservationResult) :=
  map (λ r, (r, Err err)) queue.

(** [drainReservationsLocked]; [None] when a commit does not return. *)
Fixpoint drain (env : Env) (w : Writer) (queue : list appendReservation)
    (done : list (appendReservation * appendReservationResult)) (next : nat) : option State :=
  match queue with
  | [] => Some (mkState w [] done next)
  | r :: rest =>
      if r_ready r then
        match commitAtExpected w (env_io env (r_id r)) (env_ctx env (r_id r)) (r_payload r) (r_at r)
                (r_position r) with
        | (w, Ret out) => drain env w rest (done ++ [(r, Ok out)]) next
        | (w, Fail err) =>
            Some (mkState w []
                    (done ++ [(r, Err err)] ++ invalidate ErrAppendReservationInvalidated rest) next)
        | (_, Stuck) => None
        end
      else Some (mkState w queue done next)
  end.

Definition drainReservationsLocked (env : Env) (st : State) : option State :=
  drain env (writer st) (reservations st) (finished st) (nextID st).

Fixpoint reservationIndexLocked (id : nat) (queue : list appendReservation) : option nat :=
  match queue with
  | [] => None
  | r :: rest => if decide (r_id r = id) then Some 0%nat else S <$> reservationIndexLocked id rest
  end.

Definition is_finished (id : nat) (st : State) : bool :=
  existsb (λ x, bool_decide (r_id x.1 = id)) (finished st).

(** Finishes the reservation at [index] with [err], invalidates the ones after
    it and drains the ones before it. *)
Definition fail_from (env : Env) (st : State) (index : nat) (err : error) : option State :=
  match reservations st !! index with
  | None => Some st
  | Some r =>
      drainReservationsLocked env
        (set_queue (take index (reservations st))
           (finished st ++ [(r, Err err)]
              ++ invalidate ErrAppendReservationInvalidated (drop (S index) (reservations st))) st)
  end.

Definition set_ready (r : appendReservation) : appendReservation :=
  mkReservation (r_id r) (r_position r) (r_after r) (r_payload r) (r_at r) true.

Definition completeReservation (env : Env) (st : State) (id : nat) (prepareErr : option error)
  : option State :=
  if is_finished id st then Some st else
  match reservationIndexLocked id (reservations st) with
  | None => Some st
  | Some index =>
      match prepareErr with
      | Some err => fail_from env st index err
      | None =>
          drainReservationsLocked env
            (set_queue (alter set_ready index (reservations st)) (finished st) st)
      end
  end.

Definition cancelReservation (env : Env) (st : State) (id : nat) (err : error) : option State :=
  if is_finished id st then Some st else
  match reservationIndexLocked id (reservations st) with
  | None => Some st
  | Some index => fail_from env st index err
  end.

(** [Close]: the queue is invalidated and the file closed. *)
Definition Close (st : State) : State :=
  if closed (writer st) then st else
  let w := writer st in
  mkState
    (mkWriter (w_dir w) (maxBytes w) (segmentID w) (sequence w) (offset w) (prevHash w) false
       (stickyErr w) true (suiteID w))
    [] (finished st ++ invalidate errWriterClosed (reservations st)) (nextID st).

(** ** Runs *)

Inductive event :=
| EReserve (ctxErr : option error) (payload : bytes) (at_ : Z)
| EComplete (env : Env) (id : nat) (prepareErr : option error)
| ECancel (env : Env) (id : nat) (err : error)
| EClose
| ERestart.

(** A restart loses the queue and keeps the directory, which is repaired and
    opened again. *)
Definition restart (opts : Options) (st : State) : option State :=
  match (dir ← repairDirWithOps (w_dir (writer st)); openDirWriterWithOps dir opts) with
  | Ret w => Some (mkState w [] (finished st) (nextID st))
  | _ => None
  end.

Definition step (opts : Options) (st : State) (e : event) : option State :=
  match e with
  | EReserve ctxErr payload at_ =>
      match appendReserved st ctxErr payload at_ with Ok (_, st) => Some st | Err _ => Some st end
  | EComplete env id prepareErr => completeReservation env st id prepareErr
  | ECancel env id err => cancelReservation env st id err
  | EClose => Some (Close st)
  | ERestart => restart opts st
  end.

Fixpoint run (opts : Options) (st : State) (es : list event) : option State :=
  match es with
  | [] => Some st
  | e :: es => st ← step opts st e; run opts st es
  end.

(** A new log: an empty directory is opened. *)
Definition start (opts : Options) : option State :=
  match openDirWriterWithOps [] opts with
  | Ret w => Some (mkState w [] [] 0)
  | _ => None
  end.

(** The acknowledged appends, in the order of their acknowledgements: the
    reservation with its result. *)
Definition acked (done : list (appendReservation * appendReservationResult))
  : list (appendReservation * (Pos.t * bytes)) :=
  omap (λ x, match x.2 with Ok out => Some (x.1, out) | Err _ => None end) done.

End queue.

End walqueue.
