(* ===== verification/WalQueueProofs.v ===== *)
(** * Write-ahead log: theorems on concurrent appends

    Every acknowledged append survives I/O failures, close and restart;
    reservations are committed in FIFO order at the announced positions and
    each gets exactly one result. *)

From Stdlib Require Import Sorting.Sorted.
From S2P Require Import Prelude TrustErr CryptoSuite Model TrustCrypto Wal WalProofs WalDir.
From S2P Require Import WalDirProofs WalQueue.

Module walqueue_proofs.
Import wal wal_proofs waldir waldir_proofs walqueue.

Section proofs.
Context `{HashLib}.

(** ** The queue *)

(** The reservations of the queue follow each other from [base]. *)
Fixpoint qchain (w : Writer) (base : appendState) (queue : list appendReservation) : Prop :=
  match queue with
  | [] => True
  | r :: rest =>
      positionAfter w base (len (r_payload r)) = Ok (r_position r, r_after r) ∧
      0 < len (r_payload r) <= maxPayloadBytes ∧ in_i64 (r_at r) ∧ qchain w (r_after r) rest
  end.

Lemma qchain_max w w' base queue :
  maxBytes w' = maxBytes w → qchain w base queue → qchain w' base queue.
Proof.
  intros E. revert base. induction queue as [|r queue IH]; intros base; [done|].
  cbn. unfold positionAfter. rewrite E. intros (? & ? & ? & ?). split_and!; try done; try lia. by apply IH.
Qed.

Definition queue_end (base : appendState) (queue : list appendReservation) : appendState :=
  match last queue with Some r => r_after r | None => base end.

Lemma queue_end_cons base r queue : queue_end base (r :: queue) = queue_end (r_after r) queue.
Proof. unfold queue_end. rewrite last_cons. by destruct (last queue). Qed.

Lemma qchain_app w base q1 q2 :
  qchain w base (q1 ++ q2) ↔ qchain w base q1 ∧ qchain w (queue_end base q1) q2.
Proof.
  revert base. induction q1 as [|r q1 IH]; intros base; [by cbn; intuition|].
  cbn [app qchain]. rewrite IH, queue_end_cons. intuition.
Qed.

Lemma qchain_alter w base queue i :
  qchain w base queue → qchain w base (alter set_ready i queue).
Proof.
  revert base i. induction queue as [|r queue IH]; intros base i; [done|].
  intros (H1 & H2 & H3 & H4). destruct i; cbn; split_and!; try done; try lia. by apply IH.
Qed.

(** ** The log *)

(** What an acknowledgement says of a record. *)
Definition ack_of (rec : Rec.t) : Pos.t * bytes * bytes * Z :=
  (rec.(Rec.Position), rec.(Rec.RecordHash), rec.(Rec.Payload), rec.(Rec.UnixNano)).

Definition ack_key (x : appendReservation * (Pos.t * bytes)) : Pos.t * bytes * bytes * Z :=
  (x.2.1, x.2.2, r_payload x.1, r_at x.1).

(** The acknowledgements are among the records; without I/O failures they are
    the records. *)
Definition among (clean : bool) (done : list (appendReservation * appendReservationResult))
    (recs : list Rec.t) : Prop :=
  if clean then ack_key <$> acked done = ack_of <$> recs
  else (ack_key <$> acked done) `sublist_of` (ack_of <$> recs).

(** Every acknowledgement carries the position that was announced when the
    append was reserved. *)
Definition announced (done : list (appendReservation * appendReservationResult)) : Prop :=
  Forall (λ x, x.2.1 = r_position x.1) (acked done).

Definition kept (clean : bool) (done : list (appendReservation * appendReservationResult))
    (recs : list Rec.t) : Prop :=
  among clean done recs ∧ announced done.

Lemma acked_app a b : acked (a ++ b) = acked a ++ acked b.
Proof. apply omap_app. Qed.

Lemma acked_invalid e queue : acked (invalidate e queue) = [].
Proof. by induction queue. Qed.

Lemma kept_invalid clean done recs more :
  acked more = [] → kept clean done recs → kept clean (done ++ more) recs.
Proof. intros E. unfold kept, among, announced. by rewrite acked_app, E, app_nil_r. Qed.

Lemma kept_ack clean done recs r h rec :
  kept clean done recs → ack_of rec = (r_position r, h, r_payload r, r_at r) →
  kept clean (done ++ [(r, Ok (r_position r, h))]) (recs ++ [rec]).
Proof.
  unfold kept, among, announced. intros [Hk Ha] E. rewrite acked_app, !fmap_app. cbn. rewrite E. split.
  - destruct clean; [by rewrite Hk|]. by apply sublist_app.
  - apply Forall_app. split; [done|]. by constructor.
Qed.

Lemma kept_more done recs more : kept false done recs → kept false done (recs ++ more).
Proof.
  unfold kept, among. intros [Hk Ha]. split; [|done]. rewrite fmap_app. by apply sublist_inserts_r.
Qed.

(** The state of a log between operations: either the writer works and the
    queue continues its directory, or it is closed or poisoned, with an empty
    queue, and the directory is a crash image. *)
Definition healthy (f : Z) (st : State) (recs : list Rec.t) : Prop :=
  winv f 1 zero_hash (writer st) recs ∧
  qchain (writer st) (append_base (writer st)) (reservations st).

Definition broken (f : Z) (st : State) (recs : list Rec.t) : Prop :=
  reservations st = [] ∧ (closed (writer st) = true ∨ is_Some (stickyErr (writer st))) ∧
  image (suiteID (writer st)) f 1 zero_hash (w_dir (writer st)) recs ∧ 1 + len recs <= two64 ∧
  base_ok f 1 zero_hash.

Definition linv (clean : bool) (s : cryptosuite.ID) (f : Z) (st : State) (recs : list Rec.t) : Prop :=
  suiteID (writer st) = s ∧ is_Some (suiteCode s) ∧ kept clean (finished st) recs ∧
  (healthy f st recs ∨ broken f st recs).

Definition clean_env (env : Env) : Prop := ∀ id, env_io env id = mkIO RotateOk WriteOk.

Lemma commit_clean w ctxErr payload at_ expected w' e :
  commitAtExpected w (mkIO RotateOk WriteOk) ctxErr payload at_ expected = (w', Fail e) → w' = w.
Proof.
  unfold commitAtExpected. destruct (_ ← validatePayloadLength _; _); [|by injection 1].
  destruct (bool_decide _); [by injection 1|]. unfold writeRecord, rotateLocked.
  destruct (_ && _ && _); cbn [io_rotate io_write].
  - destruct (_ =? _); [by injection 1|]. by destruct (encodeRecordIntoForSuite _ _ _ _ _ _) as [[]|].
  - by destruct (encodeRecordIntoForSuite _ _ _ _ _ _) as [[]|].
Qed.

Lemma drain_linv clean s f env queue w done next recs :
  (clean = true → clean_env env) →
  linv clean s f (mkState w queue done next) recs →
  ∃ st' recs', drain env w queue done next = Some st' ∧ linv clean s f st' recs'.
Proof.
  intros Hclean. revert w done recs. induction queue as [|r queue IH]; intros w done recs Hl; [by do 2 eexists|].
  cbn [drain]. destruct (r_ready r) eqn:Er; [|by do 2 eexists].
  destruct Hl as (Hs & Hsc & Hk & [[I Hq]|(? & _)]); [|done].
  cbn [writer reservations finished] in *. destruct Hq as (Hpos & Hpay & Hat & Hq).
  pose proof (commit_spec f 1 zero_hash w recs (env_io env (r_id r)) (env_ctx env (r_id r))
    (r_payload r) (r_at r) (r_position r) I Hat) as C.
  destruct (commitAtExpected w _ _ _ _ _) as [w' [[pos h]|e|]] eqn:E; [| |done].
  - destruct C as (rec & I' & Hp & Hh & Hpl & Hun & Hsu).
    destruct (commit_after _ _ _ _ _ _ _ _ _ _ _ _ _ I Hat E) as (-> & Hmax & Ha).
    apply (IH w' (done ++ [(r, Ok (r_position r, h))]) (recs ++ [rec])).
    split_and!; [by cbn; congruence|done| |].
    + apply kept_ack; [done|]. unfold ack_of. congruence.
    + left. split; [done|]. cbn. rewrite Hpos in Ha. injection Ha as <-.
      by eapply qchain_max.
  - assert (∀ recs', kept clean done recs' → kept clean
      (done ++ [(r, Err e)] ++ invalidate ErrAppendReservationInvalidated queue) recs') as Hk'.
    { intros recs'. apply kept_invalid. cbn. apply acked_invalid. }
    destruct C as [-> |(Hst & Hcl & Hsu & more & Hi & Hm)].
    + eexists _, recs. split; [done|].
      split_and!; [by cbn|done|by apply Hk'|]. left. by split.
    + eexists _, (recs ++ more). split; [done|]. destruct clean.
      * exfalso. rewrite (Hclean eq_refl) in E. apply commit_clean in E as ->.
        rewrite (wi_ok _ _ _ _ _ I) in Hst. by destruct Hst.
      * split_and!; [cbn; congruence|done|by apply Hk', kept_more|]. right.
        split_and!; [done|by right|cbn; rewrite Hsu; exact Hi|exact Hm|apply (wi_base _ _ _ _ _ I)].
Qed.

(** *** Operations *)

Definition event_ok (clean : bool) (e : event) : Prop :=
  match e with
  | EReserve _ _ at_ => in_i64 at_
  | EComplete env _ _ | ECancel env _ _ => clean = true → clean_env env
  | EClose | ERestart => True
  end.

Lemma ready_healthy clean s f st recs :
  linv clean s f st recs → readyToAppendLocked (writer st) = Ok tt → healthy f st recs.
Proof.
  intros (_ & _ & _ & [Hh|(_ & Hb & _)]); [done|]. unfold readyToAppendLocked.
  destruct (closed (writer st)); [done|]. destruct (stickyErr (writer st)); [done|].
  by destruct Hb as [|[]].
Qed.

Lemma reserve_inv st ctxErr payload at_ r st' :
  appendReserved st ctxErr payload at_ = Ok (r, st') →
  0 < len payload <= maxPayloadBytes ∧ readyToAppendLocked (writer st) = Ok tt ∧
  positionAfter (writer st) (last_after st) (len payload) = Ok (r_position r, r_after r) ∧
  r = mkReservation (nextID st) (r_position r) (r_after r) payload at_ false ∧
  st' = mkState (writer st) (reservations st ++ [r]) (finished st) (S (nextID st)).
Proof.
  unfold appendReserved, validatePayloadLength, reserveAppend. intros E.
  destruct (len payload =? 0) eqn:E0; [done|]. destruct (maxPayloadBytes <? len payload) eqn:E1; [done|].
  destruct ctxErr; [done|]. cbn [ctx_Err mbind result_bind] in E.
  destruct (readyToAppendLocked (writer st)) as [[]|] eqn:Er; [|done]. cbn [mbind result_bind] in E.
  destruct (positionAfter _ _ _) as [[pos after]|] eqn:Ep; [|done]. injection E as <- <-. bsimpl.
  pose proof (len_nonneg payload). split_and!; try done; lia.
Qed.

Lemma reserve_linv clean s f st recs ctxErr payload at_ r st' :
  linv clean s f st recs → in_i64 at_ → appendReserved st ctxErr payload at_ = Ok (r, st') →
  linv clean s f st' recs.
Proof.
  intros Hl Hat E. apply reserve_inv in E as (Hpay & Hr & Hpos & Er & ->).
  destruct (ready_healthy _ _ _ _ _ Hl Hr) as [I Hq]. destruct Hl as (Hs & Hsc & Hk & _).
  split_and!; [done|done|done|]. left. split; [done|]. cbn. apply qchain_app. split; [done|].
  rewrite Er. cbn. split_and!; try done; lia.
Qed.

Lemma fail_linv clean s f env st recs i err :
  (clean = true → clean_env env) → linv clean s f st recs →
  ∃ st' recs', fail_from env st i err = Some st' ∧ linv clean s f st' recs'.
Proof.
  intros Hc Hl. unfold fail_from. destruct (reservations st !! i) as [r|] eqn:Ei; [|by do 2 eexists].
  apply (drain_linv clean s f env _ _ _ _ recs Hc). destruct Hl as (Hs & Hsc & Hk & Hst).
  split_and!; [done|done|apply kept_invalid; [apply acked_invalid|done]|]. cbn.
  destruct Hst as [[I Hq]|(Hq & _)]; [|by rewrite Hq in Ei].
  left. split; [done|]. cbn. rewrite <- (take_drop i (reservations st)) in Hq.
  by apply qchain_app in Hq as [? _].
Qed.

Lemma winv_image f w recs :
  winv f 1 zero_hash w recs →
  image (suiteID w) f 1 zero_hash (w_dir w) recs ∧ 1 + len recs <= two64 ∧ base_ok f 1 zero_hash.
Proof.
  intros I. pose proof (wi_seq _ _ _ _ _ I). pose proof (wi_seq_max _ _ _ _ _ I).
  split_and!; [|lia|apply (wi_base _ _ _ _ _ I)]. apply image_clean; [apply I|].
  destruct (wi_last _ _ _ _ _ I) as (pre & ? & -> & _). by destruct pre.
Qed.

Lemma linv_recover clean s f st recs :
  linv clean s f st recs →
  ∃ dir, repairDirWithOps (w_dir (writer st)) = Ret dir ∧ segs s f 1 zero_hash dir recs ∧
    dir ≠ [] ∧ base_ok f 1 zero_hash ∧ 1 + len recs <= two64.
Proof.
  intros (<- & _ & _ & Hst).
  assert (image (suiteID (writer st)) f 1 zero_hash (w_dir (writer st)) recs ∧
    1 + len recs <= two64 ∧ base_ok f 1 zero_hash) as (Hi & Hm & Hb).
  { destruct Hst as [[I _]|(_ & _ & Hb)]; [by apply winv_image|done]. }
  destruct (repair_image _ _ _ _ _ _ Hi Hb Hm) as (dir & Hr & Hs & Hne). by exists dir.
Qed.

Lemma step_linv clean s f opts st recs e :
  CryptoSuite opts = s → linv clean s f st recs → event_ok clean e →
  ∃ st' recs', step opts st e = Some st' ∧ linv clean s f st' recs'.
Proof.
  intros Ho Hl He. destruct e as [ctxErr payload at_|env id prepareErr|env id err| |]; cbn [step].
  - destruct (appendReserved _ _ _ _) as [[r st']|] eqn:E; [|by do 2 eexists].
    exists st', recs. split; [done|]. by eapply reserve_linv.
  - unfold completeReservation. destruct (is_finished id st); [by do 2 eexists|].
    destruct (reservationIndexLocked _ _) as [i|]; [|by do 2 eexists].
    destruct prepareErr as [err|]; [by apply fail_linv with recs|].
    apply (drain_linv clean s f env _ _ _ _ recs He). destruct Hl as (Hs & Hsc & Hk & Hst).
    split_and!; [done..|]. destruct Hst as [[I Hq]|(Hq & Hb)].
    + left. split; [done|]. by apply qchain_alter.
    + right. split; [|done]. cbn. by rewrite Hq.
  - unfold cancelReservation. destruct (is_finished id st); [by do 2 eexists|].
    destruct (reservationIndexLocked _ _) as [i|]; [|by do 2 eexists]. by apply fail_linv with recs.
  - exists (Close st), recs. split; [done|]. unfold Close. destruct (closed (writer st)); [done|].
    destruct Hl as (Hs & Hsc & Hk & Hst).
    split_and!; [done|done|apply kept_invalid; [apply acked_invalid|done]|]. right.
    destruct Hst as [[I _]|(_ & _ & Hi)]; [|by split_and!; [|left|apply Hi..]].
    split; [done|]. split; [by left|]. exact (winv_image f (writer st) recs I).
  - destruct (linv_recover _ _ _ _ _ Hl) as (dir & Hr & Hsegs & Hne & Hb & Hm).
    destruct Hl as (Hs & Hsc & Hk & _).
    destruct (open_dir s f 1 zero_hash dir recs opts) as (w & Hw & I & _ & Hsu); try done.
    exists (mkState w [] (finished st) (nextID st)), recs. unfold restart. rewrite Hr.
    cbn [mbind go_bind]. rewrite Hw. split; [done|]. split_and!; [done|done|done|]. left. by split.
Qed.

Lemma run_linv clean f opts es st recs :
  linv clean (CryptoSuite opts) f st recs → Forall (event_ok clean) es →
  ∃ st' recs', run opts st es = Some st' ∧ linv clean (CryptoSuite opts) f st' recs'.
Proof.
  revert st recs. induction es as [|e es IH]; intros st recs Hl Hes; [by do 2 eexists|].
  apply Forall_cons in Hes as [He Hes].
  destruct (step_linv clean _ f opts st recs e eq_refl Hl He) as (st1 & recs1 & E & Hl1).
  cbn [run]. rewrite E. by apply (IH st1 recs1).
Qed.

(** A run from a new log. *)
Lemma run_linv_fresh clean opts es :
  in_u64 (InitialSegmentID opts) → is_Some (suiteCode (CryptoSuite opts)) →
  Forall (event_ok clean) es →
  ∃ st f recs, (st0 ← start opts; run opts st0 es) = Some st ∧
    linv clean (CryptoSuite opts) f st recs.
Proof.
  intros Hi Hs Hes. destruct (open_fresh opts Hi Hs) as (f & w & Hw & Hsu & I).
  unfold start. rewrite Hw. cbn [mbind option_bind].
  destruct (run_linv clean f opts es (mkState w [] [] 0) []) as (st & recs & E & Hl); [|done|by exists st, f, recs].
  split_and!; [done|done|split; [destruct clean; [done|constructor]|constructor]|]. left. by split.
Qed.

(** What the directory of a run reads as after a repair. *)
Lemma run_recovers clean opts es :
  in_u64 (InitialSegmentID opts) → is_Some (suiteCode (CryptoSuite opts)) →
  Forall (event_ok clean) es →
  ∃ st dir recs, (st0 ← start opts; run opts st0 es) = Some st ∧
    repairDirWithOps (w_dir (writer st)) = Ret dir ∧ ReadAllDir (CryptoSuite opts) dir = Ret recs ∧
    among clean (finished st) recs.
Proof.
  intros Hi Hs Hes. destruct (run_linv_fresh clean opts es Hi Hs Hes) as (st & f & recs & E & Hl).
  destruct (linv_recover _ _ _ _ _ Hl) as (dir & Hr & Hsegs & Hne & Hb & Hm).
  exists st, dir, recs. split_and!; [done|done|by eapply ReadAllDir_segs|by apply Hl].
Qed.

(** C1: no acknowledged append is lost.  Open a new log and run any sequence of
    reservations, completions, cancellations, closes and restarts, in any
    order, with contexts that expire, file operations that fail during
    rotation, writes that leave any part of a record in the file, and syncs
    that fail.  Every operation returns, and repairing the directory afterwards
    and reading it succeeds with a list of records that contains every
    acknowledged append, in the order of the acknowledgements, with the
    position, the hash, the payload and the time it was acknowledged with. *)
Theorem acked_records_survive opts es :
  in_u64 (InitialSegmentID opts) → is_Some (suiteCode (CryptoSuite opts)) →
  Forall (event_ok false) es →
  ∃ st dir recs, (st0 ← start opts; run opts st0 es) = Some st ∧
    repairDirWithOps (w_dir (writer st)) = Ret dir ∧ ReadAllDir (CryptoSuite opts) dir = Ret recs ∧
    (ack_key <$> acked (finished st)) `sublist_of` (ack_of <$> recs).
Proof. apply run_recovers. Qed.

(** C37: without I/O failures the log holds exactly the acknowledged appends.
    Whatever the interleaving of reservations, completions, failed
    preparations, cancellations, closes and restarts, the records of the
    directory are the acknowledged appends, in order: an append that reported
    an error left nothing behind. *)
Theorem clean_log_is_acked opts es :
  in_u64 (InitialSegmentID opts) → is_Some (suiteCode (CryptoSuite opts)) →
  Forall (event_ok true) es →
  ∃ st dir recs, (st0 ← start opts; run opts st0 es) = Some st ∧
    repairDirWithOps (w_dir (writer st)) = Ret dir ∧ ReadAllDir (CryptoSuite opts) dir = Ret recs ∧
    ack_key <$> acked (finished st) = ack_of <$> recs.
Proof. apply run_recovers. Qed.

(** ** Pruning *)

(** Pruning keeps the records of the retained segments.  Take the directory
    of any run, repaired, with records [recs] (none of whose hashes is zero),
    and remove its segments before [k], keeping at least one.  What is left
    reads as the records of [recs] in segments from [k] on, the same that
    [ReadAllDirFrom] with bound [k] returns on the whole directory; the others
    were all in segments before [k].  If a record is left, the directory can be
    opened again, and the writer continues the sequence numbers and the hash
    chain of the whole log. *)
Theorem prune_keeps_suffix opts es k :
  in_u64 (InitialSegmentID opts) → is_Some (suiteCode (CryptoSuite opts)) →
  Forall (event_ok false) es →
  ∃ st dir recs, (st0 ← start opts; run opts st0 es) = Some st ∧
    repairDirWithOps (w_dir (writer st)) = Ret dir ∧ ReadAllDir (CryptoSuite opts) dir = Ret recs ∧
    let dir' := pruneSegmentsBeforeWithOps dir k in
    (Forall (λ r, r.(Rec.RecordHash) ≠ zero_hash) recs → dir' ≠ [] →
     ∃ old new, recs = old ++ new ∧
       Forall (λ r, r.(Rec.Position).(Pos.SegmentID) < k) old ∧
       Forall (λ r, k <= r.(Rec.Position).(Pos.SegmentID)) new ∧
       ReadAllDir (CryptoSuite opts) dir' = Ret new ∧
       ReadAllDirFrom (CryptoSuite opts) dir k = Ret new ∧
       (new ≠ [] → ∃ w, openDirWriterWithOps dir' opts = Ret w ∧ sequence w = len recs ∧
          prevHash w = last_hash zero_hash recs)).
Proof.
  intros Hi Hs Hes. destruct (run_linv_fresh false opts es Hi Hs Hes) as (st & f & recs & E & Hl).
  destruct (linv_recover _ _ _ _ _ Hl) as (dir & Hr & Hsegs & Hne & Hb & Hm).
  exists st, dir, recs. split_and!; [done|done|by eapply ReadAllDir_segs|]. cbn zeta. intros Hz Hne'.
  destruct (prune_segs _ _ _ _ _ _ k Hsegs Hb Hz Hne')
    as (f' & old & new & -> & Ho & Hn & Hs' & Hb' & Hread).
  exists old, new. split_and!; try done; [by eapply ReadAllDir_segs|]. intros Hnew.
  rewrite len_app in Hm. pose proof (len_nonneg new).
  destruct (open_dir _ _ _ _ _ _ opts Hs' Hb' Hne') as (w & Hw & I & _); try done; [lia|].
  exists w. split; [done|]. rewrite (wi_seq _ _ _ _ _ I), (wi_prev _ _ _ _ _ I), last_hash_app, len_app.
  split; [lia|done].
Qed.

(** When every retained segment is empty, the sequence and the chain start
    again: a directory whose files are all empty opens at sequence 0 with a
    zero previous hash, whatever was pruned before it. *)
Lemma empty_suffix_restarts opts seg :
  0 < seg → in_u64 seg → is_Some (suiteCode (CryptoSuite opts)) →
  ∃ w, openDirWriterWithOps [(seg, [])] opts = Ret w ∧ segmentID w = seg ∧ sequence w = 0 ∧
    prevHash w = zero_hash.
Proof.
  intros H0 Hu Hs.
  destruct (open_dir (CryptoSuite opts) seg 1 zero_hash [(seg, [])] [] opts)
    as (w & Hw & I & Hd & _); try done.
  - apply segs_single. split; [constructor|done].
  - exists w. split_and!; [done| |apply (wi_seq _ _ _ _ _ I)|apply (wi_prev _ _ _ _ _ I)].
    destruct (wi_last _ _ _ _ _ I) as (pre & file & E & _). rewrite Hd in E.
    destruct pre as [|? []]; by inversion E.
Qed.

(** ** Reservations *)

Definition ids (queue : list appendReservation) : list nat := r_id <$> queue.
Definition finished_ids (done : list (appendReservation * appendReservationResult)) : list nat :=
  ids (fst <$> done).
Definition acked_ids (done : list (appendReservation * appendReservationResult)) : list nat :=
  ids (fst <$> acked done).

Definition head_waits (queue : list appendReservation) : Prop :=
  match queue with [] => True | r :: _ => r_ready r = false end.

(** Draining moves reservations from the queue to the finished ones, commits
    them in order and stops at one that is not ready. *)
Lemma drain_ids env queue w done next st' :
  drain env w queue done next = Some st' →
  finished_ids (finished st') ++ ids (reservations st') = finished_ids done ++ ids queue ∧
  (∃ more, acked_ids (finished st') = acked_ids done ++ more ∧
    (more ++ ids (reservations st')) `sublist_of` ids queue) ∧
  head_waits (reservations st') ∧ nextID st' = next.
Proof.
  revert w done. induction queue as [|r queue IH]; intros w done; cbn [drain].
  { intros [= <-]. split_and!; try done. exists []. by rewrite app_nil_r. }
  destruct (r_ready r) eqn:Er.
  - destruct (commitAtExpected w _ _ _ _ _) as [w' [out|e|]]; [| |done].
    + intros E. destruct (IH _ _ E) as (E1 & (more & E2 & Hsub) & Hw & Hn).
      split_and!; [|exists (r_id r :: more)|done|done].
      * rewrite E1. unfold finished_ids, ids. rewrite !fmap_app, <- app_assoc. done.
      * rewrite E2. unfold acked_ids, ids. rewrite acked_app, !fmap_app, <- app_assoc.
        split; [done|]. cbn. by constructor.
    + intros [= <-]. cbn [finished reservations nextID]. split_and!; [|exists []|done|done].
      * unfold finished_ids, ids, invalidate. rewrite !fmap_app, app_nil_r. f_equal. cbn. f_equal.
        rewrite <- !list_fmap_compose. done.
      * unfold acked_ids. rewrite acked_app. cbn [acked omap list_omap app].
        change (omap _ (invalidate _ queue)) with (acked (invalidate ErrAppendReservationInvalidated queue)).
        rewrite acked_invalid, !app_nil_r. split; [done|]. apply sublist_nil_l.
  - intros [= <-]. split_and!; [done| |done|done]. exists []. rewrite app_nil_r. done.
Qed.

Lemma sorted_snoc (l : list nat) n : StronglySorted lt l → (∀ x, x ∈ l → (x < n)%nat) → StronglySorted lt (l ++ [n]).
Proof.
  induction l as [|x l IH]; intros Hl Hn; cbn; [by repeat constructor|].
  apply StronglySorted_inv in Hl as [Hl Hx]. constructor.
  - apply IH; [done|]. intros y Hy. apply Hn. by right.
  - apply Forall_app. split; [done|]. repeat constructor. apply Hn. by left.
Qed.

(** Every reservation is queued or finished, once; the acknowledged and the
    queued ones are in the order of their reservation; the queue waits for its
    head. *)
Definition idinv (st : State) : Prop :=
  finished_ids (finished st) ++ ids (reservations st) ≡ₚ seq 0 (nextID st) ∧
  StronglySorted lt (acked_ids (finished st) ++ ids (reservations st)) ∧
  head_waits (reservations st).

Lemma drain_idinv env w queue done next st' :
  finished_ids done ++ ids queue ≡ₚ seq 0 next → StronglySorted lt (acked_ids done ++ ids queue) →
  drain env w queue done next = Some st' → idinv st'.
Proof.
  intros Hp Hs E. destruct (drain_ids _ _ _ _ _ _ E) as (E1 & (more & E2 & Hsub) & Hw & Hn).
  split_and!; [by rewrite E1, Hn| |done]. rewrite E2, <- app_assoc.
  eapply sorted_sublist; [|exact Hs]. by apply sublist_app.
Qed.

Lemma finished_ids_app a b : finished_ids (a ++ b) = finished_ids a ++ finished_ids b.
Proof. unfold finished_ids, ids. by rewrite !fmap_app. Qed.

Lemma finished_ids_invalid e queue : finished_ids (invalidate e queue) = ids queue.
Proof. unfold finished_ids, ids, invalidate. rewrite <- !list_fmap_compose. done. Qed.

Lemma acked_ids_invalid done more : acked more = [] → acked_ids (done ++ more) = acked_ids done.
Proof. intros E. unfold acked_ids. by rewrite acked_app, E, app_nil_r. Qed.

Lemma ids_app a b : ids (a ++ b) = ids a ++ ids b.
Proof. apply fmap_app. Qed.

Lemma ids_alter i queue : ids (alter set_ready i queue) = ids queue.
Proof. revert i. induction queue as [|r queue IH]; intros [|i]; [done|done|done|]. cbn. f_equal. apply IH. Qed.

Lemma fail_idinv env st i err st' :
  idinv st → fail_from env st i err = Some st' → idinv st'.
Proof.
  intros (Hp & Hs & Hw). unfold fail_from. destruct (reservations st !! i) as [r|] eqn:Ei; [|by intros [= <-]].
  pose proof (take_drop_middle _ _ _ Ei) as Eq. apply drain_idinv; cbn [set_queue reservations finished].
  - rewrite <- Hp, !finished_ids_app, finished_ids_invalid. rewrite <- Eq at 3. rewrite !ids_app.
    cbn. solve_Permutation.
  - rewrite acked_ids_invalid by apply acked_invalid. eapply sorted_sublist; [|exact Hs].
    apply sublist_app; [done|]. rewrite <- Eq at 2. rewrite ids_app. by apply sublist_inserts_r.
Qed.

Lemma acked_sub done : acked_ids done `sublist_of` finished_ids done.
Proof.
  induction done as [|[r [out|e]] done IH]; [constructor| |]; cbn; by constructor.
Qed.

Definition not_restart (e : event) : Prop := match e with ERestart => False | _ => True end.

Lemma step_idinv opts st e st' : idinv st → not_restart e → step opts st e = Some st' → idinv st'.
Proof.
  intros Hi He. destruct e as [ctxErr payload at_|env id prepareErr|env id err| |]; cbn [step]; [| | | |done].
  - destruct (appendReserved _ _ _ _) as [[r st1]|] eqn:E; [|by intros [= <-]]. intros [= <-].
    apply reserve_inv in E as (_ & _ & _ & Er & ->). destruct Hi as (Hp & Hs & Hw).
    assert (r_id r = nextID st) as Eid by by rewrite Er.
    split_and!; cbn [finished reservations nextID].
    + rewrite ids_app, app_assoc, Hp, seq_S, <- Eid. done.
    + rewrite ids_app, app_assoc. cbn. rewrite Eid. apply sorted_snoc; [done|]. intros x Hx.
      assert (x ∈ seq 0 (nextID st)) as Hin; [|apply elem_of_seq in Hin; lia].
      rewrite <- Hp. apply elem_of_app in Hx as [Hx|Hx]; apply elem_of_app; [left|by right].
      eapply elem_of_sublist; [|apply acked_sub]. done.
    + destruct (reservations st); [|done]. cbn. by rewrite Er.
  - unfold completeReservation. destruct (is_finished id st); [by intros [= <-]|].
    destruct (reservationIndexLocked _ _) as [i|]; [|by intros [= <-]].
    destruct prepareErr as [err|]; [by apply fail_idinv|]. destruct Hi as (Hp & Hs & Hw).
    apply drain_idinv; cbn [set_queue reservations finished nextID writer]; by rewrite ids_alter.
  - unfold cancelReservation. destruct (is_finished id st); [by intros [= <-]|].
    destruct (reservationIndexLocked _ _) as [i|]; [|by intros [= <-]]. by apply fail_idinv.
  - intros [= <-]. unfold Close. destruct (closed _); [done|]. destruct Hi as (Hp & Hs & Hw).
    split_and!; [| |done]; cbn [finished reservations nextID].
    + by rewrite finished_ids_app, finished_ids_invalid, app_nil_r.
    + rewrite acked_ids_invalid by apply acked_invalid. rewrite app_nil_r.
      eapply sorted_sublist; [|exact Hs]. by apply sublist_inserts_r.
Qed.

Lemma run_idinv opts es st st' :
  idinv st → Forall not_restart es → run opts st es = Some st' → idinv st'.
Proof.
  revert st. induction es as [|e es IH]; intros st Hi Hes; cbn [run]; [by intros [= <-]|].
  apply Forall_cons in Hes as [He Hes]. destruct (step opts st e) as [st1|] eqn:E; [|done].
  apply IH; [|done]. by eapply step_idinv.
Qed.

Lemma run_idinv_fresh opts es st :
  Forall not_restart es → (st0 ← start opts; run opts st0 es) = Some st → idinv st.
Proof.
  intros Hes. unfold start. destruct (openDirWriterWithOps [] opts) as [w| |]; [|done..].
  cbn [mbind option_bind]. apply run_idinv; [|done]. split_and!; [done|constructor|done].
Qed.

(** Reservations are served in order.  In any run of one process (no
    restart), with any failures: every reservation has either exactly one
    result or exactly one place in the queue; the acknowledged reservations are
    in the order in which they were made, and all of them before the queued
    ones; the queue never waits for a reservation that is ready at its head;
    and every acknowledgement carries the position that was announced to the
    caller's [prepare] callback. *)
Theorem reservations_fifo opts es :
  in_u64 (InitialSegmentID opts) → is_Some (suiteCode (CryptoSuite opts)) →
  Forall (event_ok false) es → Forall not_restart es →
  ∃ st, (st0 ← start opts; run opts st0 es) = Some st ∧
    finished_ids (finished st) ++ ids (reservations st) ≡ₚ seq 0 (nextID st) ∧
    StronglySorted lt (acked_ids (finished st) ++ ids (reservations st)) ∧
    head_waits (reservations st) ∧ announced (finished st).
Proof.
  intros Hi Hs Hes Hr. destruct (run_linv_fresh false opts es Hi Hs Hes) as (st & f & recs & E & Hl).
  exists st. destruct (run_idinv_fresh opts es st Hr E) as (? & ? & ?).
  split_and!; try done. apply Hl.
Qed.

(** ** Progress *)

Lemma commit_progress f q p w recs payload at_ pos after :
  winv f q p w recs → in_i64 at_ → 0 < len payload <= maxPayloadBytes →
  positionAfter w (append_base w) (len payload) = Ok (pos, after) →
  ∃ w' h, commitAtExpected w (mkIO RotateOk WriteOk) None payload at_ pos = (w', Ret (pos, h)).
Proof.
  intros I Hat Hpay Hpos.
  assert (sequence w ≠ two64 - 1) as Hseq.
  { intros E. revert Hpos. unfold positionAfter, append_base. cbn [as_sequence]. by rewrite E, Z.eqb_refl. }
  assert ((_ ← validatePayloadLength (len payload); _ ← ctx_Err None; _ ← readyToAppendLocked w;
    nextPositionLocked w (len payload)) = Ok pos) as Hg.
  { unfold validatePayloadLength, readyToAppendLocked, nextPositionLocked. fold (append_base w).
    rewrite (proj2 (Z.eqb_neq (len payload) 0)), (proj2 (Z.ltb_ge _ _)) by lia.
    rewrite (wi_closed _ _ _ _ _ I), (wi_ok _ _ _ _ _ I), (wi_open _ _ _ _ _ I).
    cbn [negb ctx_Err mbind result_bind]. rewrite (proj2 (Z.eqb_neq _ _) Hseq). cbn [mbind result_bind].
    by rewrite Hpos. }
  pose proof (commit_spec f q p w recs (mkIO RotateOk WriteOk) None payload at_ pos I Hat) as C.
  destruct (commitAtExpected w _ _ _ _ _) as [w' [[pos' h]|e|]] eqn:E; [| |done].
  - destruct (commit_after _ _ _ _ _ _ _ _ _ _ _ _ _ I Hat E) as (-> & _ & _). by exists w', h.
  - exfalso. revert E. unfold commitAtExpected. rewrite Hg, bool_decide_eq_false_2 by naive_solver.
    pose proof (next_record f q p) as N. unfold positionAfter, append_base in Hpos. cbn [as_sequence as_segmentID as_offset] in Hpos.
    rewrite (proj2 (Z.eqb_neq (sequence w) _) Hseq) in Hpos.
    destruct ((0 <? maxBytes w) && (0 <? offset w) && _); cbn [andb] in Hpos.
    + pose proof (rotate_spec f q p w recs RotateOk I) as R. revert R. cbn [io_rotate io_write].
      unfold rotateLocked. destruct (segmentID w =? two64 - 1); [done|]. intros (I1 & Es & _).
      destruct (N _ _ payload at_ I1 Hseq Hpay Hat) as (rec & b & Ee & _). unfold writeRecord. by rewrite Ee.
    + destruct (N _ _ payload at_ I Hseq Hpay Hat) as (rec & b & Ee & _). unfold writeRecord. by rewrite Ee.
Qed.

Definition live_env (env : Env) : Prop := clean_env env ∧ ∀ id, env_ctx env id = None.

Definition pending (queue : list appendReservation) : list nat :=
  ids (filter (λ r, r_ready r = false) queue).

(** With live contexts and working files, draining commits the ready prefix. *)
Lemma drain_good f env queue w done next recs :
  live_env env → winv f 1 zero_hash w recs → qchain w (append_base w) queue →
  ∃ st' recs' pre suf, drain env w queue done next = Some st' ∧ queue = pre ++ suf ∧
    pending pre = [] ∧ reservations st' = suf ∧
    winv f 1 zero_hash (writer st') recs' ∧ qchain (writer st') (append_base (writer st')) suf ∧
    acked_ids (finished st') = acked_ids done ++ ids pre.
Proof.
  intros [Hc Hx]. revert w done recs. induction queue as [|r queue IH]; intros w done recs I Hq; cbn [drain].
  { eexists _, recs, [], []. split_and!; try done. symmetry. apply app_nil_r. }
  destruct (r_ready r) eqn:Er.
  - destruct Hq as (Hpos & Hpay & Hat & Hq).
    destruct (commit_progress _ _ _ _ _ _ _ _ _ I Hat Hpay Hpos) as (w' & h & E).
    rewrite Hc, Hx, E. pose proof (commit_spec f 1 zero_hash w recs (mkIO RotateOk WriteOk) None
      (r_payload r) (r_at r) (r_position r) I Hat) as C. rewrite E in C.
    destruct C as (rec & I' & _).
    destruct (commit_after _ _ _ _ _ _ _ _ _ _ _ _ _ I Hat E) as (_ & Hmax & Ha).
    rewrite Hpos in Ha. injection Ha as Ha. rewrite Ha in Hq.
    destruct (IH w' (done ++ [(r, Ok (r_position r, h))]) _ I' (qchain_max _ _ _ _ Hmax Hq))
      as (st' & recs' & pre & suf & -> & -> & Hp & Hs & I2 & Hq2 & Hack).
    exists st', recs', (r :: pre), suf. split_and!; try done.
    + unfold pending. rewrite filter_cons_False by congruence. exact Hp.
    + rewrite Hack. unfold acked_ids, ids. rewrite acked_app, !fmap_app, <- app_assoc. done.
  - eexists _, recs, [], (r :: queue). split_and!; try done. symmetry. apply app_nil_r.
Qed.

Lemma pending_alter i queue r :
  queue !! i = Some r → r_ready r = false →
  pending queue ≡ₚ r_id r :: pending (alter set_ready i queue).
Proof.
  revert i. induction queue as [|r' queue IH]; intros [|i] Ei Er; [done|done| |].
  - injection Ei as ->. unfold pending. cbn [alter list_alter].
    rewrite filter_cons_True, filter_cons_False by done. done.
  - cbn [alter list_alter]. specialize (IH i Ei Er). unfold pending in *. rewrite !filter_cons.
    destruct (decide (r_ready r' = false)); [|done].
    cbn [ids fmap list_fmap]. rewrite Permutation_swap. by apply Permutation_cons.
Qed.

Lemma index_of id queue i r :
  queue !! i = Some r → r_id r = id → NoDup (ids queue) → reservationIndexLocked id queue = Some i.
Proof.
  intros Ei <-. revert i Ei. induction queue as [|r' queue IH]; intros [|i] Ei Hn; [done|done| |];
    apply NoDup_cons in Hn as [Hx Hn]; cbn [reservationIndexLocked].
  - injection Ei as ->. by rewrite decide_True.
  - rewrite decide_False; [by rewrite (IH i Ei Hn)|]. intros E. apply Hx. fold (ids queue) in *. rewrite E.
    apply list_elem_of_fmap. exists r. split; [done|]. by eapply list_elem_of_lookup_2.
Qed.

Lemma pending_app a b : pending (a ++ b) = pending a ++ pending b.
Proof. unfold pending. by rewrite filter_app, ids_app. Qed.

Lemma not_finished st r i :
  idinv st → reservations st !! i = Some r → is_finished (r_id r) st = false ∧ NoDup (ids (reservations st)).
Proof.
  intros (Hp & _ & _) Ei.
  assert (NoDup (finished_ids (finished st) ++ ids (reservations st))) as Hn
    by (rewrite Hp; apply NoDup_seq).
  apply NoDup_app in Hn as (_ & Hd & Hn). split; [|done]. apply not_true_iff_false. intros E.
  apply existsb_exists in E as (x & Hx & E). apply bool_decide_eq_true in E.
  apply (Hd (r_id r)).
  - apply list_elem_of_fmap. exists x.1. split; [done|]. apply list_elem_of_fmap. exists x.
    split; [done|]. by apply list_elem_of_In.
  - apply list_elem_of_fmap. exists r. split; [done|]. by eapply list_elem_of_lookup_2.
Qed.

Definition completions (env : Env) (order : list nat) : list event :=
  (λ id, EComplete env id None) <$> order.

Lemma complete_all f opts env order st recs :
  live_env env → healthy f st recs → idinv st → order ≡ₚ pending (reservations st) →
  ∃ st', run opts st (completions env order) = Some st' ∧ reservations st' = [] ∧
    acked_ids (finished st') = acked_ids (finished st) ++ ids (reservations st).
Proof.
  intros He. revert st recs. induction order as [|id order IH]; intros st recs [I Hq] Hi Hp.
  - exists st. split; [done|]. destruct Hi as (_ & _ & Hw). destruct (reservations st) as [|r q] eqn:E.
    + split; [done|]. symmetry. apply app_nil_r.
    + exfalso. cbn in Hw. unfold pending in Hp. rewrite filter_cons_True in Hp by done.
      by apply Permutation_nil_l in Hp.
  - assert (id ∈ pending (reservations st)) as Hin by (rewrite <- Hp; by left).
    apply list_elem_of_fmap in Hin as (r & -> & Hr). apply list_elem_of_filter in Hr as [Er Hr].
    apply list_elem_of_lookup in Hr as [i Ei].
    destruct (not_finished st r i Hi Ei) as [Hf Hn].
    change (completions env (r_id r :: order))
      with (EComplete env (r_id r) None :: completions env order).
    cbn [run step]. unfold completeReservation.
    rewrite Hf, (index_of _ _ _ _ Ei eq_refl Hn).
    destruct (drain_good f env (alter set_ready i (reservations st)) (writer st) (finished st)
      (nextID st) recs He I (qchain_alter _ _ _ i Hq))
      as (st1 & recs1 & pre & suf & E & Eq & Hpre & Hs & I1 & Hq1 & Hack).
    unfold drainReservationsLocked. cbn [set_queue writer reservations finished nextID].
    rewrite E. cbn [mbind option_bind].
    assert (idinv st1) as Hi1.
    { destruct Hi as (Hp1 & Hs1 & _). eapply drain_idinv; [..|exact E]; by rewrite ids_alter. }
    destruct (IH st1 recs1) as (st' & -> & Hr' & Hack').
    + by split; rewrite ?Hs.
    + done.
    + rewrite Hs. pose proof (pending_alter i _ r Ei Er) as Ha. rewrite Eq, pending_app, Hpre in Ha.
      rewrite <- Hp in Ha. by apply Permutation_cons_inv in Ha.
    + exists st'. split_and!; [done|done|]. rewrite Hack', Hack, Hs, <- app_assoc, <- ids_app, <- Eq.
      by rewrite ids_alter.
Qed.

(** C32: completions commit everything in FIFO order.  After any run of one
    process, while the writer is open and not poisoned, if the callers of the
    reservations that are not ready yet complete them, in whatever order, with
    live contexts and working files, then every queued append is acknowledged,
    in the order of the reservations, at its announced position, and the queue
    is empty: no reservation is invalidated because another one completed
    before or after it. *)
Theorem completions_commit_all opts es env order :
  in_u64 (InitialSegmentID opts) → is_Some (suiteCode (CryptoSuite opts)) →
  Forall (event_ok false) es → Forall not_restart es → live_env env →
  ∃ st, (st0 ← start opts; run opts st0 es) = Some st ∧
    (readyToAppendLocked (writer st) = Ok tt → order ≡ₚ pending (reservations st) →
     ∃ st', run opts st (completions env order) = Some st' ∧ reservations st' = [] ∧
       announced (finished st') ∧
       acked_ids (finished st') = acked_ids (finished st) ++ ids (reservations st)).
Proof.
  intros Hi Hs Hes Hr He.
  destruct (run_linv_fresh false opts es Hi Hs Hes) as (st & f & recs & E & Hl).
  exists st. split; [done|]. intros Hready Hp. pose proof (ready_healthy _ _ _ _ _ Hl Hready) as Hh.
  destruct (complete_all f opts env order st recs He Hh (run_idinv_fresh opts es st Hr E) Hp)
    as (st' & E' & Hq & Hack).
  exists st'. split_and!; try done.
  destruct (run_linv false f opts (completions env order) st recs Hl) as (st2 & recs2 & E2 & Hl2).
  - apply Forall_fmap, Forall_forall. intros id _. cbn. by destruct He.
  - rewrite E' in E2. injection E2 as <-. apply Hl2.
Qed.

End proofs.
End walqueue_proofs.
