(* ===== verification/WalExamples.v ===== *)
(** * Write-ahead log: concrete runs

    Witnesses of the log's theorems, on a log with small segments, with
    completions out of order, a failed write, a restart and a prune. *)

From Stdlib Require Import Sorting.Sorted.
From S2P Require Import Prelude TrustErr CryptoSuite Model TrustCrypto Cborx KeyDescriptor.
From S2P Require Import Instances Wal WalProofs WalDir WalDirProofs WalQueue WalQueueProofs.

Module wal_examples.
Import wal wal_proofs waldir waldir_proofs walqueue walqueue_proofs.

Definition ex_opts : Options := mkOptions cryptosuite.INTLV1 250 0.

Definition ex_pay (n : Z) : bytes := be_put 4 n.

Definition ok_env : Env := mkEnv (λ _, None) (λ _, mkIO RotateOk WriteOk).

(** The file operations of reservation 3 fail after 20 bytes of its record. *)
Definition bad_env : Env :=
  mkEnv (λ _, None)
    (λ id, if decide (id = 3%nat) then mkIO RotateOk (FailWrite 20) else mkIO RotateOk WriteOk).

(** Three appends that complete out of order, a fourth whose write is cut
    short, a restart and a fifth. *)
Definition ex_events : list event :=
  [EReserve None (ex_pay 10) 1; EReserve None (ex_pay 11) 2; EReserve None (ex_pay 12) 3;
   EComplete ok_env 2 None; EComplete ok_env 0 None; EComplete ok_env 1 None;
   EReserve None (ex_pay 13) 4; EComplete bad_env 3 None; ERestart;
   EReserve None (ex_pay 14) 5; EComplete ok_env 4 None].

Example ex_run :
  (λ st, (acked_ids (finished st), (λ x, (x.2.1.(Pos.SegmentID), x.2.1.(Pos.Sequence))) <$> acked (finished st),
     map fst (w_dir (writer st)))) <$> (st0 ← start ex_opts; run ex_opts st0 ex_events)
  = Some ([0; 1; 2; 4]%nat, [(1, 1); (1, 2); (2, 3); (2, 4)], [1; 2]).
Proof. vm_compute. reflexivity. Qed.

Lemma ex_events_ok : Forall (event_ok false) ex_events.
Proof. repeat (constructor; [done|]). constructor. Defined.

Lemma ex_suite : is_Some (suiteCode (CryptoSuite ex_opts)).
Proof. by eexists. Defined.

Lemma acked_records_survive_witness :
  ∃ st dir recs, (st0 ← start ex_opts; run ex_opts st0 ex_events) = Some st ∧
    repairDirWithOps (w_dir (writer st)) = Ret dir ∧ ReadAllDir cryptosuite.INTLV1 dir = Ret recs ∧
    (ack_key <$> acked (finished st)) `sublist_of` (ack_of <$> recs).
Proof. apply (acked_records_survive ex_opts ex_events); [done|exact ex_suite|exact ex_events_ok]. Defined.

(** Without failures: completions out of order, a cancelled reservation, a
    restart, another append. *)
Definition ex_clean : list event :=
  [EReserve None (ex_pay 20) 1; EReserve None (ex_pay 21) 2; EReserve None (ex_pay 22) 3;
   EComplete ok_env 1 None; ECancel ok_env 2 (ErrorsNew "context canceled"); EComplete ok_env 0 None;
   ERestart; EReserve None (ex_pay 23) 4; EComplete ok_env 3 None; EClose].

Lemma ex_clean_ok : Forall (event_ok true) ex_clean.
Proof. repeat (constructor; [done|]). constructor. Defined.

Lemma clean_log_is_acked_witness :
  ∃ st dir recs, (st0 ← start ex_opts; run ex_opts st0 ex_clean) = Some st ∧
    repairDirWithOps (w_dir (writer st)) = Ret dir ∧ ReadAllDir cryptosuite.INTLV1 dir = Ret recs ∧
    ack_key <$> acked (finished st) = ack_of <$> recs.
Proof. apply (clean_log_is_acked ex_opts ex_clean); [done|exact ex_suite|exact ex_clean_ok]. Defined.

Example ex_clean_acked :
  (λ st, acked_ids (finished st)) <$> (st0 ← start ex_opts; run ex_opts st0 ex_clean)
  = Some [0; 1; 3]%nat.
Proof. vm_compute. reflexivity. Qed.

Lemma prune_keeps_suffix_witness :
  ∃ st dir recs, (st0 ← start ex_opts; run ex_opts st0 ex_events) = Some st ∧
    repairDirWithOps (w_dir (writer st)) = Ret dir ∧ ReadAllDir cryptosuite.INTLV1 dir = Ret recs ∧
    let dir' := pruneSegmentsBeforeWithOps dir 2 in
    (Forall (λ r, r.(Rec.RecordHash) ≠ zero_hash) recs → dir' ≠ [] →
     ∃ old new, recs = old ++ new ∧
       Forall (λ r, r.(Rec.Position).(Pos.SegmentID) < 2) old ∧
       Forall (λ r, 2 <= r.(Rec.Position).(Pos.SegmentID)) new ∧
       ReadAllDir cryptosuite.INTLV1 dir' = Ret new ∧
       ReadAllDirFrom cryptosuite.INTLV1 dir 2 = Ret new ∧
       (new ≠ [] → ∃ w, openDirWriterWithOps dir' ex_opts = Ret w ∧ sequence w = len recs ∧
          prevHash w = last_hash zero_hash recs)).
Proof. apply (prune_keeps_suffix ex_opts ex_events 2); [done|exact ex_suite|exact ex_events_ok]. Defined.

(** The inner hypotheses hold on this run: hashes are not zero, one segment is
    left, with two records. *)
Example ex_prune :
  (st ← (st0 ← start ex_opts; run ex_opts st0 ex_events);
   match repairDirWithOps (w_dir (writer st)) with
   | Ret dir =>
       match ReadAllDir cryptosuite.INTLV1 dir with
       | Ret recs =>
           Some (forallb (λ r, negb (bytes_equal r.(Rec.RecordHash) zero_hash)) recs, length recs,
                 map fst (pruneSegmentsBeforeWithOps dir 2),
                 match ReadAllDirFrom cryptosuite.INTLV1 dir 2 with Ret l => length l | _ => 0%nat end)
       | _ => None
       end
   | _ => None
   end) = Some (true, 4%nat, [2], 2%nat).
Proof. vm_compute. reflexivity. Qed.

(** One process: two reservations stay in the queue. *)
Definition ex_queue : list event :=
  [EReserve None (ex_pay 30) 1; EReserve None (ex_pay 31) 2; EReserve None (ex_pay 32) 3;
   EComplete ok_env 0 None; EComplete ok_env 2 None].

Lemma reservations_fifo_witness :
  ∃ st, (st0 ← start ex_opts; run ex_opts st0 ex_queue) = Some st ∧
    finished_ids (finished st) ++ ids (reservations st) ≡ₚ seq 0 (nextID st) ∧
    StronglySorted lt (acked_ids (finished st) ++ ids (reservations st)) ∧
    head_waits (reservations st) ∧ announced (finished st).
Proof.
  apply (reservations_fifo ex_opts ex_queue); [done|exact ex_suite| |];
    repeat (constructor; [done|]); constructor.
Defined.

Lemma completions_commit_all_witness :
  ∃ st, (st0 ← start ex_opts; run ex_opts st0 ex_queue) = Some st ∧
    (readyToAppendLocked (writer st) = Ok tt → [1%nat] ≡ₚ pending (reservations st) →
     ∃ st', run ex_opts st (completions ok_env [1%nat]) = Some st' ∧ reservations st' = [] ∧
       announced (finished st') ∧
       acked_ids (finished st') = acked_ids (finished st) ++ ids (reservations st)).
Proof.
  apply (completions_commit_all ex_opts ex_queue ok_env [1%nat]); [done|exact ex_suite| | |done];
    repeat (constructor; [done|]); constructor.
Defined.

Example ex_queue_pending :
  (λ st, (pending (reservations st), ids (reservations st), readyToAppendLocked (writer st)))
    <$> (st0 ← start ex_opts; run ex_opts st0 ex_queue)
  = Some ([1%nat], [1%nat; 2%nat], Ok tt).
Proof. vm_compute. reflexivity. Qed.

(** ** One file *)

Definition ex_encode (seq t : Z) (prev payload : bytes) : bytes * bytes :=
  default ([], []) (encodeRecordIntoForSuite cryptosuite.INTLV1 1 seq t prev payload).

Definition ex_b1 := Eval vm_compute in ex_encode 1 7 zero_hash (ex_pay 40).
Definition ex_b2 := Eval vm_compute in ex_encode 2 8 ex_b1.2 (ex_pay 41).
Definition ex_file : bytes := Eval vm_compute in ex_b1.1 ++ ex_b2.1.

Definition ex_r1 : Rec.t :=
  Rec.mk cryptosuite.INTLV1 (Pos.mk 1 0 1) 7 (ex_pay 40) zero_hash ex_b1.2.
Definition ex_r2 : Rec.t :=
  Rec.mk cryptosuite.INTLV1 (Pos.mk 1 (len ex_b1.1) 2) 8 (ex_pay 41) ex_b1.2 ex_b2.2.

Lemma ex_chained : chained cryptosuite.INTLV1 1 1 zero_hash 0 [ex_r1; ex_r2] ex_file.
Proof.
  change ex_file with (ex_b1.1 ++ ex_b2.1 ++ []).
  constructor; [constructor; vm_compute; done|done|done|done|done|].
  constructor; [constructor; vm_compute; done|done|done|done|done|]. constructor.
Defined.

Lemma torn_tail_repaired_witness :
  ∃ recs1 recs2 data1 st,
    [ex_r1; ex_r2] = recs1 ++ recs2 ∧ chained cryptosuite.INTLV1 1 1 zero_hash 0 recs1 data1 ∧
    repairFileWithOps (take 150 ex_file) zero_hash = Some (Ok (data1, st)) ∧
    recordsList st = recs1 ∧ validBytes st = len data1 ∧
    scanFileFrom data1 false zero_hash = Some (Ok st) ∧
    (length data1 <= 150)%nat ∧
    match recs2 with [] => True | rec :: _ => Z.of_nat 150 < len data1 + size_of rec end.
Proof.
  apply (torn_tail_repaired cryptosuite.INTLV1 1 1 zero_hash [ex_r1; ex_r2] ex_file 150);
    [exact ex_chained|done|vm_compute; lia].
Defined.

Definition ex_scan : scanState := Eval vm_compute in
  match scanFileFrom ex_file false zero_hash with Some (Ok st) => st | _ => scan_zero end.

Lemma wal_tamper_evident_witness :
  ex_file = ex_file ∧ zero_hash = zero_hash ∨ file_collision (st_cryptoSuite ex_scan) ex_file ex_file.
Proof.
  apply (wal_tamper_evident ex_file ex_file zero_hash zero_hash ex_scan ex_scan);
    vm_compute; reflexivity.
Defined.

End wal_examples.
