(* ===== verification/KeyStore.v ===== *)
(** * The client key registry

    Models [src/internal/keystore/registry.go]: the signed, hash-chained log of
    client key events, its file format, and the validity of a key at a time.

    The file is the list of its bytes, [None] when it does not exist.  File
    operations take the fault that happens to them.  A [time.Time] is its
    [UnixNano]; the zero time is [None].  The registry's lock makes every
    operation one step; cloning a value does not change it. *)

From S2P Require Import Prelude TrustErr CryptoSuite Model TrustCrypto Cborx KeyDescriptor ModelSuite Wal.

Module keystore.
Module Ev := KeyEvent.

Definition SchemaRegistryV2 : string := "trustdb.key-registry.v2".
Definition registryFormatV2 : Z := 2.
Definition maxRegistryFrameSize : Z := Z.shiftl 4 20.
Definition registryMagic : bytes := bytes_of_string "TDBKEYR2" ++ [Byte.x0a].

Definition ErrUnsupportedRegistryFormat := ErrorsNew "unsupported key registry format".
Definition ErrConflictingKeyID := ErrorsNew "key ID conflicts with existing registry material".
Definition os_ErrExist := ErrorsNew "file already exists".

Module Manifest.
Record t := mk {
  SchemaVersion : string;
  FormatVersion : Z;
  CryptoSuite : cryptosuite.ID;
  RegistryKeyID : string;
  RegistryAlgorithm : string;
  RegistryPublicEncoding : string;
  RegistryPublicKey : bytes }.
#[global] Instance eq_dec : EqDecision t.
Proof. solve_decision. Defined.
End Manifest.

Definition publicKeyDescriptor (m : Manifest.t) : trustcrypto.PublicKeyDescriptor :=
  trustcrypto.mkPublicKeyDescriptor m.(Manifest.CryptoSuite) m.(Manifest.RegistryKeyID)
    m.(Manifest.RegistryAlgorithm) m.(Manifest.RegistryPublicEncoding) m.(Manifest.RegistryPublicKey).

Definition manifestForPublicKey (publicKey : trustcrypto.PublicKeyDescriptor) : Manifest.t :=
  Manifest.mk SchemaRegistryV2 registryFormatV2 (trustcrypto.Suite publicKey)
    (trustcrypto.KeyID publicKey) (trustcrypto.Algorithm publicKey)
    (trustcrypto.Encoding publicKey) (trustcrypto.Bytes publicKey).

Record keyTimeline := mkTimeline {
  registered : Ev.t;
  descriptor : Descriptor.t;
  revoked : option Ev.t;
  compromised : option Ev.t;
  rotated : option Ev.t }.

Definition zero_timeline : keyTimeline := mkTimeline Ev.zero Descriptor.zero None None None.

Record Registry := mkRegistry {
  signer : option trustcrypto.Signer;
  manifest : Manifest.t;
  registryPub : trustcrypto.PublicKeyDescriptor;
  events : list Ev.t;
  byKey : gmap string keyTimeline;
  lastHash : bytes;
  durableEnd : Z }.

Record EvidenceSummary := mkSummary {
  S_Manifest : Manifest.t;
  S_Events : Z }.

Definition NUL : string := String.string_of_list_byte [x00].

Definition identity (tenantID clientID keyID : string) : string :=
  (tenantID ++ NUL ++ clientID ++ NUL ++ keyID)%string.

(** The identity of the key that an event is about. *)
Definition event_id (event : Ev.t) : string :=
  identity event.(Ev.TenantID) event.(Ev.ClientID) event.(Ev.KeyID).

Definition samePublicKey (a b : trustcrypto.PublicKeyDescriptor) : bool :=
  seqb (trustcrypto.Suite a) (trustcrypto.Suite b) &&
  seqb (trustcrypto.KeyID a) (trustcrypto.KeyID b) &&
  seqb (trustcrypto.Algorithm a) (trustcrypto.Algorithm b) &&
  seqb (trustcrypto.Encoding a) (trustcrypto.Encoding b) &&
  bytes_equal (trustcrypto.Bytes a) (trustcrypto.Bytes b).

(** ** Frames *)

Definition encodeFrame (payload : bytes) : result bytes :=
  if (len payload =? 0) || (maxRegistryFrameSize <? len payload)
  then Err (ErrorsNew "keystore: registry frame size is invalid: %d")
  else Ok (be_put 4 (len payload) ++ payload ++ be_put 4 (wal.crc32_Checksum payload)).

(** [frameReadState] with what [readFrame] returns in it: the payload, the
    offset behind the frame and the unread bytes. *)
Inductive frameRead :=
| frameComplete (payload : bytes) (end_ : Z) (rest : bytes)
| frameEOF
| framePartial.

(** The stream is at offset [start], with [r] unread. *)
Definition readFrame (start : Z) (r : bytes) : result frameRead :=
  if len r =? 0 then Ok frameEOF else
  if len r <? 4 then Ok framePartial else
  let length := be_get (take 4 r) in
  let r := drop 4 r in
  if (length =? 0) || (maxRegistryFrameSize <? length)
  then Err (ErrorsNew "keystore: invalid registry frame length: %d") else
  if len r <? length then Ok framePartial else
  let payload := take (Z.to_nat length) r in
  let r := drop (Z.to_nat length) r in
  if len r <? 4 then Ok framePartial else
  if negb (be_get (take 4 r) =? wal.crc32_Checksum payload)
  then Err (ErrorsNew "keystore: registry frame CRC mismatch") else
  Ok (frameComplete payload (start + 4 + length + 4) (drop 4 r)).

Definition decodeCanonical {A} `{CborMode A} (payload : bytes) : result A :=
  value ← cborx.UnmarshalLimit payload maxRegistryFrameSize;
  canonical ← cborx.Marshal value;
  if negb (bytes_equal canonical payload) then Err (ErrorsNew "non-canonical deterministic CBOR")
  else Ok value.

Definition domainInput (domain : string) (payload : bytes) : bytes :=
  bytes_of_string domain ++ [x00] ++ payload.

Section registry.
Context `{HashLib, SigLib, KeyDescriptorLib}.
Context `{CborMode Manifest.t, CborMode KeyEvent.t}.

Definition validateManifest (m : Manifest.t) : result unit :=
  if negb (seqb m.(Manifest.SchemaVersion) SchemaRegistryV2)
     || negb (m.(Manifest.FormatVersion) =? registryFormatV2)
  then Err (Errorf "keystore: %w: expected %s format %d" ErrUnsupportedRegistryFormat) else
  if seqb (TrimSpace m.(Manifest.RegistryKeyID)) ""
  then Err (ErrorsNew "keystore: registry manifest key_id is required") else
  errorf "keystore: invalid registry manifest public key: %w"
    (trustcrypto.ValidatePublicKeyForSuite m.(Manifest.CryptoSuite) (publicKeyDescriptor m)).

(** The events of the stream, the offset behind the last complete frame and
    whether an incomplete frame follows it. *)
Fixpoint readEvents (fuel : nat) (start : Z) (r : bytes) (events : list Ev.t)
  : go (list Ev.t * Z * bool) :=
  match fuel with
  | O => Stuck
  | S fuel =>
      frame ← ret (readFrame start r);
      match frame with
      | frameEOF => Ret (events, start, false)
      | framePartial => Ret (events, start, true)
      | frameComplete payload end_ r =>
          event ← ret (errorf "keystore: decode event %d: %w" (decodeCanonical payload));
          readEvents fuel end_ r (events ++ [event])
      end
  end.

Definition readRegistryStream (stream : bytes) : go (Manifest.t * list Ev.t * Z * bool) :=
  let n := length registryMagic in
  if (len stream <? len registryMagic) || negb (bytes_equal (take n stream) registryMagic)
  then Fail (Errorf "keystore: %w: expected %s; V1 registries are not read or migrated"
               ErrUnsupportedRegistryFormat) else
  frame ← ret (readFrame (len registryMagic) (drop n stream));
  match frame with
  | frameEOF | framePartial =>
      Fail (Errorf "keystore: %w: incomplete V2 manifest" ErrUnsupportedRegistryFormat)
  | frameComplete payload end_ r =>
      m ← ret (errorf "keystore: decode V2 manifest: %w" (decodeCanonical payload));
      _ ← ret (validateManifest m);
      '(events, durableEnd, truncatedTail) ← readEvents (S (length r)) end_ r [];
      Ret (m, events, durableEnd, truncatedTail)
  end.

(** ** Events *)

Definition hashEvent (event : Ev.t) : result bytes :=
  suite ← cryptosuite.RequireKnown event.(Ev.CryptoSuite);
  payload ← cborx.Marshal (Ev.set_EventHash [] event);
  factory ← trustcrypto.HashFactoryForSuite event.(Ev.CryptoSuite)
              (cryptosuite.HashAlgorithm (cryptosuite.KeyEventHash suite));
  Ok (trustcrypto.HashFactory_Sum factory
        (domainInput (cryptosuite.KeyEventHashDomain (cryptosuite.Domains suite)) payload)).

(** What the registry signs: the event without its signature and hash. *)
Definition eventInput (event : Ev.t) : result bytes :=
  payload ← cborx.Marshal (Ev.set_EventHash [] (Ev.set_RegistrySignature Signature.zero event));
  trustcrypto.SignatureInputForSuite event.(Ev.CryptoSuite) trustcrypto.SignaturePurposeKeyEvent payload.

Definition signEvent (event : Ev.t) (s : trustcrypto.Signer)
    (pub : trustcrypto.PublicKeyDescriptor) : result Signature.t :=
  input ← eventInput event;
  signature ← trustcrypto.SignerSign s input;
  _ ← errorf "keystore: registry signer returned unverifiable signature: %w"
        (trustcrypto.VerifySignatureForSuite event.(Ev.CryptoSuite) pub input signature);
  Ok signature.

Definition verifyEvent (event : Ev.t) (pub : trustcrypto.PublicKeyDescriptor) : result unit :=
  input ← eventInput event;
  trustcrypto.VerifySignatureForSuite event.(Ev.CryptoSuite) pub input event.(Ev.RegistrySignature).

(** [strings.ContainsAny(reason, "\x00\r\n")] *)
Definition reason_forbidden (reason : string) : bool :=
  existsb (λ b, (Z_of_byte b =? 0) || (Z_of_byte b =? 13) || (Z_of_byte b =? 10))
    (bytes_of_string reason).

(** The common part of registrations and rotations. *)
Definition registrationShape (suiteID : cryptosuite.ID) (event : Ev.t) : result Descriptor.t :=
  d ← errorf "keystore: event key descriptor: %w" (keydescriptor_Unmarshal event.(Ev.KeyDescriptor));
  if negb (seqb d.(Descriptor.KeyID) event.(Ev.KeyID)) || negb (seqb d.(Descriptor.CryptoSuite) suiteID)
  then Err (ErrorsNew "keystore: event descriptor identity or suite mismatch") else
  if negb (event.(Ev.ValidUntilUnixN) =? 0) && (event.(Ev.ValidUntilUnixN) <=? event.(Ev.ValidFromUnixN))
  then Err (ErrorsNew "keystore: event validity interval is invalid") else
  if seqb event.(Ev.Type_) KeyEventRotate then
    if seqb event.(Ev.PreviousKeyID) "" || seqb event.(Ev.PreviousKeyID) event.(Ev.KeyID)
       || negb (event.(Ev.RotatedAtUnixN) =? event.(Ev.ValidFromUnixN))
       || negb (event.(Ev.RevokedAtUnixN) =? 0) || negb (event.(Ev.CompromisedAtUnixN) =? 0)
    then Err (ErrorsNew "keystore: rotation linkage or time is invalid") else Ok d
  else
    if negb (seqb event.(Ev.PreviousKeyID) "") || negb (event.(Ev.RotatedAtUnixN) =? 0)
       || negb (event.(Ev.RevokedAtUnixN) =? 0) || negb (event.(Ev.CompromisedAtUnixN) =? 0)
       || negb (seqb event.(Ev.Reason) "")
    then Err (ErrorsNew "keystore: registration contains rotation fields") else Ok d.

(** The zero descriptor is returned for events that carry none. *)
Definition validateEventShape (suiteID : cryptosuite.ID) (event : Ev.t) : result Descriptor.t :=
  _ ← errorf "keystore: key event suite binding: %w"
        (modelsuite.Require_ suiteID (modelsuite.AnyKeyEvent event));
  if negb (seqb event.(Ev.SchemaVersion) SchemaKeyEvent)
  then Err (ErrorsNew "keystore: key event schema must be %s") else
  if negb (seqb event.(Ev.CryptoSuite) suiteID)
  then Err (Errorf "keystore: %w: registry is %s, event is %s" cryptosuite.ErrMixedSuite) else
  if seqb event.(Ev.TenantID) "" || seqb event.(Ev.ClientID) "" || seqb event.(Ev.KeyID) ""
  then Err (ErrorsNew "keystore: event identity is incomplete") else
  if (4096 <? slen event.(Ev.Reason)) || reason_forbidden event.(Ev.Reason)
  then Err (ErrorsNew "keystore: event reason is invalid") else
  if seqb event.(Ev.Type_) KeyEventRegister || seqb event.(Ev.Type_) KeyEventRotate
  then registrationShape suiteID event else
  let common := negb (len event.(Ev.KeyDescriptor) =? 0) || negb (seqb event.(Ev.PreviousKeyID) "")
    || negb (event.(Ev.ValidFromUnixN) =? 0) || negb (event.(Ev.ValidUntilUnixN) =? 0)
    || negb (event.(Ev.RotatedAtUnixN) =? 0) in
  if seqb event.(Ev.Type_) KeyEventRevoke then
    if common || (event.(Ev.RevokedAtUnixN) =? 0) || negb (event.(Ev.CompromisedAtUnixN) =? 0)
    then Err (ErrorsNew "keystore: revocation fields are invalid") else Ok Descriptor.zero
  else if seqb event.(Ev.Type_) KeyEventCompromise then
    if common || negb (event.(Ev.RevokedAtUnixN) =? 0) || (event.(Ev.CompromisedAtUnixN) =? 0)
    then Err (ErrorsNew "keystore: compromise fields are invalid") else Ok Descriptor.zero
  else Err (ErrorsNew "keystore: unsupported key event type: %s").

(** ** The state of the registry *)

Definition is_some {A} (o : option A) : bool := match o with Some _ => true | None => false end.

(** The previous key of a rotation. *)
Definition previous_id (event : Ev.t) : string :=
  identity event.(Ev.TenantID) event.(Ev.ClientID) event.(Ev.PreviousKeyID).

Definition validateNextLocked (r : Registry) (event : Ev.t) : result unit :=
  _ ← validateEventShape (manifest r).(Manifest.CryptoSuite) event;
  let id := event_id event in
  if seqb event.(Ev.Type_) KeyEventRegister then
    match byKey r !! id with
    | Some _ => Err (Errorf "keystore: %w: %s" ErrConflictingKeyID)
    | None => Ok tt
    end
  else if seqb event.(Ev.Type_) KeyEventRotate then
    match byKey r !! id with
    | Some _ => Err (Errorf "keystore: %w: %s" ErrConflictingKeyID)
    | None =>
        match byKey r !! previous_id event with
        | None => Err (ErrorsNew "keystore: cannot rotate missing key: %s")
        | Some previous =>
            if is_some (rotated previous) || is_some (revoked previous)
            then Err (ErrorsNew "keystore: previous key is already retired: %s") else
            if event.(Ev.RotatedAtUnixN) <? (registered previous).(Ev.ValidFromUnixN)
            then Err (ErrorsNew "keystore: rotated_at precedes previous key validity")
            else Ok tt
        end
    end
  else if seqb event.(Ev.Type_) KeyEventRevoke then
    match byKey r !! id with
    | None => Err (ErrorsNew "keystore: cannot revoke missing key: %s")
    | Some timeline =>
        if is_some (revoked timeline) || is_some (rotated timeline)
        then Err (ErrorsNew "keystore: key is already retired: %s") else
        if event.(Ev.RevokedAtUnixN) <? (registered timeline).(Ev.ValidFromUnixN)
        then Err (ErrorsNew "keystore: revoked_at precedes key validity")
        else Ok tt
    end
  else if seqb event.(Ev.Type_) KeyEventCompromise then
    match byKey r !! id with
    | None => Err (ErrorsNew "keystore: cannot mark missing key compromised: %s")
    | Some timeline =>
        if is_some (compromised timeline)
        then Err (ErrorsNew "keystore: key is already marked compromised: %s") else Ok tt
    end
  else Err (ErrorsNew "keystore: unsupported key event type: %s").

(** The timelines after an event; reading an absent one gives the zero value. *)
Definition applyTimelines (m : gmap string keyTimeline) (d : Descriptor.t) (event : Ev.t)
  : result (gmap string keyTimeline) :=
  let id := event_id event in
  let timeline := default zero_timeline (m !! id) in
  if seqb event.(Ev.Type_) KeyEventRegister then
    Ok (<[id := mkTimeline event d None None None]> m)
  else if seqb event.(Ev.Type_) KeyEventRotate then
    let previous := default zero_timeline (m !! previous_id event) in
    let m := <[previous_id event := mkTimeline (registered previous) (descriptor previous)
                (revoked previous) (compromised previous) (Some event)]> m in
    Ok (<[id := mkTimeline event d None None None]> m)
  else if seqb event.(Ev.Type_) KeyEventRevoke then
    Ok (<[id := mkTimeline (registered timeline) (descriptor timeline) (Some event)
                  (compromised timeline) (rotated timeline)]> m)
  else if seqb event.(Ev.Type_) KeyEventCompromise then
    Ok (<[id := mkTimeline (registered timeline) (descriptor timeline) (revoked timeline)
                  (Some event) (rotated timeline)]> m)
  else Err (ErrorsNew "keystore: unsupported key event type: %s").

Definition applyLocked (r : Registry) (event : Ev.t) : result Registry :=
  d ← validateEventShape (manifest r).(Manifest.CryptoSuite) event;
  m ← applyTimelines (byKey r) d event;
  Ok (mkRegistry (signer r) (manifest r) (registryPub r) (events r ++ [event]) m
        event.(Ev.EventHash) (durableEnd r)).

Definition loadEvent (r : Registry) (index : nat) (event : Ev.t) : result Registry :=
  if negb (event.(Ev.Sequence) =? u64 (Z.of_nat index + 1))
  then Err (ErrorsNew "keystore: sequence mismatch at event %d") else
  if negb (bytes_equal event.(Ev.PrevEventHash) (lastHash r))
  then Err (ErrorsNew "keystore: hash chain mismatch at event %d") else
  _ ← errorf "keystore: event %d signature: %w" (verifyEvent event (registryPub r));
  eventHash ← hashEvent event;
  if negb (bytes_equal eventHash event.(Ev.EventHash))
  then Err (ErrorsNew "keystore: event hash mismatch at event %d") else
  _ ← errorf "keystore: event %d lifecycle: %w" (validateNextLocked r event);
  applyLocked r event.

(** The loop of [Open], [OpenEvidence] and [InspectEvidence]. *)
Fixpoint loadEvents (r : Registry) (index : nat) (evs : list Ev.t) : result Registry :=
  match evs with
  | [] => Ok r
  | event :: evs => r ← loadEvent r index event; loadEvents r (S index) evs
  end.

Definition newRegistry (s : option trustcrypto.Signer) (m : Manifest.t) (durableEnd : Z) : Registry :=
  mkRegistry s m (publicKeyDescriptor m) [] ∅ [] durableEnd.

(** ** Portable evidence *)

Definition OpenEvidence (data : bytes) (trusted : trustcrypto.PublicKeyDescriptor) : go Registry :=
  if len data =? 0 then Fail (ErrorsNew "keystore: registry evidence is empty") else
  if (len (trustcrypto.Bytes trusted) =? 0) || seqb (TrimSpace (trustcrypto.KeyID trusted)) ""
  then Fail (ErrorsNew
    "keystore: trusted registry public descriptor is required to verify registry evidence") else
  _ ← ret (errorf "keystore: invalid trusted registry public key: %w"
        (trustcrypto.ValidatePublicKeyForSuite (trustcrypto.Suite trusted) trusted));
  '(m, evs, _, truncatedTail) ← readRegistryStream data;
  if truncatedTail : bool
  then Fail (ErrorsNew "keystore: registry evidence contains an incomplete final frame") else
  if negb (samePublicKey (publicKeyDescriptor m) trusted)
  then Fail (ErrorsNew "keystore: trusted registry public key does not match V2 evidence manifest") else
  ret (loadEvents (newRegistry None m 0) 0 evs).

Definition InspectEvidence (data : bytes) : go EvidenceSummary :=
  if len data =? 0 then Fail (ErrorsNew "keystore: registry evidence is empty") else
  '(m, evs, _, truncatedTail) ← readRegistryStream data;
  if truncatedTail : bool
  then Fail (ErrorsNew "keystore: registry evidence contains an incomplete final frame") else
  _ ← ret (loadEvents (newRegistry None m 0) 0 evs);
  Ret (mkSummary m (len evs)).

(** ** Opening the file *)

Definition validateLifecycleSigner (s : trustcrypto.Signer) : result trustcrypto.PublicKeyDescriptor :=
  if negb (trustcrypto.Supports (trustcrypto.Capabilities s) trustcrypto.CapabilitySign)
     || negb (trustcrypto.Supports (trustcrypto.Capabilities s) trustcrypto.CapabilityPublicKey)
  then Err trustcrypto.ErrUnsupportedCapability else
  let handle := trustcrypto.Handle s in
  _ ← trustcrypto.KeyHandle_Validate handle;
  publicKey ← errorf "read registry public key: %w" (trustcrypto.PublicKey s);
  suite ← cryptosuite.RequireKnown (trustcrypto.Suite publicKey);
  let alg := cryptosuite.SigAlgorithm (cryptosuite.Signature suite) in
  if negb (seqb (trustcrypto.H_KeyID handle) (trustcrypto.KeyID publicKey))
     || negb (seqb (trustcrypto.H_Algorithm handle) alg)
     || negb (seqb (trustcrypto.Algorithm publicKey) alg)
  then Err (ErrorsNew "signer handle and public key metadata differ") else
  _ ← trustcrypto.ValidatePublicKeyForSuite (trustcrypto.Suite publicKey) publicKey;
  Ok publicKey.

(** What happens when the new file is linked into place: it fails before the
    link, another process has linked a file, or it fails after the link. *)
Inductive init_fault :=
| InitOk
| FailBeforeLink
| LinkExists (other : bytes)
| FailAfterLink.

Inductive truncate_fault := TruncateOk | FailTruncate | FailTruncateSync.

Record open_io := mkOpenIO {
  io_stat : option error;
  io_init : init_fault;
  io_read : option error;
  io_truncate : truncate_fault }.

Definition initializeRegistry (io : init_fault) (m : Manifest.t) : option bytes * result unit :=
  match (_ ← validateManifest m; payload ← cborx.Marshal m; encodeFrame payload) with
  | Err e => (None, Err e)
  | Ok frame =>
      let content := registryMagic ++ frame in
      match io with
      | InitOk => (Some content, Ok tt)
      | FailBeforeLink => (None, Err (ErrorsNew "initialize registry"))
      | LinkExists other => (Some other, Err os_ErrExist)
      | FailAfterLink => (Some content, Err (ErrorsNew "sync registry directory"))
      end
  end.

Definition truncateAndSync (io : truncate_fault) (file : bytes) (size : Z) : bytes * result unit :=
  match io with
  | TruncateOk => (take (Z.to_nat size) file, Ok tt)
  | FailTruncate => (file, Err (ErrorsNew "truncate registry"))
  | FailTruncateSync => (take (Z.to_nat size) file, Err (ErrorsNew "sync registry"))
  end.

(** The first part of [Open]: the trusted key, which a signer supplies when
    the caller gives none. *)
Definition trustedKey (s : option trustcrypto.Signer) (trusted : trustcrypto.PublicKeyDescriptor)
  : result trustcrypto.PublicKeyDescriptor :=
  trusted ←
    match s with
    | None => Ok trusted
    | Some s =>
        signerPub ← errorf "keystore: invalid registry signer: %w" (validateLifecycleSigner s);
        if len (trustcrypto.Bytes trusted) =? 0 then Ok signerPub else
        if negb (samePublicKey trusted signerPub)
        then Err (ErrorsNew
          "keystore: registry signer public key does not match trusted registry public key")
        else Ok trusted
    end;
  if len (trustcrypto.Bytes trusted) =? 0 then Ok trusted else
  if seqb (TrimSpace (trustcrypto.KeyID trusted)) ""
  then Err (ErrorsNew "keystore: trusted registry public key requires key_id") else
  _ ← errorf "keystore: invalid trusted registry public key: %w"
        (trustcrypto.ValidatePublicKeyForSuite (trustcrypto.Suite trusted) trusted);
  Ok trusted.

(** The last part of [Open], on an existing file. *)
Definition openExisting (io : open_io) (s : option trustcrypto.Signer)
    (trusted : trustcrypto.PublicKeyDescriptor) (file : bytes) : bytes * go Registry :=
  match (match io_read io with Some e => Fail e | None => readRegistryStream file end) with
  | Fail e => (file, Fail e)
  | Stuck => (file, Stuck)
  | Ret (m, evs, durableEnd, truncatedTail) =>
      if len (trustcrypto.Bytes trusted) =? 0
      then (file, Fail (ErrorsNew
        "keystore: trusted registry public descriptor is required to verify an existing registry")) else
      if negb (samePublicKey (publicKeyDescriptor m) trusted)
      then (file, Fail (ErrorsNew
        "keystore: trusted registry public key does not match V2 manifest")) else
      let '(file, repaired) :=
        if is_some s && truncatedTail
        then truncateAndSync (io_truncate io) file durableEnd else (file, Ok tt) in
      match repaired with
      | Err e => (file, Fail (Errorf "keystore: repair incomplete registry tail: %w" e))
      | Ok _ => (file, ret (loadEvents (newRegistry s m durableEnd) 0 evs))
      end
  end.

Definition Open (io : open_io) (path : string) (s : option trustcrypto.Signer)
    (trusted : trustcrypto.PublicKeyDescriptor) (file : option bytes) : option bytes * go Registry :=
  if seqb (TrimSpace path) "" then (file, Fail (ErrorsNew "keystore: path is required")) else
  match trustedKey s trusted with
  | Err e => (file, Fail e)
  | Ok trusted =>
      match io_stat io with
      | Some e => (file, Fail e)
      | None =>
          let '(file, initialized) :=
            match file, s with
            | Some _, _ => (file, Ok tt)
            | None, None => (file, Err (ErrorsNew
                "keystore: registry signer is required to initialize a V2 registry"))
            | None, Some _ =>
                match initializeRegistry (io_init io) (manifestForPublicKey trusted) with
                | (file, Err e) => (file, if wal.errors_Is e os_ErrExist then Ok tt else Err e)
                | r => r
                end
            end in
          match initialized, file with
          | Err e, _ => (file, Fail e)
          | Ok _, None => (None, Fail (ErrorsNew "open registry: no such file"))
          | Ok _, Some file =>
              let '(file, r) := openExisting io s trusted file in (Some file, r)
          end
      end
  end.

(** ** Appending *)

Inductive append_fault :=
| AppendOk
| FailOpen
| FailWrite (n : nat)
| FailSync.

Definition appendAndSync (io : append_fault) (file frame : bytes) : bytes * result unit :=
  match io with
  | AppendOk => (file ++ frame, Ok tt)
  | FailOpen => (file, Err (ErrorsNew "open registry"))
  | FailWrite n => (file ++ take n frame, Err (ErrorsNew "write registry"))
  | FailSync => (file ++ frame, Err (ErrorsNew "sync registry"))
  end.

Definition clearEventEnvelope (event : Ev.t) : Ev.t :=
  Ev.set_RegistrySignature Signature.zero
    (Ev.set_EventHash [] (Ev.set_PrevEventHash [] (Ev.set_Sequence 0 event))).

Definition sameUnsignedEvent (a b : Ev.t) : bool :=
  match cborx.Marshal (clearEventEnvelope a), cborx.Marshal (clearEventEnvelope b) with
  | Ok x, Ok y => bytes_equal x y
  | _, _ => false
  end.

Definition idempotentEventLocked (r : Registry) (candidate : Ev.t) : option Ev.t :=
  match byKey r !! event_id candidate with
  | None => None
  | Some timeline =>
      let existing :=
        if seqb candidate.(Ev.Type_) KeyEventRegister || seqb candidate.(Ev.Type_) KeyEventRotate
        then Some (registered timeline) else
        if seqb candidate.(Ev.Type_) KeyEventRevoke then revoked timeline else
        if seqb candidate.(Ev.Type_) KeyEventCompromise then compromised timeline else None in
      match existing with
      | Some e => if sameUnsignedEvent e candidate then Some e else None
      | None => None
      end
  end.

(** The signed event that follows the registry's last one, and its frame. *)
Definition sealEvent (r : Registry) (s : trustcrypto.Signer) (event : Ev.t) : result (Ev.t * bytes) :=
  _ ← validateNextLocked r event;
  let event := Ev.set_PrevEventHash (lastHash r) (Ev.set_Sequence (u64 (len (events r) + 1)) event) in
  signature ← signEvent event s (registryPub r);
  let event := Ev.set_RegistrySignature signature event in
  hash ← hashEvent event;
  let event := Ev.set_EventHash hash event in
  payload ← cborx.Marshal event;
  frame ← encodeFrame payload;
  Ok (event, frame).

Definition set_durableEnd (n : Z) (r : Registry) : Registry :=
  mkRegistry (signer r) (manifest r) (registryPub r) (events r) (byKey r) (lastHash r) n.

(** The callers have checked that there is a signer. *)
Definition appendEvent (io : append_fault) (file : bytes) (r : Registry) (s : trustcrypto.Signer)
    (event : Ev.t) : bytes * Registry * result Ev.t :=
  match idempotentEventLocked r event with
  | Some existing => (file, r, Ok existing)
  | None =>
      match sealEvent r s event with
      | Err e => (file, r, Err e)
      | Ok (event, frame) =>
          match appendAndSync io file frame with
          | (file, Err e) => (file, r, Err e)
          | (file, Ok _) =>
              let r := set_durableEnd (durableEnd r + len frame) r in
              match applyLocked r event with
              | Err e => (file, r, Err e)
              | Ok r => (file, r, Ok event)
              end
          end
      end
  end.

(** ** Requests *)

(** [UnixNano] of the zero time, whose seconds overflow. *)
Definition UnixNano (t : option Z) : Z := default (-6795364578871345152) t.

Definition unixNanoOrZero (t : option Z) : Z := default 0 t.

Definition validateRegistrationDescriptor (registrySuite : cryptosuite.ID) (d : Descriptor.t)
  : result bytes :=
  _ ← errorf "keystore: invalid key descriptor: %w" (keydescriptor_Validate d);
  if negb (seqb d.(Descriptor.CryptoSuite) registrySuite)
  then Err (Errorf "keystore: %w: registry is %s, key is %s" cryptosuite.ErrMixedSuite)
  else keydescriptor_Marshal d.

Definition constrainValidityToCertificate (d : Descriptor.t) (validFrom validUntil : option Z)
  : result (Z * option Z) :=
  match validFrom with
  | None => Err (ErrorsNew "keystore: valid_from is required")
  | Some validFrom =>
      if match validUntil with Some u => u <=? validFrom | None => false end
      then Err (ErrorsNew "keystore: valid_until must be after valid_from") else
      certificates ← keydescriptor_CertificateMetadata d;
      match certificates with
      | [] => Ok (validFrom, validUntil)
      | leaf :: _ =>
          if (validFrom <? NotBeforeUnixN leaf) || (NotAfterUnixN leaf <=? validFrom)
          then Err (ErrorsNew
            "keystore: valid_from is outside the leaf certificate validity interval") else
          match validUntil with
          | None => Ok (validFrom, Some (NotAfterUnixN leaf))
          | Some u =>
              if NotAfterUnixN leaf <? u
              then Err (ErrorsNew
                "keystore: valid_until exceeds the leaf certificate validity interval")
              else Ok (validFrom, Some u)
          end
      end
  end.

(** The unsigned event of each request. *)
Definition registerEvent (r : Registry) (tenantID clientID : string) (d : Descriptor.t)
    (validFrom validUntil : option Z) : result Ev.t :=
  let suiteID := (manifest r).(Manifest.CryptoSuite) in
  encoded ← validateRegistrationDescriptor suiteID d;
  if seqb tenantID "" || seqb clientID ""
  then Err (ErrorsNew "keystore: tenant_id and client_id are required") else
  '(validFrom, validUntil) ← constrainValidityToCertificate d validFrom validUntil;
  Ok (Ev.mk SchemaKeyEvent suiteID 0 KeyEventRegister tenantID clientID d.(Descriptor.KeyID) ""
        encoded validFrom (unixNanoOrZero validUntil) 0 0 0 "" [] [] Signature.zero).

Definition rotateEvent (r : Registry) (tenantID clientID previousKeyID : string) (d : Descriptor.t)
    (rotatedAt validUntil : option Z) (reason : string) : result Ev.t :=
  let suiteID := (manifest r).(Manifest.CryptoSuite) in
  encoded ← validateRegistrationDescriptor suiteID d;
  if seqb tenantID "" || seqb clientID "" || seqb previousKeyID ""
     || seqb d.(Descriptor.KeyID) previousKeyID
  then Err (ErrorsNew
    "keystore: tenant_id, client_id, distinct previous_key_id, and key_id are required") else
  '(rotatedAt, validUntil) ← constrainValidityToCertificate d rotatedAt validUntil;
  Ok (Ev.mk SchemaKeyEvent suiteID 0 KeyEventRotate tenantID clientID d.(Descriptor.KeyID)
        previousKeyID encoded rotatedAt (unixNanoOrZero validUntil) rotatedAt 0 0 reason [] []
        Signature.zero).

Definition statusEvent (r : Registry) (eventType tenantID clientID keyID : string) (at_ : option Z)
    (reason : string) : result Ev.t :=
  if seqb tenantID "" || seqb clientID "" || seqb keyID ""
  then Err (ErrorsNew "keystore: tenant_id, client_id, and key_id are required") else
  let event revokedAt compromisedAt :=
    Ev.mk SchemaKeyEvent (manifest r).(Manifest.CryptoSuite) 0 eventType tenantID clientID keyID ""
      [] 0 0 0 revokedAt compromisedAt reason [] [] Signature.zero in
  if seqb eventType KeyEventRevoke then Ok (event (UnixNano at_) 0) else
  if seqb eventType KeyEventCompromise then Ok (event 0 (UnixNano at_)) else
  Err (ErrorsNew "keystore: unsupported status event type: %s").

(** The common shape of the four requests. *)
Definition request (io : append_fault) (file : bytes) (r : Registry) (event : result Ev.t)
  : bytes * Registry * result Ev.t :=
  match signer r with
  | None => (file, r, Err (ErrorsNew "keystore: registry signer is required"))
  | Some s =>
      match event with
      | Err e => (file, r, Err e)
      | Ok event => appendEvent io file r s event
      end
  end.

Definition RegisterClientKey io file r (tenantID clientID : string) (d : Descriptor.t)
    (validFrom validUntil : option Z) : bytes * Registry * result Ev.t :=
  request io file r (registerEvent r tenantID clientID d validFrom validUntil).

Definition RotateClientKey io file r (tenantID clientID previousKeyID : string) (d : Descriptor.t)
    (rotatedAt validUntil : option Z) (reason : string) : bytes * Registry * result Ev.t :=
  request io file r (rotateEvent r tenantID clientID previousKeyID d rotatedAt validUntil reason).

Definition appendStatusEvent io file r (eventType tenantID clientID keyID : string)
    (at_ : option Z) (reason : string) : bytes * Registry * result Ev.t :=
  request io file r (statusEvent r eventType tenantID clientID keyID at_ reason).

Definition RevokeClientKey io file r := appendStatusEvent io file r KeyEventRevoke.

Definition MarkClientKeyCompromised io file r := appendStatusEvent io file r KeyEventCompromise.

(** ** Lookups *)

Definition clientKeyFromTimeline (tenantID clientID : string) (timeline : keyTimeline) : ClientKey.t :=
  let d := descriptor timeline in
  ClientKey.mk tenantID clientID d.(Descriptor.KeyID) d.(Descriptor.CryptoSuite)
    d.(Descriptor.Algorithm) (Descriptor.Encoding d.(Descriptor.PublicKey))
    (Descriptor.Bytes d.(Descriptor.PublicKey)) d.(Descriptor.SM2UserID)
    d.(Descriptor.CertificateChain) d.(Descriptor.Provider)
    (registered timeline).(Ev.KeyDescriptor) (registered timeline).(Ev.ValidFromUnixN)
    (registered timeline).(Ev.ValidUntilUnixN) KeyStatusValid 0 0.

(** The retirements of the timeline that have happened at [atN]. *)
Definition applyStatus (timeline : keyTimeline) (atN : Z) (key : ClientKey.t) : ClientKey.t :=
  let key :=
    match rotated timeline with
    | Some e => if e.(Ev.RotatedAtUnixN) <=? atN
                then ClientKey.set_RevokedAtUnixN e.(Ev.RotatedAtUnixN)
                       (ClientKey.set_Status KeyStatusRevoked key) else key
    | None => key
    end in
  let key :=
    match revoked timeline with
    | Some e => if e.(Ev.RevokedAtUnixN) <=? atN
                then ClientKey.set_RevokedAtUnixN e.(Ev.RevokedAtUnixN)
                       (ClientKey.set_Status KeyStatusRevoked key) else key
    | None => key
    end in
  match compromised timeline with
  | Some e => if e.(Ev.CompromisedAtUnixN) <=? atN
              then ClientKey.set_CompromisedAtUnixN e.(Ev.CompromisedAtUnixN)
                     (ClientKey.set_Status KeyStatusCompromised key) else key
  | None => key
  end.

(** The key is returned with some of the errors. *)
Definition LookupClientKeyAt (r : Registry) (tenantID clientID keyID : string) (atN : Z)
  : ClientKey.t * option error :=
  match byKey r !! identity tenantID clientID keyID with
  | None => (ClientKey.zero, Some (ErrorsNew "keystore: key not found: %s/%s/%s"))
  | Some timeline =>
      let key := clientKeyFromTimeline tenantID clientID timeline in
      match modelsuite.Require_ (manifest r).(Manifest.CryptoSuite) (modelsuite.AnyClientKey key) with
      | Err e => (ClientKey.zero, Some (Errorf "keystore: resolved client key suite binding: %w" e))
      | Ok _ =>
          if atN <? (registered timeline).(Ev.ValidFromUnixN)
          then (key, Some (ErrorsNew "keystore: key not valid yet")) else
          if negb ((registered timeline).(Ev.ValidUntilUnixN) =? 0)
             && ((registered timeline).(Ev.ValidUntilUnixN) <=? atN)
          then (key, Some (ErrorsNew "keystore: key expired")) else
          let key := applyStatus timeline atN key in
          if negb (seqb key.(ClientKey.Status) KeyStatusValid)
          then (key, Some (ErrorsNew "keystore: key status is %s")) else (key, None)
      end
  end.

Definition RevocationEvent (r : Registry) (tenantID clientID keyID : string) : option Ev.t :=
  timeline ← byKey r !! identity tenantID clientID keyID;
  revoked timeline.

(** The registry as the resolver of the engine, which ignores the key when
    there is an error. *)
Definition resolver (r : Registry) (tenantID clientID keyID : string) (atN : Z) : result ClientKey.t :=
  match LookupClientKeyAt r tenantID clientID keyID atN with
  | (key, None) => Ok key
  | (_, Some e) => Err e
  end.
End registry.

End keystore.
