(* ===== verification/KeyStoreProofs.v ===== *)
(** * Correctness of the key registry

    The file format is exact, every loaded registry is determined by its events,
    acknowledged events survive a crash, and the validity of a key is the one the
    events state. *)

From S2P Require Import Prelude TrustErr CryptoSuite Model TrustCrypto Cborx KeyDescriptor ModelSuite.
From S2P Require Import Wal WalProofs KeyStore.

Module keystore_proofs.
Import keystore.

(** ** Frames *)

Lemma encodeFrame_Ok p f :
  encodeFrame p = Ok f ↔
  0 < len p <= maxRegistryFrameSize ∧
  f = be_put 4 (len p) ++ p ++ be_put 4 (wal.crc32_Checksum p).
Proof.
  unfold encodeFrame. pose proof (len_nonneg p). rewrite if_Err_Ok. autorewrite with bprop.
  split; [intros [? [= <-]]|intros [? ->]]; (split; [lia|done]).
Qed.

Lemma frame_len p f : encodeFrame p = Ok f → len f = len p + 8.
Proof.
  intros [_ ->]%encodeFrame_Ok. unfold len. rewrite !length_app, !length_be_put. lia.
Qed.

Lemma frame_header p f :
  encodeFrame p = Ok f → be_get (take 4 f) = len p ∧ (length f = length p + 8)%nat.
Proof.
  intros E. pose proof (frame_len _ _ E) as Hl. split; [|unfold len in Hl; lia].
  apply encodeFrame_Ok in E as [Hp ->].
  rewrite take_app_length' by (by rewrite length_be_put). apply wal_proofs.be_get_put_small.
  unfold maxRegistryFrameSize in Hp. change (Z.shiftl 4 20) with 4194304 in Hp.
  change (256 ^ Z.of_nat 4) with 4294967296. lia.
Qed.

(** A complete frame at the head of the stream. *)
Lemma readFrame_complete p f start r :
  encodeFrame p = Ok f → readFrame start (f ++ r) = Ok (frameComplete p (start + len f) r).
Proof.
  intros E. destruct (frame_header _ _ E) as [Hh Hl]. pose proof (frame_len _ _ E) as Hfl.
  apply encodeFrame_Ok in E as [Hp Hf]. unfold readFrame.
  rewrite (proj2 (Z.eqb_neq (len (f ++ r)) 0)) by (unfold len; rewrite length_app; lia).
  rewrite (proj2 (Z.ltb_ge (len (f ++ r)) 4)) by (unfold len; rewrite length_app; lia).
  rewrite (take_app_le f r 4), Hh by lia.
  rewrite (proj2 (Z.eqb_neq (len p) 0)), (proj2 (Z.ltb_ge _ (len p))) by lia. cbn [orb].
  assert (drop 4 (f ++ r) = p ++ be_put 4 (wal.crc32_Checksum p) ++ r) as ->.
  { rewrite Hf, <- !app_assoc, drop_app_length'; [done|by rewrite length_be_put]. }
  assert (Z.to_nat (len p) = length p) as -> by (unfold len; lia).
  rewrite take_app_length, drop_app_length.
  rewrite (proj2 (Z.ltb_ge _ _)) by (unfold len; rewrite !length_app; lia).
  rewrite (proj2 (Z.ltb_ge _ 4)) by (unfold len; rewrite length_app, length_be_put; lia).
  rewrite take_app_length', drop_app_length' by (by rewrite length_be_put).
  rewrite wal_proofs.be_get_put_small by (pose proof (wal_proofs.crc_bound p); done).
  rewrite Z.eqb_refl. cbn [negb]. do 2 f_equal. lia.
Qed.

(** A frame cut short at any byte. *)
Lemma readFrame_torn p f start n :
  encodeFrame p = Ok f → (n < length f)%nat →
  readFrame start (take n f) = Ok (match n with O => frameEOF | _ => framePartial end).
Proof.
  intros E Hn. destruct (frame_header _ _ E) as [Hh Hl]. apply encodeFrame_Ok in E as [Hp Hf].
  destruct n as [|n]; [done|]. set (m := S n) in *. unfold readFrame.
  assert (len (take m f) = Z.of_nat m) as Hm by (unfold len; rewrite length_take; lia).
  rewrite Hm, (proj2 (Z.eqb_neq _ 0)) by lia.
  destruct (Z.ltb_spec (Z.of_nat m) 4); [done|].
  rewrite take_take, Nat.min_l, Hh by lia.
  rewrite (proj2 (Z.eqb_neq (len p) 0)), (proj2 (Z.ltb_ge _ (len p))) by lia. cbn [orb].
  assert (len (drop 4 (take m f)) = Z.of_nat m - 4) as Hd
    by (unfold len in *; rewrite length_drop; lia).
  rewrite Hd. destruct (Z.ltb_spec (Z.of_nat m - 4) (len p)); [done|].
  rewrite (proj2 (Z.ltb_lt _ 4)); [done|].
  unfold len in *. rewrite length_drop. lia.
Qed.

(** Only frames are read as complete. *)
Lemma readFrame_inv start r p e rest :
  readFrame start r = Ok (frameComplete p e rest) →
  ∃ f, encodeFrame p = Ok f ∧ r = f ++ rest ∧ e = start + len f.
Proof.
  unfold readFrame. intros E.
  destruct (Z.eqb_spec (len r) 0); [done|]. destruct (Z.ltb_spec (len r) 4); [done|].
  ok_inv. autorewrite with bprop in *.
  pose proof (be_get_range (take 4 r)) as Hr.
  assert (length (take 4 r) = 4%nat) as E4 by (rewrite length_take; unfold len in *; lia).
  pose proof (be_put_get (take 4 r)) as Eh. rewrite E4 in Eh.
  revert E Heqb Hr Eh. generalize (be_get (take 4 r)). intros l E Hl Hr Eh.
  destruct (Z.ltb_spec (len (drop 4 r)) l) as [|H1]; [done|].
  destruct (Z.ltb_spec (len (drop (Z.to_nat l) (drop 4 r))) 4) as [|H2]; [done|].
  apply if_Err_Ok in E as [Hc E]. injection E as <- <- <-. bsimpl.
  set (p := take (Z.to_nat l) (drop 4 r)) in *. set (q := drop (Z.to_nat l) (drop 4 r)) in *.
  assert (len p = l) as Hpl by (unfold p, len in *; rewrite length_take; lia).
  assert (length (take 4 q) = 4%nat) as E5 by (rewrite length_take; unfold len in *; lia).
  exists (be_put 4 (len p) ++ p ++ be_put 4 (wal.crc32_Checksum p)). split; [|split].
  - apply encodeFrame_Ok. split; [lia|done].
  - pose proof (be_put_get (take 4 q)) as Eq. rewrite E5 in Eq.
    rewrite Hpl, Eh, <- Hc, Eq, <- !app_assoc, take_drop. unfold p, q. by rewrite !take_drop.
  - unfold len in *. rewrite !length_app, !length_be_put. lia.
Qed.

Section codec.
Context {A : Type} `{CborMode A}.

Lemma decodeCanonical_Marshal payload (v : A) :
  decodeCanonical payload = Ok v → cborx.Marshal v = Ok payload.
Proof. unfold decodeCanonical. intros E. ok_inv. bsimpl. by subst. Qed.

Lemma decodeCanonical_text `{CborText A, !CborModeRoundTrip A} payload (v : A) :
  decodeCanonical payload = Ok v → text_valid v = true.
Proof.
  unfold decodeCanonical. intros (x & E & H')%bind_Ok. ok_inv. subst. by eapply cborx.Unmarshal_text.
Qed.

Lemma Marshal_decodeCanonical `{CborText A, !CborModeRoundTrip A} payload (v : A) f :
  cborx.Marshal v = Ok payload → text_valid v = true → encodeFrame payload = Ok f →
  decodeCanonical payload = Ok v.
Proof.
  intros E Ht [Hp _]%encodeFrame_Ok. unfold decodeCanonical.
  rewrite (cborx.Unmarshal_Marshal v) by done. cbn [mbind result_bind]. rewrite E.
  cbn [mbind result_bind]. by rewrite bytes_equal_refl.
Qed.
End codec.

#[global] Instance manifest_text : CborText Manifest.t := λ m,
  texts_valid [m.(Manifest.SchemaVersion); m.(Manifest.CryptoSuite); m.(Manifest.RegistryKeyID);
    m.(Manifest.RegistryAlgorithm); m.(Manifest.RegistryPublicEncoding)].

(** Every string of the file is UTF-8. *)
Definition readable (m : Manifest.t) (evs : list Ev.t) : Prop :=
  text_valid m = true ∧ Forall (λ e, text_valid e = true) evs.

Section proofs.
Context `{HashLib, SigLib, KeyDescriptorLib}.
Context `{CborMode Manifest.t, CborMode KeyEvent.t}.

(** ** The file *)

Definition encodeEvent (event : Ev.t) : result bytes :=
  payload ← cborx.Marshal event; encodeFrame payload.

Fixpoint encodeEvents (evs : list Ev.t) : result bytes :=
  match evs with
  | [] => Ok []
  | e :: evs => f ← encodeEvent e; g ← encodeEvents evs; Ok (f ++ g)
  end.

(** The file of a registry. *)
Definition image (m : Manifest.t) (evs : list Ev.t) : result bytes :=
  payload ← cborx.Marshal m; f ← encodeFrame payload; g ← encodeEvents evs;
  Ok (registryMagic ++ f ++ g).

Lemma encodeEvents_length evs b : encodeEvents evs = Ok b → (length evs <= length b)%nat.
Proof.
  revert b. induction evs as [|e evs IH]; intros b E; cbn in *; ok_inv; [simplify_eq/=; lia|].
  unfold encodeEvent in *. ok_inv. subst. specialize (IH _ ltac:(eassumption)).
  match goal with E : encodeFrame _ = Ok _ |- _ => apply frame_header in E as [_ E] end.
  rewrite length_app. lia.
Qed.

Lemma encodeEvents_snoc evs e b f :
  encodeEvents evs = Ok b → encodeEvent e = Ok f → encodeEvents (evs ++ [e]) = Ok (b ++ f).
Proof.
  revert b. induction evs as [|e' evs IH]; intros b E Ef; cbn in *.
  - ok_inv. simplify_eq. rewrite Ef. cbn. by rewrite app_nil_r.
  - ok_inv. subst. match goal with E : encodeEvent e' = _ |- _ => rewrite E end.
    cbn [mbind result_bind]. erewrite IH by eassumption. cbn. by rewrite app_assoc.
Qed.

Lemma image_Ok m evs f :
  image m evs = Ok f ↔
  ∃ p a b, cborx.Marshal m = Ok p ∧ encodeFrame p = Ok a ∧ encodeEvents evs = Ok b ∧
    f = registryMagic ++ a ++ b.
Proof.
  unfold image. rewrite bind_Ok. setoid_rewrite bind_Ok. setoid_rewrite bind_Ok. split.
  - intros (p & Hp & a & Ha & b & Hb & E). exists p, a, b. split_and!; try done. congruence.
  - intros (p & a & b & Hp & Ha & Hb & ->). eauto 10.
Qed.

Lemma image_snoc m evs e b f :
  image m evs = Ok b → encodeEvent e = Ok f → image m (evs ++ [e]) = Ok (b ++ f).
Proof.
  rewrite !image_Ok. intros (p & a & g & Hp & Ha & Hg & ->) Ef. exists p, a, (g ++ f).
  split_and!; try done; [by apply encodeEvents_snoc|]. by rewrite !app_assoc.
Qed.

(** What the reader makes of the bytes behind the last complete frame. *)
Definition tail_ok (tail : bytes) (truncated : bool) : Prop :=
  ∀ start, readFrame start tail = Ok (if truncated then framePartial else frameEOF).

Lemma tail_nil : tail_ok [] false.
Proof. done. Qed.

Lemma tail_torn p f n :
  encodeFrame p = Ok f → (n < length f)%nat → ∃ b, tail_ok (take n f) b ∧ (b = false → n = O).
Proof.
  intros E Hn. exists (match n with O => false | _ => true end). split; [|by destruct n].
  intros start. rewrite (readFrame_torn p f start n E Hn). by destruct n.
Qed.

Lemma readEvents_complete `{!CborModeRoundTrip KeyEvent.t} evs b tail truncated fuel start acc :
  encodeEvents evs = Ok b → Forall (λ e, text_valid e = true) evs →
  tail_ok tail truncated → (length evs < fuel)%nat →
  readEvents fuel start (b ++ tail) acc = Ret (acc ++ evs, start + len b, truncated).
Proof.
  revert b fuel start acc. induction evs as [|e evs IH]; intros b [|fuel] start acc E Htx Ht Hf;
    try (cbn in Hf; lia); cbn [readEvents].
  - injection E as <-. cbn [app]. rewrite (Ht start). cbn [ret mbind go_bind].
    rewrite app_nil_r. unfold len. cbn. rewrite Z.add_0_r. by destruct truncated.
  - apply Forall_cons in Htx as [Hte Htx]. cbn [encodeEvents] in E. ok_inv. subst.
    unfold encodeEvent in *. ok_inv. rewrite <- app_assoc. erewrite readFrame_complete by eassumption. cbn [ret mbind go_bind].
    erewrite Marshal_decodeCanonical by eassumption. cbn [errorf ret mbind go_bind].
    cbn in Hf. erewrite IH by (eassumption || lia). rewrite <- app_assoc. cbn [app].
    do 3 f_equal. unfold len. rewrite length_app. lia.
Qed.

Lemma readEvents_inv fuel start r acc evs e truncated :
  readEvents fuel start r acc = Ret (evs, e, truncated) →
  ∃ new b tail, evs = acc ++ new ∧ encodeEvents new = Ok b ∧ r = b ++ tail ∧
    (truncated = false → tail = []).
Proof.
  revert start r acc. induction fuel as [|fuel IH]; intros start r acc E; [done|].
  cbn [readEvents] in E. go_inv. destruct x as [p e' rest| |].
  - go_inv. ok_inv. apply IH in E as (new & b & tail & -> & Eb & -> & Ht).
    match goal with E : readFrame _ _ = _ |- _ => apply readFrame_inv in E as (f & Ef & -> & _) end.
    match goal with E : decodeCanonical _ = _ |- _ => apply decodeCanonical_Marshal in E as Em end.
    eexists (_ :: new), (f ++ b), tail. rewrite <- !app_assoc. split; [done|]. split; [|done].
    cbn [encodeEvents]. unfold encodeEvent. rewrite Em. cbn [mbind result_bind]. rewrite Ef.
    cbn [mbind result_bind]. by rewrite Eb.
  - injection E as <- <- <-. exists [], [], r. rewrite app_nil_r. split_and!; try done.
    intros _. match goal with E : readFrame _ _ = _ |- _ => revert E end. unfold readFrame.
    destruct (Z.eqb_spec (len r) 0) as [El|]; [|by repeat case_match].
    intros _. destruct r; [done|]. unfold len in El. cbn in El. lia.
  - injection E as <- <- <-. exists [], [], r. by rewrite app_nil_r.
Qed.

Lemma readEvents_returns fuel start r acc :
  (length r < fuel)%nat → readEvents fuel start r acc ≠ Stuck.
Proof.
  revert start r acc. induction fuel as [|fuel IH]; intros start r acc Hf; [lia|].
  cbn [readEvents]. destruct (readFrame start r) as [[p e rest| |]|] eqn:E; cbn; try done.
  destruct (decodeCanonical p); cbn; [|done]. apply IH.
  apply readFrame_inv in E as (f & Ef & -> & _). apply frame_header in Ef as [_ Ef].
  rewrite length_app in Hf. lia.
Qed.

Lemma readRegistryStream_complete `{!CborModeRoundTrip Manifest.t, !CborModeRoundTrip KeyEvent.t}
    m evs f tail truncated :
  image m evs = Ok f → readable m evs → validateManifest m = Ok tt → tail_ok tail truncated →
  readRegistryStream (f ++ tail) = Ret (m, evs, len f, truncated).
Proof.
  intros (p & a & b & Ep & Ea & Eb & ->)%image_Ok [Htm Hte] Hm Ht. unfold readRegistryStream.
  rewrite <- !app_assoc.
  rewrite (proj2 (Z.ltb_ge _ _)) by (unfold len; rewrite length_app; lia).
  rewrite take_app_length, drop_app_length, bytes_equal_refl. cbn [negb orb].
  erewrite readFrame_complete by eassumption. cbn [ret mbind go_bind].
  erewrite Marshal_decodeCanonical by eassumption. cbn [errorf ret mbind go_bind].
  rewrite Hm. cbn [ret mbind go_bind].
  match goal with E : encodeEvents evs = _ |- _ =>
    pose proof (encodeEvents_length _ _ E); erewrite (readEvents_complete _ _ _ _ _ _ _ E) end;
    [|done|done|rewrite length_app; lia].
  cbn [mbind go_bind app]. do 3 f_equal. unfold len. rewrite !length_app. lia.
Qed.

(** What was read is UTF-8. *)
Lemma readEvents_text `{!CborModeRoundTrip KeyEvent.t} fuel start r acc evs e truncated :
  readEvents fuel start r acc = Ret (evs, e, truncated) →
  Forall (λ e, text_valid e = true) acc → Forall (λ e, text_valid e = true) evs.
Proof.
  revert start r acc. induction fuel as [|fuel IH]; intros start r acc E Ha; [done|].
  cbn [readEvents] in E. go_inv. destruct x as [p e' rest| |]; [|by simplify_eq..].
  go_inv. ok_inv. apply IH in E; [done|]. apply Forall_app. split; [done|].
  apply Forall_singleton. by eapply decodeCanonical_text.
Qed.

Lemma readRegistryStream_text `{!CborModeRoundTrip Manifest.t, !CborModeRoundTrip KeyEvent.t}
    stream m evs e truncated :
  readRegistryStream stream = Ret (m, evs, e, truncated) → readable m evs.
Proof.
  unfold readRegistryStream. intros E. go_inv. destruct x as [p e' rest| |]; [|done..].
  go_inv. ok_inv. destruct x1 as [[evs' e1] tr]. go_inv. simplify_eq.
  split; [by eapply decodeCanonical_text|]. by eapply readEvents_text.
Qed.

Lemma readRegistryStream_inv stream m evs e truncated :
  readRegistryStream stream = Ret (m, evs, e, truncated) →
  validateManifest m = Ok tt ∧
  ∃ f tail, image m evs = Ok f ∧ stream = f ++ tail ∧ (truncated = false → tail = []).
Proof.
  unfold readRegistryStream. intros E. go_inv. bsimpl. destruct x as [p e' rest| |]; [|done..].
  go_inv. ok_inv. destruct x1 as [[evs' e1] tr]. go_inv. simplify_eq.
  match goal with u : unit |- _ => destruct u end.
  match goal with E : readFrame _ _ = _ |- _ => apply readFrame_inv in E as (f & Ef & Er & _) end.
  match goal with E : decodeCanonical _ = _ |- _ => apply decodeCanonical_Marshal in E as Em end.
  match goal with E : readEvents _ _ _ _ = _ |- _ =>
    apply readEvents_inv in E as (new & b & tail & -> & Eb & -> & Ht) end.
  split; [done|]. exists (registryMagic ++ f ++ b), tail. split; [|split; [|done]].
  - apply image_Ok. by exists p, f, b.
  - rewrite <- (take_drop (length registryMagic) stream), Er. rewrite <- !app_assoc. congruence.
Qed.

(** Reading the frames of known events gives these events, or an error. *)
Lemma readEvents_image `{!CborModeInjective KeyEvent.t} evs b fuel start acc evs' e truncated :
  encodeEvents evs = Ok b → readEvents fuel start b acc = Ret (evs', e, truncated) → evs' = acc ++ evs.
Proof.
  revert b fuel start acc. induction evs as [|ev evs IH]; intros b [|fuel] start acc Eb E; try done;
    cbn [readEvents] in E.
  - injection Eb as <-. cbn in E. injection E as <- <- <-. by rewrite app_nil_r.
  - cbn [encodeEvents] in Eb. ok_inv. subst. unfold encodeEvent in *. ok_inv.
    erewrite readFrame_complete in E by eassumption. cbn [ret mbind go_bind] in E.
    destruct (decodeCanonical _) as [v|] eqn:Ev; cbn [errorf ret mbind go_bind] in E; [|done].
    apply decodeCanonical_Marshal in Ev.
    match goal with Em : cborx.Marshal ev = _ |- _ => pose proof (cborx.Marshal_injective _ _ _ Ev Em) as -> end.
    eapply IH in E; [|eassumption]. by rewrite <- app_assoc in E.
Qed.

Lemma readRegistryStream_image `{!CborModeRoundTrip Manifest.t, !CborModeInjective KeyEvent.t}
    m evs f m' evs' e truncated :
  image m evs = Ok f → text_valid m = true → readRegistryStream f = Ret (m', evs', e, truncated) →
  m' = m ∧ evs' = evs.
Proof.
  intros (p & a & b & Ep & Ea & Eb & ->)%image_Ok Htm E. unfold readRegistryStream in E.
  rewrite take_app_length, drop_app_length in E. case_match; [done|].
  erewrite readFrame_complete in E by eassumption. cbn [ret mbind go_bind] in E.
  erewrite Marshal_decodeCanonical in E by eassumption. cbn [errorf ret mbind go_bind] in E.
  destruct (validateManifest m); cbn [ret mbind go_bind] in E; [|done].
  destruct (readEvents _ _ _ _) as [[[??]?]| |] eqn:Er; [|done..]. cbn in E. simplify_eq.
  split; [done|]. by eapply readEvents_image in Er; [|eassumption].
Qed.

Lemma readRegistryStream_returns stream : readRegistryStream stream ≠ Stuck.
Proof.
  unfold readRegistryStream. case_match; [done|].
  destruct (readFrame _ _) as [[p e rest| |]|]; cbn [ret mbind go_bind]; try done.
  destruct (decodeCanonical p) as [m|]; cbn [errorf ret mbind go_bind]; [|done].
  destruct (validateManifest m); cbn [ret mbind go_bind]; [|done].
  pose proof (readEvents_returns (S (length rest)) e rest [] ltac:(lia)) as Hr.
  destruct (readEvents (S (length rest)) e rest []) as [[[??]?]| |]; done.
Qed.

(** ** The chain of events *)

(** Consecutive numbers, linked hashes and signatures under one key. *)
Fixpoint chain (pub : trustcrypto.PublicKeyDescriptor) (i : nat) (prev : bytes) (evs : list Ev.t)
  : Prop :=
  match evs with
  | [] => True
  | e :: evs =>
      e.(Ev.Sequence) = u64 (Z.of_nat i + 1) ∧ e.(Ev.PrevEventHash) = prev ∧
      verifyEvent e pub = Ok tt ∧ hashEvent e = Ok e.(Ev.EventHash) ∧
      chain pub (S i) e.(Ev.EventHash) evs
  end.

(** Every event is allowed after the ones before it; the result holds what
    they say of each key. *)
Fixpoint lifecycle (r : Registry) (evs : list Ev.t) : result Registry :=
  match evs with
  | [] => Ok r
  | e :: evs => _ ← validateNextLocked r e; r ← applyLocked r e; lifecycle r evs
  end.

Lemma loadEvent_Ok r i e r' :
  loadEvent r i e = Ok r' ↔
  (e.(Ev.Sequence) = u64 (Z.of_nat i + 1) ∧ e.(Ev.PrevEventHash) = lastHash r ∧
   verifyEvent e (registryPub r) = Ok tt ∧ hashEvent e = Ok e.(Ev.EventHash)) ∧
  validateNextLocked r e = Ok tt ∧ applyLocked r e = Ok r'.
Proof.
  unfold loadEvent. split.
  - intros E. ok_inv. bsimpl. subst. repeat match goal with u : unit |- _ => destruct u end.
    by split_and!.
  - intros ((-> & -> & -> & ->) & -> & E). rewrite Z.eqb_refl, !bytes_equal_refl. cbn.
    by rewrite bytes_equal_refl.
Qed.

Lemma applyLocked_Ok r e r' :
  applyLocked r e = Ok r' ↔
  ∃ d m, validateEventShape (manifest r).(Manifest.CryptoSuite) e = Ok d ∧
    applyTimelines (byKey r) d e = Ok m ∧
    r' = mkRegistry (signer r) (manifest r) (registryPub r) (events r ++ [e]) m e.(Ev.EventHash)
           (durableEnd r).
Proof.
  unfold applyLocked. split.
  - intros E. ok_inv. eauto.
  - intros (d & m & -> & E & ->). cbn. by rewrite E.
Qed.

Lemma lifecycle_cons r e evs r' :
  lifecycle r (e :: evs) = Ok r' ↔
  validateNextLocked r e = Ok tt ∧ ∃ r1, applyLocked r e = Ok r1 ∧ lifecycle r1 evs = Ok r'.
Proof.
  cbn [lifecycle]. split.
  - intros E. apply bind_Ok in E as ([] & -> & E). apply bind_Ok in E as (r1 & E1 & E). eauto.
  - intros (-> & r1 & E1 & E2). cbn [mbind result_bind]. by rewrite E1.
Qed.

Lemma loadEvents_Ok r i evs r' :
  loadEvents r i evs = Ok r' ↔ chain (registryPub r) i (lastHash r) evs ∧ lifecycle r evs = Ok r'.
Proof.
  revert r i. induction evs as [|e evs IH]; intros r i; cbn [loadEvents chain]; [naive_solver|].
  rewrite lifecycle_cons. split.
  - intros E. apply bind_Ok in E as (r1 & [Hc [? Ha]]%loadEvent_Ok & [Hc' Hl]%IH).
    pose proof Ha as (d & m & _ & _ & ->)%applyLocked_Ok. cbn in Hc'. split; [tauto|]. eauto.
  - intros [Hc (Hn & r1 & Ha & Hl)]. apply bind_Ok. exists r1. rewrite loadEvent_Ok, IH.
    pose proof Ha as (d & m & _ & _ & ->)%applyLocked_Ok. cbn. tauto.
Qed.

Lemma lifecycle_app r evs evs' r' :
  lifecycle r (evs ++ evs') = Ok r' ↔ ∃ r1, lifecycle r evs = Ok r1 ∧ lifecycle r1 evs' = Ok r'.
Proof.
  revert r. induction evs as [|e evs IH]; intros r; cbn [app]; [cbn; naive_solver|].
  rewrite lifecycle_cons. setoid_rewrite IH. setoid_rewrite lifecycle_cons. naive_solver.
Qed.

Lemma chain_snoc pub i prev evs e :
  chain pub i prev (evs ++ [e]) ↔
  chain pub i prev evs ∧
  e.(Ev.Sequence) = u64 (Z.of_nat (i + length evs) + 1) ∧
  e.(Ev.PrevEventHash) = default prev (Ev.EventHash <$> last evs) ∧
  verifyEvent e pub = Ok tt ∧ hashEvent e = Ok e.(Ev.EventHash).
Proof.
  revert i prev. induction evs as [|a evs IH]; intros i prev; cbn [app chain length].
  - rewrite Nat.add_0_r. cbn. naive_solver.
  - rewrite IH. replace (S i + length evs)%nat with (i + S (length evs))%nat by lia.
    rewrite last_cons. destruct (last evs); naive_solver.
Qed.

(** The fields that loading events does not change, and those it sets. *)
Lemma lifecycle_fields r evs r' :
  lifecycle r evs = Ok r' →
  signer r' = signer r ∧ manifest r' = manifest r ∧ registryPub r' = registryPub r ∧
  events r' = events r ++ evs ∧ durableEnd r' = durableEnd r ∧
  lastHash r' = default (lastHash r) (Ev.EventHash <$> last evs).
Proof.
  revert r. induction evs as [|e evs IH]; intros r E.
  - injection E as <-. by rewrite app_nil_r.
  - apply lifecycle_cons in E as (_ & r1 & (d & m & _ & _ & ->)%applyLocked_Ok & E).
    apply IH in E as (-> & -> & -> & -> & -> & ->). cbn. rewrite <- app_assoc, last_cons.
    by destruct (last evs).
Qed.

Lemma validateEventShape_suite suiteID e d :
  validateEventShape suiteID e = Ok d → e.(Ev.CryptoSuite) = suiteID.
Proof. unfold validateEventShape. intros E. apply bind_Ok in E as (_ & _ & E). ok_inv. by bsimpl. Qed.

Lemma lifecycle_suites r evs r' :
  lifecycle r evs = Ok r' →
  Forall (λ e, e.(Ev.CryptoSuite) = (manifest r).(Manifest.CryptoSuite)) evs.
Proof.
  revert r. induction evs as [|e evs IH]; intros r E; [done|].
  apply lifecycle_cons in E as (_ & r1 & (d & m & Hd & _ & ->)%applyLocked_Ok & E).
  apply validateEventShape_suite in Hd. constructor; [done|]. by apply IH in E.
Qed.

(** ** Evidence *)

Lemma samePublicKey_true a b : samePublicKey a b = true ↔ a = b.
Proof.
  unfold samePublicKey. autorewrite with bprop. destruct a, b; cbn. split; [|naive_solver].
  intros ((((-> & ->) & ->) & ->) & ->). done.
Qed.

Lemma publicKey_manifest pub : publicKeyDescriptor (manifestForPublicKey pub) = pub.
Proof. by destruct pub. Qed.

(** A key that a verifier may trust. *)
Definition trusted_key (pub : trustcrypto.PublicKeyDescriptor) : Prop :=
  0 < len (trustcrypto.Bytes pub) ∧ TrimSpace (trustcrypto.KeyID pub) ≠ "" ∧
  trustcrypto.ValidatePublicKeyForSuite (trustcrypto.Suite pub) pub = Ok tt.

Lemma trusted_manifest pub : trusted_key pub → validateManifest (manifestForPublicKey pub) = Ok tt.
Proof.
  intros (_ & Hk & Hv). unfold validateManifest. rewrite publicKey_manifest.
  cbn [manifestForPublicKey Manifest.SchemaVersion Manifest.FormatVersion Manifest.RegistryKeyID
    Manifest.CryptoSuite]. apply seqb_false in Hk. by rewrite Hk, Hv.
Qed.

(** A valid manifest with the trusted key is the one the key determines. *)
Lemma manifest_determined m pub :
  validateManifest m = Ok tt → publicKeyDescriptor m = pub → m = manifestForPublicKey pub.
Proof.
  unfold validateManifest. intros E <-. ok_inv. bsimpl. destruct m; cbn in *. by subst.
Qed.

Lemma loadEvents_new s m d evs r :
  loadEvents (newRegistry s m d) 0 evs = Ok r ↔
  chain (publicKeyDescriptor m) 0 [] evs ∧ lifecycle (newRegistry s m d) evs = Ok r.
Proof. apply loadEvents_Ok. Qed.

(** What [OpenEvidence] accepts. *)
Lemma evidence_Ret `{!CborModeRoundTrip Manifest.t, !CborModeRoundTrip KeyEvent.t} data pub r :
  OpenEvidence data pub = Ret r ↔
    trusted_key pub ∧
    ∃ evs, image (manifestForPublicKey pub) evs = Ok data ∧
      readable (manifestForPublicKey pub) evs ∧ chain pub 0 [] evs ∧
      lifecycle (newRegistry None (manifestForPublicKey pub) 0) evs = Ok r.
Proof.
  unfold OpenEvidence. split.
  - intros E. go_inv. ok_inv. destruct x0 as [[[m evs] e] tr]. go_inv. bsimpl.
    repeat match goal with u : unit |- _ => destruct u end.
    match goal with E : samePublicKey _ _ = true |- _ => apply samePublicKey_true in E as Hpub end.
    match goal with E : readRegistryStream _ = _ |- _ =>
      pose proof (readRegistryStream_text _ _ _ _ _ E) as Htx;
      apply readRegistryStream_inv in E as (Hm & f & tail & Hf & -> & Ht) end.
    subst tr. rewrite Ht, app_nil_r by done. pose proof (manifest_determined m pub Hm Hpub) as ->.
    match goal with E : loadEvents _ _ _ = _ |- _ => apply loadEvents_new in E as [Hc Hl] end.
    rewrite publicKey_manifest in Hc. pose proof (len_nonneg (trustcrypto.Bytes pub)).
    split; [split_and!; [lia|done|done]|]. by exists evs.
  - intros [Ht (evs & Hi & Htx & Hc & Hl)]. pose proof (trusted_manifest _ Ht) as Hm.
    destruct Ht as (Hb & Hk & Hv). apply seqb_false in Hk.
    pose proof (readRegistryStream_complete _ _ _ [] false Hi Htx Hm tail_nil) as Hs.
    rewrite app_nil_r in Hs.
    rewrite (proj2 (Z.eqb_neq (len data) 0)), (proj2 (Z.eqb_neq _ 0)), Hk.
    2: lia.
    2: { apply image_Ok in Hi as (p & a & b & _ & _ & _ & ->). unfold len. rewrite length_app. cbn. lia. }
    cbn [orb]. rewrite Hv. cbn [errorf ret mbind go_bind]. rewrite Hs. cbn [mbind go_bind].
    rewrite (proj2 (samePublicKey_true _ _)) by apply publicKey_manifest. cbn [negb].
    apply ret_Ret, loadEvents_new. by rewrite publicKey_manifest.
Qed.

(** C34: registry evidence is read exactly.  [OpenEvidence] accepts a file under a
    trusted key exactly when the file is, byte for byte, the encoding of the
    manifest of that key followed by complete canonical frames of events whose
    strings are UTF-8 and that are consecutively numbered, linked by their
    hashes, signed by the trusted key and allowed by the lifecycle of the keys;
    the registry it returns is the one these events produce.  How a file that is
    not accepted is refused is not claimed: decoding the key descriptor of an
    event may panic. *)
Theorem evidence_exact `{!CborModeRoundTrip Manifest.t, !CborModeRoundTrip KeyEvent.t} data pub r :
  OpenEvidence data pub = Ret r ↔
    trusted_key pub ∧
    ∃ evs, image (manifestForPublicKey pub) evs = Ok data ∧
      readable (manifestForPublicKey pub) evs ∧ chain pub 0 [] evs ∧
      lifecycle (newRegistry None (manifestForPublicKey pub) 0) evs = Ok r.
Proof. apply evidence_Ret. Qed.

(** The loops over the frames and the events end.  This says nothing of the
    descriptors in the events: the interface [KeyDescriptorLib] has no panics. *)
Lemma evidence_loops_end data pub : OpenEvidence data pub ≠ Stuck.
Proof.
  unfold OpenEvidence.
  pose proof (readRegistryStream_returns data).
  repeat (case_match; try done). destruct (errorf _ _); cbn [ret mbind go_bind]; [|done].
  destruct (readRegistryStream data) as [[[[??]?]?]| |]; cbn [mbind go_bind]; repeat case_match; try done.
  by destruct (loadEvents _ _ _).
Qed.

(** What is hashed for an event. *)
Definition hashInput (event : Ev.t) : result bytes :=
  suite ← cryptosuite.RequireKnown event.(Ev.CryptoSuite);
  payload ← cborx.Marshal (Ev.set_EventHash [] event);
  Ok (domainInput (cryptosuite.KeyEventHashDomain (cryptosuite.Domains suite)) payload).

(** Two different inputs with the same digest. *)
Definition hash_collision (e1 e2 : Ev.t) : Prop :=
  ∃ x y h, hashInput e1 = Ok x ∧ hashInput e2 = Ok y ∧ x ≠ y ∧ hashEvent e1 = Ok h ∧ hashEvent e2 = Ok h.

Lemma hashEvent_input e h :
  hashEvent e = Ok h → ∃ s b, cryptosuite.RequireKnown e.(Ev.CryptoSuite) = Ok s ∧
    cborx.Marshal (Ev.set_EventHash [] e) = Ok b ∧
    hashInput e = Ok (domainInput (cryptosuite.KeyEventHashDomain (cryptosuite.Domains s)) b).
Proof.
  unfold hashEvent, hashInput. intros E. ok_inv.
  repeat match goal with E : _ = Ok _ |- _ => rewrite E; clear E end. eauto 10.
Qed.

Lemma event_binds `{!CborModeInjective KeyEvent.t} e1 e2 :
  e1.(Ev.CryptoSuite) = e2.(Ev.CryptoSuite) →
  hashEvent e1 = Ok e1.(Ev.EventHash) → hashEvent e2 = Ok e2.(Ev.EventHash) →
  e1.(Ev.EventHash) = e2.(Ev.EventHash) → e1 = e2 ∨ hash_collision e1 e2.
Proof.
  intros Hs H1' H2' E. destruct (hashEvent_input _ _ H1') as (s1 & b1 & Hs1 & Hb1 & Hi1).
  destruct (hashEvent_input _ _ H2') as (s2 & b2 & Hs2 & Hb2 & Hi2).
  rewrite Hs, Hs2 in Hs1. injection Hs1 as <-.
  destruct (decide (b1 = b2)) as [-> |Hne].
  - left. pose proof (cborx.Marshal_injective _ _ _ Hb1 Hb2) as Ee.
    destruct e1, e2; cbn in *. by simplify_eq.
  - right. do 3 eexists. split_and!; [done|done| |done|by rewrite E]. unfold domainInput.
    intros E'. by simplify_list_eq.
Qed.

Lemma event_chain_binds `{!CborModeInjective KeyEvent.t} pub s evs1 evs2 :
  chain pub 0 [] evs1 → chain pub 0 [] evs2 →
  Forall (λ e, e.(Ev.CryptoSuite) = s) evs1 → Forall (λ e, e.(Ev.CryptoSuite) = s) evs2 →
  length evs1 = length evs2 →
  default [] (Ev.EventHash <$> last evs1) = default [] (Ev.EventHash <$> last evs2) →
  evs1 = evs2 ∨ ∃ i e1 e2, evs1 !! i = Some e1 ∧ evs2 !! i = Some e2 ∧ hash_collision e1 e2.
Proof.
  revert evs2. induction evs1 as [|e1 evs1 IH] using rev_ind; intros evs2 Hc1 Hc2 Hs1 Hs2 Hl Hh.
  { left. by destruct evs2. }
  destruct evs2 as [|e2 evs2 _] using rev_ind; [rewrite length_app in Hl; cbn in Hl; lia|].
  rewrite !length_app in Hl. cbn in Hl. rewrite !last_snoc in Hh. cbn in Hh.
  apply chain_snoc in Hc1 as (Hc1 & _ & Hp1 & _ & He1).
  apply chain_snoc in Hc2 as (Hc2 & _ & Hp2 & _ & He2).
  apply Forall_app in Hs1 as [Hs1 Ha1], Hs2 as [Hs2 Ha2].
  apply Forall_cons in Ha1 as [Ha1 _], Ha2 as [Ha2 _]. cbn beta in Ha1, Ha2.
  destruct (event_binds e1 e2) as [<- |Hcol]; [congruence|done|done|done| |].
  - destruct (IH evs2) as [<- |(i & x & y & Hx & Hy & Hcol)]; try done; [lia|congruence|by left|].
    right. exists i, x, y. rewrite !lookup_app_l by (eapply lookup_lt_Some; eassumption). done.
  - right. exists (length evs1), e1, e2.
    rewrite (lookup_app_r evs1), (lookup_app_r evs2) by lia.
    replace (length evs1 - length evs2)%nat with 0%nat by lia. by rewrite Nat.sub_diag.
Qed.

(** A registry file is bound by its last hash. Two files that are accepted
    under the same trusted key, with the same number of events and the same
    last event hash, are equal byte for byte, or two events at the same place
    are a collision of the key-event hash: an event can be neither removed,
    changed, reordered nor inserted behind a known head. *)
Theorem evidence_binds `{!CborModeRoundTrip Manifest.t, !CborModeRoundTrip KeyEvent.t,
    !CborModeInjective KeyEvent.t} data1 data2 pub r1 r2 :
  OpenEvidence data1 pub = Ret r1 → OpenEvidence data2 pub = Ret r2 →
  length (events r1) = length (events r2) → lastHash r1 = lastHash r2 →
  data1 = data2 ∨
  ∃ i e1 e2, events r1 !! i = Some e1 ∧ events r2 !! i = Some e2 ∧ hash_collision e1 e2.
Proof.
  intros (_ & evs1 & Hi1 & _ & Hc1 & Hl1)%evidence_Ret (_ & evs2 & Hi2 & _ & Hc2 & Hl2)%evidence_Ret.
  pose proof (lifecycle_fields _ _ _ Hl1) as (_ & _ & _ & -> & _ & ->).
  pose proof (lifecycle_fields _ _ _ Hl2) as (_ & _ & _ & -> & _ & ->).
  apply lifecycle_suites in Hl1, Hl2. cbn [newRegistry events lastHash app] in *. intros Hn Hh.
  destruct (event_chain_binds pub _ evs1 evs2 Hc1 Hc2 Hl1 Hl2 Hn Hh) as [-> |]; [left; congruence|by right].
Qed.
End proofs.

End keystore_proofs.
