(* ===== verification/KeyLifecycle.v ===== *)
(** * Validity of client keys

    What the timelines of a registry hold is what its events say, and a lookup
    at a time answers from the events alone. *)

From S2P Require Import Prelude TrustErr CryptoSuite Model TrustCrypto Cborx KeyDescriptor ModelSuite.
From S2P Require Import Wal KeyStore KeyStoreProofs.

Module keylifecycle.
Import keystore keystore_proofs.

(** ** What an event says of the key [id] *)

Definition registers (id : string) (e : Ev.t) : Prop :=
  (e.(Ev.Type_) = KeyEventRegister ∨ e.(Ev.Type_) = KeyEventRotate) ∧ event_id e = id.
Definition rotates (id : string) (e : Ev.t) : Prop :=
  e.(Ev.Type_) = KeyEventRotate ∧ previous_id e = id.
Definition revokes (id : string) (e : Ev.t) : Prop :=
  e.(Ev.Type_) = KeyEventRevoke ∧ event_id e = id.
Definition compromises (id : string) (e : Ev.t) : Prop :=
  e.(Ev.Type_) = KeyEventCompromise ∧ event_id e = id.

(** At most one event of the list satisfies [P], and it is the given one. *)
Definition only (P : Ev.t → Prop) (evs : list Ev.t) (o : option Ev.t) : Prop :=
  ∀ e, o = Some e ↔ e ∈ evs ∧ P e.

Lemma only_skip P evs o e : ¬ P e → only P evs o → only P (evs ++ [e]) o.
Proof.
  intros Hp Ho x. rewrite (Ho x), elem_of_app, list_elem_of_singleton. naive_solver.
Qed.

Lemma only_set P evs e : P e → only P evs None → only P (evs ++ [e]) (Some e).
Proof.
  intros Hp Ho x. rewrite elem_of_app, list_elem_of_singleton.
  specialize (Ho x). naive_solver.
Qed.

Lemma only_nil P : only P [] None.
Proof. intros e. set_solver. Qed.

(** ** Identities *)

Lemma string_app_inj a b c : (a ++ b)%string = (a ++ c)%string → b = c.
Proof. induction a as [|x a IH]; cbn; [done|]. intros [=]. auto. Qed.

Lemma identity_key t c k k' : identity t c k = identity t c k' → k = k'.
Proof. unfold identity. by intros E%string_app_inj%string_app_inj%string_app_inj%string_app_inj. Qed.

Definition nul_free (s : string) : Prop := x00 ∉ bytes_of_string s.
#[global] Instance nul_free_dec s : Decision (nul_free s).
Proof. unfold nul_free. apply _. Defined.

Lemma bytes_of_string_app a b :
  bytes_of_string (a ++ b) = bytes_of_string a ++ bytes_of_string b.
Proof.
  unfold bytes_of_string, String.list_byte_of_string.
  induction a as [|x a IH]; [done|].
  change (String x a ++ b)%string with (String x (a ++ b)). cbn [String.list_ascii_of_string map app].
  by rewrite IH.
Qed.

Lemma split_at_nul (a a' b b' : bytes) :
  x00 ∉ a → x00 ∉ a' → a ++ x00 :: b = a' ++ x00 :: b' → a = a' ∧ b = b'.
Proof.
  revert a'. induction a as [|x a IH]; intros [|y a'] Ha Ha' E; cbn in *; simplify_eq; try set_solver.
  destruct (IH a') as [-> ->]; set_solver.
Qed.

(** Tenants and clients without NUL bytes are determined by the identity. *)
Lemma key_identity_inj t c k t' c' k' :
  nul_free t → nul_free c → nul_free t' → nul_free c' →
  identity t c k = identity t' c' k' → t = t' ∧ c = c' ∧ k = k'.
Proof.
  unfold nul_free, identity. intros Ht Hc Ht' Hc' E. apply (f_equal bytes_of_string) in E.
  rewrite !bytes_of_string_app in E. change (bytes_of_string NUL) with [x00] in E.
  cbn [app] in E. apply split_at_nul in E as [E1 E]; [|done..].
  apply split_at_nul in E as [E2 E3]; [|done..].
  by apply bytes_of_string_inj in E1, E2, E3.
Qed.

Section lookups.
Context `{HashLib, SigLib, KeyDescriptorLib}.
Context `{CborMode Manifest.t, CborMode KeyEvent.t}.

(** ** Timelines *)

(** The descriptor is the one of the registration, for the key and suite. *)
Definition described (suiteID : cryptosuite.ID) (tl : keyTimeline) : Prop :=
  is_ok (cryptosuite.RequireKnown suiteID) = true ∧
  keydescriptor_Unmarshal (registered tl).(Ev.KeyDescriptor) = Ok (descriptor tl) ∧
  (descriptor tl).(Descriptor.KeyID) = (registered tl).(Ev.KeyID) ∧
  (descriptor tl).(Descriptor.CryptoSuite) = suiteID.

Definition timelines (suiteID : cryptosuite.ID) (evs : list Ev.t) (m : gmap string keyTimeline)
  : Prop :=
  ∀ id, only (registers id) evs (registered <$> m !! id) ∧ only (rotates id) evs (m !! id ≫= rotated) ∧
    only (revokes id) evs (m !! id ≫= revoked) ∧ only (compromises id) evs (m !! id ≫= compromised) ∧
    ∀ tl, m !! id = Some tl → described suiteID tl.

Lemma timelines_nil suiteID : timelines suiteID [] ∅.
Proof. intros id. rewrite lookup_empty. split_and!; try apply only_nil. done. Qed.

Lemma shape_registration suiteID e d :
  validateEventShape suiteID e = Ok d →
  e.(Ev.Type_) = KeyEventRegister ∨ e.(Ev.Type_) = KeyEventRotate →
  described suiteID (mkTimeline e d None None None) ∧
  (e.(Ev.Type_) = KeyEventRotate → e.(Ev.PreviousKeyID) ≠ e.(Ev.KeyID)).
Proof.
  intros E Ht. unfold validateEventShape in E. apply bind_Ok in E as ([] & Hk & E).
  apply errorf_Ok, modelsuite.Require_Ok in Hk as [Hk _].
  do 4 (apply if_Err_Ok in E as [_ E]).
  assert (seqb e.(Ev.Type_) KeyEventRegister || seqb e.(Ev.Type_) KeyEventRotate = true) as Hb
    by (autorewrite with bprop; tauto).
  rewrite Hb in E. unfold registrationShape in E. ok_inv. bsimpl.
  destruct (seqb e.(Ev.Type_) KeyEventRotate) eqn:Er; ok_inv; bsimpl; subst; by split_and!.
Qed.

(** An event that does not concern the key. *)
Ltac no_event :=
  first [assumption | unfold registers, rotates, revokes, compromises in *; intuition congruence].

(** The types of events are different strings. *)
Lemma event_types :
  KeyEventRegister ≠ KeyEventRotate ∧ KeyEventRegister ≠ KeyEventRevoke ∧
  KeyEventRegister ≠ KeyEventCompromise ∧ KeyEventRotate ≠ KeyEventRevoke ∧
  KeyEventRotate ≠ KeyEventCompromise ∧ KeyEventRevoke ≠ KeyEventCompromise.
Proof. by split_and!. Qed.

(** An event leaves the timeline of a key alone that it does not concern. *)
Lemma timelines_skip suiteID evs (m m' : gmap string keyTimeline) e id :
  timelines suiteID evs m → m' !! id = m !! id →
  ¬ registers id e → ¬ rotates id e → ¬ revokes id e → ¬ compromises id e →
  only (registers id) (evs ++ [e]) (registered <$> m' !! id) ∧
  only (rotates id) (evs ++ [e]) (m' !! id ≫= rotated) ∧
  only (revokes id) (evs ++ [e]) (m' !! id ≫= revoked) ∧
  only (compromises id) (evs ++ [e]) (m' !! id ≫= compromised) ∧
  ∀ tl, m' !! id = Some tl → described suiteID tl.
Proof.
  intros Hm -> ????. destruct (Hm id) as (? & ? & ? & ? & ?). split_and!; by auto using only_skip.
Qed.

(** A registered key: no event has concerned it before. *)
Lemma timelines_new suiteID evs m e d id :
  timelines suiteID evs m → m !! id = None → registers id e → ¬ rotates id e →
  described suiteID (mkTimeline e d None None None) →
  only (registers id) (evs ++ [e]) (Some e) ∧ only (rotates id) (evs ++ [e]) None ∧
  only (revokes id) (evs ++ [e]) None ∧ only (compromises id) (evs ++ [e]) None ∧
  ∀ tl, Some (mkTimeline e d None None None) = Some tl → described suiteID tl.
Proof.
  intros Hm E Hr Hnr Hd. pose proof event_types.
  destruct (Hm id) as (Ho1 & Ho2 & Ho3 & Ho4 & _). rewrite E in *. cbn in *.
  split_and!; [by apply only_set|apply only_skip; [no_event|done]..|by intros tl [= <-]].
Qed.

Lemma is_some_false {A} (o : option A) : is_some o = false → o = None.
Proof. by destruct o. Qed.

Lemma timelines_step r evs e d m' :
  timelines (manifest r).(Manifest.CryptoSuite) evs (byKey r) →
  validateNextLocked r e = Ok tt →
  validateEventShape (manifest r).(Manifest.CryptoSuite) e = Ok d →
  applyTimelines (byKey r) d e = Ok m' →
  timelines (manifest r).(Manifest.CryptoSuite) (evs ++ [e]) m'.
Proof.
  intros Hm Hn Hd Ha id. pose proof (shape_registration _ _ _ Hd) as Hshape.
  pose proof event_types as Hty. unfold validateNextLocked in Hn. rewrite Hd in Hn.
  cbn [mbind result_bind] in Hn. unfold applyTimelines in Ha.
  destruct (seqb e.(Ev.Type_) KeyEventRegister) eqn:E1; [|
  destruct (seqb e.(Ev.Type_) KeyEventRotate) eqn:E2; [|
  destruct (seqb e.(Ev.Type_) KeyEventRevoke) eqn:E3; [|
  destruct (seqb e.(Ev.Type_) KeyEventCompromise) eqn:E4; [|done]]]]; bsimpl;
    injection Ha as <-; destruct (byKey r !! event_id e) as [tl|] eqn:Eid; try done.
  - destruct (decide (id = event_id e)) as [-> |].
    2: { eapply timelines_skip; [done|by apply lookup_insert_ne|no_event..]. }
    rewrite lookup_insert_eq. eapply timelines_new; [done..|no_event|no_event|apply Hshape; by left].
  - destruct (byKey r !! previous_id e) as [tl|] eqn:Ep; [|done]. ok_inv. bsimpl.
    destruct Hshape as (? & Hne); [by right|].
    assert (event_id e ≠ previous_id e) as Hid by (intros Heq%identity_key; naive_solver).
    destruct (decide (id = event_id e)) as [-> |].
    { rewrite lookup_insert_eq. eapply timelines_new; [done..|no_event|no_event|done]. }
    destruct (decide (id = previous_id e)) as [-> |].
    2: { eapply timelines_skip; [done|by rewrite !lookup_insert_ne|no_event..]. }
    rewrite lookup_insert_ne, lookup_insert_eq by done.
    destruct (Hm (previous_id e)) as (Ho1 & Ho2 & Ho3 & Ho4 & Ho5). rewrite Ep in *. cbn in *.
    rewrite (is_some_false (rotated tl)) in * by done.
    split_and!; try (apply only_skip; [no_event|done]); [by apply only_set|].
    intros tl' [= <-]. by apply (Ho5 tl).
  (* a revocation or a compromise: one field of one timeline is set *)
  - ok_inv. bsimpl. destruct (decide (id = event_id e)) as [-> |].
    2: { eapply timelines_skip; [done|by apply lookup_insert_ne|no_event..]. }
    rewrite lookup_insert_eq. destruct (Hm (event_id e)) as (Ho1 & Ho2 & Ho3 & Ho4 & Ho5).
    rewrite Eid in *. cbn in *. rewrite (is_some_false (revoked tl)) in * by done.
    split_and!; try (apply only_skip; [no_event|done]); [by apply only_set|].
    intros tl' [= <-]. by apply (Ho5 tl).
  - ok_inv. bsimpl. destruct (decide (id = event_id e)) as [-> |].
    2: { eapply timelines_skip; [done|by apply lookup_insert_ne|no_event..]. }
    rewrite lookup_insert_eq. destruct (Hm (event_id e)) as (Ho1 & Ho2 & Ho3 & Ho4 & Ho5).
    rewrite Eid in *. cbn in *. rewrite (is_some_false (compromised tl)) in * by done.
    split_and!; try (apply only_skip; [no_event|done]); [by apply only_set|].
    intros tl' [= <-]. by apply (Ho5 tl).
Qed.

(** The timelines of a registry hold what its events say. *)
Definition coherent (r : Registry) : Prop :=
  timelines (manifest r).(Manifest.CryptoSuite) (events r) (byKey r).

Lemma lifecycle_coherent r evs r' : coherent r → lifecycle r evs = Ok r' → coherent r'.
Proof.
  revert r. induction evs as [|e evs IH]; intros r Hr E; [by injection E as <-|].
  apply lifecycle_cons in E as (Hn & r1 & (d & m & Hd & Ha & ->)%applyLocked_Ok & E).
  eapply IH; [|exact E]. unfold coherent. cbn. by eapply timelines_step.
Qed.

Lemma new_coherent s m d : coherent (newRegistry s m d).
Proof. apply timelines_nil. Qed.

(** Every registry in memory comes from the events it holds. *)
Definition loaded (r : Registry) : Prop :=
  ∃ s m d, lifecycle (newRegistry s m d) (events r) = Ok r.

Lemma loaded_coherent r : loaded r → coherent r.
Proof. intros (s & m & d & E). eapply lifecycle_coherent; [apply new_coherent|exact E]. Qed.

(** ** Lookups *)

(** No retirement of the timeline has happened at [atN]. *)
Definition unretired (tl : keyTimeline) (atN : Z) : Prop :=
  (∀ e, rotated tl = Some e → atN < e.(Ev.RotatedAtUnixN)) ∧
  (∀ e, revoked tl = Some e → atN < e.(Ev.RevokedAtUnixN)) ∧
  (∀ e, compromised tl = Some e → atN < e.(Ev.CompromisedAtUnixN)).

Lemma applyStatus_live tl atN key : unretired tl atN → applyStatus tl atN key = key.
Proof.
  intros (H1' & H2' & H3'). unfold applyStatus.
  destruct (rotated tl) as [x|]; [rewrite (proj2 (Z.leb_gt _ _) (H1' x eq_refl))|];
  (destruct (revoked tl) as [y|]; [rewrite (proj2 (Z.leb_gt _ _) (H2' y eq_refl))|]);
  (destruct (compromised tl) as [z|]; [rewrite (proj2 (Z.leb_gt _ _) (H3' z eq_refl))|]); done.
Qed.

Lemma applyStatus_valid tl atN key :
  (applyStatus tl atN key).(ClientKey.Status) = KeyStatusValid → unretired tl atN.
Proof.
  unfold applyStatus, unretired. intros E.
  destruct (rotated tl) as [x|], (revoked tl) as [y|], (compromised tl) as [z|];
    repeat match type of E with context [?a <=? atN] => destruct (Z.leb_spec a atN) end;
    try discriminate E; split_and!; intros ? [= <-]; lia.
Qed.

(** The key of a registration. *)
Definition keyOf (t c : string) (reg : Ev.t) (d : Descriptor.t) : ClientKey.t :=
  clientKeyFromTimeline t c (mkTimeline reg d None None None).

(** The key suite check of a lookup never fails. *)
Lemma described_suite suiteID t c tl :
  described suiteID tl →
  modelsuite.Require_ suiteID (modelsuite.AnyClientKey (clientKeyFromTimeline t c tl)) = Ok tt.
Proof.
  intros (Hk & Hd & _ & Hs). apply modelsuite.Require_Ok. split; [done|].
  cbn [modelsuite.suites clientKeyFromTimeline ClientKey.CryptoSuite ClientKey.KeyDescriptor].
  unfold modelsuite.descriptor_suites. rewrite Hd, Hs. case_match; cbn; eexists; (split; [done|]);
    intros ? ? [= <- <-]; by repeat constructor.
Qed.

(** [reg] registers the key [id] in [evs] and the key is valid at [atN]. *)
Definition live (evs : list Ev.t) (id : string) (atN : Z) (reg : Ev.t) : Prop :=
  reg ∈ evs ∧ registers id reg ∧ reg.(Ev.ValidFromUnixN) <= atN ∧
  (reg.(Ev.ValidUntilUnixN) = 0 ∨ atN < reg.(Ev.ValidUntilUnixN)) ∧
  ∀ e, e ∈ evs → (rotates id e → atN < e.(Ev.RotatedAtUnixN)) ∧
    (revokes id e → atN < e.(Ev.RevokedAtUnixN)) ∧
    (compromises id e → atN < e.(Ev.CompromisedAtUnixN)).

Lemma lookup_live r t c k atN key :
  coherent r →
  LookupClientKeyAt r t c k atN = (key, None) ↔
  ∃ reg d, live (events r) (identity t c k) atN reg ∧
    keydescriptor_Unmarshal reg.(Ev.KeyDescriptor) = Ok d ∧ key = keyOf t c reg d.
Proof.
  intros Hr. destruct (Hr (identity t c k)) as (Ho1 & Ho2 & Ho3 & Ho4 & Ho5).
  unfold LookupClientKeyAt, live. set (id := identity t c k) in *.
  destruct (byKey r !! id) as [tl|]; cbn in Ho1, Ho2, Ho3, Ho4.
  2: { split; [done|]. intros (reg & d & (Hin & Hreg & _) & _).
       by discriminate (proj2 (Ho1 reg) (conj Hin Hreg)). }
  specialize (Ho5 tl eq_refl). rewrite (described_suite _ t c tl Ho5).
  destruct Ho5 as (_ & Hd & _). destruct (proj1 (Ho1 (registered tl)) eq_refl) as [Hin Hreg].
  split.
  - intros E. destruct (Z.ltb_spec atN (registered tl).(Ev.ValidFromUnixN)); [done|].
    destruct (negb _ && _) eqn:Eu; [done|]. case_match eqn:Es; [done|]. injection E as <-. bsimpl.
    apply applyStatus_valid in Es as Hu. rewrite applyStatus_live by done. destruct Hu as (Hu1 & Hu2 & Hu3).
    exists (registered tl), (descriptor tl). split_and!; try done.
    + apply andb_false_iff in Eu as [Eu|Eu]; bsimpl; auto.
    + intros e He. split_and!; intros Hp; [apply Hu1, Ho2|apply Hu2, Ho3|apply Hu3, Ho4]; done.
  - intros (reg & d & (Hin' & Hreg' & Hf & Hu & He) & Hd' & ->).
    assert (registered tl = reg) as Er by (assert (Some (registered tl) = Some reg) as [= ->] by (by apply Ho1); done).
    rewrite Er in *. rewrite Hd in Hd'. injection Hd' as <-.
    rewrite (proj2 (Z.ltb_ge _ _)) by done.
    replace (negb _ && _) with false.
    2: { symmetry. apply andb_false_iff. autorewrite with bprop. destruct Hu as [->|]; [by left|right; lia]. }
    rewrite applyStatus_live.
    + unfold keyOf, clientKeyFromTimeline. cbn. by rewrite Er.
    + split_and!; intros e Ee;
        [apply Ho2 in Ee as [Ei Ep]|apply Ho3 in Ee as [Ei Ep]|apply Ho4 in Ee as [Ei Ep]];
        destruct (He e Ei) as (? & ? & ?); auto.
Qed.

(** The same with the names of the key instead of its identity string. *)
Definition admissible (evs : list Ev.t) (t c k : string) (atN : Z) (reg : Ev.t) : Prop :=
  reg ∈ evs ∧ (reg.(Ev.Type_) = KeyEventRegister ∨ reg.(Ev.Type_) = KeyEventRotate) ∧
  reg.(Ev.TenantID) = t ∧ reg.(Ev.ClientID) = c ∧ reg.(Ev.KeyID) = k ∧
  reg.(Ev.ValidFromUnixN) <= atN ∧
  (reg.(Ev.ValidUntilUnixN) = 0 ∨ atN < reg.(Ev.ValidUntilUnixN)) ∧
  ∀ e, e ∈ evs → e.(Ev.TenantID) = t → e.(Ev.ClientID) = c →
    (e.(Ev.Type_) = KeyEventRotate → e.(Ev.PreviousKeyID) = k → atN < e.(Ev.RotatedAtUnixN)) ∧
    (e.(Ev.Type_) = KeyEventRevoke → e.(Ev.KeyID) = k → atN < e.(Ev.RevokedAtUnixN)) ∧
    (e.(Ev.Type_) = KeyEventCompromise → e.(Ev.KeyID) = k → atN < e.(Ev.CompromisedAtUnixN)).

(** No tenant or client of the events has a NUL byte in its name. *)
Definition plain_names (evs : list Ev.t) : Prop :=
  ∀ e, e ∈ evs → nul_free e.(Ev.TenantID) ∧ nul_free e.(Ev.ClientID).

Lemma live_admissible evs t c k atN reg :
  plain_names evs → nul_free t → nul_free c →
  live evs (identity t c k) atN reg ↔ admissible evs t c k atN reg.
Proof.
  intros Hp Ht Hc. unfold live, admissible, registers, rotates, revokes, compromises.
  assert (∀ e k', e ∈ evs → identity e.(Ev.TenantID) e.(Ev.ClientID) k' = identity t c k →
    e.(Ev.TenantID) = t ∧ e.(Ev.ClientID) = c ∧ k' = k) as Hid.
  { intros e k' He E. destruct (Hp e He). by apply key_identity_inj in E. }
  unfold event_id, previous_id. split.
  - intros (Hin & [Hty Hi] & Hf & Hu & He). destruct (Hid _ _ Hin Hi) as (? & ? & ?).
    split_and!; try done. intros e Hine <- <-. destruct (He e Hine) as (? & ? & ?).
    split_and!; intros ? <-; auto.
  - intros (Hin & Hty & <- & <- & <- & Hf & Hu & He). split_and!; try done.
    intros e Hine.
    split_and!; intros [Hte Hi]; destruct (Hid _ _ Hine Hi) as (H1' & H2' & H3');
      destruct (He e Hine H1' H2') as (? & ? & ?); auto.
Qed.

(** C30: a lookup answers from the events. For every registry, a key is valid at
    a time, and the lookup returns it, exactly when the registry holds a
    registration or rotation that introduced the key for this tenant and
    client, the time is in its validity interval, and no rotation away from
    the key, no revocation and no compromise of it takes effect at or before
    that time; the returned key material is that of the registration. Names of
    tenants and clients are assumed not to contain NUL bytes. *)
Theorem lookup_spec r t c k atN key :
  loaded r → plain_names (events r) → nul_free t → nul_free c →
  LookupClientKeyAt r t c k atN = (key, None) ↔
  ∃ reg d, admissible (events r) t c k atN reg ∧
    keydescriptor_Unmarshal reg.(Ev.KeyDescriptor) = Ok d ∧ key = keyOf t c reg d.
Proof.
  intros Hr%loaded_coherent Hp Ht Hc. rewrite lookup_live by done.
  by setoid_rewrite live_admissible.
Qed.

(** Retirement is final. Whatever events are added to a registry, a key that
    it knows and that it does not accept at a time is not accepted at that
    time by the extended registry either, and a key that is still accepted
    has the material it had. *)
Theorem retired_for_good r evs r' t c k atN key reg :
  loaded r → lifecycle r evs = Ok r' → reg ∈ events r → registers (identity t c k) reg →
  LookupClientKeyAt r' t c k atN = (key, None) → LookupClientKeyAt r t c k atN = (key, None).
Proof.
  intros Hr%loaded_coherent Hl Hin Hreg. pose proof (lifecycle_coherent _ _ _ Hr Hl) as Hr'.
  pose proof (lifecycle_fields _ _ _ Hl) as (_ & _ & _ & He & _).
  rewrite !lookup_live by done. rewrite He.
  intros (reg' & d & (Hin' & Hreg' & Hf & Hu & Hall) & Hd & Hk). exists reg', d.
  split; [|done]. destruct (Hr' (identity t c k)) as (Ho & _).
  assert (reg = reg') as ->.
  { rewrite He in Ho. apply (inj Some). rewrite <- (proj2 (Ho reg)) by set_solver.
    apply Ho. by split. }
  split_and!; try done. intros e Hine. apply Hall. set_solver.
Qed.
End lookups.
End keylifecycle.
