(* ===== verification/KeyStoreRecovery.v ===== *)
(** * Durability of the key registry

    The registry and its file as a state machine of requests with file faults
    and restarts: what survives, what a retry answers, and what happens when a
    process goes on after a failed append. *)

From S2P Require Import Prelude TrustErr CryptoSuite Model TrustCrypto Cborx KeyDescriptor ModelSuite.
From S2P Require Import Wal KeyStore KeyStoreProofs KeyLifecycle.

Module keystore_recovery.
Import keystore keystore_proofs keylifecycle.

(** ** Requests *)

Inductive op :=
| Register (tenantID clientID : string) (d : Descriptor.t) (validFrom validUntil : option Z)
| Rotate (tenantID clientID previousKeyID : string) (d : Descriptor.t)
    (rotatedAt validUntil : option Z) (reason : string)
| Revoke (tenantID clientID keyID : string) (at_ : option Z) (reason : string)
| Compromise (tenantID clientID keyID : string) (at_ : option Z) (reason : string).

(** The strings of a request that the event holds are UTF-8. *)
Definition op_text (o : op) : bool :=
  texts_valid
    match o with
    | Register t c d _ _ => [t; c; d.(Descriptor.KeyID)]
    | Rotate t c p d _ _ reason => [t; c; p; d.(Descriptor.KeyID); reason]
    | Revoke t c k _ reason | Compromise t c k _ reason => [t; c; k; reason]
    end.

Section recovery.
Context `{HashLib, SigLib, KeyDescriptorLib}.
Context `{CborMode Manifest.t, CborMode KeyEvent.t}.
Context `{!CborModeRoundTrip Manifest.t, !CborModeRoundTrip KeyEvent.t, !CborModeInjective KeyEvent.t}.

Definition perform (io : append_fault) (file : bytes) (r : Registry) (o : op)
  : bytes * Registry * result Ev.t :=
  match o with
  | Register t c d from until => RegisterClientKey io file r t c d from until
  | Rotate t c p d at_ until reason => RotateClientKey io file r t c p d at_ until reason
  | Revoke t c k at_ reason => RevokeClientKey io file r t c k at_ reason
  | Compromise t c k at_ reason => MarkClientKeyCompromised io file r t c k at_ reason
  end.

(** The unsigned event that a request asks for. *)
Definition asked (r : Registry) (o : op) : result Ev.t :=
  match o with
  | Register t c d from until => registerEvent r t c d from until
  | Rotate t c p d at_ until reason => rotateEvent r t c p d at_ until reason
  | Revoke t c k at_ reason => statusEvent r KeyEventRevoke t c k at_ reason
  | Compromise t c k at_ reason => statusEvent r KeyEventCompromise t c k at_ reason
  end.

Lemma perform_request io file r o : perform io file r o = request io file r (asked r o).
Proof. by destruct o. Qed.

Definition io_ok : open_io := mkOpenIO None InitOk None TruncateOk.

(** A registry and its file: new, after a request that met no file fault, or
    reopened after a request with any fault, so after any crash. *)
Inductive reachable (path : string) (s : trustcrypto.Signer) (trusted : trustcrypto.PublicKeyDescriptor)
  : bytes → Registry → Prop :=
| reach_new f r :
    Open io_ok path (Some s) trusted None = (Some f, Ret r) → reachable path s trusted f r
| reach_step f r o f' r' out :
    reachable path s trusted f r → op_text o = true → perform AppendOk f r o = (f', r', out) →
    reachable path s trusted f' r'
| reach_restart f r o io f' r' out f'' r'' :
    reachable path s trusted f r → op_text o = true → perform io f r o = (f', r', out) →
    Open io_ok path (Some s) trusted (Some f') = (Some f'', Ret r'') →
    reachable path s trusted f'' r''.

(** ** Loading does not depend on the signer and the offset *)

Definition with_env (s : option trustcrypto.Signer) (d : Z) (r : Registry) : Registry :=
  mkRegistry s (manifest r) (registryPub r) (events r) (byKey r) (lastHash r) d.

Lemma lifecycle_env s d r evs r' :
  lifecycle r evs = Ok r' → lifecycle (with_env s d r) evs = Ok (with_env s d r').
Proof.
  revert r. induction evs as [|e evs IH]; intros r E; [by injection E as <-|].
  apply lifecycle_cons in E as (Hn & r1 & (dd & m & Hd & Ha & ->)%applyLocked_Ok & E).
  apply lifecycle_cons. split; [exact Hn|]. eexists. split; [|by apply IH].
  apply applyLocked_Ok. by exists dd, m.
Qed.

(** ** The invariant *)

(** The file is the image of the registry's events, and they produce it. *)
Definition good (s : trustcrypto.Signer) (m : Manifest.t) (f : bytes) (r : Registry) : Prop :=
  image m (events r) = Ok f ∧ readable m (events r) ∧ chain (publicKeyDescriptor m) 0 [] (events r) ∧
  lifecycle (newRegistry (Some s) m (len f)) (events r) = Ok r.

Lemma good_fields s m f r :
  good s m f r →
  signer r = Some s ∧ manifest r = m ∧ registryPub r = publicKeyDescriptor m ∧
  durableEnd r = len f ∧ lastHash r = default [] (Ev.EventHash <$> last (events r)).
Proof. intros (_ & _ & _ & E). by apply lifecycle_fields in E as (-> & -> & -> & _ & -> & ->). Qed.

Lemma good_loaded s m f r : good s m f r → loaded r.
Proof. intros (_ & _ & _ & E). by eexists _, _, _. Qed.

(** ** UTF-8 *)

Lemma asked_text r o e :
  text_valid (manifest r) = true → op_text o = true → asked r o = Ok e → text_valid e = true.
Proof.
  intros Hm Ho E. unfold text_valid, manifest_text in Hm. rewrite !texts_valid_cons in Hm. dex.
  destruct o; cbn [asked] in E; unfold registerEvent, rotateEvent, statusEvent in E; ok_inv;
    repeat match goal with x : _ * _ |- _ => destruct x end; repeat case_match; simplify_eq;
    unfold op_text in Ho; rewrite ?texts_valid_cons in Ho; dex;
    unfold text_valid, key_event_text, signature_texts; cbn [app Ev.SchemaVersion Ev.CryptoSuite
      Ev.Type_ Ev.TenantID Ev.ClientID Ev.KeyID Ev.PreviousKeyID Ev.Reason Ev.RegistrySignature
      Signature.zero Signature.Alg Signature.KeyID]; rewrite !texts_valid_cons; split_and!; done.
Qed.

(** A signature that verifies carries the names of the key. *)
Lemma verified_text suiteID pub message sig :
  trustcrypto.KeyID pub ≠ "" → ValidString (trustcrypto.KeyID pub) = true →
  trustcrypto.VerifySignatureForSuite suiteID pub message sig = Ok tt → texts_valid (signature_texts sig) = true.
Proof.
  intros Hk Ht E. unfold trustcrypto.VerifySignatureForSuite, trustcrypto.Verify in E. ok_inv.
  apply seqb_false in Hk. rewrite Hk in *. cbn [negb andb] in *. bsimpl.
  unfold signature_texts. rewrite !texts_valid_cons. split_and!; [|congruence|done].
  unfold trustcrypto.Verifier_Verify in E. case_match; ok_inv; bsimpl;
    match goal with H : Signature.Alg sig = _ |- _ => rewrite H end; done.
Qed.

(** ** Sealing an event *)

(** The event without what sealing adds. *)
Lemma sealEvent_Ok r s e e' frame :
  sealEvent r s e = Ok (e', frame) →
  encodeEvent e' = Ok frame ∧ clearEventEnvelope e' = clearEventEnvelope e ∧
  validateNextLocked r e' = Ok tt ∧
  e'.(Ev.Sequence) = u64 (len (events r) + 1) ∧ e'.(Ev.PrevEventHash) = lastHash r ∧
  verifyEvent e' (registryPub r) = Ok tt ∧ hashEvent e' = Ok e'.(Ev.EventHash).
Proof.
  unfold sealEvent. intros E. apply bind_Ok in E as ([] & Hn & E).
  apply bind_Ok in E as (sig & Hs & E). apply bind_Ok in E as (h & Hh & E).
  apply bind_Ok in E as (p & Hp & E). apply bind_Ok in E as (fr & Hf & E). injection E as <- <-.
  split_and!; try (by destruct e).
  - unfold encodeEvent. by rewrite Hp.
  - unfold signEvent in Hs. apply bind_Ok in Hs as (input & Hi & Hs). ok_inv. subst.
    repeat match goal with u : unit |- _ => destruct u end.
    unfold verifyEvent. replace (eventInput _) with (Ok input) by (rewrite <- Hi; by destruct e).
    by destruct e.
Qed.

(** What an append does, with any file and any fault. *)
Lemma appendEvent_cases io file r s e file' r' out :
  appendEvent io file r s e = (file', r', out) →
  (file' = file ∧ r' = r ∧ ∀ x, out = Ok x → idempotentEventLocked r e = Some x) ∨
  ∃ e' frame, sealEvent r s e = Ok (e', frame) ∧
    ((out = Ok e' ∧ io = AppendOk ∧ file' = file ++ frame ∧
      applyLocked (set_durableEnd (durableEnd r + len frame) r) e' = Ok r') ∨
     (is_ok out = false ∧ r' = r ∧ (io = FailSync ∧ file' = file ++ frame ∨
        ∃ n, io = FailWrite n ∧ file' = file ++ take n frame))).
Proof.
  unfold appendEvent. intros E.
  destruct (idempotentEventLocked r e) as [x|]; [left; simplify_eq; naive_solver|].
  destruct (sealEvent r s e) as [[e' frame]|] eqn:Es; [|left; by simplify_eq].
  destruct io; cbn in E; try (by left; simplify_eq); right; exists e', frame; (split; [done|]).
  - apply sealEvent_Ok in Es as (_ & _ & Hn & _). left.
    destruct (applyLocked _ e') as [r1|er] eqn:Ea; [by simplify_eq|].
    exfalso. clear E. unfold applyLocked in Ea. cbn in Ea.
    unfold validateNextLocked in Hn. apply bind_Ok in Hn as (d & Hd & Hn). rewrite Hd in Ea.
    cbn in Ea. unfold applyTimelines in Ea. by repeat case_match.
  - right. simplify_eq. split_and!; try done. right. by eexists.
  - right. simplify_eq. split_and!; try done. by left.
Qed.

Lemma sealed_text r s e e' frame :
  sealEvent r s e = Ok (e', frame) → text_valid e = true →
  trustcrypto.KeyID (registryPub r) ≠ "" → ValidString (trustcrypto.KeyID (registryPub r)) = true → text_valid e' = true.
Proof.
  intros Es Ht Hk Hv. apply sealEvent_Ok in Es as (_ & Hc & _ & _ & _ & Hs & _).
  unfold verifyEvent in Hs. apply bind_Ok in Hs as (input & _ & Hs). apply verified_text in Hs; [|done..].
  unfold text_valid, key_event_text in *. rewrite texts_valid_app in *. rewrite Hs.
  bsimpl. rewrite andb_true_r. destruct e, e'; cbn in *. by simplify_eq.
Qed.

(** A sealed event extends the registry. *)
Lemma good_sealed s m f r e e' frame :
  good s m f r → trusted_key (publicKeyDescriptor m) → text_valid e = true → sealEvent r s e = Ok (e', frame) →
  ∃ r1, applyLocked (set_durableEnd (durableEnd r + len frame) r) e' = Ok r1 ∧
    good s m (f ++ frame) r1 ∧ events r1 = events r ++ [e'].
Proof.
  intros Hg (_ & Hk & _) Htx Es. pose proof (good_fields _ _ _ _ Hg) as (_ & Hm & Hpub & Hd & Hlast).
  destruct Hg as (Hi & [Htm Hte] & Hc & Hl).
  assert (text_valid e' = true) as Hte'.
  { eapply sealed_text; try done; rewrite Hpub.
    - intros E. rewrite E in Hk. by apply Hk.
    - unfold text_valid, manifest_text in Htm. rewrite !texts_valid_cons in Htm. by dex. }
  apply sealEvent_Ok in Es as (Hf & _ & Hn & Hseq & Hprev & Hv & Hh).
  assert (∃ d m', validateEventShape (manifest r).(Manifest.CryptoSuite) e' = Ok d ∧
    applyTimelines (byKey r) d e' = Ok m') as (d & m' & Hdd & Ha).
  { unfold validateNextLocked in Hn. apply bind_Ok in Hn as (d & Hdd & Hn). exists d.
    unfold applyTimelines. repeat case_match; eauto; done. }
  eexists. split; [apply applyLocked_Ok; by exists d, m'|]. split; [|done].
  split_and!; cbn [events set_durableEnd].
  - by apply image_snoc.
  - split; [done|]. apply Forall_app. by rewrite Forall_singleton.
  - apply chain_snoc. rewrite <- Hpub, <- Hlast. split_and!; try done.
    by rewrite Hpub.
  - apply lifecycle_app. exists (with_env (Some s) (len (f ++ frame)) r). split.
    + apply (lifecycle_env (Some s) (len (f ++ frame))) in Hl. exact Hl.
    + apply lifecycle_cons. split; [exact Hn|]. eexists. split; [apply applyLocked_Ok; by exists d, m'|].
      cbn. f_equal. rewrite Hd. unfold with_env, set_durableEnd. cbn.
      apply lifecycle_fields in Hl as (Hsig & _). cbn in Hsig. rewrite Hsig. f_equal.
      unfold len. rewrite length_app. lia.
Qed.

(** ** Opening *)

Lemma valid_key_bytes suiteID pub :
  trustcrypto.ValidatePublicKeyForSuite suiteID pub = Ok tt → 0 < len (trustcrypto.Bytes pub).
Proof.
  unfold trustcrypto.ValidatePublicKeyForSuite. intros E. apply bind_Ok in E as (p & _ & E).
  unfold trustcrypto.ValidatePublicKey in E. ok_inv. destruct x; ok_inv; bsimpl.
  - unfold trustcrypto.ed25519_PublicKeySize in *. lia.
  - unfold trustcrypto.validateSM2PublicKey in E. ok_inv. bsimpl.
    unfold trustcrypto.SM2PublicKeySize in *. lia.
Qed.

(** With a signer, the key that [Open] trusts passes every check. *)
Lemma trustedKey_trusted s trusted pub :
  trustedKey (Some s) trusted = Ok pub → trusted_key pub.
Proof.
  unfold trustedKey, validateLifecycleSigner. intros E. apply bind_Ok in E as (k & Hk & E).
  apply bind_Ok in Hk as (sp & Hs & Hk). apply errorf_Ok in Hs. ok_inv.
  repeat match goal with u : unit |- _ => destruct u end. subst.
  assert (0 < len (trustcrypto.Bytes k)) as Hb.
  { pose proof (len_nonneg (trustcrypto.Bytes trusted)).
    destruct (len (trustcrypto.Bytes trusted) =? 0) eqn:Eb; ok_inv; bsimpl; subst;
      [by eapply valid_key_bytes|lia]. }
  rewrite (proj2 (Z.eqb_neq _ 0)) in E by lia. ok_inv. bsimpl. subst.
  repeat match goal with u : unit |- _ => destruct u end. by split_and!.
Qed.

(** Reopening a good file, with any incomplete frame behind it. *)
Lemma open_good path s trusted pub f r tail truncated :
  TrimSpace path ≠ "" → trustedKey (Some s) trusted = Ok pub →
  good s (manifestForPublicKey pub) f r → tail_ok tail truncated → (truncated = false → tail = []) →
  Open io_ok path (Some s) trusted (Some (f ++ tail)) = (Some f, Ret r).
Proof.
  intros Hp Ht (Hi & Hre & Hc & Hl) Htail Htr. pose proof (trustedKey_trusted _ _ _ Ht) as Hpub.
  pose proof (trusted_manifest _ Hpub) as Hm. destruct Hpub as (Hb & _ & _).
  pose proof (readRegistryStream_complete _ _ _ _ _ Hi Hre Hm Htail) as Hs.
  assert (loadEvents (newRegistry (Some s) (manifestForPublicKey pub) (len f)) 0 (events r) = Ok r) as He
    by by apply loadEvents_new.
  unfold Open. rewrite (proj2 (seqb_false _ _) Hp), Ht. cbn [io_ok io_stat].
  unfold openExisting. cbn [io_ok io_read io_truncate]. rewrite Hs.
  rewrite (proj2 (Z.eqb_neq _ 0)) by lia.
  rewrite (proj2 (samePublicKey_true _ _)) by apply publicKey_manifest. cbn [negb is_some andb].
  destruct truncated; cbn [truncateAndSync].
  - replace (take (Z.to_nat (len f)) (f ++ tail)) with f; [by rewrite He|].
    unfold len. by rewrite Nat2Z.id, take_app_length.
  - rewrite Htr, app_nil_r by done. by rewrite He.
Qed.

(** A new registry is good. *)
Lemma open_new path s trusted f r :
  Open io_ok path (Some s) trusted None = (Some f, Ret r) →
  ∃ pub, TrimSpace path ≠ "" ∧ trustedKey (Some s) trusted = Ok pub ∧
    good s (manifestForPublicKey pub) f r ∧ events r = [].
Proof.
  intros E. assert (TrimSpace path ≠ "") as Hp.
  { intros Hp. unfold Open in E. by rewrite Hp in E. }
  pose proof E as E0. unfold Open in E. rewrite (proj2 (seqb_false _ _) Hp) in E.
  destruct (trustedKey (Some s) trusted) as [pub|] eqn:Ht; [|done].
  pose proof (trustedKey_trusted _ _ _ Ht) as Hpub. pose proof (trusted_manifest _ Hpub) as Hm.
  exists pub. cbn [io_ok io_stat io_init] in E. unfold initializeRegistry in E. rewrite Hm in E.
  cbn [mbind result_bind] in E.
  destruct (cborx.Marshal (manifestForPublicKey pub)) as [p|] eqn:Ep; cbn [mbind result_bind] in E; [|by case_match].
  destruct (encodeFrame p) as [a|] eqn:Ea; [|by case_match].
  assert (good s (manifestForPublicKey pub) (registryMagic ++ a)
    (newRegistry (Some s) (manifestForPublicKey pub) (len (registryMagic ++ a)))) as Hg.
  { split_and!; [|split; [|done]|done|done].
    2: { destruct (openExisting _ _ _ _) as [f1 out] eqn:Eo in E. injection E as -> ->.
         unfold openExisting in Eo. cbn [io_ok io_read] in Eo.
         destruct (readRegistryStream _) as [[[[m evs] en] tr]| |] eqn:Er; [|done..].
         pose proof (readRegistryStream_text _ _ _ _ _ Er) as [Htm _].
         apply readRegistryStream_inv in Er as (Hm' & _).
         destruct (len _ =? 0); [done|]. destruct (samePublicKey _ _) eqn:Es; [|done].
         apply samePublicKey_true in Es. by rewrite <- (manifest_determined m pub). }
    apply image_Ok. exists p, a, []. split_and!; try done. by rewrite app_nil_r. }
  pose proof (open_good path s trusted pub _ _ [] false Hp Ht Hg tail_nil ltac:(done)) as Ho.
  rewrite app_nil_r in Ho. unfold Open in Ho. rewrite (proj2 (seqb_false _ _) Hp), Ht in Ho.
  cbn [io_ok io_stat] in Ho, E. rewrite Ho in E. injection E as <- <-. by split_and!.
Qed.

(** ** Durability *)

(** What a request does to a good registry, and what opening the file gives. *)
Lemma perform_good path s trusted pub f r o io f' r' out :
  TrimSpace path ≠ "" → trustedKey (Some s) trusted = Ok pub →
  good s (manifestForPublicKey pub) f r → op_text o = true → perform io f r o = (f', r', out) →
  (io = AppendOk → good s (manifestForPublicKey pub) f' r') ∧
  ∃ f'' r'', Open io_ok path (Some s) trusted (Some f') = (Some f'', Ret r'') ∧
    good s (manifestForPublicKey pub) f'' r'' ∧
    (is_ok out = true → r'' = r') ∧ (r'' = r ∨ ∃ e, events r'' = events r ++ [e]).
Proof.
  intros Hp Ht Hg Hop E. pose proof (good_fields _ _ _ _ Hg) as (Hsig & Hman & _).
  assert (∀ f r, good s (manifestForPublicKey pub) f r →
    Open io_ok path (Some s) trusted (Some f) = (Some f, Ret r)) as Hopen.
  { intros f1 r1 Hg1. pose proof (open_good path s trusted pub f1 r1 [] false Hp Ht Hg1 tail_nil ltac:(done)) as Ho.
    by rewrite app_nil_r in Ho. }
  rewrite perform_request in E. unfold request in E. rewrite Hsig in E.
  destruct (asked r o) as [e|er] eqn:Ea; [|simplify_eq; split; [done|]; exists f', r'; split_and!; auto; by left].
  apply appendEvent_cases in E as [(-> & -> & _)|(e' & frame & Es & Hcase)].
  { split; [done|]. exists f, r. split_and!; auto. }
  assert (text_valid e = true) as Hte.
  { eapply asked_text; try done. rewrite Hman. by destruct Hg as (_ & [? _] & _). }
  pose proof (trustedKey_trusted _ _ _ Ht) as Htk. rewrite <- (publicKey_manifest pub) in Htk.
  destruct (good_sealed _ _ _ _ _ _ _ Hg Htk Hte Es) as (r1 & Ha & Hg1 & He1).
  destruct Hcase as [(-> & -> & -> & Ha')|(Hout & -> & [(-> & ->)|(n & -> & ->)])].
  - rewrite Ha in Ha'. injection Ha' as <-. split; [done|]. exists (f ++ frame), r1.
    split_and!; auto. right. eauto.
  - split; [done|]. exists (f ++ frame), r1. split_and!; auto; [congruence|]. right. eauto.
  - split; [done|]. apply sealEvent_Ok in Es as (Ef & _). unfold encodeEvent in Ef.
    apply bind_Ok in Ef as (p & _ & Ef). destruct (decide (n < length frame)%nat) as [Hn|Hn].
    + destruct (tail_torn p frame n Ef Hn) as (b & Hb & Hb0). exists f, r.
      split_and!; auto. eapply open_good; try done.
      intros Hbf. by rewrite (Hb0 Hbf).
    + rewrite take_ge by lia. exists (f ++ frame), r1. split_and!; auto; [congruence|]. right. eauto.
Qed.

Lemma reachable_good path s trusted f r :
  reachable path s trusted f r →
  ∃ pub, TrimSpace path ≠ "" ∧ trustedKey (Some s) trusted = Ok pub ∧
    good s (manifestForPublicKey pub) f r.
Proof.
  induction 1 as [f r Ho|f r o f' r' out _ (pub & Hp & Ht & Hg) Hop E
                 |f r o io f' r' out f'' r'' _ (pub & Hp & Ht & Hg) Hop E Ho].
  - apply open_new in Ho as (pub & ? & ? & ? & _). eauto.
  - exists pub. destruct (perform_good path _ _ _ _ _ _ _ _ _ _ Hp Ht Hg Hop E) as [Hg' _]. auto.
  - exists pub. destruct (perform_good path _ _ _ _ _ _ _ _ _ _ Hp Ht Hg Hop E) as [_ (f1 & r1 & Ho1 & Hg1 & _)].
    rewrite Ho in Ho1. by simplify_eq.
Qed.

Lemma reachable_loaded path s trusted f r : reachable path s trusted f r → loaded r.
Proof. intros (pub & _ & _ & Hg)%reachable_good. by eapply good_loaded. Qed.

(** C29: acknowledged key events survive. Take any registry reached by requests
    and by restarts after requests that failed at any point of the file
    operations (or after a crash there), and one more request, with any fault:
    the file cannot be opened, any part of the frame is written, or the sync
    fails. The file can be opened again. If the request was acknowledged, the
    reopened registry is the one in memory; otherwise it is the registry
    before the request, or that registry with one event more. The strings of
    the requests must be UTF-8. *)
Theorem registry_recovers path s trusted f r o io f' r' out :
  reachable path s trusted f r → op_text o = true → perform io f r o = (f', r', out) →
  ∃ f'' r'', Open io_ok path (Some s) trusted (Some f') = (Some f'', Ret r'') ∧
    (is_ok out = true → r'' = r') ∧ (r'' = r ∨ ∃ e, events r'' = events r ++ [e]).
Proof.
  intros (pub & Hp & Ht & Hg)%reachable_good Hop E.
  destruct (perform_good path _ _ _ _ _ _ _ _ _ _ Hp Ht Hg Hop E) as [_ (f'' & r'' & Ho & _ & ? & ?)].
  eauto.
Qed.

(** ** Going on after a failed append *)

Lemma open_loads io path s trusted f f' r :
  Open io path s trusted (Some f) = (f', Ret r) →
  ∃ m evs e truncated, readRegistryStream f = Ret (m, evs, e, truncated) ∧
    loadEvents (newRegistry s m e) 0 evs = Ok r.
Proof.
  unfold Open. intros E. case_match; [done|]. destruct (trustedKey s trusted) as [pub|]; [|done].
  destruct (io_stat io); [done|]. unfold openExisting in E. destruct (io_read io); [done|].
  destruct (readRegistryStream f) as [[[[m evs] e] tr]| |]; [|done..].
  exists m, evs, e, tr. split; [done|].
  destruct (len (trustcrypto.Bytes pub) =? 0); [done|]. destruct (negb (samePublicKey _ _)); [done|].
  destruct (is_some s && tr); [destruct (io_truncate io)|]; cbn in E; try done;
    injection E as _ E; by apply ret_Ret.
Qed.

(** A request that writes appends the frame of one sealed event. *)
Lemma perform_writes s m f r f0 o io f' r' out :
  good s m f r → perform io f0 r o = (f', r', out) → f' ≠ f0 → (∀ n, io ≠ FailWrite n) →
  ∃ e frame, encodeEvent e = Ok frame ∧ f' = f0 ++ frame ∧
    e.(Ev.Sequence) = u64 (len (events r) + 1) ∧ (is_ok out = false → r' = r) ∧
    (∀ x, out = Ok x → x = e).
Proof.
  intros Hg E Hne Hio. pose proof (good_fields _ _ _ _ Hg) as (Hsig & _).
  rewrite perform_request in E. unfold request in E. rewrite Hsig in E.
  destruct (asked r o) as [e|]; [|by simplify_eq].
  apply appendEvent_cases in E as [(-> & _)|(e' & frame & Es & Hcase)]; [done|].
  apply sealEvent_Ok in Es as (Hf & _ & _ & Hseq & _). exists e', frame.
  destruct Hcase as [(-> & _ & -> & _)|(Ho & -> & [(_ & ->)|(n & -> & _)])].
  - split_and!; try done. congruence.
  - split_and!; try done. by intros x ->.
  - by destruct (Hio n).
Qed.

(** A file whose complete frames are known is opened only if they can be read
    and are chained. *)
Lemma open_image m evs f io path s trusted f' r :
  image m evs = Ok f → text_valid m = true →
  Open io path s trusted (Some f) = (f', Ret r) →
  Forall (λ e, text_valid e = true) evs ∧ chain (publicKeyDescriptor m) 0 [] evs.
Proof.
  intros Hi Htm (m' & evs' & en & tr & Hs & Hl)%open_loads.
  pose proof (readRegistryStream_text _ _ _ _ _ Hs) as [_ Hte].
  destruct (readRegistryStream_image _ _ _ _ _ _ _ Hi Htm Hs) as (-> & ->).
  apply loadEvents_new in Hl as [Hc _]. done.
Qed.

(** C35: a registry that goes on after a failed sync locks itself out. After any
    request whose frame was written but whose sync failed, the registry in
    memory does not count the event; so the next request that is acknowledged
    writes an event with the same sequence number, and from then on the file
    cannot be opened, by any process and with any key: every event of the
    registry is lost to the server until the file is repaired by hand. *)
Theorem failed_sync_locks_out path s trusted f r o1 f1 r1 e o2 f2 r2 ev :
  reachable path s trusted f r →
  perform FailSync f r o1 = (f1, r1, Err e) → f1 ≠ f →
  perform AppendOk f1 r1 o2 = (f2, r2, Ok ev) → f2 ≠ f1 →
  ∀ io path' s' trusted' f3 r3, Open io path' s' trusted' (Some f2) ≠ (f3, Ret r3).
Proof.
  intros (pub & Hp & Ht & Hg)%reachable_good E1 Hn1 E2 Hn2 io path' s' trusted' f3 r3 Ho.
  destruct (perform_writes _ _ _ _ _ _ _ _ _ _ Hg E1 Hn1) as (e1 & fr1 & Hf1 & -> & _ & Hr1 & _); [done|].
  rewrite (Hr1 eq_refl) in E2.
  destruct (perform_writes _ _ _ _ _ _ _ _ _ _ Hg E2 Hn2) as (e2 & fr2 & Hf2 & -> & Hs2 & _); [done|].
  destruct Hg as (Hi & [Htm _] & _).
  pose proof (image_snoc _ _ _ _ _ (image_snoc _ _ _ _ _ Hi Hf1) Hf2) as Hi2.
  destruct (open_image _ _ _ _ _ _ _ _ _ Hi2 Htm Ho) as [_ (_ & Hs3 & _)%chain_snoc].
  rewrite Hs2, length_app in Hs3. cbn in Hs3.
  unfold len, u64, two64 in Hs3. revert Hs3. generalize (length (events r)). intros n Hs3.
  assert ((Z.of_nat (n + 1) + 1 - (Z.of_nat n + 1)) mod 18446744073709551616 = 0) as Hz
    by (by rewrite Zminus_mod, <- Hs3, Z.sub_diag).
  by replace (Z.of_nat (n + 1) + 1 - (Z.of_nat n + 1)) with 1 in Hz by lia.
Qed.

(** A name that is not UTF-8 locks the registry out. If a request is
    acknowledged with a new event one of whose strings is not UTF-8, the file
    cannot be opened from then on, by any process and with any key: the event
    is encoded without a check, and the decoder rejects it. *)
Theorem invalid_text_locks_out path s trusted f r o f1 r1 e :
  reachable path s trusted f r →
  perform AppendOk f r o = (f1, r1, Ok e) → f1 ≠ f → text_valid e = false →
  ∀ io path' s' trusted' f2 r2, Open io path' s' trusted' (Some f1) ≠ (f2, Ret r2).
Proof.
  intros (pub & Hp & Ht & Hg)%reachable_good E Hn Htx io path' s' trusted' f2 r2 Ho.
  destruct (perform_writes _ _ _ _ _ _ _ _ _ _ Hg E Hn) as (e1 & fr & Hf & -> & _ & _ & He); [done|].
  rewrite <- (He e eq_refl) in Hf. destruct Hg as (Hi & [Htm _] & _).
  destruct (open_image _ _ _ _ _ _ _ _ _ (image_snoc _ _ _ _ _ Hi Hf) Htm Ho) as [(_ & Hte)%Forall_app _].
  apply Forall_cons in Hte as [Hte _]. cbn beta in Hte. congruence.
Qed.

(** ** Retries *)

Lemma sameUnsignedEvent_true a b :
  sameUnsignedEvent a b = true ↔
  clearEventEnvelope a = clearEventEnvelope b ∧ is_ok (cborx.Marshal (clearEventEnvelope b)) = true.
Proof.
  unfold sameUnsignedEvent. split.
  - destruct (cborx.Marshal (clearEventEnvelope a)) as [x|] eqn:Ex,
      (cborx.Marshal (clearEventEnvelope b)) as [y|] eqn:Ey; try done.
    intros E. bsimpl. subst y. split; [|done]. by eapply cborx.Marshal_injective.
  - intros [-> E]. apply is_ok_iff in E as [x ->]. apply bytes_equal_refl.
Qed.

(** The existing event is one of the registry. *)
Lemma idempotent_elem r e x : coherent r → idempotentEventLocked r e = Some x → x ∈ events r.
Proof.
  intros Hr E. unfold idempotentEventLocked in E. destruct (Hr (event_id e)) as (H1' & _ & H3' & H4' & _).
  destruct (byKey r !! event_id e) as [tl|]; [|done]. cbn in *.
  repeat case_match; try done; simplify_eq; [apply H1'|apply H3'|apply H4']; done.
Qed.

(** Decides the tests between the types of events. *)
Ltac type_test :=
  repeat match goal with
         | |- context [seqb ?a ?b] => let v := eval vm_compute in (seqb a b) in change (seqb a b) with v
         end; cbn [orb].

(** An event that is in the registry answers the requests for it. *)
Lemma idempotent_known r e x :
  coherent r → x ∈ events r → clearEventEnvelope x = clearEventEnvelope e →
  is_ok (cborx.Marshal (clearEventEnvelope e)) = true →
  e.(Ev.Type_) ∈ [KeyEventRegister; KeyEventRotate; KeyEventRevoke; KeyEventCompromise] →
  idempotentEventLocked r e = Some x.
Proof.
  intros Hr Hx Hc Hm Hty. assert (e.(Ev.Type_) = x.(Ev.Type_) ∧ event_id e = event_id x) as [Et Ei].
  { destruct e, x; cbn in *. by simplify_eq. }
  pose proof (proj2 (sameUnsignedEvent_true x e) (conj Hc Hm)) as Hs.
  unfold idempotentEventLocked. destruct (Hr (event_id e)) as (H1' & _ & H3' & H4' & _).
  specialize (H1' x). specialize (H3' x). specialize (H4' x).
  unfold registers, revokes, compromises in *. rewrite <- Et, <- Ei in *.
  rewrite !elem_of_cons, elem_of_nil in Hty. destruct Hty as [E|[E|[E|[E|[]]]]]; rewrite E in *.
  - destruct (byKey r !! event_id e) as [tl|]; cbn in *; [|naive_solver].
    assert (Some (registered tl) = Some x) as [= ->] by naive_solver. type_test. by rewrite Hs.
  - destruct (byKey r !! event_id e) as [tl|]; cbn in *; [|naive_solver].
    assert (Some (registered tl) = Some x) as [= ->] by naive_solver. type_test. by rewrite Hs.
  - destruct (byKey r !! event_id e) as [tl|]; cbn in *; [|naive_solver].
    assert (revoked tl = Some x) as -> by naive_solver. type_test. by rewrite Hs.
  - destruct (byKey r !! event_id e) as [tl|]; cbn in *; [|naive_solver].
    assert (compromised tl = Some x) as -> by naive_solver. type_test. by rewrite Hs.
Qed.

Lemma asked_type r o e :
  asked r o = Ok e → e.(Ev.Type_) ∈ [KeyEventRegister; KeyEventRotate; KeyEventRevoke; KeyEventCompromise].
Proof.
  destruct o; cbn [asked]; unfold registerEvent, rotateEvent, statusEvent; intros E; ok_inv;
    repeat match goal with x : _ * _ |- _ => destruct x end; ok_inv; subst; cbn [Ev.Type_]; set_solver.
Qed.

Lemma asked_manifest r r' o : manifest r = manifest r' → asked r o = asked r' o.
Proof. intros E. destruct o; cbn [asked]; unfold registerEvent, rotateEvent, statusEvent; by rewrite E. Qed.

(** Requests are idempotent. Once a request has been acknowledged with an
    event, the same request is answered with the same event in every later
    state of the registry, whatever was registered, rotated or revoked since
    and however often the server was restarted, and it writes nothing. *)
Theorem retry_answers_same path s trusted f r o f1 r1 e f2 r2 io :
  reachable path s trusted f r → perform AppendOk f r o = (f1, r1, Ok e) →
  reachable path s trusted f2 r2 → events r1 `prefix_of` events r2 →
  (∀ x, asked r o = Ok x → is_ok (cborx.Marshal (clearEventEnvelope x)) = true) →
  perform io f2 r2 o = (f2, r2, Ok e).
Proof.
  intros (pub & Hp & Ht & Hg)%reachable_good E (pub2 & _ & Ht2 & Hg2)%reachable_good Hpre Henc.
  rewrite Ht in Ht2. injection Ht2 as <-.
  pose proof (good_fields _ _ _ _ Hg) as (Hsig & Hm & _).
  pose proof (good_fields _ _ _ _ Hg2) as (Hsig2 & Hm2 & _).
  rewrite perform_request in *. unfold request in *. rewrite Hsig in E. rewrite Hsig2.
  rewrite (asked_manifest r2 r) by congruence.
  destruct (asked r o) as [x|] eqn:Ea; [|done].
  assert (e ∈ events r1 ∧ clearEventEnvelope e = clearEventEnvelope x) as [He Hc].
  { apply appendEvent_cases in E as [(_ & -> & Hx)|(e' & frame & Es & [(Hout & _ & _ & Hr1)|(? & _)])];
      [| |done].
    - specialize (Hx e eq_refl). split.
      + eapply idempotent_elem; [|done]. by eapply loaded_coherent, good_loaded.
      + unfold idempotentEventLocked in Hx.
        repeat case_match; simplify_eq; by match goal with H : sameUnsignedEvent _ _ = true |- _ =>
          apply sameUnsignedEvent_true in H as [? _] end.
    - injection Hout as <-. apply applyLocked_Ok in Hr1 as (? & ? & _ & _ & ->).
      apply sealEvent_Ok in Es as (_ & Hc & _). split; [set_solver|done]. }
  unfold appendEvent. rewrite (idempotent_known r2 x e); [done| | |done| |].
  - by eapply loaded_coherent, good_loaded.
  - destruct Hpre as [l ->]. set_solver.
  - by apply Henc.
  - by eapply asked_type.
Qed.
End recovery.
End keystore_recovery.
