(* ===== verification/KeyExamples.v ===== *)
(** * A concrete key registry

    Codecs for manifests and events that satisfy the round-trip law, a registry
    that registers, rotates and revokes keys, fails and restarts, and the
    theorems on the registry applied to it. *)

From S2P Require Import Prelude TrustErr CryptoSuite Model TrustCrypto Cborx KeyDescriptor KeyCodec KeyCodecProofs ModelSuite.
From S2P Require Import Instances Wal WalProofs KeyStore KeyStoreProofs KeyLifecycle KeyStoreRecovery.

Module key_examples.
Import keycodec_proofs keystore keystore_proofs keylifecycle keystore_recovery.

(** ** A codec of length-prefixed fields *)

Definition enc_fields (fs : list bytes) : bytes := concat (map (λ f, be_put 8 (len f) ++ f) fs).

Fixpoint dec_fields (n : nat) (b : bytes) : option (list bytes) :=
  match n with
  | O => Some []
  | S n =>
      let l := Z.to_nat (be_get (take 8 b)) in
      fs ← dec_fields n (drop l (drop 8 b));
      Some (take l (drop 8 b) :: fs)
  end.

Lemma dec_enc_fields fs :
  Forall (λ f, len f < two64) fs → dec_fields (length fs) (enc_fields fs) = Some fs.
Proof.
  induction 1 as [|f fs Hf _ IH]; [done|]. cbn [enc_fields map concat length dec_fields].
  rewrite <- !app_assoc.
  rewrite take_app_length', drop_app_length' by (by rewrite length_be_put).
  rewrite wal_proofs.be_get_put8 by (pose proof (len_nonneg f); split; done).
  assert (Z.to_nat (len f) = length f) as -> by (unfold len; lia).
  rewrite take_app_length, drop_app_length. unfold enc_fields in IH. by rewrite IH.
Qed.

Definition str (s : string) : bytes := bytes_of_string s.
Definition unstr (b : bytes) : string := String.string_of_list_byte b.

Lemma unstr_str s : unstr (str s) = s.
Proof. apply String.string_of_list_byte_of_string. Qed.

(** A sign and a magnitude. *)
Definition num (z : Z) : bytes := be_put 1 (if z <? 0 then 1 else 0) ++ be_put 16 (Z.abs z).
Definition unnum (b : bytes) : Z :=
  let m := be_get (drop 1 b) in if be_get (take 1 b) =? 1 then - m else m.
Definition num_ok (z : Z) : bool := Z.abs z <? 2 ^ 128.

Lemma unnum_num z : num_ok z = true → unnum (num z) = z.
Proof.
  unfold num_ok, unnum, num. intros E. bsimpl.
  rewrite take_app_length', drop_app_length' by (by rewrite length_be_put).
  rewrite !be_get_put, !Z.mod_small;
    change (256 ^ Z.of_nat 16) with (2 ^ 128); change (256 ^ Z.of_nat 1) with 256.
  2-3: repeat case_match; lia.
  destruct (Z.ltb_spec z 0); cbn; lia.
Qed.

Definition event_fields (e : Ev.t) : list bytes :=
  [str e.(Ev.SchemaVersion); str e.(Ev.CryptoSuite); num e.(Ev.Sequence); str e.(Ev.Type_);
   str e.(Ev.TenantID); str e.(Ev.ClientID); str e.(Ev.KeyID); str e.(Ev.PreviousKeyID);
   e.(Ev.KeyDescriptor); num e.(Ev.ValidFromUnixN); num e.(Ev.ValidUntilUnixN);
   num e.(Ev.RotatedAtUnixN); num e.(Ev.RevokedAtUnixN); num e.(Ev.CompromisedAtUnixN);
   str e.(Ev.Reason); e.(Ev.PrevEventHash); e.(Ev.EventHash);
   str e.(Ev.RegistrySignature).(Signature.Alg); str e.(Ev.RegistrySignature).(Signature.KeyID);
   e.(Ev.RegistrySignature).(Signature.Signature)].

Definition fields_event (fs : list bytes) : option Ev.t :=
  match fs with
  | [a; b; c; d; e; f; g; h; i; j; k; l; m; n; o; p; q; r; s; t] =>
      Some (Ev.mk (unstr a) (unstr b) (unnum c) (unstr d) (unstr e) (unstr f) (unstr g) (unstr h) i
              (unnum j) (unnum k) (unnum l) (unnum m) (unnum n) (unstr o) p q
              (Signature.mk (unstr r) (unstr s) t))
  | _ => None
  end.

Definition event_ok (e : Ev.t) : bool :=
  forallb num_ok [e.(Ev.Sequence); e.(Ev.ValidFromUnixN); e.(Ev.ValidUntilUnixN);
    e.(Ev.RotatedAtUnixN); e.(Ev.RevokedAtUnixN); e.(Ev.CompromisedAtUnixN)].

Definition manifest_fields (m : Manifest.t) : list bytes :=
  [str m.(Manifest.SchemaVersion); num m.(Manifest.FormatVersion); str m.(Manifest.CryptoSuite);
   str m.(Manifest.RegistryKeyID); str m.(Manifest.RegistryAlgorithm);
   str m.(Manifest.RegistryPublicEncoding); m.(Manifest.RegistryPublicKey)].

Definition fields_manifest (fs : list bytes) : option Manifest.t :=
  match fs with
  | [a; b; c; d; e; f; g] =>
      Some (Manifest.mk (unstr a) (unnum b) (unstr c) (unstr d) (unstr e) (unstr f) g)
  | _ => None
  end.

(** The codec of a type with [n] fields; like the library it checks the text
    when it decodes. *)
Section codec.
Context {A : Type} `{CborText A}.
Context (n : nat) (fields : A → list bytes) (value : list bytes → option A) (ok : A → bool).

Definition field_codec : CborMode A := {|
  encMode_Marshal a :=
    if ok a && forallb (λ f, len f <? two64) (fields a) then Ok (enc_fields (fields a))
    else Err (ErrorsNew "value out of range");
  decMode_Unmarshal b :=
    match dec_fields n b ≫= value with
    | Some a => if text_valid a then Ok a else Err (ErrorsNew "invalid UTF-8 string")
    | None => Err (ErrorsNew "malformed value")
    end |}.

Hypothesis Hn : ∀ a, length (fields a) = n.
Hypothesis Hv : ∀ a, ok a = true → value (fields a) = Some a.

Lemma field_value a b :
  @encMode_Marshal A field_codec a = Ok b → dec_fields n b ≫= value = Some a.
Proof.
  cbn [encMode_Marshal field_codec]. intros E.
  destruct (ok a && _) eqn:Hok; [|done]. injection E as <-. bsimpl.
  rewrite <- (Hn a), dec_enc_fields; [cbn; by rewrite Hv|].
  apply Forall_forall. intros f Hf.
  match goal with H : forallb _ _ = true |- _ => rewrite forallb_forall in H; apply Z.ltb_lt, H end.
  by apply list_elem_of_In.
Qed.

Lemma field_injective : @CborModeInjective A field_codec.
Proof. intros a1 a2 b H1%field_value H2%field_value. congruence. Qed.

Lemma field_roundtrip : @CborModeRoundTrip A field_codec _.
Proof.
  split; cbn [decMode_Unmarshal field_codec].
  - intros a b E%field_value Ht. by rewrite E, Ht.
  - intros a b E. repeat case_match; congruence.
Qed.
End codec.

#[local] Instance event_codec : CborMode KeyEvent.t :=
  field_codec 20 event_fields fields_event event_ok.
Lemma event_value e : event_ok e = true → fields_event (event_fields e) = Some e.
Proof.
  intros E. cbn in E. bsimpl. unfold event_fields, fields_event.
  rewrite !unstr_str, !unnum_num by done. by destruct e as [????????????????? []].
Qed.
#[local] Instance event_roundtrip : CborModeRoundTrip KeyEvent.t.
Proof. apply field_roundtrip; [done|apply event_value]. Qed.
#[local] Instance event_injective : CborModeInjective KeyEvent.t.
Proof. apply field_injective; [done|apply event_value]. Qed.

#[local] Instance manifest_codec : CborMode Manifest.t :=
  field_codec 7 manifest_fields fields_manifest (λ m, num_ok m.(Manifest.FormatVersion)).
#[local] Instance manifest_roundtrip : CborModeRoundTrip Manifest.t.
Proof.
  apply field_roundtrip; [done|]. intros m E. unfold manifest_fields, fields_manifest.
  rewrite !unstr_str, unnum_num by done. by destruct m.
Qed.

(** ** Descriptors *)

Definition ex_descriptor (keyID : string) (b : byte) : Descriptor.t :=
  Descriptor.mk "trustdb.key-descriptor.v1" KindVerifier "public" cryptosuite.INTLV1 keyID
    cryptosuite.SignatureEd25519 ""
    (Descriptor.mkPublicKeyMaterial cryptosuite.Ed25519PublicKeyEncoding (replicate 32 b))
    [] None None None None.

Definition ex_d1 : Descriptor.t := ex_descriptor "key-1" Byte.x07.
Definition ex_d2 : Descriptor.t := ex_descriptor "key-2" Byte.x08.

Definition ex_table : list Descriptor.t := [ex_d1; ex_d2].
#[local] Instance descriptor_codec : CborMode Descriptor.t := table_codec ex_table.
#[local] Instance descriptor_limits : CborLimits Descriptor.t := λ _ _, table_decode ex_table.
#[local] Instance descriptor_limits_roundtrip : CborLimitsRoundTrip Descriptor.t.
Proof.
  split.
  - intros d b E ->. change (table_encode ex_table d = Ok []) in E. unfold table_encode in E.
    by destruct (list_find _ _) as [[i ?]|].
  - intros d b n m E _ _ _. by apply table_decode_encode.
  - intros d b n m E. refine (@decMode_text _ _ _ (table_roundtrip ex_table eq_refl _) d b E).
    vm_compute. reflexivity.
Qed.

(** No URLs; one certificate, whose key is not on the curve. *)
#[local] Instance ex_urls : UrlLib :=
  {| url_Parse _ := Err (ErrorsNew "no URL"); url_String _ := "" |}.
Definition ex_leaf : Certificate.t :=
  Certificate.mk [Byte.x30] Certificate.SM2WithSM3 "SM2-SM3" (Certificate.EcdsaPublicKey 1 2) 0 false
    "1" "leaf" "leaf" 0 100.
#[local] Instance ex_certificates : CertLib :=
  {| smx509_ParseCertificate der :=
       if bytes_equal der [Byte.x30] then Ok ex_leaf else Err (ErrorsNew "malformed certificate");
     CheckSignatureFrom _ _ := Err (ErrorsNew "bad signature");
     sm2_IsOnCurve _ _ := false |}.

#[local] Instance ex_descriptors : KeyDescriptorLib := keydescriptor.lib.

Lemma descriptor_roundtrip_witness :
  keydescriptor.Unmarshal (be_put 8 1) = Ret ex_d2 ↔
  keydescriptor.Marshal ex_d2 = Ret (be_put 8 1) ∧ plain_reference ex_d2.
Proof. apply (descriptor_roundtrip (be_put 8 1) ex_d2). Defined.

Example ex_unmarshal : keydescriptor.Unmarshal (be_put 8 1) = Ret ex_d2.
Proof. vm_compute. reflexivity. Qed.

Lemma material_path_inside_witness :
  keydescriptor.Clean (bytes_of_string "/etc/trustdb/keys/server.key") = bytes_of_string "/etc/trustdb/keys/server.key" ∧
  Forall entry [bytes_of_string "keys"; bytes_of_string "server.key"].
Proof.
  apply (material_path_inside (bytes_of_string "/etc/trustdb") "keys/server.key").
  - vm_compute. reflexivity.
  - vm_compute. reflexivity.
  - vm_compute. reflexivity.
Defined.

(** A verifier of the SM2 suite with that certificate. *)
Example ex_validate_panics :
  keydescriptor.Validate
    (Descriptor.mk "trustdb.key-descriptor.v1" KindVerifier "public" cryptosuite.CNSMV1 "key-1"
       cryptosuite.SignatureSM2SM3 cryptosuite.SM2DefaultUserID
       (Descriptor.mkPublicKeyMaterial cryptosuite.SM2PublicKeyEncoding (Byte.x04 :: replicate 64 Byte.x07))
       [[Byte.x30]] None None None None) = Stuck.
Proof. vm_compute. reflexivity. Qed.

(** ** A run *)

Definition reg_key : bytes := replicate 32 Byte.x05.
Definition reg_pub : trustcrypto.PublicKeyDescriptor :=
  trustcrypto.mkPublicKeyDescriptor cryptosuite.INTLV1 "registry-1" cryptosuite.SignatureEd25519
    cryptosuite.Ed25519PublicKeyEncoding reg_key.
Definition reg_signer : trustcrypto.Signer :=
  trustcrypto.mkSigner
    (trustcrypto.mkKeyHandle "software" "registry-1" cryptosuite.SignatureEd25519) 3 (Ok reg_pub)
    (λ m, Ok (Signature.mk cryptosuite.SignatureEd25519 "registry-1" (toy_sign reg_key m))).

Definition zero_registry : Registry := newRegistry None (manifestForPublicKey reg_pub) 0.

Definition opened (x : option bytes * go Registry) : bytes * Registry :=
  match x with (Some f, Ret r) => (f, r) | _ => ([], zero_registry) end.

Definition op1 : op := Register "tenant" "client" ex_d1 (Some 2) None.
Definition op2 : op := Rotate "tenant" "client" "key-1" ex_d2 (Some 50) (Some 90) "planned".
Definition op3 : op := Compromise "tenant" "client" "key-1" (Some 5) "leaked".
Definition op4 : op := Revoke "tenant" "client" "key-2" (Some 70) "lost".

(** The states are not normalised: a registry holds its signer, a function. *)
Definition st0 : bytes * Registry := opened (Open io_ok "keys" (Some reg_signer) reg_pub None).
Definition st1 : bytes * Registry := (perform AppendOk st0.1 st0.2 op1).1.
Definition st2 : bytes * Registry := (perform AppendOk st1.1 st1.2 op2).1.

Example ex_lookups :
  map (λ t, (LookupClientKeyAt st2.2 "tenant" "client" "key-1" t).2) [1; 2; 49; 50] =
    [Some (ErrorsNew "keystore: key not valid yet"); None; None; Some (ErrorsNew "keystore: key status is %s")] ∧
  map (λ t, (LookupClientKeyAt st2.2 "tenant" "client" "key-2" t).2) [49; 50; 89; 90] =
    [Some (ErrorsNew "keystore: key not valid yet"); None; None; Some (ErrorsNew "keystore: key expired")].
Proof. split; vm_compute; reflexivity. Qed.

(** ** Witnesses *)

Definition is_open (x : option bytes * go Registry) : bool :=
  match x with (Some _, Ret _) => true | _ => false end.
Definition event_of (x : result Ev.t) : Ev.t := match x with Ok e => e | Err _ => Ev.zero end.
Definition error_of (x : result Ev.t) : error :=
  match x with Ok _ => ErrorsNew "" | Err e => e end.
Definition registry_of (x : go Registry) : Registry :=
  match x with Ret r => r | _ => zero_registry end.
Definition is_ret {A} (x : go A) : bool := match x with Ret _ => true | _ => false end.

Lemma is_open_eq x : is_open x = true → x = (Some (opened x).1, Ret (opened x).2).
Proof. by destruct x as [[f|] [r| |]]. Qed.
Lemma ok_event x : is_ok x = true → x = Ok (event_of x).
Proof. by destruct x. Qed.
Lemma err_event x : is_ok x = false → x = Err (error_of x).
Proof. by destruct x. Qed.
Lemma ret_registry x : is_ret x = true → x = Ret (registry_of x).
Proof. by destruct x. Qed.
Lemma performed io f r o (x := perform io f r o) : perform io f r o = (x.1.1, x.1.2, x.2).
Proof. subst x. by destruct (perform io f r o) as [[??]?]. Qed.
Lemma performed_ok io f r o (x := perform io f r o) :
  is_ok x.2 = true → perform io f r o = (x.1.1, x.1.2, Ok (event_of x.2)).
Proof. intros E. rewrite <- ok_event by done. apply performed. Qed.
Lemma performed_err io f r o (x := perform io f r o) :
  is_ok x.2 = false → perform io f r o = (x.1.1, x.1.2, Err (error_of x.2)).
Proof. intros E. rewrite <- err_event by done. apply performed. Qed.
Lemma found_key r t c k at_ (x := LookupClientKeyAt r t c k at_) :
  x.2 = None → LookupClientKeyAt r t c k at_ = (x.1, None).
Proof. subst x. destruct (LookupClientKeyAt r t c k at_) as [? ?]. cbn. by intros ->. Qed.
Lemma names_plain evs :
  forallb (λ e, bool_decide (nul_free e.(Ev.TenantID) ∧ nul_free e.(Ev.ClientID))) evs = true →
  plain_names evs.
Proof.
  intros E e He. rewrite forallb_forall in E. apply list_elem_of_In in He.
  specialize (E e He). by apply bool_decide_eq_true_1 in E.
Qed.

Lemma reach0 : reachable "keys" reg_signer reg_pub st0.1 st0.2.
Proof. apply reach_new, is_open_eq. vm_compute. reflexivity. Qed.
Lemma reach1 : reachable "keys" reg_signer reg_pub st1.1 st1.2.
Proof. eapply reach_step; [exact reach0| |apply performed]; vm_compute; reflexivity. Qed.
Lemma reach2 : reachable "keys" reg_signer reg_pub st2.1 st2.2.
Proof. eapply reach_step; [exact reach1| |apply performed]; vm_compute; reflexivity. Qed.

(** A compromise of which five bytes are written. *)
Definition torn := perform (FailWrite 5) st2.1 st2.2 op3.

Lemma registry_recovers_witness :
  ∃ f'' r'', Open io_ok "keys" (Some reg_signer) reg_pub (Some torn.1.1) = (Some f'', Ret r'') ∧
    (is_ok torn.2 = true → r'' = torn.1.2) ∧ (r'' = st2.2 ∨ ∃ e, events r'' = events st2.2 ++ [e]).
Proof.
  eapply (registry_recovers "keys" reg_signer reg_pub st2.1 st2.2 op3 (FailWrite 5)).
  - exact reach2.
  - vm_compute. reflexivity.
  - apply performed.
Defined.

Example ex_torn : length torn.1.1 = (length st2.1 + 5)%nat.
Proof. vm_compute. reflexivity. Qed.

(** A compromise that is not synced, followed by an acknowledged revocation. *)
Definition unsynced := perform FailSync st2.1 st2.2 op3.
Definition after_unsynced := perform AppendOk unsynced.1.1 unsynced.1.2 op4.

Lemma failed_sync_locks_out_witness :
  Open io_ok "keys" (Some reg_signer) reg_pub (Some after_unsynced.1.1)
    ≠ (Some after_unsynced.1.1, Ret after_unsynced.1.2).
Proof.
  eapply (failed_sync_locks_out "keys" reg_signer reg_pub st2.1 st2.2 op3 unsynced.1.1 unsynced.1.2
    (error_of unsynced.2) op4 after_unsynced.1.1 after_unsynced.1.2 (event_of after_unsynced.2)).
  - exact reach2.
  - apply performed_err. vm_compute. reflexivity.
  - apply bytes_equal_false. vm_compute. reflexivity.
  - apply performed_ok. vm_compute. reflexivity.
  - apply bytes_equal_false. vm_compute. reflexivity.
Defined.

(** A registration for a tenant whose name is not UTF-8. *)
Definition op5 : op :=
  Register (String.string_of_list_byte [Byte.xff]) "client" ex_d2 (Some 60) None.
Definition badly_named := perform AppendOk st1.1 st1.2 op5.

Lemma invalid_text_locks_out_witness :
  Open io_ok "keys" (Some reg_signer) reg_pub (Some badly_named.1.1)
    ≠ (Some badly_named.1.1, Ret badly_named.1.2).
Proof.
  eapply (invalid_text_locks_out "keys" reg_signer reg_pub st1.1 st1.2 op5 badly_named.1.1
    badly_named.1.2 (event_of badly_named.2)).
  - exact reach1.
  - apply performed_ok. vm_compute. reflexivity.
  - apply bytes_equal_false. vm_compute. reflexivity.
  - vm_compute. reflexivity.
Defined.

Lemma retry_answers_same_witness :
  perform FailSync st2.1 st2.2 op1 = (st2.1, st2.2, Ok (event_of (perform AppendOk st0.1 st0.2 op1).2)).
Proof.
  eapply (retry_answers_same "keys" reg_signer reg_pub st0.1 st0.2 op1 st1.1 st1.2 _ st2.1 st2.2 FailSync).
  - exact reach0.
  - apply performed_ok. vm_compute. reflexivity.
  - exact reach2.
  - apply (bool_decide_unpack _). vm_compute. exact I.
  - intros x E. vm_compute in E. injection E as <-. vm_compute. reflexivity.
Defined.

Lemma lookup_spec_witness :
  ∃ reg d, admissible (events st2.2) "tenant" "client" "key-1" 10 reg ∧
    keydescriptor_Unmarshal reg.(Ev.KeyDescriptor) = Ok d ∧
    (LookupClientKeyAt st2.2 "tenant" "client" "key-1" 10).1 = keyOf "tenant" "client" reg d.
Proof.
  apply (lookup_spec st2.2 "tenant" "client" "key-1" 10).
  - eapply reachable_loaded, reach2.
  - apply names_plain. vm_compute. reflexivity.
  - apply (bool_decide_unpack _). vm_compute. exact I.
  - apply (bool_decide_unpack _). vm_compute. exact I.
  - apply found_key. vm_compute. reflexivity.
Defined.

(** ** Evidence *)

Definition evidence := OpenEvidence st2.1 reg_pub.

Lemma evidence_accepted : OpenEvidence st2.1 reg_pub = Ret (registry_of evidence).
Proof. apply ret_registry. vm_compute. reflexivity. Qed.

Lemma evidence_exact_witness :
  trusted_key reg_pub ∧
  ∃ evs, image (manifestForPublicKey reg_pub) evs = Ok st2.1 ∧
    readable (manifestForPublicKey reg_pub) evs ∧ chain reg_pub 0 [] evs ∧
    lifecycle (newRegistry None (manifestForPublicKey reg_pub) 0) evs = Ok (registry_of evidence).
Proof.
  exact (proj1 (evidence_exact st2.1 reg_pub (registry_of evidence)) evidence_accepted).
Defined.

(** The file that a restart repairs after the torn append. *)
Definition repaired : bytes := (opened (Open io_ok "keys" (Some reg_signer) reg_pub (Some torn.1.1))).1.
Definition evidence' := OpenEvidence repaired reg_pub.

Lemma evidence_binds_witness :
  st2.1 = repaired ∨ ∃ i e1 e2, events (registry_of evidence) !! i = Some e1 ∧
    events (registry_of evidence') !! i = Some e2 ∧ hash_collision e1 e2.
Proof.
  refine (evidence_binds st2.1 repaired reg_pub (registry_of evidence) (registry_of evidence')
    evidence_accepted _ _ _).
  - apply ret_registry. vm_compute. reflexivity.
  - vm_compute. reflexivity.
  - vm_compute. reflexivity.
Defined.
End key_examples.
