(* ===== verification/App.v ===== *)
(** * The local engine

    Models [src/internal/app/local.go]: the engine that validates a signed
    claim, appends it to the write-ahead log, answers with a server record and
    an accepted receipt, replays the log, and computes the proof bundles of a
    batch.  The append is [AppendPreparedAt] of [src/internal/wal/wal.go] on the
    model of the writer and its queue.

    A [time.Time] is its [UnixNano]; the zero time, which has none, is [None].
    Contexts are live.  The workers of [ComputeBatch] compute the bundles
    independently of each other; the first error in the order of the records is
    returned. *)

From S2P Require Import Prelude TrustErr CryptoSuite Model TrustCrypto Cborx KeyDescriptor ModelSuite.
From S2P Require Import Merkle Claim Receipt Wal WalDir WalQueue Idempotency IdemIndex.

Module app.
Import wal waldir walqueue.

(** ** Appending to the log *)

Section append.
Context `{HashLib}.

(** What [waitReservation] receives for a reservation; [None] while it is
    pending. *)
Definition waitReservation (st : State) (id : nat) : option appendReservationResult :=
  (λ x, x.2.2) <$> list_find (λ x, r_id x.1 = id) (finished st).

(** [prepare] computes a value from the announced position; it is what the
    closure of the caller stores.  [Stuck] is an append that waits for another
    one, or a commit that does not return. *)
Definition AppendPreparedAt {A} (env : Env) (st : State) (payload : bytes) (at_ : Z)
    (prepare : Pos.t → result A) : State * go A :=
  match appendReserved st None payload at_ with
  | Err e => (st, Fail e)
  | Ok (reservation, st) =>
      let id := r_id reservation in
      let prepared := prepare (r_position reservation) in
      let prepareErr := match prepared with Ok _ => None | Err e => Some e end in
      match completeReservation env st id prepareErr with
      | None => (st, Stuck)
      | Some st =>
          match waitReservation st id, prepared with
          | None, _ => (st, Stuck)
          | Some (Err e), _ => (st, Fail e)
          | Some (Ok _), Ok a => (st, Ret a)
          | Some (Ok _), Err e => (st, Fail e)
          end
      end
  end.
End append.

(** ** The engine *)

Module Rec := ServerRecord.
Module Acc := AcceptedReceipt.

(** [LookupClientKeyAt] of the key registry. *)
Definition ClientKeyResolver : Type := string → string → string → Z → result ClientKey.t.

(** The log and the index are the state of the engine and not fields here; the
    durable readers are [DurableIdempotency] and [DurableRecords]. *)
Record LocalEngine := mkEngine {
  ServerID : string;
  LogID : string;
  ServerKeyID : string;
  ClientPublicKey : trustcrypto.PublicKeyDescriptor;
  ClientKeys : option ClientKeyResolver;
  ServerSigner : option trustcrypto.Signer;
  CryptoProvider : option trustcrypto.Provider;
  ProofWorkers : Z;
  DurableIdempotency : option app_idempotency.DurableIdempotencyReader;
  DurableRecords : option app_idempotency.DurableRecordReader }.

Record ReplayedAccepted := mkReplayed {
  Signed : SignedClaim.t;
  Record_ : Rec.t;
  Accepted : Acc.t }.

Definition cryptoProvider (e : LocalEngine) : trustcrypto.Provider :=
  default trustcrypto.DefaultProvider (CryptoProvider e).

Definition suiteOf (e : LocalEngine) : cryptosuite.ID :=
  trustcrypto.Provider_Suite (cryptoProvider e).

Definition serverSigner (e : LocalEngine) : result (option trustcrypto.Signer) :=
  _ ← errorf "app: invalid server signer: %w"
        (trustcrypto.ValidateSignerHandle (suiteOf e) (ServerSigner e));
  match ServerSigner e with
  | None => Ok None
  | Some s =>
      if negb (seqb (ServerKeyID e) "")
         && negb (seqb (trustcrypto.H_KeyID (trustcrypto.Handle s)) (ServerKeyID e))
      then Err (ErrorsNew "app: server signer key_id %q does not match configured key_id %q")
      else Ok (Some s)
  end.

Section engine.
Context `{HashLib, SigLib, KeyDescriptorLib}.
Context `{CborMode ClientClaim.t, CborMode claim.framing, CborMode SignedClaim.t}.
Context `{CborMode AcceptedReceipt.t, CborMode CommittedReceipt.t, CborMode ServerRecord.t}.

Definition resolveClientKey (e : LocalEngine) (signed : SignedClaim.t) (receivedAt : Z)
  : result (trustcrypto.PublicKeyDescriptor * string) :=
  let cl := signed.(SignedClaim.Claim) in
  match ClientKeys e with
  | Some LookupClientKeyAt =>
      key ← wrap_err CodeFailedPrecondition "client key is not admissible at claim receipt time"
              (LookupClientKeyAt cl.(ClientClaim.TenantID) cl.(ClientClaim.ClientID)
                 cl.(ClientClaim.KeyID) receivedAt);
      let descriptor := trustcrypto.mkPublicKeyDescriptor key.(ClientKey.CryptoSuite)
        key.(ClientKey.KeyID) key.(ClientKey.Alg) key.(ClientKey.PublicKeyEncoding)
        key.(ClientKey.PublicKey) in
      _ ← errorf "app: invalid resolved client public key: %w"
            (trustcrypto.ValidatePublicKey (Some (cryptoProvider e)) descriptor);
      Ok (descriptor, key.(ClientKey.Status))
  | None =>
      if len (trustcrypto.Bytes (ClientPublicKey e)) =? 0
      then Err (ErrorsNew "app: client public key or key resolver required") else
      _ ← errorf "app: invalid client public key: %w"
            (trustcrypto.ValidatePublicKey (Some (cryptoProvider e)) (ClientPublicKey e));
      Ok (ClientPublicKey e, KeyStatusValid)
  end.

(** The verified claim, the key status, the claim hash and the signature hash. *)
Definition validateSigned (e : LocalEngine) (signed : SignedClaim.t) (receivedAt : Z)
  : result (claim.Verified * string * bytes * bytes) :=
  let provider := cryptoProvider e in
  suite ← cryptosuite.RequireAvailable (trustcrypto.Provider_Suite provider);
  _ ← wrap_err CodeInvalidArgument "signed claim crypto_suite does not match server"
        (cryptosuite.RequireSame (cryptosuite.SuiteID suite)
           [signed.(SignedClaim.CryptoSuite); signed.(SignedClaim.Claim).(ClientClaim.CryptoSuite)]);
  '(clientPub, keyStatus) ← resolveClientKey e signed receivedAt;
  verified ← claim.VerifyWithProvider signed clientPub (Some provider);
  claimHash ← trustcrypto.HashBytesWithProvider (Some provider)
                (cryptosuite.HashAlgorithm (cryptosuite.ClaimHash suite)) (claim.V_ClaimCBOR verified);
  sigHash ← trustcrypto.HashBytesWithProvider (Some provider)
              (cryptosuite.HashAlgorithm (cryptosuite.SignatureHash suite))
              signed.(SignedClaim.Signature).(Signature.Signature);
  Ok (verified, keyStatus, claimHash, sigHash).

(** The record and the unsigned receipt that [buildAccepted] makes. *)
Definition newRecord (e : LocalEngine) (signed : SignedClaim.t) (verified : claim.Verified)
    (keyStatus : string) (claimHash sigHash : bytes) (pos : Pos.t) (receivedAt : Z) : Rec.t :=
  let cl := signed.(SignedClaim.Claim) in
  Rec.mk SchemaServerRecord (suiteOf e) (claim.V_RecordID verified) cl.(ClientClaim.TenantID)
    cl.(ClientClaim.ClientID) cl.(ClientClaim.KeyID) claimHash sigHash receivedAt pos
    (Validation.mk DefaultValidationPolicy true true keyStatus).

Definition newAccepted (e : LocalEngine) (record : Rec.t) (pos : Pos.t) (receivedAt : Z) : Acc.t :=
  Acc.mk SchemaAcceptedReceipt (suiteOf e) record.(Rec.RecordID) "accepted" (ServerID e) receivedAt
    pos Signature.zero.

Definition buildAccepted (e : LocalEngine) (signed : SignedClaim.t) (verified : claim.Verified)
    (keyStatus : string) (claimHash sigHash : bytes) (pos : Pos.t) (receivedAt : Z)
  : result (Rec.t * Acc.t) :=
  let record := newRecord e signed verified keyStatus claimHash sigHash pos receivedAt in
  let accepted := newAccepted e record pos receivedAt in
  signer ← serverSigner e;
  accepted ← receipt.SignAcceptedWithProvider (Some (cryptoProvider e)) accepted signer;
  Ok (record, accepted).

Definition ReplayAccepted (e : LocalEngine) (record : Record_.t) : result ReplayedAccepted :=
  _ ← wrap_err CodeDataLoss "WAL record crypto_suite does not match server"
        (cryptosuite.RequireSame (suiteOf e) [record.(Record_.CryptoSuite)]);
  signed ← cborx.UnmarshalLimit record.(Record_.Payload) (len record.(Record_.Payload));
  let receivedAt := record.(Record_.UnixNano) in
  '(verified, keyStatus, claimHash, sigHash) ← validateSigned e signed receivedAt;
  '(serverRecord, accepted) ← buildAccepted e signed verified keyStatus claimHash sigHash
                                 record.(Record_.Position) receivedAt;
  Ok (mkReplayed signed serverRecord accepted).

(** ** Submission *)

(** The closure [build] of [Submit]. *)
Definition submitBuild (e : LocalEngine) (env : Env) (signed : SignedClaim.t)
    (verified : claim.Verified) (keyStatus : string) (claimHash sigHash : bytes) (now : Z)
    (st : State) : State * go (Rec.t * Acc.t) :=
  match cborx.Marshal signed with
  | Err err => (st, Fail err)
  | Ok payload =>
      AppendPreparedAt env st payload now
        (λ pos, buildAccepted e signed verified keyStatus claimHash sigHash pos now)
  end.

(** The last part of [Submit]: the conflict is an error. *)
Definition submitResult (m : string) (out : go app_idempotency.remembered)
  : go (Rec.t * Acc.t * bool) :=
  match out with
  | Ret (record, accepted, loaded, conflict) =>
      if conflict : bool then Fail (TrustErr.New CodeAlreadyExists m)
      else Ret (record, accepted, loaded)
  | Fail err => Fail err
  | Stuck => Stuck
  end.

(** The state is the index, absent in an engine without one, and the log,
    absent when the writer is nil.  Returns the record, the receipt and whether
    they were made by an earlier submission. *)
Definition Submit (e : LocalEngine) (env : Env) (now : Z)
    (idx : option app_idempotency.IdempotencyIndex) (st : option State) (signed : SignedClaim.t)
  : option app_idempotency.IdempotencyIndex * option State * go (Rec.t * Acc.t * bool) :=
  match st with
  | None => (idx, None, Fail (ErrorsNew "app: WAL writer is nil"))
  | Some st =>
      let cl := signed.(SignedClaim.Claim) in
      match validateSigned e signed now with
      | Err err => (idx, Some st, Fail err)
      | Ok (verified, keyStatus, claimHash, sigHash) =>
          let build := submitBuild e env signed verified keyStatus claimHash sigHash now in
          let idemKey := app_idempotency.IdempotencyKey cl.(ClientClaim.TenantID)
                           cl.(ClientClaim.ClientID) cl.(ClientClaim.IdempotencyKey) in
          let identity := IdempotencyIdentity.mk cl.(ClientClaim.TenantID)
                            cl.(ClientClaim.ClientID) cl.(ClientClaim.IdempotencyKey) in
          let recordID := claim.V_RecordID verified in
          match idx with
          | None =>
              let '(st, out) := build st in
              (None, Some st, '(record, accepted) ← out; Ret (record, accepted, false))
          | Some i =>
              if seqb idemKey "" then
                let '(i, st, out) :=
                  app_idempotency.RememberDurableRecord i (app_idempotency.RecordIDKey recordID)
                    recordID claimHash (DurableRecords e) build st in
                (Some i, Some st,
                 submitResult "record_id %q already associated with a different claim" out)
              else
                let '(i, st, out) :=
                  app_idempotency.RememberDurable i idemKey identity claimHash
                    (DurableIdempotency e) build st in
                (Some i, Some st,
                 submitResult "idempotency_key %q already associated with a different claim" out)
          end
      end
  end.

Definition MarkRecordCommitted (e : LocalEngine) (idx : option app_idempotency.IdempotencyIndex)
    (recordID : string) : option app_idempotency.IdempotencyIndex :=
  match idx, DurableRecords e with
  | Some i, Some _ =>
      Some (app_idempotency.ForgetCommitted i (app_idempotency.RecordIDKey recordID) recordID)
  | _, _ => idx
  end.

Definition MarkIdempotencyCommitted (e : LocalEngine)
    (idx : option app_idempotency.IdempotencyIndex) (identity : IdempotencyIdentity.t)
    (recordID : string) : option app_idempotency.IdempotencyIndex :=
  match idx, DurableIdempotency e with
  | Some i, Some _ =>
      Some (app_idempotency.ForgetCommitted i
              (app_idempotency.IdempotencyKey identity.(IdempotencyIdentity.TenantID)
                 identity.(IdempotencyIdentity.ClientID)
                 identity.(IdempotencyIdentity.IdempotencyKey)) recordID)
  | _, _ => idx
  end.
End engine.

End app.

(** * Computing a batch

    Models [ComputeBatch], [CommitBatch], [CommitBatchIndexes] and
    [compactBatchTree] of [src/internal/app/local.go] and
    [RecordIndexFromBatchInputs] of [src/internal/model/types.go]: the Merkle
    tree over the records of a batch, the index entries, the compact tree and
    the signed proof bundles. *)

Module app_batch.
Import app.

Record BatchComputeOptions := mkBatchOptions { Mode : string; IncludeTree : bool }.

Record BatchCommit := mkCommit {
  C_TreeAlg : string;
  C_Root : BatchRoot.t;
  C_Indexes : list RecordIndex.t;
  C_Tree : BatchTreeSnapshot.t;
  C_Bundles : list ProofBundle.t }.

(** [if s == "" { s = other }] *)
Definition or_else (s other : string) : string := if seqb s "" then other else s.

Definition RecordIndexFromBatchInputs (signed : SignedClaim.t) (record : Rec.t) (accepted : Acc.t)
    (nodeID logID batchID : string) (leafIndex closedAtUnixN : Z) (proofLevel : string)
  : RecordIndex.t :=
  let claim := signed.(SignedClaim.Claim) in
  let custom key := default "" (claim.(ClientClaim.Metadata).(Metadata.Custom) !! key) in
  let fileName := or_else (custom "file_name") (custom "filename") in
  let receivedAt := record.(Rec.ReceivedAtUnixN) in
  let receivedAt := if receivedAt =? 0 then accepted.(Acc.ReceivedAtUnixN) else receivedAt in
  let receivedAt := if receivedAt =? 0 then closedAtUnixN else receivedAt in
  let content := claim.(ClientClaim.Content) in
  RecordIndex.mk SchemaRecordIndex signed.(SignedClaim.CryptoSuite) record.(Rec.RecordID)
    nodeID logID
    (or_else record.(Rec.TenantID) claim.(ClientClaim.TenantID))
    (or_else record.(Rec.ClientID) claim.(ClientClaim.ClientID))
    (or_else record.(Rec.KeyID) claim.(ClientClaim.KeyID))
    proofLevel batchID leafIndex closedAtUnixN receivedAt content.(Content.ContentHash)
    content.(Content.ContentLength) content.(Content.MediaType) content.(Content.StorageURI)
    fileName claim.(ClientClaim.Metadata).(Metadata.EventType)
    claim.(ClientClaim.Metadata).(Metadata.Source).

(** ** The compact tree *)

(** [sort.Slice] by level and start; no two nodes have the same ones. *)
Definition node_before (a b : BatchTreeSnapshotNode.t) : bool :=
  if negb (a.(BatchTreeSnapshotNode.Level) =? b.(BatchTreeSnapshotNode.Level))
  then a.(BatchTreeSnapshotNode.Level) <? b.(BatchTreeSnapshotNode.Level)
  else a.(BatchTreeSnapshotNode.StartIndex) <? b.(BatchTreeSnapshotNode.StartIndex).

Fixpoint insert_node (x : BatchTreeSnapshotNode.t) (l : list BatchTreeSnapshotNode.t)
  : list BatchTreeSnapshotNode.t :=
  match l with
  | [] => [x]
  | y :: r => if node_before y x then y :: insert_node x r else x :: l
  end.

Definition sort_nodes (l : list BatchTreeSnapshotNode.t) : list BatchTreeSnapshotNode.t :=
  foldr insert_node [] l.

Definition compactBatchTree (fuel : nat) (suiteID : cryptosuite.ID) (batchID : string)
    (createdAtUnixN : Z) (records : list Rec.t) (tree : merkle.Tree)
  : option BatchTreeSnapshot.t :=
  nodes ← merkle.Nodes fuel tree;
  Some (BatchTreeSnapshot.mk suiteID batchID createdAtUnixN (map Rec.RecordID records)
          (merkle.leafHashes tree)
          (sort_nodes (map (λ n, BatchTreeSnapshotNode.mk (merkle.Node_Level n)
                                   (merkle.Node_StartIndex n) (merkle.Node_Width n)
                                   (merkle.Node_Hash n)) nodes))).

(** The number of workers; [maxprocs] is [runtime.GOMAXPROCS(0)]. *)
Definition proofWorkerCount (e : LocalEngine) (maxprocs records : Z) : Z :=
  let workers := ProofWorkers e in
  let workers := if workers <=? 0 then (if 32 <? maxprocs then 32 else maxprocs) else workers in
  let workers := if records <? workers then records else workers in
  if workers <? 1 then 1 else workers.

Section batch.
Context `{HashLib, SigLib, KeyDescriptorLib}.
Context `{CborMode CommittedReceipt.t, CborMode ServerRecord.t}.

(** The check of the suites of every item. *)
Fixpoint checkSuites (suiteID : cryptosuite.ID)
    (items : list (SignedClaim.t * Rec.t * Acc.t)) : result unit :=
  match items with
  | [] => Ok tt
  | (signed, record, accepted) :: rest =>
      _ ← wrap_err CodeInvalidArgument "batch item %d mixes cryptographic suites"
            (cryptosuite.RequireSame suiteID
               [signed.(SignedClaim.CryptoSuite);
                signed.(SignedClaim.Claim).(ClientClaim.CryptoSuite);
                record.(Rec.CryptoSuite); accepted.(Acc.CryptoSuite)]);
      checkSuites suiteID rest
  end.

(** The job of a worker for the record [i]. *)
Definition proofJob (fuel : nat) (e : LocalEngine) (suite : cryptosuite.Suite) (batchID : string)
    (closedAt : Z) (tree : merkle.Tree) (n : Z) (signer : option trustcrypto.Signer) (i : nat)
    (item : SignedClaim.t * Rec.t * Acc.t) : go ProofBundle.t :=
  let '(signed, record, accepted) := item in
  leaf ← call (merkle.LeafHash tree (Z.of_nat i));
  proof ← call (merkle.ProofView fuel tree (Z.of_nat i));
  let committed := CommittedReceipt.mk SchemaCommittedReceipt (cryptosuite.SuiteID suite)
    record.(Rec.RecordID) "committed" batchID (Z.of_nat i) leaf (merkle.Root tree) closedAt
    (ServerID e) (LogID e) Signature.zero in
  committed ← ret (receipt.SignCommittedWithProvider (Some (cryptoProvider e)) committed signer);
  Ret (ProofBundle.mk SchemaProofBundle (cryptosuite.SuiteID suite) record.(Rec.RecordID)
         (ServerID e) (LogID e) signed record accepted committed
         (BatchProof.mk (cryptosuite.MerkleAlgorithm (cryptosuite.Merkle suite)) (Z.of_nat i) n proof)).

(** The bundles of all items, or the first error. *)
Fixpoint proofJobs (fuel : nat) (e : LocalEngine) (suite : cryptosuite.Suite) (batchID : string)
    (closedAt : Z) (tree : merkle.Tree) (n : Z) (signer : option trustcrypto.Signer) (i : nat)
    (items : list (SignedClaim.t * Rec.t * Acc.t)) : go (list ProofBundle.t) :=
  match items with
  | [] => Ret []
  | item :: rest =>
      bundle ← proofJob fuel e suite batchID closedAt tree n signer i item;
      bundles ← proofJobs fuel e suite batchID closedAt tree n signer (S i) rest;
      Ret (bundle :: bundles)
  end.

Definition ComputeBatch (fuel : nat) (e : LocalEngine) (now : Z) (batchID : string)
    (closedAt : option Z) (signed : list SignedClaim.t) (records : list Rec.t)
    (accepted : list Acc.t) (opts : BatchComputeOptions) : go BatchCommit :=
  if (len records =? 0) || negb (len records =? len signed) || negb (len records =? len accepted)
  then Fail (ErrorsNew "app: inconsistent batch input sizes") else
  let items := zip (zip signed records) accepted in
  suite ← ret (cryptosuite.RequireAvailable (suiteOf e));
  _ ← ret (checkSuites (cryptosuite.SuiteID suite) items);
  let alg := cryptosuite.MerkleAlgorithm (cryptosuite.Merkle suite) in
  tree ← call (merkle.BuildForSuite fuel (cryptosuite.SuiteID suite) alg records);
  let closedAt := default now closedAt in
  let root := BatchRoot.mk SchemaBatchRoot (cryptosuite.SuiteID suite) batchID (ServerID e) (LogID e)
                (merkle.Root tree) (len records) closedAt in
  let materialized := seqb (Mode opts) BatchComputeMaterialized in
  let proofLevel := if materialized then "L3" else "L2" in
  let indexes := imap (λ i '(sc, record, acc),
    RecordIndexFromBatchInputs sc record acc (ServerID e) (LogID e) batchID (Z.of_nat i) closedAt
      proofLevel) items in
  snapshot ← (if IncludeTree opts
              then call (Ok <$> compactBatchTree fuel (cryptosuite.SuiteID suite) batchID closedAt
                                  records tree)
              else Ret BatchTreeSnapshot.zero);
  if negb materialized then Ret (mkCommit alg root indexes snapshot []) else
  signer ← ret (serverSigner e);
  bundles ← proofJobs fuel e suite batchID closedAt tree (len records) signer 0 items;
  Ret (mkCommit alg root indexes snapshot bundles).

Definition CommitBatch (fuel : nat) (e : LocalEngine) (now : Z) (batchID : string)
    (closedAt : option Z) (signed : list SignedClaim.t) (records : list Rec.t)
    (accepted : list Acc.t) : go (list ProofBundle.t) :=
  result ← ComputeBatch fuel e now batchID closedAt signed records accepted
             (mkBatchOptions BatchComputeMaterialized false);
  Ret (C_Bundles result).

Definition CommitBatchIndexes (fuel : nat) (e : LocalEngine) (now : Z) (batchID : string)
    (closedAt : option Z) (signed : list SignedClaim.t) (records : list Rec.t)
    (accepted : list Acc.t) : go (BatchRoot.t * list RecordIndex.t) :=
  result ← ComputeBatch fuel e now batchID closedAt signed records accepted
             (mkBatchOptions BatchComputePlanOnly false);
  Ret (C_Root result, C_Indexes result).
End batch.

End app_batch.
