(* ===== verification/AppProofs.v ===== *)
(** * The engine and the verifier agree

    What the engine accepts and commits verifies offline, and what it accepted
    is rebuilt from the log after a crash. *)

From S2P Require Import Prelude TrustErr CryptoSuite Model TrustCrypto Cborx KeyDescriptor ModelSuite.
From S2P Require Import Rfc6962 Merkle MerkleProofs GlobalStore GlobalLog GlobalLogProofs.
From S2P Require Import ProofLevel Claim Receipt Ots AnchorId Verify VerifyProofs.
From S2P Require Import Wal WalDir WalQueue Idempotency IdemIndex App.

Module app_proofs.
Import app app_batch merkle_proofs verify_proofs.

Section engine.
Context `{HashLib, SigLib, KeyDescriptorLib}.
Context `{CborMode ClientClaim.t, CborMode claim.framing, CborMode SignedClaim.t}.
Context `{CborMode AcceptedReceipt.t, CborMode CommittedReceipt.t, CborMode ServerRecord.t}.
Context (e : LocalEngine).

Local Abbreviation p := (cryptoProvider e).
Local Abbreviation s := (trustcrypto.Provider_Suite (cryptoProvider e)).

(** The engine accepted the claim at the time [at_] and the position [pos],
    with the client key [pk], and answered with [rec] and [acc]. *)
Definition accepted_item (pk : trustcrypto.PublicKeyDescriptor) (at_ : Z)
    (item : SignedClaim.t * Rec.t * Acc.t) : Prop :=
  ∃ status claimHash sigHash v pos,
    resolveClientKey e item.1.1 at_ = Ok (pk, status) ∧
    validateSigned e item.1.1 at_ = Ok (v, status, claimHash, sigHash) ∧
    buildAccepted e item.1.1 v status claimHash sigHash pos at_ = Ok (item.1.2, item.2).

(** What the validation establishes. *)
Lemma validateSigned_inv signed at_ v status ch sh suite :
  cryptosuite.RequireKnown s = Ok suite →
  validateSigned e signed at_ = Ok (v, status, ch, sh) →
  signed.(SignedClaim.CryptoSuite) = s ∧ signed.(SignedClaim.Claim).(ClientClaim.CryptoSuite) = s ∧
  (∃ pk, resolveClientKey e signed at_ = Ok (pk, status) ∧
     claim.VerifyWithProvider signed pk (Some p) = Ok v) ∧
  trustcrypto.HashBytesWithProvider (Some p)
    (cryptosuite.HashAlgorithm (cryptosuite.ClaimHash suite)) (claim.V_ClaimCBOR v) = Ok ch ∧
  trustcrypto.HashBytesWithProvider (Some p)
    (cryptosuite.HashAlgorithm (cryptosuite.SignatureHash suite))
    signed.(SignedClaim.Signature).(Signature.Signature) = Ok sh.
Proof.
  intros Hk E. unfold validateSigned in E. ok_inv.
  match goal with H : cryptosuite.RequireAvailable _ = Ok ?x |- _ =>
    apply cryptosuite.RequireAvailable_Ok in H; rewrite Hk in H; injection H as <- end.
  match goal with H : resolveClientKey _ _ _ = Ok ?x |- _ => destruct x as [pk st] end.
  ok_inv. simplify_eq. rewrite (cryptosuite.RequireKnown_id _ _ Hk) in *. same_inv.
  split_and!; try done. by exists pk.
Qed.

Lemma VerifyWithProvider_inv signed pk v :
  claim.VerifyWithProvider signed pk (Some p) = Ok v →
  signed.(SignedClaim.SchemaVersion) = SchemaSignedClaim ∧
  claim.V_Claim v = signed.(SignedClaim.Claim).
Proof. intros E. unfold claim.VerifyWithProvider in E. ok_inv. bsimpl. by subst v. Qed.

Lemma buildAccepted_inv signed v status ch sh pos at_ rec acc :
  buildAccepted e signed v status ch sh pos at_ = Ok (rec, acc) →
  rec = newRecord e signed v status ch sh pos at_ ∧
  ∃ signer sig, serverSigner e = Ok signer ∧
    acc = AcceptedReceipt.set_ServerSig sig (newAccepted e rec pos at_) ∧
    receipt.SignAcceptedWithProvider (Some p) (newAccepted e rec pos at_) signer = Ok acc.
Proof.
  intros E. unfold buildAccepted in E. ok_inv. subst. split; [done|].
  match goal with H : receipt.SignAcceptedWithProvider _ _ ?x = Ok ?y |- _ =>
    exists x; pose proof H as Hs; unfold receipt.SignAcceptedWithProvider in H end.
  ok_inv. eexists. split_and!; [done|by symmetry|done].
Qed.

Lemma serverSigner_Ok signer : serverSigner e = Ok signer → signer = ServerSigner e.
Proof.
  unfold serverSigner. intros E. apply bind_Ok in E as (u & _ & E).
  destruct (ServerSigner e); [|by injection E]. by ok_inv.
Qed.

(** ** Batches *)

Lemma proofJobs_lookup fuel suite batchID closedAt tree n signer k items bs :
  proofJobs fuel e suite batchID closedAt tree n signer k items = Ret bs →
  ∀ i item, items !! i = Some item →
  ∃ b, bs !! i = Some b ∧ proofJob fuel e suite batchID closedAt tree n signer (k + i) item = Ret b.
Proof.
  revert k bs. induction items as [|x items IH]; intros k bs E i item Hi; [done|].
  cbn [proofJobs] in E. go_inv. subst bs. destruct i as [|i]; cbn in Hi |- *.
  - injection Hi as <-. rewrite Nat.add_0_r. by eexists.
  - destruct (IH _ _ ltac:(eassumption) _ _ Hi) as (b & ? & ?).
    exists b. by rewrite <- Nat.add_succ_comm.
Qed.

(** A computed batch: its tree and its bundles. *)
Lemma ComputeBatch_inv fuel now batchID closedAt signed records accepted opts commit :
  ComputeBatch fuel e now batchID closedAt signed records accepted opts = Ret commit →
  Mode opts = BatchComputeMaterialized →
  ∃ suite tree signer, cryptosuite.RequireKnown s = Ok suite ∧ serverSigner e = Ok signer ∧
    length signed = length records ∧ length accepted = length records ∧
    merkle.BuildForSuite fuel s (cryptosuite.MerkleAlgorithm (cryptosuite.Merkle suite)) records
    = Some (Ok tree) ∧
    C_Root commit = BatchRoot.mk SchemaBatchRoot s batchID (ServerID e) (LogID e) (merkle.Root tree)
                      (len records) (default now closedAt) ∧
    proofJobs fuel e suite batchID (default now closedAt) tree (len records) signer 0
      (zip (zip signed records) accepted) = Ret (C_Bundles commit).
Proof.
  intros E Hm. unfold ComputeBatch in E. rewrite Hm in E.
  change (seqb BatchComputeMaterialized BatchComputeMaterialized) with true in E. cbn [negb] in E.
  go_inv. bsimpl.
  match goal with H : cryptosuite.RequireAvailable _ = Ok ?x |- _ =>
    apply cryptosuite.RequireAvailable_Ok in H; exists x; unfold suiteOf in H;
    pose proof (cryptosuite.RequireKnown_id _ _ H) as Eid; rewrite Eid in * end.
  eexists _, _. subst commit. unfold len in *.
  split_and!; try done; try lia; by cbn.
Qed.

(** The leaf and the path of the [i]th record of a batch tree. *)
Lemma tree_entry fuel a prof records tree (i : nat) rec :
  merkle.ProfileForAlgorithm s a = Ok prof → (63 <= fuel)%nat → len records <= 2 ^ 62 →
  merkle.BuildForSuite fuel s a records = Some (Ok tree) → records !! i = Some rec →
  rec.(Rec.CryptoSuite) = s →
  ∃ leaf path, merkle.LeafHash tree (Z.of_nat i) = Some (Ok leaf) ∧
    merkle.HashLeafForSuite s a rec = Some (Ok leaf) ∧
    merkle.ProofView fuel tree (Z.of_nat i) = Some (Ok path) ∧
    merkle.VerifyForSuite fuel s a leaf (Z.of_nat i) (len records) path (merkle.Root tree)
    = Some (Ok true).
Proof.
  intros Hp Hf H62 Hb Hi Hs. pose proof (ProfileForAlgorithm_wf _ _ _ Hp) as Hwf.
  destruct (BuildForSuite_inv _ _ _ _ _ _ Hp H62 Hf Hb) as (_ & bs & HF & Hok).
  pose proof (leaf_hashes_digests prof bs) as Hd. apply Forall2_length in HF as Hlen.
  destruct (Forall2_lookup_l _ _ _ _ _ HF Hi) as (b & Hbi & Eb).
  assert (map (leaf_hash prof) bs !! i = Some (leaf_hash prof b)) as Hli by (by rewrite list_lookup_fmap, Hbi).
  assert (len (map (leaf_hash prof) bs) = len records) as El by (unfold len; rewrite length_map; lia).
  assert (i < length (map (leaf_hash prof) bs))%nat as Hlt by (by eapply lookup_lt_Some).
  exists (leaf_hash prof b), (PATH prof i (map (leaf_hash prof) bs)). split_and!.
  - unfold merkle.LeafHash. destruct Hok as (-> & _). rewrite El.
    rewrite (proj2 (Z.ltb_ge _ _)), (proj2 (Z.leb_gt _ _)) by (unfold len in *; lia). cbn [orb].
    rewrite index_nat, Hli. cbn. by rewrite cloneHash_digest by apply profile_hash_digest.
  - unfold merkle.HashLeafForSuite. rewrite Hp, (proj2 (Require_record s rec)).
    2: { split; [apply trustcrypto.known_suite|done]. }
    rewrite hashLeafArray_wf, Eb by done. cbn. by rewrite cloneHash_digest by apply profile_hash_digest.
  - apply (tree_paths fuel prof); auto. by rewrite El.
  - unfold merkle.Root. destruct Hok as (_ & -> & _). rewrite cloneHash_digest by (by apply MTH_digest).
    rewrite <- El. apply path_verifies; auto. by rewrite El.
Qed.

(** The keys with which a verifier trusts the engine and the client. *)
Definition trusts (keys : verify.TrustedKeys) (pk : trustcrypto.PublicKeyDescriptor) : Prop :=
  provider_of keys = p ∧ verify.ClientPublicKey keys = pk ∧
  receipt.signs_for p (ServerSigner e) (verify.publicKeyOrFallback
    (verify.AcceptedReceiptPublicKey keys) (verify.ServerPublicKey keys)) ∧
  receipt.signs_for p (ServerSigner e) (verify.publicKeyOrFallback
    (verify.CommittedReceiptPublicKey keys) (verify.ServerPublicKey keys)).

(** The bytes have the length and the digest of the claim. *)
Definition content_of (signed : SignedClaim.t) (raw : bytes) : Prop :=
  let content := signed.(SignedClaim.Claim).(ClientClaim.Content) in
  trustcrypto.HashReaderWithProvider (Some p) content.(Content.HashAlg) raw
  = Ok (content.(Content.ContentHash), content.(Content.ContentLength)).

Lemma mismatch_refl x : verify.mismatch x x = false.
Proof. unfold verify.mismatch. by rewrite seqb_refl, andb_false_r. Qed.

Lemma job_verified fuel suite batchID closedAt records tree (i : nat) signed rec acc pk at_ keys raw b :
  cryptosuite.RequireKnown s = Ok suite → (63 <= fuel)%nat → len records <= 2 ^ 62 →
  merkle.BuildForSuite fuel s (cryptosuite.MerkleAlgorithm (cryptosuite.Merkle suite)) records
  = Some (Ok tree) →
  records !! i = Some rec → accepted_item pk at_ (signed, rec, acc) →
  trusts keys pk → content_of signed raw →
  proofJob fuel e suite batchID closedAt tree (len records) (ServerSigner e) i (signed, rec, acc) = Ret b →
  ∃ v, verified_bundle fuel raw b keys p suite v ∧ claim.V_RecordID v = rec.(Rec.RecordID) ∧
    b.(ProofBundle.NodeID) = ServerID e ∧ b.(ProofBundle.LogID) = LogID e ∧
    b.(ProofBundle.CommittedReceipt).(CommittedReceipt.BatchID) = batchID ∧
    b.(ProofBundle.CommittedReceipt).(CommittedReceipt.BatchRoot) = merkle.Root tree ∧
    b.(ProofBundle.CommittedReceipt).(CommittedReceipt.ClosedAtUnixN) = closedAt ∧
    b.(ProofBundle.BatchProof).(BatchProof.TreeSize) = len records.
Proof.
  intros Hk Hf H62 Hb Hi (st & ch & sh & v & pos & Hkey & Hval & Hbuilt) (Hp & Hc & Ha & Hcom) Hraw E.
  cbn [fst snd] in *. destruct (suite_profile _ _ Hk) as (prof & Hprof & Hwf & _).
  destruct (validateSigned_inv _ _ _ _ _ _ _ Hk Hval) as (Hs1 & Hs2 & (pk' & Hkey' & Hver) & Hch & Hsh).
  rewrite Hkey in Hkey'. injection Hkey' as <-.
  destruct (buildAccepted_inv _ _ _ _ _ _ _ _ _ Hbuilt) as (Erec & signer & sig & Hsg & Eacc & Hsign).
  apply serverSigner_Ok in Hsg as ->.
  destruct (tree_entry fuel _ prof records tree i rec Hprof Hf H62 Hb Hi) as (leaf & path & T1 & T2 & T3 & T4);
    [by subst rec|].
  unfold proofJob in E. rewrite T1, T3 in E. cbn [call ret mbind go_bind] in E.
  apply bind_Ret in E as (com & Ecom & E). injection E as <-. apply ret_Ret in Ecom.
  destruct (receipt.signed_committed_verifies _ _ _ _ _ Hcom Ecom) as (Hvc & sig' & ->).
  destruct (receipt.signed_accepted_verifies _ _ _ _ _ Ha Hsign) as (Hva & _).
  rewrite (cryptosuite.RequireKnown_id _ _ Hk) in *.
  exists v. split; [|subst rec; by split_and!].
  assert (modelsuite.Require_ s (modelsuite.AnyProofBundle (ProofBundle.mk SchemaProofBundle s
    rec.(Rec.RecordID) (ServerID e) (LogID e) signed rec acc (CommittedReceipt.set_ServerSig sig'
      (CommittedReceipt.mk SchemaCommittedReceipt s rec.(Rec.RecordID) "committed" batchID
         (Z.of_nat i) leaf (merkle.Root tree) closedAt (ServerID e) (LogID e) Signature.zero))
    (BatchProof.mk (cryptosuite.MerkleAlgorithm (cryptosuite.Merkle suite)) (Z.of_nat i)
       (len records) path))) = Ok tt) as Hreq.
  { apply modelsuite.Require_Ok. split; [apply trustcrypto.known_suite|]. eexists. split; [reflexivity|].
    intros name ids [= <- <-]. subst rec acc. unfold modelsuite.when_schema.
    repeat (rewrite ?Forall_app; first [done | split | constructor | case_match]); done. }
  split; try done; try (by subst rec); [by cbn; rewrite Hc|].
  unfold verify.validateBundleBindings.
  rewrite (proj2 (cryptosuite.RequireAvailable_Ok _ _) Hk). cbn [mbind result_bind].
  rewrite (cryptosuite.RequireKnown_id _ _ Hk), Hreq. cbn [errorf mbind result_bind].
  cbn [ProofBundle.SignedClaim ProofBundle.ServerRecord ProofBundle.AcceptedReceipt
    ProofBundle.CommittedReceipt ProofBundle.BatchProof ProofBundle.NodeID ProofBundle.LogID].
  subst acc rec.
  cbn [newRecord newAccepted AcceptedReceipt.set_ServerSig CommittedReceipt.set_ServerSig
    Rec.TenantID Rec.ClientID Rec.KeyID Rec.ClaimHash Rec.ClientSignatureHash Rec.RecordID
    Rec.ReceivedAtUnixN Rec.WAL Acc.RecordID Acc.ReceivedAtUnixN Acc.WAL Acc.ServerID
    CommittedReceipt.RecordID CommittedReceipt.LeafIndex CommittedReceipt.NodeID CommittedReceipt.LogID
    BatchProof.LeafIndex BatchProof.TreeAlg BatchProof.TreeSize].
  rewrite !seqb_refl, Hch. cbn [negb mbind result_bind]. rewrite Hsh. cbn [mbind result_bind].
  rewrite !bytes_equal_refl, !Z.eqb_refl, !mismatch_refl, bool_decide_true by done. cbn [negb].
  apply lookup_lt_Some in Hi. unfold len.
  rewrite (proj2 (Z.eqb_neq _ _)), (proj2 (Z.leb_gt _ _)) by lia. done.
Qed.

(** ** Evidence of the engine verifies *)

Context `{CborMode GlobalLogLeaf.t, CborMode SignedTreeHead.t, OtsHashLib, OtsJson}.
Context {S : Type} `{GlobalStoreLaws S, !GlobalStoreReads S}.

Lemma ProofBundle_L3 fuel raw b keys suite v :
  verified_bundle fuel raw b keys (provider_of keys) suite v →
  verify.ProofBundle fuel raw b keys []
  = Ret (verify.mkResult true (claim.V_RecordID v) prooflevel.L3 "" "").
Proof.
  intros Hv. unfold verify.ProofBundle. fold (provider_of keys).
  by rewrite (proj2 (bundleEvidence_Ret _ _ _ _ _ _) (ex_intro _ _ Hv)).
Qed.

Lemma ProofBundle_L4 fuel raw b keys suite v proof :
  verified_bundle fuel raw b keys (provider_of keys) suite v →
  verified_log fuel b proof
    (verify.publicKeyOrFallback (verify.SignedTreeHeadPublicKey keys) (verify.ServerPublicKey keys))
    (provider_of keys) suite →
  verify.ProofBundle fuel raw b keys [verify.WithGlobalProof proof]
  = Ret (verify.mkResult true (claim.V_RecordID v) prooflevel.L4 "" "").
Proof.
  intros Hv Hl. unfold verify.ProofBundle. fold (provider_of keys).
  rewrite (proj2 (bundleEvidence_Ret _ _ _ _ _ _) (ex_intro _ _ Hv)). cbn [mbind go_bind].
  unfold verify.globalEvidence.
  change (verify.o_global (verify.apply_options [verify.WithGlobalProof proof])) with (Some proof).
  change (verify.o_namespace (verify.apply_options [verify.WithGlobalProof proof]))
    with (@None verify.namespaceBinding).
  cbn [verify.failStage mbind go_bind].
  by rewrite (proj2 (VerifyGlobalLogProof_Ret _ _ _ _ _) (ex_intro _ _ Hl)).
Qed.

(** The evidence of a log for a batch in it. *)
Lemma log_evidence fuel svc store lvs (j n : nat) l b root keys suite raw v :
  (63 <= fuel)%nat → globallog.provider svc = p → globallog_frontier.service_wf svc →
  cryptosuite.RequireKnown s = Ok suite → provider_of keys = p →
  verified_bundle fuel raw b keys p suite v →
  globallog_proofs.log_inv svc (view store) lvs → len lvs <= 2 ^ 62 →
  (j < n <= length lvs)%nat → lvs !! j = Some l →
  globallog_proofs.records root l → root.(BatchRoot.BatchID) ≠ "" →
  l.(GlobalLogLeaf.SchemaVersion) = SchemaGlobalLogLeaf →
  globallog.HashLeafWithProvider (Some p) l = Ok l.(GlobalLogLeaf.LeafHash) →
  (∀ m h, c_sths (view store) !! m = Some h → globallog.VerifySTHWithProvider h
     (verify.publicKeyOrFallback (verify.SignedTreeHeadPublicKey keys) (verify.ServerPublicKey keys))
     (Some p) = Ok tt) →
  b.(ProofBundle.NodeID) = root.(BatchRoot.NodeID) → b.(ProofBundle.LogID) = root.(BatchRoot.LogID) →
  b.(ProofBundle.CommittedReceipt).(CommittedReceipt.BatchID) = root.(BatchRoot.BatchID) →
  b.(ProofBundle.CommittedReceipt).(CommittedReceipt.BatchRoot) = root.(BatchRoot.BatchRoot) →
  b.(ProofBundle.CommittedReceipt).(CommittedReceipt.ClosedAtUnixN) = root.(BatchRoot.ClosedAtUnixN) →
  b.(ProofBundle.BatchProof).(BatchProof.TreeSize) = root.(BatchRoot.TreeSize) →
  ∃ proof, globallog.InclusionProof fuel svc store root.(BatchRoot.BatchID) (Z.of_nat n) = Ret proof ∧
    verified_log fuel b proof
      (verify.publicKeyOrFallback (verify.SignedTreeHeadPublicKey keys) (verify.ServerPublicKey keys))
      p suite.
Proof.
  intros Hf Hpr Hwf Hk Hkeys Hvb Hinv H62 Hn Hl (R1 & R2 & R3 & R4 & R5 & R6 & R7) Hne Hsch Hhash Hheads
    B1 B2 B3 B4 B5 B6.
  assert (globallog.suiteOf svc = s) as Es by (unfold globallog.suiteOf; by rewrite Hpr).
  destruct (globallog_proofs.inclusion_spec svc Hwf store lvs Hinv H62 fuel j n l Hf Hl)
    as (h & Hp & Hv & Hh & Hok); [by rewrite R1|done|].
  rewrite R1 in Hp.
  destruct (globallog_proofs.inv_leaf _ _ _ Hinv j l Hl) as (L1 & L2 & L3 & L4 & L5).
  destruct Hok as (_ & S1 & S2 & S3 & S4 & S5 & S6 & S7). rewrite Es in *.
  eexists. split; [exact Hp|].
  destruct (suite_profile _ _ Hk) as (prof & Hprof & Hpwf & _).
  assert (prof = globallog.profile svc) as ->.
  { unfold globallog_frontier.service_wf, merkle.ProfileForSuite in Hwf. rewrite Es, Hk in Hwf.
    cbn [mbind result_bind] in Hwf. rewrite Hprof in Hwf. by injection Hwf. }
  assert (merkle.algorithm (globallog.profile svc)
    = cryptosuite.MerkleAlgorithm (cryptosuite.Merkle suite)) as Ealg.
  { unfold merkle.ProfileForAlgorithm in Hprof. ok_inv. by rewrite <- Hprof. }
  split; cbn [GlobalLogProof.SchemaVersion GlobalLogProof.STH GlobalLogProof.TreeSize
    GlobalLogProof.BatchID GlobalLogProof.NodeID GlobalLogProof.LogID GlobalLogProof.LeafHash]; try done.
  - apply Hvb.
  - apply modelsuite.Require_Ok. split; [apply trustcrypto.known_suite|]. eexists. split; [reflexivity|].
    intros name ids [= <- <-]. cbn. by repeat constructor.
  - by rewrite S3.
  - destruct (cryptosuite.suite_parameters _ _ Hk) as (-> & _). rewrite S5. apply len_digest, MTH_digest.
    apply Forall_take. by eapply globallog_proofs.inv_digests.
  - rewrite B1, R3. apply mismatch_refl.
  - rewrite B2, R4. apply mismatch_refl.
  - rewrite S6, L4. apply mismatch_refl.
  - rewrite S7, L5. apply mismatch_refl.
  - rewrite <- Hhash. set (want := verify.expectedLeaf _ _ _).
    assert (want = GlobalLogLeaf.set_AppendedAtUnixN 0 (GlobalLogLeaf.set_LeafHash [] l)) as ->; [|done].
    rewrite set_strip. unfold want, verify.expectedLeaf. cbn.
    by rewrite B3, B4, B5, B6, L1, L3, Hsch, R1, R5, R6, R7.
  - by eapply Hheads.
Qed.

(** C6: the evidence of the engine verifies.  Take records that the engine
    accepted and a batch that it computed over them.  For every record the
    batch holds a bundle which, with the original content and keys that trust
    the engine and the client, [ProofBundle] accepts at level L3; and for every
    global log that records the root of the batch and whose heads verify, the
    service produces an inclusion proof for every later tree size, and
    [ProofBundle] accepts the bundle with it at level L4. *)
Theorem engine_evidence_verifies fuel now batchID closedAt signed records accepted opts commit
    (i : nat) pk at_ sc rec acc keys raw :
  (63 <= fuel)%nat → len records <= 2 ^ 62 → Mode opts = BatchComputeMaterialized →
  ComputeBatch fuel e now batchID closedAt signed records accepted opts = Ret commit →
  signed !! i = Some sc → records !! i = Some rec → accepted !! i = Some acc →
  accepted_item pk at_ (sc, rec, acc) → trusts keys pk → content_of sc raw →
  ∃ b, C_Bundles commit !! i = Some b ∧
    verify.ProofBundle fuel raw b keys []
    = Ret (verify.mkResult true rec.(Rec.RecordID) prooflevel.L3 "" "") ∧
    ∀ svc store lvs (j n : nat) l,
      globallog.provider svc = p → globallog_frontier.service_wf svc →
      globallog_proofs.log_inv svc (view store) lvs → len lvs <= 2 ^ 62 →
      (j < n <= length lvs)%nat → lvs !! j = Some l →
      globallog_proofs.records (C_Root commit) l → batchID ≠ "" →
      l.(GlobalLogLeaf.SchemaVersion) = SchemaGlobalLogLeaf →
      globallog.HashLeafWithProvider (Some p) l = Ok l.(GlobalLogLeaf.LeafHash) →
      (∀ m h, c_sths (view store) !! m = Some h → globallog.VerifySTHWithProvider h
         (verify.publicKeyOrFallback (verify.SignedTreeHeadPublicKey keys)
            (verify.ServerPublicKey keys)) (Some p) = Ok tt) →
      ∃ proof, globallog.InclusionProof fuel svc store batchID (Z.of_nat n) = Ret proof ∧
        verify.ProofBundle fuel raw b keys [verify.WithGlobalProof proof]
        = Ret (verify.mkResult true rec.(Rec.RecordID) prooflevel.L4 "" "").
Proof.
  intros Hf H62 Hm Hc Hsc Hrec Hacc Hitem Htr Hraw.
  destruct (ComputeBatch_inv _ _ _ _ _ _ _ _ _ Hc Hm)
    as (suite & tree & signer & Hk & Hsg & Hl1 & Hl2 & Hb & Hroot & Hjobs).
  apply serverSigner_Ok in Hsg as ->.
  assert (zip (zip signed records) accepted !! i = Some (sc, rec, acc)) as Hi
    by (by rewrite !lookup_zip_with, Hsc, Hrec, Hacc).
  destruct (proofJobs_lookup _ _ _ _ _ _ _ _ _ _ Hjobs _ _ Hi) as (b & Hbi & Hjob). cbn [Nat.add] in Hjob.
  destruct (job_verified _ _ _ _ _ _ _ _ _ _ _ _ _ _ _ Hk Hf H62 Hb Hrec Hitem Htr Hraw Hjob)
    as (v & Hv & Hid & B1 & B2 & B3 & B4 & B5 & B6).
  pose proof Htr as (Hp & _). exists b. split; [done|]. rewrite <- Hid. split.
  { apply (ProofBundle_L3 _ _ _ _ suite). by rewrite Hp. }
  intros svc store lvs j n l Hpr Hwf Hinv H62' Hn Hl Hr Hne Hsch Hhash Hheads.
  destruct (log_evidence fuel svc store lvs j n l b (C_Root commit) keys suite raw v)
    as (proof & Hpf & Hvl); try done; try (by rewrite Hroot).
  rewrite Hroot in Hpf. exists proof. split; [done|].
  apply (ProofBundle_L4 _ _ _ _ suite); by rewrite Hp.
Qed.
End engine.
End app_proofs.
