(* ===== verification/AppReplay.v ===== *)
(** * Accepted submissions survive a crash

    The engine, the idempotency index, the reservation queue and the log
    directory together: what [Submit] answered is rebuilt by [ReplayAccepted]
    from the repaired directory, whatever happens to the log afterwards. *)

From S2P Require Import Prelude TrustErr CryptoSuite Model TrustCrypto Cborx KeyDescriptor ModelSuite.
From S2P Require Import Merkle Claim Receipt Wal WalProofs WalDir WalDirProofs WalQueue WalQueueProofs.
From S2P Require Import Idempotency IdemIndex App.
From S2P Require Import KeyStore KeyStoreProofs KeyLifecycle.

Module app_replay.
Import wal waldir wal_proofs waldir_proofs walqueue walqueue_proofs app.

(** ** Where a result comes from *)

(** A reservation without its flag. *)
Definition core (r : appendReservation) : nat * Pos.t * bytes * Z :=
  (r_id r, r_position r, r_payload r, r_at r).

(** The results that were added and the queue that is left are of reservations
    of [queue]. *)
Definition evolves (done : list (appendReservation * appendReservationResult))
    (queue : list appendReservation) (st' : State) : Prop :=
  (∃ more, finished st' = done ++ more ∧ ∀ x, x ∈ more → core x.1 ∈ core <$> queue) ∧
  ∀ r, r ∈ reservations st' → core r ∈ core <$> queue.

Section log.
Context `{HashLib}.

Lemma evolves_refl st : evolves (finished st) (reservations st) st.
Proof.
  split; [|intros; by apply list_elem_of_fmap_2]. exists []. rewrite app_nil_r.
  split; [done|]. by intros ? ?%not_elem_of_nil.
Qed.

Lemma evolves_sub done queue queue' extra st' :
  (∀ x, x ∈ extra → core x.1 ∈ core <$> queue) → (∀ c, c ∈ core <$> queue' → c ∈ core <$> queue) →
  evolves (done ++ extra) queue' st' → evolves done queue st'.
Proof.
  intros Hx Hq ((more & E & Hm) & Hr). split; [|by auto]. exists (extra ++ more).
  rewrite E, app_assoc. split; [done|]. intros x [?|?]%elem_of_app; auto.
Qed.

Lemma invalidate_core e queue x : x ∈ invalidate e queue → core x.1 ∈ core <$> queue.
Proof. unfold invalidate. intros (r & -> & Hr)%list_elem_of_fmap. by apply list_elem_of_fmap_2. Qed.

Lemma drain_evolves env queue w done next st' :
  drain env w queue done next = Some st' → evolves done queue st' ∧ nextID st' = next.
Proof.
  revert w done. induction queue as [|r queue IH]; intros w done; cbn [drain].
  { intros [= <-]. split; [|done]. apply (evolves_refl (mkState w [] done next)). }
  destruct (r_ready r).
  - destruct (commitAtExpected w _ _ _ _ _) as [w' [out|e|]]; [| |done].
    + intros E. destruct (IH _ _ E) as [Hev Hn]. split; [|done]. revert Hev. apply evolves_sub.
      * intros x ->%list_elem_of_singleton. cbn. left.
      * cbn. by right.
    + intros [= <-]. split; [|done]. split; [|by intros r' ?%not_elem_of_nil]. eexists. split; [done|].
      intros x [->|Hx%invalidate_core]%elem_of_cons; cbn; [left|by right].
  - intros [= <-]. split; [|done]. apply (evolves_refl (mkState w (r :: queue) done next)).
Qed.

Lemma fail_evolves env st i err st' :
  fail_from env st i err = Some st' → evolves (finished st) (reservations st) st' ∧ nextID st' = nextID st.
Proof.
  unfold fail_from. destruct (reservations st !! i) as [r|] eqn:Ei.
  2: { intros [= <-]. split; [apply evolves_refl|done]. }
  intros E. apply drain_evolves in E as [Hev Hn]. split; [|done]. revert Hev.
  pose proof (take_drop_middle _ _ _ Ei) as Eq. apply evolves_sub; cbn [set_queue reservations].
  - intros x [->|Hx%invalidate_core]%elem_of_cons; cbn.
    + apply list_elem_of_fmap_2. by eapply list_elem_of_lookup_2.
    + rewrite <- Eq, fmap_app. cbn. apply elem_of_app. right. by right.
  - intros c Hc. rewrite <- Eq, fmap_app. apply elem_of_app. by left.
Qed.

Lemma core_alter i (queue : list appendReservation) : core <$> alter set_ready i queue = core <$> queue.
Proof. revert i. induction queue as [|r queue IH]; intros [|i]; [done|done|done|]. cbn. f_equal. apply IH. Qed.

Lemma complete_evolves env st id err st' :
  completeReservation env st id err = Some st' →
  evolves (finished st) (reservations st) st' ∧ nextID st' = nextID st.
Proof.
  pose proof (evolves_refl st) as Hrefl. unfold completeReservation. destruct (is_finished id st); [by intros [= <-]|].
  destruct (reservationIndexLocked _ _) as [i|]; [|by intros [= <-]].
  destruct err; [apply fail_evolves|]. intros E. apply drain_evolves in E as [Hev Hn]. split; [|done].
  cbn in Hev. destruct Hev as [(more & E1 & Hm) Hr]. rewrite core_alter in *. split; [by exists more|done].
Qed.

(** The ids in use are below the next one. *)
Definition fresh (st : State) : Prop :=
  (∀ x, x ∈ finished st → (r_id x.1 < nextID st)%nat) ∧
  (∀ r, r ∈ reservations st → (r_id r < nextID st)%nat).

Lemma evolves_fresh st st' :
  fresh st → evolves (finished st) (reservations st) st' → nextID st' = nextID st → fresh st'.
Proof.
  intros [Hf Hr] [(more & E & Hm) Hr'] Hn.
  assert (∀ c, c ∈ core <$> reservations st → (c.1.1.1 < nextID st)%nat) as Hc.
  { intros c (r & -> & Hin)%list_elem_of_fmap. by apply Hr. }
  split; rewrite Hn.
  - rewrite E. intros x [Hx|Hx]%elem_of_app; [by apply Hf|]. exact (Hc _ (Hm _ Hx)).
  - intros r Hin. exact (Hc _ (Hr' _ Hin)).
Qed.

(** A step keeps the results and the freshness of ids. *)
Lemma step_grows opts st ev st' :
  fresh st → step opts st ev = Some st' → fresh st' ∧ ∃ more, finished st' = finished st ++ more.
Proof.
  intros Hf. destruct ev as [ctxErr payload at_|env id prepareErr|env id err| |]; cbn [step].
  - destruct (appendReserved _ _ _ _) as [[r st1]|] eqn:E; intros [= <-]; [|by split; [|exists []; rewrite app_nil_r]].
    apply reserve_inv in E as (_ & _ & _ & Er & ->). destruct Hf as [H1 H2]. split; [|exists []; by rewrite app_nil_r].
    split; cbn [finished reservations nextID].
    + intros x Hx. specialize (H1 x Hx). lia.
    + intros r' [Hr| ->%list_elem_of_singleton]%elem_of_app; [specialize (H2 _ Hr); lia|]. rewrite Er. cbn. lia.
  - intros E. apply complete_evolves in E as [Hev Hn]. split; [by eapply evolves_fresh|].
    destruct Hev as [(more & ? & _) _]. by exists more.
  - unfold cancelReservation. destruct (is_finished id st); [intros [= <-]; split; [done|exists []; by rewrite app_nil_r]|].
    destruct (reservationIndexLocked _ _) as [i|]; [|intros [= <-]; split; [done|exists []; by rewrite app_nil_r]].
    intros E. apply fail_evolves in E as [Hev Hn]. split; [by eapply evolves_fresh|].
    destruct Hev as [(more & ? & _) _]. by exists more.
  - intros [= <-]. unfold Close. destruct (closed _); [split; [done|exists []; by rewrite app_nil_r]|].
    destruct Hf as [H1 H2]. split; [|by eexists]. split; cbn [finished reservations nextID]; [|by intros r ?%not_elem_of_nil].
    intros x [Hx|(r & -> & Hr)%list_elem_of_fmap]%elem_of_app; [by apply H1|by apply H2].
  - unfold restart. destruct (_ ≫= _) as [w| |]; [|done..]. intros [= <-]. destruct Hf as [H1 H2].
    split; [|exists []; by rewrite app_nil_r]. split; [done|]. by intros r ?%not_elem_of_nil.
Qed.

Lemma run_grows opts es st st' :
  fresh st → run opts st es = Some st' → fresh st' ∧ ∃ more, finished st' = finished st ++ more.
Proof.
  revert st. induction es as [|ev es IH]; intros st Hf; cbn [run].
  { intros [= <-]. split; [done|exists []; by rewrite app_nil_r]. }
  destruct (step opts st ev) as [st1|] eqn:E; [|done]. cbn [mbind option_bind]. intros E'.
  destruct (step_grows _ _ _ _ Hf E) as [Hf1 [m1 E1]].
  destruct (IH _ Hf1 E') as [Hf2 [m2 E2]]. split; [done|]. exists (m1 ++ m2). by rewrite E2, E1, app_assoc.
Qed.

Lemma run_events_app opts st es1 es2 : run opts st (es1 ++ es2) = (st' ← run opts st es1; run opts st' es2).
Proof.
  revert st. induction es1 as [|ev es1 IH]; intros st; [done|]. cbn. by destruct (step opts st ev); cbn.
Qed.

Lemma start_fresh opts st : start opts = Some st → fresh st.
Proof.
  unfold start. destruct (openDirWriterWithOps _ _); [|done..]. intros [= <-].
  split; by intros ? ?%not_elem_of_nil.
Qed.

(** ** Appends *)

Lemma AppendPreparedAt_inv {A} env st payload at_ (prepare : Pos.t → result A) st2 a :
  AppendPreparedAt env st payload at_ prepare = (st2, Ret a) →
  ∃ r st1 x out, appendReserved st None payload at_ = Ok (r, st1) ∧ prepare (r_position r) = Ok a ∧
    completeReservation env st1 (r_id r) None = Some st2 ∧
    x ∈ finished st2 ∧ r_id x.1 = r_id r ∧ x.2 = Ok out.
Proof.
  unfold AppendPreparedAt. destruct (appendReserved st None payload at_) as [[r st1]|] eqn:E; [|done].
  destruct (prepare (r_position r)) as [a'|] eqn:Ep.
  2: { destruct (completeReservation _ _ _ _); [|done]. by destruct (waitReservation _ _) as [[]|]. }
  destruct (completeReservation _ _ _ _) as [st2'|] eqn:Ec; [|done].
  destruct (waitReservation st2' (r_id r)) as [[out|]|] eqn:Ew; [|done|done]. intros [= <- <-].
  unfold waitReservation in Ew. destruct (list_find _ _) as [[k x]|] eqn:Ef; [|done].
  apply list_find_Some in Ef as (Hk & Hid & _). cbn in Ew. injection Ew as Ew.
  exists r, st1, x, out. split_and!; try done. by eapply list_elem_of_lookup_2.
Qed.

(** An append that returned is acknowledged with the announced position, and
    its acknowledgement is kept. *)
Lemma append_acked {A} opts env st payload at_ (prepare : Pos.t → result A) st2 a es st3 :
  fresh st → AppendPreparedAt env st payload at_ prepare = (st2, Ret a) →
  run opts st2 es = Some st3 →
  ∃ id r out, run opts st ([EReserve None payload at_; EComplete env id None] ++ es) = Some st3 ∧
    (r, out) ∈ acked (finished st3) ∧ r_payload r = payload ∧ r_at r = at_ ∧
    prepare (r_position r) = Ok a.
Proof.
  intros Hf Ha Hr. destruct (AppendPreparedAt_inv _ _ _ _ _ _ _ Ha)
    as (r & st1 & [r' res] & out & Er & Ep & Ec & Hx & Hid & Eres).
  cbn [fst snd] in *. subst res. apply reserve_inv in Er as Einv. destruct Einv as (_ & _ & _ & Eeq & Est).
  exists (r_id r), r', out. rewrite run_events_app. cbn [run step]. rewrite Er. cbn [mbind option_bind].
  rewrite Ec. cbn [mbind option_bind]. split; [done|].
  assert (fresh st1) as Hf1.
  { destruct (step_grows opts st (EReserve None payload at_) st1 Hf) as [? _]; [cbn; by rewrite Er|done]. }
  destruct (complete_evolves _ _ _ _ _ Ec) as [[(more & Ef & Hm) _] Hn].
  assert (core r' = core r) as Ecore.
  { rewrite Ef in Hx. apply elem_of_app in Hx as [Hx|Hx].
    - exfalso. destruct Hf as [Hf _]. rewrite Est in Hx. specialize (Hf _ Hx). cbn in Hf.
      rewrite Hid, Eeq in Hf. cbn in Hf. lia.
    - specialize (Hm _ Hx). cbn in Hm. rewrite Est in Hm. cbn in Hm. rewrite fmap_app in Hm.
      apply elem_of_app in Hm as [Hm|Hm]; [|by apply list_elem_of_singleton in Hm].
      apply list_elem_of_fmap in Hm as (r2 & E2 & Hr2). destruct Hf as [_ Hf]. specialize (Hf _ Hr2).
      injection E2 as E2 _ _ _. rewrite <- E2, Hid, Eeq in Hf. cbn in Hf. lia. }
  destruct (run_grows opts es st2 st3) as [_ [more3 E3]]; [|done|].
  { eapply evolves_fresh; [exact Hf1|by apply (complete_evolves _ _ _ _ _ Ec)|done]. }
  split_and!.
  - rewrite E3, acked_app. apply elem_of_app. left. unfold acked. apply list_elem_of_omap.
    exists (r', Ok out). split; [done|]. done.
  - injection Ecore as _ _ -> _. by rewrite Eeq.
  - injection Ecore as _ _ _ ->. by rewrite Eeq.
  - injection Ecore as _ -> _ _. done.
Qed.

(** Every record of a directory is of its suite. *)
Lemma segs_suite su f q pr dir recs :
  segs su f q pr dir recs → Forall (λ r, r.(Record_.CryptoSuite) = su) recs.
Proof.
  induction 1 as [|seg seq prev recs data dir recs' Hc _ _ _ IH]; [constructor|].
  apply Forall_app. split; [|done]. clear -Hc. by induction Hc; constructor.
Qed.

(** A run of a new log, recovered: the acknowledgements are among its records. *)
Lemma recovered opts es st :
  in_u64 (InitialSegmentID opts) → is_Some (suiteCode (CryptoSuite opts)) →
  Forall (event_ok false) es → (st0 ← start opts; run opts st0 es) = Some st →
  ∃ dir recs, repairDirWithOps (w_dir (writer st)) = Ret dir ∧
    ReadAllDir (CryptoSuite opts) dir = Ret recs ∧
    Forall (λ r, r.(Record_.CryptoSuite) = CryptoSuite opts) recs ∧
    ∀ r out, (r, out) ∈ acked (finished st) → ∃ rec, rec ∈ recs ∧
      rec.(Record_.Position) = r_position r ∧ rec.(Record_.Payload) = r_payload r ∧
      rec.(Record_.UnixNano) = r_at r.
Proof.
  intros Hi Hs Hes E. destruct (run_linv_fresh false opts es Hi Hs Hes) as (st' & f & recs & E' & Hl).
  rewrite E in E'. injection E' as <-.
  destruct (linv_recover _ _ _ _ _ Hl) as (dir & Hr & Hsegs & Hne & Hb & Hm).
  exists dir, recs. split_and!; [done|by eapply ReadAllDir_segs|by eapply segs_suite|].
  intros r out Hin. destruct Hl as (_ & _ & [Ham Han] & _).
  assert (ack_key (r, out) ∈ ack_of <$> recs) as Hk.
  { eapply elem_of_sublist; [|exact Ham]. by apply list_elem_of_fmap_2. }
  apply list_elem_of_fmap in Hk as (rec & Ek & Hrec). exists rec. split; [done|].
  unfold announced in Han. rewrite Forall_forall in Han. specialize (Han _ Hin). cbn in Han.
  unfold ack_key, ack_of in Ek. cbn in Ek. injection Ek as E1 _ E2 E3. split_and!; congruence.
Qed.
End log.

(** ** Submissions *)

Lemma remember_fresh {W} i key id hash reader (build : @app_idempotency.Build W) w i' w' rec acc :
  app_idempotency.RememberDurable i key id hash reader build w = (i', w', Ret (rec, acc, false, false)) →
  build w = (w', Ret (rec, acc)).
Proof.
  unfold app_idempotency.RememberDurable, app_idempotency.buildOnly, app_idempotency.buildAndPut,
    app_idempotency.answer, app_idempotency.conflicted.
  intros E. repeat (case_match; simplify_eq); done.
Qed.

Lemma remember_record_fresh {W} i key rid hash reader (build : @app_idempotency.Build W) w i' w' rec acc :
  app_idempotency.RememberDurableRecord i key rid hash reader build w
  = (i', w', Ret (rec, acc, false, false)) → build w = (w', Ret (rec, acc)).
Proof.
  unfold app_idempotency.RememberDurableRecord, app_idempotency.buildOnly, app_idempotency.buildAndPut,
    app_idempotency.answer, app_idempotency.conflicted.
  intros E. repeat (case_match; simplify_eq); done.
Qed.

Lemma submitResult_Ret m out rec acc loaded :
  submitResult m out = Ret (rec, acc, loaded) → out = Ret (rec, acc, loaded, false).
Proof. unfold submitResult. destruct out as [[[[r a] l] []]|e|]; naive_solver. Qed.

Section submit.
Context `{HashLib, SigLib}.
Context `{CborMode ClientClaim.t, CborMode claim.framing, CborMode SignedClaim.t}.
Context `{CborMode AcceptedReceipt.t}.

(** A submission that was not answered from the index appended to the log. *)
Lemma Submit_fresh e env now idx st signed idx' st' rec acc :
  Submit e env now idx (Some st) signed = (idx', st', Ret (rec, acc, false)) →
  ∃ v status ch sh payload st2, validateSigned e signed now = Ok (v, status, ch, sh) ∧
    cborx.Marshal signed = Ok payload ∧ st' = Some st2 ∧
    AppendPreparedAt env st payload now
      (λ pos, buildAccepted e signed v status ch sh pos now) = (st2, Ret (rec, acc)).
Proof.
  unfold Submit. destruct (validateSigned e signed now) as [[[[v status] ch] sh]|]; [|done].
  set (build := submitBuild e env signed v status ch sh now).
  intros E. assert (∃ st2, st' = Some st2 ∧ build st = (st2, Ret (rec, acc))) as (st2 & -> & Eb).
  { destruct idx as [i|].
    - destruct (seqb _ "").
      + destruct (app_idempotency.RememberDurableRecord _ _ _ _ _ _ _) as [[i2 st2] out] eqn:Er.
        injection E as _ <- E%submitResult_Ret. subst out. exists st2. split; [done|].
        by eapply remember_record_fresh.
      + destruct (app_idempotency.RememberDurable _ _ _ _ _ _ _) as [[i2 st2] out] eqn:Er.
        injection E as _ <- E%submitResult_Ret. subst out. exists st2. split; [done|].
        by eapply remember_fresh.
    - destruct (build st) as [st2 [[r a]|err|]]; injection E as _ <- E; [|done|done].
      exists st2. cbn in E. by simplify_eq. }
  unfold build, submitBuild in Eb. destruct (cborx.Marshal signed) as [payload|] eqn:Em; [|done].
  by exists v, status, ch, sh, payload, st2.
Qed.

(** The engine of a later process: the same server, keys and provider.  The
    signer has the same key, but its signatures may be others; the log id, the
    workers and the durable readers do not matter. *)
Record restarted (e e' : LocalEngine) : Prop := {
  rs_server : ServerID e' = ServerID e;
  rs_key : ServerKeyID e' = ServerKeyID e;
  rs_client : ClientPublicKey e' = ClientPublicKey e;
  rs_clients : ClientKeys e' = ClientKeys e;
  rs_provider : CryptoProvider e' = CryptoProvider e;
  rs_signer : option_Forall2 (λ s s', trustcrypto.Handle s' = trustcrypto.Handle s ∧
                trustcrypto.Capabilities s' = trustcrypto.Capabilities s) (ServerSigner e) (ServerSigner e') }.

Lemma restarted_signer e e' signer :
  restarted e e' → serverSigner e = Ok signer → serverSigner e' = Ok (ServerSigner e').
Proof.
  intros [_ Ek _ _ Ep Es]. unfold serverSigner, suiteOf, cryptoProvider. rewrite Ek, Ep.
  destruct Es as [s s' [Eh Ec]|]; [|done]. unfold trustcrypto.ValidateSignerHandle. rewrite Eh, Ec.
  intros (u & E & Ek')%bind_Ok. rewrite E. cbn [mbind result_bind]. by apply if_Err_Ok in Ek' as [-> _].
Qed.

Lemma restarted_validate e e' signed now : restarted e e' → validateSigned e' signed now = validateSigned e signed now.
Proof.
  intros [_ _ Ec El Ep _]. unfold validateSigned, resolveClientKey, cryptoProvider. by rewrite Ep, El, Ec.
Qed.

(** The record and the receipt of the later process. *)
Lemma restarted_build e e' signed v status ch sh pos now rec acc :
  restarted e e' → buildAccepted e signed v status ch sh pos now = Ok (rec, acc) →
  buildAccepted e' signed v status ch sh pos now =
    (acc' ← receipt.SignAcceptedWithProvider (Some (cryptoProvider e')) (receipt.unsigned acc) (ServerSigner e');
     Ok (rec, acc')).
Proof.
  intros R E. pose proof (rs_server _ _ R) as Es. assert (cryptoProvider e' = cryptoProvider e) as Ep.
  { unfold cryptoProvider. by rewrite (rs_provider _ _ R). }
  unfold buildAccepted in *. apply bind_Ok in E as (signer & Eg & (a & Ea & [= <- <-])%bind_Ok).
  rewrite (restarted_signer _ _ _ R Eg), (receipt.signed_accepted_same _ _ _ _ Ea). cbn [mbind result_bind].
  unfold newRecord, newAccepted, suiteOf. rewrite Es, Ep. done.
Qed.

(** Replaying the record of an accepted submission gives it back. *)
Lemma replay_record `{!CborModeRoundTrip SignedClaim.t} e signed now v status ch sh payload r a :
  validateSigned e signed now = Ok (v, status, ch, sh) → cborx.Marshal signed = Ok payload →
  text_valid signed = true → 0 < len payload →
  r.(Record_.CryptoSuite) = suiteOf e → r.(Record_.Payload) = payload → r.(Record_.UnixNano) = now →
  buildAccepted e signed v status ch sh r.(Record_.Position) now = a →
  ReplayAccepted e r = ('(rec, acc) ← a; Ok (mkReplayed signed rec acc)).
Proof.
  intros Hv Hm Htx Hlen Hs Hp Ht Hb. unfold ReplayAccepted. rewrite Hs, Hp, Ht.
  assert (cryptosuite.RequireSame (suiteOf e) [suiteOf e] = Ok tt) as ->
    by by apply trustcrypto.require_same; repeat constructor.
  cbn [wrap_err mbind result_bind]. rewrite (cborx.Unmarshal_Marshal signed) by (done || lia).
  cbn [mbind result_bind]. rewrite Hv. cbn [mbind result_bind]. by rewrite Hb.
Qed.

(** C5: an accepted submission survives a crash.  Open a new log, let any
    sequence of appends, cancellations, I/O failures, closes and restarts
    happen, submit a claim, and let any such sequence happen again.  If the
    submission was answered with a record and a receipt (and not from the
    index), then repairing and reading the directory afterwards succeeds with
    records among which is one at the position in the server record.  Replaying
    this one in a later process, whose server signer has the same key but may
    make other signatures (those of CN_SM_V1 are randomized), signs the answered
    receipt anew: it fails exactly when the signing fails, and otherwise gives
    back the signed claim and the server record as they were, and the receipt
    with everything but its signature as it was answered.  The later process
    has the same server id, crypto provider and client keys, and the strings of
    the claim must be UTF-8, which decoding a request ensures. *)
Theorem submission_survives `{!CborModeRoundTrip SignedClaim.t} e e' opts es1 es2 env now idx idx'
    st0 st1 st2 st3 signed rec acc :
  restarted e e' →
  in_u64 (InitialSegmentID opts) → is_Some (suiteCode (CryptoSuite opts)) →
  CryptoSuite opts = suiteOf e → in_i64 now → text_valid signed = true →
  Forall (event_ok false) es1 → Forall (event_ok false) es2 →
  start opts = Some st0 → run opts st0 es1 = Some st1 →
  Submit e env now idx (Some st1) signed = (idx', Some st2, Ret (rec, acc, false)) →
  run opts st2 es2 = Some st3 →
  ∃ dir recs r, repairDirWithOps (w_dir (writer st3)) = Ret dir ∧
    ReadAllDir (CryptoSuite opts) dir = Ret recs ∧ r ∈ recs ∧
    r.(Record_.Position) = rec.(Rec.WAL) ∧
    let resigned := receipt.SignAcceptedWithProvider (Some (cryptoProvider e')) (receipt.unsigned acc) (ServerSigner e') in
    ReplayAccepted e' r = (acc' ← resigned; Ok (mkReplayed signed rec acc')) ∧
    ∀ acc', resigned = Ok acc' → receipt.unsigned acc' = receipt.unsigned acc.
Proof.
  intros Hre Hi Hsc Hs Hnow Htx He1 He2 E0 E1 Esub E2.
  destruct (Submit_fresh _ _ _ _ _ _ _ _ _ _ Esub) as (v & status & ch & sh & payload & st & Hv & Hm & [= <-] & Ha).
  destruct (run_grows opts es1 st0 st1 (start_fresh _ _ E0) E1) as [Hf1 _].
  destruct (append_acked opts _ _ _ _ _ _ _ es2 st3 Hf1 Ha E2) as (id & r & out & Hrun & Hin & Hpay & Hat & Hb).
  destruct (recovered opts (es1 ++ [EReserve None payload now; EComplete env id None] ++ es2) st3)
    as (dir & recs & Hd & Hr & Hsu & Hrecs); [done|done| | |].
  { apply Forall_app. split; [done|]. constructor; [done|]. by constructor. }
  { rewrite E0. cbn [mbind option_bind]. rewrite run_events_app, E1. exact Hrun. }
  destruct (Hrecs _ _ Hin) as (wr & Hwr & P1 & P2 & P3). exists dir, recs, wr.
  assert (0 < len payload) as Hlen.
  { destruct (AppendPreparedAt_inv _ _ _ _ _ _ _ Ha) as (r0 & st' & _ & _ & Er & _).
    apply reserve_inv in Er as (Hl & _). lia. }
  rewrite <- P1 in Hb. split_and!; try done.
  - unfold buildAccepted in Hb. ok_inv. by subst rec.
  - intros resigned. split; [|intros acc' Ea; by rewrite (receipt.signed_accepted_same _ _ _ _ Ea)].
    rewrite Forall_forall in Hsu. pose proof (restarted_build e e' _ _ _ _ _ _ _ _ _ Hre Hb) as Hb'.
    erewrite (replay_record e' signed now v status ch sh payload wr); [|..|exact Hb']; try done.
    + fold resigned. by destruct resigned.
    + by rewrite (restarted_validate e e').
    + rewrite (Hsu _ Hwr), Hs. unfold suiteOf, cryptoProvider. by rewrite (rs_provider _ _ Hre).
    + by rewrite P2, Hpay.
    + by rewrite P3, Hat.
Qed.
End submit.

End app_replay.

(** * The engine and the key registry

    The registry of [KeyStore.v] as the key resolver of the engine: which claims
    a server accepts, and what a later key event does to the replay of its
    log. *)

Module app_keys.
Import keystore keystore_proofs keylifecycle app.

Section keys.
Context `{HashLib, SigLib, KeyDescriptorLib}.
Context `{CborMode ClientClaim.t, CborMode claim.framing, CborMode SignedClaim.t}.
Context `{CborMode AcceptedReceipt.t, CborMode CommittedReceipt.t, CborMode ServerRecord.t}.
Context `{CborMode Manifest.t, CborMode KeyEvent.t}.

(** The names under which a claim is looked up. *)
Definition tenant (signed : SignedClaim.t) : string := signed.(SignedClaim.Claim).(ClientClaim.TenantID).
Definition client (signed : SignedClaim.t) : string := signed.(SignedClaim.Claim).(ClientClaim.ClientID).
Definition key_id (signed : SignedClaim.t) : string := signed.(SignedClaim.Claim).(ClientClaim.KeyID).

(** The public key of a descriptor. *)
Definition public_key (d : Descriptor.t) : trustcrypto.PublicKeyDescriptor :=
  trustcrypto.mkPublicKeyDescriptor d.(Descriptor.CryptoSuite) d.(Descriptor.KeyID)
    d.(Descriptor.Algorithm) (Descriptor.Encoding d.(Descriptor.PublicKey))
    (Descriptor.Bytes d.(Descriptor.PublicKey)).

Lemma resolver_Ok r t c k at_ key :
  resolver r t c k at_ = Ok key ↔ LookupClientKeyAt r t c k at_ = (key, None).
Proof. unfold resolver. destruct (LookupClientKeyAt r t c k at_) as [key' [e|]]; naive_solver. Qed.

(** A claim passes validation only if the registry holds a live key for it. *)
Lemma validateSigned_live e r signed at_ out :
  ClientKeys e = Some (resolver r) → loaded r → validateSigned e signed at_ = Ok out →
  ∃ reg d verified, live (events r) (identity (tenant signed) (client signed) (key_id signed)) at_ reg ∧
    keydescriptor_Unmarshal reg.(Ev.KeyDescriptor) = Ok d ∧
    claim.VerifyWithProvider signed (public_key d) (Some (cryptoProvider e)) = Ok verified.
Proof.
  intros Hk Hr%loaded_coherent E. unfold validateSigned in E. apply bind_Ok in E as (suite & _ & E).
  apply bind_Ok in E as (_ & _ & E). apply bind_Ok in E as ([pub status] & Hres & E).
  apply bind_Ok in E as (verified & Hv & _). unfold resolveClientKey in Hres. rewrite Hk in Hres.
  apply bind_Ok in Hres as (key & Hkey & Hres). apply wrap_err_Ok, resolver_Ok in Hkey.
  apply bind_Ok in Hres as (_ & _ & Hres). injection Hres as <- _.
  apply (lookup_live r _ _ _ _ _ Hr) in Hkey as (reg & d & Hl & Hd & ->).
  exists reg, d, verified. by split_and!.
Qed.


(** A backdated retirement blocks the replay of the log. Let a record of the
    log hold a claim, and let the registry, later, hold a revocation or a
    compromise of the claim's key, or a rotation away from it, that takes
    effect at or before the time the record was accepted. Then
    [ReplayAccepted] fails on the record, although it was accepted and
    acknowledged; the server stops its recovery with this error. *)
Theorem backdated_retirement_blocks_replay e r record signed ev :
  ClientKeys e = Some (resolver r) → loaded r →
  cborx.UnmarshalLimit record.(wal.Record_.Payload) (len record.(wal.Record_.Payload)) = Ok signed →
  ev ∈ events r →
  (let id := identity (tenant signed) (client signed) (key_id signed) in
   revokes id ev ∧ ev.(Ev.RevokedAtUnixN) <= record.(wal.Record_.UnixNano) ∨
   compromises id ev ∧ ev.(Ev.CompromisedAtUnixN) <= record.(wal.Record_.UnixNano) ∨
   rotates id ev ∧ ev.(Ev.RotatedAtUnixN) <= record.(wal.Record_.UnixNano)) →
  is_ok (ReplayAccepted e record) = false.
Proof.
  intros Hk Hr Hs Hev Hret. destruct (ReplayAccepted e record) as [out|] eqn:E; [exfalso|done].
  unfold ReplayAccepted in E. apply bind_Ok in E as (_ & _ & E). rewrite Hs in E.
  apply bind_Ok in E as (signed' & [= <-] & E). apply bind_Ok in E as (v & Hv & _).
  destruct (validateSigned_live _ _ _ _ _ Hk Hr Hv) as (reg & d & verified & Hl & _).
  destruct Hl as (_ & _ & _ & _ & Hall). specialize (Hall ev Hev). cbn in Hret.
  destruct Hall as (H1' & H2' & H3').
  destruct Hret as [[Hx Hle]|[[Hx Hle]|[Hx Hle]]];
    [specialize (H2' Hx)|specialize (H3' Hx)|specialize (H1' Hx)]; lia.
Qed.
End keys.

End app_keys.
