(* ===== verification/AppExamples.v ===== *)
(** * A concrete run of the engine

    A claim is signed, submitted, logged, committed in a batch and in the
    global log, and verified; the theorems on the engine, the verifier and the
    idempotency index are applied to it. *)

From S2P Require Import Prelude TrustErr CryptoSuite Model TrustCrypto Cborx KeyDescriptor ModelSuite.
From S2P Require Import Instances Rfc6962 Merkle MerkleProofs GlobalStore GlobalLog GlobalLogProofs.
From S2P Require Import GlobalLogExamples ProofLevel Claim Receipt Ots OtsProofs AnchorId.
From S2P Require Import Verify VerifyProofs Wal WalDir WalQueue WalQueueProofs Idempotency IdemIndex.
From S2P Require Import IdemIndexProofs App AppProofs AppReplay.
From S2P Require Import KeyCodec.
From S2P Require Import KeyStore KeyStoreProofs KeyLifecycle KeyStoreRecovery KeyExamples.

Module app_examples.
Import app app_batch app_proofs app_replay globallog_examples.

#[local] Instance codec_claim : CborMode ClientClaim.t := ok_codec _.
#[local] Instance codec_framing : CborMode claim.framing := ok_codec _.
#[local] Instance codec_accepted : CborMode AcceptedReceipt.t := ok_codec _.
#[local] Instance codec_committed : CborMode CommittedReceipt.t := ok_codec _.
#[local] Instance codec_head : CborMode SignedTreeHead.t := ok_codec _.
#[local] Instance codec_state : CborMode GlobalLogState.t := ok_codec _.
#[local] Instance codec_node : CborMode GlobalLogNode.t := ok_codec _.
#[local] Instance codec_tile : CborMode GlobalLogTile.t := ok_codec _.

Definition ex_raw : bytes := bytes_of_string "the original file".

Definition ex_claim : ClientClaim.t :=
  match claim.NewFileClaimForSuite cryptosuite.INTLV1 "tenant" "client" "key-1" 5
          (replicate 16 Byte.x09) "idem-1"
          (Content.mk "" (sha256_Sum256 ex_raw) (len ex_raw) "text/plain" "")
          (Metadata.mk "file" "" "" [] ∅) with
  | Ok c => c
  | Err _ => ClientClaim.zero
  end.

Definition ex_signed : SignedClaim.t := Eval vm_compute in
  match claim.SignWithProvider (Some trustcrypto.intlV1Provider) ex_claim (Some ex_signer) with
  | Ok s => s
  | Err _ => SignedClaim.zero
  end.

#[local] Instance codec_signed : CborMode SignedClaim.t := table_codec [ex_signed].
#[local] Instance signed_roundtrip : CborModeRoundTrip SignedClaim.t.
Proof. by apply table_roundtrip. Qed.

Definition ex_engine : LocalEngine :=
  mkEngine "node-1" "" "" ex_pk None (Some ex_signer) None 0 None None.

(** ** Submission *)

Definition ex_log : waldir.Options := waldir.mkOptions cryptosuite.INTLV1 250 0.
Definition ex_env : walqueue.Env :=
  walqueue.mkEnv (λ _, None) (λ _, waldir.mkIO waldir.RotateOk waldir.WriteOk).

Definition ex_before : list walqueue.event :=
  [walqueue.EReserve None [Byte.x01] 1; walqueue.EComplete ex_env 0 None].
Definition ex_after : list walqueue.event :=
  [walqueue.ERestart; walqueue.EReserve None [Byte.x02] 3; walqueue.EClose].

Definition ex_st0 : walqueue.State := Eval vm_compute in
  default (walqueue.mkState (waldir.mkWriter [] 0 0 0 0 [] false None true "") [] [] 0) (walqueue.start ex_log).

Definition ex_st1 : walqueue.State := Eval vm_compute in
  default ex_st0 (walqueue.run ex_log ex_st0 ex_before).

(** The first submission of the claim. *)
Definition ex_submit := Eval vm_compute in
  Submit ex_engine ex_env 7 (Some app_idempotency.NewIdempotencyIndex) (Some ex_st1) ex_signed.
Definition ex_st2 : walqueue.State := default ex_st1 ex_submit.1.2.
Definition ex_rec : Rec.t := match ex_submit.2 with Ret (r, _, _) => r | _ => Rec.zero end.
Definition ex_acc : Acc.t := match ex_submit.2 with Ret (_, a, _) => a | _ => Acc.zero end.
Definition ex_st3 : walqueue.State := Eval vm_compute in
  default ex_st0 (walqueue.run ex_log ex_st2 ex_after).

(** The engine of a later process, whose signer makes another signature. *)
Definition ex_later_signer : trustcrypto.Signer :=
  trustcrypto.mkSigner (trustcrypto.Handle ex_signer) 3 (Ok ex_pk)
    (λ _, Ok (Signature.mk cryptosuite.SignatureEd25519 "key-1" (replicate 64 Byte.x05))).
Definition ex_later : LocalEngine :=
  mkEngine "node-1" "log" "" ex_pk None (Some ex_later_signer) None 4 None None.
Definition ex_resigned : Acc.t :=
  Acc.set_ServerSig (Signature.mk cryptosuite.SignatureEd25519 "key-1" (replicate 64 Byte.x05)) ex_acc.

Lemma ex_restarted : restarted ex_engine ex_later.
Proof. constructor; try done. by constructor. Qed.

Lemma submission_survives_witness :
  ex_resigned ≠ ex_acc ∧
  ∃ dir recs r, waldir.repairDirWithOps (waldir.w_dir (walqueue.writer ex_st3)) = Ret dir ∧
    waldir.ReadAllDir (waldir.CryptoSuite ex_log) dir = Ret recs ∧ r ∈ recs ∧
    r.(wal.Record_.Position) = ex_rec.(Rec.WAL) ∧
    ReplayAccepted ex_later r = Ok (mkReplayed ex_signed ex_rec ex_resigned) ∧
    receipt.unsigned ex_resigned = receipt.unsigned ex_acc.
Proof.
  split; [vm_compute; discriminate|].
  assert (receipt.SignAcceptedWithProvider (Some (cryptoProvider ex_later)) (receipt.unsigned ex_acc) (ServerSigner ex_later)
    = Ok ex_resigned) as Es by (vm_compute; reflexivity).
  enough (∃ dir recs r, waldir.repairDirWithOps (waldir.w_dir (walqueue.writer ex_st3)) = Ret dir ∧
    waldir.ReadAllDir (waldir.CryptoSuite ex_log) dir = Ret recs ∧ r ∈ recs ∧
    r.(wal.Record_.Position) = ex_rec.(Rec.WAL) ∧
    let resigned := receipt.SignAcceptedWithProvider (Some (cryptoProvider ex_later)) (receipt.unsigned ex_acc) (ServerSigner ex_later) in
    ReplayAccepted ex_later r = (acc' ← resigned; Ok (mkReplayed ex_signed ex_rec acc')) ∧
    ∀ acc', resigned = Ok acc' → receipt.unsigned acc' = receipt.unsigned ex_acc) as (dir & recs & r & H1 & H2 & H3 & H4 & H5 & H6).
  { exists dir, recs, r. rewrite Es in H5. split_and!; [exact H1|exact H2|exact H3|exact H4|exact H5|exact (H6 _ Es)]. }
  apply (submission_survives ex_engine ex_later ex_log ex_before ex_after ex_env 7
    (Some app_idempotency.NewIdempotencyIndex) ex_submit.1.1 ex_st0 ex_st1 ex_st2 ex_st3
    ex_signed ex_rec ex_acc).
  - exact ex_restarted.
  - done.
  - by eexists.
  - done.
  - done.
  - vm_compute. reflexivity.
  - by repeat constructor.
  - by repeat constructor.
  - vm_compute. reflexivity.
  - vm_compute. reflexivity.
  - vm_compute. reflexivity.
  - vm_compute. reflexivity.
Defined.

(** The second submission is answered from the index and leaves the log alone. *)
Example ex_retry :
  (λ x, (x.1.2, x.2)) (Submit ex_engine ex_env 8 ex_submit.1.1 (Some ex_st2) ex_signed)
  = (Some ex_st2, Ret (ex_rec, ex_acc, true)).
Proof. vm_compute. reflexivity. Qed.

(** ** The batch and its verification *)

#[local] Instance codec_record : CborMode ServerRecord.t := table_codec [ex_rec].
#[local] Instance record_injective : CborModeInjective ServerRecord.t.
Proof. by apply table_injective. Qed.

Definition ex_commit : BatchCommit := Eval vm_compute in
  match ComputeBatch 63 ex_engine 9 "b9" None [ex_signed] [ex_rec] [ex_acc]
          (mkBatchOptions BatchComputeMaterialized true) with
  | Ret c => c
  | _ => mkCommit "" BatchRoot.zero [] BatchTreeSnapshot.zero []
  end.
Definition ex_bundle : ProofBundle.t := default ProofBundle.zero (head (C_Bundles ex_commit)).

Definition ex_no_key : trustcrypto.PublicKeyDescriptor :=
  trustcrypto.mkPublicKeyDescriptor "" "" "" "" [].
Definition ex_keys : verify.TrustedKeys :=
  verify.mkKeys ex_pk ex_pk ex_no_key ex_no_key ex_no_key None.

(** The log with the batch as its only leaf. *)
Definition ex_want : GlobalLogLeaf.t := Eval vm_compute in
  GlobalLogLeaf.mk SchemaGlobalLogLeaf cryptosuite.INTLV1 "node-1" "" "b9"
    (C_Root ex_commit).(BatchRoot.BatchRoot) 1 9 0 [] 0.
#[global] Instance leaf_eq_dec : EqDecision GlobalLogLeaf.t.
Proof. solve_decision. Defined.
#[local] Instance codec_log_leaf : CborMode GlobalLogLeaf.t := table_codec [ex_want].
#[local] Instance leaf_injective : CborModeInjective GlobalLogLeaf.t.
Proof. by apply table_injective. Qed.

Definition ex_leaf_hash : bytes := Eval vm_compute in
  match globallog.HashLeafWithProvider (Some trustcrypto.intlV1Provider) ex_want with
  | Ok h => h | Err _ => [] end.
Definition ex_sth : SignedTreeHead.t := Eval vm_compute in
  match globallog.signTreeHead ex_service
          (SignedTreeHead.mk SchemaSignedTreeHead cryptosuite.INTLV1 cryptosuite.MerkleRFC6962SHA256
             1 ex_leaf_hash 10 "node-1" "" Signature.zero) with
  | Ok h => h | Err _ => SignedTreeHead.zero end.
Definition ex_proof : GlobalLogProof.t :=
  GlobalLogProof.mk SchemaGlobalLogProof cryptosuite.INTLV1 "node-1" "" "b9" 0 ex_leaf_hash 1 []
    ex_sth GlobalConsistencyProof.zero.

#[local] Instance ex_json : OtsJson :=
  {| json_Unmarshal := λ _, Err (ErrorsNew "unexpected end of JSON input") |}.
#[local] Existing Instance ots_proofs.ToyOtsHash.

Example ex_L4 :
  verify.ProofBundle 63 ex_raw ex_bundle ex_keys [verify.WithGlobalProof ex_proof]
  = Ret (verify.mkResult true ex_rec.(Rec.RecordID) "L4" "" "").
Proof. vm_compute. reflexivity. Qed.

(** Other content is rejected, at the stage of the content. *)
Example ex_tampered :
  match verify.ProofBundle 63 (ex_raw ++ [x00]) ex_bundle ex_keys [] with
  | Fail err => verify.FailedStage err
  | _ => ("", false)
  end = (verify.StageContent, true).
Proof. vm_compute. reflexivity. Qed.

Lemma accepted_bundle_sound_witness :
  ∃ suite prof v,
    verify_proofs.verified_bundle 63 ex_raw ex_bundle ex_keys (verify_proofs.provider_of ex_keys) suite v ∧
    ([ex_rec] !! 0%nat = Some ex_bundle.(ProofBundle.ServerRecord) ∨
     ∃ xs ys, merkle_proofs.hash_collision prof xs ys) ∧
    ∀ lvs, lvs = [GlobalLogLeaf.set_LeafHash ex_leaf_hash ex_want] →
      (∃ l, lvs !! 0%nat = Some l ∧
         l.(GlobalLogLeaf.BatchRoot)
         = ex_bundle.(ProofBundle.CommittedReceipt).(CommittedReceipt.BatchRoot)) ∨
      ∃ xs ys, merkle_proofs.hash_collision prof xs ys.
Proof.
  destruct (verify_proofs.accepted_bundle_sound 63 ex_raw ex_bundle ex_keys [verify.WithGlobalProof ex_proof]
    (verify.mkResult true ex_rec.(Rec.RecordID) "L4" "" "")) as (suite & prof & v & Hv & Hp & _ & Hb & Hl & _);
    [lia|exact ex_L4|].
  exists suite, prof, v. split; [exact Hv|].
  pose proof (verify_proofs.vb_suite _ _ _ _ _ _ _ Hv) as Hk. vm_compute in Hk. injection Hk as <-.
  vm_compute in Hp. injection Hp as <-. split.
  - destruct (merkle.BuildForSuite 63 cryptosuite.INTLV1 cryptosuite.MerkleRFC6962SHA256 [ex_rec]) as [[t|]|] eqn:E;
      [|vm_compute in E; discriminate E|vm_compute in E; discriminate E].
    destruct (Hb [ex_rec] t) as [?|?]; [done|done|done|exact E|vm_compute in E; injection E as <-; reflexivity|by left|].
    right. by do 2 eexists.
  - intros lvs ->.
    destruct (Hl ex_proof [GlobalLogLeaf.set_LeafHash ex_leaf_hash ex_want] eq_refl) as [_ Hin].
    destruct Hin as [(l & E & _ & E2 & _)|?];
      [done|done|done|reflexivity|by repeat constructor|left; by exists l|right; by do 2 eexists].
Defined.

Lemma ex_trusts : trusts ex_engine ex_keys ex_pk.
Proof. split_and!; [done|done|split; [done|exact ex_verify]..]. Qed.

Lemma ex_accepted : accepted_item ex_engine ex_pk 7 (ex_signed, ex_rec, ex_acc).
Proof.
  destruct (validateSigned ex_engine ex_signed 7) as [[[[v status] ch] sh]|] eqn:E;
    [|vm_compute in E; discriminate E].
  exists status, ch, sh, v, ex_rec.(Rec.WAL). vm_compute in E. injection E as <- <- <- <-.
  split_and!; vm_compute; reflexivity.
Qed.

#[local] Instance ex_pebble : GlobalStore pebble.Store := pebble.pebble_store None None.

Lemma engine_evidence_verifies_witness :
  ∃ b, C_Bundles ex_commit !! 0%nat = Some b ∧
    verify.ProofBundle 63 ex_raw b ex_keys []
    = Ret (verify.mkResult true ex_rec.(Rec.RecordID) prooflevel.L3 "" "").
Proof.
  destruct (engine_evidence_verifies ex_engine (S := pebble.Store) 63 9 "b9" None [ex_signed] [ex_rec]
    [ex_acc] (mkBatchOptions BatchComputeMaterialized true) ex_commit 0 ex_pk 7 ex_signed ex_rec ex_acc
    ex_keys ex_raw) as (b & Hb & Hv & _).
  - lia.
  - vm_compute. discriminate.
  - reflexivity.
  - vm_compute. reflexivity.
  - reflexivity.
  - reflexivity.
  - reflexivity.
  - exact ex_accepted.
  - exact ex_trusts.
  - vm_compute. reflexivity.
  - exists b. split; [exact Hb|exact Hv].
Defined.

(** ** The index *)

Import app_idempotency idemindex_proofs.

Definition ex_identity : idempotency.Id.t := idempotency.Id.mk "tenant" "client" "idem-1".
Definition ex_akey : akey := ByIdentity ex_identity.
Definition ex_build : @Build nat := λ n, (S n, Ret (ex_rec, ex_acc)).
Definition ex_hash : bytes := ex_rec.(Rec.ClaimHash).
Definition ex_first := remember empty_sys ex_akey ex_hash None ex_build 0%nat.
Definition ex_sys : sys :=
  mkSys ex_first.1.1 [(ex_akey, (ex_rec, ex_acc, ex_hash))] (λ _, None) (λ _, None).

Lemma ex_wf_key : wf_key ex_akey.
Proof. by split_and!. Qed.

Lemma ex_reachable : @reachable nat ex_sys.
Proof.
  eapply reach_step; [apply reach_empty|].
  eapply (step_submit empty_sys ex_akey ex_hash None ex_build 0%nat _ 1%nat
    (Ret (ex_rec, ex_acc, false, false)) ex_wf_key (or_introl eq_refl)). reflexivity.
Qed.

Lemma index_exactly_once_witness :
  NoDup (log_after ex_sys ex_akey ex_hash (Ret (ex_rec, ex_acc, true, false))).*1 ∧
  answers ex_sys ex_akey ex_hash None ex_build 1%nat 1%nat (Ret (ex_rec, ex_acc, true, false)).
Proof.
  apply (index_exactly_once ex_sys ex_akey ex_hash None ex_build 1%nat (idx ex_sys) 1%nat
    (Ret (ex_rec, ex_acc, true, false)) ex_reachable ex_wf_key (or_introl eq_refl)).
  vm_compute. reflexivity.
Defined.

(** ** A decision of the suite [CN_SM_V1] *)

Definition ex_sm_claim : ClientClaim.t :=
  ClientClaim.mk SchemaClientClaim cryptosuite.CNSMV1 "tenant" "client" "key-2" 5 [] "idem-2"
    (Content.mk cryptosuite.HashSM3 (replicate 32 Byte.x05) 1 "" "") (Metadata.mk "file" "" "" [] ∅)
    TimeAttestation.zero.
Definition ex_sm_sig : Signature.t := Signature.mk cryptosuite.SignatureSM2SM3 "key-2" [Byte.x30].
Definition ex_sm_signed : SignedClaim.t :=
  SignedClaim.mk SchemaSignedClaim cryptosuite.CNSMV1 ex_sm_claim ex_sm_sig.
Definition ex_sm_id : string := Eval vm_compute in
  match claim.RecordIDWithProvider (Some trustcrypto.cnSMV1Provider) [x00] ex_sm_sig with
  | Ok id => id | Err _ => "" end.
Definition ex_sm_rec : Rec.t :=
  Rec.mk SchemaServerRecord cryptosuite.CNSMV1 ex_sm_id "tenant" "client" "key-2" (sm3_Sum [x00])
    (sm3_Sum [Byte.x30]) 7 (WALPosition.mk 1 0 1) Validation.zero.
Definition ex_sm_acc : Acc.t :=
  Acc.mk SchemaAcceptedReceipt cryptosuite.CNSMV1 ex_sm_id "accepted" "node-1" 7
    (WALPosition.mk 1 0 1) (Signature.mk cryptosuite.SignatureSM2SM3 "server" [Byte.x30]).
Definition ex_sm_decision : idempotency.Dec.t := Eval vm_compute in
  match idempotency.BuildDecisionWithProvider (Some trustcrypto.cnSMV1Provider) "b1" ex_sm_signed
          ex_sm_rec ex_sm_acc with
  | Ok d => d | Err _ => idempotency.Dec.zero end.

Lemma cn_sm_retry_fails_witness :
  idempotency.ValidateDecisionForSuite cryptosuite.CNSMV1 ex_sm_decision.(idempotency.Dec.Identity)
    ex_sm_decision = Ok tt ∧
  ∃ err, RememberDurable NewIdempotencyIndex "key" ex_sm_decision.(idempotency.Dec.Identity)
      ex_sm_rec.(Rec.ClaimHash) (Some (λ _, Ok (Some ex_sm_decision))) ex_build 0%nat
    = (NewIdempotencyIndex, 0%nat, Fail err) ∧ CodeOf err = CodeDataLoss.
Proof.
  apply (cn_sm_retry_fails ex_build "b1" ex_sm_signed ex_sm_rec ex_sm_acc ex_sm_decision);
    [vm_compute; reflexivity|discriminate|vm_compute; reflexivity|reflexivity].
Defined.

Lemma storage_key_binds_witness :
  ex_identity = ex_identity ∨
  ∃ suite factory, cryptosuite.RequireKnown cryptosuite.CNSMV1 = Ok suite ∧
    idempotency.storageKeyInput suite ex_identity ≠ idempotency.storageKeyInput suite ex_identity ∧
    trustcrypto.HashFactory_Sum factory (idempotency.storageKeyInput suite ex_identity)
    = trustcrypto.HashFactory_Sum factory (idempotency.storageKeyInput suite ex_identity).
Proof.
  destruct (idempotency.StorageKeyForSuite cryptosuite.CNSMV1 ex_identity) as [key|] eqn:E;
    [|vm_compute in E; discriminate E].
  apply (idempotency.storage_key_binds cryptosuite.CNSMV1 ex_identity ex_identity key);
    [done..|exact E|exact E].
Defined.

End app_examples.

(** * A submission under a registered key

    The engine of [AppExamples.v] with the registry of [KeyExamples.v]: a claim
    is accepted, its key is then marked compromised from an earlier time, and
    the record cannot be replayed. *)

Module app_key_examples.
Import keystore keylifecycle keystore_recovery key_examples app app_keys globallog_examples app_examples.

#[local] Existing Instances event_codec manifest_codec event_roundtrip event_injective manifest_roundtrip
  ex_descriptors.
#[local] Existing Instances codec_claim codec_framing codec_accepted codec_committed codec_signed codec_record.

Definition key_engine (r : Registry) : LocalEngine :=
  mkEngine "node-1" "" "" ex_pk (Some (resolver r)) (Some ex_signer) None 0 None None.

(** ** Acceptance *)





(** ** A backdated compromise *)

Definition st3 : bytes * Registry := (perform AppendOk st1.1 st1.2 op3).1.

Lemma reach3 : reachable "keys" reg_signer reg_pub st3.1 st3.2.
Proof. eapply reach_step; [exact reach1| |apply performed]; vm_compute; reflexivity. Qed.

(** The log record of the submission. *)
Definition key_record : wal.Record_.t :=
  wal.Record_.mk cryptosuite.INTLV1 (WALPosition.mk 1 0 1) 7 (be_put 8 0) wal.zero_hash wal.zero_hash.

Example replay_before : is_ok (ReplayAccepted (key_engine st1.2) key_record) = true.
Proof. vm_compute. reflexivity. Qed.

Lemma backdated_retirement_blocks_replay_witness :
  is_ok (ReplayAccepted (key_engine st3.2) key_record) = false.
Proof.
  refine (backdated_retirement_blocks_replay (key_engine st3.2) st3.2 key_record ex_signed
    (event_of (perform AppendOk st1.1 st1.2 op3).2) eq_refl _ _ _ _).
  - eapply reachable_loaded, reach3.
  - vm_compute. reflexivity.
  - apply (bool_decide_unpack _). vm_compute. exact I.
  - right. left. repeat split; vm_compute; congruence.
Defined.

End app_key_examples.
