(* ===== verification/BatchCheckpoint.v ===== *)
(** * The WAL checkpoint of the batch service

    Models the checkpoint part of [src/internal/batch/service.go]: the runs of
    committed WAL sequences, how they merge, the contiguous frontier, its
    persistence and the callbacks that prune the log.

    The store is anything with [CheckpointStore]; what the service relies on is
    [CheckpointStoreLaws].  Every function runs under [checkpointMu] or is a
    step of its own, so that interleavings are sequences of steps. *)

From S2P Require Import Prelude TrustErr CryptoSuite Model StoreMonad.

Module Pos := WALPosition.
Module WCp := WALCheckpoint.

(** What the service asks of the store, and what it relies on: a checkpoint
    that is written is the one that is read, when it can be read (the time may
    be filled in), and a failed write either changes nothing or was applied. *)
Class CheckpointStore (S : Type) := {
  GetCheckpoint : S → result (option WCp.t);
  PutCheckpoint : Z → WCp.t → io S unit }.

Definition recorded_at (t : Z) (cp : WCp.t) : WCp.t :=
  WCp.mk cp.(WCp.SchemaVersion) cp.(WCp.CryptoSuite) cp.(WCp.NodeID) cp.(WCp.WALID) cp.(WCp.SegmentID)
    cp.(WCp.LastSequence) cp.(WCp.LastOffset) cp.(WCp.BatchID) t.

Class CheckpointStoreLaws (S : Type) `{CheckpointStore S} := {
  put_get : ∀ now cp (s s' : S) found, PutCheckpoint now cp s = (s', Ok tt) → cp.(WCp.SchemaVersion) ≠ "" →
    GetCheckpoint s' = Ok found → ∃ t, found = Some (recorded_at t cp);
  put_fails : ∀ now cp (s s' : S) e, PutCheckpoint now cp s = (s', Err e) → cp.(WCp.SchemaVersion) ≠ "" →
    GetCheckpoint s' = GetCheckpoint s ∨
    ∀ found, GetCheckpoint s' = Ok found → ∃ t, found = Some (recorded_at t cp) }.

Module batch_checkpoint.

(** The item of a batch. *)
Record Accepted := mkAccepted {
  Signed : SignedClaim.t;
  Record_ : ServerRecord.t;
  Accepted_ : AcceptedReceipt.t }.

Definition position (item : Accepted) : Pos.t := item.(Record_).(ServerRecord.WAL).

Record walCoverageRun := mkRun { from : Z; to : Pos.t; batchID : string }.

Definition maxCheckpointCoverageRuns : nat := 4096.

(** ** The runs of a batch *)

Definition walPositionLess (left right : Pos.t) : bool :=
  if negb (left.(Pos.Sequence) =? right.(Pos.Sequence)) then left.(Pos.Sequence) <? right.(Pos.Sequence) else
  if negb (left.(Pos.SegmentID) =? right.(Pos.SegmentID)) then left.(Pos.SegmentID) <? right.(Pos.SegmentID) else
  left.(Pos.Offset) <? right.(Pos.Offset).

Definition same_place (a b : Pos.t) : bool :=
  (a.(Pos.SegmentID) =? b.(Pos.SegmentID)) && (a.(Pos.Offset) =? b.(Pos.Offset)).

Definition errConflictingPositions : error := New CodeDataLoss "wal sequence maps to conflicting positions".

(** [current] of the source is the last run. *)
Fixpoint appendWALCoveragePosition (runs : list walCoverageRun) (pos : Pos.t) (batch : string)
  : result (list walCoverageRun) :=
  if pos.(Pos.Sequence) =? 0 then Ok runs else
  match runs with
  | [] => Ok [mkRun pos.(Pos.Sequence) pos batch]
  | [current] =>
      if pos.(Pos.Sequence) =? current.(to).(Pos.Sequence)
      then if negb (same_place pos current.(to)) then Err errConflictingPositions else Ok [current] else
      if pos.(Pos.Sequence) =? u64 (current.(to).(Pos.Sequence) + 1)
      then Ok [mkRun current.(from) pos batch]
      else Ok [current; mkRun pos.(Pos.Sequence) pos batch]
  | run :: rest => rest ← appendWALCoveragePosition rest pos batch; Ok (run :: rest)
  end.

Fixpoint appendPositions (runs : list walCoverageRun) (positions : list Pos.t) (batch : string)
  : result (list walCoverageRun) :=
  match positions with
  | [] => Ok runs
  | pos :: rest => runs ← appendWALCoveragePosition runs pos batch; appendPositions runs rest batch
  end.

(** [sort.Slice] with [walPositionLess]; positions that it does not tell apart
    are equal. *)
Fixpoint insert_position (pos : Pos.t) (l : list Pos.t) : list Pos.t :=
  match l with
  | [] => [pos]
  | p :: rest => if walPositionLess p pos then p :: insert_position pos rest else pos :: l
  end.
Definition sort_positions (l : list Pos.t) : list Pos.t := foldr insert_position [] l.

Fixpoint positions_sorted (l : list Pos.t) : bool :=
  match l with
  | p :: ((q :: _) as rest) => negb (walPositionLess q p) && positions_sorted rest
  | _ => true
  end.

Definition walCoverageRuns (positions : list Pos.t) (batch : string) : result (list walCoverageRun) :=
  match positions with
  | [] => Ok []
  | _ =>
      let positions := if positions_sorted positions then positions else sort_positions positions in
      appendPositions [] positions batch
  end.

(** Positions with sequence 0 are skipped, as [havePrevious] does. *)
Definition acceptedWALPositionsSorted (items : list Accepted) : bool :=
  positions_sorted (filter (λ p, p.(Pos.Sequence) ≠ 0) (map position items)).

Fixpoint validateRecordIDs (seen : gset string) (items : list Accepted) : result unit :=
  match items with
  | [] => Ok tt
  | item :: rest =>
      if negb (seqb item.(Signed).(SignedClaim.Claim).(ClientClaim.IdempotencyKey) "")
      then validateRecordIDs seen rest else
      let recordID := item.(Record_).(ServerRecord.RecordID) in
      if decide (recordID ∈ seen)
      then Err (New CodeDataLoss "batch contains a duplicate record id without idempotency protection")
      else validateRecordIDs ({[recordID]} ∪ seen) rest
  end.
Definition validateCheckpointRecordIDs (items : list Accepted) : result unit := validateRecordIDs ∅ items.

Definition sequencesTouch (leftEnd rightStart : Z) : bool :=
  (rightStart <=? leftEnd) || (negb (leftEnd =? two64 - 1) && (rightStart <=? u64 (leftEnd + 1))).

(** ** Merging *)

(** [sort.Search]: the loop between [i] and [j]. *)
Fixpoint search (fuel : nat) (f : nat → bool) (i j : nat) : nat :=
  match fuel with
  | O => i
  | S fuel =>
      if (i <? j)%nat
      then let h := ((i + j) / 2)%nat in
           if negb (f h) then search fuel f (S h) j else search fuel f i h
      else i
  end.
Definition sort_Search (n : nat) (f : nat → bool) : nat := search n f 0 n.

(** The loop of [mergeCheckpointCoverageLocked]: the merged run and the runs
    after it. *)
Fixpoint absorb (run : walCoverageRun) (coverage : list walCoverageRun)
  : result (walCoverageRun * list walCoverageRun) :=
  match coverage with
  | existing :: rest =>
      if sequencesTouch run.(to).(Pos.Sequence) existing.(from) then
        let first := if existing.(from) <? run.(from) then existing.(from) else run.(from) in
        if run.(to).(Pos.Sequence) <? existing.(to).(Pos.Sequence)
        then absorb (mkRun first existing.(to) existing.(batchID)) rest else
        if (existing.(to).(Pos.Sequence) =? run.(to).(Pos.Sequence)) && negb (same_place existing.(to) run.(to))
        then Err errConflictingPositions
        else absorb (mkRun first run.(to) run.(batchID)) rest
      else Ok (run, coverage)
  | [] => Ok (run, [])
  end.

Definition touches (coverage : list walCoverageRun) (run : walCoverageRun) (i : nat) : bool :=
  match coverage !! i with
  | Some r => sequencesTouch r.(to).(Pos.Sequence) run.(from)
  | None => true
  end.

(** ** The service *)

(** [configErr] is the error of [New] for an unavailable suite. *)
Record Options := mkOptions {
  suiteID : cryptosuite.ID;
  configErr : option error;
  checkpointEnabled : bool;
  (** [OnCheckpointAdvanced] is set. *)
  hook : bool }.

(** [fired] is the trace of the callbacks, [dropped] the metric of the runs
    that did not fit. *)
Record Service (S : Type) := mkService {
  checkpointCoverage : list walCoverageRun;
  checkpointLoaded : bool;
  checkpointFrontier : WCp.t;
  checkpointPersistedSeq : Z;
  checkpointDeferred : bool;
  checkpointCallbacks : list WCp.t;
  checkpointCallbackDraining : bool;
  fired : list WCp.t;
  dropped : Z;
  store : S }.
Arguments mkService {S}.
Arguments checkpointCoverage {S}.
Arguments checkpointLoaded {S}.
Arguments checkpointFrontier {S}.
Arguments checkpointPersistedSeq {S}.
Arguments checkpointDeferred {S}.
Arguments checkpointCallbacks {S}.
Arguments checkpointCallbackDraining {S}.
Arguments fired {S}.
Arguments dropped {S}.
Arguments store {S}.

Section service.
Context `{CheckpointStore St} (opts : Options).
Implicit Types (s : Service St).

Definition New (deferred : bool) (st : St) : Service St :=
  mkService [] false WCp.zero 0 deferred [] false [] 0 st.

Definition set_coverage (c : list walCoverageRun) (d : Z) s : Service St :=
  mkService c s.(checkpointLoaded) s.(checkpointFrontier) s.(checkpointPersistedSeq) s.(checkpointDeferred)
    s.(checkpointCallbacks) s.(checkpointCallbackDraining) s.(fired) d s.(store).
Definition set_frontier (c : list walCoverageRun) (f : WCp.t) s : Service St :=
  mkService c s.(checkpointLoaded) f s.(checkpointPersistedSeq) s.(checkpointDeferred)
    s.(checkpointCallbacks) s.(checkpointCallbackDraining) s.(fired) s.(dropped) s.(store).
Definition set_loaded (cp : option WCp.t) s : Service St :=
  let f := default s.(checkpointFrontier) cp in
  let p := match cp with Some cp => cp.(WCp.LastSequence) | None => s.(checkpointPersistedSeq) end in
  mkService s.(checkpointCoverage) true f p s.(checkpointDeferred)
    s.(checkpointCallbacks) s.(checkpointCallbackDraining) s.(fired) s.(dropped) s.(store).
Definition set_persisted (cp : WCp.t) s : Service St :=
  mkService s.(checkpointCoverage) s.(checkpointLoaded) cp cp.(WCp.LastSequence) s.(checkpointDeferred)
    s.(checkpointCallbacks) s.(checkpointCallbackDraining) s.(fired) s.(dropped) s.(store).
Definition set_callbacks (c : list WCp.t) (d : bool) (f : list WCp.t) s : Service St :=
  mkService s.(checkpointCoverage) s.(checkpointLoaded) s.(checkpointFrontier) s.(checkpointPersistedSeq)
    s.(checkpointDeferred) c d f s.(dropped) s.(store).
Definition set_deferred (d : bool) s : Service St :=
  mkService s.(checkpointCoverage) s.(checkpointLoaded) s.(checkpointFrontier) s.(checkpointPersistedSeq)
    d s.(checkpointCallbacks) s.(checkpointCallbackDraining) s.(fired) s.(dropped) s.(store).
Definition put_store (st : St) s : Service St :=
  mkService s.(checkpointCoverage) s.(checkpointLoaded) s.(checkpointFrontier) s.(checkpointPersistedSeq)
    s.(checkpointDeferred) s.(checkpointCallbacks) s.(checkpointCallbackDraining) s.(fired) s.(dropped) st.

(** The new coverage is what is left of [first], the merged run and what was
    not merged; when it is too long the farthest runs are dropped. *)
Definition mergeCheckpointCoverageLocked (run : walCoverageRun) : io (Service St) unit := λ s,
  let coverage := s.(checkpointCoverage) in
  let first := sort_Search (length coverage) (touches coverage run) in
  match absorb run (drop first coverage) with
  | Err e => (s, Err e)
  | Ok (run, rest) =>
      let coverage := take first coverage ++ run :: rest in
      let excess := Z.max 0 (len coverage - Z.of_nat maxCheckpointCoverageRuns) in
      (set_coverage (take maxCheckpointCoverageRuns coverage) (s.(dropped) + excess) s, Ok tt)
  end.

Definition advance_to (run : walCoverageRun) (f : WCp.t) : WCp.t :=
  WCp.mk f.(WCp.SchemaVersion) f.(WCp.CryptoSuite) f.(WCp.NodeID) f.(WCp.WALID) run.(to).(Pos.SegmentID)
    run.(to).(Pos.Sequence) run.(to).(Pos.Offset) run.(batchID) f.(WCp.RecordedAtUnixN).

Fixpoint consume (coverage : list walCoverageRun) (f : WCp.t) : list walCoverageRun * WCp.t :=
  match coverage with
  | [] => ([], f)
  | run :: rest =>
      if run.(to).(Pos.Sequence) <=? f.(WCp.LastSequence) then consume rest f else
      if f.(WCp.LastSequence) =? two64 - 1 then (coverage, f) else
      if f.(WCp.LastSequence) + 1 <? run.(from) then (coverage, f)
      else consume rest (advance_to run f)
  end.
Definition consumeCheckpointCoverageLocked s : Service St :=
  let '(c, f) := consume s.(checkpointCoverage) s.(checkpointFrontier) in set_frontier c f s.

Definition checkExisting (existing : WCp.t) : result unit :=
  if negb (seqb existing.(WCp.SchemaVersion) SchemaWALCheckpoint)
  then Err (TrustErr.New CodeFailedPrecondition "unsupported wal checkpoint schema: ") else
  _ ← wrap_err CodeDataLoss "wal checkpoint crypto_suite"
        (cryptosuite.RequireSame (suiteID opts) [existing.(WCp.CryptoSuite)]);
  if (0 <? existing.(WCp.LastSequence)) && ((existing.(WCp.SegmentID) =? 0) || (existing.(WCp.LastOffset) <? 0))
  then Err (TrustErr.New CodeDataLoss "contiguous wal checkpoint has an invalid position")
  else Ok tt.

Definition loadCheckpointLocked : io (Service St) unit := λ s,
  if s.(checkpointLoaded) then (s, Ok tt) else
  match wrap_err CodeDataLoss "load wal checkpoint" (GetCheckpoint s.(store)) with
  | Err e => (s, Err e)
  | Ok None => (set_loaded None s, Ok tt)
  | Ok (Some existing) =>
      match checkExisting existing with
      | Err e => (s, Err e)
      | Ok _ => (set_loaded (Some existing) s, Ok tt)
      end
  end.

(** The callbacks after [cp] was persisted, and whether this caller drains
    them. *)
Definition enqueueCallback (cp : WCp.t) s : Service St * bool :=
  if negb (hook opts) then (s, false) else
  if negb s.(checkpointCallbackDraining)
  then (set_callbacks (s.(checkpointCallbacks) ++ [cp]) true s.(fired) s, true) else
  match s.(checkpointCallbacks) with
  | [] => (set_callbacks [cp] true s.(fired) s, false)
  | cbs => (set_callbacks (removelast cbs ++ [cp]) true s.(fired) s, false)
  end.

Definition flushCheckpointLocked (now : Z) : io (Service St) bool := λ s,
  match loadCheckpointLocked s with
  | (s, Err e) => (s, Err e)
  | (s, Ok _) =>
      let s := consumeCheckpointCoverageLocked s in
      let f := s.(checkpointFrontier) in
      if s.(checkpointDeferred) || (f.(WCp.LastSequence) <=? s.(checkpointPersistedSeq)) then (s, Ok false) else
      let cp := WCp.mk SchemaWALCheckpoint (suiteID opts) f.(WCp.NodeID) f.(WCp.WALID) f.(WCp.SegmentID)
                  f.(WCp.LastSequence) f.(WCp.LastOffset) f.(WCp.BatchID) now in
      match PutCheckpoint now cp s.(store) with
      | (st, Err e) => (put_store st s, Err e)
      | (st, Ok _) =>
          let '(s, drain) := enqueueCallback cp (set_persisted cp (put_store st s)) in (s, Ok drain)
      end
  end.

Definition mergeRuns : list walCoverageRun → io (Service St) unit :=
  for_each (λ run, if (run.(from) =? 0) || (run.(to).(Pos.Sequence) <? run.(from)) then mret tt
                   else mergeCheckpointCoverageLocked run).

Definition addCheckpointCoverage (now : Z) (runs : list walCoverageRun) : io (Service St) bool :=
  match runs with
  | [] => mret false
  | _ => _ ← mergeRuns runs; flushCheckpointLocked now
  end.

Definition advanceCheckpoint (now : Z) (manifestBatchID : string) (items : list Accepted) : io (Service St) bool :=
  if negb (checkpointEnabled opts) then mret false else
  _ ← lift (validateCheckpointRecordIDs items);
  if acceptedWALPositionsSorted items
  then runs ← lift (appendPositions [] (map position items) manifestBatchID);
       addCheckpointCoverage now runs
  else
  let positions := filter (λ p, 0 < p.(Pos.Sequence)) (map position items) in
  runs ← lift (walCoverageRuns positions manifestBatchID);
  addCheckpointCoverage now runs.

Definition requireConfig : result unit :=
  match configErr opts with Some e => Err e | None => Ok tt end.

Definition RecordCommittedWALRange (now : Z) (first last : Pos.t) (batch : string) : io (Service St) bool :=
  _ ← lift requireConfig;
  if negb (checkpointEnabled opts) then mret false else
  if (first.(Pos.Sequence) =? 0) || (last.(Pos.Sequence) =? 0) then mret false else
  if last.(Pos.Sequence) <? first.(Pos.Sequence)
  then lift (Err (TrustErr.New CodeInvalidArgument "committed wal range is reversed"))
  else addCheckpointCoverage now [mkRun first.(Pos.Sequence) last batch].

Definition DeferCheckpointAdvance : io (Service St) unit :=
  if negb (checkpointEnabled opts) then mret tt else modify (set_deferred true).

Definition StartCheckpointAdvance (now : Z) : io (Service St) bool :=
  _ ← lift requireConfig;
  if negb (checkpointEnabled opts) then mret false else
  _ ← modify (set_deferred false); flushCheckpointLocked now.

(** One iteration of [drainCheckpointCallbacks]. *)
Definition drainCheckpointCallback s : Service St :=
  match s.(checkpointCallbacks) with
  | [] => set_callbacks [] false s.(fired) s
  | callback :: rest => set_callbacks rest s.(checkpointCallbackDraining) (s.(fired) ++ [callback]) s
  end.

End service.
End batch_checkpoint.
