(* ===== verification/BatchCheckpointProofs.v ===== *)
(** * The checkpoint only covers committed records

    The runs stay sorted and apart, the frontier is the longest committed
    prefix, and neither the stored checkpoint nor a callback is ever ahead of
    the committed records. *)

From S2P Require Import Prelude TrustErr CryptoSuite Model StoreMonad BatchCheckpoint.

Module batch_checkpoint_proofs.
Import batch_checkpoint.

(** ** Binary search *)

Lemma search_spec fuel f i j n :
  (∀ a b, (a <= b)%nat → (b < n)%nat → f a = true → f b = true) → (j <= n)%nat → (i <= j)%nat → (j - i <= fuel)%nat →
  (∀ a, (a < i)%nat → f a = false) → (∀ a, (j <= a < n)%nat → f a = true) →
  (∀ a, (a < search fuel f i j)%nat → f a = false) ∧ (∀ a, (search fuel f i j <= a < n)%nat → f a = true) ∧
  (search fuel f i j <= j)%nat.
Proof.
  intros Hf. revert i j. induction fuel as [|fuel IH]; intros i j Hj Hij Hfuel Hlo Hhi.
  { assert (i = j) as -> by lia. auto. }
  change (search (S fuel) f i j) with (if (i <? j)%nat then
    if negb (f ((i + j) / 2)%nat) then search fuel f (S ((i + j) / 2)) j else search fuel f i ((i + j) / 2) else i).
  destruct (i <? j)%nat eqn:E; [|apply Nat.ltb_ge in E; assert (i = j) as -> by lia; auto].
  apply Nat.ltb_lt in E. assert (i <= (i + j) / 2 < j)%nat as Hh.
  { split; [apply Nat.div_le_lower_bound; lia|apply Nat.Div0.div_lt_upper_bound; lia]. }
  generalize dependent ((i + j) / 2)%nat. intros h Hh. destruct (f h) eqn:Eh; cbn [negb].
  - destruct (IH i h) as (? & ? & ?); [lia..|done| |split_and!; [done..|lia]].
    intros a Ha. destruct (decide (j <= a)%nat); [apply Hhi; lia|]. apply (Hf h); [lia..|done].
  - destruct (IH (S h) j) as (? & ? & ?); [lia..| |done|split_and!; [done..|lia]].
    intros a Ha. destruct (decide (a < i)%nat); [by apply Hlo|]. destruct (f a) eqn:Ea; [|done].
    rewrite (Hf a h) in Eh; [done|lia|lia|done].
Qed.

Lemma sort_Search_spec f n :
  (∀ a b, (a <= b)%nat → (b < n)%nat → f a = true → f b = true) →
  (∀ a, (a < sort_Search n f)%nat → f a = false) ∧ (∀ a, (sort_Search n f <= a < n)%nat → f a = true) ∧
  (sort_Search n f <= n)%nat.
Proof. intros Hf. apply search_spec; [done|lia..| |]; intros; lia. Qed.

(** ** Runs *)

Definition last_of (r : walCoverageRun) : Z := r.(to).(Pos.Sequence).
Definition inside (r : walCoverageRun) (n : Z) : Prop := r.(from) <= n <= last_of r.
Definition covers (c : list walCoverageRun) (n : Z) : Prop := ∃ r, r ∈ c ∧ inside r n.

Lemma covers_nil n : ¬ covers [] n.
Proof. intros (r & Hr & _). by apply not_elem_of_nil in Hr. Qed.
Lemma covers_cons r c n : covers (r :: c) n ↔ inside r n ∨ covers c n.
Proof.
  split.
  - intros (x & Hx & ?). apply elem_of_cons in Hx as [->|Hx]; [by left|right; by exists x].
  - intros [?|(x & ? & ?)]; [exists r; split; [left|done]|exists x; split; [by right|done]].
Qed.
Lemma covers_app c d n : covers (c ++ d) n ↔ covers c n ∨ covers d n.
Proof.
  induction c as [|r c IH]; cbn; [pose proof (covers_nil n); tauto|]. rewrite !covers_cons, IH. tauto.
Qed.

(** The runs follow each other after [lo] with gaps between them. *)
Fixpoint canonical (lo : Z) (c : list walCoverageRun) : Prop :=
  match c with
  | [] => True
  | r :: rest => lo < r.(from) ∧ r.(from) <= last_of r ∧ last_of r < two64 ∧ canonical (last_of r + 1) rest
  end.

Fixpoint end_of (lo : Z) (c : list walCoverageRun) : Z :=
  match c with [] => lo | r :: rest => end_of (last_of r + 1) rest end.

Lemma canonical_app lo c d : canonical lo (c ++ d) ↔ canonical lo c ∧ canonical (end_of lo c) d.
Proof. revert lo. induction c as [|r c IH]; intros lo; cbn; [tauto|]. rewrite IH. tauto. Qed.

Lemma canonical_mono lo lo' c : lo <= lo' → canonical lo' c → canonical lo c.
Proof. destruct c as [|r c]; [done|]. cbn. intuition lia. Qed.

Lemma canonical_take lo n c : canonical lo c → canonical lo (take n c).
Proof. revert lo n. induction c as [|r c IH]; intros lo [|n]; cbn; auto. intuition auto. Qed.

Lemma canonical_above lo c r : canonical lo c → r ∈ c → lo < r.(from) <= last_of r ∧ last_of r < two64.
Proof.
  revert lo. induction c as [|x c IH]; intros lo; cbn; [by intros _ ?%not_elem_of_nil|].
  intros (? & ? & ? & Hc) [->|Hr]%elem_of_cons; [lia|]. destruct (IH _ Hc Hr). lia.
Qed.

Lemma covers_above lo c n : canonical lo c → covers c n → lo < n < two64.
Proof. intros Hc (r & Hr & Hn). pose proof (canonical_above _ _ _ Hc Hr). unfold inside in Hn. lia. Qed.

Lemma canonical_ordered lo c i j r x :
  canonical lo c → (i <= j)%nat → c !! i = Some r → c !! j = Some x → last_of r <= last_of x.
Proof.
  revert lo i j. induction c as [|y c IH]; intros lo i j Hc Hij Hi Hj; [done|]. cbn in Hc. destruct Hc as (_ & _ & _ & Hc).
  destruct i as [|i], j as [|j]; cbn in *; simplify_eq; [done| |lia|by eapply IH; [|assert (i <= j)%nat by lia|..]; eauto with lia].
  pose proof (canonical_above _ _ _ Hc (list_elem_of_lookup_2 _ _ _ Hj)). lia.
Qed.

Lemma sequencesTouch_spec l r : 0 <= l < two64 → sequencesTouch l r = true ↔ r <= l + 1 ∧ (l = two64 - 1 → r <= l).
Proof.
  intros Hl. unfold sequencesTouch. destruct (decide (l = two64 - 1)) as [->|Hne].
  - rewrite Z.eqb_refl. cbn [negb andb]. rewrite orb_false_r, Z.leb_le. lia.
  - rewrite (proj2 (Z.eqb_neq _ _) Hne). cbn [negb andb]. rewrite u64_small by (unfold in_u64; lia).
    rewrite orb_true_iff, !Z.leb_le. lia.
Qed.

(** The merged run is the union of the given one with the runs that it meets. *)
Lemma absorb_spec (P : Pos.t → Prop) lo run c run' rest :
  canonical lo c → lo < run.(from) <= last_of run → 0 <= lo → last_of run < two64 →
  (∀ r, r ∈ c → run.(from) <= last_of r + 1) →
  P run.(to) → (∀ r, r ∈ c → P r.(to)) →
  absorb run c = Ok (run', rest) →
  canonical lo (run' :: rest) ∧ (∀ n, covers (run' :: rest) n ↔ inside run n ∨ covers c n) ∧
  P run'.(to) ∧ (∀ r, r ∈ rest → P r.(to)).
Proof.
  revert lo run. induction c as [|x c IH]; intros lo run Hc Hrun Hlo H64 Ht HP HPc; cbn [absorb].
  { intros [= <- <-]. split_and!; [cbn; tauto|intros n; by rewrite covers_cons|done|done]. }
  cbn in Hc. destruct Hc as (Hx1 & Hx2 & Hx3 & Hc). pose proof (Ht x (list_elem_of_here _ _)) as Htx.
  destruct (sequencesTouch _ _) eqn:E.
  - apply sequencesTouch_spec in E as [E1 E2]; [|fold (last_of run); lia]. fold (last_of run) in *. fold (last_of x) in *.
    set (first := if from x <? from run then from x else from run).
    assert (first = Z.min (from x) (from run)) as Hfirst by (unfold first; destruct (_ <? _) eqn:?; bsimpl; lia).
    assert (∀ r, canonical lo c → lo < from r <= last_of r → last_of r < two64 → from r <= first → P (to r) →
      absorb r c = Ok (run', rest) → (∀ n, inside r n ↔ inside run n ∨ inside x n) →
      canonical lo (run' :: rest) ∧ (∀ n, covers (run' :: rest) n ↔ inside run n ∨ covers (x :: c) n) ∧
      P run'.(to) ∧ (∀ y, y ∈ rest → P y.(to))) as Hgo.
    { intros r Hcl Hr Hr64 Hf HPr Ea Hn. destruct (IH lo r) as (? & Hcov & ? & ?); try done.
      - intros y Hy. assert (from run <= last_of y + 1) by (apply Ht; by right). lia.
      - intros y Hy. apply HPc. by right.
      - split_and!; [done| |done..]. intros n. rewrite Hcov, Hn, covers_cons. tauto. }
    assert (canonical lo c) as Hcl by (eapply canonical_mono; [|exact Hc]; lia).
    destruct (last_of run <? last_of x) eqn:El; bsimpl.
    + intros Ea. apply (Hgo (mkRun first (to x) (batchID x))); try done; unfold inside, last_of in *; cbn; [lia..| |].
      * apply HPc. left.
      * intros n. lia.
    + destruct (_ && _) eqn:Ec; [done|]. intros Ea.
      apply (Hgo (mkRun first (to run) (batchID run))); try done; unfold inside, last_of in *; cbn; [lia..|].
      intros n. lia.
  - intros [= <- <-].
    assert (last_of run + 1 < from x) as Hgap.
    { apply not_true_iff_false in E. rewrite sequencesTouch_spec in E by (fold (last_of run); lia). fold (last_of run) in E.
      unfold last_of in *. lia. }
    split_and!; [cbn; split_and!; lia || done|intros n; by rewrite covers_cons|done|done].
Qed.

(** ** The runs of a batch *)

Section committed.
(** The committed sequences, and the positions of their records. *)
Context (C : Z → Prop) (P : Pos.t → Prop).

Definition run_ok (r : walCoverageRun) : Prop :=
  1 <= r.(from) <= last_of r ∧ last_of r < two64 ∧ (∀ n, inside r n → C n) ∧ P r.(to).

Lemma append_position_spec pos batch runs runs' :
  in_u64 pos.(Pos.Sequence) → (pos.(Pos.Sequence) ≠ 0 → C pos.(Pos.Sequence) ∧ P pos) →
  Forall run_ok runs → appendWALCoveragePosition runs pos batch = Ok runs' →
  Forall run_ok runs' ∧ ∀ n, covers runs' n ↔ covers runs n ∨ (n = pos.(Pos.Sequence) ∧ n ≠ 0).
Proof.
  intros Hu HP. revert runs'. induction runs as [|r runs IH]; intros runs' Hr; cbn [appendWALCoveragePosition].
  all: destruct (_ =? 0) eqn:E0; bsimpl; [intros [= <-]; split; [done|intuition lia]|]; destruct (HP E0) as [HC HPp]; unfold in_u64 in Hu.
  { intros [= <-]. split.
    - constructor; [|constructor]. split_and!; unfold last_of, inside; cbn; [lia..| |done]. intros n Hn.
      by replace n with (pos.(Pos.Sequence)) by (unfold last_of in Hn; cbn in Hn; lia).
    - intros n. rewrite covers_cons. pose proof (covers_nil n). unfold inside, last_of. cbn. intuition lia. }
  apply Forall_cons in Hr as [Hr Hrs]. destruct runs as [|r' runs].
  - pose proof Hr as (Hf & Ht & Hi & Hp). fold (last_of r). destruct (_ =? last_of r) eqn:E1; bsimpl.
    + destruct (negb _); [done|]. intros [= <-]. split; [by constructor|]. intros n. rewrite !covers_cons.
      unfold inside. pose proof (covers_nil n). intuition lia.
    + destruct (_ =? u64 _) eqn:E2; bsimpl; intros [= <-].
      * assert (pos.(Pos.Sequence) = last_of r + 1) as E3.
        { destruct (decide (last_of r = two64 - 1)) as [El|]; [|rewrite u64_small in E2; unfold in_u64; lia].
          rewrite El in E2. change (u64 (two64 - 1 + 1)) with 0 in E2. lia. }
        assert (∀ n, inside (mkRun (from r) pos batch) n ↔ inside r n ∨ n = pos.(Pos.Sequence)) as Hin.
        { intros n. unfold inside. change (last_of (mkRun (from r) pos batch)) with (pos.(Pos.Sequence)). cbn. lia. }
        split.
        -- constructor; [|done]. split_and!; unfold last_of in *; cbn in *; [lia..| |done].
           intros n [?| ->]%Hin; auto.
        -- intros n. rewrite !covers_cons, Hin. intuition lia.
      * split.
        -- constructor; [done|]. constructor; [|done]. split_and!; unfold last_of; cbn; [lia..| |done].
           intros n Hn. unfold inside, last_of in Hn. cbn in Hn. by replace n with (pos.(Pos.Sequence)) by lia.
        -- intros n. rewrite !covers_cons. pose proof (covers_nil n).
           unfold inside at 2. change (last_of (mkRun _ pos batch)) with (pos.(Pos.Sequence)). cbn. intuition lia.
  - intros (rs & E & [= <-])%bind_Ok. destruct (IH rs Hrs E) as [? Hcov]. split; [by constructor|].
    intros n. rewrite covers_cons, Hcov, (covers_cons r (r' :: runs)). tauto.
Qed.

Lemma appendPositions_spec positions batch runs runs' :
  Forall (λ p, in_u64 p.(Pos.Sequence) ∧ (p.(Pos.Sequence) ≠ 0 → C p.(Pos.Sequence) ∧ P p)) positions →
  Forall run_ok runs → appendPositions runs positions batch = Ok runs' →
  Forall run_ok runs' ∧ ∀ n, covers runs' n ↔ covers runs n ∨ (n ∈ map Pos.Sequence positions ∧ n ≠ 0).
Proof.
  intros Hp. revert runs. induction Hp as [|p positions [Hu HP] _ IH]; intros runs Hr; cbn [appendPositions].
  { intros [= <-]. split; [done|]. intros n. cbn. rewrite elem_of_nil. tauto. }
  intros (rs & E & Er)%bind_Ok. destruct (append_position_spec _ _ _ _ Hu HP Hr E) as [Hrs Hcov].
  destruct (IH rs Hrs Er) as [? Hcov']. split; [done|]. intros n. rewrite Hcov', Hcov. cbn. rewrite elem_of_cons. tauto.
Qed.

Lemma insert_position_perm p l : insert_position p l ≡ₚ p :: l.
Proof.
  induction l as [|q l IH]; [done|]. cbn. destruct (walPositionLess q p); [|done]. rewrite IH. apply Permutation_swap.
Qed.
Lemma sort_positions_perm l : sort_positions l ≡ₚ l.
Proof. induction l as [|p l IH]; [done|]. cbn. by rewrite insert_position_perm, IH. Qed.

Lemma walCoverageRuns_spec positions batch runs :
  Forall (λ p, in_u64 p.(Pos.Sequence) ∧ (p.(Pos.Sequence) ≠ 0 → C p.(Pos.Sequence) ∧ P p)) positions →
  walCoverageRuns positions batch = Ok runs →
  Forall run_ok runs ∧ ∀ n, covers runs n ↔ n ∈ map Pos.Sequence positions ∧ n ≠ 0.
Proof.
  intros Hp E. assert (∃ ps, ps ≡ₚ positions ∧ appendPositions [] ps batch = Ok runs) as (ps & Hps & Ea).
  { unfold walCoverageRuns in E. destruct positions as [|p l]; [by exists []|].
    destruct (positions_sorted _); [by exists (p :: l)|]. exists (sort_positions (p :: l)). split; [apply sort_positions_perm|done]. }
  destruct (appendPositions_spec ps batch [] runs) as [? Hcov]; [by rewrite Hps|done|done|]. split; [done|].
  intros n. rewrite Hcov, Hps. pose proof (covers_nil n). tauto.
Qed.

(** ** Merging a run *)

Lemma touches_split lo c run :
  canonical lo c → 0 <= lo →
  let k := sort_Search (length c) (touches c run) in
  (∀ r, r ∈ take k c → last_of r + 1 < run.(from) ∨ (last_of r = two64 - 1 ∧ last_of r < run.(from))) ∧
  (∀ r, r ∈ drop k c → run.(from) <= last_of r + 1).
Proof.
  intros Hc Hlo k.
  assert (∀ i r, c !! i = Some r → (touches c run i = true ↔ run.(from) <= last_of r + 1 ∧ (last_of r = two64 - 1 → run.(from) <= last_of r))) as Ht.
  { intros i r Hi. unfold touches. rewrite Hi. apply sequencesTouch_spec.
    pose proof (canonical_above _ _ _ Hc (list_elem_of_lookup_2 _ _ _ Hi)) as Ha. unfold last_of in *. lia. }
  destruct (sort_Search_spec (touches c run) (length c)) as (Hlt & Hge & Hk).
  { intros a b Hab Hb. destruct (lookup_lt_is_Some_2 c b Hb) as [x Hx]. destruct (lookup_lt_is_Some_2 c a ltac:(lia)) as [y Hy].
    rewrite (Ht _ _ Hx), (Ht _ _ Hy). pose proof (canonical_ordered _ _ _ _ _ _ Hc Hab Hy Hx).
    pose proof (canonical_above _ _ _ Hc (list_elem_of_lookup_2 _ _ _ Hx)). lia. }
  split.
  - intros r (i & Hi)%list_elem_of_lookup_1. apply lookup_take_Some in Hi as [Hi Hik]. specialize (Hlt i Hik).
    apply not_true_iff_false in Hlt. rewrite (Ht _ _ Hi) in Hlt. lia.
  - intros r (i & Hi)%list_elem_of_lookup_1. rewrite lookup_drop in Hi. fold k in Hge.
    apply (Ht _ _ Hi), Hge. apply lookup_lt_Some in Hi. lia.
Qed.

Lemma end_of_bound lo c m : lo < m → (∀ r, r ∈ c → last_of r + 1 < m) → end_of lo c < m.
Proof.
  revert lo. induction c as [|r c IH]; intros lo Hlo Hc; [done|]. cbn. apply IH; [apply Hc; left|intros x Hx; apply Hc; by right].
Qed.
Lemma end_of_nonneg lo c : 0 <= lo → canonical lo c → 0 <= end_of lo c.
Proof.
  revert lo. induction c as [|r c IH]; intros lo Hlo; [done|]. cbn. intros (? & ? & ? & Hc). apply IH; [lia|done].
Qed.

Lemma take_drop_covers k c n : covers (take k c) n ∨ covers (drop k c) n ↔ covers c n.
Proof. by rewrite <- covers_app, take_drop. Qed.

Lemma merged_spec c run run' rest :
  canonical 0 c → (∀ n, covers c n → C n) → (∀ r, r ∈ c → P r.(to)) → run_ok run →
  let k := sort_Search (length c) (touches c run) in
  absorb run (drop k c) = Ok (run', rest) →
  canonical 0 (take k c ++ run' :: rest) ∧
  (∀ n, covers (take k c ++ run' :: rest) n ↔ inside run n ∨ covers c n) ∧
  (∀ n, covers (take k c ++ run' :: rest) n → C n) ∧ (∀ r, r ∈ take k c ++ run' :: rest → P r.(to)).
Proof.
  intros Hc HC HP (Hf & H64 & Hin & HPr) k Ea. destruct (touches_split 0 c run Hc ltac:(lia)) as [Hl Hr]. fold k in Hl, Hr.
  pose proof Hc as Hc'. rewrite <- (take_drop k c) in Hc'. apply canonical_app in Hc' as [Hc1 Hc2].
  assert (end_of 0 (take k c) < from run) as Hend.
  { apply end_of_bound; [lia|]. intros r Hr'. destruct (Hl r Hr') as [?|[? ?]]; lia. }
  pose proof (end_of_nonneg 0 _ ltac:(lia) Hc1) as Hend0.
  destruct (absorb_spec P (end_of 0 (take k c)) run (drop k c) run' rest) as (Hcan & Hcov & HP1 & HP2); try done; [lia| |].
  { intros r Hr'. apply HP. rewrite <- (take_drop k c). apply elem_of_app. by right. }
  assert (∀ n, covers (take k c ++ run' :: rest) n ↔ inside run n ∨ covers c n) as Hcov'.
  { intros n. rewrite covers_app, Hcov, <- (take_drop_covers k c). tauto. }
  split_and!; [by apply canonical_app|done| |].
  - intros n [?|?]%Hcov'; auto.
  - intros r [Hr'|[->|Hr']%elem_of_cons]%elem_of_app; [|done|by apply HP2]. apply HP.
    rewrite <- (take_drop k c). apply elem_of_app. by left.
Qed.

(** ** The frontier *)

Definition place (cp : WCp.t) : Pos.t := Pos.mk cp.(WCp.SegmentID) cp.(WCp.LastOffset) cp.(WCp.LastSequence).

(** Everything up to the checkpoint is committed, and it is where its last
    record is. *)
Definition good (cp : WCp.t) : Prop :=
  0 <= cp.(WCp.LastSequence) < two64 ∧ (∀ n, 1 <= n <= cp.(WCp.LastSequence) → C n) ∧
  (cp.(WCp.LastSequence) ≠ 0 → P (place cp)).

Lemma consume_spec lo c f c' f' :
  canonical lo c → 0 <= lo → (∀ n, covers c n → C n) → (∀ r, r ∈ c → P r.(to)) → good f →
  consume c f = (c', f') →
  good f' ∧ canonical lo c' ∧ c' `sublist_of` c ∧ f.(WCp.LastSequence) <= f'.(WCp.LastSequence) ∧
  (∀ n, n <= f'.(WCp.LastSequence) ∨ covers c' n ↔ n <= f.(WCp.LastSequence) ∨ covers c n) ∧
  ¬ covers c' (f'.(WCp.LastSequence) + 1).
Proof.
  revert lo f. induction c as [|r c IH]; intros lo f Hc Hlo HC HP Hf; cbn [consume].
  { intros [= <- <-]. split_and!; [done..|lia|done|apply covers_nil]. }
  cbn in Hc. destruct Hc as (Hr1 & Hr2 & Hr3 & Hc). fold (last_of r).
  assert (∀ n, covers c n → C n) as HC' by (intros n ?; apply HC, covers_cons; by right).
  assert (∀ x, x ∈ c → P x.(to)) as HP' by (intros x ?; apply HP; by right).
  assert (∀ g, good g → f.(WCp.LastSequence) <= g.(WCp.LastSequence) → last_of r <= g.(WCp.LastSequence) →
    (∀ n, n <= g.(WCp.LastSequence) → n <= f.(WCp.LastSequence) ∨ inside r n) → consume c g = (c', f') →
    good f' ∧ canonical lo c' ∧ c' `sublist_of` r :: c ∧ f.(WCp.LastSequence) <= f'.(WCp.LastSequence) ∧
    (∀ n, n <= f'.(WCp.LastSequence) ∨ covers c' n ↔ n <= f.(WCp.LastSequence) ∨ covers (r :: c) n) ∧
    ¬ covers c' (f'.(WCp.LastSequence) + 1)) as Hgo.
  { intros g Hg Hfg Hrg Hn E. destruct (IH (last_of r + 1) g) as (? & Hcan & ? & ? & Hcov & ?); try done; [lia|].
    split_and!; [done|eapply canonical_mono; [|exact Hcan]; lia|by apply sublist_cons|lia| |done].
    intros n. rewrite Hcov, covers_cons. split; [intros [?|?]; [destruct (Hn n); auto|auto]|].
    intros [?|[Hi|?]]; [left; lia|left; unfold inside in Hi; lia|auto]. }
  destruct (_ <=? f.(WCp.LastSequence)) eqn:E1; bsimpl; [intros E; apply (Hgo f); auto; lia|].
  destruct (f.(WCp.LastSequence) =? two64 - 1) eqn:E2; bsimpl; [lia|].
  destruct (_ <? r.(from)) eqn:E3; bsimpl.
  - intros [= <- <-]. split_and!; [done|cbn; by split_and!|done|lia|done|].
    rewrite covers_cons. intros [Hi|Hcov]; [unfold inside in Hi; lia|]. pose proof (covers_above _ _ _ Hc Hcov). lia.
  - destruct Hf as (Hf0 & HfC & HfP).
    apply (Hgo (advance_to r f)); cbn; fold (last_of r); [|lia|lia|intros n Hn; unfold inside; lia].
    split_and!; cbn; fold (last_of r); [lia|lia| |].
    + intros n Hn. destruct (decide (n <= f.(WCp.LastSequence))); [apply HfC; lia|]. apply HC, covers_cons. left. unfold inside. lia.
    + intros _. replace (place (advance_to r f)) with (r.(to)); [apply HP; left|]. by destruct r as [? [] ?].
Qed.

(** ** The service *)

Section service.
Context `{CheckpointStore St, !CheckpointStoreLaws St} (opts : Options).
Implicit Types (s : Service St).

Definition calls s : list WCp.t := s.(fired) ++ s.(checkpointCallbacks).

Record ok s : Prop := {
  ok_canonical : canonical 0 s.(checkpointCoverage);
  ok_covers : ∀ n, covers s.(checkpointCoverage) n → C n;
  ok_places : ∀ r, r ∈ s.(checkpointCoverage) → P r.(to);
  ok_frontier : good s.(checkpointFrontier);
  ok_persisted : 0 <= s.(checkpointPersistedSeq) <= s.(checkpointFrontier).(WCp.LastSequence);
  ok_stored : ∀ cp, GetCheckpoint s.(store) = Ok (Some cp) → good cp;
  ok_calls : Forall good (calls s);
  ok_order : Sorted.StronglySorted Z.lt (map WCp.LastSequence (calls s));
  ok_below : Forall (λ cp, cp.(WCp.LastSequence) <= s.(checkpointPersistedSeq)) (calls s);
  ok_fresh : s.(checkpointLoaded) = false → calls s = [];
  ok_idle : s.(checkpointCallbackDraining) = false → s.(checkpointCallbacks) = [] }.

Lemma merge_spec run s :
  ok s → run_ok run →
  post (mergeCheckpointCoverageLocked run) s (λ r s',
    ok s' ∧ s' = set_coverage s'.(checkpointCoverage) s'.(dropped) s ∧ s.(dropped) <= s'.(dropped) ∧
    (is_ok r = true → s'.(dropped) = s.(dropped) →
       ∀ n, covers s'.(checkpointCoverage) n ↔ inside run n ∨ covers s.(checkpointCoverage) n)).
Proof.
  intros O Hrun. unfold post, mergeCheckpointCoverageLocked.
  destruct (absorb _ _) as [[run' rest]|e] eqn:Ea; cbn [fst snd]; [|split_and!; [done|by destruct s|lia|done]].
  destruct (merged_spec _ _ _ _ (ok_canonical _ O) (ok_covers _ O) (ok_places _ O) Hrun Ea) as (Hcan & Hcov & HC & HP).
  set (c := take _ _ ++ run' :: rest) in *.
  assert (∀ r, r ∈ take maxCheckpointCoverageRuns c → r ∈ c) as Hsub by (intros r Hr; eapply elem_of_sublist; [exact Hr|apply sublist_take]).
  split_and!.
  - destruct O. constructor; cbn; try done; [by apply canonical_take| |by intros r ?%Hsub; apply HP].
    intros n (r & ?%Hsub & ?). apply HC. by exists r.
  - done.
  - cbn. lia.
  - intros _ Hd. cbn in Hd. cbn [checkpointCoverage set_coverage].
    rewrite take_ge by (unfold len in Hd; lia). done.
Qed.

Lemma load_spec s :
  ok s → post (loadCheckpointLocked opts) s (λ r s',
    match r with
    | Ok _ => ok s' ∧ s'.(checkpointLoaded) = true ∧
        (s' = s ∨ s.(checkpointLoaded) = false ∧ ∃ found, GetCheckpoint s.(store) = Ok found ∧ s' = set_loaded found s)
    | Err _ => s' = s
    end).
Proof.
  intros O. unfold post, loadCheckpointLocked. destruct (checkpointLoaded s) eqn:El; [cbn; by auto|].
  destruct (GetCheckpoint (store s)) as [found|e] eqn:Eg; [|done]. pose proof (ok_fresh _ O El) as Hcalls. cbn [wrap_err].
  assert (∀ found', GetCheckpoint (store s) = Ok found' → ok (set_loaded found' s)) as Hok.
  { intros found' E. destruct O. destruct found' as [cp|]; constructor; try done; cbn.
    - by apply ok_stored0.
    - pose proof (ok_stored0 _ E) as (? & _). lia.
    - unfold calls in Hcalls. by rewrite Hcalls. }
  destruct found as [cp|]; cbn; [|split_and!; [by apply Hok|done|eauto]].
  destruct (checkExisting opts cp); cbn; [|done]. split_and!; [by apply Hok|done|eauto].
Qed.

Lemma strongly_sorted_snoc l m : Sorted.StronglySorted Z.lt l → Forall (λ n, n < m) l → Sorted.StronglySorted Z.lt (l ++ [m]).
Proof.
  induction 1 as [|n l Hs IH Hn]; intros Hm; cbn; [by repeat constructor|].
  apply Forall_cons in Hm as [? ?]. constructor; [by apply IH|]. apply Forall_app. split; [done|by repeat constructor].
Qed.

Lemma removelast_sublist {A} (l : list A) : removelast l `sublist_of` l.
Proof.
  destruct l as [|x l] using rev_ind; [done|]. rewrite removelast_last. by apply sublist_inserts_r.
Qed.

Lemma Forall_sublist {A} (Q : A → Prop) l k : l `sublist_of` k → Forall Q k → Forall Q l.
Proof. intros Hs. rewrite !Forall_forall. intros Hk x Hx. apply Hk. by eapply elem_of_sublist. Qed.

(** The persisted checkpoint is queued; it is above the others. *)
Lemma queued_ok cp st cbs d s :
  ok s → good cp → s.(checkpointPersistedSeq) < cp.(WCp.LastSequence) → s.(checkpointLoaded) = true →
  (∀ c, GetCheckpoint st = Ok (Some c) → good c) → cbs `sublist_of` s.(checkpointCallbacks) ++ [cp] →
  (d = false → cbs = []) →
  ok (set_callbacks cbs d s.(fired) (set_persisted cp (put_store st s))).
Proof.
  intros O Hg Hlt Hl Hst Hsub Hd. set (s' := set_callbacks _ _ _ _).
  assert (calls s' `sublist_of` calls s ++ [cp]) as Hc.
  { unfold calls. cbn. rewrite <- app_assoc. by apply sublist_app. }
  assert (Forall good (calls s ++ [cp])) as H1 by (apply Forall_app; split; [apply O|by apply Forall_singleton]).
  assert (Forall (λ c, c.(WCp.LastSequence) <= cp.(WCp.LastSequence)) (calls s ++ [cp])) as H2.
  { apply Forall_app. split; [|by apply Forall_singleton]. eapply Forall_impl; [apply (ok_below _ O)|cbn; lia]. }
  assert (Sorted.StronglySorted Z.lt (map WCp.LastSequence (calls s ++ [cp]))) as H3.
  { rewrite map_app. apply strongly_sorted_snoc; [apply O|]. apply Forall_fmap. eapply Forall_impl; [apply (ok_below _ O)|cbn; lia]. }
  destruct O. constructor; try done; cbn.
  - destruct Hg as (? & _). lia.
  - by eapply Forall_sublist.
  - eapply sorted_sublist; [by apply (fmap_sublist WCp.LastSequence)|done].
  - by eapply Forall_sublist.
  - by rewrite Hl.
Qed.

Lemma enqueue_callback_spec cp st s :
  ok s → good cp → s.(checkpointPersistedSeq) < cp.(WCp.LastSequence) → s.(checkpointLoaded) = true →
  (∀ c, GetCheckpoint st = Ok (Some c) → good c) →
  let s1 := set_persisted cp (put_store st s) in
  let s' := (enqueueCallback opts cp s1).1 in
  ok s' ∧ s' = set_callbacks s'.(checkpointCallbacks) s'.(checkpointCallbackDraining) s.(fired) s1.
Proof.
  intros O Hg Hlt Hl Hst s1 s'.
  assert (∀ cbs d, cbs `sublist_of` s.(checkpointCallbacks) ++ [cp] → (d = false → cbs = []) →
    s' = set_callbacks cbs d s.(fired) s1 → ok s' ∧ s' = set_callbacks s'.(checkpointCallbacks) s'.(checkpointCallbackDraining) s.(fired) s1) as Hgo.
  { intros cbs d Hsub Hd E. split; [rewrite E; by apply queued_ok|by rewrite E]. }
  unfold enqueueCallback in s'. destruct (hook opts); cbn [negb] in s'.
  2: { apply (Hgo s.(checkpointCallbacks) s.(checkpointCallbackDraining)); [by apply sublist_inserts_r|apply O|by destruct s]. }
  change (checkpointCallbackDraining s1) with (checkpointCallbackDraining s) in s'.
  change (checkpointCallbacks s1) with (checkpointCallbacks s) in s'. subst s'.
  destruct (checkpointCallbackDraining s) eqn:Ed; cbn [negb].
  - destruct (checkpointCallbacks s) as [|c cbs] eqn:Ec.
    + by apply (Hgo [cp] true).
    + apply (Hgo (removelast (c :: cbs) ++ [cp]) true); [|done..]. apply sublist_app; [apply removelast_sublist|done].
  - by apply (Hgo (s.(checkpointCallbacks) ++ [cp]) true).
Qed.

(** The last sequence of the stored checkpoint. *)
Definition stored_seq (st : St) : Z :=
  match GetCheckpoint st with Ok (Some cp) => cp.(WCp.LastSequence) | _ => 0 end.

(** The frontier, also before the stored checkpoint is loaded. *)
Definition reach s : Z :=
  if s.(checkpointLoaded) then s.(checkpointFrontier).(WCp.LastSequence) else stored_seq s.(store).

(** What the coverage and the frontier hold is the set [K] of the sequences
    below the checkpoint that was stored at the start and of those recorded
    since. *)
Record exact (K : Z → Prop) s : Prop := {
  ex_set : s.(dropped) = 0 → ∀ n, 1 <= n → n <= reach s ∨ covers s.(checkpointCoverage) n ↔ K n;
  ex_dropped : 0 <= s.(dropped);
  ex_fresh : s.(checkpointLoaded) = false →
    s.(checkpointFrontier).(WCp.LastSequence) = 0 ∧ s.(checkpointPersistedSeq) = 0;
  ex_stored : s.(checkpointLoaded) = true → ∀ found, GetCheckpoint s.(store) = Ok found →
    match found with
    | Some cp => s.(checkpointPersistedSeq) <= cp.(WCp.LastSequence) <= s.(checkpointFrontier).(WCp.LastSequence)
    | None => s.(checkpointPersistedSeq) = 0
    end }.

Lemma load_exact K s s' r :
  loadCheckpointLocked opts s = (s', r) → ok s → exact K s → exact K s' ∧ s'.(dropped) = s.(dropped) ∧
  s'.(checkpointDeferred) = s.(checkpointDeferred).
Proof.
  intros E O X. pose proof (post_intro _ _ _ (load_spec s O) _ _ E) as Hl. destruct r as [[]|e]; [|by subst s'].
  destruct Hl as (_ & _ & [->|(El & found & Eg & ->)]); [done|]. split_and!; [|done..].
  destruct (ex_fresh _ _ X El) as [Ef Ep]. destruct X. unfold reach in *. rewrite El in *.
  constructor; cbn; [|done|done|].
  - intros Hd n Hn. rewrite <- (ex_set0 Hd n Hn). unfold stored_seq. rewrite Eg. cbn. by destruct found; cbn; rewrite ?Ef.
  - intros _ found' E'. rewrite Eg in E'. injection E' as <-. by destruct found; cbn.
Qed.

Lemma consumed_spec s :
  ok s →
  let s' := consumeCheckpointCoverageLocked s in
  ok s' ∧ (∃ c f, s' = set_frontier c f s) ∧ (s.(checkpointLoaded) = true → ∀ K, exact K s → exact K s') ∧
  ¬ covers s'.(checkpointCoverage) (s'.(checkpointFrontier).(WCp.LastSequence) + 1).
Proof.
  intros O. unfold consumeCheckpointCoverageLocked. destruct (consume _ _) as [c f] eqn:E. cbn zeta.
  destruct (consume_spec 0 _ _ _ _ (ok_canonical _ O) ltac:(lia) (ok_covers _ O) (ok_places _ O) (ok_frontier _ O) E)
    as (Hg & Hcan & Hsub & Hle & Hcov & Hgap).
  split_and!; [|by exists c, f| |done].
  - destruct O. constructor; try done; cbn; [|by intros r ?; eapply ok_places0, elem_of_sublist|lia].
    intros n (r & Hr & Hn). apply ok_covers0. exists r. split; [by eapply elem_of_sublist|done].
  - intros Hl K []. unfold reach in *. constructor; unfold reach; cbn; rewrite Hl in *; try done.
    + intros Hd n Hn. rewrite Hcov. by apply ex_set0.
    + intros _ found Ef. specialize (ex_stored0 eq_refl found Ef). destruct found; [lia|done].
Qed.

Lemma flush_spec now s :
  ok s → post (flushCheckpointLocked opts now) s (λ r s',
    ok s' ∧ s'.(dropped) = s.(dropped) ∧ s'.(checkpointDeferred) = s.(checkpointDeferred) ∧ (∀ K, exact K s → exact K s') ∧
    (is_ok r = true → s'.(checkpointLoaded) = true ∧
       ¬ covers s'.(checkpointCoverage) (s'.(checkpointFrontier).(WCp.LastSequence) + 1) ∧
       (s.(checkpointDeferred) = false → s'.(checkpointPersistedSeq) = s'.(checkpointFrontier).(WCp.LastSequence)))).
Proof.
  intros O. unfold post, flushCheckpointLocked. pose proof (load_spec s O) as Hl. unfold post in Hl.
  destruct (loadCheckpointLocked opts s) as [s1 r] eqn:E. cbn in Hl.
  assert (ok s1 ∧ s1.(dropped) = s.(dropped) ∧ s1.(checkpointDeferred) = s.(checkpointDeferred) ∧ ∀ K, exact K s → exact K s1) as (O1 & D1 & F1 & X1).
  { destruct r as [[]|e]; [|by subst s1]. destruct Hl as (O1 & _ & Hs1). split_and!; [done|..].
    1,2: by destruct Hs1 as [->|(_ & ? & _ & ->)].
    intros K X. by eapply load_exact. }
  destruct r as [[]|e]; cbn; [|by split_and!]. destruct Hl as (_ & Hl1 & _).
  destruct (consumed_spec s1 O1) as (O2 & (c & f & E2) & X2 & Hgap). specialize (X2 Hl1). rewrite E2 in *. clear E2.
  set (s2 := set_frontier c f s1) in *.
  destruct (checkpointDeferred s2 || _) eqn:Ed; cbn.
  { split_and!; [done..|by auto|]. intros _. split; [done|]. split; [done|]. intros Hd. apply orb_true_iff in Ed as [Ed|Ed].
    - cbn in Ed. congruence.
    - bsimpl. pose proof (ok_persisted _ O2). cbn in *. lia. }
  bsimpl. set (cp := WCp.mk _ _ _ _ _ _ _ _ _). assert (good cp) as Hcp by apply O2.
  change (store s2) with (store s1) in *. destruct (PutCheckpoint now cp (store s1)) as [st [[]|e]] eqn:Ep.
  - assert (∀ found, GetCheckpoint st = Ok found → ∃ t, found = Some (recorded_at t cp)) as Hget.
    { intros found. by eapply put_get. }
    destruct (enqueue_callback_spec cp st s2) as [O3 Es]; [done|done|done|done| |].
    { intros x Hx. by destruct (Hget _ Hx) as (t & [= ->]). }
    destruct (enqueueCallback _ _ _) as [s3 drain]. cbn in O3, Es |- *.
    split_and!; [done|by rewrite Es|by rewrite Es| |intros _; rewrite Es; done].
    intros K X%X1%X2. rewrite Es. destruct X. unfold reach in *. cbn in *. rewrite Hl1 in *.
    constructor; unfold reach; cbn; rewrite ?Hl1; try done.
    intros _ found Hfound. destruct (Hget _ Hfound) as (t & ->). cbn. lia.
  - destruct (put_fails _ _ _ _ _ Ep ltac:(done)) as [Hg|Hg]; cbn; (split_and!; [|done|done| |done]).
    + destruct O2. constructor; try done. cbn. rewrite Hg. done.
    + intros K X%X1%X2. destruct X. unfold reach in *. cbn in *. rewrite Hl1 in *.
      constructor; unfold reach; cbn; rewrite ?Hl1, ?Hg; done.
    + destruct O2. constructor; try done. cbn. intros x Hx. by destruct (Hg _ Hx) as (t & [= ->]).
    + intros K X%X1%X2. destruct X. unfold reach in *. cbn in *. rewrite Hl1 in *.
      constructor; unfold reach; cbn; rewrite ?Hl1; try done. intros _ found Hfound.
      destruct (Hg _ Hfound) as (t & ->). cbn. pose proof (ok_persisted _ O2). cbn in *. lia.
Qed.
End service.
End committed.
End batch_checkpoint_proofs.

(** * Histories of the WAL checkpoint

    Commits, ranges found by the start-up scan, deferral, restarts, callbacks
    and the other writers of the store, in any order. *)

Module batch_checkpoint_ops.
Import batch_checkpoint batch_checkpoint_proofs.

Section committed.
Context (C : Z → Prop) (P : Pos.t → Prop).
Context `{CheckpointStore St, !CheckpointStoreLaws St} (opts : Options).
Implicit Types (s : Service St).

(** A sequence has one position. *)
Definition unique : Prop := ∀ p q, P p → P q → p.(Pos.Sequence) = q.(Pos.Sequence) → p = q.

Lemma same_place_refl p : same_place p p = true.
Proof. unfold same_place. by rewrite !Z.eqb_refl. Qed.

Lemma absorb_total run c :
  unique → P run.(to) → (∀ r, r ∈ c → P r.(to)) → is_ok (absorb run c) = true.
Proof.
  intros U. revert run. induction c as [|x c IH]; intros run HP Hc; [done|]. cbn [absorb].
  assert (∀ r, r ∈ c → P r.(to)) as Hc' by (intros r Hr; apply Hc; by right).
  destruct (sequencesTouch _ _); [|done]. destruct (_ <? _); [apply IH; [apply (Hc x); left|done]|].
  destruct (_ && _) eqn:E; [|by apply IH]. bsimpl. assert (to x = to run) as Ex by (apply U; [apply (Hc x); left|done|done]).
  by rewrite Ex, same_place_refl in *.
Qed.

Lemma merge_total run s :
  unique → ok C P s → run_ok C P run → is_ok (mergeCheckpointCoverageLocked run s).2 = true.
Proof.
  intros U O (_ & _ & _ & HP). unfold mergeCheckpointCoverageLocked.
  pose proof (absorb_total run (drop (sort_Search (length (checkpointCoverage s)) (touches (checkpointCoverage s) run))
    (checkpointCoverage s)) U HP) as Ht.
  destruct (absorb _ _) as [[]|]; [done|]. apply Ht. intros r Hr. apply (ok_places _ _ _ O).
  rewrite <- (take_drop (sort_Search (length (checkpointCoverage s)) (touches (checkpointCoverage s) run))
    (checkpointCoverage s)). apply elem_of_app. by right.
Qed.

Lemma mergeRuns_spec runs s :
  ok C P s → Forall (run_ok C P) runs →
  post (mergeRuns runs) s (λ r s',
    ok C P s' ∧ s.(dropped) <= s'.(dropped) ∧ s'.(checkpointDeferred) = s.(checkpointDeferred) ∧
    (unique → is_ok r = true ∧ ∀ K, exact K s → exact (λ n, K n ∨ covers runs n) s')).
Proof.
  intros O Hr. revert s O. induction Hr as [|run runs Hrun Hr IH]; intros s O.
  { unfold post, mergeRuns. cbn. split_and!; [done|lia|done|]. intros _. split; [done|]. intros K [].
    constructor; try done. intros Hd n Hn. rewrite (ex_set0 Hd n Hn). pose proof (covers_nil n). tauto. }
  unfold mergeRuns. cbn [for_each]. apply post_bind.
  assert ((run.(from) =? 0) || (run.(to).(Pos.Sequence) <? run.(from)) = false) as ->.
  { destruct Hrun as (? & _). apply orb_false_iff. split; [apply Z.eqb_neq|apply Z.ltb_ge]; unfold last_of in *; lia. }
  pose proof (merge_spec C P run s O Hrun) as Hm. pose proof (merge_total run s) as Ht. unfold post in *.
  destruct (mergeCheckpointCoverageLocked run s) as [s1 r1]. cbn in Hm, Ht. destruct Hm as (O1 & E1 & D1 & Hcov).
  destruct r1 as [[]|e]; cbn; [|split_and!; [done|done|by rewrite E1|intros U; by specialize (Ht U O Hrun)]].
  specialize (IH s1 O1). cbn in IH. destruct (for_each _ runs s1) as [s2 r2] eqn:E2. unfold mergeRuns in IH. rewrite E2 in IH. cbn in IH |- *.
  destruct IH as (O2 & D2 & F2 & X2). split_and!; [done|lia|rewrite F2; by rewrite E1|]. intros U. destruct (X2 U) as [Hok X]. split; [done|].
  intros K XK. assert (exact (λ n, K n ∨ inside run n) s1) as X1.
  { assert (s1.(checkpointFrontier) = s.(checkpointFrontier) ∧ s1.(store) = s.(store) ∧ s1.(checkpointLoaded) = s.(checkpointLoaded) ∧
      s1.(checkpointPersistedSeq) = s.(checkpointPersistedSeq)) as (Ef & Es & El & Ep) by (by rewrite E1).
    destruct XK. unfold reach in *. constructor; unfold reach; rewrite ?Ef, ?Es, ?El, ?Ep; try done; [|lia].
    intros Hd n Hn. assert (dropped s1 = dropped s) as Ed by lia. rewrite (Hcov eq_refl Ed n). rewrite <- (ex_set0 ltac:(lia) n Hn). tauto. }
  destruct (X _ X1). constructor; try done. intros Hd n Hn. rewrite (ex_set0 Hd n Hn), covers_cons. tauto.
Qed.

Lemma add_runs_spec now runs s :
  ok C P s → Forall (run_ok C P) runs →
  post (addCheckpointCoverage opts now runs) s (λ r s',
    ok C P s' ∧ s'.(checkpointDeferred) = s.(checkpointDeferred) ∧
    (unique → ∀ K, exact K s → exact (λ n, K n ∨ covers runs n) s')).
Proof.
  intros O Hr. pose proof (mergeRuns_spec runs s O Hr) as Hm. destruct runs as [|run runs].
  { unfold post in *. cbn in *. destruct Hm as (? & _ & ? & Hx). split_and!; [done..|]. intros U. by apply Hx. }
  apply post_bind. eapply post_mono; [exact Hm|]. cbn beta. intros r1 s1 (O1 & _ & D1 & X1).
  destruct r1 as [[]|e]; [|split_and!; [done..|]; intros U; by destruct (X1 U)].
  eapply post_mono; [by apply (flush_spec C P)|]. cbn beta. intros r s' (O' & _ & D' & X' & _).
  split_and!; [done|congruence|]. intros U K XK. apply X'. by apply X1.
Qed.

(** ** The operations *)

Definition input_ok (p : Pos.t) : Prop :=
  in_u64 p.(Pos.Sequence) ∧ (p.(Pos.Sequence) ≠ 0 → C p.(Pos.Sequence) ∧ P p).

Lemma append_total positions batch runs :
  unique → Forall input_ok positions → Forall (run_ok C P) runs → is_ok (appendPositions runs positions batch) = true.
Proof.
  intros U Hp. revert runs. induction Hp as [|p positions [Hu HP] _ IH]; intros runs Hr; [done|]. cbn [appendPositions].
  destruct (appendWALCoveragePosition runs p batch) as [rs|e] eqn:E.
  { destruct (append_position_spec C P p batch runs rs) as [? _]; try done. by apply IH. }
  exfalso. revert E. clear IH. induction Hr as [|r runs Hrun Hr IHr]; cbn [appendWALCoveragePosition];
    destruct (_ =? 0) eqn:E0; try done; bsimpl. destruct (HP E0) as [_ HPp]. destruct runs as [|r' runs].
  - destruct (_ =? _) eqn:E1; bsimpl; [|by destruct (_ =? _)]. destruct Hrun as (_ & _ & _ & HPr).
    rewrite (U p (to r)) by done. by rewrite same_place_refl.
  - intros [E|(rs & _ & ?)]%bind_Err; [by apply IHr|done].
Qed.

(** The sequences of a list of positions that count. *)
Definition sequences (positions : list Pos.t) (n : Z) : Prop := n ∈ map Pos.Sequence positions ∧ n ≠ 0.

Lemma advance_runs (items : list Accepted) batch :
  Forall input_ok (map position items) →
  let runs := if acceptedWALPositionsSorted items then appendPositions [] (map position items) batch
              else walCoverageRuns (filter (λ p, 0 < p.(Pos.Sequence)) (map position items)) batch in
  (unique → is_ok runs = true) ∧
  ∀ rs, runs = Ok rs → Forall (run_ok C P) rs ∧ ∀ n, covers rs n ↔ sequences (map position items) n.
Proof.
  intros Hi runs.
  assert (Forall input_ok (filter (λ p, 0 < p.(Pos.Sequence)) (map position items))) as Hi'.
  { apply Forall_forall. intros p [_ Hp]%list_elem_of_filter. rewrite Forall_forall in Hi. by apply Hi. }
  subst runs. destruct (acceptedWALPositionsSorted items); split.
  - intros U. by apply append_total.
  - intros rs E. destruct (appendPositions_spec C P (map position items) batch [] rs) as [? Hcov]; [done..|].
    split; [done|]. intros n. rewrite Hcov. unfold sequences. pose proof (covers_nil n). tauto.
  - intros U. unfold walCoverageRuns. destruct (filter _ _) as [|p ps] eqn:Ef; [done|]. rewrite <- Ef in *.
    apply append_total; [done| |done]. destruct (positions_sorted _); [done|].
    by rewrite (sort_positions_perm (filter _ (map position items))).
  - intros rs E. destruct (walCoverageRuns_spec C P _ batch rs Hi' E) as [? Hcov]. split; [done|]. intros n. rewrite Hcov.
    unfold sequences. split; intros [Hn Hne]; (split; [|done]); apply list_elem_of_fmap in Hn as (p & -> & Hp).
    + apply list_elem_of_filter in Hp as [_ Hp]. by apply list_elem_of_fmap_2.
    + apply list_elem_of_fmap_2, list_elem_of_filter. split; [|done]. rewrite Forall_forall in Hi. destruct (Hi p Hp) as [[? _] _].
      lia.
Qed.

Lemma post_lift_Ok {S A B} (a : A) (f : A → io S B) t (Q : result B → S → Prop) :
  post (f a) t Q → post (lift (Ok a) ≫= f) t Q.
Proof. done. Qed.

Lemma add_lift now (rs : result (list walCoverageRun)) (N : Z → Prop) s :
  ok C P s → (unique → is_ok rs = true) → (∀ l, rs = Ok l → Forall (run_ok C P) l ∧ ∀ n, covers l n ↔ N n) →
  post (l ← lift rs; addCheckpointCoverage opts now l) s (λ r s',
    ok C P s' ∧ s'.(checkpointDeferred) = s.(checkpointDeferred) ∧
    (unique → ∀ K, exact K s → exact (λ n, K n ∨ N n) s')).
Proof.
  intros O Ht Hr. destruct rs as [l|e]; [|unfold post; cbn; split_and!; [done..|intros U; by specialize (Ht U)]].
  destruct (Hr l eq_refl) as [Hl Hcov]. apply post_lift_Ok.
  eapply post_mono; [by apply add_runs_spec|]. cbn beta. intros r s' (? & ? & Hx). split_and!; [done..|].
  intros U K X. destruct (Hx U K X) as [Hset ? ? ?]. constructor; try done. intros Hd n Hn. rewrite (Hset Hd n Hn), Hcov. done.
Qed.

Lemma batch_commit_spec now batch items s :
  ok C P s → Forall input_ok (map position items) →
  post (advanceCheckpoint opts now batch items) s (λ r s',
    ok C P s' ∧ s'.(checkpointDeferred) = s.(checkpointDeferred) ∧
    (checkpointEnabled opts = true → validateCheckpointRecordIDs items = Ok tt → unique →
     ∀ K, exact K s → exact (λ n, K n ∨ sequences (map position items) n) s')).
Proof.
  intros O Hi. unfold advanceCheckpoint. destruct (checkpointEnabled opts); cbn [negb]; [|by apply post_ret].
  destruct (validateCheckpointRecordIDs items) as [[]|] eqn:Ev; [|by unfold post].
  apply post_lift_Ok. destruct (advance_runs items batch Hi) as [Ht Hr].
  destruct (acceptedWALPositionsSorted items); (eapply post_mono; [by apply (add_lift now _ (sequences (map position items)))|]);
    cbn beta; intros r s' (? & ? & Hx); by split_and!.
Qed.

Lemma range_spec now first last batch s :
  ok C P s → in_u64 first.(Pos.Sequence) → in_u64 last.(Pos.Sequence) →
  (1 <= first.(Pos.Sequence) <= last.(Pos.Sequence) → P last ∧ ∀ n, first.(Pos.Sequence) <= n <= last.(Pos.Sequence) → C n) →
  post (RecordCommittedWALRange opts now first last batch) s (λ r s',
    ok C P s' ∧ s'.(checkpointDeferred) = s.(checkpointDeferred) ∧
    (checkpointEnabled opts = true → configErr opts = None → 1 <= first.(Pos.Sequence) <= last.(Pos.Sequence) → unique →
     ∀ K, exact K s → exact (λ n, K n ∨ first.(Pos.Sequence) <= n <= last.(Pos.Sequence)) s')).
Proof.
  intros O Hu1 Hu2 HP. unfold RecordCommittedWALRange, requireConfig, in_u64 in *.
  destruct (configErr opts) as [e|]; [by unfold post|]. apply post_lift_Ok.
  destruct (checkpointEnabled opts); cbn [negb]; [|by apply post_ret].
  destruct (_ || _) eqn:E0; [apply post_ret; split_and!; [done..|]; intros; apply orb_true_iff in E0 as [?|?]; bsimpl; lia|].
  destruct (_ <? _) eqn:E1; bsimpl; [apply post_lift; split_and!; [done..|]; intros; lia|].
  destruct HP as [HPl HC]; [lia|].
  eapply post_mono; [apply add_runs_spec; [done|]; constructor; [|done]; by split_and!; unfold last_of; cbn; try lia|].
  cbn beta. intros r s' (? & ? & Hx). split_and!; [done..|]. intros _ _ _ U K X.
  destruct (Hx U K X) as [Hset ? ? ?]. constructor; try done. intros Hd n Hn. rewrite (Hset Hd n Hn), covers_cons.
  pose proof (covers_nil n). unfold inside, last_of. cbn. tauto.
Qed.

Lemma start_spec now s :
  ok C P s →
  post (StartCheckpointAdvance opts now) s (λ r s',
    ok C P s' ∧ (∀ K, exact K s → exact K s') ∧
    (checkpointEnabled opts = true → is_ok r = true →
       s'.(checkpointLoaded) = true ∧ ¬ covers s'.(checkpointCoverage) (s'.(checkpointFrontier).(WCp.LastSequence) + 1) ∧
       s'.(checkpointPersistedSeq) = s'.(checkpointFrontier).(WCp.LastSequence))).
Proof.
  intros O. unfold StartCheckpointAdvance, requireConfig. destruct (configErr opts) as [e|]; [by unfold post|].
  apply post_lift_Ok. destruct (checkpointEnabled opts); cbn [negb]; [|by apply post_ret].
  apply post_bind, post_modify. eapply post_mono; [apply (flush_spec C P); destruct O; by constructor|].
  cbn beta. intros r s' (? & _ & _ & Hx & Hr). split_and!; [done| |].
  - intros K X. apply Hx. destruct X. by constructor.
  - intros _ Hok. destruct (Hr Hok) as (? & ? & ?). auto.
Qed.

Lemma drain_ok s : ok C P s → ok C P (drainCheckpointCallback s).
Proof.
  intros O. unfold drainCheckpointCallback. destruct (checkpointCallbacks s) as [|c cbs] eqn:Ec.
  - destruct O. constructor; try done; cbn; unfold calls in *; rewrite Ec in *; done.
  - assert (calls (set_callbacks cbs (checkpointCallbackDraining s) (fired s ++ [c]) s) = calls s) as E.
    { unfold calls. cbn. rewrite Ec, <- app_assoc. done. }
    destruct O. constructor; rewrite ?E; try done. cbn. intros Hd. specialize (ok_idle0 Hd). congruence.
Qed.
End committed.

(** ** Histories *)

Section history.
Context `{CheckpointStore St, !CheckpointStoreLaws St} (opts : Options).

(** [Drain] is one iteration of the drainer; [Other] is a write of another part
    of the store, [Restart] a new process on the same store. *)
Inductive op :=
| Commit (now : Z) (batch : string) (items : list Accepted)
| Range (now : Z) (first last : Pos.t) (batch : string)
| Defer
| Start (now : Z)
| Drain
| Restart (deferred : bool)
| Other (f : St → St).

Definition exec (o : op) (s : Service St) : Service St :=
  match o with
  | Commit now batch items => (advanceCheckpoint opts now batch items s).1
  | Range now first last batch => (RecordCommittedWALRange opts now first last batch s).1
  | Defer => (DeferCheckpointAdvance opts s).1
  | Start now => (StartCheckpointAdvance opts now s).1
  | Drain => if s.(checkpointCallbackDraining) then drainCheckpointCallback s else s
  | Restart deferred => New deferred s.(store)
  | Other f => put_store (f s.(store)) s
  end.
Definition run (ops : list op) (s : Service St) : Service St := foldl (λ s o, exec o s) s ops.

(** The sequences and positions are machine integers; other writers keep the
    checkpoint or remove it. *)
Definition op_ok (o : op) : Prop :=
  match o with
  | Commit _ _ items => Forall (λ p, in_u64 p.(Pos.Sequence)) (map position items)
  | Range _ first last _ => in_u64 first.(Pos.Sequence) ∧ in_u64 last.(Pos.Sequence)
  | Other f => ∀ st, GetCheckpoint (f st) = GetCheckpoint st ∨ GetCheckpoint (f st) = Ok None
  | _ => True
  end.

(** What an operation says is committed, and where. *)
Definition commits (o : op) (n : Z) : Prop :=
  match o with
  | Commit _ _ items => n ∈ map Pos.Sequence (map position items)
  | Range _ first last _ => first.(Pos.Sequence) <= n <= last.(Pos.Sequence)
  | _ => False
  end.
Definition locates (o : op) (p : Pos.t) : Prop :=
  match o with
  | Commit _ _ items => p ∈ map position items
  | Range _ _ last _ => p = last
  | _ => False
  end.

Definition committed (ops : list op) (n : Z) : Prop := ∃ o, o ∈ ops ∧ commits o n.
Definition located (ops : list op) (p : Pos.t) : Prop := ∃ o, o ∈ ops ∧ locates o p.

Lemma new_ok C P deferred st :
  (∀ cp, GetCheckpoint st = Ok (Some cp) → good C P cp) → ok C P (New deferred st).
Proof.
  intros Hst. constructor; cbn; try done.
  - intros n ?%covers_nil. done.
  - by intros r ?%not_elem_of_nil.
  - split_and!; cbn; [done..| |done]. lia.
  - constructor.
Qed.

Lemma inputs_ok C P o positions :
  (∀ n, commits o n → C n) → (∀ p, locates o p → P p) → (∀ p, p ∈ positions → locates o p ∧ commits o p.(Pos.Sequence)) →
  Forall (λ p, in_u64 p.(Pos.Sequence)) positions → Forall (input_ok C P) positions.
Proof.
  intros HC HP Hp Hu. rewrite Forall_forall in *. intros p Hin. split; [by apply Hu|]. intros _. destruct (Hp p Hin). auto.
Qed.

Lemma commit_inputs now batch items C P :
  (∀ n, commits (Commit now batch items) n → C n) → (∀ p, locates (Commit now batch items) p → P p) →
  op_ok (Commit now batch items) → Forall (input_ok C P) (map position items).
Proof.
  intros HC HP Ho. eapply (inputs_ok C P (Commit now batch items)); [done..| |exact Ho].
  intros p Hp. split; [done|]. by apply list_elem_of_fmap_2.
Qed.

Lemma exec_ok C P o s :
  (∀ n, commits o n → C n) → (∀ p, locates o p → P p) → op_ok o → ok C P s → ok C P (exec o s).
Proof.
  intros HC HP Ho O. destruct o as [now batch items|now first last batch| |now| |deferred|f]; cbn [exec].
  - apply (batch_commit_spec C P opts now batch items s O). by apply (commit_inputs now batch).
  - destruct Ho. apply (range_spec C P opts now first last batch s O); [done..|]. intros _. split; [by apply HP|exact HC].
  - unfold DeferCheckpointAdvance. destruct (negb _); [done|]. cbn. destruct O. by constructor.
  - apply (start_spec C P opts now s O).
  - destruct (checkpointCallbackDraining s); [by apply drain_ok|done].
  - apply new_ok, O.
  - destruct O. constructor; try done. cbn. intros cp. destruct (Ho (store s)) as [->| ->]; [apply ok_stored0|done].
Qed.

Lemma run_ok_history C P ops s :
  (∀ n, committed ops n → C n) → (∀ p, located ops p → P p) → Forall op_ok ops → ok C P s → ok C P (run ops s).
Proof.
  intros HC HP Ho. revert s. induction Ho as [|o ops Ho _ IH]; intros s O; [done|]. cbn. apply IH.
  - intros n (x & ? & ?). apply HC. exists x. split; [by right|done].
  - intros p (x & ? & ?). apply HP. exists x. split; [by right|done].
  - apply exec_ok; [| |done|done]; [intros n Hn; apply HC; exists o|intros p Hp; apply HP; exists o]; (split; [left|done]).
Qed.

(** The WAL checkpoint never covers a record that is not committed.  In any
    history of commits, scanned ranges, deferrals, failures of the store,
    restarts, callbacks and writes of other parts of the store, from a store
    without a checkpoint: for the checkpoint that the store returns, and for
    every checkpoint that a callback was or will be given to prune the log,
    every sequence up to it was recorded as committed and it lies where its last
    record is; the callbacks come in increasing order. *)
Theorem checkpoint_contiguous ops deferred st0 :
  Forall op_ok ops → (∀ cp, GetCheckpoint st0 ≠ Ok (Some cp)) →
  let s := run ops (New deferred st0) in
  Sorted.StronglySorted Z.lt (map WCp.LastSequence (s.(fired) ++ s.(checkpointCallbacks))) ∧
  ∀ cp, GetCheckpoint s.(store) = Ok (Some cp) ∨ cp ∈ s.(fired) ++ s.(checkpointCallbacks) →
    (∀ n, 1 <= n <= cp.(WCp.LastSequence) → committed ops n) ∧
    (cp.(WCp.LastSequence) ≠ 0 → located ops (Pos.mk cp.(WCp.SegmentID) cp.(WCp.LastOffset) cp.(WCp.LastSequence))).
Proof.
  intros Ho Hst s.
  assert (ok (committed ops) (located ops) s) as O.
  { apply run_ok_history; [done..|]. apply new_ok. intros cp E. by apply Hst in E. }
  split; [apply O|]. intros cp Hcp. assert (good (committed ops) (located ops) cp) as (_ & ? & ?); [|done].
  destruct Hcp as [E|Hin]; [by apply O|]. pose proof (ok_calls _ _ _ O) as Hc. rewrite Forall_forall in Hc. by apply Hc.
Qed.

(** An operation of a running service that is accepted; another writer keeps
    the checkpoint. *)
Definition clean (o : op) : Prop :=
  match o with
  | Commit _ _ items => validateCheckpointRecordIDs items = Ok tt
  | Range _ first last _ => 1 <= first.(Pos.Sequence) <= last.(Pos.Sequence)
  | Other f => ∀ st, GetCheckpoint (f st) = GetCheckpoint st
  | Restart _ => False
  | _ => True
  end.

(** The positions that the operations report, and that of the checkpoint that
    the store held at the start. *)
Definition known (ops : list op) (st0 : St) (p : Pos.t) : Prop :=
  located ops p ∨ ∃ cp, GetCheckpoint st0 = Ok (Some cp) ∧ p = place cp.

Lemma exact_iff `{CheckpointStore St'} (K K' : Z → Prop) (s : Service St') :
  (∀ n, 1 <= n → K n ↔ K' n) → exact K s → exact K' s.
Proof. intros HK []. constructor; try done. intros Hd n Hn. rewrite (ex_set0 Hd n Hn). by apply HK. Qed.

Lemma exec_exact C P K o s :
  (∀ n, commits o n → C n) → (∀ p, locates o p → P p) → unique P → checkpointEnabled opts = true → configErr opts = None →
  op_ok o → clean o → ok C P s → exact K s → exact (λ n, K n ∨ commits o n) (exec o s).
Proof.
  intros HC HP U Hen Hcfg Ho Hcl O X. destruct o as [now batch items|now first last batch| |now| |deferred|f]; cbn [exec] in *.
  - pose proof (batch_commit_spec C P opts now batch items s O ltac:(by apply (commit_inputs now batch))) as (_ & _ & Hx).
    eapply exact_iff; [|by apply Hx]. intros n Hn. unfold sequences. cbn. intuition lia.
  - destruct Ho as [Hu1 Hu2]. cbn in Hcl.
    pose proof (range_spec C P opts now first last batch s O Hu1 Hu2 ltac:(intros _; split; [by apply HP|exact HC])) as (_ & _ & Hx).
    by apply Hx.
  - unfold DeferCheckpointAdvance. rewrite Hen. cbn. destruct X. constructor; try done. cbn. intros Hd n Hn.
    rewrite (ex_set0 Hd n Hn). tauto.
  - eapply exact_iff; [|by apply (start_spec C P opts now s O)]. cbn. tauto.
  - destruct (checkpointCallbackDraining s); [unfold drainCheckpointCallback; destruct (checkpointCallbacks s)|];
      destruct X; constructor; try done; cbn; intros Hd n Hn; rewrite (ex_set0 Hd n Hn); tauto.
  - done.
  - destruct X. cbn in Hcl. constructor; unfold reach, stored_seq in *; cbn; rewrite ?Hcl; try done.
    intros Hd n Hn. rewrite (ex_set0 Hd n Hn). tauto.
Qed.

Lemma run_exact C P K ops s :
  (∀ n, committed ops n → C n) → (∀ p, located ops p → P p) → unique P → checkpointEnabled opts = true → configErr opts = None →
  Forall op_ok ops → Forall clean ops → ok C P s → exact K s → exact (λ n, K n ∨ committed ops n) (run ops s).
Proof.
  intros HC HP U Hen Hcfg Ho. revert K s. induction Ho as [|o ops Ho Hos IH]; intros K s Hcl O X.
  { eapply exact_iff; [|exact X]. intros n Hn. split; [by left|]. intros [?|(o & Hin & _)]; [done|by apply not_elem_of_nil in Hin]. }
  apply Forall_cons in Hcl as [Hc Hcl]. cbn.
  assert ((∀ n, commits o n → C n) ∧ ∀ p, locates o p → P p) as [HCo HPo].
  { split; [intros n Hn; apply HC; exists o|intros p Hp; apply HP; exists o]; (split; [left|done]). }
  assert (∀ n, committed (o :: ops) n ↔ commits o n ∨ committed ops n) as Hcons.
  { intros n. unfold committed. split.
    - intros (x & [->|Hx]%elem_of_cons & ?); [by left|right; by exists x].
    - intros [?|(x & ? & ?)]; [exists o; split; [left|done]|exists x; split; [by right|done]]. }
  assert (∀ n, committed ops n → C n) as HC' by (intros n Hn; apply HC, Hcons; by right).
  assert (∀ p, located ops p → P p) as HP' by (intros p (x & ? & ?); apply HP; exists x; split; [by right|done]).
  eapply exact_iff; [|apply (IH HC' HP' (λ n, K n ∨ commits o n)); [done|by apply exec_ok|by apply (exec_exact C P)]].
  intros n Hn. cbn. rewrite Hcons. tauto.
Qed.

Lemma new_exact deferred st0 :
  (∀ cp, GetCheckpoint st0 = Ok (Some cp) → in_u64 cp.(WCp.LastSequence)) → exact (λ n, n <= stored_seq st0) (New deferred st0).
Proof.
  intros Hst. constructor; unfold reach; cbn; try done. intros _ n Hn. split; [|by left]. by intros [?|?%covers_nil].
Qed.

(** C11: the checkpoint catches up.  One process runs from [New] on a store as
    earlier runs left it, which may hold a checkpoint; whatever commits,
    scanned ranges, deferrals, callbacks, failures of the store and writes of
    other parts that keep the checkpoint follow, when every sequence has one
    position, the commits pass the check of their record ids, the ranges are
    not empty and no run had to be dropped: a successful start of the
    advancement leaves the frontier at the end of the longest prefix of the
    log whose sequences were committed in this run or lie below the checkpoint
    that was found, and the store returns no other. *)
Theorem checkpoint_exact ops deferred st0 now s' drain :
  checkpointEnabled opts = true → configErr opts = None →
  (∀ cp, GetCheckpoint st0 = Ok (Some cp) → in_u64 cp.(WCp.LastSequence)) →
  Forall op_ok ops → Forall clean ops → unique (known ops st0) →
  StartCheckpointAdvance opts now (run ops (New deferred st0)) = (s', Ok drain) → s'.(dropped) = 0 →
  let f := s'.(checkpointFrontier).(WCp.LastSequence) in
  (∀ n, 1 <= n → n <= f ↔ ∀ m, 1 <= m <= n → m <= stored_seq st0 ∨ committed ops m) ∧
  ∀ found, GetCheckpoint s'.(store) = Ok found →
    match found with Some cp => cp.(WCp.LastSequence) = f | None => f = 0 end.
Proof.
  intros Hen Hcfg Hst Ho Hcl U Es Hd f. set (s := run ops (New deferred st0)) in Es.
  set (C := λ n, n <= stored_seq st0 ∨ committed ops n).
  assert (ok C (known ops st0) (New deferred st0)) as O0.
  { apply new_ok. intros cp E. split; [by apply Hst|split; [|intros _; right; eauto]].
    intros n Hn. left. unfold stored_seq. rewrite E. lia. }
  assert (ok C (known ops st0) s) as O by (apply run_ok_history; [by right|by left|done..]).
  assert (exact C s) as X.
  { apply (run_exact C (known ops st0)); try done; try (by right); [by left|by apply new_exact]. }
  pose proof (post_intro _ _ _ (start_spec _ _ opts now s O) _ _ Es) as (O' & X' & Hr).
  destruct (Hr Hen eq_refl) as (Hl & Hgap & Hp). destruct (X' _ X) as [Hset _ _ Hstored].
  unfold reach in Hset. rewrite Hl in Hset.
  pose proof (ok_frontier _ _ _ O') as (Hf0 & HfC & _). split.
  - intros n Hn. split; [intros Hle m Hm; apply HfC; fold f; lia|]. intros Hall.
    destruct (decide (n <= f)) as [|Hgt]; [done|]. exfalso.
    assert (C (f + 1)) as Hc by (apply Hall; unfold f in *; lia).
    destruct (proj2 (Hset Hd (f + 1) ltac:(unfold f; lia)) Hc); [unfold f in *; lia|done].
  - intros found E. specialize (Hstored Hl found E). unfold f. destruct found; [lia|congruence].
Qed.
End history.
End batch_checkpoint_ops.
