(* ===== verification/BatchStore.v ===== *)
(** * The batch tables of the Pebble store

    Models the bundles, manifests, roots, batch trees, idempotency decisions and
    the WAL checkpoint of [src/internal/proofstore/pebble/store.go], with the
    projection markers and the flags [idempotencyReady] and [hasCommittedBatch]
    that guard them.

    As in [RecordIndex] a table maps the parts of a key to the stored bytes and
    a Pebble batch is a list of writes.  [disk] says for every commit whether it
    is applied, fails, or is the last thing that the process does, before or
    after it reaches the disk; a process that is not [alive] commits nothing
    until [Open].  Cancelled contexts, buffer pools and the workers
    that encode bundles in parallel (the first error in the order of the bundles
    is returned) are not modelled.  [github.com/golang/snappy] is [SnappyLib]. *)

From stdpp Require Import sorting.
From S2P Require Import Prelude TrustErr CryptoSuite Model TrustCrypto Cborx KeyDescriptor ModelSuite.
From S2P Require Import StoreMonad GlobalStore AnchorSchedule AnchorStore RecordSearch RecordIndex.
From S2P Require Import Merkle Claim Receipt Wal WalDir WalQueue Idempotency IdemIndex App BatchCheckpoint.

Module Man := BatchManifest.
Module Bun := ProofBundle.

Class SnappyLib := {
  snappy_Encode : bytes → bytes;
  snappy_DecodedLen : bytes → result Z;
  snappy_Decode : bytes → result bytes }.

(** Decoding inverts encoding. *)
Class SnappyLaws `{SnappyLib} := {
  snappy_len : ∀ b, snappy_DecodedLen (snappy_Encode b) = Ok (len b);
  snappy_roundtrip : ∀ b, snappy_Decode (snappy_Encode b) = Ok b }.

Module batchstore.

Module Dec := IdempotencyDecision.

Record storedProofBundleEnvelope := mkEnvelope {
  env_SchemaVersion : string;
  env_Codec : string;
  env_Data : bytes }.

Record batchTreeLeafTile := mkLeafTile {
  lt_SchemaVersion : string;
  lt_CryptoSuite : cryptosuite.ID;
  lt_BatchID : string;
  lt_StartIndex : Z;
  lt_LeafIndexes : list Z;
  lt_RecordIDs : list string;
  lt_Hashes : list bytes;
  lt_CreatedAtUnixN : Z }.

Record batchTreeNodeTile := mkNodeTile {
  nt_SchemaVersion : string;
  nt_CryptoSuite : cryptosuite.ID;
  nt_BatchID : string;
  nt_Level : Z;
  nt_StartIndex : Z;
  nt_StartIndexes : list Z;
  nt_Widths : list Z;
  nt_Hashes : list bytes;
  nt_CreatedAtUnixN : Z }.

Definition bundleCompressionMinBytes : Z := 4096.
Definition batchTreeTileSize : nat := 512.
Definition schemaStoredProofBundleV2 : string := "trustdb.pebble-proof-bundle.v2".
Definition storedBundleCodecSnappy : string := "snappy".
Definition schemaBatchTreeLeafTileV2 : string := "trustdb.batch-tree-leaf-tile.v2".
Definition schemaBatchTreeNodeTileV2 : string := "trustdb.batch-tree-node-tile.v2".

(** ** The tables *)

(** The parts of [manifestStateKey]: state, next attempt, node and batch. *)
Definition state_key : Type := string * Z * string * string.
Definition manifestStateKey (m : Man.t) : state_key :=
  let next := if m.(Man.MaterializeNextUnixN) <? 0 then 0 else m.(Man.MaterializeNextUnixN) in
  (m.(Man.State), next, m.(Man.NodeID), m.(Man.BatchID)).

Inductive outcome := Done | Failed | CrashBefore | CrashAfter.

Record Store := mkStore {
  index : recordindex.Store;
  bundles : gmap string bytes;
  manifests : gmap string bytes;
  manifestStates : gmap state_key bytes;
  roots : gmap (Z * string) bytes;
  leafTiles : gmap (string * Z) bytes;
  nodeTiles : gmap (string * Z * Z) bytes;
  decisions : gmap string bytes;
  checkpoint : option bytes;
  readyMarker : bool;
  committedMarker : bool;
  idempotencyReady : bool;
  hasCommittedBatch : bool;
  disk : nat → outcome;
  commits : nat;
  alive : bool }.

Inductive write :=
| SetBundle (recordID : string) (value : bytes)
| SetIndex (w : recordindex.write)
| SetRoot (closedAtUnixN : Z) (batchID : string) (value : bytes)
| SetLeafTile (batchID : string) (startIndex : Z) (value : bytes)
| SetNodeTile (batchID : string) (level startIndex : Z) (value : bytes)
| SetManifest (batchID : string) (value : bytes)
| SetState (k : state_key) (value : bytes)
| DeleteState (k : state_key)
| SetDecision (storageKey : string) (value : bytes)
| SetCheckpoint (value : bytes)
| DeleteCheckpoint
| SetReady (b : bool)
| SetCommitted.

Definition put_entries (es : gmap recordindex.key bytes) (i : recordindex.Store) : recordindex.Store :=
  recordindex.mkStore (recordindex.anchors i) (recordindex.recordIndexMode i) es.

Definition apply (s : Store) (w : write) : Store :=
  let '(mkStore i b m ms r lt nt d c rm cm ir hc dk n al) := s in
  match w with
  | SetBundle id v => mkStore i (<[id := v]> b) m ms r lt nt d c rm cm ir hc dk n al
  | SetIndex w => mkStore (put_entries (recordindex.apply (recordindex.entries i) w) i) b m ms r lt nt d c rm cm ir hc dk n al
  | SetRoot t id v => mkStore i b m ms (<[(t, id) := v]> r) lt nt d c rm cm ir hc dk n al
  | SetLeafTile id k v => mkStore i b m ms r (<[(id, k) := v]> lt) nt d c rm cm ir hc dk n al
  | SetNodeTile id l k v => mkStore i b m ms r lt (<[(id, l, k) := v]> nt) d c rm cm ir hc dk n al
  | SetManifest id v => mkStore i b (<[id := v]> m) ms r lt nt d c rm cm ir hc dk n al
  | SetState k v => mkStore i b m (<[k := v]> ms) r lt nt d c rm cm ir hc dk n al
  | DeleteState k => mkStore i b m (delete k ms) r lt nt d c rm cm ir hc dk n al
  | SetDecision k v => mkStore i b m ms r lt nt (<[k := v]> d) c rm cm ir hc dk n al
  | SetCheckpoint v => mkStore i b m ms r lt nt d (Some v) rm cm ir hc dk n al
  | DeleteCheckpoint => mkStore i b m ms r lt nt d None rm cm ir hc dk n al
  | SetReady x => mkStore i b m ms r lt nt d c x cm ir hc dk n al
  | SetCommitted => mkStore i b m ms r lt nt d c rm true ir hc dk n al
  end.

Definition set_flags (ready hasCommitted : bool) (s : Store) : Store :=
  let '(mkStore i b m ms r lt nt d c rm cm _ _ dk n al) := s in mkStore i b m ms r lt nt d c rm cm ready hasCommitted dk n al.
(** After a commit: the next one, and whether the process lives on. *)
Definition tick (live : bool) (s : Store) : Store :=
  let '(mkStore i b m ms r lt nt d c rm cm ir hc dk n _) := s in mkStore i b m ms r lt nt d c rm cm ir hc dk (S n) live.
Definition set_ready (b : bool) (s : Store) : Store := set_flags b (hasCommittedBatch s) s.
Definition set_committed (s : Store) : Store := set_flags (idempotencyReady s) true s.

(** [batch.Commit], with the wrapping of its error. *)
Definition Commit (msg : string) (batch : list write) : io Store unit := λ s,
  let failed := Err (Wrap CodeDataLoss msg (Some (ErrorsNew "pebble: commit"))) in
  if negb (alive s) then (s, failed) else
  match disk s (commits s) with
  | Done => (tick true (foldl apply s batch), Ok tt)
  | Failed => (tick true s, failed)
  | CrashBefore => (tick false s, failed)
  | CrashAfter => (tick false (foldl apply s batch), failed)
  end.

(** A new process, with the flags of [OpenWithOptions]. *)
Definition Open (s : Store) : Store :=
  let '(mkStore i b m ms r lt nt d c rm cm _ _ dk n _) := s in mkStore i b m ms r lt nt d c rm cm rm cm dk n true.

Definition base (s : Store) : pebble.Store := recordindex.base (index s).
Definition CryptoSuite (s : Store) : cryptosuite.ID := pebble.CryptoSuite (base s).

Definition ValidBatchManifestState (state : string) : bool :=
  seqb state BatchStatePreparing || seqb state BatchStatePrepared
  || seqb state BatchStateCommitted || seqb state BatchStateFailed.

Definition WALCheckpointPruneSafe (s : Store) : bool := idempotencyReady s.

Definition RecordIndexFromBundle (bundle : Bun.t) : RecordIndex.t :=
  let record := bundle.(Bun.ServerRecord) in
  let record := if seqb record.(ServerRecord.RecordID) ""
    then ServerRecord.mk record.(ServerRecord.SchemaVersion) record.(ServerRecord.CryptoSuite) bundle.(Bun.RecordID)
           record.(ServerRecord.TenantID) record.(ServerRecord.ClientID) record.(ServerRecord.KeyID)
           record.(ServerRecord.ClaimHash) record.(ServerRecord.ClientSignatureHash) record.(ServerRecord.ReceivedAtUnixN)
           record.(ServerRecord.WAL) record.(ServerRecord.Validation)
    else record in
  let committed := bundle.(Bun.CommittedReceipt) in
  let idx := app_batch.RecordIndexFromBatchInputs bundle.(Bun.SignedClaim) record bundle.(Bun.AcceptedReceipt)
               bundle.(Bun.NodeID) bundle.(Bun.LogID) committed.(CommittedReceipt.BatchID)
               committed.(CommittedReceipt.LeafIndex) committed.(CommittedReceipt.ClosedAtUnixN) "L3" in
  if seqb idx.(RecordIndex.CryptoSuite) ""
  then RecordIndex.mk idx.(RecordIndex.SchemaVersion) bundle.(Bun.CryptoSuite) idx.(RecordIndex.RecordID)
         idx.(RecordIndex.NodeID) idx.(RecordIndex.LogID) idx.(RecordIndex.TenantID) idx.(RecordIndex.ClientID)
         idx.(RecordIndex.KeyID) idx.(RecordIndex.ProofLevel) idx.(RecordIndex.BatchID) idx.(RecordIndex.BatchLeafIndex)
         idx.(RecordIndex.BatchClosedAtUnixN) idx.(RecordIndex.ReceivedAtUnixN) idx.(RecordIndex.ContentHash)
         idx.(RecordIndex.ContentLength) idx.(RecordIndex.MediaType) idx.(RecordIndex.StorageURI)
         idx.(RecordIndex.FileName) idx.(RecordIndex.EventType) idx.(RecordIndex.Source)
  else idx.

Definition normalizeBatchRoot (now : Z) (root : BatchRoot.t) (expectedTreeSize : Z) : result BatchRoot.t :=
  if seqb root.(BatchRoot.BatchID) "" then Err (New CodeInvalidArgument "batch root batch_id is required") else
  let n := root.(BatchRoot.TreeSize) in
  let n := if (0 <? expectedTreeSize) && (n =? 0) then expectedTreeSize else n in
  if (0 <? expectedTreeSize) && negb (n =? expectedTreeSize)
  then Err (New CodeInvalidArgument "batch root tree_size does not match bundle count") else
  Ok (BatchRoot.mk (pebble.default_string SchemaBatchRoot root.(BatchRoot.SchemaVersion)) root.(BatchRoot.CryptoSuite)
        root.(BatchRoot.BatchID) root.(BatchRoot.NodeID) root.(BatchRoot.LogID) root.(BatchRoot.BatchRoot) n
        (pebble.default_int now root.(BatchRoot.ClosedAtUnixN))).

Section store.
Context `{HashLib, KeyDescriptorLib, UnicodeLib, SnappyLib}.
Context `{CborMode ClientClaim.t, CborMode claim.framing}.
Context `{CborMode Bun.t, CborMode storedProofBundleEnvelope, CborMode Idx.t, CborMode BatchRoot.t, CborMode Man.t}.
Context `{CborMode Dec.t, CborMode batchTreeLeafTile, CborMode batchTreeNodeTile, CborMode WCp.t}.

Definition requireSuite (value : modelsuite.Any) : io Store unit :=
  reads (λ s, pebble.requireSuite (base s) value).

(** ** Bundles *)

Definition encodeStoredProofBundle (bundle : Bun.t) : result bytes :=
  if seqb bundle.(Bun.RecordID) "" then Err (New CodeInvalidArgument "proof bundle record_id is required") else
  raw ← wrap_err CodeDataLoss "encode proof bundle" (cborx.Marshal bundle);
  if len raw <? bundleCompressionMinBytes then Ok raw else
  let compressed := snappy_Encode raw in
  if len raw * 7 <=? len compressed * 8 then Ok raw else
  wrap_err CodeDataLoss "encode proof bundle envelope"
    (cborx.Marshal (mkEnvelope schemaStoredProofBundleV2 storedBundleCodecSnappy compressed)).

Definition decodeStoredProofBundle (data : bytes) : result Bun.t :=
  let plain := cborx.UnmarshalLimit data anchorstore.maxStoredObjectBytes in
  match cborx.UnmarshalLimit data anchorstore.maxStoredObjectBytes with
  | Err _ => plain
  | Ok envelope =>
      if negb (seqb (env_SchemaVersion envelope) schemaStoredProofBundleV2) then plain else
      if negb (seqb (env_Codec envelope) storedBundleCodecSnappy)
      then Err (New CodeDataLoss "unsupported proof bundle codec") else
      decodedLen ← wrap_err CodeDataLoss "decode proof bundle envelope length" (snappy_DecodedLen (env_Data envelope));
      if anchorstore.maxStoredObjectBytes <? decodedLen
      then Err (New CodeDataLoss "proof bundle envelope payload too large") else
      raw ← wrap_err CodeDataLoss "decompress proof bundle" (snappy_Decode (env_Data envelope));
      cborx.UnmarshalLimit raw anchorstore.maxStoredObjectBytes
  end.

Definition readStoredProofBundle (recordID : string) (s : Store) : result (option Bun.t) :=
  match bundles s !! recordID with
  | None => Ok None
  | Some val => bundle ← decodeStoredProofBundle val; Ok (Some bundle)
  end.

Definition GetBundle (recordID : string) (s : Store) : result Bun.t :=
  if seqb recordID "" then Err (New CodeInvalidArgument "record_id is required") else
  found ← wrap_err CodeDataLoss "read proof bundle" (readStoredProofBundle recordID s);
  match found with
  | Some bundle => Ok bundle
  | None => Err (New CodeNotFound "proof bundle not found")
  end.

Record encodedBatchArtifact := mkArtifact {
  recordID : string;
  bundleValue : bytes;
  artifact_index : Idx.t * bytes }.

Definition encodeBatchArtifact (bundle : Bun.t) : result encodedBatchArtifact :=
  value ← encodeStoredProofBundle bundle;
  idx ← recordindex.encodeRecordIndexArtifact (RecordIndexFromBundle bundle);
  Ok (mkArtifact bundle.(Bun.RecordID) value idx).

Fixpoint encodeBatchArtifacts (l : list Bun.t) : result (list encodedBatchArtifact) :=
  match l with
  | [] => Ok []
  | bundle :: rest =>
      a ← encodeBatchArtifact bundle;
      rest ← encodeBatchArtifacts rest;
      Ok (a :: rest)
  end.

Definition readManifest (batchID : string) (s : Store) : result (option Man.t) :=
  anchorstore.readCBOR (manifests s !! batchID).

(** The map of manifests that were already read only saves reads. *)
Definition ensureEncodedArtifactMutable (a : encodedBatchArtifact) (old : option Idx.t) (s : Store) : result unit :=
  if negb (hasCommittedBatch s) then Ok tt else
  match old with
  | None => Ok tt
  | Some old =>
      if seqb old.(Idx.BatchID) "" then Ok tt else
      found ← wrap_err CodeDataLoss "read existing artifact manifest" (readManifest old.(Idx.BatchID) s);
      match found with
      | None => Ok tt
      | Some manifest =>
          if negb (seqb manifest.(Man.State) BatchStateCommitted) then Ok tt else
          match bundles s !! recordID a with
          | None => Err (New CodeDataLoss "committed record index has no proof bundle")
          | Some value =>
              if bytes_equal value (bundleValue a) then Ok tt
              else Err (New CodeAlreadyExists "committed proof bundle is immutable")
          end
      end
  end.

Fixpoint ensureEach (artifacts : list encodedBatchArtifact) (s : Store) : result unit :=
  match artifacts with
  | [] => Ok tt
  | a :: rest =>
      old ← wrap_err CodeDataLoss "read existing artifact index" (recordindex.readIndex (recordID a) (index s));
      _ ← ensureEncodedArtifactMutable a old s;
      ensureEach rest s
  end.
Definition ensureEncodedArtifactsMutable (artifacts : list encodedBatchArtifact) (s : Store) : result unit :=
  if negb (hasCommittedBatch s) then Ok tt else ensureEach artifacts s.

Definition stageEncodedBatchArtifact (m : recordindex.mode) (a : encodedBatchArtifact) : list write :=
  SetBundle (recordID a) (bundleValue a) :: map SetIndex (recordindex.stageEncodedRecordIndexSetForMode m (artifact_index a)).

Definition stageEncodedMaterializedBatchArtifact (m : recordindex.mode) (a : encodedBatchArtifact) : list write :=
  let idx := (artifact_index a).1 in
  let level l := recordindex.By recordindex.ByLevel (bytes_of_string l) idx.(Idx.ReceivedAtUnixN) idx.(Idx.RecordID) in
  [SetBundle (recordID a) (bundleValue a);
   SetIndex (recordindex.Set_ (recordindex.ByID (recordID a)) (artifact_index a).2)]
  ++ (if bool_decide (m = recordindex.TimeOnly) then [] else
      [SetIndex (recordindex.Delete (level "L2"));
       SetIndex (recordindex.Set_ (level "L3") (recordindex.reference idx.(Idx.RecordID)))]).

Definition stageRoot (root : BatchRoot.t) : result (list write) :=
  data ← wrap_err CodeDataLoss "encode batch root" (cborx.Marshal root);
  Ok [SetRoot root.(BatchRoot.ClosedAtUnixN) root.(BatchRoot.BatchID) data].

Definition index_mode (s : Store) : recordindex.mode := recordindex.recordIndexMode (index s).

Definition commitBatchArtifactChunk (artifacts : list encodedBatchArtifact) (root : option BatchRoot.t) : io Store unit :=
  _ ← reads (ensureEncodedArtifactsMutable artifacts);
  m ← reads (λ s, Ok (index_mode s));
  rw ← lift (match root with Some root => stageRoot root | None => Ok [] end);
  Commit "commit batch artifacts" (concat (map (stageEncodedBatchArtifact m) artifacts) ++ rw).

Definition commitMaterializedArtifactChunk (artifacts : list encodedBatchArtifact) : io Store unit :=
  _ ← reads (ensureEncodedArtifactsMutable artifacts);
  m ← reads (λ s, Ok (index_mode s));
  Commit "commit materialized batch artifacts" (concat (map (stageEncodedMaterializedBatchArtifact m) artifacts)).

Definition chunkSize : nat := Z.to_nat recordindex.batchArtifactChunkSize.

(** The chunks in order; the last one also gets [root]. *)
Fixpoint put_chunks {A} (put : list A → option BatchRoot.t → io Store unit) (root : BatchRoot.t) (l : list (list A))
  : io Store unit :=
  match l with
  | [] => mret tt
  | [c] => put c (Some root)
  | c :: rest => _ ← put c None; put_chunks put root rest
  end.

Definition requireSuites {A} (msg : string) (any : A → modelsuite.Any) : list A → io Store unit :=
  for_each (λ a, io_wrap CodeInvalidArgument msg (requireSuite (any a))).

Definition PutBatchArtifacts (now : Z) (l : list Bun.t) (root : BatchRoot.t) : io Store unit :=
  if len l =? 0 then lift (Err (New CodeInvalidArgument "proofstore batch artifacts require at least one bundle")) else
  _ ← requireSuite (modelsuite.AnyBatchRoot root);
  _ ← requireSuites "batch bundle %d" modelsuite.AnyProofBundle l;
  root ← lift (normalizeBatchRoot now root (len l));
  put_chunks (λ c root, artifacts ← lift (encodeBatchArtifacts c); commitBatchArtifactChunk artifacts root)
    root (chunks chunkSize l).

Definition PutMaterializedBatchArtifacts (l : list Bun.t) : io Store unit :=
  if len l =? 0
  then lift (Err (New CodeInvalidArgument "proofstore materialized batch artifacts require at least one bundle")) else
  _ ← requireSuites "materialized batch bundle %d" modelsuite.AnyProofBundle l;
  for_each (λ c, artifacts ← lift (encodeBatchArtifacts c); commitMaterializedArtifactChunk artifacts) (chunks chunkSize l).

Definition putBatchIndexesAndRoot (now : Z) (indexes : list Idx.t) (root : BatchRoot.t) (replace : bool) : io Store unit :=
  if len indexes =? 0
  then lift (Err (New CodeInvalidArgument "proofstore batch indexes require at least one record index")) else
  _ ← requireSuite (modelsuite.AnyBatchRoot root);
  _ ← requireSuites "batch record index %d" modelsuite.AnyRecordIndex indexes;
  root ← lift (normalizeBatchRoot now root (len indexes));
  put_chunks (λ c root,
    encoded ← lift (recordindex.encodeAll c);
    m ← reads (λ s, Ok (index_mode s));
    rw ← lift (match root with Some root => stageRoot root | None => Ok [] end);
    Commit "commit batch indexes"
      (map SetIndex (concat (map (if replace then recordindex.stageEncodedRecordIndexSetForMode m
                                  else recordindex.stageEncodedRecordIndexSet m) encoded)) ++ rw))
    root (chunks chunkSize indexes).

Definition PutPreparedBatchIndexesAndRoot (now : Z) (indexes : list Idx.t) (root : BatchRoot.t) : io Store unit :=
  putBatchIndexesAndRoot now indexes root false.

(** ** Batch trees *)

Definition leaf_tile (snapshot : BatchTreeSnapshot.t) (createdAt : Z) (i : nat) (c : list (string * bytes)) : batchTreeLeafTile :=
  let start := Z.of_nat (i * batchTreeTileSize) in
  mkLeafTile schemaBatchTreeLeafTileV2 snapshot.(BatchTreeSnapshot.CryptoSuite) snapshot.(BatchTreeSnapshot.BatchID)
    start (imap (λ j _, start + Z.of_nat j) c) (map fst c) (map snd c) createdAt.

(** The stretches of nodes of one level. *)
Fixpoint groups (l : list BatchTreeSnapshotNode.t) : list (list BatchTreeSnapshotNode.t) :=
  match l with
  | [] => []
  | n :: rest =>
      match groups rest with
      | (m :: g) :: gs =>
          if n.(BatchTreeSnapshotNode.Level) =? m.(BatchTreeSnapshotNode.Level)
          then (n :: m :: g) :: gs else [n] :: (m :: g) :: gs
      | gs => [n] :: gs
      end
  end.

Definition node_tile (snapshot : BatchTreeSnapshot.t) (createdAt : Z) (c : list BatchTreeSnapshotNode.t) : batchTreeNodeTile :=
  let first := default BatchTreeSnapshotNode.zero (head c) in
  mkNodeTile schemaBatchTreeNodeTileV2 snapshot.(BatchTreeSnapshot.CryptoSuite) snapshot.(BatchTreeSnapshot.BatchID)
    first.(BatchTreeSnapshotNode.Level) first.(BatchTreeSnapshotNode.StartIndex)
    (map BatchTreeSnapshotNode.StartIndex c) (map BatchTreeSnapshotNode.Width c) (map BatchTreeSnapshotNode.Hash c) createdAt.

Definition node_tiles (snapshot : BatchTreeSnapshot.t) (createdAt : Z) : list batchTreeNodeTile :=
  let stored g := negb ((default BatchTreeSnapshotNode.zero (head g)).(BatchTreeSnapshotNode.Level) =? 0) in
  map (node_tile snapshot createdAt)
    (concat (map (chunks batchTreeTileSize) (List.filter stored (groups snapshot.(BatchTreeSnapshot.Nodes))))).

Fixpoint marshalAll {A} `{CborMode A} (l : list A) : result (list bytes) :=
  match l with
  | [] => Ok []
  | a :: rest => b ← cborx.Marshal a; bs ← marshalAll rest; Ok (b :: bs)
  end.

Definition putBatchTreeTiles (leaves : list batchTreeLeafTile) (nodes : list batchTreeNodeTile) : io Store unit :=
  encodedLeaves ← lift (marshalAll leaves);
  encodedNodes ← lift (marshalAll nodes);
  Commit "commit batch tree tiles"
    (zip_with (λ t v, SetLeafTile (lt_BatchID t) (lt_StartIndex t) v) leaves encodedLeaves
     ++ zip_with (λ t v, SetNodeTile (nt_BatchID t) (nt_Level t) (nt_StartIndex t) v) nodes encodedNodes).

Definition PutBatchTreeSnapshot (now : Z) (snapshot : BatchTreeSnapshot.t) : io Store unit :=
  _ ← requireSuite (modelsuite.AnyBatchTreeSnapshot snapshot);
  if seqb snapshot.(BatchTreeSnapshot.BatchID) "" || (len snapshot.(BatchTreeSnapshot.LeafHashes) =? 0)
     || negb (len snapshot.(BatchTreeSnapshot.LeafHashes) =? len snapshot.(BatchTreeSnapshot.RecordIDs))
  then lift (Err (New CodeInvalidArgument "invalid batch tree snapshot")) else
  let createdAt := pebble.default_int now snapshot.(BatchTreeSnapshot.CreatedAtUnixN) in
  putBatchTreeTiles
    (imap (leaf_tile snapshot createdAt)
       (chunks batchTreeTileSize (zip snapshot.(BatchTreeSnapshot.RecordIDs) snapshot.(BatchTreeSnapshot.LeafHashes))))
    (node_tiles snapshot createdAt).

(** ** Manifests *)

Definition GetManifest (batchID : string) (s : Store) : result Man.t :=
  if seqb batchID "" then Err (New CodeInvalidArgument "batch_id is required") else
  found ← wrap_err CodeDataLoss "read batch manifest" (readManifest batchID s);
  match found with
  | Some manifest => Ok manifest
  | None => Err (New CodeNotFound "batch manifest not found")
  end.

Definition with_schema (schema : string) (m : Man.t) : Man.t :=
  Man.mk schema m.(Man.CryptoSuite) m.(Man.BatchID) m.(Man.NodeID) m.(Man.LogID) m.(Man.State) m.(Man.TreeAlg)
    m.(Man.TreeSize) m.(Man.BatchRoot) m.(Man.RecordIDs) m.(Man.WALRange) m.(Man.ClosedAtUnixN) m.(Man.PreparingAtUnixN)
    m.(Man.PreparedAtUnixN) m.(Man.CommittedAtUnixN) m.(Man.MaterializeAttempts) m.(Man.MaterializeNextUnixN)
    m.(Man.MaterializeLastError) m.(Man.MaterializeFailureCode).

Definition fill_schema (m : Man.t) : Man.t :=
  with_schema (pebble.default_string SchemaBatchManifest m.(Man.SchemaVersion)) m.

(** The writes of a manifest over the one that is stored. *)
Definition stageManifest (old : option Man.t) (m : Man.t) (data : bytes) : list write :=
  match old with Some old => [DeleteState (manifestStateKey old)] | None => [] end
  ++ [SetManifest m.(Man.BatchID) data; SetState (manifestStateKey m) data].

Definition is_committed (m : Man.t) : bool := seqb m.(Man.State) BatchStateCommitted.

Definition PutManifest (m : Man.t) : io Store unit :=
  _ ← requireSuite (modelsuite.AnyBatchManifest m);
  if seqb m.(Man.BatchID) "" then lift (Err (New CodeInvalidArgument "batch manifest batch_id is required")) else
  if negb (ValidBatchManifestState m.(Man.State))
  then lift (Err (New CodeInvalidArgument "invalid batch manifest state")) else
  let m := fill_schema m in
  data ← lift (wrap_err CodeDataLoss "encode batch manifest" (cborx.Marshal m));
  old ← reads (λ s, wrap_err CodeDataLoss "read old batch manifest" (readManifest m.(Man.BatchID) s));
  let invalidate := is_committed m || match old with Some old => is_committed old | None => false end in
  _ ← modify (λ s, if invalidate then set_ready false s else s);
  _ ← Commit "write batch manifest"
        (stageManifest old m data
         ++ (if invalidate then [SetReady false; DeleteCheckpoint] else [])
         ++ (if is_committed m then [SetCommitted] else []));
  modify (λ s, if is_committed m then set_committed s else s).

(** ** Publication *)

Definition mismatched (m : Man.t) (i : nat) (id : string) (b : Bun.t) : bool :=
  let c := b.(Bun.CommittedReceipt) in
  negb (seqb b.(Bun.SchemaVersion) SchemaProofBundle) || negb (seqb b.(Bun.RecordID) id)
  || negb (seqb b.(Bun.ServerRecord).(ServerRecord.RecordID) id)
  || negb (seqb b.(Bun.AcceptedReceipt).(AcceptedReceipt.RecordID) id)
  || negb (seqb c.(CommittedReceipt.SchemaVersion) SchemaCommittedReceipt)
  || negb (seqb c.(CommittedReceipt.RecordID) id) || negb (seqb c.(CommittedReceipt.Status) "committed")
  || negb (seqb c.(CommittedReceipt.BatchID) m.(Man.BatchID))
  || negb (c.(CommittedReceipt.LeafIndex) =? Z.of_nat i) || negb (b.(Bun.BatchProof).(BatchProof.LeafIndex) =? Z.of_nat i)
  || negb (b.(Bun.BatchProof).(BatchProof.TreeSize) =? m.(Man.TreeSize)).

Definition idempotency_key (b : Bun.t) : string := b.(Bun.SignedClaim).(SignedClaim.Claim).(ClientClaim.IdempotencyKey).

(** The checks of the records in order, with the decisions of those that have a
    key; [seen] are the ids so far. *)
Fixpoint buildDecisions (provider : trustcrypto.Provider) (m : Man.t) (i : nat) (seen : gset string)
    (ids : list string) (l : list Bun.t) : result (list Dec.t) :=
  match ids, l with
  | id :: ids, b :: rest =>
      if seqb id "" then Err (New CodeInvalidArgument "committed manifest contains an empty record_id") else
      if decide (id ∈ seen) then Err (New CodeInvalidArgument "committed manifest contains a duplicate record_id") else
      if mismatched m i id b
      then Err (New CodeInvalidArgument "committed bundle does not match manifest record order") else
      if seqb (idempotency_key b) "" then buildDecisions provider m (S i) ({[id]} ∪ seen) ids rest else
      d ← wrap_err CodeDataLoss "build committed idempotency decision"
            (idempotency.BuildDecisionWithProvider (Some provider) m.(Man.BatchID) b.(Bun.SignedClaim)
               b.(Bun.ServerRecord) b.(Bun.AcceptedReceipt));
      ds ← buildDecisions provider m (S i) ({[id]} ∪ seen) ids rest;
      Ok (d :: ds)
  | _, _ => Ok []
  end.

(** The decisions by their storage key, in the order in which they were
    prepared; [records] are the record ids of the decisions so far. *)
Fixpoint prepareDecisions (suiteID : cryptosuite.ID) (m : Man.t) (records : gset string)
    (prepared : list (string * (Dec.t * bytes))) (ds : list Dec.t) : result (list (string * (Dec.t * bytes))) :=
  match ds with
  | [] => Ok prepared
  | d :: rest =>
      if negb (seqb d.(Dec.BatchID) m.(Man.BatchID))
      then Err (New CodeInvalidArgument "idempotency decision belongs to a different batch") else
      let id := d.(Dec.Record).(ServerRecord.RecordID) in
      if negb (bool_decide (id ∈ m.(Man.RecordIDs)))
      then Err (New CodeInvalidArgument "idempotency decision record is absent from committed manifest") else
      if decide (id ∈ records) then Err (New CodeInvalidArgument "duplicate idempotency decision record") else
      _ ← wrap_err CodeInvalidArgument "validate idempotency decision"
            (idempotency.ValidateDecisionForSuite suiteID d.(Dec.Identity) d);
      key ← wrap_err CodeInvalidArgument "derive idempotency storage key"
              (idempotency.StorageKeyForSuite suiteID d.(Dec.Identity));
      match list_find (λ p : string * (Dec.t * bytes), p.1 = key) prepared with
      | Some (_, (_, (prior, _))) =>
          if idempotency.Equivalent prior d then prepareDecisions suiteID m ({[id]} ∪ records) prepared rest
          else Err (New CodeAlreadyExists "idempotency identity has conflicting decisions")
      | None =>
          data ← wrap_err CodeDataLoss "encode idempotency decision" (cborx.Marshal d);
          prepareDecisions suiteID m ({[id]} ∪ records) (prepared ++ [(key, (d, data))]) rest
      end
  end.

(** [reflect.DeepEqual] of what is stored and what is published. *)
Fixpoint checkPersisted (l : list Bun.t) (s : Store) : result unit :=
  match l with
  | [] => Ok tt
  | b :: rest =>
      persisted ← wrap_err CodeDataLoss "read committed bundle before publication" (GetBundle b.(Bun.RecordID) s);
      if bool_decide (persisted = b) then checkPersisted rest s
      else Err (New CodeDataLoss "persisted bundle differs from committed publication")
  end.

Fixpoint checkExistingDecisions (prepared : list (string * (Dec.t * bytes))) (s : Store) : result unit :=
  match prepared with
  | [] => Ok tt
  | (key, (d, _)) :: rest =>
      found ← wrap_err CodeDataLoss "read existing idempotency decision" (anchorstore.readCBOR (decisions s !! key));
      match found with
      | Some existing =>
          if idempotency.Equivalent existing d then checkExistingDecisions rest s
          else Err (New CodeAlreadyExists "idempotency identity already has a different committed decision")
      | None => checkExistingDecisions rest s
      end
  end.

(** A committed manifest may only be published again unchanged. *)
Definition checkOldManifest (old : option Man.t) (data : bytes) : result unit :=
  match old with
  | Some old =>
      if negb (is_committed old) then Ok tt else
      oldData ← wrap_err CodeDataLoss "encode old committed manifest" (cborx.Marshal old);
      if bytes_equal oldData data then Ok tt
      else Err (New CodeAlreadyExists "committed batch manifest already exists with different contents")
  | None => Ok tt
  end.

Definition PublishCommittedBatch (m : Man.t) (l : list Bun.t) : io Store (list Dec.t) :=
  if seqb m.(Man.BatchID) "" || negb (is_committed m)
  then lift (Err (New CodeInvalidArgument "a committed batch manifest is required")) else
  let m := fill_schema m in
  _ ← requireSuite (modelsuite.AnyBatchManifest m);
  _ ← requireSuites "committed bundle %d" modelsuite.AnyProofBundle l;
  provider ← reads (λ s, wrap_err CodeFailedPrecondition "create idempotency crypto provider"
                           (trustcrypto.ProviderForSuite (CryptoSuite s)));
  data ← lift (wrap_err CodeDataLoss "encode committed batch manifest" (cborx.Marshal m));
  if negb (len l =? len m.(Man.RecordIDs))
  then lift (Err (New CodeInvalidArgument "committed manifest and bundle counts differ")) else
  ds ← lift (buildDecisions provider m 0 ∅ m.(Man.RecordIDs) l);
  prepared ← reads (λ s, prepareDecisions (CryptoSuite s) m ∅ [] ds);
  ready ← reads (λ s, Ok (idempotencyReady s));
  if negb ready then lift (Err (New CodeFailedPrecondition "idempotency projection is not ready")) else
  _ ← reads (checkPersisted l);
  _ ← reads (checkExistingDecisions prepared);
  old ← reads (λ s, wrap_err CodeDataLoss "read old batch manifest" (readManifest m.(Man.BatchID) s));
  _ ← lift (checkOldManifest old data);
  _ ← Commit "commit manifest and idempotency decisions"
        (stageManifest old m data ++ map (λ p, SetDecision p.1 p.2.2) prepared ++ [SetCommitted]);
  _ ← modify set_committed;
  mret ds.

Definition GetIdempotencyDecision (identity : IdempotencyIdentity.t) (s : Store) : result (option Dec.t) :=
  if seqb identity.(IdempotencyIdentity.TenantID) "" || seqb identity.(IdempotencyIdentity.ClientID) ""
     || seqb identity.(IdempotencyIdentity.IdempotencyKey) ""
  then Err (New CodeInvalidArgument "idempotency identity is incomplete") else
  if negb (idempotencyReady s) then Err (New CodeFailedPrecondition "idempotency projection is not ready") else
  key ← wrap_err CodeDataLoss "derive idempotency decision key"
          (idempotency.StorageKeyForSuite (CryptoSuite s) identity);
  found ← wrap_err CodeDataLoss "read idempotency decision" (anchorstore.readCBOR (decisions s !! key));
  match found with
  | None => Ok None
  | Some d =>
      _ ← wrap_err CodeDataLoss "validate stored idempotency decision"
            (idempotency.ValidateDecisionForSuite (CryptoSuite s) identity d);
      Ok (Some d)
  end.

(** ** The WAL checkpoint *)

Definition fill_checkpoint (now : Z) (cp : WCp.t) : WCp.t :=
  WCp.mk (pebble.default_string SchemaWALCheckpoint cp.(WCp.SchemaVersion)) cp.(WCp.CryptoSuite) cp.(WCp.NodeID)
    cp.(WCp.WALID) cp.(WCp.SegmentID) cp.(WCp.LastSequence) cp.(WCp.LastOffset) cp.(WCp.BatchID)
    (pebble.default_int now cp.(WCp.RecordedAtUnixN)).

Definition PutCheckpoint (now : Z) (cp : WCp.t) : io Store unit :=
  _ ← requireSuite (modelsuite.AnyWALCheckpoint cp);
  let cp := fill_checkpoint now cp in
  ready ← reads (λ s, Ok (idempotencyReady s));
  if negb ready
  then lift (Err (New CodeFailedPrecondition "cannot persist wal checkpoint before idempotency projection is ready")) else
  data ← lift (wrap_err CodeDataLoss "write wal checkpoint" (cborx.Marshal cp));
  Commit "write wal checkpoint" [SetCheckpoint data].

Definition GetCheckpoint (s : Store) : result (option WCp.t) :=
  wrap_err CodeDataLoss "read wal checkpoint" (anchorstore.readCBOR (checkpoint s)).

(** Runs [prune] only for the checkpoint that is stored; whether it ran. *)
Definition WithWALCheckpointPruneGuard (expected : WCp.t) (prune : io Store unit) : io Store bool :=
  ready ← reads (λ s, Ok (idempotencyReady s));
  if negb ready then mret false else
  current ← reads (λ s, wrap_err CodeDataLoss "read guarded wal checkpoint" (anchorstore.readCBOR (checkpoint s)));
  if negb (bool_decide (current = Some expected)) then mret false else
  _ ← prune; mret true.

End store.
End batchstore.
