(* ===== verification/BatchStoreProofs.v ===== *)
(** * What the batch tables keep

    Stored bundles are read back; the stored checkpoint is the interface that
    the checkpoint service relies on; and what a committed manifest promises
    stays true: its bundles and decisions are there and do not change. *)

From stdpp Require Import sorting.
From S2P Require Import Prelude TrustErr CryptoSuite Model TrustCrypto Cborx KeyDescriptor ModelSuite.
From S2P Require Import StoreMonad GlobalStore AnchorSchedule AnchorStore AnchorStoreProofs RecordSearch RecordIndex RecordIndexOps.
From S2P Require Import Merkle Claim Receipt Wal WalDir WalQueue Idempotency IdemIndex App BatchCheckpoint BatchStore.

(** A bundle that is decoded as an envelope has the schema version of the
    bundle: the decoder fills the fields that both have by name. *)
Class BundleEnvelope `{CborMode Bun.t, CborMode batchstore.storedProofBundleEnvelope} :=
  envelope_schema : ∀ (b : Bun.t) v (env : batchstore.storedProofBundleEnvelope),
    encMode_Marshal b = Ok v → decMode_Unmarshal v = Ok env → batchstore.env_SchemaVersion env = b.(Bun.SchemaVersion).

Module batchstore_proofs.
Import batchstore.
Import anchorstore_proofs (encodes, readCBOR_exact).
Import recordlevels (each).

Section proofs.
Context `{HashLib, KeyDescriptorLib, UnicodeLib, SnappyLib}.
Context `{CborMode ClientClaim.t, CborMode claim.framing}.
Context `{CborMode Bun.t, CborMode storedProofBundleEnvelope, CborMode Idx.t, CborMode BatchRoot.t, CborMode Man.t}.
Context `{CborMode Dec.t, CborMode batchTreeLeafTile, CborMode batchTreeNodeTile, CborMode WCp.t}.

(** ** Stored bundles *)

Section roundtrip.
Context `{!SnappyLaws, CborText Bun.t, CborText storedProofBundleEnvelope}.
Context `{!CborModeRoundTrip Bun.t, !CborModeRoundTrip storedProofBundleEnvelope, !BundleEnvelope}.

Lemma unmarshal_envelope (b : Bun.t) v (env : storedProofBundleEnvelope) n :
  cborx.Marshal b = Ok v → cborx.UnmarshalLimit v n = Ok env → env_SchemaVersion env = b.(Bun.SchemaVersion).
Proof.
  rewrite cborx.Marshal_Ok. unfold cborx.UnmarshalLimit. intros Ev. repeat (case_match; [done|]). rewrite errorf_Ok.
  by apply envelope_schema.
Qed.

(** C12: a stored bundle is read back, whether it was compressed or not: for a
    bundle whose strings are UTF-8, whose schema version is not that of the
    envelope and whose encodings fit the limit of stored objects, decoding what [encodeStoredProofBundle] stores gives the bundle. *)
Theorem stored_bundle_roundtrip b value :
  encodeStoredProofBundle b = Ok value → text_valid b = true →
  (∀ data, text_valid (mkEnvelope schemaStoredProofBundleV2 storedBundleCodecSnappy data) = true) →
  b.(Bun.SchemaVersion) ≠ schemaStoredProofBundleV2 →
  (∀ raw, cborx.Marshal b = Ok raw → 0 < len raw <= anchorstore.maxStoredObjectBytes) →
  0 < len value <= anchorstore.maxStoredObjectBytes →
  decodeStoredProofBundle value = Ok b.
Proof.
  unfold encodeStoredProofBundle. destruct (seqb _ ""); [done|].
  intros (raw & Er%wrap_err_Ok & E)%bind_Ok Ht Hte Hs Hl Hv. specialize (Hl raw Er).
  assert (decodeStoredProofBundle raw = Ok b) as Hraw.
  { unfold decodeStoredProofBundle.
    assert (cborx.UnmarshalLimit raw anchorstore.maxStoredObjectBytes = Ok b) as -> by (by apply cborx.Unmarshal_Marshal).
    destruct (cborx.UnmarshalLimit raw _) as [env|e] eqn:Ee; [|done].
    by rewrite (unmarshal_envelope b raw env _ Er Ee), (proj2 (seqb_false _ _) Hs). }
  destruct (_ <? bundleCompressionMinBytes); [by injection E as <-|].
  destruct (_ <=? _); [by injection E as <-|]. apply wrap_err_Ok in E.
  unfold decodeStoredProofBundle. erewrite (cborx.Unmarshal_Marshal (A := storedProofBundleEnvelope)); [|exact E|apply Hte|done].
  cbn [env_SchemaVersion env_Codec env_Data]. rewrite !seqb_refl. cbn [negb]. rewrite snappy_len, snappy_roundtrip. cbn.
  destruct (_ <? _) eqn:El; bsimpl; [lia|]. by apply cborx.Unmarshal_Marshal.
Qed.
End roundtrip.

(** ** The checkpoint *)

Context `{!CborModeExact WCp.t, !CborModeExact Man.t, !CborModeExact Idx.t, !CborModeExact Dec.t}.

#[export] Instance pebble_checkpoints : CheckpointStore Store :=
  { GetCheckpoint := batchstore.GetCheckpoint; PutCheckpoint := batchstore.PutCheckpoint }.

Lemma put_checkpoint_cases now cp s s' r :
  batchstore.PutCheckpoint now cp s = (s', r) →
  (checkpoint s' = checkpoint s ∧ r ≠ Ok tt) ∨ ∃ data, checkpoint s' = Some data ∧ encodes data (fill_checkpoint now cp).
Proof.
  assert (post (batchstore.PutCheckpoint now cp) s (λ r s',
    (checkpoint s' = checkpoint s ∧ r ≠ Ok tt) ∨ ∃ data, checkpoint s' = Some data ∧ encodes data (fill_checkpoint now cp))) as Hp;
    [|intros E; exact (post_intro _ _ _ Hp _ _ E)].
  unfold batchstore.PutCheckpoint, requireSuite. io_step; [by left|]. io_step; [by left|]. io_step; [io_step; by left|].
  io_step; [by left|]. match goal with E : wrap_err _ _ _ = Ok ?d |- _ => rename d into data; apply wrap_err_Ok in E as Ed end.
  unfold post, Commit. destruct s as [? ? ? ? ? ? ? ? ? ? ? ? ? dk n al]. cbn. destruct al; cbn; [|by left].
  destruct (dk n); cbn; [right; eauto|left; done|left; done|right; eauto].
Qed.

Lemma fill_recorded now cp : cp.(WCp.SchemaVersion) ≠ "" → ∃ t, fill_checkpoint now cp = recorded_at t cp.
Proof.
  intros Hs. unfold fill_checkpoint, recorded_at, pebble.default_string. rewrite (proj2 (seqb_false _ _) Hs). by eexists.
Qed.

Lemma get_written data now cp (s : Store) found :
  checkpoint s = Some data → encodes data (fill_checkpoint now cp) → cp.(WCp.SchemaVersion) ≠ "" →
  batchstore.GetCheckpoint s = Ok found → ∃ t, found = Some (recorded_at t cp).
Proof.
  intros Hc He Hs Hg. unfold batchstore.GetCheckpoint in Hg. apply wrap_err_Ok, readCBOR_exact in Hg. rewrite Hc in Hg.
  destruct found as [cp'|]; [|done]. destruct Hg as (b & [= <-] & Ha). destruct (fill_recorded now cp Hs) as [t Et].
  exists t. by rewrite (Ha _ He), Et.
Qed.

#[export] Instance pebble_checkpoint_laws : CheckpointStoreLaws Store.
Proof.
  split.
  - intros now cp s s' found Ep Hs Hg. destruct (put_checkpoint_cases _ _ _ _ _ Ep) as [[_ []]|(data & Hc & He)]; [done|].
    by eapply get_written.
  - intros now cp s s' e Ep Hs. destruct (put_checkpoint_cases _ _ _ _ _ Ep) as [[Hc _]|(data & Hc & He)].
    + left. change (batchstore.GetCheckpoint s' = batchstore.GetCheckpoint s). unfold batchstore.GetCheckpoint. by rewrite Hc.
    + right. intros found Hg. by eapply get_written.
Qed.
End proofs.
End batchstore_proofs.

(** * What a committed manifest promises

    The invariant of the batch tables: every committed manifest has all its
    bundles, with the indexes and the decisions that belong to them.  Every
    operation keeps it, also when the disk fails or the process crashes on the
    way, and none changes the bundles of a committed batch. *)

Module batchstore_ops.
Import batchstore.
Import anchorstore_proofs (encodes, readCBOR_exact).
Import recordlevels (each).

Section ops.
Context `{HashLib, KeyDescriptorLib, UnicodeLib, SnappyLib}.
Context `{CborMode ClientClaim.t, CborMode claim.framing}.
Context `{CborMode Bun.t, CborMode storedProofBundleEnvelope, CborMode Idx.t, CborMode BatchRoot.t, CborMode Man.t}.
Context `{CborMode Dec.t, CborMode batchTreeLeafTile, CborMode batchTreeNodeTile, CborMode WCp.t}.
Context `{!CborModeExact WCp.t, !CborModeExact Man.t, !CborModeExact Idx.t, !CborModeExact Dec.t}.

Context `{!CborModeInjective Man.t}.

Notation entries s := (recordindex.entries (index s)).

(** ** Writes *)

Definition bundle_write (w : write) : option (string * bytes) := match w with SetBundle id v => Some (id, v) | _ => None end.
Definition index_write (w : write) : option recordindex.write := match w with SetIndex w => Some w | _ => None end.
Definition manifest_write (w : write) : option (string * bytes) := match w with SetManifest b v => Some (b, v) | _ => None end.
Definition decision_write (w : write) : option (string * bytes) := match w with SetDecision k v => Some (k, v) | _ => None end.

Definition insert_all {A} (l : list (string * A)) (m : gmap string A) : gmap string A :=
  foldl (λ m p, <[p.1 := p.2]> m) m l.

Lemma insert_all_other {A} (l : list (string * A)) m k : k ∉ map fst l → insert_all l m !! k = m !! k.
Proof.
  revert m. induction l as [|[x v] l IH]; intros m Hk; [done|]. cbn in *. apply not_elem_of_cons in Hk as [? ?].
  unfold insert_all in *. cbn. rewrite IH by done. by rewrite lookup_insert_ne.
Qed.

Lemma insert_all_Some {A} (l : list (string * A)) m k v :
  insert_all l m !! k = Some v → (k, v) ∈ l ∨ k ∉ map fst l ∧ m !! k = Some v.
Proof.
  revert m. induction l as [|[x y] l IH]; intros m E; [right; split; [apply not_elem_of_nil|done]|].
  unfold insert_all in E. cbn in E. apply IH in E as [E|[Hn E]]; [left; by right|].
  destruct (decide (k = x)) as [->|Hne].
  - rewrite lookup_insert_eq in E. injection E as <-. left. left.
  - rewrite lookup_insert_ne in E by done. right. cbn. rewrite not_elem_of_cons. done.
Qed.

(** Keys that only get the value they have. *)
Lemma insert_all_same {A} (l : list (string * A)) m k v :
  m !! k = Some v → (∀ v', (k, v') ∈ l → v' = v) → insert_all l m !! k = Some v.
Proof.
  revert m. induction l as [|[x y] l IH]; intros m Hm Hl; [done|]. unfold insert_all. cbn. apply IH.
  - destruct (decide (k = x)) as [->|]; [rewrite lookup_insert_eq|by rewrite lookup_insert_ne]. f_equal. apply Hl. left.
  - intros v' Hv. apply Hl. by right.
Qed.

Lemma insert_all_unique {A} (l : list (string * A)) m k v :
  NoDup (map fst l) → (k, v) ∈ l → insert_all l m !! k = Some v.
Proof.
  revert m. induction l as [|[x y] l IH]; intros m Hd Hv; [by apply elem_of_nil in Hv|]. cbn in Hd.
  apply NoDup_cons in Hd as [Hn Hd]. unfold insert_all. cbn. apply elem_of_cons in Hv as [[= -> ->]|Hv]; [|by apply IH].
  change (insert_all l (<[x:=y]> m) !! x = Some y). by rewrite insert_all_other, lookup_insert_eq.
Qed.

Lemma bundles_apply s ws : bundles (foldl apply s ws) = insert_all (omap bundle_write ws) (bundles s).
Proof. revert s. induction ws as [|w ws IH]; intros s; [done|]. cbn. rewrite IH. by destruct s, w. Qed.
Lemma entries_apply s ws : entries (foldl apply s ws) = foldl recordindex.apply (entries s) (omap index_write ws).
Proof. revert s. induction ws as [|w ws IH]; intros s; [done|]. cbn. rewrite IH. by destruct s, w. Qed.
Lemma manifests_apply s ws : manifests (foldl apply s ws) = insert_all (omap manifest_write ws) (manifests s).
Proof. revert s. induction ws as [|w ws IH]; intros s; [done|]. cbn. rewrite IH. by destruct s, w. Qed.
Lemma decisions_apply s ws : decisions (foldl apply s ws) = insert_all (omap decision_write ws) (decisions s).
Proof. revert s. induction ws as [|w ws IH]; intros s; [done|]. cbn. rewrite IH. by destruct s, w. Qed.
Lemma marker_apply s ws : committedMarker s = true ∨ SetCommitted ∈ ws → committedMarker (foldl apply s ws) = true.
Proof.
  revert s. induction ws as [|w ws IH]; intros s; [intros [?|Hn]; [done|by apply not_elem_of_nil in Hn]|].
  cbn. rewrite elem_of_cons. intros [Hs|[<-|Hs]]; apply IH; [left; by destruct s, w|left; by destruct s|by right].
Qed.
Lemma flags_apply s ws : hasCommittedBatch (foldl apply s ws) = hasCommittedBatch s ∧ alive (foldl apply s ws) = alive s ∧
  index_mode (foldl apply s ws) = index_mode s ∧ base (foldl apply s ws) = base s ∧
  idempotencyReady (foldl apply s ws) = idempotencyReady s.
Proof.
  revert s. induction ws as [|w ws IH]; intros s; [done|]. cbn. destruct (IH (apply s w)) as (-> & -> & -> & -> & ->).
  destruct s as [[] ? ? ? ? ? ? ? ? ? ? ? ? ? ? ?], w; cbn; by split_and!.
Qed.

(** ** The invariant *)

(** The manifest that is stored for [b] has the records [ids]; one of them is [id]. *)
Definition has (s : Store) (b : string) (ids : list string) : Prop :=
  ∃ v m, manifests s !! b = Some v ∧ encodes v m ∧ m.(Man.RecordIDs) = ids.
Definition home (s : Store) (id b : string) : Prop := ∃ ids, has s b ids ∧ id ∈ ids.

(** The decision of a bundle with an idempotency key is stored. *)
Definition decided (s : Store) (batchID : string) (b : Bun.t) : Prop :=
  idempotency_key b ≠ "" → ∃ provider d key v,
    trustcrypto.ProviderForSuite (CryptoSuite s) = Ok provider ∧
    idempotency.BuildDecisionWithProvider (Some provider) batchID b.(Bun.SignedClaim) b.(Bun.ServerRecord)
      b.(Bun.AcceptedReceipt) = Ok d ∧
    idempotency.StorageKeyForSuite (CryptoSuite s) d.(Dec.Identity) = Ok key ∧ decisions s !! key = Some v ∧ encodes v d.

Definition batch_ok (s : Store) (m : Man.t) : Prop :=
  ∀ i id, m.(Man.RecordIDs) !! i = Some id →
    ∃ b, GetBundle id s = Ok b ∧ mismatched m i id b = false ∧ decided s m.(Man.BatchID) b.

(** [m] is the stored manifest of its batch. *)
Definition committed (s : Store) (m : Man.t) : Prop :=
  ∃ v, manifests s !! m.(Man.BatchID) = Some v ∧ encodes v m ∧ is_committed m = true.

Definition at_home (s : Store) (idx : Idx.t) : Prop := home s idx.(Idx.RecordID) idx.(Idx.BatchID).

Record tables (s : Store) : Prop := {
  in_manifest b v : manifests s !! b = Some v → ∃ m, encodes v m ∧ m.(Man.BatchID) = b ∧ b ≠ "";
  in_one id b b' : home s id b → home s id b' → b = b';
  in_committed m : committed s m → batch_ok s m ∧ committedMarker s = true;
  in_index : each (at_home s) (entries s);
  in_bundle id : is_Some (bundles s !! id) → is_Some (entries s !! recordindex.ByID id);
  in_decision k v : decisions s !! k = Some v → ∃ d : Dec.t, encodes v d }.

Definition flagged (s : Store) : Prop := alive s = true → committedMarker s = true → hasCommittedBatch s = true.
Definition inv (s : Store) : Prop := tables s ∧ flagged s.

(** What an operation leaves of the committed batches. *)
Record keeps (s s' : Store) : Prop := {
  kept_suite : CryptoSuite s' = CryptoSuite s;
  kept_has b ids : has s b ids → has s' b ids;
  kept_manifest m : committed s m → manifests s' !! m.(Man.BatchID) = manifests s !! m.(Man.BatchID);
  kept_bundle m id : committed s m → id ∈ m.(Man.RecordIDs) → bundles s' !! id = bundles s !! id;
  kept_decision k v : decisions s !! k = Some v → decisions s' !! k = Some v }.

Lemma kept_home s s' : keeps s s' → ∀ id b, home s id b → home s' id b.
Proof. intros K id b (ids & ? & ?). exists ids. split; [by apply (kept_has _ _ K)|done]. Qed.

Lemma GetBundle_same s s' id : bundles s' !! id = bundles s !! id → GetBundle id s' = GetBundle id s.
Proof. unfold GetBundle, readStoredProofBundle. by intros ->. Qed.
Lemma GetManifest_same s s' b : manifests s' !! b = manifests s !! b → GetManifest b s' = GetManifest b s.
Proof. unfold GetManifest, readManifest. by intros ->. Qed.

Lemma GetManifest_found b s m : GetManifest b s = Ok m → b ≠ "" ∧ readManifest b s = Ok (Some m).
Proof.
  unfold GetManifest. destruct (seqb b "") eqn:Eb; [done|]. intros (r & Er%wrap_err_Ok & E)%bind_Ok.
  destruct r; simplify_eq. by apply seqb_false in Eb.
Qed.

Lemma encodes_inj v (m m' : Man.t) : encodes v m → encodes v m' → m = m'.
Proof. unfold encodes. rewrite !cborx.Marshal_Ok. apply encMode_injective. Qed.

(** What is read is what is stored. *)
Lemma readManifest_stored s b m :
  tables s → readManifest b s = Ok (Some m) → ∃ v, manifests s !! b = Some v ∧ encodes v m ∧ m.(Man.BatchID) = b ∧ b ≠ "".
Proof.
  intros T Hr. pose proof (readCBOR_exact _ _ Hr) as (v & Hv & Hx). destruct (in_manifest _ T _ _ Hv) as (y & Hy & Ey & Hb).
  exists v. rewrite (Hx _ Hy). by split_and!.
Qed.

Lemma committed_read s m x : committed s m → readManifest m.(Man.BatchID) s = Ok x → x = Some m.
Proof.
  intros (v & Hv & He & _) Hr. apply readCBOR_exact in Hr. rewrite Hv in Hr. destruct x as [x|]; [|done].
  destruct Hr as (v' & [= <-] & Hx). by rewrite (Hx _ He).
Qed.

Lemma reads_committed s b m : tables s → GetManifest b s = Ok m → is_committed m = true → m.(Man.BatchID) = b ∧ committed s m.
Proof.
  intros T [_ (v & Hv & He & Eb & _)%(readManifest_stored _ _ _ T)]%GetManifest_found Hc. split; [done|].
  exists v. by rewrite Eb.
Qed.

Lemma committed_home s m id : committed s m → id ∈ m.(Man.RecordIDs) → home s id m.(Man.BatchID).
Proof. intros (v & ? & ? & _) Hid. exists m.(Man.RecordIDs). split; [by exists v, m|done]. Qed.

Lemma keeps_committed s s' m : keeps s s' → committed s m → committed s' m.
Proof. intros K Hm. pose proof Hm as (v & Hv & ? & ?). exists v. by rewrite (kept_manifest _ _ K m Hm). Qed.
Lemma batch_keeps_refl s : keeps s s.
Proof. done. Qed.
Lemma batch_keeps_trans s1 s2 s3 : keeps s1 s2 → keeps s2 s3 → keeps s1 s3.
Proof.
  intros K1 K2. pose proof (λ m, keeps_committed s1 s2 m K1) as Hc. constructor.
  - by rewrite (kept_suite _ _ K2), (kept_suite _ _ K1).
  - intros b ids Hh. by apply (kept_has _ _ K2), (kept_has _ _ K1).
  - intros m Hm. by rewrite (kept_manifest _ _ K2), (kept_manifest _ _ K1) by auto.
  - intros m id Hm Hi. by rewrite (kept_bundle _ _ K2 m), (kept_bundle _ _ K1 m) by auto.
  - intros k v Hv. by apply (kept_decision _ _ K2), (kept_decision _ _ K1).
Qed.

Lemma keeps_decided s s' b x : keeps s s' → decided s b x → decided s' b x.
Proof.
  intros K Hdec Hk. destruct (Hdec Hk) as (p & d & key & v & ? & ? & ? & ? & ?). exists p, d, key, v.
  rewrite (kept_suite _ _ K). split_and!; [done..|by apply (kept_decision _ _ K)|done].
Qed.
Lemma keeps_batch_ok s s' m : keeps s s' → committed s m → batch_ok s m → batch_ok s' m.
Proof.
  intros K Hc Hm i id Hi. destruct (Hm i id Hi) as (b & Hg & Hmis & Hdec). exists b.
  split_and!; [|done|by eapply keeps_decided]. rewrite <- Hg. apply GetBundle_same, (kept_bundle _ _ K m); [done|].
  by eapply list_elem_of_lookup_2.
Qed.

(** Operations that leave these tables alone. *)
Record same (s s' : Store) : Prop := {
  same_bundles : bundles s' = bundles s;
  same_manifests : manifests s' = manifests s;
  same_decisions : decisions s' = decisions s;
  same_entries : entries s' = entries s;
  same_marker : committedMarker s' = committedMarker s;
  same_suite : CryptoSuite s' = CryptoSuite s }.

Lemma has_same s s' b ids : manifests s' = manifests s → has s' b ids ↔ has s b ids.
Proof. unfold has. by intros ->. Qed.
Lemma home_same s s' id b : manifests s' = manifests s → home s' id b ↔ home s id b.
Proof. unfold home. intros Hm. by setoid_rewrite (has_same s s'). Qed.
Lemma committed_same s s' m : manifests s' = manifests s → committed s' m ↔ committed s m.
Proof. unfold committed. by intros ->. Qed.
Lemma each_at_home s s' es : manifests s' = manifests s → each (at_home s) es → each (at_home s') es.
Proof. intros Hm. apply recordlevels.each_mono. intros idx. unfold at_home. by rewrite home_same. Qed.

Lemma same_keeps s s' : same s s' → keeps s s'.
Proof.
  intros [Hb Hm Hd _ _ Hc]. constructor; [done| |by rewrite Hm|by rewrite Hb|by rewrite Hd].
  intros b ids. by rewrite has_same.
Qed.
Lemma same_tables s s' : same s s' → tables s → tables s'.
Proof.
  intros S T. pose proof (same_keeps _ _ S) as K. destruct S as [Hb Hm Hd He Hk Hc].
  constructor; rewrite ?Hm, ?He, ?Hb, ?Hd; try apply T.
  - intros id b b'. rewrite !(home_same s s') by done. apply T.
  - intros m Hcm%(committed_same s s'); [|done]. destruct (in_committed _ T m Hcm). rewrite Hk.
    split; [by eapply keeps_batch_ok|done].
  - eapply each_at_home; [exact Hm|apply T].
Qed.

Lemma same_tick s live : same s (tick live s).
Proof. by destruct s. Qed.
Lemma same_flags s r h : same s (set_flags r h s).
Proof. by destruct s. Qed.
Lemma same_open s : same s (Open s).
Proof. by destruct s. Qed.

(** A new process finds the invariant. *)
Lemma open_inv s : tables s → inv (Open s).
Proof. intros T. split; [eapply same_tables, T; apply same_open|]. unfold flagged. by destruct s; cbn. Qed.

(** ** Commits *)

(** What is to be shown of the writes of a commit. *)
Definition advances (s s' : Store) : Prop := tables s' ∧ keeps s s'.

Lemma advances_refl s : tables s → advances s s.
Proof. by split. Qed.
Lemma advances_trans s1 s2 s3 : advances s1 s2 → advances s2 s3 → advances s1 s3.
Proof. intros [_ K1] [T K2]. split; [done|by eapply batch_keeps_trans]. Qed.
Lemma advances_same s s' : tables s → same s s' → advances s s'.
Proof. intros T S. split; [by eapply same_tables|by apply same_keeps]. Qed.

Lemma marker_before s ws : SetCommitted ∉ ws → committedMarker (foldl apply s ws) = committedMarker s.
Proof.
  revert s. induction ws as [|w ws IH]; intros s Hn; [done|]. apply not_elem_of_cons in Hn as [? ?]. cbn.
  rewrite IH by done. by destruct s, w.
Qed.

Lemma tick_flags live s : hasCommittedBatch (tick live s) = hasCommittedBatch s ∧
  committedMarker (tick live s) = committedMarker s ∧ alive (tick live s) = live.
Proof. by destruct s. Qed.

Lemma commit_rule msg ws s :
  inv s → (alive s = true → advances s (foldl apply s ws)) →
  post (Commit msg ws) s (λ r s', advances s s' ∧ (SetCommitted ∉ ws ∨ r ≠ Ok tt → flagged s')).
Proof.
  intros [T F] Hw. unfold post, Commit. destruct (alive s) eqn:El; cbn; [|split; [by apply advances_refl|]; intros _ El'; congruence].
  specialize (Hw eq_refl). destruct (flags_apply s ws) as (Eh & Ea & _). set (x := foldl apply s ws) in *.
  assert (∀ y live, tables y → advances y (tick live y)) as Ht by (intros; apply advances_same; [done|apply same_tick]).
  destruct (disk s (commits s)); cbn.
  - split; [eapply advances_trans; [exact Hw|apply Ht, Hw]|]. intros [Hn|]; [|done]. apply (marker_before s) in Hn. fold x in Hn.
    unfold flagged. destruct (tick_flags true x) as (-> & -> & _). rewrite Eh, Hn. by intros _; apply F.
  - split; [by apply Ht|]. intros _. unfold flagged. destruct (tick_flags true s) as (-> & -> & _). by intros _; apply F.
  - split; [by apply Ht|]. intros _. unfold flagged. by destruct (tick_flags false s) as (_ & _ & ->).
  - split; [eapply advances_trans; [exact Hw|apply Ht, Hw]|]. intros _. unfold flagged. by destruct (tick_flags false x) as (_ & _ & ->).
Qed.

(** The rule for operations, and how they compose. *)
#[export] Instance keeps_preorder : PreOrder keeps.
Proof. split; [exact batch_keeps_refl|exact batch_keeps_trans]. Qed.

Definition safe {A} (m : io Store A) (s : Store) : Prop := steps inv keeps m s.

Lemma safe_commit msg ws s :
  SetCommitted ∉ ws → (alive s = true → inv s → advances s (foldl apply s ws)) → safe (Commit msg ws) s.
Proof.
  intros Hn Hw I. eapply post_mono; [apply commit_rule; [done|by intros; apply Hw]|]. intros r s' [[T K] F].
  split; [split; [done|]|done]. auto.
Qed.
Lemma safe_put_chunks {A} (put : list A → option BatchRoot.t → io Store unit) root l s :
  (∀ c r s', c ∈ l → keeps s s' → safe (put c r) s') → safe (put_chunks put root l) s.
Proof.
  revert s. induction l as [|c [|c' l] IH]; intros s Hk; [apply steps_ret|apply Hk; [left|done]|].
  change (safe (_ ← put c None; put_chunks put root (c' :: l)) s). apply steps_bind; [apply Hk; [left|done]|].
  intros [] s' _ K. apply IH. intros; apply Hk; [by right|by eapply batch_keeps_trans].
Qed.
Lemma safe_suites {A} msg (any : A → modelsuite.Any) l s : safe (requireSuites msg any l) s.
Proof. apply steps_for_each. intros. apply steps_wrap, steps_reads. Qed.
End ops.
End batchstore_ops.
