(* ===== verification/BatchCommitted.v ===== *)
(** * Committed batches stay

    Every operation of the batch tables keeps what the committed manifests
    promise, also when the disk fails or the process crashes on the way. *)

From stdpp Require Import sorting.
From S2P Require Import Prelude TrustErr CryptoSuite Model TrustCrypto Cborx KeyDescriptor ModelSuite.
From S2P Require Import StoreMonad GlobalStore AnchorSchedule AnchorStore AnchorStoreProofs RecordSearch RecordIndex RecordIndexOps.
From S2P Require Import Merkle Claim Receipt Wal WalDir WalQueue Idempotency IdemIndex App BatchCheckpoint BatchStore BatchStoreProofs.

Module batch_committed.
Import batchstore batchstore_ops.
Import anchorstore_proofs (encodes, readCBOR_exact).
Import recordlevels (each).

Section committed.
Context `{HashLib, KeyDescriptorLib, UnicodeLib, SnappyLib}.
Context `{CborMode ClientClaim.t, CborMode claim.framing}.
Context `{CborMode Bun.t, CborMode storedProofBundleEnvelope, CborMode Idx.t, CborMode BatchRoot.t, CborMode Man.t}.
Context `{CborMode Dec.t, CborMode batchTreeLeafTile, CborMode batchTreeNodeTile, CborMode WCp.t}.
Context `{!CborModeExact WCp.t, !CborModeExact Man.t, !CborModeExact Idx.t, !CborModeExact Dec.t}.
Context `{!CborModeInjective Man.t}.

Notation entries s := (recordindex.entries (index s)).

(** ** The record index *)

(** Writes that store one record under its id and leave the other ids. *)
Definition sets_id (ws : list recordindex.write) (p : Idx.t * bytes) : Prop :=
  ∀ es id, foldl recordindex.apply es ws !! recordindex.ByID id =
    if decide (id = p.1.(Idx.RecordID)) then Some p.2 else es !! recordindex.ByID id.

Lemma sets_write ws p m : (∀ es, recordindex_proofs.record_write m es ws p.1 p.2) → sets_id ws p.
Proof.
  intros R es id. case_decide as Hid; [subst id; apply (recordindex_proofs.rw_id _ _ _ _ _ (R es))|].
  by eapply recordindex_proofs.write_other; [apply R|].
Qed.

Definition artifact_ok (P : Idx.t → Prop) (p : Idx.t * bytes) : Prop := encodes p.2 p.1 ∧ P p.1.

Lemma each_sets P es wss ps :
  each P es → Forall2 sets_id wss ps → Forall (artifact_ok P) ps → each P (foldl recordindex.apply es (concat wss)).
Proof.
  intros HP HF. revert es HP. induction HF as [|ws p wss ps Hw _ IH]; intros es HP Hps; [done|].
  apply Forall_cons in Hps as [[He Hi] Hps]. cbn. rewrite foldl_app. apply IH; [|done]. intros id v. rewrite Hw.
  case_decide as Hid; [|apply HP]. intros [= <-]. by exists p.1.
Qed.

Lemma sets_present es wss ps id :
  Forall2 sets_id wss ps → is_Some (es !! recordindex.ByID id) ∨ id ∈ map (Idx.RecordID ∘ fst) ps →
  is_Some (foldl recordindex.apply es (concat wss) !! recordindex.ByID id).
Proof.
  intros HF. revert es. induction HF as [|ws p wss ps Hw _ IH]; intros es Hid; [by destruct Hid as [|?%elem_of_nil]|].
  cbn. rewrite foldl_app. apply IH. rewrite Hw. cbn in Hid. rewrite elem_of_cons in Hid. unfold compose in *.
  destruct Hid as [Hid|[Hid|]]; [|left; by rewrite decide_True|by right]. left. by case_decide.
Qed.

Lemma encode_artifact s idx p :
  recordindex.encodeRecordIndexArtifact idx = Ok p → at_home s idx →
  artifact_ok (at_home s) p ∧ p.1.(Idx.RecordID) = idx.(Idx.RecordID) ∧ p.1.(Idx.RecordID) ≠ "".
Proof.
  destruct p as [i v]. intros ((He & Hne & _) & Ei & Eb & _)%recordindex_proofs.encode_storable Ho. unfold artifact_ok, at_home.
  cbn. rewrite Ei, Eb. split_and!; [done..|]. by rewrite <- Ei.
Qed.

(** ** Writes of bundles and indexes *)

Lemma advances_artifacts s s' :
  tables s → manifests s' = manifests s → decisions s' = decisions s → committedMarker s' = committedMarker s →
  CryptoSuite s' = CryptoSuite s →
  (∀ m id, committed s m → id ∈ m.(Man.RecordIDs) → bundles s' !! id = bundles s !! id) → each (at_home s) (entries s') →
  (∀ id, is_Some (bundles s' !! id) → is_Some (entries s' !! recordindex.ByID id)) → advances s s'.
Proof.
  intros T Hm Hd Hk Hc Hb He Hi.
  assert (keeps s s') as K by (constructor; [done|intros b ids; by rewrite has_same|by rewrite Hm|exact Hb|by rewrite Hd]).
  split; [|done]. constructor; rewrite ?Hm, ?Hd; try apply T; [| |by eapply each_at_home|done].
  - intros id b b'. rewrite !(home_same s s') by done. apply T.
  - intros m Hcm%(committed_same s s'); [|done]. destruct (in_committed _ T m Hcm). rewrite Hk.
    split; [by eapply keeps_batch_ok|done].
Qed.

Lemma suite_apply s ws : CryptoSuite (foldl apply s ws) = CryptoSuite s.
Proof. unfold CryptoSuite. by destruct (flags_apply s ws) as (_ & _ & _ & -> & _). Qed.

(** The bundle of a committed record is only written again as it is. *)
Lemma ensure_same s arts a m :
  inv s → alive s = true → ensureEncodedArtifactsMutable arts s = Ok tt → a ∈ arts →
  committed s m → recordID a ∈ m.(Man.RecordIDs) → bundles s !! recordID a = Some (bundleValue a).
Proof.
  intros [T F] Hl E Ha Hc Hid. destruct (in_committed _ T m Hc) as [Hok Hk]. specialize (F Hl Hk).
  unfold ensureEncodedArtifactsMutable in E. rewrite F in E. cbn in E.
  apply list_elem_of_lookup in Hid as [i Hi]. destruct (Hok i _ Hi) as (b & Hg & _).
  apply list_elem_of_lookup_2 in Hi as Hid. pose proof Hc as (vm & Hvm & Hem & Hcm).
  assert (is_Some (bundles s !! recordID a)) as Hs.
  { unfold GetBundle, readStoredProofBundle in Hg. destruct (seqb _ _); [done|]. by destruct (bundles s !! recordID a). }
  apply (in_bundle _ T) in Hs as [v Hv]. destruct (in_index _ T _ _ Hv) as (idx & He & Ei & Ho).
  unfold at_home in Ho. rewrite Ei in Ho. pose proof (in_one _ T _ _ _ Ho (committed_home s m _ Hc Hid)) as Eb.
  revert Ha E. clear Hg. induction arts as [|x arts IH]; intros Ha E; [by apply elem_of_nil in Ha|]. cbn in E.
  apply bind_Ok in E as (old & Eo%wrap_err_Ok & ([] & Ex & E)%bind_Ok).
  apply elem_of_cons in Ha as [<-|Ha]; [|by apply IH]. unfold recordindex.readIndex in Eo.
  apply readCBOR_exact in Eo. rewrite Hv in Eo. destruct old as [old|]; [|done]. destruct Eo as (v' & [= <-] & Ha).
  rewrite (Ha _ He) in Ex. unfold ensureEncodedArtifactMutable in Ex. rewrite F in Ex. cbn in Ex.
  destruct (in_manifest _ T _ _ Hvm) as (_ & _ & _ & Hne). rewrite Eb, (proj2 (seqb_false _ _) Hne) in Ex.
  apply bind_Ok in Ex as (found & Ef%wrap_err_Ok & Ex). rewrite (committed_read s m _ Hc Ef) in Ex.
  unfold is_committed in Hcm. rewrite Hcm in Ex. cbn in Ex. destruct (bundles s !! recordID a); [|done].
  destruct (bytes_equal _ _) eqn:Ebv; [|done]. apply bytes_equal_true in Ebv. by subst.
Qed.

(** A batch of writes whose bundles and indexes are those of [arts]. *)
Lemma artifacts_advance s arts ws wss :
  inv s → alive s = true → ensureEncodedArtifactsMutable arts s = Ok tt →
  Forall (λ a, artifact_ok (at_home s) (artifact_index a) ∧ (artifact_index a).1.(Idx.RecordID) = recordID a) arts →
  omap bundle_write ws = map (λ a, (recordID a, bundleValue a)) arts → omap index_write ws = concat wss →
  Forall2 sets_id wss (map artifact_index arts) → omap manifest_write ws = [] → omap decision_write ws = [] →
  SetCommitted ∉ ws → advances s (foldl apply s ws).
Proof.
  intros I Hl E Hok Hb Hi Hw Hm Hd Hn. pose proof (proj1 I) as T.
  apply advances_artifacts; [done|by rewrite manifests_apply, Hm|by rewrite decisions_apply, Hd|by apply marker_before
    |apply suite_apply|..].
  - intros m id Hc Hid. rewrite bundles_apply, Hb. destruct (decide (id ∈ map recordID arts)) as [Hin|Hout].
    + apply list_elem_of_fmap in Hin as (a & -> & Ha). rewrite (ensure_same s arts a m) by done.
      apply insert_all_same; [by eapply ensure_same|]. intros v (a' & [= Er ->] & Ha')%list_elem_of_fmap.
      rewrite Er in Hid. pose proof (ensure_same s arts a' m I Hl E Ha' Hc Hid) as E1. rewrite <- Er in E1, Hid.
      rewrite (ensure_same s arts a m) in E1 by done. by injection E1.
    + apply insert_all_other. by rewrite map_map.
  - rewrite entries_apply, Hi. apply each_sets with (map artifact_index arts); [apply T|done|].
    apply Forall_fmap. eapply Forall_impl; [exact Hok|]. by intros a [].
  - intros id [v Hv]. rewrite entries_apply, Hi. apply sets_present with (map artifact_index arts); [done|].
    rewrite bundles_apply, Hb in Hv. apply insert_all_Some in Hv as [(a & [= -> ->] & Ha)%list_elem_of_fmap|[_ Hv]].
    + right. rewrite map_map. apply list_elem_of_fmap. exists a. split; [|done]. rewrite Forall_forall in Hok.
      symmetry. by apply Hok.
    + left. apply T. by exists v.
Qed.

(** A bundle of the record [RecordID] in a batch that has it. *)
Definition bundle_fits (s : Store) (b : Bun.t) : Prop :=
  b.(Bun.ServerRecord).(ServerRecord.RecordID) = b.(Bun.RecordID) ∧
  home s b.(Bun.RecordID) b.(Bun.CommittedReceipt).(CommittedReceipt.BatchID).

Lemma index_record s b : bundle_fits s b →
  (RecordIndexFromBundle b).(Idx.RecordID) = b.(Bun.RecordID) ∧ at_home s (RecordIndexFromBundle b).
Proof.
  intros [Hr Hb]. unfold RecordIndexFromBundle, at_home.
  destruct (seqb b.(Bun.ServerRecord).(ServerRecord.RecordID) ""), (seqb _ ""); cbn; by rewrite ?Hr.
Qed.

Lemma encode_artifacts s l arts :
  encodeBatchArtifacts l = Ok arts → Forall (bundle_fits s) l →
  Forall (λ a, artifact_ok (at_home s) (artifact_index a) ∧ (artifact_index a).1.(Idx.RecordID) = recordID a) arts ∧
  Forall (λ a, (artifact_index a).1.(Idx.RecordID) ≠ "") arts.
Proof.
  revert arts. induction l as [|b l IH]; intros arts E Hf; cbn in E; [injection E as <-; by split|].
  apply Forall_cons in Hf as [Hb Hf]. destruct (index_record s b Hb) as [Hr Ho].
  apply bind_Ok in E as (a & Ea & (rest & Er & [= <-])%bind_Ok). destruct (IH _ Er Hf). unfold encodeBatchArtifact in Ea.
  apply bind_Ok in Ea as (v & _ & (p & Ep & [= <-])%bind_Ok). destruct (encode_artifact s _ _ Ep Ho) as (? & ? & ?).
  split; constructor; cbn; try done. split; [done|congruence].
Qed.

(** The writes of the two kinds of artifacts. *)
Definition index_writes (stage : encodedBatchArtifact → list write) (a : encodedBatchArtifact) : Prop :=
  omap bundle_write (stage a) = [(recordID a, bundleValue a)] ∧ sets_id (omap index_write (stage a)) (artifact_index a) ∧
  omap manifest_write (stage a) = [] ∧ omap decision_write (stage a) = [] ∧ SetCommitted ∉ stage a.

Lemma omap_index l : omap index_write (map SetIndex l) = l ∧ omap bundle_write (map SetIndex l) = [] ∧
  omap manifest_write (map SetIndex l) = [] ∧ omap decision_write (map SetIndex l) = [] ∧ SetCommitted ∉ map SetIndex l.
Proof.
  induction l as [|w l (IH1 & IH2 & IH3 & IH4 & IH5)]; [split_and!; by try apply not_elem_of_nil|].
  cbn. rewrite IH1, IH2, IH3, IH4. split_and!; [done..|]. by apply not_elem_of_cons.
Qed.

Lemma stage_batch m a : (artifact_index a).1.(Idx.RecordID) ≠ "" → index_writes (stageEncodedBatchArtifact m) a.
Proof.
  intros Hid. unfold index_writes, stageEncodedBatchArtifact. cbn.
  destruct (omap_index (recordindex.stageEncodedRecordIndexSetForMode m (artifact_index a))) as (-> & -> & -> & -> & ?).
  split_and!; [done| |done..|by apply not_elem_of_cons]. destruct (artifact_index a) as [i v] eqn:Ea.
  apply (sets_write _ (i, v) m). intros es. by apply recordindex_proofs.write_for_mode.
Qed.

Lemma stage_materialized m a :
  (artifact_index a).1.(Idx.RecordID) = recordID a → index_writes (stageEncodedMaterializedBatchArtifact m) a.
Proof.
  intros Hr. unfold index_writes, stageEncodedMaterializedBatchArtifact.
  assert (∀ es id, (<[recordindex.ByID (recordID a) := (artifact_index a).2]> es : gmap recordindex.key bytes) !! recordindex.ByID id =
    if decide (id = (artifact_index a).1.(Idx.RecordID)) then Some (artifact_index a).2 else es !! recordindex.ByID id) as Hw.
  { intros es id. rewrite Hr. case_decide as Hid; [by rewrite Hid, lookup_insert_eq|]. rewrite lookup_insert_ne; [done|congruence]. }
  cbv zeta. generalize (recordindex.reference (artifact_index a).1.(Idx.RecordID)) as r.
  generalize (bytes_of_string "L2") (bytes_of_string "L3"). intros l2 l3 r.
  destruct (bool_decide _); cbn; (split_and!; [done| |done|done|set_solver]); intros es id; cbn; [apply Hw|].
  rewrite lookup_insert_ne, lookup_delete_ne by done. apply Hw.
Qed.

Lemma stage_all stage arts :
  Forall (index_writes stage) arts →
  let ws := concat (map stage arts) in
  omap bundle_write ws = map (λ a, (recordID a, bundleValue a)) arts ∧
  (∃ wss, omap index_write ws = concat wss ∧ Forall2 sets_id wss (map artifact_index arts)) ∧
  omap manifest_write ws = [] ∧ omap decision_write ws = [] ∧ SetCommitted ∉ ws.
Proof.
  induction 1 as [|a arts (Hb & Hi & Hm & Hd & Hn) _ (IHb & (wss & IHi & IHw) & IHm & IHd & IHn)]; cbn.
  { split_and!; try done; [by exists []|apply not_elem_of_nil]. }
  rewrite !omap_app, Hb, Hm, Hd, IHb, IHm, IHd, IHi. split_and!; try done.
  - exists (omap index_write (stage a) :: wss). split; [done|by constructor].
  - by apply not_elem_of_app.
Qed.

(** Writes to the other tables. *)
Definition plain (w : write) : Prop :=
  match w with SetBundle _ _ | SetIndex _ | SetManifest _ _ | SetDecision _ _ | SetCommitted => False | _ => True end.

Lemma plain_same s ws : Forall plain ws → same s (foldl apply s ws).
Proof.
  intros Hp. revert s. induction Hp as [|w ws Hw _ IH]; intros s; [done|]. cbn.
  destruct (IH (apply s w)) as [Hb Hm Hd He Hk Hc], s, w; try done; by constructor.
Qed.

Lemma plain_committed ws : Forall plain ws → SetCommitted ∉ ws.
Proof. rewrite Forall_forall. intros Hp Hin. exact (Hp _ Hin). Qed.

Lemma advances_plain s s' ws : advances s s' → Forall plain ws → advances s (foldl apply s' ws).
Proof.
  intros A Hp. eapply advances_trans; [exact A|]. apply advances_same; [apply A|by apply plain_same].
Qed.

Lemma safe_plain msg ws s : Forall plain ws → safe (Commit msg ws) s.
Proof.
  intros Hp. apply safe_commit; [by apply plain_committed|]. intros _ [T _]. apply advances_plain; [by apply advances_refl|done].
Qed.

Lemma stage_root_plain root rw :
  match root with Some root => stageRoot root | None => Ok [] end = Ok rw → Forall plain rw.
Proof.
  destruct root as [root|]; [|intros [= <-]; constructor]. unfold stageRoot. intros (d & _ & [= <-])%bind_Ok. by repeat constructor.
Qed.

Lemma safe_chunk msg stage arts rw s :
  ensureEncodedArtifactsMutable arts s = Ok tt →
  Forall (λ a, artifact_ok (at_home s) (artifact_index a) ∧ (artifact_index a).1.(Idx.RecordID) = recordID a) arts →
  Forall (index_writes stage) arts → Forall plain rw → safe (Commit msg (concat (map stage arts) ++ rw)) s.
Proof.
  intros E Hok Hw Hp. destruct (stage_all stage arts Hw) as (Hb & (wss & Hi & HF) & Hm & Hd & Hn).
  apply safe_commit; [apply not_elem_of_app; split; [done|by apply plain_committed]|]. intros Hl I. rewrite foldl_app.
  apply advances_plain; [|done]. by eapply artifacts_advance.
Qed.

Lemma chunk_forall {A} (P : A → Prop) n l c : (0 < n)%nat → Forall P l → c ∈ chunks n l → Forall P c.
Proof.
  intros Hn Hl Hc. rewrite <- (chunks_concat n l Hn) in Hl. rewrite Forall_forall in *. intros x Hx. apply Hl.
  apply list_elem_of_In, in_concat. exists c. by rewrite <- !list_elem_of_In.
Qed.
Lemma chunk_pos : (0 < chunkSize)%nat.
Proof. by vm_compute; lia. Qed.

Lemma keeps_fits s s' l : keeps s s' → Forall (bundle_fits s) l → Forall (bundle_fits s') l.
Proof. intros K Hl. eapply Forall_impl; [exact Hl|]. intros b [? ?]. split; [done|]. by apply (kept_home _ _ K). Qed.
Lemma keeps_at_home s s' l : keeps s s' → Forall (at_home s) l → Forall (at_home s') l.
Proof. intros K Hl. eapply Forall_impl; [exact Hl|]. intros idx. apply (kept_home _ _ K). Qed.

Lemma safe_artifacts now l root s : Forall (bundle_fits s) l → safe (PutBatchArtifacts now l root) s.
Proof.
  intros Hf. unfold PutBatchArtifacts. apply steps_if; intros _; [apply steps_lift|].
  apply steps_bind; [apply steps_reads|intros _ s1 _ K1]. apply steps_bind; [apply safe_suites|intros _ s2 _ K2].
  apply steps_lift_bind. intros r _. apply safe_put_chunks. intros c ro s3 Hc K3. apply steps_lift_bind. intros arts Ea.
  destruct (encode_artifacts s3 c arts Ea) as [Hok Hne].
  { eapply chunk_forall, Hc; [apply chunk_pos|]. eapply keeps_fits; [exact K3|]. eapply keeps_fits; [exact K2|].
    by eapply keeps_fits. }
  unfold commitBatchArtifactChunk. apply steps_reads_bind. intros [] Ee. apply steps_reads_bind. intros m _.
  apply steps_lift_bind. intros rw Er%stage_root_plain. apply safe_chunk; [done..| |done].
  eapply Forall_impl; [exact Hne|]. intros a. apply stage_batch.
Qed.

Lemma safe_materialized l s : Forall (bundle_fits s) l → safe (PutMaterializedBatchArtifacts l) s.
Proof.
  intros Hf. unfold PutMaterializedBatchArtifacts. apply steps_if; intros _; [apply steps_lift|].
  apply steps_bind; [apply safe_suites|intros _ s1 _ K1]. apply steps_for_each. intros c s2 Hc K2. apply steps_lift_bind. intros arts Ea.
  destruct (encode_artifacts s2 c arts Ea) as [Hok _].
  { eapply chunk_forall, Hc; [apply chunk_pos|]. eapply keeps_fits; [exact K2|]. by eapply keeps_fits. }
  unfold commitMaterializedArtifactChunk. apply steps_reads_bind. intros [] Ee. apply steps_reads_bind. intros m _.
  rewrite <- (app_nil_r (concat _)). apply safe_chunk; [done..| |constructor].
  eapply Forall_impl; [exact Hok|]. intros a [_ ?]. by apply stage_materialized.
Qed.

Lemma safe_prepared now l root s : Forall (at_home s) l → safe (PutPreparedBatchIndexesAndRoot now l root) s.
Proof.
  intros Hf. unfold PutPreparedBatchIndexesAndRoot, putBatchIndexesAndRoot. apply steps_if; intros _; [apply steps_lift|].
  apply steps_bind; [apply steps_reads|intros _ s1 _ K1]. apply steps_bind; [apply safe_suites|intros _ s2 _ K2].
  apply steps_lift_bind. intros r _. apply safe_put_chunks. intros c ro s3 Hc K3. apply steps_lift_bind. intros es Ee.
  apply steps_reads_bind. intros m _. apply steps_lift_bind. intros rw Er%stage_root_plain.
  assert (Forall (at_home s3) c) as Hoc.
  { eapply chunk_forall, Hc; [apply chunk_pos|]. eapply keeps_at_home; [exact K3|]. eapply keeps_at_home; [exact K2|].
    by eapply keeps_at_home. }
  assert (Forall (λ p, artifact_ok (at_home s3) p ∧ p.1.(Idx.RecordID) ≠ "") es) as Hes.
  { apply recordindex_ops.encodeAll_spec in Ee. clear -Ee Hoc CborModeExact2 CborModeInjective0. induction Ee as [|i e l es Hi _ IH]; [constructor|].
    apply Forall_cons in Hoc as [? ?]. constructor; [|auto]. destruct (encode_artifact s3 _ _ Hi) as (? & _ & ?); done. }
  set (wss := map (recordindex.stageEncodedRecordIndexSet m) es).
  assert (Forall2 sets_id wss es) as HF.
  { unfold wss. apply Forall2_fmap_l, Forall_Forall2_diag. eapply Forall_impl; [exact Hes|]. intros [i v] [_ Hne].
    apply (sets_write _ (i, v) m). intros. by apply recordindex_proofs.write_set. }
  destruct (omap_index (concat wss)) as (Hi & Hb & Hm & Hd & Hn).
  apply safe_commit; [apply not_elem_of_app; split; [done|by apply plain_committed]|]. intros _ [T _]. rewrite foldl_app.
  apply advances_plain; [|done].
  apply advances_artifacts; [done|by rewrite manifests_apply, Hm|by rewrite decisions_apply, Hd|by apply marker_before
    |apply suite_apply|by rewrite bundles_apply, Hb|rewrite entries_apply, Hi|rewrite entries_apply, bundles_apply, Hi, Hb].
  - apply each_sets with es; [apply T|done|]. eapply Forall_impl; [exact Hes|]. by intros ? [].
  - intros id Hid. apply sets_present with es; [done|]. left. by apply (in_bundle _ T).
Qed.

Lemma zip_with_all {A B C} (P : C → Prop) (f : A → B → C) l k : (∀ a b, P (f a b)) → Forall P (zip_with f l k).
Proof. intros Hf. revert k. induction l as [|a l IH]; intros [|b k]; constructor; auto. Qed.

Lemma safe_tree now snapshot s : safe (PutBatchTreeSnapshot now snapshot) s.
Proof.
  unfold PutBatchTreeSnapshot, putBatchTreeTiles. apply steps_bind; [apply steps_reads|intros _ s1 _ _].
  apply steps_if; intros _; [apply steps_lift|]. apply steps_lift_bind. intros ls _. apply steps_lift_bind. intros ns _.
  apply safe_plain, Forall_app. split; by apply zip_with_all.
Qed.

Lemma safe_checkpoint now cp s : safe (batchstore.PutCheckpoint now cp) s.
Proof.
  unfold batchstore.PutCheckpoint. apply steps_bind; [apply steps_reads|intros _ s1 _ _]. apply steps_reads_bind. intros r _.
  apply steps_if; intros _; [apply steps_lift|]. apply steps_lift_bind. intros d _. apply safe_plain. by repeat constructor.
Qed.

(** ** Manifests *)

Lemma stage_manifest old m data :
  omap manifest_write (stageManifest old m data) = [(m.(Man.BatchID), data)] ∧ omap bundle_write (stageManifest old m data) = [] ∧
  omap index_write (stageManifest old m data) = [] ∧ omap decision_write (stageManifest old m data) = [] ∧
  SetCommitted ∉ stageManifest old m data.
Proof. destruct old; cbn; split_and!; try done; set_solver. Qed.

(** A store in which the manifest of one batch was replaced. *)
Record replaced (s s' : Store) (m : Man.t) (data : bytes) : Prop := {
  rep_manifest : manifests s' = <[m.(Man.BatchID) := data]> (manifests s);
  rep_bundles : bundles s' = bundles s;
  rep_entries : entries s' = entries s;
  rep_suite : CryptoSuite s' = CryptoSuite s;
  rep_decisions k v : decisions s !! k = Some v → decisions s' !! k = Some v;
  rep_encoded k v : decisions s' !! k = Some v → ∃ d : Dec.t, encodes v d;
  rep_marker : committedMarker s = true → committedMarker s' = true }.

(** The records of [m] are in no other batch, and the batch has no other records. *)
Definition manifest_fits (s : Store) (m : Man.t) : Prop :=
  (∀ id b, id ∈ m.(Man.RecordIDs) → home s id b → b = m.(Man.BatchID)) ∧
  (∀ ids, has s m.(Man.BatchID) ids → ids = m.(Man.RecordIDs)).

Lemma replaced_has s s' m data b ids :
  replaced s s' m data → encodes data m →
  has s' b ids ↔ if decide (b = m.(Man.BatchID)) then ids = m.(Man.RecordIDs) else has s b ids.
Proof.
  intros R He. unfold has. rewrite (rep_manifest _ _ _ _ R). case_decide as Hb; [subst b; rewrite lookup_insert_eq|by rewrite lookup_insert_ne].
  split; [|intros ->; by exists data, m]. intros (v & x & [= <-] & Hx & <-). by rewrite (encodes_inj data m x).
Qed.

Lemma replaced_advances s s' m data :
  tables s → replaced s s' m data → encodes data m → m.(Man.BatchID) ≠ "" → manifest_fits s m →
  (∀ old, committed s old → old.(Man.BatchID) = m.(Man.BatchID) → manifests s !! m.(Man.BatchID) = Some data) →
  (is_committed m = true → batch_ok s' m ∧ committedMarker s' = true) → advances s s'.
Proof.
  intros T R He Hne [Hf1 Hf2] Hold Hnew. pose proof (λ b ids, replaced_has s s' m data b ids R He) as Hh.
  assert (keeps s s') as K.
  { constructor; [apply R| | |by rewrite (rep_bundles _ _ _ _ R)|apply R].
    - intros b ids Hb. apply Hh. case_decide as Eb; [|done]. subst b. by apply Hf2.
    - intros x Hx. rewrite (rep_manifest _ _ _ _ R).
      destruct (decide (x.(Man.BatchID) = m.(Man.BatchID))) as [Eb|]; [|by rewrite lookup_insert_ne].
      rewrite Eb, lookup_insert_eq. symmetry. by eapply Hold. }
  split; [|done]. constructor.
  - intros b v. rewrite (rep_manifest _ _ _ _ R). destruct (decide (b = m.(Man.BatchID))) as [->|].
    + rewrite lookup_insert_eq. intros [= <-]. by exists m.
    + rewrite lookup_insert_ne by done. apply T.
  - intros id b b' (ids & Hb & Hi) (ids' & Hb' & Hi'). apply Hh in Hb, Hb'. do 2 case_decide; subst; [done| | |].
    + eapply Hf1; [exact Hi'|by exists ids].
    + symmetry. eapply Hf1; [exact Hi|by exists ids'].
    + eapply (in_one _ T); [by exists ids|by exists ids'].
  - intros x (v & Hv & Hx & Hc). rewrite (rep_manifest _ _ _ _ R) in Hv.
    destruct (decide (x.(Man.BatchID) = m.(Man.BatchID))) as [Eb|Hn].
    + rewrite Eb, lookup_insert_eq in Hv. injection Hv as <-. rewrite <- (encodes_inj data m x He Hx) in *. by apply Hnew.
    + rewrite lookup_insert_ne in Hv by done. assert (committed s x) as Hcx by (by exists v).
      destruct (in_committed _ T x Hcx). split; [by eapply keeps_batch_ok|by apply R].
  - rewrite (rep_entries _ _ _ _ R). eapply recordlevels.each_mono, (in_index _ T). intros idx. apply (kept_home _ _ K).
  - rewrite (rep_entries _ _ _ _ R), (rep_bundles _ _ _ _ R). apply T.
  - apply R.
Qed.

Lemma fill_schema_same m : (fill_schema m).(Man.BatchID) = m.(Man.BatchID) ∧ (fill_schema m).(Man.RecordIDs) = m.(Man.RecordIDs) ∧
  is_committed (fill_schema m) = is_committed m.
Proof. done. Qed.

(** No committed manifest can be read for the batch. *)
Definition uncommitted (s : Store) (b : string) : Prop :=
  ∀ old x, committed s old → old.(Man.BatchID) = b → readManifest b s ≠ Ok x.

(** [PutManifest] as the batch service uses it: for a batch that is not
    committed, neither before nor by the call. *)
Lemma safe_manifest m s :
  is_committed m = false → uncommitted s m.(Man.BatchID) → manifest_fits s m → safe (PutManifest m) s.
Proof.
  intros Hc Hs Hf. apply steps_assume. intros [T _].
  unfold PutManifest. apply steps_reads_bind. intros [] _. apply steps_if; intros Hb; [apply steps_lift|]. apply seqb_false in Hb.
  apply steps_if; intros _; [apply steps_lift|]. apply steps_lift_bind. intros data Hd%wrap_err_Ok.
  apply steps_reads_bind. intros old Ho%wrap_err_Ok. destruct (fill_schema_same m) as (Ei & _ & Ec).
  rewrite Ec, Hc. cbn [orb].
  assert ((match old with Some old => is_committed old | None => false end) = false) as ->.
  { destruct old as [old|]; [|done]. destruct (is_committed old) eqn:Eo; [|done]. exfalso.
    pose proof (readManifest_stored _ _ _ T Ho) as (v & Hv & He & Eb & _). eapply (Hs old); [|done|exact Ho].
    exists v. by rewrite Eb. }
  apply steps_bind; [by intros ?|]. intros [] s1 [= <-] _.
  apply steps_bind; [|intros [] s2 _ _; by intros ?]. rewrite !app_nil_r.
  destruct (stage_manifest old (fill_schema m) data) as (Hm & Hbw & Hi & Hdw & Hn).
  apply safe_commit; [done|]. intros _ _. eapply replaced_advances; [done| |exact Hd|done|exact Hf|..].
  - constructor; [by rewrite manifests_apply, Hm|by rewrite bundles_apply, Hbw|by rewrite entries_apply, Hi|apply suite_apply| | |].
    + by rewrite decisions_apply, Hdw.
    + rewrite decisions_apply, Hdw. apply T.
    + by rewrite marker_before.
  - intros x Hx Eb. by destruct (Hs x old Hx Eb).
  - by rewrite Ec, Hc.
Qed.

(** ** Publication *)

(** The decisions of the bundles that have a key. *)
Lemma build_decisions_spec provider m i seen ids l ds :
  buildDecisions provider m i seen ids l = Ok ds → length l = length ids →
  ∀ j id b, ids !! j = Some id → l !! j = Some b → id ≠ "" ∧ mismatched m (i + j) id b = false ∧
    (idempotency_key b ≠ "" → ∃ d, d ∈ ds ∧ idempotency.BuildDecisionWithProvider (Some provider) m.(Man.BatchID)
       b.(Bun.SignedClaim) b.(Bun.ServerRecord) b.(Bun.AcceptedReceipt) = Ok d).
Proof.
  revert i seen l ds. induction ids as [|id ids IH]; intros i seen [|b l] ds E Hl j x y Hx Hy; try done. cbn [buildDecisions] in E.
  destruct (seqb id "") eqn:Eid; [done|]. apply seqb_false in Eid. destruct (decide _); [done|].
  destruct (mismatched m i id b) eqn:Em; [done|].
  assert (∃ rest, buildDecisions provider m (S i) ({[id]} ∪ seen) ids l = Ok rest ∧
    (∀ d, d ∈ rest → d ∈ ds) ∧ (idempotency_key b ≠ "" → ∃ d, d ∈ ds ∧ idempotency.BuildDecisionWithProvider (Some provider)
      m.(Man.BatchID) b.(Bun.SignedClaim) b.(Bun.ServerRecord) b.(Bun.AcceptedReceipt) = Ok d)) as (rest & Er & Hsub & Hd).
  { destruct (seqb (idempotency_key b) "") eqn:Ek; [apply seqb_true in Ek; exists ds; by rewrite E|].
    apply bind_Ok in E as (d & Ed%wrap_err_Ok & (rest & Er & [= <-])%bind_Ok). exists rest.
    split_and!; [done|by right|]. intros _. exists d. split; [left|done]. }
  destruct j as [|j]; cbn in Hx, Hy.
  - injection Hx as <-. injection Hy as <-. by rewrite Nat.add_0_r.
  - destruct (IH _ _ _ _ Er ltac:(cbn in Hl; lia) j x y Hx Hy) as (? & Hm & Hk). rewrite Nat.add_succ_r.
    split_and!; [done..|]. intros Hkey. destruct (Hk Hkey) as (d & ? & ?). exists d. auto.
Qed.

(** What is prepared: distinct keys, each with its encoded decision. *)
Definition prepared_ok (suite : cryptosuite.ID) (prepared : list (string * (Dec.t * bytes))) : Prop :=
  NoDup (map fst prepared) ∧ Forall (λ p, encodes p.2.2 p.2.1) prepared ∧
  Forall (λ p, idempotency.StorageKeyForSuite suite p.2.1.(Dec.Identity) = Ok p.1) prepared.

Definition covers (suite : cryptosuite.ID) (prepared : list (string * (Dec.t * bytes))) (d : Dec.t) : Prop :=
  ∃ key data, idempotency.StorageKeyForSuite suite d.(Dec.Identity) = Ok key ∧ (key, (d, data)) ∈ prepared.

Lemma prepare_spec suite m records prepared ds out :
  prepareDecisions suite m records prepared ds = Ok out → prepared_ok suite prepared →
  prepared_ok suite out ∧ (∀ p, p ∈ prepared → p ∈ out) ∧ ∀ d, d ∈ ds → covers suite out d.
Proof.
  revert records prepared. induction ds as [|d ds IH]; intros records prepared E Hp; cbn in E.
  { injection E as <-. split_and!; [done..|]. by intros d ?%elem_of_nil. }
  do 2 (case_match; [done|]). case_decide; [done|].
  apply bind_Ok in E as ([] & _ & (key & Ek%wrap_err_Ok & E)%bind_Ok).
  destruct (list_find _ prepared) as [[n [k [prior data]]]|] eqn:Ef.
  - unfold idempotency.Equivalent in E. case_bool_decide as Heq; [|done]. subst prior.
    apply list_find_Some in Ef as (Hn & Hk & _). cbn in Hk. subst k. destruct (IH _ _ E Hp) as (? & Hsub & Hc).
    split_and!; [done..|]. intros x [->|Hx]%elem_of_cons; [|by apply Hc]. exists key, data. split; [done|].
    apply Hsub. by eapply list_elem_of_lookup_2.
  - apply list_find_None in Ef. apply bind_Ok in E as (data & Ed%wrap_err_Ok & E). destruct Hp as (Hd & He & Hs).
    assert (prepared_ok suite (prepared ++ [(key, (d, data))])) as Hp'.
    { split_and!; [|by apply Forall_app; split; [|by constructor]..]. rewrite map_app. apply NoDup_app.
      split_and!; [done| |by apply NoDup_singleton]. intros x Hx Hx'. cbn in Hx'. apply list_elem_of_singleton in Hx'. subst x.
      apply list_elem_of_fmap in Hx as (p & Hpk & Hin). rewrite Forall_forall in Ef. by apply (Ef p). }
    destruct (IH _ _ E Hp') as (? & Hsub & Hc). split_and!; [done|intros p Hin; apply Hsub, elem_of_app; by left|].
    intros x [->|Hx]%elem_of_cons; [|by apply Hc]. exists key, data. split; [done|]. apply Hsub, elem_of_app. right. left.
Qed.

Lemma persisted_spec l s b : checkPersisted l s = Ok tt → b ∈ l → GetBundle b.(Bun.RecordID) s = Ok b.
Proof.
  induction l as [|x l IH]; intros E Hb; [by apply elem_of_nil in Hb|]. cbn in E.
  apply bind_Ok in E as (p & Ep%wrap_err_Ok & E). case_bool_decide; [|done]. subst p.
  apply elem_of_cons in Hb as [->|]; auto.
Qed.

Lemma existing_spec prepared s key d data v :
  tables s → checkExistingDecisions prepared s = Ok tt → (key, (d, data)) ∈ prepared → encodes data d →
  decisions s !! key = Some v → v = data.
Proof.
  intros T E Hin He Hv. induction prepared as [|[k [x w]] prepared IH]; [by apply elem_of_nil in Hin|]. cbn in E.
  apply bind_Ok in E as (found & Ef%wrap_err_Ok & E).
  assert (checkExistingDecisions prepared s = Ok tt) as E'.
  { destruct found; [|done]. by destruct (idempotency.Equivalent _ _). }
  apply elem_of_cons in Hin as [[= <- <- <-]|Hin]; [|by apply IH]. apply readCBOR_exact in Ef. rewrite Hv in Ef.
  destruct found as [ex|]; [|done]. destruct Ef as (v' & [= <-] & Hx). unfold idempotency.Equivalent in E.
  case_bool_decide; [|done]. subst ex. destruct (in_decision _ T _ _ Hv) as [d' Hd]. pose proof (Hx _ Hd). subst d'.
  unfold encodes in *. congruence.
Qed.

Lemma old_spec m data s old x :
  readManifest m.(Man.BatchID) s = Ok old → checkOldManifest old data = Ok tt →
  committed s x → x.(Man.BatchID) = m.(Man.BatchID) → manifests s !! m.(Man.BatchID) = Some data.
Proof.
  intros Ho Ec Hx Eb. rewrite <- Eb in Ho. rewrite (committed_read _ _ _ Hx Ho) in Ec. destruct Hx as (v & Hv & Hex & Hc).
  cbn in Ec. rewrite Hc in Ec. cbn in Ec. apply bind_Ok in Ec as (w & Ew%wrap_err_Ok & E).
  destruct (bytes_equal w data) eqn:Eq; [|done]. apply bytes_equal_true in Eq. subst w. rewrite <- Eb, Hv.
  unfold encodes in Hex. congruence.
Qed.

Lemma mismatched_id m i id b : mismatched m i id b = false → b.(Bun.RecordID) = id.
Proof. unfold mismatched. rewrite !orb_false_iff, !negb_false_iff. intros H'. by destruct_and!; bsimpl. Qed.

(** The writes of a publication. *)
Lemma publication_advances provider (m : Man.t) l s data ds prepared old :
  tables s → m.(Man.BatchID) ≠ "" → manifest_fits s m →
  trustcrypto.ProviderForSuite (CryptoSuite s) = Ok provider → encodes data m → length l = length m.(Man.RecordIDs) →
  buildDecisions provider m 0 ∅ m.(Man.RecordIDs) l = Ok ds → prepareDecisions (CryptoSuite s) m ∅ [] ds = Ok prepared →
  checkPersisted l s = Ok tt → checkExistingDecisions prepared s = Ok tt → readManifest m.(Man.BatchID) s = Ok old →
  checkOldManifest old data = Ok tt →
  advances s (foldl apply s (stageManifest old m data ++ map (λ p, SetDecision p.1 p.2.2) prepared ++ [SetCommitted])).
Proof.
  intros T Hne Hown Hp He Hl Hb Hpr Hc Hx Ho Hco. set (ws := stageManifest old m data ++ _).
  destruct (prepare_spec _ _ _ _ _ _ Hpr) as ((Hnd & Henc & _) & _ & Hcov); [split_and!; by constructor|].
  destruct (stage_manifest old m data) as (Hm & Hbw & Hi & Hdw & _).
  assert (omap decision_write ws = map (λ p, (p.1, p.2.2)) prepared ∧ omap manifest_write ws = [(m.(Man.BatchID), data)] ∧
    omap bundle_write ws = [] ∧ omap index_write ws = []) as (Ed & Em & Eb & Ei).
  { unfold ws. rewrite !omap_app, Hm, Hbw, Hi, Hdw. clear. cbn. rewrite !app_nil_r.
    split_and!; [|f_equal|..]; induction prepared as [|p l IH]; cbn; congruence. }
  assert (∀ k d v, (k, (d, v)) ∈ prepared → encodes v d) as Henc'.
  { intros k d v Hin. rewrite Forall_forall in Henc. exact (Henc _ Hin). }
  assert (committedMarker (foldl apply s ws) = true) as Hk.
  { apply marker_apply. right. unfold ws. rewrite !elem_of_app. right. right. left. }
  eapply replaced_advances; [done| |exact He|done|done|by eauto using old_spec|].
  - constructor; [by rewrite manifests_apply, Em|by rewrite bundles_apply, Eb|by rewrite entries_apply, Ei|apply suite_apply|..].
    + intros k v Hv. rewrite decisions_apply, Ed. apply insert_all_same; [done|].
      intros v' ([k' [d w]] & [= -> ->] & Hin)%list_elem_of_fmap. cbn. symmetry. eapply existing_spec; eauto.
    + intros k v. rewrite decisions_apply, Ed. intros [([k' [d w]] & [= -> ->] & Hin)%list_elem_of_fmap|[_ Hv]]%insert_all_Some.
      * exists d. by eapply Henc'.
      * by apply (in_decision _ T) in Hv.
    + done.
  - intros _. split; [|done]. intros i id Hid.
    destruct (lookup_lt_is_Some_2 l i) as [b Hbi]; [rewrite Hl; by eapply lookup_lt_Some|].
    destruct (build_decisions_spec _ _ _ _ _ _ _ Hb Hl i id b Hid Hbi) as (_ & Hmis & Hdec). cbn in Hmis. exists b. split_and!; [|done|].
    + rewrite (GetBundle_same s); [|by rewrite bundles_apply, Eb]. rewrite <- (mismatched_id _ _ _ _ Hmis).
      eapply persisted_spec; [done|]. by eapply list_elem_of_lookup_2.
    + intros Hkey. destruct (Hdec Hkey) as (d & Hd & Hbd). destruct (Hcov d Hd) as (key & v & Hkk & Hin).
      exists provider, d, key, v. rewrite suite_apply, decisions_apply, Ed. split_and!; [done..| |by eapply Henc'].
      apply insert_all_unique; [|by apply list_elem_of_fmap; exists (key, (d, v))]. by rewrite map_map.
Qed.

(** The commit of a publication, with the flag that follows it. *)
Lemma safe_commit_flag msg ws (ds : list Dec.t) s :
  (inv s → advances s (foldl apply s ws)) → safe (_ ← Commit msg ws; _ ← modify set_committed; mret ds) s.
Proof.
  intros Hw I. apply post_bind. eapply post_mono; [apply commit_rule; [done|by intros _; apply Hw]|].
  intros [[]|e] s' [A F]; [|split; [split; [apply A|apply F; by right]|apply A]].
  assert (advances s' (set_committed s')) as A' by (apply advances_same; [apply A|apply same_flags]).
  pose proof (advances_trans _ _ _ A A') as [T' K']. split; [split; [exact T'|]|exact K'].
  unfold flagged. by destruct s'.
Qed.

Lemma suites_Ok {A} msg (any : A → modelsuite.Any) l s s' a : requireSuites msg any l s = (s', Ok a) → s' = s ∧ a = tt.
Proof.
  unfold requireSuites. revert s. induction l as [|x l IH]; intros s E; cbn in E; [by injection E as <- <-|].
  apply io_bind_Ok in E as (s1 & [] & Ex & E). apply IH in E as [-> ->]. split; [|done].
  unfold io_wrap, requireSuite, reads in Ex. by injection Ex as <- _.
Qed.

Lemma safe_publish m l s :
  manifest_fits s m → safe (PublishCommittedBatch m l) s.
Proof.
  intros Hown. unfold PublishCommittedBatch. apply steps_if; intros Hc; [apply steps_lift|].
  apply orb_false_iff in Hc as [Hne%seqb_false _].
  apply steps_reads_bind. intros [] _. apply steps_bind; [apply safe_suites|].
  intros [] s1 [-> _]%suites_Ok _. apply steps_reads_bind. intros provider Hp%wrap_err_Ok. apply steps_lift_bind. intros data Hd%wrap_err_Ok.
  apply steps_if; intros Hl; [apply steps_lift|]. apply steps_lift_bind. intros ds Hds. apply steps_reads_bind. intros prepared Hpr.
  apply steps_reads_bind. intros ready _. apply steps_if; intros _; [apply steps_lift|].
  apply steps_reads_bind. intros [] Hper. apply steps_reads_bind. intros [] Hex. apply steps_reads_bind. intros old Ho%wrap_err_Ok.
  apply steps_lift_bind. intros [] Hco. apply safe_commit_flag. intros [T _]. eapply publication_advances; eauto.
  bsimpl. unfold len in Hl. cbn in Hl. change (Man.RecordIDs (fill_schema m)) with (Man.RecordIDs m). lia.
Qed.

(** ** Histories *)

Inductive op :=
| OpArtifacts (now : Z) (l : list Bun.t) (root : BatchRoot.t)
| OpMaterialized (l : list Bun.t)
| OpPrepared (now : Z) (indexes : list Idx.t) (root : BatchRoot.t)
| OpTree (now : Z) (snapshot : BatchTreeSnapshot.t)
| OpManifest (m : Man.t)
| OpPublish (m : Man.t) (l : list Bun.t)
| OpCheckpoint (now : Z) (cp : WCp.t)
| OpRestart.

Definition exec (o : op) (s : Store) : Store :=
  match o with
  | OpArtifacts now l root => (PutBatchArtifacts now l root s).1
  | OpMaterialized l => (PutMaterializedBatchArtifacts l s).1
  | OpPrepared now indexes root => (PutPreparedBatchIndexesAndRoot now indexes root s).1
  | OpTree now snapshot => (PutBatchTreeSnapshot now snapshot s).1
  | OpManifest m => (PutManifest m s).1
  | OpPublish m l => (PublishCommittedBatch m l s).1
  | OpCheckpoint now cp => (batchstore.PutCheckpoint now cp s).1
  | OpRestart => Open s
  end.

(** How the batch service uses the store: the records of a batch are written
    after its manifest, and a manifest is only put for a batch that is not
    committed. *)
Definition admissible (s : Store) (o : op) : Prop :=
  match o with
  | OpArtifacts _ l _ | OpMaterialized l => Forall (bundle_fits s) l
  | OpPrepared _ indexes _ => Forall (at_home s) indexes
  | OpManifest m =>
      is_committed m = false ∧ uncommitted s m.(Man.BatchID) ∧ manifest_fits s m
  | OpPublish m _ => manifest_fits s m
  | OpTree _ _ | OpCheckpoint _ _ | OpRestart => True
  end.

Inductive history : Store → list op → Store → Prop :=
| history_nil s : history s [] s
| history_cons s o ops s' : admissible s o → history (exec o s) ops s' → history s (o :: ops) s'.

Lemma exec_safe s o : inv s → admissible s o → inv (exec o s) ∧ keeps s (exec o s).
Proof.
  intros I Ha. destruct o; cbn in *; [by apply safe_artifacts|by apply safe_materialized|by apply safe_prepared|by apply safe_tree
    |destruct Ha as (? & ? & ?); by apply safe_manifest|by apply safe_publish|by apply safe_checkpoint|].
  split; [apply open_inv, I|]. apply same_keeps, same_open.
Qed.

Lemma history_safe s ops s' : inv s → history s ops s' → inv s' ∧ keeps s s'.
Proof.
  intros I Hh. induction Hh as [|s o ops s' Ha _ IH]; [done|]. destruct (exec_safe s o I Ha) as [I' K].
  destruct (IH I') as [? ?]. split; [done|by eapply batch_keeps_trans].
Qed.

(** A store without batches. *)
Definition empty (i : recordindex.Store) (dk : nat → outcome) (ready : bool) : Store :=
  mkStore (put_entries ∅ i) ∅ ∅ ∅ ∅ ∅ ∅ ∅ None ready false ready false dk 0 true.

Lemma empty_store_inv i dk ready : inv (empty i dk ready).
Proof.
  split; [constructor; cbn|by intros _]; [by intros b v; rewrite lookup_empty| | | |by intros id []; rewrite lookup_empty in *
    |by intros k v; rewrite lookup_empty].
  - by intros id b b' (ids & (v & m & Hv & _) & _).
  - by intros m (v & Hv & _).
  - apply recordlevels.each_empty.
Qed.

(** A committed manifest is never there without its proofs.  After every
    history of operations, restarts, failing commits and crashes, from an empty
    store, every record of a manifest that reads as committed has a bundle that
    reads back, at the position of the record, of the same batch and with the
    size of its tree; a bundle with an idempotency key has its decision stored. *)
Theorem committed_complete i dk ready ops s b m pos id :
  history (empty i dk ready) ops s → GetManifest b s = Ok m → is_committed m = true → m.(Man.RecordIDs) !! pos = Some id →
  ∃ bundle, GetBundle id s = Ok bundle ∧ mismatched m pos id bundle = false ∧ decided s m.(Man.BatchID) bundle.
Proof.
  intros Hh Hg Hc Hid. destruct (history_safe _ _ _ (empty_store_inv i dk ready) Hh) as [[T _] _].
  destruct (reads_committed s b m T Hg Hc) as [_ Hcm]. destruct (in_committed _ T m Hcm) as [Hok _]. exact (Hok pos id Hid).
Qed.

(** In the histories of the store whose callers do not put a manifest over a
    committed one (the store itself would replace it), a committed batch, the
    bundles of its records and the stored decisions stay as they are. *)
Theorem stored_batch_kept i dk ready ops s b m ops' s' :
  history (empty i dk ready) ops s → GetManifest b s = Ok m → is_committed m = true → history s ops' s' →
  GetManifest b s' = Ok m ∧ (∀ id, id ∈ m.(Man.RecordIDs) → GetBundle id s' = GetBundle id s) ∧
  ∀ key v, decisions s !! key = Some v → decisions s' !! key = Some v.
Proof.
  intros Hh Hg Hc Hh'. destruct (history_safe _ _ _ (empty_store_inv i dk ready) Hh) as [I _]. pose proof (proj1 I) as T.
  destruct (history_safe _ _ _ I Hh') as [_ K].
  destruct (reads_committed s b m T Hg Hc) as [<- Hcm]. split_and!; [| |apply (kept_decision _ _ K)].
  { rewrite (GetManifest_same s); [done|]. by apply (kept_manifest _ _ K). }
  intros id Hid. by apply GetBundle_same, (kept_bundle _ _ K m).
Qed.
End committed.
End batch_committed.

(** * What the batch service relies on

    The operations of the store other than [PutCheckpoint] keep the checkpoint
    or delete it, and a publication that succeeds leaves the batch committed. *)

Module batch_safety.
Import batchstore batchstore_ops batch_committed.
Import anchorstore_proofs (encodes).

Section safety.
Context `{HashLib, KeyDescriptorLib, UnicodeLib, SnappyLib}.
Context `{CborMode ClientClaim.t, CborMode claim.framing}.
Context `{CborMode Bun.t, CborMode storedProofBundleEnvelope, CborMode Idx.t, CborMode BatchRoot.t, CborMode Man.t}.
Context `{CborMode Dec.t, CborMode batchTreeLeafTile, CborMode batchTreeNodeTile, CborMode WCp.t}.
Context `{!CborModeExact WCp.t, !CborModeExact Man.t, !CborModeExact Idx.t, !CborModeExact Dec.t}.
Context `{!CborModeInjective Man.t}.

(** ** The checkpoint *)

Definition cp_kept (s s' : Store) : Prop := checkpoint s' = checkpoint s ∨ checkpoint s' = None.
#[export] Instance cp_kept_preorder : PreOrder cp_kept.
Proof. split; [by left|]. intros s1 s2 s3 [E1|E1] [E2|E2]; unfold cp_kept; rewrite ?E2, ?E1; auto. Qed.

(** The artifacts of a batch also leave the manifests alone. *)
Definition calm (s s' : Store) : Prop := cp_kept s s' ∧ manifests s' = manifests s.
#[export] Instance calm_preorder : PreOrder calm.
Proof. split; [by intros s; split|]. intros s1 s2 s3 [? ?] [? ?]. split; [by etrans|congruence]. Qed.

Definition no_cp (w : write) : Prop := match w with SetCheckpoint _ => False | _ => True end.
Definition artifact (w : write) : Prop := match w with SetCheckpoint _ | SetManifest _ _ => False | _ => True end.

Section commits.
Context (R : Store → Store → Prop) `{!PreOrder R} (Q : write → Prop).
Context (HQ : ∀ s w, Q w → R s (apply s w)) (Ht : ∀ s live, R s (tick live s)).

Lemma writes_apply s ws : Forall Q ws → R s (foldl apply s ws).
Proof. intros Hw. revert s. induction Hw as [|w ws Hw _ IH]; intros s; [done|]. cbn. etrans; [by apply HQ|apply IH]. Qed.

Lemma writes_commit msg ws s : Forall Q ws → steps (λ _, True) R (Commit msg ws) s.
Proof.
  intros Hw _. pose proof (writes_apply s ws Hw) as K. unfold post, Commit. destruct (alive s); cbn; [|done].
  destruct (disk s (commits s)); cbn; (split; [done|]); [etrans; [exact K|]| | |etrans; [exact K|]]; apply Ht.
Qed.
End commits.

Notation cp_steps m s := (steps (λ _ : Store, True) cp_kept m s).
Notation calm_steps m s := (steps (λ _ : Store, True) calm m s).

Lemma cp_commit msg ws s : Forall no_cp ws → cp_steps (Commit msg ws) s.
Proof.
  apply (writes_commit cp_kept no_cp); [|intros []; by left]. intros x w Hw.
  destruct x, w; try done; (by left) || by right.
Qed.

Lemma calm_commit msg ws s : Forall artifact ws → calm_steps (Commit msg ws) s.
Proof.
  apply (writes_commit calm artifact); [|intros []; by split; [left|]]. intros x w Hw.
  destruct x, w; try done; (split; [|done]); (by left) || by right.
Qed.

Lemma calm_put_chunks {A} (put : list A → option BatchRoot.t → io Store unit) root l s :
  (∀ c r s', calm_steps (put c r) s') → calm_steps (put_chunks put root l) s.
Proof.
  intros Hk. revert s. induction l as [|c [|c' l] IH]; intros s; [apply steps_ret|apply Hk|].
  change (calm_steps (_ ← put c None; put_chunks put root (c' :: l)) s). apply steps_bind; [apply Hk|]. intros [] s' _ _. apply IH.
Qed.

Lemma concat_all {A} (Q : write → Prop) (f : A → list write) l : (∀ a, Forall Q (f a)) → Forall Q (concat (map f l)).
Proof. intros Hf. apply Forall_concat, Forall_fmap, Forall_true. exact Hf. Qed.
Lemma map_all {A} (Q : write → Prop) (f : A → write) l : (∀ a, Q (f a)) → Forall Q (map f l).
Proof. intros Hf. apply Forall_fmap, Forall_true. exact Hf. Qed.
Lemma artifact_root root rw :
  match root with Some root => stageRoot root | None => Ok [] end = Ok rw → Forall artifact rw.
Proof.
  destruct root as [root|]; [|intros [= <-]; constructor]. unfold stageRoot. intros (d & _ & [= <-])%bind_Ok. by repeat constructor.
Qed.
Lemma no_cp_manifest old m data : Forall no_cp (stageManifest old m data).
Proof. destruct old; by repeat constructor. Qed.

Lemma calm_suites {A} msg (any : A → modelsuite.Any) l s : calm_steps (requireSuites msg any l) s.
Proof. apply steps_for_each. intros. apply steps_wrap, steps_reads. Qed.

Lemma calm_artifacts now l root s : calm_steps (PutBatchArtifacts now l root) s.
Proof.
  unfold PutBatchArtifacts. apply steps_if; intros _; [apply steps_lift|]. apply steps_bind; [apply steps_reads|intros _ s1 _ _].
  apply steps_bind; [apply calm_suites|intros _ s2 _ _]. apply steps_lift_bind. intros r _. apply calm_put_chunks. intros c ro s3.
  unfold commitBatchArtifactChunk. walk. apply calm_commit, Forall_app. split; [|by eapply artifact_root].
  apply concat_all. intros x. constructor; [done|]. by apply map_all.
Qed.

Lemma calm_materialized l s : calm_steps (PutMaterializedBatchArtifacts l) s.
Proof.
  unfold PutMaterializedBatchArtifacts. apply steps_if; intros _; [apply steps_lift|].
  apply steps_bind; [apply calm_suites|intros _ s1 _ _]. apply steps_for_each. intros c s2 _ _.
  unfold commitMaterializedArtifactChunk. walk. apply calm_commit, concat_all. intros x.
  unfold stageEncodedMaterializedBatchArtifact. destruct (bool_decide _); by repeat constructor.
Qed.

Lemma calm_prepared now l root s : calm_steps (PutPreparedBatchIndexesAndRoot now l root) s.
Proof.
  unfold PutPreparedBatchIndexesAndRoot, putBatchIndexesAndRoot. apply steps_if; intros _; [apply steps_lift|].
  apply steps_bind; [apply steps_reads|intros _ s1 _ _]. apply steps_bind; [apply calm_suites|intros _ s2 _ _].
  apply steps_lift_bind. intros r _. apply calm_put_chunks. intros c ro s3. walk. apply calm_commit, Forall_app.
  split; [by apply map_all|by eapply artifact_root].
Qed.

Lemma calm_tree now snapshot s : calm_steps (PutBatchTreeSnapshot now snapshot) s.
Proof.
  unfold PutBatchTreeSnapshot, putBatchTreeTiles. walk. apply calm_commit, Forall_app. split; by apply zip_with_all.
Qed.

Lemma cp_flags s r h : cp_kept s (set_flags r h s).
Proof. destruct s. by left. Qed.

Lemma cp_manifest m s : cp_steps (PutManifest m) s.
Proof.
  unfold PutManifest. walk.
  - apply steps_modify. intros _. split; [done|]. match goal with |- cp_kept _ (if ?b then _ else _) => destruct b end; [apply cp_flags|done].
  - apply cp_commit. rewrite !Forall_app. split_and!; [apply no_cp_manifest|match goal with |- Forall _ (if ?b then _ else _) => destruct b end; by repeat constructor..].
  - apply steps_modify. intros _. split; [done|]. match goal with |- cp_kept _ (if ?b then _ else _) => destruct b end; [apply cp_flags|done].
Qed.

Lemma cp_publish m l s : cp_steps (PublishCommittedBatch m l) s.
Proof.
  unfold PublishCommittedBatch. walk; [eapply steps_mono, calm_suites; by intros ? ? []| |].
  - apply cp_commit. rewrite !Forall_app. split_and!; [apply no_cp_manifest|by apply map_all|by repeat constructor].
  - apply steps_modify. intros _. split; [done|apply cp_flags].
Qed.

(** ** Manifests *)

Lemma has_fun s b ids ids' : has s b ids → has s b ids' → ids = ids'.
Proof. intros (v & m & Hv & He & <-) (v' & m' & Hv' & He' & <-). rewrite Hv in Hv'. injection Hv' as <-. by rewrite (encodes_inj v m m'). Qed.

Lemma has_fits s m : tables s → has s m.(Man.BatchID) m.(Man.RecordIDs) → manifest_fits s m.
Proof.
  intros T Hh. split; [|intros ids Hi; by eapply has_fun]. intros id b Hid Hb. eapply (in_one _ T); [exact Hb|].
  by exists m.(Man.RecordIDs).
Qed.

Definition stores_manifest (s : Store) (m : Man.t) : Prop := ∃ v, manifests s !! m.(Man.BatchID) = Some v ∧ encodes v m.

Lemma stores_has s m : stores_manifest s m → has s m.(Man.BatchID) m.(Man.RecordIDs).
Proof. intros (v & ? & ?). by exists v, m. Qed.

Lemma stores_uncommitted s m : stores_manifest s m → is_committed m = false → uncommitted s m.(Man.BatchID).
Proof.
  intros (v & Hv & He) Hc old x (w & Hw & Ho & Hoc) Eb. rewrite Eb, Hv in Hw. injection Hw as <-.
  by rewrite (encodes_inj v m old He Ho), Hoc in Hc.
Qed.

Lemma GetManifest_stores s b m : tables s → GetManifest b s = Ok m → stores_manifest s m ∧ m.(Man.BatchID) = b.
Proof.
  intros T [_ (v & Hv & He & Eb & _)%(readManifest_stored _ _ _ T)]%GetManifest_found. split; [|done]. exists v. by rewrite Eb.
Qed.

Lemma GetManifest_Err s b e : tables s → GetManifest b s = Err e → uncommitted s b.
Proof.
  intros T Hg old x Hc <- Hr. rewrite (committed_read _ _ _ Hc Hr) in Hr. destruct Hc as (v & Hv & _).
  destruct (in_manifest _ T _ _ Hv) as (_ & _ & _ & Hne). unfold GetManifest in Hg. rewrite (proj2 (seqb_false _ _) Hne), Hr in Hg. done.
Qed.

Lemma PutManifest_Ok m s s' a : PutManifest m s = (s', Ok a) → stores_manifest s' (fill_schema m).
Proof.
  unfold PutManifest. intros (s1 & [] & [-> _]%reads_Ok & E)%io_bind_Ok. destruct (seqb _ ""); [done|].
  destruct (negb _); [done|]. apply io_bind_Ok in E as (s1 & data & [-> Hd%wrap_err_Ok]%lift_Ok & E).
  apply io_bind_Ok in E as (s1 & old & [-> _]%reads_Ok & E). apply io_bind_Ok in E as (s1 & [] & _ & E).
  apply io_bind_Ok in E as (s2 & [] & Ec & E). unfold Commit in Ec. destruct (alive s1); [|done].
  destruct (disk s1 (commits s1)); try done. cbn [negb] in Ec. injection Ec as <-.
  assert (∀ x y live, manifests (tick live x) = manifests x ∧ manifests (if y : bool then set_committed x else x) = manifests x) as Hx.
  { intros [] []; done. }
  injection E as <- _. exists data. split; [|done]. rewrite (proj2 (Hx _ _ true)), (proj1 (Hx _ false true)).
  rewrite manifests_apply, !omap_app. destruct (stage_manifest old (fill_schema m) data) as (-> & _).
  assert (∀ l : list (string * bytes), l = [] → insert_all ([(m.(Man.BatchID), data)] ++ l) (manifests s1) !! m.(Man.BatchID) = Some data) as Hi.
  { intros l ->. cbn. by rewrite lookup_insert_eq. }
  apply Hi. repeat match goal with |- context [if ?b then _ else _] => destruct b end; done.
Qed.

(** ** A publication that succeeds *)

Lemma publish_Ok m l s s' ds :
  PublishCommittedBatch m l s = (s', Ok ds) →
  committed s' (fill_schema m) ∧ length l = length m.(Man.RecordIDs) ∧
  ∀ i b, l !! i = Some b → m.(Man.RecordIDs) !! i = Some b.(Bun.RecordID) ∧ GetBundle b.(Bun.RecordID) s' = Ok b.
Proof.
  unfold PublishCommittedBatch. destruct (_ || _) eqn:Ec; [done|]. apply orb_false_iff in Ec as [_ Ec]. bsimpl.
  intros (s1 & [] & [-> _]%reads_Ok & E)%io_bind_Ok. apply io_bind_Ok in E as (s1 & [] & [-> _]%suites_Ok & E).
  apply io_bind_Ok in E as (s1 & p & [-> _]%reads_Ok & E). apply io_bind_Ok in E as (s1 & data & [-> Hd%wrap_err_Ok]%lift_Ok & E).
  destruct (negb (len l =? _)) eqn:El; [done|]. apply negb_false_iff in El. bsimpl.
  apply io_bind_Ok in E as (s1 & ds0 & [-> Hb]%lift_Ok & E). apply io_bind_Ok in E as (s1 & prep & [-> _]%reads_Ok & E).
  apply io_bind_Ok in E as (s1 & ready & [-> _]%reads_Ok & E). destruct ready; [|done]. cbn [negb] in E.
  apply io_bind_Ok in E as (s1 & [] & [-> Hper]%reads_Ok & E). apply io_bind_Ok in E as (s1 & [] & [-> _]%reads_Ok & E).
  apply io_bind_Ok in E as (s1 & old & [-> _]%reads_Ok & E). apply io_bind_Ok in E as (s1 & [] & [-> _]%lift_Ok & E).
  set (ws := stageManifest old _ _ ++ _) in E.
  apply io_bind_Ok in E as (s1 & [] & Ecm & E). apply io_bind_Ok in E as (s2 & [] & [= <-] & [= <- <-]).
  assert (manifests s1 = manifests (foldl apply s ws) ∧ bundles s1 = bundles (foldl apply s ws)) as [Hm Hbu].
  { unfold Commit in Ecm. destruct (alive s); [|done]. destruct (disk s (commits s)); try done. cbn in Ecm.
    injection Ecm as <-. by destruct (foldl apply s ws). }
  assert (omap manifest_write ws = [(m.(Man.BatchID), data)] ∧ omap bundle_write ws = []) as [Em Eb].
  { destruct (stage_manifest old (fill_schema m) data) as (Em & Eb & _). unfold ws. rewrite !omap_app, Em, Eb. cbn. rewrite !app_nil_r.
    clear. split; [f_equal|]; (induction prep as [|q prep IH]; [done|exact IH]). }
  assert (manifests (set_committed s1) = manifests s1 ∧ bundles (set_committed s1) = bundles s1) as [Hm1 Hb1] by (by destruct s1).
  split_and!.
  - exists data. rewrite Hm1, Hm, manifests_apply, Em. cbn. by rewrite lookup_insert_eq.
  - unfold len in El. change (Man.RecordIDs (fill_schema m)) with (Man.RecordIDs m) in El. lia.
  - intros i b Hi. assert (length l = length m.(Man.RecordIDs)) as Hl.
    { unfold len in El. change (Man.RecordIDs (fill_schema m)) with (Man.RecordIDs m) in El. lia. }
    destruct (lookup_lt_is_Some_2 m.(Man.RecordIDs) i) as [id Hid]; [rewrite <- Hl; by eapply lookup_lt_Some|].
    destruct (build_decisions_spec _ _ _ _ _ _ _ Hb Hl i id b Hid Hi) as (_ & Hmis%mismatched_id & _). rewrite Hmis. split; [done|].
    rewrite (GetBundle_same s); [|by rewrite Hb1, Hbu, bundles_apply, Eb]. rewrite <- Hmis.
    eapply persisted_spec; [done|]. by eapply list_elem_of_lookup_2.
Qed.
End safety.
End batch_safety.
