(* ===== verification/BatchService.v ===== *)
(** * The batch service

    Models [src/internal/batch/service.go] and [src/internal/batch/parse.go] on
    the Pebble store: the persistence of a batch, the recovery and the
    materialization of manifests, the proofs on demand, the pending items, the
    record statuses and the ids of batches.

    The engine is [ComputeEngine]; [App] has the one of the program.  An
    engine that panics stops the process.  Every function below is one step:
    the goroutines of the service run them in turn, and the channels are the
    list of queued jobs.  Every reading of the clock is arbitrary.  The hooks
    are a trace of events.  Metrics and cancelled contexts are not modelled; the
    scan for prepared manifests only chooses the batches to enqueue. *)

From stdpp Require Import pretty.
From S2P Require Import Prelude TrustErr CryptoSuite Model TrustCrypto Cborx KeyDescriptor ModelSuite.
From S2P Require Import StoreMonad GlobalStore AnchorSchedule AnchorStore ProofLevel RecordSearch RecordIndex Outbox.
From S2P Require Import Merkle Claim Receipt Wal WalDir WalQueue Idempotency IdemIndex App BatchCheckpoint BatchStore BatchStoreProofs.

Module RS := RecordStatus.

Class ComputeEngine := engine_ComputeBatch :
  string → option Z → list SignedClaim.t → list ServerRecord.t → list AcceptedReceipt.t →
  app_batch.BatchComputeOptions → go app_batch.BatchCommit.

Module batch.
Import batchstore.
#[local] Existing Instance batchstore_proofs.pebble_checkpoints.
Import batch_checkpoint (Accepted, Signed, Record_, Accepted_, mkAccepted).
Import app_batch (BatchCommit, C_TreeAlg, C_Root, C_Indexes, C_Tree, C_Bundles, mkBatchOptions).

(** ** Batch ids *)

Definition batchIDPrefix : string := "batch-".

Fixpoint zeros (n : nat) : string := match n with O => "" | S n => ("0" +:+ zeros n)%string end.
(** [%06d] *)
Definition pad6 (n : Z) : string :=
  let digits := pretty n in (zeros (6 - String.length digits) +:+ digits)%string.

Definition batch_id (now seq : Z) : string := (batchIDPrefix +:+ pretty now +:+ "-" +:+ pad6 seq)%string.

(** ** Modes *)

Inductive ProofMode := Inline | Async | OnDemand.
#[global] Instance mode_eq_dec : EqDecision ProofMode.
Proof. solve_decision. Defined.

Definition normalizeProofMode `{UnicodeLib} (mode : string) : ProofMode :=
  let mode := strings_ToLower (TrimSpace mode) in
  if seqb mode "async" then Async else if seqb mode "on_demand" then OnDemand else Inline.

(** ** The service *)

(** What [New] is given; [OnCheckpointAdvanced] is whether there is a hook. *)
Record Config := mkConfig {
  CryptoSuite : cryptosuite.ID;
  QueueSize : Z;
  MaxRecords : Z;
  ProofMode_ : string;
  MaterializerQueue : Z;
  DeferCheckpointAdvance : bool;
  InitialSeq : Z;
  OnCheckpointAdvanced : bool;
  LoadItems : option (Man.t → result (list Accepted)) }.

(** The options that the service keeps. *)
Record Options := mkOptions {
  checkpoint_opts : batch_checkpoint.Options;
  mode : ProofMode;
  MaterializerQueueSize : nat;
  LoadBatchItems : option (Man.t → result (list Accepted)) }.

Record materializeJob := mkJob { job_batch : string; job_items : list Accepted }.

Inductive event :=
| BatchCommitted (root : BatchRoot.t)
| RecordStatusesChanged (statuses : list RS.t)
| IdempotencyCommitted (identity : IdempotencyIdentity.t) (recordID : string)
| RecordCommitted (recordID : string).

Record Service := mkService {
  opts : Options;
  checkpoints : batch_checkpoint.Service Store;
  seq : Z;
  lastErr : option error;
  materializeInFlight : gset string;
  materializeQueue : list materializeJob;
  pending : gmap string (list Accepted);
  pendingOrder : list string;
  statusPending : gmap string RS.t;
  events : list event;
  clock : nat → Z;
  ticks : nat }.

Definition store (s : Service) : Store := batch_checkpoint.store (checkpoints s).

Definition set_checkpoints (c : batch_checkpoint.Service Store) (s : Service) : Service :=
  mkService (opts s) c (seq s) (lastErr s) (materializeInFlight s) (materializeQueue s) (pending s) (pendingOrder s)
    (statusPending s) (events s) (clock s) (ticks s).
Definition set_store (st : Store) (s : Service) : Service := set_checkpoints (batch_checkpoint.put_store st (checkpoints s)) s.
Definition set_seq (n : Z) (s : Service) : Service :=
  mkService (opts s) (checkpoints s) n (lastErr s) (materializeInFlight s) (materializeQueue s) (pending s) (pendingOrder s)
    (statusPending s) (events s) (clock s) (ticks s).
Definition setLastError (e : error) (s : Service) : Service :=
  mkService (opts s) (checkpoints s) (seq s) (Some e) (materializeInFlight s) (materializeQueue s) (pending s) (pendingOrder s)
    (statusPending s) (events s) (clock s) (ticks s).
Definition set_jobs (inFlight : gset string) (queue : list materializeJob) (s : Service) : Service :=
  mkService (opts s) (checkpoints s) (seq s) (lastErr s) inFlight queue (pending s) (pendingOrder s)
    (statusPending s) (events s) (clock s) (ticks s).
Definition set_pending (p : gmap string (list Accepted)) (order : list string) (s : Service) : Service :=
  mkService (opts s) (checkpoints s) (seq s) (lastErr s) (materializeInFlight s) (materializeQueue s) p order
    (statusPending s) (events s) (clock s) (ticks s).
Definition set_statuses (m : gmap string RS.t) (s : Service) : Service :=
  mkService (opts s) (checkpoints s) (seq s) (lastErr s) (materializeInFlight s) (materializeQueue s) (pending s) (pendingOrder s)
    m (events s) (clock s) (ticks s).
Definition fire (e : event) (s : Service) : Service :=
  mkService (opts s) (checkpoints s) (seq s) (lastErr s) (materializeInFlight s) (materializeQueue s) (pending s) (pendingOrder s)
    (statusPending s) (events s ++ [e]) (clock s) (ticks s).
Definition tick_clock (s : Service) : Service :=
  mkService (opts s) (checkpoints s) (seq s) (lastErr s) (materializeInFlight s) (materializeQueue s) (pending s) (pendingOrder s)
    (statusPending s) (events s) (clock s) (S (ticks s)).

Notation M := (io Service).

Definition on_store {A} (m : io Store A) : M A := zoom store set_store m.
Definition Now : M Z := λ s, (tick_clock s, Ok (clock s (ticks s))).

(** The process stops. *)
Definition stop (s : Store) : Store :=
  mkStore (index s) (bundles s) (manifests s) (manifestStates s) (roots s) (leafTiles s) (nodeTiles s) (decisions s)
    (checkpoint s) (readyMarker s) (committedMarker s) (idempotencyReady s) (hasCommittedBatch s) (disk s) (commits s) false.

Definition engine_call {A} (g : go A) : M A := λ s,
  match g with
  | Ret a => (s, Ok a)
  | Fail e => (s, Err e)
  | Stuck => (set_store (stop (store s)) s, Err (ErrorsNew "panic"))
  end.

(** [if err := m(); err != nil { handler; return err }] *)
Definition on_error {A} (m : M A) (handler : Service → Service) : M A := λ s,
  match m s with (s', Err e) => (handler s', Err e) | r => r end.
(** [if err := m(); err != nil { s.setLastError(err) }] *)
Definition best_effort {A} (m : M A) : M unit := λ s,
  match m s with (s', Err e) => (setLastError e s', Ok tt) | (s', Ok _) => (s', Ok tt) end.

Definition nextBatchID (now : Z) : M string := λ s,
  let n := u64 (seq s + 1) in (set_seq n s, Ok (batch_id now n)).

(** *** Statuses *)

Definition code_text (c : Code) : string :=
  match c with
  | CodeInvalidArgument => "INVALID_ARGUMENT"
  | CodeFailedPrecondition => "FAILED_PRECONDITION"
  | CodeAlreadyExists => "ALREADY_EXISTS"
  | CodeNotFound => "NOT_FOUND"
  | CodeResourceExhausted => "RESOURCE_EXHAUSTED"
  | CodeDeadlineExceeded => "DEADLINE_EXCEEDED"
  | CodeDataLoss => "DATA_LOSS"
  | CodeInternal => "INTERNAL"
  end.

Definition statusVersion (updatedAtUnixN : Z) : Z := if updatedAtUnixN <=? 0 then 1 else updatedAtUnixN.
Definition maxInt64 (values : list Z) : Z := foldl (λ m v, if m <? v then v else m) 0 values.

Definition fireOnRecordStatusesChanged (statuses : list RS.t) (s : Service) : Service :=
  match statuses with [] => s | _ => fire (RecordStatusesChanged statuses) s end.

Definition item_status (now : Z) (state batchID failureCode : string) (item : Accepted) : RS.t :=
  let r := Record_ item in
  let updatedAt :=
    if seqb state RecordStatusAccepted then
      let t := maxInt64 [r.(ServerRecord.ReceivedAtUnixN); (Accepted_ item).(AcceptedReceipt.ReceivedAtUnixN)] in
      if t =? 0 then now else t
    else now in
  RS.mk SchemaRecordStatus r.(ServerRecord.CryptoSuite) r.(ServerRecord.RecordID) r.(ServerRecord.TenantID)
    r.(ServerRecord.ClientID) r.(ServerRecord.KeyID) state prooflevel.L2 (statusVersion updatedAt) batchID updatedAt false
    (seqb state RecordStatusRetryPending) failureCode.

Definition store_statuses (statuses : list RS.t) (m : gmap string RS.t) : gmap string RS.t :=
  foldl (λ m st, <[st.(RS.RecordID) := st]> m) m statuses.

Definition setRecordStatuses (items : list Accepted) (state batchID : string) (notify : bool) (failureCode : string) : M unit :=
  match items with
  | [] => mret tt
  | _ =>
      now ← Now;
      let statuses := map (item_status now state batchID failureCode) items in
      modify (λ s,
        let s := set_statuses (store_statuses statuses (statusPending s)) s in
        if notify then fireOnRecordStatusesChanged statuses s else s)
  end.

Definition committed_status (batchID : string) (committedAt : Z) (item : Accepted) : RS.t :=
  let r := Record_ item in
  RS.mk SchemaRecordStatus r.(ServerRecord.CryptoSuite) r.(ServerRecord.RecordID) r.(ServerRecord.TenantID)
    r.(ServerRecord.ClientID) r.(ServerRecord.KeyID) RecordStatusCommitted prooflevel.L3 (statusVersion committedAt) batchID
    committedAt true false "".

Definition markRecordStatusesCommitted (items : list Accepted) (batchID : string) (committedAtUnixN : Z) : M unit :=
  match items with
  | [] => mret tt
  | _ =>
      now ← (if committedAtUnixN =? 0 then Now else mret committedAtUnixN);
      let statuses := map (committed_status batchID now) items in
      modify (λ s, fireOnRecordStatusesChanged statuses
        (set_statuses (foldl (λ m st, delete st.(RS.RecordID) m) (statusPending s) statuses) s))
  end.

Definition manifest_status (now : Z) (m : Man.t) (state failureCode : string) (st : RS.t) : RS.t :=
  RS.mk st.(RS.SchemaVersion) st.(RS.CryptoSuite) st.(RS.RecordID) st.(RS.TenantID) st.(RS.ClientID) st.(RS.KeyID)
    state st.(RS.ProofLevel) (statusVersion now) m.(Man.BatchID) now (seqb state RecordStatusFailed)
    (seqb state RecordStatusRetryPending) failureCode.

Definition setManifestRecordStatuses (m : Man.t) (state failureCode : string) : M unit :=
  now ← Now;
  modify (λ s,
    let found := omap (λ id, pair id <$> statusPending s !! id) m.(Man.RecordIDs) in
    let changed := map (λ p : string * RS.t, (p.1, manifest_status now m state failureCode p.2)) found in
    fireOnRecordStatusesChanged (map snd changed)
      (set_statuses (foldl (λ mp p, <[p.1 := p.2]> mp) (statusPending s) changed) s)).

(** The end of [enqueue] for an item that got into the queue, and for one that
    found the service closed. *)
Definition acceptItem (item : Accepted) : M unit :=
  _ ← setRecordStatuses [item] RecordStatusAccepted "" false "";
  modify (λ s,
    match statusPending s !! (Record_ item).(ServerRecord.RecordID) with
    | Some st => fireOnRecordStatusesChanged [st] s
    | None => s
    end).
Definition refuseItem (item : Accepted) : M unit :=
  _ ← setRecordStatuses [item] RecordStatusAccepted "" false "";
  modify (λ s, set_statuses (delete (Record_ item).(ServerRecord.RecordID) (statusPending s)) s).

(** *** Pending items *)

Definition maxPendingBatches : nat := 64.

(** The loop that forgets the oldest batches. *)
Definition rememberPending (batchID : string) (items : list Accepted) (s : Service) : Service :=
  let order := if decide (is_Some (pending s !! batchID)) then pendingOrder s else pendingOrder s ++ [batchID] in
  let p := <[batchID := items]> (pending s) in
  let excess := (length order - maxPendingBatches)%nat in
  set_pending (foldl (λ p b, delete b p) p (take excess order)) (drop excess order) s.

Fixpoint remove_first (b : string) (l : list string) : list string :=
  match l with
  | [] => []
  | x :: rest => if seqb x b then rest else x :: remove_first b rest
  end.
Definition forgetPending (batchID : string) (s : Service) : Service :=
  set_pending (delete batchID (pending s)) (remove_first batchID (pendingOrder s)) s.

(** *** Jobs *)

Definition enqueueMaterialization (job : materializeJob) (s : Service) : Service * bool :=
  if seqb (job_batch job) "" then (s, false) else
  if decide (job_batch job ∈ materializeInFlight s) then (s, true) else
  if (length (materializeQueue s) <? MaterializerQueueSize (opts s))%nat
  then (set_jobs ({[job_batch job]} ∪ materializeInFlight s) (materializeQueue s ++ [job]) s, true)
  else (s, false).

Definition releaseMaterialization (batchID : string) (s : Service) : Service :=
  set_jobs (materializeInFlight s ∖ {[batchID]}) (materializeQueue s) s.

Definition startAsyncMaterialize (batchID : string) (items : list Accepted) : M unit :=
  modify (λ s, (enqueueMaterialization (mkJob batchID items) s).1).

(** *** Manifests and roots *)

Definition walRangeFor (items : list Accepted) : WALRange.t :=
  match map batch_checkpoint.position items with
  | [] => WALRange.zero
  | p :: rest =>
      WALRange.mk (foldl (λ from pos, if pos.(Pos.Sequence) <? from.(Pos.Sequence) then pos else from) p rest)
        (foldl (λ to pos, if to.(Pos.Sequence) <? pos.(Pos.Sequence) then pos else to) p rest)
  end.

Definition rootFromBundles (batchID : string) (l : list Bun.t) : BatchRoot.t :=
  let b := default Bun.zero (head l) in
  let c := b.(Bun.CommittedReceipt) in
  BatchRoot.mk SchemaBatchRoot b.(Bun.CryptoSuite) batchID b.(Bun.NodeID) b.(Bun.LogID) c.(CommittedReceipt.BatchRoot) (len l)
    c.(CommittedReceipt.ClosedAtUnixN).

Definition with_state (state : string) (prepared committed attempts next : Z) (lastError code : string) (m : Man.t) : Man.t :=
  Man.mk m.(Man.SchemaVersion) m.(Man.CryptoSuite) m.(Man.BatchID) m.(Man.NodeID) m.(Man.LogID) state m.(Man.TreeAlg)
    m.(Man.TreeSize) m.(Man.BatchRoot) m.(Man.RecordIDs) m.(Man.WALRange) m.(Man.ClosedAtUnixN) m.(Man.PreparingAtUnixN)
    prepared committed attempts next lastError code.
Definition as_prepared (t : Z) (m : Man.t) : Man.t :=
  with_state BatchStatePrepared t m.(Man.CommittedAtUnixN) m.(Man.MaterializeAttempts) m.(Man.MaterializeNextUnixN)
    m.(Man.MaterializeLastError) m.(Man.MaterializeFailureCode) m.
Definition as_committed (t : Z) (m : Man.t) : Man.t :=
  with_state BatchStateCommitted m.(Man.PreparedAtUnixN) t m.(Man.MaterializeAttempts) m.(Man.MaterializeNextUnixN)
    m.(Man.MaterializeLastError) m.(Man.MaterializeFailureCode) m.
Definition as_materialized (t : Z) (m : Man.t) : Man.t :=
  with_state BatchStateCommitted m.(Man.PreparedAtUnixN) t m.(Man.MaterializeAttempts) 0 "" "" m.

Definition permanentMaterializationError (err : error) : bool :=
  bool_decide (CodeOf err = CodeInvalidArgument) || bool_decide (CodeOf err = CodeDataLoss).

(** In nanoseconds; the loop runs at most [fuel] times. *)
Fixpoint backoff (fuel : nat) (i attempts delay : Z) : Z :=
  match fuel with
  | O => delay
  | S fuel =>
      if (i <? attempts) && (delay <? 60000000000)
      then if 30000000000 <=? delay then 60000000000 else backoff fuel (i + 1) attempts (delay * 2)
      else if 60000000000 <? delay then 60000000000 else delay
  end.
Definition materializationBackoff (attempts : Z) : Z := backoff 11 1 attempts 100000000.

Section service.
Context `{HashLib, KeyDescriptorLib, UnicodeLib, SnappyLib, ErrorText, ComputeEngine}.
Context `{CborMode ClientClaim.t, CborMode claim.framing}.
Context `{CborMode Bun.t, CborMode storedProofBundleEnvelope, CborMode Idx.t, CborMode BatchRoot.t, CborMode Man.t}.
Context `{CborMode Dec.t, CborMode batchTreeLeafTile, CborMode batchTreeNodeTile, CborMode WCp.t}.

(** The items split by [splitAcceptedItems]. *)
Definition computeBatch (batchID : string) (closedAt : Z) (items : list Accepted) (compute : string) (tree : bool)
  : go BatchCommit :=
  engine_ComputeBatch batchID (Some closedAt) (map Signed items) (map Record_ items) (map Accepted_ items)
    (mkBatchOptions compute tree).

Definition PutManifest (m : Man.t) : M unit := on_store (batchstore.PutManifest m).

Definition writeBundlesAndRoot (batchID : string) (l : list Bun.t) : M BatchRoot.t :=
  if len l =? 0 then lift (Err (New CodeInternal "commit batch returned no proof bundles")) else
  let root := rootFromBundles batchID l in
  now ← Now;
  _ ← on_store (PutBatchArtifacts now l root);
  mret root.

Definition writeMaterializedBundles (batchID : string) (l : list Bun.t) : M BatchRoot.t :=
  if len l =? 0 then lift (Err (New CodeInternal "commit batch returned no proof bundles")) else
  let root := rootFromBundles batchID l in
  m ← reads (λ s, Ok (mode (opts s)));
  if negb (bool_decide (m = Inline))
  then _ ← on_store (PutMaterializedBatchArtifacts l); mret root
  else writeBundlesAndRoot batchID l.

Definition writeIndexesAndRoot (indexes : list Idx.t) (root : BatchRoot.t) : M unit :=
  now ← Now; on_store (PutPreparedBatchIndexesAndRoot now indexes root).

Definition writeBatchTree (snapshot : BatchTreeSnapshot.t) : M unit :=
  now ← Now; on_store (PutBatchTreeSnapshot now snapshot).

Definition markUnkeyedRecordsCommitted (l : list Bun.t) (s : Service) : Service :=
  foldl (λ s b, if seqb (idempotency_key b) "" then fire (RecordCommitted b.(Bun.RecordID)) s else s) s l.

Definition markDecisions (ds : list Dec.t) (s : Service) : Service :=
  foldl (λ s d, fire (IdempotencyCommitted d.(Dec.Identity) d.(Dec.Record).(ServerRecord.RecordID)) s) s ds.

Definition publishCommittedBatch (m : Man.t) (l : list Bun.t) : M unit :=
  ds ← on_store (PublishCommittedBatch m l);
  modify (λ s, markUnkeyedRecordsCommitted l (markDecisions ds s)).

(** The callbacks that this leaves queued are drained by steps of their own. *)
Definition advanceCheckpoint (batchID : string) (items : list Accepted) : M bool := λ s,
  let now := clock s (ticks s) in
  let '(c, r) := batch_checkpoint.advanceCheckpoint (checkpoint_opts (opts s)) now batchID items (checkpoints s) in
  (set_checkpoints c (tick_clock s), r).

(** ** Persistence of a batch *)

Definition plannedCommit (batchID : string) (closedAt : Z) (items : list Accepted) : M BatchCommit :=
  m ← reads (λ s, Ok (mode (opts s)));
  io_wrap CodeInternal "commit batch"
    (if bool_decide (m = Inline)
     then c ← engine_call (computeBatch batchID closedAt items BatchComputeMaterialized true);
          if negb (len (C_Bundles c) =? len items)
          then lift (Err (New CodeInternal "commit batch returned inconsistent proof count")) else mret c
     else c ← engine_call (computeBatch batchID closedAt items BatchComputePlanOnly true);
          if negb (len (C_Indexes c) =? len items)
          then lift (Err (New CodeInternal "batch index plan returned inconsistent index count")) else mret c).

Definition new_manifest (batchID : string) (c : BatchCommit) (items : list Accepted) (preparingAt : Z) : Man.t :=
  let root := C_Root c in
  Man.mk SchemaBatchManifest root.(BatchRoot.CryptoSuite) batchID root.(BatchRoot.NodeID) root.(BatchRoot.LogID)
    BatchStatePreparing (C_TreeAlg c) root.(BatchRoot.TreeSize) root.(BatchRoot.BatchRoot)
    (map (λ item, (Record_ item).(ServerRecord.RecordID)) items) (walRangeFor items) root.(BatchRoot.ClosedAtUnixN) preparingAt
    0 0 0 0 "" "".

(** The prepared manifest, whose proofs come later. *)
Definition persistPrepared (manifest : Man.t) (c : BatchCommit) (items : list Accepted) : M unit :=
  _ ← writeIndexesAndRoot (C_Indexes c) (C_Root c);
  _ ← writeBatchTree (C_Tree c);
  _ ← modify (rememberPending manifest.(Man.BatchID) items);
  t ← Now;
  _ ← on_error (PutManifest (as_prepared t manifest)) (forgetPending manifest.(Man.BatchID));
  m ← reads (λ s, Ok (mode (opts s)));
  if bool_decide (m = Async) then startAsyncMaterialize manifest.(Man.BatchID) items else mret tt.

Definition persistInline (manifest : Man.t) (c : BatchCommit) (items : list Accepted) : M unit :=
  root ← writeBundlesAndRoot manifest.(Man.BatchID) (C_Bundles c);
  _ ← writeBatchTree (C_Tree c);
  t ← Now;
  let manifest := as_committed t manifest in
  _ ← publishCommittedBatch manifest (C_Bundles c);
  _ ← best_effort (advanceCheckpoint manifest.(Man.BatchID) items);
  _ ← modify (fire (BatchCommitted root));
  markRecordStatusesCommitted items manifest.(Man.BatchID) manifest.(Man.CommittedAtUnixN).

Definition persistBatch (batchID : string) (closedAt : Z) (items : list Accepted) : M unit :=
  c ← plannedCommit batchID closedAt items;
  if seqb (C_TreeAlg c) "" then lift (Err (New CodeInternal "commit batch returned no tree algorithm")) else
  if existsb (λ b, negb (seqb b.(Bun.BatchProof).(BatchProof.TreeAlg) (C_TreeAlg c))) (C_Bundles c)
  then lift (Err (New CodeInternal "commit batch returned mixed tree algorithms")) else
  t ← Now;
  let manifest := new_manifest batchID c items t in
  _ ← PutManifest manifest;
  m ← reads (λ s, Ok (mode (opts s)));
  if bool_decide (m = Inline) then persistInline manifest c items else persistPrepared manifest c items.

Definition persistOrReport (batchID : string) (start : Z) (items : list Accepted) : M unit := λ s,
  match persistBatch batchID start items s with
  | (s, Ok _) => (s, Ok tt)
  | (s, Err e) => setRecordStatuses items RecordStatusRetryPending batchID true (code_text (CodeOf e)) (setLastError e s)
  end.

Definition commit (items : list Accepted) : M unit :=
  match items with
  | [] => mret tt
  | _ =>
      start ← Now;
      batchID ← nextBatchID start;
      _ ← setRecordStatuses items RecordStatusProcessing batchID true "";
      persistOrReport batchID start items
  end.

(** ** Materialization *)

Definition materializeManifest (manifest : Man.t) (items : list Accepted) : M BatchRoot.t :=
  m ← reads (λ s, Ok (mode (opts s)));
  c ← engine_call (computeBatch manifest.(Man.BatchID) manifest.(Man.ClosedAtUnixN) items BatchComputeMaterialized
                     (bool_decide (m = Inline)));
  if negb (len (C_Bundles c) =? len manifest.(Man.RecordIDs))
  then lift (Err (New CodeInternal "materialized bundle count mismatch")) else
  if seqb (C_TreeAlg c) "" || negb (seqb (C_TreeAlg c) manifest.(Man.TreeAlg))
  then lift (Err (New CodeDataLoss "materialized batch tree algorithm does not match prepared manifest")) else
  if (0 <? len manifest.(Man.BatchRoot)) && negb (bytes_equal manifest.(Man.BatchRoot) (C_Root c).(BatchRoot.BatchRoot))
  then lift (Err (New CodeDataLoss "materialized batch root does not match prepared manifest")) else
  root ← writeMaterializedBundles manifest.(Man.BatchID) (C_Bundles c);
  _ ← (if bool_decide (m = Inline) then writeBatchTree (C_Tree c) else mret tt);
  t ← (if manifest.(Man.CommittedAtUnixN) =? 0 then Now else mret manifest.(Man.CommittedAtUnixN));
  let manifest := as_materialized t manifest in
  _ ← publishCommittedBatch manifest (C_Bundles c);
  _ ← best_effort (advanceCheckpoint manifest.(Man.BatchID) items);
  _ ← modify (forgetPending manifest.(Man.BatchID));
  _ ← modify (fire (BatchCommitted root));
  _ ← markRecordStatusesCommitted items manifest.(Man.BatchID) manifest.(Man.CommittedAtUnixN);
  mret root.

Definition materializationItems (manifest : Man.t) (s : Service) : result (list Accepted) :=
  match default [] (pending s !! manifest.(Man.BatchID)) with
  | [] =>
      match LoadBatchItems (opts s) with
      | None => Err (New CodeFailedPrecondition "proof bundle is not materialized")
      | Some load => load manifest
      end
  | items => Ok items
  end.

Definition failed_manifest (now : Z) (manifest : Man.t) (cause : error) : Man.t :=
  let attempts := manifest.(Man.MaterializeAttempts) + 1 in
  let permanent := permanentMaterializationError cause in
  with_state (if permanent then BatchStateFailed else BatchStatePrepared) manifest.(Man.PreparedAtUnixN)
    manifest.(Man.CommittedAtUnixN) attempts (if permanent then 0 else i64 (now + materializationBackoff attempts))
    (error_text cause) (code_text (CodeOf cause)) manifest.

Definition recordMaterializationFailure (manifest : Man.t) (cause : error) : M unit := λ s,
  let manifest := match GetManifest manifest.(Man.BatchID) (store s) with Ok latest => latest | Err _ => manifest end in
  if is_committed manifest then (s, Ok tt) else
  let failed := failed_manifest (clock s (ticks s)) manifest cause in
  match PutManifest failed (tick_clock s) with
  | (s, Err e) => (setLastError e s, Ok tt)
  | (s, Ok _) =>
      setManifestRecordStatuses failed
        (if seqb failed.(Man.State) BatchStateFailed then RecordStatusFailed else RecordStatusRetryPending)
        failed.(Man.MaterializeFailureCode) s
  end.

Definition runMaterializationJob (job : materializeJob) : M unit := λ s,
  match GetManifest (job_batch job) (store s) with
  | Err e => (setLastError e s, Ok tt)
  | Ok manifest =>
      let now := clock s (ticks s) in
      let s := tick_clock s in
      if is_committed manifest || seqb manifest.(Man.State) BatchStateFailed then (s, Ok tt) else
      if negb (seqb manifest.(Man.State) BatchStatePrepared) || (now <? manifest.(Man.MaterializeNextUnixN)) then (s, Ok tt) else
      let failed e s := let '(s, r) := recordMaterializationFailure manifest e s in (setLastError e s, r) in
      match (match job_items job with [] => materializationItems manifest s | items => Ok items end) with
      | Err e => failed e s
      | Ok items =>
          match materializeManifest manifest items s with
          | (s, Err e) => failed e s
          | (s, Ok _) => (s, Ok tt)
          end
      end
  end.

(** One iteration of [materializerWorker]. *)
Definition materializerWorker (s : Service) : Service :=
  match materializeQueue s with
  | [] => s
  | job :: rest =>
      releaseMaterialization (job_batch job) (runMaterializationJob job (set_jobs (materializeInFlight s) rest s)).1
  end.

(** The batches that the scan found. *)
Fixpoint schedulePreparedManifests (batches : list string) (s : Service) : Service :=
  match batches with
  | [] => s
  | b :: rest =>
      let '(s, ok) := enqueueMaterialization (mkJob b []) s in
      if ok then schedulePreparedManifests rest s else s
  end.

(** ** Recovery *)

Fixpoint check_items (items : list Accepted) (ids : list string) : bool :=
  match items, ids with
  | item :: items, id :: ids => seqb (Record_ item).(ServerRecord.RecordID) id && check_items items ids
  | _, _ => true
  end.

Definition RecoverManifest (manifest : Man.t) (items : list Accepted) : M unit :=
  _ ← reads (λ s, batch_checkpoint.requireConfig (checkpoint_opts (opts s)));
  _ ← setRecordStatuses items RecordStatusProcessing manifest.(Man.BatchID) false "";
  if is_committed manifest
  then markRecordStatusesCommitted items manifest.(Man.BatchID) manifest.(Man.CommittedAtUnixN) else
  if seqb manifest.(Man.State) BatchStateFailed
  then _ ← setRecordStatuses items RecordStatusFailed manifest.(Man.BatchID) true manifest.(Man.MaterializeFailureCode);
       lift (Err (New CodeFailedPrecondition "batch materialization is permanently failed")) else
  if negb (seqb manifest.(Man.State) BatchStatePreparing) && negb (seqb manifest.(Man.State) BatchStatePrepared)
  then lift (Err (New CodeFailedPrecondition "unknown batch manifest state: ")) else
  if negb (len items =? len manifest.(Man.RecordIDs))
  then lift (Err (New CodeFailedPrecondition "recovered items do not match manifest record count")) else
  if negb (check_items items manifest.(Man.RecordIDs))
  then lift (Err (New CodeFailedPrecondition "recovered item record_id mismatch")) else
  m ← reads (λ s, Ok (mode (opts s)));
  let finish manifest :=
    _ ← io_wrap CodeInternal "rebuild batch during recovery" (materializeManifest manifest items); mret tt in
  if bool_decide (m = Inline) then finish manifest else
  c ← io_wrap CodeInternal "rebuild batch indexes during recovery"
        (engine_call (computeBatch manifest.(Man.BatchID) manifest.(Man.ClosedAtUnixN) items BatchComputePlanOnly true));
  if (0 <? len manifest.(Man.BatchRoot)) && negb (bytes_equal manifest.(Man.BatchRoot) (C_Root c).(BatchRoot.BatchRoot))
  then lift (Err (New CodeDataLoss "recovered batch root does not match prepared manifest")) else
  _ ← writeIndexesAndRoot (C_Indexes c) (C_Root c);
  _ ← writeBatchTree (C_Tree c);
  t ← (if manifest.(Man.PreparedAtUnixN) =? 0 then Now else mret manifest.(Man.PreparedAtUnixN));
  let manifest := as_prepared t manifest in
  _ ← PutManifest manifest;
  if bool_decide (m = OnDemand) then mret tt else finish manifest.

(** ** Queries *)

Definition requireCommittedManifest (b : Bun.t) (st : Store) : result unit :=
  let batchID := b.(Bun.CommittedReceipt).(CommittedReceipt.BatchID) in
  if seqb batchID "" then Ok tt else
  match GetManifest batchID st with
  | Err e => if bool_decide (CodeOf e = CodeNotFound) then Ok tt else Err e
  | Ok m => if is_committed m then Ok tt else Err (New CodeNotFound "proof bundle is not committed yet")
  end.

(** The single flight of a batch is one step. *)
Definition materializeRecord (recordID : string) : M unit := λ s,
  match GetBundle recordID (store s) with
  | Ok _ => (s, Ok tt)
  | Err e =>
      if negb (bool_decide (CodeOf e = CodeNotFound)) then (s, Err e) else
      match recordindex.GetRecordIndex recordID (index (store s)) with
      | Err e => (s, Err e)
      | Ok None => (s, Err (New CodeNotFound "proof bundle not found"))
      | Ok (Some idx) =>
          if seqb idx.(Idx.BatchID) "" then (s, Err (New CodeNotFound "proof bundle not found")) else
          match GetManifest idx.(Idx.BatchID) (store s) with
          | Err e => (s, Err e)
          | Ok manifest =>
              if is_committed manifest then (s, Ok tt) else
              if seqb manifest.(Man.State) BatchStateFailed
              then (s, Err (New CodeFailedPrecondition "batch materialization failed")) else
              match materializationItems manifest s with
              | Err e => (s, Err e)
              | Ok items => let '(s, r) := materializeManifest manifest items s in (s, _ ← r; Ok tt)
              end
          end
      end
  end.

Definition read_proof (recordID : string) (st : Store) : result Bun.t :=
  b ← GetBundle recordID st; _ ← requireCommittedManifest b st; Ok b.

Definition Proof_ (recordID : string) : M Bun.t := λ s,
  match GetBundle recordID (store s) with
  | Ok b =>
      if bool_decide (mode (opts s) = Inline) then (s, Ok b)
      else (s, _ ← requireCommittedManifest b (store s); Ok b)
  | Err e =>
      if negb (bool_decide (mode (opts s) = OnDemand)) then (s, Err e) else
      if negb (bool_decide (CodeOf e = CodeNotFound)) then (s, Err e) else
      match materializeRecord recordID s with
      | (s, Err e) => (s, Err e)
      | (s, Ok _) => (s, read_proof recordID (store s))
      end
  end.

Definition RecordStatus_ (recordID : string) (s : Service) : result (option RS.t) :=
  let recordID := TrimSpace recordID in
  if seqb recordID "" then Err (New CodeInvalidArgument "record_id is required") else
  match statusPending s !! recordID with
  | Some st => Ok (Some st)
  | None =>
      found ← recordindex.GetRecordIndex recordID (index (store s));
      match found with
      | None => Ok None
      | Some idx =>
          let status state level updatedAt terminal failure :=
            Ok (Some (RS.mk SchemaRecordStatus idx.(Idx.CryptoSuite) idx.(Idx.RecordID) idx.(Idx.TenantID) idx.(Idx.ClientID)
              idx.(Idx.KeyID) state level (statusVersion updatedAt) idx.(Idx.BatchID) updatedAt terminal false failure)) in
          let level := recordsearch.RecordIndexProofLevel idx in
          let committed t := status RecordStatusCommitted level t true "" in
          if seqb idx.(Idx.BatchID) "" then committed idx.(Idx.BatchClosedAtUnixN) else
          match GetManifest idx.(Idx.BatchID) (store s) with
          | Err e => if bool_decide (CodeOf e = CodeNotFound) then committed idx.(Idx.BatchClosedAtUnixN) else Err e
          | Ok m =>
              if seqb m.(Man.State) BatchStatePreparing || seqb m.(Man.State) BatchStatePrepared
              then status RecordStatusProcessing prooflevel.L2
                     (maxInt64 [m.(Man.PreparedAtUnixN); m.(Man.PreparingAtUnixN); idx.(Idx.ReceivedAtUnixN)]) false "" else
              if seqb m.(Man.State) BatchStateFailed
              then status RecordStatusFailed prooflevel.L2
                     (maxInt64 [m.(Man.MaterializeNextUnixN); m.(Man.PreparedAtUnixN); m.(Man.PreparingAtUnixN)]) true
                     m.(Man.MaterializeFailureCode)
              else committed (maxInt64 [m.(Man.CommittedAtUnixN); idx.(Idx.BatchClosedAtUnixN); idx.(Idx.ReceivedAtUnixN)])
          end
      end
  end.

(** ** Start *)

Definition positive (n default : Z) : Z := if n <=? 0 then default else n.

Definition configure (c : Config) (st : Store) : Options :=
  let suite :=
    match cryptosuite.RequireAvailable (CryptoSuite c) with
    | Ok suite => (cryptosuite.SuiteID suite, None)
    | Err e => (CryptoSuite c, Some (Wrap CodeInvalidArgument "batch crypto_suite" (Some e)))
    end in
  mkOptions (batch_checkpoint.mkOptions suite.1 suite.2 (WALCheckpointPruneSafe st) (OnCheckpointAdvanced c))
    (normalizeProofMode (ProofMode_ c)) (Z.to_nat (positive (MaterializerQueue c) 4)) (LoadItems c).

(** The clock has been read [n] times. *)
Definition New (c : Config) (clk : nat → Z) (n : nat) (st : Store) : Service :=
  mkService (configure c st) (batch_checkpoint.New (DeferCheckpointAdvance c) st) (InitialSeq c) None ∅ [] ∅ [] ∅ [] clk n.
End service.
End batch.
