(* ===== verification/BatchServiceProofs.v ===== *)
(** * The invariant of the batch service

    Whatever the service did, and wherever the disk failed or the process
    stopped: the store is sound, the runs of the checkpoint are those of records
    with a stored proof in a committed batch, and the items that wait for their
    proofs are those of their manifest. *)

From stdpp Require Import sorting.
From S2P Require Import Prelude TrustErr CryptoSuite Model TrustCrypto Cborx KeyDescriptor ModelSuite.
From S2P Require Import StoreMonad GlobalStore AnchorSchedule AnchorStore AnchorStoreProofs ProofLevel RecordSearch RecordIndex RecordIndexOps Outbox.
From S2P Require Import Merkle Claim Receipt Wal WalDir WalQueue Idempotency IdemIndex App BatchCheckpoint BatchCheckpointProofs.
From S2P Require Import BatchStore BatchStoreProofs BatchCommitted BatchService.

(** What the service relies on in the engine: the bundles and the indexes are
    those of the items, in their order, for the batch. *)
Class EngineLaws `{ComputeEngine} := {
  engine_bundles b t items o c i bundle :
    engine_ComputeBatch b t (map batch_checkpoint.Signed items) (map batch_checkpoint.Record_ items)
      (map batch_checkpoint.Accepted_ items) o = Ret c →
    app_batch.C_Bundles c !! i = Some bundle → ∃ item, items !! i = Some item ∧
      bundle.(Bun.ServerRecord) = batch_checkpoint.Record_ item ∧
      bundle.(Bun.RecordID) = (batch_checkpoint.Record_ item).(ServerRecord.RecordID) ∧
      bundle.(Bun.CommittedReceipt).(CommittedReceipt.BatchID) = b;
  engine_indexes b t items o c i idx :
    engine_ComputeBatch b t (map batch_checkpoint.Signed items) (map batch_checkpoint.Record_ items)
      (map batch_checkpoint.Accepted_ items) o = Ret c →
    app_batch.C_Indexes c !! i = Some idx → ∃ item, items !! i = Some item ∧
      idx.(Idx.RecordID) = (batch_checkpoint.Record_ item).(ServerRecord.RecordID) ∧ idx.(Idx.BatchID) = b }.

Module batch_service_proofs.
Import batchstore batchstore_ops batch_committed batch_safety batch.
Import batch_checkpoint (Accepted, Signed, Record_, Accepted_, position).
Import app_batch (BatchCommit, C_TreeAlg, C_Root, C_Indexes, C_Tree, C_Bundles, mkBatchOptions).
Import batch_checkpoint_proofs (ok, good).
Import batch_checkpoint_ops (input_ok).
Import anchorstore_proofs (encodes).
#[local] Existing Instance batchstore_proofs.pebble_checkpoints.
#[local] Existing Instance batchstore_proofs.pebble_checkpoint_laws.

(** ** The store below the checkpoint *)

Section checkpoint.
Import batch_checkpoint.
Context `{CheckpointStore St} (o : Options).

(** At most one checkpoint is written. *)
Definition puts (s s' : St) : Prop := s' = s ∨ ∃ now cp, s' = (BatchCheckpoint.PutCheckpoint now cp s).1.

Lemma merge_store runs (s : Service St) : post (mergeRuns runs) s (λ _ s', store s' = store s).
Proof.
  revert s. induction runs as [|run runs IH]; intros s; [done|]. unfold mergeRuns. cbn [for_each]. apply post_bind.
  unfold post at 1. destruct (_ || _); [apply IH|]. unfold mergeCheckpointCoverageLocked.
  destruct (absorb _ _) as [[]|]; [|done]. cbn [fst snd]. eapply post_mono; [apply IH|]. by intros ? ? ->.
Qed.

Lemma flush_store now (s : Service St) : post (flushCheckpointLocked o now) s (λ _ s', puts (store s) (store s')).
Proof.
  unfold post, flushCheckpointLocked. assert (store (loadCheckpointLocked o s).1 = store s) as El.
  { unfold loadCheckpointLocked. destruct (checkpointLoaded s); [done|]. destruct (wrap_err _ _ _) as [[x|]|]; [|done..].
    by destruct (checkExisting o x). }
  destruct (loadCheckpointLocked o s) as [s1 [[]|e]]; [|by left; rewrite <- El]. cbn in El.
  assert (store (consumeCheckpointCoverageLocked s1) = store s) as Ec.
  { unfold consumeCheckpointCoverageLocked. by destruct (consume _ _). }
  set (s2 := consumeCheckpointCoverageLocked s1) in *. destruct (_ || _); [left; by rewrite <- Ec|].
  set (cp := WCp.mk _ _ _ _ _ _ _ _ _). rewrite Ec.
  destruct (BatchCheckpoint.PutCheckpoint now cp (store s)) as [st [[]|e]] eqn:Ep; right; exists now, cp; rewrite Ep; [|done].
  unfold enqueueCallback. destruct (negb (hook o)); [done|]. destruct (negb _); [done|]. by destruct (checkpointCallbacks _).
Qed.

Lemma add_store now runs (s : Service St) : post (addCheckpointCoverage o now runs) s (λ _ s', puts (store s) (store s')).
Proof.
  destruct runs as [|run runs]; [by left|]. apply post_bind. eapply post_mono; [apply merge_store|].
  intros [] s' Es; [rewrite <- Es; apply flush_store|left; done].
Qed.

Lemma advance_store now b items (s : Service St) :
  post (advanceCheckpoint o now b items) s (λ _ s', puts (store s) (store s')).
Proof.
  unfold advanceCheckpoint. io_step; [by left|]. io_step; [intros; by left|].
  io_step; (io_step; [intros; by left|]); apply add_store.
Qed.

Lemma start_store now (s : Service St) : post (StartCheckpointAdvance o now) s (λ _ s', puts (store s) (store s')).
Proof.
  unfold StartCheckpointAdvance. io_step; [intros; by left|]. io_step; [by left|]. apply post_bind, post_modify.
  exact (flush_store now (set_deferred false s)).
Qed.

Lemma range_store now first last b (s : Service St) :
  post (RecordCommittedWALRange o now first last b) s (λ _ s', puts (store s) (store s')).
Proof.
  unfold RecordCommittedWALRange. io_step; [intros; by left|]. io_step; [by left|]. io_step; [by left|].
  io_step; [by left|apply add_store].
Qed.
End checkpoint.

Section proofs.
Context `{HashLib, KeyDescriptorLib, UnicodeLib, SnappyLib, ErrorText, ComputeEngine, !EngineLaws}.
Context `{CborMode ClientClaim.t, CborMode claim.framing}.
Context `{CborMode Bun.t, CborMode storedProofBundleEnvelope, CborMode Idx.t, CborMode BatchRoot.t, CborMode Man.t}.
Context `{CborMode Dec.t, CborMode batchTreeLeafTile, CborMode batchTreeNodeTile, CborMode WCp.t}.
Context `{!CborModeExact WCp.t, !CborModeExact Man.t, !CborModeExact Idx.t, !CborModeExact Dec.t}.
Context `{!CborModeInjective Man.t}.

(** ** The invariant *)

(** A record of the log has its proof in a committed batch. *)
Definition proved_at (st : Store) (p : Pos.t) : Prop :=
  ∃ m id b, committed st m ∧ id ∈ m.(Man.RecordIDs) ∧ GetBundle id st = Ok b ∧ b.(Bun.ServerRecord).(ServerRecord.WAL) = p.
Definition proved (st : Store) (n : Z) : Prop := ∃ p, proved_at st p ∧ p.(Pos.Sequence) = n.

Definition record_id (item : Accepted) : string := (Record_ item).(ServerRecord.RecordID).
Definition in_range (items : list Accepted) : Prop := Forall (λ p, in_u64 p.(Pos.Sequence)) (map position items).

(** The items are those of the stored manifest. *)
Definition items_fit (st : Store) (b : string) (items : list Accepted) : Prop :=
  has st b (map record_id items) ∧ in_range items.

Definition load_ok (l : option (Man.t → result (list Accepted))) : Prop :=
  ∀ load m items, l = Some load → load m = Ok items → map record_id items = m.(Man.RecordIDs) ∧ in_range items.

Definition announced (st : Store) (e : event) : Prop :=
  match e with
  | BatchCommitted root => ∃ m, committed st m ∧ m.(Man.BatchID) = root.(BatchRoot.BatchID)
  | _ => True
  end.

Record Inv (s : Service) : Prop := {
  I_store : inv (store s);
  I_checkpoint : ok (proved (store s)) (proved_at (store s)) (checkpoints s);
  I_pending b items : pending s !! b = Some items → items_fit (store s) b items;
  I_queue : Forall (λ j, job_items j = [] ∨ items_fit (store s) (job_batch j) (job_items j)) (materializeQueue s);
  I_load : load_ok (LoadBatchItems (opts s));
  I_events : Forall (announced (store s)) (events s) }.

Definition kept (s s' : Service) : Prop := keeps (store s) (store s') ∧ opts s' = opts s.
#[export] Instance kept_preorder : PreOrder kept.
Proof. split; [by intros s; split|]. intros s1 s2 s3 [K1 O1] [K2 O2]. split; [by etrans|congruence]. Qed.

Notation sound m s := (steps Inv kept m s).

Lemma proved_mono st st' p : keeps st st' → proved_at st p → proved_at st' p.
Proof.
  intros K (m & id & b & Hm & Hid & Hg & Hp). exists m, id, b. split_and!; [by eapply keeps_committed|done| |done].
  rewrite <- Hg. by apply GetBundle_same, (kept_bundle _ _ K m).
Qed.

Lemma good_mono (C C' : Z → Prop) (P P' : Pos.t → Prop) cp :
  (∀ n, C n → C' n) → (∀ p, P p → P' p) → good C P cp → good C' P' cp.
Proof. intros HC HP (? & ? & ?). split_and!; auto; naive_solver. Qed.

Lemma ok_mono (C C' : Z → Prop) (P P' : Pos.t → Prop) (c : batch_checkpoint.Service Store) :
  (∀ n, C n → C' n) → (∀ p, P p → P' p) → ok C P c → ok C' P' c.
Proof.
  intros HC HP []. constructor; try done; eauto using good_mono. eapply Forall_impl; [exact ok_calls|]. intros cp. by apply good_mono.
Qed.

Lemma fit_mono st st' b items : keeps st st' → items_fit st b items → items_fit st' b items.
Proof. intros K [? ?]. split; [by apply (kept_has _ _ K)|done]. Qed.

Lemma announced_mono st st' e : keeps st st' → announced st e → announced st' e.
Proof. intros K. destruct e; [|done..]. intros (m & ? & ?). exists m. split; [by eapply keeps_committed|done]. Qed.

(** A new store below the same service. *)
Lemma Inv_store s c :
  Inv s → inv (batch_checkpoint.store c) → keeps (store s) (batch_checkpoint.store c) →
  ok (proved (batch_checkpoint.store c)) (proved_at (batch_checkpoint.store c)) c → Inv (set_checkpoints c s).
Proof.
  intros I Hs K O. constructor; cbn; unfold store; cbn; [done|done| | |apply I|].
  - intros b items Hb. eapply fit_mono; [exact K|]. by apply I.
  - eapply Forall_impl; [apply I|]. intros j [?|?]; [by left|right]. by eapply fit_mono.
  - eapply Forall_impl; [apply I|]. intros e. by apply announced_mono.
Qed.

Lemma ok_put_store s st' :
  Inv s → keeps (store s) st' → cp_kept (store s) st' →
  ok (proved st') (proved_at st') (batch_checkpoint.put_store st' (checkpoints s)).
Proof.
  intros I K Hc. assert (ok (proved st') (proved_at st') (checkpoints s)) as O.
  { eapply ok_mono, (I_checkpoint _ I); [intros n (p & ? & ?); exists p; split; [|done]|intros p ?]; by eapply proved_mono. }
  destruct O. constructor; try done. cbn. unfold BatchCheckpoint.GetCheckpoint in *. cbn in *. unfold batchstore.GetCheckpoint in *.
  fold (store s) in ok_stored. destruct Hc as [Hc|Hc]; rewrite Hc; [exact ok_stored|done].
Qed.

Lemma sound_store {A} (m : io Store A) s :
  safe m (store s) → steps (λ _, True) cp_kept m (store s) → sound (on_store m) s.
Proof.
  intros Hm Hc I. apply post_zoom. unfold post. destruct (Hm (I_store _ I)) as [Hi K]. destruct (Hc Logic.I) as [_ C].
  split; [apply Inv_store; [done|exact Hi|exact K|by apply ok_put_store]|split; [exact K|done]].
Qed.

Lemma sound_calm {A} (m : io Store A) s :
  safe m (store s) → steps (λ _, True) calm m (store s) → sound (on_store m) s.
Proof. intros Hm Hc. apply sound_store; [done|]. eapply steps_mono; [|exact Hc]. by intros ? ? []. Qed.

(** ** Changes of the memory *)

Record frame (s s' : Service) : Prop := {
  fr_opts : opts s' = opts s;
  fr_checkpoints : checkpoints s' = checkpoints s;
  fr_pending b items : pending s' !! b = Some items → pending s !! b = Some items;
  fr_queue j : j ∈ materializeQueue s' → j ∈ materializeQueue s;
  fr_events root : BatchCommitted root ∈ events s' → BatchCommitted root ∈ events s }.

#[export] Instance frame_preorder : PreOrder frame.
Proof. split; [done|]. intros s1 s2 s3 [] []. constructor; try congruence; eauto. Qed.

Lemma frame_Inv s s' : frame s s' → Inv s → Inv s' ∧ kept s s'.
Proof.
  intros [Fo Fc Fp Fq Fe] I. assert (store s' = store s) as Es by (unfold store; by rewrite Fc).
  split; [|split; [by rewrite Es|done]]. constructor; rewrite ?Es, ?Fc, ?Fo; try apply I.
  - intros b items Hb. by apply I, Fp.
  - apply Forall_forall. intros j Hj. pose proof (I_queue _ I) as Hq. rewrite Forall_forall in Hq. by apply Hq, Fq.
  - apply Forall_forall. intros e He. destruct e; [|done..]. pose proof (I_events _ I) as Hq. rewrite Forall_forall in Hq. by apply Hq, Fe.
Qed.

Lemma sound_frame {A} (m : M A) s : steps (λ _, True) frame m s → sound m s.
Proof. intros Hm I. destruct (Hm Logic.I) as [_ Hf]. by apply frame_Inv. Qed.

Lemma frame_modify f s : frame s (f s) → steps (λ _, True) frame (modify f) s.
Proof. intros Hf. by apply steps_modify. Qed.

Lemma frame_fire e s : (∀ root, e ≠ BatchCommitted root) → frame s (fire e s).
Proof.
  intros He. constructor; try done. intros root. cbn. rewrite elem_of_app, list_elem_of_singleton.
  intros [?|Hr]; [done|]. by destruct (He root).
Qed.

Lemma frame_statuses statuses m s : frame s (fireOnRecordStatusesChanged statuses (set_statuses m s)).
Proof. destruct statuses; [by constructor|]. etrans; [|by apply frame_fire]. by constructor. Qed.

Lemma frame_Now s : steps (λ _, True) frame Now s.
Proof. by intros _. Qed.

Lemma frame_setRecordStatuses items state b notify code s :
  steps (λ _, True) frame (setRecordStatuses items state b notify code) s.
Proof.
  unfold setRecordStatuses. destruct items as [|x items]; [apply steps_ret|]. apply steps_bind; [apply frame_Now|].
  intros now s1 _ _. apply frame_modify. cbn zeta. destruct notify; [apply frame_statuses|by constructor].
Qed.

Lemma frame_accept item s : steps (λ _, True) frame (acceptItem item) s.
Proof.
  apply steps_bind; [apply frame_setRecordStatuses|]. intros [] s1 _ _. apply frame_modify.
  destruct (statusPending s1 !! _); [by apply frame_fire|done].
Qed.
Lemma frame_refuse item s : steps (λ _, True) frame (refuseItem item) s.
Proof. apply steps_bind; [apply frame_setRecordStatuses|]. intros [] s1 _ _. by apply frame_modify. Qed.

Lemma frame_mark items b t s : steps (λ _, True) frame (markRecordStatusesCommitted items b t) s.
Proof.
  unfold markRecordStatusesCommitted. destruct items as [|x items]; [apply steps_ret|]. apply steps_bind.
  - apply steps_if; intros _; [apply frame_Now|apply steps_ret].
  - intros now s1 _ _. apply frame_modify, frame_statuses.
Qed.

Lemma frame_manifest m state code s : steps (λ _, True) frame (setManifestRecordStatuses m state code) s.
Proof. unfold setManifestRecordStatuses. apply steps_bind; [apply frame_Now|]. intros now s1 _ _. apply frame_modify, frame_statuses. Qed.

Lemma frame_error e s : frame s (setLastError e s).
Proof. by constructor. Qed.
Lemma frame_forget b s : frame s (forgetPending b s).
Proof. constructor; try done. intros b' items Hb. cbn in Hb. by apply lookup_delete_Some in Hb as [_ ?]. Qed.
Lemma frame_release b s : frame s (releaseMaterialization b s).
Proof. by constructor. Qed.

Lemma frame_foldl {A} (f : Service → A → Service) l s : (∀ s a, frame s (f s a)) → frame s (foldl f s l).
Proof. intros Hf. revert s. induction l as [|a l IH]; intros s; [done|]. cbn. etrans; [apply Hf|apply IH]. Qed.

Lemma frame_published l ds s : frame s (markUnkeyedRecordsCommitted l (markDecisions ds s)).
Proof.
  trans (markDecisions ds s); unfold markUnkeyedRecordsCommitted, markDecisions.
  - apply frame_foldl. intros x d. by apply frame_fire.
  - apply frame_foldl. intros x b. destruct (seqb _ _); [by apply frame_fire|done].
Qed.

(** ** The engine and the checkpoint *)

Lemma stop_same st : same st (stop st).
Proof. by destruct st. Qed.

Lemma sound_engine {A} (g : go A) s : sound (engine_call g) s.
Proof.
  intros I. destruct g as [a|e|]; [done..|]. unfold post. cbn.
  assert (keeps (store s) (stop (store s))) as K by apply same_keeps, stop_same.
  split; [|split; [exact K|done]]. apply Inv_store; [done| |exact K|].
  - split; [eapply same_tables; [apply stop_same|apply I]|]. intros ?. done.
  - apply ok_put_store; [done|exact K|]. by left.
Qed.

Lemma engine_Ret {A} (g : go A) s s' a : engine_call g s = (s', Ok a) → s' = s ∧ g = Ret a.
Proof. destruct g; cbn; intros E; simplify_eq. done. Qed.

Lemma puts_safe st st' : inv st → puts st st' → inv st' ∧ keeps st st'.
Proof. intros I [->|(now & cp & ->)]; [done|]. exact (safe_checkpoint now cp st I). Qed.

(** The checkpoint advances over records that are proved. *)
Lemma sound_advance b items s :
  (Inv s → Forall (input_ok (proved (store s)) (proved_at (store s))) (map position items)) →
  sound (advanceCheckpoint b items) s.
Proof.
  intros Hi I. unfold post, advanceCheckpoint.
  pose proof (batch_checkpoint_ops.batch_commit_spec _ _ (checkpoint_opts (opts s)) (clock s (ticks s)) b items _ (I_checkpoint _ I) (Hi I)) as Ho.
  pose proof (advance_store (checkpoint_opts (opts s)) (clock s (ticks s)) b items (checkpoints s)) as Hp. unfold post in Ho, Hp.
  destruct (batch_checkpoint.advanceCheckpoint _ _ _ _ _) as [c r]. cbn in Ho, Hp |- *. destruct Ho as [O _].
  destruct (puts_safe _ _ (I_store _ I) Hp) as [Hs K]. split; [|split; [exact K|done]].
  apply Inv_store; [|exact Hs|exact K|].
  - by apply (frame_Inv s).
  - eapply ok_mono, O; [intros n (p & ? & ?); exists p; split; [|done]|intros p ?]; by eapply proved_mono.
Qed.

Lemma sound_best_effort {A} (m : M A) s : sound m s → sound (best_effort m) s.
Proof.
  intros Hm I. specialize (Hm I). unfold post, best_effort in *. destruct (m s) as [s' [a|e]]; [done|]. cbn in *.
  destruct Hm as [I' K]. destruct (frame_Inv s' (setLastError e s') (frame_error e s') I') as [? ?]. split; [done|by etrans].
Qed.

Lemma sound_on_error {A} (m : M A) h s : (∀ s, frame s (h s)) → sound m s → sound (on_error m h) s.
Proof.
  intros Hh Hm I. specialize (Hm I). unfold post, on_error in *. destruct (m s) as [s' [a|e]]; [done|]. cbn in *.
  destruct Hm as [I' K]. destruct (frame_Inv s' (h s') (Hh s') I') as [? ?]. split; [done|by etrans].
Qed.

(** ** The artifacts of a batch *)

Lemma sound_Now s : sound Now s.
Proof. apply sound_frame, frame_Now. Qed.

Lemma fit_bundles st b t items o c :
  has st b (map record_id items) →
  engine_ComputeBatch b t (map Signed items) (map Record_ items) (map Accepted_ items) o = Ret c →
  Forall (bundle_fits st) (C_Bundles c).
Proof.
  intros Hh Hc. apply Forall_forall. intros x (i & Hi)%list_elem_of_lookup.
  destruct (engine_bundles _ _ _ _ _ _ _ Hc Hi) as (item & Hit & Er & Eid & Eb). split; [by rewrite Er, Eid|].
  rewrite Eb, Eid. exists (map record_id items). split; [done|]. apply (list_elem_of_fmap_2 record_id). by eapply list_elem_of_lookup_2.
Qed.

Lemma fit_indexes st b t items o c :
  has st b (map record_id items) →
  engine_ComputeBatch b t (map Signed items) (map Record_ items) (map Accepted_ items) o = Ret c →
  Forall (at_home st) (C_Indexes c).
Proof.
  intros Hh Hc. apply Forall_forall. intros x (i & Hi)%list_elem_of_lookup.
  destruct (engine_indexes _ _ _ _ _ _ _ Hc Hi) as (item & Hit & Eid & Eb). unfold at_home.
  rewrite Eb, Eid. exists (map record_id items). split; [done|]. apply (list_elem_of_fmap_2 record_id). by eapply list_elem_of_lookup_2.
Qed.

Lemma sound_bundles b l s : Forall (bundle_fits (store s)) l → sound (writeBundlesAndRoot b l) s.
Proof.
  intros Hf. unfold writeBundlesAndRoot. apply steps_if; intros _; [apply steps_lift|]. apply steps_bind; [apply sound_Now|].
  intros now s1 _ [K _]. apply steps_bind; [|intros; apply steps_ret].
  apply sound_calm; [apply safe_artifacts; by eapply keeps_fits|apply calm_artifacts].
Qed.

Lemma sound_materialized b l s : Forall (bundle_fits (store s)) l → sound (writeMaterializedBundles b l) s.
Proof.
  intros Hf. unfold writeMaterializedBundles. apply steps_if; intros _; [apply steps_lift|]. apply steps_reads_bind. intros m _.
  apply steps_if; intros _; [|by apply sound_bundles]. apply steps_bind; [|intros; apply steps_ret].
  apply sound_calm; [by apply safe_materialized|apply calm_materialized].
Qed.

Lemma sound_indexes l root s : Forall (at_home (store s)) l → sound (writeIndexesAndRoot l root) s.
Proof.
  intros Hf. unfold writeIndexesAndRoot. apply steps_bind; [apply sound_Now|]. intros now s1 _ [K _].
  apply sound_calm; [apply safe_prepared; by eapply keeps_at_home|apply calm_prepared].
Qed.

Lemma sound_tree snapshot s : sound (writeBatchTree snapshot) s.
Proof.
  unfold writeBatchTree. apply steps_bind; [apply sound_Now|]. intros now s1 _ _.
  apply sound_calm; [apply safe_tree|apply calm_tree].
Qed.

Lemma root_batch b l s s' root :
  writeBundlesAndRoot b l s = (s', Ok root) ∨ writeMaterializedBundles b l s = (s', Ok root) → root.(BatchRoot.BatchID) = b.
Proof.
  assert (∀ s s' root, writeBundlesAndRoot b l s = (s', Ok root) → root.(BatchRoot.BatchID) = b) as Hb.
  { intros x y r. unfold writeBundlesAndRoot. destruct (_ =? 0); [done|]. intros (s1 & now & _ & (s2 & ? & _ & [= _ <-])%io_bind_Ok)%io_bind_Ok. done. }
  intros [E|E]; [by eapply Hb|]. revert E. unfold writeMaterializedBundles. destruct (_ =? 0); [done|].
  intros (s1 & m & _ & E)%io_bind_Ok. destruct (negb _); [|by eapply Hb]. by apply io_bind_Ok in E as (s2 & ? & _ & [= _ <-]).
Qed.

(** ** Publication *)

Lemma sound_publish m l s : has (store s) m.(Man.BatchID) m.(Man.RecordIDs) → sound (publishCommittedBatch m l) s.
Proof.
  intros Hh. apply steps_assume. intros I. unfold publishCommittedBatch. apply steps_bind.
  - apply sound_store; [apply safe_publish, has_fits; [apply I|done]|apply cp_publish].
  - intros ds s1 _ _. apply sound_frame, frame_modify, frame_published.
Qed.

Lemma frame_store s s' : frame s s' → store s' = store s.
Proof. intros F. unfold store. by rewrite (fr_checkpoints _ _ F). Qed.

Lemma published m b t items o c s s' a :
  publishCommittedBatch m (C_Bundles c) s = (s', Ok a) →
  engine_ComputeBatch b t (map Signed items) (map Record_ items) (map Accepted_ items) o = Ret c →
  m.(Man.RecordIDs) = map record_id items → in_range items →
  committed (store s') (fill_schema m) ∧ Forall (input_ok (proved (store s')) (proved_at (store s'))) (map position items).
Proof.
  intros E Hc Hr Hu. unfold publishCommittedBatch in E. apply io_bind_Ok in E as (s1 & ds & E1 & [= <- _]).
  rewrite (frame_store _ _ (frame_published (C_Bundles c) ds s1)).
  assert (∃ st, PublishCommittedBatch m (C_Bundles c) (store s) = (st, Ok ds) ∧ store s1 = st) as (st & Ep & ->).
  { unfold on_store, zoom in E1. destruct (PublishCommittedBatch m (C_Bundles c) (store s)) as [st r]. injection E1 as <- ->. by exists st. }
  destruct (publish_Ok _ _ _ _ _ Ep) as (Hm & Hl & Hb). split; [done|]. rewrite Hr, length_map in Hl.
  apply Forall_forall. intros p (item & -> & (i & Hi)%list_elem_of_lookup)%list_elem_of_fmap. split.
  { unfold in_range in Hu. rewrite Forall_forall in Hu. apply Hu, list_elem_of_fmap_2. by eapply list_elem_of_lookup_2. }
  intros _. assert (proved_at st (position item)) as Hp; [|split; [by exists (position item)|done]].
  destruct (lookup_lt_is_Some_2 (C_Bundles c) i) as [x Hx]; [rewrite Hl; by eapply lookup_lt_Some|].
  destruct (Hb i x Hx) as [Hid Hg]. destruct (engine_bundles _ _ _ _ _ _ _ Hc Hx) as (item' & Hi' & Er & _).
  rewrite Hi in Hi'. injection Hi' as <-. exists (fill_schema m), x.(Bun.RecordID), x.
  split_and!; [done|by eapply list_elem_of_lookup_2|done|]. unfold position. by rewrite Er.
Qed.

Lemma sound_announce root m s :
  committed (store s) m → m.(Man.BatchID) = root.(BatchRoot.BatchID) → sound (modify (fire (BatchCommitted root))) s.
Proof.
  intros Hm Hb. apply steps_modify. intros []. split; [|done]. constructor; try done. cbn. apply Forall_app. split; [done|].
  constructor; [|done]. by exists m.
Qed.

(** What follows a publication. *)
Lemma sound_after m root b t items o c s s' a (tail : M unit) :
  publishCommittedBatch m (C_Bundles c) s = (s', Ok a) →
  engine_ComputeBatch b t (map Signed items) (map Record_ items) (map Accepted_ items) o = Ret c →
  m.(Man.RecordIDs) = map record_id items → in_range items → root.(BatchRoot.BatchID) = m.(Man.BatchID) →
  (∀ s, steps (λ _, True) frame tail s) →
  sound (_ ← best_effort (advanceCheckpoint m.(Man.BatchID) items); _ ← tail; _ ← modify (fire (BatchCommitted root));
         markRecordStatusesCommitted items m.(Man.BatchID) m.(Man.CommittedAtUnixN)) s'.
Proof.
  intros Ep Hc Hr Hu Eb Ht. destruct (published m b t items o c s s' a Ep Hc Hr Hu) as [Hm Hi].
  apply steps_bind; [by apply sound_best_effort, sound_advance|]. intros [] s1 _ [K1 _].
  apply steps_bind; [by apply sound_frame|]. intros [] s2 _ [K2 _].
  apply steps_bind; [|intros [] s3 _ _; apply sound_frame, frame_mark].
  apply sound_announce with (fill_schema m); [|done]. eapply keeps_committed; [exact K2|]. by eapply keeps_committed.
Qed.

(** ** Persistence *)

Lemma sound_pending b items s : items_fit (store s) b items → sound (modify (rememberPending b items)) s.
Proof.
  intros Hf. apply steps_modify. intros I. split; [|done].
  assert (∀ l (p : gmap string (list Accepted)) b' x, foldl (λ p b, delete b p) p l !! b' = Some x → p !! b' = Some x) as Hd.
  { induction l as [|y l IH]; intros p b' x Hx; [done|]. cbn in Hx. apply IH in Hx. by apply lookup_delete_Some in Hx as [_ ?]. }
  destruct I. constructor; try done. intros b' x Hx. cbn in Hx. apply Hd in Hx.
  apply lookup_insert_Some in Hx as [[<- <-]|[_ Hx]]; [exact Hf|by apply I_pending0].
Qed.

Lemma sound_enqueue job s :
  job_items job = [] ∨ items_fit (store s) (job_batch job) (job_items job) →
  Inv s → Inv (enqueueMaterialization job s).1 ∧ kept s (enqueueMaterialization job s).1.
Proof.
  intros Hf I. unfold enqueueMaterialization. destruct (seqb _ ""); [done|]. destruct (decide _); [done|].
  destruct (_ <? _)%nat; [|done]. split; [|done]. destruct I. constructor; try done. cbn. apply Forall_app. split; [exact I_queue0|]. apply Forall_singleton. exact Hf.
Qed.

Lemma sound_manifest m s :
  is_committed m = false → uncommitted (store s) m.(Man.BatchID) →
  (Inv s → manifest_fits (store s) m) → sound (PutManifest m) s.
Proof.
  intros Hc Hu Hf. apply steps_assume. intros I. apply sound_store; [apply safe_manifest; [done..|by apply Hf]|apply cp_manifest].
Qed.

Lemma PutManifest_stores m s s' a : PutManifest m s = (s', Ok a) → stores_manifest (store s') (fill_schema m).
Proof.
  unfold PutManifest, on_store, zoom. destruct (batchstore.PutManifest m (store s)) as [st r] eqn:E. intros [= <- ->].
  by eapply PutManifest_Ok.
Qed.

Definition computes (b : string) (items : list Accepted) (c : BatchCommit) : Prop :=
  ∃ t o, engine_ComputeBatch b t (map Signed items) (map Record_ items) (map Accepted_ items) o = Ret c.

Lemma sound_inline manifest c items s :
  computes manifest.(Man.BatchID) items c → has (store s) manifest.(Man.BatchID) (map record_id items) →
  manifest.(Man.RecordIDs) = map record_id items → in_range items → sound (persistInline manifest c items) s.
Proof.
  intros (t & o & Hc) Hh Hr Hu. unfold persistInline.
  apply steps_bind; [apply sound_bundles; by eapply fit_bundles|]. intros root s1 Er [K1 _].
  assert (root.(BatchRoot.BatchID) = manifest.(Man.BatchID)) as Eb by (eapply root_batch; by left).
  apply steps_bind; [apply sound_tree|]. intros [] s2 _ [K2 _]. apply steps_bind; [apply sound_Now|]. intros now s3 _ [K3 _].
  apply steps_bind.
  { apply sound_publish. cbn. rewrite Hr. by apply (kept_has _ _ K3), (kept_has _ _ K2), (kept_has _ _ K1). }
  intros [] s4 Ep _. pose proof (sound_after _ root _ _ items _ c _ _ _ (mret tt) Ep Hc Hr Hu Eb ltac:(intros; apply steps_ret)) as Hs.
  exact Hs.
Qed.

(** The manifests are untouched. *)
Definition same_manifests (s s' : Service) : Prop := manifests (store s') = manifests (store s).

Lemma indexes_manifests l root s s' a : writeIndexesAndRoot l root s = (s', Ok a) → same_manifests s s'.
Proof.
  intros (s1 & now & [= <- _] & E)%io_bind_Ok. unfold on_store, zoom in E.
  destruct (PutPreparedBatchIndexesAndRoot now l root (store (tick_clock s))) as [st r] eqn:Ep. injection E as <- ->.
  exact (proj2 (steps_calm _ _ _ _ (calm_prepared now l root _) Ep)).
Qed.
Lemma tree_manifests snapshot s s' a : writeBatchTree snapshot s = (s', Ok a) → same_manifests s s'.
Proof.
  intros (s1 & now & [= <- _] & E)%io_bind_Ok. unfold on_store, zoom in E.
  destruct (PutBatchTreeSnapshot now snapshot (store (tick_clock s))) as [st r] eqn:Ep. injection E as <- ->.
  exact (proj2 (steps_calm _ _ _ _ (calm_tree now snapshot _) Ep)).
Qed.

Lemma uncommitted_same st st' b : manifests st' = manifests st → uncommitted st b → uncommitted st' b.
Proof.
  intros Hm Hu old x Hc%(committed_same st st') Eb; [|done]. unfold readManifest. rewrite Hm. by apply (Hu old x).
Qed.
End proofs.
End batch_service_proofs.

(** * Histories of the batch service

    Every handler keeps the invariant; so the checkpoint never passes a record
    without a proof, and what is announced stays committed. *)

Module batch_service_ops.
Import batchstore batchstore_ops batch_committed batch_safety batch batch_service_proofs.
Import batch_checkpoint (Accepted, Signed, Record_, Accepted_, position).
Import app_batch (BatchCommit, C_TreeAlg, C_Root, C_Indexes, C_Tree, C_Bundles, mkBatchOptions).
Import batch_checkpoint_proofs (ok, good).
Import anchorstore_proofs (encodes).
#[local] Existing Instance batchstore_proofs.pebble_checkpoints.
#[local] Existing Instance batchstore_proofs.pebble_checkpoint_laws.

Section ops.
Context `{HashLib, KeyDescriptorLib, UnicodeLib, SnappyLib, ErrorText, ComputeEngine, !EngineLaws}.
Context `{CborMode ClientClaim.t, CborMode claim.framing}.
Context `{CborMode Bun.t, CborMode storedProofBundleEnvelope, CborMode Idx.t, CborMode BatchRoot.t, CborMode Man.t}.
Context `{CborMode Dec.t, CborMode batchTreeLeafTile, CborMode batchTreeNodeTile, CborMode WCp.t}.
Context `{!CborModeExact WCp.t, !CborModeExact Man.t, !CborModeExact Idx.t, !CborModeExact Dec.t}.
Context `{!CborModeInjective Man.t}.

Notation sound m s := (steps Inv kept m s).

(** ** A new batch *)

Lemma sound_prepared manifest c items s :
  computes manifest.(Man.BatchID) items c → has (store s) manifest.(Man.BatchID) (map record_id items) →
  manifest.(Man.RecordIDs) = map record_id items → in_range items → uncommitted (store s) manifest.(Man.BatchID) →
  sound (persistPrepared manifest c items) s.
Proof.
  intros (t & o & Hc) Hh Hr Hu Hun. unfold persistPrepared.
  apply steps_bind; [apply sound_indexes; by eapply fit_indexes|]. intros [] s1 M1%indexes_manifests [K1 _].
  apply steps_bind; [apply sound_tree|]. intros [] s2 M2%tree_manifests [K2 _].
  assert (items_fit (store s2) manifest.(Man.BatchID) items) as Hf.
  { split; [|done]. by apply (kept_has _ _ K2), (kept_has _ _ K1). }
  apply steps_bind; [by apply sound_pending|]. intros [] s3 [= <-] _.
  apply steps_bind; [apply sound_Now|]. intros now s4 [= <- _] _. set (s4 := tick_clock _).
  apply steps_bind.
  { apply sound_on_error; [intros; apply frame_forget|]. apply sound_manifest; [done| |].
    - cbn. eapply uncommitted_same, Hun. unfold same_manifests in *. change (store s4) with (store s2). congruence.
    - intros I. apply has_fits; [apply I|]. cbn. rewrite Hr. apply Hf. }
  intros [] s5 _ [K5 _]. apply steps_reads_bind. intros m _. apply steps_if; intros _; [|apply steps_ret].
  apply steps_modify. intros I. apply sound_enqueue; [|done]. right. cbn. eapply fit_mono; [exact K5|exact Hf].
Qed.

Lemma planned_Ok b t items s s' c : plannedCommit b t items s = (s', Ok c) → s' = s ∧ computes b items c.
Proof.
  intros (s1 & m & [-> _]%reads_Ok & E)%io_bind_Ok. unfold io_wrap in E.
  assert (∀ md tr (chk : BatchCommit → bool) e x r,
    (c ← engine_call (computeBatch b t items md tr); if chk c then lift (Err e) else mret c) x = (s', r) → wrap_err CodeInternal "commit batch" r = Ok c →
    s' = x ∧ computes b items c) as Hgo.
  { intros md tr chk e x r E1 E2%wrap_err_Ok. subst r. apply io_bind_Ok in E1 as (s2 & c2 & [-> Hc]%engine_Ret & E2).
    destruct (chk c2); [done|]. injection E2 as <- <-. split; [done|]. by exists (Some t), (mkBatchOptions md tr). }
  destruct (bool_decide _); match type of E with (let '(_, _) := ?m in _) = _ => destruct m as [s2 r] eqn:E1 end;
    injection E as -> E2.
  - exact (Hgo _ _ (λ c, negb (len (C_Bundles c) =? len items)) _ s r E1 E2).
  - exact (Hgo _ _ (λ c, negb (len (C_Indexes c) =? len items)) _ s r E1 E2).
Qed.

(** A batch id without manifest and records without a batch. *)
Definition fresh (st : Store) (b : string) (items : list Accepted) : Prop :=
  manifests st !! b = None ∧ ∀ id b', id ∈ map record_id items → ¬ home st id b'.


Lemma sound_persist b t items s : fresh (store s) b items → in_range items → sound (persistBatch b t items) s.
Proof.
  intros [Hb Hid] Hu. unfold persistBatch. apply steps_bind.
  { unfold plannedCommit. apply steps_reads_bind. intros m _. apply steps_wrap.
    apply steps_if; intros _; (apply steps_bind; [apply sound_engine|]); intros c s1 _ _;
      (apply steps_if; intros _; [apply steps_lift|apply steps_ret]). }
  intros c s1 [-> Hc]%planned_Ok _. apply steps_if; intros _; [apply steps_lift|]. apply steps_if; intros _; [apply steps_lift|].
  apply steps_bind; [apply sound_Now|]. intros now s1 [= <- _] _. set (s1 := tick_clock s).
  set (m := new_manifest b c items now).
  apply steps_bind.
  { apply sound_manifest; [done| |].
    - intros old x (v & Hv & _) Eb. cbn in Eb. change (store s1) with (store s) in Hv. rewrite Eb, Hb in Hv. done.
    - intros _. split; [intros id b' Hin Hh; by destruct (Hid id b')|]. intros ids (v & x & Hv & _). cbn in Hv.
      change (store s1) with (store s) in Hv. by rewrite Hb in Hv. }
  intros [] s2 Hs%PutManifest_stores _. apply steps_reads_bind. intros md _. apply steps_if; intros _.
  - apply sound_inline; [exact Hc|exact (stores_has _ _ Hs)|done|done].
  - apply sound_prepared; [exact Hc|exact (stores_has _ _ Hs)|done|done|exact (stores_uncommitted _ _ Hs eq_refl)].
Qed.

(** The batch id that the next commit gets. *)
Definition next_id (s : Service) : string := batch_id (clock s (ticks s)) (u64 (seq s + 1)).

Lemma sound_commit items s : fresh (store s) (next_id s) items → in_range items → sound (commit items) s.
Proof.
  intros Hf Hu. unfold commit. destruct items as [|x items]; [apply steps_ret|].
  apply steps_bind; [apply sound_Now|]. intros start s1 [= <- <-] _. apply steps_bind.
  { apply sound_frame. by intros _. }
  intros b s2 [= <- <-] _. apply steps_bind; [apply sound_frame, frame_setRecordStatuses|].
  intros [] s3 Es [K3 _]. assert (store s3 = store s) as E3.
  { exact (frame_store _ _ (steps_calm _ _ _ _ (frame_setRecordStatuses _ _ _ _ _ _) Es)). }
  set (items' := x :: items) in *. intros I. unfold post, persistOrReport.
  assert (fresh (store s3) (next_id s) items') as Hf' by (by rewrite E3).
  pose proof (sound_persist (next_id s) (clock s (ticks s)) items' s3 Hf' Hu I) as Hp. unfold post in Hp.
  unfold next_id in Hp. cbn in Hp. destruct (persistBatch _ _ _ s3) as [s4 [[]|e]]; [exact Hp|]. cbn in Hp. destruct Hp as [I4 K4].
  destruct (frame_Inv s4 (setLastError e s4) (frame_error e s4) I4) as [I5 K5].
  destruct (sound_frame _ _ (frame_setRecordStatuses items' RecordStatusRetryPending (next_id s) true (code_text (CodeOf e)) (setLastError e s4)) I5)
    as [I6 K6]. split; [exact I6|]. etrans; [exact K4|]. by etrans.
Qed.

(** ** Materialization *)

Lemma sound_materialize manifest items s :
  has (store s) manifest.(Man.BatchID) (map record_id items) → manifest.(Man.RecordIDs) = map record_id items → in_range items →
  sound (materializeManifest manifest items) s.
Proof.
  intros Hh Hr Hu. unfold materializeManifest. apply steps_reads_bind. intros md _.
  apply steps_bind; [apply sound_engine|]. intros c s1 [-> Hc]%engine_Ret _.
  apply steps_if; intros _; [apply steps_lift|]. apply steps_if; intros _; [apply steps_lift|].
  apply steps_if; intros _; [apply steps_lift|].
  apply steps_bind; [apply sound_materialized; by eapply fit_bundles|]. intros root s2 Er [K2 _].
  assert (root.(BatchRoot.BatchID) = manifest.(Man.BatchID)) as Eb by (eapply root_batch; by right).
  apply steps_bind; [apply steps_if; intros _; [apply sound_tree|apply steps_ret]|]. intros [] s3 _ [K3 _].
  apply steps_bind; [apply steps_if; intros _; [apply sound_Now|apply steps_ret]|]. intros now s4 _ [K4 _].
  apply steps_bind.
  { apply sound_publish. cbn. rewrite Hr. by apply (kept_has _ _ K4), (kept_has _ _ K3), (kept_has _ _ K2). }
  intros [] s5 Ep _.
  pose proof (sound_after _ root _ _ items _ c _ _ _ (modify (forgetPending manifest.(Man.BatchID))) Ep Hc Hr Hu Eb
    ltac:(intros; apply frame_modify, frame_forget)) as Hs.
  intros I. specialize (Hs I). unfold post in *. unfold mbind, io_bind, best_effort, modify in *.
  destruct (advanceCheckpoint _ _ s5) as [s6 [?|?]]; cbn in *;
    (match goal with H : context [markRecordStatusesCommitted ?a ?b ?c ?d] |- _ => destruct (markRecordStatusesCommitted a b c d) as [s7 [?|?]] end);
    exact Hs.
Qed.

Lemma sound_failure manifest cause s :
  has (store s) manifest.(Man.BatchID) manifest.(Man.RecordIDs) → sound (recordMaterializationFailure manifest cause) s.
Proof.
  intros Hh I. unfold post, recordMaterializationFailure. pose proof (proj1 (I_store _ I)) as T.
  set (latest := match GetManifest _ _ with Ok l => l | Err _ => manifest end).
  destruct (is_committed latest) eqn:Ec; [done|].
  assert (uncommitted (store s) latest.(Man.BatchID) ∧ has (store s) latest.(Man.BatchID) latest.(Man.RecordIDs)) as [Hu Hl].
  { subst latest. destruct (GetManifest _ _) as [l|e] eqn:Eg.
    - destruct (GetManifest_stores _ _ _ T Eg) as [Hs _]. split; [by apply stores_uncommitted|by apply stores_has].
    - split; [by eapply GetManifest_Err|done]. }
  set (failed := failed_manifest _ _ _).
  assert (sound (PutManifest failed) (tick_clock s)) as Hp.
  { apply sound_manifest; [unfold failed, failed_manifest, is_committed; cbn; by destruct (permanentMaterializationError cause)|exact Hu|].
    intros _. apply has_fits; [exact T|exact Hl]. }
  destruct (frame_Inv s (tick_clock s) ltac:(done) I) as [I1 K1]. specialize (Hp I1). unfold post in Hp.
  destruct (PutManifest failed (tick_clock s)) as [s2 [[]|e]]; cbn in Hp; destruct Hp as [I2 K2].
  - match goal with |- context [setManifestRecordStatuses failed ?st ?c s2] =>
      destruct (sound_frame _ _ (frame_manifest failed st c s2) I2) as [I3 K3] end. split; [exact I3|]. etrans; [exact K1|]. etrans; [exact K2|exact K3].
  - destruct (frame_Inv s2 (setLastError e s2) (frame_error e s2) I2) as [I3 K3]. split; [exact I3|]. etrans; [exact K1|]. etrans; [exact K2|exact K3].
Qed.

Lemma items_of manifest items s :
  Inv s → stores_manifest (store s) manifest → materializationItems manifest s = Ok items →
  has (store s) manifest.(Man.BatchID) (map record_id items) ∧ manifest.(Man.RecordIDs) = map record_id items ∧ in_range items.
Proof.
  intros I Hs%stores_has E. unfold materializationItems in E.
  assert (∀ l, l = items → map record_id l = manifest.(Man.RecordIDs) ∧ in_range l →
    has (store s) manifest.(Man.BatchID) (map record_id items) ∧ manifest.(Man.RecordIDs) = map record_id items ∧ in_range items) as Hgo.
  { intros l -> [-> ?]. done. }
  destruct (pending s !! manifest.(Man.BatchID)) as [l|] eqn:Ep; cbn in E.
  - destruct (I_pending _ I _ _ Ep) as [Hl Hr]. destruct l as [|x l].
    + destruct (LoadBatchItems (opts s)) as [load|] eqn:El; [|done]. by apply (Hgo items), (I_load _ I load).
    + injection E as <-. split_and!; [done|by eapply has_fun|done].
  - destruct (LoadBatchItems (opts s)) as [load|] eqn:El; [|done]. by apply (Hgo items), (I_load _ I load).
Qed.

Definition job_ok (st : Store) (j : materializeJob) : Prop := job_items j = [] ∨ items_fit st (job_batch j) (job_items j).

(** A failure after [s'] was reached from [s]. *)
Lemma sound_failed manifest cause s s' :
  Inv s' → kept s s' → has (store s) manifest.(Man.BatchID) manifest.(Man.RecordIDs) →
  let '(s2, r) := recordMaterializationFailure manifest cause s' in Inv (setLastError cause s2) ∧ kept s (setLastError cause s2).
Proof.
  intros I K Hh. pose proof (sound_failure manifest cause s') as Hp. destruct K as [K Ko].
  specialize (Hp (kept_has _ _ K _ _ Hh) I). unfold post in Hp. destruct (recordMaterializationFailure manifest cause s') as [s2 r].
  destruct Hp as [I2 K2]. destruct (frame_Inv s2 (setLastError cause s2) (frame_error cause s2) I2) as [I3 K3].
  split; [exact I3|]. etrans; [by split|]. etrans; [exact K2|exact K3].
Qed.

Lemma sound_job job s : job_ok (store s) job → sound (runMaterializationJob job) s.
Proof.
  intros Hj I. unfold post, runMaterializationJob. pose proof (proj1 (I_store _ I)) as T.
  destruct (GetManifest (job_batch job) (store s)) as [manifest|e] eqn:Eg; [|by apply (frame_Inv s); [apply frame_error|]].
  destruct (GetManifest_stores _ _ _ T Eg) as [Hs Eb]. set (s1 := tick_clock s).
  destruct (frame_Inv s s1 ltac:(done) I) as [I1 K1]. destruct (_ || _); [done|]. destruct (_ || _); [done|].
  destruct (match job_items job with [] => materializationItems manifest s1 | _ => _ end) as [items|e] eqn:Ei.
  - assert (has (store s1) manifest.(Man.BatchID) (map record_id items) ∧ manifest.(Man.RecordIDs) = map record_id items ∧ in_range items)
      as (Hh & Hr & Hu).
    { destruct (job_items job) as [|x l] eqn:El; [by eapply items_of|]. injection Ei as <-.
      destruct Hj as [?|[Hj Hu]]; [congruence|]. rewrite Eb, <- El in *. split_and!; [done| |done].
      eapply has_fun; [|exact Hj]. rewrite <- Eb. by apply stores_has. }
    pose proof (sound_materialize manifest items s1 Hh Hr Hu I1) as Hm. unfold post in Hm.
    destruct (materializeManifest manifest items s1) as [s2 [root|e]]; cbn in Hm; destruct Hm as [I2 K2];
      [split; [exact I2|by etrans]|].
    pose proof (sound_failed manifest e s s2 I2 ltac:(by etrans) (stores_has _ _ Hs)) as Hf.
    destruct (recordMaterializationFailure manifest e s2). exact Hf.
  - pose proof (sound_failed manifest e s s1 I1 K1 (stores_has _ _ Hs)) as Hf.
    destruct (recordMaterializationFailure manifest e s1). exact Hf.
Qed.

Lemma sound_worker s : Inv s → Inv (materializerWorker s) ∧ kept s (materializerWorker s).
Proof.
  intros I. unfold materializerWorker. destruct (materializeQueue s) as [|job rest] eqn:Eq; [done|].
  pose proof (I_queue _ I) as Hq. rewrite Eq in Hq. apply Forall_cons in Hq as [Hj _].
  set (s1 := set_jobs (materializeInFlight s) rest s). assert (frame s s1) as F1.
  { constructor; try done. intros j Hin. rewrite Eq. by right. }
  destruct (frame_Inv s s1 F1 I) as [I1 K1]. destruct (sound_job job s1 Hj I1) as [I2 K2].
  destruct (frame_Inv _ _ (frame_release (job_batch job) (runMaterializationJob job s1).1) I2) as [I3 K3].
  split; [exact I3|]. etrans; [exact K1|]. etrans; [exact K2|exact K3].
Qed.

Lemma sound_schedule bs s : Inv s → Inv (schedulePreparedManifests bs s) ∧ kept s (schedulePreparedManifests bs s).
Proof.
  revert s. induction bs as [|b bs IH]; intros s I; [done|]. cbn [schedulePreparedManifests].
  pose proof (sound_enqueue (mkJob b []) s (or_introl eq_refl) I) as Hq.
  destruct (enqueueMaterialization (mkJob b []) s) as [s1 ok']. destruct Hq as [I1 K1]. destruct ok'; [|done].
  destruct (IH s1 I1) as [I2 K2]. split; [exact I2|]. etrans; [exact K1|exact K2].
Qed.

(** ** Recovery *)

Lemma check_items_ids items ids : len items = len ids → check_items items ids = true → map record_id items = ids.
Proof.
  unfold len. revert ids. induction items as [|x items IH]; intros [|id ids] Hl Hc; try done; cbn in *; try lia.
  apply andb_true_iff in Hc as [Hx%seqb_true Hc]. f_equal; [exact Hx|]. apply IH; [lia|done].
Qed.

Lemma sound_recover manifest items s :
  GetManifest manifest.(Man.BatchID) (store s) = Ok manifest → in_range items → sound (RecoverManifest manifest items) s.
Proof.
  intros Hg Hu. apply steps_assume. intros I. destruct (GetManifest_stores _ _ _ (proj1 (I_store _ I)) Hg) as [Hs _].
  unfold RecoverManifest. apply steps_reads_bind. intros [] _. apply steps_bind; [apply sound_frame, frame_setRecordStatuses|].
  intros [] s1 E1 _. assert (store s1 = store s) as Es by (exact (frame_store _ _ (steps_calm _ _ _ _ (frame_setRecordStatuses _ _ _ _ _ _) E1))).
  apply steps_if; intros Ec; [apply sound_frame, frame_mark|].
  apply steps_if; intros _; [apply steps_bind; [apply sound_frame, frame_setRecordStatuses|intros; apply steps_lift]|].
  apply steps_if; intros _; [apply steps_lift|]. apply steps_if; intros Hl; [apply steps_lift|].
  apply steps_if; intros Hc; [apply steps_lift|]. apply negb_false_iff in Hl, Hc. apply Z.eqb_eq in Hl.
  pose proof (check_items_ids _ _ Hl Hc) as Hr. pose proof (stores_has _ _ Hs) as Hh. rewrite <- Hr, <- Es in Hh.
  apply steps_reads_bind. intros md _.
  apply steps_if; intros _.
  { apply steps_bind; [apply steps_wrap; by apply sound_materialize|intros; apply steps_ret]. }
  apply steps_bind; [apply steps_wrap, sound_engine|]. intros c s2 E2 _.
  assert (s2 = s1 ∧ computes manifest.(Man.BatchID) items c) as [-> (t & o & Hcm)].
  { unfold io_wrap in E2. destruct (engine_call _ s1) as [x r] eqn:Ee. injection E2 as <- Er%wrap_err_Ok. subst r.
    apply engine_Ret in Ee as [-> Ee]. split; [done|]. by eexists _, _. }
  apply steps_if; intros _; [apply steps_lift|].
  apply steps_bind; [apply sound_indexes; by eapply fit_indexes|]. intros [] s3 M3%indexes_manifests [K3 _].
  apply steps_bind; [apply sound_tree|]. intros [] s4 M4%tree_manifests [K4 _].
  apply steps_bind; [apply steps_if; intros _; [apply sound_Now|apply steps_ret]|]. intros now s5 E5 [K5 _].
  assert (store s5 = store s4) as Es5 by (destruct (_ =? 0); by injection E5 as <- _).
  assert (has (store s5) manifest.(Man.BatchID) (map record_id items)) as Hh5.
  { by apply (kept_has _ _ K5), (kept_has _ _ K4), (kept_has _ _ K3). }
  apply steps_bind.
  { apply sound_manifest; [done| |].
    - cbn. eapply uncommitted_same; [|apply stores_uncommitted; [exact Hs|exact Ec]]. unfold same_manifests in *. congruence.
    - intros I5. apply has_fits; [apply I5|]. cbn. by rewrite <- Hr. }
  intros [] s6 _ [K6 _]. apply steps_if; intros _; [apply steps_ret|].
  apply steps_bind; [apply steps_wrap, sound_materialize; [by apply (kept_has _ _ K6)|exact (eq_sym Hr)|done]|intros; apply steps_ret].
Qed.

(** ** Proofs on demand *)

Lemma sound_record id s : sound (materializeRecord id) s.
Proof.
  intros I. unfold post, materializeRecord. destruct (GetBundle id (store s)); [done|]. destruct (negb _); [done|].
  destruct (recordindex.GetRecordIndex id _) as [[idx|]|]; [|done..]. destruct (seqb _ ""); [done|].
  destruct (GetManifest _ (store s)) as [manifest|] eqn:Eg; [|done].
  destruct (GetManifest_stores _ _ _ (proj1 (I_store _ I)) Eg) as [Hs _]. destruct (is_committed manifest); [done|].
  destruct (seqb _ BatchStateFailed); [done|]. destruct (materializationItems manifest s) as [items|] eqn:Ei; [|done].
  destruct (items_of manifest items s I Hs Ei) as (Hh & Hr & Hu).
  pose proof (sound_materialize manifest items s Hh Hr Hu I) as Hm. unfold post in Hm.
  destruct (materializeManifest manifest items s) as [s2 r]. exact Hm.
Qed.

Lemma sound_proof id s : sound (Proof_ id) s.
Proof.
  intros I. unfold post, Proof_. destruct (GetBundle id (store s)); [by destruct (bool_decide _)|]. destruct (negb _); [done|].
  destruct (negb _); [done|]. pose proof (sound_record id s I) as Hm. unfold post in Hm.
  destruct (materializeRecord id s) as [s2 [[]|?]]; exact Hm.
Qed.

(** ** Histories *)

(** The steps of the service; [Restart] is a new process on the same store,
    [Range] what the start-up scan of the log reports, [Drain] one callback. *)
Inductive op :=
| Accept (item : Accepted)
| Refuse (item : Accepted)
| Commit_ (items : list Accepted)
| Worker
| Schedule (batches : list string)
| Recover (manifest : Man.t) (items : list Accepted)
| Proof_of (recordID : string)
| Range (now : Z) (first last : Pos.t) (batchID : string)
| Defer
| Start (now : Z)
| Drain
| Restart (c : Config).

Definition exec (o : op) (s : Service) : Service :=
  let on_checkpoints c := set_checkpoints c s in
  let co := checkpoint_opts (opts s) in
  match o with
  | Accept item => (acceptItem item s).1
  | Refuse item => (refuseItem item s).1
  | Commit_ items => (commit items s).1
  | Worker => materializerWorker s
  | Schedule batches => schedulePreparedManifests batches s
  | Recover manifest items => (RecoverManifest manifest items s).1
  | Proof_of id => (Proof_ id s).1
  | Range now first last b => on_checkpoints (batch_checkpoint.RecordCommittedWALRange co now first last b (checkpoints s)).1
  | Defer => on_checkpoints (batch_checkpoint.DeferCheckpointAdvance co (checkpoints s)).1
  | Start now => on_checkpoints (batch_checkpoint.StartCheckpointAdvance co now (checkpoints s)).1
  | Drain => on_checkpoints (if batch_checkpoint.checkpointCallbackDraining (checkpoints s)
                             then batch_checkpoint.drainCheckpointCallback (checkpoints s) else checkpoints s)
  | Restart c => New c (clock s) (ticks s) (Open (store s))
  end.

(** A batch gets a new id and records that are in no batch yet; a manifest is
    recovered as it is stored; what is loaded from the log are the records of
    the manifest.  Ranges are reported by the replay of the log alone, which is
    a history of its own in [BatchReplayProofs]. *)
Definition admissible (s : Service) (o : op) : Prop :=
  match o with
  | Commit_ items => fresh (store s) (next_id s) items ∧ in_range items
  | Recover manifest items => GetManifest manifest.(Man.BatchID) (store s) = Ok manifest ∧ in_range items
  | Range _ _ _ _ => False
  | Restart c => load_ok (LoadItems c)
  | _ => True
  end.

(** A change of the checkpoint alone. *)
Lemma sound_checkpoints s c :
  Inv s → puts (store s) (batch_checkpoint.store c) → ok (proved (store s)) (proved_at (store s)) c →
  Inv (set_checkpoints c s) ∧ keeps (store s) (store (set_checkpoints c s)).
Proof.
  intros I Hp O. destruct (puts_safe _ _ (I_store _ I) Hp) as [Hs K]. split; [|exact K]. apply Inv_store; [done|exact Hs|exact K|].
  eapply ok_mono, O; [intros n (p & ? & ?); exists p; split; [|done]|intros p ?]; by eapply proved_mono.
Qed.

(** A reported range of proved records. *)
Lemma sound_range now first last b s :
  Inv s → in_u64 first.(Pos.Sequence) → in_u64 last.(Pos.Sequence) →
  (1 <= first.(Pos.Sequence) <= last.(Pos.Sequence) →
   proved_at (store s) last ∧ ∀ n, first.(Pos.Sequence) <= n <= last.(Pos.Sequence) → proved (store s) n) →
  let s' := exec (Range now first last b) s in Inv s' ∧ keeps (store s) (store s').
Proof.
  intros I H1' H2' H3'. apply sound_checkpoints; [done|apply range_store|].
  exact (proj1 (batch_checkpoint_ops.range_spec _ _ (checkpoint_opts (opts s)) now first last b _ (I_checkpoint _ I) H1' H2' H3')).
Qed.

Lemma exec_sound o s : Inv s → admissible s o → Inv (exec o s) ∧ keeps (store s) (store (exec o s)).
Proof.
  intros I Ha. pose proof (I_checkpoint _ I) as O. set (co := checkpoint_opts (opts s)).
  destruct o as [item|item|items| |batches|manifest items|id|now first last b| |now| |c]; cbn [exec admissible] in *; fold co.
  - by destruct (sound_frame _ _ (frame_accept item s) I) as [? [? _]].
  - by destruct (sound_frame _ _ (frame_refuse item s) I) as [? [? _]].
  - destruct Ha as [Hf Hu]. by destruct (sound_commit items s Hf Hu I) as [? [? _]].
  - by destruct (sound_worker s I) as [? [? _]].
  - by destruct (sound_schedule batches s I) as [? [? _]].
  - destruct Ha as [Hg Hu]. by destruct (sound_recover manifest items s Hg Hu I) as [? [? _]].
  - by destruct (sound_proof id s I) as [? [? _]].
  - done.
  - apply sound_checkpoints; [done|left|]; unfold batch_checkpoint.DeferCheckpointAdvance; destruct (negb _); try done. destruct O. by constructor.
  - apply sound_checkpoints; [done|apply start_store|]. exact (proj1 (batch_checkpoint_ops.start_spec _ _ co now _ O)).
  - apply sound_checkpoints; [done| |]; destruct (batch_checkpoint.checkpointCallbackDraining _); [left|by left| |done].
    + unfold batch_checkpoint.drainCheckpointCallback. by destruct (batch_checkpoint.checkpointCallbacks _).
    + by apply batch_checkpoint_ops.drain_ok.
  - assert (keeps (store s) (Open (store s))) as K by apply same_keeps, same_open. split; [|exact K].
    constructor; cbn; [apply open_inv, (I_store _ I)| |done|constructor|done|constructor].
    apply batch_checkpoint_ops.new_ok. intros cp Hcp.
    assert (BatchCheckpoint.GetCheckpoint (Open (store s)) = BatchCheckpoint.GetCheckpoint (store s)) as Eg by (by destruct (store s)).
    rewrite Eg in Hcp. eapply good_mono, (batch_checkpoint_proofs.ok_stored _ _ _ O), Hcp;
      [intros x (p & ? & ?); exists p; split; [|done]|intros p ?]; by eapply proved_mono.
Qed.

(** A new service on an empty store. *)
Definition start (c : Config) (clk : nat → Z) (i : recordindex.Store) (dk : nat → outcome)
    (ready : bool) : Service := New c clk 0 (batch_committed.empty i dk ready).

Lemma start_Inv c clk i dk ready : load_ok (LoadItems c) → Inv (start c clk i dk ready).
Proof.
  intros Hl. constructor; cbn; [apply empty_store_inv| |done|constructor|done|constructor].
  apply batch_checkpoint_ops.new_ok. intros cp. done.
Qed.

End ops.
End batch_service_ops.
