(* ===== verification/BatchQueue.v ===== *)
(** * The queue of the batch service

    Models the rest of [src/internal/batch/service.go]: the producers that take
    a slot and put an item into the queue, the worker that collects the items
    into batches, and the shutdown.

    A producer is two steps, because a shutdown may come between its slot and
    the lock.  The worker is one step per item, firing of its timer and closed
    queue.  Whatever else the service does in the background comes between
    these steps.  The timer has no duration: it may fire at any time when it is
    armed. *)

From S2P Require Import Prelude TrustErr CryptoSuite Model TrustCrypto Cborx KeyDescriptor ModelSuite.
From S2P Require Import StoreMonad GlobalStore AnchorSchedule AnchorStore RecordSearch RecordIndex Outbox.
From S2P Require Import Claim Idempotency IdemIndex App BatchCheckpoint BatchStore BatchService BatchServiceProofs.

Module batch_queue.
Import batchstore batch batch_service_ops.
Import batch_checkpoint (Accepted).

Section queue.
Context `{HashLib, KeyDescriptorLib, UnicodeLib, SnappyLib, ErrorText, ComputeEngine}.
Context `{CborMode ClientClaim.t, CborMode claim.framing}.
Context `{CborMode Bun.t, CborMode storedProofBundleEnvelope, CborMode Idx.t, CborMode BatchRoot.t, CborMode Man.t}.
Context `{CborMode Dec.t, CborMode batchTreeLeafTile, CborMode batchTreeNodeTile, CborMode WCp.t}.

(** [producers] are the items that have a slot and are not in the queue yet,
    [current] and [timer] the local variables of the worker, [calls] the trace
    of what ran on the service. *)
Record Queue := mkQueue {
  service : Service;
  queueSize : Z;
  maxRecords : Z;
  queue : list Accepted;
  queueSlots : Z;
  producers : list Accepted;
  closed : bool;
  current : list Accepted;
  timer : bool;
  ingestDone : bool;
  calls : list op }.
Implicit Types (q : Queue).

Definition New (c : Config) (clk : nat → Z) (n : nat) (st : Store) : Queue :=
  mkQueue (batch.New c clk n st) (positive (QueueSize c) 1024) (positive (MaxRecords c) 1024) [] 0 [] false [] false false [].

Definition call (o : op) q : Queue :=
  mkQueue (batch_service_ops.exec o (service q)) (queueSize q) (maxRecords q) (queue q) (queueSlots q) (producers q) (closed q)
    (current q) (timer q) (ingestDone q) (calls q ++ [o]).
Definition set_producers (slots : Z) (ps : list Accepted) q : Queue :=
  mkQueue (service q) (queueSize q) (maxRecords q) (queue q) slots ps (closed q) (current q) (timer q) (ingestDone q) (calls q).
Definition set_queue (l : list Accepted) q : Queue :=
  mkQueue (service q) (queueSize q) (maxRecords q) l (queueSlots q) (producers q) (closed q) (current q) (timer q) (ingestDone q)
    (calls q).
Definition set_worker (batch : list Accepted) (armed done : bool) q : Queue :=
  mkQueue (service q) (queueSize q) (maxRecords q) (queue q) (queueSlots q) (producers q) (closed q) batch armed done (calls q).

(** ** Producers *)

(** [Enqueue] and [EnqueueRecovered] up to the slot; a producer that finds no
    slot waits. *)
Definition takeSlot (item : Accepted) q : Queue :=
  match batch_checkpoint.requireConfig (checkpoint_opts (opts (service q))) with
  | Err _ => q
  | Ok _ => if queueSlots q <? queueSize q then set_producers (queueSlots q + 1) (producers q ++ [item]) q else q
  end.

(** The context of a producer with a slot was cancelled. *)
Definition cancelEnqueue (i : nat) q : Queue :=
  match producers q !! i with
  | None => q
  | Some _ => set_producers (queueSlots q - 1) (delete i (producers q)) q
  end.

(** The rest of [enqueue]; a send to a full channel waits, with the lock. *)
Definition enqueue (i : nat) q : Queue :=
  match producers q !! i with
  | None => q
  | Some item =>
      if closed q
      then call (Refuse item) (set_producers (queueSlots q - 1) (delete i (producers q)) q)
      else if len (queue q) <? queueSize q
      then call (Accept item)
             (set_queue (queue q ++ [item]) (set_producers (queueSlots q) (delete i (producers q)) q))
      else q
  end.

(** ** The worker *)

Definition commitBatch (items : list Accepted) (done : bool) q : Queue :=
  set_worker [] false done (call (Commit_ items) q).

Definition receive q : Queue :=
  if ingestDone q then q else
  match queue q with
  | [] => q
  | item :: rest =>
      let q := set_producers (queueSlots q - 1) (producers q) (set_queue rest q) in
      let items := current q ++ [item] in
      if maxRecords q <=? len items then commitBatch items false q
      else set_worker items (if len items =? 1 then true else timer q) false q
  end.

Definition timerFired q : Queue :=
  if ingestDone q || negb (timer q) then q else commitBatch (current q) false q.

(** The closed and empty queue. *)
Definition finish q : Queue :=
  if ingestDone q || negb (closed q) || negb (len (queue q) =? 0) then q else commitBatch (current q) true q.

Definition Shutdown q : Queue :=
  mkQueue (service q) (queueSize q) (maxRecords q) (queue q) (queueSlots q) (producers q) true (current q) (timer q) (ingestDone q)
    (calls q).

(** ** Runs *)

(** What the other goroutines do to the service. *)
Definition background (o : op) : bool :=
  match o with Accept _ | Refuse _ | Commit_ _ | Restart _ => false | _ => true end.

Inductive step :=
| TakeSlot (item : Accepted)
| CancelEnqueue (i : nat)
| Enqueue (i : nat)
| Receive
| TimerFired
| Close
| Finish
| Background (o : op).

Definition exec (t : step) q : Queue :=
  match t with
  | TakeSlot item => takeSlot item q
  | CancelEnqueue i => cancelEnqueue i q
  | Enqueue i => enqueue i q
  | Receive => receive q
  | TimerFired => timerFired q
  | Close => Shutdown q
  | Finish => finish q
  | Background o => if background o then call o q else q
  end.

Definition run (ts : list step) q : Queue := foldl (λ q t, exec t q) q ts.
Definition replay (ops : list op) (s : Service) : Service := foldl (λ s o, batch_service_ops.exec o s) s ops.

(** The items that got into the queue and the batches, in order; [commit]
    ignores an empty batch. *)
Definition accepted (ops : list op) : list Accepted :=
  omap (λ o, match o with Accept item => Some item | _ => None end) ops.
Definition batches (ops : list op) : list (list Accepted) :=
  omap (λ o, match o with Commit_ (x :: items) => Some (x :: items) | _ => None end) ops.
#[local] Arguments replay : simpl never.
#[local] Arguments accepted : simpl never.
#[local] Arguments batches : simpl never.

(** ** The invariant *)

Record queue_ok (s0 : Service) q : Prop := {
  qo_service : service q = replay (calls q) s0;
  qo_order : accepted (calls q) = concat (batches (calls q)) ++ current q ++ queue q;
  qo_sizes : Forall (λ items, 1 <= len items <= maxRecords q) (batches (calls q));
  qo_current : len (current q) < maxRecords q;
  qo_timer : timer q = negb (len (current q) =? 0);
  qo_slots : queueSlots q = len (queue q) + len (producers q) ∧ queueSlots q <= queueSize q;
  qo_done : ingestDone q = true → closed q = true ∧ queue q = [] ∧ current q = [] }.

Lemma positive_pos n d : 0 < d → 0 < positive n d.
Proof. intros Hd. unfold positive. destruct (Z.leb_spec n 0); lia. Qed.

Lemma replay_snoc ops o s : replay (ops ++ [o]) s = batch_service_ops.exec o (replay ops s).
Proof. unfold replay. by rewrite foldl_app. Qed.
Lemma accepted_snoc ops o : accepted (ops ++ [o]) = accepted ops ++ accepted [o].
Proof. apply omap_app. Qed.
Lemma batches_snoc ops o : batches (ops ++ [o]) = batches ops ++ batches [o].
Proof. apply omap_app. Qed.
Lemma batches_commit items : concat (batches [Commit_ items]) = items.
Proof. destruct items; [done|]. apply app_nil_r. Qed.

Lemma len_snoc {A} (l : list A) x : len (l ++ [x]) = len l + 1.
Proof. unfold len. rewrite length_app. cbn. lia. Qed.
Lemma len_delete {A} (l : list A) i x : l !! i = Some x → len (delete i l) = len l - 1.
Proof. intros Hi. pose proof (lookup_lt_Some _ _ _ Hi). unfold len. rewrite length_delete; [lia|by rewrite Hi]. Qed.
Lemma len_0 {A} (l : list A) : len l = 0 → l = [].
Proof. by destruct l. Qed.

(** A step that leaves the service, the queue and the worker alone. *)
Lemma queue_ok_producers s0 q slots ps :
  queue_ok s0 q → slots = len (queue q) + len ps → slots <= queueSize q → queue_ok s0 (set_producers slots ps q).
Proof. intros [] Hs Hle. by constructor. Qed.

(** A call that neither accepts nor commits. *)
Lemma queue_ok_quiet s0 q o : queue_ok s0 q → accepted [o] = [] → batches [o] = [] → queue_ok s0 (call o q).
Proof.
  intros Q Ha Hb. destruct Q as [Q1 Q2 Q3 Q4 Q5 Q6 Q7].
  constructor; cbn; rewrite ?accepted_snoc, ?batches_snoc, ?Ha, ?Hb, ?app_nil_r; try done. by rewrite replay_snoc, Q1.
Qed.

Lemma queue_ok_commit s0 q items done :
  service q = replay (calls q) s0 → accepted (calls q) = concat (batches (calls q)) ++ items ++ queue q →
  Forall (λ items, 1 <= len items <= maxRecords q) (batches (calls q)) → len items <= maxRecords q → 0 < maxRecords q →
  queueSlots q = len (queue q) + len (producers q) ∧ queueSlots q <= queueSize q →
  (done = true → closed q = true ∧ queue q = []) → queue_ok s0 (commitBatch items done q).
Proof.
  intros Hs Ho Hf Hl Hm Hq Hd. constructor; cbn; try done.
  - by rewrite replay_snoc, <- Hs.
  - rewrite accepted_snoc, batches_snoc, concat_app, batches_commit, Ho. change (accepted [Commit_ items]) with (@nil Accepted).
    by rewrite app_nil_r, <- app_assoc.
  - rewrite batches_snoc. apply Forall_app. split; [done|]. destruct items as [|x items]; constructor; [|done].
    split; [unfold len; cbn; lia|done].
  - intros E. by destruct (Hd E).
Qed.

Lemma enqueue_ok s0 q i : queue_ok s0 q → queue_ok s0 (enqueue i q).
Proof.
  intros Q. pose proof (qo_slots _ _ Q) as [Hs Hle]. unfold enqueue.
  destruct (producers q !! i) as [item|] eqn:Ei; [|done]. pose proof (len_delete _ _ _ Ei) as Ed. destruct (closed q) eqn:Ecl.
  - apply queue_ok_quiet; [|done..]. apply queue_ok_producers; [done|lia..].
  - destruct (len (queue q) <? queueSize q); [|done]. destruct Q as [Q1 Q2 Q3 Q4 Q5 Q6 Q7].
    assert (batches (calls q ++ [Accept item]) = batches (calls q)) as Eb by (rewrite batches_snoc; apply app_nil_r).
    constructor; cbn; rewrite ?Eb; try done.
    + by rewrite replay_snoc, Q1.
    + by rewrite accepted_snoc, Q2, <- !app_assoc.
    + rewrite len_snoc. lia.
    + intros E. destruct (Q7 E). congruence.
Qed.

Lemma receive_ok s0 q : queue_ok s0 q → queue_ok s0 (receive q).
Proof.
  intros Q. unfold receive. destruct (ingestDone q) eqn:Ed; [done|]. destruct (queue q) as [|item rest] eqn:Eq; [done|].
  destruct Q as [Q1 Q2 Q3 Q4 Q5 [Q6 Q6'] Q7]. rewrite Eq in *. cbn [current maxRecords set_producers set_queue timer queueSlots producers].
  assert (len (item :: rest) = len rest + 1) as El by (unfold len; cbn; lia). pose proof (len_nonneg (current q)).
  destruct (Z.leb_spec (maxRecords q) (len (current q ++ [item]))) as [Hle|Hlt].
  - apply queue_ok_commit; cbn; try done; rewrite ?len_snoc; try lia. by rewrite Q2, <- !app_assoc.
  - constructor; cbn; try done; [by rewrite Q2, <- !app_assoc| |lia]. rewrite len_snoc, Q5.
    destruct (Z.eqb_spec (len (current q) + 1) 1), (Z.eqb_spec (len (current q)) 0), (Z.eqb_spec (len (current q) + 1) 0); cbn; lia || done.
Qed.

Lemma exec_queue_ok s0 q t : queue_ok s0 q → queue_ok s0 (exec t q).
Proof.
  intros Q. pose proof Q as [Q1 Q2 Q3 Q4 Q5 [Q6 Q6'] Q7]. pose proof (len_nonneg (current q)).
  destruct t as [item|i|i| | | | |o]; cbn [exec].
  - unfold takeSlot. destruct (batch_checkpoint.requireConfig _); [|done]. destruct (Z.ltb_spec (queueSlots q) (queueSize q)); [|done].
    apply queue_ok_producers; [done| |lia]. rewrite len_snoc. lia.
  - unfold cancelEnqueue. destruct (producers q !! i) eqn:Ei; [|done].
    apply queue_ok_producers; [done| |lia]. rewrite (len_delete _ _ _ Ei). lia.
  - by apply enqueue_ok.
  - by apply receive_ok.
  - unfold timerFired. destruct (ingestDone q); [done|]. destruct (timer q); [|done]. apply queue_ok_commit; try done; lia.
  - constructor; try done. cbn. intros E. by destruct (Q7 E) as (_ & ? & ?).
  - unfold finish. destruct (ingestDone q); [done|]. destruct (closed q) eqn:Ecl; [|done]. cbn [orb negb].
    destruct (Z.eqb_spec (len (queue q)) 0) as [E0%len_0|]; [|done]. apply queue_ok_commit; try done; lia.
  - destruct (background o) eqn:Eb; [|done]. apply queue_ok_quiet; [done|..]; by destruct o.
Qed.

Lemma run_queue_ok s0 ts q : queue_ok s0 q → queue_ok s0 (run ts q).
Proof. revert q. induction ts as [|t ts IH]; intros q Q; [done|]. cbn. by apply IH, exec_queue_ok. Qed.

Lemma New_queue_ok c clk n st : queue_ok (batch.New c clk n st) (New c clk n st).
Proof.
  constructor; try done; cbn; [apply (positive_pos _ 1024); lia|].
  split; [done|]. apply Z.lt_le_incl, (positive_pos _ 1024). lia.
Qed.

(** ** Shutdown *)

Lemma accepted_call o q : accepted [o] = [] → accepted (calls (call o q)) = accepted (calls q).
Proof. intros Ho. cbn. by rewrite accepted_snoc, Ho, app_nil_r. Qed.

(** A closed service accepts nothing. *)
Lemma closed_exec q t : closed q = true → closed (exec t q) = true ∧ accepted (calls (exec t q)) = accepted (calls q).
Proof.
  intros Hc. destruct t as [item|i|i| | | | |o]; cbn [exec].
  - unfold takeSlot. destruct (batch_checkpoint.requireConfig _); [|done]. by destruct (_ <? _).
  - unfold cancelEnqueue. by destruct (producers q !! i).
  - unfold enqueue. destruct (producers q !! i) as [item|]; [|done]. rewrite Hc. split; [done|by rewrite accepted_call].
  - unfold receive. destruct (ingestDone q); [done|]. destruct (queue q) as [|item rest]; [done|].
    cbn zeta. destruct (_ <=? _); [|done]. split; [done|]. exact (accepted_call (Commit_ _) (set_producers _ _ (set_queue rest q)) eq_refl).
  - unfold timerFired. destruct (_ || _); [done|]. split; [done|]. exact (accepted_call (Commit_ _) q eq_refl).
  - done.
  - unfold finish. destruct (_ || _ || _); [done|]. split; [done|]. exact (accepted_call (Commit_ _) q eq_refl).
  - destruct (background o) eqn:Eb; [|done]. split; [done|]. apply accepted_call. by destruct o.
Qed.
Lemma closed_run ts q : closed q = true → closed (run ts q) = true ∧ accepted (calls (run ts q)) = accepted (calls q).
Proof.
  revert q. induction ts as [|t ts IH]; intros q Hc; [done|]. destruct (closed_exec q t Hc) as [Hc1 Ha1]. cbn.
  destruct (IH _ Hc1) as [? Ha]. split; [done|]. by rewrite <- Ha1.
Qed.

Lemma done_exec q t : ingestDone q = true → ingestDone (exec t q) = true.
Proof.
  intros Hd. destruct t as [item|i|i| | | | |o]; cbn [exec]; [| | | | |done| |].
  - unfold takeSlot. destruct (batch_checkpoint.requireConfig _); [|done]. by destruct (_ <? _).
  - unfold cancelEnqueue. by destruct (producers q !! i).
  - unfold enqueue. destruct (producers q !! i) as [item|]; [|done]. destruct (closed q); [done|]. by destruct (_ <? _).
  - unfold receive. by rewrite Hd.
  - unfold timerFired. by rewrite Hd.
  - unfold finish. by rewrite Hd.
  - by destruct (background o).
Qed.
Lemma done_run ts q : ingestDone q = true → ingestDone (run ts q) = true.
Proof. revert q. induction ts as [|t ts IH]; intros q Hd; [done|]. by apply IH, done_exec. Qed.

Lemma done_all s0 q : queue_ok s0 q → ingestDone q = true → concat (batches (calls q)) = accepted (calls q).
Proof. intros Q Hd. destruct (qo_done _ _ Q Hd) as (_ & Eq & Ec). by rewrite (qo_order _ _ Q), Eq, Ec, !app_nil_r. Qed.

Lemma run_steps_app ts ts' q : run (ts ++ ts') q = run ts' (run ts q).
Proof. apply foldl_app. Qed.

(** The worker empties the queue. *)
Lemma receive_all s0 q : queue_ok s0 q → queue (run (replicate (length (queue q)) Receive) q) = [].
Proof.
  remember (length (queue q)) as n eqn:En. revert q En. induction n as [|n IH]; intros q En Q.
  - by apply length_zero_iff_nil.
  - destruct (queue q) as [|item rest] eqn:Eq; [done|]. injection En as En. cbn.
    assert (queue (receive q) = rest) as Er.
    { unfold receive. destruct (ingestDone q) eqn:Ed; [|rewrite Eq; cbn zeta; by destruct (_ <=? _)].
      destruct (qo_done _ _ Q Ed) as (_ & Hq & _). congruence. }
    apply IH; [by rewrite Er|by apply receive_ok].
Qed.

(** What the worker does after a shutdown. *)
Lemma drained s0 q (q' := run (Close :: replicate (length (queue q)) Receive ++ [Finish]) q) :
  queue_ok s0 q → queue_ok s0 q' ∧ closed q' = true ∧ ingestDone q' = true ∧ accepted (calls q') = accepted (calls q).
Proof.
  intros Q. set (q1 := Shutdown q). pose proof (exec_queue_ok _ q Close Q : queue_ok s0 q1) as Q1.
  set (rs := replicate (length (queue q)) Receive). assert (q' = finish (run rs q1)) as -> by apply (run_steps_app rs [Finish] q1).
  destruct (closed_run rs q1 eq_refl) as [Hc2 Ha2]. pose proof (receive_all _ q1 Q1 : queue (run rs q1) = []) as Hq2.
  pose proof (run_queue_ok _ rs _ Q1) as Q2. destruct (closed_exec _ Finish Hc2) as [Hc3 Ha3].
  split_and!; [exact (exec_queue_ok _ _ Finish Q2)|exact Hc3| |exact (eq_trans Ha3 Ha2)].
  unfold finish. destruct (ingestDone (run rs q1)) eqn:Ed; [done|]. by rewrite Hc2, Hq2.
Qed.

(** C9: every accepted record is batched once and in order.  For every run of
    producers, cancellations, the worker with its timer, a shutdown and whatever
    else the service does: the service is in the state that the calls of the run
    lead to; the records that entered the queue are, in order, those of the
    batches handed to [commit] (which may fail or only prepare a batch), of the
    batch that is being collected and of the queue; a
    batch has between one record and the maximum; the timer is armed exactly when
    a batch is being collected; and the queue has room for every producer that has
    a slot, so no producer blocks while it holds the lock. *)
Theorem enqueued_once c clk n st ts :
  let q := run ts (New c clk n st) in
  service q = replay (calls q) (batch.New c clk n st) ∧
  accepted (calls q) = concat (batches (calls q)) ++ current q ++ queue q ∧
  Forall (λ items, 1 <= len items <= maxRecords q) (batches (calls q)) ∧
  timer q = negb (len (current q) =? 0) ∧
  len (queue q) + len (producers q) <= queueSize q.
Proof.
  intros q. destruct (run_queue_ok _ ts _ (New_queue_ok c clk n st)) as [Q1 Q2 Q3 Q4 Q5 [Q6 Q6'] Q7]. fold q in Q1, Q2, Q3, Q4, Q5, Q6, Q6', Q7.
  split_and!; [done..|lia].
Qed.

(** C10: a shutdown drains the queue.  After a shutdown at any point the worker ends
    when it has received what is in the queue; by then every record that was ever
    accepted has been handed to [commit] in exactly one batch, in the order of
    acceptance, and nothing is accepted or handed over afterwards.  What [commit]
    makes of a batch is not claimed here: it may fail, which leaves the statuses
    at retry_pending and the records in the log, or only prepare the batch. *)
Theorem shutdown_drains_queue c clk n st ts ts' :
  let q := run ts (New c clk n st) in
  let q' := run (Close :: replicate (length (queue q)) Receive ++ [Finish]) q in
  ingestDone q' = true ∧ concat (batches (calls q')) = accepted (calls q) ∧
  accepted (calls (run ts' q')) = accepted (calls q) ∧ concat (batches (calls (run ts' q'))) = accepted (calls q).
Proof.
  intros q q'. destruct (drained _ q (run_queue_ok _ ts _ (New_queue_ok c clk n st))) as (Q & Hc & Hd & Ha). fold q' in Q, Hc, Hd, Ha.
  destruct (closed_run ts' q' Hc) as [_ Ha']. rewrite <- Ha. split_and!; [done|by eapply done_all|done|].
  rewrite <- Ha'. eapply done_all; [by apply run_queue_ok|by apply done_run].
Qed.

End queue.
End batch_queue.
