(* ===== verification/BatchReplay.v ===== *)
(** * The start-up replay of the log

    Models the replay of [src/cmd/trustdb/serve_cmd.go]: the cache of
    manifests, the checks that a record of the log is proved in a committed
    batch, the visitor of the scan with its run of committed sequences, the
    recovery of the prepared manifests, and the loader of the items of a
    manifest.

    The replay is cut into the steps between which the workers of the service
    may run: the start, one visited record, the end of the scan, and the
    recovery of one manifest.  A step that fails ends the replay, so that what
    it did to the variables of the replay does not matter.  Given to the steps
    are the records that the scan of the log visits, the manifests that
    [ListManifestsAfter] lists, and how [EnqueueRecovered] ended.  Contexts are
    live; the metrics and the counts of records are not modelled. *)

From S2P Require Import Prelude TrustErr CryptoSuite Model TrustCrypto Cborx KeyDescriptor ModelSuite.
From S2P Require Import StoreMonad GlobalStore AnchorSchedule AnchorStore RecordSearch RecordIndex Outbox.
From S2P Require Import Merkle Claim Receipt Wal WalDir WalQueue Idempotency IdemIndex App BatchCheckpoint BatchStore BatchStoreProofs.
From S2P Require Import BatchService.

Module batch_replay.
Import batchstore batch.
Import batch_checkpoint (Accepted, Signed, Record_, Accepted_, mkAccepted).
Module Log := wal.Record_.
#[local] Existing Instance batchstore_proofs.pebble_checkpoints.

(** ** The cache of manifests *)

Definition replayManifestStateCacheLimit : nat := 256.

Record replayManifestCache := mkCache {
  cached : gmap string Man.t;
  order : list string;
  next : nat }.

Definition newReplayManifestCache : replayManifestCache := mkCache ∅ [] 0.

Definition remember (m : Man.t) (c : replayManifestCache) : replayManifestCache :=
  let b := m.(Man.BatchID) in
  if seqb b "" then c else
  if bool_decide (is_Some (cached c !! b)) then mkCache (<[b := m]> (cached c)) (order c) (next c) else
  if (length (order c) <? replayManifestStateCacheLimit)%nat
  then mkCache (<[b := m]> (cached c)) (order c ++ [b]) (next c) else
  let evicted := default "" (order c !! next c) in
  mkCache (<[b := m]> (delete evicted (cached c))) (<[next c := b]> (order c))
    ((next c + 1) mod replayManifestStateCacheLimit)%nat.

(** ** Prepared manifests *)

(** [index] is a function of the manifest: the last position of an id. *)
Record preparedReplay := mkPrepared {
  manifest : Man.t;
  items : list Accepted;
  index : gmap string nat;
  seen : gset string;
  count : nat }.

Definition no_item : Accepted := mkAccepted SignedClaim.zero ServerRecord.zero AcceptedReceipt.zero.

Fixpoint positions (i : nat) (ids : list string) (m : gmap string nat) : gmap string nat :=
  match ids with
  | [] => m
  | id :: rest => positions (S i) rest (<[id := i]> m)
  end.

Definition newPreparedReplay (m : Man.t) : preparedReplay :=
  let ids := m.(Man.RecordIDs) in mkPrepared m (replicate (length ids) no_item) (positions 0 ids ∅) ∅ 0.

Definition add (item : Accepted) (p : preparedReplay) : preparedReplay :=
  let rid := (Record_ item).(ServerRecord.RecordID) in
  if bool_decide (rid ∈ seen p) then p else
  match index p !! rid with
  | None => p
  | Some i => mkPrepared (manifest p) (<[i := item]> (items p)) (index p) ({[rid]} ∪ seen p) (S (count p))
  end.

Definition missingRecordID (p : preparedReplay) : string :=
  match list_find (λ rid, rid ∉ seen p) (manifest p).(Man.RecordIDs) with
  | Some (_, rid) => rid
  | None => ""
  end.

(** ** The variables of the replay *)

(** The run of committed records; it is empty when [run_from] has sequence 0. *)
Record Run := mkRun { run_from : Pos.t; run_to : Pos.t; run_batch : string }.
Definition no_run : Run := mkRun Pos.zero Pos.zero "".

(** [checkpoint] is the stored one, [prepared_of] the prepared manifest of a
    record by its place in [preparedManifests], [index_] that of the engine. *)
Record Replay := mkReplay {
  checkpointSafe : bool;
  checkpoint : option WCp.t;
  prepared_of : gmap string nat;
  preparedManifests : list preparedReplay;
  failedByRecordID : gset string;
  firstRetainedSequence : Z;
  committedRun : Run;
  localRecordIDs : gset string;
  boundaryValidated : bool;
  manifestCache : replayManifestCache;
  index_ : option app_idempotency.IdempotencyIndex }.

Definition set_prepared (by_id : gmap string nat) (ps : list preparedReplay) (r : Replay) : Replay :=
  mkReplay (checkpointSafe r) (checkpoint r) by_id ps (failedByRecordID r) (firstRetainedSequence r) (committedRun r)
    (localRecordIDs r) (boundaryValidated r) (manifestCache r) (index_ r).
Definition set_failed (ids : gset string) (r : Replay) : Replay :=
  mkReplay (checkpointSafe r) (checkpoint r) (prepared_of r) (preparedManifests r) ids (firstRetainedSequence r)
    (committedRun r) (localRecordIDs r) (boundaryValidated r) (manifestCache r) (index_ r).
Definition set_first (n : Z) (r : Replay) : Replay :=
  mkReplay (checkpointSafe r) (checkpoint r) (prepared_of r) (preparedManifests r) (failedByRecordID r) n (committedRun r)
    (localRecordIDs r) (boundaryValidated r) (manifestCache r) (index_ r).
Definition set_run (run : Run) (r : Replay) : Replay :=
  mkReplay (checkpointSafe r) (checkpoint r) (prepared_of r) (preparedManifests r) (failedByRecordID r)
    (firstRetainedSequence r) run (localRecordIDs r) (boundaryValidated r) (manifestCache r) (index_ r).
Definition set_local (ids : gset string) (r : Replay) : Replay :=
  mkReplay (checkpointSafe r) (checkpoint r) (prepared_of r) (preparedManifests r) (failedByRecordID r)
    (firstRetainedSequence r) (committedRun r) ids (boundaryValidated r) (manifestCache r) (index_ r).
Definition set_cache (validated : bool) (c : replayManifestCache) (r : Replay) : Replay :=
  mkReplay (checkpointSafe r) (checkpoint r) (prepared_of r) (preparedManifests r) (failedByRecordID r)
    (firstRetainedSequence r) (committedRun r) (localRecordIDs r) validated c (index_ r).
Definition set_index (i : option app_idempotency.IdempotencyIndex) (r : Replay) : Replay :=
  mkReplay (checkpointSafe r) (checkpoint r) (prepared_of r) (preparedManifests r) (failedByRecordID r)
    (firstRetainedSequence r) (committedRun r) (localRecordIDs r) (boundaryValidated r) (manifestCache r) i.

(** The checkpoint below which records are skipped: [hasCheckpoint]. *)
Definition trusted (r : Replay) : option WCp.t :=
  match checkpoint r with
  | Some cp => if checkpointSafe r && (0 <? cp.(WCp.LastSequence)) then Some cp else None
  | None => None
  end.
Definition requireFullPrefix (r : Replay) : bool := bool_decide (trusted r = None).

(** ** The start *)

Fixpoint add_failed (ids : list string) (r : Replay) : result Replay :=
  match ids with
  | [] => Ok r
  | rid :: rest =>
      if bool_decide (is_Some (prepared_of r !! rid))
      then Err (TrustErr.New CodeFailedPrecondition "record appears in both failed and prepared manifests") else
      if bool_decide (rid ∈ failedByRecordID r)
      then Err (TrustErr.New CodeFailedPrecondition "record appears in more than one failed manifest") else
      add_failed rest (set_failed ({[rid]} ∪ failedByRecordID r) r)
  end.

Fixpoint add_prepared (i : nat) (ids : list string) (r : Replay) : result Replay :=
  match ids with
  | [] => Ok r
  | rid :: rest =>
      if bool_decide (rid ∈ failedByRecordID r)
      then Err (TrustErr.New CodeFailedPrecondition "record appears in both failed and prepared manifests") else
      if bool_decide (is_Some (prepared_of r !! rid))
      then Err (TrustErr.New CodeFailedPrecondition "record appears in more than one prepared manifest") else
      add_prepared i rest (set_prepared (<[rid := i]> (prepared_of r)) (preparedManifests r) r)
  end.

(** The body of the loop over the listed manifests. *)
Definition classify (m : Man.t) (r : Replay) : result Replay :=
  if is_committed m then Ok r else
  if seqb m.(Man.State) BatchStateFailed then add_failed m.(Man.RecordIDs) r else
  if negb (seqb m.(Man.State) BatchStatePreparing) && negb (seqb m.(Man.State) BatchStatePrepared)
  then Err (TrustErr.New CodeFailedPrecondition "unknown batch manifest state: ") else
  let last := m.(Man.WALRange).(WALRange.To).(Pos.Sequence) in
  if match trusted r with Some cp => (0 <? last) && (last <=? cp.(WCp.LastSequence)) | None => false end then Ok r else
  let n := length (preparedManifests r) in
  r ← add_prepared n m.(Man.RecordIDs) r;
  Ok (set_prepared (prepared_of r) (preparedManifests r ++ [newPreparedReplay m]) r).

Fixpoint classify_all (ms : list Man.t) (r : Replay) : result Replay :=
  match ms with
  | [] => Ok r
  | m :: rest => r ← classify m r; classify_all rest r
  end.

Section replay.
Context `{HashLib, SigLib, KeyDescriptorLib, UnicodeLib, SnappyLib, ErrorText, ComputeEngine}.
Context `{CborMode ClientClaim.t, CborMode claim.framing, CborMode SignedClaim.t}.
Context `{CborMode AcceptedReceipt.t, CborMode ServerRecord.t}.
Context `{CborMode Bun.t, CborMode storedProofBundleEnvelope, CborMode Idx.t, CborMode BatchRoot.t, CborMode Man.t}.
Context `{CborMode Dec.t, CborMode batchTreeLeafTile, CborMode batchTreeNodeTile, CborMode WCp.t}.

(** [listed] are the manifests of the pages and [listing] how the listing
    ended; [checkpointBoundaryValidated] starts as [!hasCheckpoint]; the index
    is the one of the engine, and there is a log. *)
Definition startReplay (listed : list Man.t) (listing : result unit) (idx : option app_idempotency.IdempotencyIndex) : M Replay := λ s,
  let s := set_checkpoints (batch_checkpoint.DeferCheckpointAdvance (checkpoint_opts (opts s)) (checkpoints s)).1 s in
  (s,
   found ← GetCheckpoint (store s);
   _ ← match found with
       | Some cp =>
           if negb (seqb cp.(WCp.SchemaVersion) SchemaWALCheckpoint)
           then Err (TrustErr.New CodeFailedPrecondition "unsupported wal checkpoint schema: ") else Ok tt
       | None => Ok tt
       end;
   let r := mkReplay (WALCheckpointPruneSafe (store s)) found ∅ [] ∅ 0 no_run ∅ true newReplayManifestCache idx in
   _ ← match trusted r with
       | Some cp =>
           if (cp.(WCp.SegmentID) =? 0) || (cp.(WCp.LastOffset) <? 0)
           then Err (TrustErr.New CodeDataLoss "contiguous wal checkpoint has an invalid position") else Ok tt
       | None => Ok tt
       end;
   r ← classify_all listed (set_cache (requireFullPrefix r) (manifestCache r) r);
   _ ← listing; Ok r).

(** ** The checks of a committed record *)

Definition lookup (st : Store) (b : string) (c : replayManifestCache) : replayManifestCache * result Man.t :=
  match cached c !! b with
  | Some m => (c, Ok m)
  | None =>
      match GetManifest b st with
      | Err e => (c, Err e)
      | Ok m => (remember m c, Ok m)
      end
  end.

Definition validateCommittedReplayIndex (st : Store) (recordID : string) (idx : Idx.t) (c : replayManifestCache)
  : replayManifestCache * result Man.t :=
  if negb (seqb idx.(Idx.RecordID) recordID) || seqb idx.(Idx.BatchID) ""
  then (c, Err (TrustErr.New CodeDataLoss "record index does not identify its committed batch")) else
  let '(c, found) := lookup st idx.(Idx.BatchID) c in
  (c,
   m ← wrap_err CodeDataLoss "load indexed batch manifest" found;
   if negb (seqb m.(Man.BatchID) idx.(Idx.BatchID)) || negb (is_committed m)
   then Err (TrustErr.New CodeDataLoss "record index is not covered by its committed batch manifest") else
   let i := idx.(Idx.BatchLeafIndex) in
   if (len m.(Man.RecordIDs) <=? i) || negb (bool_decide (m.(Man.RecordIDs) !! Z.to_nat i = Some recordID))
   then Err (TrustErr.New CodeDataLoss "record index leaf does not match its committed batch manifest") else
   if negb (m.(Man.TreeSize) =? len m.(Man.RecordIDs))
   then Err (TrustErr.New CodeDataLoss "committed batch manifest tree size does not match its record membership")
   else Ok m).

Definition validateProofBundleClaim (suiteID : cryptosuite.ID) (bundle : Bun.t) : result unit :=
  suite ← wrap_err CodeDataLoss "checkpointed proof crypto_suite" (cryptosuite.RequireAvailable suiteID);
  _ ← wrap_err CodeDataLoss "checkpointed proof suite binding"
        (modelsuite.Require_ (cryptosuite.SuiteID suite) (modelsuite.AnyProofBundle bundle));
  provider ← wrap_err CodeDataLoss "checkpointed proof crypto provider"
               (trustcrypto.ProviderForSuite (cryptosuite.SuiteID suite));
  let signed := bundle.(Bun.SignedClaim) in
  let cl := signed.(SignedClaim.Claim) in
  let record := bundle.(Bun.ServerRecord) in
  let accepted := bundle.(Bun.AcceptedReceipt) in
  if negb (seqb signed.(SignedClaim.SchemaVersion) SchemaSignedClaim)
     || negb (seqb cl.(ClientClaim.SchemaVersion) SchemaClientClaim)
     || negb (seqb record.(ServerRecord.SchemaVersion) SchemaServerRecord)
     || negb (seqb accepted.(AcceptedReceipt.SchemaVersion) SchemaAcceptedReceipt)
     || negb (seqb signed.(SignedClaim.Signature).(Signature.KeyID) cl.(ClientClaim.KeyID))
     || negb (seqb record.(ServerRecord.TenantID) cl.(ClientClaim.TenantID))
     || negb (seqb record.(ServerRecord.ClientID) cl.(ClientClaim.ClientID))
     || negb (seqb record.(ServerRecord.KeyID) cl.(ClientClaim.KeyID))
     || negb (accepted.(AcceptedReceipt.ReceivedAtUnixN) =? record.(ServerRecord.ReceivedAtUnixN))
  then Err (TrustErr.New CodeDataLoss "checkpointed proof claim metadata does not match its server record") else
  claimCBOR ← wrap_err CodeDataLoss "canonicalize checkpointed proof claim" (claim.Canonical cl);
  claimHash ← wrap_err CodeDataLoss "hash checkpointed proof claim"
                (trustcrypto.HashBytesWithProvider (Some provider)
                   (cryptosuite.HashAlgorithm (cryptosuite.ClaimHash suite)) claimCBOR);
  signatureHash ← wrap_err CodeDataLoss "hash checkpointed proof signature"
                    (trustcrypto.HashBytesWithProvider (Some provider)
                       (cryptosuite.HashAlgorithm (cryptosuite.SignatureHash suite))
                       signed.(SignedClaim.Signature).(Signature.Signature));
  recordID ← wrap_err CodeDataLoss "derive checkpointed proof record id"
               (claim.RecordIDWithProvider (Some provider) claimCBOR signed.(SignedClaim.Signature));
  if negb (seqb recordID record.(ServerRecord.RecordID))
     || negb (bytes_equal claimHash record.(ServerRecord.ClaimHash))
     || negb (bytes_equal signatureHash record.(ServerRecord.ClientSignatureHash))
  then Err (TrustErr.New CodeDataLoss "checkpointed proof claim is not bound to its server record") else Ok tt.

(** The bundle against the record, the index, the manifest and the position. *)
Definition checkBundle (record : Log.t) (item : app.ReplayedAccepted) (idx : Idx.t) (m : Man.t) (bundle : Bun.t)
  : result unit :=
  let recordID := (app.Record_ item).(ServerRecord.RecordID) in
  let com := bundle.(Bun.CommittedReceipt) in
  let srv := bundle.(Bun.ServerRecord) in
  let rec := app.Record_ item in
  let pos := record.(Log.Position) in
  if negb (seqb bundle.(Bun.RecordID) recordID) || negb (seqb srv.(ServerRecord.RecordID) recordID)
     || negb (seqb bundle.(Bun.AcceptedReceipt).(AcceptedReceipt.RecordID) recordID)
     || negb (seqb com.(CommittedReceipt.RecordID) recordID)
  then Err (TrustErr.New CodeDataLoss "proof bundle record identity does not match the wal record") else
  if negb (seqb com.(CommittedReceipt.BatchID) idx.(Idx.BatchID))
     || negb (com.(CommittedReceipt.LeafIndex) =? idx.(Idx.BatchLeafIndex))
  then Err (TrustErr.New CodeDataLoss "proof bundle commitment does not match the record index") else
  if negb (bundle.(Bun.BatchProof).(BatchProof.LeafIndex) =? idx.(Idx.BatchLeafIndex))
     || negb (bundle.(Bun.BatchProof).(BatchProof.TreeSize) =? m.(Man.TreeSize))
     || negb (bytes_equal com.(CommittedReceipt.BatchRoot) m.(Man.BatchRoot))
  then Err (TrustErr.New CodeDataLoss "proof bundle commitment does not match its committed batch manifest") else
  if negb (bool_decide (srv.(ServerRecord.WAL) = pos))
     || negb (bool_decide (bundle.(Bun.AcceptedReceipt).(AcceptedReceipt.WAL) = pos))
     || negb (bool_decide (rec.(ServerRecord.WAL) = pos))
     || negb (bool_decide ((app.Accepted item).(AcceptedReceipt.WAL) = pos))
  then Err (TrustErr.New CodeDataLoss "proof bundle wal position does not match the replayed record") else
  if negb (seqb srv.(ServerRecord.TenantID) rec.(ServerRecord.TenantID))
     || negb (seqb srv.(ServerRecord.ClientID) rec.(ServerRecord.ClientID))
     || negb (seqb srv.(ServerRecord.KeyID) rec.(ServerRecord.KeyID))
     || negb (srv.(ServerRecord.ReceivedAtUnixN) =? rec.(ServerRecord.ReceivedAtUnixN))
     || negb (bytes_equal srv.(ServerRecord.ClaimHash) rec.(ServerRecord.ClaimHash))
  then Err (TrustErr.New CodeDataLoss "proof bundle server record does not match the replayed claim") else Ok tt.

Definition verifyPath (fuel : nat) (suite : cryptosuite.Suite) (idx : Idx.t) (m : Man.t) (bundle : Bun.t) : go unit :=
  let id := cryptosuite.SuiteID suite in
  let alg := cryptosuite.MerkleAlgorithm (cryptosuite.Merkle suite) in
  leafHash ← gwrap CodeDataLoss "hash replay proof bundle leaf"
               (call (merkle.HashLeafForSuite id alg bundle.(Bun.ServerRecord)));
  pathValid ← gwrap CodeDataLoss "verify replay proof bundle merkle path"
                (call (merkle.VerifyForSuite fuel id alg leafHash idx.(Idx.BatchLeafIndex) m.(Man.TreeSize)
                         bundle.(Bun.BatchProof).(BatchProof.AuditPath) m.(Man.BatchRoot)));
  if negb (bytes_equal leafHash bundle.(Bun.CommittedReceipt).(CommittedReceipt.LeafHash)) || negb pathValid
  then Fail (TrustErr.New CodeDataLoss "proof bundle merkle path does not match its committed batch manifest") else Ret tt.

(** The fuel is that of the loop over the audit path. *)
Definition validateCommittedReplayRecord (fuel : nat) (st : Store) (record : Log.t) (item : app.ReplayedAccepted)
    (idx : Idx.t) (c : replayManifestCache) : replayManifestCache * go (string * Bun.t) :=
  match wrap_err CodeDataLoss "replayed wal record crypto_suite"
          (cryptosuite.RequireAvailable record.(Log.CryptoSuite)) with
  | Err e => (c, Fail e)
  | Ok suite =>
      let recordID := (app.Record_ item).(ServerRecord.RecordID) in
      let '(c, m) := validateCommittedReplayIndex st recordID idx c in
      (c,
       m ← ret m;
       bundle ← ret (wrap_err CodeDataLoss "load indexed proof bundle" (GetBundle recordID st));
       _ ← ret (checkBundle record item idx m bundle);
       _ ← ret (validateProofBundleClaim (cryptosuite.SuiteID suite) bundle);
       _ ← verifyPath fuel suite idx m bundle;
       Ret (idx.(Idx.BatchID), bundle))
  end.

Definition validateDurableReplayDecision (e : app.LocalEngine) (item : app.ReplayedAccepted) (bundle : option Bun.t)
    (batchID : string) (committed : bool) : result unit :=
  let cl := (app.Signed item).(SignedClaim.Claim) in
  match app.DurableIdempotency e with
  | None => Ok tt
  | Some GetIdempotencyDecision =>
      if seqb cl.(ClientClaim.IdempotencyKey) "" then Ok tt else
      found ← wrap_err CodeDataLoss "read replay idempotency decision"
                (GetIdempotencyDecision (IdempotencyIdentity.mk cl.(ClientClaim.TenantID) cl.(ClientClaim.ClientID)
                   cl.(ClientClaim.IdempotencyKey)));
      if negb committed
      then match found with
           | Some _ => Err (TrustErr.New CodeDataLoss "uncommitted wal record has a durable idempotency decision")
           | None => Ok tt
           end else
      match found, bundle with
      | None, _ => Err (TrustErr.New CodeDataLoss "committed wal record is missing its durable idempotency decision")
      | _, None => Err (TrustErr.New CodeDataLoss "committed wal record has no persisted proof bundle")
      | Some decision, Some bundle =>
          provider ← wrap_err CodeDataLoss "build replay idempotency crypto provider"
                       (trustcrypto.ProviderForSuite (app.Signed item).(SignedClaim.CryptoSuite));
          expected ← wrap_err CodeDataLoss "build replay idempotency decision"
                       (idempotency.BuildDecisionWithProvider (Some provider) batchID bundle.(Bun.SignedClaim)
                          bundle.(Bun.ServerRecord) bundle.(Bun.AcceptedReceipt));
          if negb (idempotency.Equivalent decision expected)
          then Err (TrustErr.New CodeDataLoss "committed wal record conflicts with its durable idempotency decision")
          else Ok tt
      end
  end.

Definition validateTrustedCheckpointBoundaryRecord (fuel : nat) (e : app.LocalEngine) (st : Store) (cp : WCp.t)
    (record : Log.t) (c : replayManifestCache) : replayManifestCache * go unit :=
  let pos := record.(Log.Position) in
  if negb (pos.(Pos.Sequence) =? cp.(WCp.LastSequence)) || negb (pos.(Pos.SegmentID) =? cp.(WCp.SegmentID))
     || negb (pos.(Pos.Offset) =? cp.(WCp.LastOffset))
  then (c, Fail (TrustErr.New CodeDataLoss "contiguous wal checkpoint does not match the retained wal boundary")) else
  match wrap_err CodeDataLoss "decode contiguous wal checkpoint boundary" (app.ReplayAccepted e record) with
  | Err err => (c, Fail err)
  | Ok item =>
      match wrap_err CodeDataLoss "load contiguous wal checkpoint boundary index"
              (recordindex.GetRecordIndex (app.Record_ item).(ServerRecord.RecordID) (BatchStore.batchstore.index st)) with
      | Err err => (c, Fail err)
      | Ok None =>
          (c, Fail (TrustErr.New CodeDataLoss "contiguous wal checkpoint boundary has no committed record index"))
      | Ok (Some idx) =>
          let '(c, validated) := validateCommittedReplayRecord fuel st record item idx c in
          (c,
           '(batchID, bundle) ← validated;
           if negb (seqb cp.(WCp.BatchID) "") && negb (seqb cp.(WCp.BatchID) batchID)
           then Fail (TrustErr.New CodeDataLoss "contiguous wal checkpoint batch does not match its boundary proof")
           else ret (validateDurableReplayDecision e item (Some bundle) batchID true))
      end
  end.

(** ** The visitor *)

(** [flushCommittedRun]; the run is empty afterwards. *)
Definition flushCommittedRun (now : Z) (run : Run) : M unit := λ s,
  if (run_from run).(Pos.Sequence) =? 0 then (s, Ok tt) else
  let '(c, flushed) := batch_checkpoint.RecordCommittedWALRange (checkpoint_opts (opts s)) now (run_from run) (run_to run)
                         (run_batch run) (checkpoints s) in
  (set_checkpoints c s, _ ← flushed; Ok tt).

Definition accepted_of (item : app.ReplayedAccepted) : Accepted :=
  mkAccepted (app.Signed item) (app.Record_ item) (app.Accepted item).

(** The key of the record in the index, with the check that a claim without
    idempotency key comes once. *)
Definition replayKey (item : app.ReplayedAccepted) (r : Replay) : result (string * Replay) :=
  let cl := (app.Signed item).(SignedClaim.Claim) in
  let key := app_idempotency.IdempotencyKey cl.(ClientClaim.TenantID) cl.(ClientClaim.ClientID)
               cl.(ClientClaim.IdempotencyKey) in
  if negb (seqb key "") then Ok (key, r) else
  let rid := (app.Record_ item).(ServerRecord.RecordID) in
  if bool_decide (rid ∈ localRecordIDs r)
  then Err (TrustErr.New CodeDataLoss "record id appears at conflicting local wal positions")
  else Ok (app_idempotency.RecordIDKey rid, set_local ({[rid]} ∪ localRecordIDs r) r).

Definition restoreIndex (key : string) (item : app.ReplayedAccepted) (r : Replay) : result Replay :=
  match index_ r with
  | None => Ok r
  | Some i =>
      let '(i, ok) := app_idempotency.Restore i key (app.Record_ item) (app.Accepted item)
                        (app.Record_ item).(ServerRecord.ClaimHash) in
      if negb ok then Err (TrustErr.New CodeDataLoss "wal idempotency key maps to conflicting accepted records")
      else Ok (set_index (Some i) r)
  end.

Definition forgetIndex (key recordID : string) (r : Replay) : Replay :=
  match index_ r with
  | None => r
  | Some i => set_index (Some (app_idempotency.ForgetCommitted i key recordID)) r
  end.

(** How [enqueue] ended: the item is in the queue, the service was found
    closed after the slot was taken, or nothing happened. *)
Inductive enqueued := Queued | FoundClosed | NotEnqueued (e : error).

Definition EnqueueRecovered (how : enqueued) (item : Accepted) : M unit :=
  _ ← reads (λ s, batch_checkpoint.requireConfig (checkpoint_opts (opts s)));
  match how with
  | Queued => acceptItem item
  | FoundClosed =>
      _ ← refuseItem item; lift (Err (TrustErr.New CodeFailedPrecondition "batch service is shutting down"))
  | NotEnqueued e => lift (Err e)
  end.

(** A record that is not committed: the run ends, there must be no decision,
    and the rest is done. *)
Definition uncommitted (now : Z) (e : app.LocalEngine) (item : app.ReplayedAccepted) (r : Replay) (rest : M Replay)
  : M Replay :=
  _ ← flushCommittedRun now (committedRun r);
  _ ← lift (validateDurableReplayDecision e item None "" false);
  rest.

(** The batch and the bundle, when it was read, of a record with an index. *)
Definition validateIndexed (fuel : nat) (e : app.LocalEngine) (st : Store) (record : Log.t) (item : app.ReplayedAccepted)
    (idx : Idx.t) (r : Replay) : replayManifestCache * go (string * option Bun.t) :=
  let recordID := (app.Record_ item).(ServerRecord.RecordID) in
  if negb (seqb idx.(Idx.RecordID) recordID) || seqb idx.(Idx.BatchID) ""
  then (manifestCache r, Fail (TrustErr.New CodeDataLoss "record index does not identify its committed batch")) else
  if checkpointSafe r || bool_decide (is_Some (app.DurableIdempotency e))
  then let '(c, v) := validateCommittedReplayRecord fuel st record item idx (manifestCache r) in
       (c, '(b, bundle) ← v; Ret (b, Some bundle))
  else let '(c, m) := validateCommittedReplayIndex st recordID idx (manifestCache r) in
       (c, _ ← ret m; Ret (idx.(Idx.BatchID), None)).

(** A committed record extends the run, or ends it and starts another. *)
Definition extendRun (now : Z) (pos : Pos.t) (batchID : string) (r : Replay) : M Replay :=
  let run := committedRun r in
  if negb (checkpointSafe r) then mret r else
  if (run_from run).(Pos.Sequence) =? 0 then mret (set_run (mkRun pos pos batchID) r) else
  if negb ((run_to run).(Pos.Sequence) =? two64 - 1) && (pos.(Pos.Sequence) =? u64 ((run_to run).(Pos.Sequence) + 1))
  then mret (set_run (mkRun (run_from run) pos batchID) r) else
  if pos.(Pos.Sequence) <=? (run_to run).(Pos.Sequence)
  then lift (Err (TrustErr.New CodeDataLoss "wal replay sequence is not strictly increasing")) else
  _ ← flushCommittedRun now run;
  mret (set_run (mkRun pos pos batchID) r).

(** The records above the checkpoint; a panic or a loop without end is
    [Stuck]. *)
Definition visitAbove (fuel : nat) (now : Z) (e : app.LocalEngine) (how : enqueued) (record : Log.t) (r : Replay)
    (s : Service) : Service * go Replay :=
  let answer (m : M Replay) := let '(s, a) := m s in (s, ret a) in
  match app.ReplayAccepted e record with
  | Err err => (s, Fail err)
  | Ok item =>
      let rid := (app.Record_ item).(ServerRecord.RecordID) in
      match ('(key, r) ← replayKey item r; r ← restoreIndex key item r; Ok (key, r)) with
      | Err err => (s, Fail err)
      | Ok (key, r) =>
          match prepared_of r !! rid with
          | Some i =>
              answer (uncommitted now e item r
                (mret (set_run no_run (set_prepared (prepared_of r) (alter (add (accepted_of item)) i (preparedManifests r)) r))))
          | None =>
              if bool_decide (rid ∈ failedByRecordID r)
              then answer (uncommitted now e item r (mret (set_run no_run r))) else
              match recordindex.GetRecordIndex rid (BatchStore.batchstore.index (store s)) with
              | Err err => (s, Fail err)
              | Ok None =>
                  answer (uncommitted now e item r
                    (_ ← EnqueueRecovered how (accepted_of item); mret (set_run no_run r)))
              | Ok (Some idx) =>
                  let '(c, validated) := validateIndexed fuel e (store s) record item idx r in
                  let r := set_cache (boundaryValidated r) c r in
                  match ('(b, bundle) ← validated; _ ← ret (validateDurableReplayDecision e item bundle b true); Ret b) with
                  | Ret batchID => answer (extendRun now record.(Log.Position) batchID (forgetIndex key rid r))
                  | Fail err => (s, Fail err)
                  | Stuck => (s, Stuck)
                  end
              end
          end
      end
  end.

Definition visit (fuel : nat) (now : Z) (e : app.LocalEngine) (how : enqueued) (record : Log.t) (r : Replay)
    (s : Service) : Service * go Replay :=
  let n := record.(Log.Position).(Pos.Sequence) in
  let first := firstRetainedSequence r =? 0 in
  let r := if first then set_first n r else r in
  if first && requireFullPrefix r && negb (n =? 1)
  then (s, Fail (TrustErr.New CodeDataLoss "wal cannot be fully replayed because the retained prefix is missing")) else
  match trusted r with
  | Some cp =>
      if n <=? cp.(WCp.LastSequence) then
        if n =? cp.(WCp.LastSequence)
        then let '(c, v) := validateTrustedCheckpointBoundaryRecord fuel e (store s) cp record (manifestCache r) in
             (s, _ ← v; Ret (set_cache true c r))
        else (s, Ret r)
      else if negb (boundaryValidated r)
      then (s, Fail (TrustErr.New CodeDataLoss "contiguous wal checkpoint boundary is missing from the retained wal"))
      else visitAbove fuel now e how record r s
  | None =>
      if negb (boundaryValidated r)
      then (s, Fail (TrustErr.New CodeDataLoss "contiguous wal checkpoint boundary is missing from the retained wal"))
      else visitAbove fuel now e how record r s
  end.

(** ** The end *)

(** What follows a scan without error, up to the prepared manifests. *)
Definition endScan (now : Z) (r : Replay) : M Replay :=
  _ ← flushCommittedRun now (committedRun r);
  if negb (boundaryValidated r)
  then lift (Err (TrustErr.New CodeDataLoss "contiguous wal checkpoint boundary is missing from the retained wal")) else
  if requireFullPrefix r && (firstRetainedSequence r =? 0)
     && match checkpoint r with Some cp => 0 <? cp.(WCp.LastSequence) | None => false end
  then lift (Err (TrustErr.New CodeDataLoss "wal cannot be fully replayed because the retained wal is empty"))
  else mret (set_run no_run r).

(** The body of the loop over the prepared manifests. *)
Definition recoverPrepared (p : preparedReplay) : M unit :=
  if negb (count p =? length (manifest p).(Man.RecordIDs))%nat
  then lift (Err (TrustErr.New CodeFailedPrecondition "prepared manifest references missing record"))
  else RecoverManifest (manifest p) (items p).

(** ** The whole replay *)

(** The scan: the time, the end of the enqueue and the record of each visit. *)
Fixpoint visitAll (fuel : nat) (e : app.LocalEngine) (visits : list (Z * enqueued * Log.t)) (r : Replay) (s : Service)
  : Service * go Replay :=
  match visits with
  | [] => (s, Ret r)
  | (now, how, record) :: rest =>
      match visit fuel now e how record r s with
      | (s, Ret r) => visitAll fuel e rest r s
      | (s, out) => (s, out)
      end
  end.

Fixpoint recoverAll (ps : list preparedReplay) : M unit :=
  match ps with
  | [] => mret tt
  | p :: rest => _ ← recoverPrepared p; recoverAll rest
  end.

(** [scanned] is how the scan itself ended; the error of the last call is
    ignored. *)
Definition replayWALAccepted (fuel : nat) (e : app.LocalEngine) (listed : list Man.t) (listing : result unit)
    (idx : option app_idempotency.IdempotencyIndex) (visits : list (Z * enqueued * Log.t)) (scanned : result unit) (now : Z)
    (s : Service) : Service * go unit :=
  match startReplay listed listing idx s with
  | (s, Err err) => (s, Fail err)
  | (s, Ok r) =>
      match visitAll fuel e visits r s with
      | (s, Fail err) => (s, Fail err)
      | (s, Stuck) => (s, Stuck)
      | (s, Ret r) =>
          match scanned with
          | Err err => (s, Fail err)
          | Ok _ =>
              match endScan now r s with
              | (s, Err err) => (s, Fail err)
              | (s, Ok r) =>
                  match recoverAll (preparedManifests r) s with
                  | (s, Err err) => (s, Fail err)
                  | (s, Ok _) =>
                      (set_checkpoints
                         (batch_checkpoint.StartCheckpointAdvance (checkpoint_opts (opts s)) now (checkpoints s)).1 s, Ret tt)
                  end
              end
          end
      end
  end.

(** ** The loader *)

(** [errStopManifestScan] ends the scan without error; the scan itself ends
    with [scanned]. *)
Fixpoint loadItems (e : app.LocalEngine) (m : Man.t) (records : list Log.t) (scanned : result unit) (p : preparedReplay)
  : result preparedReplay :=
  match records with
  | [] => _ ← scanned; Ok p
  | record :: rest =>
      let n := record.(Log.Position).(Pos.Sequence) in
      let from := m.(Man.WALRange).(WALRange.From).(Pos.Sequence) in
      let to := m.(Man.WALRange).(WALRange.To).(Pos.Sequence) in
      if (0 <? from) && (n <? from) then loadItems e m rest scanned p else
      if (0 <? to) && (to <? n) then Ok p else
      item ← app.ReplayAccepted e record;
      let p := add (accepted_of item) p in
      if (count p =? length (items p))%nat then Ok p else loadItems e m rest scanned p
  end.

(** [scan] is what [scanWALRecords] visits from a segment on. *)
Definition loadManifestItemsFromWAL (e : app.LocalEngine) (scan : Z → list Log.t * result unit) (m : Man.t)
  : result (list Accepted) :=
  let segment := m.(Man.WALRange).(WALRange.From).(Pos.SegmentID) in
  let '(records, scanned) := scan (if segment =? 0 then 1 else segment) in
  p ← loadItems e m records scanned (newPreparedReplay m);
  if negb (seqb (missingRecordID p) "")
  then Err (TrustErr.New CodeDataLoss "manifest missing WAL record")
  else Ok (items p).
End replay.
End batch_replay.
