(* ===== verification/BatchReplayProofs.v ===== *)
(** * Histories of the service with its start-up replay

    A record that the replay counts as committed has its proof in a committed
    batch, so that the ranges that it reports only cover proved records.  With
    this the invariant of the service holds in every history in which the steps
    of the replay come between those of the service. *)

From S2P Require Import Prelude TrustErr CryptoSuite Model TrustCrypto Cborx KeyDescriptor ModelSuite.
From S2P Require Import StoreMonad GlobalStore AnchorSchedule AnchorStore AnchorStoreProofs RecordSearch RecordIndex Outbox.
From S2P Require Import Merkle Claim Receipt Wal WalDir WalQueue Idempotency IdemIndex App BatchCheckpoint BatchCheckpointProofs.
From S2P Require Import BatchStore BatchStoreProofs BatchCommitted BatchService BatchServiceProofs BatchReplay.

Module batch_replay_proofs.
Import batchstore batchstore_ops batch_committed batch_safety batch batch_service_proofs batch_service_ops batch_replay.
Import batch_checkpoint (Accepted, Signed, Record_, Accepted_, position).
#[local] Existing Instance batchstore_proofs.pebble_checkpoints.
#[local] Existing Instance batchstore_proofs.pebble_checkpoint_laws.

Section proofs.
Context `{HashLib, SigLib, KeyDescriptorLib, UnicodeLib, SnappyLib, ErrorText, ComputeEngine, !EngineLaws}.
Context `{CborMode ClientClaim.t, CborMode claim.framing, CborMode SignedClaim.t}.
Context `{CborMode AcceptedReceipt.t, CborMode ServerRecord.t}.
Context `{CborMode Bun.t, CborMode storedProofBundleEnvelope, CborMode Idx.t, CborMode BatchRoot.t, CborMode Man.t}.
Context `{CborMode Dec.t, CborMode batchTreeLeafTile, CborMode batchTreeNodeTile, CborMode WCp.t}.
Context `{!CborModeExact WCp.t, !CborModeExact Man.t, !CborModeExact Idx.t, !CborModeExact Dec.t}.
Context `{!CborModeInjective Man.t}.

(** ** The invariant of the replay *)

Definition cache_ok (st : Store) (c : replayManifestCache) : Prop :=
  ∀ b m, cached c !! b = Some m → is_committed m = true → committed st m.

(** The records of the run are proved. *)
Definition run_proved (st : Store) (run : Run) : Prop :=
  let from := (run_from run).(Pos.Sequence) in
  let to := (run_to run).(Pos.Sequence) in
  from ≠ 0 → 1 <= from <= to ∧ to < two64 ∧ proved_at st (run_to run) ∧ ∀ n, from <= n <= to → proved st n.

Record replay_ok (st : Store) (r : Replay) : Prop := {
  rp_cache : cache_ok st (manifestCache r);
  rp_run : run_proved st (committedRun r);
  rp_items : Forall (λ p, in_range (items p)) (preparedManifests r) }.

Lemma proved_keeps st st' n : keeps st st' → proved st n → proved st' n.
Proof. intros K (p & ? & ?). exists p. split; [by eapply proved_mono|done]. Qed.

Lemma cache_keeps st st' c : keeps st st' → cache_ok st c → cache_ok st' c.
Proof. intros K C b m ? ?. eapply keeps_committed; [exact K|]. by eapply C. Qed.

Lemma run_keeps st st' run : keeps st st' → run_proved st run → run_proved st' run.
Proof.
  intros K R Hf. destruct (R Hf) as (? & ? & ? & ?). split_and!; [lia..|by eapply proved_mono|].
  intros n ?. eapply proved_keeps; [exact K|auto].
Qed.

Lemma replay_keeps st st' r : keeps st st' → replay_ok st r → replay_ok st' r.
Proof. intros K []. constructor; [by eapply cache_keeps|by eapply run_keeps|done]. Qed.

Lemma no_run_proved st : run_proved st no_run.
Proof. intros ?. done. Qed.

Lemma one_run_proved st pos b : in_u64 pos.(Pos.Sequence) → proved_at st pos → run_proved st (mkRun pos pos b).
Proof.
  unfold in_u64. intros Hu Hp Hne. cbn in *. split_and!; [lia..|done|]. intros n Hn. exists pos. split; [done|lia].
Qed.

(** ** Committed records *)

Lemma remember_ok st m c :
  (is_committed m = true → committed st m) → cache_ok st c → cache_ok st (remember m c).
Proof.
  intros Hm C. assert (∀ b (mp : gmap string Man.t), (∀ b x, mp !! b = Some x → is_committed x = true → committed st x) →
    ∀ b' x, <[b := m]> mp !! b' = Some x → is_committed x = true → committed st x) as Hi.
  { intros b mp Hmp b' x [[_ <-]|[_ Hx]]%lookup_insert_Some; [done|by eapply Hmp]. }
  unfold remember. destruct (seqb _ ""); [done|]. destruct (bool_decide _); [by refine (Hi _ _ _)|].
  destruct (_ <? _)%nat; [by refine (Hi _ _ _)|]. refine (Hi _ _ _). intros b x [_ Hx]%lookup_delete_Some. by eapply C.
Qed.

Lemma lookup_ok st b c :
  tables st → cache_ok st c →
  cache_ok st (lookup st b c).1 ∧ ∀ m, (lookup st b c).2 = Ok m → is_committed m = true → committed st m.
Proof.
  intros T C. unfold lookup. destruct (cached c !! b) as [m|] eqn:Ec.
  { split; [done|]. intros x [= <-]. by apply (C b). }
  destruct (GetManifest b st) as [m|e] eqn:Eg; [|done]. destruct (GetManifest_stores _ _ _ T Eg) as [(v & ? & ?) _].
  assert (is_committed m = true → committed st m) as Hm by (intros ?; by exists v).
  split; [by apply remember_ok|]. by intros x [= <-].
Qed.

Lemma index_ok st recordID idx c :
  tables st → cache_ok st c →
  let out := validateCommittedReplayIndex st recordID idx c in
  cache_ok st out.1 ∧ ∀ m, out.2 = Ok m → committed st m ∧ recordID ∈ m.(Man.RecordIDs).
Proof.
  intros T C. unfold validateCommittedReplayIndex. destruct (_ || _); [done|].
  destruct (lookup_ok st idx.(Idx.BatchID) c T C) as [C' Hm]. destruct (lookup _ _ _) as [c' found]. cbn in *.
  split; [done|]. intros m Em. ok_inv. subst. repeat match goal with Hx : _ || _ = false |- _ => apply orb_false_iff in Hx as [? ?] end.
  split; [apply Hm; [done|by apply negb_false_iff]|].
  match goal with Hx : negb (bool_decide _) = false |- _ => apply negb_false_iff, bool_decide_eq_true in Hx; by eapply list_elem_of_lookup_2 end.
Qed.

Lemma checkBundle_place record item idx m bundle :
  checkBundle record item idx m bundle = Ok tt → bundle.(Bun.ServerRecord).(ServerRecord.WAL) = record.(Log.Position).
Proof.
  unfold checkBundle. intros E. ok_inv. repeat match goal with Hx : _ || _ = false |- _ => apply orb_false_iff in Hx as [? ?] end.
  match goal with Hx : negb (bool_decide (bundle.(Bun.ServerRecord).(ServerRecord.WAL) = _)) = false |- _ =>
    by apply negb_false_iff, bool_decide_eq_true in Hx end.
Qed.

(** A record that passes is proved where it is in the log. *)
Lemma record_ok fuel st record item idx c :
  tables st → cache_ok st c →
  let out := validateCommittedReplayRecord fuel st record item idx c in
  cache_ok st out.1 ∧ ∀ x, out.2 = Ret x → proved_at st record.(Log.Position).
Proof.
  intros T C. unfold validateCommittedReplayRecord. destruct (wrap_err _ _ _) as [suite|]; [|done].
  destruct (index_ok st (app.Record_ item).(ServerRecord.RecordID) idx c T C) as [C' Hm].
  destruct (validateCommittedReplayIndex _ _ _ _) as [c' found]. cbn in *. split; [done|]. intros x E. go_inv.
  match goal with Hc : checkBundle _ _ _ ?m ?b = Ok ?u |- _ => destruct u; exists m, (app.Record_ item).(ServerRecord.RecordID), b;
    destruct (Hm m) as [? ?]; [done|]; apply checkBundle_place in Hc end.
  split_and!; [done..| |done]. by match goal with Hb : wrap_err _ _ (GetBundle _ _) = Ok _ |- _ => apply wrap_err_Ok in Hb end.
Qed.

Lemma boundary_ok fuel e st cp record c :
  tables st → cache_ok st c → cache_ok st (validateTrustedCheckpointBoundaryRecord fuel e st cp record c).1.
Proof.
  intros T C. unfold validateTrustedCheckpointBoundaryRecord. destruct (_ || _); [done|].
  destruct (wrap_err _ _ _) as [item|]; [|done]. destruct (wrap_err _ _ _) as [[idx|]|]; [|done..].
  destruct (record_ok fuel st record item idx c T C) as [C' _]. by destruct (validateCommittedReplayRecord _ _ _ _ _ _).
Qed.

(** The run only grows when the whole record was validated. *)
Lemma indexed_ok fuel e st record item idx r :
  tables st → replay_ok st r →
  let out := validateIndexed fuel e st record item idx r in
  cache_ok st out.1 ∧ ∀ x, out.2 = Ret x → checkpointSafe r = true → proved_at st record.(Log.Position).
Proof.
  intros T [C _ _]. unfold validateIndexed. destruct (_ || _); [done|]. destruct (checkpointSafe r); cbn [orb].
  { destruct (record_ok fuel st record item idx (manifestCache r) T C) as [C' Hp].
    destruct (validateCommittedReplayRecord _ _ _ _ _ _) as [c' v]. split; [done|]. cbn in *. intros x E _. go_inv. by eapply Hp. }
  destruct (bool_decide _).
  - destruct (record_ok fuel st record item idx (manifestCache r) T C) as [C' _].
    by destruct (validateCommittedReplayRecord _ _ _ _ _ _) as [c' v].
  - destruct (index_ok st (app.Record_ item).(ServerRecord.RecordID) idx (manifestCache r) T C) as [C' _].
    by destruct (validateCommittedReplayIndex _ _ _ _) as [c' v].
Qed.

(** ** The visitor *)

Lemma replayed_place e record item :
  app.ReplayAccepted e record = Ok item → (app.Record_ item).(ServerRecord.WAL) = record.(Log.Position).
Proof.
  unfold app.ReplayAccepted. intros E. ok_inv. repeat match goal with x : _ * _ |- _ => destruct x end. ok_inv.
  match goal with Hx : app.buildAccepted _ _ _ _ _ _ _ _ = Ok _ |- _ => unfold app.buildAccepted in Hx end. ok_inv. subst. by injection E as <-.
Qed.

(** The service keeps its invariant, and the replay goes on with its own. *)
Definition goes_on (s : Service) (out : Service * go Replay) : Prop :=
  Inv out.1 ∧ keeps (store s) (store out.1) ∧ ∀ r, out.2 = Ret r → replay_ok (store out.1) r.

Definition sound_step (m : M Replay) (s : Service) : Prop :=
  post m s (λ a s', Inv s' ∧ keeps (store s) (store s') ∧ ∀ r, a = Ok r → replay_ok (store s') r).

Lemma sound_answer (m : M Replay) s : sound_step m s → goes_on s (let '(s', a) := m s in (s', ret a)).
Proof.
  unfold sound_step, post, goes_on. destruct (m s) as [s' a]. cbn. intros (? & ? & Hr). split_and!; [done..|].
  intros r E. apply Hr. by apply ret_Ret in E.
Qed.

Lemma flush_sound now run s :
  Inv s → run_proved (store s) run → post (flushCommittedRun now run) s (λ _ s', Inv s' ∧ keeps (store s) (store s')).
Proof.
  intros I R. unfold post, flushCommittedRun. destruct (_ =? 0) eqn:E0; [done|]. apply Z.eqb_neq in E0.
  destruct (R E0) as (? & ? & ? & ?).
  assert (in_u64 (run_from run).(Pos.Sequence) ∧ in_u64 (run_to run).(Pos.Sequence)) as [? ?] by (unfold in_u64; lia).
  pose proof (sound_range now (run_from run) (run_to run) (run_batch run) s I) as Hs. cbn zeta in Hs. cbn [exec] in Hs.
  destruct (batch_checkpoint.RecordCommittedWALRange _ _ _ _ _ _) as [c flushed]. apply Hs; auto.
Qed.

Lemma uncommitted_sound now e item r s (rest : M Replay) :
  Inv s → replay_ok (store s) r → (∀ s', Inv s' → replay_ok (store s') r → sound_step rest s') →
  sound_step (uncommitted now e item r rest) s.
Proof.
  intros I R Hr. unfold sound_step, uncommitted. apply post_bind. eapply post_mono; [apply flush_sound; [done|apply R]|].
  cbn beta. intros [[]|err] s1 [I1 K1]; [|by split_and!].
  apply post_bind. unfold post at 1, lift. cbn [fst snd]. destruct (validateDurableReplayDecision _ _ _ _ _); [|by split_and!].
  eapply post_mono; [apply Hr; [done|by eapply replay_keeps]|]. cbn beta. intros out s2 (I2 & K2 & Hr2).
  split_and!; [done|by etrans|done].
Qed.

Lemma ret_sound r s : Inv s → replay_ok (store s) r → sound_step (mret r) s.
Proof. intros I R. unfold sound_step. apply post_ret. split_and!; [done..|]. by intros x [= <-]. Qed.

Lemma enqueue_sound how item r s :
  Inv s → replay_ok (store s) r → sound_step (_ ← EnqueueRecovered how item; mret r) s.
Proof.
  intros I R. unfold sound_step. apply post_bind.
  assert (post (EnqueueRecovered how item) s (λ _ s', Inv s' ∧ keeps (store s) (store s'))) as He.
  { unfold EnqueueRecovered. apply post_reads_bind; [done|]. intros _ _. destruct how.
    - by destruct (sound_frame _ _ (frame_accept item s) I) as [? [? _]].
    - apply post_bind. pose proof (sound_frame _ _ (frame_refuse item s) I) as Hf. eapply post_mono; [exact Hf|].
      cbn beta. intros [[]|] s' [? [? _]]; by split.
    - by apply post_lift. }
  eapply post_mono; [exact He|]. cbn beta. intros [[]|err] s' [I' K']; [|by split_and!].
  apply post_ret. split_and!; [done..|]. intros x [= <-]. by eapply replay_keeps.
Qed.

Lemma set_run_ok st run r : replay_ok st r → run_proved st run → replay_ok st (set_run run r).
Proof. intros [] ?. by constructor. Qed.

Lemma extend_sound now pos b r s :
  Inv s → replay_ok (store s) r → in_u64 pos.(Pos.Sequence) → (checkpointSafe r = true → proved_at (store s) pos) →
  sound_step (extendRun now pos b r) s.
Proof.
  intros I R Hu Hp. unfold extendRun. destruct (checkpointSafe r); [|by apply ret_sound]. specialize (Hp eq_refl). cbn [negb].
  destruct (_ =? 0) eqn:E0; [by apply ret_sound, set_run_ok, one_run_proved|]. apply Z.eqb_neq in E0.
  destruct (rp_run _ _ R E0) as (Hr1 & Hr2 & Hr3 & Hr4). unfold in_u64 in Hu.
  destruct (_ && _) eqn:E1; [apply ret_sound, set_run_ok; [done..|]|].
  { apply andb_true_iff in E1 as [E1%negb_true_iff%Z.eqb_neq E2%Z.eqb_eq]. rewrite u64_small in E2 by (unfold in_u64; lia).
    intros _. cbn. split_and!; [lia..|done|]. intros n Hn. destruct (decide (n = pos.(Pos.Sequence))) as [->|]; [by exists pos|].
    apply Hr4. lia. }
  destruct (_ <=? _); [by unfold sound_step, post|]. unfold sound_step. apply post_bind.
  eapply post_mono; [apply flush_sound; [done|apply R]|]. cbn beta. intros [[]|err] s' [I' K']; [|by split_and!].
  apply post_ret. split_and!; [done..|]. intros x [= <-]. apply set_run_ok; [by eapply replay_keeps|].
  apply one_run_proved; [done|by eapply proved_mono].
Qed.

Lemma add_in_range item p : in_u64 (position item).(Pos.Sequence) → in_range (items p) → in_range (items (add item p)).
Proof.
  intros Hu Hp. unfold add. destruct (bool_decide _); [done|]. destruct (index p !! _) as [i|]; [|done]. cbn.
  unfold in_range in *. rewrite Forall_fmap in *. by apply Forall_insert.
Qed.

Lemma same_replay st r r' :
  replay_ok st r → manifestCache r' = manifestCache r → committedRun r' = committedRun r →
  preparedManifests r' = preparedManifests r → replay_ok st r'.
Proof. intros [] E1 E2 E3. by constructor; rewrite ?E1, ?E2, ?E3. Qed.

(** What [replayKey] and [restoreIndex] leave of the replay. *)
Lemma key_same item r key r' :
  ('(key, r) ← replayKey item r; r ← restoreIndex key item r; Ok (key, r)) = Ok (key, r') →
  manifestCache r' = manifestCache r ∧ committedRun r' = committedRun r ∧ preparedManifests r' = preparedManifests r ∧
  checkpointSafe r' = checkpointSafe r.
Proof.
  intros ([key1 r1] & E1 & (r2 & E2 & [= <- <-])%bind_Ok)%bind_Ok.
  assert (manifestCache r1 = manifestCache r ∧ committedRun r1 = committedRun r ∧ preparedManifests r1 = preparedManifests r ∧
    checkpointSafe r1 = checkpointSafe r) as (<- & <- & <- & <-).
  { unfold replayKey in E1. destruct (negb _); [by injection E1 as <- <-|]. destruct (bool_decide _); [done|]. by injection E1 as <- <-. }
  unfold restoreIndex in E2. destruct (index_ r1); [|by injection E2 as <-].
  destruct (app_idempotency.Restore _ _ _ _ _) as [j ok]. destruct (negb ok); [done|]. by injection E2 as <-.
Qed.

Lemma visitAbove_sound fuel now e how record r s :
  Inv s → replay_ok (store s) r → in_u64 record.(Log.Position).(Pos.Sequence) →
  goes_on s (visitAbove fuel now e how record r s).
Proof.
  intros I R Hu. pose proof (proj1 (I_store _ I)) as T. unfold visitAbove.
  destruct (app.ReplayAccepted e record) as [item|] eqn:Ea; [|by split_and!]. pose proof (replayed_place _ _ _ Ea) as Hw.
  destruct (_ ≫= _) as [[key r1]|] eqn:Ek; [|by split_and!]. apply key_same in Ek as (E1 & E2 & E3 & E4).
  assert (replay_ok (store s) r1) as R1 by (by eapply same_replay). clear R E1 E2 E3 E4.
  destruct (prepared_of r1 !! _) as [i|].
  { apply sound_answer, uncommitted_sound; [done..|]. intros s' I' R'. apply ret_sound; [done|].
    apply set_run_ok; [|apply no_run_proved]. destruct R'. constructor; [done..|]. cbn. apply Forall_alter; [done|].
    intros p _ Hp. apply add_in_range; [|done]. unfold position. cbn. by rewrite Hw. }
  assert (∀ s', Inv s' → replay_ok (store s') r1 → sound_step (mret (set_run no_run r1)) s') as Hskip.
  { intros s' I' R'. apply ret_sound; [done|]. by apply set_run_ok, no_run_proved. }
  destruct (bool_decide _); [by apply sound_answer, uncommitted_sound|].
  destruct (recordindex.GetRecordIndex _ _) as [[idx|]|]; [| |by split_and!].
  - destruct (indexed_ok fuel e (store s) record item idx r1 T R1) as [C Hp].
    destruct (validateIndexed _ _ _ _ _ _ _) as [c validated]. cbn in C, Hp. cbn zeta.
    destruct (validated ≫= _) as [b| |] eqn:Ev; [|by split_and!..]. apply bind_Ret in Ev as ([b' bundle] & -> & _).
    apply sound_answer, extend_sound; [done| |done|].
    + unfold forgetIndex. destruct R1. cbn. destruct (index_ r1); by constructor.
    + unfold forgetIndex. cbn. destruct (index_ r1); cbn; by eapply Hp.
  - apply sound_answer, uncommitted_sound; [done..|]. intros s' I' R'. apply enqueue_sound; [done|].
    by apply set_run_ok, no_run_proved.
Qed.

Lemma visit_sound fuel now e how record r s :
  Inv s → replay_ok (store s) r → in_u64 record.(Log.Position).(Pos.Sequence) → goes_on s (visit fuel now e how record r s).
Proof.
  intros I R Hu. unfold visit. set (r1 := if firstRetainedSequence r =? 0 then set_first _ r else r).
  assert (replay_ok (store s) r1) as R1 by (subst r1; destruct (_ =? 0); [by eapply same_replay|done]). clearbody r1.
  destruct (_ && _ && _); [by split_and!|].
  destruct (trusted r1) as [cp|].
  - destruct (_ <=? _); [|destruct (negb _); [by split_and!|by apply visitAbove_sound]].
    destruct (_ =? _); [|split_and!; [done..|]; by intros x [= <-]].
    pose proof (boundary_ok fuel e (store s) cp record (manifestCache r1) (proj1 (I_store _ I)) (rp_cache _ _ R1)) as C.
    destruct (validateTrustedCheckpointBoundaryRecord _ _ _ _ _ _) as [c v]. split_and!; [done..|]. cbn in *. intros x E. go_inv.
    subst x. destruct R1. by constructor.
  - destruct (negb _); [by split_and!|by apply visitAbove_sound].
Qed.

(** ** The start and the end *)

Lemma new_in_range m : in_range (items (newPreparedReplay m)).
Proof.
  unfold in_range, newPreparedReplay. cbn. apply Forall_fmap, Forall_replicate. unfold position. cbn. done.
Qed.

Lemma classify_ok st m r r' : replay_ok st r → classify m r = Ok r' → replay_ok st r'.
Proof.
  assert (∀ ids r r', replay_ok st r → add_failed ids r = Ok r' → replay_ok st r') as Hf.
  { induction ids as [|rid ids IH]; intros x x' R; cbn; [by intros [= <-]|]. destruct (bool_decide _); [done|].
    destruct (bool_decide _); [done|]. apply IH. by destruct R. }
  assert (∀ i ids r r', replay_ok st r → add_prepared i ids r = Ok r' → replay_ok st r') as Hp.
  { intros i. induction ids as [|rid ids IH]; intros x x' R; cbn; [by intros [= <-]|]. destruct (bool_decide _); [done|].
    destruct (bool_decide _); [done|]. apply IH. by destruct R. }
  intros R. unfold classify. destruct (is_committed m); [by intros [= <-]|]. destruct (seqb _ _); [by apply Hf|].
  destruct (_ && _); [done|]. cbn zeta. destruct (match trusted r with Some _ => _ | None => _ end); [by intros [= <-]|].
  intros (r1 & E1 & [= <-])%bind_Ok. apply Hp in E1; [|done]. destruct E1. constructor; [done..|]. cbn.
  apply Forall_app. split; [done|]. apply Forall_singleton, new_in_range.
Qed.

Lemma classify_all_ok st ms r r' : replay_ok st r → classify_all ms r = Ok r' → replay_ok st r'.
Proof.
  revert r. induction ms as [|m ms IH]; intros r R; cbn; [by intros [= <-]|]. intros (r1 & E1 & E2)%bind_Ok.
  eapply IH; [|exact E2]. by eapply classify_ok.
Qed.

Lemma start_sound listed listing idx s : Inv s → sound_step (startReplay listed listing idx) s.
Proof.
  intros I. unfold sound_step, post, startReplay. destruct (exec_sound Defer s I Logic.I) as [I' K]. cbn [exec] in I', K.
  set (s1 := set_checkpoints _ s) in *. cbn [fst snd]. split_and!; [done..|]. intros r E.
  apply bind_Ok in E as (found & _ & (_ & _ & (_ & _ & (r1 & E1 & (_ & _ & [= <-])%bind_Ok)%bind_Ok)%bind_Ok)%bind_Ok).
  eapply classify_all_ok; [|exact E1]. constructor; cbn; [|apply no_run_proved|constructor]. intros b m Hm. cbn in Hm.
  by rewrite lookup_empty in Hm.
Qed.

Lemma end_sound now r s : Inv s → replay_ok (store s) r → sound_step (endScan now r) s.
Proof.
  intros I R. unfold sound_step, endScan. apply post_bind. eapply post_mono; [apply flush_sound; [done|apply R]|].
  cbn beta. intros [[]|err] s' [I' K']; [|by split_and!]. destruct (negb _); [by split_and!|].
  destruct (_ && _); [by split_and!|]. apply post_ret. split_and!; [done..|]. intros x [= <-].
  apply set_run_ok; [by eapply replay_keeps|apply no_run_proved].
Qed.

Lemma recover_sound p s :
  Inv s → in_range (items p) → GetManifest (manifest p).(Man.BatchID) (store s) = Ok (manifest p) →
  Inv (recoverPrepared p s).1 ∧ keeps (store s) (store (recoverPrepared p s).1).
Proof.
  intros I Hi Hg. unfold recoverPrepared. destruct (negb _); [done|].
  by destruct (sound_recover (manifest p) (items p) s Hg Hi I) as [? [? _]].
Qed.
(** ** The loader *)

(** What was loaded so far: the item of every id that was seen, and zero items. *)
Record loaded (ids : list string) (p : preparedReplay) : Prop := {
  ld_ids : (manifest p).(Man.RecordIDs) = ids;
  ld_length : length (items p) = length ids;
  ld_index rid i : index p !! rid = Some i → ids !! i = Some rid;
  ld_seen i rid : ids !! i = Some rid → rid ∈ seen p → ∃ item, items p !! i = Some item ∧ record_id item = rid;
  ld_range : in_range (items p) }.

Lemma positions_spec k ids mp rid i :
  positions k ids mp !! rid = Some i → mp !! rid = Some i ∨ ∃ j, i = (k + j)%nat ∧ ids !! j = Some rid.
Proof.
  revert k mp. induction ids as [|id ids IH]; intros k mp; cbn; [by left|]. intros [Hi|(j & -> & Hj)]%IH.
  - apply lookup_insert_Some in Hi as [[<- <-]|[_ Hi]]; [right; exists 0%nat; split; [lia|done]|by left].
  - right. exists (S j). split; [lia|done].
Qed.

Lemma new_loaded m : loaded m.(Man.RecordIDs) (newPreparedReplay m).
Proof.
  constructor; cbn; [done|apply length_replicate| |by intros|apply new_in_range].
  intros rid i [Hi|(j & -> & Hj)]%positions_spec; [by rewrite lookup_empty in Hi|done].
Qed.

Lemma add_loaded ids item p :
  NoDup ids → in_u64 (position item).(Pos.Sequence) → loaded ids p → loaded ids (add item p).
Proof.
  intros Hd Hu L. pose proof (add_in_range item p Hu (ld_range _ _ L)) as Hr. destruct L as [L1 L2 L3 L4 L5].
  unfold add in *. destruct (bool_decide _) eqn:Es; [by constructor|]. destruct (index p !! _) as [i|] eqn:Ei; [|by constructor].
  pose proof (L3 _ _ Ei) as Hi. constructor; cbn in *; [done|by rewrite length_insert|done| |done].
  intros j rid Hj [->%elem_of_singleton|Hs]%elem_of_union.
  - assert (j = i) as -> by (by eapply NoDup_lookup). exists item. split; [|done]. apply list_lookup_insert_eq.
    rewrite L2. by eapply lookup_lt_Some.
  - destruct (L4 j rid Hj Hs) as (x & Hx & Er). destruct (decide (j = i)) as [->|Hne]; [|exists x; by rewrite list_lookup_insert_ne].
    rewrite Hi in Hj. injection Hj as <-. by apply bool_decide_eq_false in Es.
Qed.

Lemma loadItems_loaded e m ids records scanned p p' :
  NoDup ids → Forall (λ record, in_u64 record.(Log.Position).(Pos.Sequence)) records → loaded ids p →
  loadItems e m records scanned p = Ok p' → loaded ids p'.
Proof.
  intros Hd Hu. revert p. induction Hu as [|record records Hu _ IH]; intros p L; cbn.
  { by intros (_ & _ & [= <-])%bind_Ok. }
  destruct (_ && _); [by apply IH|]. destruct (_ && _); [by intros [= <-]|]. intros (item & Ea & E)%bind_Ok.
  assert (loaded ids (add (accepted_of item) p)) as L1.
  { apply add_loaded; [done| |done]. unfold position. cbn. by rewrite (replayed_place _ _ _ Ea). }
  destruct (_ =? _)%nat; [by injection E as <-|by eapply IH].
Qed.

(** What the loader of the program returns are the records of the manifest, as
    [load_ok] says, when the ids of the manifest are distinct and not empty. *)
Lemma loader_fits e scan m l :
  NoDup m.(Man.RecordIDs) → "" ∉ m.(Man.RecordIDs) →
  (∀ segment, Forall (λ record, in_u64 record.(Log.Position).(Pos.Sequence)) (scan segment).1) →
  loadManifestItemsFromWAL e scan m = Ok l → map record_id l = m.(Man.RecordIDs) ∧ in_range l.
Proof.
  intros Hd Hne Hu. unfold loadManifestItemsFromWAL. specialize (Hu (if m.(Man.WALRange).(WALRange.From).(Pos.SegmentID) =? 0 then 1
    else m.(Man.WALRange).(WALRange.From).(Pos.SegmentID))). destruct (scan _) as [records scanned].
  intros (p & E & Em)%bind_Ok. pose proof (loadItems_loaded _ _ _ _ _ _ _ Hd Hu (new_loaded m) E) as L.
  apply if_Err_Ok in Em as [Em [= <-]]. apply negb_false_iff, seqb_true in Em. split; [|apply L].
  assert (∀ rid, rid ∈ m.(Man.RecordIDs) → rid ∈ seen p) as Hs.
  { unfold missingRecordID in Em. rewrite (ld_ids _ _ L) in Em. destruct (list_find _ _) as [[i rid]|] eqn:Ef.
    - apply list_find_Some in Ef as (Hi & _). subst rid. by apply list_elem_of_lookup_2 in Hi.
    - apply list_find_None in Ef. rewrite Forall_forall in Ef. intros rid Hr. destruct (decide (rid ∈ seen p)) as [|Hn]; [done|].
      by destruct (Ef rid Hr). }
  apply list_eq. intros i. rewrite list_lookup_fmap. destruct (m.(Man.RecordIDs) !! i) as [rid|] eqn:Ei.
  - destruct (ld_seen _ _ L i rid Ei) as (item & -> & <-); [|done]. apply Hs. by eapply list_elem_of_lookup_2.
  - assert (items p !! i = None) as ->; [|done]. apply lookup_ge_None. rewrite (ld_length _ _ L). by apply lookup_ge_None.
Qed.
End proofs.
End batch_replay_proofs.

(** * Histories

    The steps of the service and of the replay in any order.  A replay belongs
    to one process: a restart drops it. *)

Module batch_replay_ops.
Import batchstore batchstore_ops batch_committed batch_safety batch batch_service_proofs batch_service_ops.
Import batch_replay batch_replay_proofs.
Import batch_checkpoint (Accepted, Record_, position).
Import batch_checkpoint_proofs (good).
#[local] Existing Instance batchstore_proofs.pebble_checkpoints.
#[local] Existing Instance batchstore_proofs.pebble_checkpoint_laws.

Section ops.
Context `{HashLib, SigLib, KeyDescriptorLib, UnicodeLib, SnappyLib, ErrorText, ComputeEngine, !EngineLaws}.
Context `{CborMode ClientClaim.t, CborMode claim.framing, CborMode SignedClaim.t}.
Context `{CborMode AcceptedReceipt.t, CborMode ServerRecord.t}.
Context `{CborMode Bun.t, CborMode storedProofBundleEnvelope, CborMode Idx.t, CborMode BatchRoot.t, CborMode Man.t}.
Context `{CborMode Dec.t, CborMode batchTreeLeafTile, CborMode batchTreeNodeTile, CborMode WCp.t}.
Context `{!CborModeExact WCp.t, !CborModeExact Man.t, !CborModeExact Idx.t, !CborModeExact Dec.t}.
Context `{!CborModeInjective Man.t}.

Record State := mkState { service : Service; replay : option Replay }.

(** [Visit] is one record of the scan, [EndScan] its end, [RecoverNext] the
    next prepared manifest. *)
Inductive event :=
| Op (o : op)
| StartReplay (listed : list Man.t) (listing : result unit) (idx : option app_idempotency.IdempotencyIndex)
| Visit (fuel : nat) (now : Z) (e : app.LocalEngine) (how : enqueued) (record : Log.t)
| EndScan (now : Z)
| RecoverNext.

(** A replay that fails is over. *)
Definition continue (out : Service * go Replay) : State :=
  mkState out.1 (match out.2 with Ret r => Some r | _ => None end).
Definition answer (out : Service * result Replay) : State :=
  mkState out.1 (match out.2 with Ok r => Some r | Err _ => None end).

Definition step (v : event) (x : State) : State :=
  match v, replay x with
  | Op o, r => mkState (exec o (service x)) (match o with Restart _ => None | _ => r end)
  | StartReplay listed listing idx, _ => answer (startReplay listed listing idx (service x))
  | Visit fuel now e how record, Some r => continue (visit fuel now e how record r (service x))
  | EndScan now, Some r => answer (endScan now r (service x))
  | RecoverNext, Some r =>
      match preparedManifests r with
      | [] => x
      | p :: rest =>
          let '(s, recovered) := recoverPrepared p (service x) in
          mkState s (match recovered with Ok _ => Some (set_prepared (prepared_of r) rest r) | Err _ => None end)
      end
  | _, None => x
  end.

(** What is assumed of a step: that of the service as in [admissible]; the
    sequences of the log are machine integers; the listed manifest is still
    stored as it was when its turn comes. *)
Definition allowed (x : State) (v : event) : Prop :=
  match v with
  | Op o => admissible (service x) o
  | Visit _ _ _ _ record => in_u64 record.(Log.Position).(Pos.Sequence)
  | RecoverNext =>
      match preparedManifests <$> replay x with
      | Some (p :: _) => GetManifest (manifest p).(Man.BatchID) (store (service x)) = Ok (manifest p)
      | _ => True
      end
  | _ => True
  end.

Inductive history : State → list event → State → Prop :=
| history_nil x : history x [] x
| history_cons x v vs x' : allowed x v → history (step v x) vs x' → history x (v :: vs) x'.

Record State_ok (x : State) : Prop := {
  so_service : Inv (service x);
  so_replay r : replay x = Some r → replay_ok (store (service x)) r }.

Definition persists (x x' : State) : Prop := keeps (store (service x)) (store (service x')).

Lemma continue_ok x out : goes_on (service x) out → State_ok (continue out) ∧ persists x (continue out).
Proof.
  intros (I & K & Hr). split; [|exact K]. constructor; [exact I|]. cbn. destruct out as [s [r| |]]; cbn in *; [|done..].
  intros x' [= <-]. by apply Hr.
Qed.

Lemma answer_ok x (m : batch.M Replay) :
  sound_step m (service x) → State_ok (answer (m (service x))) ∧ persists x (answer (m (service x))).
Proof.
  intros (I & K & Hr). split; [|exact K]. constructor; [exact I|]. cbn.
  destruct (m (service x)) as [s [r|e]]; cbn in *; [|done]. intros x' [= <-]. by apply Hr.
Qed.

Lemma step_ok v x : State_ok x → allowed x v → State_ok (step v x) ∧ persists x (step v x).
Proof.
  intros O Ha. pose proof O as [I R]. unfold step. destruct v as [o|listed listing idx|fuel now e how record|now|]; cbn in Ha.
  - destruct (exec_sound o (service x) I Ha) as [I' K]. destruct (replay x) as [r|] eqn:Er.
    + split; [|exact K]. constructor; [exact I'|]. cbn. intros r' E.
      assert (r' = r) as -> by (by destruct o; simplify_eq). eapply replay_keeps; [exact K|by apply R].
    + split; [|exact K]. constructor; [exact I'|]. cbn. by destruct o.
  - destruct (replay x); by apply answer_ok, start_sound.
  - destruct (replay x) as [r|]; [|done]. apply continue_ok, visit_sound; auto.
  - destruct (replay x) as [r|]; [|done]. apply answer_ok, end_sound; auto.
  - destruct (replay x) as [r|] eqn:Er; [|done]. destruct (preparedManifests r) as [|p rest] eqn:Ep; [done|].
    destruct (R r eq_refl) as [C Hrun Hi]. rewrite Ep in Hi. apply Forall_cons in Hi as [Hp Hrest].
    cbn in Ha. rewrite Ep in Ha. destruct (recover_sound p (service x) I Hp Ha) as [I' K].
    destruct (recoverPrepared p (service x)) as [s [[]|err]]; cbn in *; (split; [|exact K]); (constructor; [exact I'|]); cbn; [|done].
    intros r' [= <-]. constructor; cbn; [by eapply cache_keeps|by eapply run_keeps|done].
Qed.

Lemma history_ok x vs x' : State_ok x → history x vs x' → State_ok x' ∧ persists x x'.
Proof.
  intros O Hh. unfold persists. induction Hh as [|x v vs x' Ha _ IH]; [done|]. destruct (step_ok v x O Ha) as [O1 K1].
  destruct (IH O1) as [? ?]. split; [done|by etrans].
Qed.

(** ** The replay is a sequence of steps *)

Definition after (vs : list event) (x : State) : State := foldl (λ x v, step v x) x vs.

Lemma steps_after_app vs vs' x : after (vs ++ vs') x = after vs' (after vs x).
Proof. apply foldl_app. Qed.

Lemma visitAll_steps fuel e visits r s :
  after (map (λ x : Z * enqueued * Log.t, Visit fuel x.1.1 e x.1.2 x.2) visits) (mkState s (Some r)) =
  continue (visitAll fuel e visits r s).
Proof.
  revert r s. induction visits as [|[[now how] record] visits IH]; intros r s; [done|]. cbn.
  assert (∀ s', after (map (λ x : Z * enqueued * Log.t, Visit fuel x.1.1 e x.1.2 x.2) visits) (mkState s' None) = mkState s' None) as Hn.
  { intros s'. clear IH. induction visits as [|v visits IH]; [done|exact IH]. }
  destruct (visit fuel now e how record r s) as [s1 [r1|err|]]; [apply IH|apply Hn..].
Qed.

Lemma recoverAll_steps r s :
  let out := recoverAll (preparedManifests r) s in
  let x := after (replicate (length (preparedManifests r)) RecoverNext) (mkState s (Some r)) in service x = out.1.
Proof.
  remember (preparedManifests r) as ps eqn:Ep. revert r s Ep. induction ps as [|p ps IH]; intros r s Ep; [done|]. cbn -[after].
  change (after (RecoverNext :: ?vs) ?x) with (after vs (step RecoverNext x)). cbn [step replay]. rewrite <- Ep.
  unfold mbind, io_bind. cbn [service]. destruct (recoverPrepared p s) as [s1 [[]|err]]; [by apply IH|]. cbn [fst].
  clear. induction (length ps) as [|n IHn]; [done|exact IHn].
Qed.

(** What [replayWALAccepted] does to the service is what a sequence of steps
    does; in the histories below other steps may come between them. *)
Lemma replay_steps fuel e listed listing idx visits scanned now s :
  ∃ vs, service (after vs (mkState s None)) = (replayWALAccepted fuel e listed listing idx visits scanned now s).1.
Proof.
  set (v1 := StartReplay listed listing idx).
  set (v2 := map (λ x : Z * enqueued * Log.t, Visit fuel x.1.1 e x.1.2 x.2) visits).
  assert (after [v1] (mkState s None) = answer (startReplay listed listing idx s)) as E1 by done.
  unfold replayWALAccepted. destruct (startReplay listed listing idx s) as [s1 [r1|err]]; [|by exists [v1]; rewrite E1].
  assert (after ([v1] ++ v2) (mkState s None) = continue (visitAll fuel e visits r1 s1)) as E2.
  { rewrite steps_after_app, E1. apply visitAll_steps. }
  destruct (visitAll fuel e visits r1 s1) as [s2 [r2|err|]]; [|by eexists; rewrite E2..].
  destruct scanned as [[]|err]; [|by eexists; rewrite E2].
  set (v3 := ([v1] ++ v2) ++ [EndScan now]).
  assert (after v3 (mkState s None) = answer (endScan now r2 s2)) as E3 by (unfold v3; by rewrite steps_after_app, E2).
  destruct (endScan now r2 s2) as [s3 [r3|err]]; [|by exists v3; rewrite E3].
  set (v4 := replicate (length (preparedManifests r3)) RecoverNext). pose proof (recoverAll_steps r3 s3) as E4.
  assert (service (after (v3 ++ v4) (mkState s None)) = (recoverAll (preparedManifests r3) s3).1) as E5.
  { rewrite steps_after_app, E3. exact E4. }
  destruct (recoverAll (preparedManifests r3) s3) as [s4 [[]|err]]; cbn [fst] in E5; [|by exists (v3 ++ v4)].
  exists ((v3 ++ v4) ++ [Op (Start now)]). rewrite (steps_after_app (v3 ++ v4)). cbn [after foldl step service]. by rewrite E5.
Qed.

(** A new service on an empty store. *)
Definition init (c : Config) (clk : nat → Z) (i : recordindex.Store) (dk : nat → outcome) (ready : bool) : State :=
  mkState (start c clk i dk ready) None.

Lemma init_ok c clk i dk ready : load_ok (LoadItems c) → State_ok (init c clk i dk ready).
Proof. intros Hl. constructor; [by apply start_Inv|done]. Qed.

(** C3: the log is only pruned below records that have their proof.  In every
    history of the service from an empty store, with commits, materialization,
    recovery, proofs on demand, restarts and start-up replays of the log whose
    visited records come between the other steps, and with commits of the store
    that fail and processes that stop anywhere: for the stored checkpoint and
    for every checkpoint that was or will be given to the hook that prunes the
    log, each sequence number up to it belongs to a record whose bundle is stored
    and whose batch has a committed manifest.  That the records which the replay
    counts as committed are proved is not assumed: it follows from its checks.
    Assumed of the history: a new batch gets an id without a stored manifest and
    records that are in no stored batch ([fresh]); a manifest is recovered as it
    is stored; the items that are loaded for a manifest are its records
    ([load_ok]); sequence numbers are 64-bit. *)
Theorem pruned_is_proved c clk i dk ready vs x cp seq :
  load_ok (LoadItems c) → history (init c clk i dk ready) vs x →
  batchstore.GetCheckpoint (store (service x)) = Ok (Some cp) ∨
  cp ∈ batch_checkpoint.fired (checkpoints (service x)) ++ batch_checkpoint.checkpointCallbacks (checkpoints (service x)) →
  1 <= seq <= cp.(WCp.LastSequence) →
  ∃ m id b, committed (store (service x)) m ∧ id ∈ m.(Man.RecordIDs) ∧ GetBundle id (store (service x)) = Ok b ∧
    b.(Bun.ServerRecord).(ServerRecord.WAL).(Pos.Sequence) = seq.
Proof.
  intros Hl Hh Hcp Hseq. destruct (history_ok _ _ _ (init_ok c clk i dk ready Hl) Hh) as [[I _] _].
  pose proof (I_checkpoint _ I) as O. assert (good (proved (store (service x))) (proved_at (store (service x))) cp) as (_ & Hg & _).
  { destruct Hcp as [Hcp|Hcp]; [by apply (batch_checkpoint_proofs.ok_stored _ _ _ O)|].
    pose proof (batch_checkpoint_proofs.ok_calls _ _ _ O) as Hc. rewrite Forall_forall in Hc. by apply Hc. }
  destruct (Hg seq Hseq) as (p & (m & id & b & ? & ? & ? & Hp) & Hs). exists m, id, b. rewrite Hp. done.
Qed.

(** C7: an announced batch is durable.  In a history of the service from an empty
    store, a batch that it announced to the global log stays committed in every
    continuation of the history, with failing commits, crashes, restarts and
    start-up replays of the log, and each of its records has its bundle stored,
    at its position in the batch.  Assumed of the history and its continuation: a
    new batch gets an id without a stored manifest and records that are in no
    stored batch ([fresh]; without it the index of a record could be moved to
    another batch), a manifest is recovered as it is stored, the items that are
    loaded for a manifest are its records ([load_ok]), and sequence numbers are
    64-bit. *)
Theorem announced_is_durable c clk i dk ready vs x root vs' x' :
  load_ok (LoadItems c) → history (init c clk i dk ready) vs x → BatchCommitted root ∈ events (service x) → history x vs' x' →
  ∃ m, committed (store (service x')) m ∧ m.(Man.BatchID) = root.(BatchRoot.BatchID) ∧
    ∀ pos id, m.(Man.RecordIDs) !! pos = Some id →
      ∃ b, GetBundle id (store (service x')) = Ok b ∧ mismatched m pos id b = false.
Proof.
  intros Hl Hh He Hh'. destruct (history_ok _ _ _ (init_ok c clk i dk ready Hl) Hh) as [O _]. pose proof (so_service _ O) as I.
  destruct (history_ok _ _ _ O Hh') as [[I' _] K]. pose proof (I_events _ I) as Hev. rewrite Forall_forall in Hev.
  destruct (Hev _ He) as (m & Hm & Eb). exists m. assert (committed (store (service x')) m) as Hm' by (by eapply keeps_committed).
  split_and!; [done|done|]. intros pos id Hid. destruct (in_committed _ (proj1 (I_store _ I')) m Hm') as [Hok _].
  destruct (Hok pos id Hid) as (b & ? & ? & _). by exists b.
Qed.

(** C8: a committed batch is final.  In a history of the service from an empty
    store, once a manifest reads as committed, in every continuation of the
    history, with failing commits, crashes, restarts and start-up replays of the
    log, the manifest reads the same, every record of it has a bundle that matches
    its place in the batch and reads the same, and the stored idempotency
    decisions stay.  This is a property of how the service writes: the store by
    itself lets [PutManifest] replace a committed manifest.  Assumed of the
    history and its continuation: a new batch gets an id without a stored manifest
    and records that are in no stored batch ([fresh]), a manifest is recovered as
    it is stored, the items that are loaded for a manifest are its records
    ([load_ok]), and sequence numbers are 64-bit. *)
Theorem committed_batch_kept c clk i dk ready vs x b m vs' x' :
  load_ok (LoadItems c) → history (init c clk i dk ready) vs x →
  GetManifest b (store (service x)) = Ok m → is_committed m = true → history x vs' x' →
  GetManifest b (store (service x')) = Ok m ∧
  (∀ pos id, m.(Man.RecordIDs) !! pos = Some id →
     ∃ bundle, GetBundle id (store (service x)) = Ok bundle ∧ GetBundle id (store (service x')) = Ok bundle ∧
       mismatched m pos id bundle = false) ∧
  ∀ key v, decisions (store (service x)) !! key = Some v → decisions (store (service x')) !! key = Some v.
Proof.
  intros Hl Hh Hg Hc Hh'. destruct (history_ok _ _ _ (init_ok c clk i dk ready Hl) Hh) as [O _].
  pose proof (proj1 (I_store _ (so_service _ O))) as T. destruct (history_ok _ _ _ O Hh') as [_ K].
  destruct (reads_committed _ b m T Hg Hc) as [<- Hcm]. split_and!; [| |apply (kept_decision _ _ K)].
  { rewrite (GetManifest_same (store (service x))); [done|]. by apply (kept_manifest _ _ K). }
  intros pos id Hid. destruct (in_committed _ T m Hcm) as [Hok _]. destruct (Hok pos id Hid) as (bundle & Hb & Hm & _).
  exists bundle. split_and!; [done| |done]. rewrite <- Hb. apply GetBundle_same, (kept_bundle _ _ K m); [done|].
  by eapply list_elem_of_lookup_2.
Qed.
End ops.
End batch_replay_ops.
