(* ===== verification/BatchExamples.v ===== *)
(** * The engine of the batch service

    [ComputeBatch] of [App] is an engine as the service expects it. *)

From S2P Require Import Prelude TrustErr CryptoSuite Model TrustCrypto Cborx KeyDescriptor ModelSuite.
From S2P Require Import StoreMonad GlobalStore AnchorSchedule AnchorStore ProofLevel RecordSearch RecordIndex Outbox.
From S2P Require Import Merkle Claim Receipt Wal WalDir WalQueue Idempotency IdemIndex App BatchCheckpoint BatchStore BatchStoreProofs.
From S2P Require Import BatchService BatchServiceProofs.
From S2P Require Import Instances.
From S2P Require Import GlobalLogExamples AnchorScheduleProofs AnchorExamples AnchorStoreProofs AnchorStoreOps AnchorStoreExamples RecordSearchProofs RecordIndexOps RecordIndexExamples OutboxExamples.
From S2P Require Import AppExamples BatchCheckpointProofs.
From S2P Require Import BatchCommitted BatchQueue BatchReplay BatchReplayProofs.

Module batch_engine.
Import app app_batch.
Import batch_checkpoint (Accepted, Signed, Record_, Accepted_).

Section engine.
Context `{HashLib, SigLib, KeyDescriptorLib}.
Context `{CborMode CommittedReceipt.t, CborMode ServerRecord.t}.

(** [now] is the time of a batch without a closing time. *)
Definition local_engine (fuel : nat) (e : LocalEngine) (now : Z) : ComputeEngine := ComputeBatch fuel e now.

Lemma zip_items (items : list Accepted) :
  zip (zip (map Signed items) (map Record_ items)) (map Accepted_ items) = map (λ x, (Signed x, Record_ x, Accepted_ x)) items.
Proof. induction items as [|x items IH]; [done|]. cbn. by rewrite IH. Qed.

(** The bundle of an item. *)
Lemma proofJob_item fuel e suite b closed tree n signer i sc r a bundle :
  proofJob fuel e suite b closed tree n signer i (sc, r, a) = Ret bundle →
  bundle.(ProofBundle.ServerRecord) = r ∧ bundle.(ProofBundle.RecordID) = r.(Rec.RecordID) ∧
  bundle.(ProofBundle.CommittedReceipt).(CommittedReceipt.BatchID) = b.
Proof.
  unfold proofJob. intros E. go_inv. subst bundle. cbn. split_and!; [done..|].
  match goal with E : receipt.SignCommittedWithProvider _ _ _ = Ok _ |- _ =>
    unfold receipt.SignCommittedWithProvider in E end. ok_inv. by subst.
Qed.

Lemma proofJobs_item fuel e suite b closed tree n signer k items l i bundle :
  proofJobs fuel e suite b closed tree n signer k items = Ret l → l !! i = Some bundle →
  ∃ sc r a, items !! i = Some (sc, r, a) ∧ bundle.(ProofBundle.ServerRecord) = r ∧ bundle.(ProofBundle.RecordID) = r.(Rec.RecordID) ∧
    bundle.(ProofBundle.CommittedReceipt).(CommittedReceipt.BatchID) = b.
Proof.
  revert k l i. induction items as [|[[sc r] a] items IH]; intros k l i E Hi; [by injection E as <-|].
  cbn [proofJobs] in E. go_inv. subst l. destruct i as [|i]; [|by eapply IH]. injection Hi as ->.
  exists sc, r, a. split; [done|]. by eapply proofJob_item.
Qed.

#[export] Instance local_engine_laws fuel e now : @EngineLaws (local_engine fuel e now).
Proof.
  split; intros b t items o c i x E Hi; unfold engine_ComputeBatch, local_engine, ComputeBatch in E; rewrite zip_items in E;
    go_inv; destruct (negb (seqb (Mode o) _)); go_inv; subst c; cbn in Hi.
  - done.
  - match goal with E : proofJobs _ _ _ _ _ _ _ _ _ _ = Ret _ |- _ => rename E into Ej end.
    destruct (proofJobs_item _ _ _ _ _ _ _ _ _ _ _ _ _ Ej Hi) as (sc & r & a & Hit & ? & ? & ?).
    rewrite list_lookup_fmap in Hit. destruct (items !! i) as [item|]; [|done]. injection Hit as <- <- <-. by exists item.
  - rewrite list_lookup_imap, list_lookup_fmap in Hi. destruct (items !! i) as [item|]; [|done]. injection Hi as <-. by exists item.
  - rewrite list_lookup_imap, list_lookup_fmap in Hi. destruct (items !! i) as [item|]; [|done]. injection Hi as <-. by exists item.
Qed.
End engine.
End batch_engine.

(** * A concrete run of the batch service

    The first claim of the log is committed in a batch of its own, on a Pebble
    store: the batch is published, announced and covered by the checkpoint.  The
    theorems on the service are applied to it. *)

Module batch_examples.
Import batchstore batch batch_service_proofs batch_service_ops batch_replay batch_replay_ops.
Import globallog_examples (ex_empty, ok_codec).
Import app_examples (ex_signed, ex_engine, ex_env, ex_st0).
Import batch_checkpoint (mkAccepted).

#[local] Existing Instance recordindex_examples.idx_eq_dec.
#[local] Existing Instance recordsearch_examples.ascii_tables.
#[local] Existing Instance outbox_examples.error_name.
#[local] Existing Instances app_examples.codec_claim app_examples.codec_framing app_examples.codec_accepted.
#[local] Existing Instances app_examples.codec_committed app_examples.codec_signed.

(** ** The item *)

Definition ex_submit := Eval vm_compute in
  app.Submit ex_engine ex_env 7 (Some app_idempotency.NewIdempotencyIndex) (Some ex_st0) ex_signed.
Definition ex_rec : ServerRecord.t := match ex_submit.2 with Ret (r, _, _) => r | _ => ServerRecord.zero end.
Definition ex_acc : AcceptedReceipt.t := match ex_submit.2 with Ret (_, a, _) => a | _ => AcceptedReceipt.zero end.
Definition ex_item : batch_checkpoint.Accepted := mkAccepted ex_signed ex_rec ex_acc.

Example ex_position : batch_checkpoint.position ex_item = Pos.mk 1 0 1.
Proof. vm_compute. reflexivity. Qed.

(** ** The batch *)

#[local] Instance record_codec : CborMode ServerRecord.t := table_codec [ex_rec].
#[local] Instance engine : ComputeEngine := batch_engine.local_engine 63 ex_engine 0.
#[local] Instance engine_laws : EngineLaws := batch_engine.local_engine_laws 63 ex_engine 0.

Definition ex_batch : string := batch_id 9 1.
Example ex_batch_id : ex_batch = "batch-9-000001".
Proof. vm_compute. reflexivity. Qed.

Definition ex_commit : app_batch.BatchCommit := Eval vm_compute in
  match computeBatch ex_batch 9 [ex_item] BatchComputeMaterialized true with
  | Ret c => c
  | _ => app_batch.mkCommit "" BatchRoot.zero [] BatchTreeSnapshot.zero []
  end.
Definition ex_bundle : Bun.t := default Bun.zero (head (app_batch.C_Bundles ex_commit)).
Definition ex_preparing : Man.t := new_manifest ex_batch ex_commit [ex_item] 9.
Definition ex_manifest : Man.t := as_committed 9 ex_preparing.
Definition ex_idx : Idx.t := recordindex.with_level "L3" (RecordIndexFromBundle ex_bundle).
Definition ex_decision : Dec.t := Eval vm_compute in
  match idempotency.BuildDecisionWithProvider (Some trustcrypto.intlV1Provider) ex_batch ex_signed ex_rec ex_acc with
  | Ok d => d | Err _ => Dec.zero end.
Definition ex_checkpoint : WCp.t := WCp.mk SchemaWALCheckpoint cryptosuite.INTLV1 "" "" 1 1 0 ex_batch 9.
Definition ex_next_checkpoint : WCp.t := WCp.mk SchemaWALCheckpoint cryptosuite.INTLV1 "" "" 1 2 100 "batch-2" 9.


#[local] Instance bundle_codec : CborMode Bun.t := table_codec [ex_bundle].
#[local] Instance envelope_codec : CborMode storedProofBundleEnvelope := ok_codec _.
#[local] Instance idx_codec : CborMode Idx.t := table_codec [ex_idx].
#[local] Instance root_codec : CborMode BatchRoot.t := ok_codec _.
#[local] Instance manifest_codec : CborMode Man.t := table_codec [ex_preparing; ex_manifest].
#[local] Instance decision_codec : CborMode Dec.t := table_codec [ex_decision].
#[local] Instance leaf_tile_codec : CborMode batchTreeLeafTile := ok_codec _.
#[local] Instance node_tile_codec : CborMode batchTreeNodeTile := ok_codec _.
#[local] Instance checkpoint_codec : CborMode WCp.t := table_codec [ex_checkpoint; ex_next_checkpoint].
#[local] Instance idx_exact : CborModeExact Idx.t.
Proof. by apply table_exact. Qed.
#[local] Instance manifest_exact : CborModeExact Man.t.
Proof. by apply table_exact. Qed.
#[local] Instance manifest_injective : CborModeInjective Man.t.
Proof. by apply table_injective. Qed.
#[local] Instance decision_exact : CborModeExact Dec.t.
Proof. by apply table_exact. Qed.
#[local] Instance checkpoint_exact_codec : CborModeExact WCp.t.
Proof. by apply table_exact. Qed.

(** Compression that does not compress. *)
#[local] Instance ex_snappy : SnappyLib :=
  {| snappy_Encode := λ b, b; snappy_DecodedLen := λ b, Ok (len b); snappy_Decode := Ok |}.

(** ** The service *)

Definition ex_config (seq : Z) : Config := mkConfig cryptosuite.INTLV1 0 0 " Inline" 0 false seq true None.

Definition ex_index : recordindex.Store := recordindex_ops.empty recordindex.Full (anchorstore_ops.empty anchorstore_examples.ex_base).

(** The record of the log. *)
Definition ex_payload : bytes := match cborx.Marshal ex_signed with Ok b => b | Err _ => [] end.
Definition ex_log : wal.Record_.t := wal.Record_.mk cryptosuite.INTLV1 (Pos.mk 1 0 1) 7 ex_payload [] [].

(** The process stops when it publishes the batch.  The next one replays the
    log and recovers the batch, and stops when it stores the checkpoint.  The
    third one finds the record committed when it replays the log, and stores
    the checkpoint. *)
Definition ex_disk (n : nat) : outcome := if (n =? 3)%nat || (n =? 7)%nat then CrashBefore else Done.
Definition ex_init : State := init (ex_config 0) (λ _, 9) ex_index ex_disk true.
Definition ex_visit : event := Visit 63 9 ex_engine Queued ex_log.
Definition ex_crash : list event := [Op (Commit_ [ex_item]); Op (Restart (ex_config 1))].
Definition ex_recovery : list event := [StartReplay [ex_preparing] (Ok tt) None; ex_visit; EndScan 9; RecoverNext; Op (Start 9)].
Definition ex_scan : list event := [Op (Restart (ex_config 1)); StartReplay [ex_manifest] (Ok tt) None; ex_visit; EndScan 9; Op (Start 9)].

Definition ex_x1 : State := after ex_crash ex_init.
Definition ex_x2 : State := after ex_recovery ex_x1.
Definition ex_x3 : State := after ex_scan ex_x2.

Definition ex_root : BatchRoot.t := rootFromBundles ex_batch [ex_bundle].
Definition announcements (x : State) : list BatchRoot.t :=
  omap (λ e, match e with BatchCommitted r => Some r | _ => None end) (events (service x)).

(** Nothing is announced before the first crash. *)
Example ex_crashed : (announcements ex_x1, GetManifest ex_batch (store (service ex_x1))) = ([], Ok ex_preparing).
Proof. vm_compute. reflexivity. Qed.

(** The recovered batch is committed, but not covered by a checkpoint. *)
Example ex_recovered :
  GetManifest ex_batch (store (service ex_x2)) = Ok ex_manifest ∧
  GetBundle (record_id ex_item) (store (service ex_x2)) = Ok ex_bundle ∧
  alive (store (service ex_x2)) = false ∧ GetCheckpoint (store (service ex_x2)) = Ok None.
Proof. vm_compute. split_and!; reflexivity. Qed.

Lemma ex_published : GetManifest ex_batch (store (service ex_x2)) = Ok ex_manifest.
Proof. vm_compute. reflexivity. Qed.

Lemma ex_announced : BatchCommitted ex_root ∈ events (service ex_x2).
Proof. apply (list_elem_of_lookup_2 _ 1). vm_compute. reflexivity. Qed.

(** The replay finds the record committed. *)
Lemma ex_checkpointed : GetCheckpoint (store (service ex_x3)) = Ok (Some ex_checkpoint).
Proof. vm_compute. reflexivity. Qed.

Lemma ex_range : in_range [ex_item].
Proof. repeat constructor; vm_compute; discriminate || reflexivity. Qed.
Lemma ex_load : load_ok None.
Proof. by intros load m items. Qed.

Lemma ex_fresh : fresh (store (service ex_init)) (next_id (service ex_init)) [ex_item].
Proof. split; [apply lookup_empty|]. intros id b' _ (ids & (v & m & Hv & _) & _). done. Qed.

Lemma ex_visits x : allowed x ex_visit.
Proof. split; vm_compute; discriminate || reflexivity. Qed.

Lemma ex_crash_history : history ex_init ex_crash ex_x1.
Proof.
  unfold ex_crash. apply history_cons; [exact (conj ex_fresh ex_range)|]. apply history_cons; [exact ex_load|apply history_nil].
Qed.

Lemma ex_recovery_history : history ex_x1 ex_recovery ex_x2.
Proof.
  unfold ex_recovery. apply history_cons; [exact Logic.I|]. apply history_cons; [apply ex_visits|].
  apply history_cons; [exact Logic.I|]. apply history_cons; [vm_compute; reflexivity|].
  apply history_cons; [exact Logic.I|apply history_nil].
Qed.

Lemma ex_scan_history : history ex_x2 ex_scan ex_x3.
Proof.
  unfold ex_scan. apply history_cons; [exact ex_load|]. apply history_cons; [exact Logic.I|].
  apply history_cons; [apply ex_visits|]. apply history_cons; [exact Logic.I|].
  apply history_cons; [exact Logic.I|apply history_nil].
Qed.

Lemma history_app x vs y vs' z : history x vs y → history y vs' z → history x (vs ++ vs') z.
Proof. induction 1; [done|]. intros Hh. constructor; auto. Qed.

Lemma ex_service_history : history ex_init (ex_crash ++ ex_recovery) ex_x2.
Proof. exact (history_app _ _ _ _ _ ex_crash_history ex_recovery_history). Qed.
Lemma ex_whole_history : history ex_init ((ex_crash ++ ex_recovery) ++ ex_scan) ex_x3.
Proof. exact (history_app _ _ _ _ _ ex_service_history ex_scan_history). Qed.

Lemma pruned_is_proved_witness :
  ∃ m id b, batchstore_ops.committed (store (service ex_x3)) m ∧ id ∈ m.(Man.RecordIDs) ∧
    GetBundle id (store (service ex_x3)) = Ok b ∧ b.(Bun.ServerRecord).(ServerRecord.WAL).(Pos.Sequence) = 1.
Proof.
  apply (pruned_is_proved (ex_config 0) (λ _, 9) ex_index ex_disk true _ ex_x3 ex_checkpoint 1 ex_load ex_whole_history
    (or_introl ex_checkpointed)). vm_compute. split; discriminate.
Defined.

Lemma announced_is_durable_witness :
  ∃ m, batchstore_ops.committed (store (service ex_x3)) m ∧ m.(Man.BatchID) = ex_batch.
Proof.
  destruct (announced_is_durable (ex_config 0) (λ _, 9) ex_index ex_disk true _ ex_x2 ex_root _ _ ex_load ex_service_history
    ex_announced ex_scan_history) as (m & Hm & Hb & _).
  exists m. split; [exact Hm|exact Hb].
Defined.

Lemma committed_batch_kept_witness :
  GetManifest ex_batch (store (service ex_x3)) = Ok ex_manifest ∧ ex_manifest.(Man.RecordIDs) = [record_id ex_item] ∧
  ∃ b, GetBundle (record_id ex_item) (store (service ex_x2)) = Ok b ∧ GetBundle (record_id ex_item) (store (service ex_x3)) = Ok b.
Proof.
  destruct (committed_batch_kept (ex_config 0) (λ _, 9) ex_index ex_disk true _ ex_x2 ex_batch ex_manifest _ ex_x3 ex_load
    ex_service_history ex_published eq_refl ex_scan_history) as (Hm & Hb & _).
  split; [exact Hm|]. split; [vm_compute; reflexivity|].
  destruct (Hb 0%nat (record_id ex_item)) as (b & H2 & H3 & _); [vm_compute; reflexivity|]. exists b. split; [exact H2|exact H3].
Defined.

(** ** The queue *)

(** A record is collected and committed when the timer fires; a producer that
    comes too late is refused and the worker ends. *)
Definition ex_steps : list batch_queue.step :=
  [batch_queue.TakeSlot ex_item; batch_queue.TakeSlot ex_item; batch_queue.Enqueue 0; batch_queue.Receive; batch_queue.TimerFired;
   batch_queue.Close; batch_queue.Enqueue 0; batch_queue.Finish].
Definition ex_queue : batch_queue.Queue :=
  batch_queue.run ex_steps (batch_queue.New (ex_config 0) (λ _, 9) 0 (batch_committed.empty ex_index (λ _, Done) true)).
Example ex_queue_run :
  batch_queue.calls ex_queue = [Accept ex_item; Commit_ [ex_item]; Refuse ex_item; Commit_ []] ∧
  batch_queue.ingestDone ex_queue = true ∧ GetManifest ex_batch (store (batch_queue.service ex_queue)) = Ok ex_manifest.
Proof. vm_compute. split_and!; reflexivity. Qed.

(** ** The checkpoint *)

#[local] Existing Instance batchstore_proofs.pebble_checkpoints.
#[local] Existing Instance batchstore_proofs.pebble_checkpoint_laws.

(** A process on the store with the checkpoint of record 1 commits record 2. *)
Definition ex_cp_store : Store := Open (store (service ex_x3)).
Definition ex_second : batch_checkpoint.Accepted := 
  mkAccepted ex_signed (ServerRecord.mk "" "" "second" "" "" "" [] [] 0 (Pos.mk 1 100 2) Validation.zero) ex_acc.
Definition ex_cp_opts : batch_checkpoint.Options := checkpoint_opts (configure (ex_config 0) ex_cp_store).
Definition ex_cp_ops : list (@batch_checkpoint_ops.op Store) := [batch_checkpoint_ops.Commit 9 "batch-2" [ex_second]].
Definition ex_cp_run : batch_checkpoint.Service Store :=
  batch_checkpoint_ops.run ex_cp_opts ex_cp_ops (batch_checkpoint.New true ex_cp_store).
Definition ex_cp_started := batch_checkpoint.StartCheckpointAdvance ex_cp_opts 9 ex_cp_run.

Lemma ex_cp_found : BatchCheckpoint.GetCheckpoint ex_cp_store = Ok (Some ex_checkpoint).
Proof. vm_compute. reflexivity. Qed.

Lemma ex_cp_result :
  batch_checkpoint.StartCheckpointAdvance ex_cp_opts 9
    (batch_checkpoint_ops.run ex_cp_opts ex_cp_ops (batch_checkpoint.New true ex_cp_store)) = (ex_cp_started.1, Ok true).
Proof.
  assert (ex_cp_started.2 = Ok true) as <- by (vm_compute; reflexivity). unfold ex_cp_started, ex_cp_run. apply surjective_pairing.
Qed.

Lemma ex_cp_unique : batch_checkpoint_ops.unique (batch_checkpoint_ops.known ex_cp_ops ex_cp_store).
Proof.
  assert (∀ p, batch_checkpoint_ops.known ex_cp_ops ex_cp_store p → p = Pos.mk 1 100 2 ∨ p = Pos.mk 1 0 1) as Hp.
  { intros p [(o & Ho & Hp)|(cp & Hcp & ->)].
    - apply list_elem_of_singleton in Ho. subst o. cbn in Hp. apply list_elem_of_singleton in Hp. by left.
    - rewrite ex_cp_found in Hcp. injection Hcp as <-. by right. }
  intros p q [-> | ->]%Hp [-> | ->]%Hp E; done || discriminate E.
Qed.

Lemma ex_cp_enabled : batch_checkpoint.checkpointEnabled ex_cp_opts = true ∧ batch_checkpoint.configErr ex_cp_opts = None.
Proof. vm_compute. split; reflexivity. Qed.

Lemma checkpoint_exact_witness :
  let f := (batch_checkpoint.checkpointFrontier ex_cp_started.1).(WCp.LastSequence) in
  let g := batch_checkpoint_proofs.stored_seq ex_cp_store in
  f = 2 ∧ g = 1 ∧ ∀ n, 1 <= n → n <= f ↔ ∀ m, 1 <= m <= n → m <= g ∨ batch_checkpoint_ops.committed ex_cp_ops m.
Proof.
  split; [vm_compute; reflexivity|]. split; [vm_compute; reflexivity|].
  refine (proj1 (batch_checkpoint_ops.checkpoint_exact ex_cp_opts ex_cp_ops true ex_cp_store 9 ex_cp_started.1 true
    (proj1 ex_cp_enabled) (proj2 ex_cp_enabled) _ _ _ ex_cp_unique ex_cp_result _)).
  - intros cp E. rewrite ex_cp_found in E. injection E as <-. vm_compute. split; [discriminate|reflexivity].
  - repeat constructor; vm_compute; discriminate || reflexivity.
  - repeat constructor.
  - vm_compute. reflexivity.
Defined.

(** ** Compressed bundles *)

(** One value with its encoding. *)
Definition single_codec {A} `{EqDecision A} (a : A) (v : bytes) : CborMode A :=
  {| encMode_Marshal := λ x, if decide (x = a) then Ok v else Err (ErrorsNew "unknown value");
     decMode_Unmarshal := λ b, if bytes_equal b v then Ok a else Err (ErrorsNew "unknown bytes") |}.

(** Zeros are replaced by their number. *)
Definition all_zero (b : bytes) : bool := bytes_equal b (replicate (length b) x00) && (len b <? two64).
Definition rle_encode (b : bytes) : bytes := if all_zero b then Byte.x01 :: be_put 8 (len b) else x00 :: b.
Definition rle_decode (b : bytes) : result bytes :=
  match b with
  | Byte.x01 :: n => Ok (replicate (Z.to_nat (be_get n)) x00)
  | _ :: b => Ok b
  | [] => Err (ErrorsNew "snappy: corrupt input")
  end.

Lemma rle_roundtrip b : rle_decode (rle_encode b) = Ok b.
Proof.
  unfold rle_encode. destruct (all_zero b) eqn:E; [|done]. apply andb_true_iff in E as [Eb El]. bsimpl. cbn [rle_decode].
  rewrite be_get_put, Z.mod_small by (unfold len, two64 in *; lia). unfold len. by rewrite Nat2Z.id, <- Eb.
Qed.

Module compressed.
Definition raw : bytes := replicate 5000 x00.
Definition envelope : storedProofBundleEnvelope :=
  mkEnvelope schemaStoredProofBundleV2 storedBundleCodecSnappy (rle_encode raw).

#[local] Instance rle : SnappyLib :=
  {| snappy_Encode := rle_encode; snappy_DecodedLen := λ b, d ← rle_decode b; Ok (len d); snappy_Decode := rle_decode |}.
#[local] Instance rle_laws : SnappyLaws.
Proof. split; intros b; cbn; by rewrite rle_roundtrip. Qed.

#[local] Instance envelope_eq_dec : EqDecision storedProofBundleEnvelope.
Proof. solve_decision. Defined.
#[local] Instance raw_codec : CborMode Bun.t := single_codec ex_bundle raw.
#[local] Instance env_codec : CborMode storedProofBundleEnvelope := single_codec envelope [Byte.x02].
#[local] Instance bundle_text : CborText Bun.t := λ _, true.
#[local] Instance envelope_text : CborText storedProofBundleEnvelope := λ _, true.

Lemma single_roundtrip {A} `{EqDecision A} (a : A) v :
  @CborModeRoundTrip A (single_codec a v) (λ _, true).
Proof.
  split; [|done]. intros x b E _. cbn in *. case_decide; [|done]. subst x. injection E as <-. by rewrite bytes_equal_refl.
Qed.
#[local] Instance raw_roundtrip : CborModeRoundTrip Bun.t := single_roundtrip _ _.
#[local] Instance env_roundtrip : CborModeRoundTrip storedProofBundleEnvelope := single_roundtrip _ _.
#[local] Instance distinct : BundleEnvelope.
Proof.
  intros b v env E D. cbn in E. case_decide; [|done]. injection E as <-. vm_compute in D. discriminate D.
Qed.

Lemma stored_bundle_roundtrip_witness :
  encodeStoredProofBundle ex_bundle = Ok [Byte.x02] ∧ decodeStoredProofBundle [Byte.x02] = Ok ex_bundle.
Proof.
  assert (encodeStoredProofBundle ex_bundle = Ok [Byte.x02]) as E by (vm_compute; reflexivity). split; [exact E|].
  apply (batchstore_proofs.stored_bundle_roundtrip ex_bundle [Byte.x02] E eq_refl (λ _, eq_refl)).
  - vm_compute. discriminate.
  - intros raw' Er. assert (raw' = raw) as -> by (vm_compute in Er; by injection Er as <-). vm_compute. split; [reflexivity|discriminate].
  - vm_compute. split; [reflexivity|discriminate].
Defined.
End compressed.
End batch_examples.
